(* ===== verification/_CoqProject ===== *)
-Q . S2P
Prelude.v
Opcode.v
Leb128.v
Float.v
Rounding.v
Numeric.v
NumericFacts.v
Interp.v
InterpFacts.v
InterpOps.v
InterpControl.v
Literal.v
LiteralFacts.v
Vector.v
BindingHash.v
Ast.v
StateOpt.v
StateErr.v
Visitor.v
ResolveNames.v
Stream.v
Validator.v
ValidatorFacts.v
ValidatorModule.v
BinaryWriter.v
BinaryReader.v
BinaryReaderInterpreter.v
ReaderFacts.v
BinaryFormat.v
Compile.v
WriterFacts.v
RoundTrip.v
LoaderFaults.v
CompileFacts.v
CompileBody.v
CompileCode.v
Structured.v
MachineRun.v
CompileRun.v
Soundness.v
CompileCorrect.v
BinaryReaderAst.v
AstTree.v
AstRoundTrip.v
ResolveFacts.v
ApplyNames.v
ApplyFacts.v
GenerateNames.v
GenerateFacts.v
