(* ===== verification/Prelude.v ===== *)
(** * WABT: a verification development for the WebAssembly binary toolkit

    The program is a set of command-line tools over a C library: wast2wasm
    parses, checks and assembles the text format, wasm2wast disassembles,
    wasm-interp runs modules, wast-desugar prints the text format back.

    <<
      text --lexer, parser--> syntax tree --resolve-names--> syntax tree
                                  |   ^                          |
                              validator \-- binary-reader-ast     |
                                              |            binary-writer
                                           callbacks             |
                                              |                  v
                 interpreter <-- callbacks -- binary-reader <-- bytes
    >>

    Everything between the bytes, the tree and the machine is modelled here;
    the lexer and the parser are re2c and bison files, see below.

    ** Conventions

    A [w]-bit C integer is a [Z] in [[0, 2^w)] ([in_u]), with [wrap] where C
    wraps around and [to_signed] for its signed reading; floats are their bits
    (Float.v).  Undefined behaviour - a failed [assert], an access outside a
    block, an out-of-range cast - is a value of the models ([None], or an
    [Undef] outcome), so that theorems can say it does not happen.  The
    allocator does not fail: the code ends the process when it does.  Messages
    and source locations are left out; whether an error is reported is not.

    ** The files

    - Prelude.v (this file): C integers, byte arithmetic, lists indexed by [Z],
      and the tactics the other files share.
    - Opcode.v: common.h, common.c: types, the opcode table [g_wasm_opcode_info],
      alignments.
    - Leb128.v: the LEB128 readers of binary-reader.c and writers of
      binary-writer.c.
    - Float.v, Rounding.v: IEEE-754 on bits, over the Standard Library's
      [spec_float]; rounding as one division.
    - Numeric.v, NumericFacts.v: the operators of interpreter.c (its macros) and
      what they compute.
    - Interp.v, InterpFacts.v, InterpOps.v, InterpControl.v: interpreter.h and
      interpreter.c: environment, thread, [step] (one round of the loop of
      [wasm_run_interpreter]), the invariant of the machine, the instructions,
      control transfer and calls.
    - Literal.v, LiteralFacts.v: literal.c.
    - Vector.v: vector.h, vector.c.  BindingHash.v: binding-hash.h, binding-hash.c.
    - Ast.v: ast.h, ast.c: the syntax tree and its lookups.  StateOpt.v: the
      state monad of the code that walks it.
    - StateErr.v: the monad of code that can also report an error.  Visitor.v:
      the visitor of expressions of ast.c.  ResolveNames.v, ResolveFacts.v:
      resolve-names.c and what it computes.  ApplyNames.v, ApplyFacts.v:
      apply-names.c, the way back, against what a module means.
      GenerateNames.v, GenerateFacts.v: generate-names.c, and the three passes
      together.
    - Validator.v, ValidatorFacts.v, ValidatorModule.v: validator.c, expression
      typing, and the validity of modules and scripts.
    - Stream.v: stream.c, writer.c: streams over the classes [WasmWriter],
      [WriterWrites] and [WriterMoves], with the memory and the file writer as
      instances.
    - BinaryWriter.v: binary-writer.c.  BinaryReader.v, ReaderFacts.v:
      binary-reader.c over an arbitrary table of callbacks.
    - BinaryFormat.v, WriterFacts.v, RoundTrip.v: the binary format as a
      specification ([BModule], [encode], [callbacks]) and the proofs that the
      writer writes it and the reader reads it.
    - BinaryReaderAst.v, AstTree.v, AstRoundTrip.v: binary-reader-ast.c, the tree
      of a binary module, and the way from a module through the writer, the
      reader and the callbacks to its tree.
    - BinaryReaderInterpreter.v: binary-reader-interpreter.c, the loader: the
      environment, imports and exports, marks, the translation of bodies.
      LoaderFaults.v: modules on which it goes wrong.
    - Compile.v, CompileFacts.v, CompileBody.v, CompileCode.v: the loader's one
      pass over a code section against a structured translation ([comp]), in
      which branches and calls have names until their addresses are known.
    - Structured.v, MachineRun.v, CompileRun.v, CompileCorrect.v: an evaluator of
      structured code ([exec], [call]), runs of the machine between states that
      stand for values ([runs], [machine]), the simulation of the one by the
      other, and its statement for loaded modules.  Soundness.v: types for the
      evaluator, and that code which passes the type checks is never stuck, for
      any fuel; runs are counted in instructions, so that calls which do not
      end are covered.

    The files about the loader meet those about the machine only in CompileRun.v
    and CompileCorrect.v: [comp] is the interface between them.

    ** What the theorems show

    - The interpreter: a run from a well-formed machine leaves a well-formed
      machine with the same read-only parts (the lemma [run_interpreter_safe]);
      each instruction does what WebAssembly defines, traps included
      ([integer_instructions_correct], [load_instructions_correct],
      [store_instructions_correct],
      [br_table_correct], [call_return_correct], [call_indirect_correct],
      [call_host_correct], [grow_memory_correct], [stack_instructions_correct],
      [global_instructions_correct], the float conversions); the
      failure of a host function is ignored ([host_trap_is_lost]).
    - The validator against declarative typing rules, for expressions
      ([check_expr_correct]) and scripts ([wasm_validate_script_correct]).  Its
      verdict is the rules with six departures, those of [has_type true]:
      [tee_local] takes any type, [call_indirect] without parameters does not
      look for its index, the index of a local is cut to an [int], the targets
      of a [br_table] are checked one by one, immutable globals may be set, and
      blocks and function types may have several results.  Against the typing
      rules of the language, [has_type false], it accepts what is valid, and
      what it accepts is valid where none of the departures is used.
    - The binary format: the writer refines [encode] over any lawful writer, the
      reader ends on any bytes and stays inside them, and what is written is read
      back ([binary_roundtrip]); the LEB128 codecs against reference decoders.
    - Literals: hexadecimal floats round trip; integer literals are the numerals,
      below 2^64, and those just above are refused ([integer_literals_correct]).
    - Containers: vectors refine lists, binding hashes refine finite maps.
    - Loading and running: [code_section_translated] says that the loader
      computes the structured translation, fixups included;
      [compiled_code_correct] puts it together with the machine: a function of a
      loaded module computes what the evaluator says, for code that the loader
      takes and that passes three checks the loader lacks ([extra_codes]: the
      types of the label at a [br_if], an exact stack at [else], no result of an
      [if] without one; see [loader_faults]).  [loaded_code_type_safe] says of
      such code that it finds operands of the types it asks for, that the machine
      never does anything undefined, after any number of instructions, and that
      it ends with typed results, a trap or a full stack if it ends.
    - Name resolution computes the reference resolution ([resolve_names_correct])
      and leaves no names ([resolve_names_closed]).  Using names is a reference
      function; for modules whose exports are functions and whose names are clear
      it names every variable of a body, a declaration, an export or a segment's
      reference without changing what the module resolves to
      ([apply_names_correct]); generated names are clear enough for that
      ([generated_names_back]).  Reading a written module as a tree gives back the
      tree ([ast_roundtrip]).
    - Faults: the lemmas named [*_faults], [*_unchecked], ... exhibit inputs on
      which the code departs from its documentation or from WebAssembly.

    ** Fuel and bounds

    A loop that is not structural takes fuel, which no theorem assumes to be
    enough: the reader's loops get one more than the bytes left, each round
    reads a byte, and [wasm_read_binary_total] shows that none runs out; the
    LEB128 writers get the size of their buffer; the significand loops of
    literal.c get the number of nybbles of the format; hash chains get the
    number of entries.  [wasm_run_interpreter] takes the instruction count
    it has in the code.

    ** Not modelled

    - ast-lexer.c (re2c), ast-parser.y (bison) and the prebuilt C generated from
      them: table-driven automata with goto; their semantic actions only build
      the tree.
    - The printers: ast-writer.c, binary-reader-objdump.c, binary-reader-opcnt.c,
      binary-writer-spec.c, the logging reader of binary-reader.c, the tracer and
      disassembler of interpreter.c, log streams.  They only do I/O.
    - tools/*.c and option-parser.c: command-line drivers.
    - State of host functions: a callback is a function of the signature and the
      arguments, without its [user_data].
    - allocator.c, config.c, emscripten-helpers.c, ast-parser-lexer-shared.c: glue
      over libc.
    - stack-allocator.c: an arena over malloc; the models have values, not
      addresses.
*)

From stdpp Require Export base tactics numbers list strings.
From Stdlib Require Export ZArith Lia.

#[global] Open Scope Z_scope.

(** ** C integers

    A [w]-bit unsigned C integer is a [Z] in [[0, 2^w)]; conversion to such a
    type is [wrap].  A signed object of the same width is represented by the
    unsigned value of its bits, and [to_signed] is the signed reading (the
    code's [bitcast_u32_to_i32] and [bitcast_u64_to_i64]). *)

Definition wrap (w x : Z) : Z := x mod 2 ^ w.

Definition in_u (w x : Z) : Prop := 0 <= x < 2 ^ w.

Definition in_s (w x : Z) : Prop := - 2 ^ (w - 1) <= x < 2 ^ (w - 1).

Definition to_signed (w x : Z) : Z :=
  if x <? 2 ^ (w - 1) then x else x - 2 ^ w.

Abbreviation u8 := (wrap 8).
Abbreviation u32 := (wrap 32).
Abbreviation u64 := (wrap 64).

#[global] Instance in_u_dec w x : Decision (in_u w x).
Proof. unfold in_u. apply _. Defined.

#[global] Instance in_s_dec w x : Decision (in_s w x).
Proof. unfold in_s. apply _. Defined.

(** The C booleans the macros push: [lhs < rhs] is the int 0 or 1. *)
Definition b2z (b : bool) : Z := if b then 1 else 0.

(** ** Results: [WasmResult] of common.h *)

Inductive WasmResult : Set := WASM_OK | WASM_ERROR.

#[global] Instance WasmResult_eq_dec : EqDecision WasmResult.
Proof. solve_decision. Defined.

Definition WASM_SUCCEEDED (r : WasmResult) : bool :=
  match r with WASM_OK => true | WASM_ERROR => false end.

Definition WASM_FAILED (r : WasmResult) : bool :=
  match r with WASM_OK => false | WASM_ERROR => true end.

(** ** Bytes in memory: little-endian images of integers *)

(** [le_bytes n x]: the [n] bytes [memcpy] copies out of an integer [x]. *)
Fixpoint le_bytes (n : nat) (x : Z) : list Z :=
  match n with
  | O => []
  | S n' => (x mod 256) :: le_bytes n' (x / 256)
  end.

(** [of_le l]: the unsigned integer whose image is [l]. *)
Fixpoint of_le (l : list Z) : Z :=
  match l with
  | [] => 0
  | b :: l' => b + 256 * of_le l'
  end.

Abbreviation bytes_ok := (Forall (in_u 8)).

(** ** Tactics *)

(** Destruct the boolean comparison tests of a goal and its context. *)
Ltac zbool :=
  repeat match goal with
  | H : context [?a <? ?b] |- _ => destruct (Z.ltb_spec a b)
  | H : context [?a <=? ?b] |- _ => destruct (Z.leb_spec a b)
  | H : context [?a =? ?b] |- _ => destruct (Z.eqb_spec a b)
  | |- context [?a <? ?b] => destruct (Z.ltb_spec a b)
  | |- context [?a <=? ?b] => destruct (Z.leb_spec a b)
  | |- context [?a =? ?b] => destruct (Z.eqb_spec a b)
  end.

(** Evaluate closed powers of two, so that [lia] sees numerals. *)
Ltac zpow :=
  repeat match goal with
  | H : context [2 ^ ?n] |- _ =>
      lazymatch isZcst n with true =>
        let r := eval vm_compute in (2 ^ n) in change (2 ^ n) with r in H end
  | |- context [2 ^ ?n] =>
      lazymatch isZcst n with true =>
        let r := eval vm_compute in (2 ^ n) in change (2 ^ n) with r end
  end.

Ltac ulia := unfold in_u, in_s, wrap in *; zpow; lia.

(** [lia] and [nia] after turning divisions and remainders into equations. *)
Ltac dlia := Z.div_mod_to_equations; lia.
Ltac dnia := Z.div_mod_to_equations; nia.

(** ** Lemmas on [wrap] and [to_signed] *)

Create HintDb wabt.

Lemma wrap_in_u w x : 0 <= w -> in_u w (wrap w x).
Proof. intros. unfold in_u, wrap. apply Z.mod_pos_bound. lia. Qed.

Lemma wrap_id w x : in_u w x -> wrap w x = x.
Proof. unfold in_u, wrap. intros. by apply Z.mod_small. Qed.

Lemma wrap_idemp w x : 0 <= w -> wrap w (wrap w x) = wrap w x.
Proof. intros. by apply wrap_id, wrap_in_u. Qed.

Lemma wrap_add_l w x y : wrap w (wrap w x + y) = wrap w (x + y).
Proof. unfold wrap. by rewrite Zplus_mod_idemp_l. Qed.

Lemma wrap_add_r w x y : wrap w (x + wrap w y) = wrap w (x + y).
Proof. unfold wrap. by rewrite Zplus_mod_idemp_r. Qed.

Lemma wrap_mul_l w x y : wrap w (wrap w x * y) = wrap w (x * y).
Proof. unfold wrap. by rewrite Zmult_mod_idemp_l. Qed.

(** Congruence modulo [2^w] is equality after [wrap]. *)
Lemma wrap_eq_add w x y k : x = y + k * 2 ^ w -> wrap w x = wrap w y.
Proof. intros ->. unfold wrap. apply Z_mod_plus_full. Qed.

Lemma in_u_mono v w x : 0 <= v <= w -> in_u v x -> in_u w x.
Proof.
  unfold in_u. intros. pose proof (Z.pow_le_mono_r 2 v w ltac:(lia) ltac:(lia)). lia.
Qed.

Lemma in_u_0 w : 0 <= w -> in_u w 0.
Proof. unfold in_u. lia. Qed.

Lemma to_signed_in_s w x : 0 < w -> in_u w x -> in_s w (to_signed w x).
Proof.
  unfold in_u, in_s, to_signed. intros.
  replace (2 ^ w) with (2 * 2 ^ (w - 1)) in *
    by (rewrite <- Z.pow_succ_r by lia; f_equal; lia).
  zbool; lia.
Qed.

Lemma wrap_to_signed w x : 0 < w -> in_u w x -> wrap w (to_signed w x) = x.
Proof.
  intros Hw Hx. rewrite <- (wrap_id w x) at 2 by done.
  unfold to_signed. zbool; [done|]. apply wrap_eq_add with (k := -1). lia.
Qed.

Lemma to_signed_wrap w x : 0 < w -> in_s w x -> to_signed w (wrap w x) = x.
Proof.
  unfold in_s, to_signed, wrap. intros Hw Hx.
  assert (2 ^ w = 2 * 2 ^ (w - 1)) as E
    by (rewrite <- Z.pow_succ_r by lia; f_equal; lia).
  destruct (decide (0 <= x)).
  - rewrite Z.mod_small by lia. zbool; lia.
  - replace (x mod 2 ^ w) with (x + 2 ^ w).
    + zbool; lia.
    + rewrite <- (Z_mod_plus_full x 1). rewrite Z.mod_small; lia.
Qed.

Lemma to_signed_inj w x y :
  0 < w -> in_u w x -> in_u w y -> to_signed w x = to_signed w y -> x = y.
Proof.
  intros Hw Hx Hy E. rewrite <- (wrap_to_signed w x), <- (wrap_to_signed w y) by done.
  by rewrite E.
Qed.

#[export] Hint Resolve wrap_in_u in_u_0 : wabt.

(** ** Lemmas on bytes *)

Lemma length_le_bytes n x : length (le_bytes n x) = n.
Proof. revert x. induction n; intros; simpl; f_equal; auto. Qed.

Lemma le_bytes_ok n x : bytes_ok (le_bytes n x).
Proof.
  revert x. induction n; intros; simpl; constructor; auto.
  unfold in_u. apply (Z.mod_pos_bound x 256). lia.
Qed.

Lemma of_le_bytes n x : of_le (le_bytes n x) = x mod 2 ^ (8 * Z.of_nat n).
Proof.
  revert x. induction n; intros x; cbn [le_bytes of_le].
  - by rewrite Z.mod_1_r.
  - rewrite IHn. replace (8 * Z.of_nat (S n)) with (8 + 8 * Z.of_nat n) by lia.
    rewrite Z.pow_add_r by lia. change (2 ^ 8) with 256.
    rewrite Z.rem_mul_r by lia. lia.
Qed.

Lemma of_le_bound l : bytes_ok l -> 0 <= of_le l < 2 ^ (8 * Z.of_nat (length l)).
Proof.
  induction 1 as [|b l Hb _ IH]; [cbn; lia|].
  cbn [of_le length].
  replace (8 * Z.of_nat (S (length l))) with (8 + 8 * Z.of_nat (length l)) by lia.
  rewrite Z.pow_add_r by lia. unfold in_u in Hb. change (2 ^ 8) with 256 in *. nia.
Qed.

Lemma le_bytes_of_le l : bytes_ok l -> le_bytes (length l) (of_le l) = l.
Proof.
  induction 1 as [|b l Hb _ IH]; [done|]. cbn [length of_le le_bytes].
  unfold in_u in Hb. change (2 ^ 8) with 256 in Hb.
  rewrite (Z.mul_comm 256). rewrite Z_mod_plus_full, Z.mod_small by lia.
  rewrite Z.div_add, Z.div_small by lia. by rewrite Z.add_0_l, IH.
Qed.

Lemma of_le_bytes_in_u n x :
  in_u (8 * Z.of_nat n) x -> of_le (le_bytes n x) = x.
Proof. intros. rewrite of_le_bytes. by apply Z.mod_small. Qed.

(** A decidable fact about one byte is checked on all 256 of them. *)
Lemma byte_check (f : Z -> bool) :
  forallb f (seqZ 0 256) = true -> forall b, in_u 8 b -> f b = true.
Proof.
  intros H b Hb. rewrite List.forallb_forall in H. apply H.
  rewrite <- list_elem_of_In, elem_of_seqZ. unfold in_u in Hb. lia.
Qed.

(** [a | b] is [a + b] when the bits of [b] are below those of [a]. *)
Lemma lor_shiftl_add x b s :
  0 <= s -> 0 <= b < 2 ^ s -> Z.lor (x * 2 ^ s) b = x * 2 ^ s + b.
Proof.
  intros Hs Hb. symmetry. apply Z.add_nocarry_lor. apply Z.bits_inj'. intros n Hn.
  rewrite Z.land_spec, Z.bits_0. destruct (decide (n < s)).
  - by rewrite Z.mul_pow2_bits_low.
  - rewrite (proj1 (Z.bounded_iff_bits_nonneg s b Hs ltac:(lia)) ltac:(lia)) by lia.
    apply andb_false_r.
Qed.

(** Masking with [2^n - 1]. *)
Lemma land_mask a m n : 0 <= n -> m = Z.ones n -> Z.land a m = a mod 2 ^ n.
Proof. intros ? ->. by apply Z.land_ones. Qed.

#[export] Hint Resolve le_bytes_ok : wabt.
Create Rewrite HintDb wabt_len.
#[export] Hint Rewrite length_le_bytes : wabt_len.

(** ** Arrays indexed by C integers

    [a !!! i] in C is undefined out of bounds; [zget] and [zset] return [None]
    there, and the models that use them turn it into undefined behaviour. *)

Definition zget {A} (l : list A) (i : Z) : option A :=
  if i <? 0 then None else l !! Z.to_nat i.

Definition zset {A} (l : list A) (i : Z) (x : A) : option (list A) :=
  if (0 <=? i) && (i <? Z.of_nat (length l)) then Some (<[Z.to_nat i := x]> l) else None.

(** [n] elements starting at index [i]. *)
Definition zslice {A} (l : list A) (i n : Z) : option (list A) :=
  if (0 <=? i) && (0 <=? n) && (i + n <=? Z.of_nat (length l))
  then Some (take (Z.to_nat n) (drop (Z.to_nat i) l)) else None.

(** Overwrite [length bs] elements starting at index [i] ([memcpy] into an
    array). *)
Definition zblit {A} (l : list A) (i : Z) (bs : list A) : option (list A) :=
  if (0 <=? i) && (i + Z.of_nat (length bs) <=? Z.of_nat (length l))
  then Some (take (Z.to_nat i) l ++ bs ++ drop (Z.to_nat i + length bs) l) else None.

Section arrays.
Context {A : Type}.
Implicit Types (l bs : list A) (i n : Z) (x : A).

Lemma zget_Some l i x :
  zget l i = Some x <-> 0 <= i /\ l !! Z.to_nat i = Some x.
Proof.
  unfold zget. destruct (Z.ltb_spec i 0); split; try done; [intros [? _]; lia|by intros [_ ?]].
Qed.

Lemma zget_is_Some l i : 0 <= i < Z.of_nat (length l) -> exists x, zget l i = Some x.
Proof.
  intros. destruct (lookup_lt_is_Some_2 l (Z.to_nat i)) as [x Hx]; [lia|].
  exists x. apply zget_Some. split; [lia|done].
Qed.

Lemma zget_lt l i x : zget l i = Some x -> 0 <= i < Z.of_nat (length l).
Proof. intros [? H%lookup_lt_Some]%zget_Some. lia. Qed.

Lemma zset_Some l i x : 0 <= i < Z.of_nat (length l) ->
  zset l i x = Some (<[Z.to_nat i := x]> l).
Proof. intros. unfold zset. by rewrite (proj2 (Z.leb_le _ _)), (proj2 (Z.ltb_lt _ _)) by lia. Qed.

Lemma zset_inv l i x l' : zset l i x = Some l' ->
  0 <= i < Z.of_nat (length l) /\ l' = <[Z.to_nat i := x]> l.
Proof.
  unfold zset. destruct (Z.leb_spec 0 i), (Z.ltb_spec i (Z.of_nat (length l))); naive_solver lia.
Qed.

Lemma zset_length l i x l' : zset l i x = Some l' -> length l' = length l.
Proof. intros [_ ->]%zset_inv. apply length_insert. Qed.

Lemma zget_zset_eq l i x l' : zset l i x = Some l' -> zget l' i = Some x.
Proof.
  intros [? ->]%zset_inv. apply zget_Some. split; [lia|].
  apply list_lookup_insert_eq. lia.
Qed.

Lemma zget_zset_ne l i j x l' : i <> j -> zset l i x = Some l' -> zget l' j = zget l j.
Proof.
  intros Hne [? ->]%zset_inv. unfold zget. destruct (Z.ltb_spec j 0); [done|].
  apply list_lookup_insert_ne. lia.
Qed.

Lemma zblit_Some l i bs : 0 <= i -> i + Z.of_nat (length bs) <= Z.of_nat (length l) ->
  zblit l i bs = Some (take (Z.to_nat i) l ++ bs ++ drop (Z.to_nat i + length bs) l).
Proof. intros. unfold zblit. by rewrite !(proj2 (Z.leb_le _ _)) by lia. Qed.

Lemma zblit_inv l i bs l' : zblit l i bs = Some l' ->
  0 <= i /\ i + Z.of_nat (length bs) <= Z.of_nat (length l) /\
  l' = take (Z.to_nat i) l ++ bs ++ drop (Z.to_nat i + length bs) l.
Proof.
  unfold zblit. destruct (Z.leb_spec 0 i), (Z.leb_spec (i + Z.of_nat (length bs)) (Z.of_nat (length l)));
    naive_solver lia.
Qed.

Lemma zblit_length l i bs l' : zblit l i bs = Some l' -> length l' = length l.
Proof.
  intros (? & ? & ->)%zblit_inv.
  rewrite !length_app, length_take, length_drop. lia.
Qed.

Lemma zslice_Some l i n : 0 <= i -> 0 <= n -> i + n <= Z.of_nat (length l) ->
  zslice l i n = Some (take (Z.to_nat n) (drop (Z.to_nat i) l)).
Proof. intros. unfold zslice. by rewrite !(proj2 (Z.leb_le _ _)) by lia. Qed.

Lemma zslice_inv l i n bs : zslice l i n = Some bs ->
  0 <= i /\ 0 <= n /\ i + n <= Z.of_nat (length l) /\
  bs = take (Z.to_nat n) (drop (Z.to_nat i) l).
Proof.
  unfold zslice.
  destruct (Z.leb_spec 0 i), (Z.leb_spec 0 n), (Z.leb_spec (i + n) (Z.of_nat (length l)));
    naive_solver lia.
Qed.

Lemma zslice_length l i n bs : zslice l i n = Some bs -> Z.of_nat (length bs) = n.
Proof. intros (? & ? & ? & ->)%zslice_inv. rewrite length_take, length_drop. lia. Qed.

(** What was copied in is what is copied out. *)
Lemma zslice_zblit l i bs l' :
  zblit l i bs = Some l' -> zslice l' i (Z.of_nat (length bs)) = Some bs.
Proof.
  intros Hb. pose proof (zblit_length _ _ _ _ Hb). apply zblit_inv in Hb as (? & ? & ->).
  rewrite zslice_Some by lia. f_equal.
  rewrite drop_app_length' by (rewrite length_take; lia).
  by rewrite take_app_length' by lia.
Qed.

(** Elements outside the copied range are untouched. *)
Lemma zget_zblit_out l i bs l' j :
  zblit l i bs = Some l' -> (j < i \/ i + Z.of_nat (length bs) <= j) ->
  zget l' j = zget l j.
Proof.
  intros (? & ? & ->)%zblit_inv Hj. unfold zget. destruct (Z.ltb_spec j 0); [done|].
  destruct Hj.
  - rewrite lookup_app_l by (rewrite length_take; lia). by rewrite lookup_take_lt by lia.
  - rewrite lookup_app_r by (rewrite length_take; lia).
    rewrite lookup_app_r by (rewrite length_take; lia).
    rewrite lookup_drop, length_take. f_equal. lia.
Qed.
End arrays.
