(* ===== verification/Opcode.v ===== *)
(** * Types, opcodes and the opcode table (src/src/common.h, common.c)

    The enums of common.h as inductive types, each with the integer the code
    gives its constructors, the opcode table [g_wasm_opcode_info] with its
    accessors, and the alignment helpers of common.c. *)

From S2P Require Import Prelude.

(** [WasmType]; the negative codes are those of the binary format. *)
Inductive WasmType : Set :=
  | WASM_TYPE_I32 | WASM_TYPE_I64 | WASM_TYPE_F32 | WASM_TYPE_F64
  | WASM_TYPE_ANYFUNC | WASM_TYPE_FUNC | WASM_TYPE_VOID | WASM_TYPE_ANY.

#[global] Instance WasmType_eq_dec : EqDecision WasmType.
Proof. solve_decision. Defined.

Definition wasm_type_code (t : WasmType) : Z :=
  match t with
  | WASM_TYPE_I32 => -0x01
  | WASM_TYPE_I64 => -0x02
  | WASM_TYPE_F32 => -0x03
  | WASM_TYPE_F64 => -0x04
  | WASM_TYPE_ANYFUNC => -0x10
  | WASM_TYPE_FUNC => -0x20
  | WASM_TYPE_VOID => -0x40
  | WASM_TYPE_ANY => 0
  end.

Definition wasm_get_type_name (t : WasmType) : string :=
  match t with
  | WASM_TYPE_I32 => "i32"
  | WASM_TYPE_I64 => "i64"
  | WASM_TYPE_F32 => "f32"
  | WASM_TYPE_F64 => "f64"
  | WASM_TYPE_ANYFUNC => "anyfunc"
  | WASM_TYPE_FUNC => "func"
  | WASM_TYPE_VOID => "void"
  | WASM_TYPE_ANY => "any"
  end.

(** [WasmExternalKind]. *)
Inductive WasmExternalKind : Set :=
  | WASM_EXTERNAL_KIND_FUNC | WASM_EXTERNAL_KIND_TABLE
  | WASM_EXTERNAL_KIND_MEMORY | WASM_EXTERNAL_KIND_GLOBAL.

#[global] Instance WasmExternalKind_eq_dec : EqDecision WasmExternalKind.
Proof. solve_decision. Defined.

Definition wasm_external_kind_code (k : WasmExternalKind) : Z :=
  match k with
  | WASM_EXTERNAL_KIND_FUNC => 0
  | WASM_EXTERNAL_KIND_TABLE => 1
  | WASM_EXTERNAL_KIND_MEMORY => 2
  | WASM_EXTERNAL_KIND_GLOBAL => 3
  end.

Definition g_wasm_kind_name (k : WasmExternalKind) : string :=
  match k with
  | WASM_EXTERNAL_KIND_FUNC => "func"
  | WASM_EXTERNAL_KIND_TABLE => "table"
  | WASM_EXTERNAL_KIND_MEMORY => "memory"
  | WASM_EXTERNAL_KIND_GLOBAL => "global"
  end.

(** [WasmLimits] (the two bounds are [uint64_t]). *)
Record WasmLimits : Set := mkLimits {
  lim_initial : Z;
  lim_max : Z;
  lim_has_max : bool
}.

Definition WASM_PAGE_SIZE : Z := 0x10000.
Definition WASM_MAX_PAGES : Z := 0x10000.
Definition WASM_USE_NATURAL_ALIGNMENT : Z := 0xFFFFFFFF.
Definition WASM_BYTES_TO_PAGES (x : Z) : Z := Z.shiftr x 16.

(** [WasmOpcode]: the constructors of [WASM_FOREACH_OPCODE], in its order. *)
Inductive WasmOpcode : Set :=
  | WASM_OPCODE_UNREACHABLE | WASM_OPCODE_NOP | WASM_OPCODE_BLOCK
  | WASM_OPCODE_LOOP | WASM_OPCODE_IF | WASM_OPCODE_ELSE | WASM_OPCODE_END
  | WASM_OPCODE_BR | WASM_OPCODE_BR_IF | WASM_OPCODE_BR_TABLE
  | WASM_OPCODE_RETURN | WASM_OPCODE_CALL | WASM_OPCODE_CALL_INDIRECT
  | WASM_OPCODE_DROP | WASM_OPCODE_SELECT | WASM_OPCODE_GET_LOCAL
  | WASM_OPCODE_SET_LOCAL | WASM_OPCODE_TEE_LOCAL | WASM_OPCODE_GET_GLOBAL
  | WASM_OPCODE_SET_GLOBAL | WASM_OPCODE_I32_LOAD | WASM_OPCODE_I64_LOAD
  | WASM_OPCODE_F32_LOAD | WASM_OPCODE_F64_LOAD | WASM_OPCODE_I32_LOAD8_S
  | WASM_OPCODE_I32_LOAD8_U | WASM_OPCODE_I32_LOAD16_S
  | WASM_OPCODE_I32_LOAD16_U | WASM_OPCODE_I64_LOAD8_S
  | WASM_OPCODE_I64_LOAD8_U | WASM_OPCODE_I64_LOAD16_S
  | WASM_OPCODE_I64_LOAD16_U | WASM_OPCODE_I64_LOAD32_S
  | WASM_OPCODE_I64_LOAD32_U | WASM_OPCODE_I32_STORE | WASM_OPCODE_I64_STORE
  | WASM_OPCODE_F32_STORE | WASM_OPCODE_F64_STORE | WASM_OPCODE_I32_STORE8
  | WASM_OPCODE_I32_STORE16 | WASM_OPCODE_I64_STORE8
  | WASM_OPCODE_I64_STORE16 | WASM_OPCODE_I64_STORE32
  | WASM_OPCODE_CURRENT_MEMORY | WASM_OPCODE_GROW_MEMORY
  | WASM_OPCODE_I32_CONST | WASM_OPCODE_I64_CONST | WASM_OPCODE_F32_CONST
  | WASM_OPCODE_F64_CONST | WASM_OPCODE_I32_EQZ | WASM_OPCODE_I32_EQ
  | WASM_OPCODE_I32_NE | WASM_OPCODE_I32_LT_S | WASM_OPCODE_I32_LT_U
  | WASM_OPCODE_I32_GT_S | WASM_OPCODE_I32_GT_U | WASM_OPCODE_I32_LE_S
  | WASM_OPCODE_I32_LE_U | WASM_OPCODE_I32_GE_S | WASM_OPCODE_I32_GE_U
  | WASM_OPCODE_I64_EQZ | WASM_OPCODE_I64_EQ | WASM_OPCODE_I64_NE
  | WASM_OPCODE_I64_LT_S | WASM_OPCODE_I64_LT_U | WASM_OPCODE_I64_GT_S
  | WASM_OPCODE_I64_GT_U | WASM_OPCODE_I64_LE_S | WASM_OPCODE_I64_LE_U
  | WASM_OPCODE_I64_GE_S | WASM_OPCODE_I64_GE_U | WASM_OPCODE_F32_EQ
  | WASM_OPCODE_F32_NE | WASM_OPCODE_F32_LT | WASM_OPCODE_F32_GT
  | WASM_OPCODE_F32_LE | WASM_OPCODE_F32_GE | WASM_OPCODE_F64_EQ
  | WASM_OPCODE_F64_NE | WASM_OPCODE_F64_LT | WASM_OPCODE_F64_GT
  | WASM_OPCODE_F64_LE | WASM_OPCODE_F64_GE | WASM_OPCODE_I32_CLZ
  | WASM_OPCODE_I32_CTZ | WASM_OPCODE_I32_POPCNT | WASM_OPCODE_I32_ADD
  | WASM_OPCODE_I32_SUB | WASM_OPCODE_I32_MUL | WASM_OPCODE_I32_DIV_S
  | WASM_OPCODE_I32_DIV_U | WASM_OPCODE_I32_REM_S | WASM_OPCODE_I32_REM_U
  | WASM_OPCODE_I32_AND | WASM_OPCODE_I32_OR | WASM_OPCODE_I32_XOR
  | WASM_OPCODE_I32_SHL | WASM_OPCODE_I32_SHR_S | WASM_OPCODE_I32_SHR_U
  | WASM_OPCODE_I32_ROTL | WASM_OPCODE_I32_ROTR | WASM_OPCODE_I64_CLZ
  | WASM_OPCODE_I64_CTZ | WASM_OPCODE_I64_POPCNT | WASM_OPCODE_I64_ADD
  | WASM_OPCODE_I64_SUB | WASM_OPCODE_I64_MUL | WASM_OPCODE_I64_DIV_S
  | WASM_OPCODE_I64_DIV_U | WASM_OPCODE_I64_REM_S | WASM_OPCODE_I64_REM_U
  | WASM_OPCODE_I64_AND | WASM_OPCODE_I64_OR | WASM_OPCODE_I64_XOR
  | WASM_OPCODE_I64_SHL | WASM_OPCODE_I64_SHR_S | WASM_OPCODE_I64_SHR_U
  | WASM_OPCODE_I64_ROTL | WASM_OPCODE_I64_ROTR | WASM_OPCODE_F32_ABS
  | WASM_OPCODE_F32_NEG | WASM_OPCODE_F32_CEIL | WASM_OPCODE_F32_FLOOR
  | WASM_OPCODE_F32_TRUNC | WASM_OPCODE_F32_NEAREST | WASM_OPCODE_F32_SQRT
  | WASM_OPCODE_F32_ADD | WASM_OPCODE_F32_SUB | WASM_OPCODE_F32_MUL
  | WASM_OPCODE_F32_DIV | WASM_OPCODE_F32_MIN | WASM_OPCODE_F32_MAX
  | WASM_OPCODE_F32_COPYSIGN | WASM_OPCODE_F64_ABS | WASM_OPCODE_F64_NEG
  | WASM_OPCODE_F64_CEIL | WASM_OPCODE_F64_FLOOR | WASM_OPCODE_F64_TRUNC
  | WASM_OPCODE_F64_NEAREST | WASM_OPCODE_F64_SQRT | WASM_OPCODE_F64_ADD
  | WASM_OPCODE_F64_SUB | WASM_OPCODE_F64_MUL | WASM_OPCODE_F64_DIV
  | WASM_OPCODE_F64_MIN | WASM_OPCODE_F64_MAX | WASM_OPCODE_F64_COPYSIGN
  | WASM_OPCODE_I32_WRAP_I64 | WASM_OPCODE_I32_TRUNC_S_F32
  | WASM_OPCODE_I32_TRUNC_U_F32 | WASM_OPCODE_I32_TRUNC_S_F64
  | WASM_OPCODE_I32_TRUNC_U_F64 | WASM_OPCODE_I64_EXTEND_S_I32
  | WASM_OPCODE_I64_EXTEND_U_I32 | WASM_OPCODE_I64_TRUNC_S_F32
  | WASM_OPCODE_I64_TRUNC_U_F32 | WASM_OPCODE_I64_TRUNC_S_F64
  | WASM_OPCODE_I64_TRUNC_U_F64 | WASM_OPCODE_F32_CONVERT_S_I32
  | WASM_OPCODE_F32_CONVERT_U_I32 | WASM_OPCODE_F32_CONVERT_S_I64
  | WASM_OPCODE_F32_CONVERT_U_I64 | WASM_OPCODE_F32_DEMOTE_F64
  | WASM_OPCODE_F64_CONVERT_S_I32 | WASM_OPCODE_F64_CONVERT_U_I32
  | WASM_OPCODE_F64_CONVERT_S_I64 | WASM_OPCODE_F64_CONVERT_U_I64
  | WASM_OPCODE_F64_PROMOTE_F32 | WASM_OPCODE_I32_REINTERPRET_F32
  | WASM_OPCODE_I64_REINTERPRET_F64 | WASM_OPCODE_F32_REINTERPRET_I32
  | WASM_OPCODE_F64_REINTERPRET_I64.

Definition all_opcodes : list WasmOpcode :=
  [WASM_OPCODE_UNREACHABLE; WASM_OPCODE_NOP; WASM_OPCODE_BLOCK;
  WASM_OPCODE_LOOP; WASM_OPCODE_IF; WASM_OPCODE_ELSE; WASM_OPCODE_END;
  WASM_OPCODE_BR; WASM_OPCODE_BR_IF; WASM_OPCODE_BR_TABLE;
  WASM_OPCODE_RETURN; WASM_OPCODE_CALL; WASM_OPCODE_CALL_INDIRECT;
  WASM_OPCODE_DROP; WASM_OPCODE_SELECT; WASM_OPCODE_GET_LOCAL;
  WASM_OPCODE_SET_LOCAL; WASM_OPCODE_TEE_LOCAL; WASM_OPCODE_GET_GLOBAL;
  WASM_OPCODE_SET_GLOBAL; WASM_OPCODE_I32_LOAD; WASM_OPCODE_I64_LOAD;
  WASM_OPCODE_F32_LOAD; WASM_OPCODE_F64_LOAD; WASM_OPCODE_I32_LOAD8_S;
  WASM_OPCODE_I32_LOAD8_U; WASM_OPCODE_I32_LOAD16_S;
  WASM_OPCODE_I32_LOAD16_U; WASM_OPCODE_I64_LOAD8_S; WASM_OPCODE_I64_LOAD8_U;
  WASM_OPCODE_I64_LOAD16_S; WASM_OPCODE_I64_LOAD16_U;
  WASM_OPCODE_I64_LOAD32_S; WASM_OPCODE_I64_LOAD32_U; WASM_OPCODE_I32_STORE;
  WASM_OPCODE_I64_STORE; WASM_OPCODE_F32_STORE; WASM_OPCODE_F64_STORE;
  WASM_OPCODE_I32_STORE8; WASM_OPCODE_I32_STORE16; WASM_OPCODE_I64_STORE8;
  WASM_OPCODE_I64_STORE16; WASM_OPCODE_I64_STORE32;
  WASM_OPCODE_CURRENT_MEMORY; WASM_OPCODE_GROW_MEMORY; WASM_OPCODE_I32_CONST;
  WASM_OPCODE_I64_CONST; WASM_OPCODE_F32_CONST; WASM_OPCODE_F64_CONST;
  WASM_OPCODE_I32_EQZ; WASM_OPCODE_I32_EQ; WASM_OPCODE_I32_NE;
  WASM_OPCODE_I32_LT_S; WASM_OPCODE_I32_LT_U; WASM_OPCODE_I32_GT_S;
  WASM_OPCODE_I32_GT_U; WASM_OPCODE_I32_LE_S; WASM_OPCODE_I32_LE_U;
  WASM_OPCODE_I32_GE_S; WASM_OPCODE_I32_GE_U; WASM_OPCODE_I64_EQZ;
  WASM_OPCODE_I64_EQ; WASM_OPCODE_I64_NE; WASM_OPCODE_I64_LT_S;
  WASM_OPCODE_I64_LT_U; WASM_OPCODE_I64_GT_S; WASM_OPCODE_I64_GT_U;
  WASM_OPCODE_I64_LE_S; WASM_OPCODE_I64_LE_U; WASM_OPCODE_I64_GE_S;
  WASM_OPCODE_I64_GE_U; WASM_OPCODE_F32_EQ; WASM_OPCODE_F32_NE;
  WASM_OPCODE_F32_LT; WASM_OPCODE_F32_GT; WASM_OPCODE_F32_LE;
  WASM_OPCODE_F32_GE; WASM_OPCODE_F64_EQ; WASM_OPCODE_F64_NE;
  WASM_OPCODE_F64_LT; WASM_OPCODE_F64_GT; WASM_OPCODE_F64_LE;
  WASM_OPCODE_F64_GE; WASM_OPCODE_I32_CLZ; WASM_OPCODE_I32_CTZ;
  WASM_OPCODE_I32_POPCNT; WASM_OPCODE_I32_ADD; WASM_OPCODE_I32_SUB;
  WASM_OPCODE_I32_MUL; WASM_OPCODE_I32_DIV_S; WASM_OPCODE_I32_DIV_U;
  WASM_OPCODE_I32_REM_S; WASM_OPCODE_I32_REM_U; WASM_OPCODE_I32_AND;
  WASM_OPCODE_I32_OR; WASM_OPCODE_I32_XOR; WASM_OPCODE_I32_SHL;
  WASM_OPCODE_I32_SHR_S; WASM_OPCODE_I32_SHR_U; WASM_OPCODE_I32_ROTL;
  WASM_OPCODE_I32_ROTR; WASM_OPCODE_I64_CLZ; WASM_OPCODE_I64_CTZ;
  WASM_OPCODE_I64_POPCNT; WASM_OPCODE_I64_ADD; WASM_OPCODE_I64_SUB;
  WASM_OPCODE_I64_MUL; WASM_OPCODE_I64_DIV_S; WASM_OPCODE_I64_DIV_U;
  WASM_OPCODE_I64_REM_S; WASM_OPCODE_I64_REM_U; WASM_OPCODE_I64_AND;
  WASM_OPCODE_I64_OR; WASM_OPCODE_I64_XOR; WASM_OPCODE_I64_SHL;
  WASM_OPCODE_I64_SHR_S; WASM_OPCODE_I64_SHR_U; WASM_OPCODE_I64_ROTL;
  WASM_OPCODE_I64_ROTR; WASM_OPCODE_F32_ABS; WASM_OPCODE_F32_NEG;
  WASM_OPCODE_F32_CEIL; WASM_OPCODE_F32_FLOOR; WASM_OPCODE_F32_TRUNC;
  WASM_OPCODE_F32_NEAREST; WASM_OPCODE_F32_SQRT; WASM_OPCODE_F32_ADD;
  WASM_OPCODE_F32_SUB; WASM_OPCODE_F32_MUL; WASM_OPCODE_F32_DIV;
  WASM_OPCODE_F32_MIN; WASM_OPCODE_F32_MAX; WASM_OPCODE_F32_COPYSIGN;
  WASM_OPCODE_F64_ABS; WASM_OPCODE_F64_NEG; WASM_OPCODE_F64_CEIL;
  WASM_OPCODE_F64_FLOOR; WASM_OPCODE_F64_TRUNC; WASM_OPCODE_F64_NEAREST;
  WASM_OPCODE_F64_SQRT; WASM_OPCODE_F64_ADD; WASM_OPCODE_F64_SUB;
  WASM_OPCODE_F64_MUL; WASM_OPCODE_F64_DIV; WASM_OPCODE_F64_MIN;
  WASM_OPCODE_F64_MAX; WASM_OPCODE_F64_COPYSIGN; WASM_OPCODE_I32_WRAP_I64;
  WASM_OPCODE_I32_TRUNC_S_F32; WASM_OPCODE_I32_TRUNC_U_F32;
  WASM_OPCODE_I32_TRUNC_S_F64; WASM_OPCODE_I32_TRUNC_U_F64;
  WASM_OPCODE_I64_EXTEND_S_I32; WASM_OPCODE_I64_EXTEND_U_I32;
  WASM_OPCODE_I64_TRUNC_S_F32; WASM_OPCODE_I64_TRUNC_U_F32;
  WASM_OPCODE_I64_TRUNC_S_F64; WASM_OPCODE_I64_TRUNC_U_F64;
  WASM_OPCODE_F32_CONVERT_S_I32; WASM_OPCODE_F32_CONVERT_U_I32;
  WASM_OPCODE_F32_CONVERT_S_I64; WASM_OPCODE_F32_CONVERT_U_I64;
  WASM_OPCODE_F32_DEMOTE_F64; WASM_OPCODE_F64_CONVERT_S_I32;
  WASM_OPCODE_F64_CONVERT_U_I32; WASM_OPCODE_F64_CONVERT_S_I64;
  WASM_OPCODE_F64_CONVERT_U_I64; WASM_OPCODE_F64_PROMOTE_F32;
  WASM_OPCODE_I32_REINTERPRET_F32; WASM_OPCODE_I64_REINTERPRET_F64;
  WASM_OPCODE_F32_REINTERPRET_I32; WASM_OPCODE_F64_REINTERPRET_I64].

(** The byte of each opcode. *)
Definition opcode_code (op : WasmOpcode) : Z :=
  match op with
  | WASM_OPCODE_UNREACHABLE => 0x00
  | WASM_OPCODE_NOP => 0x01
  | WASM_OPCODE_BLOCK => 0x02
  | WASM_OPCODE_LOOP => 0x03
  | WASM_OPCODE_IF => 0x04
  | WASM_OPCODE_ELSE => 0x05
  | WASM_OPCODE_END => 0x0b
  | WASM_OPCODE_BR => 0x0c
  | WASM_OPCODE_BR_IF => 0x0d
  | WASM_OPCODE_BR_TABLE => 0x0e
  | WASM_OPCODE_RETURN => 0x0f
  | WASM_OPCODE_CALL => 0x10
  | WASM_OPCODE_CALL_INDIRECT => 0x11
  | WASM_OPCODE_DROP => 0x1a
  | WASM_OPCODE_SELECT => 0x1b
  | WASM_OPCODE_GET_LOCAL => 0x20
  | WASM_OPCODE_SET_LOCAL => 0x21
  | WASM_OPCODE_TEE_LOCAL => 0x22
  | WASM_OPCODE_GET_GLOBAL => 0x23
  | WASM_OPCODE_SET_GLOBAL => 0x24
  | WASM_OPCODE_I32_LOAD => 0x28
  | WASM_OPCODE_I64_LOAD => 0x29
  | WASM_OPCODE_F32_LOAD => 0x2a
  | WASM_OPCODE_F64_LOAD => 0x2b
  | WASM_OPCODE_I32_LOAD8_S => 0x2c
  | WASM_OPCODE_I32_LOAD8_U => 0x2d
  | WASM_OPCODE_I32_LOAD16_S => 0x2e
  | WASM_OPCODE_I32_LOAD16_U => 0x2f
  | WASM_OPCODE_I64_LOAD8_S => 0x30
  | WASM_OPCODE_I64_LOAD8_U => 0x31
  | WASM_OPCODE_I64_LOAD16_S => 0x32
  | WASM_OPCODE_I64_LOAD16_U => 0x33
  | WASM_OPCODE_I64_LOAD32_S => 0x34
  | WASM_OPCODE_I64_LOAD32_U => 0x35
  | WASM_OPCODE_I32_STORE => 0x36
  | WASM_OPCODE_I64_STORE => 0x37
  | WASM_OPCODE_F32_STORE => 0x38
  | WASM_OPCODE_F64_STORE => 0x39
  | WASM_OPCODE_I32_STORE8 => 0x3a
  | WASM_OPCODE_I32_STORE16 => 0x3b
  | WASM_OPCODE_I64_STORE8 => 0x3c
  | WASM_OPCODE_I64_STORE16 => 0x3d
  | WASM_OPCODE_I64_STORE32 => 0x3e
  | WASM_OPCODE_CURRENT_MEMORY => 0x3f
  | WASM_OPCODE_GROW_MEMORY => 0x40
  | WASM_OPCODE_I32_CONST => 0x41
  | WASM_OPCODE_I64_CONST => 0x42
  | WASM_OPCODE_F32_CONST => 0x43
  | WASM_OPCODE_F64_CONST => 0x44
  | WASM_OPCODE_I32_EQZ => 0x45
  | WASM_OPCODE_I32_EQ => 0x46
  | WASM_OPCODE_I32_NE => 0x47
  | WASM_OPCODE_I32_LT_S => 0x48
  | WASM_OPCODE_I32_LT_U => 0x49
  | WASM_OPCODE_I32_GT_S => 0x4a
  | WASM_OPCODE_I32_GT_U => 0x4b
  | WASM_OPCODE_I32_LE_S => 0x4c
  | WASM_OPCODE_I32_LE_U => 0x4d
  | WASM_OPCODE_I32_GE_S => 0x4e
  | WASM_OPCODE_I32_GE_U => 0x4f
  | WASM_OPCODE_I64_EQZ => 0x50
  | WASM_OPCODE_I64_EQ => 0x51
  | WASM_OPCODE_I64_NE => 0x52
  | WASM_OPCODE_I64_LT_S => 0x53
  | WASM_OPCODE_I64_LT_U => 0x54
  | WASM_OPCODE_I64_GT_S => 0x55
  | WASM_OPCODE_I64_GT_U => 0x56
  | WASM_OPCODE_I64_LE_S => 0x57
  | WASM_OPCODE_I64_LE_U => 0x58
  | WASM_OPCODE_I64_GE_S => 0x59
  | WASM_OPCODE_I64_GE_U => 0x5a
  | WASM_OPCODE_F32_EQ => 0x5b
  | WASM_OPCODE_F32_NE => 0x5c
  | WASM_OPCODE_F32_LT => 0x5d
  | WASM_OPCODE_F32_GT => 0x5e
  | WASM_OPCODE_F32_LE => 0x5f
  | WASM_OPCODE_F32_GE => 0x60
  | WASM_OPCODE_F64_EQ => 0x61
  | WASM_OPCODE_F64_NE => 0x62
  | WASM_OPCODE_F64_LT => 0x63
  | WASM_OPCODE_F64_GT => 0x64
  | WASM_OPCODE_F64_LE => 0x65
  | WASM_OPCODE_F64_GE => 0x66
  | WASM_OPCODE_I32_CLZ => 0x67
  | WASM_OPCODE_I32_CTZ => 0x68
  | WASM_OPCODE_I32_POPCNT => 0x69
  | WASM_OPCODE_I32_ADD => 0x6a
  | WASM_OPCODE_I32_SUB => 0x6b
  | WASM_OPCODE_I32_MUL => 0x6c
  | WASM_OPCODE_I32_DIV_S => 0x6d
  | WASM_OPCODE_I32_DIV_U => 0x6e
  | WASM_OPCODE_I32_REM_S => 0x6f
  | WASM_OPCODE_I32_REM_U => 0x70
  | WASM_OPCODE_I32_AND => 0x71
  | WASM_OPCODE_I32_OR => 0x72
  | WASM_OPCODE_I32_XOR => 0x73
  | WASM_OPCODE_I32_SHL => 0x74
  | WASM_OPCODE_I32_SHR_S => 0x75
  | WASM_OPCODE_I32_SHR_U => 0x76
  | WASM_OPCODE_I32_ROTL => 0x77
  | WASM_OPCODE_I32_ROTR => 0x78
  | WASM_OPCODE_I64_CLZ => 0x79
  | WASM_OPCODE_I64_CTZ => 0x7a
  | WASM_OPCODE_I64_POPCNT => 0x7b
  | WASM_OPCODE_I64_ADD => 0x7c
  | WASM_OPCODE_I64_SUB => 0x7d
  | WASM_OPCODE_I64_MUL => 0x7e
  | WASM_OPCODE_I64_DIV_S => 0x7f
  | WASM_OPCODE_I64_DIV_U => 0x80
  | WASM_OPCODE_I64_REM_S => 0x81
  | WASM_OPCODE_I64_REM_U => 0x82
  | WASM_OPCODE_I64_AND => 0x83
  | WASM_OPCODE_I64_OR => 0x84
  | WASM_OPCODE_I64_XOR => 0x85
  | WASM_OPCODE_I64_SHL => 0x86
  | WASM_OPCODE_I64_SHR_S => 0x87
  | WASM_OPCODE_I64_SHR_U => 0x88
  | WASM_OPCODE_I64_ROTL => 0x89
  | WASM_OPCODE_I64_ROTR => 0x8a
  | WASM_OPCODE_F32_ABS => 0x8b
  | WASM_OPCODE_F32_NEG => 0x8c
  | WASM_OPCODE_F32_CEIL => 0x8d
  | WASM_OPCODE_F32_FLOOR => 0x8e
  | WASM_OPCODE_F32_TRUNC => 0x8f
  | WASM_OPCODE_F32_NEAREST => 0x90
  | WASM_OPCODE_F32_SQRT => 0x91
  | WASM_OPCODE_F32_ADD => 0x92
  | WASM_OPCODE_F32_SUB => 0x93
  | WASM_OPCODE_F32_MUL => 0x94
  | WASM_OPCODE_F32_DIV => 0x95
  | WASM_OPCODE_F32_MIN => 0x96
  | WASM_OPCODE_F32_MAX => 0x97
  | WASM_OPCODE_F32_COPYSIGN => 0x98
  | WASM_OPCODE_F64_ABS => 0x99
  | WASM_OPCODE_F64_NEG => 0x9a
  | WASM_OPCODE_F64_CEIL => 0x9b
  | WASM_OPCODE_F64_FLOOR => 0x9c
  | WASM_OPCODE_F64_TRUNC => 0x9d
  | WASM_OPCODE_F64_NEAREST => 0x9e
  | WASM_OPCODE_F64_SQRT => 0x9f
  | WASM_OPCODE_F64_ADD => 0xa0
  | WASM_OPCODE_F64_SUB => 0xa1
  | WASM_OPCODE_F64_MUL => 0xa2
  | WASM_OPCODE_F64_DIV => 0xa3
  | WASM_OPCODE_F64_MIN => 0xa4
  | WASM_OPCODE_F64_MAX => 0xa5
  | WASM_OPCODE_F64_COPYSIGN => 0xa6
  | WASM_OPCODE_I32_WRAP_I64 => 0xa7
  | WASM_OPCODE_I32_TRUNC_S_F32 => 0xa8
  | WASM_OPCODE_I32_TRUNC_U_F32 => 0xa9
  | WASM_OPCODE_I32_TRUNC_S_F64 => 0xaa
  | WASM_OPCODE_I32_TRUNC_U_F64 => 0xab
  | WASM_OPCODE_I64_EXTEND_S_I32 => 0xac
  | WASM_OPCODE_I64_EXTEND_U_I32 => 0xad
  | WASM_OPCODE_I64_TRUNC_S_F32 => 0xae
  | WASM_OPCODE_I64_TRUNC_U_F32 => 0xaf
  | WASM_OPCODE_I64_TRUNC_S_F64 => 0xb0
  | WASM_OPCODE_I64_TRUNC_U_F64 => 0xb1
  | WASM_OPCODE_F32_CONVERT_S_I32 => 0xb2
  | WASM_OPCODE_F32_CONVERT_U_I32 => 0xb3
  | WASM_OPCODE_F32_CONVERT_S_I64 => 0xb4
  | WASM_OPCODE_F32_CONVERT_U_I64 => 0xb5
  | WASM_OPCODE_F32_DEMOTE_F64 => 0xb6
  | WASM_OPCODE_F64_CONVERT_S_I32 => 0xb7
  | WASM_OPCODE_F64_CONVERT_U_I32 => 0xb8
  | WASM_OPCODE_F64_CONVERT_S_I64 => 0xb9
  | WASM_OPCODE_F64_CONVERT_U_I64 => 0xba
  | WASM_OPCODE_F64_PROMOTE_F32 => 0xbb
  | WASM_OPCODE_I32_REINTERPRET_F32 => 0xbc
  | WASM_OPCODE_I64_REINTERPRET_F64 => 0xbd
  | WASM_OPCODE_F32_REINTERPRET_I32 => 0xbe
  | WASM_OPCODE_F64_REINTERPRET_I64 => 0xbf
  end.

Record WasmOpcodeInfo : Set := mkOpcodeInfo {
  oi_name : string;
  oi_result_type : WasmType;
  oi_param1_type : WasmType;
  oi_param2_type : WasmType;
  oi_memory_size : Z
}.

(** [g_wasm_opcode_info], as the table of common.h fills it. *)
Definition g_wasm_opcode_info (op : WasmOpcode) : WasmOpcodeInfo :=
  match op with
  | WASM_OPCODE_UNREACHABLE => mkOpcodeInfo "unreachable" WASM_TYPE_VOID WASM_TYPE_VOID WASM_TYPE_VOID 0
  | WASM_OPCODE_NOP => mkOpcodeInfo "nop" WASM_TYPE_VOID WASM_TYPE_VOID WASM_TYPE_VOID 0
  | WASM_OPCODE_BLOCK => mkOpcodeInfo "block" WASM_TYPE_VOID WASM_TYPE_VOID WASM_TYPE_VOID 0
  | WASM_OPCODE_LOOP => mkOpcodeInfo "loop" WASM_TYPE_VOID WASM_TYPE_VOID WASM_TYPE_VOID 0
  | WASM_OPCODE_IF => mkOpcodeInfo "if" WASM_TYPE_VOID WASM_TYPE_VOID WASM_TYPE_VOID 0
  | WASM_OPCODE_ELSE => mkOpcodeInfo "else" WASM_TYPE_VOID WASM_TYPE_VOID WASM_TYPE_VOID 0
  | WASM_OPCODE_END => mkOpcodeInfo "end" WASM_TYPE_VOID WASM_TYPE_VOID WASM_TYPE_VOID 0
  | WASM_OPCODE_BR => mkOpcodeInfo "br" WASM_TYPE_VOID WASM_TYPE_VOID WASM_TYPE_VOID 0
  | WASM_OPCODE_BR_IF => mkOpcodeInfo "br_if" WASM_TYPE_VOID WASM_TYPE_VOID WASM_TYPE_VOID 0
  | WASM_OPCODE_BR_TABLE => mkOpcodeInfo "br_table" WASM_TYPE_VOID WASM_TYPE_VOID WASM_TYPE_VOID 0
  | WASM_OPCODE_RETURN => mkOpcodeInfo "return" WASM_TYPE_VOID WASM_TYPE_VOID WASM_TYPE_VOID 0
  | WASM_OPCODE_CALL => mkOpcodeInfo "call" WASM_TYPE_VOID WASM_TYPE_VOID WASM_TYPE_VOID 0
  | WASM_OPCODE_CALL_INDIRECT => mkOpcodeInfo "call_indirect" WASM_TYPE_VOID WASM_TYPE_VOID WASM_TYPE_VOID 0
  | WASM_OPCODE_DROP => mkOpcodeInfo "drop" WASM_TYPE_VOID WASM_TYPE_VOID WASM_TYPE_VOID 0
  | WASM_OPCODE_SELECT => mkOpcodeInfo "select" WASM_TYPE_VOID WASM_TYPE_VOID WASM_TYPE_VOID 0
  | WASM_OPCODE_GET_LOCAL => mkOpcodeInfo "get_local" WASM_TYPE_VOID WASM_TYPE_VOID WASM_TYPE_VOID 0
  | WASM_OPCODE_SET_LOCAL => mkOpcodeInfo "set_local" WASM_TYPE_VOID WASM_TYPE_VOID WASM_TYPE_VOID 0
  | WASM_OPCODE_TEE_LOCAL => mkOpcodeInfo "tee_local" WASM_TYPE_VOID WASM_TYPE_VOID WASM_TYPE_VOID 0
  | WASM_OPCODE_GET_GLOBAL => mkOpcodeInfo "get_global" WASM_TYPE_VOID WASM_TYPE_VOID WASM_TYPE_VOID 0
  | WASM_OPCODE_SET_GLOBAL => mkOpcodeInfo "set_global" WASM_TYPE_VOID WASM_TYPE_VOID WASM_TYPE_VOID 0
  | WASM_OPCODE_I32_LOAD => mkOpcodeInfo "i32.load" WASM_TYPE_I32 WASM_TYPE_I32 WASM_TYPE_VOID 4
  | WASM_OPCODE_I64_LOAD => mkOpcodeInfo "i64.load" WASM_TYPE_I64 WASM_TYPE_I32 WASM_TYPE_VOID 8
  | WASM_OPCODE_F32_LOAD => mkOpcodeInfo "f32.load" WASM_TYPE_F32 WASM_TYPE_I32 WASM_TYPE_VOID 4
  | WASM_OPCODE_F64_LOAD => mkOpcodeInfo "f64.load" WASM_TYPE_F64 WASM_TYPE_I32 WASM_TYPE_VOID 8
  | WASM_OPCODE_I32_LOAD8_S => mkOpcodeInfo "i32.load8_s" WASM_TYPE_I32 WASM_TYPE_I32 WASM_TYPE_VOID 1
  | WASM_OPCODE_I32_LOAD8_U => mkOpcodeInfo "i32.load8_u" WASM_TYPE_I32 WASM_TYPE_I32 WASM_TYPE_VOID 1
  | WASM_OPCODE_I32_LOAD16_S => mkOpcodeInfo "i32.load16_s" WASM_TYPE_I32 WASM_TYPE_I32 WASM_TYPE_VOID 2
  | WASM_OPCODE_I32_LOAD16_U => mkOpcodeInfo "i32.load16_u" WASM_TYPE_I32 WASM_TYPE_I32 WASM_TYPE_VOID 2
  | WASM_OPCODE_I64_LOAD8_S => mkOpcodeInfo "i64.load8_s" WASM_TYPE_I64 WASM_TYPE_I32 WASM_TYPE_VOID 1
  | WASM_OPCODE_I64_LOAD8_U => mkOpcodeInfo "i64.load8_u" WASM_TYPE_I64 WASM_TYPE_I32 WASM_TYPE_VOID 1
  | WASM_OPCODE_I64_LOAD16_S => mkOpcodeInfo "i64.load16_s" WASM_TYPE_I64 WASM_TYPE_I32 WASM_TYPE_VOID 2
  | WASM_OPCODE_I64_LOAD16_U => mkOpcodeInfo "i64.load16_u" WASM_TYPE_I64 WASM_TYPE_I32 WASM_TYPE_VOID 2
  | WASM_OPCODE_I64_LOAD32_S => mkOpcodeInfo "i64.load32_s" WASM_TYPE_I64 WASM_TYPE_I32 WASM_TYPE_VOID 4
  | WASM_OPCODE_I64_LOAD32_U => mkOpcodeInfo "i64.load32_u" WASM_TYPE_I64 WASM_TYPE_I32 WASM_TYPE_VOID 4
  | WASM_OPCODE_I32_STORE => mkOpcodeInfo "i32.store" WASM_TYPE_VOID WASM_TYPE_I32 WASM_TYPE_I32 4
  | WASM_OPCODE_I64_STORE => mkOpcodeInfo "i64.store" WASM_TYPE_VOID WASM_TYPE_I32 WASM_TYPE_I64 8
  | WASM_OPCODE_F32_STORE => mkOpcodeInfo "f32.store" WASM_TYPE_VOID WASM_TYPE_I32 WASM_TYPE_F32 4
  | WASM_OPCODE_F64_STORE => mkOpcodeInfo "f64.store" WASM_TYPE_VOID WASM_TYPE_I32 WASM_TYPE_F64 8
  | WASM_OPCODE_I32_STORE8 => mkOpcodeInfo "i32.store8" WASM_TYPE_VOID WASM_TYPE_I32 WASM_TYPE_I32 1
  | WASM_OPCODE_I32_STORE16 => mkOpcodeInfo "i32.store16" WASM_TYPE_VOID WASM_TYPE_I32 WASM_TYPE_I32 2
  | WASM_OPCODE_I64_STORE8 => mkOpcodeInfo "i64.store8" WASM_TYPE_VOID WASM_TYPE_I32 WASM_TYPE_I64 1
  | WASM_OPCODE_I64_STORE16 => mkOpcodeInfo "i64.store16" WASM_TYPE_VOID WASM_TYPE_I32 WASM_TYPE_I64 2
  | WASM_OPCODE_I64_STORE32 => mkOpcodeInfo "i64.store32" WASM_TYPE_VOID WASM_TYPE_I32 WASM_TYPE_I64 4
  | WASM_OPCODE_CURRENT_MEMORY => mkOpcodeInfo "current_memory" WASM_TYPE_I32 WASM_TYPE_VOID WASM_TYPE_VOID 0
  | WASM_OPCODE_GROW_MEMORY => mkOpcodeInfo "grow_memory" WASM_TYPE_I32 WASM_TYPE_I32 WASM_TYPE_VOID 0
  | WASM_OPCODE_I32_CONST => mkOpcodeInfo "i32.const" WASM_TYPE_I32 WASM_TYPE_VOID WASM_TYPE_VOID 0
  | WASM_OPCODE_I64_CONST => mkOpcodeInfo "i64.const" WASM_TYPE_I64 WASM_TYPE_VOID WASM_TYPE_VOID 0
  | WASM_OPCODE_F32_CONST => mkOpcodeInfo "f32.const" WASM_TYPE_F32 WASM_TYPE_VOID WASM_TYPE_VOID 0
  | WASM_OPCODE_F64_CONST => mkOpcodeInfo "f64.const" WASM_TYPE_F64 WASM_TYPE_VOID WASM_TYPE_VOID 0
  | WASM_OPCODE_I32_EQZ => mkOpcodeInfo "i32.eqz" WASM_TYPE_I32 WASM_TYPE_I32 WASM_TYPE_VOID 0
  | WASM_OPCODE_I32_EQ => mkOpcodeInfo "i32.eq" WASM_TYPE_I32 WASM_TYPE_I32 WASM_TYPE_I32 0
  | WASM_OPCODE_I32_NE => mkOpcodeInfo "i32.ne" WASM_TYPE_I32 WASM_TYPE_I32 WASM_TYPE_I32 0
  | WASM_OPCODE_I32_LT_S => mkOpcodeInfo "i32.lt_s" WASM_TYPE_I32 WASM_TYPE_I32 WASM_TYPE_I32 0
  | WASM_OPCODE_I32_LT_U => mkOpcodeInfo "i32.lt_u" WASM_TYPE_I32 WASM_TYPE_I32 WASM_TYPE_I32 0
  | WASM_OPCODE_I32_GT_S => mkOpcodeInfo "i32.gt_s" WASM_TYPE_I32 WASM_TYPE_I32 WASM_TYPE_I32 0
  | WASM_OPCODE_I32_GT_U => mkOpcodeInfo "i32.gt_u" WASM_TYPE_I32 WASM_TYPE_I32 WASM_TYPE_I32 0
  | WASM_OPCODE_I32_LE_S => mkOpcodeInfo "i32.le_s" WASM_TYPE_I32 WASM_TYPE_I32 WASM_TYPE_I32 0
  | WASM_OPCODE_I32_LE_U => mkOpcodeInfo "i32.le_u" WASM_TYPE_I32 WASM_TYPE_I32 WASM_TYPE_I32 0
  | WASM_OPCODE_I32_GE_S => mkOpcodeInfo "i32.ge_s" WASM_TYPE_I32 WASM_TYPE_I32 WASM_TYPE_I32 0
  | WASM_OPCODE_I32_GE_U => mkOpcodeInfo "i32.ge_u" WASM_TYPE_I32 WASM_TYPE_I32 WASM_TYPE_I32 0
  | WASM_OPCODE_I64_EQZ => mkOpcodeInfo "i64.eqz" WASM_TYPE_I32 WASM_TYPE_I64 WASM_TYPE_VOID 0
  | WASM_OPCODE_I64_EQ => mkOpcodeInfo "i64.eq" WASM_TYPE_I32 WASM_TYPE_I64 WASM_TYPE_I64 0
  | WASM_OPCODE_I64_NE => mkOpcodeInfo "i64.ne" WASM_TYPE_I32 WASM_TYPE_I64 WASM_TYPE_I64 0
  | WASM_OPCODE_I64_LT_S => mkOpcodeInfo "i64.lt_s" WASM_TYPE_I32 WASM_TYPE_I64 WASM_TYPE_I64 0
  | WASM_OPCODE_I64_LT_U => mkOpcodeInfo "i64.lt_u" WASM_TYPE_I32 WASM_TYPE_I64 WASM_TYPE_I64 0
  | WASM_OPCODE_I64_GT_S => mkOpcodeInfo "i64.gt_s" WASM_TYPE_I32 WASM_TYPE_I64 WASM_TYPE_I64 0
  | WASM_OPCODE_I64_GT_U => mkOpcodeInfo "i64.gt_u" WASM_TYPE_I32 WASM_TYPE_I64 WASM_TYPE_I64 0
  | WASM_OPCODE_I64_LE_S => mkOpcodeInfo "i64.le_s" WASM_TYPE_I32 WASM_TYPE_I64 WASM_TYPE_I64 0
  | WASM_OPCODE_I64_LE_U => mkOpcodeInfo "i64.le_u" WASM_TYPE_I32 WASM_TYPE_I64 WASM_TYPE_I64 0
  | WASM_OPCODE_I64_GE_S => mkOpcodeInfo "i64.ge_s" WASM_TYPE_I32 WASM_TYPE_I64 WASM_TYPE_I64 0
  | WASM_OPCODE_I64_GE_U => mkOpcodeInfo "i64.ge_u" WASM_TYPE_I32 WASM_TYPE_I64 WASM_TYPE_I64 0
  | WASM_OPCODE_F32_EQ => mkOpcodeInfo "f32.eq" WASM_TYPE_I32 WASM_TYPE_F32 WASM_TYPE_F32 0
  | WASM_OPCODE_F32_NE => mkOpcodeInfo "f32.ne" WASM_TYPE_I32 WASM_TYPE_F32 WASM_TYPE_F32 0
  | WASM_OPCODE_F32_LT => mkOpcodeInfo "f32.lt" WASM_TYPE_I32 WASM_TYPE_F32 WASM_TYPE_F32 0
  | WASM_OPCODE_F32_GT => mkOpcodeInfo "f32.gt" WASM_TYPE_I32 WASM_TYPE_F32 WASM_TYPE_F32 0
  | WASM_OPCODE_F32_LE => mkOpcodeInfo "f32.le" WASM_TYPE_I32 WASM_TYPE_F32 WASM_TYPE_F32 0
  | WASM_OPCODE_F32_GE => mkOpcodeInfo "f32.ge" WASM_TYPE_I32 WASM_TYPE_F32 WASM_TYPE_F32 0
  | WASM_OPCODE_F64_EQ => mkOpcodeInfo "f64.eq" WASM_TYPE_I32 WASM_TYPE_F64 WASM_TYPE_F64 0
  | WASM_OPCODE_F64_NE => mkOpcodeInfo "f64.ne" WASM_TYPE_I32 WASM_TYPE_F64 WASM_TYPE_F64 0
  | WASM_OPCODE_F64_LT => mkOpcodeInfo "f64.lt" WASM_TYPE_I32 WASM_TYPE_F64 WASM_TYPE_F64 0
  | WASM_OPCODE_F64_GT => mkOpcodeInfo "f64.gt" WASM_TYPE_I32 WASM_TYPE_F64 WASM_TYPE_F64 0
  | WASM_OPCODE_F64_LE => mkOpcodeInfo "f64.le" WASM_TYPE_I32 WASM_TYPE_F64 WASM_TYPE_F64 0
  | WASM_OPCODE_F64_GE => mkOpcodeInfo "f64.ge" WASM_TYPE_I32 WASM_TYPE_F64 WASM_TYPE_F64 0
  | WASM_OPCODE_I32_CLZ => mkOpcodeInfo "i32.clz" WASM_TYPE_I32 WASM_TYPE_I32 WASM_TYPE_VOID 0
  | WASM_OPCODE_I32_CTZ => mkOpcodeInfo "i32.ctz" WASM_TYPE_I32 WASM_TYPE_I32 WASM_TYPE_VOID 0
  | WASM_OPCODE_I32_POPCNT => mkOpcodeInfo "i32.popcnt" WASM_TYPE_I32 WASM_TYPE_I32 WASM_TYPE_VOID 0
  | WASM_OPCODE_I32_ADD => mkOpcodeInfo "i32.add" WASM_TYPE_I32 WASM_TYPE_I32 WASM_TYPE_I32 0
  | WASM_OPCODE_I32_SUB => mkOpcodeInfo "i32.sub" WASM_TYPE_I32 WASM_TYPE_I32 WASM_TYPE_I32 0
  | WASM_OPCODE_I32_MUL => mkOpcodeInfo "i32.mul" WASM_TYPE_I32 WASM_TYPE_I32 WASM_TYPE_I32 0
  | WASM_OPCODE_I32_DIV_S => mkOpcodeInfo "i32.div_s" WASM_TYPE_I32 WASM_TYPE_I32 WASM_TYPE_I32 0
  | WASM_OPCODE_I32_DIV_U => mkOpcodeInfo "i32.div_u" WASM_TYPE_I32 WASM_TYPE_I32 WASM_TYPE_I32 0
  | WASM_OPCODE_I32_REM_S => mkOpcodeInfo "i32.rem_s" WASM_TYPE_I32 WASM_TYPE_I32 WASM_TYPE_I32 0
  | WASM_OPCODE_I32_REM_U => mkOpcodeInfo "i32.rem_u" WASM_TYPE_I32 WASM_TYPE_I32 WASM_TYPE_I32 0
  | WASM_OPCODE_I32_AND => mkOpcodeInfo "i32.and" WASM_TYPE_I32 WASM_TYPE_I32 WASM_TYPE_I32 0
  | WASM_OPCODE_I32_OR => mkOpcodeInfo "i32.or" WASM_TYPE_I32 WASM_TYPE_I32 WASM_TYPE_I32 0
  | WASM_OPCODE_I32_XOR => mkOpcodeInfo "i32.xor" WASM_TYPE_I32 WASM_TYPE_I32 WASM_TYPE_I32 0
  | WASM_OPCODE_I32_SHL => mkOpcodeInfo "i32.shl" WASM_TYPE_I32 WASM_TYPE_I32 WASM_TYPE_I32 0
  | WASM_OPCODE_I32_SHR_S => mkOpcodeInfo "i32.shr_s" WASM_TYPE_I32 WASM_TYPE_I32 WASM_TYPE_I32 0
  | WASM_OPCODE_I32_SHR_U => mkOpcodeInfo "i32.shr_u" WASM_TYPE_I32 WASM_TYPE_I32 WASM_TYPE_I32 0
  | WASM_OPCODE_I32_ROTL => mkOpcodeInfo "i32.rotl" WASM_TYPE_I32 WASM_TYPE_I32 WASM_TYPE_I32 0
  | WASM_OPCODE_I32_ROTR => mkOpcodeInfo "i32.rotr" WASM_TYPE_I32 WASM_TYPE_I32 WASM_TYPE_I32 0
  | WASM_OPCODE_I64_CLZ => mkOpcodeInfo "i64.clz" WASM_TYPE_I64 WASM_TYPE_I64 WASM_TYPE_I64 0
  | WASM_OPCODE_I64_CTZ => mkOpcodeInfo "i64.ctz" WASM_TYPE_I64 WASM_TYPE_I64 WASM_TYPE_I64 0
  | WASM_OPCODE_I64_POPCNT => mkOpcodeInfo "i64.popcnt" WASM_TYPE_I64 WASM_TYPE_I64 WASM_TYPE_I64 0
  | WASM_OPCODE_I64_ADD => mkOpcodeInfo "i64.add" WASM_TYPE_I64 WASM_TYPE_I64 WASM_TYPE_I64 0
  | WASM_OPCODE_I64_SUB => mkOpcodeInfo "i64.sub" WASM_TYPE_I64 WASM_TYPE_I64 WASM_TYPE_I64 0
  | WASM_OPCODE_I64_MUL => mkOpcodeInfo "i64.mul" WASM_TYPE_I64 WASM_TYPE_I64 WASM_TYPE_I64 0
  | WASM_OPCODE_I64_DIV_S => mkOpcodeInfo "i64.div_s" WASM_TYPE_I64 WASM_TYPE_I64 WASM_TYPE_I64 0
  | WASM_OPCODE_I64_DIV_U => mkOpcodeInfo "i64.div_u" WASM_TYPE_I64 WASM_TYPE_I64 WASM_TYPE_I64 0
  | WASM_OPCODE_I64_REM_S => mkOpcodeInfo "i64.rem_s" WASM_TYPE_I64 WASM_TYPE_I64 WASM_TYPE_I64 0
  | WASM_OPCODE_I64_REM_U => mkOpcodeInfo "i64.rem_u" WASM_TYPE_I64 WASM_TYPE_I64 WASM_TYPE_I64 0
  | WASM_OPCODE_I64_AND => mkOpcodeInfo "i64.and" WASM_TYPE_I64 WASM_TYPE_I64 WASM_TYPE_I64 0
  | WASM_OPCODE_I64_OR => mkOpcodeInfo "i64.or" WASM_TYPE_I64 WASM_TYPE_I64 WASM_TYPE_I64 0
  | WASM_OPCODE_I64_XOR => mkOpcodeInfo "i64.xor" WASM_TYPE_I64 WASM_TYPE_I64 WASM_TYPE_I64 0
  | WASM_OPCODE_I64_SHL => mkOpcodeInfo "i64.shl" WASM_TYPE_I64 WASM_TYPE_I64 WASM_TYPE_I64 0
  | WASM_OPCODE_I64_SHR_S => mkOpcodeInfo "i64.shr_s" WASM_TYPE_I64 WASM_TYPE_I64 WASM_TYPE_I64 0
  | WASM_OPCODE_I64_SHR_U => mkOpcodeInfo "i64.shr_u" WASM_TYPE_I64 WASM_TYPE_I64 WASM_TYPE_I64 0
  | WASM_OPCODE_I64_ROTL => mkOpcodeInfo "i64.rotl" WASM_TYPE_I64 WASM_TYPE_I64 WASM_TYPE_I64 0
  | WASM_OPCODE_I64_ROTR => mkOpcodeInfo "i64.rotr" WASM_TYPE_I64 WASM_TYPE_I64 WASM_TYPE_I64 0
  | WASM_OPCODE_F32_ABS => mkOpcodeInfo "f32.abs" WASM_TYPE_F32 WASM_TYPE_F32 WASM_TYPE_F32 0
  | WASM_OPCODE_F32_NEG => mkOpcodeInfo "f32.neg" WASM_TYPE_F32 WASM_TYPE_F32 WASM_TYPE_F32 0
  | WASM_OPCODE_F32_CEIL => mkOpcodeInfo "f32.ceil" WASM_TYPE_F32 WASM_TYPE_F32 WASM_TYPE_F32 0
  | WASM_OPCODE_F32_FLOOR => mkOpcodeInfo "f32.floor" WASM_TYPE_F32 WASM_TYPE_F32 WASM_TYPE_F32 0
  | WASM_OPCODE_F32_TRUNC => mkOpcodeInfo "f32.trunc" WASM_TYPE_F32 WASM_TYPE_F32 WASM_TYPE_F32 0
  | WASM_OPCODE_F32_NEAREST => mkOpcodeInfo "f32.nearest" WASM_TYPE_F32 WASM_TYPE_F32 WASM_TYPE_F32 0
  | WASM_OPCODE_F32_SQRT => mkOpcodeInfo "f32.sqrt" WASM_TYPE_F32 WASM_TYPE_F32 WASM_TYPE_F32 0
  | WASM_OPCODE_F32_ADD => mkOpcodeInfo "f32.add" WASM_TYPE_F32 WASM_TYPE_F32 WASM_TYPE_F32 0
  | WASM_OPCODE_F32_SUB => mkOpcodeInfo "f32.sub" WASM_TYPE_F32 WASM_TYPE_F32 WASM_TYPE_F32 0
  | WASM_OPCODE_F32_MUL => mkOpcodeInfo "f32.mul" WASM_TYPE_F32 WASM_TYPE_F32 WASM_TYPE_F32 0
  | WASM_OPCODE_F32_DIV => mkOpcodeInfo "f32.div" WASM_TYPE_F32 WASM_TYPE_F32 WASM_TYPE_F32 0
  | WASM_OPCODE_F32_MIN => mkOpcodeInfo "f32.min" WASM_TYPE_F32 WASM_TYPE_F32 WASM_TYPE_F32 0
  | WASM_OPCODE_F32_MAX => mkOpcodeInfo "f32.max" WASM_TYPE_F32 WASM_TYPE_F32 WASM_TYPE_F32 0
  | WASM_OPCODE_F32_COPYSIGN => mkOpcodeInfo "f32.copysign" WASM_TYPE_F32 WASM_TYPE_F32 WASM_TYPE_F32 0
  | WASM_OPCODE_F64_ABS => mkOpcodeInfo "f64.abs" WASM_TYPE_F64 WASM_TYPE_F64 WASM_TYPE_F64 0
  | WASM_OPCODE_F64_NEG => mkOpcodeInfo "f64.neg" WASM_TYPE_F64 WASM_TYPE_F64 WASM_TYPE_F64 0
  | WASM_OPCODE_F64_CEIL => mkOpcodeInfo "f64.ceil" WASM_TYPE_F64 WASM_TYPE_F64 WASM_TYPE_F64 0
  | WASM_OPCODE_F64_FLOOR => mkOpcodeInfo "f64.floor" WASM_TYPE_F64 WASM_TYPE_F64 WASM_TYPE_F64 0
  | WASM_OPCODE_F64_TRUNC => mkOpcodeInfo "f64.trunc" WASM_TYPE_F64 WASM_TYPE_F64 WASM_TYPE_F64 0
  | WASM_OPCODE_F64_NEAREST => mkOpcodeInfo "f64.nearest" WASM_TYPE_F64 WASM_TYPE_F64 WASM_TYPE_F64 0
  | WASM_OPCODE_F64_SQRT => mkOpcodeInfo "f64.sqrt" WASM_TYPE_F64 WASM_TYPE_F64 WASM_TYPE_F64 0
  | WASM_OPCODE_F64_ADD => mkOpcodeInfo "f64.add" WASM_TYPE_F64 WASM_TYPE_F64 WASM_TYPE_F64 0
  | WASM_OPCODE_F64_SUB => mkOpcodeInfo "f64.sub" WASM_TYPE_F64 WASM_TYPE_F64 WASM_TYPE_F64 0
  | WASM_OPCODE_F64_MUL => mkOpcodeInfo "f64.mul" WASM_TYPE_F64 WASM_TYPE_F64 WASM_TYPE_F64 0
  | WASM_OPCODE_F64_DIV => mkOpcodeInfo "f64.div" WASM_TYPE_F64 WASM_TYPE_F64 WASM_TYPE_F64 0
  | WASM_OPCODE_F64_MIN => mkOpcodeInfo "f64.min" WASM_TYPE_F64 WASM_TYPE_F64 WASM_TYPE_F64 0
  | WASM_OPCODE_F64_MAX => mkOpcodeInfo "f64.max" WASM_TYPE_F64 WASM_TYPE_F64 WASM_TYPE_F64 0
  | WASM_OPCODE_F64_COPYSIGN => mkOpcodeInfo "f64.copysign" WASM_TYPE_F64 WASM_TYPE_F64 WASM_TYPE_F64 0
  | WASM_OPCODE_I32_WRAP_I64 => mkOpcodeInfo "i32.wrap/i64" WASM_TYPE_I32 WASM_TYPE_I64 WASM_TYPE_VOID 0
  | WASM_OPCODE_I32_TRUNC_S_F32 => mkOpcodeInfo "i32.trunc_s/f32" WASM_TYPE_I32 WASM_TYPE_F32 WASM_TYPE_VOID 0
  | WASM_OPCODE_I32_TRUNC_U_F32 => mkOpcodeInfo "i32.trunc_u/f32" WASM_TYPE_I32 WASM_TYPE_F32 WASM_TYPE_VOID 0
  | WASM_OPCODE_I32_TRUNC_S_F64 => mkOpcodeInfo "i32.trunc_s/f64" WASM_TYPE_I32 WASM_TYPE_F64 WASM_TYPE_VOID 0
  | WASM_OPCODE_I32_TRUNC_U_F64 => mkOpcodeInfo "i32.trunc_u/f64" WASM_TYPE_I32 WASM_TYPE_F64 WASM_TYPE_VOID 0
  | WASM_OPCODE_I64_EXTEND_S_I32 => mkOpcodeInfo "i64.extend_s/i32" WASM_TYPE_I64 WASM_TYPE_I32 WASM_TYPE_VOID 0
  | WASM_OPCODE_I64_EXTEND_U_I32 => mkOpcodeInfo "i64.extend_u/i32" WASM_TYPE_I64 WASM_TYPE_I32 WASM_TYPE_VOID 0
  | WASM_OPCODE_I64_TRUNC_S_F32 => mkOpcodeInfo "i64.trunc_s/f32" WASM_TYPE_I64 WASM_TYPE_F32 WASM_TYPE_VOID 0
  | WASM_OPCODE_I64_TRUNC_U_F32 => mkOpcodeInfo "i64.trunc_u/f32" WASM_TYPE_I64 WASM_TYPE_F32 WASM_TYPE_VOID 0
  | WASM_OPCODE_I64_TRUNC_S_F64 => mkOpcodeInfo "i64.trunc_s/f64" WASM_TYPE_I64 WASM_TYPE_F64 WASM_TYPE_VOID 0
  | WASM_OPCODE_I64_TRUNC_U_F64 => mkOpcodeInfo "i64.trunc_u/f64" WASM_TYPE_I64 WASM_TYPE_F64 WASM_TYPE_VOID 0
  | WASM_OPCODE_F32_CONVERT_S_I32 => mkOpcodeInfo "f32.convert_s/i32" WASM_TYPE_F32 WASM_TYPE_I32 WASM_TYPE_VOID 0
  | WASM_OPCODE_F32_CONVERT_U_I32 => mkOpcodeInfo "f32.convert_u/i32" WASM_TYPE_F32 WASM_TYPE_I32 WASM_TYPE_VOID 0
  | WASM_OPCODE_F32_CONVERT_S_I64 => mkOpcodeInfo "f32.convert_s/i64" WASM_TYPE_F32 WASM_TYPE_I64 WASM_TYPE_VOID 0
  | WASM_OPCODE_F32_CONVERT_U_I64 => mkOpcodeInfo "f32.convert_u/i64" WASM_TYPE_F32 WASM_TYPE_I64 WASM_TYPE_VOID 0
  | WASM_OPCODE_F32_DEMOTE_F64 => mkOpcodeInfo "f32.demote/f64" WASM_TYPE_F32 WASM_TYPE_F64 WASM_TYPE_VOID 0
  | WASM_OPCODE_F64_CONVERT_S_I32 => mkOpcodeInfo "f64.convert_s/i32" WASM_TYPE_F64 WASM_TYPE_I32 WASM_TYPE_VOID 0
  | WASM_OPCODE_F64_CONVERT_U_I32 => mkOpcodeInfo "f64.convert_u/i32" WASM_TYPE_F64 WASM_TYPE_I32 WASM_TYPE_VOID 0
  | WASM_OPCODE_F64_CONVERT_S_I64 => mkOpcodeInfo "f64.convert_s/i64" WASM_TYPE_F64 WASM_TYPE_I64 WASM_TYPE_VOID 0
  | WASM_OPCODE_F64_CONVERT_U_I64 => mkOpcodeInfo "f64.convert_u/i64" WASM_TYPE_F64 WASM_TYPE_I64 WASM_TYPE_VOID 0
  | WASM_OPCODE_F64_PROMOTE_F32 => mkOpcodeInfo "f64.promote/f32" WASM_TYPE_F64 WASM_TYPE_F32 WASM_TYPE_VOID 0
  | WASM_OPCODE_I32_REINTERPRET_F32 => mkOpcodeInfo "i32.reinterpret/f32" WASM_TYPE_I32 WASM_TYPE_F32 WASM_TYPE_VOID 0
  | WASM_OPCODE_I64_REINTERPRET_F64 => mkOpcodeInfo "i64.reinterpret/f64" WASM_TYPE_I64 WASM_TYPE_F64 WASM_TYPE_VOID 0
  | WASM_OPCODE_F32_REINTERPRET_I32 => mkOpcodeInfo "f32.reinterpret/i32" WASM_TYPE_F32 WASM_TYPE_I32 WASM_TYPE_VOID 0
  | WASM_OPCODE_F64_REINTERPRET_I64 => mkOpcodeInfo "f64.reinterpret/i64" WASM_TYPE_F64 WASM_TYPE_I64 WASM_TYPE_VOID 0
  end.

Definition WASM_NUM_OPCODES : Z := 0xc0.

(** Reading a byte as an opcode: the [case] labels of the code's switches. *)
Definition opcode_of_code (c : Z) : option WasmOpcode :=
  List.find (fun op => opcode_code op =? c) all_opcodes.

Definition wasm_get_opcode_name (op : WasmOpcode) : string :=
  oi_name (g_wasm_opcode_info op).
Definition wasm_get_opcode_result_type (op : WasmOpcode) : WasmType :=
  oi_result_type (g_wasm_opcode_info op).
Definition wasm_get_opcode_param_type_1 (op : WasmOpcode) : WasmType :=
  oi_param1_type (g_wasm_opcode_info op).
Definition wasm_get_opcode_param_type_2 (op : WasmOpcode) : WasmType :=
  oi_param2_type (g_wasm_opcode_info op).
Definition wasm_get_opcode_memory_size (op : WasmOpcode) : Z :=
  oi_memory_size (g_wasm_opcode_info op).

Definition wasm_is_naturally_aligned (op : WasmOpcode) (alignment : Z) : bool :=
  let opcode_align := wasm_get_opcode_memory_size op in
  (alignment =? WASM_USE_NATURAL_ALIGNMENT) || (alignment =? opcode_align).

Definition wasm_get_opcode_alignment (op : WasmOpcode) (alignment : Z) : Z :=
  if alignment =? WASM_USE_NATURAL_ALIGNMENT
  then wasm_get_opcode_memory_size op
  else alignment.

(** ** Lemmas *)

Lemma opcode_code_range op : 0 <= opcode_code op < WASM_NUM_OPCODES.
Proof. by destruct op. Qed.

Lemma opcode_of_code_Some c op : opcode_of_code c = Some op -> opcode_code op = c.
Proof.
  unfold opcode_of_code. intros H. apply List.find_some in H as [_ H]. by apply Z.eqb_eq.
Qed.

Lemma opcode_of_code_code op : opcode_of_code (opcode_code op) = Some op.
Proof. by destruct op. Qed.

Lemma opcode_code_inj op1 op2 : opcode_code op1 = opcode_code op2 -> op1 = op2.
Proof.
  intros E. pose proof (opcode_of_code_code op1) as H.
  rewrite E, opcode_of_code_code in H. by injection H.
Qed.

#[global] Instance WasmOpcode_eq_dec : EqDecision WasmOpcode.
Proof.
  refine (fun x y => cast_if (decide (opcode_code x = opcode_code y))).
  - by apply opcode_code_inj.
  - by intros ->.
Defined.

Lemma wasm_type_code_inj t1 t2 : wasm_type_code t1 = wasm_type_code t2 -> t1 = t2.
Proof. by destruct t1, t2. Qed.
