(* ===== verification/Leb128.v ===== *)
(** * LEB128 integers (src/src/binary-reader.c, src/src/binary-writer.c)

    [Module Read] is the decoder: the unrolled cascades of
    [wasm_read_u32_leb128], [wasm_read_i32_leb128] and [in_i64_leb128].  A
    pointer pair [p, end] is the list of the bytes in between, so that
    [p + i < end] is [i < length p]; returning 0 bytes read (or raising an
    error, for the 64-bit reader) is [None].

    [Module Write] is the encoder: the [LEB128_LOOP_UNTIL] loops over a byte
    buffer of 5 or 10 bytes.  The loop's fuel is the size of the buffer, and
    [None] is a write past its end.

    [uleb_ref] and [sleb_ref] are the reference decoders of the encoding:
    one byte at a time, over unbounded integers. *)

From S2P Require Import Prelude.

(** ** Reference decoders *)

(** Value and number of bytes of the unsigned LEB128 at the head of [p]. *)
Fixpoint uleb_ref (p : list Z) : option (Z * Z) :=
  match p with
  | [] => None
  | b :: p' =>
      if b <? 128 then Some (b, 1)
      else match uleb_ref p' with
           | Some (v, n) => Some (b - 128 + 128 * v, n + 1)
           | None => None
           end
  end.

(** The same for the signed encoding: bit 6 of the last byte is the sign. *)
Fixpoint sleb_ref (p : list Z) : option (Z * Z) :=
  match p with
  | [] => None
  | b :: p' =>
      if b <? 128 then Some (if b <? 64 then b else b - 128, 1)
      else match sleb_ref p' with
           | Some (v, n) => Some (b - 128 + 128 * v, n + 1)
           | None => None
           end
  end.

Module Read.

(** [p[i]]; only ever used under the guard [p + i < end]. *)
Definition p_at (p : list Z) (i : nat) : Z := default 0 (p !! i).

(** The guard of each arm: [p + i < end && (p[i] & 0x80) == 0]. *)
Definition last_at (p : list Z) (i : nat) : bool :=
  (Z.of_nat i <? Z.of_nat (length p)) && (Z.land (p_at p i) 0x80 =? 0).

Definition BYTE_AT (w : Z) (p : list Z) (i : nat) (shift : Z) : Z :=
  wrap w (Z.shiftl (Z.land (p_at p i) 0x7f) shift).

(** [LEB128_n]: [LEB128_go 0] is [LEB128_1], and [LEB128_go i] is
    [BYTE_AT(type, i, 7 * i) | LEB128_i]. *)
Fixpoint LEB128_go (w : Z) (p : list Z) (i : nat) : Z :=
  match i with
  | O => BYTE_AT w p 0 0
  | S i' => Z.lor (BYTE_AT w p i (7 * Z.of_nat i)) (LEB128_go w p i')
  end.

Definition SHIFT_AMOUNT (w sign_bit : Z) : Z := w - 1 - sign_bit.

(** Shift left in the unsigned type, reinterpret, shift right as a signed
    number; the result is stored back in an unsigned object. *)
Definition SIGN_EXTEND (w value sign_bit : Z) : Z :=
  wrap w (Z.shiftr (to_signed w (wrap w (Z.shiftl value (SHIFT_AMOUNT w sign_bit))))
                   (SHIFT_AMOUNT w sign_bit)).

Definition wasm_read_u32_leb128 (p : list Z) : option (Z * Z) :=
  if last_at p 0 then Some (LEB128_go 32 p 0, 1)
  else if last_at p 1 then Some (LEB128_go 32 p 1, 2)
  else if last_at p 2 then Some (LEB128_go 32 p 2, 3)
  else if last_at p 3 then Some (LEB128_go 32 p 3, 4)
  else if last_at p 4 then
    (* the top bits set represent values > 32 bits *)
    if negb (Z.land (p_at p 4) 0xf0 =? 0) then None
    else Some (LEB128_go 32 p 4, 5)
  else (* past the end *) None.

Definition wasm_read_i32_leb128 (p : list Z) : option (Z * Z) :=
  if last_at p 0 then Some (SIGN_EXTEND 32 (LEB128_go 32 p 0) 6, 1)
  else if last_at p 1 then Some (SIGN_EXTEND 32 (LEB128_go 32 p 1) 13, 2)
  else if last_at p 2 then Some (SIGN_EXTEND 32 (LEB128_go 32 p 2) 20, 3)
  else if last_at p 3 then Some (SIGN_EXTEND 32 (LEB128_go 32 p 3) 27, 4)
  else if last_at p 4 then
    (* the top bits should be a sign-extension of the sign bit *)
    let sign_bit_set := negb (Z.land (p_at p 4) 0x8 =? 0) in
    let top_bits := Z.land (p_at p 4) 0xf0 in
    if (sign_bit_set && negb (top_bits =? 0x70))
       || (negb sign_bit_set && negb (top_bits =? 0))
    then None
    else Some (LEB128_go 32 p 4, 5)
  else None.

Definition in_i64_leb128_at (p : list Z) : option (Z * Z) :=
  if last_at p 0 then Some (SIGN_EXTEND 64 (LEB128_go 64 p 0) 6, 1)
  else if last_at p 1 then Some (SIGN_EXTEND 64 (LEB128_go 64 p 1) 13, 2)
  else if last_at p 2 then Some (SIGN_EXTEND 64 (LEB128_go 64 p 2) 20, 3)
  else if last_at p 3 then Some (SIGN_EXTEND 64 (LEB128_go 64 p 3) 27, 4)
  else if last_at p 4 then Some (SIGN_EXTEND 64 (LEB128_go 64 p 4) 34, 5)
  else if last_at p 5 then Some (SIGN_EXTEND 64 (LEB128_go 64 p 5) 41, 6)
  else if last_at p 6 then Some (SIGN_EXTEND 64 (LEB128_go 64 p 6) 48, 7)
  else if last_at p 7 then Some (SIGN_EXTEND 64 (LEB128_go 64 p 7) 55, 8)
  else if last_at p 8 then Some (SIGN_EXTEND 64 (LEB128_go 64 p 8) 62, 9)
  else if last_at p 9 then
    (* the top bits should be a sign-extension of the sign bit *)
    let sign_bit_set := negb (Z.land (p_at p 9) 0x1 =? 0) in
    let top_bits := Z.land (p_at p 9) 0xfe in
    if (sign_bit_set && negb (top_bits =? 0x7e))
       || (negb sign_bit_set && negb (top_bits =? 0))
    then None
    else Some (LEB128_go 64 p 9, 10)
  else None.

End Read.

Module Write.

Definition MAX_U32_LEB128_BYTES : nat := 5.
Definition MAX_U64_LEB128_BYTES : nat := 10.

(** [LEB128_LOOP_UNTIL(end_cond)], with the end condition a function of the
    shifted [value] and of [byte]. *)
Fixpoint LEB128_LOOP_UNTIL (end_cond : Z -> Z -> bool) (room : nat) (value : Z)
    : option (list Z) :=
  match room with
  | O => None
  | S room' =>
      let byte := Z.land value 0x7f in
      let value := Z.shiftr value 7 in
      if end_cond value byte then Some [byte]
      else match LEB128_LOOP_UNTIL end_cond room' value with
           | Some data => Some (Z.lor byte 0x80 :: data)
           | None => None
           end
  end.

(** The bytes [wasm_write_u32_leb128_at] hands to the stream. *)
Definition u32_leb128 (value : Z) : option (list Z) :=
  LEB128_LOOP_UNTIL (fun value _ => value =? 0) MAX_U32_LEB128_BYTES value.

(** [room] is [end - data]; a buffer shorter than 5 bytes is left alone and
    the code returns 0. *)
Definition wasm_write_fixed_u32_leb128_raw (room value : Z) : option (list Z) :=
  if room <? Z.of_nat MAX_U32_LEB128_BYTES then None else Some
  [ Z.lor (Z.land value 0x7f) 0x80;
    Z.lor (Z.land (Z.shiftr value 7) 0x7f) 0x80;
    Z.lor (Z.land (Z.shiftr value 14) 0x7f) 0x80;
    Z.lor (Z.land (Z.shiftr value 21) 0x7f) 0x80;
    Z.land (Z.shiftr value 28) 0x0f ].

(** The two end conditions of the signed writers. *)
Definition neg_end (value byte : Z) : bool :=
  (value =? -1) && negb (Z.land byte 0x40 =? 0).
Definition pos_end (value byte : Z) : bool :=
  (value =? 0) && (Z.land byte 0x40 =? 0).

(** The bytes of [wasm_write_i32_leb128]; [value] is the [int32_t]. *)
Definition i32_leb128 (value : Z) : option (list Z) :=
  if value <? 0
  then LEB128_LOOP_UNTIL neg_end MAX_U32_LEB128_BYTES value
  else LEB128_LOOP_UNTIL pos_end MAX_U32_LEB128_BYTES value.

(** The bytes of [write_i64_leb128]; [value] is the [int64_t]. *)
Definition i64_leb128 (value : Z) : option (list Z) :=
  if value <? 0
  then LEB128_LOOP_UNTIL neg_end MAX_U64_LEB128_BYTES value
  else LEB128_LOOP_UNTIL pos_end MAX_U64_LEB128_BYTES value.

(** [size_u32_leb128]: a do-while loop; 5 rounds exhaust 32 bits. *)
Fixpoint size_u32_leb128_loop (fuel : nat) (value size : Z) : option Z :=
  match fuel with
  | O => None
  | S fuel' =>
      let value := Z.shiftr value 7 in
      let size := size + 1 in
      if value =? 0 then Some size else size_u32_leb128_loop fuel' value size
  end.

Definition size_u32_leb128 (value : Z) : option Z :=
  size_u32_leb128_loop 5 value 0.

End Write.

(** ** Lemmas: the decoders *)

(** The payload of a list of bytes: 7 bits each, least significant first. *)
Fixpoint leb_sum (l : list Z) : Z :=
  match l with
  | [] => 0
  | b :: l' => b mod 128 + 128 * leb_sum l'
  end.

Lemma leb_sum_bound l : 0 <= leb_sum l < 2 ^ (7 * Z.of_nat (length l)).
Proof.
  induction l as [|b l IH]; cbn [leb_sum length]; [lia|].
  replace (7 * Z.of_nat (S (length l))) with (7 + 7 * Z.of_nat (length l)) by lia.
  rewrite Z.pow_add_r by lia. change (2 ^ 7) with 128.
  pose proof (Z.mod_pos_bound b 128 ltac:(lia)). lia.
Qed.

Lemma leb_sum_snoc l b :
  leb_sum (l ++ [b]) = (b mod 128) * 2 ^ (7 * Z.of_nat (length l)) + leb_sum l.
Proof.
  induction l as [|c l IH]; [cbn; lia|]. cbn [leb_sum length app]. rewrite IH.
  replace (7 * Z.of_nat (S (length l))) with (7 + 7 * Z.of_nat (length l)) by lia.
  rewrite Z.pow_add_r by lia. change (2 ^ 7) with 128. lia.
Qed.

Import Read.

Lemma LEB128_go_sum w p i :
  (i < length p)%nat -> 7 * Z.of_nat i <= w ->
  LEB128_go w p i = wrap w (leb_sum (take (S i) p)).
Proof.
  induction i as [|i IH]; intros Hi Hw;
    destruct (lookup_lt_is_Some_2 p _ Hi) as [b Hb];
    rewrite (take_S_r _ _ b) by done;
    rewrite leb_sum_snoc, length_take_le by lia;
    cbn [LEB128_go]; unfold BYTE_AT, p_at; rewrite Hb; cbn [default from_option id];
    rewrite (land_mask _ _ 7) by done; rewrite Z.shiftl_mul_pow2 by lia;
    change (2 ^ 7) with 128.
  - rewrite firstn_O. cbn [leb_sum]. by rewrite Z.add_0_r.
  - rewrite IH by lia. pose proof (leb_sum_bound (take (S i) p)) as HB.
    rewrite length_take_le in HB by lia.
    set (s := 7 * Z.of_nat (S i)) in *.
    pose proof (Z.pow_le_mono_r 2 s w ltac:(lia) ltac:(lia)).
    rewrite (wrap_id w (leb_sum _)) by (unfold in_u; lia).
    unfold wrap. replace w with (s + (w - s)) by lia.
    rewrite Z.pow_add_r by lia.
    rewrite (Z.mul_comm (b mod 128)), Zmult_mod_distr_l, Z.mul_comm by lia.
    rewrite lor_shiftl_add by lia.
    rewrite (Z.mul_comm (2 ^ s) (b mod 128)), Z.rem_mul_r, Z.div_add_l, Z.div_small by lia.
    rewrite (Z.add_comm (b mod 128 * 2 ^ s)), Z_mod_plus_full, (Z.mod_small (leb_sum _)) by lia.
    rewrite Z.add_0_r. lia.
Qed.

(** Position [i] is the first byte without the continuation bit. *)
Definition stops_at (p : list Z) (i : nat) : Prop :=
  (forall j, (j < i)%nat -> exists b, p !! j = Some b /\ 128 <= b < 256) /\
  (exists b, p !! i = Some b /\ 0 <= b < 128).

Lemma last_at_lookup p i b :
  p !! i = Some b -> in_u 8 b -> last_at p i = (b <? 128).
Proof.
  intros Hb Hu. unfold last_at, p_at. rewrite Hb.
  pose proof (lookup_lt_Some _ _ _ Hb).
  rewrite (proj2 (Z.ltb_lt _ _)) by lia. cbn [default from_option id andb].
  pose proof (byte_check (fun b => Bool.eqb (Z.land b 128 =? 0) (b <? 128)) eq_refl b Hu) as E.
  by apply Bool.eqb_prop in E.
Qed.

Lemma stops_at_last p i j :
  stops_at p i -> (j <= i)%nat -> last_at p j = bool_decide (j = i).
Proof.
  intros [H1 (b & Hb & ?)] Hj. destruct (decide (j = i)) as [->|Hne].
  - rewrite (last_at_lookup _ _ b) by (done || ulia).
    rewrite bool_decide_true by done. lia.
  - destruct (H1 j) as (c & Hc & ?); [lia|].
    rewrite (last_at_lookup _ _ c) by (done || ulia).
    rewrite bool_decide_false by done. lia.
Qed.

(** A first byte without the continuation bit, or no number at all. *)
Definition stops_or_not (p : list Z) : Prop :=
  (exists i, stops_at p i) \/
  (forall i, last_at p i = false) /\ uleb_ref p = None /\ sleb_ref p = None.

Lemma stops_at_dec p : bytes_ok p -> stops_or_not p.
Proof.
  unfold stops_or_not. induction 1 as [|b p Hb Hp IH].
  - right. split; [|done]. by intros [|i].
  - cbn [uleb_ref sleb_ref]. destruct (Z.ltb_spec b 128).
    { left. exists 0%nat. split; [lia|]. exists b. split; [done|ulia]. }
    destruct IH as [[i [H1 H2]]|(H1 & -> & ->)].
    + left. exists (S i). split; [|done].
      intros [|j] Hj; [exists b; split; [done|ulia]|]. apply H1. lia.
    + right. split; [|done]. intros [|i].
      * rewrite (last_at_lookup _ _ b) by done. lia.
      * rewrite <- (H1 i). unfold last_at, p_at. cbn [length lookup list_lookup].
        f_equal. rewrite !Nat2Z.inj_succ. destruct (Z.ltb_spec (Z.succ (Z.of_nat i)) (Z.succ (Z.of_nat (length p)))), (Z.ltb_spec (Z.of_nat i) (Z.of_nat (length p))); lia.
Qed.

(** What the reference decoders return at a stop. *)
Lemma refs_stops_at p i :
  stops_at p i ->
  uleb_ref p = Some (leb_sum (take (S i) p), Z.of_nat i + 1) /\
  sleb_ref p = Some (leb_sum (take (S i) p)
                     - (if p_at p i <? 64 then 0 else 2 ^ (7 * Z.of_nat (S i))),
                     Z.of_nat i + 1).
Proof.
  revert p. induction i as [|i IH]; intros p [H1 (b & Hb & ?)].
  - destruct p as [|c p]; [done|]. injection Hb as ->.
    cbn [uleb_ref sleb_ref]. unfold p_at. cbn.
    rewrite (proj2 (Z.ltb_lt b 128)) by lia.
    rewrite firstn_O, Z.mod_small by lia. cbn [leb_sum].
    change (2 ^ (7 * Z.of_nat 1)) with 128.
    destruct (Z.ltb_spec b 64); split; do 2 f_equal; lia.
  - destruct p as [|c p]; [done|].
    destruct (H1 0%nat) as (c' & Hc & ?); [lia|]. injection Hc as ->.
    assert (stops_at p i) as Hi.
    { split; [|eauto]. intros j Hj. apply (H1 (S j)). lia. }
    destruct (IH p Hi) as [E1 E2]. cbn [uleb_ref sleb_ref]. rewrite E1, E2.
    rewrite (proj2 (Z.ltb_ge c' 128)) by lia.
    change (p_at (c' :: p) (S i)) with (p_at p i).
    change (take (S (S i)) (c' :: p)) with (c' :: take (S i) p). cbn [leb_sum].
    rewrite <- (Z_mod_plus_full c' (-1)), Z.mod_small by lia.
    replace (7 * Z.of_nat (S (S i))) with (7 + 7 * Z.of_nat (S i)) by lia.
    rewrite Z.pow_add_r by lia. change (2 ^ 7) with 128.
    destruct (p_at p i <? 64); split; do 2 f_equal; lia.
Qed.

Lemma SIGN_EXTEND_spec w v sb :
  0 <= sb < w -> 0 <= v < 2 ^ (sb + 1) ->
  SIGN_EXTEND w v sb = wrap w (v - (if v <? 2 ^ sb then 0 else 2 ^ (sb + 1))).
Proof.
  intros Hsb Hv. unfold SIGN_EXTEND, SHIFT_AMOUNT. set (k := w - 1 - sb).
  assert (2 ^ w = 2 ^ (sb + 1) * 2 ^ k) as Ew by (rewrite <- Z.pow_add_r by lia; f_equal; lia).
  assert (2 ^ (w - 1) = 2 ^ sb * 2 ^ k) as Ew1 by (rewrite <- Z.pow_add_r by lia; f_equal; lia).
  assert (0 < 2 ^ k) by lia.
  rewrite Z.shiftl_mul_pow2 by lia.
  rewrite (wrap_id w (v * 2 ^ k)) by (unfold in_u; rewrite Ew; nia).
  f_equal. unfold to_signed. rewrite Z.shiftr_div_pow2 by lia. rewrite Ew, Ew1.
  destruct (Z.ltb_spec v (2 ^ sb)).
  - rewrite (proj2 (Z.ltb_lt _ _)) by nia. rewrite Z.div_mul; lia.
  - rewrite (proj2 (Z.ltb_ge _ _)) by nia. rewrite <- Z.mul_sub_distr_r. by rewrite Z.div_mul by lia.
Qed.

(** The value stored when the decoder stops below its last arm. *)
Lemma leb_go_small w p i :
  stops_at p i -> 7 * Z.of_nat (S i) <= w ->
  LEB128_go w p i = leb_sum (take (S i) p) /\
  0 <= leb_sum (take (S i) p) < 2 ^ (7 * Z.of_nat (S i)).
Proof.
  intros [_ (b & Hb & _)] Hw. pose proof (lookup_lt_Some _ _ _ Hb).
  pose proof (leb_sum_bound (take (S i) p)) as HB. rewrite length_take_le in HB by lia.
  pose proof (Z.pow_le_mono_r 2 (7 * Z.of_nat (S i)) w ltac:(lia) ltac:(lia)).
  split; [|done]. rewrite LEB128_go_sum by lia. apply wrap_id. unfold in_u. lia.
Qed.

(** The same with a sign extension from bit [7 * (i + 1) - 1]. *)
Lemma leb_go_signed w p i :
  stops_at p i -> 7 * Z.of_nat (S i) <= w ->
  exists v, sleb_ref p = Some (v, Z.of_nat i + 1) /\
    SIGN_EXTEND w (LEB128_go w p i) (7 * Z.of_nat (S i) - 1) = wrap w v /\
    - 2 ^ (7 * Z.of_nat (S i) - 1) <= v < 2 ^ (7 * Z.of_nat (S i) - 1).
Proof.
  intros Hs Hw. destruct (leb_go_small w p i Hs Hw) as [-> HB].
  destruct (refs_stops_at p i Hs) as [_ ->].
  eexists. split; [done|].
  set (s := 7 * Z.of_nat (S i) - 1) in *.
  replace (7 * Z.of_nat (S i)) with (s + 1) in * by lia.
  assert (2 ^ (s + 1) = 2 * 2 ^ s) as Es by (rewrite Z.pow_add_r by lia; lia).
  assert ((p_at p i <? 64) = (leb_sum (take (S i) p) <? 2 ^ s)) as ->.
  { destruct Hs as [_ (b & Hb & Hlt)]. unfold p_at. rewrite Hb. cbn [default from_option id].
    pose proof (lookup_lt_Some _ _ _ Hb).
    rewrite (take_S_r _ _ b) by done. rewrite leb_sum_snoc, Z.mod_small by lia.
    pose proof (leb_sum_bound (take i p)) as HB'. rewrite length_take_le in * by lia.
    assert (2 ^ s = 64 * 2 ^ (7 * Z.of_nat i)) as ->.
    { change 64 with (2 ^ 6). rewrite <- Z.pow_add_r by lia. f_equal. lia. }
    zbool; nia. }
  split; [apply SIGN_EXTEND_spec; lia|]. zbool; lia.
Qed.

(** The last arm: the payload of [S i] bytes does not fit the type. *)
Lemma leb_go_last w p i :
  stops_at p i -> 7 * Z.of_nat i <= w ->
  exists lo, 0 <= lo < 2 ^ (7 * Z.of_nat i) /\ 0 <= p_at p i < 128 /\
    leb_sum (take (S i) p) = p_at p i * 2 ^ (7 * Z.of_nat i) + lo /\
    LEB128_go w p i = wrap w (p_at p i * 2 ^ (7 * Z.of_nat i) + lo).
Proof.
  intros [_ (b & Hb & Hlt)] Hw. pose proof (lookup_lt_Some _ _ _ Hb).
  exists (leb_sum (take i p)). unfold p_at. rewrite Hb. cbn [default from_option id].
  pose proof (leb_sum_bound (take i p)) as HB. rewrite length_take_le in HB by lia.
  rewrite LEB128_go_sum by lia. rewrite (take_S_r _ _ b) by done.
  rewrite leb_sum_snoc, length_take_le, Z.mod_small by lia. done.
Qed.

(** Unroll a decoder whose input stops at the known position [i]. *)
Ltac leb_arms Hs :=
  repeat match goal with
  | |- context [last_at ?p ?j] =>
      rewrite (stops_at_last p _ j Hs) by lia;
      match goal with |- context [bool_decide (j = ?k)] =>
        first [ rewrite (bool_decide_true (j = k)) by lia
              | rewrite (bool_decide_false (j = k)) by lia ]
      end; cbv iota
  end.

Ltac leb_small Hs :=
  let E := fresh in let HB := fresh in
  match goal with |- context [LEB128_go ?w ?p ?i] =>
    destruct (leb_go_small w p i Hs ltac:(lia)) as [E HB]; rewrite E
  end.

Lemma u32_last_byte b : in_u 8 b ->
  ((b <? 128) && (Z.land b 0xf0 =? 0)) = ((b <? 128) && (b <? 16)).
Proof.
  intros Hb.
  exact (Bool.eqb_prop _ _ (byte_check (fun b =>
    Bool.eqb ((b <? 128) && (Z.land b 0xf0 =? 0)) ((b <? 128) && (b <? 16))) eq_refl b Hb)).
Qed.

Lemma wasm_read_u32_leb128_ref p : stops_or_not p ->
  wasm_read_u32_leb128 p =
    match uleb_ref p with
    | Some (v, n) => if (n <=? 5) && (v <? 2 ^ 32) then Some (v, n) else None
    | None => None
    end.
Proof.
  intros Hp. unfold wasm_read_u32_leb128.
  destruct Hp as [[i Hs]|(H1 & H2 & _)].
  2: { by rewrite H2, !H1. }
  rewrite (proj1 (refs_stops_at p i Hs)).
  destruct (decide (i < 4)%nat).
  - destruct (leb_go_small 32 p i Hs ltac:(lia)) as [E HB].
    pose proof (Z.pow_le_mono_r 2 (7 * Z.of_nat (S i)) 28 ltac:(lia) ltac:(lia)).
    rewrite (proj2 (Z.leb_le (Z.of_nat i + 1) 5)) by lia.
    rewrite (proj2 (Z.ltb_lt _ (2 ^ 32))) by (change (2 ^ 28) with 268435456 in *; lia).
    cbn [andb]. rewrite <- E.
    destruct i as [|[|[|[|i]]]]; [..|lia]; leb_arms Hs; done.
  - destruct (decide (i = 4)%nat) as [->|].
    + leb_arms Hs.
      destruct (leb_go_last 32 p 4 Hs ltac:(lia)) as (lo & Hlo & Hb & Es & E).
      change (7 * Z.of_nat 4) with 28 in *. rewrite Es, E.
      pose proof (u32_last_byte (p_at p 4) ltac:(ulia)) as HH.
      rewrite (proj2 (Z.ltb_lt _ 128)) in HH by lia. cbn [andb] in HH. rewrite HH.
      cbn. change (2 ^ 28) with 268435456 in *.
      change (Z.pow_pos 2 32) with 4294967296.
      destruct (Z.ltb_spec (p_at p 4) 16); cbn [negb].
      * rewrite (proj2 (Z.ltb_lt _ _)) by lia. rewrite wrap_id by ulia. done.
      * by rewrite (proj2 (Z.ltb_ge _ _)) by lia.
    + leb_arms Hs. by rewrite (proj2 (Z.leb_gt _ _)) by lia.
Qed.

Lemma i32_last_byte b : in_u 8 b -> b < 128 ->
  ((negb (Z.land b 0x8 =? 0) && negb (Z.land b 0xf0 =? 0x70))
   || (negb (negb (Z.land b 0x8 =? 0)) && negb (Z.land b 0xf0 =? 0)))
  = negb ((b <? 8) || (120 <=? b)).
Proof.
  intros Hb Hlt.
  pose proof (byte_check (fun b => negb (b <? 128) || Bool.eqb
    ((negb (Z.land b 0x8 =? 0) && negb (Z.land b 0xf0 =? 0x70))
     || (negb (negb (Z.land b 0x8 =? 0)) && negb (Z.land b 0xf0 =? 0)))
    (negb ((b <? 8) || (120 <=? b)))) eq_refl b Hb) as H.
  cbv beta in H. rewrite (proj2 (Z.ltb_lt b 128)) in H by lia.
  by apply Bool.eqb_prop in H.
Qed.

Lemma i64_last_byte b : in_u 8 b -> b < 128 ->
  ((negb (Z.land b 0x1 =? 0) && negb (Z.land b 0xfe =? 0x7e))
   || (negb (negb (Z.land b 0x1 =? 0)) && negb (Z.land b 0xfe =? 0)))
  = negb ((b <? 1) || (127 <=? b)).
Proof.
  intros Hb Hlt.
  pose proof (byte_check (fun b => negb (b <? 128) || Bool.eqb
    ((negb (Z.land b 0x1 =? 0) && negb (Z.land b 0xfe =? 0x7e))
     || (negb (negb (Z.land b 0x1 =? 0)) && negb (Z.land b 0xfe =? 0)))
    (negb ((b <? 1) || (127 <=? b)))) eq_refl b Hb) as H.
  cbv beta in H. rewrite (proj2 (Z.ltb_lt b 128)) in H by lia.
  by apply Bool.eqb_prop in H.
Qed.

(** The value of the last arm of a signed decoder: accepted exactly when the
    unused bits of the byte repeat the sign bit, that is, when the value is in
    range. *)
Lemma leb_signed_last w p i m :
  stops_at p i -> 7 * Z.of_nat i < w < 7 * Z.of_nat (S i) ->
  m = 2 ^ (w - 1 - 7 * Z.of_nat i) ->
  exists v, sleb_ref p = Some (v, Z.of_nat i + 1) /\
    LEB128_go w p i = wrap w v /\ in_u 8 (p_at p i) /\ p_at p i < 128 /\
    (in_s w v <-> p_at p i < m \/ 128 - m <= p_at p i).
Proof.
  intros Hs Hw Hm.
  destruct (leb_go_last w p i Hs ltac:(lia)) as (lo & Hlo & Hb & Es & E).
  destruct (refs_stops_at p i Hs) as [_ ->].
  eexists. split; [done|]. rewrite E, Es. set (b := p_at p i) in *.
  set (s := 7 * Z.of_nat i) in *.
  assert (2 ^ (7 * Z.of_nat (S i)) = 128 * 2 ^ s) as ->.
  { change 128 with (2 ^ 7). rewrite <- Z.pow_add_r by lia. f_equal. lia. }
  assert (2 ^ (w - 1) = m * 2 ^ s) as Ew.
  { rewrite Hm, <- Z.pow_add_r by lia. f_equal. lia. }
  assert (128 = 2 ^ (7 + s - w) * (2 * m)) as E128.
  { change 128 with (2 ^ 7). change 2 with (2 ^ 1) at 3.
    rewrite Hm, <- !Z.pow_add_r by lia. f_equal. lia. }
  assert (m <= 32).
  { rewrite Hm. change 32 with (2 ^ 5). apply Z.pow_le_mono_r; lia. }
  assert (2 ^ w = 2 * m * 2 ^ s) as Ew'.
  { replace w with (1 + (w - 1)) by lia. rewrite Z.pow_add_r, Ew by lia. lia. }
  repeat split; try ulia.
  - apply wrap_eq_add with (k := if b <? 64 then 0 else 2 ^ (7 + s - w)).
    rewrite Ew'. destruct (b <? 64); nia.
  - intros [H1 H2]. rewrite Ew in *. destruct (Z.ltb_spec b 64); nia.
  - rewrite Ew. destruct (Z.ltb_spec b 64); nia.
  - rewrite Ew. destruct (Z.ltb_spec b 64); nia.
Qed.

(** One arm below the last of a signed decoder. *)
Ltac leb_signed_arm Hs w p i n m :=
  let v := fresh in let E1 := fresh in let E2 := fresh in let HB := fresh in
  destruct (leb_go_signed w p i Hs ltac:(lia)) as (v & E1 & E2 & HB);
  rewrite E1; leb_arms Hs;
  rewrite (proj2 (Z.leb_le (Z.of_nat i + 1) n)) by lia;
  rewrite bool_decide_true
    by (unfold in_s;
        pose proof (Z.pow_le_mono_r 2 (7 * Z.of_nat (S i) - 1) m ltac:(lia) ltac:(lia));
        change (w - 1) with m; lia);
  cbn [andb]; do 2 f_equal; exact E2.

Lemma wasm_read_i32_leb128_ref p : stops_or_not p ->
  wasm_read_i32_leb128 p =
    match sleb_ref p with
    | Some (v, n) => if (n <=? 5) && bool_decide (in_s 32 v) then Some (u32 v, n) else None
    | None => None
    end.
Proof.
  intros Hp. unfold wasm_read_i32_leb128.
  destruct Hp as [[i Hs]|(H1 & _ & H2)].
  2: { by rewrite H2, !H1. }
  destruct i as [|[|[|[|[|i]]]]].
  - leb_signed_arm Hs 32 p 0%nat 5 31.
  - leb_signed_arm Hs 32 p 1%nat 5 31.
  - leb_signed_arm Hs 32 p 2%nat 5 31.
  - leb_signed_arm Hs 32 p 3%nat 5 31.
  - destruct (leb_signed_last 32 p 4 8 Hs ltac:(lia) eq_refl) as (v & E & Ev & Hb & Hlt & Hiff).
    rewrite E. leb_arms Hs. rewrite Ev, i32_last_byte by done.
    change (Z.of_nat 4 + 1 <=? 5) with true. cbn [andb].
    destruct (Z.ltb_spec (p_at p 4) 8), (Z.leb_spec 120 (p_at p 4)); cbn [orb negb];
      first [ rewrite bool_decide_true by (apply Hiff; lia) | rewrite bool_decide_false by (rewrite Hiff; lia) ]; done.
  - rewrite (proj2 (refs_stops_at p _ Hs)). leb_arms Hs.
    by rewrite (proj2 (Z.leb_gt _ _)) by lia.
Qed.

Lemma in_i64_leb128_at_ref p : stops_or_not p ->
  in_i64_leb128_at p =
    match sleb_ref p with
    | Some (v, n) => if (n <=? 10) && bool_decide (in_s 64 v) then Some (u64 v, n) else None
    | None => None
    end.
Proof.
  intros Hp. unfold in_i64_leb128_at.
  destruct Hp as [[i Hs]|(H1 & _ & H2)].
  2: { by rewrite H2, !H1. }
  destruct i as [|[|[|[|[|[|[|[|[|[|i]]]]]]]]]].
  - leb_signed_arm Hs 64 p 0%nat 10 63.
  - leb_signed_arm Hs 64 p 1%nat 10 63.
  - leb_signed_arm Hs 64 p 2%nat 10 63.
  - leb_signed_arm Hs 64 p 3%nat 10 63.
  - leb_signed_arm Hs 64 p 4%nat 10 63.
  - leb_signed_arm Hs 64 p 5%nat 10 63.
  - leb_signed_arm Hs 64 p 6%nat 10 63.
  - leb_signed_arm Hs 64 p 7%nat 10 63.
  - leb_signed_arm Hs 64 p 8%nat 10 63.
  - destruct (leb_signed_last 64 p 9 1 Hs ltac:(lia) eq_refl) as (v & E & Ev & Hb & Hlt & Hiff).
    rewrite E. leb_arms Hs. rewrite Ev, i64_last_byte by done.
    change (Z.of_nat 9 + 1 <=? 10) with true. cbn [andb].
    destruct (Z.ltb_spec (p_at p 9) 1), (Z.leb_spec 127 (p_at p 9)); cbn [orb negb];
      first [ rewrite bool_decide_true by (apply Hiff; lia) | rewrite bool_decide_false by (rewrite Hiff; lia) ]; done.
  - rewrite (proj2 (refs_stops_at p _ Hs)). leb_arms Hs.
    by rewrite (proj2 (Z.leb_gt _ _)) by lia.
Qed.

(** ** Lemmas: the encoders *)

Import Write.

Lemma low7 v : Z.land v 0x7f = v mod 128.
Proof. by rewrite (land_mask _ _ 7). Qed.

Lemma low7_cont v : Z.lor (Z.land v 0x7f) 0x80 = v mod 128 + 128.
Proof.
  rewrite low7. pose proof (Z.mod_pos_bound v 128 ltac:(lia)).
  pose proof (lor_shiftl_add 1 (v mod 128) 7 ltac:(lia) ltac:(lia)) as E.
  change (1 * 2 ^ 7) with 128 in E. rewrite Z.lor_comm. lia.
Qed.

Lemma shiftr7 v : Z.shiftr v 7 = v / 128.
Proof. by rewrite Z.shiftr_div_pow2. Qed.

Lemma sign_bit b : 0 <= b < 128 -> (Z.land b 0x40 =? 0) = (b <? 64).
Proof.
  intros Hb.
  pose proof (byte_check (fun b => negb (b <? 128) || Bool.eqb (Z.land b 0x40 =? 0) (b <? 64))
                eq_refl b ltac:(ulia)) as H.
  cbv beta in H. rewrite (proj2 (Z.ltb_lt b 128)) in H by lia.
  by apply Bool.eqb_prop in H.
Qed.

(** What an encoder owes its reader: [l] fits the buffer, is made of bytes,
    and decodes to [v] whatever follows it. *)
Definition encodes (ref : list Z -> option (Z * Z)) (room : nat) (v : Z) (l : list Z) : Prop :=
  (0 < length l <= room)%nat /\ bytes_ok l /\
  forall rest, ref (l ++ rest) = Some (v, Z.of_nat (length l)).

Lemma encodes_last ref room b v :
  (0 < room)%nat -> in_u 8 b ->
  (forall rest, ref (b :: rest) = Some (v, 1)) -> encodes ref room v [b].
Proof. intros. split; [cbn; lia|]. split; [|done].
  by apply Forall_singleton.
Qed.

Lemma encodes_uleb_cons room v v' l :
  encodes uleb_ref room v' l -> v' = v / 128 ->
  encodes uleb_ref (S room) v (v mod 128 + 128 :: l).
Proof.
  intros (H1 & H2 & H3) ->. pose proof (Z.mod_pos_bound v 128 ltac:(lia)).
  split; [cbn; lia|]. split; [constructor; [ulia|done]|].
  intros rest. cbn [app uleb_ref]. rewrite (proj2 (Z.ltb_ge _ _)), H3 by lia.
  do 2 f_equal; [dlia|cbn [length]; lia].
Qed.

Lemma encodes_sleb_cons room v v' l :
  encodes sleb_ref room v' l -> v' = v / 128 ->
  encodes sleb_ref (S room) v (v mod 128 + 128 :: l).
Proof.
  intros (H1 & H2 & H3) ->. pose proof (Z.mod_pos_bound v 128 ltac:(lia)).
  split; [cbn; lia|]. split; [constructor; [ulia|done]|].
  intros rest. cbn [app sleb_ref]. rewrite (proj2 (Z.ltb_ge _ _)), H3 by lia.
  do 2 f_equal; [dlia|cbn [length]; lia].
Qed.

Lemma uleb_loop_spec room v :
  (0 < room)%nat -> 0 <= v < 2 ^ (7 * Z.of_nat room) ->
  exists l, LEB128_LOOP_UNTIL (fun value _ => value =? 0) room v = Some l /\
            encodes uleb_ref room v l.
Proof.
  revert v. induction room as [|room IH]; intros v Hr Hv; [lia|].
  cbn [LEB128_LOOP_UNTIL]. rewrite low7_cont, low7, shiftr7.
  pose proof (Z.mod_pos_bound v 128 ltac:(lia)).
  destruct (Z.eqb_spec (v / 128) 0).
  - eexists. split; [done|]. assert (v mod 128 = v) as -> by dlia.
    assert (v < 128) by dlia.
    apply encodes_last; [lia|ulia|]. intros. cbn [uleb_ref].
    by rewrite (proj2 (Z.ltb_lt v 128)) by lia.
  - destruct room as [|room].
    { change (2 ^ (7 * Z.of_nat 1)) with 128 in Hv. dlia. }
    replace (7 * Z.of_nat (S (S room))) with (7 + 7 * Z.of_nat (S room)) in Hv by lia.
    rewrite Z.pow_add_r in Hv by lia. change (2 ^ 7) with 128 in Hv.
    destruct (IH (v / 128)) as (l & -> & Hl); [lia|dlia|].
    eexists. split; [done|]. by eapply encodes_uleb_cons.
Qed.

(** The two signed loops at once: [sg] is the value the shifts converge to. *)
Lemma sleb_loop_spec (neg : bool) room v :
  (0 < room)%nat ->
  (if neg then - 2 ^ (7 * Z.of_nat room - 1) <= v < 0
   else 0 <= v < 2 ^ (7 * Z.of_nat room - 1)) ->
  exists l, LEB128_LOOP_UNTIL (if neg then neg_end else pos_end) room v = Some l /\
            encodes sleb_ref room v l.
Proof.
  revert v. induction room as [|room IH]; intros v Hr Hv; [lia|].
  cbn [LEB128_LOOP_UNTIL]. rewrite low7_cont, low7, shiftr7.
  pose proof (Z.mod_pos_bound v 128 ltac:(lia)).
  assert ((if neg then neg_end else pos_end) (v / 128) (v mod 128)
          = if neg then (v / 128 =? -1) && negb (v mod 128 <? 64)
            else (v / 128 =? 0) && (v mod 128 <? 64)) as ->.
  { destruct neg; unfold neg_end, pos_end; by rewrite sign_bit. }
  destruct (if neg then _ else _) eqn:Eend.
  - eexists. split; [done|]. apply encodes_last; [lia|ulia|]. intros. cbn [sleb_ref].
    rewrite (proj2 (Z.ltb_lt (v mod 128) 128)) by lia. do 2 f_equal.
    destruct neg; apply andb_prop in Eend as [E1%Z.eqb_eq E2]; zbool; cbn in E2; try done; dlia.
  - destruct room as [|room].
    { exfalso. change (2 ^ (7 * Z.of_nat 1 - 1)) with 64 in Hv.
      destruct neg; apply andb_false_iff in Eend as [E|E];
        try apply Z.eqb_neq in E; try apply negb_false_iff in E;
        try apply Z.ltb_lt in E; try apply Z.ltb_ge in E; dlia. }
    replace (7 * Z.of_nat (S (S room)) - 1) with (7 + (7 * Z.of_nat (S room) - 1)) in Hv by lia.
    rewrite Z.pow_add_r in Hv by lia. change (2 ^ 7) with 128 in Hv.
    destruct (IH (v / 128)) as (l & -> & Hl); [lia|destruct neg; dlia|].
    eexists. split; [done|]. by eapply encodes_sleb_cons.
Qed.

Lemma u32_leb128_encodes v : in_u 32 v ->
  exists l, u32_leb128 v = Some l /\ encodes uleb_ref 5 v l.
Proof. intros. apply uleb_loop_spec; [unfold MAX_U32_LEB128_BYTES; lia|ulia]. Qed.

Lemma i32_leb128_encodes v : in_s 32 v ->
  exists l, i32_leb128 v = Some l /\ encodes sleb_ref 5 v l.
Proof.
  intros. unfold i32_leb128. destruct (Z.ltb_spec v 0).
  - apply (sleb_loop_spec true); [unfold MAX_U32_LEB128_BYTES; lia|ulia].
  - apply (sleb_loop_spec false); [unfold MAX_U32_LEB128_BYTES; lia|ulia].
Qed.

Lemma i64_leb128_encodes v : in_s 64 v ->
  exists l, i64_leb128 v = Some l /\ encodes sleb_ref 10 v l.
Proof.
  intros. unfold i64_leb128. destruct (Z.ltb_spec v 0).
  - apply (sleb_loop_spec true); [unfold MAX_U64_LEB128_BYTES; lia|ulia].
  - apply (sleb_loop_spec false); [unfold MAX_U64_LEB128_BYTES; lia|ulia].
Qed.

Lemma size_loop_shift fuel v k :
  size_u32_leb128_loop fuel v k = option_map (Z.add k) (size_u32_leb128_loop fuel v 0).
Proof.
  revert v k. induction fuel as [|fuel IH]; intros v k; [done|].
  cbn [size_u32_leb128_loop]. destruct (Z.shiftr v 7 =? 0); [done|].
  rewrite (IH _ (k + 1)), (IH _ (0 + 1)).
  destruct (size_u32_leb128_loop fuel (Z.shiftr v 7) 0); cbn; [f_equal; lia|done].
Qed.

(** The length computed ahead of time is the length written. *)
Lemma size_loop_length fuel v :
  size_u32_leb128_loop fuel v 0
  = option_map (fun l => Z.of_nat (length l))
      (LEB128_LOOP_UNTIL (fun value _ => value =? 0) fuel v).
Proof.
  revert v. induction fuel as [|fuel IH]; intros v; [done|].
  cbn [size_u32_leb128_loop LEB128_LOOP_UNTIL].
  destruct (Z.shiftr v 7 =? 0); [done|].
  rewrite size_loop_shift, IH.
  destruct (LEB128_LOOP_UNTIL _ fuel (Z.shiftr v 7)); cbn; [|done]. f_equal. lia.
Qed.

Lemma size_u32_leb128_length v l :
  u32_leb128 v = Some l -> size_u32_leb128 v = Some (Z.of_nat (length l)).
Proof. intros H. unfold size_u32_leb128. rewrite size_loop_length.
  unfold u32_leb128, MAX_U32_LEB128_BYTES in H. by rewrite H.
Qed.

Lemma uleb_loop_lower room v l :
  0 <= v -> LEB128_LOOP_UNTIL (fun value _ => value =? 0) room v = Some l ->
  length l = 1%nat \/ 2 ^ (7 * (Z.of_nat (length l) - 1)) <= v.
Proof.
  revert v l. induction room as [|room IH]; intros v l Hv H; [done|].
  cbn [LEB128_LOOP_UNTIL] in H. rewrite shiftr7 in H.
  destruct (Z.eqb_spec (v / 128) 0); [injection H as <-; by left|].
  destruct (LEB128_LOOP_UNTIL _ room (v / 128)) as [l'|] eqn:E; [|done].
  injection H as <-. right. cbn [length].
  assert (0 < v / 128) by dlia.
  destruct (IH (v / 128) l' ltac:(lia) E) as [->|Hl].
  - change (2 ^ _) with 128. dlia.
  - replace (7 * (Z.of_nat (S (length l')) - 1)) with (7 + 7 * (Z.of_nat (length l') - 1)) by lia.
    destruct (length l') as [|m] eqn:En.
    { destruct l'; [|done]. exfalso. destruct room; [done|]. cbn [LEB128_LOOP_UNTIL] in E.
      destruct (_ =? 0); [done|]. by destruct (LEB128_LOOP_UNTIL _ _ _). }
    rewrite Z.pow_add_r by lia. change (2 ^ 7) with 128. dlia.
Qed.

Lemma uleb_ref_bound p v n :
  bytes_ok p -> uleb_ref p = Some (v, n) -> 0 < n /\ 0 <= v < 2 ^ (7 * n).
Proof.
  intros Hp H. destruct (stops_at_dec p Hp) as [[i Hs]|(_ & E & _)]; [|by rewrite E in H].
  rewrite (proj1 (refs_stops_at p i Hs)) in H. injection H as <- <-.
  destruct Hs as [_ (b & Hb & _)]. pose proof (lookup_lt_Some _ _ _ Hb).
  pose proof (leb_sum_bound (take (S i) p)) as HB. rewrite length_take_le in HB by lia.
  replace (Z.of_nat (S i)) with (Z.of_nat i + 1) in HB by lia. lia.
Qed.

Lemma fixed_u32_uleb_ref v rest l : in_u 32 v ->
  wasm_write_fixed_u32_leb128_raw 5 v = Some l -> uleb_ref (l ++ rest) = Some (v, 5).
Proof.
  intros Hv H. unfold wasm_write_fixed_u32_leb128_raw in H.
  change (5 <? Z.of_nat MAX_U32_LEB128_BYTES) with false in H. cbv iota in H.
  injection H as <-. rewrite !low7_cont.
  rewrite !Z.shiftr_div_pow2 by lia. rewrite (land_mask _ _ 4) by done.
  unfold in_u in Hv. zpow. cbn [app uleb_ref].
  repeat match goal with
  | |- context [?a mod 128 + 128 <? 128] =>
      rewrite (proj2 (Z.ltb_ge (a mod 128 + 128) 128))
        by (pose proof (Z.mod_pos_bound a 128 ltac:(lia)); lia)
  end.
  rewrite (proj2 (Z.ltb_lt _ 128)) by dlia. do 2 f_equal. dlia.
Qed.

Lemma fixed_u32_bytes v :
  bytes_ok
    [ Z.lor (Z.land v 0x7f) 0x80;
      Z.lor (Z.land (Z.shiftr v 7) 0x7f) 0x80;
      Z.lor (Z.land (Z.shiftr v 14) 0x7f) 0x80;
      Z.lor (Z.land (Z.shiftr v 21) 0x7f) 0x80;
      Z.land (Z.shiftr v 28) 0x0f ].
Proof.
  rewrite !low7_cont, (land_mask _ _ 4) by done. unfold in_u.
  repeat (constructor; [match goal with |- context [?a mod ?m] =>
    pose proof (Z.mod_pos_bound a m ltac:(lia)) end; zpow; lia|]). constructor.
Qed.

(** A number is read whatever follows it, bytes or not. *)
Lemma stops_or_not_app p q : bytes_ok p ->
  is_Some (uleb_ref p) \/ is_Some (sleb_ref p) -> stops_or_not (p ++ q).
Proof.
  intros Hp Hr. destruct (stops_at_dec p Hp) as [[i [H1 (b & Hb & ?)]]|(_ & E1 & E2)].
  - left. exists i. split; [|exists b; split; [by apply lookup_app_l_Some|done]].
    intros j Hj. destruct (H1 j Hj) as (c & Hc & ?). exists c. split; [by apply lookup_app_l_Some|done].
  - rewrite E1, E2 in Hr. by destruct Hr as [[? ?]|[? ?]].
Qed.

Lemma encodes_stops ref room v l rest : (ref = uleb_ref \/ ref = sleb_ref) ->
  encodes ref room v l -> stops_or_not (l ++ rest).
Proof.
  intros Href (_ & Hb & Hr). specialize (Hr []). rewrite app_nil_r in Hr.
  apply stops_or_not_app; [done|]. destruct Href as [-> | ->]; [left|right]; by eexists.
Qed.

Lemma u32_leb128_read v : in_u 32 v -> exists l, u32_leb128 v = Some l /\ (0 < length l <= 5)%nat /\
  forall rest, wasm_read_u32_leb128 (l ++ rest) = Some (v, Z.of_nat (length l)).
Proof.
  intros Hv. destruct (u32_leb128_encodes v Hv) as (l & E & H). exists l. split; [done|].
  split; [by destruct H|]. intros rest. rewrite wasm_read_u32_leb128_ref by (by apply (encodes_stops uleb_ref 5 v); [left|]).
  destruct H as (H1 & _ & H3). rewrite H3.
  by rewrite (proj2 (Z.leb_le _ 5)), (proj2 (Z.ltb_lt v _)) by ulia.
Qed.

Lemma i32_leb128_read v : in_s 32 v -> exists l, i32_leb128 v = Some l /\ (0 < length l <= 5)%nat /\
  forall rest, wasm_read_i32_leb128 (l ++ rest) = Some (u32 v, Z.of_nat (length l)).
Proof.
  intros Hv. destruct (i32_leb128_encodes v Hv) as (l & E & H). exists l. split; [done|].
  split; [by destruct H|]. intros rest. rewrite wasm_read_i32_leb128_ref by (by apply (encodes_stops sleb_ref 5 v); [right|]).
  destruct H as (H1 & _ & H3). rewrite H3.
  by rewrite (proj2 (Z.leb_le _ 5)), bool_decide_true by (done || lia).
Qed.

Lemma i64_leb128_read v : in_s 64 v -> exists l, i64_leb128 v = Some l /\ (0 < length l <= 10)%nat /\
  forall rest, in_i64_leb128_at (l ++ rest) = Some (u64 v, Z.of_nat (length l)).
Proof.
  intros Hv. destruct (i64_leb128_encodes v Hv) as (l & E & H). exists l. split; [done|].
  split; [by destruct H|]. intros rest. rewrite in_i64_leb128_at_ref by (by apply (encodes_stops sleb_ref 10 v); [right|]).
  destruct H as (H1 & _ & H3). rewrite H3.
  by rewrite (proj2 (Z.leb_le _ 10)), bool_decide_true by (done || lia).
Qed.

Lemma fixed_u32_read v : in_u 32 v -> exists l, wasm_write_fixed_u32_leb128_raw 5 v = Some l /\
  length l = 5%nat /\ forall rest, wasm_read_u32_leb128 (l ++ rest) = Some (v, 5).
Proof.
  intros Hv. eexists. split; [reflexivity|]. split; [reflexivity|]. intros rest.
  rewrite wasm_read_u32_leb128_ref.
  - rewrite (fixed_u32_uleb_ref v) by done. by rewrite (proj2 (Z.ltb_lt v _)) by ulia.
  - apply stops_or_not_app; [apply fixed_u32_bytes|]. left.
    eexists. rewrite <- (app_nil_r (_ :: _)). by apply (fixed_u32_uleb_ref v).
Qed.

(** ** Properties *)

(** C17 - an unsigned 32-bit integer written by [wasm_write_u32_leb128] is read
    back by [wasm_read_u32_leb128], whatever follows it in the buffer; the
    write loop stays inside its 5-byte buffer and the reader consumes exactly
    the bytes written. *)
Theorem u32_leb128_roundtrip (v : Z) (rest : list Z) :
  in_u 32 v ->
  exists l, u32_leb128 v = Some l /\ (length l <= 5)%nat /\
    wasm_read_u32_leb128 (l ++ rest) = Some (v, Z.of_nat (length l)).
Proof.
  intros Hv. destruct (u32_leb128_read v Hv) as (l & E & Hl & Hr).
  exists l. split_and!; [done|lia|apply Hr].
Qed.

Lemma u32_leb128_roundtrip_witness :
  exists l, u32_leb128 624485 = Some l /\ (length l <= 5)%nat /\
    wasm_read_u32_leb128 (l ++ [7]) = Some (624485, Z.of_nat (length l)).
Proof.
  apply (u32_leb128_roundtrip 624485 [7]). unfold in_u. lia.
Defined.

(** C18 - signed integers, 32-bit and 64-bit: the bytes the writers emit are
    read back as the two's complement image of the value, with the writers'
    loops inside their 5 and 10 byte buffers. *)
Theorem signed_leb128_roundtrip (rest : list Z) :
  (forall v, in_s 32 v -> exists l, i32_leb128 v = Some l /\ (length l <= 5)%nat /\
     wasm_read_i32_leb128 (l ++ rest) = Some (u32 v, Z.of_nat (length l))) /\
  (forall v, in_s 64 v -> exists l, i64_leb128 v = Some l /\ (length l <= 10)%nat /\
     in_i64_leb128_at (l ++ rest) = Some (u64 v, Z.of_nat (length l))).
Proof.
  split; intros v Hv.
  - destruct (i32_leb128_read v Hv) as (l & E & Hl & Hr). exists l. split_and!; [done|lia|apply Hr].
  - destruct (i64_leb128_read v Hv) as (l & E & Hl & Hr). exists l. split_and!; [done|lia|apply Hr].
Qed.

Lemma signed_leb128_roundtrip_witness : exists l,
  i32_leb128 (-300) = Some l /\ (length l <= 5)%nat /\
  wasm_read_i32_leb128 (l ++ [1; 2]) = Some (u32 (-300), Z.of_nat (length l)).
Proof.
  apply (proj1 (signed_leb128_roundtrip [1; 2])). unfold in_s. lia.
Defined.

(** C25 - on every byte string the three unrolled decoders agree with the
    reference decoders: they accept exactly the encodings of at most 5 (resp.
    10) bytes whose value fits the type, return that value, and reject
    truncated, overlong and out-of-range input. *)
Theorem leb128_decoders_match_reference (p : list Z) :
  bytes_ok p ->
  wasm_read_u32_leb128 p =
    match uleb_ref p with
    | Some (v, n) => if (n <=? 5) && (v <? 2 ^ 32) then Some (v, n) else None
    | None => None
    end /\
  wasm_read_i32_leb128 p =
    match sleb_ref p with
    | Some (v, n) => if (n <=? 5) && bool_decide (in_s 32 v) then Some (u32 v, n) else None
    | None => None
    end /\
  in_i64_leb128_at p =
    match sleb_ref p with
    | Some (v, n) => if (n <=? 10) && bool_decide (in_s 64 v) then Some (u64 v, n) else None
    | None => None
    end.
Proof.
  intros Hp%stops_at_dec. split_and!; auto using wasm_read_u32_leb128_ref, wasm_read_i32_leb128_ref,
    in_i64_leb128_at_ref.
Qed.

Lemma leb128_decoders_match_reference_witness :
  wasm_read_u32_leb128 [0xe5; 0x8e; 0x26] = Some (624485, 3).
Proof.
  destruct (leb128_decoders_match_reference [0xe5; 0x8e; 0x26]) as [-> _].
  { repeat constructor; unfold in_u; lia. }
  reflexivity.
Defined.

(** C26 - the variable-length encoding is the shortest one: any bytes that read
    as [v] are at least as many as [wasm_write_u32_leb128] writes, and
    [size_u32_leb128] computes that number without writing.  The fixed-width
    encoding always takes 5 bytes and reads back as the same value. *)
Theorem u32_leb128_minimal (v : Z) :
  in_u 32 v ->
  exists l f, u32_leb128 v = Some l /\ size_u32_leb128 v = Some (Z.of_nat (length l)) /\
    (forall p n, bytes_ok p -> wasm_read_u32_leb128 p = Some (v, n) ->
       Z.of_nat (length l) <= n) /\
    wasm_write_fixed_u32_leb128_raw 5 v = Some f /\ length f = 5%nat /\ bytes_ok f /\
    (forall rest, wasm_read_u32_leb128 (f ++ rest) = Some (v, 5)).
Proof.
  intros Hv. destruct (u32_leb128_encodes v Hv) as (l & E & _).
  exists l. eexists. split; [done|]. split; [by apply size_u32_leb128_length|].
  split_and!; [|reflexivity|reflexivity|by apply fixed_u32_bytes|].
  - intros p n Hp Hread. rewrite wasm_read_u32_leb128_ref in Hread by by apply stops_at_dec.
    destruct (uleb_ref p) as [[v' n']|] eqn:Ep; [|done].
    destruct (_ && _); [|done]. injection Hread as -> ->.
    destruct (uleb_ref_bound p v n Hp Ep) as [Hn Hb].
    destruct (uleb_loop_lower 5 v l ltac:(unfold in_u in Hv; lia) E) as [->|Hl]; [lia|].
    assert (7 * (Z.of_nat (length l) - 1) < 7 * n); [|lia].
    apply (Z.pow_lt_mono_r_iff 2); lia.
  - intros rest. destruct (fixed_u32_read v Hv) as (f & Ef & _ & Hf). injection Ef as <-. apply Hf.
Qed.

Lemma u32_leb128_minimal_witness :
  exists l f, u32_leb128 300 = Some l /\ size_u32_leb128 300 = Some (Z.of_nat (length l)) /\
    (forall p n, bytes_ok p -> wasm_read_u32_leb128 p = Some (300, n) ->
       Z.of_nat (length l) <= n) /\
    wasm_write_fixed_u32_leb128_raw 5 300 = Some f /\ length f = 5%nat /\ bytes_ok f /\
    (forall rest, wasm_read_u32_leb128 (f ++ rest) = Some (300, 5)).
Proof. apply (u32_leb128_minimal 300). unfold in_u. lia. Defined.
