(* ===== verification/Float.v ===== *)
(** * IEEE-754 formats

    C's [float] and [double] are the binary32 and binary64 formats.  A float
    object is modelled by the bits [memcpy] copies out of it; arithmetic goes
    through [spec_float], the Standard Library's executable specification of
    IEEE-754 (round to nearest, ties to even), which has one NaN and no
    payloads.  The bits of a NaN that arithmetic produces are not fixed by C or
    by IEEE-754: they are the parameter [nan_bits] of the definitions that need
    them, with the one documented fact about it that it is a NaN. *)

From S2P Require Import Prelude.
From Stdlib Require Export SpecFloat.

(** [ff_w] bits in all, [ff_sig] in the significand field; [ff_emax] is the
    exponent of infinity. *)
Record FloatFmt : Set := mkFloatFmt { ff_w : Z; ff_sig : Z; ff_emax : Z }.

Definition fmt32 : FloatFmt := mkFloatFmt 32 23 128.
Definition fmt64 : FloatFmt := mkFloatFmt 64 52 1024.

Definition ff_prec (f : FloatFmt) : Z := ff_sig f + 1.
Definition ff_bias (f : FloatFmt) : Z := ff_emax f - 1.
(** The three fields of the bits of a float. *)
Definition f_sign (f : FloatFmt) (b : Z) : bool := 2 ^ (ff_w f - 1) <=? b.
Definition f_exp (f : FloatFmt) (b : Z) : Z := (b / 2 ^ ff_sig f) mod 2 ^ (ff_w f - 1 - ff_sig f).
Definition f_frac (f : FloatFmt) (b : Z) : Z := b mod 2 ^ ff_sig f.
(** The exponent field of infinities and NaNs. *)
Definition f_emask (f : FloatFmt) : Z := 2 ^ (ff_w f - 1 - ff_sig f) - 1.

Definition f_pack (f : FloatFmt) (s : bool) (e m : Z) : Z :=
  b2z s * 2 ^ (ff_w f - 1) + e * 2 ^ ff_sig f + m.

Definition sf_of_bits (f : FloatFmt) (b : Z) : spec_float :=
  let s := f_sign f b in
  let e := f_exp f b in
  let m := f_frac f b in
  if e =? 0 then
    if m =? 0 then S754_zero s
    else S754_finite s (Z.to_pos m) (1 - ff_bias f - ff_sig f)
  else if e =? f_emask f then
    if m =? 0 then S754_infinity s else S754_nan
  else S754_finite s (Z.to_pos (m + 2 ^ ff_sig f)) (e - ff_bias f - ff_sig f).

Definition bits_of_sf (f : FloatFmt) (nan : Z) (x : spec_float) : Z :=
  match x with
  | S754_zero s => f_pack f s 0 0
  | S754_infinity s => f_pack f s (f_emask f) 0
  | S754_nan => nan
  | S754_finite s m e =>
      if Z.pos m <? 2 ^ ff_sig f then f_pack f s 0 (Z.pos m)
      else f_pack f s (e + ff_bias f + ff_sig f) (Z.pos m - 2 ^ ff_sig f)
  end.

Definition f_is_nan (f : FloatFmt) (b : Z) : Prop :=
  f_exp f b = f_emask f /\ f_frac f b <> 0.

(** The two formats of C. *)
Definition f_ok (f : FloatFmt) : Prop := f = fmt32 \/ f = fmt64.

(** The bits arithmetic gives a NaN result, from the bits of the operands. *)
Class NanBits := {
  nan_bits : FloatFmt -> list Z -> Z;
  nan_bits_u : forall f args, f_ok f -> in_u (ff_w f) (nan_bits f args);
  nan_bits_nan : forall f args, f_ok f -> f_is_nan f (nan_bits f args);
}.

(** One possible choice: the positive quiet NaN with an empty payload. *)
Definition default_nan (f : FloatFmt) : Z :=
  f_pack f false (f_emask f) (2 ^ (ff_sig f - 1)).

Definition default_nan_bits : NanBits.
Proof.
  refine {| nan_bits := fun f _ => default_nan f |}; intros f _ [-> | ->]; by vm_compute.
Defined.

(** ** The C library's rounding functions *)

Inductive RoundMode : Set := Rceil | Rfloor | Rtrunc | Rnearest.

(** Magnitude of [m / d] rounded to an integer, for sign [s]. *)
Definition rint_mag (mode : RoundMode) (s : bool) (m d : Z) : Z :=
  let q := m / d in
  let r := m mod d in
  match mode with
  | Rtrunc => q
  | Rceil => if s || (r =? 0) then q else q + 1
  | Rfloor => if negb s || (r =? 0) then q else q + 1
  | Rnearest =>
      match 2 * r ?= d with
      | Lt => q
      | Gt => q + 1
      | Eq => if Z.even q then q else q + 1
      end
  end.

(** [ceil], [floor], [trunc], [nearbyint] (in the default rounding mode). *)
Definition SFrint (f : FloatFmt) (mode : RoundMode) (x : spec_float) : spec_float :=
  match x with
  | S754_finite s m e =>
      if 0 <=? e then x
      else match rint_mag mode s (Z.pos m) (2 ^ (- e)) with
           | Z.pos p => binary_round (ff_prec f) (ff_emax f) s p 0
           | _ => S754_zero s
           end
  | _ => x
  end.

(** Truncation towards zero, for the casts to integer types; no value for
    infinities and NaNs. *)
Definition SFtrunc (x : spec_float) : option Z :=
  match x with
  | S754_zero _ => Some 0
  | S754_finite s m e =>
      Some (cond_Zopp s (if 0 <=? e then Z.pos m * 2 ^ e else Z.pos m / 2 ^ (- e)))
  | _ => None
  end.

(** A cast to an integer type is defined when the truncated value is in the
    range [lo, hi] of the type; otherwise the behaviour is undefined. *)
Definition cast_to_int (lo hi : Z) (x : spec_float) : option Z :=
  match SFtrunc x with
  | Some z => if (lo <=? z) && (z <=? hi) then Some z else None
  | None => None
  end.

(** Casts from integers, and between the two formats. *)
Definition SF_of_Z (f : FloatFmt) (z : Z) : spec_float :=
  binary_normalize (ff_prec f) (ff_emax f) z 0 false.

Definition SF_convert (f : FloatFmt) (x : spec_float) : spec_float :=
  match x with
  | S754_finite s m e => binary_round (ff_prec f) (ff_emax f) s m e
  | _ => x
  end.

(** ** Fields and packing *)

Lemma f_ok_bounds f : f_ok f ->
  0 < ff_sig f < ff_w f - 1 /\ 2 * ff_emax f = 2 ^ (ff_w f - 1 - ff_sig f).
Proof. by intros [-> | ->]. Qed.

Section fields.
Context (f : FloatFmt) (Hf : f_ok f).

Lemma f_split b : in_u (ff_w f) b ->
  b = f_pack f (f_sign f b) (f_exp f b) (f_frac f b) /\
  0 <= f_exp f b <= f_emask f /\ 0 <= f_frac f b < 2 ^ ff_sig f.
Proof.
  destruct (f_ok_bounds f Hf) as [Hw _]. unfold in_u. intros Hb.
  unfold f_pack, f_sign, f_exp, f_frac, f_emask.
  set (S := ff_sig f) in *. set (W := ff_w f) in *. set (E := W - 1 - S) in *.
  assert (2 ^ W = 2 * (2 ^ E * 2 ^ S)) as EW.
  { rewrite <- Z.pow_add_r by lia. replace W with (1 + (E + S)) by lia.
    by rewrite Z.pow_add_r by lia. }
  assert (2 ^ (W - 1) = 2 ^ E * 2 ^ S) as EW1 by (rewrite <- Z.pow_add_r by lia; f_equal; lia).
  assert (0 < 2 ^ S) by lia. assert (0 < 2 ^ E) by lia.
  pose proof (Z.mod_pos_bound b (2 ^ S) ltac:(lia)).
  pose proof (Z.mod_pos_bound (b / 2 ^ S) (2 ^ E) ltac:(lia)).
  split; [|lia]. rewrite EW1.
  pose proof (Z.div_mod b (2 ^ S) ltac:(lia)) as D.
  pose proof (Z.div_mod (b / 2 ^ S) (2 ^ E) ltac:(lia)) as D'.
  set (q := b / 2 ^ S) in *. set (h := q / 2 ^ E) in *.
  set (r := q mod 2 ^ E) in *.
  destruct (Z.leb_spec (2 ^ E * 2 ^ S) b); cbn [b2z].
  - assert (h = 1) by nia. nia.
  - assert (h = 0) by nia. nia.
Qed.

Lemma f_pack_fields s e m :
  0 <= e <= f_emask f -> 0 <= m < 2 ^ ff_sig f ->
  f_sign f (f_pack f s e m) = s /\ f_exp f (f_pack f s e m) = e /\
  f_frac f (f_pack f s e m) = m /\ in_u (ff_w f) (f_pack f s e m).
Proof.
  destruct (f_ok_bounds f Hf) as [Hw _].
  unfold f_pack, f_sign, f_exp, f_frac, f_emask, in_u.
  set (S := ff_sig f) in *. set (W := ff_w f) in *. set (E := W - 1 - S) in *.
  intros He Hm.
  assert (2 ^ W = 2 * (2 ^ E * 2 ^ S)) as EW.
  { rewrite <- Z.pow_add_r by lia. replace W with (1 + (E + S)) by lia.
    by rewrite Z.pow_add_r by lia. }
  assert (2 ^ (W - 1) = 2 ^ E * 2 ^ S) as -> by (rewrite <- Z.pow_add_r by lia; f_equal; lia).
  assert (0 < 2 ^ S) by lia. assert (0 < 2 ^ E) by lia.
  replace (b2z s * (2 ^ E * 2 ^ S) + e * 2 ^ S + m)
    with ((b2z s * 2 ^ E + e) * 2 ^ S + m) by lia.
  rewrite Z.div_add_l, (Z.div_small m), Z.add_0_r by lia.
  rewrite !(Z.add_comm (_ * _)), !Z_mod_plus_full, !Z.mod_small by lia.
  rewrite EW. destruct s; cbn [b2z]; split_and!; try done; try nia; zbool; nia.
Qed.

Lemma f_is_nan_sf b : in_u (ff_w f) b -> f_is_nan f b <-> sf_of_bits f b = S754_nan.
Proof.
  intros Hb. unfold f_is_nan, sf_of_bits.
  assert (0 < f_emask f) by (destruct Hf as [-> | ->]; vm_compute; done).
  destruct (Z.eqb_spec (f_exp f b) 0); [|destruct (Z.eqb_spec (f_exp f b) (f_emask f))];
    destruct (Z.eqb_spec (f_frac f b) 0);
    (split; [intros [H1 H2]; first [done | lia] | intros H1; first [done | split; [lia|done]]]).
Qed.

(** A float that is not a NaN is determined by its value. *)
Lemma bits_of_sf_of_bits nan b :
  in_u (ff_w f) b -> ~ f_is_nan f b -> bits_of_sf f nan (sf_of_bits f b) = b.
Proof.
  intros Hb Hn. destruct (f_split b Hb) as (Eb & He & Hm).
  unfold sf_of_bits. unfold f_is_nan in Hn.
  destruct (Z.eqb_spec (f_exp f b) 0) as [E0|E0].
  - destruct (Z.eqb_spec (f_frac f b) 0) as [M0|M0]; cbn [bits_of_sf].
    + rewrite Eb at 2. by rewrite E0, M0.
    + rewrite Z2Pos.id by lia. rewrite (proj2 (Z.ltb_lt _ _)) by lia.
      rewrite Eb at 3. by rewrite E0.
  - destruct (Z.eqb_spec (f_exp f b) (f_emask f)) as [E1|E1].
    + destruct (Z.eqb_spec (f_frac f b) 0) as [M0|M0]; [|tauto]. cbn [bits_of_sf].
      rewrite Eb at 2. by rewrite E1, M0.
    + cbn [bits_of_sf]. rewrite Z2Pos.id by lia.
      rewrite (proj2 (Z.ltb_ge _ _)) by lia. rewrite Eb at 4. f_equal; lia.
Qed.
End fields.
