(* ===== verification/Rounding.v ===== *)
(** * Rounding of [spec_float]

    [binary_round] of the Standard Library shifts digit by digit and keeps two
    sticky bits.  Here it is characterised by one division: the significand is
    divided by a power of two and rounded to the nearest integer, ties to even.
    The files that check hand-written rounding code (the demotion of
    interpreter.c, the hexadecimal literals of literal.c) work with this form. *)

From S2P Require Import Prelude Float.

(** [m / 2 ^ n] rounded to the nearest integer, ties to even. *)
Definition rne (m n : Z) : Z := rint_mag Rnearest false m (2 ^ n).

(** Position of the remainder of [m / 2 ^ n]. *)
Definition rem_loc (m n : Z) : location :=
  if m mod 2 ^ n =? 0 then loc_Exact else loc_Inexact (2 * (m mod 2 ^ n) ?= 2 ^ n).

(** The two sticky bits that stand for a location. *)
Definition is_shr (m n : Z) (r : shr_record) : Prop :=
  shr_m r = m / 2 ^ n /\ loc_of_shr_record r = rem_loc m n.

Lemma iter_pos_nat {A} (g : A -> A) p x : iter_pos g p x = Nat.iter (Pos.to_nat p) g x.
Proof.
  revert x. induction p as [p IH|p IH|]; intros x; cbn [iter_pos].
  - rewrite !IH, Pos2Nat.inj_xI. cbn [Nat.iter].
    rewrite <- Nat.iter_add. replace (Pos.to_nat p + Pos.to_nat p)%nat with (2 * Pos.to_nat p)%nat by lia.
    symmetry. apply Nat.iter_succ_r.
  - rewrite !IH, Pos2Nat.inj_xO, <- Nat.iter_add. f_equal. lia.
  - done.
Qed.

Lemma shr_1_halves m r s : 0 <= m ->
  shr_1 (Build_shr_record m r s) = Build_shr_record (m / 2) (Z.odd m) (r || s).
Proof.
  intros Hm. destruct m as [|[p|p|]|]; try done; cbn [shr_1 Z.odd]; f_equal.
  - change (Z.pos p~1) with (2 * Z.pos p + 1). dlia.
  - change (Z.pos p~0) with (2 * Z.pos p). dlia.
Qed.

Lemma loc_of_bits m r s :
  loc_of_shr_record (Build_shr_record m r s) =
    if r then loc_Inexact (if s then Gt else Eq) else if s then loc_Inexact Lt else loc_Exact.
Proof. by destruct r, s. Qed.

Lemma shr_iter_spec m n : 0 <= m ->
  is_shr m (Z.of_nat n) (Nat.iter n shr_1 (Build_shr_record m false false)).
Proof.
  intros Hm. induction n as [|n [IHm IHl]].
  { split; cbn [Nat.iter Z.of_nat shr_m]; [by rewrite Z.div_1_r|].
    unfold rem_loc. by rewrite Z.mod_1_r. }
  rewrite Nat.iter_succ. set (x := Nat.iter n shr_1 _) in *. clearbody x.
  destruct x as [q r s]. cbn [shr_m] in IHm. subst q.
  assert (0 < 2 ^ Z.of_nat n) by lia.
  rewrite shr_1_halves by (apply Z.div_pos; lia).
  rewrite Nat2Z.inj_succ. unfold is_shr, rem_loc in *. rewrite Z.pow_succ_r by lia.
  cbn [shr_m]. set (P := 2 ^ Z.of_nat n) in *.
  split; [by rewrite (Z.mul_comm 2), Z.div_div by lia|].
  rewrite (Z.mul_comm 2 P), Z.rem_mul_r by lia.
  rewrite loc_of_bits in *. pose proof (Z.mod_pos_bound m P ltac:(lia)) as Hr.
  rewrite Zodd_mod. pose proof (Z.mod_pos_bound (m / P) 2 ltac:(lia)).
  set (b := m / P mod 2) in *. set (x := m mod P) in *.
  assert (b = 0 \/ b = 1) as [Eb|Eb] by lia; rewrite Eb; cbn [Z.eqb].
  all: destruct (Z.eqb_spec x 0) as [Ex|Ex].
  - rewrite Ex. replace (0 + P * 0) with 0 by lia. by destruct r, s.
  - destruct (Z.eqb_spec (x + P * 0) 0); [lia|].
    rewrite (proj2 (Z.compare_lt_iff _ _)) by lia. by destruct r, s.
  - rewrite Ex. destruct (Z.eqb_spec (0 + P * 1) 0); [lia|].
    rewrite (proj2 (Z.compare_eq_iff _ _)) by lia. by destruct r, s.
  - destruct (Z.eqb_spec (x + P * 1) 0); [lia|].
    rewrite (proj2 (Z.compare_gt_iff _ _)) by lia. by destruct r, s.
Qed.

Lemma round_nearest_even_spec m n : 0 <= m -> 0 <= n ->
  round_nearest_even (m / 2 ^ n) (rem_loc m n) = rne m n.
Proof.
  intros Hm Hn. assert (0 < 2 ^ n) by lia.
  unfold rem_loc, rne, rint_mag. destruct (Z.eqb_spec (m mod 2 ^ n) 0) as [->|].
  - rewrite Z.mul_0_r. by destruct (2 ^ n).
  - by destruct (_ ?= _).
Qed.

Lemma digits2_pos_log2 p : Z.pos (digits2_pos p) = Z.log2 (Z.pos p) + 1.
Proof.
  induction p as [p IH|p IH|]; cbn [digits2_pos]; [| |done].
  - rewrite Pos2Z.inj_succ, IH. change (Z.pos p~1) with (2 * Z.pos p + 1).
    rewrite Z.log2_succ_double by lia. lia.
  - rewrite Pos2Z.inj_succ, IH. change (Z.pos p~0) with (2 * Z.pos p).
    rewrite Z.log2_double by lia. lia.
Qed.

Lemma Zdigits2_le q n : 0 <= q < 2 ^ n -> 0 <= n -> Zdigits2 q <= n.
Proof.
  intros Hq Hn. destruct q as [|p|p]; [done| |lia]. cbn [Zdigits2].
  rewrite digits2_pos_log2. pose proof (Z.log2_lt_pow2 (Z.pos p) n). lia.
Qed.

Lemma rne_bounds m n : 0 <= m -> 0 <= n -> m / 2 ^ n <= rne m n <= m / 2 ^ n + 1.
Proof.
  intros. unfold rne, rint_mag. destruct (_ ?= _); [destruct (Z.even _)| |]; lia.
Qed.

(** Rounding is monotone up to an integer bound. *)
Lemma rne_le m n k : 0 <= m -> 0 <= n -> m <= k * 2 ^ n -> rne m n <= k.
Proof.
  intros Hm Hn Hk. assert (0 < 2 ^ n) by lia. pose proof (rne_bounds m n Hm Hn).
  destruct (Z.eq_dec (m / 2 ^ n) k) as [E|].
  - assert (m mod 2 ^ n = 0) as R by (pose proof (Z.div_mod m (2 ^ n)); pose proof (Z.mod_pos_bound m (2 ^ n)); nia).
    unfold rne, rint_mag. rewrite R, Z.mul_0_r, (proj2 (Z.compare_lt_iff _ _)) by lia. lia.
  - assert (m / 2 ^ n <= k); [|lia]. apply Z.div_le_upper_bound; lia.
Qed.

Lemma shl_align_spec mx ex e : e <= ex ->
  exists mz, shl_align mx ex e = (mz, e) /\ Z.pos mz = Z.pos mx * 2 ^ (ex - e).
Proof.
  intros Hle. unfold shl_align. destruct (e - ex) as [|p|p] eqn:E; [|lia|].
  - exists mx. replace ex with e by lia. by rewrite Z.sub_diag, Z.mul_1_r.
  - eexists. split; [done|]. replace (ex - e) with (Z.pos p) by lia. clear.
    induction p as [|p IH] using Pos.peano_ind; [cbn; lia|].
    rewrite Pos.iter_succ, Pos2Z.inj_succ, Z.pow_succ_r by lia.
    change (Z.pos (Pos.iter xO mx p)~0) with (2 * Z.pos (Pos.iter xO mx p)). lia.
Qed.

Section round.
Context (prec emax : Z) (Hp : 0 < prec) (He : prec < emax).

(** A rounded significand [q <= 2 ^ prec] at exponent [e], renormalised. *)
Definition sf_finish (s : bool) (q e : Z) : spec_float :=
  if q =? 0 then S754_zero s
  else if q =? 2 ^ prec then
    if e + 1 <=? emax - prec then S754_finite s (Z.to_pos (2 ^ (prec - 1))) (e + 1)
    else S754_infinity s
  else if e <=? emax - prec then S754_finite s (Z.to_pos q) e else S754_infinity s.

Lemma shr_fexp_none m e l :
  fexp prec emax (Zdigits2 m + e) <= e ->
  shr_fexp prec emax m e l = (shr_record_of_loc m l, e).
Proof.
  intros Hle. unfold shr_fexp, shr. destruct (fexp _ _ _ - e) eqn:E; [done|lia|done].
Qed.

Lemma shr_fexp_some m e n : 0 <= m -> fexp prec emax (Zdigits2 m + e) = e + n -> 0 < n ->
  exists r, shr_fexp prec emax m e loc_Exact = (r, e + n) /\ is_shr m n r.
Proof.
  intros Hm Hf Hn. unfold shr_fexp, shr. rewrite Hf.
  replace (e + n - e) with n by lia. destruct n as [|p|p]; try lia.
  eexists. split; [done|]. rewrite iter_pos_nat, <- positive_nat_Z.
  by apply shr_iter_spec.
Qed.

Lemma fexp_finish q e : 0 <= q < 2 ^ prec -> emin prec emax <= e ->
  fexp prec emax (Zdigits2 q + e) <= e.
Proof. intros Hq. pose proof (Zdigits2_le q prec Hq). unfold fexp. lia. Qed.

(** The second half of [binary_round_aux]. *)
Lemma finish_spec s q e : 0 <= q <= 2 ^ prec -> emin prec emax <= e ->
  (let '(mrs, e') := shr_fexp prec emax q e loc_Exact in
   match shr_m mrs with
   | Z0 => S754_zero s
   | Zpos m => if Z.leb e' (Z.sub emax prec) then S754_finite s m e' else S754_infinity s
   | _ => S754_nan
   end) = sf_finish s q e.
Proof.
  intros Hq Hm. unfold sf_finish. destruct (Z.eqb_spec q (2 ^ prec)) as [->|Hne].
  - destruct (shr_fexp_some (2 ^ prec) e 1) as (r & -> & Hr & _); [lia| |lia|].
    + unfold fexp. assert (Zdigits2 (2 ^ prec) = prec + 1) as ->; [|lia].
      destruct (2 ^ prec) as [|p|p] eqn:E; try lia. cbn [Zdigits2].
      rewrite digits2_pos_log2, <- E, Z.log2_pow2 by lia. done.
    + rewrite Hr. rewrite (proj2 (Z.eqb_neq _ _)) by lia.
      rewrite Z.sub_1_r, <- (Z.succ_pred prec) at 1. rewrite Z.pow_succ_r by lia.
      rewrite (Z.mul_comm 2), Z.div_mul by lia.
      destruct (2 ^ Z.pred prec) as [|p|p] eqn:E; try lia. done.
  - rewrite shr_fexp_none by (apply fexp_finish; [lia|done]).
    cbn [shr_record_of_loc shr_m]. destruct q as [|p|p]; try done. lia.
Qed.

(** [binary_round] rounds the significand at the exponent [fexp] selects. *)
Lemma binary_round_spec s mx ex :
  let e := fexp prec emax (Z.log2 (Z.pos mx) + 1 + ex) in
  binary_round prec emax s mx ex =
    sf_finish s (if e <=? ex then Z.pos mx * 2 ^ (ex - e) else rne (Z.pos mx) (e - ex)) e.
Proof.
  cbn zeta. unfold binary_round. rewrite digits2_pos_log2.
  set (d := Z.log2 (Z.pos mx) + 1). set (e := fexp prec emax (d + ex)).
  pose proof (Z.log2_spec (Z.pos mx) ltac:(lia)) as Hd.
  pose proof (Z.log2_nonneg (Z.pos mx)).
  replace (Z.succ (Z.log2 (Z.pos mx))) with d in Hd by lia.
  assert (d + ex - prec <= e /\ emin prec emax <= e) as [? ?]
    by (unfold e, fexp; lia).
  destruct (Z.leb_spec e ex).
  - destruct (shl_align_spec mx ex e ltac:(lia)) as (mz & -> & Hmz).
    assert (2 ^ (d - 1) * 2 ^ (ex - e) <= Z.pos mz < 2 ^ d * 2 ^ (ex - e)) as Hb.
    { rewrite Hmz. replace (Z.log2 (Z.pos mx)) with (d - 1) in Hd by lia. nia. }
    rewrite <- !Z.pow_add_r in Hb by lia.
    assert (2 ^ (d + (ex - e)) <= 2 ^ prec) by (apply Z.pow_le_mono_r; lia).
    assert (Z.log2 (Z.pos mz) = d + (ex - e) - 1) as Hl.
    { apply Z.log2_unique; [lia|]. unfold Z.succ.
      replace (d + (ex - e) - 1 + 1) with (d + (ex - e)) by lia.
      by replace (d + (ex - e) - 1) with (d - 1 + (ex - e)) by lia. }
    unfold binary_round_aux. rewrite shr_fexp_none.
    + cbn [shr_record_of_loc shr_m loc_of_shr_record round_nearest_even].
      rewrite finish_spec by lia. by rewrite Hmz.
    + cbn [Zdigits2]. rewrite digits2_pos_log2, Hl.
      replace (d + (ex - e) - 1 + 1 + e) with (d + ex) by lia. done.
  - assert (shl_align mx ex e = (mx, ex)) as ->.
    { unfold shl_align. destruct (e - ex) eqn:E; [done|done|lia]. }
    unfold binary_round_aux.
    destruct (shr_fexp_some (Z.pos mx) ex (e - ex)) as (r & -> & Hr & Hl); [lia| |lia|].
    { cbn [Zdigits2]. rewrite digits2_pos_log2. fold d. lia. }
    rewrite Hr, Hl, round_nearest_even_spec by lia.
    replace (ex + (e - ex)) with e by lia. apply finish_spec; [|done].
    pose proof (rne_bounds (Z.pos mx) (e - ex) ltac:(lia) ltac:(lia)).
    assert (0 <= Z.pos mx / 2 ^ (e - ex)) by (apply Z.div_pos; lia).
    split; [lia|]. apply rne_le; [lia|lia|]. rewrite <- Z.pow_add_r by lia.
    pose proof (Z.pow_le_mono_r 2 d (prec + (e - ex)) ltac:(lia) ltac:(lia)). lia.
Qed.
End round.
