(* ===== verification/Numeric.v ===== *)
(** * Numeric operators of the interpreter (src/src/interpreter.c)

    The arithmetic inside the macros of interpreter.c ([BINOP_ROT],
    [BINOP_DIV_S], [MINMAX_FLOAT], ...) and the bit-level float tests, as pure
    functions of the operands' bits.  Interp.v wraps them in the pops and
    pushes of the macros.  [Module Spec] states what WebAssembly says the
    integer operators are, on mathematical integers. *)

From S2P Require Import Prelude Opcode Float.

(** [WasmInterpreterResult]. *)
Inductive WasmInterpreterResult : Set :=
  | WASM_INTERPRETER_OK
  | WASM_INTERPRETER_RETURNED
  | WASM_INTERPRETER_TRAP_MEMORY_ACCESS_OUT_OF_BOUNDS
  | WASM_INTERPRETER_TRAP_INTEGER_OVERFLOW
  | WASM_INTERPRETER_TRAP_INTEGER_DIVIDE_BY_ZERO
  | WASM_INTERPRETER_TRAP_INVALID_CONVERSION_TO_INTEGER
  | WASM_INTERPRETER_TRAP_UNDEFINED_TABLE_INDEX
  | WASM_INTERPRETER_TRAP_UNINITIALIZED_TABLE_ELEMENT
  | WASM_INTERPRETER_TRAP_UNREACHABLE
  | WASM_INTERPRETER_TRAP_INDIRECT_CALL_SIGNATURE_MISMATCH
  | WASM_INTERPRETER_TRAP_CALL_STACK_EXHAUSTED
  | WASM_INTERPRETER_TRAP_VALUE_STACK_EXHAUSTED
  | WASM_INTERPRETER_TRAP_HOST_RESULT_TYPE_MISMATCH
  | WASM_INTERPRETER_TRAP_HOST_TRAPPED
  | WASM_INTERPRETER_ARGUMENT_TYPE_MISMATCH
  | WASM_INTERPRETER_UNKNOWN_EXPORT
  | WASM_INTERPRETER_EXPORT_KIND_MISMATCH.

#[global] Instance WasmInterpreterResult_eq_dec : EqDecision WasmInterpreterResult.
Proof. solve_decision. Defined.

(** The type tokens the macros paste, with [VALUE_TYPE_*]. *)
Inductive ValType : Set := I32 | I64 | F32 | F64.

#[global] Instance ValType_eq_dec : EqDecision ValType.
Proof. solve_decision. Defined.

Definition VALUE_TYPE (t : ValType) : Z :=
  match t with I32 | F32 => 32 | I64 | F64 => 64 end.

(** [FLOAT_TYPE_*]; only used on [F32] and [F64]. *)
Definition FLOAT_TYPE (t : ValType) : FloatFmt :=
  match t with F32 | I32 => fmt32 | F64 | I64 => fmt64 end.

(** An operator either has a value, traps, or has no defined behaviour. *)
Inductive OpResult : Set :=
  | Value (v : Z)
  | Traps (r : WasmInterpreterResult)
  | Undefined.

(** ** Constants *)

Definition F32_MAX : Z := 0x7f7fffff.
Definition F32_INF : Z := 0x7f800000.
Definition F32_NEG_MAX : Z := 0xff7fffff.
Definition F32_NEG_INF : Z := 0xff800000.
Definition F32_NEG_ONE : Z := 0xbf800000.
Definition F32_NEG_ZERO : Z := 0x80000000.
Definition F32_QUIET_NAN : Z := 0x7fc00000.
Definition F32_QUIET_NAN_BIT : Z := 0x00400000.
Definition F32_SIG_BITS : Z := 23.
Definition F32_SIG_MASK : Z := 0x7fffff.
Definition F32_SIGN_MASK : Z := 0x80000000.

Definition F64_INF : Z := 0x7ff0000000000000.
Definition F64_NEG_INF : Z := 0xfff0000000000000.
Definition F64_NEG_ONE : Z := 0xbff0000000000000.
Definition F64_NEG_ZERO : Z := 0x8000000000000000.
Definition F64_QUIET_NAN : Z := 0x7ff8000000000000.
Definition F64_QUIET_NAN_BIT : Z := 0x0008000000000000.
Definition F64_SIG_BITS : Z := 52.
Definition F64_SIG_MASK : Z := 0xfffffffffffff.
Definition F64_SIGN_MASK : Z := 0x8000000000000000.

(** The constants under the macros' pasted names. *)
Definition INF (t : ValType) : Z := match t with F32 => F32_INF | _ => F64_INF end.
Definition QUIET_NAN (t : ValType) : Z :=
  match t with F32 => F32_QUIET_NAN | _ => F64_QUIET_NAN end.
Definition QUIET_NAN_BIT (t : ValType) : Z :=
  match t with F32 => F32_QUIET_NAN_BIT | _ => F64_QUIET_NAN_BIT end.
Definition SIGN_MASK (t : ValType) : Z :=
  match t with F32 => F32_SIGN_MASK | _ => F64_SIGN_MASK end.
Definition VALUE_TYPE_SIGNED_MAX (t : ValType) : Z :=
  match t with I32 => 0x80000000 | _ => 0x8000000000000000 end.
Definition VALUE_TYPE_UNSIGNED_MAX (t : ValType) : Z :=
  match t with I32 => 0xFFFFFFFF | _ => 0xFFFFFFFFFFFFFFFF end.
Definition SHIFT_MASK (t : ValType) : Z := match t with I32 => 31 | _ => 63 end.

(** ** Float tests on bits *)

Definition is_nan_f32 (f32_bits : Z) : bool :=
  ((F32_INF <? f32_bits) && (f32_bits <? F32_NEG_ZERO)) || (F32_NEG_INF <? f32_bits).

Definition is_zero_f32 (f32_bits : Z) : bool :=
  (f32_bits =? 0) || (f32_bits =? F32_NEG_ZERO).

Definition is_in_range_i32_trunc_s_f32 (f32_bits : Z) : bool :=
  (f32_bits <? 0x4f000000) || ((F32_NEG_ZERO <=? f32_bits) && (f32_bits <=? 0xcf000000)).

Definition is_in_range_i64_trunc_s_f32 (f32_bits : Z) : bool :=
  (f32_bits <? 0x5f000000) || ((F32_NEG_ZERO <=? f32_bits) && (f32_bits <=? 0xdf000000)).

Definition is_in_range_i32_trunc_u_f32 (f32_bits : Z) : bool :=
  (f32_bits <? 0x4f800000) || ((F32_NEG_ZERO <=? f32_bits) && (f32_bits <? F32_NEG_ONE)).

Definition is_in_range_i64_trunc_u_f32 (f32_bits : Z) : bool :=
  (f32_bits <? 0x5f800000) || ((F32_NEG_ZERO <=? f32_bits) && (f32_bits <? F32_NEG_ONE)).

Definition is_nan_f64 (f64_bits : Z) : bool :=
  ((F64_INF <? f64_bits) && (f64_bits <? F64_NEG_ZERO)) || (F64_NEG_INF <? f64_bits).

Definition is_zero_f64 (f64_bits : Z) : bool :=
  (f64_bits =? 0) || (f64_bits =? F64_NEG_ZERO).

Definition is_in_range_i32_trunc_s_f64 (f64_bits : Z) : bool :=
  (f64_bits <=? 0x41dfffffffc00000) ||
  ((F64_NEG_ZERO <=? f64_bits) && (f64_bits <=? 0xc1e0000000000000)).

Definition is_in_range_i32_trunc_u_f64 (f64_bits : Z) : bool :=
  (f64_bits <=? 0x41efffffffe00000) ||
  ((F64_NEG_ZERO <=? f64_bits) && (f64_bits <? F64_NEG_ONE)).

Definition is_in_range_i64_trunc_s_f64 (f64_bits : Z) : bool :=
  (f64_bits <? 0x43e0000000000000) ||
  ((F64_NEG_ZERO <=? f64_bits) && (f64_bits <=? 0xc3e0000000000000)).

Definition is_in_range_i64_trunc_u_f64 (f64_bits : Z) : bool :=
  (f64_bits <? 0x43f0000000000000) ||
  ((F64_NEG_ZERO <=? f64_bits) && (f64_bits <? F64_NEG_ONE)).

Definition is_in_range_f64_demote_f32 (f64_bits : Z) : bool :=
  (f64_bits <=? 0x47efffffe0000000) ||
  ((F64_NEG_ZERO <=? f64_bits) && (f64_bits <=? 0xc7efffffe0000000)).

Definition is_in_range_f64_demote_f32_round_to_f32_max (f64_bits : Z) : bool :=
  (0x47efffffe0000000 <? f64_bits) && (f64_bits <? 0x47effffff0000000).

Definition is_in_range_f64_demote_f32_round_to_neg_f32_max (f64_bits : Z) : bool :=
  (0xc7efffffe0000000 <? f64_bits) && (f64_bits <? 0xc7effffff0000000).

Definition IS_NAN (t : ValType) : Z -> bool :=
  match t with F32 => is_nan_f32 | _ => is_nan_f64 end.
Definition IS_ZERO (t : ValType) : Z -> bool :=
  match t with F32 => is_zero_f32 | _ => is_zero_f64 end.

(** ** C operators on [VALUE_TYPE_*] operands *)

Definition c_add (w a b : Z) : Z := wrap w (a + b).
Definition c_sub (w a b : Z) : Z := wrap w (a - b).
Definition c_mul (w a b : Z) : Z := wrap w (a * b).
Definition c_and (_ a b : Z) : Z := Z.land a b.
Definition c_or (_ a b : Z) : Z := Z.lor a b.
Definition c_xor (_ a b : Z) : Z := Z.lxor a b.
Definition c_div (_ a b : Z) : Z := Z.quot a b.
Definition c_rem (_ a b : Z) : Z := Z.rem a b.
Definition c_eq (_ a b : Z) : Z := b2z (a =? b).
Definition c_ne (_ a b : Z) : Z := b2z (negb (a =? b)).
Definition c_lt (_ a b : Z) : Z := b2z (a <? b).
Definition c_le (_ a b : Z) : Z := b2z (a <=? b).
Definition c_gt (_ a b : Z) : Z := b2z (b <? a).
Definition c_ge (_ a b : Z) : Z := b2z (b <=? a).
(** [<<] and [>>] by [n < w]; on a signed operand [>>] is arithmetic. *)
Definition c_shl (w a n : Z) : Z := wrap w (Z.shiftl a n).
Definition c_shr (_ a n : Z) : Z := Z.shiftr a n.

(** [__builtin_clz] and friends; the first two are undefined at 0. *)
Definition wasm_clz (w x : Z) : Z := w - 1 - Z.log2 x.
Fixpoint pos_ctz (p : positive) : Z :=
  match p with xO p' => 1 + pos_ctz p' | _ => 0 end.
Definition wasm_ctz (x : Z) : Z := match x with Z.pos p => pos_ctz p | _ => 0 end.
Fixpoint pos_popcount (p : positive) : Z :=
  match p with xH => 1 | xO p' => pos_popcount p' | xI p' => 1 + pos_popcount p' end.
Definition wasm_popcount (x : Z) : Z := match x with Z.pos p => pos_popcount p | _ => 0 end.

Definition op_clz (t : ValType) (value : Z) : Z :=
  if negb (value =? 0) then wasm_clz (VALUE_TYPE t) value else VALUE_TYPE t.
Definition op_ctz (t : ValType) (value : Z) : Z :=
  if negb (value =? 0) then wasm_ctz value else VALUE_TYPE t.

(** ** The macros' operators *)

Inductive Dir : Set := LEFT | RIGHT.

Definition ROT_0_SHIFT_OP (d : Dir) : Z -> Z -> Z -> Z :=
  match d with LEFT => c_shl | RIGHT => c_shr end.
Definition ROT_1_SHIFT_OP (d : Dir) : Z -> Z -> Z -> Z :=
  match d with LEFT => c_shr | RIGHT => c_shl end.

Definition BINOP_ROT_op (t : ValType) (dir : Dir) (lhs rhs : Z) : Z :=
  let w := VALUE_TYPE t in
  let amount := Z.land rhs (SHIFT_MASK t) in
  if negb (amount =? 0)
  then Z.lor (ROT_0_SHIFT_OP dir w lhs amount)
             (ROT_1_SHIFT_OP dir w lhs (SHIFT_MASK t + 1 - amount))
  else lhs.

Definition BINOP_DIV_REM_U_op (t : ValType) (op : Z -> Z -> Z -> Z) (lhs rhs : Z) : OpResult :=
  if rhs =? 0 then Traps WASM_INTERPRETER_TRAP_INTEGER_DIVIDE_BY_ZERO
  else Value (op (VALUE_TYPE t) lhs rhs).

Definition BINOP_DIV_S_op (t : ValType) (lhs rhs : Z) : OpResult :=
  if rhs =? 0 then Traps WASM_INTERPRETER_TRAP_INTEGER_DIVIDE_BY_ZERO
  else if (lhs =? VALUE_TYPE_SIGNED_MAX t) && (rhs =? VALUE_TYPE_UNSIGNED_MAX t)
  then Traps WASM_INTERPRETER_TRAP_INTEGER_OVERFLOW
  else let w := VALUE_TYPE t in
       Value (wrap w (c_div w (to_signed w lhs) (to_signed w rhs))).

Definition BINOP_REM_S_op (t : ValType) (lhs rhs : Z) : OpResult :=
  if rhs =? 0 then Traps WASM_INTERPRETER_TRAP_INTEGER_DIVIDE_BY_ZERO
  else if (lhs =? VALUE_TYPE_SIGNED_MAX t) && (rhs =? VALUE_TYPE_UNSIGNED_MAX t)
  then Value 0
  else let w := VALUE_TYPE t in
       Value (wrap w (c_rem w (to_signed w lhs) (to_signed w rhs))).

Section floats.
Context `{NanBits}.

Definition BITCAST_TO (t : ValType) (bits : Z) : spec_float := sf_of_bits (FLOAT_TYPE t) bits.

(** [BITCAST_FROM_*] of the result of an operation on [args]. *)
Definition BITCAST_FROM (t : ValType) (args : list Z) (x : spec_float) : Z :=
  bits_of_sf (FLOAT_TYPE t) (nan_bits (FLOAT_TYPE t) args) x.

Definition f_add (t : ValType) : spec_float -> spec_float -> spec_float :=
  SFadd (ff_prec (FLOAT_TYPE t)) (ff_emax (FLOAT_TYPE t)).
Definition f_sub (t : ValType) : spec_float -> spec_float -> spec_float :=
  SFsub (ff_prec (FLOAT_TYPE t)) (ff_emax (FLOAT_TYPE t)).
Definition f_mul (t : ValType) : spec_float -> spec_float -> spec_float :=
  SFmul (ff_prec (FLOAT_TYPE t)) (ff_emax (FLOAT_TYPE t)).
Definition f_div (t : ValType) : spec_float -> spec_float -> spec_float :=
  SFdiv (ff_prec (FLOAT_TYPE t)) (ff_emax (FLOAT_TYPE t)).

Definition UNOP_FLOAT_op (t : ValType) (func : spec_float -> spec_float) (value : Z) : Z :=
  BITCAST_FROM t [value] (func (BITCAST_TO t value)).

Definition BINOP_FLOAT_op (t : ValType) (op : spec_float -> spec_float -> spec_float)
    (lhs rhs : Z) : Z :=
  BITCAST_FROM t [lhs; rhs] (op (BITCAST_TO t lhs) (BITCAST_TO t rhs)).

Definition BINOP_FLOAT_DIV_op (t : ValType) (lhs rhs : Z) : Z :=
  if IS_ZERO t rhs then
    if IS_NAN t lhs then Z.lor lhs (QUIET_NAN t)
    else if IS_ZERO t lhs then QUIET_NAN t
    else let sign := Z.lxor (Z.land lhs (SIGN_MASK t)) (Z.land rhs (SIGN_MASK t)) in
         Z.lor sign (INF t)
  else BITCAST_FROM t [lhs; rhs] (f_div t (BITCAST_TO t lhs) (BITCAST_TO t rhs)).

(** The C comparisons; every one but [!=] is false on a NaN. *)
Definition f_eq (a b : spec_float) : Z := b2z (SFeqb a b).
Definition f_ne (a b : spec_float) : Z := b2z (negb (SFeqb a b)).
Definition f_lt (a b : spec_float) : Z := b2z (SFltb a b).
Definition f_le (a b : spec_float) : Z := b2z (SFleb a b).
Definition f_gt (a b : spec_float) : Z := b2z (SFltb b a).
Definition f_ge (a b : spec_float) : Z := b2z (SFleb b a).

Inductive MinMax : Set := MIN | MAX.

(** [MIN_OP] is [<] and [MAX_OP] is [>], on integers and on floats. *)
Definition MINMAX_OP_int (op : MinMax) (a b : Z) : bool :=
  match op with MIN => a <? b | MAX => b <? a end.
Definition MINMAX_OP_float (op : MinMax) (a b : spec_float) : bool :=
  match op with MIN => SFltb a b | MAX => SFltb b a end.

Definition MINMAX_FLOAT_op (t : ValType) (op : MinMax) (lhs rhs : Z) : Z :=
  if IS_NAN t lhs then Z.lor lhs (QUIET_NAN_BIT t)
  else if IS_NAN t rhs then Z.lor rhs (QUIET_NAN_BIT t)
  else if negb (Z.land (Z.lxor lhs rhs) (SIGN_MASK t) =? 0) then
    if negb (MINMAX_OP_int op lhs rhs) then lhs else rhs
  else
    let float_rhs := BITCAST_TO t rhs in
    let float_lhs := BITCAST_TO t lhs in
    BITCAST_FROM t [lhs; rhs]
      (if MINMAX_OP_float op float_lhs float_rhs then float_lhs else float_rhs).

(** The eight float-to-integer conversions: NaN test, range test, cast. *)
Definition trunc_op (ft : ValType) (in_range : Z -> bool) (lo hi w : Z) (value : Z) : OpResult :=
  if IS_NAN ft value then Traps WASM_INTERPRETER_TRAP_INVALID_CONVERSION_TO_INTEGER
  else if negb (in_range value) then Traps WASM_INTERPRETER_TRAP_INTEGER_OVERFLOW
  else match cast_to_int lo hi (BITCAST_TO ft value) with
       | Some z => Value (wrap w z)
       | None => Undefined
       end.

Definition INT32_MIN : Z := - 2 ^ 31.
Definition INT32_MAX : Z := 2 ^ 31 - 1.
Definition UINT32_MAX : Z := 2 ^ 32 - 1.
Definition INT64_MIN : Z := - 2 ^ 63.
Definition INT64_MAX : Z := 2 ^ 63 - 1.
Definition UINT64_MAX : Z := 2 ^ 64 - 1.

Definition i32_trunc_s_f32 := trunc_op F32 is_in_range_i32_trunc_s_f32 INT32_MIN INT32_MAX 32.
Definition i32_trunc_s_f64 := trunc_op F64 is_in_range_i32_trunc_s_f64 INT32_MIN INT32_MAX 32.
Definition i32_trunc_u_f32 := trunc_op F32 is_in_range_i32_trunc_u_f32 0 UINT32_MAX 32.
Definition i32_trunc_u_f64 := trunc_op F64 is_in_range_i32_trunc_u_f64 0 UINT32_MAX 32.
Definition i64_trunc_s_f32 := trunc_op F32 is_in_range_i64_trunc_s_f32 INT64_MIN INT64_MAX 64.
Definition i64_trunc_s_f64 := trunc_op F64 is_in_range_i64_trunc_s_f64 INT64_MIN INT64_MAX 64.
Definition i64_trunc_u_f32 := trunc_op F32 is_in_range_i64_trunc_u_f32 0 UINT64_MAX 64.
Definition i64_trunc_u_f64 := trunc_op F64 is_in_range_i64_trunc_u_f64 0 UINT64_MAX 64.

(** [(float)x] and [(double)x] of an integer. *)
Definition convert_op (ft : ValType) (z : Z) : Z :=
  BITCAST_FROM ft [] (SF_of_Z (FLOAT_TYPE ft) z).

Definition f32_demote_f64 (value : Z) : Z :=
  if is_in_range_f64_demote_f32 value then
    BITCAST_FROM F32 [value] (SF_convert fmt32 (BITCAST_TO F64 value))
  else if is_in_range_f64_demote_f32_round_to_f32_max value then F32_MAX
  else if is_in_range_f64_demote_f32_round_to_neg_f32_max value then F32_NEG_MAX
  else
    let sign := Z.land (u32 (Z.shiftr value 32)) F32_SIGN_MASK in
    let tag :=
      if IS_NAN F64 value
      then Z.lor F32_QUIET_NAN_BIT
             (u32 (Z.land (Z.shiftr value (F64_SIG_BITS - F32_SIG_BITS)) F32_SIG_MASK))
      else 0 in
    Z.lor (Z.lor sign F32_INF) tag.

Definition f64_promote_f32 (value : Z) : Z :=
  BITCAST_FROM F64 [value] (SF_convert fmt64 (BITCAST_TO F32 value)).
End floats.
