(* ===== verification/NumericFacts.v ===== *)
(** * The numeric operators compute what WebAssembly says

    [Module Spec] states the operators of WebAssembly on mathematical integers
    and on bit sequences, independently of the C expressions; the lemmas relate
    the operators of Numeric.v to it.  The section on floats shows that the
    bit-level guards of the code decide what they are meant to decide. *)

From S2P Require Import Prelude Opcode Float Rounding Numeric.

(** ** Reference semantics *)

Module Spec.
(** The integer with [n] bits whose bit [i] is [f i]. *)
Fixpoint of_bits (n : nat) (f : Z -> bool) : Z :=
  match n with
  | O => 0
  | S n' => of_bits n' f + b2z (f (Z.of_nat n')) * 2 ^ Z.of_nat n'
  end.

Section width.
Context (N : Z).

Definition bitwise (op : bool -> bool -> bool) (a b : Z) : OpResult :=
  Value (of_bits (Z.to_nat N) (fun i => op (Z.testbit a i) (Z.testbit b i))).

Definition iadd (a b : Z) : OpResult := Value ((a + b) mod 2 ^ N).
Definition isub (a b : Z) : OpResult := Value ((a - b) mod 2 ^ N).
Definition imul (a b : Z) : OpResult := Value ((a * b) mod 2 ^ N).

Definition idiv_u (a b : Z) : OpResult :=
  if decide (b = 0) then Traps WASM_INTERPRETER_TRAP_INTEGER_DIVIDE_BY_ZERO
  else Value (a / b).

Definition irem_u (a b : Z) : OpResult :=
  if decide (b = 0) then Traps WASM_INTERPRETER_TRAP_INTEGER_DIVIDE_BY_ZERO
  else Value (a mod b).

(** Division truncates towards zero; a quotient that is not a signed
    [N]-bit integer traps. *)
Definition idiv_s (a b : Z) : OpResult :=
  if decide (b = 0) then Traps WASM_INTERPRETER_TRAP_INTEGER_DIVIDE_BY_ZERO
  else let q := Z.quot (to_signed N a) (to_signed N b) in
       if decide (in_s N q) then Value (q mod 2 ^ N)
       else Traps WASM_INTERPRETER_TRAP_INTEGER_OVERFLOW.

(** The remainder has the sign of the dividend and never overflows. *)
Definition irem_s (a b : Z) : OpResult :=
  if decide (b = 0) then Traps WASM_INTERPRETER_TRAP_INTEGER_DIVIDE_BY_ZERO
  else Value (Z.rem (to_signed N a) (to_signed N b) mod 2 ^ N).

Definition ishl (a k : Z) : OpResult := Value ((a * 2 ^ (k mod N)) mod 2 ^ N).
Definition ishr_u (a k : Z) : OpResult := Value (a / 2 ^ (k mod N)).
Definition ishr_s (a k : Z) : OpResult := Value ((to_signed N a / 2 ^ (k mod N)) mod 2 ^ N).

(** Rotation moves bit [i] to bit [i + k], modulo [N]. *)
Definition irotl (a k : Z) : OpResult :=
  Value (of_bits (Z.to_nat N) (fun i => Z.testbit a ((i - k) mod N))).
Definition irotr (a k : Z) : OpResult :=
  Value (of_bits (Z.to_nat N) (fun i => Z.testbit a ((i + k) mod N))).

Definition irel_u (rel : Z -> Z -> bool) (a b : Z) : OpResult := Value (b2z (rel a b)).
Definition irel_s (rel : Z -> Z -> bool) (a b : Z) : OpResult :=
  Value (b2z (rel (to_signed N a) (to_signed N b))).
End width.

(** Zero bits above the highest set bit, among the [n] low bits. *)
Fixpoint leading_zeros (n : nat) (a : Z) : Z :=
  match n with
  | O => 0
  | S n' => if Z.testbit a (Z.of_nat n') then 0 else 1 + leading_zeros n' a
  end.

(** Zero bits from bit [i] up to the lowest set bit, at most [n] of them. *)
Fixpoint trailing_zeros (n : nat) (i a : Z) : Z :=
  match n with
  | O => 0
  | S n' => if Z.testbit a i then 0 else 1 + trailing_zeros n' (i + 1) a
  end.

Fixpoint count_ones (n : nat) (a : Z) : Z :=
  match n with
  | O => 0
  | S n' => b2z (Z.testbit a (Z.of_nat n')) + count_ones n' a
  end.
End Spec.

(** ** Bits *)

Lemma of_bits_bound n f : 0 <= Spec.of_bits n f < 2 ^ Z.of_nat n.
Proof.
  induction n as [|n IH]; [done|]. cbn [Spec.of_bits].
  rewrite Nat2Z.inj_succ, Z.pow_succ_r by lia. destruct (f _); cbn [b2z]; lia.
Qed.

Lemma of_bits_spec n f i : 0 <= i ->
  Z.testbit (Spec.of_bits n f) i = (i <? Z.of_nat n) && f i.
Proof.
  intros Hi. induction n as [|n IH]; cbn [Spec.of_bits].
  { rewrite Z.bits_0. by destruct (Z.ltb_spec i (Z.of_nat 0)); [lia|]. }
  pose proof (of_bits_bound n f) as Hb.
  rewrite Z.add_comm, <- lor_shiftl_add by lia.
  rewrite Z.lor_spec, IH, Z.mul_pow2_bits by lia.
  destruct (Z.ltb_spec i (Z.of_nat n)).
  - rewrite (proj2 (Z.ltb_lt i _)) by lia.
    rewrite (Z.testbit_neg_r _ (i - _)) by lia. done.
  - destruct (decide (i = Z.of_nat n)) as [->|].
    + rewrite Z.sub_diag, (proj2 (Z.ltb_lt _ _)) by lia.
      by destruct (f _).
    + rewrite (proj2 (Z.ltb_ge i (Z.of_nat (S n)))) by lia.
      destruct (f (Z.of_nat n)); cbn [b2z]; [|by rewrite Z.bits_0].
      rewrite (Z.bits_above_log2 1) by (cbn; lia). done.
Qed.

Lemma testbit_above N a i : 0 <= N -> in_u N a -> N <= i -> Z.testbit a i = false.
Proof.
  intros HN Ha Hi. unfold in_u in Ha.
  apply (Z.bounded_iff_bits_nonneg N a); lia.
Qed.

(** An [N]-bit integer is determined by its [N] bits. *)
Lemma of_bits_eq N a f : 0 <= N -> in_u N a ->
  (forall i, 0 <= i < N -> Z.testbit a i = f i) ->
  a = Spec.of_bits (Z.to_nat N) f.
Proof.
  intros HN Ha Hf. apply Z.bits_inj'. intros i Hi. rewrite of_bits_spec, Z2Nat.id by lia.
  destruct (Z.ltb_spec i N); cbn [andb].
  - apply Hf. lia.
  - by apply (testbit_above N).
Qed.

(** ** Integer operators *)

Lemma VALUE_TYPE_pos t : 0 < VALUE_TYPE t.
Proof. by destruct t. Qed.

Section ints.
Context (t : ValType) (Ht : t = I32 \/ t = I64).
#[local] Abbreviation N := (VALUE_TYPE t).

(** Masking a shift count is taking it modulo the width. *)
Lemma SHIFT_MASK_mod k : Z.land k (SHIFT_MASK t) = k mod N.
Proof.
  destruct Ht as [-> | ->]; cbn [SHIFT_MASK VALUE_TYPE].
  - by rewrite (land_mask _ _ 5).
  - by rewrite (land_mask _ _ 6).
Qed.

Lemma SHIFT_MASK_width : SHIFT_MASK t + 1 = N.
Proof. by destruct Ht as [-> | ->]. Qed.

Lemma bitwise_spec opZ opb a b :
  (forall x y i, Z.testbit (opZ x y) i = opb (Z.testbit x i) (Z.testbit y i)) ->
  opb false false = false ->
  in_u N a -> in_u N b ->
  Spec.bitwise N opb a b = Value (opZ a b).
Proof.
  intros Hop H0 Ha Hb. pose proof (VALUE_TYPE_pos t). unfold Spec.bitwise. f_equal.
  apply Z.bits_inj'. intros i Hi. rewrite of_bits_spec, Hop, Z2Nat.id by lia.
  destruct (Z.ltb_spec i N); [done|].
  by rewrite !(testbit_above N) by (done || lia).
Qed.

Lemma shl_spec a k :
  Spec.ishl N a k = Value (c_shl N a (Z.land k (SHIFT_MASK t))).
Proof.
  pose proof (VALUE_TYPE_pos t). unfold Spec.ishl, c_shl, wrap. rewrite SHIFT_MASK_mod.
  rewrite Z.shiftl_mul_pow2 by (apply Z.mod_pos_bound; lia). done.
Qed.

Lemma shr_spec a k : Z.shiftr a (Z.land k (SHIFT_MASK t)) = a / 2 ^ (k mod N).
Proof.
  pose proof (VALUE_TYPE_pos t). rewrite SHIFT_MASK_mod.
  apply Z.shiftr_div_pow2, Z.mod_pos_bound. lia.
Qed.

Lemma rot_in_u dir a k : in_u N a -> in_u N (BINOP_ROT_op t dir a k).
Proof.
  intros Ha. pose proof (VALUE_TYPE_pos t). unfold BINOP_ROT_op.
  destruct (Z.eqb_spec (Z.land k (SHIFT_MASK t)) 0) as [|Hne]; [done|]. cbn [negb].
  rewrite SHIFT_MASK_width, SHIFT_MASK_mod in *.
  pose proof (Z.mod_pos_bound k N ltac:(lia)).
  assert (forall x y, in_u N x -> in_u N y -> in_u N (Z.lor x y)) as Hlor.
  { intros x y Hx Hy. unfold in_u in *.
    pose proof (Z.lor_nonneg x y). split; [lia|].
    apply (Z.bounded_iff_bits_nonneg N); [lia|lia|]. intros i Hi.
    rewrite Z.lor_spec. by rewrite !(testbit_above N) by (unfold in_u; lia). }
  assert (forall x n, in_u N x -> 0 <= n -> in_u N (c_shr N x n)) as Hshr.
  { intros x n Hx Hn. unfold c_shr, in_u in *. rewrite Z.shiftr_div_pow2 by lia.
    split; [apply Z.div_pos; lia|]. apply Z.div_lt_upper_bound; nia. }
  assert (forall x n, in_u N (c_shl N x n)) as Hshl by (intros; apply wrap_in_u; lia).
  destruct dir; cbn [ROT_0_SHIFT_OP ROT_1_SHIFT_OP]; apply Hlor; auto; apply Hshr; auto; lia.
Qed.

(** The two shifts of [BINOP_ROT] are the rotation, and the test for a zero
    amount avoids the shift by the full width. *)
Lemma rotl_spec a k : in_u N a -> Spec.irotl N a k = Value (BINOP_ROT_op t LEFT a k).
Proof.
  intros Ha. pose proof (VALUE_TYPE_pos t). unfold Spec.irotl. f_equal. symmetry.
  apply of_bits_eq; [lia|by apply rot_in_u|]. intros i Hi. unfold BINOP_ROT_op.
  rewrite SHIFT_MASK_width, SHIFT_MASK_mod.
  pose proof (Z.mod_pos_bound k N ltac:(lia)).
  rewrite Zminus_mod. rewrite (Z.mod_small i) by lia.
  destruct (Z.eqb_spec (k mod N) 0) as [->|]; cbn [negb].
  { by rewrite Z.sub_0_r, Z.mod_small by lia. }
  cbn [ROT_0_SHIFT_OP ROT_1_SHIFT_OP]. unfold c_shl, c_shr, wrap.
  rewrite Z.lor_spec, Z.mod_pow2_bits_low, Z.shiftl_spec, Z.shiftr_spec by lia.
  destruct (Z.leb_spec (k mod N) i).
  - rewrite (testbit_above N a (i + _)), orb_false_r, (Z.mod_small (i - _)) by (done || lia). done.
  - rewrite Z.testbit_neg_r, orb_false_l by lia. f_equal.
    rewrite <- (Z_mod_plus_full (i - _) 1), (Z.mod_small (i - _ + _)); lia.
Qed.

Lemma rotr_spec a k : in_u N a -> Spec.irotr N a k = Value (BINOP_ROT_op t RIGHT a k).
Proof.
  intros Ha. pose proof (VALUE_TYPE_pos t). unfold Spec.irotr. f_equal. symmetry.
  apply of_bits_eq; [lia|by apply rot_in_u|]. intros i Hi. unfold BINOP_ROT_op.
  rewrite SHIFT_MASK_width, SHIFT_MASK_mod.
  pose proof (Z.mod_pos_bound k N ltac:(lia)).
  rewrite Zplus_mod. rewrite (Z.mod_small i) by lia.
  destruct (Z.eqb_spec (k mod N) 0) as [->|]; cbn [negb].
  { by rewrite Z.add_0_r, Z.mod_small by lia. }
  cbn [ROT_0_SHIFT_OP ROT_1_SHIFT_OP]. unfold c_shl, c_shr, wrap.
  rewrite Z.lor_spec, Z.mod_pow2_bits_low, Z.shiftl_spec, Z.shiftr_spec by lia.
  destruct (Z.ltb_spec (i + k mod N) N).
  - rewrite (Z.testbit_neg_r a (i - _)), orb_false_r, (Z.mod_small (i + _)) by lia. done.
  - rewrite (testbit_above N a (i + _)), orb_false_l by (done || lia). f_equal.
    rewrite <- (Z_mod_plus_full (i + _) (-1)), (Z.mod_small (i + _ + _)); lia.
Qed.

Lemma MAX_spec : VALUE_TYPE_SIGNED_MAX t = 2 ^ (N - 1) /\ VALUE_TYPE_UNSIGNED_MAX t = 2 ^ N - 1.
Proof. by destruct Ht as [-> | ->]. Qed.

(** The guard of [BINOP_DIV_S] selects the one quotient out of range. *)
Lemma div_guard a b : in_u N a -> in_u N b -> b <> 0 ->
  ((a =? VALUE_TYPE_SIGNED_MAX t) && (b =? VALUE_TYPE_UNSIGNED_MAX t) = true <->
   ~ in_s N (Z.quot (to_signed N a) (to_signed N b))).
Proof.
  intros Ha Hb Hb0. destruct MAX_spec as [-> ->]. pose proof (VALUE_TYPE_pos t) as Hw.
  pose proof (to_signed_in_s N a Hw Ha) as Sa.
  assert (to_signed N b <> 0) as Sb0.
  { intros E. apply Hb0. rewrite <- (wrap_to_signed N b), E by done. done. }
  assert (2 ^ N = 2 * 2 ^ (N - 1)) as EN by (rewrite <- Z.pow_succ_r by lia; f_equal; lia).
  rewrite andb_true_iff, !Z.eqb_eq. split.
  - intros [-> ->]. unfold to_signed, in_s.
    rewrite (proj2 (Z.ltb_ge _ _)), (proj2 (Z.ltb_ge _ _)) by lia.
    replace (2 ^ N - 1 - 2 ^ N) with (- (1)) by lia.
    rewrite Z.quot_opp_r, Z.quot_1_r by lia. lia.
  - intros Hq. unfold in_s in *.
    pose proof (Z.quot_abs (to_signed N a) (to_signed N b) Sb0) as Habs.
    pose proof (Z.quot_le_upper_bound).
    destruct (decide (Z.abs (to_signed N b) = 1)) as [E1|E1].
    + destruct (decide (to_signed N b = 1)) as [E|E].
      { rewrite E, Z.quot_1_r in Hq. lia. }
      assert (to_signed N b = - (1)) as E' by lia.
      rewrite E', Z.quot_opp_r, Z.quot_1_r in Hq by lia.
      unfold in_u in *. split; [|unfold to_signed in E'; zbool; lia].
      unfold to_signed in *. zbool; lia.
    + exfalso. apply Hq.
      assert (Z.quot (Z.abs (to_signed N a)) (Z.abs (to_signed N b)) < 2 ^ (N - 1)); [|lia].
      rewrite Z.quot_div_nonneg by lia. apply Z.div_lt_upper_bound; nia.
Qed.

Lemma div_s_spec a b : in_u N a -> in_u N b -> Spec.idiv_s N a b = BINOP_DIV_S_op t a b.
Proof.
  intros Ha Hb. unfold Spec.idiv_s, BINOP_DIV_S_op.
  destruct (Z.eqb_spec b 0); [by rewrite decide_True|]. rewrite decide_False by done.
  pose proof (div_guard a b Ha Hb ltac:(done)) as G.
  destruct ((a =? _) && _).
  - by rewrite decide_False by (apply G; done).
  - rewrite decide_True; [done|]. destruct (decide (in_s N (Z.quot (to_signed N a) (to_signed N b)))) as [|Hn]; [done|].
    by apply G in Hn.
Qed.

Lemma rem_s_spec a b : in_u N a -> in_u N b -> Spec.irem_s N a b = BINOP_REM_S_op t a b.
Proof.
  intros Ha Hb. unfold Spec.irem_s, BINOP_REM_S_op.
  destruct (Z.eqb_spec b 0); [by rewrite decide_True|]. rewrite decide_False by done.
  destruct ((a =? _) && _) eqn:G; [|done].
  rewrite andb_true_iff, !Z.eqb_eq in G. destruct G as [-> ->].
  by destruct Ht as [-> | ->].
Qed.

Lemma div_u_spec a b : in_u N a -> in_u N b ->
  Spec.idiv_u a b = BINOP_DIV_REM_U_op t c_div a b.
Proof.
  unfold in_u, Spec.idiv_u, BINOP_DIV_REM_U_op. intros Ha Hb.
  destruct (Z.eqb_spec b 0); [by rewrite decide_True|]. rewrite decide_False by done.
  f_equal. symmetry. apply Z.quot_div_nonneg; lia.
Qed.

Lemma rem_u_spec a b : in_u N a -> in_u N b ->
  Spec.irem_u a b = BINOP_DIV_REM_U_op t c_rem a b.
Proof.
  unfold in_u, Spec.irem_u, BINOP_DIV_REM_U_op. intros Ha Hb.
  destruct (Z.eqb_spec b 0); [by rewrite decide_True|]. rewrite decide_False by done.
  f_equal. symmetry. apply Z.rem_mod_nonneg; lia.
Qed.

(** *** Counting bits *)

Lemma leading_zeros_log2 n a : 0 < a < 2 ^ Z.of_nat n ->
  Spec.leading_zeros n a = Z.of_nat n - 1 - Z.log2 a.
Proof.
  induction n as [|n IH]; [cbn; lia|]. intros Ha. cbn [Spec.leading_zeros].
  destruct (Z.testbit a (Z.of_nat n)) eqn:E.
  - assert (Z.log2 a = Z.of_nat n); [|lia]. apply Z.le_antisymm.
    + apply Z.lt_succ_r. rewrite <- Nat2Z.inj_succ. apply Z.log2_lt_pow2; lia.
    + destruct (Z.le_gt_cases (Z.of_nat n) (Z.log2 a)); [done|].
      by rewrite Z.bits_above_log2 in E by lia.
  - rewrite IH; [lia|]. split; [lia|].
    apply (Z.bounded_iff_bits_nonneg (Z.of_nat n)); [lia|lia|]. intros i Hi.
    destruct (decide (i = Z.of_nat n)) as [->|]; [done|].
    apply (testbit_above (Z.of_nat (S n))); [lia|unfold in_u; lia|lia].
Qed.

Lemma leading_zeros_0 n : Spec.leading_zeros n 0 = Z.of_nat n.
Proof. induction n; cbn [Spec.leading_zeros]; [done|]. rewrite Z.bits_0. lia. Qed.

Lemma clz_spec a : in_u N a -> op_clz t a = Spec.leading_zeros (Z.to_nat N) a.
Proof.
  pose proof (VALUE_TYPE_pos t). unfold in_u, op_clz, wasm_clz. intros Ha.
  destruct (Z.eqb_spec a 0) as [->|]; cbn [negb].
  - rewrite leading_zeros_0. lia.
  - rewrite leading_zeros_log2 by (rewrite Z2Nat.id by lia; lia). lia.
Qed.

Lemma trailing_zeros_shift n i a : 0 <= i -> 0 <= a ->
  Spec.trailing_zeros n (i + 1) a = Spec.trailing_zeros n i (a / 2).
Proof.
  revert i. induction n as [|n IH]; intros i Hi Ha; cbn [Spec.trailing_zeros]; [done|].
  change 2 with (2 ^ 1) at 1. rewrite <- Z.shiftr_div_pow2, Z.shiftr_spec by lia.
  by rewrite IH by lia.
Qed.

Lemma trailing_zeros_pos n p : Z.pos p < 2 ^ Z.of_nat n ->
  Spec.trailing_zeros n 0 (Z.pos p) = pos_ctz p.
Proof.
  revert n. induction p as [p _|p IH|]; intros [|n] Hn; try (cbn in Hn; lia); try done.
  cbn [Spec.trailing_zeros pos_ctz]. change (Z.testbit _ 0) with false. cbn [andb].
  change (0 + 1) with (0 + 1). rewrite trailing_zeros_shift by lia.
  change (Z.pos p~0) with (2 * Z.pos p) in *.
  rewrite (Z.mul_comm 2), Z.div_mul, IH; [done| |lia].
  rewrite Nat2Z.inj_succ, Z.pow_succ_r in Hn by lia. lia.
Qed.

Lemma trailing_zeros_0 n i : Spec.trailing_zeros n i 0 = Z.of_nat n.
Proof. revert i. induction n; intros i; cbn [Spec.trailing_zeros]; [done|].
  rewrite Z.bits_0, IHn. lia. Qed.

Lemma ctz_spec a : in_u N a -> op_ctz t a = Spec.trailing_zeros (Z.to_nat N) 0 a.
Proof.
  pose proof (VALUE_TYPE_pos t). unfold in_u, op_ctz, wasm_ctz. intros Ha.
  destruct a as [|p|p]; cbn [Z.eqb negb]; [|by rewrite trailing_zeros_pos by (rewrite Z2Nat.id; lia)|lia].
  rewrite trailing_zeros_0. lia.
Qed.

Lemma count_ones_S n a : 0 <= a ->
  Spec.count_ones (S n) a = b2z (Z.testbit a 0) + Spec.count_ones n (a / 2).
Proof.
  intros Ha. induction n as [|n IH]; [done|].
  cbn [Spec.count_ones] in *. rewrite IH.
  change 2 with (2 ^ 1) at 2. rewrite <- Z.shiftr_div_pow2, Z.shiftr_spec by lia.
  rewrite Nat2Z.inj_succ. unfold Z.succ. lia.
Qed.

Lemma count_ones_pos n p : Z.pos p < 2 ^ Z.of_nat n ->
  Spec.count_ones n (Z.pos p) = pos_popcount p.
Proof.
  revert n. assert (forall n, Spec.count_ones n 0 = 0) as H0.
  { induction n; cbn [Spec.count_ones]; [done|]. by rewrite Z.bits_0, IHn. }
  induction p as [p IH|p IH|]; intros [|n] Hn; try (cbn in Hn; lia);
    rewrite count_ones_S by lia; cbn [pos_popcount].
  - change (Z.pos p~1) with (2 * Z.pos p + 1) in *.
    rewrite Nat2Z.inj_succ, Z.pow_succ_r in Hn by lia.
    replace ((2 * Z.pos p + 1) / 2) with (Z.pos p) by dlia.
    rewrite IH by lia. done.
  - change (Z.pos p~0) with (2 * Z.pos p) in *.
    rewrite Nat2Z.inj_succ, Z.pow_succ_r in Hn by lia.
    rewrite (Z.mul_comm 2), Z.div_mul, IH by lia. by rewrite Z.mul_comm.
  - change (1 / 2) with 0. by rewrite H0.
Qed.

Lemma popcnt_spec a : in_u N a -> wasm_popcount a = Spec.count_ones (Z.to_nat N) a.
Proof.
  pose proof (VALUE_TYPE_pos t). unfold in_u, wasm_popcount. intros Ha.
  destruct a as [|p|p]; [|by rewrite count_ones_pos by (rewrite Z2Nat.id; lia)|lia].
  clear. induction (Z.to_nat N); cbn [Spec.count_ones]; [done|]. by rewrite <- IHn, Z.bits_0.
Qed.
End ints.

(** ** Float-to-integer conversions *)

(** The conversions of WebAssembly: truncate, then trap unless the result is
    an integer of the target type. *)
Definition spec_trunc (f : FloatFmt) (lo hi w b : Z) : OpResult :=
  if decide (f_is_nan f b) then Traps WASM_INTERPRETER_TRAP_INVALID_CONVERSION_TO_INTEGER
  else match SFtrunc (sf_of_bits f b) with
       | Some z =>
           if decide (lo <= z <= hi) then Value (wrap w z)
           else Traps WASM_INTERPRETER_TRAP_INTEGER_OVERFLOW
       | None => Traps WASM_INTERPRETER_TRAP_INTEGER_OVERFLOW
       end.

(** The float is an integer. *)
Definition sf_integral (x : spec_float) : bool :=
  match x with
  | S754_finite _ m e => (0 <=? e) || (Z.pos m mod 2 ^ (- e) =? 0)
  | S754_zero _ => true
  | _ => false
  end.

(** Magnitude of the truncated value, from the exponent and fraction fields. *)
Definition trunc_mag (f : FloatFmt) (e m : Z) : Z :=
  if e =? 0 then 0
  else let k := e - ff_bias f - ff_sig f in
       if 0 <=? k then (m + 2 ^ ff_sig f) * 2 ^ k else (m + 2 ^ ff_sig f) / 2 ^ (- k).

(** The bits of [2 ^ k]. *)
Definition pow_bits (f : FloatFmt) (k : Z) : Z := (k + ff_bias f) * 2 ^ ff_sig f.

Section trunc.
Context (f : FloatFmt) (Hf : f_ok f).

Lemma ff_facts : 0 < ff_sig f /\ ff_sig f < ff_bias f /\ f_emask f = 2 * ff_bias f + 1 /\
  2 ^ (ff_w f - 1) = (f_emask f + 1) * 2 ^ ff_sig f.
Proof. by destruct Hf as [-> | ->]. Qed.

Lemma trunc_mag_bound e m k : 0 <= e -> 0 <= m < 2 ^ ff_sig f -> 0 <= k ->
  (trunc_mag f e m < 2 ^ k <-> e < k + ff_bias f) /\ 0 <= trunc_mag f e m.
Proof.
  intros He Hm Hk. destruct ff_facts as (? & ? & _). unfold trunc_mag.
  destruct (Z.eqb_spec e 0); [lia|].
  set (S := ff_sig f) in *. set (B := ff_bias f) in *.
  set (x := m + 2 ^ S) in *. assert (2 ^ S <= x < 2 * 2 ^ S) as Hx by lia.
  destruct (Z.leb_spec 0 (e - B - S)).
  - assert (2 ^ (e - B) = 2 ^ S * 2 ^ (e - B - S)) as E1
      by (rewrite <- Z.pow_add_r by lia; f_equal; lia).
    assert (0 < 2 ^ (e - B - S)) by lia.
    split; [|nia]. split; intros Hlt.
    + destruct (Z.lt_ge_cases e (k + B)); [done|].
      pose proof (Z.pow_le_mono_r 2 k (e - B)). nia.
    + pose proof (Z.pow_le_mono_r 2 (e - B + 1) k ltac:(lia) ltac:(lia)).
      rewrite Z.pow_add_r in * by lia. nia.
  - set (d := - (e - B - S)) in *. assert (d = B + S - e) as Hd by lia.
    assert (0 < 2 ^ d) by lia.
    split; [|apply Z.div_pos; lia]. split; intros Hlt.
    + destruct (Z.lt_ge_cases e (k + B)); [done|].
      assert (2 ^ k <= x / 2 ^ d); [|lia].
      apply Z.div_le_lower_bound; [lia|]. rewrite <- Z.pow_add_r by lia.
      pose proof (Z.pow_le_mono_r 2 (d + k) S). lia.
    + apply Z.div_lt_upper_bound; [lia|]. rewrite <- Z.pow_add_r by lia.
      pose proof (Z.pow_le_mono_r 2 (Z.succ S) (d + k) ltac:(lia) ltac:(lia)) as Hp.
      rewrite Z.pow_succ_r in Hp by lia. lia.
Qed.

(** At the exponent of [2 ^ k] the value is an integer when [k >= ff_sig]. *)
Lemma trunc_mag_at m k : ff_sig f <= k ->
  trunc_mag f (k + ff_bias f) m = 2 ^ k + m * 2 ^ (k - ff_sig f).
Proof.
  intros Hk. destruct ff_facts as (? & ? & _). unfold trunc_mag.
  rewrite (proj2 (Z.eqb_neq _ _)) by lia. rewrite (proj2 (Z.leb_le _ _)) by lia.
  replace (k + ff_bias f - ff_bias f - ff_sig f) with (k - ff_sig f) by lia.
  rewrite Z.mul_add_distr_r, <- Z.pow_add_r by lia.
  replace (ff_sig f + (k - ff_sig f)) with k by lia. lia.
Qed.

Lemma SFtrunc_bits b : in_u (ff_w f) b -> ~ f_is_nan f b ->
  SFtrunc (sf_of_bits f b) =
    if f_exp f b =? f_emask f then None
    else Some (cond_Zopp (f_sign f b) (trunc_mag f (f_exp f b) (f_frac f b))).
Proof.
  intros Hb Hn. destruct (f_split f Hf b Hb) as (_ & He & Hm).
  destruct ff_facts as (? & ? & HE & _).
  unfold sf_of_bits, trunc_mag, f_is_nan in *.
  destruct (Z.eqb_spec (f_exp f b) 0) as [E0|E0].
  - rewrite (proj2 (Z.eqb_neq (f_exp f b) (f_emask f))) by lia.
    destruct (Z.eqb_spec (f_frac f b) 0) as [M0|M0]; cbn [SFtrunc].
    { by destruct (f_sign f b). }
    rewrite (proj2 (Z.leb_gt _ _)) by lia. rewrite Z2Pos.id by lia.
    rewrite Z.div_small; [done|].
    pose proof (Z.pow_le_mono_r 2 (ff_sig f) (- (1 - ff_bias f - ff_sig f))). lia.
  - destruct (Z.eqb_spec (f_exp f b) (f_emask f)) as [E1|E1].
    + destruct (Z.eqb_spec (f_frac f b) 0) as [M0|M0]; [done|tauto].
    + cbn [SFtrunc]. by rewrite Z2Pos.id by lia.
Qed.

(** The two shapes of the code's range tests. *)
Definition s_guard (k b : Z) : bool :=
  (b <? pow_bits f k) ||
  ((2 ^ (ff_w f - 1) <=? b) && (b <=? 2 ^ (ff_w f - 1) + pow_bits f k)).
Definition u_guard (k b : Z) : bool :=
  (b <? pow_bits f k) ||
  ((2 ^ (ff_w f - 1) <=? b) && (b <? 2 ^ (ff_w f - 1) + pow_bits f 0)).

Definition trunc_in (lo hi b : Z) : Prop :=
  exists z, SFtrunc (sf_of_bits f b) = Some z /\ lo <= z <= hi.

Lemma trunc_in_fields lo hi b : in_u (ff_w f) b -> ~ f_is_nan f b ->
  trunc_in lo hi b <->
  f_exp f b < f_emask f /\
  lo <= cond_Zopp (f_sign f b) (trunc_mag f (f_exp f b) (f_frac f b)) <= hi.
Proof.
  intros Hb Hn. unfold trunc_in. rewrite (SFtrunc_bits b Hb Hn).
  destruct (f_split f Hf b Hb) as (_ & He & _).
  destruct (Z.eqb_spec (f_exp f b) (f_emask f)) as [E|E].
  - split; [by intros (? & ? & _)|lia].
  - split; [intros (? & [= <-] & ?); lia|]. intros [_ ?]. eauto.
Qed.

(** Comparing bits with [pow_bits] compares exponents. *)
Lemma pow_bits_lt e m k : 0 <= m < 2 ^ ff_sig f ->
  e * 2 ^ ff_sig f + m < pow_bits f k <-> e < k + ff_bias f.
Proof. unfold pow_bits. nia. Qed.

Lemma pow_bits_le e m k : 0 <= m < 2 ^ ff_sig f ->
  e * 2 ^ ff_sig f + m <= pow_bits f k <->
  e < k + ff_bias f \/ (e = k + ff_bias f /\ m = 0).
Proof. unfold pow_bits. nia. Qed.

Lemma s_guard_spec k b : in_u (ff_w f) b -> ~ f_is_nan f b ->
  ff_sig f <= k <= ff_bias f -> s_guard k b = true <-> trunc_in (- 2 ^ k) (2 ^ k - 1) b.
Proof.
  intros Hb Hn Hk. rewrite trunc_in_fields by done.
  destruct (f_split f Hf b Hb) as (Eb & He & Hm), ff_facts as (? & ? & HE & HW).
  set (e := f_exp f b) in *. set (m := f_frac f b) in *.
  destruct (trunc_mag_bound e m k ltac:(lia) Hm ltac:(lia)) as [Hlt Hmag].
  unfold s_guard. rewrite orb_true_iff, andb_true_iff, Z.ltb_lt, !Z.leb_le.
  rewrite Eb at 1 2 3. unfold f_pack.
  pose proof (pow_bits_lt e m k Hm) as P. pose proof (pow_bits_le e m k Hm) as Q.
  assert (0 < 2 ^ ff_sig f) by lia.
  assert (pow_bits f k <= 2 ^ (ff_w f - 1)) by (rewrite HW; unfold pow_bits; nia).
  assert (e * 2 ^ ff_sig f + m < 2 ^ (ff_w f - 1)) by (rewrite HW; nia).
  destruct (f_sign f b); cbn [b2z cond_Zopp].
  - assert (e = k + ff_bias f -> trunc_mag f e m = 2 ^ k + m * 2 ^ (k - ff_sig f)) as A.
    { intros ->. apply trunc_mag_at. lia. }
    assert (0 < 2 ^ (k - ff_sig f)) by lia.
    destruct (trunc_mag_bound e m (Z.succ k) ltac:(lia) Hm ltac:(lia)) as [Hlt' _].
    rewrite Z.pow_succ_r in Hlt' by lia.
    split; [intros [?|[_ ?]]|intros [? ?]; right; split; [lia|]].
    + lia.
    + assert (e < k + ff_bias f \/ (e = k + ff_bias f /\ m = 0)) as [|[? ?]] by lia; [lia|].
      split; [|nia]. lia.
    + assert (e < k + ff_bias f \/ (e = k + ff_bias f /\ m = 0)); [|lia].
      destruct (Z.lt_trichotomy e (k + ff_bias f)) as [|[Ee|]]; [by left| |lia].
      right. split; [done|]. specialize (A Ee). nia.
  - split; [intros [?|[? ?]]; lia|]. intros [? ?]. left. lia.
Qed.

Lemma u_guard_spec k b : in_u (ff_w f) b -> ~ f_is_nan f b ->
  0 <= k <= ff_bias f -> u_guard k b = true <-> trunc_in 0 (2 ^ k - 1) b.
Proof.
  intros Hb Hn Hk. rewrite trunc_in_fields by done.
  destruct (f_split f Hf b Hb) as (Eb & He & Hm), ff_facts as (? & ? & HE & HW).
  set (e := f_exp f b) in *. set (m := f_frac f b) in *.
  destruct (trunc_mag_bound e m k ltac:(lia) Hm ltac:(lia)) as [Hlt Hmag].
  destruct (trunc_mag_bound e m 0 ltac:(lia) Hm ltac:(lia)) as [Hlt1 _].
  unfold u_guard. rewrite orb_true_iff, andb_true_iff, !Z.ltb_lt, !Z.leb_le.
  rewrite Eb at 1 2 3. unfold f_pack.
  pose proof (pow_bits_lt e m k Hm) as P. pose proof (pow_bits_lt e m 0 Hm) as Q.
  assert (0 < 2 ^ ff_sig f) by lia.
  assert (pow_bits f k <= 2 ^ (ff_w f - 1)) by (rewrite HW; unfold pow_bits; nia).
  assert (e * 2 ^ ff_sig f + m < 2 ^ (ff_w f - 1)) by (rewrite HW; nia).
  pose proof (Z.pow_pos_nonneg 2 k).
  destruct (f_sign f b); cbn [b2z cond_Zopp]; lia.
Qed.
End trunc.

(** The C NaN tests are the IEEE definition. *)
Lemma IS_NAN_spec ft b : ft = F32 \/ ft = F64 -> in_u (VALUE_TYPE ft) b ->
  IS_NAN ft b = true <-> f_is_nan (FLOAT_TYPE ft) b.
Proof.
  intros Hft Hb.
  assert (f_ok (FLOAT_TYPE ft)) as Hf by (unfold f_ok; destruct ft; auto).
  assert (VALUE_TYPE ft = ff_w (FLOAT_TYPE ft)) as E by (by destruct Hft as [-> | ->]).
  rewrite E in Hb. destruct (f_split _ Hf b Hb) as (Eb & He & Hm). unfold f_is_nan.
  set (e := f_exp _ b) in *. set (m := f_frac _ b) in *. clearbody e m.
  destruct Hft as [-> | ->]; rewrite Eb; unfold IS_NAN, is_nan_f32, is_nan_f64, f_pack, f_emask in *;
    cbn [FLOAT_TYPE ff_w ff_sig ff_emax fmt32 fmt64 Z.sub Z.add] in *;
    unfold F32_INF, F32_NEG_ZERO, F32_NEG_INF, F64_INF, F64_NEG_ZERO, F64_NEG_INF;
    zpow; rewrite orb_true_iff, andb_true_iff, !Z.ltb_lt; destruct (f_sign _ b); cbn [b2z]; lia.
Qed.

Section trunc_ops.
Context (ft : ValType) (Hft : ft = F32 \/ ft = F64).
#[local] Abbreviation f := (FLOAT_TYPE ft).

Lemma FLOAT_TYPE_ok : f_ok f.
Proof. unfold f_ok. destruct Hft as [-> | ->]; auto. Qed.
Lemma FLOAT_TYPE_w : ff_w f = VALUE_TYPE ft.
Proof. by destruct Hft as [-> | ->]. Qed.

(** A conversion whose guard is exact is the conversion of WebAssembly; in
    particular the cast is never undefined. *)
Lemma trunc_op_exact guard lo hi w b :
  in_u (VALUE_TYPE ft) b ->
  (~ f_is_nan f b -> guard b = true <-> trunc_in f lo hi b) ->
  trunc_op ft guard lo hi w b = spec_trunc f lo hi w b.
Proof.
  intros Hb Hg. unfold trunc_op, spec_trunc.
  pose proof (IS_NAN_spec ft b Hft Hb) as Hn. destruct (IS_NAN ft b).
  { by rewrite decide_True by (apply Hn; done). }
  assert (~ f_is_nan f b) as Hn' by (rewrite <- Hn; done).
  rewrite decide_False by done. specialize (Hg Hn').
  unfold cast_to_int, BITCAST_TO. unfold trunc_in in Hg.
  destruct (SFtrunc (sf_of_bits f b)) as [z|] eqn:E, (guard b); cbn [negb]; try done.
  - destruct (proj1 Hg eq_refl) as (? & [= <-] & ?). rewrite decide_True by done.
    by rewrite !(proj2 (Z.leb_le _ _)) by lia.
  - rewrite decide_False; [done|]. intros Hz. enough (false = true) by done. apply Hg. eauto.
  - by destruct (proj1 Hg eq_refl) as (? & ? & _).
Qed.
End trunc_ops.

(** Truncation where the code's guard also rejects a value strictly between
    two integers when its truncation is one of [edges]. *)
Definition spec_trunc_narrow (f : FloatFmt) (edges : list Z) (lo hi w b : Z) : OpResult :=
  match SFtrunc (sf_of_bits f b) with
  | Some z =>
      if decide (z ∈ edges /\ sf_integral (sf_of_bits f b) = false)
      then Traps WASM_INTERPRETER_TRAP_INTEGER_OVERFLOW
      else spec_trunc f lo hi w b
  | None => spec_trunc f lo hi w b
  end.

Lemma trunc_op_narrow guard edges lo hi w b :
  in_u 64 b ->
  (~ f_is_nan fmt64 b -> guard b = true <->
     exists z, SFtrunc (sf_of_bits fmt64 b) = Some z /\ lo <= z <= hi /\
               ~ (z ∈ edges /\ sf_integral (sf_of_bits fmt64 b) = false)) ->
  trunc_op F64 guard lo hi w b = spec_trunc_narrow fmt64 edges lo hi w b.
Proof.
  intros Hb Hg. unfold trunc_op, spec_trunc_narrow, spec_trunc.
  pose proof (IS_NAN_spec F64 b (or_intror eq_refl) Hb) as Hn. cbn [FLOAT_TYPE] in Hn.
  destruct (IS_NAN F64 b).
  { rewrite decide_True by (apply Hn; done).
    pose proof (proj1 (f_is_nan_sf fmt64 (or_intror eq_refl) b Hb) (proj1 Hn eq_refl)) as ->.
    done. }
  assert (~ f_is_nan fmt64 b) as Hn' by (rewrite <- Hn; done).
  rewrite decide_False by done. specialize (Hg Hn').
  unfold cast_to_int, BITCAST_TO. cbn [FLOAT_TYPE].
  destruct (SFtrunc (sf_of_bits fmt64 b)) as [z|] eqn:E, (guard b); cbn [negb]; try done.
  - destruct (proj1 Hg eq_refl) as (? & [= <-] & ? & ?). rewrite decide_False, decide_True by done.
    by rewrite !(proj2 (Z.leb_le _ _)) by lia.
  - destruct (decide (_ /\ _)); [done|]. rewrite decide_False; [done|].
    intros Hz. enough (false = true) by done. apply Hg. eauto.
  - by destruct (proj1 Hg eq_refl) as (? & ? & _).
Qed.

(** The fields of a double, in the terms of the two narrow guards. *)
Lemma f64_fields b : in_u 64 b -> ~ f_is_nan fmt64 b ->
  exists s e m, b = b2z s * 2 ^ 63 + e * 2 ^ 52 + m /\ 0 <= e <= 2047 /\ 0 <= m < 2 ^ 52 /\
    SFtrunc (sf_of_bits fmt64 b) =
      (if e =? 2047 then None else Some (cond_Zopp s (trunc_mag fmt64 e m))) /\
    (e <> 0 -> e <> 2047 -> sf_integral (sf_of_bits fmt64 b) =
      (0 <=? e - 1075) || ((m + 2 ^ 52) mod 2 ^ (1075 - e) =? 0)).
Proof.
  intros Hb Hn. assert (f_ok fmt64) as Hf by (unfold f_ok; auto).
  destruct (f_split fmt64 Hf b Hb) as (Eb & He & Hm).
  exists (f_sign fmt64 b), (f_exp fmt64 b), (f_frac fmt64 b). split; [exact Eb|].
  split; [exact He|]. split; [exact Hm|]. split; [by apply SFtrunc_bits|].
  intros E0 E1. unfold sf_of_bits. change (f_emask fmt64) with 2047.
  rewrite !(proj2 (Z.eqb_neq (f_exp fmt64 b) _)) by done. cbn [sf_integral].
  cbn [ff_sig fmt64] in *.
  rewrite Z2Pos.id by lia. change (ff_bias fmt64) with 1023.
  replace (f_exp fmt64 b - 1023 - 52) with (f_exp fmt64 b - 1075) by lia.
  by replace (- (f_exp fmt64 b - 1075)) with (1075 - f_exp fmt64 b) by lia.
Qed.

Lemma trunc_mag_1053 m : trunc_mag fmt64 1053 m = (m + 2 ^ 52) / 2 ^ 22.
Proof. done. Qed.

Lemma trunc_mag_1054 m : trunc_mag fmt64 1054 m = (m + 2 ^ 52) / 2 ^ 21.
Proof. done. Qed.

Lemma narrow_s_guard b : in_u 64 b -> ~ f_is_nan fmt64 b ->
  is_in_range_i32_trunc_s_f64 b = true <->
  exists z, SFtrunc (sf_of_bits fmt64 b) = Some z /\ INT32_MIN <= z <= INT32_MAX /\
            ~ (z ∈ [INT32_MIN; INT32_MAX] /\ sf_integral (sf_of_bits fmt64 b) = false).
Proof.
  intros Hb Hn. assert (f_ok fmt64) as Hf by (unfold f_ok; auto).
  destruct (f64_fields b Hb Hn) as (s & e & m & Eb & He & Hm & -> & Hi).
  destruct (trunc_mag_bound fmt64 Hf e m 31 ltac:(lia) Hm ltac:(lia)) as [B31 Hmag].
  destruct (trunc_mag_bound fmt64 Hf e m 30 ltac:(lia) Hm ltac:(lia)) as [B30 _].
  destruct (trunc_mag_bound fmt64 Hf e m 32 ltac:(lia) Hm ltac:(lia)) as [B32 _].
  change (ff_bias fmt64) with 1023 in *. unfold is_in_range_i32_trunc_s_f64, F64_NEG_ZERO.
  rewrite orb_true_iff, andb_true_iff, !Z.leb_le.
  setoid_rewrite elem_of_cons. setoid_rewrite list_elem_of_singleton.
  unfold INT32_MIN, INT32_MAX. zpow.
  assert (e = 1053 \/ e = 1054 \/ e < 1053 \/ 1054 < e) as [-> | [-> | [|]]] by lia.
  - setoid_rewrite (Hi ltac:(done) ltac:(done)). clear Hi. rewrite trunc_mag_1053 in *.
    change (1053 =? 2047) with false. cbn iota.
    change (0 <=? 1053 - 1075) with false. change (2 ^ (1075 - 1053)) with 4194304.
    cbn [orb]. setoid_rewrite Z.eqb_neq. zpow.
    split.
    + intros Hg. exists (cond_Zopp s ((m + 4503599627370496) / 4194304)). split; [done|].
      destruct s; cbn [b2z cond_Zopp] in *; (split; [lia|]); intros [[?|?] ?]; dlia.
    + intros (z & [= <-] & Hr & Hne). destruct s; cbn [b2z cond_Zopp] in *; [lia|].
      left. destruct (decide (m <= 4503599623176192)); [lia|]. exfalso. apply Hne.
      split; dlia.
  - setoid_rewrite (Hi ltac:(done) ltac:(done)). clear Hi. rewrite trunc_mag_1054 in *.
    change (1054 =? 2047) with false. cbn iota.
    change (0 <=? 1054 - 1075) with false. change (2 ^ (1075 - 1054)) with 2097152.
    cbn [orb]. setoid_rewrite Z.eqb_neq. zpow.
    split.
    + intros Hg. exists (cond_Zopp s ((m + 4503599627370496) / 2097152)). split; [done|].
      destruct s; cbn [b2z cond_Zopp] in *; [|lia].
      assert (m = 0) as -> by lia. split; [done|]. by intros [_ []].
    + intros (z & [= <-] & Hr & Hne). destruct s; cbn [b2z cond_Zopp] in *; [|lia].
      right. destruct (decide (m = 0)); [lia|]. exfalso. apply Hne. split; dlia.
  - split; [intros _|intros _; destruct s; cbn [b2z] in *; lia].
    rewrite (proj2 (Z.eqb_neq _ _)) by lia. eexists. split; [done|].
    destruct s; cbn [cond_Zopp]; lia.
  - split; [intros Hg; destruct s; cbn [b2z] in *; lia|]. intros (z & Ez & Hr & _).
    destruct (Z.eqb_spec e 2047); [done|]. injection Ez as <-.
    destruct s; cbn [cond_Zopp] in *; lia.
Qed.

Lemma narrow_u_guard b : in_u 64 b -> ~ f_is_nan fmt64 b ->
  is_in_range_i32_trunc_u_f64 b = true <->
  exists z, SFtrunc (sf_of_bits fmt64 b) = Some z /\ 0 <= z <= UINT32_MAX /\
            ~ (z ∈ [UINT32_MAX] /\ sf_integral (sf_of_bits fmt64 b) = false).
Proof.
  intros Hb Hn. assert (f_ok fmt64) as Hf by (unfold f_ok; auto).
  destruct (f64_fields b Hb Hn) as (s & e & m & Eb & He & Hm & -> & Hi).
  destruct (trunc_mag_bound fmt64 Hf e m 31 ltac:(lia) Hm ltac:(lia)) as [B31 Hmag].
  destruct (trunc_mag_bound fmt64 Hf e m 32 ltac:(lia) Hm ltac:(lia)) as [B32 _].
  destruct (trunc_mag_bound fmt64 Hf e m 0 ltac:(lia) Hm ltac:(lia)) as [B0 _].
  change (ff_bias fmt64) with 1023 in *. unfold is_in_range_i32_trunc_u_f64, F64_NEG_ZERO, F64_NEG_ONE.
  rewrite orb_true_iff, andb_true_iff, Z.ltb_lt, !Z.leb_le. setoid_rewrite list_elem_of_singleton.
  unfold UINT32_MAX. zpow.
  destruct (decide (e = 1054)) as [->|].
  - setoid_rewrite (Hi ltac:(done) ltac:(done)). clear Hi. rewrite trunc_mag_1054 in *.
    change (1054 =? 2047) with false. cbn iota.
    change (0 <=? 1054 - 1075) with false. change (2 ^ (1075 - 1054)) with 2097152.
    cbn [orb]. setoid_rewrite Z.eqb_neq. zpow.
    split.
    + intros Hg. exists (cond_Zopp s ((m + 4503599627370496) / 2097152)). split; [done|].
      destruct s; cbn [b2z cond_Zopp] in *; [lia|]. split; [lia|]. intros [? ?]; dlia.
    + intros (z & [= <-] & Hr & Hne). destruct s; cbn [b2z cond_Zopp] in *; [dlia|].
      left. destruct (decide (m <= 4503599625273344)); [lia|]. exfalso. apply Hne. split; dlia.
  - split.
    + intros Hg. rewrite (proj2 (Z.eqb_neq _ _)) by (destruct s; cbn [b2z] in *; lia).
      eexists. split; [done|]. destruct s; cbn [b2z cond_Zopp] in *; lia.
    + intros (z & Ez & Hr & _). destruct (Z.eqb_spec e 2047); [done|]. injection Ez as <-.
      destruct s; cbn [b2z cond_Zopp] in *; lia.
Qed.

(** ** Demotion *)

(** A single bit as a mask. *)
Lemma land_pow2 x n : 0 <= n -> Z.land x (2 ^ n) = b2z (Z.testbit x n) * 2 ^ n.
Proof.
  intros Hn. apply Z.bits_inj'. intros i Hi. rewrite Z.land_spec, Z.pow2_bits_eqb by lia.
  destruct (Z.eqb_spec n i) as [->|].
  - rewrite Z.mul_pow2_bits, Z.sub_diag by lia. by destruct (Z.testbit x i).
  - rewrite andb_false_r. destruct (Z.testbit x n); cbn [b2z].
    + rewrite Z.mul_1_l, Z.pow2_bits_eqb by lia. by destruct (Z.eqb_spec n i).
    + by rewrite Z.bits_0.
Qed.

Lemma sign_testbit x s r n : 0 <= n -> x = b2z s * 2 ^ n + r -> 0 <= r < 2 ^ n ->
  Z.testbit x n = s.
Proof.
  intros Hn -> Hr. rewrite Z.testbit_eqb by done.
  rewrite Z.div_add_l, Z.div_small by lia. by destruct s.
Qed.

Lemma f64_sign_shift b s e m : b = b2z s * 2 ^ 63 + e * 2 ^ 52 + m ->
  0 <= e <= 2047 -> 0 <= m < 2 ^ 52 ->
  Z.land (u32 (Z.shiftr b 32)) F32_SIGN_MASK = b2z s * 2 ^ 31.
Proof.
  intros Hb He Hm. change F32_SIGN_MASK with (2 ^ 31).
  rewrite land_pow2 by done. unfold wrap.
  rewrite Z.mod_pow2_bits_low, Z.shiftr_spec by lia.
  rewrite (sign_testbit b s (e * 2 ^ 52 + m)); [done|done|lia|lia].
Qed.

(** The significand of a double, rounded at bit 29. *)
Lemma rne_29_cases m : 0 <= m < 2 ^ 52 ->
  2 ^ 23 <= rne (m + 2 ^ 52) 29 <= 2 ^ 24 /\
  (0xfffffe0000000 <= m < 0xfffffF0000000 -> rne (m + 2 ^ 52) 29 = 2 ^ 24 - 1) /\
  (0xfffffF0000000 <= m -> rne (m + 2 ^ 52) 29 = 2 ^ 24).
Proof.
  intros Hm. unfold rne, rint_mag. zpow.
  assert (8388608 <= (m + 4503599627370496) / 536870912 < 16777216) by dlia.
  split; [destruct (_ ?= _); [destruct (Z.even _)| |]; lia|].
  split; intros Hr;
    assert ((m + 4503599627370496) / 536870912 = 16777215) as -> by dlia;
    destruct (Z.compare_spec (2 * ((m + 4503599627370496) mod 536870912)) 536870912);
    cbn; dlia.
Qed.

Lemma convert_large s m e : 0 <= m < 2 ^ 52 -> 1150 <= e ->
  let q := rne (m + 2 ^ 52) 29 in
  SF_convert fmt32 (S754_finite s (Z.to_pos (m + 2 ^ 52)) (e - 1075)) =
    if decide (e = 1150 /\ q < 2 ^ 24) then S754_finite s (Z.to_pos q) 104 else S754_infinity s.
Proof.
  intros Hm He. cbn zeta. destruct (rne_29_cases m Hm) as [Hq _].
  cbn [SF_convert]. rewrite binary_round_spec by done. rewrite Z2Pos.id by lia.
  assert (Z.log2 (m + 2 ^ 52) = 52) as -> by (apply Z.log2_unique; lia).
  assert (fexp (ff_prec fmt32) (ff_emax fmt32) (52 + 1 + (e - 1075)) = e - 1075 + 29) as ->.
  { unfold fexp, emin. cbn [ff_prec ff_emax ff_sig fmt32]. unfold ff_prec. cbn [ff_sig fmt32]. lia. }
  rewrite (proj2 (Z.leb_gt _ _)) by lia.
  replace (e - 1075 + 29 - (e - 1075)) with 29 by lia.
  set (q := rne (m + 2 ^ 52) 29) in *. clearbody q. unfold sf_finish.
  change (ff_prec fmt32) with 24. change (ff_emax fmt32) with 128. zpow.
  destruct (Z.eqb_spec q 0); [lia|]. destruct (Z.eqb_spec q 16777216).
  - rewrite decide_False by lia. by rewrite (proj2 (Z.leb_gt _ _)) by lia.
  - destruct (Z.leb_spec (e - 1075 + 29) (128 - 24)).
    + rewrite decide_True by lia. f_equal. lia.
    + by rewrite decide_False by lia.
Qed.

(** The values of a demoted double whose exponent is at least that of the
    largest float. *)
Lemma sf_of_bits_large b s e m : b = b2z s * 2 ^ 63 + e * 2 ^ 52 + m ->
  1150 <= e <= 2047 -> 0 <= m < 2 ^ 52 ->
  sf_of_bits fmt64 b =
    if e =? 2047 then if m =? 0 then S754_infinity s else S754_nan
    else S754_finite s (Z.to_pos (m + 2 ^ 52)) (e - 1075).
Proof.
  intros Hb He Hm. assert (f_ok fmt64) as Hf by (unfold f_ok; auto).
  destruct (f_pack_fields fmt64 Hf s e m) as (F1 & F2 & F3 & _).
  { change (f_emask fmt64) with 2047. lia. }
  { done. }
  assert (b = f_pack fmt64 s e m) as -> by done.
  unfold sf_of_bits. rewrite F1, F2, F3. rewrite (proj2 (Z.eqb_neq e 0)) by lia.
  change (f_emask fmt64) with 2047. destruct (e =? 2047); [done|].
  change (ff_bias fmt64) with 1023. cbn [ff_sig fmt64]. f_equal. lia.
Qed.

Section demote.
Context `{NanBits}.

Lemma demote_range b s e m : b = b2z s * 2 ^ 63 + e * 2 ^ 52 + m ->
  0 <= e <= 2047 -> 0 <= m < 2 ^ 52 ->
  is_in_range_f64_demote_f32 b = false ->
  1150 <= e /\ (e = 1150 -> 0xfffffe0000000 < m) /\
  (is_in_range_f64_demote_f32_round_to_f32_max b = true <->
     s = false /\ e = 1150 /\ m < 0xffffff0000000) /\
  (is_in_range_f64_demote_f32_round_to_neg_f32_max b = true <->
     s = true /\ e = 1150 /\ m < 0xffffff0000000).
Proof.
  intros Hb He Hm. unfold is_in_range_f64_demote_f32,
    is_in_range_f64_demote_f32_round_to_f32_max,
    is_in_range_f64_demote_f32_round_to_neg_f32_max, F64_NEG_ZERO.
  rewrite orb_false_iff, andb_false_iff, !andb_true_iff, !Z.ltb_lt, !Z.leb_gt.
  destruct s; cbn [b2z] in *; zpow; intros Hg; (split_and!; [lia|lia| |]);
    (split; [intros ?|intros (? & ? & ?)]); try split_and!; try done; lia.
Qed.

Lemma demote_value b : in_u 64 b -> ~ f_is_nan fmt64 b ->
  f32_demote_f64 b =
  bits_of_sf fmt32 (nan_bits fmt32 [b]) (SF_convert fmt32 (sf_of_bits fmt64 b)).
Proof.
  intros Hb Hn. destruct (f64_fields b Hb Hn) as (s & e & m & Eb & He & Hm & _).
  unfold f32_demote_f64. destruct (is_in_range_f64_demote_f32 b) eqn:Hr; [done|].
  destruct (demote_range b s e m Eb He Hm Hr) as (Hlow & Hm0 & Hpos & Hneg). clear Hr.
  pose proof (sf_of_bits_large b s e m Eb ltac:(lia) Hm) as Esf.
  pose proof (f64_sign_shift b s e m Eb He Hm) as Es.
  assert (IS_NAN F64 b = false) as ->.
  { destruct (IS_NAN F64 b) eqn:E; [|done]. apply IS_NAN_spec in E; [done|auto|done]. }
  destruct (rne_29_cases m Hm) as (_ & Hmax & Hinf).
  destruct (Z.eqb_spec e 2047) as [E1|E1].
  - destruct (Z.eqb_spec m 0) as [M0|M0];
      [|exfalso; apply Hn, f_is_nan_sf; [unfold f_ok; auto|done|done]].
    rewrite Esf, Es.
    destruct (is_in_range_f64_demote_f32_round_to_f32_max b);
      [destruct (proj1 Hpos eq_refl); lia|].
    destruct (is_in_range_f64_demote_f32_round_to_neg_f32_max b);
      [destruct (proj1 Hneg eq_refl); lia|]. by destruct s.
  - rewrite Esf, convert_large, Es by lia.
    destruct (is_in_range_f64_demote_f32_round_to_f32_max b).
    { destruct (proj1 Hpos eq_refl) as (-> & -> & ?).
      rewrite decide_True, Hmax by (rewrite ?Hmax; lia). done. }
    destruct (is_in_range_f64_demote_f32_round_to_neg_f32_max b).
    { destruct (proj1 Hneg eq_refl) as (-> & -> & ?).
      rewrite decide_True, Hmax by (rewrite ?Hmax; lia). done. }
    rewrite decide_False; [by destruct s|]. intros [-> Hq].
    destruct (decide (m < 0xffffff0000000)) as [|Hge]; [|rewrite Hinf in Hq; lia].
    destruct s; [enough (false = true) by done; apply Hneg; done|].
    enough (false = true) by done; apply Hpos; done.
Qed.
End demote.

(** ** Order of floats *)

(** Floats that are not NaNs, ordered by value with [-0] below [+0]. *)
Definition f_key (f : FloatFmt) (b : Z) : Z :=
  if b <? 2 ^ (ff_w f - 1) then b else 2 ^ (ff_w f - 1) - 1 - b.

Definition f_is_zero (f : FloatFmt) (b : Z) : bool :=
  (b =? 0) || (b =? 2 ^ (ff_w f - 1)).

(** The shape of a float that is not a NaN: sign, magnitude bits [g], value. *)
Inductive sf_view (f : FloatFmt) (s : bool) (g : Z) : spec_float -> Prop :=
  | view_zero : g = 0 -> sf_view f s g (S754_zero s)
  | view_infinity : g = f_emask f * 2 ^ ff_sig f -> sf_view f s g (S754_infinity s)
  | view_finite e m : 0 < g < f_emask f * 2 ^ ff_sig f -> 0 < Z.pos m ->
      (e = 1 - ff_bias f - ff_sig f /\ g = Z.pos m /\ g < 2 ^ ff_sig f \/
       1 - ff_bias f - ff_sig f <= e /\
       g = (e + ff_bias f + ff_sig f - 1) * 2 ^ ff_sig f + Z.pos m /\
       2 ^ ff_sig f <= Z.pos m < 2 * 2 ^ ff_sig f) ->
      sf_view f s g (S754_finite s m e).

Definition sf_sign (x : spec_float) : bool :=
  match x with
  | S754_zero s | S754_infinity s | S754_finite s _ _ => s
  | S754_nan => false
  end.

Lemma sf_view_sign f s g x : sf_view f s g x -> sf_sign x = s.
Proof. by inversion 1. Qed.

Ltac solve_compare :=
  first [apply Z.compare_lt_iff; lia | apply Z.compare_gt_iff; lia | apply Z.compare_eq_iff; lia].

Section order.
Context (f : FloatFmt) (Hf : f_ok f).

Lemma sf_viewP b : in_u (ff_w f) b -> ~ f_is_nan f b ->
  exists s g, b = b2z s * 2 ^ (ff_w f - 1) + g /\ 0 <= g < 2 ^ (ff_w f - 1) /\
    f_sign f b = s /\ sf_view f s g (sf_of_bits f b).
Proof.
  intros Hb Hn. destruct (f_split f Hf b Hb) as (Eb & He & Hm), (ff_facts f Hf) as (? & ? & HE & HW).
  set (e := f_exp f b) in *. set (m := f_frac f b) in *.
  exists (f_sign f b), (e * 2 ^ ff_sig f + m).
  split; [rewrite Eb at 1; unfold f_pack; lia|]. split; [rewrite HW; nia|]. split; [done|].
  unfold sf_of_bits. fold e m. unfold f_is_nan in Hn. fold e m in Hn.
  destruct (Z.eqb_spec e 0) as [E0|E0]; [destruct (Z.eqb_spec m 0) as [M0|M0]|
    destruct (Z.eqb_spec e (f_emask f)) as [E1|E1]].
  - apply view_zero. lia.
  - apply view_finite; [nia|lia|]. left. rewrite Z2Pos.id by lia. lia.
  - destruct (Z.eqb_spec m 0) as [M0|M0]; [|tauto]. apply view_infinity. lia.
  - apply view_finite; [nia|lia|]. right. rewrite Z2Pos.id by lia. lia.
Qed.

Lemma finite_compare e1 m1 e2 m2 g1 g2 s1 s2 x1 x2 :
  x1 = S754_finite s1 m1 e1 -> x2 = S754_finite s2 m2 e2 ->
  sf_view f s1 g1 x1 -> sf_view f s2 g2 x2 ->
  match e1 ?= e2 with Eq => Pos.compare_cont Eq m1 m2 | c => c end = (g1 ?= g2).
Proof.
  intros -> -> V1 V2. inversion V1 as [| |e m ? ? C1]; subst e m.
  inversion V2 as [| |e m ? ? C2]; subst e m.
  change (Pos.compare_cont Eq m1 m2) with (Z.pos m1 ?= Z.pos m2).
  set (P := 2 ^ ff_sig f) in *. set (d := ff_bias f + ff_sig f) in *.
  destruct (Z.compare_spec e1 e2) as [->|Hlt|Hgt]; symmetry.
  - destruct (Z.compare_spec (Z.pos m1) (Z.pos m2)).
    + apply Z.compare_eq_iff. lia.
    + apply Z.compare_lt_iff. nia.
    + apply Z.compare_gt_iff. nia.
  - apply Z.compare_lt_iff. nia.
  - apply Z.compare_gt_iff. nia.
Qed.

Lemma SFcompare_key a b : in_u (ff_w f) a -> in_u (ff_w f) b ->
  ~ f_is_nan f a -> ~ f_is_nan f b ->
  SFcompare (sf_of_bits f a) (sf_of_bits f b) =
    Some (if f_is_zero f a && f_is_zero f b then Eq else f_key f a ?= f_key f b).
Proof.
  intros Ha Hb Na Nb.
  destruct (sf_viewP a Ha Na) as (sa & ga & Ea & Ga & _ & Va).
  destruct (sf_viewP b Hb Nb) as (sb & gb & Eb & Gb & _ & Vb).
  assert (f_is_zero f a = (ga =? 0)) as -> by (unfold f_is_zero; destruct sa; cbn [b2z] in *; zbool; lia).
  assert (f_is_zero f b = (gb =? 0)) as -> by (unfold f_is_zero; destruct sb; cbn [b2z] in *; zbool; lia).
  assert (f_key f a = if sa then -1 - ga else ga) as -> by (unfold f_key; destruct sa; cbn [b2z] in *; zbool; lia).
  assert (f_key f b = if sb then -1 - gb else gb) as -> by (unfold f_key; destruct sb; cbn [b2z] in *; zbool; lia).
  destruct (ff_facts f Hf) as (? & ? & HE & _).
  assert (0 < f_emask f * 2 ^ ff_sig f) by nia.
  set (I := f_emask f * 2 ^ ff_sig f) in *.
  destruct (sf_of_bits f a) as [za|ia| |xa ma ea] eqn:Xa; try (by inversion Va);
    destruct (sf_of_bits f b) as [zb|ib| |xb mb eb] eqn:Xb; try (by inversion Vb).
  all: pose proof (sf_view_sign _ _ _ _ Va) as Sa; pose proof (sf_view_sign _ _ _ _ Vb) as Sb;
    cbn [sf_sign] in Sa, Sb; subst; cbn [SFcompare]; f_equal.
  1-8: inversion Va; inversion Vb; subst; destruct sa, sb; cbn [andb]; zbool; cbn [andb];
    try lia; symmetry; first [done | solve_compare].
  pose proof (finite_compare ea ma eb mb ga gb sa sb _ _ eq_refl eq_refl Va Vb) as C.
  inversion Va; inversion Vb; subst.
  rewrite !(proj2 (Z.eqb_neq _ 0)) by lia. cbn [andb].
  destruct sa, sb; [|symmetry; solve_compare|symmetry; solve_compare|done].
  replace (-1 - ga ?= -1 - gb) with (gb ?= ga)
    by (destruct (Z.compare_spec gb ga); symmetry; solve_compare).
  rewrite (Z.compare_antisym ga gb), <- C. by destruct (ea ?= eb).
Qed.
End order.

(** What WebAssembly asks of [min] and [max] on floats that are not NaNs. *)
Definition spec_minmax (f : FloatFmt) (op : MinMax) (a b : Z) : Z :=
  match op with
  | MIN => if f_key f a <=? f_key f b then a else b
  | MAX => if f_key f b <=? f_key f a then a else b
  end.

(** A quiet NaN: the top fraction bit is set. *)
Definition f_is_quiet_nan (f : FloatFmt) (b : Z) : Prop :=
  f_is_nan f b /\ Z.testbit b (ff_sig f - 1) = true.

Section minmax.
Context `{NanBits} (ft : ValType) (Hft : ft = F32 \/ ft = F64).
#[local] Abbreviation f := (FLOAT_TYPE ft).
#[local] Abbreviation w := (VALUE_TYPE ft).

Lemma SIGN_MASK_pow : SIGN_MASK ft = 2 ^ (w - 1).
Proof. by destruct Hft as [-> | ->]. Qed.

Lemma QUIET_NAN_BIT_pow : QUIET_NAN_BIT ft = 2 ^ (ff_sig f - 1).
Proof. by destruct Hft as [-> | ->]. Qed.

Lemma f_sign_testbit b : in_u w b -> Z.testbit b (w - 1) = f_sign f b.
Proof.
  intros Hb. unfold f_sign. rewrite FLOAT_TYPE_w by done. unfold in_u in Hb.
  assert (2 ^ w = 2 * 2 ^ (w - 1)) as E by (rewrite <- Z.pow_succ_r by (destruct ft; done); f_equal; lia).
  destruct (Z.leb_spec (2 ^ (w - 1)) b).
  - apply (sign_testbit b true (b - 2 ^ (w - 1))); cbn [b2z]; [by destruct ft|lia|lia].
  - apply (sign_testbit b false b); cbn [b2z]; [by destruct ft|lia|lia].
Qed.

Lemma sign_differs a b : in_u w a -> in_u w b ->
  negb (Z.land (Z.lxor a b) (SIGN_MASK ft) =? 0) = xorb (f_sign f a) (f_sign f b).
Proof.
  intros Ha Hb. assert (0 <= w - 1) by (by destruct ft).
  rewrite SIGN_MASK_pow, land_pow2, Z.lxor_spec, !f_sign_testbit by done.
  destruct (xorb _ _); cbn [b2z]; [|done].
  by rewrite (proj2 (Z.eqb_neq _ _)) by lia.
Qed.

Lemma is_nan_false b : in_u w b -> ~ f_is_nan f b -> IS_NAN ft b = false.
Proof.
  intros Hb Hn. destruct (IS_NAN ft b) eqn:E; [|done]. by apply IS_NAN_spec in E.
Qed.

Lemma f_key_inj a b : in_u w a -> in_u w b -> f_key f a = f_key f b -> a = b.
Proof.
  unfold f_key. rewrite FLOAT_TYPE_w by done. unfold in_u. intros. zbool; lia.
Qed.

Lemma minmax_value op a b : in_u w a -> in_u w b -> ~ f_is_nan f a -> ~ f_is_nan f b ->
  MINMAX_FLOAT_op ft op a b = spec_minmax f op a b.
Proof.
  intros Ha Hb Na Nb. pose proof (FLOAT_TYPE_ok ft Hft) as Hf.
  pose proof (FLOAT_TYPE_w ft Hft) as Hw.
  unfold MINMAX_FLOAT_op. rewrite !is_nan_false, sign_differs by done.
  unfold BITCAST_FROM, BITCAST_TO.
  assert (forall n x, in_u w x -> ~ f_is_nan f x -> bits_of_sf f n (sf_of_bits f x) = x) as Hid.
  { intros. apply bits_of_sf_of_bits; rewrite ?Hw; done. }
  destruct (xorb _ _) eqn:Hx.
  - unfold f_sign in Hx. rewrite Hw in Hx. unfold spec_minmax, f_key, in_u in *. rewrite Hw.
    destruct op; cbn [MINMAX_OP_int]; zbool; cbn [negb xorb] in *; try done; lia.
  - assert (forall x y, in_u w x -> in_u w y -> ~ f_is_nan f x -> ~ f_is_nan f y ->
      f_sign f x = f_sign f y ->
      SFltb (sf_of_bits f x) (sf_of_bits f y) = (f_key f x <? f_key f y)) as Hlt.
    { intros x y Hx1 Hy1 Nx Ny Hs. unfold SFltb. rewrite SFcompare_key by (rewrite ?Hw; done).
      destruct (f_is_zero f x && f_is_zero f y) eqn:Z0; [|by destruct (Z.compare_spec (f_key f x) (f_key f y)); zbool; try lia].
      assert (x = y) as ->; [|by rewrite Z.ltb_irrefl].
      unfold f_is_zero, f_sign in *. rewrite andb_true_iff, !orb_true_iff, !Z.eqb_eq in Z0.
      assert (0 < 2 ^ (ff_w f - 1)) by (rewrite Hw; destruct ft; done). zbool; try done; lia. }
    apply xorb_eq in Hx. destruct op; cbn [MINMAX_OP_float spec_minmax]; rewrite Hlt by done.
    + destruct (Z.ltb_spec (f_key f a) (f_key f b)); rewrite Hid by done; zbool; try lia; try done.
      symmetry. apply f_key_inj; [done|done|lia].
    + destruct (Z.ltb_spec (f_key f b) (f_key f a)); rewrite Hid by done; zbool; try lia; try done.
      symmetry. apply f_key_inj; [done|done|lia].
Qed.

(** Setting the quiet bit of a NaN keeps its sign and the other bits. *)
Lemma quiet_nan b : in_u w b -> f_is_nan f b -> f_is_quiet_nan f (Z.lor b (QUIET_NAN_BIT ft)).
Proof.
  intros Hb [He Hm]. pose proof (FLOAT_TYPE_ok ft Hft) as Hf.
  destruct (f_ok_bounds f Hf) as [Hs _]. rewrite QUIET_NAN_BIT_pow.
  unfold f_is_quiet_nan, f_is_nan, f_exp, f_frac in *.
  assert (Z.testbit (2 ^ (ff_sig f - 1)) (ff_sig f - 1) = true) as T
    by (rewrite Z.pow2_bits_eqb, Z.eqb_refl by lia; done).
  assert (1 < ff_sig f) by (destruct Hft as [-> | ->]; done).
  split; [split|].
  - rewrite <- Z.shiftr_div_pow2, Z.shiftr_lor, !Z.shiftr_div_pow2 by lia.
    rewrite (Z.div_small (2 ^ _)), Z.lor_0_r; [done|].
    split; [lia|]. apply Z.pow_lt_mono_r; lia.
  - intros E0. assert (Z.testbit 0 (ff_sig f - 1) = true) as B; [|by rewrite Z.bits_0 in B].
    rewrite <- E0 at 1. rewrite Z.mod_pow2_bits_low, Z.lor_spec, T by lia. apply orb_true_r.
  - rewrite Z.lor_spec, T. apply orb_true_r.
Qed.

Lemma minmax_nan op a b : in_u w a -> in_u w b -> f_is_nan f a \/ f_is_nan f b ->
  f_is_quiet_nan f (MINMAX_FLOAT_op ft op a b).
Proof.
  intros Ha Hb Hn. unfold MINMAX_FLOAT_op.
  destruct (IS_NAN ft a) eqn:Ea; [apply quiet_nan; [done|]; by apply IS_NAN_spec|].
  destruct (IS_NAN ft b) eqn:Eb; [apply quiet_nan; [done|]; by apply IS_NAN_spec|].
  destruct Hn as [Hn|Hn]; apply IS_NAN_spec in Hn; congruence.
Qed.

Lemma IS_ZERO_spec b : IS_ZERO ft b = f_is_zero f b.
Proof. by destruct Hft as [-> | ->]. Qed.

Lemma sf_of_bits_zero b : in_u w b -> f_is_zero f b = true ->
  sf_of_bits f b = S754_zero (f_sign f b).
Proof.
  unfold f_is_zero. rewrite orb_true_iff, !Z.eqb_eq.
  intros _ [-> | ->]; destruct Hft as [-> | ->]; done.
Qed.

Lemma sf_of_bits_nonzero b s : in_u w b -> sf_of_bits f b = S754_zero s -> f_is_zero f b = true.
Proof.
  intros Hb E. pose proof (FLOAT_TYPE_ok ft Hft) as Hf.
  rewrite <- FLOAT_TYPE_w in Hb by done.
  assert (~ f_is_nan f b) as Hn by (intros Hn; apply f_is_nan_sf in Hn; [congruence|done|done]).
  destruct (sf_viewP f Hf b Hb Hn) as (s' & g & Eb & _ & _ & V). rewrite E in V.
  inversion V as [G| |]. unfold f_is_zero. rewrite Eb, G. destruct s'; cbn [b2z] in *; zbool; lia.
Qed.

Lemma div_sign a b : in_u w a -> in_u w b ->
  Z.lor (Z.lxor (Z.land a (SIGN_MASK ft)) (Z.land b (SIGN_MASK ft))) (INF ft) =
  f_pack f (xorb (f_sign f a) (f_sign f b)) (f_emask f) 0.
Proof.
  intros Ha Hb. assert (0 <= w - 1) by (by destruct ft).
  rewrite SIGN_MASK_pow, !land_pow2, !f_sign_testbit by done.
  by destruct Hft as [-> | ->], (f_sign _ a), (f_sign _ b).
Qed.

(** The code divides by zero by hand; the result is the IEEE quotient. *)
Lemma float_div_value a b : in_u w a -> in_u w b -> ~ f_is_nan f a ->
  BINOP_FLOAT_DIV_op ft a b =
    bits_of_sf f (if f_is_zero f b then QUIET_NAN ft else nan_bits f [a; b])
      (f_div ft (sf_of_bits f a) (sf_of_bits f b)).
Proof.
  intros Ha Hb Na. pose proof (FLOAT_TYPE_ok ft Hft) as Hf.
  unfold BINOP_FLOAT_DIV_op. rewrite !IS_ZERO_spec, is_nan_false by done.
  destruct (f_is_zero f b) eqn:Zb; [|done].
  rewrite (sf_of_bits_zero b) by done. unfold f_div.
  destruct (f_is_zero f a) eqn:Za; [by rewrite (sf_of_bits_zero a) by done|].
  rewrite div_sign by done. pose proof Na as Na'. rewrite (f_is_nan_sf f Hf) in Na'
    by (rewrite FLOAT_TYPE_w; done).
  assert (in_u (ff_w f) a) as Ha' by (rewrite FLOAT_TYPE_w; done).
  destruct (sf_viewP f Hf a Ha' Na) as (s & g & _ & _ & -> & V).
  destruct (sf_of_bits f a) eqn:E; try done; apply sf_view_sign in V; cbn [sf_sign] in V; subst.
  { apply sf_of_bits_nonzero in E; [congruence|done]. }
  - done.
  - done.
Qed.
End minmax.

(** ** The theorems *)

(** C31 - The float-to-integer conversions.  Six of the eight trap on a NaN,
    trap when the truncated value is not an integer of the target type, and
    otherwise give that integer: the bit-level range tests are exact and the
    cast behind them is never undefined.  The two conversions from [f64] to a
    32-bit integer do the same except that they also trap on a value that is
    not an integer and truncates to an end of the range. *)
Theorem trunc_conversions b32 b64 : in_u 32 b32 -> in_u 64 b64 ->
  i32_trunc_s_f32 b32 = spec_trunc fmt32 INT32_MIN INT32_MAX 32 b32 /\
  i32_trunc_u_f32 b32 = spec_trunc fmt32 0 UINT32_MAX 32 b32 /\
  i64_trunc_s_f32 b32 = spec_trunc fmt32 INT64_MIN INT64_MAX 64 b32 /\
  i64_trunc_u_f32 b32 = spec_trunc fmt32 0 UINT64_MAX 64 b32 /\
  i64_trunc_s_f64 b64 = spec_trunc fmt64 INT64_MIN INT64_MAX 64 b64 /\
  i64_trunc_u_f64 b64 = spec_trunc fmt64 0 UINT64_MAX 64 b64 /\
  i32_trunc_s_f64 b64 = spec_trunc_narrow fmt64 [INT32_MIN; INT32_MAX] INT32_MIN INT32_MAX 32 b64 /\
  i32_trunc_u_f64 b64 = spec_trunc_narrow fmt64 [UINT32_MAX] 0 UINT32_MAX 32 b64.
Proof.
  intros H32 H64. assert (f_ok fmt32) as O32 by (unfold f_ok; auto).
  assert (f_ok fmt64) as O64 by (unfold f_ok; auto).
  split_and!.
  - apply (trunc_op_exact F32 (or_introl eq_refl)); [done|]. intros Hn.
    by apply (s_guard_spec fmt32 O32 31).
  - apply (trunc_op_exact F32 (or_introl eq_refl)); [done|]. intros Hn.
    by apply (u_guard_spec fmt32 O32 32).
  - apply (trunc_op_exact F32 (or_introl eq_refl)); [done|]. intros Hn.
    by apply (s_guard_spec fmt32 O32 63).
  - apply (trunc_op_exact F32 (or_introl eq_refl)); [done|]. intros Hn.
    by apply (u_guard_spec fmt32 O32 64).
  - apply (trunc_op_exact F64 (or_intror eq_refl)); [done|]. intros Hn.
    by apply (s_guard_spec fmt64 O64 63).
  - apply (trunc_op_exact F64 (or_intror eq_refl)); [done|]. intros Hn.
    by apply (u_guard_spec fmt64 O64 64).
  - apply trunc_op_narrow; [done|]. by apply narrow_s_guard.
  - apply trunc_op_narrow; [done|]. by apply narrow_u_guard.
Qed.

Lemma trunc_conversions_witness :
  i32_trunc_s_f32 0xcf000000 = Value 0x80000000 /\
  i64_trunc_u_f64 0x43f0000000000000 = Traps WASM_INTERPRETER_TRAP_INTEGER_OVERFLOW.
Proof.
  destruct (trunc_conversions 0xcf000000 0x43f0000000000000 ltac:(done) ltac:(done))
    as (E1 & _ & _ & _ & _ & E2 & _).
  split; [rewrite E1|rewrite E2]; vm_compute; reflexivity.
Defined.

(** 2147483647.5 truncates to the largest [i32], and WebAssembly converts
    it; the code traps. *)
Theorem i32_trunc_s_f64_rejects :
  i32_trunc_s_f64 0x41dfffffffe00000 = Traps WASM_INTERPRETER_TRAP_INTEGER_OVERFLOW /\
  spec_trunc fmt64 INT32_MIN INT32_MAX 32 0x41dfffffffe00000 = Value 0x7fffffff.
Proof. by vm_compute. Qed.

(** The C conversion of a [double] to a [float], as IEEE-754 defines it. *)
Definition spec_demote `{NanBits} (b : Z) : Z :=
  bits_of_sf fmt32 (nan_bits fmt32 [b]) (SF_convert fmt32 (sf_of_bits fmt64 b)).

(** C32 - Demotion of an [f64] that is not a NaN is the IEEE-754 conversion,
    round to nearest with ties to even, for every input: the three special
    cases the code takes out of the C cast give the value the cast would. *)
Theorem f32_demote_f64_correct `{NanBits} b : in_u 64 b -> ~ f_is_nan fmt64 b ->
  f32_demote_f64 b = spec_demote b.
Proof. apply demote_value. Qed.

Lemma f32_demote_f64_correct_witness :
  @f32_demote_f64 default_nan_bits 0x47efffffefffffff = F32_MAX /\
  bits_of_sf fmt32 (default_nan fmt32)
    (SF_convert fmt32 (sf_of_bits fmt64 0x47efffffefffffff)) = F32_MAX.
Proof.
  pose proof (@f32_demote_f64_correct default_nan_bits 0x47efffffefffffff ltac:(done)
    ltac:(by intros [? _])) as E.
  split; [rewrite E|]; vm_compute; reflexivity.
Defined.

(** C33 - [min] and [max].  With a NaN operand the result is a quiet NaN.
    Otherwise it is the smaller (larger) operand in the order of the values,
    in which [-0] is below [+0]; the integer comparison the code uses when the
    signs differ and the float comparison it uses otherwise agree on that. *)
Theorem minmax_correct `{NanBits} ft op a b : ft = F32 \/ ft = F64 ->
  in_u (VALUE_TYPE ft) a -> in_u (VALUE_TYPE ft) b ->
  let f := FLOAT_TYPE ft in
  (f_is_nan f a \/ f_is_nan f b -> f_is_quiet_nan f (MINMAX_FLOAT_op ft op a b)) /\
  (~ f_is_nan f a -> ~ f_is_nan f b ->
     MINMAX_FLOAT_op ft op a b = spec_minmax f op a b /\
     SFcompare (sf_of_bits f a) (sf_of_bits f b) =
       Some (if f_is_zero f a && f_is_zero f b then Eq else f_key f a ?= f_key f b)).
Proof.
  intros Hft Ha Hb. cbn zeta. split; [by apply minmax_nan|]. intros Na Nb.
  split; [by apply minmax_value|].
  apply SFcompare_key; rewrite ?FLOAT_TYPE_w; auto using FLOAT_TYPE_ok.
Qed.

Lemma minmax_correct_witness :
  @MINMAX_FLOAT_op default_nan_bits F32 MIN F32_NEG_ZERO 0 = F32_NEG_ZERO /\
  f_is_quiet_nan fmt32 (@MINMAX_FLOAT_op default_nan_bits F32 MAX 0 0x7f800001).
Proof.
  split.
  - destruct (@minmax_correct default_nan_bits F32 MIN F32_NEG_ZERO 0 (or_introl eq_refl)
      ltac:(done) ltac:(done)) as [_ E].
    destruct (E ltac:(by intros [? _]) ltac:(by intros [? _])) as [-> _]. vm_compute. reflexivity.
  - apply (@minmax_correct default_nan_bits F32 MAX 0 0x7f800001 (or_introl eq_refl)
      ltac:(done) ltac:(done)). by right.
Defined.

(** C34 - Division of floats is IEEE-754 division on every pair of operands
    whose dividend is not a NaN: the quotients by zero that the code builds
    out of sign, infinity and quiet-NaN bits are the ones of the standard. *)
Theorem float_div_correct `{NanBits} ft a b : ft = F32 \/ ft = F64 ->
  in_u (VALUE_TYPE ft) a -> in_u (VALUE_TYPE ft) b ->
  let f := FLOAT_TYPE ft in
  ~ f_is_nan f a ->
  BINOP_FLOAT_DIV_op ft a b =
    bits_of_sf f (if f_is_zero f b then QUIET_NAN ft else nan_bits f [a; b])
      (f_div ft (sf_of_bits f a) (sf_of_bits f b)).
Proof. intros. by apply float_div_value. Qed.

Lemma float_div_correct_witness :
  @BINOP_FLOAT_DIV_op default_nan_bits F32 0x3f800000 F32_NEG_ZERO = F32_NEG_INF.
Proof.
  rewrite (@float_div_correct default_nan_bits F32 0x3f800000 F32_NEG_ZERO (or_introl eq_refl)
    ltac:(done) ltac:(done) ltac:(by intros [? _])). vm_compute. reflexivity.
Defined.
