(* ===== verification/Interp.v ===== *)
(** * The interpreter's instruction loop (src/src/interpreter.c, interpreter.h)

    [State] is the environment, the thread and the loop's local [pc].  An
    instruction is a computation in [M]: it continues, leaves the loop with a
    [WasmInterpreterResult], or has no defined behaviour (a failed [assert], an
    access outside an array, an undefined cast).  [step] is one iteration of
    the [for] loop of [wasm_run_interpreter]; the [case] labels of its [switch]
    are grouped in the [step_*] functions in source order.

    The value stack is an array of 64-bit unions with a top index: writing the
    [i32] or [f32_bits] field of a slot leaves its upper half as it was. *)

From S2P Require Import Prelude Opcode Float Numeric.

(** ** Data *)

Record FuncSignature : Set := mkSig {
  param_types : list WasmType;
  result_types : list WasmType
}.

Record TypedValue : Set := mkTypedValue { tv_type : WasmType; tv_value : Z }.

(** The union of [WasmInterpreterFunc]: a defined function, or a host function
    with its callback closed over its user data. *)
Inductive FuncBody : Type :=
  | DefinedFunc (offset local_decl_count local_count : Z)
                (param_and_local_types : list WasmType)
  | HostFunc (module_name field_name : string)
             (callback : FuncSignature -> list TypedValue -> WasmResult * list TypedValue).

Record Func : Type := mkFunc { func_sig_index : Z; func_body : FuncBody }.

Definition func_is_host (f : Func) : bool :=
  match func_body f with HostFunc _ _ _ => true | DefinedFunc _ _ _ _ => false end.

Record Memory : Set := mkMemory {
  mem_data : list Z;
  mem_page_limits : WasmLimits;
  mem_byte_size : Z
}.

Record Table : Set := mkTable { tbl_limits : WasmLimits; tbl_func_indexes : list Z }.

Record Global : Set := mkGlobal {
  gl_typed_value : TypedValue;
  gl_mutable : bool;
  gl_import_index : Z
}.

Record Env : Type := mkEnv {
  sigs : list FuncSignature;
  funcs : list Func;
  memories : list Memory;
  tables : list Table;
  globals : list Global;
  istream : list Z
}.

(** The two stacks of a thread.  [value_stack_end] and [call_stack_end] are the
    lengths of the arrays; the tops are indices. *)
Record Stacks : Set := mkStacks {
  value_stack : list Z;
  value_stack_top : Z;
  call_stack : list Z;
  call_stack_top : Z
}.

Record Thread : Set := mkThread { thread_stacks : Stacks; thread_pc : Z }.

(** Inside the loop the thread's [pc] field is not used: the local [pc] is. *)
Record State : Type := mkState { st_env : Env; st_thread : Stacks; st_pc : Z }.

Definition WASM_INVALID_INDEX : Z := 2 ^ 32 - 1.
Definition WASM_TABLE_ENTRY_SIZE : Z := 9.
Definition WASM_TABLE_ENTRY_OFFSET_OFFSET : Z := 0.
Definition WASM_TABLE_ENTRY_DROP_OFFSET : Z := 4.
Definition WASM_TABLE_ENTRY_KEEP_OFFSET : Z := 8.

(** The interpreter's own opcodes follow those of WebAssembly. *)
Inductive InterpOpcode : Set :=
  | WasmOp (op : WasmOpcode)
  | WASM_OPCODE_ALLOCA | WASM_OPCODE_BR_UNLESS | WASM_OPCODE_CALL_HOST
  | WASM_OPCODE_DATA | WASM_OPCODE_DROP_KEEP.

Definition interp_opcode_code (op : InterpOpcode) : Z :=
  match op with
  | WasmOp op => opcode_code op
  | WASM_OPCODE_ALLOCA => WASM_NUM_OPCODES
  | WASM_OPCODE_BR_UNLESS => WASM_NUM_OPCODES + 1
  | WASM_OPCODE_CALL_HOST => WASM_NUM_OPCODES + 2
  | WASM_OPCODE_DATA => WASM_NUM_OPCODES + 3
  | WASM_OPCODE_DROP_KEEP => WASM_NUM_OPCODES + 4
  end.

Definition interp_opcode_of_code (c : Z) : option InterpOpcode :=
  if c <? WASM_NUM_OPCODES then WasmOp <$> opcode_of_code c
  else if c =? WASM_NUM_OPCODES then Some WASM_OPCODE_ALLOCA
  else if c =? WASM_NUM_OPCODES + 1 then Some WASM_OPCODE_BR_UNLESS
  else if c =? WASM_NUM_OPCODES + 2 then Some WASM_OPCODE_CALL_HOST
  else if c =? WASM_NUM_OPCODES + 3 then Some WASM_OPCODE_DATA
  else if c =? WASM_NUM_OPCODES + 4 then Some WASM_OPCODE_DROP_KEEP
  else None.

(** ** The monad of instructions *)

Inductive Outcome (A : Type) : Type :=
  | Done (a : A) (st : State)
  | Exit (r : WasmInterpreterResult) (st : State)
  | Undef.
Arguments Done {A}.
Arguments Exit {A}.
Arguments Undef {A}.

Definition M (A : Type) : Type := State -> Outcome A.

Definition ret {A} (a : A) : M A := fun st => Done a st.
Definition bind {A B} (m : M A) (k : A -> M B) : M B := fun st =>
  match m st with
  | Done a st' => k a st'
  | Exit r st' => Exit r st'
  | Undef => Undef
  end.

Declare Scope interp_scope.
Delimit Scope interp_scope with interp.
Notation "x <- m ;; k" := (bind m (fun x => k))
  (at level 100, m at next level, right associativity) : interp_scope.
Notation "m ;; k" := (bind m (fun _ => k))
  (at level 100, right associativity) : interp_scope.
#[local] Open Scope interp_scope.

Definition undef {A} : M A := fun _ => Undef.
(** [TRAP(type)]: return from [wasm_run_interpreter]. *)
Definition TRAP {A} (r : WasmInterpreterResult) : M A := fun st => Exit r st.
Definition TRAP_IF (cond : bool) (r : WasmInterpreterResult) : M unit :=
  if cond then TRAP r else ret tt.
Definition TRAP_UNLESS (cond : bool) (r : WasmInterpreterResult) : M unit :=
  TRAP_IF (negb cond) r.
(** [assert(cond)]. *)
Definition c_assert (cond : bool) : M unit := if cond then ret tt else undef.
(** A value that must be there: array reads, and casts with a result. *)
Definition some_or_undef {A} (o : option A) : M A :=
  match o with Some a => ret a | None => undef end.

Definition get : M State := fun st => Done st st.
Definition set_pc (pc : Z) : M unit := fun st => Done tt (mkState (st_env st) (st_thread st) pc).
Definition set_thread (t : Stacks) : M unit := fun st => Done tt (mkState (st_env st) t (st_pc st)).
Definition set_env (e : Env) : M unit := fun st => Done tt (mkState e (st_thread st) (st_pc st)).

Definition get_env : M Env := st <- get;; ret (st_env st).
Definition get_thread : M Stacks := st <- get;; ret (st_thread st).
Definition get_pc : M Z := st <- get;; ret (st_pc st).

Definition with_value_stack (t : Stacks) (vs : list Z) (top : Z) : Stacks :=
  mkStacks vs top (call_stack t) (call_stack_top t).
Definition with_call_stack (t : Stacks) (cs : list Z) (top : Z) : Stacks :=
  mkStacks (value_stack t) (value_stack_top t) cs top.

Definition with_memories (e : Env) (ms : list Memory) : Env :=
  mkEnv (sigs e) (funcs e) ms (tables e) (globals e) (istream e).
Definition with_globals (e : Env) (gs : list Global) : Env :=
  mkEnv (sigs e) (funcs e) (memories e) (tables e) gs (istream e).

(** ** Reading the instruction stream *)

Definition read_u8_at (e : Env) (pc : Z) : option Z := zget (istream e) pc.
Definition read_u32_at (e : Env) (pc : Z) : option Z := of_le <$> zslice (istream e) pc 4.
Definition read_u64_at (e : Env) (pc : Z) : option Z := of_le <$> zslice (istream e) pc 8.

Definition read_u8 : M Z :=
  st <- get;; v <- some_or_undef (read_u8_at (st_env st) (st_pc st));;
  set_pc (st_pc st + 1);; ret v.
Definition read_u32 : M Z :=
  st <- get;; v <- some_or_undef (read_u32_at (st_env st) (st_pc st));;
  set_pc (st_pc st + 4);; ret v.
Definition read_u64 : M Z :=
  st <- get;; v <- some_or_undef (read_u64_at (st_env st) (st_pc st));;
  set_pc (st_pc st + 8);; ret v.

Definition read_table_entry_at (e : Env) (pc : Z) : option (Z * Z * Z) :=
  match read_u32_at e (pc + WASM_TABLE_ENTRY_OFFSET_OFFSET),
        read_u32_at e (pc + WASM_TABLE_ENTRY_DROP_OFFSET),
        read_u8_at e (pc + WASM_TABLE_ENTRY_KEEP_OFFSET) with
  | Some out_offset, Some out_drop, Some out_keep => Some (out_offset, out_drop, out_keep)
  | _, _, _ => None
  end.

Definition GOTO (offset : Z) : M unit := set_pc offset.

(** ** The value stack *)

(** Storing a field of the union: 32-bit fields keep the upper half. *)
Definition set_field (t : ValType) (old v : Z) : Z :=
  match t with
  | I32 | F32 => Z.lor (Z.shiftl (Z.shiftr old 32) 32) (u32 v)
  | I64 | F64 => u64 v
  end.
(** Loading a field. *)
Definition get_field (t : ValType) (slot : Z) : Z := wrap (VALUE_TYPE t) slot.

Definition CHECK_STACK : M unit :=
  t <- get_thread;;
  TRAP_IF (Z.of_nat (length (value_stack t)) <=? value_stack_top t)
          WASM_INTERPRETER_TRAP_VALUE_STACK_EXHAUSTED.

Definition PUSH (v : Z) : M unit :=
  CHECK_STACK;;
  t <- get_thread;;
  vs <- some_or_undef (zset (value_stack t) (value_stack_top t) v);;
  set_thread (with_value_stack t vs (value_stack_top t + 1)).

Definition PUSH_TYPE (ty : ValType) (v : Z) : M unit :=
  CHECK_STACK;;
  t <- get_thread;;
  old <- some_or_undef (zget (value_stack t) (value_stack_top t));;
  vs <- some_or_undef (zset (value_stack t) (value_stack_top t) (set_field ty old v));;
  set_thread (with_value_stack t vs (value_stack_top t + 1)).

Definition PICK (depth : Z) : M Z :=
  t <- get_thread;;
  some_or_undef (zget (value_stack t) (value_stack_top t - depth)).

(** Assignment to [PICK(depth)]. *)
Definition SET_PICK (depth v : Z) : M unit :=
  t <- get_thread;;
  vs <- some_or_undef (zset (value_stack t) (value_stack_top t - depth) v);;
  set_thread (with_value_stack t vs (value_stack_top t)).

Definition TOP : M Z := PICK 1.

Definition POP : M Z :=
  t <- get_thread;;
  v <- some_or_undef (zget (value_stack t) (value_stack_top t - 1));;
  set_thread (with_value_stack t (value_stack t) (value_stack_top t - 1));;
  ret v.

Definition POP_TYPE (ty : ValType) : M Z := v <- POP;; ret (get_field ty v).

(** The pointer may not leave the array. *)
Definition DROP (drop : Z) : M unit :=
  t <- get_thread;;
  c_assert (drop <=? value_stack_top t);;
  set_thread (with_value_stack t (value_stack t) (value_stack_top t - drop)).

Definition DROP_KEEP (drop keep : Z) : M unit :=
  c_assert (keep <=? 1);;
  (if keep =? 1 then v <- TOP;; SET_PICK (u32 (drop + 1)) v else ret tt);;
  DROP drop.

(** ** Calls *)

Definition PUSH_CALL : M unit :=
  st <- get;;
  let t := st_thread st in
  TRAP_IF (Z.of_nat (length (call_stack t)) <=? call_stack_top t)
          WASM_INTERPRETER_TRAP_CALL_STACK_EXHAUSTED;;
  cs <- some_or_undef (zset (call_stack t) (call_stack_top t) (u32 (st_pc st)));;
  set_thread (with_call_stack t cs (call_stack_top t + 1)).

Definition POP_CALL : M Z :=
  t <- get_thread;;
  v <- some_or_undef (zget (call_stack t) (call_stack_top t - 1));;
  set_thread (with_call_stack t (call_stack t) (call_stack_top t - 1));;
  ret v.

Fixpoint type_lists_equal (l1 l2 : list WasmType) : bool :=
  match l1, l2 with
  | [], [] => true
  | x :: l1', y :: l2' => bool_decide (x = y) && type_lists_equal l1' l2'
  | _, _ => false
  end.

(** [wasm_type_vectors_are_equal]: first the sizes, then the elements. *)
Definition wasm_type_vectors_are_equal (types1 types2 : list WasmType) : bool :=
  if negb (Z.of_nat (length types1) =? Z.of_nat (length types2)) then false
  else type_lists_equal types1 types2.

(** [None] is an index outside [env->sigs]. *)
Definition wasm_func_signatures_are_equal (e : Env) (sig_index_0 sig_index_1 : Z) : option bool :=
  if sig_index_0 =? sig_index_1 then Some true
  else match zget (sigs e) sig_index_0, zget (sigs e) sig_index_1 with
       | Some sig_0, Some sig_1 =>
           Some (wasm_type_vectors_are_equal (param_types sig_0) (param_types sig_1) &&
                 wasm_type_vectors_are_equal (result_types sig_0) (result_types sig_1))
       | _, _ => None
       end.

(** The first loop of [wasm_call_host]: pop the arguments, last first.
    [types] is the reversed list of parameter types. *)
Fixpoint pop_args (types : list WasmType) (args : list TypedValue) : M (list TypedValue) :=
  match types with
  | [] => ret args
  | ty :: types' => value <- POP;; pop_args types' (mkTypedValue ty value :: args)
  end.

(** The second loop: check and push the results. *)
Fixpoint push_results (types : list WasmType) (results : list TypedValue) : M unit :=
  match types, results with
  | [], _ => ret tt
  | ty :: types', r :: results' =>
      TRAP_IF (negb (bool_decide (tv_type r = ty)))
              WASM_INTERPRETER_TRAP_HOST_RESULT_TYPE_MISMATCH;;
      PUSH (tv_value r);; push_results types' results'
  | _ :: _, [] => undef
  end.

Definition call_host_body (func : Func) : M unit :=
  e <- get_env;;
  match func_body func with
  | DefinedFunc _ _ _ _ => undef
  | HostFunc _ _ callback =>
      sig <- some_or_undef (zget (sigs e) (func_sig_index func));;
      args <- pop_args (rev (param_types sig)) [];;
      let (call_result, call_result_values) := callback sig args in
      TRAP_IF (negb (bool_decide (call_result = WASM_OK))) WASM_INTERPRETER_TRAP_HOST_TRAPPED;;
      push_results (result_types sig) call_result_values
  end.

(** [wasm_call_host] is a function of its own: a trap inside it is its return
    value. *)
Definition wasm_call_host (func : Func) : M WasmInterpreterResult := fun st =>
  match call_host_body func st with
  | Done _ st' => Done WASM_INTERPRETER_OK st'
  | Exit r st' => Done r st'
  | Undef => Undef
  end.

(** ** Linear memory *)

Inductive MemType : Set :=
  | M_I8 | M_U8 | M_I16 | M_U16 | M_I32 | M_U32 | M_I64 | M_U64 | M_F32 | M_F64.

(** [sizeof] of the [MEM_TYPE]. *)
Definition mem_size (m : MemType) : nat :=
  match m with
  | M_I8 | M_U8 => 1
  | M_I16 | M_U16 => 2
  | M_I32 | M_U32 | M_F32 => 4
  | M_I64 | M_U64 | M_F64 => 8
  end.

Definition mem_signed (m : MemType) : bool :=
  match m with M_I8 | M_I16 | M_I32 | M_I64 => true | _ => false end.

Definition mem_bits (m : MemType) : Z := 8 * Z.of_nat (mem_size m).

(** [(VALUE_TYPE)(MEM_TYPE_EXTEND)value] for [value] of type [MEM_TYPE]. *)
Definition mem_extend (t : ValType) (m : MemType) (value : Z) : Z :=
  wrap (VALUE_TYPE t) (if mem_signed m then to_signed (mem_bits m) value else value).

Definition GET_MEMORY : M (Z * Memory) :=
  memory_index <- read_u32;;
  e <- get_env;;
  memory <- some_or_undef (zget (memories e) memory_index);;
  ret (memory_index, memory).

Definition set_memory (memory_index : Z) (m : Memory) : M unit :=
  e <- get_env;;
  ms <- some_or_undef (zset (memories e) memory_index m);;
  set_env (with_memories e ms).

Definition LOAD (t : ValType) (mt : MemType) : M unit :=
  im <- GET_MEMORY;;
  let memory := snd im in
  base <- POP_TYPE I32;;
  imm <- read_u32;;
  let offset := u64 (base + imm) in
  TRAP_IF (mem_byte_size memory <? u64 (offset + Z.of_nat (mem_size mt)))
          WASM_INTERPRETER_TRAP_MEMORY_ACCESS_OUT_OF_BOUNDS;;
  bytes <- some_or_undef (zslice (mem_data memory) (u32 offset) (Z.of_nat (mem_size mt)));;
  PUSH_TYPE t (mem_extend t mt (of_le bytes)).

Definition STORE (t : ValType) (mt : MemType) : M unit :=
  im <- GET_MEMORY;;
  let memory := snd im in
  value <- POP_TYPE t;;
  base <- POP_TYPE I32;;
  imm <- read_u32;;
  let offset := u64 (base + imm) in
  let src := wrap (mem_bits mt) value in
  TRAP_IF (mem_byte_size memory <? u64 (offset + Z.of_nat (mem_size mt)))
          WASM_INTERPRETER_TRAP_MEMORY_ACCESS_OUT_OF_BOUNDS;;
  data <- some_or_undef (zblit (mem_data memory) (u32 offset) (le_bytes (mem_size mt) src));;
  set_memory (fst im) (mkMemory data (mem_page_limits memory) (mem_byte_size memory)).

(** [memset(p + at, 0, n)] inside a block of [length data] bytes. *)
Definition zero_fill (data : list Z) (at_ n : Z) : option (list Z) :=
  if at_ + n <=? Z.of_nat (length data)
  then zblit data at_ (replicate (Z.to_nat n) 0) else None.

(** [wasm_realloc]: the first [min(old, new)] bytes are kept; what the rest of
    a larger block holds is the allocator's business ([fill]). *)
Definition realloc_data (fill : Z) (data : list Z) (new_size : Z) : list Z :=
  take (Z.to_nat new_size) data ++ replicate (Z.to_nat new_size - length data) fill.

(** The allocator of the memory: whether it can give a block of a size, and
    the byte a fresh block is filled with. *)
Class MemAllocator := {
  alloc_ok : Z -> bool;
  alloc_fill : Z;
  alloc_fill_u8 : in_u 8 alloc_fill
}.

Section instructions.
Context `{NanBits} `{MemAllocator}.

(** The three tests that answer -1, in the code's order. *)
Definition op_current_memory : M unit :=
  im <- GET_MEMORY;;
  PUSH_TYPE I32 (lim_initial (mem_page_limits (snd im))).

Definition op_grow_memory : M unit :=
  im <- GET_MEMORY;;
  let memory := snd im in
  let limits := mem_page_limits memory in
  let old_page_size := u32 (lim_initial limits) in
  let old_byte_size := mem_byte_size memory in
  grow_pages <- POP_TYPE I32;;
  let new_page_size := u32 (old_page_size + grow_pages) in
  let max_page_size := if lim_has_max limits then u32 (lim_max limits) else WASM_MAX_PAGES in
  if max_page_size <? new_page_size then PUSH_TYPE I32 (-1)
  else if UINT32_MAX <? u64 (new_page_size * WASM_PAGE_SIZE) then PUSH_TYPE I32 (-1)
  else
    let new_byte_size := u32 (new_page_size * WASM_PAGE_SIZE) in
    if negb (alloc_ok new_byte_size) then PUSH_TYPE I32 (-1)
    else
      let new_data := realloc_data alloc_fill (mem_data memory) new_byte_size in
      new_data <- some_or_undef
        (zero_fill new_data old_byte_size (u32 (new_byte_size - old_byte_size)));;
      set_memory (fst im)
        (mkMemory new_data
           (mkLimits new_page_size (lim_max limits) (lim_has_max limits)) new_byte_size);;
      PUSH_TYPE I32 old_page_size.

(** ** Operator macros *)

Definition BINOP (rt t : ValType) (op : Z -> Z -> Z -> Z) : M unit :=
  rhs <- POP_TYPE t;; lhs <- POP_TYPE t;;
  PUSH_TYPE rt (op (VALUE_TYPE t) lhs rhs).

Definition BINOP_SIGNED (rt t : ValType) (op : Z -> Z -> Z -> Z) : M unit :=
  rhs <- POP_TYPE t;; lhs <- POP_TYPE t;;
  let w := VALUE_TYPE t in
  PUSH_TYPE rt (op w (to_signed w lhs) (to_signed w rhs)).

Inductive Signedness : Set := SIGNED | UNSIGNED.

Definition BITCAST_INT (t : ValType) (sign : Signedness) (x : Z) : Z :=
  match sign with SIGNED => to_signed (VALUE_TYPE t) x | UNSIGNED => x end.

Definition BINOP_SHIFT (t : ValType) (op : Z -> Z -> Z -> Z) (sign : Signedness) : M unit :=
  rhs <- POP_TYPE t;; lhs <- POP_TYPE t;;
  PUSH_TYPE t (op (VALUE_TYPE t) (BITCAST_INT t sign lhs) (Z.land rhs (SHIFT_MASK t))).

Definition BINOP_ROT (t : ValType) (dir : Dir) : M unit :=
  rhs <- POP_TYPE t;; lhs <- POP_TYPE t;;
  PUSH_TYPE t (BINOP_ROT_op t dir lhs rhs).

(** Finish an operator that may trap. *)
Definition PUSH_RESULT (t : ValType) (r : OpResult) : M unit :=
  match r with
  | Value v => PUSH_TYPE t v
  | Traps r => TRAP r
  | Undefined => undef
  end.

Definition BINOP_DIV_REM_U (t : ValType) (op : Z -> Z -> Z -> Z) : M unit :=
  rhs <- POP_TYPE t;; lhs <- POP_TYPE t;;
  PUSH_RESULT t (BINOP_DIV_REM_U_op t op lhs rhs).

Definition BINOP_DIV_S (t : ValType) : M unit :=
  rhs <- POP_TYPE t;; lhs <- POP_TYPE t;;
  PUSH_RESULT t (BINOP_DIV_S_op t lhs rhs).

Definition BINOP_REM_S (t : ValType) : M unit :=
  rhs <- POP_TYPE t;; lhs <- POP_TYPE t;;
  PUSH_RESULT t (BINOP_REM_S_op t lhs rhs).

Definition UNOP_FLOAT (t : ValType) (func : spec_float -> spec_float) : M unit :=
  value <- POP_TYPE t;; PUSH_TYPE t (UNOP_FLOAT_op t func value).

Definition BINOP_FLOAT (t : ValType) (op : spec_float -> spec_float -> spec_float) : M unit :=
  rhs <- POP_TYPE t;; lhs <- POP_TYPE t;;
  PUSH_TYPE t (BINOP_FLOAT_op t op lhs rhs).

Definition BINOP_FLOAT_DIV (t : ValType) : M unit :=
  rhs <- POP_TYPE t;; lhs <- POP_TYPE t;;
  PUSH_TYPE t (BINOP_FLOAT_DIV_op t lhs rhs).

Definition BINOP_FLOAT_COMPARE (t : ValType) (op : spec_float -> spec_float -> Z) : M unit :=
  rhs <- POP_TYPE t;; lhs <- POP_TYPE t;;
  PUSH_TYPE I32 (op (BITCAST_TO t lhs) (BITCAST_TO t rhs)).

Definition MINMAX_FLOAT (t : ValType) (op : MinMax) : M unit :=
  rhs <- POP_TYPE t;; lhs <- POP_TYPE t;;
  PUSH_TYPE t (MINMAX_FLOAT_op t op lhs rhs).

(** The unary cases: pop one operand, push one result. *)
Definition UNOP (rt t : ValType) (op : Z -> Z) : M unit :=
  value <- POP_TYPE t;; PUSH_TYPE rt (op value).

Definition UNOP_TRAP (rt t : ValType) (op : Z -> OpResult) : M unit :=
  value <- POP_TYPE t;; PUSH_RESULT rt (op value).

(** [TOP().f32_bits op= mask]. *)
Definition UPDATE_TOP (t : ValType) (op : Z -> Z) : M unit :=
  old <- TOP;; SET_PICK 1 (set_field t old (op (get_field t old))).

Definition COPYSIGN (t : ValType) : M unit :=
  rhs <- POP_TYPE t;; lhs <- POP_TYPE t;;
  PUSH_TYPE t (Z.lor (Z.land lhs (wrap (VALUE_TYPE t) (Z.lnot (SIGN_MASK t))))
                     (Z.land rhs (SIGN_MASK t))).

(** ** Control *)

Definition op_select : M unit :=
  cond <- POP_TYPE I32;; false_ <- POP;; true_ <- POP;;
  PUSH (if negb (cond =? 0) then true_ else false_).

Definition op_br : M unit := new_pc <- read_u32;; GOTO new_pc.

Definition op_br_if : M unit :=
  new_pc <- read_u32;; c <- POP_TYPE I32;;
  if negb (c =? 0) then GOTO new_pc else ret tt.

Definition op_br_unless : M unit :=
  new_pc <- read_u32;; c <- POP_TYPE I32;;
  if c =? 0 then GOTO new_pc else ret tt.

Definition op_br_table : M unit :=
  num_targets <- read_u32;;
  table_offset <- read_u32;;
  key <- POP_TYPE I32;;
  let key_offset :=
    u32 ((if num_targets <=? key then num_targets else key) * WASM_TABLE_ENTRY_SIZE) in
  e <- get_env;;
  entry <- some_or_undef (read_table_entry_at e (table_offset + key_offset));;
  let '(new_pc, drop_count, keep_count) := entry in
  DROP_KEEP drop_count keep_count;;
  GOTO new_pc.

(** [result = ...; goto exit_loop]: the one way out of the loop, with the
    result [RETURNED], that is not a trap's [return]. *)
Definition exit_loop (r : WasmInterpreterResult) : M unit := fun st => Exit r st.

Definition op_return (call_stack_return_top : Z) : M unit :=
  t <- get_thread;;
  if call_stack_top t =? call_stack_return_top then exit_loop WASM_INTERPRETER_RETURNED
  else offset <- POP_CALL;; GOTO offset.

Definition op_get_global : M unit :=
  index <- read_u32;; e <- get_env;;
  g <- some_or_undef (zget (globals e) index);;
  PUSH (tv_value (gl_typed_value g)).

Definition op_set_global : M unit :=
  index <- read_u32;; e <- get_env;;
  g <- some_or_undef (zget (globals e) index);;
  v <- POP;;
  gs <- some_or_undef (zset (globals e) index
          (mkGlobal (mkTypedValue (tv_type (gl_typed_value g)) v)
                    (gl_mutable g) (gl_import_index g)));;
  set_env (with_globals e gs).

Definition op_get_local : M unit := d <- read_u32;; value <- PICK d;; PUSH value.
Definition op_set_local : M unit := value <- POP;; d <- read_u32;; SET_PICK d value.
Definition op_tee_local : M unit := d <- read_u32;; v <- TOP;; SET_PICK d v.

Definition op_call : M unit := offset <- read_u32;; PUSH_CALL;; GOTO offset.

Definition op_call_indirect : M unit :=
  table_index <- read_u32;; e <- get_env;;
  table <- some_or_undef (zget (tables e) table_index);;
  sig_index <- read_u32;;
  c_assert (sig_index <? Z.of_nat (length (sigs e)));;
  entry_index <- POP_TYPE I32;;
  TRAP_IF (Z.of_nat (length (tbl_func_indexes table)) <=? entry_index)
          WASM_INTERPRETER_TRAP_UNDEFINED_TABLE_INDEX;;
  func_index <- some_or_undef (zget (tbl_func_indexes table) entry_index);;
  TRAP_IF (func_index =? WASM_INVALID_INDEX)
          WASM_INTERPRETER_TRAP_UNINITIALIZED_TABLE_ELEMENT;;
  func <- some_or_undef (zget (funcs e) func_index);;
  same <- some_or_undef (wasm_func_signatures_are_equal e (func_sig_index func) sig_index);;
  TRAP_UNLESS same WASM_INTERPRETER_TRAP_INDIRECT_CALL_SIGNATURE_MISMATCH;;
  match func_body func with
  | HostFunc _ _ _ => wasm_call_host func;; ret tt   (* the result is ignored *)
  | DefinedFunc offset _ _ _ => PUSH_CALL;; GOTO offset
  end.

Definition op_call_host : M unit :=
  func_index <- read_u32;; e <- get_env;;
  func <- some_or_undef (zget (funcs e) func_index);;
  wasm_call_host func;; ret tt.                       (* the result is ignored *)

(** The top moves first, then the check, then the new slots are cleared. *)
Definition op_alloca : M unit :=
  t <- get_thread;;
  let old_value_stack_top := value_stack_top t in
  n <- read_u32;;
  set_thread (with_value_stack t (value_stack t) (old_value_stack_top + n));;
  CHECK_STACK;;
  vs <- some_or_undef
    (zblit (value_stack t) old_value_stack_top (replicate (Z.to_nat n) 0));;
  set_thread (with_value_stack t vs (old_value_stack_top + n)).

Definition op_drop_keep : M unit :=
  drop_count <- read_u32;; keep_count <- read_u8;;
  DROP_KEEP drop_count keep_count.

(** ** The switch *)

Definition step_control (call_stack_return_top : Z) (op : WasmOpcode) : option (M unit) :=
  match op with
  | WASM_OPCODE_SELECT => Some (op_select)
  | WASM_OPCODE_BR => Some (op_br)
  | WASM_OPCODE_BR_IF => Some (op_br_if)
  | WASM_OPCODE_BR_TABLE => Some (op_br_table)
  | WASM_OPCODE_RETURN => Some (op_return call_stack_return_top)
  | WASM_OPCODE_UNREACHABLE => Some (TRAP WASM_INTERPRETER_TRAP_UNREACHABLE)
  | WASM_OPCODE_I32_CONST => Some (CHECK_STACK;; v <- read_u32;; PUSH_TYPE I32 v)
  | WASM_OPCODE_I64_CONST => Some (CHECK_STACK;; v <- read_u64;; PUSH_TYPE I64 v)
  | WASM_OPCODE_F32_CONST => Some (CHECK_STACK;; v <- read_u32;; PUSH_TYPE F32 v)
  | WASM_OPCODE_F64_CONST => Some (CHECK_STACK;; v <- read_u64;; PUSH_TYPE F64 v)
  | WASM_OPCODE_GET_GLOBAL => Some (op_get_global)
  | WASM_OPCODE_SET_GLOBAL => Some (op_set_global)
  | WASM_OPCODE_GET_LOCAL => Some (op_get_local)
  | WASM_OPCODE_SET_LOCAL => Some (op_set_local)
  | WASM_OPCODE_TEE_LOCAL => Some (op_tee_local)
  | WASM_OPCODE_CALL => Some (op_call)
  | WASM_OPCODE_CALL_INDIRECT => Some (op_call_indirect)
  | _ => None
  end.

Definition step_load (op : WasmOpcode) : option (M unit) :=
  match op with
  | WASM_OPCODE_I32_LOAD8_S => Some (LOAD I32 M_I8)
  | WASM_OPCODE_I32_LOAD8_U => Some (LOAD I32 M_U8)
  | WASM_OPCODE_I32_LOAD16_S => Some (LOAD I32 M_I16)
  | WASM_OPCODE_I32_LOAD16_U => Some (LOAD I32 M_U16)
  | WASM_OPCODE_I64_LOAD8_S => Some (LOAD I64 M_I8)
  | WASM_OPCODE_I64_LOAD8_U => Some (LOAD I64 M_U8)
  | WASM_OPCODE_I64_LOAD16_S => Some (LOAD I64 M_I16)
  | WASM_OPCODE_I64_LOAD16_U => Some (LOAD I64 M_U16)
  | WASM_OPCODE_I64_LOAD32_S => Some (LOAD I64 M_I32)
  | WASM_OPCODE_I64_LOAD32_U => Some (LOAD I64 M_U32)
  | WASM_OPCODE_I32_LOAD => Some (LOAD I32 M_U32)
  | WASM_OPCODE_I64_LOAD => Some (LOAD I64 M_U64)
  | WASM_OPCODE_F32_LOAD => Some (LOAD F32 M_F32)
  | WASM_OPCODE_F64_LOAD => Some (LOAD F64 M_F64)
  | _ => None
  end.

Definition step_store (op : WasmOpcode) : option (M unit) :=
  match op with
  | WASM_OPCODE_I32_STORE8 => Some (STORE I32 M_U8)
  | WASM_OPCODE_I32_STORE16 => Some (STORE I32 M_U16)
  | WASM_OPCODE_I64_STORE8 => Some (STORE I64 M_U8)
  | WASM_OPCODE_I64_STORE16 => Some (STORE I64 M_U16)
  | WASM_OPCODE_I64_STORE32 => Some (STORE I64 M_U32)
  | WASM_OPCODE_I32_STORE => Some (STORE I32 M_U32)
  | WASM_OPCODE_I64_STORE => Some (STORE I64 M_U64)
  | WASM_OPCODE_F32_STORE => Some (STORE F32 M_F32)
  | WASM_OPCODE_F64_STORE => Some (STORE F64 M_F64)
  | _ => None
  end.

Definition step_memory (op : WasmOpcode) : option (M unit) :=
  match op with
  | WASM_OPCODE_CURRENT_MEMORY => Some (op_current_memory)
  | WASM_OPCODE_GROW_MEMORY => Some (op_grow_memory)
  | _ => None
  end.

Definition step_i32 (op : WasmOpcode) : option (M unit) :=
  match op with
  | WASM_OPCODE_I32_ADD => Some (BINOP I32 I32 c_add)
  | WASM_OPCODE_I32_SUB => Some (BINOP I32 I32 c_sub)
  | WASM_OPCODE_I32_MUL => Some (BINOP I32 I32 c_mul)
  | WASM_OPCODE_I32_DIV_S => Some (BINOP_DIV_S I32)
  | WASM_OPCODE_I32_DIV_U => Some (BINOP_DIV_REM_U I32 c_div)
  | WASM_OPCODE_I32_REM_S => Some (BINOP_REM_S I32)
  | WASM_OPCODE_I32_REM_U => Some (BINOP_DIV_REM_U I32 c_rem)
  | WASM_OPCODE_I32_AND => Some (BINOP I32 I32 c_and)
  | WASM_OPCODE_I32_OR => Some (BINOP I32 I32 c_or)
  | WASM_OPCODE_I32_XOR => Some (BINOP I32 I32 c_xor)
  | WASM_OPCODE_I32_SHL => Some (BINOP_SHIFT I32 c_shl UNSIGNED)
  | WASM_OPCODE_I32_SHR_U => Some (BINOP_SHIFT I32 c_shr UNSIGNED)
  | WASM_OPCODE_I32_SHR_S => Some (BINOP_SHIFT I32 c_shr SIGNED)
  | WASM_OPCODE_I32_EQ => Some (BINOP I32 I32 c_eq)
  | WASM_OPCODE_I32_NE => Some (BINOP I32 I32 c_ne)
  | WASM_OPCODE_I32_LT_S => Some (BINOP_SIGNED I32 I32 c_lt)
  | WASM_OPCODE_I32_LE_S => Some (BINOP_SIGNED I32 I32 c_le)
  | WASM_OPCODE_I32_LT_U => Some (BINOP I32 I32 c_lt)
  | WASM_OPCODE_I32_LE_U => Some (BINOP I32 I32 c_le)
  | WASM_OPCODE_I32_GT_S => Some (BINOP_SIGNED I32 I32 c_gt)
  | WASM_OPCODE_I32_GE_S => Some (BINOP_SIGNED I32 I32 c_ge)
  | WASM_OPCODE_I32_GT_U => Some (BINOP I32 I32 c_gt)
  | WASM_OPCODE_I32_GE_U => Some (BINOP I32 I32 c_ge)
  | WASM_OPCODE_I32_CLZ => Some (UNOP I32 I32 (op_clz I32))
  | WASM_OPCODE_I32_CTZ => Some (UNOP I32 I32 (op_ctz I32))
  | WASM_OPCODE_I32_POPCNT => Some (UNOP I32 I32 wasm_popcount)
  | WASM_OPCODE_I32_EQZ => Some (UNOP I32 I32 (fun v => b2z (v =? 0)))
  | _ => None
  end.

Definition step_i64 (op : WasmOpcode) : option (M unit) :=
  match op with
  | WASM_OPCODE_I64_ADD => Some (BINOP I64 I64 c_add)
  | WASM_OPCODE_I64_SUB => Some (BINOP I64 I64 c_sub)
  | WASM_OPCODE_I64_MUL => Some (BINOP I64 I64 c_mul)
  | WASM_OPCODE_I64_DIV_S => Some (BINOP_DIV_S I64)
  | WASM_OPCODE_I64_DIV_U => Some (BINOP_DIV_REM_U I64 c_div)
  | WASM_OPCODE_I64_REM_S => Some (BINOP_REM_S I64)
  | WASM_OPCODE_I64_REM_U => Some (BINOP_DIV_REM_U I64 c_rem)
  | WASM_OPCODE_I64_AND => Some (BINOP I64 I64 c_and)
  | WASM_OPCODE_I64_OR => Some (BINOP I64 I64 c_or)
  | WASM_OPCODE_I64_XOR => Some (BINOP I64 I64 c_xor)
  | WASM_OPCODE_I64_SHL => Some (BINOP_SHIFT I64 c_shl UNSIGNED)
  | WASM_OPCODE_I64_SHR_U => Some (BINOP_SHIFT I64 c_shr UNSIGNED)
  | WASM_OPCODE_I64_SHR_S => Some (BINOP_SHIFT I64 c_shr SIGNED)
  | WASM_OPCODE_I64_EQ => Some (BINOP I32 I64 c_eq)
  | WASM_OPCODE_I64_NE => Some (BINOP I32 I64 c_ne)
  | WASM_OPCODE_I64_LT_S => Some (BINOP_SIGNED I32 I64 c_lt)
  | WASM_OPCODE_I64_LE_S => Some (BINOP_SIGNED I32 I64 c_le)
  | WASM_OPCODE_I64_LT_U => Some (BINOP I32 I64 c_lt)
  | WASM_OPCODE_I64_LE_U => Some (BINOP I32 I64 c_le)
  | WASM_OPCODE_I64_GT_S => Some (BINOP_SIGNED I32 I64 c_gt)
  | WASM_OPCODE_I64_GE_S => Some (BINOP_SIGNED I32 I64 c_ge)
  | WASM_OPCODE_I64_GT_U => Some (BINOP I32 I64 c_gt)
  | WASM_OPCODE_I64_GE_U => Some (BINOP I32 I64 c_ge)
  | WASM_OPCODE_I64_CLZ => Some (UNOP I64 I64 (op_clz I64))
  | WASM_OPCODE_I64_CTZ => Some (UNOP I64 I64 (op_ctz I64))
  | WASM_OPCODE_I64_POPCNT => Some (UNOP I64 I64 wasm_popcount)
  | _ => None
  end.

Definition step_f32 (op : WasmOpcode) : option (M unit) :=
  match op with
  | WASM_OPCODE_F32_ADD => Some (BINOP_FLOAT F32 (f_add F32))
  | WASM_OPCODE_F32_SUB => Some (BINOP_FLOAT F32 (f_sub F32))
  | WASM_OPCODE_F32_MUL => Some (BINOP_FLOAT F32 (f_mul F32))
  | WASM_OPCODE_F32_DIV => Some (BINOP_FLOAT_DIV F32)
  | WASM_OPCODE_F32_MIN => Some (MINMAX_FLOAT F32 MIN)
  | WASM_OPCODE_F32_MAX => Some (MINMAX_FLOAT F32 MAX)
  | WASM_OPCODE_F32_ABS => Some (UPDATE_TOP F32 (fun b => Z.land b (u32 (Z.lnot (SIGN_MASK F32)))))
  | WASM_OPCODE_F32_NEG => Some (UPDATE_TOP F32 (fun b => Z.lxor b (SIGN_MASK F32)))
  | WASM_OPCODE_F32_COPYSIGN => Some (COPYSIGN F32)
  | WASM_OPCODE_F32_CEIL => Some (UNOP_FLOAT F32 (SFrint fmt32 Rceil))
  | WASM_OPCODE_F32_FLOOR => Some (UNOP_FLOAT F32 (SFrint fmt32 Rfloor))
  | WASM_OPCODE_F32_TRUNC => Some (UNOP_FLOAT F32 (SFrint fmt32 Rtrunc))
  | WASM_OPCODE_F32_NEAREST => Some (UNOP_FLOAT F32 (SFrint fmt32 Rnearest))
  | WASM_OPCODE_F32_SQRT => Some (UNOP_FLOAT F32 (SFsqrt (ff_prec fmt32) (ff_emax fmt32)))
  | WASM_OPCODE_F32_EQ => Some (BINOP_FLOAT_COMPARE F32 f_eq)
  | WASM_OPCODE_F32_NE => Some (BINOP_FLOAT_COMPARE F32 f_ne)
  | WASM_OPCODE_F32_LT => Some (BINOP_FLOAT_COMPARE F32 f_lt)
  | WASM_OPCODE_F32_LE => Some (BINOP_FLOAT_COMPARE F32 f_le)
  | WASM_OPCODE_F32_GT => Some (BINOP_FLOAT_COMPARE F32 f_gt)
  | WASM_OPCODE_F32_GE => Some (BINOP_FLOAT_COMPARE F32 f_ge)
  | _ => None
  end.

Definition step_f64 (op : WasmOpcode) : option (M unit) :=
  match op with
  | WASM_OPCODE_F64_ADD => Some (BINOP_FLOAT F64 (f_add F64))
  | WASM_OPCODE_F64_SUB => Some (BINOP_FLOAT F64 (f_sub F64))
  | WASM_OPCODE_F64_MUL => Some (BINOP_FLOAT F64 (f_mul F64))
  | WASM_OPCODE_F64_DIV => Some (BINOP_FLOAT_DIV F64)
  | WASM_OPCODE_F64_MIN => Some (MINMAX_FLOAT F64 MIN)
  | WASM_OPCODE_F64_MAX => Some (MINMAX_FLOAT F64 MAX)
  | WASM_OPCODE_F64_ABS => Some (UPDATE_TOP F64 (fun b => Z.land b (u64 (Z.lnot (SIGN_MASK F64)))))
  | WASM_OPCODE_F64_NEG => Some (UPDATE_TOP F64 (fun b => Z.lxor b (SIGN_MASK F64)))
  | WASM_OPCODE_F64_COPYSIGN => Some (COPYSIGN F64)
  | WASM_OPCODE_F64_CEIL => Some (UNOP_FLOAT F64 (SFrint fmt64 Rceil))
  | WASM_OPCODE_F64_FLOOR => Some (UNOP_FLOAT F64 (SFrint fmt64 Rfloor))
  | WASM_OPCODE_F64_TRUNC => Some (UNOP_FLOAT F64 (SFrint fmt64 Rtrunc))
  | WASM_OPCODE_F64_NEAREST => Some (UNOP_FLOAT F64 (SFrint fmt64 Rnearest))
  | WASM_OPCODE_F64_SQRT => Some (UNOP_FLOAT F64 (SFsqrt (ff_prec fmt64) (ff_emax fmt64)))
  | WASM_OPCODE_F64_EQ => Some (BINOP_FLOAT_COMPARE F64 f_eq)
  | WASM_OPCODE_F64_NE => Some (BINOP_FLOAT_COMPARE F64 f_ne)
  | WASM_OPCODE_F64_LT => Some (BINOP_FLOAT_COMPARE F64 f_lt)
  | WASM_OPCODE_F64_LE => Some (BINOP_FLOAT_COMPARE F64 f_le)
  | WASM_OPCODE_F64_GT => Some (BINOP_FLOAT_COMPARE F64 f_gt)
  | WASM_OPCODE_F64_GE => Some (BINOP_FLOAT_COMPARE F64 f_ge)
  | _ => None
  end.

Definition step_convert (op : WasmOpcode) : option (M unit) :=
  match op with
  | WASM_OPCODE_I32_TRUNC_S_F32 => Some (UNOP_TRAP I32 F32 i32_trunc_s_f32)
  | WASM_OPCODE_I32_TRUNC_S_F64 => Some (UNOP_TRAP I32 F64 i32_trunc_s_f64)
  | WASM_OPCODE_I32_TRUNC_U_F32 => Some (UNOP_TRAP I32 F32 i32_trunc_u_f32)
  | WASM_OPCODE_I32_TRUNC_U_F64 => Some (UNOP_TRAP I32 F64 i32_trunc_u_f64)
  | WASM_OPCODE_I32_WRAP_I64 => Some (UNOP I32 I64 u32)
  | WASM_OPCODE_I64_TRUNC_S_F32 => Some (UNOP_TRAP I64 F32 i64_trunc_s_f32)
  | WASM_OPCODE_I64_TRUNC_S_F64 => Some (UNOP_TRAP I64 F64 i64_trunc_s_f64)
  | WASM_OPCODE_I64_TRUNC_U_F32 => Some (UNOP_TRAP I64 F32 i64_trunc_u_f32)
  | WASM_OPCODE_I64_TRUNC_U_F64 => Some (UNOP_TRAP I64 F64 i64_trunc_u_f64)
  | WASM_OPCODE_I64_EXTEND_S_I32 => Some (UNOP I64 I32 (to_signed 32))
  | WASM_OPCODE_I64_EXTEND_U_I32 => Some (UNOP I64 I32 (fun v => v))
  | WASM_OPCODE_F32_CONVERT_S_I32 => Some (UNOP F32 I32 (fun v => convert_op F32 (to_signed 32 v)))
  | WASM_OPCODE_F32_CONVERT_U_I32 => Some (UNOP F32 I32 (convert_op F32))
  | WASM_OPCODE_F32_CONVERT_S_I64 => Some (UNOP F32 I64 (fun v => convert_op F32 (to_signed 64 v)))
  | WASM_OPCODE_F32_CONVERT_U_I64 => Some (UNOP F32 I64 (convert_op F32))
  | WASM_OPCODE_F32_DEMOTE_F64 => Some (UNOP F32 F64 f32_demote_f64)
  | _ => None
  end.

Definition step_reinterpret (op : WasmOpcode) : option (M unit) :=
  match op with
  | WASM_OPCODE_F32_REINTERPRET_I32 => Some (UNOP F32 I32 (fun v => v))
  | WASM_OPCODE_F64_CONVERT_S_I32 => Some (UNOP F64 I32 (fun v => convert_op F64 (to_signed 32 v)))
  | WASM_OPCODE_F64_CONVERT_U_I32 => Some (UNOP F64 I32 (convert_op F64))
  | WASM_OPCODE_F64_CONVERT_S_I64 => Some (UNOP F64 I64 (fun v => convert_op F64 (to_signed 64 v)))
  | WASM_OPCODE_F64_CONVERT_U_I64 => Some (UNOP F64 I64 (convert_op F64))
  | WASM_OPCODE_F64_PROMOTE_F32 => Some (UNOP F64 F32 f64_promote_f32)
  | WASM_OPCODE_F64_REINTERPRET_I64 => Some (UNOP F64 I64 (fun v => v))
  | WASM_OPCODE_I32_REINTERPRET_F32 => Some (UNOP I32 F32 (fun v => v))
  | WASM_OPCODE_I64_REINTERPRET_F64 => Some (UNOP I64 F64 (fun v => v))
  | WASM_OPCODE_I32_ROTR => Some (BINOP_ROT I32 RIGHT)
  | WASM_OPCODE_I32_ROTL => Some (BINOP_ROT I32 LEFT)
  | WASM_OPCODE_I64_ROTR => Some (BINOP_ROT I64 RIGHT)
  | WASM_OPCODE_I64_ROTL => Some (BINOP_ROT I64 LEFT)
  | WASM_OPCODE_I64_EQZ => Some (UNOP I64 I64 (fun v => b2z (v =? 0)))
  | _ => None
  end.
(** [DROP], [NOP] and the interpreter's own opcodes; [DATA] asserts. *)
Definition step_misc (op : InterpOpcode) : option (M unit) :=
  match op with
  | WASM_OPCODE_ALLOCA => Some op_alloca
  | WASM_OPCODE_BR_UNLESS => Some op_br_unless
  | WASM_OPCODE_CALL_HOST => Some op_call_host
  | WasmOp WASM_OPCODE_DROP => Some (v <- POP;; ret tt)
  | WASM_OPCODE_DROP_KEEP => Some op_drop_keep
  | WASM_OPCODE_DATA => Some undef
  | WasmOp WASM_OPCODE_NOP => Some (ret tt)
  | _ => None
  end.

(** The first group that has the opcode; [default] asserts. *)
Fixpoint switch (groups : list (option (M unit))) : M unit :=
  match groups with
  | [] => undef
  | Some m :: _ => m
  | None :: groups' => switch groups'
  end.

Definition dispatch (call_stack_return_top : Z) (op : InterpOpcode) : M unit :=
  switch
    (match op with
     | WasmOp o =>
         [step_control call_stack_return_top o; step_load o; step_store o;
          step_memory o; step_i32 o; step_i64 o; step_f32 o; step_f64 o;
          step_convert o; step_reinterpret o]
     | _ => []
     end ++ [step_misc op]).

(** One iteration of the loop. *)
Definition step (call_stack_return_top : Z) : M unit :=
  opcode <- read_u8;;
  match interp_opcode_of_code opcode with
  | Some op => dispatch call_stack_return_top op
  | None => undef
  end.

Fixpoint run_loop (num_instructions : nat) (call_stack_return_top : Z) : M unit :=
  match num_instructions with
  | O => ret tt
  | S n => step call_stack_return_top;; run_loop n call_stack_return_top
  end.

(** [None] is undefined behaviour.  At [exit_loop], which is reached when the
    count runs out and by [RETURN] with the result [RETURNED], the pc is
    stored in the thread; a trap returns and leaves the thread's old pc. *)
Definition wasm_run_interpreter (env : Env) (thread : Thread) (num_instructions : nat)
    (call_stack_return_top : Z) : option (WasmInterpreterResult * Env * Thread) :=
  if negb (call_stack_return_top <? Z.of_nat (length (call_stack (thread_stacks thread))))
  then None
  else
    match run_loop num_instructions call_stack_return_top
            (mkState env (thread_stacks thread) (thread_pc thread)) with
    | Done _ st =>
        Some (WASM_INTERPRETER_OK, st_env st, mkThread (st_thread st) (st_pc st))
    | Exit r st =>
        Some (r, st_env st,
              mkThread (st_thread st)
                (if bool_decide (r = WASM_INTERPRETER_RETURNED) then st_pc st
                 else thread_pc thread))
    | Undef => None
    end.
End instructions.

(** ** Threads *)

Record ThreadOptions : Set := mkThreadOptions {
  value_stack_size : Z;
  call_stack_size : Z;
  options_pc : Z
}.

Definition wasm_init_interpreter_thread (options : ThreadOptions) : Thread :=
  mkThread (mkStacks (replicate (Z.to_nat (value_stack_size options)) 0) 0
                     (replicate (Z.to_nat (call_stack_size options)) 0) 0)
           (options_pc options).

(** [None]: the top is not inside the array. *)
Definition wasm_push_thread_value (thread : Thread) (value : Z)
    : option (WasmInterpreterResult * Thread) :=
  let t := thread_stacks thread in
  if Z.of_nat (length (value_stack t)) <=? value_stack_top t
  then Some (WASM_INTERPRETER_TRAP_VALUE_STACK_EXHAUSTED, thread)
  else match zset (value_stack t) (value_stack_top t) value with
       | Some vs =>
           Some (WASM_INTERPRETER_OK,
                 mkThread (with_value_stack t vs (value_stack_top t + 1)) (thread_pc thread))
       | None => None
       end.
