(* ===== verification/InterpFacts.v ===== *)
(** * The interpreter keeps its machine well formed

    A small program logic for the instruction monad, and the invariant of the
    interpreter: the two stacks stay inside their arrays, every slot, byte and
    global is a machine integer, each memory's data, byte size and page count
    agree, and the read-only parts of the environment (signatures, functions,
    tables, the instruction stream, the types of the globals) never change. *)

From S2P Require Import Prelude Opcode Float Numeric Interp.
#[local] Open Scope interp_scope.

(** ** The invariant *)

Record mem_ok (m : Memory) : Prop := {
  mem_length : Z.of_nat (length (mem_data m)) = mem_byte_size m;
  mem_pages : mem_byte_size m = lim_initial (mem_page_limits m) * WASM_PAGE_SIZE;
  mem_u32 : in_u 32 (mem_byte_size m);
  mem_bytes : bytes_ok (mem_data m);
  mem_max : lim_has_max (mem_page_limits m) = true ->
            lim_initial (mem_page_limits m) <= lim_max (mem_page_limits m)
}.

(** A host function answers machine integers. *)
Definition func_ok (f : Func) : Prop :=
  match func_body f with
  | HostFunc _ _ callback =>
      forall sig args, Forall (fun r => in_u 64 (tv_value r)) (snd (callback sig args))
  | DefinedFunc _ _ _ _ => True
  end.

Definition global_ok (g : Global) : Prop := in_u 64 (tv_value (gl_typed_value g)).

(** The declaration of a global: everything but its value. *)
Definition global_decl (g : Global) : WasmType * bool * Z :=
  (tv_type (gl_typed_value g), gl_mutable g, gl_import_index g).

(** The maximum of a memory is part of its type. *)
Definition mem_decl (m : Memory) : Z * bool :=
  (lim_max (mem_page_limits m), lim_has_max (mem_page_limits m)).

Record env_ok (e : Env) : Prop := {
  env_istream : bytes_ok (istream e);
  env_funcs : Forall func_ok (funcs e);
  env_memories : Forall mem_ok (memories e);
  env_globals : Forall global_ok (globals e)
}.

(** What no instruction changes. *)
Record same_decls (e0 e : Env) : Prop := {
  same_sigs : sigs e = sigs e0;
  same_funcs : funcs e = funcs e0;
  same_tables : tables e = tables e0;
  same_istream : istream e = istream e0;
  same_globals : global_decl <$> globals e = global_decl <$> globals e0;
  same_memories : mem_decl <$> memories e = mem_decl <$> memories e0
}.

(** [top] is [True] after a step and [False] after a trap: [ALLOCA] moves the
    top of the stack before it finds that there is no room. *)
Record thread_ok (top : bool) (t0 t : Stacks) : Prop := {
  vs_length : length (value_stack t) = length (value_stack t0);
  vs_slots : Forall (in_u 64) (value_stack t);
  vs_top_0 : 0 <= value_stack_top t;
  vs_top : top = true -> value_stack_top t <= Z.of_nat (length (value_stack t));
  cs_length : length (call_stack t) = length (call_stack t0);
  cs_slots : Forall (in_u 32) (call_stack t);
  cs_top : 0 <= call_stack_top t <= Z.of_nat (length (call_stack t))
}.

Record state_ok (top : bool) (st0 st : State) : Prop := {
  ok_env : env_ok (st_env st);
  ok_decls : same_decls (st_env st0) (st_env st);
  ok_thread : thread_ok top (st_thread st0) (st_thread st)
}.

Lemma thread_ok_weaken b t0 t : thread_ok true t0 t -> thread_ok b t0 t.
Proof. intros []. constructor; auto. Qed.

Lemma state_ok_weaken b st0 st : state_ok true st0 st -> state_ok b st0 st.
Proof. intros []. constructor; eauto using thread_ok_weaken. Qed.

Lemma same_decls_refl e : same_decls e e.
Proof. by constructor. Qed.

(** ** Triples *)

(** [m] keeps the invariant relative to [st0], up to [b] of the result when it
    leaves the loop, which is never with [OK]; what it returns satisfies [Q]. *)
Definition keeps {A} (b : WasmInterpreterResult -> bool) (st0 : State) (m : M A) (Q : A -> Prop) : Prop :=
  forall st, state_ok true st0 st ->
    match m st with
    | Done a st' => state_ok true st0 st' /\ Q a
    | Exit r st' => state_ok (b r) st0 st' /\ r <> WASM_INTERPRETER_OK
    | Undef => True
    end.

Abbreviation anything := (fun _ => True).

Section triples.
Context (b : WasmInterpreterResult -> bool) (st0 : State).

Lemma keeps_bind {A B} (m : M A) (k : A -> M B) Q R :
  keeps b st0 m Q -> (forall a, Q a -> keeps b st0 (k a) R) -> keeps b st0 (bind m k) R.
Proof.
  intros Hm Hk st Hst. unfold bind. specialize (Hm st Hst).
  destruct (m st) as [a st'| |]; [|done|done]. destruct Hm. by apply Hk.
Qed.

Lemma keeps_weaken {A} (m : M A) (Q R : A -> Prop) :
  keeps b st0 m Q -> (forall a, Q a -> R a) -> keeps b st0 m R.
Proof. intros Hm HQ st Hst. specialize (Hm st Hst).
  destruct (m st) as [a st'| |]; [|done|done]. destruct Hm. auto. Qed.

Lemma keeps_ret {A} (a : A) (Q : A -> Prop) : Q a -> keeps b st0 (ret a) Q.
Proof. by intros ? st ?. Qed.

Lemma keeps_undef {A} (Q : A -> Prop) : keeps b st0 undef Q.
Proof. by intros st ?. Qed.

Lemma keeps_TRAP {A} r (Q : A -> Prop) : r <> WASM_INTERPRETER_OK -> keeps b st0 (TRAP r) Q.
Proof. intros ? st ?. split; [by eapply state_ok_weaken|done]. Qed.

Lemma keeps_TRAP_IF c r : r <> WASM_INTERPRETER_OK ->
  keeps b st0 (TRAP_IF c r) (fun _ => c = false).
Proof. intros ?. unfold TRAP_IF. destruct c; [by apply keeps_TRAP|by apply keeps_ret]. Qed.

Lemma keeps_assert c : keeps b st0 (c_assert c) (fun _ => c = true).
Proof. unfold c_assert. destruct c; [by apply keeps_ret|apply keeps_undef]. Qed.

Lemma keeps_some {A} (o : option A) : keeps b st0 (some_or_undef o) (fun a => o = Some a).
Proof. destruct o; [by apply keeps_ret|apply keeps_undef]. Qed.

Lemma keeps_get : keeps b st0 get (state_ok true st0).
Proof. by intros st ?. Qed.

Lemma keeps_set_pc pc : keeps b st0 (set_pc pc) anything.
Proof. intros st []. by split; [constructor|]. Qed.

Lemma keeps_set_thread t : thread_ok true (st_thread st0) t -> keeps b st0 (set_thread t) anything.
Proof. intros Ht st []. by split; [constructor|]. Qed.

Lemma keeps_set_env e : env_ok e -> same_decls (st_env st0) e -> keeps b st0 (set_env e) anything.
Proof. intros He Hs st []. by split; [constructor|]. Qed.

Lemma keeps_get_env : keeps b st0 get_env (fun e => env_ok e /\ same_decls (st_env st0) e).
Proof. by intros st []. Qed.

Lemma keeps_get_thread : keeps b st0 get_thread (thread_ok true (st_thread st0)).
Proof. by intros st []. Qed.
End triples.

Create HintDb keeps.
#[export] Hint Resolve keeps_undef keeps_TRAP keeps_TRAP_IF keeps_assert keeps_some keeps_get
  keeps_set_pc keeps_get_env keeps_get_thread : keeps.
#[export] Hint Extern 1 (_ <> WASM_INTERPRETER_OK) => discriminate : keeps.

(** One bind: the first computation by a lemma of the database. *)
Ltac keeps_bind :=
  lazymatch goal with
  | |- keeps _ _ (bind _ _) _ =>
      eapply keeps_bind; [solve [eauto with keeps] | cbn beta; intros ? ?]
  end.
Ltac keeps_go := repeat keeps_bind; eauto with keeps.

(** ** Threads *)

Section threads.
Context (t0 : Stacks).

Lemma thread_set_top t top :
  thread_ok true t0 t -> 0 <= top <= Z.of_nat (length (value_stack t)) ->
  thread_ok true t0 (with_value_stack t (value_stack t) top).
Proof. intros [] ?. constructor; cbn; try done; lia. Qed.

Lemma thread_set_stack t vs top :
  thread_ok true t0 t -> length vs = length (value_stack t) -> Forall (in_u 64) vs ->
  0 <= top <= Z.of_nat (length (value_stack t)) ->
  thread_ok true t0 (with_value_stack t vs top).
Proof. intros [] El ? ?. constructor; cbn; try done; rewrite ?El; lia. Qed.

Lemma thread_set_call t cs top :
  thread_ok true t0 t -> length cs = length (call_stack t) -> Forall (in_u 32) cs ->
  0 <= top <= Z.of_nat (length (call_stack t)) ->
  thread_ok true t0 (with_call_stack t cs top).
Proof. intros [] El ? ?. constructor; cbn; try done; rewrite ?El; lia. Qed.

Lemma thread_slot t i v : thread_ok true t0 t -> zget (value_stack t) i = Some v -> in_u 64 v.
Proof. intros [] [_ Hl]%zget_Some. by eapply Forall_lookup_1 in Hl. Qed.
End threads.

Lemma Forall_zset {A} (P : A -> Prop) l i x l' :
  Forall P l -> P x -> zset l i x = Some l' -> Forall P l'.
Proof. intros Hl Hx [_ ->]%zset_inv. by apply Forall_insert. Qed.

Lemma Forall_zget {A} (P : A -> Prop) l i x : Forall P l -> zget l i = Some x -> P x.
Proof. intros Hl [_ Hi]%zget_Some. by eapply Forall_lookup_1 in Hi. Qed.

Lemma Forall_zblit {A} (P : A -> Prop) l i bs l' :
  Forall P l -> Forall P bs -> zblit l i bs = Some l' -> Forall P l'.
Proof.
  intros Hl Hb (_ & _ & ->)%zblit_inv.
  repeat (apply Forall_app_2 || apply Forall_take || apply Forall_drop || done).
Qed.

Lemma Forall_zslice {A} (P : A -> Prop) l i n bs : Forall P l -> zslice l i n = Some bs -> Forall P bs.
Proof. intros Hl (_ & _ & _ & ->)%zslice_inv. auto using Forall_take, Forall_drop. Qed.

Lemma set_field_u64 t old v : in_u 64 old -> in_u 64 (set_field t old v).
Proof.
  unfold in_u, set_field, wrap. intros Ho. destruct t; try (apply Z.mod_pos_bound; lia).
  all: assert (0 <= v mod 2 ^ 32 < 2 ^ 32) by (apply Z.mod_pos_bound; lia);
    rewrite Z.shiftl_mul_pow2, Z.shiftr_div_pow2, lor_shiftl_add by lia; zpow; dlia.
Qed.

Lemma get_field_u t v : in_u (VALUE_TYPE t) (get_field t v).
Proof. apply wrap_in_u. by destruct t. Qed.

(** Reading back a field that was written. *)
Lemma get_set_field t old v : get_field t (set_field t old v) = wrap (VALUE_TYPE t) v.
Proof.
  unfold get_field, set_field. destruct t; cbn [VALUE_TYPE]; try by apply wrap_idemp.
  all: assert (0 <= u32 v < 2 ^ 32) by (apply wrap_in_u; lia);
    rewrite Z.shiftl_mul_pow2, lor_shiftl_add by lia;
    rewrite <- (wrap_idemp 32 v) at 2 by lia; rewrite Z.add_comm; by eapply wrap_eq_add.
Qed.

#[export] Hint Resolve set_field_u64 get_field_u : keeps.

(** ** The stack macros *)

Section macros.
Context (b : WasmInterpreterResult -> bool) (st0 : State).

Lemma keeps_read_u8 : keeps b st0 read_u8 (in_u 8).
Proof.
  unfold read_u8. keeps_bind. keeps_bind. keeps_bind. apply keeps_ret.
  destruct H as [[] _ _]. by eapply Forall_zget.
Qed.

Lemma read_le_u e pc n v : env_ok e -> of_le <$> zslice (istream e) pc (Z.of_nat n) = Some v ->
  in_u (8 * Z.of_nat n) v.
Proof.
  intros [] (bs & Hs & ->)%fmap_Some. rewrite <- (zslice_length _ _ _ _ Hs).
  apply of_le_bound. by eapply Forall_zslice.
Qed.

Lemma keeps_read_u32 : keeps b st0 read_u32 (in_u 32).
Proof.
  unfold read_u32. keeps_bind. keeps_bind. keeps_bind. apply keeps_ret.
  destruct H as [? _ _]. by apply (read_le_u (st_env a) (st_pc a) 4).
Qed.

Lemma keeps_read_u64 : keeps b st0 read_u64 (in_u 64).
Proof.
  unfold read_u64. keeps_bind. keeps_bind. keeps_bind. apply keeps_ret.
  destruct H as [? _ _]. by apply (read_le_u (st_env a) (st_pc a) 8).
Qed.

Lemma keeps_CHECK_STACK : keeps b st0 CHECK_STACK anything.
Proof. unfold CHECK_STACK. keeps_bind. eapply keeps_weaken; eauto with keeps. Qed.
#[local] Hint Resolve keeps_CHECK_STACK : keeps.

Lemma keeps_PUSH v : in_u 64 v -> keeps b st0 (PUSH v) anything.
Proof.
  intros Hv. unfold PUSH. do 3 keeps_bind. apply keeps_set_thread.
  pose proof (zset_length _ _ _ _ H1) as El. pose proof (zset_inv _ _ _ _ H1) as [? _].
  apply thread_set_stack; [done|done| |lia]. destruct H0. by eapply Forall_zset.
Qed.

Lemma keeps_PUSH_TYPE t v : keeps b st0 (PUSH_TYPE t v) anything.
Proof.
  unfold PUSH_TYPE. do 4 keeps_bind. apply keeps_set_thread.
  pose proof (zset_length _ _ _ _ H2) as El. pose proof (zset_inv _ _ _ _ H2) as [? _].
  apply thread_set_stack; [done|done| |lia].
  destruct H0. eapply Forall_zset; [done| |done]. apply set_field_u64. by eapply Forall_zget.
Qed.

Lemma keeps_PICK d : keeps b st0 (PICK d) (in_u 64).
Proof.
  unfold PICK. keeps_bind. eapply keeps_weaken; [apply keeps_some|].
  cbn beta. intros v Hv. by eapply (thread_slot _ a).
Qed.

Lemma keeps_SET_PICK d v : in_u 64 v -> keeps b st0 (SET_PICK d v) anything.
Proof.
  intros Hv. unfold SET_PICK. do 2 keeps_bind. apply keeps_set_thread.
  pose proof (zset_length _ _ _ _ H0) as El. destruct H.
  apply thread_set_stack; [by constructor|done|by eapply Forall_zset|]. lia || (split; auto).
Qed.

Lemma keeps_TOP : keeps b st0 TOP (in_u 64).
Proof. apply keeps_PICK. Qed.

Lemma keeps_POP : keeps b st0 POP (in_u 64).
Proof.
  unfold POP. do 2 keeps_bind. eapply keeps_bind.
  - apply keeps_set_thread. apply zget_lt in H0. pose proof (vs_top _ _ _ H eq_refl).
    apply thread_set_top; [done|lia].
  - intros _ _. apply keeps_ret. by eapply thread_slot.
Qed.
#[local] Hint Resolve keeps_POP keeps_TOP keeps_SET_PICK : keeps.

Lemma keeps_POP_TYPE t : keeps b st0 (POP_TYPE t) (in_u (VALUE_TYPE t)).
Proof. unfold POP_TYPE. keeps_bind. apply keeps_ret, get_field_u. Qed.

Lemma keeps_DROP d : 0 <= d -> keeps b st0 (DROP d) anything.
Proof.
  intros Hd. unfold DROP. do 2 keeps_bind. apply keeps_set_thread.
  apply Z.leb_le in H0. pose proof (vs_top _ _ _ H eq_refl).
  apply thread_set_top; [done|lia].
Qed.

Lemma keeps_DROP_KEEP d k : 0 <= d -> keeps b st0 (DROP_KEEP d k) anything.
Proof.
  intros Hd. unfold DROP_KEEP. keeps_bind. eapply keeps_bind with (Q := anything).
  - destruct (k =? 1); [|by apply keeps_ret]. keeps_bind. eauto with keeps.
  - intros _ _. by apply keeps_DROP.
Qed.

Lemma keeps_PUSH_CALL : keeps b st0 PUSH_CALL anything.
Proof.
  unfold PUSH_CALL. do 3 keeps_bind. apply keeps_set_thread.
  pose proof (zset_length _ _ _ _ H1) as El. pose proof (zset_inv _ _ _ _ H1) as [? _].
  destruct H as [_ _ Ht]. apply thread_set_call; [done|done| |lia]. destruct Ht.
  eapply Forall_zset; [done| |done]. by apply wrap_in_u.
Qed.

Lemma keeps_POP_CALL : keeps b st0 POP_CALL (in_u 32).
Proof.
  unfold POP_CALL. do 2 keeps_bind. eapply keeps_bind.
  - apply keeps_set_thread. apply zget_lt in H0. destruct H.
    apply thread_set_call; [by constructor|done|done|lia].
  - intros _ _. apply keeps_ret. destruct H. by eapply Forall_zget.
Qed.
End macros.

#[export] Hint Resolve keeps_read_u8 keeps_read_u32 keeps_read_u64 keeps_CHECK_STACK keeps_PUSH
  keeps_PUSH_TYPE keeps_PICK keeps_SET_PICK keeps_TOP keeps_POP keeps_POP_TYPE keeps_DROP
  keeps_DROP_KEEP keeps_PUSH_CALL keeps_POP_CALL : keeps.

(** ** Calls to the host *)

Section host.
Context (b : WasmInterpreterResult -> bool) (st0 : State).

Lemma keeps_pop_args types args : keeps b st0 (pop_args types args) anything.
Proof.
  revert args. induction types as [|ty types IH]; intros args; cbn [pop_args].
  - by apply keeps_ret.
  - keeps_bind. apply IH.
Qed.

Lemma keeps_push_results types results :
  Forall (fun r => in_u 64 (tv_value r)) results -> keeps b st0 (push_results types results) anything.
Proof.
  intros Hr. revert results Hr. induction types as [|ty types IH]; intros results Hr; cbn [push_results].
  - by apply keeps_ret.
  - destruct Hr as [|r results ? ?]; [apply keeps_undef|]. do 2 keeps_bind. by apply IH.
Qed.

Lemma keeps_call_host_body f : func_ok f -> keeps b st0 (call_host_body f) anything.
Proof.
  intros Hf. unfold call_host_body. keeps_bind. unfold func_ok in Hf.
  destruct (func_body f) as [|mn fn callback]; [apply keeps_undef|].
  keeps_bind. eapply keeps_bind; [apply keeps_pop_args|]. intros args _.
  specialize (Hf a0 args). destruct (callback a0 args) as [r results].
  keeps_bind. by apply keeps_push_results.
Qed.
End host.

(** A trap inside [wasm_call_host] is its result: the caller goes on. *)
Lemma keeps_wasm_call_host b st0 f : func_ok f -> keeps b st0 (wasm_call_host f) anything.
Proof.
  intros Hf st Hst. unfold wasm_call_host.
  pose proof (keeps_call_host_body (fun _ => true) st0 f Hf st Hst) as H.
  destruct (call_host_body f st); [by destruct H|by destruct H|done].
Qed.

(** ** Linear memory *)

Lemma zero_fill_length data i n data' : 0 <= n -> zero_fill data i n = Some data' ->
  length data' = length data /\ i + n <= Z.of_nat (length data).
Proof.
  unfold zero_fill. intros Hn. destruct (Z.leb_spec (i + n) (Z.of_nat (length data))); [|done].
  intros Hb. split; [by eapply zblit_length|done].
Qed.

Lemma zero_fill_ok data i n data' : bytes_ok data -> zero_fill data i n = Some data' -> bytes_ok data'.
Proof.
  unfold zero_fill. intros Hd. destruct (_ <=? _); [|done]. intros Hb.
  eapply Forall_zblit; [done| |done]. apply Forall_replicate. by apply in_u_0.
Qed.

Lemma realloc_data_length fill data n : 0 <= n -> Z.of_nat (length (realloc_data fill data n)) = n.
Proof.
  intros Hn. unfold realloc_data. rewrite length_app, length_take, length_replicate. lia.
Qed.

Lemma realloc_data_ok fill data n : in_u 8 fill -> bytes_ok data -> bytes_ok (realloc_data fill data n).
Proof.
  intros Hf Hd. apply Forall_app_2; [by apply Forall_take|]. by apply Forall_replicate.
Qed.

Lemma wrap_le w x : 0 <= w -> 0 <= x -> wrap w x <= x.
Proof. intros. unfold wrap. apply Z.mod_le; lia. Qed.

Section memory.
Context (b : WasmInterpreterResult -> bool) (st0 : State).

(** The memory at an index: well formed, with the maximum it always had. *)
Definition mem_at (i : Z) (m : Memory) : Prop :=
  mem_ok m /\ zget (mem_decl <$> memories (st_env st0)) i = Some (mem_decl m).

Lemma keeps_GET_MEMORY : keeps b st0 GET_MEMORY (fun im => mem_at (fst im) (snd im)).
Proof.
  unfold GET_MEMORY. do 3 keeps_bind. apply keeps_ret. cbn [fst snd].
  destruct H0 as [He Hs]. split.
  - destruct He. by eapply Forall_zget.
  - rewrite <- (same_memories _ _ Hs). apply zget_Some in H1 as [? Hl].
    apply zget_Some. by rewrite list_lookup_fmap, Hl.
Qed.

Lemma keeps_set_memory i m : mem_at i m -> keeps b st0 (set_memory i m) anything.
Proof.
  intros [Hm Hd]. unfold set_memory. do 2 keeps_bind. destruct H as [[] []].
  apply keeps_set_env; [constructor|constructor]; cbn; try done.
  - by eapply Forall_zset.
  - apply zset_inv in H0 as [? ->]. rewrite list_fmap_insert, same_memories0.
    apply list_insert_id. apply zget_Some in Hd. tauto.
Qed.
#[local] Hint Resolve keeps_GET_MEMORY keeps_set_memory : keeps.

Lemma keeps_LOAD t mt : keeps b st0 (LOAD t mt) anything.
Proof. unfold LOAD. do 5 keeps_bind. eauto with keeps. Qed.

Lemma mem_at_data i m data : mem_at i m -> length data = length (mem_data m) -> bytes_ok data ->
  mem_at i (mkMemory data (mem_page_limits m) (mem_byte_size m)).
Proof. intros [[] ?] El ?. split; [constructor; cbn; try done|done]. by rewrite El. Qed.

Lemma keeps_STORE t mt : keeps b st0 (STORE t mt) anything.
Proof.
  unfold STORE. do 6 keeps_bind. apply keeps_set_memory.
  pose proof (zblit_length _ _ _ _ H4) as El. destruct H as [Hm Hd].
  apply mem_at_data; [done|done|]. destruct Hm.
  eapply Forall_zblit; [done| |done]. apply le_bytes_ok.
Qed.

Lemma keeps_op_current_memory : keeps b st0 op_current_memory anything.
Proof. unfold op_current_memory. keeps_bind. eauto with keeps. Qed.

Context `{MemAllocator}.

(** The memory after a successful growth. *)
Lemma grown_mem_ok i m new data n :
  mem_at i m -> in_u 32 new ->
  new <= (if lim_has_max (mem_page_limits m) then u32 (lim_max (mem_page_limits m))
          else WASM_MAX_PAGES) ->
  new * WASM_PAGE_SIZE <= UINT32_MAX ->
  zero_fill (realloc_data alloc_fill (mem_data m) (new * WASM_PAGE_SIZE)) (mem_byte_size m) n
    = Some data -> 0 <= n ->
  mem_at i (mkMemory data (mkLimits new (lim_max (mem_page_limits m))
                                  (lim_has_max (mem_page_limits m))) (new * WASM_PAGE_SIZE)).
Proof.
  intros [[] Hd] Hn Hmax Hb Hz Hn0. split; [|done]. unfold in_u, WASM_PAGE_SIZE, UINT32_MAX in *.
  pose proof (zero_fill_length _ _ _ _ Hn0 Hz) as [El _].
  constructor; cbn [mem_data mem_byte_size mem_page_limits lim_initial lim_max lim_has_max].
  - rewrite El, realloc_data_length; lia.
  - done.
  - unfold in_u in *. lia.
  - eapply zero_fill_ok; [|done]. apply realloc_data_ok; [apply alloc_fill_u8|done].
  - intros Hhas. rewrite Hhas in Hmax. specialize (mem_max0 Hhas).
    pose proof (wrap_le 32 (lim_max (mem_page_limits m))). lia.
Qed.

Lemma keeps_op_grow_memory : keeps b st0 op_grow_memory anything.
Proof.
  unfold op_grow_memory. do 2 keeps_bind. cbn zeta.
  set (new := u32 (u32 _ + a0)).
  destruct (Z.ltb_spec (if lim_has_max (mem_page_limits (snd a))
    then u32 (lim_max (mem_page_limits (snd a))) else WASM_MAX_PAGES) new); [eauto with keeps|].
  assert (in_u 32 new) as Hnew by (apply wrap_in_u; lia).
  assert (u64 (new * WASM_PAGE_SIZE) = new * WASM_PAGE_SIZE) as ->
    by (apply wrap_id; unfold in_u, WASM_PAGE_SIZE in *; lia).
  destruct (Z.ltb_spec UINT32_MAX (new * WASM_PAGE_SIZE)); [eauto with keeps|].
  assert (u32 (new * WASM_PAGE_SIZE) = new * WASM_PAGE_SIZE) as ->
    by (apply wrap_id; unfold in_u, WASM_PAGE_SIZE, UINT32_MAX in *; lia).
  destruct (negb _); [eauto with keeps|]. keeps_bind.
  eapply keeps_bind; [|eauto with keeps]. apply keeps_set_memory.
  eapply grown_mem_ok; try done. by apply wrap_in_u.
Qed.
End memory.

#[export] Hint Resolve keeps_LOAD keeps_STORE keeps_op_current_memory keeps_op_grow_memory
  keeps_wasm_call_host : keeps.

(** ** The instructions *)

Section instructions.
Context `{NanBits} `{MemAllocator} (b : WasmInterpreterResult -> bool) (st0 : State).

Lemma keeps_PUSH_RESULT t r : r <> Traps WASM_INTERPRETER_OK -> keeps b st0 (PUSH_RESULT t r) anything.
Proof.
  intros Hr. destruct r; cbn [PUSH_RESULT]; eauto with keeps. apply keeps_TRAP. congruence.
Qed.
#[local] Hint Resolve keeps_PUSH_RESULT : keeps.

Lemma keeps_UNOP rt t op : keeps b st0 (UNOP rt t op) anything.
Proof. unfold UNOP. keeps_go. Qed.
Lemma keeps_UNOP_TRAP rt t op : (forall a, op a <> Traps WASM_INTERPRETER_OK) ->
  keeps b st0 (UNOP_TRAP rt t op) anything.
Proof. intros. unfold UNOP_TRAP. keeps_go. Qed.
Lemma keeps_UNOP_FLOAT t op : keeps b st0 (UNOP_FLOAT t op) anything.
Proof. unfold UNOP_FLOAT. keeps_go. Qed.
Lemma keeps_BINOP rt t op : keeps b st0 (BINOP rt t op) anything.
Proof. unfold BINOP. keeps_go. Qed.
Lemma keeps_BINOP_SIGNED rt t op : keeps b st0 (BINOP_SIGNED rt t op) anything.
Proof. unfold BINOP_SIGNED. keeps_go. Qed.
Lemma keeps_BINOP_SHIFT t op s : keeps b st0 (BINOP_SHIFT t op s) anything.
Proof. unfold BINOP_SHIFT. keeps_go. Qed.
Lemma keeps_BINOP_ROT t d : keeps b st0 (BINOP_ROT t d) anything.
Proof. unfold BINOP_ROT. keeps_go. Qed.
#[local] Hint Extern 1 (_ <> Traps WASM_INTERPRETER_OK) =>
  unfold BINOP_DIV_REM_U_op, BINOP_DIV_S_op, BINOP_REM_S_op; repeat case_match; discriminate : keeps.
Lemma keeps_BINOP_DIV_REM_U t op : keeps b st0 (BINOP_DIV_REM_U t op) anything.
Proof. unfold BINOP_DIV_REM_U. keeps_go. Qed.
Lemma keeps_BINOP_DIV_S t : keeps b st0 (BINOP_DIV_S t) anything.
Proof. unfold BINOP_DIV_S. keeps_go. Qed.
Lemma keeps_BINOP_REM_S t : keeps b st0 (BINOP_REM_S t) anything.
Proof. unfold BINOP_REM_S. keeps_go. Qed.
Lemma keeps_BINOP_FLOAT t op : keeps b st0 (BINOP_FLOAT t op) anything.
Proof. unfold BINOP_FLOAT. keeps_go. Qed.
Lemma keeps_BINOP_FLOAT_DIV t : keeps b st0 (BINOP_FLOAT_DIV t) anything.
Proof. unfold BINOP_FLOAT_DIV. keeps_go. Qed.
Lemma keeps_BINOP_FLOAT_COMPARE t op : keeps b st0 (BINOP_FLOAT_COMPARE t op) anything.
Proof. unfold BINOP_FLOAT_COMPARE. keeps_go. Qed.
Lemma keeps_MINMAX_FLOAT t op : keeps b st0 (MINMAX_FLOAT t op) anything.
Proof. unfold MINMAX_FLOAT. keeps_go. Qed.
Lemma keeps_UPDATE_TOP t op : keeps b st0 (UPDATE_TOP t op) anything.
Proof. unfold UPDATE_TOP. keeps_go. Qed.
Lemma keeps_COPYSIGN t : keeps b st0 (COPYSIGN t) anything.
Proof. unfold COPYSIGN. keeps_go. Qed.

(** *** Control *)

Lemma keeps_op_select : keeps b st0 op_select anything.
Proof. unfold op_select. do 3 keeps_bind. apply keeps_PUSH. by destruct (_ =? 0). Qed.

Lemma keeps_op_br : keeps b st0 op_br anything.
Proof. unfold op_br, GOTO. keeps_go. Qed.
Lemma keeps_op_br_if : keeps b st0 op_br_if anything.
Proof.
  unfold op_br_if, GOTO. do 2 keeps_bind.
  destruct (negb _); [eauto with keeps|by apply keeps_ret].
Qed.
Lemma keeps_op_br_unless : keeps b st0 op_br_unless anything.
Proof.
  unfold op_br_unless, GOTO. do 2 keeps_bind.
  destruct (_ =? 0); [eauto with keeps|by apply keeps_ret].
Qed.

Lemma read_table_entry_u e pc x y z : env_ok e -> read_table_entry_at e pc = Some (x, y, z) ->
  0 <= y.
Proof.
  intros He. unfold read_table_entry_at.
  destruct (read_u32_at e (pc + WASM_TABLE_ENTRY_OFFSET_OFFSET)); [|done].
  destruct (read_u32_at e (pc + WASM_TABLE_ENTRY_DROP_OFFSET)) eqn:E2; [|done].
  destruct (read_u8_at e _); [|done]. intros [= <- <- <-].
  eapply (read_le_u _ _ 4) in E2; [|done]. unfold in_u in E2. lia.
Qed.

Lemma keeps_op_br_table : keeps b st0 op_br_table anything.
Proof.
  unfold op_br_table, GOTO. do 5 keeps_bind. destruct a3 as [[x y] z].
  destruct H4 as [He _]. pose proof (read_table_entry_u _ _ _ _ _ He H5).
  eapply keeps_bind; [by apply keeps_DROP_KEEP|]. eauto with keeps.
Qed.

Lemma keeps_op_return top : keeps b st0 (op_return top) anything.
Proof.
  unfold op_return, GOTO. keeps_bind. destruct (_ =? top); [|keeps_go].
  intros st Hst. split; [|done]. apply state_ok_weaken. destruct Hst as [? ? []]. by split.
Qed.

Lemma keeps_op_get_global : keeps b st0 op_get_global anything.
Proof.
  unfold op_get_global. do 3 keeps_bind. apply keeps_PUSH.
  destruct H2 as [[] _]. by eapply (Forall_zget global_ok).
Qed.

Lemma keeps_op_set_global : keeps b st0 op_set_global anything.
Proof.
  unfold op_set_global. do 5 keeps_bind. destruct H2 as [[] []].
  apply keeps_set_env; [constructor|constructor]; cbn; try done.
  - eapply Forall_zset; [done| |done]. done.
  - rewrite <- same_globals0. apply zset_inv in H5 as [_ ->].
    rewrite list_fmap_insert. apply list_insert_id.
    apply zget_Some in H3 as [_ Hl]. by rewrite list_lookup_fmap, Hl.
Qed.

Lemma keeps_op_get_local : keeps b st0 op_get_local anything.
Proof. unfold op_get_local. keeps_go. Qed.
Lemma keeps_op_set_local : keeps b st0 op_set_local anything.
Proof. unfold op_set_local. keeps_go. Qed.
Lemma keeps_op_tee_local : keeps b st0 op_tee_local anything.
Proof. unfold op_tee_local. keeps_go. Qed.
Lemma keeps_op_call : keeps b st0 op_call anything.
Proof. unfold op_call, GOTO. keeps_go. Qed.

Lemma keeps_op_call_indirect : keeps b st0 op_call_indirect anything.
Proof.
  unfold op_call_indirect, TRAP_UNLESS, GOTO. do 12 keeps_bind. destruct H2 as [[] _].
  pose proof (Forall_zget func_ok _ _ _ ltac:(done) H10) as Hf.
  destruct (func_body _); [keeps_go|]. keeps_bind. by apply keeps_ret.
Qed.

Lemma keeps_op_call_host : keeps b st0 op_call_host anything.
Proof.
  unfold op_call_host. do 3 keeps_bind. destruct H2 as [[] _].
  pose proof (Forall_zget func_ok _ _ _ ltac:(done) H3). keeps_bind. by apply keeps_ret.
Qed.

Lemma keeps_op_drop_keep : keeps b st0 op_drop_keep anything.
Proof.
  unfold op_drop_keep. do 2 keeps_bind. apply keeps_DROP_KEEP. unfold in_u in *. lia.
Qed.
End instructions.

#[export] Hint Resolve keeps_PUSH_RESULT keeps_UNOP keeps_UNOP_TRAP keeps_UNOP_FLOAT keeps_BINOP
  keeps_BINOP_SIGNED keeps_BINOP_SHIFT keeps_BINOP_ROT keeps_BINOP_DIV_REM_U keeps_BINOP_DIV_S
  keeps_BINOP_REM_S keeps_BINOP_FLOAT keeps_BINOP_FLOAT_DIV keeps_BINOP_FLOAT_COMPARE
  keeps_MINMAX_FLOAT keeps_UPDATE_TOP keeps_COPYSIGN keeps_op_select keeps_op_br keeps_op_br_if
  keeps_op_br_unless keeps_op_br_table keeps_op_return keeps_op_get_global keeps_op_set_global
  keeps_op_get_local keeps_op_set_local keeps_op_tee_local keeps_op_call keeps_op_call_indirect
  keeps_op_call_host keeps_op_drop_keep : keeps.

(** Whether the top of the value stack is inside the array after a result. *)
Definition top_ok (r : WasmInterpreterResult) : bool :=
  negb (bool_decide (r = WASM_INTERPRETER_TRAP_VALUE_STACK_EXHAUSTED)).

Section steps.
Context `{NanBits} `{MemAllocator} (st0 : State).

(** The one instruction that may trap with the top above the array. *)
Lemma keeps_op_alloca : keeps top_ok st0 op_alloca anything.
Proof.
  unfold op_alloca. do 2 keeps_bind. unfold in_u in H2. pose proof H1 as [].
  intros st [He Hd Ht]. unfold bind at 1, set_thread at 1.
  set (t := with_value_stack a (value_stack a) (value_stack_top a + a0)).
  unfold bind at 1, CHECK_STACK, bind at 1, get_thread, bind at 1, get, ret at 1.
  cbn [st_thread]. unfold TRAP_IF.
  destruct (Z.leb_spec (Z.of_nat (length (value_stack t))) (value_stack_top t)) as [|Hlt].
  - cbn. split; [|done]. split; cbn; try done. constructor; cbn; try done; lia.
  - cbn [ret]. cbn in Hlt.
    eapply (keeps_bind top_ok st0 (some_or_undef _)); [apply keeps_some| |].
    + cbn beta. intros vs Hvs. apply keeps_set_thread.
      apply thread_set_stack; [done| | |lia].
      * by eapply zblit_length.
      * eapply Forall_zblit; [done| |done]. apply Forall_replicate. by apply in_u_0.
    + split; cbn; try done. apply thread_set_top; [done|lia].
Qed.
#[local] Hint Resolve keeps_op_alloca : keeps.

Lemma keeps_switch groups :
  Forall (fun o => forall m, o = Some m -> keeps top_ok st0 m anything) groups ->
  keeps top_ok st0 (switch groups) anything.
Proof.
  induction 1 as [|[m|] groups Hm _ IH]; cbn [switch]; eauto with keeps.
Qed.

Lemma keeps_step_control top op m : step_control top op = Some m -> keeps top_ok st0 m anything.
Proof. destruct op; cbn [step_control]; intros [= <-]; keeps_go. Qed.
Lemma keeps_step_load op m : step_load op = Some m -> keeps top_ok st0 m anything.
Proof. destruct op; cbn [step_load]; intros [= <-]; keeps_go. Qed.
Lemma keeps_step_store op m : step_store op = Some m -> keeps top_ok st0 m anything.
Proof. destruct op; cbn [step_store]; intros [= <-]; keeps_go. Qed.
Lemma keeps_step_memory op m : step_memory op = Some m -> keeps top_ok st0 m anything.
Proof. destruct op; cbn [step_memory]; intros [= <-]; keeps_go. Qed.
Lemma keeps_step_i32 op m : step_i32 op = Some m -> keeps top_ok st0 m anything.
Proof. destruct op; cbn [step_i32]; intros [= <-]; keeps_go. Qed.
Lemma keeps_step_i64 op m : step_i64 op = Some m -> keeps top_ok st0 m anything.
Proof. destruct op; cbn [step_i64]; intros [= <-]; keeps_go. Qed.
Lemma keeps_step_f32 op m : step_f32 op = Some m -> keeps top_ok st0 m anything.
Proof. destruct op; cbn [step_f32]; intros [= <-]; keeps_go. Qed.
Lemma keeps_step_f64 op m : step_f64 op = Some m -> keeps top_ok st0 m anything.
Proof. destruct op; cbn [step_f64]; intros [= <-]; keeps_go. Qed.
Lemma trunc_op_not_OK ft g lo hi w a : trunc_op ft g lo hi w a <> Traps WASM_INTERPRETER_OK.
Proof. unfold trunc_op. repeat case_match; discriminate. Qed.

Lemma keeps_step_convert op m : step_convert op = Some m -> keeps top_ok st0 m anything.
Proof.
  destruct op; cbn [step_convert]; intros [= <-]; try keeps_go;
    apply keeps_UNOP_TRAP; intros a; apply trunc_op_not_OK.
Qed.
Lemma keeps_step_reinterpret op m : step_reinterpret op = Some m -> keeps top_ok st0 m anything.
Proof. destruct op; cbn [step_reinterpret]; intros [= <-]; keeps_go. Qed.
Lemma keeps_step_misc op m : step_misc op = Some m -> keeps top_ok st0 m anything.
Proof.
  destruct op as [o| | | | |]; [destruct o|..]; cbn [step_misc]; intros [= <-];
    keeps_go; by apply keeps_ret.
Qed.

Lemma keeps_dispatch top op : keeps top_ok st0 (dispatch top op) anything.
Proof.
  apply keeps_switch. apply Forall_app_2.
  - destruct op; repeat constructor;
      eauto using keeps_step_control, keeps_step_load, keeps_step_store, keeps_step_memory,
        keeps_step_i32, keeps_step_i64, keeps_step_f32, keeps_step_f64, keeps_step_convert,
        keeps_step_reinterpret.
  - repeat constructor. eauto using keeps_step_misc.
Qed.

Lemma keeps_step top : keeps top_ok st0 (step top) anything.
Proof.
  unfold step. keeps_bind. destruct (interp_opcode_of_code a); eauto using keeps_dispatch with keeps.
Qed.

Lemma keeps_run_loop n top : keeps top_ok st0 (run_loop n top) anything.
Proof.
  induction n as [|n IH]; cbn [run_loop]; [by apply keeps_ret|].
  eapply keeps_bind; [apply keeps_step|done].
Qed.
End steps.

(** A well-formed thread, and a thread that a run may leave behind. *)
Definition thread_wf (t : Thread) : Prop := thread_ok true (thread_stacks t) (thread_stacks t).

(** The loop from a well-formed machine. *)
Lemma run_loop_ok `{NanBits} `{MemAllocator} env t pc n top :
  env_ok env -> thread_ok true t t ->
  match run_loop n top (mkState env t pc) with
  | Done _ st => env_ok (st_env st) /\ same_decls env (st_env st) /\ thread_ok true t (st_thread st)
  | Exit r st => env_ok (st_env st) /\ same_decls env (st_env st) /\
                 thread_ok (top_ok r) t (st_thread st) /\ r <> WASM_INTERPRETER_OK
  | Undef => True
  end.
Proof.
  intros He Ht. set (st0 := mkState env t pc).
  assert (state_ok true st0 st0) as Hst by (constructor; cbn; auto using same_decls_refl).
  pose proof (keeps_run_loop st0 n top st0 Hst) as Hr.
  destruct (run_loop n top st0) as [[] st|r st|]; [| |done]; destruct Hr as [[] ?]; auto.
Qed.

Lemma run_loop_add `{NanBits} `{MemAllocator} n m top st :
  run_loop (n + m) top st = bind (run_loop n top) (fun _ => run_loop m top) st.
Proof.
  revert st. induction n as [|n IH]; intros st; [done|]. cbn [run_loop Nat.add].
  unfold bind. destruct (step top st); [|done|done]. by rewrite IH.
Qed.

Lemma thread_ok_refl t0 t : thread_ok true t0 t -> thread_ok true t t.
Proof. intros []. by constructor. Qed.

(** What an observer sees of a run: the pc of a thread that trapped is not
    meaningful, it is where the last call of the interpreter began. *)
Definition observed (r : option (WasmInterpreterResult * Env * Thread))
    : option (WasmInterpreterResult * Env * Stacks * option Z) :=
  match r with
  | Some (r, env, t) =>
      Some (r, env, thread_stacks t,
            if bool_decide (r = WASM_INTERPRETER_OK \/ r = WASM_INTERPRETER_RETURNED)
            then Some (thread_pc t) else None)
  | None => None
  end.

(** Running keeps the machine well formed.  Run from a well-formed machine for
    any number of instructions, with whatever result - undefined behaviour is
    none - it leaves a well-formed machine: both stack pointers are inside their arrays (except that the value
    stack pointer may be past the end in the trap that reports just that),
    slots, memory bytes and globals are machine integers, each memory's data,
    size and page count agree and respect its maximum; and the signatures,
    functions, tables, instruction stream and the types of memories and
    globals are the ones it started with. *)
Theorem run_interpreter_safe `{NanBits} `{MemAllocator} env thread n top r env' thread' :
  env_ok env -> thread_wf thread ->
  wasm_run_interpreter env thread n top = Some (r, env', thread') ->
  env_ok env' /\ same_decls env env' /\
  thread_ok (top_ok r) (thread_stacks thread) (thread_stacks thread').
Proof.
  intros He Ht. unfold wasm_run_interpreter. destruct (negb _); [done|].
  pose proof (run_loop_ok env _ (thread_pc thread) n top He Ht) as Hr.
  destruct (run_loop _ _ _) as [[] st|r' st|]; [| |done]; intros [= <- <- <-].
  - by destruct Hr as (? & ? & ?).
  - by destruct Hr as (? & ? & ? & _).
Qed.

(** C30 - Running is resumable.  From a well-formed machine, running for
    [n + m] instructions is running for [n] and, if that ends with [OK] (the
    count ran out), running on for [m] from the thread and environment it left;
    any other result is final.  So executing one instruction at a time, which
    is how tracing works, computes what an uninterrupted run computes. *)
Theorem run_interpreter_resumes `{NanBits} `{MemAllocator} env thread n m top :
  env_ok env -> thread_wf thread ->
  observed (wasm_run_interpreter env thread (n + m) top) =
    match wasm_run_interpreter env thread n top with
    | Some (WASM_INTERPRETER_OK, env', thread') =>
        observed (wasm_run_interpreter env' thread' m top)
    | r => observed r
    end.
Proof.
  intros He Ht. unfold wasm_run_interpreter. destruct (negb _) eqn:Htop; [done|].
  rewrite run_loop_add. unfold bind.
  pose proof (run_loop_ok env _ (thread_pc thread) n top He Ht) as Hr.
  destruct (run_loop n top _) as [[] [e t pc]|r st|]; [| |done].
  - destruct Hr as (He' & _ & Ht'). cbn [thread_stacks thread_pc st_env st_thread st_pc] in *.
    rewrite (cs_length _ _ _ Ht'), Htop.
    pose proof (run_loop_ok e t pc m top He' (thread_ok_refl _ _ Ht')) as Hr.
    destruct (run_loop m top _) as [[] st|r st|]; [done| |done].
    destruct Hr as (_ & _ & _ & Hr). by destruct r.
  - destruct Hr as (_ & _ & _ & Hr). by destruct r.
Qed.

(** ** A program to run: [i32.const 7; i32.const 5; i32.mul; return] *)

Definition mul_program : list Z :=
  opcode_code WASM_OPCODE_I32_CONST :: le_bytes 4 7 ++
  opcode_code WASM_OPCODE_I32_CONST :: le_bytes 4 5 ++
  [opcode_code WASM_OPCODE_I32_MUL; opcode_code WASM_OPCODE_RETURN].

Definition mul_env : Env := mkEnv [] [] [] [] [] mul_program.
Definition mul_thread : Thread := wasm_init_interpreter_thread (mkThreadOptions 3 2 0).

Lemma mul_env_ok : env_ok mul_env.
Proof. constructor; cbn [mul_env istream funcs memories globals]; try done. by repeat constructor. Qed.

Lemma mul_thread_wf : thread_wf mul_thread.
Proof. by repeat constructor. Qed.

(** An allocator that always succeeds, for concrete runs. *)
Definition plain_alloc : MemAllocator.
Proof. refine {| alloc_ok _ := true; alloc_fill := 0 |}. done. Defined.

Lemma run_interpreter_safe_witness : exists t,
  @wasm_run_interpreter default_nan_bits plain_alloc mul_env mul_thread 4 0 =
    Some (WASM_INTERPRETER_RETURNED, mul_env, t) /\
  value_stack (thread_stacks t) = [35; 5; 0] /\
  thread_ok true (thread_stacks mul_thread) (thread_stacks t).
Proof.
  eexists. split; [vm_compute; reflexivity|]. split; [reflexivity|].
  eapply (@run_interpreter_safe default_nan_bits plain_alloc mul_env mul_thread 4 0
            WASM_INTERPRETER_RETURNED mul_env _ mul_env_ok mul_thread_wf).
  vm_compute. reflexivity.
Defined.

Lemma run_interpreter_resumes_witness :
  observed (@wasm_run_interpreter default_nan_bits plain_alloc mul_env mul_thread (2 + 2) 0) =
  observed (@wasm_run_interpreter default_nan_bits plain_alloc mul_env
              (mkThread (mkStacks [7; 5; 0] 2 [0; 0] 0) 10) 2 0).
Proof.
  rewrite (@run_interpreter_resumes default_nan_bits plain_alloc mul_env mul_thread 2 2 0
             mul_env_ok mul_thread_wf).
  vm_compute. reflexivity.
Defined.
