(* ===== verification/InterpOps.v ===== *)
(** * What the instructions of the interpreter do

    Functional behaviour of the instructions on a state, branch by branch:
    integer operators against WebAssembly's definitions, loads and stores
    against the bytes of the memory, memory growth, control transfer and the
    composition of runs. *)

From S2P Require Import Prelude Opcode Float Rounding Numeric NumericFacts Interp InterpFacts.
#[local] Open Scope interp_scope.

(** ** Reading a state *)

Definition st_vs (st : State) : list Z := value_stack (st_thread st).
Definition st_top (st : State) : Z := value_stack_top (st_thread st).

(** The state with the top moved to [top] and the pc to [pc]. *)
Definition move (st : State) (top pc : Z) : State :=
  mkState (st_env st) (with_value_stack (st_thread st) (st_vs st) top) pc.

(** The state with slot [i] overwritten. *)
Definition put (st : State) (i s : Z) : State :=
  mkState (st_env st)
    (with_value_stack (st_thread st) (<[Z.to_nat i := s]> (st_vs st)) (st_top st)) (st_pc st).

(** [n] operands popped and one slot pushed, by an instruction of [len] bytes. *)
Definition result_state (st : State) (n s len : Z) : State :=
  move (put st (st_top st - n) s) (st_top st - n + 1) (st_pc st + len).

Definition fetches (st : State) (op : InterpOpcode) : Prop :=
  zget (istream (st_env st)) (st_pc st) = Some (interp_opcode_code op).

(** ** The integer operators of WebAssembly *)

(** Operand type, result type and meaning. *)
Inductive IntOp : Type :=
  | IUn (rt t : ValType) (f : Z -> OpResult)
  | IBin (rt t : ValType) (f : Z -> Z -> OpResult).

Definition int_op_result (o : IntOp) : ValType :=
  match o with IUn rt _ _ | IBin rt _ _ => rt end.
Definition int_op_arity (o : IntOp) : Z := match o with IUn _ _ _ => 1 | IBin _ _ _ => 2 end.
Definition int_op_apply (o : IntOp) (slots : list Z) : OpResult :=
  match o, slots with
  | IUn _ t f, [a] => f (get_field t a)
  | IBin _ t f, [a; b] => f (get_field t a) (get_field t b)
  | _, _ => Undefined
  end.

Definition spec_int_op (op : WasmOpcode) : option IntOp :=
    match op with
    | WASM_OPCODE_I32_ADD => Some (IBin I32 I32 (Spec.iadd 32))
    | WASM_OPCODE_I32_SUB => Some (IBin I32 I32 (Spec.isub 32))
    | WASM_OPCODE_I32_MUL => Some (IBin I32 I32 (Spec.imul 32))
    | WASM_OPCODE_I32_DIV_S => Some (IBin I32 I32 (Spec.idiv_s 32))
    | WASM_OPCODE_I32_DIV_U => Some (IBin I32 I32 Spec.idiv_u)
    | WASM_OPCODE_I32_REM_S => Some (IBin I32 I32 (Spec.irem_s 32))
    | WASM_OPCODE_I32_REM_U => Some (IBin I32 I32 Spec.irem_u)
    | WASM_OPCODE_I32_AND => Some (IBin I32 I32 (Spec.bitwise 32 andb))
    | WASM_OPCODE_I32_OR => Some (IBin I32 I32 (Spec.bitwise 32 orb))
    | WASM_OPCODE_I32_XOR => Some (IBin I32 I32 (Spec.bitwise 32 xorb))
    | WASM_OPCODE_I32_SHL => Some (IBin I32 I32 (Spec.ishl 32))
    | WASM_OPCODE_I32_SHR_U => Some (IBin I32 I32 (Spec.ishr_u 32))
    | WASM_OPCODE_I32_SHR_S => Some (IBin I32 I32 (Spec.ishr_s 32))
    | WASM_OPCODE_I32_ROTL => Some (IBin I32 I32 (Spec.irotl 32))
    | WASM_OPCODE_I32_ROTR => Some (IBin I32 I32 (Spec.irotr 32))
    | WASM_OPCODE_I32_EQ => Some (IBin I32 I32 (Spec.irel_u Z.eqb))
    | WASM_OPCODE_I32_NE => Some (IBin I32 I32 (Spec.irel_u (fun a b => negb (a =? b))))
    | WASM_OPCODE_I32_LT_S => Some (IBin I32 I32 (Spec.irel_s 32 Z.ltb))
    | WASM_OPCODE_I32_LT_U => Some (IBin I32 I32 (Spec.irel_u Z.ltb))
    | WASM_OPCODE_I32_LE_S => Some (IBin I32 I32 (Spec.irel_s 32 Z.leb))
    | WASM_OPCODE_I32_LE_U => Some (IBin I32 I32 (Spec.irel_u Z.leb))
    | WASM_OPCODE_I32_GT_S => Some (IBin I32 I32 (Spec.irel_s 32 Z.gtb))
    | WASM_OPCODE_I32_GT_U => Some (IBin I32 I32 (Spec.irel_u Z.gtb))
    | WASM_OPCODE_I32_GE_S => Some (IBin I32 I32 (Spec.irel_s 32 Z.geb))
    | WASM_OPCODE_I32_GE_U => Some (IBin I32 I32 (Spec.irel_u Z.geb))
    | WASM_OPCODE_I32_CLZ => Some (IUn I32 I32 (fun a => Value (Spec.leading_zeros 32 a)))
    | WASM_OPCODE_I32_CTZ => Some (IUn I32 I32 (fun a => Value (Spec.trailing_zeros 32 0 a)))
    | WASM_OPCODE_I32_POPCNT => Some (IUn I32 I32 (fun a => Value (Spec.count_ones 32 a)))
    | WASM_OPCODE_I32_EQZ => Some (IUn I32 I32 (fun a => Value (b2z (a =? 0))))
    | WASM_OPCODE_I64_ADD => Some (IBin I64 I64 (Spec.iadd 64))
    | WASM_OPCODE_I64_SUB => Some (IBin I64 I64 (Spec.isub 64))
    | WASM_OPCODE_I64_MUL => Some (IBin I64 I64 (Spec.imul 64))
    | WASM_OPCODE_I64_DIV_S => Some (IBin I64 I64 (Spec.idiv_s 64))
    | WASM_OPCODE_I64_DIV_U => Some (IBin I64 I64 Spec.idiv_u)
    | WASM_OPCODE_I64_REM_S => Some (IBin I64 I64 (Spec.irem_s 64))
    | WASM_OPCODE_I64_REM_U => Some (IBin I64 I64 Spec.irem_u)
    | WASM_OPCODE_I64_AND => Some (IBin I64 I64 (Spec.bitwise 64 andb))
    | WASM_OPCODE_I64_OR => Some (IBin I64 I64 (Spec.bitwise 64 orb))
    | WASM_OPCODE_I64_XOR => Some (IBin I64 I64 (Spec.bitwise 64 xorb))
    | WASM_OPCODE_I64_SHL => Some (IBin I64 I64 (Spec.ishl 64))
    | WASM_OPCODE_I64_SHR_U => Some (IBin I64 I64 (Spec.ishr_u 64))
    | WASM_OPCODE_I64_SHR_S => Some (IBin I64 I64 (Spec.ishr_s 64))
    | WASM_OPCODE_I64_ROTL => Some (IBin I64 I64 (Spec.irotl 64))
    | WASM_OPCODE_I64_ROTR => Some (IBin I64 I64 (Spec.irotr 64))
    | WASM_OPCODE_I64_EQ => Some (IBin I32 I64 (Spec.irel_u Z.eqb))
    | WASM_OPCODE_I64_NE => Some (IBin I32 I64 (Spec.irel_u (fun a b => negb (a =? b))))
    | WASM_OPCODE_I64_LT_S => Some (IBin I32 I64 (Spec.irel_s 64 Z.ltb))
    | WASM_OPCODE_I64_LT_U => Some (IBin I32 I64 (Spec.irel_u Z.ltb))
    | WASM_OPCODE_I64_LE_S => Some (IBin I32 I64 (Spec.irel_s 64 Z.leb))
    | WASM_OPCODE_I64_LE_U => Some (IBin I32 I64 (Spec.irel_u Z.leb))
    | WASM_OPCODE_I64_GT_S => Some (IBin I32 I64 (Spec.irel_s 64 Z.gtb))
    | WASM_OPCODE_I64_GT_U => Some (IBin I32 I64 (Spec.irel_u Z.gtb))
    | WASM_OPCODE_I64_GE_S => Some (IBin I32 I64 (Spec.irel_s 64 Z.geb))
    | WASM_OPCODE_I64_GE_U => Some (IBin I32 I64 (Spec.irel_u Z.geb))
    | WASM_OPCODE_I64_CLZ => Some (IUn I64 I64 (fun a => Value (Spec.leading_zeros 64 a)))
    | WASM_OPCODE_I64_CTZ => Some (IUn I64 I64 (fun a => Value (Spec.trailing_zeros 64 0 a)))
    | WASM_OPCODE_I64_POPCNT => Some (IUn I64 I64 (fun a => Value (Spec.count_ones 64 a)))
    | WASM_OPCODE_I64_EQZ => Some (IUn I32 I64 (fun a => Value (b2z (a =? 0))))
    | WASM_OPCODE_I32_WRAP_I64 => Some (IUn I32 I64 (fun a => Value (a mod 2 ^ 32)))
    | WASM_OPCODE_I64_EXTEND_S_I32 => Some (IUn I64 I32 (fun a => Value (to_signed 32 a mod 2 ^ 64)))
    | WASM_OPCODE_I64_EXTEND_U_I32 => Some (IUn I64 I32 Value)
    | _ => None
    end.

(** ** Running the primitives *)

Lemma bind_Done {A B} (m : M A) (k : A -> M B) st a st' :
  m st = Done a st' -> bind m k st = k a st'.
Proof. intros E. unfold bind. by rewrite E. Qed.

Lemma bind_Exit {A B} (m : M A) (k : A -> M B) st r st' :
  m st = Exit r st' -> bind m k st = Exit r st'.
Proof. intros E. unfold bind. by rewrite E. Qed.

Lemma some_or_undef_Some {A} (o : option A) a st : o = Some a -> some_or_undef o st = Done a st.
Proof. by intros ->. Qed.

Lemma run_read_u8 st v : read_u8_at (st_env st) (st_pc st) = Some v ->
  read_u8 st = Done v (move st (st_top st) (st_pc st + 1)).
Proof. intros E. unfold read_u8, bind, get. rewrite E. by destruct st as [? [] ?]. Qed.

Lemma run_read_u32 st v : read_u32_at (st_env st) (st_pc st) = Some v ->
  read_u32 st = Done v (move st (st_top st) (st_pc st + 4)).
Proof. intros E. unfold read_u32, bind, get. rewrite E. by destruct st as [? [] ?]. Qed.

Lemma run_POP st v : zget (st_vs st) (st_top st - 1) = Some v ->
  POP st = Done v (move st (st_top st - 1) (st_pc st)).
Proof.
  intros E. unfold POP, bind, get_thread, get, ret, bind. unfold st_vs, st_top in E. by rewrite E.
Qed.

Lemma run_POP_TYPE t st v : zget (st_vs st) (st_top st - 1) = Some v ->
  POP_TYPE t st = Done (get_field t v) (move st (st_top st - 1) (st_pc st)).
Proof. intros E. unfold POP_TYPE. by rewrite (bind_Done _ _ _ _ _ (run_POP _ _ E)). Qed.

(** A push below the end of the array overwrites the slot at the top. *)
Lemma run_PUSH_TYPE t st v old : zget (st_vs st) (st_top st) = Some old ->
  PUSH_TYPE t v st =
    Done tt (move (put st (st_top st) (set_field t old v)) (st_top st + 1) (st_pc st)).
Proof.
  intros E. pose proof (zget_lt _ _ _ E) as Hlt.
  unfold PUSH_TYPE, CHECK_STACK, bind, get_thread, get, ret, bind, TRAP_IF.
  unfold st_vs, st_top in *. rewrite (proj2 (Z.leb_gt _ _)) by lia. cbn [ret].
  rewrite E. cbn [some_or_undef ret]. rewrite zset_Some by done. done.
Qed.

Lemma run_PUSH st v : 0 <= st_top st < Z.of_nat (length (st_vs st)) ->
  PUSH v st = Done tt (move (put st (st_top st) v) (st_top st + 1) (st_pc st)).
Proof.
  intros Hlt. unfold PUSH, CHECK_STACK, bind, get_thread, get, ret, bind, TRAP_IF.
  unfold st_vs, st_top in *. rewrite (proj2 (Z.leb_gt _ _)) by lia. cbn [ret].
  rewrite zset_Some by done. done.
Qed.

(** A push at the end of the array traps. *)
Lemma run_PUSH_TYPE_full t st v : Z.of_nat (length (st_vs st)) <= st_top st ->
  PUSH_TYPE t v st = Exit WASM_INTERPRETER_TRAP_VALUE_STACK_EXHAUSTED st.
Proof.
  intros Hle. unfold PUSH_TYPE, CHECK_STACK, bind, get_thread, get, ret, bind, TRAP_IF.
  unfold st_vs, st_top in *. by rewrite (proj2 (Z.leb_le _ _)) by lia.
Qed.

(** Fetch and decode. *)
Lemma interp_opcode_of_code_code op : interp_opcode_of_code (interp_opcode_code op) = Some op.
Proof. destruct op as [o| | | | |]; [by destruct o|done..]. Qed.

Lemma run_step `{NanBits} `{MemAllocator} top st op : fetches st op ->
  step top st = dispatch top op (move st (st_top st) (st_pc st + 1)).
Proof.
  intros Hf. unfold step. rewrite (bind_Done _ _ _ _ _ (run_read_u8 _ _ Hf)).
  by rewrite interp_opcode_of_code_code.
Qed.

(** ** Operators on the stack *)

(** [m] pops the operands of [o] and pushes its value, or traps as it does. *)
Definition computes (m : M unit) (o : IntOp) : Prop :=
  forall st slots, zslice (st_vs st) (st_top st - int_op_arity o) (int_op_arity o) = Some slots ->
  match int_op_apply o slots with
  | Value v => exists s, get_field (int_op_result o) s = v /\
                 m st = Done tt (result_state st (int_op_arity o) s 0)
  | Traps r => m st = Exit r (move st (st_top st - int_op_arity o) (st_pc st))
  | Undefined => False
  end.

Lemma zslice_zget {A} (l : list A) i n bs k : zslice l i n = Some bs -> 0 <= k < n ->
  zget l (i + k) = bs !! Z.to_nat k.
Proof.
  intros (? & ? & ? & ->)%zslice_inv Hk. unfold zget. rewrite (proj2 (Z.ltb_ge _ _)) by lia.
  rewrite lookup_take_lt, lookup_drop by lia. f_equal. lia.
Qed.

Lemma zslice_1 {A} (l : list A) i bs : zslice l i 1 = Some bs ->
  exists a, bs = [a] /\ zget l i = Some a.
Proof.
  intros H. pose proof (zslice_length _ _ _ _ H). destruct bs as [|a [|? ?]]; try (cbn in *; lia).
  exists a. split; [done|]. rewrite <- (Z.add_0_r i). by rewrite (zslice_zget _ _ _ _ _ H) by lia.
Qed.

Lemma zslice_2 {A} (l : list A) i bs : zslice l i 2 = Some bs ->
  exists a b, bs = [a; b] /\ zget l i = Some a /\ zget l (i + 1) = Some b.
Proof.
  intros H. pose proof (zslice_length _ _ _ _ H).
  destruct bs as [|a [|b [|? ?]]]; try (cbn in *; lia). exists a, b. split_and!; [done| |].
  - rewrite <- (Z.add_0_r i). by rewrite (zslice_zget _ _ _ _ _ H) by lia.
  - by rewrite (zslice_zget _ _ _ _ _ H) by lia.
Qed.

Lemma move_move st a b c d : move (move st a b) c d = move st c d.
Proof. done. Qed.

Section operators.
Context (rt t : ValType).

Lemma run_pop2 (k : Z -> Z -> M unit) st slots :
  zslice (st_vs st) (st_top st - 2) 2 = Some slots ->
  exists a b old, slots = [a; b] /\ old = a /\ zget (st_vs st) (st_top st - 2) = Some old /\
    (rhs <- POP_TYPE t;; lhs <- POP_TYPE t;; k lhs rhs) st =
      k (get_field t a) (get_field t b) (move st (st_top st - 2) (st_pc st)).
Proof.
  intros (a & b & -> & Ha & Hb)%zslice_2. exists a, b, a. split_and!; try done.
  replace (st_top st - 2 + 1) with (st_top st - 1) in Hb by lia.
  rewrite (bind_Done _ _ _ _ _ (run_POP_TYPE t _ _ Hb)).
  set (st1 := move st (st_top st - 1) (st_pc st)).
  assert (zget (st_vs st1) (st_top st1 - 1) = Some a) as Ha1.
  { cbn. by replace (st_top st - 1 - 1) with (st_top st - 2) by lia. }
  rewrite (bind_Done _ _ _ _ _ (run_POP_TYPE t _ _ Ha1)). unfold st1. rewrite move_move. cbn.
  by replace (st_top st - 1 - 1) with (st_top st - 2) by lia.
Qed.

(** The result goes into the slot of the deepest operand. *)
Lemma run_push_result st n v : 0 < n -> forall old,
  zget (st_vs st) (st_top st - n) = Some old ->
  PUSH_TYPE rt v (move st (st_top st - n) (st_pc st)) =
    Done tt (result_state st n (set_field rt old v) 0).
Proof.
  intros Hn old Ho. rewrite (run_PUSH_TYPE _ _ _ old) by done.
  unfold result_state, move, put. cbn. by rewrite Z.add_0_r.
Qed.

Lemma computes_bin (k : Z -> Z -> OpResult) (f : Z -> Z -> OpResult) (m : M unit) :
  (forall st, m st = (rhs <- POP_TYPE t;; lhs <- POP_TYPE t;; PUSH_RESULT rt (k lhs rhs)) st) ->
  (forall a b, in_u (VALUE_TYPE t) a -> in_u (VALUE_TYPE t) b ->
     match k a b with
     | Value v => f a b = Value (wrap (VALUE_TYPE rt) v)
     | Traps r => f a b = Traps r
     | Undefined => False
     end) ->
  computes m (IBin rt t f).
Proof.
  intros Em Hf st slots Hs. rewrite Em.
  destruct (run_pop2 (fun lhs rhs => PUSH_RESULT rt (k lhs rhs)) st slots Hs)
    as (a & b & old & -> & -> & Hold & ->).
  cbn [int_op_apply int_op_arity int_op_result].
  specialize (Hf (get_field t a) (get_field t b) (get_field_u t a) (get_field_u t b)).
  destruct (k (get_field t a) (get_field t b)) as [v|r|]; [|by rewrite Hf|done].
  rewrite Hf. exists (set_field rt a v). split; [apply get_set_field|].
  by apply run_push_result.
Qed.

Lemma computes_un rt' (g : Z -> Z) (f : Z -> OpResult) :
  (rt' = rt \/ (rt' = I64 /\ rt = I32)) ->
  (forall a, in_u (VALUE_TYPE t) a -> f a = Value (wrap (VALUE_TYPE rt) (g a))) ->
  computes (UNOP rt' t g) (IUn rt t f).
Proof.
  intros Hrt Hf st slots (a & -> & Ha)%zslice_1. cbn [int_op_apply int_op_arity int_op_result].
  rewrite Hf by apply get_field_u. exists (set_field rt' a (g (get_field t a))). split.
  - destruct Hrt as [-> | [-> ->]]; [apply get_set_field|].
    unfold get_field, set_field. cbn [VALUE_TYPE]. unfold wrap.
    rewrite (Z.mod_mod_divide _ (2 ^ 64) (2 ^ 32)); [done|]. by exists (2 ^ 32).
  - unfold UNOP. rewrite (bind_Done _ _ _ _ _ (run_POP_TYPE t _ _ Ha)).
    unfold result_state. rewrite (run_PUSH_TYPE _ _ _ a) by done.
    unfold move, put. cbn. by rewrite Z.add_0_r.
Qed.
End operators.

(** ** The macros *)

Section macros.
Context (t : ValType) (Ht : t = I32 \/ t = I64).
#[local] Abbreviation N := (VALUE_TYPE t).

Lemma wrap_b2z w c : 0 < w -> wrap w (b2z c) = b2z c.
Proof.
  intros Hw. apply wrap_id. unfold in_u. pose proof (Z.pow_gt_1 2 w).
  destruct c; cbn [b2z]; lia.
Qed.

Lemma bitop_in_u opZ opb a b :
  (forall x y i, Z.testbit (opZ x y) i = opb (Z.testbit x i) (Z.testbit y i)) ->
  opb false false = false ->
  in_u N a -> in_u N b -> wrap N (opZ a b) = opZ a b.
Proof.
  intros Hop H0 Ha Hb. pose proof (VALUE_TYPE_pos t).
  pose proof (bitwise_spec t opZ opb a b Hop H0 Ha Hb) as E.
  unfold Spec.bitwise in E. injection E as E. rewrite <- E. apply wrap_id.
  pose proof (of_bits_bound (Z.to_nat N) (fun i => opb (Z.testbit a i) (Z.testbit b i))) as B.
  by rewrite Z2Nat.id in B by lia.
Qed.

Lemma computes_BINOP rt op f :
  (forall a b, in_u N a -> in_u N b -> f a b = Value (wrap (VALUE_TYPE rt) (op N a b))) ->
  computes (BINOP rt t op) (IBin rt t f).
Proof. intros Hf. by apply (computes_bin rt t (fun a b => Value (op N a b))). Qed.

(** Comparisons, unsigned and signed. *)
Lemma computes_rel_u op rel :
  (forall a b, op N a b = b2z (rel a b)) ->
  computes (BINOP I32 t op) (IBin I32 t (Spec.irel_u rel)).
Proof.
  intros Hop. apply computes_BINOP. intros a b _ _. unfold Spec.irel_u.
  by rewrite Hop, wrap_b2z.
Qed.

Lemma computes_rel_s op rel :
  (forall a b, op N a b = b2z (rel a b)) ->
  computes (BINOP_SIGNED I32 t op) (IBin I32 t (Spec.irel_s N rel)).
Proof.
  intros Hop.
  apply (computes_bin I32 t (fun a b => Value (op N (to_signed N a) (to_signed N b)))); [done|].
  intros a b _ _. unfold Spec.irel_s. by rewrite Hop, wrap_b2z.
Qed.

Lemma computes_bitop op opZ opb :
  (forall a b, op N a b = opZ a b) ->
  (forall x y i, Z.testbit (opZ x y) i = opb (Z.testbit x i) (Z.testbit y i)) ->
  opb false false = false ->
  computes (BINOP t t op) (IBin t t (Spec.bitwise N opb)).
Proof.
  intros Hop Hb H0. apply computes_BINOP. intros a b Ha Hb'.
  rewrite (bitwise_spec t opZ) by done. by rewrite Hop, (bitop_in_u opZ opb).
Qed.

Lemma computes_arith op opZ (f : Z -> Z -> OpResult) :
  (forall a b, op N a b = wrap N (opZ a b)) ->
  (forall a b, f a b = Value ((opZ a b) mod 2 ^ N)) ->
  computes (BINOP t t op) (IBin t t f).
Proof.
  pose proof (VALUE_TYPE_pos t). intros Hop Hf. apply computes_BINOP. intros a b _ _.
  by rewrite Hop, Hf, wrap_idemp by lia.
Qed.

Lemma computes_shl : computes (BINOP_SHIFT t c_shl UNSIGNED) (IBin t t (Spec.ishl N)).
Proof.
  pose proof (VALUE_TYPE_pos t).
  apply (computes_bin t t (fun a b => Value (c_shl N a (Z.land b (SHIFT_MASK t))))); [done|].
  intros a b _ _. rewrite shl_spec by done. unfold c_shl. by rewrite wrap_idemp by lia.
Qed.

Lemma computes_shr_u : computes (BINOP_SHIFT t c_shr UNSIGNED) (IBin t t (Spec.ishr_u N)).
Proof.
  pose proof (VALUE_TYPE_pos t).
  apply (computes_bin t t (fun a b => Value (c_shr N a (Z.land b (SHIFT_MASK t))))); [done|].
  intros a b Ha _. unfold Spec.ishr_u, c_shr. rewrite shr_spec by done.
  rewrite wrap_id; [done|]. unfold in_u in *.
  pose proof (Z.mod_pos_bound b N ltac:(lia)). assert (0 < 2 ^ (b mod N)) by lia.
  split; [apply Z.div_pos; lia|]. apply Z.div_lt_upper_bound; nia.
Qed.

Lemma computes_shr_s : computes (BINOP_SHIFT t c_shr SIGNED) (IBin t t (Spec.ishr_s N)).
Proof.
  apply (computes_bin t t (fun a b => Value (c_shr N (to_signed N a) (Z.land b (SHIFT_MASK t)))));
    [done|].
  intros a b _ _. unfold Spec.ishr_s, c_shr. by rewrite shr_spec by done.
Qed.

Lemma computes_rot dir f :
  (forall a b, in_u N a -> f a b = Value (BINOP_ROT_op t dir a b)) ->
  computes (BINOP_ROT t dir) (IBin t t f).
Proof.
  intros Hf. apply (computes_bin t t (fun a b => Value (BINOP_ROT_op t dir a b))); [done|].
  intros a b Ha _. rewrite Hf by done. by rewrite wrap_id by (by apply rot_in_u).
Qed.

(** Division and remainder: the operators already are the reference, up to
    the conversion of the result by the push. *)
Lemma computes_div (k f : Z -> Z -> OpResult) m :
  (forall st, m st = (rhs <- POP_TYPE t;; lhs <- POP_TYPE t;; PUSH_RESULT t (k lhs rhs)) st) ->
  (forall a b, in_u N a -> in_u N b -> f a b = k a b) ->
  (forall a b, in_u N a -> in_u N b ->
     match k a b with Value v => in_u N v | Traps _ => True | Undefined => False end) ->
  computes m (IBin t t f).
Proof.
  intros Em Hf Hk. apply (computes_bin t t k); [done|]. intros a b Ha Hb.
  rewrite Hf by done. specialize (Hk a b Ha Hb). destruct (k a b); try done.
  by rewrite wrap_id.
Qed.

Lemma computes_div_s : computes (BINOP_DIV_S t) (IBin t t (Spec.idiv_s N)).
Proof.
  pose proof (VALUE_TYPE_pos t).
  apply (computes_div (BINOP_DIV_S_op t)); [done|by apply div_s_spec|].
  intros a b _ _. unfold BINOP_DIV_S_op. destruct (b =? 0); [done|].
  destruct (_ && _); [done|]. apply wrap_in_u. lia.
Qed.

Lemma computes_rem_s : computes (BINOP_REM_S t) (IBin t t (Spec.irem_s N)).
Proof.
  pose proof (VALUE_TYPE_pos t).
  apply (computes_div (BINOP_REM_S_op t)); [done|by apply rem_s_spec|].
  intros a b _ _. unfold BINOP_REM_S_op. destruct (b =? 0); [done|].
  destruct (_ && _); [apply in_u_0; lia|]. apply wrap_in_u. lia.
Qed.

Lemma computes_div_u : computes (BINOP_DIV_REM_U t c_div) (IBin t t Spec.idiv_u).
Proof.
  apply (computes_div (BINOP_DIV_REM_U_op t c_div)); [done|by apply div_u_spec|].
  intros a b Ha Hb. rewrite <- div_u_spec by done. unfold Spec.idiv_u.
  destruct (decide _); [done|]. unfold in_u in *.
  split; [apply Z.div_pos; lia|]. apply Z.div_lt_upper_bound; nia.
Qed.

Lemma computes_rem_u : computes (BINOP_DIV_REM_U t c_rem) (IBin t t Spec.irem_u).
Proof.
  apply (computes_div (BINOP_DIV_REM_U_op t c_rem)); [done|by apply rem_u_spec|].
  intros a b Ha Hb. rewrite <- rem_u_spec by done. unfold Spec.irem_u.
  destruct (decide _); [done|]. unfold in_u in *.
  pose proof (Z.mod_pos_bound a b). lia.
Qed.

Lemma count_bounds n a : 0 <= Spec.leading_zeros n a <= Z.of_nat n /\
  (forall i, 0 <= Spec.trailing_zeros n i a <= Z.of_nat n) /\ 0 <= Spec.count_ones n a <= Z.of_nat n.
Proof.
  induction n as [|n (IH1 & IH2 & IH3)];
    cbn [Spec.leading_zeros Spec.trailing_zeros Spec.count_ones]; [done|].
  split_and!; try (destruct (Z.testbit a (Z.of_nat n)); cbn [b2z]; lia).
  - intros i. specialize (IH2 (i + 1)). destruct (Z.testbit a i); lia.
Qed.

Lemma count_in_u x : 0 <= x <= N -> wrap N x = x.
Proof.
  intros Hx. apply wrap_id. unfold in_u. destruct t; cbn [VALUE_TYPE] in *; zpow; lia.
Qed.

Lemma computes_clz : computes (UNOP t t (op_clz t))
  (IUn t t (fun a => Value (Spec.leading_zeros (Z.to_nat N) a))).
Proof.
  pose proof (VALUE_TYPE_pos t). apply computes_un; [by left|]. intros a Ha.
  rewrite clz_spec by done. rewrite count_in_u; [done|].
  destruct (count_bounds (Z.to_nat N) a). lia.
Qed.

Lemma computes_ctz : computes (UNOP t t (op_ctz t))
  (IUn t t (fun a => Value (Spec.trailing_zeros (Z.to_nat N) 0 a))).
Proof.
  pose proof (VALUE_TYPE_pos t). apply computes_un; [by left|]. intros a Ha.
  rewrite ctz_spec by done. rewrite count_in_u; [done|].
  destruct (count_bounds (Z.to_nat N) a) as (_ & Hb & _). specialize (Hb 0). lia.
Qed.

Lemma computes_popcnt : computes (UNOP t t wasm_popcount)
  (IUn t t (fun a => Value (Spec.count_ones (Z.to_nat N) a))).
Proof.
  pose proof (VALUE_TYPE_pos t). apply computes_un; [by left|]. intros a Ha.
  rewrite (popcnt_spec t) by done. rewrite count_in_u; [done|].
  destruct (count_bounds (Z.to_nat N) a) as (_ & _ & Hb). lia.
Qed.

Lemma computes_eqz rt' : rt' = I32 \/ rt' = I64 -> 
  computes (UNOP rt' t (fun v => b2z (v =? 0))) (IUn I32 t (fun a => Value (b2z (a =? 0)))).
Proof.
  clear Ht. intros Hrt. apply computes_un; [tauto|]. intros a _. by rewrite wrap_b2z.
Qed.
End macros.

Lemma computes_wrap : computes (UNOP I32 I64 u32) (IUn I32 I64 (fun a => Value (a mod 2 ^ 32))).
Proof. apply computes_un; [by left|]. intros a _. cbn [VALUE_TYPE]. by rewrite wrap_idemp. Qed.

Lemma computes_extend_s : computes (UNOP I64 I32 (to_signed 32))
  (IUn I64 I32 (fun a => Value (to_signed 32 a mod 2 ^ 64))).
Proof. by apply computes_un; [left|]. Qed.

Lemma computes_extend_u : computes (UNOP I64 I32 (fun v => v)) (IUn I64 I32 Value).
Proof.
  apply computes_un; [by left|]. intros a Ha. f_equal. symmetry. apply wrap_id.
  by apply (in_u_mono 32).
Qed.

Ltac is_int t := solve [by left | by right].
(** Each macro, with its operator, has its lemma. *)
Ltac int_op_case :=
  lazymatch goal with
  | |- computes (BINOP_DIV_S ?t) _ => apply (computes_div_s t); is_int t
  | |- computes (BINOP_REM_S ?t) _ => apply (computes_rem_s t); is_int t
  | |- computes (BINOP_DIV_REM_U ?t c_div) _ => apply (computes_div_u t); is_int t
  | |- computes (BINOP_DIV_REM_U ?t c_rem) _ => apply (computes_rem_u t); is_int t
  | |- computes (BINOP_SHIFT ?t c_shl UNSIGNED) _ => apply (computes_shl t); is_int t
  | |- computes (BINOP_SHIFT ?t c_shr UNSIGNED) _ => apply (computes_shr_u t); is_int t
  | |- computes (BINOP_SHIFT ?t c_shr SIGNED) _ => apply (computes_shr_s t); is_int t
  | |- computes (BINOP_ROT ?t LEFT) _ =>
      apply (computes_rot t); [is_int t|]; intros; by apply (rotl_spec t); [is_int t|]
  | |- computes (BINOP_ROT ?t RIGHT) _ =>
      apply (computes_rot t); [is_int t|]; intros; by apply (rotr_spec t); [is_int t|]
  | |- computes (BINOP ?t ?t c_add) _ => by apply (computes_arith t c_add Z.add)
  | |- computes (BINOP ?t ?t c_sub) _ => by apply (computes_arith t c_sub Z.sub)
  | |- computes (BINOP ?t ?t c_mul) _ => by apply (computes_arith t c_mul Z.mul)
  | |- computes (BINOP ?t ?t c_and) _ =>
      apply (computes_bitop t c_and Z.land); [done|exact Z.land_spec|done]
  | |- computes (BINOP ?t ?t c_or) _ =>
      apply (computes_bitop t c_or Z.lor); [done|exact Z.lor_spec|done]
  | |- computes (BINOP ?t ?t c_xor) _ =>
      apply (computes_bitop t c_xor Z.lxor); [done|exact Z.lxor_spec|done]
  | |- computes (BINOP I32 ?t _) (IBin _ _ (Spec.irel_u ?r)) =>
      apply (computes_rel_u t _ r); intros a b; unfold c_gt, c_ge; by rewrite ?Z.gtb_ltb, ?Z.geb_leb
  | |- computes (BINOP_SIGNED I32 ?t _) (IBin _ _ (Spec.irel_s _ ?r)) =>
      apply (computes_rel_s t _ r); intros a b; unfold c_gt, c_ge; by rewrite ?Z.gtb_ltb, ?Z.geb_leb
  | |- computes (UNOP ?t ?t (op_clz ?t)) _ => apply (computes_clz t); is_int t
  | |- computes (UNOP ?t ?t (op_ctz ?t)) _ => apply (computes_ctz t); is_int t
  | |- computes (UNOP ?t ?t wasm_popcount) _ => apply (computes_popcnt t); is_int t
  | |- computes (UNOP ?rt ?t (fun v => b2z (v =? 0))) _ => apply (computes_eqz t rt); is_int rt
  | |- computes (UNOP I32 I64 u32) _ => apply computes_wrap
  | |- computes (UNOP I64 I32 (to_signed 32)) _ => apply computes_extend_s
  | |- computes (UNOP I64 I32 (fun v => v)) _ => apply computes_extend_u
  end.

Section theorems.
Context `{NanBits} `{MemAllocator}.

Lemma dispatch_int_op top op o : spec_int_op op = Some o ->
  computes (dispatch top (WasmOp op)) o.
Proof.
  destruct op; cbn [spec_int_op]; intros [= <-];
    cbv [dispatch switch step_control step_load step_store step_memory step_i32 step_i64
         step_f32 step_f64 step_convert step_reinterpret app].
  all: try int_op_case.
Qed.

(** C12 - The integer instructions refine WebAssembly.  Executed in any state
    whose pc is at the instruction and whose stack holds its operands, each
    of the 61 arithmetic, bitwise, shift, rotate, count, comparison and
    width-conversion instructions on [i32] and [i64] replaces the operands by
    the value WebAssembly defines, or traps exactly when WebAssembly does (a
    zero divisor, a signed quotient out of range); it is never undefined. *)
Theorem integer_instructions_correct top st op o slots :
  spec_int_op op = Some o -> fetches st (WasmOp op) ->
  zslice (st_vs st) (st_top st - int_op_arity o) (int_op_arity o) = Some slots ->
  match int_op_apply o slots with
  | Value v => exists s, get_field (int_op_result o) s = v /\
                 step top st = Done tt (result_state st (int_op_arity o) s 1)
  | Traps r => step top st = Exit r (move st (st_top st - int_op_arity o) (st_pc st + 1))
  | Undefined => False
  end.
Proof.
  intros Ho Hf Hs. rewrite (run_step top st _ Hf).
  pose proof (dispatch_int_op top op o Ho (move st (st_top st) (st_pc st + 1)) slots Hs) as Hc.
  destruct (int_op_apply o slots); [|done|done].
  destruct Hc as (s & Hv & Hd). exists s. split; [done|]. rewrite Hd.
  unfold result_state, put, move. cbn. by rewrite Z.add_0_r.
Qed.
End theorems.

(** A machine with a program, a stack of four slots and two call slots. *)
Definition demo_state (prog stack : list Z) : State :=
  mkState (mkEnv [] [] [] [] [] prog)
    (mkStacks (stack ++ replicate (4 - length stack) 0) (Z.of_nat (length stack)) [0; 0] 0) 0.

Lemma integer_instructions_correct_witness :
  let st := demo_state [opcode_code WASM_OPCODE_I32_DIV_S] [0x80000000; 0xffffffff] in
  @step default_nan_bits plain_alloc 0 st =
    Exit WASM_INTERPRETER_TRAP_INTEGER_OVERFLOW (move st 0 1).
Proof.
  cbn zeta.
  exact (@integer_instructions_correct default_nan_bits plain_alloc 0
           (demo_state [opcode_code WASM_OPCODE_I32_DIV_S] [0x80000000; 0xffffffff])
           WASM_OPCODE_I32_DIV_S (IBin I32 I32 (Spec.idiv_s 32)) [0x80000000; 0xffffffff]
           eq_refl eq_refl eq_refl).
Defined.

(** ** Loads and stores *)

(** The memory instructions of WebAssembly: value type, bytes accessed, and for
    loads whether the bytes are sign-extended. *)
Definition spec_load (op : WasmOpcode) : option (ValType * nat * bool) :=
  match op with
  | WASM_OPCODE_I32_LOAD8_S => Some (I32, 1%nat, true)
  | WASM_OPCODE_I32_LOAD8_U => Some (I32, 1%nat, false)
  | WASM_OPCODE_I32_LOAD16_S => Some (I32, 2%nat, true)
  | WASM_OPCODE_I32_LOAD16_U => Some (I32, 2%nat, false)
  | WASM_OPCODE_I64_LOAD8_S => Some (I64, 1%nat, true)
  | WASM_OPCODE_I64_LOAD8_U => Some (I64, 1%nat, false)
  | WASM_OPCODE_I64_LOAD16_S => Some (I64, 2%nat, true)
  | WASM_OPCODE_I64_LOAD16_U => Some (I64, 2%nat, false)
  | WASM_OPCODE_I64_LOAD32_S => Some (I64, 4%nat, true)
  | WASM_OPCODE_I64_LOAD32_U => Some (I64, 4%nat, false)
  | WASM_OPCODE_I32_LOAD => Some (I32, 4%nat, false)
  | WASM_OPCODE_I64_LOAD => Some (I64, 8%nat, false)
  | WASM_OPCODE_F32_LOAD => Some (F32, 4%nat, false)
  | WASM_OPCODE_F64_LOAD => Some (F64, 8%nat, false)
  | _ => None
  end.

Definition spec_store (op : WasmOpcode) : option (ValType * nat) :=
  match op with
  | WASM_OPCODE_I32_STORE8 => Some (I32, 1%nat)
  | WASM_OPCODE_I32_STORE16 => Some (I32, 2%nat)
  | WASM_OPCODE_I64_STORE8 => Some (I64, 1%nat)
  | WASM_OPCODE_I64_STORE16 => Some (I64, 2%nat)
  | WASM_OPCODE_I64_STORE32 => Some (I64, 4%nat)
  | WASM_OPCODE_I32_STORE => Some (I32, 4%nat)
  | WASM_OPCODE_I64_STORE => Some (I64, 8%nat)
  | WASM_OPCODE_F32_STORE => Some (F32, 4%nat)
  | WASM_OPCODE_F64_STORE => Some (F64, 8%nat)
  | _ => None
  end.

(** The value [n] bytes of memory stand for. *)
Definition spec_load_value (t : ValType) (n : nat) (sign : bool) (bytes : list Z) : Z :=
  if sign then to_signed (8 * Z.of_nat n) (of_le bytes) mod 2 ^ VALUE_TYPE t else of_le bytes.

(** The immediates and the memory of a memory instruction at [st]. *)
Record mem_operands (st : State) (idx imm : Z) (m : Memory) : Prop := {
  mo_index : read_u32_at (st_env st) (st_pc st + 1) = Some idx;
  mo_memory : zget (memories (st_env st)) idx = Some m;
  mo_ok : mem_ok m;
  mo_offset : read_u32_at (st_env st) (st_pc st + 5) = Some imm;
  mo_env : bytes_ok (istream (st_env st))
}.

Lemma read_u32_at_u e pc v : bytes_ok (istream e) -> read_u32_at e pc = Some v -> in_u 32 v.
Proof.
  intros He (bs & Hs & ->)%fmap_Some. apply (Forall_zslice _ _ _ _ _ He) in Hs as Hb.
  pose proof (of_le_bound bs Hb). apply zslice_length in Hs. by rewrite Hs in H.
Qed.

Lemma run_GET_MEMORY st idx m : read_u32_at (st_env st) (st_pc st) = Some idx ->
  zget (memories (st_env st)) idx = Some m ->
  GET_MEMORY st = Done (idx, m) (move st (st_top st) (st_pc st + 4)).
Proof.
  intros Hi Hm. unfold GET_MEMORY. rewrite (bind_Done _ _ _ _ _ (run_read_u32 _ _ Hi)).
  unfold bind, get_env, get, ret, bind. cbn. by rewrite Hm.
Qed.

(** The 64-bit sum of base and offset does not wrap, and its truncation to 32
    bits is exact once the bounds check has passed. *)
Lemma effective_address base imm n m : in_u 32 base -> in_u 32 imm -> 0 < n <= 8 ->
  in_u 32 (mem_byte_size m) ->
  u64 (base + imm) = base + imm /\
  u64 (u64 (base + imm) + n) = base + imm + n /\
  (base + imm + n <= mem_byte_size m -> u32 (u64 (base + imm)) = base + imm).
Proof.
  intros Hb Hi Hn Hm. unfold in_u in *.
  assert (u64 (base + imm) = base + imm) as -> by (apply wrap_id; unfold in_u; zpow; lia).
  split; [done|]. split; [apply wrap_id; unfold in_u; zpow; lia|].
  intros ?. apply wrap_id. unfold in_u. lia.
Qed.

Lemma mem_size_bounds mt : 0 < Z.of_nat (mem_size mt) <= 8.
Proof. by destruct mt. Qed.

(** The state with memory [idx] replaced. *)
Definition set_mem (st : State) (idx : Z) (m : Memory) : State :=
  mkState (with_memories (st_env st) (<[Z.to_nat idx := m]> (memories (st_env st))))
    (st_thread st) (st_pc st).

Section accesses.
Context (t : ValType) (mt : MemType).
#[local] Abbreviation n := (Z.of_nat (mem_size mt)).

Lemma run_LOAD st idx imm m slot :
  mem_operands st idx imm m -> zget (st_vs st) (st_top st - 1) = Some slot ->
  let ea := get_field I32 slot + imm in
  LOAD t mt (move st (st_top st) (st_pc st + 1)) =
    match (if ea + n <=? mem_byte_size m then zslice (mem_data m) ea n else None) with
    | Some bytes => Done tt (result_state st 1 (set_field t slot (mem_extend t mt (of_le bytes))) 9)
    | None => Exit WASM_INTERPRETER_TRAP_MEMORY_ACCESS_OUT_OF_BOUNDS
                (move st (st_top st - 1) (st_pc st + 9))
    end.
Proof.
  intros [Hi Hm [Hlen _ Hu32 _ _] Ho He] Hs ea. unfold LOAD.
  erewrite bind_Done; [|by apply (run_GET_MEMORY _ idx m)]. cbn [snd].
  erewrite bind_Done; [|by apply (run_POP_TYPE I32 _ slot)].
  set (st2 := move _ _ _).
  assert (read_u32_at (st_env st2) (st_pc st2) = Some imm) as Ho'.
  { cbn. by replace (st_pc st + 1 + 4) with (st_pc st + 5) by lia. }
  rewrite (bind_Done _ _ _ _ _ (run_read_u32 _ _ Ho')). cbv zeta.
  destruct (effective_address (get_field I32 slot) imm n m (get_field_u I32 slot)
    (read_u32_at_u _ _ _ He Ho) (mem_size_bounds mt) Hu32) as (Ea & Eb & Ec).
  rewrite Eb. fold ea in Ea, Ec |- *. rewrite Ea in Ec |- *.
  assert (move st2 (st_top st2) (st_pc st2 + 4) = move st (st_top st - 1) (st_pc st + 9)) as ->.
  { unfold st2, move. cbn. f_equal. lia. }
  unfold TRAP_IF. destruct (Z.ltb_spec (mem_byte_size m) (ea + n)) as [Hlt|Hge].
  - by rewrite (proj2 (Z.leb_gt _ _)) by lia.
  - rewrite (proj2 (Z.leb_le _ _)) by lia. unfold bind at 1, ret at 1.
    rewrite Ec by lia.
    assert (0 <= ea) as Hea.
    { pose proof (get_field_u I32 slot). pose proof (read_u32_at_u _ _ _ He Ho).
      unfold in_u in *. lia. }
    rewrite zslice_Some by lia. cbn [some_or_undef]. unfold bind at 1, ret at 1.
    rewrite (run_PUSH_TYPE _ _ _ slot) by done. done.
Qed.

(** The bytes a store writes. *)
Definition stored_bytes (sv : Z) : list Z :=
  le_bytes (mem_size mt) (wrap (mem_bits mt) (get_field t sv)).

Lemma run_STORE st idx imm m sb sv :
  mem_operands st idx imm m -> zslice (st_vs st) (st_top st - 2) 2 = Some [sb; sv] ->
  let ea := get_field I32 sb + imm in
  STORE t mt (move st (st_top st) (st_pc st + 1)) =
    match (if ea + n <=? mem_byte_size m then zblit (mem_data m) ea (stored_bytes sv) else None) with
    | Some data =>
        Done tt (move (set_mem st idx (mkMemory data (mem_page_limits m) (mem_byte_size m)))
                   (st_top st - 2) (st_pc st + 9))
    | None => Exit WASM_INTERPRETER_TRAP_MEMORY_ACCESS_OUT_OF_BOUNDS
                (move st (st_top st - 2) (st_pc st + 9))
    end.
Proof.
  intros [Hi Hm [Hlen _ Hu32 _ _] Ho He] (a & b & [= <- <-] & Ha & Hb)%zslice_2 ea. unfold STORE.
  replace (st_top st - 2 + 1) with (st_top st - 1) in Hb by lia.
  erewrite bind_Done; [|by apply (run_GET_MEMORY _ idx m)]. cbn [snd fst].
  erewrite bind_Done; [|by apply (run_POP_TYPE t _ sv)].
  erewrite bind_Done; [|apply (run_POP_TYPE I32 _ sb); cbn;
    by replace (st_top st - 1 - 1) with (st_top st - 2) by lia].
  set (st2 := move _ _ _).
  assert (read_u32_at (st_env st2) (st_pc st2) = Some imm) as Ho'.
  { cbn. by replace (st_pc st + 1 + 4) with (st_pc st + 5) by lia. }
  rewrite (bind_Done _ _ _ _ _ (run_read_u32 _ _ Ho')). cbv zeta.
  destruct (effective_address (get_field I32 sb) imm n m (get_field_u I32 sb)
    (read_u32_at_u _ _ _ He Ho) (mem_size_bounds mt) Hu32) as (Ea & Eb & Ec).
  rewrite Eb. fold ea in Ea, Ec |- *. rewrite Ea in Ec |- *.
  assert (move st2 (st_top st2) (st_pc st2 + 4) = move st (st_top st - 2) (st_pc st + 9)) as ->.
  { unfold st2, move. cbn. f_equal; [f_equal|]; lia. }
  unfold TRAP_IF. destruct (Z.ltb_spec (mem_byte_size m) (ea + n)) as [Hlt|Hge].
  - by rewrite (proj2 (Z.leb_gt _ _)) by lia.
  - rewrite (proj2 (Z.leb_le _ _)) by lia. unfold bind at 1, ret at 1.
    rewrite Ec by lia.
    assert (0 <= ea) as Hea.
    { pose proof (get_field_u I32 sb). pose proof (read_u32_at_u _ _ _ He Ho).
      unfold in_u in *. lia. }
    fold (stored_bytes sv). rewrite zblit_Some by (unfold stored_bytes; rewrite ?length_le_bytes; lia).
    cbn [some_or_undef]. unfold bind at 1, ret at 1.
    unfold set_memory, bind, get_env, get, ret, bind. cbn.
    by rewrite zset_Some by (by eapply zget_lt).
Qed.
End accesses.

Section access_instructions.
Context `{NanBits} `{MemAllocator}.

Lemma dispatch_load top op t n sign : spec_load op = Some (t, n, sign) ->
  exists mt, dispatch top (WasmOp op) = LOAD t mt /\ mem_size mt = n /\
    forall bytes, bytes_ok bytes -> length bytes = n ->
      mem_extend t mt (of_le bytes) = spec_load_value t n sign bytes /\
      in_u (VALUE_TYPE t) (spec_load_value t n sign bytes).
Proof.
  destruct op; cbn [spec_load]; intros [= <- <- <-]; eexists; (split; [reflexivity|]);
    (split; [done|]); intros bytes Hb Hl; pose proof (of_le_bound bytes Hb) as Hv;
    rewrite Hl in Hv; unfold mem_extend, spec_load_value;
    cbn [mem_signed mem_bits mem_size VALUE_TYPE];
    (split; [try done; apply wrap_id|]; try (apply wrap_in_u; lia)); unfold in_u in *;
    cbn in Hv; zpow; lia.
Qed.

(** C13 - The loads.  Each of the 14 load instructions computes base plus
    offset without wrap-around, traps exactly when the access does not fit
    in the memory, and otherwise replaces the base by the bytes at that
    address, zero- or sign-extended to the type of the instruction. *)
Theorem load_instructions_correct top st op t n sign idx imm m slot :
  spec_load op = Some (t, n, sign) -> fetches st (WasmOp op) ->
  mem_operands st idx imm m -> zget (st_vs st) (st_top st - 1) = Some slot ->
  let ea := get_field I32 slot + imm in
  (mem_byte_size m < ea + Z.of_nat n /\
   step top st = Exit WASM_INTERPRETER_TRAP_MEMORY_ACCESS_OUT_OF_BOUNDS
                   (move st (st_top st - 1) (st_pc st + 9))) \/
  (ea + Z.of_nat n <= mem_byte_size m /\
   exists bytes s, zslice (mem_data m) ea (Z.of_nat n) = Some bytes /\
     get_field t s = spec_load_value t n sign bytes /\
     step top st = Done tt (result_state st 1 s 9)).
Proof.
  intros Hop Hf Hm Hs ea. rewrite (run_step top st _ Hf).
  destruct (dispatch_load top op t n sign Hop) as (mt & -> & <- & Hv).
  rewrite (run_LOAD t mt st idx imm m slot Hm Hs). fold ea.
  destruct (Z.leb_spec (ea + Z.of_nat (mem_size mt)) (mem_byte_size m)) as [Hle|]; [right|by left].
  destruct Hm as [_ _ [Hlen _ _ Hbytes _] Ho He]. split; [done|].
  assert (0 <= ea) as Hea.
  { pose proof (get_field_u I32 slot). pose proof (read_u32_at_u _ _ _ He Ho).
    unfold in_u in *. lia. }
  destruct (zslice (mem_data m) ea (Z.of_nat (mem_size mt))) as [bytes|] eqn:Eb;
    [|by rewrite zslice_Some in Eb by lia].
  pose proof (Forall_zslice _ _ _ _ _ Hbytes Eb) as Hb.
  apply zslice_length in Eb as Hl. destruct (Hv bytes Hb ltac:(lia)) as [E Hu].
  eexists bytes, _. split; [done|]. split; [|done].
  rewrite get_set_field, E. by apply wrap_id.
Qed.

Lemma dispatch_store top op t n : spec_store op = Some (t, n) ->
  exists mt, dispatch top (WasmOp op) = STORE t mt /\ mem_size mt = n /\
    8 * Z.of_nat n <= VALUE_TYPE t.
Proof.
  destruct op; cbn [spec_store]; intros [= <- <-]; eexists; (split; [reflexivity|done]).
Qed.

(** C14 - The stores.  Each of the 9 store instructions traps exactly when
    the access does not fit in the memory, and then leaves it as it was.
    Otherwise it writes the low bytes of the value at base plus offset and
    nowhere else: reading the same bytes back gives the value modulo
    [2 ^ (8 * n)], every byte outside the access is untouched, and the memory
    is still well formed. *)
Theorem store_instructions_correct top st op t n idx imm m sb sv :
  spec_store op = Some (t, n) -> fetches st (WasmOp op) ->
  mem_operands st idx imm m -> zslice (st_vs st) (st_top st - 2) 2 = Some [sb; sv] ->
  let ea := get_field I32 sb + imm in
  (mem_byte_size m < ea + Z.of_nat n /\
   step top st = Exit WASM_INTERPRETER_TRAP_MEMORY_ACCESS_OUT_OF_BOUNDS
                   (move st (st_top st - 2) (st_pc st + 9))) \/
  (ea + Z.of_nat n <= mem_byte_size m /\
   exists m' bytes, step top st = Done tt (move (set_mem st idx m') (st_top st - 2) (st_pc st + 9)) /\
     mem_ok m' /\ mem_page_limits m' = mem_page_limits m /\
     zslice (mem_data m') ea (Z.of_nat n) = Some bytes /\
     of_le bytes = get_field t sv mod 2 ^ (8 * Z.of_nat n) /\
     forall j, j < ea \/ ea + Z.of_nat n <= j -> zget (mem_data m') j = zget (mem_data m) j).
Proof.
  intros Hop Hf Hm Hs ea. rewrite (run_step top st _ Hf).
  destruct (dispatch_store top op t n Hop) as (mt & -> & <- & Hn).
  rewrite (run_STORE t mt st idx imm m sb sv Hm Hs). fold ea.
  destruct (Z.leb_spec (ea + Z.of_nat (mem_size mt)) (mem_byte_size m)) as [Hle|]; [right|by left].
  destruct Hm as [_ _ [Hlen Hp Hu Hbytes Hmax] Ho He]. split; [done|].
  assert (0 <= ea) as Hea.
  { pose proof (get_field_u I32 sb). pose proof (read_u32_at_u _ _ _ He Ho).
    unfold in_u in *. lia. }
  assert (Z.of_nat (length (stored_bytes t mt sv)) = Z.of_nat (mem_size mt)) as El
    by (unfold stored_bytes; by rewrite length_le_bytes).
  destruct (zblit (mem_data m) ea (stored_bytes t mt sv)) as [data|] eqn:Eb;
    [|by rewrite zblit_Some in Eb by lia].
  pose proof (zblit_length _ _ _ _ Eb) as Ed.
  eexists _, (stored_bytes t mt sv). split; [done|]. split_and!.
  - constructor; cbn; try done; [by rewrite Ed|].
    exact (Forall_zblit _ _ _ _ _ Hbytes (le_bytes_ok _ _) Eb).
  - done.
  - cbn. rewrite <- El. by apply (zslice_zblit (mem_data m)).
  - unfold stored_bytes. rewrite of_le_bytes. unfold wrap, mem_bits. by rewrite Z.mod_mod by lia.
  - intros j Hj. cbn. apply (zget_zblit_out _ _ _ _ _ Eb). by rewrite El.
Qed.
End access_instructions.

(** One page of zeros. *)
Definition demo_memory : Memory :=
  mkMemory (replicate (Z.to_nat 65536) 0) (mkLimits 1 2 true) 65536.

Lemma demo_memory_ok : mem_ok demo_memory.
Proof.
  constructor; cbn [demo_memory mem_data mem_byte_size mem_page_limits lim_initial lim_max lim_has_max];
    [by rewrite length_replicate|done|done|by apply Forall_replicate, in_u_0|done].
Qed.

Definition demo_mem_state (prog stack : list Z) : State :=
  let st := demo_state prog stack in
  mkState (with_memories (st_env st) [demo_memory]) (st_thread st) 0.

Lemma demo_mem_operands op imm stack : in_u 8 (opcode_code op) -> in_u 32 imm ->
  mem_operands (demo_mem_state (opcode_code op :: le_bytes 4 0 ++ le_bytes 4 imm) stack)
    0 imm demo_memory.
Proof.
  intros Ho Hi. constructor; try done.
  - apply demo_memory_ok.
  - change (Some (of_le (le_bytes 4 imm)) = Some imm). by rewrite of_le_bytes_in_u.
  - cbn [istream st_env]. constructor; [done|].
    apply Forall_app_2; apply le_bytes_ok.
Qed.

Lemma load_instructions_correct_witness :
  let st := demo_mem_state (opcode_code WASM_OPCODE_I32_LOAD :: le_bytes 4 0 ++ le_bytes 4 0xffffffff)
              [0xffffffff] in
  @step default_nan_bits plain_alloc 0 st =
    Exit WASM_INTERPRETER_TRAP_MEMORY_ACCESS_OUT_OF_BOUNDS (move st 0 9).
Proof.
  cbn zeta.
  destruct (@load_instructions_correct default_nan_bits plain_alloc 0
    (demo_mem_state (opcode_code WASM_OPCODE_I32_LOAD :: le_bytes 4 0 ++ le_bytes 4 0xffffffff)
       [0xffffffff])
    WASM_OPCODE_I32_LOAD I32 4 false 0 0xffffffff demo_memory 0xffffffff eq_refl eq_refl
    (demo_mem_operands WASM_OPCODE_I32_LOAD 0xffffffff [0xffffffff] ltac:(done) ltac:(done)) eq_refl)
    as [[_ E]|[Hle _]].
  - exact E.
  - exfalso. vm_compute in Hle. by apply Hle.
Defined.

Lemma store_instructions_correct_witness :
  let st := demo_mem_state (opcode_code WASM_OPCODE_I64_STORE16 :: le_bytes 4 0 ++ le_bytes 4 6)
              [2; 0x12345678] in
  exists m' bytes,
    @step default_nan_bits plain_alloc 0 st = Done tt (move (set_mem st 0 m') 0 9) /\
    zslice (mem_data m') 8 2 = Some bytes /\ of_le bytes = 0x5678.
Proof.
  cbn zeta.
  destruct (@store_instructions_correct default_nan_bits plain_alloc 0
    (demo_mem_state (opcode_code WASM_OPCODE_I64_STORE16 :: le_bytes 4 0 ++ le_bytes 4 6)
       [2; 0x12345678])
    WASM_OPCODE_I64_STORE16 I64 2 0 6 demo_memory 2 0x12345678 eq_refl eq_refl
    (demo_mem_operands WASM_OPCODE_I64_STORE16 6 [2; 0x12345678] ltac:(done) ltac:(done)) eq_refl)
    as [[Hlt _]|(_ & m' & bytes & E & _ & _ & Hs & Hb & _)].
  - exfalso. vm_compute in Hlt. discriminate.
  - exists m', bytes. split; [exact E|]. split; [exact Hs|exact Hb].
Defined.

(** ** Growing a memory *)

Lemma zero_fill_realloc fill data extra :
  0 <= extra ->
  let old := Z.of_nat (length data) in
  zero_fill (realloc_data fill data (old + extra)) old extra =
    Some (data ++ replicate (Z.to_nat extra) 0).
Proof.
  intros He. cbn zeta. unfold zero_fill.
  rewrite realloc_data_length, (proj2 (Z.leb_le _ _)) by lia.
  pose proof (realloc_data_length fill data (Z.of_nat (length data) + extra) ltac:(lia)) as Hl.
  rewrite zblit_Some by (rewrite ?length_replicate; lia). f_equal.
  unfold realloc_data in *.
  rewrite Nat2Z.id, length_replicate, (take_ge data) by lia.
  rewrite take_app_length. do 2 f_equal.
  rewrite drop_ge; [by rewrite app_nil_r|]. rewrite length_app, length_replicate. lia.
Qed.

Lemma run_set_memory st idx m m' : zget (memories (st_env st)) idx = Some m ->
  set_memory idx m' st = Done tt (set_mem st idx m').
Proof.
  intros Hm. unfold set_memory, bind, get_env, get, ret, bind.
  by rewrite zset_Some by (by eapply zget_lt).
Qed.

Section grow.
Context `{NanBits} `{MemAllocator}.

(** The page limit the code compares with. *)
Definition max_pages (m : Memory) : Z :=
  if lim_has_max (mem_page_limits m) then u32 (lim_max (mem_page_limits m)) else WASM_MAX_PAGES.

(** The memory [pages] pages longer. *)
Definition grown (m : Memory) (pages : Z) : Memory :=
  let old := lim_initial (mem_page_limits m) in
  mkMemory (mem_data m ++ replicate (Z.to_nat (pages * WASM_PAGE_SIZE)) 0)
    (mkLimits (old + pages) (lim_max (mem_page_limits m)) (lim_has_max (mem_page_limits m)))
    ((old + pages) * WASM_PAGE_SIZE).

Definition may_grow (m : Memory) (pages : Z) : bool :=
  let new := lim_initial (mem_page_limits m) + pages in
  negb ((max_pages m <? new) || (UINT32_MAX <? new * WASM_PAGE_SIZE) || negb (alloc_ok (new * WASM_PAGE_SIZE))).

Lemma grown_ok m pages : mem_ok m -> 0 <= pages -> may_grow m pages = true ->
  lim_initial (mem_page_limits m) + pages < 2 ^ 32 -> mem_ok (grown m pages).
Proof.
  intros [Hlen Hp Hu Hbytes Hmax] Hg Hm Hsum. unfold may_grow in Hm.
  apply negb_true_iff, orb_false_iff in Hm as [[Hmx Hfit%Z.ltb_ge]%orb_false_iff _].
  unfold UINT32_MAX, in_u, WASM_PAGE_SIZE in *. unfold grown, WASM_PAGE_SIZE.
  constructor; cbn [mem_data mem_byte_size mem_page_limits lim_initial lim_max lim_has_max].
  - rewrite length_app, length_replicate. lia.
  - done.
  - unfold in_u. lia.
  - apply Forall_app_2; [done|]. by apply Forall_replicate, in_u_0.
  - intros Hh. specialize (Hmax Hh). unfold max_pages in Hmx. rewrite Hh in Hmx. apply Z.ltb_ge in Hmx.
    etrans; [exact Hmx|apply wrap_le; lia].
Qed.

Lemma run_grow_memory top st idx m slot :
  fetches st (WasmOp WASM_OPCODE_GROW_MEMORY) ->
  read_u32_at (st_env st) (st_pc st + 1) = Some idx ->
  zget (memories (st_env st)) idx = Some m -> mem_ok m ->
  zget (st_vs st) (st_top st - 1) = Some slot ->
  let grow := get_field I32 slot in
  let old := lim_initial (mem_page_limits m) in
  old + grow < 2 ^ 32 ->
  step top st = Done tt
    (if may_grow m grow then result_state (set_mem st idx (grown m grow)) 1 (set_field I32 slot old) 5
     else result_state st 1 (set_field I32 slot (-1)) 5).
Proof.
  intros Hf Hi Hm Hok Hs grow old Hsum. pose proof Hok as [Hlen Hp Hu Hbytes Hmax].
  pose proof (get_field_u I32 slot) as Hg. fold grow in Hg. cbn [VALUE_TYPE] in Hg.
  unfold in_u, WASM_PAGE_SIZE in Hg, Hu, Hp. fold old in Hp.
  rewrite (run_step top st _ Hf).
  change (dispatch top (WasmOp WASM_OPCODE_GROW_MEMORY)) with op_grow_memory.
  unfold op_grow_memory. erewrite bind_Done; [|by apply (run_GET_MEMORY _ idx m)]. cbn [snd fst].
  erewrite bind_Done; [|by apply (run_POP_TYPE I32 _ slot)]. cbv zeta.
  set (st2 := move _ _ _). fold old grow (max_pages m).
  assert (st2 = move st (st_top st - 1) (st_pc st + 5)) as E2 by (unfold st2, move; cbn; f_equal; lia).
  clearbody st2. subst st2.
  assert (u32 old = old) as -> by (apply wrap_id; unfold in_u; lia).
  assert (u32 (old + grow) = old + grow) as -> by (apply wrap_id; unfold in_u; lia).
  assert (u64 ((old + grow) * WASM_PAGE_SIZE) = (old + grow) * WASM_PAGE_SIZE) as ->
    by (apply wrap_id; unfold in_u, WASM_PAGE_SIZE; lia).
  assert (PUSH_TYPE I32 (-1) (move st (st_top st - 1) (st_pc st + 5)) =
    Done tt (result_state st 1 (set_field I32 slot (-1)) 5)) as Hrefuse by (by rewrite (run_PUSH_TYPE _ _ _ slot)).
  unfold may_grow. fold old.
  destruct (max_pages m <? old + grow) eqn:Hmx; cbn [orb negb]; [exact Hrefuse|].
  destruct (Z.ltb_spec UINT32_MAX ((old + grow) * WASM_PAGE_SIZE)) as [|Hfit]; cbn [orb];
    [exact Hrefuse|].
  unfold UINT32_MAX, WASM_PAGE_SIZE in Hfit.
  assert (u32 ((old + grow) * WASM_PAGE_SIZE) = (old + grow) * WASM_PAGE_SIZE) as ->
    by (apply wrap_id; unfold in_u, WASM_PAGE_SIZE; lia).
  destruct (negb (alloc_ok _)) eqn:Ha; cbn [negb]; [exact Hrefuse|].
  assert (u32 ((old + grow) * WASM_PAGE_SIZE - mem_byte_size m) = grow * WASM_PAGE_SIZE) as ->.
  { rewrite Hp. rewrite wrap_id; unfold in_u, WASM_PAGE_SIZE; lia. }
  pose proof (zero_fill_realloc alloc_fill (mem_data m) (grow * WASM_PAGE_SIZE)
    ltac:(unfold WASM_PAGE_SIZE; lia)) as Hz.
  cbv zeta in Hz. rewrite Hlen in Hz.
  assert (mem_byte_size m + grow * WASM_PAGE_SIZE = (old + grow) * WASM_PAGE_SIZE) as Esz
    by (unfold WASM_PAGE_SIZE; lia).
  rewrite Esz in Hz. rewrite Hz. cbn [some_or_undef]. unfold bind at 1, ret at 1.
  erewrite bind_Done; [|by apply (run_set_memory _ idx m)].
  erewrite run_PUSH_TYPE by exact Hs.
  unfold grown. fold old. done.
Qed.

(** C23 - [grow_memory].  When the sum of the page counts fits in 32 bits, the
    growth is refused (the result is -1 and the machine is otherwise as it
    was) exactly when the new size is above the maximum, has a byte size
    above [UINT32_MAX], or the allocator fails; otherwise the result is the
    old page count and the memory is the old bytes followed by zeros, well
    formed and with the same maximum. *)
Theorem grow_memory_correct top st idx m slot :
  fetches st (WasmOp WASM_OPCODE_GROW_MEMORY) ->
  read_u32_at (st_env st) (st_pc st + 1) = Some idx ->
  zget (memories (st_env st)) idx = Some m -> mem_ok m ->
  zget (st_vs st) (st_top st - 1) = Some slot ->
  let grow := get_field I32 slot in
  let old := lim_initial (mem_page_limits m) in
  old + grow < 2 ^ 32 ->
  if (max_pages m <? old + grow) || (UINT32_MAX <? (old + grow) * WASM_PAGE_SIZE)
     || negb (alloc_ok ((old + grow) * WASM_PAGE_SIZE))
  then exists s, get_field I32 s = 2 ^ 32 - 1 /\ step top st = Done tt (result_state st 1 s 5)
  else exists s m', get_field I32 s = old /\
         step top st = Done tt (result_state (set_mem st idx m') 1 s 5) /\
         mem_data m' = mem_data m ++ replicate (Z.to_nat (grow * WASM_PAGE_SIZE)) 0 /\
         lim_initial (mem_page_limits m') = old + grow /\
         mem_decl m' = mem_decl m /\ mem_ok m'.
Proof.
  intros Hf Hi Hm Hok Hs grow old Hsum. pose proof (get_field_u I32 slot) as Hg. fold grow in Hg.
  pose proof (run_grow_memory top st idx m slot Hf Hi Hm Hok Hs Hsum) as E. fold grow old in E.
  unfold may_grow in E. fold old in E. destruct (_ || _) eqn:Hgrow in E |- *; cbn [negb] in E.
  - exists (set_field I32 slot (-1)). split; [by rewrite get_set_field|exact E].
  - exists (set_field I32 slot old), (grown m grow). split.
    { rewrite get_set_field. apply wrap_id. destruct Hok as [_ Hp Hu _ _]. unfold in_u, WASM_PAGE_SIZE in *.
      cbn [VALUE_TYPE] in *. fold old in Hp. lia. }
    split; [exact E|]. split_and!; try done. apply grown_ok; [done| |unfold may_grow; fold old; by rewrite Hgrow|done].
    unfold in_u in Hg. cbn [VALUE_TYPE] in Hg. lia.
Qed.
End grow.

(** The 32-bit sum of the page counts is not checked for overflow: growing one
    page by 2^32 - 1 pages passes every test with a new size of no pages, and
    the [memset] that follows runs far outside the block. *)
Theorem grow_memory_wraps :
  let st := demo_mem_state (opcode_code WASM_OPCODE_GROW_MEMORY :: le_bytes 4 0) [0xffffffff] in
  @step default_nan_bits plain_alloc 0 st = Undef.
Proof. vm_compute. reflexivity. Qed.

Lemma grow_memory_correct_witness :
  let st := demo_mem_state (opcode_code WASM_OPCODE_GROW_MEMORY :: le_bytes 4 0) [1] in
  exists s m', get_field I32 s = 1 /\
    @step default_nan_bits plain_alloc 0 st = Done tt (result_state (set_mem st 0 m') 1 s 5) /\
    mem_ok m'.
Proof.
  cbn zeta.
  pose proof (@grow_memory_correct default_nan_bits plain_alloc 0
    (demo_mem_state (opcode_code WASM_OPCODE_GROW_MEMORY :: le_bytes 4 0) [1]) 0 demo_memory 1
    eq_refl eq_refl eq_refl demo_memory_ok eq_refl eq_refl) as (s & m' & Hs & E & _ & _ & _ & Hm).
  exists s, m'. split; [exact Hs|]. split; [exact E|exact Hm].
Defined.
