(* ===== verification/InterpControl.v ===== *)
(** * Control transfer in the interpreter

    The operand stack of a state as a list, and what the instructions that move
    the pc do to it: branches with their drop and keep counts, the branch
    table, calls, returns and indirect calls with every trap. *)

From S2P Require Import Prelude Opcode Float Numeric Interp InterpFacts InterpOps.
#[local] Open Scope interp_scope.

(** ** The operand stack *)

(** Deepest slot first. *)
Definition stack_of (st : State) : list Z := take (Z.to_nat (st_top st)) (st_vs st).

Definition stack_wf (st : State) : Prop :=
  0 <= st_top st <= Z.of_nat (length (st_vs st)).

(** Everything but the operand stack and the pc. *)
Definition same_rest (st st' : State) : Prop :=
  st_env st' = st_env st /\ call_stack (st_thread st') = call_stack (st_thread st) /\
  call_stack_top (st_thread st') = call_stack_top (st_thread st) /\
  length (st_vs st') = length (st_vs st).

Lemma stack_of_length st : stack_wf st -> Z.of_nat (length (stack_of st)) = st_top st.
Proof. unfold stack_wf, stack_of. intros. rewrite length_take. lia. Qed.

(** The slot [d] below the top of the stack is the [d]-th last element. *)
Lemma stack_of_zget st base x above : stack_wf st -> stack_of st = base ++ x :: above ->
  zget (st_vs st) (Z.of_nat (length base)) = Some x /\
  st_top st = Z.of_nat (length base) + 1 + Z.of_nat (length above).
Proof.
  intros Hw Hs. pose proof (stack_of_length st Hw) as Hl.
  rewrite Hs, length_app in Hl. cbn [length] in Hl. split; [|lia].
  apply zget_Some. split; [lia|]. rewrite Nat2Z.id.
  assert (stack_of st !! length base = Some x) as E
    by (rewrite Hs; by apply list_lookup_middle).
  unfold stack_of in E. by apply lookup_take_Some in E as [? _].
Qed.

Lemma stack_of_move st top pc base above : stack_wf st -> stack_of st = base ++ above ->
  top = Z.of_nat (length base) -> stack_of (move st top pc) = base /\ stack_wf (move st top pc).
Proof.
  intros Hw Hs ->. pose proof (stack_of_length st Hw) as Hl. rewrite Hs, length_app in Hl.
  assert (take (length base) (stack_of st) = base) as E by (rewrite Hs; apply take_app_length).
  unfold stack_of, stack_wf, move, st_top, st_vs in *. cbn. split; [|lia].
  rewrite take_take in E. by replace (Z.to_nat (Z.of_nat (length base)))
    with (length base `min` Z.to_nat (value_stack_top (st_thread st)))%nat by lia.
Qed.

Lemma take_insert_snoc {A} (l : list A) i x : (i < length l)%nat ->
  take (S i) (<[i := x]> l) = take i l ++ [x].
Proof.
  intros Hi. rewrite (take_S_r _ _ x) by (by apply list_lookup_insert_eq).
  by rewrite take_insert_ge by lia.
Qed.

(** Overwriting the slot above [base] and moving the top just past it. *)
Lemma stack_of_put st base above x pc : stack_wf st -> stack_of st = base ++ above ->
  Z.of_nat (length base) < Z.of_nat (length (st_vs st)) ->
  let i := Z.of_nat (length base) in
  stack_of (move (put st i x) (i + 1) pc) = base ++ [x] /\
  stack_wf (move (put st i x) (i + 1) pc) /\ same_rest st (move (put st i x) (i + 1) pc).
Proof.
  intros Hw Hs Hi. cbn zeta.
  destruct (stack_of_move st (Z.of_nat (length base)) pc base above Hw Hs eq_refl) as [Hb _].
  unfold stack_of, stack_wf, same_rest, move, put, st_top, st_vs in *. cbn in *.
  rewrite length_insert. split_and!; try done; try lia.
  rewrite Nat2Z.id in *. rewrite <- Hb at 3.
  replace (Z.to_nat (Z.of_nat (length base) + 1)) with (S (length base)) by lia.
  rewrite take_insert_snoc by lia. done.
Qed.

Lemma run_SET_PICK d v st : 0 <= st_top st - d < Z.of_nat (length (st_vs st)) ->
  SET_PICK d v st = Done tt (put st (st_top st - d) v).
Proof.
  intros Hd. unfold SET_PICK, bind, get_thread, get, ret, bind. unfold st_top, st_vs in *.
  by rewrite zset_Some by lia.
Qed.

(** [DROP_KEEP] removes [drop] slots from below the [keep] top ones. *)
Lemma run_DROP_KEEP st base dropped kept :
  stack_wf st -> stack_of st = base ++ dropped ++ kept -> (length kept <= 1)%nat ->
  Z.of_nat (length dropped) < 2 ^ 32 - 1 ->
  exists st', DROP_KEEP (Z.of_nat (length dropped)) (Z.of_nat (length kept)) st = Done tt st' /\
    stack_of st' = base ++ kept /\ stack_wf st' /\ same_rest st st' /\ st_pc st' = st_pc st.
Proof.
  intros Hw Hs Hk Hd. pose proof (stack_of_length st Hw) as Hl.
  rewrite Hs, !length_app in Hl. unfold DROP_KEEP.
  erewrite bind_Done; [|unfold c_assert; by rewrite (proj2 (Z.leb_le _ _)) by lia].
  destruct kept as [|x [|? ?]]; cbn [length] in *; [| |lia].
  - rewrite app_nil_r in *. erewrite bind_Done by done.
    exists (move st (st_top st - Z.of_nat (length dropped)) (st_pc st)). split.
    { unfold DROP, bind, get_thread, get, ret, bind, c_assert. unfold st_top in *.
      by rewrite (proj2 (Z.leb_le _ _)) by lia. }
    destruct (stack_of_move st (st_top st - Z.of_nat (length dropped)) (st_pc st) base dropped)
      as [? ?]; [done|done|lia|]. by split_and!.
  - rewrite app_assoc in Hs. destruct (stack_of_zget st _ _ _ Hw Hs) as [Hx Htop].
    rewrite length_app in Hx, Htop. cbn [length] in Htop. rewrite <- app_assoc in Hs.
    change (Z.of_nat 1 =? 1) with true. cbv iota.
    set (d := Z.of_nat (length dropped)) in *. set (i := Z.of_nat (length base)).
    assert (u32 (d + 1) = d + 1) as -> by (apply wrap_id; unfold in_u; lia).
    assert (st_top st <= Z.of_nat (length (st_vs st))) by apply Hw.
    exists (move (put st i x) (i + 1) (st_pc st)).
    split; [|destruct (stack_of_put st base _ x (st_pc st) Hw Hs ltac:(lia)) as (? & ? & ?);
             by split_and!].
    erewrite bind_Done.
    2: { erewrite bind_Done; [|apply (some_or_undef_Some _ x)].
         - apply run_SET_PICK. lia.
         - rewrite <- Hx. unfold st_vs, st_top. f_equal. unfold st_top in *. lia. }
    unfold DROP, bind, get_thread, get, ret, bind, c_assert, move, put, st_top, st_vs in *. cbn in *.
    rewrite (proj2 (Z.leb_le _ _)) by lia. cbn.
    unfold set_thread. cbn. unfold with_value_stack. cbn. do 3 f_equal; [|lia].
    do 2 f_equal. lia.
Qed.

(** Popping one operand of a stack given as a list. *)
Lemma run_pop_list t st base slot : stack_wf st -> stack_of st = base ++ [slot] ->
  POP_TYPE t st = Done (get_field t slot) (move st (st_top st - 1) (st_pc st)) /\
  stack_of (move st (st_top st - 1) (st_pc st)) = base /\
  stack_wf (move st (st_top st - 1) (st_pc st)).
Proof.
  intros Hw Hs. destruct (stack_of_zget st base slot [] Hw Hs) as [Hx Ht]. cbn [length] in Ht.
  split; [|apply (stack_of_move st _ _ base [slot]); [done|done|lia]].
  apply run_POP_TYPE. by replace (st_top st - 1) with (Z.of_nat (length base)) by lia.
Qed.

Lemma stack_wf_pc st pc : stack_wf st -> stack_wf (move st (st_top st) pc).
Proof. done. Qed.

Section control.
Context `{NanBits} `{MemAllocator}.

(** C20 - [br_table].  The key selects its entry of the table, or the default
    entry, stored after the others, when it is not below the number of
    targets; the instruction removes the entry's drop count from below the
    values it keeps and jumps to the entry's offset. *)
Theorem br_table_correct top st num table_offset base dropped kept slot offset :
  stack_wf st -> stack_of st = base ++ dropped ++ kept ++ [slot] ->
  fetches st (WasmOp WASM_OPCODE_BR_TABLE) ->
  read_u32_at (st_env st) (st_pc st + 1) = Some num ->
  read_u32_at (st_env st) (st_pc st + 5) = Some table_offset ->
  let key := get_field I32 slot in
  let entry := table_offset + Z.min key num * WASM_TABLE_ENTRY_SIZE in
  0 <= num -> num * WASM_TABLE_ENTRY_SIZE < 2 ^ 32 ->
  read_table_entry_at (st_env st) entry =
    Some (offset, Z.of_nat (length dropped), Z.of_nat (length kept)) ->
  (length kept <= 1)%nat -> Z.of_nat (length dropped) < 2 ^ 32 - 1 ->
  exists st', step top st = Done tt st' /\ st_pc st' = offset /\
    stack_of st' = base ++ kept /\ stack_wf st' /\ same_rest st st'.
Proof.
  intros Hw Hs Hf Hn Ht key entry H0n Hnum He Hk Hd. unfold WASM_TABLE_ENTRY_SIZE in *.
  rewrite (run_step top st _ Hf).
  change (dispatch top (WasmOp WASM_OPCODE_BR_TABLE)) with op_br_table. unfold op_br_table, WASM_TABLE_ENTRY_SIZE.
  erewrite bind_Done; [|by apply run_read_u32].
  erewrite bind_Done; [|apply run_read_u32; cbn; by rewrite <- Z.add_assoc].
  rewrite !app_assoc in Hs.
  set (st2 := move _ _ _).
  destruct (run_pop_list I32 st2 ((base ++ dropped) ++ kept) slot Hw Hs) as (Hp & Hs3 & Hw3).
  rewrite (bind_Done _ _ _ _ _ Hp). cbv zeta. fold key. rewrite <- app_assoc in Hs3.
  assert (u32 ((if num <=? key then num else key) * 9) = Z.min key num * 9) as ->.
  { pose proof (get_field_u I32 slot) as Hkey. fold key in Hkey. unfold in_u in Hkey.
    rewrite wrap_id; [|unfold in_u]; destruct (Z.leb_spec num key); lia. }
  set (st3 := move st2 _ _) in *.
  erewrite (bind_Done get_env) by done.
  erewrite (bind_Done (some_or_undef _)) by (by apply some_or_undef_Some).
  destruct (run_DROP_KEEP st3 base dropped kept Hw3 Hs3 Hk Hd) as (st4 & E & Hs4 & Hw4 & Hr & _).
  erewrite bind_Done by exact E.
  exists (move st4 (st_top st4) offset). split; [by destruct st4 as [? [] ?]|].
  by split_and!.
Qed.

(** A state whose call stack has room for one more return address. *)
Definition call_room (st : State) : Prop :=
  0 <= call_stack_top (st_thread st) < Z.of_nat (length (call_stack (st_thread st))).

(** The state after [PUSH_CALL]. *)
Definition push_call_state (st : State) (ret pc : Z) : State :=
  let t := st_thread st in
  mkState (st_env st)
    (with_call_stack t (<[Z.to_nat (call_stack_top t) := ret]> (call_stack t))
       (call_stack_top t + 1)) pc.

Lemma run_PUSH_CALL st : call_room st ->
  PUSH_CALL st = Done tt (push_call_state st (u32 (st_pc st)) (st_pc st)).
Proof.
  intros Hr. unfold PUSH_CALL, bind, get, TRAP_IF. unfold call_room in Hr.
  rewrite (proj2 (Z.leb_gt _ _)) by lia. cbn [ret].
  rewrite zset_Some by done. done.
Qed.

Lemma run_PUSH_CALL_full st :
  Z.of_nat (length (call_stack (st_thread st))) <= call_stack_top (st_thread st) ->
  PUSH_CALL st = Exit WASM_INTERPRETER_TRAP_CALL_STACK_EXHAUSTED st.
Proof.
  intros Hr. unfold PUSH_CALL, bind, get, TRAP_IF. by rewrite (proj2 (Z.leb_le _ _)) by lia.
Qed.

(** C21 - Calls nest.  A [call] pushes the address of the next instruction,
    jumps to its target, and traps instead when the call stack is full.  From
    any state in which the callee has brought the call stack back to where
    the [call] left it, the matching [return] resumes after the [call], with
    the operand stack as the callee left it. *)
Theorem call_return_correct top st offset :
  fetches st (WasmOp WASM_OPCODE_CALL) ->
  read_u32_at (st_env st) (st_pc st + 1) = Some offset ->
  0 <= st_pc st < 2 ^ 32 - 5 -> 0 <= call_stack_top (st_thread st) ->
  if Z.of_nat (length (call_stack (st_thread st))) <=? call_stack_top (st_thread st)
  then exists st', step top st = Exit WASM_INTERPRETER_TRAP_CALL_STACK_EXHAUSTED st' /\
         st_thread st' = st_thread st
  else step top st = Done tt (push_call_state st (st_pc st + 5) offset) /\
    forall st2,
      fetches st2 (WasmOp WASM_OPCODE_RETURN) ->
      call_stack_top (st_thread st2) = call_stack_top (st_thread st) + 1 ->
      zget (call_stack (st_thread st2)) (call_stack_top (st_thread st)) = Some (st_pc st + 5) ->
      top <> call_stack_top (st_thread st) + 1 ->
      step top st2 =
        Done tt (mkState (st_env st2)
          (with_call_stack (st_thread st2) (call_stack (st_thread st2))
             (call_stack_top (st_thread st))) (st_pc st + 5)).
Proof.
  intros Hf Ho Hpc H0c. rewrite (run_step top st _ Hf).
  change (dispatch top (WasmOp WASM_OPCODE_CALL)) with op_call. unfold op_call.
  erewrite bind_Done; [|by apply run_read_u32].
  destruct (Z.leb_spec (Z.of_nat (length (call_stack (st_thread st)))) (call_stack_top (st_thread st))).
  - eexists. split; [by erewrite bind_Exit by (by apply run_PUSH_CALL_full)|]. by destruct st as [? [] ?].
  - split.
    + erewrite bind_Done by (by apply run_PUSH_CALL). unfold push_call_state, move, GOTO, set_pc. cbn.
      do 3 f_equal. rewrite wrap_id by (unfold in_u; lia). f_equal; lia.
    + intros st2 Hf2 Hc2 Hz Htop. rewrite (run_step top st2 _ Hf2).
      change (dispatch top (WasmOp WASM_OPCODE_RETURN)) with (op_return top).
      unfold op_return, bind at 1, get_thread, bind at 1, get, ret at 1. cbn [st_thread move].
      cbn [with_value_stack call_stack_top]. rewrite Hc2, (proj2 (Z.eqb_neq _ _)) by lia.
      unfold POP_CALL, bind, get_thread, get, ret, bind. cbn. rewrite Hc2.
      replace (call_stack_top (st_thread st) + 1 - 1) with (call_stack_top (st_thread st)) by lia.
      rewrite Hz. by destruct st2 as [? [] ?].
Qed.
End control.

(** ** Indirect calls *)

#[global] Instance FuncSignature_eq_dec : EqDecision FuncSignature.
Proof. solve_decision. Defined.

Lemma type_vectors_are_equal_spec l1 l2 :
  wasm_type_vectors_are_equal l1 l2 = bool_decide (l1 = l2).
Proof.
  unfold wasm_type_vectors_are_equal.
  assert (type_lists_equal l1 l2 = bool_decide (l1 = l2)) as E.
  { revert l2. induction l1 as [|x l1 IH]; intros [|y l2]; try done. cbn [type_lists_equal].
    rewrite IH. repeat case_bool_decide; naive_solver. }
  destruct (Z.eqb_spec (Z.of_nat (length l1)) (Z.of_nat (length l2))); [done|]. cbn [negb].
  symmetry. apply bool_decide_eq_false. by intros ->.
Qed.

(** Two signature indices are interchangeable when they stand for the same
    signature. *)
Lemma func_signatures_are_equal_spec e i j s1 s2 :
  zget (sigs e) i = Some s1 -> zget (sigs e) j = Some s2 ->
  wasm_func_signatures_are_equal e i j = Some (bool_decide (s1 = s2)).
Proof.
  intros H1 H2. unfold wasm_func_signatures_are_equal.
  destruct (Z.eqb_spec i j) as [->|].
  - rewrite H1 in H2. injection H2 as ->. by rewrite bool_decide_true.
  - rewrite H1, H2, !type_vectors_are_equal_spec. f_equal.
    destruct s1 as [p1 r1], s2 as [p2 r2]. cbn. repeat case_bool_decide; naive_solver.
Qed.

(** The functions a table may name. *)
Definition table_ok (e : Env) (t : Table) : Prop :=
  Forall (fun i => i = WASM_INVALID_INDEX \/
    exists f s, zget (funcs e) i = Some f /\ zget (sigs e) (func_sig_index f) = Some s)
    (tbl_func_indexes t).

Section indirect.
Context `{NanBits} `{MemAllocator}.

(** What [call_indirect_correct] states. *)
Lemma call_indirect_step top st ti table si sig slot :
  fetches st (WasmOp WASM_OPCODE_CALL_INDIRECT) ->
  read_u32_at (st_env st) (st_pc st + 1) = Some ti ->
  zget (tables (st_env st)) ti = Some table -> table_ok (st_env st) table ->
  read_u32_at (st_env st) (st_pc st + 5) = Some si ->
  zget (sigs (st_env st)) si = Some sig ->
  zget (st_vs st) (st_top st - 1) = Some slot ->
  0 <= call_stack_top (st_thread st) ->
  let popped := move st (st_top st - 1) (st_pc st + 9) in
  match zget (tbl_func_indexes table) (get_field I32 slot) with
  | None => step top st = Exit WASM_INTERPRETER_TRAP_UNDEFINED_TABLE_INDEX popped
  | Some i =>
      if decide (i = WASM_INVALID_INDEX)
      then step top st = Exit WASM_INTERPRETER_TRAP_UNINITIALIZED_TABLE_ELEMENT popped
      else exists f fsig, zget (funcs (st_env st)) i = Some f /\
        zget (sigs (st_env st)) (func_sig_index f) = Some fsig /\
        if decide (fsig = sig)
        then match func_body f with
             | HostFunc _ _ _ => step top st = (wasm_call_host f;; ret tt) popped
             | DefinedFunc offset _ _ _ =>
                 if Z.of_nat (length (call_stack (st_thread st))) <=? call_stack_top (st_thread st)
                 then step top st = Exit WASM_INTERPRETER_TRAP_CALL_STACK_EXHAUSTED popped
                 else step top st = Done tt (push_call_state popped (u32 (st_pc st + 9)) offset)
             end
        else step top st = Exit WASM_INTERPRETER_TRAP_INDIRECT_CALL_SIGNATURE_MISMATCH popped
  end.
Proof.
  intros Hf Hti Htab Htok Hsi Hsig Hslot H0c popped.
  eassert (step top st =
    bind (TRAP_IF (Z.of_nat (length (tbl_func_indexes table)) <=? get_field I32 slot)
            WASM_INTERPRETER_TRAP_UNDEFINED_TABLE_INDEX) _ popped) as ->.
  { rewrite (run_step top st _ Hf).
    change (dispatch top (WasmOp WASM_OPCODE_CALL_INDIRECT)) with op_call_indirect.
    unfold op_call_indirect, TRAP_UNLESS.
    erewrite bind_Done; [|by apply run_read_u32].
    erewrite (bind_Done get_env) by done.
    erewrite (bind_Done (some_or_undef _)) by (by apply some_or_undef_Some).
    erewrite bind_Done; [|apply run_read_u32; cbn; by rewrite <- Z.add_assoc].
    erewrite bind_Done.
    2: { unfold c_assert. cbn [st_env move]. apply zget_lt in Hsig.
         by rewrite (proj2 (Z.ltb_lt _ _)) by lia. }
    erewrite bind_Done; [|by apply (run_POP_TYPE I32 _ slot)].
    match goal with |- _ ?s = _ =>
      replace s with popped by (unfold popped, move; cbn; f_equal; lia) end.
    cbn [st_env move]. reflexivity. }
  pose proof (get_field_u I32 slot) as Hkey.
  set (key := get_field I32 slot) in *. unfold in_u in Hkey.
  destruct (zget (tbl_func_indexes table) key) as [i|] eqn:Ei.
  2: { unfold TRAP_IF. rewrite (proj2 (Z.leb_le _ _)); [done|].
       destruct (Z.le_gt_cases (Z.of_nat (length (tbl_func_indexes table))) key); [done|].
       destruct (zget_is_Some (tbl_func_indexes table) key) as [? E]; [lia|congruence]. }
  pose proof (zget_lt _ _ _ Ei). pose proof (Forall_zget _ _ _ _ Htok Ei) as Hi.
  unfold TRAP_IF. rewrite (proj2 (Z.leb_gt _ _)) by lia. erewrite (bind_Done (ret tt)) by done.
  erewrite (bind_Done (some_or_undef _)) by done.
  destruct (decide (i = WASM_INVALID_INDEX)) as [->|Hne]; [done|].
  destruct Hi as [|(f & fsig & Hfi & Hfs)]; [done|]. exists f, fsig. do 2 (split; [done|]).
  rewrite (proj2 (Z.eqb_neq _ _)) by done. erewrite (bind_Done (ret tt)) by done.
  erewrite (bind_Done (some_or_undef _)) by (by apply some_or_undef_Some).
  erewrite (bind_Done (some_or_undef _))
    by (apply some_or_undef_Some; by apply func_signatures_are_equal_spec).
  destruct (decide (fsig = sig)) as [->|Hsn].
  - rewrite bool_decide_true by done. cbn [negb]. erewrite (bind_Done (ret tt)) by done.
    destruct (func_body f) as [offset| ]; [|done].
    destruct (Z.leb_spec (Z.of_nat (length (call_stack (st_thread st)))) (call_stack_top (st_thread st))).
    + by erewrite bind_Exit by (by apply run_PUSH_CALL_full).
    + by erewrite bind_Done by (by apply run_PUSH_CALL).
  - by rewrite bool_decide_false by done.
Qed.

(** C22 - [call_indirect].  The index popped selects an element of the table.
    The instruction traps when there is no such element, when the element is
    not initialised, when the signature of its function is not the one the
    instruction names (compared by structure, not by index), and when the
    call stack is full; otherwise it enters that function, returning to the
    next instruction. *)
Theorem call_indirect_correct top st ti table si sig slot :
  fetches st (WasmOp WASM_OPCODE_CALL_INDIRECT) ->
  read_u32_at (st_env st) (st_pc st + 1) = Some ti ->
  zget (tables (st_env st)) ti = Some table -> table_ok (st_env st) table ->
  read_u32_at (st_env st) (st_pc st + 5) = Some si ->
  zget (sigs (st_env st)) si = Some sig ->
  zget (st_vs st) (st_top st - 1) = Some slot ->
  0 <= call_stack_top (st_thread st) ->
  let popped := move st (st_top st - 1) (st_pc st + 9) in
  match zget (tbl_func_indexes table) (get_field I32 slot) with
  | None => step top st = Exit WASM_INTERPRETER_TRAP_UNDEFINED_TABLE_INDEX popped
  | Some i =>
      if decide (i = WASM_INVALID_INDEX)
      then step top st = Exit WASM_INTERPRETER_TRAP_UNINITIALIZED_TABLE_ELEMENT popped
      else exists f fsig, zget (funcs (st_env st)) i = Some f /\
        zget (sigs (st_env st)) (func_sig_index f) = Some fsig /\
        if decide (fsig = sig)
        then match func_body f with
             | HostFunc _ _ _ => step top st = (wasm_call_host f;; ret tt) popped
             | DefinedFunc offset _ _ _ =>
                 if Z.of_nat (length (call_stack (st_thread st))) <=? call_stack_top (st_thread st)
                 then step top st = Exit WASM_INTERPRETER_TRAP_CALL_STACK_EXHAUSTED popped
                 else step top st = Done tt (push_call_state popped (u32 (st_pc st + 9)) offset)
             end
        else step top st = Exit WASM_INTERPRETER_TRAP_INDIRECT_CALL_SIGNATURE_MISMATCH popped
  end.
Proof. by apply call_indirect_step. Qed.

End indirect.

(** ** Host calls *)

(** The arguments of a host call, typed by the signature. *)
Definition typed_args (types : list WasmType) (values : list Z) : list TypedValue :=
  zip_with mkTypedValue types values.

Lemma run_pop_args types st base values acc :
  stack_wf st -> stack_of st = base ++ values -> length values = length types ->
  exists st', pop_args (rev types) acc st = Done (typed_args types values ++ acc) st' /\
    stack_of st' = base /\ stack_wf st' /\ st_pc st' = st_pc st /\ same_rest st st'.
Proof.
  revert st values acc. induction types as [|ty types IH] using rev_ind; intros st values acc Hw Hs Hl.
  - destruct values; [|done]. rewrite app_nil_r in Hs. by exists st.
  - rewrite length_app in Hl. cbn [length] in Hl.
    destruct (exists_last (l := values)) as (values' & v & ->).
    { intros ->. cbn in Hl. lia. }
    rewrite length_app in Hl. cbn [length] in Hl.
    rewrite rev_app_distr. cbn [rev app pop_args]. rewrite app_assoc in Hs.
    destruct (stack_of_zget st (base ++ values') v [] Hw Hs) as [Hz Ht]. cbn [length] in Ht.
    erewrite bind_Done.
    2: { apply (run_POP _ v). by replace (st_top st - 1) with (Z.of_nat (length (base ++ values'))) by lia. }
    destruct (stack_of_move st (st_top st - 1) (st_pc st) _ _ Hw Hs ltac:(lia)) as [Hs' Hw'].
    destruct (IH _ _ (mkTypedValue ty v :: acc) Hw' Hs' ltac:(lia)) as (st' & -> & ? & ? & ? & Hr).
    exists st'. split; [|by split_and!].
    unfold typed_args. rewrite zip_with_app by lia. cbn [zip_with].
    by rewrite <- app_assoc.
Qed.

(** Pushing one slot on a stack given as a list. *)
Lemma run_push_list st base v : stack_wf st -> stack_of st = base ->
  st_top st < Z.of_nat (length (st_vs st)) ->
  exists st', PUSH v st = Done tt st' /\ stack_of st' = base ++ [v] /\ stack_wf st' /\
    st_pc st' = st_pc st /\ same_rest st st' /\ st_top st' = st_top st + 1.
Proof.
  intros Hw Hs Ht. pose proof (stack_of_length st Hw) as Hl.
  exists (move (put st (st_top st) v) (st_top st + 1) (st_pc st)).
  split; [apply run_PUSH; unfold stack_wf in Hw; lia|].
  destruct (stack_of_put st base [] v (st_pc st) Hw) as (? & ? & ?).
  { by rewrite app_nil_r. }
  { rewrite <- Hs. lia. }
  rewrite Hs in Hl. rewrite Hl in *. by split_and!.
Qed.

Lemma run_push_results types results st base :
  stack_wf st -> stack_of st = base -> tv_type <$> results = types ->
  st_top st + Z.of_nat (length types) <= Z.of_nat (length (st_vs st)) ->
  exists st', push_results types results st = Done tt st' /\
    stack_of st' = base ++ (tv_value <$> results) /\ stack_wf st' /\ st_pc st' = st_pc st /\
    same_rest st st'.
Proof.
  revert results st base. induction types as [|ty types IH]; intros [|r results] st base Hw Hs Ht Hr;
    try done.
  - exists st. cbn. rewrite app_nil_r. by split_and!.
  - injection Ht as <- Ht. cbn [push_results]. rewrite bool_decide_true by done. cbn [negb length] in *.
    erewrite bind_Done by done.
    destruct (run_push_list st base (tv_value r) Hw Hs ltac:(lia)) as (st1 & E & Hs1 & Hw1 & Hp1 & Hr1 & Ht1).
    rewrite (bind_Done _ _ _ _ _ E).
    destruct (IH results st1 _ Hw1 Hs1 Ht) as (st2 & -> & Hs2 & Hw2 & Hp2 & Hr2).
    { destruct Hr1 as (_ & _ & _ & ->). rewrite Ht1. lia. }
    exists st2. split; [done|]. split; [by rewrite Hs2, <- app_assoc|]. split; [done|].
    split; [congruence|]. destruct Hr1 as (? & ? & ? & ?), Hr2 as (? & ? & ? & ?).
    unfold same_rest. split_and!; congruence.
Qed.

Lemma same_rest_trans st1 st2 st3 : same_rest st1 st2 -> same_rest st2 st3 -> same_rest st1 st3.
Proof. unfold same_rest. intros (? & ? & ? & ?) (? & ? & ? & ?). split_and!; congruence. Qed.

Section host_calls.
Context `{NanBits} `{MemAllocator}.

(** C27 - Host calls.  [call_host] pops the arguments and passes them to the
    callback in order, each with the type of its parameter; when the callback
    succeeds with values of the types of the signature and there is room, the
    results are on the stack in order in place of the arguments. *)
Theorem call_host_correct top st i f sig mn fn callback base values :
  stack_wf st -> stack_of st = base ++ values ->
  fetches st WASM_OPCODE_CALL_HOST ->
  read_u32_at (st_env st) (st_pc st + 1) = Some i ->
  zget (funcs (st_env st)) i = Some f -> func_body f = HostFunc mn fn callback ->
  zget (sigs (st_env st)) (func_sig_index f) = Some sig ->
  length values = length (param_types sig) ->
  forall results, callback sig (typed_args (param_types sig) values) = (WASM_OK, results) ->
  tv_type <$> results = result_types sig ->
  Z.of_nat (length base + length (result_types sig)) <= Z.of_nat (length (st_vs st)) ->
  exists st', step top st = Done tt st' /\ stack_of st' = base ++ (tv_value <$> results) /\
    st_pc st' = st_pc st + 5 /\ stack_wf st' /\ same_rest st st'.
Proof.
  intros Hw Hs Hf Hi Hfi Hb Hsig Hl results Hcb Hty Hroom. rewrite (run_step top st _ Hf).
  change (dispatch top WASM_OPCODE_CALL_HOST) with op_call_host. unfold op_call_host.
  erewrite bind_Done; [|by apply run_read_u32].
  erewrite (bind_Done get_env) by done.
  erewrite (bind_Done (some_or_undef _)) by (by apply some_or_undef_Some).
  set (st2 := move _ _ _).
  destruct (run_pop_args (param_types sig) st2 base values [] Hw Hs Hl)
    as (st3 & E3 & Hs3 & Hw3 & Hp3 & Hr3). rewrite app_nil_r in E3.
  pose proof (stack_of_length st3 Hw3) as Ht3. rewrite Hs3 in Ht3.
  destruct (run_push_results (result_types sig) results st3 base Hw3 Hs3 Hty)
    as (st4 & E4 & Hs4 & Hw4 & Hp4 & Hr4).
  { destruct Hr3 as (_ & _ & _ & ->). change (st_vs st2) with (st_vs st).
    rewrite <- Ht3, <- Nat2Z.inj_add. exact Hroom. }
  exists st4. split; [|split_and!; try done].
  - erewrite bind_Done; [reflexivity|]. unfold wasm_call_host, call_host_body.
    erewrite (bind_Done get_env) by done. rewrite Hb.
    erewrite (bind_Done (some_or_undef _)) by (by apply some_or_undef_Some).
    rewrite (bind_Done _ _ _ _ _ E3), Hcb.
    rewrite bool_decide_true by done. cbn [negb]. erewrite (bind_Done (TRAP_IF _ _)) by done.
    by rewrite E4.
  - rewrite Hp4, Hp3. unfold st2. cbn. lia.
  - eapply same_rest_trans; [|done]. eapply same_rest_trans; [|done]. by unfold same_rest.
Qed.
(** C37 - Failing host calls.  When the callback reports an error, its
    arguments are popped, no result is pushed and nothing traps: the code of
    [call_host] drops the result of [wasm_call_host], so execution goes on
    after the instruction without the results of the signature, for every
    callback, signature and stack. *)
Theorem host_trap_is_lost top st i f sig mn fn callback base values :
  stack_wf st -> stack_of st = base ++ values ->
  fetches st WASM_OPCODE_CALL_HOST ->
  read_u32_at (st_env st) (st_pc st + 1) = Some i ->
  zget (funcs (st_env st)) i = Some f -> func_body f = HostFunc mn fn callback ->
  zget (sigs (st_env st)) (func_sig_index f) = Some sig ->
  length values = length (param_types sig) ->
  forall results, callback sig (typed_args (param_types sig) values) = (WASM_ERROR, results) ->
  exists st', step top st = Done tt st' /\ stack_of st' = base /\
    st_pc st' = st_pc st + 5 /\ stack_wf st' /\ same_rest st st'.
Proof.
  intros Hw Hs Hf Hi Hfi Hb Hsig Hl results Hcb. rewrite (run_step top st _ Hf).
  change (dispatch top WASM_OPCODE_CALL_HOST) with op_call_host. unfold op_call_host.
  erewrite bind_Done; [|by apply run_read_u32].
  erewrite (bind_Done get_env) by done.
  erewrite (bind_Done (some_or_undef _)) by (by apply some_or_undef_Some).
  set (st2 := move _ _ _).
  destruct (run_pop_args (param_types sig) st2 base values [] Hw Hs Hl)
    as (st3 & E3 & Hs3 & Hw3 & Hp3 & Hr3). rewrite app_nil_r in E3.
  exists st3. split; [|split_and!; try done].
  - erewrite bind_Done; [reflexivity|]. unfold wasm_call_host, call_host_body.
    erewrite (bind_Done get_env) by done. rewrite Hb.
    erewrite (bind_Done (some_or_undef _)) by (by apply some_or_undef_Some).
    by rewrite (bind_Done _ _ _ _ _ E3), Hcb.
  - rewrite Hp3. unfold st2. cbn. lia.
Qed.
End host_calls.

(** ** Locals, globals, drop and select *)

(** What five instructions do to the operand stack, deepest slot first.  The
    locals of a call are on the stack too; the loader turns their indices into
    distances from the top.  The number is the operand in the code. *)
Inductive shuffles : WasmOpcode -> option Z -> list Z -> list Z -> Prop :=
| S_get_local base v above : shuffles WASM_OPCODE_GET_LOCAL (Some (Z.of_nat (length above) + 1))
    (base ++ v :: above) ((base ++ v :: above) ++ [v])
| S_set_local base v above x : shuffles WASM_OPCODE_SET_LOCAL (Some (Z.of_nat (length above) + 1))
    ((base ++ v :: above) ++ [x]) (base ++ x :: above)
| S_tee_local base v above x : shuffles WASM_OPCODE_TEE_LOCAL (Some (Z.of_nat (length above) + 2))
    ((base ++ v :: above) ++ [x]) (base ++ x :: above ++ [x])
| S_drop base x : shuffles WASM_OPCODE_DROP None (base ++ [x]) base
| S_select base a b c : shuffles WASM_OPCODE_SELECT None (((base ++ [a]) ++ [b]) ++ [c])
    (base ++ [if u32 c =? 0 then b else a]).

(** The pc after the instruction. *)
Definition pc_after (st : State) (imm : option Z) : Z :=
  st_pc st + match imm with Some _ => 5 | None => 1 end.

(** The next instruction leaves the operand stack [stack]. *)
Definition leaves `{NanBits} `{MemAllocator} (top : Z) (st : State) (stack : list Z) (pc : Z) : Prop :=
  exists st', step top st = Done tt st' /\ stack_of st' = stack /\ st_pc st' = pc /\
    stack_wf st' /\ same_rest st st'.

Section variables.
Context `{NanBits} `{MemAllocator}.

(** Reading and writing the slot under [above]. *)
Lemma run_PICK_list st base v above : stack_wf st -> stack_of st = base ++ v :: above ->
  PICK (Z.of_nat (length above) + 1) st = Done v st.
Proof.
  intros Hw Hs. destruct (stack_of_zget st _ _ _ Hw Hs) as [Hx Ht].
  unfold PICK, bind, get_thread, get, ret, bind. unfold st_vs, st_top in *.
  replace (_ - _) with (Z.of_nat (length base)) by lia. by rewrite Hx.
Qed.

Lemma run_SET_PICK_list st base v above x : stack_wf st -> stack_of st = base ++ v :: above ->
  exists st', SET_PICK (Z.of_nat (length above) + 1) x st = Done tt st' /\
    stack_of st' = base ++ x :: above /\ st_pc st' = st_pc st /\ stack_wf st' /\ same_rest st st'.
Proof.
  intros Hw Hs. destruct (stack_of_zget st _ _ _ Hw Hs) as [Hx Ht].
  assert (st_top st - (Z.of_nat (length above) + 1) = Z.of_nat (length base)) as Ed by lia.
  eexists. split; [apply run_SET_PICK; rewrite Ed; unfold stack_wf in Hw; lia|]. rewrite Ed.
  unfold stack_of, stack_wf, same_rest, put, st_top, st_vs in *. cbn in *. rewrite length_insert, Nat2Z.id.
  split_and!; try done; [|lia..].
  rewrite take_insert_lt by lia. rewrite Hs. rewrite insert_app_r_alt by lia. by rewrite Nat.sub_diag.
Qed.

Lemma run_POP_list st base x : stack_wf st -> stack_of st = base ++ [x] ->
  let st' := move st (st_top st - 1) (st_pc st) in POP st = Done x st' /\ stack_of st' = base /\ stack_wf st'.
Proof.
  intros Hw Hs. destruct (stack_of_zget st base x [] Hw Hs) as [Hx Ht]. cbn [length] in Ht.
  split; [|apply (stack_of_move st _ _ base [x]); [done|done|lia]].
  apply run_POP. by replace (st_top st - 1) with (Z.of_nat (length base)) by lia.
Qed.

(** A push of [v] as the rest of a step that has moved the pc. *)
Lemma push_leaves top st st1 pc v : stack_wf st -> st1 = move st (st_top st) pc -> step top st = PUSH v st1 ->
  if decide (length (stack_of st ++ [v]) <= length (st_vs st))%nat
  then leaves top st (stack_of st ++ [v]) pc
  else step top st = Exit WASM_INTERPRETER_TRAP_VALUE_STACK_EXHAUSTED st1.
Proof.
  intros Hw -> E. pose proof (stack_of_length st Hw) as Hl. rewrite length_app. cbn [length].
  destruct (decide _) as [Hr|Hr].
  - destruct (run_push_list (move st (st_top st) pc) (stack_of st) v Hw eq_refl) as (st' & Ep & Hs' & Hw' & Hp & Hr' & _).
    { change (st_top st < Z.of_nat (length (st_vs st))). lia. }
    exists st'. rewrite E. by split_and!.
  - rewrite E. unfold PUSH, CHECK_STACK, bind, get_thread, get, ret, bind, TRAP_IF, move.
    assert (Z.of_nat (length (st_vs st)) <= st_top st) as Hf by lia. unfold st_vs, st_top in *. cbn.
    by rewrite (proj2 (Z.leb_le _ _) Hf).
Qed.

(** A stack no longer than the one before it fits. *)
Ltac fits E := rewrite decide_True by
  (apply (f_equal length) in E; repeat (rewrite !length_app in * || cbn [length] in * ); unfold stack_wf in *; lia).

(** C28 - The instructions that move slots.  [get_local], [set_local],
    [tee_local], [drop] and [select] do to the operand stack what [shuffles]
    says, for every stack and distance, and change neither the environment nor
    the call stack; the pc is at the next instruction.  Only [get_local] needs
    room, and it traps when there is none. *)
Theorem stack_instructions_correct top st op imm stack :
  stack_wf st -> fetches st (WasmOp op) ->
  (forall d, imm = Some d -> read_u32_at (st_env st) (st_pc st + 1) = Some d) ->
  shuffles op imm (stack_of st) stack ->
  if decide (length stack <= length (st_vs st))%nat then leaves top st stack (pc_after st imm)
  else step top st = Exit WASM_INTERPRETER_TRAP_VALUE_STACK_EXHAUSTED (move st (st_top st) (pc_after st imm)).
Proof.
  intros Hw Hf Hi Hsh. pose proof (stack_of_length st Hw) as Hl.
  inversion Hsh as [base v above E1 E2 E3 E4|base v above x E1 E2 E3 E4|base v above x E1 E2 E3 E4
    |base x E1 E2 E3 E4|base a b c E1 E2 E3 E4]; subst op imm stack.
  - specialize (Hi _ eq_refl). rewrite E3. apply push_leaves; [done|reflexivity|].
    rewrite (run_step top st _ Hf). change (dispatch _ _) with op_get_local. unfold op_get_local.
    erewrite bind_Done; [|by apply run_read_u32].
    erewrite bind_Done; [|apply (run_PICK_list _ base v above); [exact Hw|by symmetry]].
    f_equal. unfold move, pc_after. cbn. f_equal. lia.
  - specialize (Hi _ eq_refl). fits E3.
    unfold leaves. rewrite (run_step top st _ Hf). change (dispatch _ _) with op_set_local. unfold op_set_local.
    destruct (run_POP_list (move st (st_top st) (st_pc st + 1)) _ _ Hw (eq_sym E3)) as (Ep & Hs1 & Hw1).
    rewrite (bind_Done _ _ _ _ _ Ep). erewrite bind_Done; [|by apply run_read_u32].
    set (st2 := move _ _ _).
    destruct (run_SET_PICK_list st2 base v above x Hw1 Hs1) as (st' & E & Hs' & Hp' & Hw' & Hr').
    exists st'. split_and!; try done. rewrite Hp'. unfold st2, pc_after. cbn. lia.
  - specialize (Hi _ eq_refl). fits E3.
    unfold leaves. rewrite (run_step top st _ Hf). change (dispatch _ _) with op_tee_local. unfold op_tee_local.
    erewrite bind_Done; [|by apply run_read_u32]. set (st2 := move _ _ _).
    unfold TOP. rewrite (bind_Done _ _ _ _ _ (run_PICK_list st2 _ x [] Hw (eq_sym E3))).
    assert (stack_of st2 = base ++ v :: (above ++ [x])) as Hs2 
      by (change (stack_of st = base ++ v :: above ++ [x]); by rewrite <- E3, <- app_assoc).
    destruct (run_SET_PICK_list st2 base v (above ++ [x]) x Hw Hs2) as (st' & E & Hs' & Hp' & Hw' & Hr').
    rewrite length_app in E. cbn [length] in E.
    replace (Z.of_nat (length above + 1) + 1) with (Z.of_nat (length above) + 2) in E by lia.
    exists st'. split_and!; try done. rewrite Hp'. unfold st2, pc_after. cbn. lia.
  - fits E3.
    unfold leaves. rewrite (run_step top st _ Hf). change (dispatch _ _) with (v <- POP;; ret tt).
    destruct (run_POP_list (move st (st_top st) (st_pc st + 1)) _ _ Hw (eq_sym E3)) as (Ep & Hs1 & Hw1).
    rewrite (bind_Done _ _ _ _ _ Ep). eexists. by split_and!.
  - fits E3.
    unfold leaves. rewrite (run_step top st _ Hf). change (dispatch _ _) with op_select. unfold op_select.
    destruct (run_pop_list I32 (move st (st_top st) (st_pc st + 1)) _ _ Hw (eq_sym E3)) as (Ec & Hs1 & Hw1).
    rewrite (bind_Done _ _ _ _ _ Ec).
    destruct (run_POP_list _ _ _ Hw1 Hs1) as (Eb & Hs2 & Hw2). rewrite (bind_Done _ _ _ _ _ Eb).
    destruct (run_POP_list _ _ _ Hw2 Hs2) as (Ea & Hs3 & Hw3). rewrite (bind_Done _ _ _ _ _ Ea).
    destruct (run_push_list _ base (if negb (get_field I32 c =? 0) then a else b) Hw3 Hs3)
      as (st' & E & Hs' & Hw' & Hp' & Hr' & _).
    { unfold move, stack_wf, st_top, st_vs in *. cbn in *. lia. }
    exists st'. split; [exact E|]. split_and!; [|exact Hp'|done..].
    rewrite Hs'. unfold get_field. cbn [VALUE_TYPE]. by destruct (wrap 32 c =? 0).
Qed.
(** C29 - Globals.  [get_global] pushes the value of its global, or traps when
    the stack is full; [set_global] pops the value and puts it in its global,
    whose type and mutability stay.  Neither changes anything else. *)
Theorem global_instructions_correct top st i g :
  stack_wf st -> read_u32_at (st_env st) (st_pc st + 1) = Some i -> zget (globals (st_env st)) i = Some g ->
  (fetches st (WasmOp WASM_OPCODE_GET_GLOBAL) ->
     if decide (st_top st < Z.of_nat (length (st_vs st)))
     then leaves top st (stack_of st ++ [tv_value (gl_typed_value g)]) (st_pc st + 5)
     else step top st = Exit WASM_INTERPRETER_TRAP_VALUE_STACK_EXHAUSTED (move st (st_top st) (st_pc st + 5))) /\
  (forall base x, fetches st (WasmOp WASM_OPCODE_SET_GLOBAL) -> stack_of st = base ++ [x] ->
     exists st' g', step top st = Done tt st' /\ stack_of st' = base /\ st_pc st' = st_pc st + 5 /\ stack_wf st' /\
       st_env st' = with_globals (st_env st) (<[Z.to_nat i := g']> (globals (st_env st))) /\
       g' = mkGlobal (mkTypedValue (tv_type (gl_typed_value g)) x) (gl_mutable g) (gl_import_index g) /\
       call_stack (st_thread st') = call_stack (st_thread st) /\
       call_stack_top (st_thread st') = call_stack_top (st_thread st)).
Proof.
  intros Hw Hi Hg. split.
  - intros Hf. pose proof (stack_of_length st Hw) as Hl.
    pose proof (push_leaves top st _ (st_pc st + 5) (tv_value (gl_typed_value g)) Hw eq_refl) as Hp.
    rewrite length_app in Hp. cbn [length] in Hp.
    destruct (decide (length (stack_of st) + 1 <= length (st_vs st))%nat); [rewrite decide_True by lia|rewrite decide_False by lia];
      apply Hp; rewrite (run_step top st _ Hf); change (dispatch _ _) with op_get_global; unfold op_get_global;
      (erewrite bind_Done; [|by apply run_read_u32]); erewrite (bind_Done get_env) by done;
      erewrite (bind_Done (some_or_undef _)) by (by apply some_or_undef_Some);
      f_equal; unfold move; cbn; f_equal; lia.
  - intros base x Hf Hs. rewrite (run_step top st _ Hf).
    change (dispatch _ _) with op_set_global. unfold op_set_global.
    erewrite bind_Done; [|by apply run_read_u32]. erewrite (bind_Done get_env) by done.
    erewrite (bind_Done (some_or_undef _)) by (by apply some_or_undef_Some).
    destruct (run_POP_list (move st (st_top st) (st_pc st + 5)) base x Hw Hs) as (Ep & Hs1 & Hw1).
    erewrite bind_Done.
    2: { replace (move (move st (st_top st) (st_pc st + 1)) _ _) with (move st (st_top st) (st_pc st + 5))
           by (unfold move; cbn; f_equal; lia). exact Ep. }
    erewrite (bind_Done (some_or_undef _)).
    2: { apply some_or_undef_Some, zset_Some. by apply zget_lt in Hg. }
    eexists _, _. split_and!; try done.
Qed.
End variables.


(** ** Concrete runs *)

Section runs.
#[local] Existing Instance default_nan_bits.
#[local] Existing Instance plain_alloc.

(** A table of one target and a default entry, at offset 16. *)
Definition br_table_program : list Z :=
  opcode_code WASM_OPCODE_BR_TABLE :: le_bytes 4 1 ++ le_bytes 4 16 ++ replicate 7 0 ++
  le_bytes 4 100 ++ le_bytes 4 0 ++ [0] ++ le_bytes 4 200 ++ le_bytes 4 1 ++ [1].

(** Key 9 takes the default entry: drop one slot, keep one, jump to 200. *)
Lemma br_table_correct_witness : exists st',
  step 0 (demo_state br_table_program [11; 22; 33; 9]) = Done tt st' /\ st_pc st' = 200 /\
  stack_of st' = [11; 33].
Proof.
  destruct (br_table_correct 0 (demo_state br_table_program [11; 22; 33; 9]) 1 16 [11] [22] [33] 9 200)
    as (st' & E & Hp & Hs & _);
    [vm_compute; by split|reflexivity|reflexivity|reflexivity|reflexivity|done|reflexivity
    |vm_compute; reflexivity|cbn; lia|cbn; lia|].
  exists st'. split; [exact E|]. split; [exact Hp|exact Hs].
Defined.

Definition call_program : list Z :=
  opcode_code WASM_OPCODE_CALL :: le_bytes 4 5 ++ [opcode_code WASM_OPCODE_RETURN].

(** A call to the instruction after it, which returns at once. *)
Lemma call_return_correct_witness :
  let st := demo_state call_program [] in
  let st2 := push_call_state st 5 5 in
  step 0 st = Done tt st2 /\ exists st3, step 0 st2 = Done tt st3 /\ st_pc st3 = 5.
Proof.
  cbn zeta.
  pose proof (call_return_correct 0 (demo_state call_program []) 5 eq_refl eq_refl
    ltac:(vm_compute; split; [intros [=]|reflexivity]) ltac:(vm_compute; intros [=])) as Hc.
  cbn [demo_state st_thread call_stack call_stack_top length Z.of_nat Z.leb Z.compare] in Hc.
  destruct Hc as [Hc Hr]. split; [exact Hc|]. eexists. split.
  - apply (Hr (push_call_state (demo_state call_program []) 5 5)); vm_compute; done.
  - reflexivity.
Defined.

(** A machine with two functions of different signatures in a table of three
    elements, the last not initialised. *)
Definition table_env : Env :=
  mkEnv [mkSig [] []; mkSig [WASM_TYPE_I32] []]
    [mkFunc 0 (DefinedFunc 50 0 0 []); mkFunc 1 (DefinedFunc 60 0 0 [])] []
    [mkTable (mkLimits 3 0 false) [0; 1; WASM_INVALID_INDEX]] []
    (opcode_code WASM_OPCODE_CALL_INDIRECT :: le_bytes 4 0 ++ le_bytes 4 0).

Definition table_state (key : Z) : State :=
  mkState table_env (st_thread (demo_state [] [key])) 0.

Lemma table_env_ok : Forall (table_ok table_env) (tables table_env).
Proof.
  repeat (apply Forall_cons_2 || apply Forall_nil_2); [right|right|by left].
  - by exists (mkFunc 0 (DefinedFunc 50 0 0 [])), (mkSig [] []).
  - by exists (mkFunc 1 (DefinedFunc 60 0 0 [])), (mkSig [WASM_TYPE_I32] []).
Qed.

(** The element with another signature traps; the matching one is entered. *)
Lemma call_indirect_correct_witness :
  step 0 (table_state 1) =
    Exit WASM_INTERPRETER_TRAP_INDIRECT_CALL_SIGNATURE_MISMATCH (move (table_state 1) 0 9) /\
  step 0 (table_state 0) = Done tt (push_call_state (move (table_state 0) 0 9) 9 50).
Proof.
  split.
  - pose proof (call_indirect_correct 0 (table_state 1) 0
      (mkTable (mkLimits 3 0 false) [0; 1; WASM_INVALID_INDEX]) 0 (mkSig [] []) 1
      eq_refl eq_refl eq_refl (Forall_inv table_env_ok) eq_refl eq_refl eq_refl
      ltac:(vm_compute; intros [=])) as Hc.
    vm_compute in Hc. destruct Hc as (f & fsig & [= <-] & [= <-] & E). exact E.
  - pose proof (call_indirect_correct 0 (table_state 0) 0
      (mkTable (mkLimits 3 0 false) [0; 1; WASM_INVALID_INDEX]) 0 (mkSig [] []) 0
      eq_refl eq_refl eq_refl (Forall_inv table_env_ok) eq_refl eq_refl eq_refl
      ltac:(vm_compute; intros [=])) as Hc.
    vm_compute in Hc. destruct Hc as (f & fsig & [= <-] & [= <-] & E). exact E.
Defined.

(** A host function of two parameters that answers their sum. *)
Definition host_sum (sig : FuncSignature) (args : list TypedValue) : WasmResult * list TypedValue :=
  (WASM_OK, [mkTypedValue WASM_TYPE_I32 (u32 (foldr (fun a s => tv_value a + s) 0 args))]).

Definition host_state : State :=
  mkState
    (mkEnv [mkSig [WASM_TYPE_I32; WASM_TYPE_I32] [WASM_TYPE_I32]]
       [mkFunc 0 (HostFunc "env" "sum" host_sum)] [] [] []
       (interp_opcode_code WASM_OPCODE_CALL_HOST :: le_bytes 4 0))
    (st_thread (demo_state [] [1; 20; 22])) 0.

Lemma call_host_correct_witness : exists st',
  step 0 host_state = Done tt st' /\ stack_of st' = [1; 42].
Proof.
  destruct (call_host_correct 0 host_state 0 (mkFunc 0 (HostFunc "env" "sum" host_sum))
    (mkSig [WASM_TYPE_I32; WASM_TYPE_I32] [WASM_TYPE_I32]) "env" "sum" host_sum [1] [20; 22])
    with (results := [mkTypedValue WASM_TYPE_I32 42]) as (st' & E & Hs & _);
    [vm_compute; by split|reflexivity|reflexivity|reflexivity|reflexivity|reflexivity|reflexivity
    |reflexivity|reflexivity|reflexivity|cbn; lia|].
  exists st'. split; [exact E|exact Hs].
Defined.
(** A host function that always fails. *)
Definition host_fail (sig : FuncSignature) (args : list TypedValue) : WasmResult * list TypedValue :=
  (WASM_ERROR, []).

Definition failing_state : State :=
  mkState
    (mkEnv [mkSig [WASM_TYPE_I32; WASM_TYPE_I32] [WASM_TYPE_I32]]
       [mkFunc 0 (HostFunc "env" "fail" host_fail)] [] [] []
       (interp_opcode_code WASM_OPCODE_CALL_HOST :: le_bytes 4 0))
    (st_thread (demo_state [] [1; 20; 22])) 0.

Lemma host_trap_is_lost_witness : exists st',
  step 0 failing_state = Done tt st' /\ stack_of st' = [1].
Proof.
  destruct (host_trap_is_lost 0 failing_state 0 (mkFunc 0 (HostFunc "env" "fail" host_fail))
    (mkSig [WASM_TYPE_I32; WASM_TYPE_I32] [WASM_TYPE_I32]) "env" "fail" host_fail [1] [20; 22])
    with (results := @nil TypedValue) as (st' & E & Hs & _);
    [vm_compute; by split|reflexivity|reflexivity|reflexivity|reflexivity|reflexivity|reflexivity
    |reflexivity|reflexivity|].
  exists st'. split; [exact E|exact Hs].
Defined.

(** [tee_local] of the deepest of three slots. *)
Definition tee_state : State :=
  mkState (mkEnv [] [] [] [] [] (opcode_code WASM_OPCODE_TEE_LOCAL :: le_bytes 4 3))
    (st_thread (demo_state [] [1; 20; 22])) 0.

Lemma stack_instructions_correct_witness : exists st',
  step 0 tee_state = Done tt st' /\ stack_of st' = [22; 20; 22].
Proof.
  destruct (stack_instructions_correct 0 tee_state WASM_OPCODE_TEE_LOCAL (Some 3) [22; 20; 22])
    as (st' & E & Hs & _); [vm_compute; by split|reflexivity|by intros ? [= <-]|exact (S_tee_local [] 1 [20] 22)|].
  exists st'. split; [exact E|exact Hs].
Defined.

(** [set_global] of a global of type [i64]. *)
Definition global_state : State :=
  mkState (mkEnv [] [] [] [] [mkGlobal (mkTypedValue WASM_TYPE_I64 5) true 0]
      (opcode_code WASM_OPCODE_SET_GLOBAL :: le_bytes 4 0))
    (st_thread (demo_state [] [1; 22])) 0.

Lemma global_instructions_correct_witness : exists st',
  step 0 global_state = Done tt st' /\ stack_of st' = [1] /\
  globals (st_env st') = [mkGlobal (mkTypedValue WASM_TYPE_I64 22) true 0].
Proof.
  destruct (global_instructions_correct 0 global_state 0 (mkGlobal (mkTypedValue WASM_TYPE_I64 5) true 0))
    as [_ Hset]; [vm_compute; by split|reflexivity|reflexivity|].
  destruct (Hset [1] 22 eq_refl eq_refl) as (st' & g' & E & Hs & _ & _ & He & -> & _).
  exists st'. rewrite He. split; [exact E|]. split; [exact Hs|reflexivity].
Defined.
End runs.
