(* ===== verification/Literal.v ===== *)
(** * Literals: literal.c

    The conversions between the text of a literal and its value: the integer
    parsers, and for both float formats the parser of hexadecimal floats,
    infinities and NaNs and the writer that prints the bits of a float.  A
    pointer pair [s, end] is the list of the characters in between; [*s] with
    [s == end] reads past the token and, like a failed assertion, is [None].
    The decimal floats are handed to [strtof] and [strtod] of libc, which are
    parameters.

    literal.c has each float routine twice, for [float] and for [double], with
    the constants [F32_*] and [F64_*].  They are modelled once over a record of
    those constants; where the two copies differ the record has a field. *)

From S2P Require Import Prelude Numeric.
From Stdlib Require Import Ascii String.

Abbreviation chars := String.list_ascii_of_string.

(** The [char] as an integer, and a literal [char] of the source. *)
Definition code (c : ascii) : Z := Z.of_N (N_of_ascii c).
Definition char_of (x : Z) : ascii := ascii_of_N (Z.to_N x).

Inductive WasmLiteralType : Set :=
| WASM_LITERAL_TYPE_INT
| WASM_LITERAL_TYPE_FLOAT
| WASM_LITERAL_TYPE_HEXFLOAT
| WASM_LITERAL_TYPE_INFINITY
| WASM_LITERAL_TYPE_NAN.

Inductive WasmParseIntType : Set :=
| WASM_PARSE_UNSIGNED_ONLY
| WASM_PARSE_SIGNED_AND_UNSIGNED.

(** A result and the value stored in [*out], when one is stored; [None] is
    undefined behaviour or a failed assertion. *)
Abbreviation Parsed := (option (WasmResult * option Z)).

Definition s_hex_digits : list ascii := chars "0123456789abcdef".

Definition wasm_parse_hexdigit (c : ascii) : option Z :=
  if u32 (code c - code "0") <=? 9 then Some (code c - code "0")
  else if u32 (code c - code "a") <=? 6 then Some (10 + (code c - code "a"))
  else if u32 (code c - code "A") <=? 6 then Some (10 + (code c - code "A"))
  else None.

Fixpoint string_starts_with (s prefix : list ascii) : bool :=
  match prefix, s with
  | [], _ => true
  | _ :: _, [] => false
  | p :: prefix, c :: s => if decide (c = p) then string_starts_with s prefix else false
  end.

(** ** Integers *)

Fixpoint parse_hex_loop (s : list ascii) (value : Z) : option Z :=
  match s with
  | [] => Some value
  | c :: s =>
      digit ← wasm_parse_hexdigit c;
      let old_value := value in
      let value := u64 (value * 16 + digit) in
      if value <? old_value then None else parse_hex_loop s value
  end.

Fixpoint parse_dec_loop (s : list ascii) (value : Z) : option Z :=
  match s with
  | [] => Some value
  | c :: s =>
      let digit := u32 (code c - code "0") in
      if 9 <? digit then None
      else
        let old_value := value in
        let value := u64 (value * 10 + digit) in
        if value <? old_value then None else parse_dec_loop s value
  end.

(** [None] is [WASM_ERROR]; [*out] is then not written. *)
Definition wasm_parse_uint64 (s : list ascii) : option Z :=
  match s with
  | [] => None
  | "0"%char :: "x"%char :: s =>
      match s with [] => None | _ => parse_hex_loop s 0 end
  | _ => parse_dec_loop s 0
  end.

Definition INT64_MAX : Z := 2 ^ 63 - 1.
Definition UINT64_MAX : Z := 2 ^ 64 - 1.
Definition INT32_MAX : Z := 2 ^ 31 - 1.

(** The sign at the head of the text: [None] when it is not allowed,
    otherwise [has_sign] and the text after it. *)
Definition parse_int_sign (parse_type : WasmParseIntType) (c : ascii) (s : list ascii) :
    option (bool * list ascii) :=
  if decide (c = "-"%char \/ c = "+"%char) then
    match parse_type with
    | WASM_PARSE_UNSIGNED_ONLY => None
    | WASM_PARSE_SIGNED_AND_UNSIGNED => Some (bool_decide (c = "-"%char), s)
    end
  else Some (false, c :: s).

Definition wasm_parse_int64 (s : list ascii) (parse_type : WasmParseIntType) : Parsed :=
  match s with
  | [] => None
  | c :: s =>
      match parse_int_sign parse_type c s with
      | None => Some (WASM_ERROR, None)
      | Some (has_sign, s) =>
          let '(result, value) :=
            match wasm_parse_uint64 s with Some v => (WASM_OK, v) | None => (WASM_ERROR, 0) end in
          if has_sign then
            if INT64_MAX + 1 <? value then Some (WASM_ERROR, None)
            else Some (result, Some (u64 (UINT64_MAX - value + 1)))
          else Some (result, Some value)
      end
  end.

Definition wasm_parse_int32 (s : list ascii) (parse_type : WasmParseIntType) : Parsed :=
  match s with
  | [] => None
  | c :: s =>
      match parse_int_sign parse_type c s with
      | None => Some (WASM_ERROR, None)
      | Some (has_sign, s) =>
          match wasm_parse_uint64 s with
          | None => Some (WASM_ERROR, None)
          | Some value =>
              if has_sign then
                if INT32_MAX + 1 <? value then Some (WASM_ERROR, None)
                else Some (WASM_OK, Some (u32 (u64 (UINT32_MAX - value + 1))))
              else if UINT32_MAX <? value then Some (WASM_ERROR, None)
              else Some (WASM_OK, Some (u32 value))
          end
      end
  end.

(** ** The two float formats *)

Definition HEX_DIGIT_BITS : Z := 4.

(** The constants [F32_*] and [F64_*]; [UINT_BITS] is the width of the integer
    type that holds the bits, [BUFFER_SIZE] the writer's buffer. *)
Record FloatFormat := mkFloatFormat {
  UINT_BITS : Z;
  SIGN_SHIFT : Z;
  SIG_BITS : Z;
  SIG_MASK : Z;
  SIG_PLUS_ONE_BITS : Z;
  SIG_PLUS_ONE_MASK : Z;
  EXP_MASK : Z;
  MIN_EXP : Z;
  MAX_EXP : Z;
  EXP_BIAS : Z;
  QUIET_NAN_TAG : Z;
  BUFFER_SIZE : Z;
  (** text after "nan" that does not start with ":0x" *)
  NAN_BAD_TAG : Parsed;
  (** the decimal digits of a positive exponent *)
  EXP_DIGITS : Z -> list ascii
}.

Definition dec_digit (x : Z) : ascii := char_of (code "0" + x).

Definition float_exp_digits (exp : Z) : list ascii :=
  (if 100 <=? exp then ["1"%char] else []) ++
  (if 10 <=? exp then [dec_digit (Z.rem (Z.quot exp 10) 10)] else []) ++
  [dec_digit (Z.rem exp 10)].

Definition double_exp_digits (exp : Z) : list ascii :=
  (if 1000 <=? exp then ["1"%char] else []) ++
  (if 100 <=? exp then [dec_digit (Z.rem (Z.quot exp 100) 10)] else []) ++
  (if 10 <=? exp then [dec_digit (Z.rem (Z.quot exp 10) 10)] else []) ++
  [dec_digit (Z.rem exp 10)].

Definition WASM_MAX_FLOAT_HEX : Z := 20.
Definition WASM_MAX_DOUBLE_HEX : Z := 40.

Definition F32_FORMAT : FloatFormat :=
  {| UINT_BITS := 32; SIGN_SHIFT := 31; SIG_BITS := 23; SIG_MASK := 0x7fffff;
     SIG_PLUS_ONE_BITS := 24; SIG_PLUS_ONE_MASK := 0xffffff; EXP_MASK := 0xff;
     MIN_EXP := -127; MAX_EXP := 128; EXP_BIAS := 127; QUIET_NAN_TAG := 0x400000;
     BUFFER_SIZE := WASM_MAX_FLOAT_HEX; NAN_BAD_TAG := None; (* assert *)
     EXP_DIGITS := float_exp_digits |}.

Definition F64_FORMAT : FloatFormat :=
  {| UINT_BITS := 64; SIGN_SHIFT := 63; SIG_BITS := 52; SIG_MASK := 0xfffffffffffff;
     SIG_PLUS_ONE_BITS := 53; SIG_PLUS_ONE_MASK := 0x1fffffffffffff; EXP_MASK := 0x7ff;
     MIN_EXP := -1023; MAX_EXP := 1024; EXP_BIAS := 1023; QUIET_NAN_TAG := 0x8000000000000;
     BUFFER_SIZE := WASM_MAX_DOUBLE_HEX; NAN_BAD_TAG := Some (WASM_ERROR, None);
     EXP_DIGITS := double_exp_digits |}.

(** ** Parsing floats *)

Definition lit_assert (b : bool) : option unit := if b then Some () else None.

Section floats.
Context (F : FloatFormat).

Abbreviation w := (UINT_BITS F).

(** [make_float], [make_double] *)
Definition make_bits (sign : bool) (exp sig : Z) : option Z :=
  lit_assert ((MIN_EXP F <=? exp) && (exp <=? MAX_EXP F));;
  lit_assert (sig <=? SIG_MASK F);;
  Some (Z.lor (Z.lor (wrap w (Z.shiftl (b2z sign) (SIGN_SHIFT F)))
                     (wrap w (Z.shiftl (exp + EXP_BIAS F) (SIG_BITS F)))) sig).

(** [shift_float_and_round_to_nearest], [shift_double_and_round_to_nearest] *)
Definition shift_and_round_to_nearest (significand shift : Z) : option Z :=
  lit_assert (0 <? shift);;
  let significand :=
    if negb (Z.land significand (wrap w (Z.shiftl 1 shift)) =? 0)
    then wrap w (significand + wrap w (Z.shiftl 1 (shift - 1)))
    else significand in
  Some (Z.shiftr significand shift).

(** The optional sign every float parser starts with. *)
Definition parse_sign (s : list ascii) : option (bool * list ascii) :=
  match s with
  | [] => None
  | "-"%char :: s => Some (true, s)
  | "+"%char :: s => Some (false, s)
  | _ => Some (false, s)
  end.

Fixpoint parse_nan_tag (s : list ascii) (tag : Z) : option Z :=
  match s with
  | [] => Some tag
  | c :: s =>
      digit ← wasm_parse_hexdigit c;
      let tag := wrap w (tag * 16 + digit) in
      if SIG_MASK F <? tag then None else parse_nan_tag s tag
  end.

Definition out_bits (bits : Z) : Parsed := Some (WASM_OK, Some bits).

(** [parse_float_nan], [parse_double_nan] *)
Definition parse_nan (s : list ascii) : Parsed :=
  '(is_neg, s) ← parse_sign s;
  lit_assert (string_starts_with s (chars "nan"));;
  let s := drop 3 s in
  match s with
  | [] => make_bits is_neg (MAX_EXP F) (QUIET_NAN_TAG F) ≫= out_bits
  | _ =>
      if string_starts_with s (chars ":0x") then
        match parse_nan_tag (drop 3 s) 0 with
        | None => Some (WASM_ERROR, None)
        | Some tag =>
            if tag =? 0 then Some (WASM_ERROR, None)
            else make_bits is_neg (MAX_EXP F) tag ≫= out_bits
        end
      else NAN_BAD_TAG F
  end.

(** The state of the loop over the significand.  The counters
    [significand_shift], [significand_bits] and [significand_exponent] are [int]s
    of the code, as is the exponent below, here without their bounds: a text of
    less than 2^25 characters does not reach them. *)
Record Significand := mkSignificand {
  seen_dot : bool;
  significand : Z;
  significand_shift : Z;
  significand_bits : Z;
  significand_exponent : Z
}.

(** One character of the significand; [None] ends the loop. *)
Definition significand_step (c : ascii) (g : Significand) : option Significand :=
  if decide (c = "."%char) then
    Some (mkSignificand true (significand g) 0 (significand_bits g)
            (if negb (significand g =? 0) then significand_exponent g + significand_shift g
             else significand_exponent g))
  else
    digit ← wasm_parse_hexdigit c;
    let shift := significand_shift g + HEX_DIGIT_BITS in
    if negb (digit =? 0) &&
       ((significand g =? 0) ||
        (significand_bits g + shift <=? SIG_BITS F + 1 + HEX_DIGIT_BITS))
    then
      let sig := if negb (significand g =? 0) then wrap w (Z.shiftl (significand g) shift)
                 else significand g in
      Some (mkSignificand (seen_dot g) (wrap w (sig + digit)) 0
              (significand_bits g + HEX_DIGIT_BITS)
              (if seen_dot g then significand_exponent g - shift else significand_exponent g))
    else Some (mkSignificand (seen_dot g) (significand g) shift (significand_bits g)
                 (significand_exponent g)).

(** The loop, with the text at which it stops. *)
Fixpoint significand_loop (s : list ascii) (g : Significand) : Significand * list ascii :=
  match s with
  | [] => (g, [])
  | c :: s' =>
      match significand_step c g with
      | Some g' => significand_loop s' g'
      | None => (g, s)
      end
  end.

(** The loop over the digits of the exponent. *)
Fixpoint exponent_loop (s : list ascii) (significand_exponent_add exponent : Z) : option Z :=
  match s with
  | [] => Some exponent
  | c :: s =>
      let digit := u32 (code c - code "0") in
      lit_assert (digit <=? 9);;
      let exponent := exponent * 10 + digit in
      if MAX_EXP F <=? exponent + significand_exponent_add then Some exponent
      else exponent_loop s significand_exponent_add exponent
  end.

(** The exponent as written, with its sign. *)
Definition parse_exponent (s : list ascii) (significand_exponent : Z) : option Z :=
  match s with
  | [] => None                                   (* assert(s < end) *)
  | "-"%char :: s => Z.opp <$> exponent_loop s (- significand_exponent) 0
  | "+"%char :: s => exponent_loop s significand_exponent 0
  | _ => exponent_loop s 0 0
  end.

(** Bring a significand of [bits] bits to [target] bits. *)
Definition align_significand (significand bits target : Z) : option Z :=
  if target <? bits then shift_and_round_to_nearest significand (bits - target)
  else if bits <? target then Some (wrap w (Z.shiftl significand (target - bits)))
  else Some significand.

(** The bits of [significand * 2 ^ exponent]; [exponent] is the exponent of
    the leading bit. *)
Definition finish_float (is_neg : bool) (significand exponent significand_bits : Z) : option Z :=
  if MAX_EXP F <=? exponent then make_bits is_neg (MAX_EXP F) 0
  else if exponent <=? MIN_EXP F then
    significand ← align_significand significand significand_bits (SIG_BITS F);
    let shift := MIN_EXP F - exponent in
    if shift <? SIG_BITS F then
      significand ← (if negb (shift =? 0)
                     then (fun x => Z.land x (SIG_MASK F)) <$>
                          shift_and_round_to_nearest significand shift
                     else Some significand);
      if negb (significand =? 0) then make_bits is_neg (MIN_EXP F) significand
      else make_bits is_neg (MIN_EXP F) 0
    else make_bits is_neg (MIN_EXP F) 0
  else
    aligned ← align_significand significand significand_bits (SIG_PLUS_ONE_BITS F);
    let exponent :=
      if (SIG_PLUS_ONE_BITS F <? significand_bits) && (SIG_PLUS_ONE_MASK F <? aligned)
      then exponent + 1 else exponent in
    make_bits is_neg exponent (Z.land aligned (SIG_MASK F)).

(** [parse_float_hex], [parse_double_hex]: the bits written to [*out_bits] *)
Definition parse_hex (s : list ascii) : option Z :=
  '(is_neg, s) ← parse_sign s;
  lit_assert (string_starts_with s (chars "0x"));;
  let '(g, s) := significand_loop (drop 2 s) (mkSignificand false 0 0 0 0) in
  let significand_exponent :=
    if negb (seen_dot g) then significand_exponent g + significand_shift g
    else significand_exponent g in
  lit_assert (string_starts_with s ["p"%char]);;
  let s := drop 1 s in
  if significand g =? 0 then make_bits is_neg (MIN_EXP F) 0
  else
    exponent ← parse_exponent s significand_exponent;
    let significand_bits := w - wasm_clz w (significand g) in
    finish_float is_neg (significand g) (exponent + (significand_exponent + significand_bits - 1))
      significand_bits.

(** [parse_float_infinity], [parse_double_infinity] *)
Definition parse_infinity (s : list ascii) : option Z :=
  '(is_neg, s) ← parse_sign s;
  lit_assert (string_starts_with s (chars "infinity"));;
  make_bits is_neg (MAX_EXP F) 0.

(** [strtof] or [strtod]: the bits of the value, the number of characters
    consumed and whether [errno] was set. *)
Variable strto : list ascii -> Z * nat * bool.

Definition is_zero_or_huge (bits : Z) : bool :=
  let magnitude := Z.land bits (Z.shiftl 1 (SIGN_SHIFT F) - 1) in
  (magnitude =? 0) || (magnitude =? Z.shiftl (EXP_MASK F) (SIG_BITS F)).

(** [wasm_parse_float], [wasm_parse_double] *)
Definition parse_literal (literal_type : WasmLiteralType) (s : list ascii) : Parsed :=
  match literal_type with
  | WASM_LITERAL_TYPE_INT | WASM_LITERAL_TYPE_FLOAT =>
      let '(value, consumed, errno) := strto s in
      if negb (consumed =? List.length s)%nat || (is_zero_or_huge value && errno)
      then Some (WASM_ERROR, None) else out_bits value
  | WASM_LITERAL_TYPE_HEXFLOAT => parse_hex s ≫= out_bits
  | WASM_LITERAL_TYPE_INFINITY => parse_infinity s ≫= out_bits
  | WASM_LITERAL_TYPE_NAN => parse_nan s
  end.

(** ** Writing floats *)

Definition top_nybble (sig : Z) : Z := Z.land (Z.shiftr sig (w - 4)) 0xf.

Definition hex_char (nybble : Z) : ascii := nth (Z.to_nat nybble) s_hex_digits "0"%char.

(** The number of hexadecimal digits of the integer type. *)
Definition NYBBLES : nat := Z.to_nat (w / 4).

(** [while ((sig & 0xf0000000) == 0)]: the remaining [sig] and [num_nybbles] *)
Fixpoint skip_zero_nybbles (num_nybbles : nat) (sig : Z) : option (nat * Z) :=
  if negb (Z.land sig (Z.shiftl 0xf (w - 4)) =? 0) then Some (num_nybbles, sig)
  else match num_nybbles with
       | O => None
       | S n => skip_zero_nybbles n (wrap w (Z.shiftl sig 4))
       end.

(** [while (num_nybbles)] *)
Fixpoint write_nybbles (num_nybbles : nat) (sig : Z) : list ascii :=
  match num_nybbles with
  | O => []
  | S n => hex_char (top_nybble sig) :: write_nybbles n (wrap w (Z.shiftl sig 4))
  end.

(** [while (sig)]; [NYBBLES] rounds shift every bit out. *)
Fixpoint write_fraction (fuel : nat) (sig : Z) : option (list ascii) :=
  if sig =? 0 then Some []
  else match fuel with
       | O => None
       | S n => cons (hex_char (top_nybble sig)) <$> write_fraction n (wrap w (Z.shiftl sig 4))
       end.

(** The text after the sign. *)
Definition write_magnitude (exp sig : Z) : option (list ascii) :=
  if exp =? MAX_EXP F then
    if sig =? 0 then Some (chars "infinity")
    else if sig =? QUIET_NAN_TAG F then Some (chars "nan")
    else '(n, sig) ← skip_zero_nybbles NYBBLES sig;
         Some (chars "nan:0x" ++ write_nybbles n sig)
  else
    let is_zero := (sig =? 0) && (exp =? MIN_EXP F) in
    let sig := wrap w (Z.shiftl sig (w - SIG_BITS F)) in
    let subnormal := negb (sig =? 0) && (exp =? MIN_EXP F) in
    let leading_zeroes := wasm_clz w sig in
    let exp := if subnormal then exp - leading_zeroes else exp in
    fraction ←
      (if negb (sig =? 0) then
         let sig := if subnormal then
                      if leading_zeroes <? w - 1
                      then wrap w (Z.shiftl sig (leading_zeroes + 1)) else 0
                    else sig in
         cons "."%char <$> write_fraction NYBBLES sig
       else Some []);
    Some (chars "0x" ++ [if is_zero then "0"%char else "1"%char] ++ fraction ++ ["p"%char] ++
          (if is_zero then chars "+0"
           else if exp <? 0 then "-"%char :: EXP_DIGITS F (- exp)
           else "+"%char :: EXP_DIGITS F exp)).

(** [wasm_write_float_hex], [wasm_write_double_hex]: the bytes stored in
    [out], with the terminating NUL.  [None] is an overflow of the local buffer
    or a [memcpy] of [size - 1 = SIZE_MAX] bytes. *)
Definition write_hex (size bits : Z) : option (list ascii) :=
  let is_neg := negb (Z.shiftr bits (SIGN_SHIFT F) =? 0) in
  let exp := Z.land (Z.shiftr bits (SIG_BITS F)) (EXP_MASK F) - EXP_BIAS F in
  let sig := Z.land bits (SIG_MASK F) in
  text ← write_magnitude exp sig;
  let buffer := (if is_neg then ["-"%char] else []) ++ text in
  let len := Z.of_nat (List.length buffer) in
  (* the strings copied with strcpy have room for their NUL *)
  lit_assert (len <? BUFFER_SIZE F);;
  lit_assert (0 <? size);;
  let len := if size <=? len then size - 1 else len in
  Some (take (Z.to_nat len) buffer ++ ["000"%char]).

End floats.

Definition make_float := make_bits F32_FORMAT.
Definition make_double := make_bits F64_FORMAT.
Definition shift_float_and_round_to_nearest := shift_and_round_to_nearest F32_FORMAT.
Definition shift_double_and_round_to_nearest := shift_and_round_to_nearest F64_FORMAT.
Definition parse_float_nan := parse_nan F32_FORMAT.
Definition parse_double_nan := parse_nan F64_FORMAT.
Definition parse_float_hex := parse_hex F32_FORMAT.
Definition parse_double_hex := parse_hex F64_FORMAT.
Definition parse_float_infinity := parse_infinity F32_FORMAT.
Definition parse_double_infinity := parse_infinity F64_FORMAT.
Definition wasm_parse_float := parse_literal F32_FORMAT.
Definition wasm_parse_double := parse_literal F64_FORMAT.
Definition wasm_write_float_hex := write_hex F32_FORMAT.
Definition wasm_write_double_hex := write_hex F64_FORMAT.
