(* ===== verification/LiteralFacts.v ===== *)
(** * Literals: what the parsers and the writers compute

    The hexadecimal writer and the parsers are inverse on every bit pattern of
    both float formats; the integer parsers against the numerals of the text
    format; and the inputs on which literal.c goes wrong. *)

From S2P Require Import Prelude Numeric Literal.
From Stdlib Require Import Ascii String.

(** ** Hexadecimal digits *)

Abbreviation is_nybble := (in_u 4).

Lemma nybble_check (f : Z -> bool) d :
  forallb f (seqZ 0 16) = true -> is_nybble d -> f d = true.
Proof.
  intros H Hd. rewrite List.forallb_forall in H. apply H.
  rewrite <- list_elem_of_In, elem_of_seqZ. ulia.
Qed.

Lemma hexdigit_hex_char d : is_nybble d -> wasm_parse_hexdigit (hex_char d) = Some d.
Proof.
  intros Hd. apply (bool_decide_eq_true_1 _).
  exact (nybble_check (fun d => bool_decide (wasm_parse_hexdigit (hex_char d) = Some d)) d eq_refl Hd).
Qed.

Lemma hex_char_not_dot d : is_nybble d -> hex_char d <> "."%char.
Proof.
  intros Hd. apply (bool_decide_eq_true_1 _).
  exact (nybble_check (fun d => bool_decide (hex_char d <> "."%char)) d eq_refl Hd).
Qed.

(** The number written with the digits [ds], after [acc]. *)
Definition hexval (acc : Z) (ds : list Z) : Z := fold_left (fun a d => a * 16 + d) ds acc.

Lemma pow16 n : 16 ^ Z.of_nat n = 2 ^ (4 * Z.of_nat n).
Proof. change 16 with (2 ^ 4). by rewrite <- Z.pow_mul_r by lia. Qed.

Lemma hexval_acc acc ds :
  hexval acc ds = acc * 16 ^ Z.of_nat (List.length ds) + hexval 0 ds.
Proof.
  revert acc. induction ds as [|d ds IH]; intros acc; unfold hexval in *; cbn [fold_left List.length].
  - cbn. lia.
  - rewrite IH, (IH (0 * 16 + d)). rewrite Nat2Z.inj_succ, Z.pow_succ_r by lia. lia.
Qed.

Lemma hexval_bound ds : Forall is_nybble ds -> 0 <= hexval 0 ds < 16 ^ Z.of_nat (List.length ds).
Proof.
  induction 1 as [|d ds Hd _ IH]; [by cbn|].
  unfold hexval in *. cbn [fold_left List.length]. change (fold_left _ ds (0 * 16 + d)) with (hexval (0 * 16 + d) ds).
  rewrite hexval_acc, Nat2Z.inj_succ, Z.pow_succ_r by lia. unfold hexval in *. unfold in_u in Hd. change (2 ^ 4) with 16 in Hd. nia.
Qed.

(** ** The two formats *)

(** Digits of a full fraction. *)
Definition fraction_digits (F : FloatFormat) : Z := (SIG_BITS F + 3) / 4.

(** The text of an exponent, and what the parser makes of it when the fraction
    has [k] digits. *)
Definition exp_text (F : FloatFormat) (E : Z) : list ascii :=
  if E <? 0 then "-"%char :: EXP_DIGITS F (- E) else "+"%char :: EXP_DIGITS F E.

Definition exp_text_ok (F : FloatFormat) (E : Z) (k : nat) : bool :=
  bool_decide (parse_exponent F (exp_text F E) (- 4 * Z.of_nat k) = Some E) &&
  (Z.of_nat (List.length (exp_text F E)) <=? 5).

(** What the proofs need to know of a format. *)
Class FormatOk (F : FloatFormat) : Prop := {
  fo_w : UINT_BITS F = 4 * Z.of_nat (NYBBLES F);
  fo_sign : SIGN_SHIFT F = UINT_BITS F - 1;
  fo_m : 8 < SIG_BITS F < UINT_BITS F - 6;
  fo_mask : SIG_MASK F = Z.ones (SIG_BITS F);
  fo_plus1 : SIG_PLUS_ONE_BITS F = SIG_BITS F + 1;
  fo_plus1_mask : SIG_PLUS_ONE_MASK F = Z.ones (SIG_BITS F + 1);
  fo_exp_mask : EXP_MASK F = Z.ones (UINT_BITS F - 1 - SIG_BITS F);
  fo_bias : 2 ^ (UINT_BITS F - 1 - SIG_BITS F) = 2 * EXP_BIAS F + 2;
  fo_bias_pos : 0 < EXP_BIAS F;
  fo_min : MIN_EXP F = - EXP_BIAS F;
  fo_max : MAX_EXP F = EXP_BIAS F + 1;
  fo_quiet : 0 < QUIET_NAN_TAG F <= SIG_MASK F;
  fo_digits : 4 * fraction_digits F <= SIG_BITS F + 1;
  fo_buffer : Z.of_nat (NYBBLES F) + 7 < BUFFER_SIZE F /\ fraction_digits F + 11 < BUFFER_SIZE F;
  fo_exp E k : MIN_EXP F - SIG_BITS F < E <= EXP_BIAS F -> Z.of_nat k <= fraction_digits F ->
    exp_text_ok F E k = true
}.

Lemma exp_check F :
  forallb (fun E => forallb (exp_text_ok F E) (seq 0 (Z.to_nat (fraction_digits F) + 1)))
    (seqZ (MIN_EXP F - SIG_BITS F) (EXP_BIAS F - MIN_EXP F + SIG_BITS F + 1)) = true ->
  forall E k, MIN_EXP F - SIG_BITS F < E <= EXP_BIAS F -> Z.of_nat k <= fraction_digits F ->
    exp_text_ok F E k = true.
Proof.
  intros H E k HE Hk. rewrite List.forallb_forall in H.
  specialize (H E). rewrite <- list_elem_of_In, elem_of_seqZ in H. specialize (H ltac:(lia)).
  rewrite List.forallb_forall in H. apply H. rewrite in_seq. lia.
Qed.

#[export] Instance F32_ok : FormatOk F32_FORMAT.
Proof.
  constructor; try apply exp_check; vm_compute; try done; intuition congruence.
Qed.

#[export] Instance F64_ok : FormatOk F64_FORMAT.
Proof.
  constructor; try apply exp_check; vm_compute; try done; intuition congruence.
Qed.

Section format.
Context (F : FloatFormat) {HF : FormatOk F}.

Abbreviation w := (UINT_BITS F).
Abbreviation m := (SIG_BITS F).
Abbreviation bias := (EXP_BIAS F).

Lemma fo_mw : 8 < m < w - 6.
Proof. apply fo_m. Qed.

Lemma fo_fields : 2 ^ w = 2 * 2 ^ (w - 1) /\ 2 ^ (w - 1) = (2 * bias + 2) * 2 ^ m.
Proof.
  pose proof fo_mw. rewrite <- fo_bias, <- Z.pow_add_r by lia.
  split; [rewrite <- Z.pow_succ_r by lia|]; f_equal; lia.
Qed.

(** ** Packing and unpacking *)

Lemma make_bits_fields s e sig : 0 <= e <= 2 * bias + 1 -> in_u m sig ->
  make_bits F s (e - bias) sig = Some (b2z s * 2 ^ (w - 1) + e * 2 ^ m + sig).
Proof.
  intros He Hsig. pose proof fo_mw. pose proof fo_fields as [E1 E2]. pose proof fo_bias_pos.
  unfold make_bits, in_u in *. rewrite fo_min, fo_max, fo_mask, fo_sign, Z.ones_equiv.
  rewrite !(proj2 (Z.leb_le _ _)) by lia. cbn [andb lit_assert]. cbn [mbind option_bind]. f_equal.
  replace (e - bias + bias) with e by lia. rewrite !Z.shiftl_mul_pow2 by lia.
  rewrite !wrap_id.
  2:{ unfold in_u. nia. }
  2:{ unfold in_u. destruct s; unfold b2z; nia. }
  rewrite <- Z.lor_assoc. rewrite (lor_shiftl_add e sig m) by lia.
  rewrite lor_shiftl_add by nia. lia.
Qed.

Lemma bits_split bits : in_u w bits ->
  exists s e sig, 0 <= e <= 2 * bias + 1 /\ in_u m sig /\
    bits = b2z s * 2 ^ (w - 1) + e * 2 ^ m + sig /\
    negb (Z.shiftr bits (SIGN_SHIFT F) =? 0) = s /\
    Z.land (Z.shiftr bits m) (EXP_MASK F) = e /\
    Z.land bits (SIG_MASK F) = sig.
Proof.
  intros Hb. pose proof fo_mw. pose proof fo_fields as [E1 E2]. pose proof fo_bias_pos.
  unfold in_u in *. rewrite fo_mask, fo_exp_mask, fo_sign, !Z.land_ones, !Z.shiftr_div_pow2 by lia.
  rewrite fo_bias.
  exists (negb (bits / 2 ^ (w - 1) =? 0)), ((bits / 2 ^ m) mod (2 * bias + 2)), (bits mod 2 ^ m).
  assert (0 < 2 ^ m) by lia.
  pose proof (Z.mod_pos_bound bits (2 ^ m) ltac:(lia)).
  pose proof (Z.mod_pos_bound (bits / 2 ^ m) (2 * bias + 2) ltac:(lia)).
  pose proof (Z.div_mod bits (2 ^ m) ltac:(lia)).
  pose proof (Z.div_mod (bits / 2 ^ m) (2 * bias + 2) ltac:(lia)) as Hd.
  rewrite Z.div_div in Hd by lia. rewrite (Z.mul_comm (2 ^ m)), <- E2 in Hd.
  pose proof (Z.div_mod bits (2 ^ (w - 1)) ltac:(lia)).
  split_and!; try lia.
  assert (b2z (negb (bits / 2 ^ (w - 1) =? 0)) = bits / 2 ^ (w - 1)) as ->.
  { assert (0 <= bits / 2 ^ (w - 1) < 2).
    { split; [apply Z.div_pos; lia|]. apply Z.div_lt_upper_bound; lia. }
    destruct (Z.eqb_spec (bits / 2 ^ (w - 1)) 0); cbn; lia. }
  nia.
Qed.

(** ** The writer's digits *)

Lemma w_pos : 4 < w.
Proof. pose proof fo_mw. lia. Qed.

Lemma top_nybble_split sig : in_u w sig ->
  is_nybble (top_nybble F sig) /\
  exists r, sig = top_nybble F sig * 2 ^ (w - 4) + r /\ 0 <= r < 2 ^ (w - 4) /\
    wrap w (Z.shiftl sig 4) = r * 16.
Proof.
  intros Hs. pose proof w_pos. unfold in_u, top_nybble in *.
  change 0xf with (Z.ones 4). rewrite Z.land_ones, Z.shiftr_div_pow2 by lia.
  assert (2 ^ w = 16 * 2 ^ (w - 4)) as Ew by (change 16 with (2 ^ 4); rewrite <- Z.pow_add_r by lia; f_equal; lia).
  assert (0 < 2 ^ (w - 4)) by lia. set (P := 2 ^ (w - 4)) in *.
  assert (0 <= sig / P < 16) by (split; [apply Z.div_pos; lia|apply Z.div_lt_upper_bound; lia]).
  change (2 ^ 4) with 16. rewrite (Z.mod_small (sig / P) 16) by lia. split; [lia|].
  exists (sig mod P). pose proof (Z.div_mod sig P ltac:(lia)). pose proof (Z.mod_pos_bound sig P ltac:(lia)).
  split_and!; [lia..|]. rewrite Z.shiftl_mul_pow2 by lia. change (2 ^ 4) with 16.
  rewrite (wrap_eq_add w _ ((sig mod P) * 16) (sig / P)) by nia.
  apply wrap_id. unfold in_u. lia.
Qed.

Lemma hexval_cons d ds : hexval 0 (d :: ds) = d * 16 ^ Z.of_nat (List.length ds) + hexval 0 ds.
Proof. unfold hexval at 1. cbn [fold_left]. change (fold_left _ ds (0 * 16 + d)) with (hexval (0 * 16 + d) ds). by rewrite hexval_acc. Qed.

Lemma write_nybbles_spec n sig : in_u w sig -> 4 * Z.of_nat n <= w ->
  exists ds, write_nybbles F n sig = map hex_char ds /\ List.length ds = n /\
    Forall is_nybble ds /\ hexval 0 ds = sig / 2 ^ (w - 4 * Z.of_nat n).
Proof.
  revert sig. induction n as [|n IH]; intros sig Hs Hn.
  - exists []. split_and!; [done|done|constructor|]. cbn [Z.of_nat hexval fold_left].
    rewrite Z.mul_0_r, Z.sub_0_r. symmetry. by apply Z.div_small.
  - destruct (top_nybble_split sig Hs) as (Ht & r & Es & Hr & Ew). pose proof w_pos.
    cbn [write_nybbles]. rewrite Ew. assert (2 ^ w = 2 ^ (w - 4) * 16) as E16.
    { change 16 with (2 ^ 4). rewrite <- Z.pow_add_r by lia. f_equal. lia. }
    destruct (IH (r * 16)) as (ds & -> & Hl & Hds & Hv); [unfold in_u; lia|lia|].
    exists (top_nybble F sig :: ds). split_and!; [done|cbn; lia|by constructor|].
    rewrite hexval_cons, Hv, Hl. set (t := top_nybble F sig) in *.
    set (P := 2 ^ (w - 4 * Z.of_nat (S n))).
    assert (2 ^ (w - 4 * Z.of_nat n) = P * 16) as ->.
    { unfold P. change 16 with (2 ^ 4). rewrite <- Z.pow_add_r by lia. f_equal. lia. }
    assert (2 ^ (w - 4) = P * 16 ^ Z.of_nat n) as EP.
    { unfold P. rewrite pow16, <- Z.pow_add_r by lia. f_equal. lia. }
    assert (0 < P) by (unfold P; apply Z.pow_pos_nonneg; lia).
    rewrite Z.div_mul_cancel_r by lia. rewrite Es, EP.
    replace (t * (P * 16 ^ Z.of_nat n) + r) with (t * 16 ^ Z.of_nat n * P + r) by lia.
    by rewrite Z.div_add_l by lia.
Qed.

Lemma skip_zero_nybbles_spec n sig : sig <> 0 -> 0 <= sig < 2 ^ (4 * Z.of_nat n) ->
  (4 * Z.of_nat n <= w) ->
  exists k, (k <= n)%nat /\
    skip_zero_nybbles F n (sig * 2 ^ (w - 4 * Z.of_nat n)) =
      Some (k, sig * 2 ^ (w - 4 * Z.of_nat k)) /\ 0 <= sig < 2 ^ (4 * Z.of_nat k).
Proof.
  intros H0. induction n as [|n IH]; intros Hs Hn; [cbn in Hs; lia|]. pose proof w_pos.
  set (x := sig * 2 ^ (w - 4 * Z.of_nat (S n))).
  assert (2 ^ w = 2 ^ (4 * Z.of_nat (S n)) * 2 ^ (w - 4 * Z.of_nat (S n))) as Ew.
  { rewrite <- Z.pow_add_r by lia. f_equal. lia. }
  assert (0 < 2 ^ (w - 4 * Z.of_nat (S n))) by (apply Z.pow_pos_nonneg; lia).
  assert (in_u w x) as Hx by (unfold in_u, x; nia).
  assert (Z.land x (Z.shiftl 0xf (w - 4)) = top_nybble F x * 2 ^ (w - 4)) as El.
  { unfold top_nybble. rewrite <- (Z.shiftl_mul_pow2 _ (w - 4)) by lia. rewrite Z.shiftl_land.
    rewrite <- Z.ldiff_ones_r by lia. apply Z.bits_inj'. intros i Hi.
    rewrite !Z.land_spec, Z.ldiff_spec, Z.shiftl_spec by lia.
    destruct (Z.ltb_spec i (w - 4)).
    - rewrite (Z.testbit_neg_r 15) by lia. by rewrite !andb_false_r.
    - rewrite Z.ones_spec_high by lia. by rewrite andb_true_r. }
  cbn [skip_zero_nybbles]. fold x. rewrite El.
  destruct (top_nybble_split x Hx) as (Ht & r & Es & Hr & Ew').
  assert (0 < 2 ^ (w - 4)) by lia.
  destruct (Z.eqb_spec (top_nybble F x * 2 ^ (w - 4)) 0) as [E|E]; cbn [negb].
  - assert (top_nybble F x = 0) as E0 by nia. rewrite Ew'.
    assert (r * 16 = sig * 2 ^ (w - 4 * Z.of_nat n)) as ->.
    { rewrite E0 in Es. replace r with x by lia. unfold x. change 16 with (2 ^ 4).
      rewrite <- Z.mul_assoc, <- Z.pow_add_r by lia. do 2 f_equal. lia. }
    destruct IH as (k & Hk & E' & Hk').
    { split; [lia|].
      assert (2 ^ (w - 4) = 2 ^ (4 * Z.of_nat n) * 2 ^ (w - 4 * Z.of_nat (S n))) as E4.
      { rewrite <- Z.pow_add_r by lia. f_equal. lia. }
      rewrite E0 in Es. unfold x in Es. rewrite E4 in Hr. nia. }
    { lia. }
    exists k. split; [lia|]. split; [exact E'|exact Hk'].
  - exists (S n). split; [lia|]. done.
Qed.

(** The digits of a fraction: [sig / 2 ^ w] in base 16, without trailing
    zeros. *)
Lemma write_fraction_spec n sig : in_u w sig -> (2 ^ (w - 4 * Z.of_nat n) | sig) ->
  4 * Z.of_nat n <= w ->
  exists ds, write_fraction F n sig = Some (map hex_char ds) /\
    Forall is_nybble ds /\ List.last ds 1 <> 0 /\ (List.length ds <= n)%nat /\
    sig * 16 ^ Z.of_nat (List.length ds) = hexval 0 ds * 2 ^ w.
Proof.
  revert sig. induction n as [|n IH]; intros sig Hs Hdiv Hn.
  - replace (w - 4 * Z.of_nat 0) with w in Hdiv by lia.
    assert (sig = 0) as -> by (unfold in_u in Hs; apply Z.mod_divide in Hdiv; [rewrite Z.mod_small in Hdiv|]; lia).
    exists []. by split_and!.
  - cbn [write_fraction]. destruct (Z.eqb_spec sig 0) as [->|H0].
    { exists []. split_and!; try done. cbn. lia. }
    destruct (top_nybble_split sig Hs) as (Ht & r & Es & Hr & Ew). pose proof w_pos.
    rewrite Ew. assert (2 ^ w = 2 ^ (w - 4) * 16) as E16.
    { change 16 with (2 ^ 4). rewrite <- Z.pow_add_r by lia. f_equal. lia. }
    set (t := top_nybble F sig) in *.
    destruct (IH (r * 16)) as (ds & -> & Hds & Hl & Hn' & Hv); [unfold in_u; lia| |lia|].
    { replace (w - 4 * Z.of_nat n) with (w - 4 * Z.of_nat (S n) + 4) by lia.
      rewrite Z.pow_add_r by lia. change (2 ^ 4) with 16. apply Z.mul_divide_mono_r.
      replace r with (sig - t * 2 ^ (w - 4)) by lia. apply Z.divide_sub_r; [done|].
      apply Z.divide_mul_r. exists (2 ^ (4 * Z.of_nat n)). rewrite <- Z.pow_add_r by lia. f_equal. lia. }
    exists (t :: ds). split_and!; [done|by constructor| |cbn; lia|].
    + destruct ds as [|d ds]; [|exact Hl]. cbn in Hv |- *.
      enough (r = 0) by nia. unfold hexval in Hv. cbn in Hv. lia.
    + rewrite hexval_cons. cbn [List.length]. rewrite Nat2Z.inj_succ, Z.pow_succ_r by lia.
      rewrite Z.mul_add_distr_r, <- Hv, Es at 1. rewrite E16. ring.
Qed.

(** ** The parser's loop over the significand *)

Lemma significand_step_digit d g : is_nybble d ->
  significand_step F (hex_char d) g =
    let shift := significand_shift g + 4 in
    if negb (d =? 0) && ((significand g =? 0) || (significand_bits g + shift <=? m + 5))
    then Some (mkSignificand (seen_dot g)
                 (wrap w ((if negb (significand g =? 0) then wrap w (Z.shiftl (significand g) shift)
                           else significand g) + d)) 0 (significand_bits g + 4)
                 (if seen_dot g then significand_exponent g - shift else significand_exponent g))
    else Some (mkSignificand (seen_dot g) (significand g) shift (significand_bits g)
                 (significand_exponent g)).
Proof.
  intros Hd. unfold significand_step. rewrite decide_False by by apply hex_char_not_dot.
  rewrite hexdigit_hex_char by done. cbn [mbind option_bind]. unfold HEX_DIGIT_BITS.
  by replace (m + 1 + 4) with (m + 5) by lia.
Qed.

Lemma significand_step_dot g :
  significand_step F "."%char g =
    Some (mkSignificand true (significand g) 0 (significand_bits g)
            (if negb (significand g =? 0) then significand_exponent g + significand_shift g
             else significand_exponent g)).
Proof. done. Qed.

Lemma significand_eq dot s s' b e e' (rest : list ascii) : s = s' -> e = e' ->
  (mkSignificand dot s 0 b e, rest) = (mkSignificand dot s' 0 b e', rest).
Proof. congruence. Qed.

(** Digits after the dot extend a non-zero significand, as long as there is
    room and the last one is not zero. *)
Lemma significand_loop_digits ds rest g :
  Forall is_nybble ds -> seen_dot g = true ->
  0 < significand g -> 0 <= significand_shift g ->
  let n := 4 * Z.of_nat (List.length ds) in
  significand_bits g + significand_shift g + n <= m + 5 ->
  significand_shift g + n <= w -> (significand g + 1) * 2 ^ (significand_shift g + n) <= 2 ^ w ->
  (ds = [] -> significand_shift g = 0) -> List.last ds 1 <> 0 ->
  exists bits,
    significand_loop F (map hex_char ds ++ "p"%char :: rest) g =
      (mkSignificand true (significand g * 2 ^ (significand_shift g + n) + hexval 0 ds) 0 bits
         (significand_exponent g - significand_shift g - n), "p"%char :: rest).
Proof.
  intros Hds. revert g. induction Hds as [|d ds Hd Hds IH];
    intros [dot sig sh b e] Hdot Hsig Hsh; cbn [significand_shift significand significand_bits
      significand_exponent seen_dot List.length] in *; subst dot; intros Hb Hw Hfit Hnil Hlast.
  - rewrite Hnil by done. exists b. apply significand_eq; cbn; lia.
  - cbn [map app significand_loop]. rewrite significand_step_digit by done.
    cbn [significand_shift significand significand_bits significand_exponent seen_dot].
    set (n' := 4 * Z.of_nat (List.length ds)) in *.
    replace (4 * Z.of_nat (S (List.length ds))) with (4 + n') in * by lia.
    assert (0 <= n') by lia.
    rewrite hexval_cons. change 16 with (2 ^ 4). rewrite <- Z.pow_mul_r by lia.
    fold n'. rewrite (proj2 (Z.eqb_neq sig 0)) by lia. cbn [orb negb].
    rewrite (proj2 (Z.leb_le _ _)) by lia. rewrite andb_true_r.
    replace (sh + (4 + n')) with (sh + 4 + n') in * by lia.
    rewrite Z.pow_add_r in * by lia. assert (0 < 2 ^ n') by lia.
    assert (16 <= 2 ^ (sh + 4)).
    { rewrite Z.pow_add_r by lia. change (2 ^ 4) with 16. pose proof (Z.pow_pos_nonneg 2 sh). lia. }
    assert ((sig + 1) * 2 ^ (sh + 4) <= 2 ^ w) as Hfit1 by nia.
    destruct (Z.eqb_spec d 0) as [->|Hd0]; cbn [negb].
    + destruct ds as [|d' ds]; [done|].
      destruct (IH (mkSignificand true sig (sh + 4) b e)) as [b' E];
        cbn [significand_shift significand significand_bits significand_exponent seen_dot];
        fold n'; try done; try lia.
      { rewrite Z.pow_add_r by lia. lia. }
      exists b'. rewrite E. cbn [significand_shift significand significand_bits significand_exponent].
      fold n'. rewrite (Z.pow_add_r 2 (sh + 4) n') by lia. apply significand_eq; lia.
    + unfold in_u in Hd. change (2 ^ 4) with 16 in Hd.
      rewrite Z.shiftl_mul_pow2 by lia.
      rewrite (wrap_id w (sig * _)) by (unfold in_u; nia).
      rewrite wrap_id by (unfold in_u; nia).
      destruct (IH (mkSignificand true (sig * 2 ^ (sh + 4) + d) 0 (b + 4) (e - (sh + 4)))) as [b' E];
        cbn [significand_shift significand significand_bits significand_exponent seen_dot];
        fold n'; try done; try lia; try nia.
      { rewrite Z.add_0_l. nia. }
      { by destruct ds. }
      exists b'. rewrite E. cbn [significand_shift significand significand_bits significand_exponent].
      fold n'. rewrite Z.add_0_l. apply significand_eq; nia.
Qed.

(** ** Rounding when nothing is lost *)

Lemma shift_exact x j : 0 < j < w -> 0 <= x -> x * 2 ^ j + 2 ^ (j - 1) < 2 ^ w ->
  shift_and_round_to_nearest F (x * 2 ^ j) j = Some x.
Proof.
  intros Hj Hx Hlt. unfold shift_and_round_to_nearest.
  rewrite (proj2 (Z.ltb_lt _ _)) by lia. cbn [lit_assert mbind option_bind]. f_equal.
  assert (0 < 2 ^ (j - 1)) by lia.
  assert (2 ^ j = 2 * 2 ^ (j - 1)) as E2 by (rewrite <- Z.pow_succ_r by lia; f_equal; lia).
  rewrite Z.shiftr_div_pow2 by lia. destruct (negb _).
  - rewrite (Z.shiftl_mul_pow2 1), Z.mul_1_l by lia.
    rewrite (wrap_id w (2 ^ (j - 1))) by (unfold in_u; nia).
    rewrite wrap_id by (unfold in_u; nia). rewrite Z.div_add_l by lia.
    rewrite Z.div_small by lia. lia.
  - apply Z.div_mul. lia.
Qed.

Lemma align_exact s b t a : 0 < t < w -> 0 < b < w - 1 -> 0 <= s < 2 ^ b -> 0 <= a < 2 ^ t ->
  s * 2 ^ t = a * 2 ^ b -> align_significand F s b t = Some a.
Proof.
  intros Ht Hb Hs Ha E. unfold align_significand. destruct (Z.ltb_spec t b); [|destruct (Z.ltb_spec b t)].
  - assert (s = a * 2 ^ (b - t)) as ->.
    { apply (Z.mul_reg_r _ _ (2 ^ t)); [lia|]. rewrite E, <- Z.mul_assoc, <- Z.pow_add_r by lia.
      do 2 f_equal. lia. }
    apply shift_exact; [lia..|].
    pose proof (Z.pow_le_mono_r 2 (b - t - 1) b ltac:(lia) ltac:(lia)).
    assert (2 * 2 ^ b <= 2 ^ w) by (rewrite <- Z.pow_succ_r by lia; apply Z.pow_le_mono_r; lia). lia.
  - assert (a = s * 2 ^ (t - b)) as ->.
    { apply (Z.mul_reg_r _ _ (2 ^ b)); [lia|]. rewrite <- E, <- Z.mul_assoc, <- Z.pow_add_r by lia.
      do 2 f_equal. lia. }
    f_equal. rewrite Z.shiftl_mul_pow2 by lia. apply wrap_id. unfold in_u.
    pose proof (Z.pow_lt_mono_r 2 t w ltac:(lia) ltac:(lia) ltac:(lia)). lia.
  - assert (b = t) by lia. subst. f_equal. apply (Z.mul_reg_r _ _ (2 ^ t)); lia.
Qed.

Lemma finish_normal neg s b e sig : 0 < b < w - 1 -> 0 <= s < 2 ^ b ->
  1 <= e <= 2 * bias -> in_u m sig ->
  s * 2 ^ (m + 1) = (2 ^ m + sig) * 2 ^ b ->
  finish_float F neg s (e - bias) b = Some (b2z neg * 2 ^ (w - 1) + e * 2 ^ m + sig).
Proof.
  intros Hb Hs He Hsig E. pose proof fo_mw. unfold finish_float.
  rewrite fo_max, fo_min, fo_plus1. rewrite !(proj2 (Z.leb_gt _ _)) by lia.
  rewrite (align_exact s b (m + 1) (2 ^ m + sig)); [|lia|lia|lia| |done].
  2:{ rewrite Z.pow_add_r by lia. unfold in_u in Hsig. lia. }
  cbn [mbind option_bind]. rewrite fo_plus1_mask, fo_mask, Z.ones_equiv.
  unfold in_u in Hsig. rewrite (proj2 (Z.ltb_ge (Z.pred _) _)) by (rewrite Z.pow_add_r by lia; lia).
  rewrite andb_false_r, Z.land_ones by lia.
  replace (2 ^ m + sig) with (sig + 1 * 2 ^ m) by lia.
  rewrite Z_mod_plus_full, Z.mod_small by lia. apply make_bits_fields; [lia|done].
Qed.

Lemma finish_subnormal neg s b lz sig : 0 < b < w - 1 -> 0 <= s < 2 ^ b ->
  0 <= lz < m -> 0 < sig -> sig * 2 ^ lz < 2 ^ m -> s * 2 ^ m = sig * 2 ^ lz * 2 ^ b ->
  finish_float F neg s (- bias - lz) b = Some (b2z neg * 2 ^ (w - 1) + sig).
Proof.
  intros Hb Hs Hlz Hsig Hlt E. pose proof fo_mw. pose proof fo_bias_pos. unfold finish_float.
  rewrite fo_max, fo_min. rewrite (proj2 (Z.leb_gt _ _)) by lia. rewrite (proj2 (Z.leb_le _ _)) by lia.
  assert (0 < 2 ^ lz) by lia.
  rewrite (align_exact s b m (sig * 2 ^ lz)); [|lia..|done]. cbn [mbind option_bind].
  replace (- bias - (- bias - lz)) with lz by lia. rewrite (proj2 (Z.ltb_lt _ _)) by lia.
  assert (sig < 2 ^ m) by nia.
  assert ((if negb (lz =? 0) then (fun x => Z.land x (SIG_MASK F)) <$>
             shift_and_round_to_nearest F (sig * 2 ^ lz) lz else Some (sig * 2 ^ lz)) = Some sig) as ->.
  { destruct (Z.eqb_spec lz 0) as [->|]; cbn [negb]; [by rewrite Z.mul_1_r|].
    rewrite shift_exact; [|lia..|].
    - cbn [fmap option_fmap option_map]. rewrite fo_mask, Z.land_ones, Z.mod_small by lia. done.
    - pose proof (Z.pow_lt_mono_r 2 (lz - 1) m ltac:(lia) ltac:(lia) ltac:(lia)).
      assert (2 * 2 ^ m <= 2 ^ w) by (rewrite <- Z.pow_succ_r by lia; apply Z.pow_le_mono_r; lia). lia. }
  cbn [mbind option_bind]. rewrite (proj2 (Z.eqb_neq sig 0)) by lia. cbn [negb].
  replace (- bias) with (0 - bias) by lia. rewrite make_bits_fields; [|lia|unfold in_u; lia].
  f_equal. lia.
Qed.

(** ** Parsing what the writer wrote *)

Definition sign_text (neg : bool) : list ascii := if neg then ["-"%char] else [].

Lemma parse_sign_text neg c s : c <> "-"%char -> c <> "+"%char ->
  parse_sign (sign_text neg ++ c :: s) = Some (neg, c :: s).
Proof.
  intros H1 H2. destruct neg; [done|]. cbn [sign_text app].
  destruct c as [[] [] [] [] [] [] [] []]; try done; by destruct H1 || by destruct H2.
Qed.

Lemma parse_exponent_text E k :
  MIN_EXP F - m < E <= bias -> Z.of_nat k <= fraction_digits F ->
  parse_exponent F (exp_text F E) (- (4 * Z.of_nat k)) = Some E.
Proof.
  intros HE Hk. pose proof (fo_exp E k HE Hk) as H. unfold exp_text_ok in H.
  apply andb_true_iff in H as [H _]. apply bool_decide_eq_true_1 in H.
  rewrite <- H. f_equal. lia.
Qed.

Lemma clz_bits s b : 0 < b -> 2 ^ (b - 1) <= s < 2 ^ b -> w - wasm_clz w s = b.
Proof.
  intros Hb Hs. unfold wasm_clz. enough (Z.log2 s = b - 1) by lia.
  apply Z.log2_unique; [lia|]. by rewrite Z.sub_1_r, Z.succ_pred, <- Z.sub_1_r.
Qed.

(** The text of a fraction: empty, or a dot and its digits. *)
Definition fraction_text (dot : bool) (ds : list Z) : list ascii :=
  if dot then "."%char :: map hex_char ds else [].

Lemma parse_hex_text neg dot ds E :
  Forall is_nybble ds -> List.last ds 1 <> 0 -> (dot = false -> ds = []) ->
  Z.of_nat (List.length ds) <= fraction_digits F -> MIN_EXP F - m < E <= bias ->
  parse_hex F (sign_text neg ++ chars "0x1" ++ fraction_text dot ds ++ "p"%char :: exp_text F E) =
    finish_float F neg (2 ^ (4 * Z.of_nat (List.length ds)) + hexval 0 ds) E
      (4 * Z.of_nat (List.length ds) + 1).
Proof.
  intros Hds Hlast Hdot Hk HE. pose proof fo_mw. pose proof fo_digits.
  unfold parse_hex. cbn [String.list_ascii_of_string app]. rewrite parse_sign_text by done.
  cbn [mbind option_bind string_starts_with]. rewrite !decide_True by done. cbn [lit_assert drop].
  set (n := 4 * Z.of_nat (List.length ds)) in *.
  pose proof (hexval_bound ds Hds) as Hv. rewrite pow16 in Hv. fold n in Hv.
  assert (exists g, significand_loop F ("1"%char :: fraction_text dot ds ++ "p"%char :: exp_text F E)
            (mkSignificand false 0 0 0 0) = (g, "p"%char :: exp_text F E) /\
          significand g = 2 ^ n + hexval 0 ds /\
          (if negb (seen_dot g) then significand_exponent g + significand_shift g
           else significand_exponent g) = - n) as (g & -> & Hsig & Hexp).
  { cbn [significand_loop]. change "1"%char with (hex_char 1).
    rewrite significand_step_digit by by vm_compute. cbn.
    rewrite wrap_id by (unfold in_u; pose proof (Z.pow_gt_1 2 w); lia). destruct dot; cbn [fraction_text app].
    - cbn [significand_loop]. rewrite significand_step_dot.
      change (mkSignificand true _ _ _ _) with (mkSignificand true 1 0 4 0).
      destruct (significand_loop_digits ds (exp_text F E) (mkSignificand true 1 0 4 0)) as [b' ->];
        cbn [significand significand_shift significand_bits significand_exponent seen_dot];
        try done; fold n; try lia.
      + change (1 + 1) with (2 ^ 1). rewrite <- Z.pow_add_r by lia. apply Z.pow_le_mono_r; lia.
      + eexists. split; [reflexivity|]. cbn [significand seen_dot significand_exponent negb].
        rewrite Z.add_0_l. lia.
    - specialize (Hdot eq_refl). subst ds n. eexists. split; [reflexivity|]. done. }
  rewrite Hexp, Hsig. cbn [string_starts_with]. rewrite decide_True by done.
  replace (string_starts_with (exp_text F E) []) with true by by destruct (exp_text F E).
  cbn [lit_assert mbind option_bind drop]. rewrite drop_0.
  assert (0 < 2 ^ n) by lia. rewrite (proj2 (Z.eqb_neq _ 0)) by lia.
  unfold n. rewrite parse_exponent_text by done. fold n. cbn [mbind option_bind].
  rewrite (clz_bits _ (n + 1)); [|lia|]. 2:{ replace (n + 1 - 1) with n by lia. rewrite Z.pow_add_r by lia. lia. }
  f_equal. lia.
Qed.

(** ** What the writer writes *)

Lemma write_fraction_mono n n' sig t : (n <= n')%nat ->
  write_fraction F n sig = Some t -> write_fraction F n' sig = Some t.
Proof.
  revert n' sig t. induction n as [|n IH]; intros n' sig t Hn; cbn [write_fraction].
  - destruct (sig =? 0) eqn:E; [|done]. intros [= <-]. destruct n'; cbn; by rewrite E.
  - destruct n' as [|n']; [lia|]. cbn [write_fraction]. destruct (sig =? 0); [done|].
    destruct (write_fraction F n _) as [t'|] eqn:E; [|done]. apply (IH n') in E; [|lia]. by rewrite E.
Qed.

Lemma write_fraction_full x : in_u w x -> (2 ^ (w - m) | x) ->
  exists ds, write_fraction F (NYBBLES F) x = Some (map hex_char ds) /\
    Forall is_nybble ds /\ List.last ds 1 <> 0 /\
    Z.of_nat (List.length ds) <= fraction_digits F /\
    x * 2 ^ (4 * Z.of_nat (List.length ds)) = hexval 0 ds * 2 ^ w.
Proof.
  intros Hx Hdiv. pose proof fo_mw. pose proof fo_digits. pose proof fo_w.
  assert (m <= 4 * fraction_digits F) by (unfold fraction_digits; dlia).
  destruct (write_fraction_spec (Z.to_nat (fraction_digits F)) x Hx) as (ds & E & Hds & Hl & Hn & Hv); [|lia|].
  { apply (Z.divide_trans _ (2 ^ (w - m))); [|done]. rewrite Z2Nat.id by lia.
    exists (2 ^ (4 * fraction_digits F - m)). rewrite <- Z.pow_add_r by lia. f_equal. lia. }
  exists ds. split_and!; [|done..|lia|by rewrite <- pow16].
  apply (write_fraction_mono (Z.to_nat (fraction_digits F))); [lia|done].
Qed.

(** A text of the hexadecimal form and the number it stands for. *)
Definition hex_text (dot : bool) (ds : list Z) (E : Z) : list ascii :=
  chars "0x1" ++ fraction_text dot ds ++ "p"%char :: exp_text F E.

Definition hex_text_ok (dot : bool) (ds : list Z) (E : Z) : Prop :=
  Forall is_nybble ds /\ List.last ds 1 <> 0 /\ (dot = false -> ds = []) /\
  Z.of_nat (List.length ds) <= fraction_digits F /\ MIN_EXP F - m < E <= bias.

Lemma write_normal e sig : 1 <= e <= 2 * bias -> in_u m sig ->
  exists dot ds, write_magnitude F (e - bias) sig = Some (hex_text dot ds (e - bias)) /\
    hex_text_ok dot ds (e - bias) /\
    let n := 4 * Z.of_nat (List.length ds) in
    (2 ^ n + hexval 0 ds) * 2 ^ (m + 1) = (2 ^ m + sig) * 2 ^ (n + 1).
Proof.
  intros He Hsig. pose proof fo_mw. unfold write_magnitude.
  rewrite fo_max, fo_min. rewrite (proj2 (Z.eqb_neq _ (bias + 1))) by lia.
  rewrite (proj2 (Z.eqb_neq (e - bias) (- bias))) by lia. rewrite !andb_false_r.
  assert (2 ^ w = 2 ^ m * 2 ^ (w - m)) as Ew by (rewrite <- Z.pow_add_r by lia; f_equal; lia).
  unfold in_u in Hsig. assert (0 < 2 ^ (w - m)) by lia.
  rewrite Z.shiftl_mul_pow2 by lia. rewrite wrap_id by (unfold in_u; nia).
  set (x := sig * 2 ^ (w - m)).
  destruct (write_fraction_full x) as (ds & E & Hds & Hl & Hn & Hv); [unfold in_u; nia|by exists sig|].
  exists (negb (x =? 0)), ds. split_and!.
  - rewrite E. destruct (x =? 0); cbn [negb fraction_text mbind option_bind fmap option_fmap option_map];
      unfold hex_text, fraction_text; cbn [app]; f_equal; unfold exp_text; done.
  - split_and!; [done|done| |done|rewrite fo_min; lia|lia]. intros Hx%negb_false_iff%Z.eqb_eq.
    revert E. rewrite Hx. destruct (NYBBLES F); cbn; intros [= E']; by destruct ds.
  - cbn zeta. set (n := 4 * Z.of_nat (List.length ds)) in *. assert (0 <= n) by lia.
    assert (hexval 0 ds * 2 ^ m = sig * 2 ^ n) as Hv'.
    { apply (Z.mul_reg_r _ _ (2 ^ (w - m))); [lia|]. unfold x in Hv. lia. }
    rewrite !Z.pow_add_r by lia. lia.
Qed.

Lemma write_subnormal sig : 0 < sig < 2 ^ m ->
  exists lz ds, write_magnitude F (- bias) sig = Some (hex_text true ds (- bias - lz)) /\
    hex_text_ok true ds (- bias - lz) /\ 0 <= lz < m /\ sig * 2 ^ lz < 2 ^ m /\
    let n := 4 * Z.of_nat (List.length ds) in
    (2 ^ n + hexval 0 ds) * 2 ^ m = sig * 2 ^ lz * 2 ^ (n + 1).
Proof.
  intros Hsig. pose proof fo_mw. pose proof fo_bias_pos. unfold write_magnitude.
  rewrite fo_max, fo_min. rewrite (proj2 (Z.eqb_neq _ (bias + 1))) by lia.
  rewrite (proj2 (Z.eqb_neq sig 0)), Z.eqb_refl by lia. cbn [andb].
  assert (2 ^ w = 2 ^ m * 2 ^ (w - m)) as Ew by (rewrite <- Z.pow_add_r by lia; f_equal; lia).
  assert (0 < 2 ^ (w - m)) by lia.
  rewrite !Z.shiftl_mul_pow2 by lia. rewrite (wrap_id w (sig * 2 ^ (w - m))) by (unfold in_u; nia).
  rewrite (proj2 (Z.eqb_neq (sig * _) 0)) by nia. cbn [negb andb].
  pose proof (Z.log2_spec sig ltac:(lia)) as HL. pose proof (Z.log2_nonneg sig) as HL0.
  set (L := Z.log2 sig) in *.
  assert (L < m) as HLm by (apply Z.log2_lt_pow2; lia).
  assert (wasm_clz w (sig * 2 ^ (w - m)) = m - 1 - L) as ->.
  { unfold wasm_clz. rewrite Z.log2_mul_pow2 by lia. fold L. lia. }
  set (lz := m - 1 - L). rewrite (proj2 (Z.ltb_lt lz (w - 1))) by lia.
  rewrite Z.shiftl_mul_pow2 by lia. rewrite (Z.pow_succ_r 2 L) in HL by lia.
  assert (sig * 2 ^ (w - m) * 2 ^ (lz + 1) = (sig - 2 ^ L) * 2 ^ (w - L) + 1 * 2 ^ w) as Ex.
  { rewrite <- Z.mul_assoc, <- Z.pow_add_r by lia. replace (w - m + (lz + 1)) with (w - L) by lia.
    replace (2 ^ w) with (2 ^ L * 2 ^ (w - L)) by (rewrite <- Z.pow_add_r by lia; f_equal; lia). ring. }
  set (x := (sig - 2 ^ L) * 2 ^ (w - L)) in *.
  assert (2 ^ w = 2 ^ L * 2 ^ (w - L)) as EwL by (rewrite <- Z.pow_add_r by lia; f_equal; lia).
  assert (0 < 2 ^ (w - L)) by lia.
  assert (in_u w x) as Hx by (unfold in_u, x; nia).
  rewrite (wrap_eq_add w _ x 1 Ex), (wrap_id w x Hx).
  destruct (write_fraction_full x Hx) as (ds & E & Hds & Hl & Hn & Hv).
  { exists ((sig - 2 ^ L) * 2 ^ (m - L)). unfold x. rewrite <- Z.mul_assoc, <- Z.pow_add_r by lia.
    do 2 f_equal. lia. }
  assert (2 ^ m = 2 ^ L * 2 ^ (lz + 1)) as Em by (rewrite <- Z.pow_add_r by lia; f_equal; lia).
  rewrite Z.pow_add_r in Em by lia. change (2 ^ 1) with 2 in Em.
  exists lz, ds. split_and!; [|split_and!; [done..|rewrite fo_min; lia|lia]|lia|lia|nia|].
  - rewrite E. reflexivity.
  - cbn zeta. set (n := 4 * Z.of_nat (List.length ds)) in *. assert (0 <= n) by lia.
    assert (hexval 0 ds * 2 ^ L = (sig - 2 ^ L) * 2 ^ n) as Hv'.
    { apply (Z.mul_reg_r _ _ (2 ^ (w - L))); [lia|]. unfold x in Hv. lia. }
    rewrite Z.pow_add_r, Em by lia. change (2 ^ 1) with 2.
    replace ((2 ^ n + hexval 0 ds) * (2 ^ L * (2 ^ lz * 2)))
      with ((2 ^ n * 2 ^ L + hexval 0 ds * 2 ^ L) * (2 ^ lz * 2)) by ring.
    rewrite Hv'. ring.
Qed.

(** ** Tags of NaNs *)

Lemma hexval_le acc ds : Forall is_nybble ds -> 0 <= acc -> acc <= hexval acc ds.
Proof.
  intros Hds Ha. rewrite hexval_acc. pose proof (hexval_bound ds Hds). nia.
Qed.

Lemma parse_nan_tag_digits ds acc : Forall is_nybble ds -> 0 <= acc -> hexval acc ds <= SIG_MASK F ->
  parse_nan_tag F (map hex_char ds) acc = Some (hexval acc ds).
Proof.
  intros Hds. revert acc. induction Hds as [|d ds Hd Hds IH]; intros acc Ha Hm; [done|].
  cbn [map parse_nan_tag]. rewrite hexdigit_hex_char by done. cbn [mbind option_bind].
  pose proof fo_mw. pose proof (Z.pow_lt_mono_r 2 m w ltac:(lia) ltac:(lia) ltac:(lia)).
  unfold in_u in Hd. change (2 ^ 4) with 16 in Hd.
  change (hexval acc (d :: ds)) with (hexval (acc * 16 + d) ds) in *.
  pose proof (hexval_le (acc * 16 + d) ds Hds ltac:(lia)).
  pose proof fo_mask as Emask. rewrite Z.ones_equiv in Emask.
  rewrite wrap_id by (unfold in_u; lia). rewrite (proj2 (Z.ltb_ge _ _)) by lia. apply IH; lia.
Qed.

Lemma nan_text_parses neg sig : 0 < sig <= SIG_MASK F ->
  exists ds, (Nat.le (List.length ds) (NYBBLES F)) /\
    write_magnitude F (MAX_EXP F) sig =
      Some (if sig =? QUIET_NAN_TAG F then chars "nan" else chars "nan:0x" ++ map hex_char ds) /\
    parse_nan F (sign_text neg ++
                 if sig =? QUIET_NAN_TAG F then chars "nan" else chars "nan:0x" ++ map hex_char ds)
      = make_bits F neg (MAX_EXP F) sig ≫= out_bits.
Proof.
  intros Hsig. unfold write_magnitude, parse_nan. rewrite Z.eqb_refl, (proj2 (Z.eqb_neq sig 0)) by lia.
  destruct (Z.eqb_spec sig (QUIET_NAN_TAG F)) as [->|_].
  { exists []. split_and!; [cbn; lia|done|].
    cbn [String.list_ascii_of_string]. by rewrite parse_sign_text. }
  pose proof fo_mw. pose proof fo_w. pose proof (Z.pow_lt_mono_r 2 m w ltac:(lia) ltac:(lia) ltac:(lia)).
  pose proof fo_mask as Emask. rewrite Z.ones_equiv in Emask.
  destruct (skip_zero_nybbles_spec (NYBBLES F) sig) as (k & Hk & E & Hk'); [lia| |lia|].
  { rewrite <- fo_w. lia. }
  rewrite <- fo_w, Z.sub_diag, Z.mul_1_r in E.
  assert (0 < 2 ^ (w - 4 * Z.of_nat k)) by (apply Z.pow_pos_nonneg; lia).
  destruct (write_nybbles_spec k (sig * 2 ^ (w - 4 * Z.of_nat k))) as (ds & Ew & Hl & Hds & Hv); [|lia|].
  { split; [lia|]. replace (2 ^ w) with (2 ^ (4 * Z.of_nat k) * 2 ^ (w - 4 * Z.of_nat k));
      [nia|rewrite <- Z.pow_add_r by lia; f_equal; lia]. }
  rewrite Z.div_mul in Hv by lia.
  exists ds. rewrite E. cbn [mbind option_bind]. rewrite Ew. split_and!; [lia|done|].
  cbn [String.list_ascii_of_string app]. rewrite parse_sign_text by done.
  cbn [mbind option_bind string_starts_with drop]. rewrite !decide_True by done. cbn [lit_assert mbind option_bind]. cbn [drop].
  rewrite drop_0. replace (string_starts_with (map hex_char ds) []) with true by by destruct ds.
  rewrite parse_nan_tag_digits by (done || lia). rewrite Hv.
  by rewrite (proj2 (Z.eqb_neq sig 0)) by lia.
Qed.

(** ** The round trip *)

(** What the lexer makes of a written literal. *)
Definition lexed_type (text : list ascii) : WasmLiteralType :=
  match text with
  | "-"%char :: "i"%char :: _ | "i"%char :: _ => WASM_LITERAL_TYPE_INFINITY
  | "-"%char :: "n"%char :: _ | "n"%char :: _ => WASM_LITERAL_TYPE_NAN
  | _ => WASM_LITERAL_TYPE_HEXFLOAT
  end.

Definition reads_back (strto : list ascii -> Z * nat * bool) (neg : bool) (text : option (list ascii)) (bits : Z) : Prop :=
  exists t, text = Some t /\ Z.of_nat (List.length t) + 1 < BUFFER_SIZE F /\
    parse_literal F strto (lexed_type (sign_text neg ++ t)) (sign_text neg ++ t) = Some (WASM_OK, Some bits).

Lemma hex_text_reads_back strto neg dot ds E bits : hex_text_ok dot ds E ->
  finish_float F neg (2 ^ (4 * Z.of_nat (List.length ds)) + hexval 0 ds) E
    (4 * Z.of_nat (List.length ds) + 1) = Some bits ->
  reads_back strto neg (Some (hex_text dot ds E)) bits.
Proof.
  intros (Hds & Hl & Hdot & Hn & HE) Hf. exists (hex_text dot ds E). split; [done|]. split.
  - pose proof (fo_exp E 0 HE ltac:(unfold fraction_digits; pose proof fo_mw; dlia)) as Hexp.
    unfold exp_text_ok in Hexp. apply andb_true_iff in Hexp as [_ Hexp%Z.leb_le].
    pose proof fo_buffer. unfold hex_text. rewrite !length_app. cbn [List.length String.list_ascii_of_string].
    destruct dot; cbn [fraction_text List.length]; rewrite ?length_map; lia.
  - assert (lexed_type (sign_text neg ++ hex_text dot ds E) = WASM_LITERAL_TYPE_HEXFLOAT) as ->
      by by destruct neg.
    cbn [parse_literal]. unfold hex_text. rewrite parse_hex_text, Hf by done. done.
Qed.

Lemma write_magnitude_reads_back strto neg e sig : 0 <= e <= 2 * bias + 1 -> in_u m sig ->
  reads_back strto neg (write_magnitude F (e - bias) sig) (b2z neg * 2 ^ (w - 1) + e * 2 ^ m + sig).
Proof.
  intros He Hsig. pose proof fo_mw. pose proof fo_bias_pos. pose proof fo_digits.
  pose proof fo_mask as Emask. rewrite Z.ones_equiv in Emask. pose proof fo_buffer as [HB1 HB2].
  assert (0 <= 4 * fraction_digits F) by (unfold fraction_digits; dlia).
  destruct (decide (e = 2 * bias + 1)) as [->|]; [|destruct (decide (e = 0)) as [->|]].
  - replace (2 * bias + 1 - bias) with (MAX_EXP F) by (rewrite fo_max; lia).
    destruct (decide (sig = 0)) as [->|].
    + exists (chars "infinity"). unfold write_magnitude. rewrite !Z.eqb_refl. split; [done|].
      split; [cbn; lia|].
      assert (lexed_type (sign_text neg ++ chars "infinity") = WASM_LITERAL_TYPE_INFINITY) as -> by by destruct neg.
      cbn [parse_literal]. unfold parse_infinity. cbn [String.list_ascii_of_string].
      rewrite parse_sign_text by done. cbn [mbind option_bind string_starts_with].
      rewrite !decide_True by done. cbn [lit_assert mbind option_bind].
      rewrite fo_max. replace (bias + 1) with (2 * bias + 1 - bias) by lia.
      rewrite make_bits_fields by (done || lia). done.
    + unfold in_u in Hsig. destruct (nan_text_parses neg sig ltac:(lia)) as (ds & Hk & -> & Hp).
      eexists. split; [reflexivity|]. split.
      { destruct (sig =? _); rewrite ?length_app, ?length_map; cbn [String.list_ascii_of_string List.length]; lia. }
      assert (forall t, lexed_type (sign_text neg ++ chars "nan" ++ t) = WASM_LITERAL_TYPE_NAN) as Ht by by destruct neg.
      assert (lexed_type (sign_text neg ++ (if sig =? QUIET_NAN_TAG F then chars "nan"
                else chars "nan:0x" ++ map hex_char ds)) = WASM_LITERAL_TYPE_NAN) as ->
        by (destruct (sig =? _); [apply (Ht [])|apply (Ht (chars ":0x" ++ _))]).
      cbn [parse_literal]. rewrite Hp, fo_max. replace (bias + 1) with (2 * bias + 1 - bias) by lia.
      rewrite make_bits_fields by (done || unfold in_u; lia). done.
  - change (0 - bias) with (- bias). destruct (decide (sig = 0)) as [->|].
    + exists (chars "0x0p+0"). split; [|split; [cbn; lia|]].
      { unfold write_magnitude. rewrite fo_max, fo_min, !Z.eqb_refl.
        rewrite (proj2 (Z.eqb_neq _ (bias + 1))) by lia. rewrite Z.shiftl_0_l. by rewrite wrap_id by by apply in_u_0; lia. }
      assert (lexed_type (sign_text neg ++ chars "0x0p+0") = WASM_LITERAL_TYPE_HEXFLOAT) as -> by by destruct neg.
      cbn [parse_literal]. unfold parse_hex. cbn [String.list_ascii_of_string].
      rewrite parse_sign_text by done. cbn. rewrite fo_min. change (- bias) with (0 - bias).
      by rewrite make_bits_fields by (done || lia).
    + unfold in_u in Hsig. destruct (write_subnormal sig ltac:(lia)) as (lz & ds & -> & Hok & Hlz & Hlt & Hv).
      apply hex_text_reads_back; [done|]. destruct Hok as (Hds & _ & _ & Hn & _).
      pose proof (hexval_bound ds Hds) as Hb. rewrite pow16 in Hb.
      rewrite finish_subnormal with (sig := sig); [f_equal; lia|lia| |lia|lia|lia|exact Hv].
      rewrite Z.pow_add_r by lia. lia.
  - destruct (write_normal e sig ltac:(lia) Hsig) as (dot & ds & -> & Hok & Hv).
    apply hex_text_reads_back; [done|]. destruct Hok as (Hds & _ & _ & Hn & _).
    pose proof (hexval_bound ds Hds) as Hb. rewrite pow16 in Hb.
    apply finish_normal; [lia| |lia|done|exact Hv]. rewrite Z.pow_add_r by lia. lia.
Qed.

Lemma write_hex_reads_back strto size bits : in_u w bits -> BUFFER_SIZE F <= size ->
  exists text, write_hex F size bits = Some (text ++ ["000"%char]) /\
    Z.of_nat (List.length text) < BUFFER_SIZE F /\
    parse_literal F strto (lexed_type text) text = Some (WASM_OK, Some bits).
Proof.
  intros Hb Hsize. destruct (bits_split bits Hb) as (s & e & sig & He & Hsig & E & Es & Ee & Esig).
  destruct (write_magnitude_reads_back strto s e sig He Hsig) as (t & Et & Hl & Hp).
  exists (sign_text s ++ t). unfold write_hex. rewrite Es, Ee, Esig, Et. cbn [mbind option_bind].
  fold (sign_text s). assert (Z.of_nat (List.length (sign_text s ++ t)) < BUFFER_SIZE F) as Hlt.
  { rewrite length_app. destruct s; cbn; lia. }
  rewrite (proj2 (Z.ltb_lt _ (BUFFER_SIZE F))) by done. cbn [lit_assert].
  rewrite (proj2 (Z.ltb_lt 0 size)) by lia. cbn [lit_assert mbind option_bind].
  rewrite (proj2 (Z.leb_gt size _)) by lia. rewrite Nat2Z.id, firstn_all.
  split; [done|]. split; [done|]. by rewrite Hp, <- E.
Qed.
End format.

(** ** Integer numerals *)

Definition dec_value (c : ascii) : option Z :=
  let d := code c - code "0" in if (0 <=? d) && (d <=? 9) then Some d else None.

Definition hex_value (c : ascii) : option Z :=
  let d := code c - code "0" in
  let l := code c - code "a" in
  let u := code c - code "A" in
  if (0 <=? d) && (d <=? 9) then Some d
  else if (0 <=? l) && (l <=? 5) then Some (10 + l)
  else if (0 <=? u) && (u <=? 5) then Some (10 + u)
  else None.

(** The value of a non-empty sequence of digits. *)
Fixpoint digits_value (digit : ascii -> option Z) (base : Z) (s : list ascii) (acc : Z) : option Z :=
  match s with
  | [] => Some acc
  | c :: s => d ← digit c; digits_value digit base s (acc * base + d)
  end.

(** The numerals of the text format: decimal, or hexadecimal after "0x". *)
Definition numeral (s : list ascii) : option Z :=
  match s with
  | [] | ["0"%char; "x"%char] => None
  | "0"%char :: "x"%char :: s => digits_value hex_value 16 s 0
  | _ => digits_value dec_value 10 s 0
  end.

(** The loop of [wasm_parse_uint64] over digits of a base. *)
Fixpoint checked_loop (digit : ascii -> option Z) (base : Z) (s : list ascii) (value : Z) : option Z :=
  match s with
  | [] => Some value
  | c :: s =>
      d ← digit c;
      let next := u64 (value * base + d) in
      if next <? value then None else checked_loop digit base s next
  end.

Lemma parse_hex_loop_checked s v : parse_hex_loop s v = checked_loop wasm_parse_hexdigit 16 s v.
Proof.
  revert v. induction s as [|c s IH]; intros v; [done|]. cbn [parse_hex_loop checked_loop].
  destruct (wasm_parse_hexdigit c); [|done]. cbn [mbind option_bind]. by destruct (_ <? v).
Qed.

Lemma dec_value_test c : (9 <? u32 (code c - code "0")) = bool_decide (dec_value c = None).
Proof. by destruct c as [[] [] [] [] [] [] [] []]. Qed.

Lemma dec_value_digit c d : dec_value c = Some d -> u32 (code c - code "0") = d /\ 0 <= d.
Proof. destruct c as [[] [] [] [] [] [] [] []]; intros [= <-]; done. Qed.

Lemma parse_dec_loop_checked s v : parse_dec_loop s v = checked_loop dec_value 10 s v.
Proof.
  revert v. induction s as [|c s IH]; intros v; [done|]. cbn [parse_dec_loop checked_loop].
  rewrite dec_value_test. destruct (dec_value c) as [d|] eqn:E; cbn [mbind option_bind].
  - destruct (dec_value_digit c d E) as [-> _].
    rewrite bool_decide_eq_false_2 by done. cbn zeta. by destruct (_ <? v).
  - by rewrite bool_decide_eq_true_2.
Qed.

Lemma hex_value_digit c d : hex_value c = Some d -> wasm_parse_hexdigit c = Some d /\ 0 <= d.
Proof. destruct c as [[] [] [] [] [] [] [] []]; intros [= <-]; done. Qed.

Lemma dec_value_bound c d : dec_value c = Some d -> 0 <= d < 10.
Proof. destruct c as [[] [] [] [] [] [] [] []]; intros [= <-]; done. Qed.

Lemma hex_value_bound c d : hex_value c = Some d -> 0 <= d < 16.
Proof. destruct c as [[] [] [] [] [] [] [] []]; intros [= <-]; done. Qed.

Lemma hexdigit_value c d : c <> "g"%char -> c <> "G"%char ->
  wasm_parse_hexdigit c = Some d -> hex_value c = Some d.
Proof.
  intros H1 H2. destruct c as [[] [] [] [] [] [] [] []];
    first [intros [= <-]; done | by destruct H1 | by destruct H2].
Qed.

(** A numeral below [2 ^ 64] passes the overflow test. *)
Lemma checked_loop_complete digit digit' base s acc v : 1 <= base ->
  (forall c d, digit c = Some d -> digit' c = Some d /\ 0 <= d) ->
  0 <= acc -> digits_value digit base s acc = Some v -> v < 2 ^ 64 ->
  acc <= v /\ checked_loop digit' base s acc = Some v.
Proof.
  intros Hb Hd. revert acc. induction s as [|c s IH]; intros acc Ha; cbn [digits_value checked_loop].
  - intros [= ->]. done.
  - destruct (digit c) as [d|] eqn:E; cbn [mbind option_bind]; [|done]. intros Hv Hlt.
    destruct (Hd c d E) as [-> Hd0]. cbn [mbind option_bind].
    destruct (IH (acc * base + d) ltac:(nia) Hv Hlt) as [Hle Hc].
    rewrite wrap_id by (unfold in_u; nia). rewrite (proj2 (Z.ltb_ge _ _)) by nia.
    split; [nia|done].
Qed.

Lemma checked_loop_sound digit digit' base s acc acc' v :
  Forall (fun c => forall d, digit' c = Some d -> digit c = Some d) s ->
  acc' = u64 acc -> checked_loop digit' base s acc' = Some v ->
  exists n, digits_value digit base s acc = Some n /\ v = u64 n.
Proof.
  intros Hs. revert acc acc'. induction Hs as [|c s Hc Hs IH]; intros acc acc' ->; cbn [digits_value checked_loop].
  - intros [= <-]. by eexists.
  - destruct (digit' c) as [d|]; cbn [mbind option_bind]; [|done]. rewrite (Hc d eq_refl). cbn [mbind option_bind].
    destruct (_ <? _); [done|]. apply IH. rewrite <- wrap_add_l, wrap_mul_l, wrap_add_l. done.
Qed.

Lemma digits_value_ge digit base s acc v : 1 <= base -> (forall c d, digit c = Some d -> 0 <= d) ->
  0 <= acc -> digits_value digit base s acc = Some v -> acc <= v.
Proof.
  intros Hb Hd. revert acc. induction s as [|c s IH]; intros acc Ha; cbn [digits_value]; [by intros [= ->]|].
  destruct (digit c) as [d|] eqn:E; cbn [mbind option_bind]; [|done]. intros Hv. specialize (Hd c d E).
  specialize (IH (acc * base + d) ltac:(nia) Hv). nia.
Qed.

(** A numeral that passes [2 ^ 64] with its last digit, and is then smaller
    than it was before, does not. *)
Lemma checked_loop_overflow digit digit' base s acc v : 2 <= base ->
  (forall c d, digit c = Some d -> digit' c = Some d /\ 0 <= d < base) ->
  0 <= acc < 2 ^ 64 -> digits_value digit base s acc = Some v -> 2 ^ 64 <= v < 2 ^ 64 + v / base ->
  checked_loop digit' base s acc = None.
Proof.
  intros Hb Hd. revert acc. induction s as [|c s IH]; intros acc Ha; cbn [digits_value checked_loop].
  - intros [= ->]. lia.
  - destruct (digit c) as [d|] eqn:E; cbn [mbind option_bind]; [|done]. intros Hv Hr.
    destruct (Hd c d E) as [-> Hd0]. cbn [mbind option_bind].
    destruct (Z.lt_ge_cases (acc * base + d) (2 ^ 64)) as [Hlt|Hge].
    + rewrite wrap_id by (unfold in_u; nia). destruct (_ <? acc); [done|]. apply IH; [nia|done|done].
    + destruct s as [|c' s].
      * injection Hv as <-. assert ((acc * base + d) / base = acc) as Eq
          by (rewrite Z.div_add_l by lia; rewrite Z.div_small by lia; lia).
        rewrite Eq in Hr. unfold u64, wrap. rewrite (Z.mod_eq (acc * base + d)) by done.
        assert ((acc * base + d) / 2 ^ 64 = 1) as -> by (symmetry; apply (Z.div_unique_pos _ _ _ (acc * base + d - 2 ^ 64)); lia).
        rewrite (proj2 (Z.ltb_lt _ _)) by lia. done.
      * exfalso. cbn [digits_value] in Hv. destruct (digit c') as [d'|] eqn:E'; cbn [mbind option_bind] in Hv; [|done].
        destruct (Hd c' d' E') as [_ Hd0'].
        assert ((acc * base + d) * base + d' <= v) as Hle.
        { eapply digits_value_ge; [| | |exact Hv]; [lia| |nia]. intros c0 d0 H0. destruct (Hd c0 d0 H0). lia. }
        pose proof (Z.mul_div_le v base ltac:(lia)). nia.
Qed.

Lemma wasm_parse_uint64_complete s v : numeral s = Some v -> v < 2 ^ 64 ->
  wasm_parse_uint64 s = Some v /\ 0 <= v.
Proof.
  intros Hn Hv.
  assert (forall t, t <> [] -> digits_value hex_value 16 t 0 = Some v ->
            match t with [] => None | _ => parse_hex_loop t 0 end = Some v /\ 0 <= v) as Hhex.
  { intros t Ht Ht'. destruct (checked_loop_complete hex_value wasm_parse_hexdigit 16 t 0 v) as [? <-];
      auto using hex_value_digit; [lia|lia|]. rewrite parse_hex_loop_checked. by destruct t. }
  assert (forall t, digits_value dec_value 10 t 0 = Some v -> parse_dec_loop t 0 = Some v /\ 0 <= v) as Hdec.
  { intros t Ht. destruct (checked_loop_complete dec_value dec_value 10 t 0 v) as [? <-];
      eauto using dec_value_digit; [lia| |lia|].
    { intros c d E. by destruct (dec_value_digit c d E). }
    by rewrite parse_dec_loop_checked. }
  destruct s as [|c s]; [done|]. cbn [wasm_parse_uint64 numeral] in *.
  destruct c as [[] [] [] [] [] [] [] []]; try (by apply Hdec).
  destruct s as [|c s]; [by apply Hdec|].
  destruct c as [[] [] [] [] [] [] [] []]; try (by apply Hdec).
  destruct s; [done|]. exact (Hhex (a :: s) ltac:(done) Hn).
Qed.

Lemma wasm_parse_uint64_sound s v :
  Forall (fun c => c <> "g"%char /\ c <> "G"%char) s -> wasm_parse_uint64 s = Some v ->
  exists n, numeral s = Some n /\ v = u64 n.
Proof.
  intros Hg H.
  assert (forall t, Forall (fun c => c <> "g"%char /\ c <> "G"%char) t -> parse_hex_loop t 0 = Some v ->
            exists n, digits_value hex_value 16 t 0 = Some n /\ v = u64 n) as Hhex.
  { intros t Ht Hp. rewrite parse_hex_loop_checked in Hp.
    apply (checked_loop_sound hex_value wasm_parse_hexdigit 16 t 0 0 v); [|done|done].
    eapply Forall_impl; [exact Ht|]. intros c [H1 H2] d. by apply hexdigit_value. }
  assert (forall t, parse_dec_loop t 0 = Some v ->
            exists n, digits_value dec_value 10 t 0 = Some n /\ v = u64 n) as Hdec.
  { intros t Hp. rewrite parse_dec_loop_checked in Hp.
    apply (checked_loop_sound dec_value dec_value 10 t 0 0 v); [|done|done]. by apply Forall_true. }
  destruct s as [|c s]; [done|]. cbn [wasm_parse_uint64 numeral] in *.
  destruct c as [[] [] [] [] [] [] [] []]; try (by apply Hdec).
  destruct s as [|c s]; [by apply Hdec|].
  destruct c as [[] [] [] [] [] [] [] []]; try (by apply Hdec).
  destruct s; [done|]. apply Hhex; [|done]. by apply Forall_cons in Hg as [_ [_ Hg]%Forall_cons].
Qed.

Definition numeral_base (s : list ascii) : Z :=
  match s with "0"%char :: "x"%char :: _ => 16 | _ => 10 end.

Lemma wasm_parse_uint64_overflow s v : numeral s = Some v -> 2 ^ 64 <= v < 2 ^ 64 + v / numeral_base s ->
  wasm_parse_uint64 s = None.
Proof.
  intros Hn Hv.
  assert (forall t, digits_value dec_value 10 t 0 = Some v -> 2 ^ 64 <= v < 2 ^ 64 + v / 10 -> parse_dec_loop t 0 = None) as Hdec.
  { intros t Ht Hr. rewrite parse_dec_loop_checked. apply (checked_loop_overflow dec_value dec_value 10 t 0 v); [lia| |lia|done..].
    intros c d E. split; [done|]. by apply dec_value_bound in E. }
  assert (forall t, digits_value hex_value 16 t 0 = Some v -> 2 ^ 64 <= v < 2 ^ 64 + v / 16 -> parse_hex_loop t 0 = None) as Hhex.
  { intros t Ht Hr. rewrite parse_hex_loop_checked.
    apply (checked_loop_overflow hex_value wasm_parse_hexdigit 16 t 0 v); [lia| |lia|done..].
    intros c d E. split; [by apply hex_value_digit|by apply hex_value_bound in E]. }
  destruct s as [|c s]; [done|]. cbn [wasm_parse_uint64 numeral numeral_base] in *.
  destruct c as [[] [] [] [] [] [] [] []]; try (by apply Hdec).
  destruct s as [|c s]; [by apply Hdec|].
  destruct c as [[] [] [] [] [] [] [] []]; try (by apply Hdec).
  destruct s; [done|]. by apply Hhex.
Qed.

Inductive Sign : Set := NoSign | Plus | Minus.

Definition sign_chars (sg : Sign) : list ascii :=
  match sg with NoSign => [] | Plus => ["+"%char] | Minus => ["-"%char] end.

Definition signed_value (sg : Sign) (v : Z) : Z := match sg with Minus => - v | _ => v end.

(** The range of the 32- or 64-bit literals: unsigned without a minus sign,
    down to the least signed integer with one. *)
Definition in_literal_range (bits : Z) (sg : Sign) (v : Z) : Prop :=
  match sg with Minus => - 2 ^ (bits - 1) <= - v | _ => v < 2 ^ bits end.

#[export] Instance in_literal_range_dec bits sg v : Decision (in_literal_range bits sg v).
Proof. destruct sg; cbn; apply _. Defined.

Definition expected_int (bits : Z) (pt : WasmParseIntType) (sg : Sign) (v : Z) : Parsed :=
  match pt, sg with
  | WASM_PARSE_UNSIGNED_ONLY, (Plus | Minus) => Some (WASM_ERROR, None)
  | _, _ => if decide (in_literal_range bits sg v)
            then Some (WASM_OK, Some (wrap bits (signed_value sg v)))
            else Some (WASM_ERROR, None)
  end.

Lemma numeral_head c s v : numeral (c :: s) = Some v -> c <> "-"%char /\ c <> "+"%char.
Proof. by destruct c as [[] [] [] [] [] [] [] []]. Qed.

Lemma unsigned_head pt s v : numeral s = Some v ->
  exists c s', s = c :: s' /\ parse_int_sign pt c s' = Some (false, s).
Proof.
  destruct s as [|c s]; [done|]. intros H. apply numeral_head in H as [H1 H2].
  exists c, s. split; [done|]. unfold parse_int_sign. by rewrite decide_False by tauto.
Qed.

Lemma parse_int32_signed (sg : bool) s :
  wasm_parse_int32 ((if sg then "-"%char else "+"%char) :: s) WASM_PARSE_SIGNED_AND_UNSIGNED =
  match wasm_parse_uint64 s with
  | None => Some (WASM_ERROR, None)
  | Some value =>
      if sg then
        if INT32_MAX + 1 <? value then Some (WASM_ERROR, None)
        else Some (WASM_OK, Some (u32 (u64 (UINT32_MAX - value + 1))))
      else if UINT32_MAX <? value then Some (WASM_ERROR, None)
      else Some (WASM_OK, Some (u32 value))
  end.
Proof. by destruct sg. Qed.

Lemma parse_int64_signed (sg : bool) s :
  wasm_parse_int64 ((if sg then "-"%char else "+"%char) :: s) WASM_PARSE_SIGNED_AND_UNSIGNED =
  let '(result, value) :=
    match wasm_parse_uint64 s with Some v => (WASM_OK, v) | None => (WASM_ERROR, 0) end in
  if sg then
    if INT64_MAX + 1 <? value then Some (WASM_ERROR, None)
    else Some (result, Some (u64 (UINT64_MAX - value + 1)))
  else Some (result, Some value).
Proof. by destruct sg. Qed.

Lemma parse_int32_correct pt sg s v : numeral s = Some v -> v < 2 ^ 64 ->
  wasm_parse_int32 (sign_chars sg ++ s) pt = expected_int 32 pt sg v.
Proof.
  intros Hn Hv. destruct (wasm_parse_uint64_complete s v Hn Hv) as [Hp H0].
  destruct sg; cbn [sign_chars app].
  - destruct (unsigned_head pt s v Hn) as (c & s' & -> & E). cbn [wasm_parse_int32]. rewrite E, Hp.
    unfold expected_int, UINT32_MAX. destruct pt; case_decide as H; cbn in H; zbool; ulia || done.
  - destruct pt; [done|]. rewrite (parse_int32_signed false), Hp. unfold expected_int, UINT32_MAX.
    case_decide as H; cbn in H; zbool; ulia || done.
  - destruct pt; [done|]. rewrite (parse_int32_signed true), Hp. unfold expected_int, UINT32_MAX, INT32_MAX.
    case_decide as H; cbn in H; zbool; try (exfalso; lia); [|done].
    do 3 f_equal. cbn. unfold wrap. zpow. dlia.
Qed.

Lemma parse_int64_correct pt sg s v : numeral s = Some v -> v < 2 ^ 64 ->
  wasm_parse_int64 (sign_chars sg ++ s) pt = expected_int 64 pt sg v.
Proof.
  intros Hn Hv. destruct (wasm_parse_uint64_complete s v Hn Hv) as [Hp H0].
  assert (u64 v = v) as Ew by (apply wrap_id; unfold in_u; lia).
  destruct sg; cbn [sign_chars app].
  - destruct (unsigned_head pt s v Hn) as (c & s' & -> & E). cbn [wasm_parse_int64]. rewrite E, Hp.
    unfold expected_int. destruct pt; case_decide as H; cbn in H; cbn [signed_value]; first [by rewrite Ew|lia].
  - destruct pt; [done|]. rewrite (parse_int64_signed false), Hp. unfold expected_int.
    case_decide as H; cbn in H; cbn [signed_value]; first [by rewrite Ew|lia].
  - destruct pt; [done|]. rewrite (parse_int64_signed true), Hp. unfold expected_int, UINT64_MAX, INT64_MAX.
    case_decide as H; cbn in H; zbool; try (exfalso; lia); [|done].
    do 3 f_equal. cbn. unfold wrap. zpow. dlia.
Qed.

Lemma parse_int_refused pt sg s v : numeral s = Some v -> wasm_parse_uint64 s = None ->
  fst <$> wasm_parse_int32 (sign_chars sg ++ s) pt = Some WASM_ERROR /\
  fst <$> wasm_parse_int64 (sign_chars sg ++ s) pt = Some WASM_ERROR.
Proof.
  intros Hn Hp. destruct sg; cbn [sign_chars app].
  - destruct (unsigned_head pt s v Hn) as (c & s' & -> & E). cbn [wasm_parse_int32 wasm_parse_int64].
    by rewrite E, Hp.
  - destruct pt; [done|]. by rewrite (parse_int32_signed false), (parse_int64_signed false), Hp.
  - destruct pt; [done|]. by rewrite (parse_int32_signed true), (parse_int64_signed true), Hp.
Qed.

(** ** Properties *)

(** C16 - Printing and reading a float is exact.  For each of the 2^32 bit
    patterns of a float and the 2^64 of a double - normal, subnormal, zero of
    either sign, infinity, NaN with any tag - the text
    [wasm_write_float_hex] ([wasm_write_double_hex]) stores is NUL-terminated,
    its local buffer does not overflow, and [wasm_parse_float]
    ([wasm_parse_double]), with the literal type the lexer gives the text, reads
    back exactly the same bits. *)
Theorem hex_float_roundtrip strtof strtod size bits :
  (in_u 32 bits -> WASM_MAX_FLOAT_HEX <= size ->
   exists text, wasm_write_float_hex size bits = Some (text ++ ["000"%char]) /\
     Z.of_nat (List.length text) < WASM_MAX_FLOAT_HEX /\
     wasm_parse_float strtof (lexed_type text) text = Some (WASM_OK, Some bits)) /\
  (in_u 64 bits -> WASM_MAX_DOUBLE_HEX <= size ->
   exists text, wasm_write_double_hex size bits = Some (text ++ ["000"%char]) /\
     Z.of_nat (List.length text) < WASM_MAX_DOUBLE_HEX /\
     wasm_parse_double strtod (lexed_type text) text = Some (WASM_OK, Some bits)).
Proof.
  split; intros.
  - by apply (write_hex_reads_back F32_FORMAT).
  - by apply (write_hex_reads_back F64_FORMAT).
Qed.

Definition no_strto (s : list ascii) : Z * nat * bool := (0, O, false).

(** The smallest subnormal float and a signalling NaN. *)
Lemma hex_float_roundtrip_witness :
  in_u 32 1 /\ wasm_write_float_hex 128 1 = Some (chars "0x1.p-149" ++ ["000"%char]) /\
  exists text, wasm_write_float_hex 128 0xff800001 = Some (text ++ ["000"%char]) /\
    wasm_parse_float no_strto (lexed_type text) text = Some (WASM_OK, Some 0xff800001).
Proof.
  split; [unfold in_u; lia|]. split; [vm_compute; reflexivity|].
  destruct (proj1 (hex_float_roundtrip no_strto no_strto 128 0xff800001)) as (t & E & _ & Hp);
    [unfold in_u; lia|unfold WASM_MAX_FLOAT_HEX; lia|]. by exists t.
Defined.

(** C24 - The integer parsers compute the number that is written.  A numeral of
    the text format below 2^64, with an optional sign, is read by
    [wasm_parse_uint64], [wasm_parse_int32] and [wasm_parse_int64] as its value
    in two's complement, or refused when it does not fit the width or when a
    sign is not allowed.  A numeral [v] from 2^64 on is refused by all three as
    long as it is less than 2^64 and its prefix [v / base] together - up to
    16/15 (decimal: 10/9) of 2^64; above that the overflow test, which compares
    the new value with the old one, can miss the overflow.  Whatever
    [wasm_parse_uint64] accepts is a numeral (unless it has a letter g, which
    the digit test lets through), and the result is its value modulo 2^64. *)
Theorem integer_literals_correct :
  (forall s sg v pt, numeral s = Some v -> v < 2 ^ 64 ->
     wasm_parse_uint64 s = Some v /\
     wasm_parse_int32 (sign_chars sg ++ s) pt = expected_int 32 pt sg v /\
     wasm_parse_int64 (sign_chars sg ++ s) pt = expected_int 64 pt sg v) /\
  (forall s sg v pt, numeral s = Some v -> 2 ^ 64 <= v < 2 ^ 64 + v / numeral_base s ->
     wasm_parse_uint64 s = None /\
     fst <$> wasm_parse_int32 (sign_chars sg ++ s) pt = Some WASM_ERROR /\
     fst <$> wasm_parse_int64 (sign_chars sg ++ s) pt = Some WASM_ERROR) /\
  (forall s x, Forall (fun c => c <> "g"%char /\ c <> "G"%char) s ->
     wasm_parse_uint64 s = Some x -> exists v, numeral s = Some v /\ x = u64 v).
Proof.
  split; [|split].
  - intros s sg v pt Hn Hv. split_and!;
      auto using parse_int32_correct, parse_int64_correct. by apply wasm_parse_uint64_complete.
  - intros s sg v pt Hn Hv. pose proof (wasm_parse_uint64_overflow s v Hn Hv) as E.
    split; [exact E|]. by apply (parse_int_refused pt sg s v).
  - apply wasm_parse_uint64_sound.
Qed.

Lemma integer_literals_correct_witness :
  numeral (chars "2147483648") = Some 2147483648 /\
  wasm_parse_int32 (chars "-2147483648") WASM_PARSE_SIGNED_AND_UNSIGNED =
    Some (WASM_OK, Some 0x80000000) /\
  wasm_parse_int32 (chars "+2147483648") WASM_PARSE_UNSIGNED_ONLY = Some (WASM_ERROR, None) /\
  wasm_parse_uint64 (chars "18446744073709551616") = None.
Proof.
  split; [vm_compute; reflexivity|]. split; [|split].
  - exact (proj1 (proj2 (proj1 integer_literals_correct (chars "2147483648") Minus 2147483648
      WASM_PARSE_SIGNED_AND_UNSIGNED eq_refl eq_refl))).
  - exact (proj1 (proj2 (proj1 integer_literals_correct (chars "2147483648") Plus 2147483648
      WASM_PARSE_UNSIGNED_ONLY eq_refl eq_refl))).
  - apply (proj1 (proj2 integer_literals_correct) (chars "18446744073709551616") NoSign (2 ^ 64) WASM_PARSE_UNSIGNED_ONLY);
      [vm_compute; reflexivity|split; [lia|vm_compute; reflexivity]].
Defined.

(** Inputs the integer parsers get wrong: g is taken for a hexadecimal
    digit of value 16, and the overflow test, which compares the new value with
    the old one, misses overflows, so that 2^65 - 16 is read as 2^64 - 16. *)
Theorem integer_literal_faults :
  (wasm_parse_hexdigit "g" = Some 16 /\ wasm_parse_hexdigit "G" = Some 16) /\
  (numeral (chars "0x1fffffffffffffff0") = Some (2 ^ 65 - 16) /\
   wasm_parse_uint64 (chars "0x1fffffffffffffff0") = Some (2 ^ 64 - 16)) /\
  (numeral (chars "30000000000000000000") = Some (30 * 10 ^ 18) /\
   wasm_parse_uint64 (chars "30000000000000000000") = Some (30 * 10 ^ 18 - 2 ^ 64)).
Proof. split_and!; vm_compute; reflexivity. Qed.

(** Inputs the hexadecimal float parser gets wrong.  The count of
    significand bits leaves out the zeros between digits, so the significand
    overflows and 0x100010001 is read as 0x10001; the scan of a negative
    exponent stops too early, so 2^-1490 is read as the least subnormal 2^-149
    and not as 0; rounding looks at the last bit that is kept in place of the
    first that is dropped, so 0x8.00000f is rounded down to 8; and the lexer's
    infinity token "inf" fails an assertion. *)
Theorem hex_float_parser_faults :
  (parse_float_hex (chars "0x100010001p0") = Some 0x47800080 /\
   parse_float_hex (chars "0x10001p0") = Some 0x47800080) /\
  (parse_float_hex (chars "0x1p-1490") = Some 1 /\ parse_float_hex (chars "0x1p-149") = Some 1) /\
  (parse_float_hex (chars "0x8.00000fp0") = Some 0x41000000 /\
   parse_float_hex (chars "0x8p0") = Some 0x41000000 /\
   parse_float_hex (chars "0x8.00001p0") = Some 0x41000001) /\
  parse_float_infinity (chars "inf") = None.
Proof. split_and!; vm_compute; reflexivity. Qed.
