(* ===== verification/Vector.v ===== *)
(** * Growable vectors (src/src/vector.h, vector.c)

    The struct every [WASM_DEFINE_VECTOR] declares is a block of [capacity]
    cells of which the first [size] are in use; the other cells hold whatever
    the allocator returned or a previous element left.  The operations of
    vector.c are modelled on the whole block, with the [size_t] arithmetic
    wrapped, and [vec_list] is the list a client sees.  The theorems are the
    refinement the rest of the development relies on when it models a vector
    by a list. *)

From S2P Require Import Prelude.

Section vector.
Context {A : Type}.
(** The cells [wasm_realloc] adds (its memory is not cleared), the all-zero
    element [memset] writes, and [sizeof(type)]. *)
Variable uninit : nat -> A.
Variable zero : A.
Variable elt_byte_size : Z.

Record WasmVector := mkVector {
  vec_data : list A;
  vec_size : Z
}.

Definition vec_capacity (v : WasmVector) : Z := Z.of_nat (length (vec_data v)).

(** [WASM_ZERO_MEMORY] of a vector. *)
Definition vec_empty : WasmVector := mkVector [] 0.

Definition INITIAL_VECTOR_CAPACITY : Z := 8.

(** [while (new_capacity < desired_size) new_capacity *= 2;] *)
Fixpoint grow_capacity (fuel : nat) (new_capacity desired_size : Z) : option Z :=
  if new_capacity <? desired_size then
    match fuel with
    | O => None
    | S fuel' => grow_capacity fuel' (u64 (new_capacity * 2)) desired_size
    end
  else Some new_capacity.

(** A [size_t] doubles at most 64 times before it wraps to zero. *)
Definition GROW_FUEL : nat := 64.

(** [wasm_realloc] of the block to [capacity] cells. *)
Definition realloc_cells (l : list A) (capacity : Z) : list A :=
  l ++ map uninit (seq (length l) (Z.to_nat capacity - length l)).

(** [None]: the loop does not end, or the byte size of the block overflows
    [size_t]. *)
Definition wasm_ensure_capacity (v : WasmVector) (desired_size : Z) : option WasmVector :=
  if vec_capacity v <? desired_size then
    let new_capacity :=
      if vec_capacity v =? 0 then INITIAL_VECTOR_CAPACITY else u64 (vec_capacity v * 2) in
    new_capacity ← grow_capacity GROW_FUEL new_capacity desired_size;
    if new_capacity * elt_byte_size <? 2 ^ 64
    then Some (mkVector (realloc_cells (vec_data v) new_capacity) (vec_size v))
    else None
  else Some v.

(** [memset] of the cells [old_size .. desired_size - 1]. *)
Definition zero_cells (l : list A) (from n : Z) : option (list A) :=
  zblit l from (replicate (Z.to_nat n) zero).

Definition wasm_resize_vector (v : WasmVector) (desired_size : Z) : option WasmVector :=
  let old_size := vec_size v in
  v ← wasm_ensure_capacity v desired_size;
  d ← (if old_size <? desired_size
       then zero_cells (vec_data v) old_size (desired_size - old_size)
       else Some (vec_data v));
  Some (mkVector d desired_size).

(** Returns the index of the new cell with the vector. *)
Definition wasm_append_element (v : WasmVector) : option (WasmVector * Z) :=
  v ← wasm_ensure_capacity v (u64 (vec_size v + 1));
  let p := vec_size v in
  d ← zero_cells (vec_data v) p 1;
  Some (mkVector d (vec_size v + 1), p).

(** [wasm_append_##name##_value]: [*slot = *value]. *)
Definition wasm_append_value (v : WasmVector) (value : A) : option WasmVector :=
  '(v, slot) ← wasm_append_element v;
  d ← zset (vec_data v) slot value;
  Some (mkVector d (vec_size v)).

Definition wasm_extend_elements (dst : WasmVector) (src : list A) : option WasmVector :=
  let src_size := Z.of_nat (length src) in
  dst ← wasm_ensure_capacity dst (u64 (vec_size dst + src_size));
  d ← zblit (vec_data dst) (vec_size dst) src;
  Some (mkVector d (vec_size dst + src_size)).

(** ** The list a vector stands for *)

Definition vec_list (v : WasmVector) : list A := take (Z.to_nat (vec_size v)) (vec_data v).

Definition vec_ok (v : WasmVector) : Prop :=
  0 <= vec_size v <= vec_capacity v /\ vec_capacity v * elt_byte_size < 2 ^ 64.

(** The vector can grow to [n] elements: the block of the next capacity is
    addressable. *)
Definition vec_room (n : Z) : Prop :=
  (2 * n + INITIAL_VECTOR_CAPACITY) * elt_byte_size < 2 ^ 64.

Hypothesis elt_pos : 1 <= elt_byte_size.

(** The loop ends with the least power-of-two multiple that is large enough,
    so never with more than twice what was asked for. *)
Lemma grow_capacity_spec fuel c d :
  1 <= c -> c < 2 * d -> 2 * d < 2 ^ 64 -> d <= c * 2 ^ Z.of_nat fuel ->
  exists c', grow_capacity fuel c d = Some c' /\ d <= c' < 2 * d.
Proof.
  revert c. induction fuel as [|fuel IH]; intros c Hc Hcd Hd Hf.
  - cbn [grow_capacity]. rewrite (proj2 (Z.ltb_ge _ _)) by (change (2 ^ Z.of_nat 0) with 1 in Hf; lia).
    exists c. split; [done|]. change (2 ^ Z.of_nat 0) with 1 in Hf. lia.
  - cbn [grow_capacity]. destruct (Z.ltb_spec c d).
    + assert (u64 (c * 2) = c * 2) as -> by (apply wrap_id; unfold in_u; lia).
      apply IH; [lia..|]. rewrite Nat2Z.inj_succ, Z.pow_succ_r in Hf by lia. nia.
    + exists c. split; [done|lia].
Qed.

Lemma vec_room_lt n : 0 <= n -> vec_room n -> in_u 64 n.
Proof. unfold vec_room, INITIAL_VECTOR_CAPACITY, in_u. intros. split; [done|]. nia. Qed.

Lemma realloc_cells_length l c :
  Z.of_nat (length l) <= c -> Z.of_nat (length (realloc_cells l c)) = c.
Proof. intros. unfold realloc_cells. rewrite length_app, length_map, length_seq. lia. Qed.

(** The elements in use survive, and the capacity stays within twice the
    request. *)
Lemma ensure_capacity_spec v n :
  vec_ok v -> 0 <= n -> vec_room n ->
  exists v', wasm_ensure_capacity v n = Some v' /\ vec_ok v' /\
    n <= vec_capacity v' /\ vec_size v' = vec_size v /\ vec_list v' = vec_list v /\
    vec_capacity v <= vec_capacity v' /\
    (vec_capacity v' = vec_capacity v \/ vec_capacity v' < 2 * n + INITIAL_VECTOR_CAPACITY).
Proof.
  unfold vec_ok, vec_room, wasm_ensure_capacity, INITIAL_VECTOR_CAPACITY.
  intros [Hs Hb] Hn Hr.
  destruct (Z.ltb_spec (vec_capacity v) n) as [Hlt|Hge]; [|exists v; split; [done|]; intuition lia].
  assert (2 * n + 8 < 2 ^ 64) as Hn64 by nia.
  set (c0 := if vec_capacity v =? 0 then _ else _).
  assert (1 <= c0 /\ vec_capacity v <= c0 /\ (c0 < 2 * n \/ c0 = 8)) as (Hc0 & Hvc & Hc1).
  { subst c0. destruct (Z.eqb_spec (vec_capacity v) 0); [lia|].
    rewrite wrap_id by (unfold in_u; lia). lia. }
  assert (exists c, grow_capacity GROW_FUEL c0 n = Some c /\
            n <= c < 2 * n + 8 /\ vec_capacity v <= c) as (c & -> & Hc & Hcv).
  { clearbody c0. destruct Hc1 as [Hc1| ->].
    - destruct (grow_capacity_spec GROW_FUEL c0 n) as (c & -> & ?); [lia|lia|lia| |].
      + change (2 ^ Z.of_nat GROW_FUEL) with (2 ^ 64). zpow. lia.
      + exists c. split; [done|lia].
    - destruct (Z.ltb_spec 8 n).
      + destruct (grow_capacity_spec GROW_FUEL 8 n) as (c & -> & ?); [lia|lia|lia| |].
        * change (2 ^ Z.of_nat GROW_FUEL) with (2 ^ 64). zpow. lia.
        * exists c. split; [done|lia].
      + exists 8. cbn [GROW_FUEL grow_capacity]. rewrite (proj2 (Z.ltb_ge _ _)) by lia. split; [done|lia]. }
  cbn [mbind option_bind]. rewrite (proj2 (Z.ltb_lt _ _)) by nia.
  eexists. split; [done|]. unfold vec_capacity in *. cbn [vec_data vec_size].
  rewrite realloc_cells_length by lia. split; [split; nia|]. split; [lia|]. split; [done|].
  split; [|lia]. unfold vec_list. cbn [vec_data vec_size].
  unfold realloc_cells. by rewrite take_app_le by lia.
Qed.

(** Writing [bs] just past the elements in use extends the list by [bs]. *)
Lemma vec_list_blit v bs d :
  0 <= vec_size v <= vec_capacity v ->
  zblit (vec_data v) (vec_size v) bs = Some d ->
  vec_list (mkVector d (vec_size v + Z.of_nat (length bs))) = vec_list v ++ bs.
Proof.
  unfold vec_list, vec_capacity. intros Hs (? & ? & ->)%zblit_inv. cbn [vec_data vec_size].
  rewrite app_assoc. apply take_app_length'.
  rewrite length_app, length_take. lia.
Qed.

Lemma blit_capacity v bs d s :
  zblit (vec_data v) (vec_size v) bs = Some d -> vec_capacity (mkVector d s) = vec_capacity v.
Proof. intros H%zblit_length. unfold vec_capacity. cbn [vec_data]. lia. Qed.

(** [wasm_append_##name##_value] appends, [wasm_extend_##name##s]
    concatenates, [wasm_resize_##name##_vector] truncates or pads with zero
    elements. *)
Lemma append_element_spec v :
  vec_ok v -> vec_room (vec_size v + 1) ->
  exists v', wasm_append_element v = Some (v', vec_size v) /\ vec_ok v' /\
    vec_size v' = vec_size v + 1 /\ vec_list v' = vec_list v ++ [zero].
Proof.
  intros Hok Hr. pose proof Hok as [Hs Hcap]. unfold wasm_append_element.
  rewrite wrap_id by (apply vec_room_lt; [lia|done]).
  destruct (ensure_capacity_spec v (vec_size v + 1)) as (v1 & -> & [Hs1 Hcap1] & Hc1 & Es & El & _);
    [done|lia|done|].
  cbn [mbind option_bind]. unfold zero_cells. change (Z.to_nat 1) with 1%nat. cbn [replicate].
  pose proof (zblit_Some (vec_data v1) (vec_size v1) [zero]) as Hd. unfold vec_capacity in *.
  specialize (Hd ltac:(lia) ltac:(cbn; lia)). rewrite Hd. cbn [mbind option_bind].
  pose proof (vec_list_blit v1 [zero] _ Hs1 Hd) as Hl.
  pose proof (blit_capacity v1 [zero] _ (vec_size v1 + 1) Hd) as Hc.
  rewrite <- Es. eexists. split; [done|].
  split; [|split; [cbn; lia|by rewrite <- El]].
  unfold vec_ok. rewrite Hc. cbn [vec_size]. unfold vec_capacity in *. lia.
Qed.

Lemma append_value_spec v x :
  vec_ok v -> vec_room (vec_size v + 1) ->
  exists v', wasm_append_value v x = Some v' /\ vec_ok v' /\ vec_list v' = vec_list v ++ [x].
Proof.
  intros Hok Hr. unfold wasm_append_value.
  destruct (append_element_spec v Hok Hr) as (v1 & -> & [Hs1 Hcap] & Es & El).
  cbn [mbind option_bind]. pose proof Hok as [Hs _].
  rewrite zset_Some by (unfold vec_capacity in Hs1; lia). cbn [mbind option_bind].
  eexists. split; [done|]. unfold vec_ok, vec_capacity in *. cbn [vec_data vec_size].
  rewrite length_insert. split; [lia|].
  unfold vec_list in *. cbn [vec_data vec_size].
  assert (length (take (Z.to_nat (vec_size v)) (vec_data v)) = Z.to_nat (vec_size v)) as Hlen
    by (rewrite length_take; lia).
  rewrite Es in *. rewrite take_insert_lt, El by lia.
  rewrite insert_app_r_alt by lia. by rewrite Hlen, Nat.sub_diag.
Qed.

Lemma append_value_capacity v x v' :
  vec_ok v -> vec_room (vec_size v + 1) -> wasm_append_value v x = Some v' -> vec_capacity v <= vec_capacity v'.
Proof.
  intros Hok Hr. pose proof Hok as [Hs Hcap]. unfold wasm_append_value, wasm_append_element.
  rewrite wrap_id by (apply vec_room_lt; [lia|done]).
  destruct (ensure_capacity_spec v (vec_size v + 1)) as (v1 & -> & _ & _ & _ & _ & Hc & _); [done|lia|done|].
  cbn [mbind option_bind]. unfold zero_cells.
  destruct (zblit (vec_data v1) (vec_size v1) _) as [d|] eqn:Ed; [|done]. cbn [mbind option_bind vec_data vec_size].
  destruct (zset d (vec_size v1) x) as [d'|] eqn:Ed'; [|done]. intros [= <-].
  apply zblit_length in Ed. apply zset_length in Ed'. unfold vec_capacity in *. cbn [vec_data]. lia.
Qed.

Lemma extend_elements_spec v src :
  vec_ok v -> vec_room (vec_size v + Z.of_nat (length src)) ->
  exists v', wasm_extend_elements v src = Some v' /\ vec_ok v' /\ vec_list v' = vec_list v ++ src.
Proof.
  intros Hok Hr. pose proof Hok as [Hs Hcap]. unfold wasm_extend_elements.
  rewrite wrap_id by (apply vec_room_lt; [lia|done]).
  destruct (ensure_capacity_spec v (vec_size v + Z.of_nat (length src)))
    as (v1 & -> & [Hs1 Hcap1] & Hc1 & Es & El & _); [done|lia|done|].
  cbn [mbind option_bind]. unfold vec_capacity in *.
  pose proof (zblit_Some (vec_data v1) (vec_size v1) src ltac:(lia) ltac:(lia)) as Hd.
  rewrite Hd. cbn [mbind option_bind].
  pose proof (vec_list_blit v1 src _ Hs1 Hd) as Hl.
  pose proof (blit_capacity v1 src _ (vec_size v1 + Z.of_nat (length src)) Hd) as Hc.
  eexists. split; [done|]. split; [|by rewrite <- El].
  unfold vec_ok. rewrite Hc. cbn [vec_size]. unfold vec_capacity in *. lia.
Qed.

Lemma resize_vector_spec v n :
  vec_ok v -> 0 <= n -> vec_room n ->
  exists v', wasm_resize_vector v n = Some v' /\ vec_ok v' /\
    vec_list v' = resize (Z.to_nat n) zero (vec_list v).
Proof.
  intros Hok Hn Hr. pose proof Hok as [Hs Hcap]. unfold wasm_resize_vector.
  destruct (ensure_capacity_spec v n)
    as (v1 & -> & [Hs1 Hcap1] & Hc1 & Es & El & _); [done..|].
  cbn [mbind option_bind]. rewrite resize_spec, <- El.
  assert (length (vec_list v1) = Z.to_nat (vec_size v1)) as Hlen
    by (unfold vec_list; rewrite length_take; unfold vec_capacity in *; lia).
  destruct (Z.ltb_spec (vec_size v) n) as [Hlt|Hge].
  - unfold zero_cells. rewrite <- Es in *. unfold vec_capacity in *.
    set (bs := replicate (Z.to_nat (n - vec_size v1)) zero).
    assert (Z.of_nat (length bs) = n - vec_size v1) as Hbs
      by (unfold bs; rewrite length_replicate; lia).
    pose proof (zblit_Some (vec_data v1) (vec_size v1) bs ltac:(lia) ltac:(lia)) as Hd.
    rewrite Hd. cbn [mbind option_bind].
    pose proof (vec_list_blit v1 bs _ Hs1 Hd) as Hl.
    pose proof (blit_capacity v1 bs _ n Hd) as Hc.
    replace (vec_size v1 + Z.of_nat (length bs)) with n in Hl by lia.
    eexists. split; [done|]. split; [unfold vec_ok; rewrite Hc; cbn [vec_size]; unfold vec_capacity; lia|].
    rewrite Hl, take_ge by lia. f_equal. unfold bs. f_equal. lia.
  - cbn [mbind option_bind]. eexists. split; [done|].
    unfold vec_ok, vec_capacity in *. cbn [vec_data vec_size].
    split; [lia|]. unfold vec_list in *. cbn [vec_data vec_size].
    rewrite take_take, Nat.min_l by lia. rewrite Hlen.
    replace (Z.to_nat n - Z.to_nat (vec_size v1))%nat with 0%nat by lia. by rewrite app_nil_r.
Qed.

(** C35 - the vector operations implement the list operations: while the block
    of the doubled capacity stays addressable, none of them fails or loses an
    element; appending a value, extending by an array and resizing give the
    list with the value, the array, or the truncation or zero padding; and the
    capacity that [wasm_ensure_capacity] leaves is at least the size asked for
    and, when it grew, less than twice it plus the initial capacity. *)
Theorem vector_refines_list (v : WasmVector) :
  vec_ok v ->
  (forall n, 0 <= n -> vec_room n ->
     exists v', wasm_ensure_capacity v n = Some v' /\ vec_ok v' /\ vec_list v' = vec_list v /\
       n <= vec_capacity v' /\
       (vec_capacity v' = vec_capacity v \/
        vec_capacity v' < 2 * n + INITIAL_VECTOR_CAPACITY)) /\
  (forall x, vec_room (vec_size v + 1) ->
     exists v', wasm_append_value v x = Some v' /\ vec_ok v' /\
       vec_list v' = vec_list v ++ [x]) /\
  (forall src, vec_room (vec_size v + Z.of_nat (length src)) ->
     exists v', wasm_extend_elements v src = Some v' /\ vec_ok v' /\
       vec_list v' = vec_list v ++ src) /\
  (forall n, 0 <= n -> vec_room n ->
     exists v', wasm_resize_vector v n = Some v' /\ vec_ok v' /\
       vec_list v' = resize (Z.to_nat n) zero (vec_list v)).
Proof.
  intros Hok. split; [|split; [|split]].
  - intros n Hn Hr. destruct (ensure_capacity_spec v n Hok Hn Hr) as (v' & ?). exists v'. tauto.
  - intros. by apply append_value_spec.
  - intros. by apply extend_elements_spec.
  - intros. by apply resize_vector_spec.
Qed.
End vector.

Arguments WasmVector : clear implicits.

(** Two appends to a new vector of 4-byte elements. *)
Lemma vector_refines_list_witness :
  exists v', wasm_append_value (fun _ => 99) 0 4 (mkVector [7; 99; 99; 99; 99; 99; 99; 99] 1) 8
             = Some v' /\ vec_ok 4 v' /\ vec_list v' = [7; 8].
Proof.
  pose proof (vector_refines_list (fun _ => 99) 0 4 ltac:(lia)
                (mkVector [7; 99; 99; 99; 99; 99; 99; 99] 1)
                ltac:(split; [split; vm_compute; discriminate|vm_compute; reflexivity]))
    as (_ & Happ & _).
  apply (Happ 8). vm_compute. reflexivity.
Defined.
