(* ===== verification/BindingHash.v ===== *)
(** * Binding hashes (src/src/binding-hash.h, binding-hash.c)

    The hash table that maps the names of a module to indices: an array of
    entries chained by pointers, in which an entry that is not in its main
    position gives way to one that is.  A pointer to an entry is its index in
    [entries.data] ([None] for [NULL]); the operations return [None] where the
    code would fail an assertion, follow a null pointer or leave the array.
    The theorems show that the chains stay well formed and that the table
    implements a finite map from names to indices. *)

From stdpp Require Import gmap functions.
From S2P Require Import Prelude Vector.

(** ** String slices (common.h, common.c)

    [WasmStringSlice] is a pointer and a length; [None] is the slice whose
    pointer is [NULL]. *)
Definition WasmStringSlice : Type := option string.

Definition wasm_string_slices_are_equal (a b : WasmStringSlice) : bool :=
  match a, b with
  | Some x, Some y => String.eqb x y
  | _, _ => false
  end.

(** The bytes a slice points to. *)
Definition slice_bytes (s : WasmStringSlice) : list Z :=
  match s with
  | Some x => map (fun c => Z.of_nat (Ascii.nat_of_ascii c)) (String.list_ascii_of_string x)
  | None => []
  end.

(** The bytes as a string. *)
Definition string_of_bytes (l : list Z) : string :=
  String.string_of_list_ascii (map (fun b => Ascii.ascii_of_nat (Z.to_nat b)) l).

(** [wasm_dup_string_slice]: the copy ends at the first NUL but keeps the
    length, so a NUL before the last byte leaves a slice that reaches past its
    allocation; every use of a name reads all of it. *)
Definition wasm_dup_string_slice (str : list Z) : option WasmStringSlice :=
  if existsb (fun b => b =? 0) (take (length str - 1) str) then None
  else Some (Some (string_of_bytes str)).

(** ** The table *)

(** The location of a binding only feeds messages and is left out. *)
Record WasmBinding := mkBinding {
  binding_name : WasmStringSlice;
  binding_index : Z
}.

Record WasmBindingHashEntry := mkEntry {
  entry_binding : WasmBinding;
  entry_next : option nat;
  entry_prev : option nat
}.

Record WasmBindingHash := mkHash {
  entries : WasmVector WasmBindingHashEntry;
  free_head : option nat
}.

(** [WASM_ZERO_MEMORY] of a hash. *)
Definition empty_hash : WasmBindingHash := mkHash vec_empty None.

Definition hash_capacity (h : WasmBindingHash) : nat := length (vec_data (entries h)).

Definition entry_at (h : WasmBindingHash) (i : nat) : option WasmBindingHashEntry :=
  vec_data (entries h) !! i.

Definition set_free_head (h : WasmBindingHash) (p : option nat) : WasmBindingHash :=
  mkHash (entries h) p.

(** [*entry = e] through a pointer. *)
Definition set_entry (h : WasmBindingHash) (i : nat) (e : WasmBindingHashEntry) :
    option WasmBindingHash :=
  if decide (i < hash_capacity h)%nat
  then Some (mkHash (mkVector (<[i:=e]> (vec_data (entries h))) (vec_size (entries h)))
                    (free_head h))
  else None.

Definition set_next (h : WasmBindingHash) (i : nat) (p : option nat) : option WasmBindingHash :=
  e ← entry_at h i; set_entry h i (mkEntry (entry_binding e) p (entry_prev e)).

Definition set_prev (h : WasmBindingHash) (i : nat) (p : option nat) : option WasmBindingHash :=
  e ← entry_at h i; set_entry h i (mkEntry (entry_binding e) (entry_next e) p).

Definition set_binding (h : WasmBindingHash) (i : nat) (b : WasmBinding) :
    option WasmBindingHash :=
  e ← entry_at h i; set_entry h i (mkEntry b (entry_next e) (entry_prev e)).

Definition wasm_hash_entry_is_free (e : WasmBindingHashEntry) : bool :=
  match binding_name (entry_binding e) with None => true | Some _ => false end.

Definition INITIAL_HASH_CAPACITY : Z := 8.

(** FNV-1a *)
Definition fnv_prime : Z := 0x01000193.

Definition hash_name (name : WasmStringSlice) : Z :=
  fold_left (fun hval b => u32 (Z.lxor hval b * fnv_prime)) (slice_bytes name) 0x811c9dc5.

(** [hash % capacity]; division by zero on an empty table. *)
Definition hash_main_entry (h : WasmBindingHash) (name : WasmStringSlice) : option nat :=
  if decide (hash_capacity h = 0%nat) then None
  else Some (Z.to_nat (hash_name name mod Z.of_nat (hash_capacity h))).

(** [while (other_entry->next != entry) other_entry = other_entry->next;] *)
Fixpoint find_predecessor (fuel : nat) (h : WasmBindingHash) (other_entry entry : nat) :
    option nat :=
  match fuel with
  | O => None
  | S fuel' =>
      o ← entry_at h other_entry;
      if decide (entry_next o = Some entry) then Some other_entry
      else n ← entry_next o; find_predecessor fuel' h n entry
  end.

(** [entry->next->prev = p] when [entry->next] is not null. *)
Definition set_prev_of (h : WasmBindingHash) (q p : option nat) : option WasmBindingHash :=
  match q with Some q => set_prev h q p | None => Some h end.

(** The first branch of [hash_new_entry]: the main position is claimed. *)
Definition hash_new_entry_claimed (h : WasmBindingHash) (entry : nat)
    (e : WasmBindingHashEntry) : option (WasmBindingHash * nat) :=
  free_entry ← free_head h;
  f ← entry_at h free_entry;
  let h := set_free_head h (entry_next f) in
  h ← set_prev_of h (entry_next f) None;
  other_entry ← hash_main_entry h (binding_name (entry_binding e));
  if decide (other_entry = entry) then
    e ← entry_at h entry;
    h ← set_next h free_entry (entry_next e);
    h ← set_next h entry (Some free_entry);
    Some (h, free_entry)
  else
    o ← entry_at h other_entry;
    if wasm_hash_entry_is_free o then None
    else
      other_entry ← find_predecessor (hash_capacity h) h other_entry entry;
      h ← set_next h other_entry (Some free_entry);
      e ← entry_at h entry;
      h ← set_entry h free_entry e;
      h ← set_next h entry None;
      Some (h, entry).

(** The second branch: remove the main position from the free list. *)
Definition hash_new_entry_free (h : WasmBindingHash) (entry : nat) :
    option (WasmBindingHash * nat) :=
  e ← entry_at h entry;
  h ← set_prev_of h (entry_next e) (entry_prev e);
  e ← entry_at h entry;
  h ← match entry_prev e with
      | Some p => set_next h p (entry_next e)
      | None => Some (set_free_head h (entry_next e))
      end;
  h ← set_next h entry None;
  Some (h, entry).

Definition hash_new_entry (h : WasmBindingHash) (name : WasmStringSlice) :
    option (WasmBindingHash * nat) :=
  entry ← hash_main_entry h name;
  e ← entry_at h entry;
  '(h, entry) ← (if negb (wasm_hash_entry_is_free e)
                 then hash_new_entry_claimed h entry e
                 else hash_new_entry_free h entry);
  h ← set_binding h entry (mkBinding name 0);
  h ← set_prev h entry None;
  Some (h, entry).

Section alloc.
(** The contents of memory fresh from the allocator. *)
Context (uninit : nat -> WasmBindingHashEntry).

Definition sizeof_entry : Z := 64.

(** The loop that links the [i]-th to the last entry of a new table into the
    free list, [n] of them. *)
Fixpoint init_free_list (n i : nat) (h : WasmBindingHash) : option WasmBindingHash :=
  match n with
  | O => Some h
  | S n' =>
      h ← set_prev_of h (free_head h) (Some i);
      e ← entry_at h i;
      h ← set_binding h i (mkBinding None (binding_index (entry_binding e)));
      h ← set_next h i (free_head h);
      init_free_list n' (S i) (set_free_head h (Some i))
  end.

(** The loop that copies the entries [old] of the old table. *)
Fixpoint copy_entries (old : list WasmBindingHashEntry) (new_hash : WasmBindingHash) :
    option WasmBindingHash :=
  match old with
  | [] => Some new_hash
  | old_entry :: old' =>
      if wasm_hash_entry_is_free old_entry then copy_entries old' new_hash
      else
        '(new_hash, new_entry) ←
          hash_new_entry new_hash (binding_name (entry_binding old_entry));
        new_hash ← set_binding new_hash new_entry (entry_binding old_entry);
        copy_entries old' new_hash
  end.

Definition hash_resize (h : WasmBindingHash) (desired_capacity : Z) : option WasmBindingHash :=
  v ← wasm_ensure_capacity uninit sizeof_entry vec_empty desired_capacity;
  new_hash ← init_free_list (length (vec_data v)) 0 (mkHash v None);
  f ← free_head new_hash;
  new_hash ← set_prev new_hash f None;
  copy_entries (vec_data (entries h)) new_hash.

(** Returns the entry whose binding the caller fills in. *)
Definition wasm_insert_binding (h : WasmBindingHash) (name : WasmStringSlice) :
    option (WasmBindingHash * nat) :=
  h ← (if vec_size (entries h) =? 0 then hash_resize h INITIAL_HASH_CAPACITY else Some h);
  h ← match free_head h with
      | None => hash_resize h (u64 (Z.of_nat (hash_capacity h) * 2))
      | Some _ => Some h
      end;
  '(h, entry) ← hash_new_entry h name;
  Some (mkHash (mkVector (vec_data (entries h)) (vec_size (entries h) + 1)) (free_head h), entry).

(** The way every client inserts: [binding = wasm_insert_binding(...);
    binding->index = index;] *)
Definition insert_binding_index (h : WasmBindingHash) (name : WasmStringSlice) (index : Z) :
    option WasmBindingHash :=
  '(h, entry) ← wasm_insert_binding h name;
  e ← entry_at h entry;
  set_binding h entry (mkBinding (binding_name (entry_binding e)) index).
End alloc.

(** The [do]-[while] loop of the search, from [entry]. *)
Fixpoint find_in_chain (fuel : nat) (h : WasmBindingHash) (entry : nat)
    (name : WasmStringSlice) : option Z :=
  match fuel with
  | O => None
  | S fuel' =>
      e ← entry_at h entry;
      if wasm_string_slices_are_equal (binding_name (entry_binding e)) name
      then Some (binding_index (entry_binding e))
      else match entry_next e with
           | None => Some (-1)
           | Some n =>
               e' ← entry_at h n;
               if wasm_hash_entry_is_free e' then Some (-1)
               else find_in_chain fuel' h n name
           end
  end.

(** A chain visits every entry at most once. *)
Definition wasm_find_binding_index_by_name (h : WasmBindingHash) (name : WasmStringSlice) :
    option Z :=
  if decide (hash_capacity h = 0%nat) then Some (-1)
  else entry ← hash_main_entry h name; find_in_chain (hash_capacity h) h entry name.

(** The entry cleared is [entries.data[index]], where [index] is the binding's. *)
Definition wasm_remove_binding (h : WasmBindingHash) (name : WasmStringSlice) :
    option WasmBindingHash :=
  index ← wasm_find_binding_index_by_name h name;
  if index =? -1 then Some h
  else if index <? 0 then None
  else set_entry h (Z.to_nat index) (mkEntry (mkBinding None 0) None None).

(** ** The contents of a table as functions of the entry index *)

(** [shape h c fh X P B]: [h] has [c] entries, the free list starts at [fh]
    and entry [i] holds [B i], [X i] and [P i]. *)
Definition shape (h : WasmBindingHash) (c : nat) (fh : option nat)
    (X P : nat -> option nat) (B : nat -> WasmBinding) : Prop :=
  hash_capacity h = c /\ free_head h = fh /\
  forall i, (i < c)%nat -> entry_at h i = Some (mkEntry (B i) (X i) (P i)).

Lemma set_entry_shape h c fh X P B i b x p :
  shape h c fh X P B -> (i < c)%nat ->
  exists h', set_entry h i (mkEntry b x p) = Some h' /\
    vec_size (entries h') = vec_size (entries h) /\
    shape h' c fh (<[i:=x]> X) (<[i:=p]> P) (<[i:=b]> B).
Proof.
  intros (Hc & Hf & He) Hi. unfold set_entry. rewrite decide_True by lia.
  eexists. split; [done|]. split; [done|]. unfold shape, entry_at, hash_capacity in *.
  cbn [entries vec_data free_head]. rewrite length_insert. split; [done|]. split; [done|].
  intros j Hj. destruct (decide (i = j)) as [<-|Hne].
  - rewrite list_lookup_insert_eq by lia. by rewrite !fn_lookup_insert.
  - rewrite list_lookup_insert_ne by done. rewrite !fn_lookup_insert_ne by done. by apply He.
Qed.

(** Overwriting a field by its own value is no change. *)
Lemma shape_ext h c fh X P B X' P' B' :
  shape h c fh X P B ->
  (forall i, (i < c)%nat -> X' i = X i /\ P' i = P i /\ B' i = B i) ->
  shape h c fh X' P' B'.
Proof.
  intros (Hc & Hf & He) Heq. split; [done|]. split; [done|].
  intros i Hi. destruct (Heq i Hi) as (-> & -> & ->). by apply He.
Qed.

Lemma fn_insert_id {A} (f : nat -> A) i j : (<[i := f i]> f) j = f j.
Proof.
  destruct (decide (i = j)) as [<-|]; [apply fn_lookup_insert|by rewrite fn_lookup_insert_ne].
Qed.

Lemma set_next_shape h c fh X P B i x :
  shape h c fh X P B -> (i < c)%nat ->
  exists h', set_next h i x = Some h' /\
    vec_size (entries h') = vec_size (entries h) /\ shape h' c fh (<[i:=x]> X) P B.
Proof.
  intros Hs Hi. unfold set_next. pose proof Hs as (_ & _ & He). rewrite (He i Hi).
  cbn [mbind option_bind entry_binding entry_prev].
  destruct (set_entry_shape h c fh X P B i (B i) x (P i) Hs Hi) as (h' & ? & ? & Hs').
  exists h'. split; [done|]. split; [done|].
  eapply shape_ext; [exact Hs'|]. intros j _. rewrite !fn_insert_id. done.
Qed.

Lemma set_prev_shape h c fh X P B i p :
  shape h c fh X P B -> (i < c)%nat ->
  exists h', set_prev h i p = Some h' /\
    vec_size (entries h') = vec_size (entries h) /\ shape h' c fh X (<[i:=p]> P) B.
Proof.
  intros Hs Hi. unfold set_prev. pose proof Hs as (_ & _ & He). rewrite (He i Hi).
  cbn [mbind option_bind entry_binding entry_next].
  destruct (set_entry_shape h c fh X P B i (B i) (X i) p Hs Hi) as (h' & ? & ? & Hs').
  exists h'. split; [done|]. split; [done|].
  eapply shape_ext; [exact Hs'|]. intros j _. rewrite !fn_insert_id. done.
Qed.

Lemma set_binding_shape h c fh X P B i b :
  shape h c fh X P B -> (i < c)%nat ->
  exists h', set_binding h i b = Some h' /\
    vec_size (entries h') = vec_size (entries h) /\ shape h' c fh X P (<[i:=b]> B).
Proof.
  intros Hs Hi. unfold set_binding. pose proof Hs as (_ & _ & He). rewrite (He i Hi).
  cbn [mbind option_bind entry_next entry_prev].
  destruct (set_entry_shape h c fh X P B i b (X i) (P i) Hs Hi) as (h' & ? & ? & Hs').
  exists h'. split; [done|]. split; [done|].
  eapply shape_ext; [exact Hs'|]. intros j _. rewrite !fn_insert_id. done.
Qed.

(** [q->prev = p], or nothing when [q] is null: the new [prev] fields. *)
Definition prev_after (P : nat -> option nat) (q p : option nat) : nat -> option nat :=
  match q with Some q => <[q:=p]> P | None => P end.

Lemma set_prev_of_shape h c fh X P B q p :
  shape h c fh X P B -> (forall i, q = Some i -> (i < c)%nat) ->
  exists h', set_prev_of h q p = Some h' /\
    vec_size (entries h') = vec_size (entries h) /\ shape h' c fh X (prev_after P q p) B.
Proof.
  intros Hs Hq. destruct q as [q|]; cbn [set_prev_of prev_after].
  - apply set_prev_shape; auto.
  - by exists h.
Qed.

Lemma set_free_head_shape h c fh X P B fh' :
  shape h c fh X P B ->
  shape (set_free_head h fh') c fh' X P B /\
  vec_size (entries (set_free_head h fh')) = vec_size (entries h).
Proof. intros (? & ? & ?). done. Qed.

Lemma shape_entry h c fh X P B i :
  shape h c fh X P B -> (i < c)%nat -> entry_at h i = Some (mkEntry (B i) (X i) (P i)).
Proof. intros (_ & _ & He). apply He. Qed.

(** ** Linked lists *)

(** [l] is the list of entries reached from its head through [next]. *)
Fixpoint seg (X : nat -> option nat) (l : list nat) : Prop :=
  match l with
  | [] => True
  | i :: l' => X i = head l' /\ seg X l'
  end.

(** The same with the [prev] links back, the first pointing to [p]. *)
Fixpoint dll (X P : nat -> option nat) (p : option nat) (l : list nat) : Prop :=
  match l with
  | [] => True
  | i :: l' => X i = head l' /\ P i = p /\ dll X P (Some i) l'
  end.

Lemma seg_ext X X' l : (forall i, i ∈ l -> X' i = X i) -> seg X l -> seg X' l.
Proof.
  induction l as [|i l IH]; [done|]. cbn [seg]. intros He [Hi Hl]. split.
  - rewrite He by set_solver. done.
  - apply IH; [|done]. intros. apply He. set_solver.
Qed.

Lemma seg_app X l1 l2 :
  seg X (l1 ++ l2) -> seg X l2 /\ (forall i l0, l1 = l0 ++ [i] -> X i = head l2).
Proof.
  induction l1 as [|i l1 IH]; cbn [app seg].
  - intros. split; [done|]. intros ? [|]; done.
  - intros [Hi Hl]. destruct (IH Hl) as [? Hlast]. split; [done|].
    intros j [|k l0] [= -> E]; [|by apply (Hlast j l0)]. subst l1. done.
Qed.

Lemma dll_ext X P X' P' p l :
  (forall i, i ∈ l -> X' i = X i /\ P' i = P i) -> dll X P p l -> dll X' P' p l.
Proof.
  revert p. induction l as [|i l IH]; [done|]. cbn [dll]. intros p He (Hi & Hp & Hl).
  destruct (He i) as [-> ->]; [set_solver|]. split; [done|]. split; [done|].
  apply IH; [|done]. intros. apply He. set_solver.
Qed.

(** Cutting a list behind [q] and hanging [l2] there. *)
Lemma seg_replace_tail X X' l0 q k l2 :
  seg X (l0 ++ q :: k) -> (forall i, i ∈ l0 -> X' i = X i) ->
  X' q = head l2 -> seg X' l2 -> seg X' (l0 ++ q :: l2).
Proof.
  intros Hs He Hq Hl2. induction l0 as [|j l0 IH]; cbn [app seg] in *; [done|].
  destruct Hs as [Hj Hs]. split; [|apply IH; [done|set_solver]].
  rewrite He by set_solver. rewrite Hj. by destruct l0.
Qed.

Lemma dll_replace_tail X P X' P' p l0 q k l2 :
  dll X P p (l0 ++ q :: k) -> (forall i, i ∈ l0 -> X' i = X i /\ P' i = P i) ->
  P' q = P q -> X' q = head l2 -> dll X' P' (Some q) l2 -> dll X' P' p (l0 ++ q :: l2).
Proof.
  intros Hd He Pq Hq Hl2. revert p Hd. induction l0 as [|j l0 IH]; intros p; cbn [app dll].
  - intros (_ & <- & _). done.
  - intros (Hj & Hp & Hd). destruct (He j) as [-> ->]; [set_solver|].
    split; [rewrite Hj; by destruct l0|]. split; [done|].
    apply IH; [set_solver|done].
Qed.

Lemma dll_change_head X P X' P' p p' l :
  dll X P p l -> (forall i, i ∈ l -> X' i = X i) -> (forall i, i ∈ tail l -> P' i = P i) ->
  (forall i, head l = Some i -> P' i = p') -> dll X' P' p' l.
Proof.
  destruct l as [|i l]; [done|]. cbn [dll tail]. intros (Hi & _ & Hl) HX HP Hp.
  split; [rewrite HX by set_solver; done|]. split; [by apply Hp|].
  eapply dll_ext; [|exact Hl]. intros j Hj. split; [apply HX; set_solver|by apply HP].
Qed.

Lemma dll_suffix X P p l1 l2 : dll X P p (l1 ++ l2) -> exists p', dll X P p' l2.
Proof.
  revert p. induction l1 as [|i l1 IH]; intros p; cbn [app dll]; [eauto|].
  intros (_ & _ & H). eauto.
Qed.

(** Unlinking [i] from a doubly linked list, the way [hash_new_entry] does. *)
Lemma dll_remove X P l1 i l2 X' :
  dll X P None (l1 ++ i :: l2) -> NoDup (l1 ++ i :: l2) ->
  (forall j, X' j = match P i with Some p => <[p:=X i]> X j | None => X j end) ->
  dll X' (prev_after P (X i) (P i)) None (l1 ++ l2) /\
  head (l1 ++ l2) = match P i with Some _ => head (l1 ++ i :: l2) | None => X i end /\
  (forall p, P i = Some p -> p ∈ l1) /\ X i = head l2.
Proof.
  intros Hd Hnd HX'. destruct (dll_suffix _ _ _ _ _ Hd) as (p0 & Hi & Hp0 & Hl2).
  assert (dll X' (prev_after P (X i) (P i)) (P i) l2) as Hl2'.
  { eapply dll_change_head; [exact Hl2|..].
    - intros j Hj. rewrite HX'. destruct (P i) as [p|] eqn:EP; [|done].
      apply fn_lookup_insert_ne. intros <-. apply NoDup_app in Hnd as (Hnd1 & Hnd2 & Hnd3).
      destruct l1 as [|q l0 _] using rev_ind; cbn [app dll] in Hd; [naive_solver|].
      rewrite <- app_assoc in Hd. apply dll_suffix in Hd as (? & _ & _ & _ & E & _).
      assert (p = q) as -> by congruence. apply (Hnd2 q); set_solver.
    - intros j Hj. rewrite Hi. destruct l2 as [|k l2]; [done|]. cbn [head prev_after tail] in *.
      apply fn_lookup_insert_ne. intros ->. apply NoDup_app in Hnd as (_ & _ & Hnd).
      apply NoDup_cons in Hnd as [_ Hnd]. by apply NoDup_cons in Hnd as [? _].
    - intros j Hj. rewrite Hi, Hj. cbn [prev_after]. apply fn_lookup_insert. }
  destruct l1 as [|q l0 _] using rev_ind.
  - cbn [app dll] in *. destruct Hd as (_ & Ep & _). rewrite Ep in *.
    split; [done|]. split; [by rewrite Hi|]. split; [done|done].
  - rewrite <- app_assoc in Hd. pose proof Hd as Hd'.
    apply dll_suffix in Hd' as (? & _ & _ & _ & E & _). rewrite E in *.
    rewrite <- !app_assoc in *. cbn [app] in *.
    assert (NoDup l0 /\ q ∉ l0 /\ q <> i /\ q ∉ l2 /\ (forall j, j ∈ l0 -> j ∉ l2 /\ j <> i))
      as (? & Hq0 & Hqi & Hq2 & H02).
    { apply NoDup_app in Hnd as (? & Hx & Hnd). apply NoDup_cons in Hnd as [? ?]. set_solver. }
    split; [|split; [by destruct l0|split; [set_solver|done]]].
    eapply dll_replace_tail; [exact Hd|..].
    + intros j Hj. rewrite HX'. split; [apply fn_lookup_insert_ne; set_solver|].
      rewrite Hi. destruct l2 as [|k l2]; [done|]. apply fn_lookup_insert_ne. set_solver.
    + rewrite Hi. destruct l2 as [|k l2]; [done|]. apply fn_lookup_insert_ne. set_solver.
    + rewrite HX', fn_lookup_insert. done.
    + done.
Qed.

(** ** The representation invariant *)

(** The main position of a name in a table of [c] entries. *)
Definition main (c : nat) (name : WasmStringSlice) : nat :=
  Z.to_nat (hash_name name mod Z.of_nat c).

(** [fl] is the free list and [ch m] the chain of the names whose main
    position is [m]: a chain starts in its main position and holds exactly the
    claimed entries that belong to it.  Only free entries have a [prev]. *)
Record inv (c : nat) (fh : option nat) (X P : nat -> option nat) (B : nat -> WasmBinding)
    (fl : list nat) (ch : nat -> list nat) : Prop := {
  inv_cap : (0 < c)%nat;
  inv_fh : fh = head fl;
  inv_dll : dll X P None fl;
  inv_nodup : NoDup fl;
  inv_free : forall i, i ∈ fl <-> (i < c)%nat /\ binding_name (B i) = None;
  inv_seg : forall m, seg X (ch m);
  inv_chnodup : forall m, NoDup (ch m);
  inv_head : forall m i, head (ch m) = Some i -> i = m;
  inv_mem : forall i m, i ∈ ch m <->
    (i < c)%nat /\ binding_name (B i) <> None /\ main c (binding_name (B i)) = m;
  inv_prev : forall i, (i < c)%nat -> binding_name (B i) <> None -> P i = None
}.

(** The claimed entries, as pairs of a name and an index. *)
Definition occ (c : nat) (B : nat -> WasmBinding) : list (string * Z) :=
  omap (fun i => n ← binding_name (B i); Some (n, binding_index (B i))) (seq 0 c).

Lemma main_lt c s : (0 < c)%nat -> (main c s < c)%nat.
Proof.
  intros. unfold main. pose proof (Z.mod_pos_bound (hash_name s) (Z.of_nat c)). lia.
Qed.

Lemma hash_main_entry_shape h c fh X P B s :
  shape h c fh X P B -> (0 < c)%nat -> hash_main_entry h s = Some (main c s).
Proof. intros (<- & _ & _) ?. unfold hash_main_entry. by rewrite decide_False by lia. Qed.

Lemma occ_elem c B n x :
  (n, x) ∈ occ c B <-> exists i, (i < c)%nat /\ B i = mkBinding (Some n) x.
Proof.
  unfold occ. rewrite list_elem_of_omap. split.
  - intros (i & Hi & E). rewrite elem_of_seq in Hi. exists i. split; [lia|].
    destruct (B i) as [[n'|] x']; naive_solver.
  - intros (i & Hi & E). exists i. rewrite elem_of_seq. split; [lia|]. by rewrite E.
Qed.

Definition pair_of (b : WasmBinding) : list (string * Z) :=
  match binding_name b with Some n => [(n, binding_index b)] | None => [] end.

(** Overwriting one entry exchanges its pair. *)
Lemma occ_insert c B i b :
  (i < c)%nat -> pair_of (B i) ++ occ c (<[i:=b]> B) ≡ₚ pair_of b ++ occ c B.
Proof.
  intros Hi. unfold occ.
  set (f := fun B' (j : nat) => n ← binding_name (B' j); Some (n, binding_index (B' j))).
  fold (f B). fold (f (<[i:=b]> B)).
  assert (seq 0 c = seq 0 i ++ i :: seq (S i) (c - S i)) as ->.
  { replace c with (i + S (c - S i))%nat at 1 by lia. by rewrite seq_app. }
  assert (forall j, i <> j -> f (<[i:=b]> B) j = f B j) as Hf
    by (intros j Hj; unfold f; by rewrite fn_lookup_insert_ne).
  assert (forall l : list nat, i ∉ l -> omap (f (<[i:=b]> B)) l = omap (f B) l) as Hne.
  { intros l. induction l as [|j l IH]; [done|]. intros Hni. cbn [omap list_omap].
    rewrite Hf, IH by set_solver. done. }
  rewrite !omap_app. cbn [omap list_omap].
  rewrite !Hne by (rewrite elem_of_seq; lia).
  assert (f (<[i:=b]> B) i = head (pair_of b) /\ f B i = head (pair_of (B i))) as [-> ->].
  { unfold f, pair_of. rewrite fn_lookup_insert.
    by destruct (binding_name b), (binding_name (B i)). }
  unfold pair_of.
  destruct (binding_name (B i)), (binding_name b); cbn [head app]; solve_Permutation.
Qed.

Lemma occ_claim c B i b :
  (i < c)%nat -> binding_name (B i) = None -> occ c (<[i:=b]> B) ≡ₚ pair_of b ++ occ c B.
Proof. intros Hi E. rewrite <- (occ_insert c B i b Hi). unfold pair_of. by rewrite E. Qed.

Section inv_facts.
Context {c fh X P B fl ch} (Hinv : inv c fh X P B fl ch).

Lemma inv_chain_named m i : i ∈ ch m -> (i < c)%nat /\ binding_name (B i) <> None.
Proof. rewrite (inv_mem _ _ _ _ _ _ _ Hinv). tauto. Qed.

Lemma inv_fl_chain m i : i ∈ fl -> i ∈ ch m -> False.
Proof. intros [_ ?]%(inv_free _ _ _ _ _ _ _ Hinv) [_ ?]%inv_chain_named. done. Qed.

Lemma inv_claimed i :
  (i < c)%nat -> binding_name (B i) <> None -> i ∈ ch (main c (binding_name (B i))).
Proof. intros. rewrite (inv_mem _ _ _ _ _ _ _ Hinv). done. Qed.

(** A nonempty chain starts at its own position. *)
Lemma inv_chain_cons m i : i ∈ ch m -> exists l, ch m = m :: l.
Proof.
  intros Hi. pose proof (inv_head _ _ _ _ _ _ _ Hinv m) as Hh.
  destruct (ch m) as [|j l]; [set_solver|]. rewrite (Hh j eq_refl). eauto.
Qed.

(** An entry in a foreign chain leaves its own chain empty. *)
Lemma inv_chain_nil m : ~ m ∈ ch m -> ch m = [].
Proof.
  intros Hm. destruct (ch m) as [|j l] eqn:E; [done|]. exfalso. apply Hm.
  destruct (inv_chain_cons m j) as [l' El]; [rewrite E; set_solver|].
  rewrite <- E, El. set_solver.
Qed.
End inv_facts.

(** ** Claiming an entry *)

Lemma fn_insert_case {A} (f : nat -> A) i x j :
  (<[i:=x]> f) j = if decide (i = j) then x else f j.
Proof. done. Qed.

(** Clearing the [prev] of another entry. *)
Lemma prev_after_None P q i : P i = None -> prev_after P q None i = None.
Proof. intros HP. destruct q as [q|]; [|done]. cbn [prev_after]. rewrite fn_insert_case. by case_decide. Qed.

Ltac fn_case :=
  rewrite ?fn_insert_case in *; repeat (case_decide; simplify_eq); try done.

(** The main position of the new name is free: it leaves the free list and
    starts a chain. *)
Lemma inv_claim_free c fh X P B l1 m l2 ch X' b :
  inv c fh X P B (l1 ++ m :: l2) ch ->
  binding_name b <> None -> main c (binding_name b) = m ->
  (forall j, X' j = match P m with Some p => <[p:=X m]> X j | None => X j end) ->
  inv c (head (l1 ++ l2)) (<[m:=None]> X') (<[m:=None]> (prev_after P (X m) (P m)))
      (<[m:=b]> B) (l1 ++ l2) (<[m:=[m]]> ch).
Proof.
  intros Hinv Hb Hm HX'.
  destruct (dll_remove X P l1 m l2 X' (inv_dll _ _ _ _ _ _ _ Hinv) (inv_nodup _ _ _ _ _ _ _ Hinv) HX')
    as (Hd & _ & HPm & HXm).
  pose proof (inv_nodup _ _ _ _ _ _ _ Hinv) as Hnd.
  rewrite <- Permutation_middle in Hnd. apply NoDup_cons in Hnd as [Hml Hnd].
  assert (forall i, i ∈ l1 ++ m :: l2 <-> i = m \/ i ∈ l1 ++ l2) as Hin by set_solver.
  assert (m ∉ ch m) as Hmch.
  { intros Hc. by apply (inv_fl_chain Hinv m m); [set_solver|]. }
  pose proof (inv_chain_nil Hinv m Hmch) as Hnil.
  assert (forall k i, i ∈ ch k -> X' i = X i /\ i <> m) as HXch.
  { intros k i Hi. split; [|intros ->; apply (inv_fl_chain Hinv k m); set_solver].
    rewrite HX'. destruct (P m) as [p|] eqn:EP; [|done]. apply fn_lookup_insert_ne. intros <-.
    apply (inv_fl_chain Hinv k p); [|done]. specialize (HPm p eq_refl). set_solver. }
  constructor.
  - apply (inv_cap _ _ _ _ _ _ _ Hinv).
  - done.
  - eapply dll_ext; [|exact Hd]. intros i Hi. rewrite !fn_lookup_insert_ne by set_solver. done.
  - done.
  - intros i. pose proof (inv_free _ _ _ _ _ _ _ Hinv i) as Hf. rewrite Hin in Hf.
    fn_case; naive_solver.
  - intros k. fn_case; cbn [seg]; [by rewrite fn_lookup_insert|].
    eapply seg_ext; [|apply (inv_seg _ _ _ _ _ _ _ Hinv)]. intros i Hi.
    destruct (HXch k i Hi). by rewrite fn_lookup_insert_ne.
  - intros k. fn_case; [apply NoDup_singleton|apply (inv_chnodup _ _ _ _ _ _ _ Hinv)].
  - intros k i. fn_case; [naive_solver|apply (inv_head _ _ _ _ _ _ _ Hinv)].
  - intros i k. pose proof (inv_mem _ _ _ _ _ _ _ Hinv i k) as Hik.
    assert ((m < c)%nat) by (apply (inv_free _ _ _ _ _ _ _ Hinv); set_solver).
    fn_case.
    + set_solver.
    + rewrite list_elem_of_singleton. split; [naive_solver|].
      intros (? & ? & E). rewrite Hnil in Hik. set_solver.
    + split; [|naive_solver]. intros Hi. by destruct (HXch k _ Hi).
  - intros i Hi Hn. rewrite (fn_insert_case B) in Hn. rewrite (fn_insert_case (prev_after _ _ _)).
    case_decide; [done|]. pose proof (inv_prev _ _ _ _ _ _ _ Hinv i Hi Hn) as HP.
    rewrite HXm. destruct l2 as [|q l2]; [done|]. cbn [head prev_after]. rewrite fn_insert_case.
    case_decide as E; [|done]. subst q.
    assert (i ∈ l1 ++ m :: i :: l2) as [_ ?]%(inv_free _ _ _ _ _ _ _ Hinv) by set_solver. done.
Qed.

(** Popping the free list: the rest is a list again. *)
Lemma inv_pop_free c fh X P B f fl ch X' P' :
  inv c fh X P B (f :: fl) ch ->
  (forall i, i ∈ fl -> X' i = X i /\ P' i = prev_after P (X f) None i) -> dll X' P' None fl.
Proof.
  intros Hinv He. pose proof (inv_dll _ _ _ _ _ _ _ Hinv) as (HXf & _ & Hd).
  pose proof (inv_nodup _ _ _ _ _ _ _ Hinv) as Hnd. apply NoDup_cons in Hnd as [_ Hnd].
  rewrite HXf in He. eapply dll_change_head; [exact Hd|..].
  - intros i Hi. by apply He.
  - intros i Hi. destruct fl as [|j fl]; [set_solver|]. cbn [head tail] in *.
    destruct (He i) as [_ ->]; [set_solver|]. cbn [prev_after].
    apply fn_lookup_insert_ne. apply NoDup_cons in Hnd as [? _]. set_solver.
  - intros i Hi. destruct fl as [|j fl]; [done|]. injection Hi as ->. cbn [head] in *.
    destruct (He i) as [_ ->]; [set_solver|]. apply fn_lookup_insert.
Qed.

(** The main position is claimed by a name that belongs there: the free entry
    becomes the second of its chain. *)
Lemma inv_claim_second c fh X P B f fl m rest ch b :
  inv c fh X P B (f :: fl) ch ->
  binding_name b <> None -> main c (binding_name b) = m -> ch m = m :: rest ->
  inv c (head fl) (<[m:=Some f]> (<[f:=X m]> X)) (<[f:=None]> (prev_after P (X f) None))
      (<[f:=b]> B) fl (<[m:=m :: f :: rest]> ch).
Proof.
  intros Hinv Hb Hm Hch.
  pose proof (inv_nodup _ _ _ _ _ _ _ Hinv) as Hnd. apply NoDup_cons in Hnd as [Hffl Hnd].
  assert ((f < c)%nat /\ binding_name (B f) = None) as [Hfc Hfn]
    by (apply (inv_free _ _ _ _ _ _ _ Hinv); set_solver).
  assert (forall k, f ∉ ch k) as Hfch
    by (intros k Hk; apply (inv_fl_chain Hinv k f); set_solver).
  assert (forall i k, i ∈ ch k -> i ∉ fl) as Hchfl
    by (intros i k Hk Hi; apply (inv_fl_chain Hinv k i); set_solver).
  assert (m ∉ fl) as Hmfl by (apply (Hchfl m m); rewrite Hch; set_solver).
  assert (m <> f) as Hmf by (intros ->; apply (Hfch f); rewrite Hch; set_solver).
  constructor.
  - apply (inv_cap _ _ _ _ _ _ _ Hinv).
  - done.
  - eapply inv_pop_free; [exact Hinv|]. intros i Hi. rewrite !fn_lookup_insert_ne by set_solver. done.
  - done.
  - intros i. pose proof (inv_free _ _ _ _ _ _ _ Hinv i) as Hf. rewrite elem_of_cons in Hf.
    fn_case; naive_solver.
  - intros k. pose proof (inv_seg _ _ _ _ _ _ _ Hinv k) as Hk. rewrite (fn_insert_case ch).
    case_decide; subst.
    + rewrite Hch in Hk. cbn [seg head] in *. rewrite fn_lookup_insert. split; [done|].
      rewrite fn_lookup_insert_ne, fn_lookup_insert by done. split; [by destruct Hk|].
      destruct Hk as [_ Hk]. eapply seg_ext; [|exact Hk]. intros i Hi.
      pose proof (inv_chnodup _ _ _ _ _ _ _ Hinv (main c (binding_name b))) as Hn.
      rewrite Hch in Hn. apply NoDup_cons in Hn as [? _].
      specialize (Hfch (main c (binding_name b))). rewrite Hch in Hfch.
      rewrite !fn_lookup_insert_ne by set_solver. done.
    + eapply seg_ext; [|exact Hk]. intros i Hi.
      rewrite !fn_lookup_insert_ne; [done|set_solver|]. intros <-.
      apply (inv_mem _ _ _ _ _ _ _ Hinv) in Hi as (_ & _ & Ek).
      pose proof (inv_mem _ _ _ _ _ _ _ Hinv (main c (binding_name b)) (main c (binding_name b)))
        as [(_ & _ & E) _]; [rewrite Hch; set_solver|]. congruence.
  - intros k. pose proof (inv_chnodup _ _ _ _ _ _ _ Hinv k) as Hk. specialize (Hfch k).
    rewrite (fn_insert_case ch). case_decide; [|done]. subst k. rewrite Hch in Hk, Hfch.
    apply NoDup_cons in Hk as [? ?]. apply NoDup_cons. split; [set_solver|].
    apply NoDup_cons. set_solver.
  - intros k i. fn_case; [naive_solver|apply (inv_head _ _ _ _ _ _ _ Hinv)].
  - intros i k. pose proof (inv_mem _ _ _ _ _ _ _ Hinv i k) as Hik. specialize (Hfch k).
    rewrite (fn_insert_case B), (fn_insert_case ch). do 2 case_decide; subst.
    + set_solver.
    + rewrite <- Hik, Hch, !elem_of_cons. naive_solver.
    + split; [done|]. by intros (_ & _ & ?).
    + done.
  - intros i Hi Hn. rewrite (fn_insert_case B) in Hn. rewrite (fn_insert_case (prev_after _ _ _)).
    case_decide; [done|]. by apply prev_after_None, (inv_prev _ _ _ _ _ _ _ Hinv).
Qed.

(** The main position [m] is claimed by a name of another chain [k]: that
    entry moves to the free entry [f] and the new name takes its place. *)
Lemma inv_claim_move c fh X P B f fl k l1 q m l2 ch b :
  inv c fh X P B (f :: fl) ch ->
  binding_name b <> None -> main c (binding_name b) = m ->
  ch k = l1 ++ q :: m :: l2 -> k <> m ->
  inv c (head fl) (<[m:=None]> (<[f:=X m]> (<[q:=Some f]> X)))
      (<[m:=None]> (<[f:=prev_after P (X f) None m]> (prev_after P (X f) None)))
      (<[m:=b]> (<[f:=B m]> B)) fl
      (<[k:=l1 ++ q :: f :: l2]> (<[m:=[m]]> ch)).
Proof.
  intros Hinv Hb Hm Hch Hkm.
  pose proof (inv_nodup _ _ _ _ _ _ _ Hinv) as Hnd. apply NoDup_cons in Hnd as [Hffl Hnd].
  assert ((f < c)%nat /\ binding_name (B f) = None) as [Hfc Hfn]
    by (apply (inv_free _ _ _ _ _ _ _ Hinv); set_solver).
  assert (forall j, f ∉ ch j) as Hfch
    by (intros j Hk; apply (inv_fl_chain Hinv j f); set_solver).
  assert (forall i j, i ∈ ch j -> i ∉ fl) as Hchfl
    by (intros i j Hk Hi; apply (inv_fl_chain Hinv j i); set_solver).
  assert (m ∈ ch k /\ q ∈ ch k) as [Hmk Hqk] by (rewrite Hch; set_solver).
  pose proof (proj1 (inv_mem _ _ _ _ _ _ _ Hinv m k) Hmk) as (Hmc & HmB & Hmk').
  pose proof (inv_chnodup _ _ _ _ _ _ _ Hinv k) as Hndk. rewrite Hch in Hndk.
  apply NoDup_app in Hndk as (Hl1 & Hl1q & Hqml2).
  apply NoDup_cons in Hqml2 as [Hq Hml2]. apply NoDup_cons in Hml2 as [Hml2 Hl2].
  assert (m <> f /\ q <> f /\ f ∉ l1 /\ f ∉ l2) as (Hmf & Hqf & Hfl1 & Hfl2)
    by (specialize (Hfch k); rewrite Hch in Hfch; set_solver).
  assert (q <> m /\ m ∉ l1) as [Hqm Hml1] by set_solver.
  assert (ch m = []) as Hnil.
  { apply (inv_chain_nil Hinv). rewrite (inv_mem _ _ _ _ _ _ _ Hinv). naive_solver. }
  assert (forall j i, j <> k -> i ∈ ch j -> i <> m /\ i <> q /\ i <> f) as Hother.
  { intros j i Hj Hi. pose proof (Hfch j). apply (inv_mem _ _ _ _ _ _ _ Hinv) in Hi as Hi'.
    apply (inv_mem _ _ _ _ _ _ _ Hinv) in Hqk as Hqk'. naive_solver. }
  pose proof (Hchfl m k Hmk) as Hmfl. pose proof (Hchfl q k Hqk) as Hqfl.
  assert (forall i, i ∈ fl -> i <> m /\ i <> f /\ i <> q) as Hne by set_solver.
  constructor.
  - apply (inv_cap _ _ _ _ _ _ _ Hinv).
  - done.
  - eapply inv_pop_free; [exact Hinv|]. intros i Hi.
    destruct (Hne i Hi) as (? & ? & ?). by rewrite !fn_lookup_insert_ne by done.
  - done.
  - intros i. pose proof (inv_free _ _ _ _ _ _ _ Hinv i) as Hf. rewrite elem_of_cons in Hf.
    rewrite !(fn_insert_case _ _ _ i).
    destruct (decide (m = i)) as [<-|]; [|destruct (decide (f = i)) as [<-|]]; naive_solver.
  - intros j. rewrite !(fn_insert_case _ _ _ j).
    destruct (decide (k = j)) as [<-|Hkj]; [|destruct (decide (m = j)) as [<-|Hmj]].
    + pose proof (inv_seg _ _ _ _ _ _ _ Hinv k) as Hk.
      rewrite Hch in Hk.
      assert (X m = head l2 /\ seg X l2) as [HXm Hs2].
      { replace (l1 ++ q :: m :: l2) with ((l1 ++ [q; m]) ++ l2) in Hk by (by rewrite <- app_assoc).
        apply seg_app in Hk as [Hs2 Hlast]. split; [|done].
        apply (Hlast m (l1 ++ [q])). by rewrite <- app_assoc. }
      eapply seg_replace_tail; [exact Hk|..].
      * intros i Hi. rewrite !fn_lookup_insert_ne; [done|set_solver..].
      * rewrite !fn_lookup_insert_ne by done. apply fn_lookup_insert.
      * cbn [seg]. rewrite fn_lookup_insert_ne, fn_lookup_insert by done. split; [done|].
        eapply seg_ext; [|exact Hs2]. intros i Hi. rewrite !fn_lookup_insert_ne; [done|set_solver..].
    + cbn [seg]. by rewrite fn_lookup_insert.
    + eapply seg_ext; [|apply (inv_seg _ _ _ _ _ _ _ Hinv)]. intros i Hi.
      destruct (Hother j i) as (? & ? & ?); [done|done|]. by rewrite !fn_lookup_insert_ne by done.
  - intros j. rewrite !(fn_insert_case _ _ _ j).
    destruct (decide (k = j)) as [<-|Hkj]; [|destruct (decide (m = j)) as [<-|Hmj]].
    + apply NoDup_app. split; [done|]. split; [set_solver|].
      apply NoDup_cons. split; [set_solver|]. apply NoDup_cons. done.
    + apply NoDup_singleton.
    + apply (inv_chnodup _ _ _ _ _ _ _ Hinv).
  - intros j i. pose proof (inv_head _ _ _ _ _ _ _ Hinv j i) as Hh.
    rewrite !(fn_insert_case _ _ _ j).
    destruct (decide (k = j)) as [<-|Hkj]; [|destruct (decide (m = j)) as [<-|Hmj]; [|done]].
    + rewrite Hch in Hh. by destruct l1.
    + naive_solver.
  - intros i j. pose proof (inv_mem _ _ _ _ _ _ _ Hinv i j) as Hij. pose proof (Hfch j) as Hfj.
    rewrite !(fn_insert_case _ _ _ i), !(fn_insert_case _ _ _ j).
    destruct (decide (m = i)) as [<-|Hmi].
    + destruct (decide (k = j)) as [<-|Hkj]; [|destruct (decide (m = j)) as [<-|Hmj]].
      * split; [set_solver|]. naive_solver.
      * set_solver.
      * split; [|naive_solver]. intros Hi. by destruct (Hother j m) as (? & _); [intros ->|..].
    + destruct (decide (f = i)) as [<-|Hfi].
      * destruct (decide (k = j)) as [<-|Hkj]; [|destruct (decide (m = j)) as [<-|Hmj]].
        -- set_solver.
        -- set_solver.
        -- naive_solver.
      * destruct (decide (k = j)) as [<-|Hkj]; [|destruct (decide (m = j)) as [<-|Hmj]].
        -- rewrite <- Hij, Hch. set_solver.
        -- rewrite <- Hij, Hnil. set_solver.
        -- done.
  - intros i Hi Hn. rewrite !(fn_insert_case _ _ _ i) in Hn. rewrite !(fn_insert_case _ _ _ i).
    repeat case_decide; [done|..]; by apply prev_after_None, (inv_prev _ _ _ _ _ _ _ Hinv).
Qed.

(** ** The operations *)

(** [h] holds exactly the pairs of [occ], with [n] free entries. *)
Definition rep (h : WasmBindingHash) (c : nat) (B : nat -> WasmBinding) (n : nat) : Prop :=
  exists fh X P fl ch, shape h c fh X P B /\ inv c fh X P B fl ch /\ n = length fl.

Lemma find_predecessor_spec h c fh X P B k l1 q m l2 fuel :
  shape h c fh X P B -> seg X (l1 ++ q :: m :: l2) ->
  (forall i, i ∈ l1 ++ q :: m :: l2 -> (i < c)%nat) -> NoDup (l1 ++ q :: m :: l2) ->
  head (l1 ++ q :: m :: l2) = Some k -> (length l1 < fuel)%nat ->
  find_predecessor fuel h k m = Some q.
Proof.
  intros Hs. revert k fuel. induction l1 as [|i l1 IH]; intros k [|fuel] Hseg Hlt Hnd Hk Hf;
    try (cbn in Hf; lia); cbn [app head seg find_predecessor] in *; injection Hk as <-.
  - rewrite (shape_entry _ _ _ _ _ _ _ Hs) by (apply Hlt; set_solver).
    cbn [mbind option_bind entry_next]. destruct Hseg as [-> _]. by rewrite decide_True by done.
  - rewrite (shape_entry _ _ _ _ _ _ _ Hs) by (apply Hlt; set_solver).
    cbn [mbind option_bind entry_next]. destruct Hseg as [-> Hseg].
    apply NoDup_cons in Hnd as [Hi Hnd]. destruct l1 as [|j l1].
    + cbn [app head] in *. rewrite decide_False by (apply NoDup_cons in Hnd; set_solver).
      apply IH; [done|set_solver|done|done|cbn in *; lia].
    + cbn [app head] in *. rewrite decide_False.
      * apply IH; [done|set_solver|done|done|cbn in *; lia].
      * intros [= ->]. apply NoDup_cons in Hnd. set_solver.
Qed.

(** A list of distinct entries is no longer than the table. *)
Lemma entries_length c (l : list nat) :
  NoDup l -> (forall i, i ∈ l -> (i < c)%nat) -> (length l <= c)%nat.
Proof.
  intros Hnd Hl. rewrite <- (length_seq c 0). apply submseteq_length, NoDup_submseteq; [done|].
  intros i Hi. apply elem_of_seq. specialize (Hl i Hi). lia.
Qed.

Ltac run_bind := cbn [mbind option_bind].

(** One primitive write: name the new table and its shape. *)
Ltac write_step lem :=
  let h := fresh "h" in let Hv := fresh "Hv" in
  match goal with
  | Hs : shape ?h0 _ _ _ _ _ |- context [?op ?h0 _ _] =>
      edestruct (lem h0) as (h & -> & Hv & ?); [exact Hs|..]; run_bind; try clear Hs
  end.

Lemma wasm_hash_entry_is_free_spec b x p :
  wasm_hash_entry_is_free (mkEntry b x p) = bool_decide (binding_name b = None).
Proof. unfold wasm_hash_entry_is_free. cbn. destruct (binding_name b); by case_bool_decide. Qed.

(** Unlinking entry [m]; [X'] are the [next] fields after the first two
    assignments. *)
Lemma hash_new_entry_free_shape h c fh X P B l1 m l2 ch X' :
  shape h c fh X P B -> inv c fh X P B (l1 ++ m :: l2) ch ->
  X' = match P m with Some p => <[p:=X m]> X | None => X end ->
  exists h', hash_new_entry_free h m = Some (h', m) /\
    vec_size (entries h') = vec_size (entries h) /\
    shape h' c (head (l1 ++ l2)) (<[m:=None]> X') (prev_after P (X m) (P m)) B.
Proof.
  intros Hs Hinv HX'.
  assert (forall i, i ∈ l1 ++ m :: l2 -> (i < c)%nat) as Hlt
    by (intros i Hi; by apply (inv_free _ _ _ _ _ _ _ Hinv)).
  destruct (dll_remove X P l1 m l2 X' (inv_dll _ _ _ _ _ _ _ Hinv) (inv_nodup _ _ _ _ _ _ _ Hinv))
    as (_ & Hhead & HPm & HXm); [intros j; rewrite HX'; by destruct (P m)|].
  unfold hash_new_entry_free. rewrite (shape_entry _ _ _ _ _ _ _ Hs) by (apply Hlt; set_solver).
  run_bind. cbn [entry_next entry_prev].
  destruct (set_prev_of_shape h c fh X P B (X m) (P m) Hs) as (h1 & -> & Ev1 & Hs1).
  { intros i E. apply Hlt. rewrite HXm in E. destruct l2; [done|]. injection E as ->. set_solver. }
  run_bind. rewrite (shape_entry _ _ _ _ _ _ _ Hs1) by (apply Hlt; set_solver). run_bind.
  assert (prev_after P (X m) (P m) m = P m) as ->.
  { pose proof (inv_nodup _ _ _ _ _ _ _ Hinv) as Hnd. rewrite HXm.
    destruct l2 as [|j l2]; [done|]. cbn [head prev_after]. apply fn_lookup_insert_ne.
    intros ->. apply NoDup_app in Hnd as (_ & _ & Hnd). apply NoDup_cons in Hnd. set_solver. }
  assert (exists h2, match P m with Some p => set_next h1 p (X m)
                     | None => Some (set_free_head h1 (X m)) end = Some h2 /\
            vec_size (entries h2) = vec_size (entries h1) /\
            shape h2 c (head (l1 ++ l2)) X' (prev_after P (X m) (P m)) B) as (h2 & E2 & Ev2 & Hs2).
  { rewrite HX'. rewrite (inv_fh _ _ _ _ _ _ _ Hinv) in Hs1. rewrite Hhead.
    destruct (P m) as [p|].
    - apply set_next_shape; [done|]. apply Hlt. specialize (HPm p eq_refl). set_solver.
    - eexists. split; [done|]. destruct (set_free_head_shape h1 c _ _ _ _ (X m) Hs1). done. }
  cbn [entry_next entry_prev]. rewrite E2. run_bind.
  destruct (set_next_shape _ _ _ _ _ _ m None Hs2) as (h3 & -> & Ev3 & Hs3); [apply Hlt; set_solver|].
  run_bind. exists h3. split; [done|]. split; [congruence|done].
Qed.

(** The last two assignments of [hash_new_entry]. *)
Lemma hash_new_entry_finish h c fh X P B i name (B' : nat -> WasmBinding) X' P' fl ch :
  shape h c fh X P B -> (i < c)%nat -> inv c fh X' P' B' fl ch ->
  (forall j, X' j = X j) -> (forall j, P' j = (<[i:=None]> P) j) ->
  (forall j, B' j = (<[i:=mkBinding name 0]> B) j) ->
  exists h', (h ← set_binding h i (mkBinding name 0); h ← set_prev h i None; Some (h, i))
             = Some (h', i) /\
    vec_size (entries h') = vec_size (entries h) /\ rep h' c B' (length fl).
Proof.
  intros Hs Hi Hinv HX HP HB.
  destruct (set_binding_shape _ _ _ _ _ _ i (mkBinding name 0) Hs Hi) as (h1 & -> & Ev1 & Hs1).
  run_bind. destruct (set_prev_shape _ _ _ _ _ _ i None Hs1 Hi) as (h2 & -> & Ev2 & Hs2).
  run_bind. exists h2. split; [done|]. split; [congruence|].
  exists fh, X', P', fl, ch. split; [|done].
  eapply shape_ext; [exact Hs2|]. intros j _. by rewrite HX, HP, HB.
Qed.

Lemma hash_new_entry_free_spec h c fh X P B fl ch name m :
  shape h c fh X P B -> inv c fh X P B fl ch ->
  name <> None -> main c name = m -> m ∈ fl ->
  exists h' n, hash_new_entry h name = Some (h', m) /\
    vec_size (entries h') = vec_size (entries h) /\
    rep h' c (<[m:=mkBinding name 0]> B) n /\ length fl = S n.
Proof.
  intros Hs Hinv Hname Hm Hmfl.
  pose proof (proj1 (inv_free _ _ _ _ _ _ _ Hinv m) Hmfl) as [Hmc HBm].
  unfold hash_new_entry.
  rewrite (hash_main_entry_shape _ _ _ _ _ _ _ Hs), Hm by lia. run_bind.
  rewrite (shape_entry _ _ _ _ _ _ _ Hs) by done. run_bind.
  rewrite wasm_hash_entry_is_free_spec, bool_decide_eq_true_2 by done. cbn [negb].
  apply list_elem_of_split in Hmfl as (l1 & l2 & ->).
  set (X' := match P m with Some p => <[p:=X m]> X | None => X end).
  destruct (hash_new_entry_free_shape h c fh X P B l1 m l2 ch X' Hs Hinv eq_refl)
    as (h1 & -> & Ev1 & Hs1). run_bind.
  destruct (hash_new_entry_finish _ _ _ _ _ _ m name _ _ _ _ _ Hs1 Hmc
    (inv_claim_free c fh X P B l1 m l2 ch X' (mkBinding name 0) Hinv Hname Hm
       ltac:(intros j; unfold X'; by destruct (P m)))) as (h2 & -> & Ev2 & Hr); [done..|].
  exists h2, (length (l1 ++ l2)). split; [done|]. split; [congruence|]. split; [done|].
  rewrite !length_app. cbn [length]. lia.
Qed.

(** The claimed branch up to the choice of the entry to use. *)
Lemma pop_free_shape h c fh X P B f fl ch :
  shape h c fh X P B -> inv c fh X P B (f :: fl) ch ->
  free_head h = Some f /\ (f < c)%nat /\ entry_at h f = Some (mkEntry (B f) (X f) (P f)) /\
  exists h', set_prev_of (set_free_head h (X f)) (X f) None = Some h' /\
    vec_size (entries h') = vec_size (entries h) /\
    shape h' c (head fl) X (prev_after P (X f) None) B.
Proof.
  intros Hs Hinv. pose proof Hs as (_ & Hf & _).
  assert (forall i, i ∈ f :: fl -> (i < c)%nat) as Hlt
    by (intros i Hi; by apply (inv_free _ _ _ _ _ _ _ Hinv)).
  pose proof (inv_dll _ _ _ _ _ _ _ Hinv) as (HXf & _ & _).
  split; [by rewrite Hf, (inv_fh _ _ _ _ _ _ _ Hinv)|]. split; [apply Hlt; set_solver|].
  split; [apply (shape_entry _ _ _ _ _ _ _ Hs), Hlt; set_solver|].
  destruct (set_free_head_shape h c _ _ _ _ (X f) Hs) as [Hs' Ev].
  rewrite <- Ev. rewrite HXf in *. apply set_prev_of_shape; [done|].
  intros i E. apply Hlt. destruct fl; [done|]. injection E as ->. set_solver.
Qed.

Lemma hash_new_entry_second_spec h c fh X P B f fl ch name m rest :
  shape h c fh X P B -> inv c fh X P B (f :: fl) ch ->
  name <> None -> main c name = m -> ch m = m :: rest ->
  exists h', hash_new_entry h name = Some (h', f) /\
    vec_size (entries h') = vec_size (entries h) /\
    rep h' c (<[f:=mkBinding name 0]> B) (length fl).
Proof.
  intros Hs Hinv Hname Hm Hch.
  assert (m ∈ ch m) as Hmch by (rewrite Hch; set_solver).
  pose proof (proj1 (inv_mem _ _ _ _ _ _ _ Hinv m m) Hmch) as (Hmc & HmB & Hmm).
  assert (f <> m) as Hfm by (intros ->; apply (inv_fl_chain Hinv m m); set_solver).
  destruct (pop_free_shape _ _ _ _ _ _ _ _ _ Hs Hinv) as (Ef & Hfc & Hef & h1 & Eh1 & Ev1 & Hs1).
  unfold hash_new_entry. rewrite (hash_main_entry_shape _ _ _ _ _ _ _ Hs), Hm by lia. run_bind.
  rewrite (shape_entry _ _ _ _ _ _ _ Hs) by done. run_bind.
  rewrite wasm_hash_entry_is_free_spec, bool_decide_eq_false_2 by done. cbn [negb].
  unfold hash_new_entry_claimed. rewrite Ef. run_bind. rewrite Hef. run_bind.
  cbn [entry_next entry_binding]. rewrite Eh1. run_bind.
  rewrite (hash_main_entry_shape _ _ _ _ _ _ _ Hs1), Hmm by lia. run_bind.
  rewrite decide_True by done. rewrite (shape_entry _ _ _ _ _ _ _ Hs1) by done. run_bind.
  cbn [entry_next].
  destruct (set_next_shape _ _ _ _ _ _ f (X m) Hs1 Hfc) as (h2 & -> & Ev2 & Hs2). run_bind.
  destruct (set_next_shape _ _ _ _ _ _ m (Some f) Hs2 Hmc) as (h3 & -> & Ev3 & Hs3). run_bind.
  destruct (hash_new_entry_finish _ _ _ _ _ _ f name _ _ _ _ _ Hs3 Hfc
    (inv_claim_second c fh X P B f fl m rest ch (mkBinding name 0) Hinv Hname Hm Hch))
    as (h4 & -> & Ev4 & Hr); [done..|].
  exists h4. split; [done|]. split; [congruence|done].
Qed.

(** The chain an entry is in, cut around it, when the entry is not its head. *)
Lemma chain_split c fh X P B fl ch m k :
  inv c fh X P B fl ch -> m ∈ ch k -> k <> m ->
  exists l1 q l2, ch k = l1 ++ q :: m :: l2.
Proof.
  intros Hinv Hm Hk. apply list_elem_of_split in Hm as (l0 & l2 & E).
  destruct l0 as [|q l1 _] using rev_ind.
  - cbn [app] in E. pose proof (inv_head _ _ _ _ _ _ _ Hinv k m) as Hh.
    rewrite E in Hh. by specialize (Hh eq_refl).
  - exists l1, q, l2. by rewrite E, <- app_assoc.
Qed.

Lemma find_predecessor_inv h c fh fh' X P P' B fl ch k l1 q m l2 :
  shape h c fh' X P' B -> inv c fh X P B fl ch -> ch k = l1 ++ q :: m :: l2 ->
  find_predecessor c h k m = Some q.
Proof.
  intros Hs Hinv Hch.
  pose proof (inv_chnodup _ _ _ _ _ _ _ Hinv k) as Hnd.
  assert (forall i, i ∈ ch k -> (i < c)%nat) as Hlt
    by (intros i Hi; by apply (inv_chain_named Hinv) in Hi as [? _]).
  eapply find_predecessor_spec; [exact Hs|..].
  - pose proof (inv_seg _ _ _ _ _ _ _ Hinv k) as Hseg. rewrite Hch in Hseg. exact Hseg.
  - by rewrite Hch in Hlt.
  - by rewrite Hch in Hnd.
  - pose proof (inv_head _ _ _ _ _ _ _ Hinv k) as Hh. rewrite Hch in Hh.
    destruct l1; cbn [app head] in *; by rewrite (Hh _ eq_refl).
  - pose proof (entries_length c (ch k) Hnd Hlt) as Hlen. rewrite Hch, length_app in Hlen.
    cbn [length] in Hlen. lia.
Qed.

Lemma hash_new_entry_move_spec h c fh X P B f fl ch name m k :
  shape h c fh X P B -> inv c fh X P B (f :: fl) ch ->
  name <> None -> main c name = m -> m ∈ ch k -> k <> m ->
  exists h', hash_new_entry h name = Some (h', m) /\
    vec_size (entries h') = vec_size (entries h) /\
    rep h' c (<[m:=mkBinding name 0]> (<[f:=B m]> B)) (length fl).
Proof.
  intros Hs Hinv Hname Hm Hmk Hkm.
  pose proof (proj1 (inv_mem _ _ _ _ _ _ _ Hinv m k) Hmk) as (Hmc & HmB & Hmain).
  assert (f <> m) as Hfm by (intros ->; apply (inv_fl_chain Hinv k m); set_solver).
  destruct (chain_split _ _ _ _ _ _ _ _ _ Hinv Hmk Hkm) as (l1 & q & l2 & Hch).
  assert (k ∈ ch k /\ q ∈ ch k) as [Hkk Hqk].
  { destruct (inv_chain_cons Hinv k m Hmk) as [l El]. rewrite El at 1. rewrite Hch. set_solver. }
  apply (inv_chain_named Hinv) in Hkk as [Hkc HkB].
  apply (inv_chain_named Hinv) in Hqk as [Hqc _].
  destruct (pop_free_shape _ _ _ _ _ _ _ _ _ Hs Hinv) as (Ef & Hfc & Hef & h1 & Eh1 & Ev1 & Hs1).
  unfold hash_new_entry. rewrite (hash_main_entry_shape _ _ _ _ _ _ _ Hs), Hm by lia. run_bind.
  rewrite (shape_entry _ _ _ _ _ _ _ Hs) by done. run_bind.
  rewrite wasm_hash_entry_is_free_spec, bool_decide_eq_false_2 by done. cbn [negb].
  unfold hash_new_entry_claimed. rewrite Ef. run_bind. rewrite Hef. run_bind.
  cbn [entry_next entry_binding]. rewrite Eh1. run_bind.
  rewrite (hash_main_entry_shape _ _ _ _ _ _ _ Hs1), Hmain by lia. run_bind.
  rewrite decide_False by done. rewrite (shape_entry _ _ _ _ _ _ _ Hs1) by done. run_bind.
  rewrite wasm_hash_entry_is_free_spec, bool_decide_eq_false_2 by done.
  pose proof Hs1 as (-> & _ & _).
  rewrite (find_predecessor_inv _ _ _ _ _ _ _ _ _ _ _ _ _ _ _ Hs1 Hinv Hch). run_bind.
  destruct (set_next_shape _ _ _ _ _ _ q (Some f) Hs1 Hqc) as (h2 & -> & Ev2 & Hs2). run_bind.
  rewrite (shape_entry _ _ _ _ _ _ _ Hs2) by done. run_bind.
  destruct (set_entry_shape _ _ _ _ _ _ f (B m) ((<[q:=Some f]> X) m) (prev_after P (X f) None m)
              Hs2 Hfc) as (h3 & -> & Ev3 & Hs3). run_bind.
  destruct (set_next_shape _ _ _ _ _ _ m None Hs3 Hmc) as (h4 & -> & Ev4 & Hs4). run_bind.
  assert ((<[q:=Some f]> X) m = X m) as EXm.
  { pose proof (inv_chnodup _ _ _ _ _ _ _ Hinv k) as Hnd. rewrite Hch in Hnd.
    apply NoDup_app in Hnd as (_ & _ & Hnd). apply NoDup_cons in Hnd.
    apply fn_lookup_insert_ne. set_solver. }
  destruct (hash_new_entry_finish _ _ _ _ _ _ m name _ _ _ _ _ Hs4 Hmc
    (inv_claim_move c fh X P B f fl k l1 q m l2 ch (mkBinding name 0) Hinv Hname Hm Hch Hkm))
    as (h5 & -> & Ev5 & Hr); [by rewrite EXm|done..|].
  exists h5. split; [done|]. split; [congruence|done].
Qed.

(** [hash_new_entry] on a table with a free entry: one entry becomes the new
    name's, with index 0, and the other pairs stay. *)
Lemma hash_new_entry_spec h c B n name s :
  rep h c B (S n) -> name = Some s ->
  exists h' i B', hash_new_entry h name = Some (h', i) /\
    vec_size (entries h') = vec_size (entries h) /\ (i < c)%nat /\
    rep h' c B' n /\ B' i = mkBinding name 0 /\ occ c B' ≡ₚ (s, 0) :: occ c B.
Proof.
  intros (fh & X & P & fl & ch & Hs & Hinv & Hn) ->.
  set (name := Some s). set (m := main c name).
  pose proof (main_lt c name (inv_cap _ _ _ _ _ _ _ Hinv)) as Hmc. fold m in Hmc.
  destruct fl as [|f fl]; [done|]. injection Hn as ->.
  destruct (binding_name (B m)) as [s'|] eqn:Em.
  - assert (m ∈ ch (main c (binding_name (B m)))) as Hmk
      by (apply (inv_claimed Hinv); [done|by rewrite Em]).
    assert ((f < c)%nat /\ binding_name (B f) = None) as [Hfc Hfn]
      by (apply (inv_free _ _ _ _ _ _ _ Hinv); set_solver).
    destruct (decide (main c (binding_name (B m)) = m)) as [E|Hne].
    + destruct (inv_chain_cons Hinv _ _ Hmk) as [rest Hch]. rewrite E in Hch.
      destruct (hash_new_entry_second_spec _ _ _ _ _ _ _ _ _ name m rest Hs Hinv)
        as (h' & ? & ? & ?); [done..|].
      exists h', f, (<[f:=mkBinding name 0]> B). rewrite fn_lookup_insert.
      split_and!; try done. by apply (occ_claim c B f (mkBinding name 0)).
    + destruct (hash_new_entry_move_spec _ _ _ _ _ _ _ _ _ name m (main c (binding_name (B m))) Hs Hinv)
        as (h' & ? & ? & ?); [done..|].
      exists h', m, (<[m:=mkBinding name 0]> (<[f:=B m]> B)). rewrite fn_lookup_insert.
      split_and!; try done.
      assert (f <> m) as Hfm by (intros ->; congruence).
      pose proof (occ_insert c (<[f:=B m]> B) m (mkBinding name 0) Hmc) as Hocc.
      rewrite fn_lookup_insert_ne in Hocc by done. rewrite (occ_claim c B f (B m)) in Hocc by done.
      unfold pair_of at 1 3 in Hocc. rewrite Em in Hocc. cbn [app pair_of binding_name name] in Hocc.
      rewrite Permutation_swap in Hocc. by apply Permutation_cons_inv in Hocc.
  - assert (m ∈ f :: fl) as Hmf by (by apply (inv_free _ _ _ _ _ _ _ Hinv)).
    destruct (hash_new_entry_free_spec _ _ _ _ _ _ _ _ name m Hs Hinv)
      as (h' & n & ? & ? & ? & [= <-]); [done..|].
    exists h', m, (<[m:=mkBinding name 0]> B). rewrite fn_lookup_insert.
    split_and!; try done. by apply (occ_claim c B m (mkBinding name 0)).
Qed.

(** Any table has a shape. *)
Lemma shape_exists h : exists X P B, shape h (hash_capacity h) (free_head h) X P B.
Proof.
  exists (fun i => e ← entry_at h i; entry_next e), (fun i => e ← entry_at h i; entry_prev e),
    (fun i => default (mkBinding None 0) (entry_binding <$> entry_at h i)).
  split_and!; [done..|]. intros i Hi. unfold entry_at, hash_capacity in *.
  destruct (lookup_lt_is_Some_2 (vec_data (entries h)) i Hi) as [[b x p] ->]. done.
Qed.

(** The pair of an entry, if it is claimed. *)
Definition entry_pairs (l : list WasmBindingHashEntry) : list (string * Z) :=
  omap (fun e => n ← binding_name (entry_binding e); Some (n, binding_index (entry_binding e))) l.

Lemma shape_entry_pairs h c fh X P B :
  shape h c fh X P B -> entry_pairs (vec_data (entries h)) = occ c B.
Proof.
  intros (Hc & _ & He). unfold entry_pairs, occ.
  assert (vec_data (entries h) = (fun i => mkEntry (B i) (X i) (P i)) <$> seq 0 c) as ->.
  { apply list_eq. intros i. rewrite list_lookup_fmap. destruct (decide (i < c)%nat).
    - rewrite lookup_seq_lt by done. by apply He.
    - rewrite lookup_seq_ge, lookup_ge_None_2 by (unfold hash_capacity in Hc; lia). done. }
  clear. induction (seq 0 c) as [|i l IH]; [done|]. cbn [fmap list_fmap omap list_omap].
  cbn [entry_binding]. by rewrite IH.
Qed.

(** Every entry is free or in [occ]. *)
Lemma inv_count c fh X P B fl ch :
  inv c fh X P B fl ch -> (length fl + length (occ c B))%nat = c.
Proof.
  intros Hinv.
  assert (fl ≡ₚ filter (fun i => binding_name (B i) = None) (seq 0 c)) as ->.
  { apply NoDup_Permutation.
    - apply (inv_nodup _ _ _ _ _ _ _ Hinv).
    - apply NoDup_filter, NoDup_seq.
    - intros i. rewrite (inv_free _ _ _ _ _ _ _ Hinv), list_elem_of_filter, elem_of_seq.
      split; [intros [? ?]|intros [? ?]]; (split; [done || lia|done || lia]). }
  rewrite <- (length_seq c 0) at 3. unfold occ. generalize (seq 0 c). clear Hinv. intros l.
  induction l as [|i l IH]; [done|]. cbn [omap list_omap]. rewrite filter_cons.
  destruct (binding_name (B i)); cbn [mbind option_bind].
  - rewrite decide_False by done. cbn [length]. lia.
  - rewrite decide_True by done. cbn [length]. lia.
Qed.

Lemma rep_count h c B n : rep h c B n -> (n + length (occ c B))%nat = c.
Proof. intros (? & ? & ? & fl & ch & _ & Hinv & ->). by eapply inv_count. Qed.

(** Filling in the index of a claimed entry. *)
Lemma rep_set_binding h c B n i b :
  rep h c B n -> (i < c)%nat -> binding_name b = binding_name (B i) ->
  exists h', set_binding h i b = Some h' /\
    vec_size (entries h') = vec_size (entries h) /\ rep h' c (<[i:=b]> B) n.
Proof.
  intros (fh & X & P & fl & ch & Hs & Hinv & ->) Hi Hb.
  destruct (set_binding_shape _ _ _ _ _ _ i b Hs Hi) as (h' & ? & ? & Hs').
  exists h'. split; [done|]. split; [done|]. exists fh, X, P, fl, ch. split; [done|]. split; [|done].
  assert (forall j, binding_name ((<[i:=b]> B) j) = binding_name (B j)) as HB
    by (intros j; rewrite fn_insert_case; by case_decide; subst).
  pose proof (inv_prev _ _ _ _ _ _ _ Hinv) as HP.
  destruct Hinv. constructor; try done; intros; [by rewrite HB..|]. apply HP; [done|by rewrite <- HB].
Qed.

(** Copying the old entries keeps their pairs. *)
Lemma copy_entries_spec old h c B n :
  rep h c B n -> (length (entry_pairs old) <= n)%nat ->
  exists h' B' n', copy_entries old h = Some h' /\
    vec_size (entries h') = vec_size (entries h) /\ rep h' c B' n' /\
    occ c B' ≡ₚ entry_pairs old ++ occ c B.
Proof.
  revert h B n. induction old as [|[b x p] old IH]; intros h B n Hr Hn; cbn [copy_entries].
  - by exists h, B, n.
  - rewrite wasm_hash_entry_is_free_spec. destruct b as [[s|] y]; cbn [binding_name]; [|by apply (IH h B n)].
    rewrite bool_decide_eq_false_2 by done. cbn [entry_pairs omap list_omap] in Hn.
    cbn in Hn. destruct n as [|n]; [lia|]. cbn [entry_binding binding_name].
    destruct (hash_new_entry_spec h c B n (Some s) s Hr eq_refl)
      as (h1 & i & B1 & -> & Ev1 & Hi & Hr1 & HB1 & Hocc1).
    run_bind.
    destruct (rep_set_binding h1 c B1 n i (mkBinding (Some s) y) Hr1 Hi) as (h2 & -> & Ev2 & Hr2);
      [by rewrite HB1|].
    run_bind. destruct (IH h2 _ n Hr2) as (h3 & B3 & n3 & -> & Ev3 & Hr3 & Hocc3); [unfold entry_pairs; lia|].
    exists h3, B3, n3. split; [done|]. split; [congruence|]. split; [done|].
    pose proof (occ_insert c B1 i (mkBinding (Some s) y) Hi) as Hocc2. rewrite HB1, Hocc1 in Hocc2.
    cbn [pair_of binding_name binding_index app] in Hocc2.
    rewrite Permutation_swap in Hocc2. apply Permutation_cons_inv in Hocc2.
    rewrite Hocc3, Hocc2. cbn [entry_pairs omap list_omap]. cbn. symmetry. apply Permutation_middle.
Qed.

Section resize.
Context (uninit : nat -> WasmBindingHashEntry).

(** The state of the loop that builds the free list after [i] entries: the
    list is linked but for the [prev] of its head. *)
Definition free_built (h : WasmBindingHash) (c i : nat) : Prop :=
  exists X P B p, shape h c (head (reverse (seq 0 i))) X P B /\ dll X P p (reverse (seq 0 i)) /\
    forall j, (j < i)%nat -> binding_name (B j) = None.

Lemma rev_seq_S i : reverse (seq 0 (S i)) = i :: reverse (seq 0 i).
Proof. by rewrite seq_S, reverse_snoc. Qed.

Lemma NoDup_rev_seq i : NoDup (reverse (seq 0 i)).
Proof. rewrite reverse_Permutation. apply NoDup_seq. Qed.

Lemma elem_rev_seq j i : j ∈ reverse (seq 0 i) <-> (j < i)%nat.
Proof. rewrite elem_of_reverse, elem_of_seq. lia. Qed.

Lemma init_free_list_spec n : forall i h c,
  (i + n)%nat = c -> free_built h c i ->
  exists h', init_free_list n i h = Some h' /\
    vec_size (entries h') = vec_size (entries h) /\ free_built h' c c.
Proof.
  induction n as [|n IH]; intros i h c Hc Hb; cbn [init_free_list].
  - exists h. assert (i = c) as -> by lia. done.
  - destruct Hb as (X & P & B & p & Hs & Hd & HB). assert (i < c)%nat as Hi by lia.
    pose proof Hs as (_ & Hfh & _). rewrite Hfh.
    destruct (set_prev_of_shape h c _ X P B (head (reverse (seq 0 i))) (Some i) Hs) as (h1 & -> & Ev1 & Hs1).
    { intros j Hj. assert (j ∈ reverse (seq 0 i)) as Hin by (destruct (reverse (seq 0 i)); set_solver).
      apply elem_rev_seq in Hin. lia. }
    run_bind. rewrite (shape_entry _ _ _ _ _ _ _ Hs1) by done. run_bind. cbn [entry_binding].
    destruct (set_binding_shape _ _ _ _ _ _ i (mkBinding None (binding_index (B i))) Hs1 Hi)
      as (h2 & -> & Ev2 & Hs2). run_bind.
    pose proof Hs2 as (_ & Hfh2 & _). rewrite Hfh2.
    destruct (set_next_shape _ _ _ _ _ _ i (head (reverse (seq 0 i))) Hs2 Hi) as (h3 & -> & Ev3 & Hs3).
    run_bind. destruct (set_free_head_shape h3 c _ _ _ _ (Some i) Hs3) as [Hs4 Ev4].
    destruct (IH (S i) (set_free_head h3 (Some i)) c) as (h5 & -> & Ev5 & Hb5); [lia| |].
    + do 4 eexists. rewrite rev_seq_S. cbn [head dll]. split; [exact Hs4|].
      assert (forall j, j ∈ reverse (seq 0 i) -> j <> i) as Hne
        by (intros j Hj%elem_rev_seq; lia).
      split.
      * rewrite fn_lookup_insert. split; [done|]. split; [reflexivity|].
        eapply dll_change_head; [exact Hd|..].
        -- intros j Hj. specialize (Hne j Hj). by rewrite fn_lookup_insert_ne.
        -- intros j Hj. destruct (reverse (seq 0 i)) as [|k l] eqn:E; [set_solver|].
           cbn [head tail prev_after] in *. apply fn_lookup_insert_ne. intros ->.
           pose proof (NoDup_rev_seq i) as Hnd. rewrite E in Hnd.
           by apply NoDup_cons in Hnd as [? _].
        -- intros j ->. cbn [prev_after]. apply fn_lookup_insert.
      * intros j Hj. rewrite fn_insert_case. case_decide; [done|]. apply HB. lia.
    + exists h5. split; [done|]. split; [congruence|done].
Qed.

(** A table of free entries only. *)
Lemma rep_new h c :
  (0 < c)%nat -> free_built h c c ->
  exists h' B, (f ← free_head h; set_prev h f None) = Some h' /\
    vec_size (entries h') = vec_size (entries h) /\ rep h' c B c /\ occ c B = [].
Proof.
  intros Hc (X & P & B & p & Hs & Hd & HB). destruct c as [|c]; [lia|].
  rewrite rev_seq_S in *. pose proof Hs as (_ & -> & _). cbn [head]. run_bind.
  destruct (set_prev_shape _ _ _ _ _ _ c None Hs) as (h' & -> & Ev & Hs'); [lia|].
  exists h', B. split; [done|]. split; [done|].
  assert (NoDup (c :: reverse (seq 0 c))) as Hnd
    by (rewrite <- rev_seq_S; apply NoDup_rev_seq).
  assert (inv (S c) (Some c) X (<[c:=None]> P) B (c :: reverse (seq 0 c)) (fun _ => [])) as Hinv.
  { constructor; try done.
    - eapply dll_change_head; [exact Hd|done|..].
      + intros i Hi. cbn [tail] in Hi. apply fn_lookup_insert_ne. intros ->.
        by apply NoDup_cons in Hnd as [? _].
      + intros i [= ->]. apply fn_lookup_insert.
    - intros i. rewrite <- rev_seq_S, elem_rev_seq. naive_solver.
    - intros. apply NoDup_nil_2.
    - intros i m. split; [set_solver|]. intros (? & ? & _). by rewrite HB in *.
    - intros i Hi Hn. by rewrite HB in Hn. }
  split.
  - exists (Some c), X, (<[c:=None]> P), (c :: reverse (seq 0 c)), (fun _ => []).
    split; [done|]. split; [done|]. cbn [length]. by rewrite length_reverse, length_seq.
  - pose proof (inv_count _ _ _ _ _ _ _ Hinv) as Hcount. cbn [length] in Hcount.
    rewrite length_reverse, length_seq in Hcount. apply length_zero_iff_nil. lia.
Qed.

(** Resizing keeps the pairs and leaves the other entries free. *)
Lemma hash_resize_spec h d :
  0 < d < 2 ^ 48 -> Z.of_nat (length (entry_pairs (vec_data (entries h)))) <= d ->
  exists h' c B n, hash_resize uninit h d = Some h' /\ vec_size (entries h') = 0 /\
    d <= Z.of_nat c /\ rep h' c B n /\ occ c B ≡ₚ entry_pairs (vec_data (entries h)).
Proof.
  intros Hd Hlen. unfold hash_resize.
  destruct (ensure_capacity_spec uninit sizeof_entry ltac:(done) vec_empty d)
    as (v & -> & _ & Hcap & Hsz & _); [split; done|lia| |].
  { unfold vec_room, INITIAL_VECTOR_CAPACITY, sizeof_entry. zpow. lia. }
  run_bind. unfold vec_capacity in Hcap. set (c := length (vec_data v)) in *.
  destruct (init_free_list_spec c 0 (mkHash v None) c) as (h1 & -> & Ev1 & Hb1); [done| |].
  { destruct (shape_exists (mkHash v None)) as (X & P & B & Hs). exists X, P, B, None.
    split; [done|]. split; [done|lia]. }
  run_bind. destruct (rep_new h1 c) as (h2 & B2 & E2 & Ev2 & Hr2 & Hocc2); [lia|done|].
  destruct (free_head h1) as [f|]; [|done]. cbn [mbind option_bind] in *. rewrite E2. run_bind.
  destruct (copy_entries_spec (vec_data (entries h)) h2 c B2 c Hr2) as (h3 & B3 & n3 & -> & Ev3 & Hr3 & Hocc3);
    [lia|].
  exists h3, c, B3, n3. split; [done|]. split; [rewrite Ev3, Ev2, Ev1; exact Hsz|].
  split; [lia|]. split; [done|]. by rewrite Hocc3, Hocc2, app_nil_r.
Qed.
End resize.

Lemma slices_equal_spec a s : wasm_string_slices_are_equal a (Some s) = bool_decide (a = Some s).
Proof.
  destruct a as [x|]; cbn; [|by rewrite bool_decide_eq_false_2].
  destruct (String.eqb_spec x s); case_bool_decide; congruence.
Qed.

(** Searching a chain of claimed entries. *)
Lemma find_in_chain_spec h c fh X P B s fuel i l :
  shape h c fh X P B -> seg X (i :: l) ->
  (forall j, j ∈ i :: l -> (j < c)%nat /\ binding_name (B j) <> None) ->
  (length (i :: l) <= fuel)%nat ->
  exists r, find_in_chain fuel h i (Some s) = Some r /\
    ((exists j, j ∈ i :: l /\ B j = mkBinding (Some s) r) \/
     (r = -1 /\ forall j, j ∈ i :: l -> binding_name (B j) <> Some s)).
Proof.
  intros Hs. revert i fuel. induction l as [|k l IH]; intros i [|fuel] Hseg Hcl Hf;
    try (cbn in Hf; lia); cbn [find_in_chain];
    rewrite (shape_entry _ _ _ _ _ _ _ Hs) by (apply Hcl; set_solver); run_bind;
    cbn [entry_binding entry_next]; rewrite slices_equal_spec; case_bool_decide as E.
  - exists (binding_index (B i)). split; [done|]. left. exists i. split; [set_solver|].
    destruct (B i); cbn in *; congruence.
  - destruct Hseg as [-> _]. cbn [head]. exists (-1). split; [done|]. right. set_solver.
  - exists (binding_index (B i)). split; [done|]. left. exists i. split; [set_solver|].
    destruct (B i); cbn in *; congruence.
  - destruct Hseg as [-> Hseg]. cbn [head]. destruct (Hcl k) as [Hk HBk]; [set_solver|].
    rewrite (shape_entry _ _ _ _ _ _ _ Hs) by done. run_bind.
    rewrite wasm_hash_entry_is_free_spec, bool_decide_eq_false_2 by done.
    destruct (IH k fuel) as (r & -> & Hr); [done|set_solver|cbn in *; lia|].
    exists r. split; [done|]. destruct Hr as [(j & ? & ?)|[-> Hno]]; [left|right].
    + exists j. split; [set_solver|done].
    + split; [done|]. intros j [->|Hj]%elem_of_cons; [done|by apply Hno].
Qed.

(** Searching from the main position of [s]: the chain there may be another
    position's, or the entry free; either way only entries of the table are
    visited. *)
Lemma find_spec h c B n s :
  rep h c B n ->
  exists r, wasm_find_binding_index_by_name h (Some s) = Some r /\
    ((exists j, (j < c)%nat /\ B j = mkBinding (Some s) r) \/
     (r = -1 /\ forall j, (j < c)%nat -> binding_name (B j) <> Some s)).
Proof.
  intros (fh & X & P & fl & ch & Hs & Hinv & _). pose proof (inv_cap _ _ _ _ _ _ _ Hinv) as Hc.
  unfold wasm_find_binding_index_by_name. pose proof Hs as (Hcap & _ & _).
  rewrite Hcap, decide_False by lia. rewrite (hash_main_entry_shape _ _ _ _ _ _ _ Hs Hc). run_bind.
  set (m := main c (Some s)). pose proof (main_lt c (Some s) Hc) as Hm. fold m in Hm.
  assert (forall j, (j < c)%nat -> binding_name (B j) = Some s -> j ∈ ch m) as Hin.
  { intros j Hj E. unfold m. rewrite <- E. apply (inv_claimed Hinv); [done|by rewrite E]. }
  destruct (binding_name (B m)) as [s'|] eqn:Em.
  - set (k := main c (binding_name (B m))).
    assert (m ∈ ch k) as Hmk by (apply (inv_claimed Hinv); [done|by rewrite Em]).
    pose proof (inv_seg _ _ _ _ _ _ _ Hinv k) as Hseg.
    pose proof (inv_chnodup _ _ _ _ _ _ _ Hinv k) as Hnd.
    assert (forall j, j ∈ ch k -> (j < c)%nat /\ binding_name (B j) <> None) as Hcl
      by (intros j Hj; by apply (inv_chain_named Hinv) in Hj).
    destruct (list_elem_of_split _ _ Hmk) as (l1 & l2 & Ek). rewrite Ek in *.
    destruct (find_in_chain_spec h c fh X P B s c m l2 Hs) as (r & Er & Hr).
    + by apply seg_app in Hseg as [? _].
    + intros j Hj. apply Hcl. set_solver.
    + apply entries_length; [by apply NoDup_app in Hnd as (_ & _ & ?)|].
      intros j Hj. apply Hcl. set_solver.
    + exists r. split; [done|]. destruct Hr as [(j & Hj & E)|[-> Hno]]; [left|right].
      * exists j. split; [|done]. apply Hcl. set_solver.
      * split; [done|]. intros j Hj E. pose proof (Hin j Hj E) as Hjm.
        destruct (inv_chain_cons Hinv m j Hjm) as [l El].
        assert (m = k) as Emk.
        { assert (m ∈ ch m) as Hmm by (rewrite El; set_solver).
          by apply (inv_mem _ _ _ _ _ _ _ Hinv) in Hmm as (_ & _ & ?). }
        rewrite <- Emk, El in Ek. destruct l1 as [|x l1]; cbn [app] in Ek.
        -- injection Ek as ->. rewrite El in Hjm. by apply (Hno j).
        -- injection Ek as <- ->. cbn [app] in Hnd.
           apply NoDup_cons in Hnd as [Hx _]. set_solver.
  - exists (-1). split; [|right; split; [done|]].
    + destruct c as [|c']; [lia|]. cbn [find_in_chain].
      rewrite (shape_entry _ _ _ _ _ _ _ Hs) by done. run_bind. cbn [entry_binding entry_next].
      rewrite Em. cbn [wasm_string_slices_are_equal].
      assert (m ∈ fl) as Hmfl by (by apply (inv_free _ _ _ _ _ _ _ Hinv)).
      destruct (list_elem_of_split _ _ Hmfl) as (l1 & l2 & El).
      pose proof (inv_dll _ _ _ _ _ _ _ Hinv) as Hd. rewrite El in Hd.
      apply dll_suffix in Hd as (? & -> & _ & _). destruct l2 as [|j l2]; cbn [head]; [done|].
      assert (j ∈ fl) as [Hj HBj]%(inv_free _ _ _ _ _ _ _ Hinv) by (rewrite El; set_solver).
      rewrite (shape_entry _ _ _ _ _ _ _ Hs) by done. run_bind.
      by rewrite wasm_hash_entry_is_free_spec, bool_decide_eq_true_2.
    + intros j Hj E. pose proof (Hin j Hj E) as Hjm.
      destruct (inv_chain_cons Hinv m j Hjm) as [l El].
      assert (m ∈ ch m) as Hmm by (rewrite El; set_solver).
      by apply (inv_chain_named Hinv) in Hmm as [_ ?].
Qed.

(** ** The bindings a table holds *)

(** The pairs of a table, in any order; a name may occur twice, since
    insertion does not look for it. *)
Definition hash_binds (h : WasmBindingHash) (l : list (string * Z)) : Prop :=
  (vec_data (entries h) = [] /\ vec_size (entries h) = 0 /\ l = []) \/
  (0 < vec_size (entries h) /\ exists c B n, rep h c B n /\ occ c B ≡ₚ l).

#[global] Instance hash_binds_Permutation h : Proper ((≡ₚ) ==> iff) (hash_binds h).
Proof.
  assert (forall l l', l ≡ₚ l' -> hash_binds h l -> hash_binds h l') as H.
  { intros l l' E [(? & ? & ->)|(? & c & B & n & Hr & Hocc)].
    - left. by apply Permutation_nil_l in E as ->.
    - right. split; [done|]. exists c, B, n. split; [done|]. by rewrite Hocc. }
  intros l l' E. split; apply H; [done|by symmetry].
Qed.

Lemma hash_binds_find h l s : hash_binds h l ->
  exists r, wasm_find_binding_index_by_name h (Some s) = Some r /\
    ((s, r) ∈ l \/ (r = -1 /\ s ∉ l.*1)).
Proof.
  intros [(Hd & _ & ->)|(_ & c & B & n & Hr & Hocc)].
  - unfold wasm_find_binding_index_by_name, hash_capacity. rewrite Hd. exists (-1). split; [done|]. right. set_solver.
  - destruct (find_spec h c B n s Hr) as (r & -> & Hres). exists r. split; [done|].
    destruct Hres as [Hj|[-> Hno]]; [left; by rewrite <- Hocc, occ_elem|right]. split; [done|].
    rewrite <- Hocc. intros ([s' x] & -> & (j & Hj & E)%occ_elem)%list_elem_of_fmap. apply (Hno j Hj). by rewrite E.
Qed.

Definition hash_maps (h : WasmBindingHash) (m : gmap string Z) : Prop := hash_binds h (map_to_list m).

Lemma hash_maps_find h m s :
  hash_maps h m -> wasm_find_binding_index_by_name h (Some s) = Some (default (-1) (m !! s)).
Proof.
  intros (r & -> & [Hr%elem_of_map_to_list|[-> Hs]])%(hash_binds_find _ _ s); [by rewrite Hr|].
  destruct (m !! s) as [x|] eqn:E; [|done]. exfalso. apply Hs, list_elem_of_fmap. exists (s, x).
  by rewrite elem_of_map_to_list.
Qed.

Section insert.
Context (uninit : nat -> WasmBindingHashEntry).

(** After the two resizing tests the table has a free entry and the same
    pairs. *)
Lemma insert_prepare h l :
  hash_binds h l -> Z.of_nat (length l) < 2 ^ 47 ->
  exists h' c B n,
    (h ← (if vec_size (entries h) =? 0 then hash_resize uninit h INITIAL_HASH_CAPACITY else Some h);
     match free_head h with
     | None => hash_resize uninit h (u64 (Z.of_nat (hash_capacity h) * 2))
     | Some _ => Some h
     end) = Some h' /\ 0 <= vec_size (entries h') /\ rep h' c B (S n) /\ occ c B ≡ₚ l.
Proof.
  intros [(Hd & Hsz & ->)|(Hsz & c & B & n & Hr & Hocc)] Hm.
  - rewrite Hsz. cbn [Z.eqb].
    destruct (hash_resize_spec uninit h INITIAL_HASH_CAPACITY) as (h1 & c & B & n & -> & Hsz1 & Hc & Hr & Hocc);
      [done|by rewrite Hd|].
    rewrite Hd in Hocc. cbn [entry_pairs omap list_omap] in Hocc.
    pose proof (rep_count _ _ _ _ Hr) as Hcount. rewrite Hocc in Hcount. cbn [length] in Hcount.
    unfold INITIAL_HASH_CAPACITY in Hc. destruct n as [|n]; [lia|]. run_bind.
    pose proof Hr as (fh & X & P & fl & ch & (_ & Hfh & _) & Hinv & Hfl).
    rewrite Hfh, (inv_fh _ _ _ _ _ _ _ Hinv). destruct fl as [|f fl]; [done|]. cbn [head].
    exists h1, c, B, n. split; [done|]. split; [lia|]. done.
  - rewrite (proj2 (Z.eqb_neq _ _)) by lia. run_bind.
    pose proof Hr as (fh & X & P & fl & ch & Hs & Hinv & Hfl). pose proof Hs as (Hcap & Hfh & _).
    rewrite Hfh, (inv_fh _ _ _ _ _ _ _ Hinv). destruct fl as [|f fl]; cbn [head length] in *.
    + pose proof (rep_count _ _ _ _ Hr) as Hcount. rewrite Hfl, Hocc in Hcount.
      pose proof (inv_cap _ _ _ _ _ _ _ Hinv) as Hc0.
      rewrite Hcap, wrap_id by (unfold in_u; zpow; lia).
      pose proof (shape_entry_pairs _ _ _ _ _ _ Hs) as Ep.
      destruct (hash_resize_spec uninit h (Z.of_nat c * 2))
        as (h1 & c1 & B1 & n1 & -> & Hsz1 & Hc1 & Hr1 & Hocc1).
      * zpow. lia.
      * rewrite Ep, Hocc. lia.
      * rewrite Ep, Hocc in Hocc1. pose proof (rep_count _ _ _ _ Hr1) as Hcount1.
        rewrite Hocc1 in Hcount1. destruct n1 as [|n1]; [lia|].
        exists h1, c1, B1, n1. split; [done|]. split; [lia|]. done.
    + exists h, c, B, (length fl). split; [done|]. split; [lia|]. by rewrite <- Hfl.
Qed.

(** Insertion adds a pair, whether or not the name is bound. *)
Lemma hash_binds_insert h l s x :
  hash_binds h l -> Z.of_nat (length l) < 2 ^ 47 ->
  exists h', insert_binding_index uninit h (Some s) x = Some h' /\ hash_binds h' ((s, x) :: l).
Proof.
  intros Hh Hm. unfold insert_binding_index, wasm_insert_binding.
  destruct (insert_prepare h l Hh Hm) as (h1 & c & B & n & E1 & Hsz1 & Hr1 & Hocc1).
  destruct (if vec_size (entries h) =? 0 then _ else _) as [h0|]; [|done].
  cbn [mbind option_bind] in *. rewrite E1. run_bind.
  destruct (hash_new_entry_spec h1 c B n (Some s) s Hr1 eq_refl)
    as (h2 & i & B2 & -> & Hsz2 & Hi & Hr2 & HB2 & Hocc2). run_bind.
  set (h3 := mkHash _ _).
  assert (rep h3 c B2 n) as Hr3 by exact Hr2.
  pose proof Hr3 as (fh & X & P & fl & ch & Hs3 & _ & _).
  rewrite (shape_entry _ _ _ _ _ _ _ Hs3 Hi). run_bind. cbn [entry_binding]. rewrite HB2.
  cbn [binding_name].
  destruct (rep_set_binding h3 c B2 n i (mkBinding (Some s) x) Hr3 Hi) as (h4 & -> & Hsz4 & Hr4);
    [by rewrite HB2|].
  exists h4. split; [done|]. right. split; [rewrite Hsz4; cbn [h3 entries vec_size]; lia|].
  exists c, (<[i:=mkBinding (Some s) x]> B2), n. split; [done|].
  pose proof (occ_insert c B2 i (mkBinding (Some s) x) Hi) as Hocc4. rewrite HB2, Hocc2 in Hocc4.
  cbn [pair_of binding_name binding_index app] in Hocc4.
  rewrite Permutation_swap in Hocc4. apply Permutation_cons_inv in Hocc4.
  by rewrite Hocc4, Hocc1.
Qed.

Lemma hash_maps_insert h m s x :
  hash_maps h m -> m !! s = None -> Z.of_nat (size m) < 2 ^ 47 ->
  exists h', insert_binding_index uninit h (Some s) x = Some h' /\ hash_maps h' (<[s:=x]> m).
Proof.
  intros Hh Hs Hm. destruct (hash_binds_insert h _ s x Hh) as (h' & E & Hh'); [by rewrite length_map_to_list|].
  exists h'. split; [done|]. unfold hash_maps. by rewrite map_to_list_insert.
Qed.

(** C19 - the hash table implements a finite map from names to indices: the
    zeroed table is the empty map; a search returns the index bound to the
    name and -1 for a name that is not bound; and binding a new name, with the
    resizing and the moving of displaced entries this may take, never fails an
    assertion or follows a null pointer and yields the map with that one
    binding added. *)
Theorem binding_hash_refines_map h m s :
  hash_maps empty_hash ∅ /\
  (hash_maps h m ->
   wasm_find_binding_index_by_name h (Some s) = Some (default (-1) (m !! s)) /\
   (m !! s = None -> Z.of_nat (size m) < 2 ^ 47 -> forall x,
    exists h', insert_binding_index uninit h (Some s) x = Some h' /\ hash_maps h' (<[s:=x]> m))).
Proof.
  split; [by left|]. intros Hh. split; [by apply hash_maps_find|]. intros. by apply hash_maps_insert.
Qed.
End insert.

(** Memory fresh from the allocator, for the concrete runs. *)
Definition junk_entry (i : nat) : WasmBindingHashEntry :=
  mkEntry (mkBinding (Some "junk"%string) 77) (Some i) (Some (S i)).

(** The bindings [names] to 0, 1, ... in a new table. *)
Definition bind_all (names : list string) : option WasmBindingHash :=
  foldl (fun h p => h ← h; insert_binding_index junk_entry h (Some p.2) (Z.of_nat p.1))
    (Some empty_hash) (imap pair names).

Lemma binding_hash_refines_map_witness :
  exists h', insert_binding_index junk_entry empty_hash (Some "main"%string) 5 = Some h' /\
    hash_maps h' (<["main"%string := 5]> ∅) /\
    wasm_find_binding_index_by_name h' (Some "main"%string) = Some 5.
Proof.
  pose proof (binding_hash_refines_map junk_entry) as H.
  destruct (proj2 (H empty_hash ∅ "main"%string)) as [_ Hi]; [exact (proj1 (H empty_hash ∅ "main"%string))|].
  destruct (Hi eq_refl ltac:(vm_compute; reflexivity) 5) as (h' & E & Hm).
  exists h'. split; [exact E|]. split; [exact Hm|].
  destruct (proj2 (H h' _ "main"%string) Hm) as [-> _]. reflexivity.
Defined.

(** Ten names, which takes a resize from 8 to 16 entries and moves displaced
    entries: each is found under its index. *)
Example bind_all_finds :
  let names := ["a"; "b"; "c"; "d"; "e"; "f"; "g"; "h"; "i"; "j"]%string in
  (h ← bind_all names; mapM (fun s => wasm_find_binding_index_by_name h (Some s)) names)
  = Some [0; 1; 2; 3; 4; 5; 6; 7; 8; 9].
Proof. vm_compute. reflexivity. Qed.

(** [wasm_remove_binding] clears the entry whose position in the table is
    the number bound to the name, not the entry that holds the name: after
    removing [b] from a table that binds [a] to 0 and [b] to 1, [b] is still
    found; and when the number bound is beyond the table the write is outside
    it. *)
Theorem remove_binding_wrong_entry :
  (h ← bind_all ["a"; "b"]%string; h ← wasm_remove_binding h (Some "b"%string);
   wasm_find_binding_index_by_name h (Some "b"%string)) = Some 1 /\
  (h ← insert_binding_index junk_entry empty_hash (Some "a"%string) 100;
   wasm_remove_binding h (Some "a"%string)) = None.
Proof. split; vm_compute; reflexivity. Qed.
