(* ===== verification/Ast.v ===== *)
(** * The syntax tree (src/src/ast.h, ast.c)

    The structures of ast.h and the lookups of ast.c.  A linked list of
    expressions or module fields is a list, a union with its tag an inductive
    type.  Source locations only feed messages and are left out.  The vectors
    a module caches ([funcs], [globals], ...) hold pointers into its fields,
    in field order; they are the views [module_funcs], ... of the field list,
    so that a change to a field is seen through them. *)

From S2P Require Import Prelude Opcode Vector BindingHash.

(** Conversion of an [int64_t] to [int]. *)
Definition to_int (x : Z) : Z := to_signed 32 (u32 x).

Inductive WasmVar : Type :=
  | VAR_INDEX (index : Z)
  | VAR_NAME (name : string).

(** The bits of a constant, of the width of its type. *)
Record WasmConst : Type := mkConst {
  const_type : WasmType;
  const_bits : Z
}.

Definition WasmTypeVector : Type := list WasmType.
Definition WasmBlockSignature : Type := WasmTypeVector.
Definition WasmLabel : Type := WasmStringSlice.

(** [WasmExpr]; the members of [WasmBlock] are arguments of the constructors. *)
Inductive WasmExpr : Type :=
  | EXPR_BINARY (opcode : WasmOpcode)
  | EXPR_BLOCK (label : WasmLabel) (sig : WasmBlockSignature) (first : list WasmExpr)
  | EXPR_BR (var : WasmVar)
  | EXPR_BR_IF (var : WasmVar)
  | EXPR_BR_TABLE (targets : list WasmVar) (default_target : WasmVar)
  | EXPR_CALL (var : WasmVar)
  | EXPR_CALL_INDIRECT (var : WasmVar)
  | EXPR_COMPARE (opcode : WasmOpcode)
  | EXPR_CONST (const_ : WasmConst)
  | EXPR_CONVERT (opcode : WasmOpcode)
  | EXPR_CURRENT_MEMORY
  | EXPR_DROP
  | EXPR_GET_GLOBAL (var : WasmVar)
  | EXPR_GET_LOCAL (var : WasmVar)
  | EXPR_GROW_MEMORY
  | EXPR_IF (label : WasmLabel) (sig : WasmBlockSignature) (true_ false_ : list WasmExpr)
  | EXPR_LOAD (opcode : WasmOpcode) (align offset : Z)
  | EXPR_LOOP (label : WasmLabel) (sig : WasmBlockSignature) (first : list WasmExpr)
  | EXPR_NOP
  | EXPR_RETURN
  | EXPR_SELECT
  | EXPR_SET_GLOBAL (var : WasmVar)
  | EXPR_SET_LOCAL (var : WasmVar)
  | EXPR_STORE (opcode : WasmOpcode) (align offset : Z)
  | EXPR_TEE_LOCAL (var : WasmVar)
  | EXPR_UNARY (opcode : WasmOpcode)
  | EXPR_UNREACHABLE.

(** Induction through the lists of a block. *)
Section expr_ind.
Context (Q : WasmExpr -> Prop).
Hypothesis Hblock : forall l s es, Forall Q es -> Q (EXPR_BLOCK l s es).
Hypothesis Hloop : forall l s es, Forall Q es -> Q (EXPR_LOOP l s es).
Hypothesis Hif : forall l s es fs, Forall Q es -> Forall Q fs -> Q (EXPR_IF l s es fs).
Hypothesis Hflat : forall e,
  match e with EXPR_BLOCK _ _ _ | EXPR_LOOP _ _ _ | EXPR_IF _ _ _ _ => True | _ => Q e end.

Fixpoint WasmExpr_nested_ind (e : WasmExpr) : Q e :=
  let list_ind := fix go (l : list WasmExpr) : Forall Q l :=
    match l with
    | [] => Forall_nil_2 Q
    | x :: l' => Forall_cons_2 Q x l' (WasmExpr_nested_ind x) (go l')
    end in
  match e as e0 return
    match e0 with EXPR_BLOCK _ _ _ | EXPR_LOOP _ _ _ | EXPR_IF _ _ _ _ => True | _ => Q e0 end -> Q e0
  with
  | EXPR_BLOCK l s es => fun _ => Hblock l s es (list_ind es)
  | EXPR_LOOP l s es => fun _ => Hloop l s es (list_ind es)
  | EXPR_IF l s es fs => fun _ => Hif l s es fs (list_ind es) (list_ind fs)
  | _ => fun H => H
  end (Hflat e).
End expr_ind.

(** The lists inside an expression: the first, and the [else] part of an [if]. *)
Definition body_of (e : WasmExpr) (else_ : bool) : option (list WasmExpr) :=
  match e, else_ with
  | EXPR_BLOCK _ _ es, false | EXPR_LOOP _ _ es, false | EXPR_IF _ _ es _, false => Some es
  | EXPR_IF _ _ _ fs, true => Some fs
  | _, _ => None
  end.

Definition with_body (e : WasmExpr) (else_ : bool) (es : list WasmExpr) : WasmExpr :=
  match e, else_ with
  | EXPR_BLOCK l s _, false => EXPR_BLOCK l s es
  | EXPR_LOOP l s _, false => EXPR_LOOP l s es
  | EXPR_IF l s _ fs, false => EXPR_IF l s es fs
  | EXPR_IF l s ts _, true => EXPR_IF l s ts es
  | _, _ => e
  end.

Record WasmFuncSignature : Type := mkFuncSignature {
  param_types : WasmTypeVector;
  result_types : WasmTypeVector
}.

Record WasmFuncType : Type := mkFuncType {
  func_type_name : WasmStringSlice;
  func_type_sig : WasmFuncSignature
}.

Definition WASM_FUNC_DECLARATION_FLAG_HAS_FUNC_TYPE : Z := 1.
Definition WASM_FUNC_DECLARATION_FLAG_SHARED_SIGNATURE : Z := 2.

Record WasmFuncDeclaration : Type := mkFuncDeclaration {
  decl_flags : Z;
  decl_type_var : WasmVar;
  decl_sig : WasmFuncSignature
}.

Record WasmFunc : Type := mkFunc {
  func_name : WasmStringSlice;
  func_decl : WasmFuncDeclaration;
  func_local_types : WasmTypeVector;
  func_param_bindings : WasmBindingHash;
  func_local_bindings : WasmBindingHash;
  func_first_expr : list WasmExpr
}.

Record WasmGlobal : Type := mkGlobal {
  global_name : WasmStringSlice;
  global_type : WasmType;
  global_mutable : bool;
  global_init_expr : list WasmExpr
}.

Record WasmTable : Type := mkTable {
  table_name : WasmStringSlice;
  table_elem_limits : WasmLimits
}.

Record WasmElemSegment : Type := mkElemSegment {
  elem_table_var : WasmVar;
  elem_offset : list WasmExpr;
  elem_vars : list WasmVar
}.

Record WasmMemory : Type := mkMemory {
  memory_name : WasmStringSlice;
  memory_page_limits : WasmLimits
}.

Record WasmDataSegment : Type := mkDataSegment {
  data_memory_var : WasmVar;
  data_offset : list WasmExpr;
  data_data : list Z
}.

Inductive WasmImportDesc : Type :=
  | IMPORT_FUNC (func : WasmFunc)
  | IMPORT_TABLE (table : WasmTable)
  | IMPORT_MEMORY (memory : WasmMemory)
  | IMPORT_GLOBAL (global : WasmGlobal).

Record WasmImport : Type := mkImport {
  import_module_name : WasmStringSlice;
  import_field_name : WasmStringSlice;
  import_desc : WasmImportDesc
}.

Record WasmExport : Type := mkExport {
  export_name : WasmStringSlice;
  export_kind : WasmExternalKind;
  export_var : WasmVar
}.

Inductive WasmModuleField : Type :=
  | FIELD_FUNC (func : WasmFunc)
  | FIELD_GLOBAL (global : WasmGlobal)
  | FIELD_IMPORT (import : WasmImport)
  | FIELD_EXPORT (export_ : WasmExport)
  | FIELD_FUNC_TYPE (func_type : WasmFuncType)
  | FIELD_TABLE (table : WasmTable)
  | FIELD_ELEM_SEGMENT (elem_segment : WasmElemSegment)
  | FIELD_MEMORY (memory : WasmMemory)
  | FIELD_DATA_SEGMENT (data_segment : WasmDataSegment)
  | FIELD_START (start : WasmVar).

Record WasmModule : Type := mkModule {
  module_name : WasmStringSlice;
  module_fields : list WasmModuleField;
  func_bindings : WasmBindingHash;
  global_bindings : WasmBindingHash;
  export_bindings : WasmBindingHash;
  func_type_bindings : WasmBindingHash;
  table_bindings : WasmBindingHash;
  memory_bindings : WasmBindingHash
}.

(** ** The cached vectors *)

Definition module_funcs (m : WasmModule) : list WasmFunc :=
  omap (fun f => match f with
    | FIELD_FUNC x => Some x
    | FIELD_IMPORT (mkImport _ _ (IMPORT_FUNC x)) => Some x
    | _ => None
    end) (module_fields m).

Definition module_globals (m : WasmModule) : list WasmGlobal :=
  omap (fun f => match f with
    | FIELD_GLOBAL x => Some x
    | FIELD_IMPORT (mkImport _ _ (IMPORT_GLOBAL x)) => Some x
    | _ => None
    end) (module_fields m).

Definition module_tables (m : WasmModule) : list WasmTable :=
  omap (fun f => match f with
    | FIELD_TABLE x => Some x
    | FIELD_IMPORT (mkImport _ _ (IMPORT_TABLE x)) => Some x
    | _ => None
    end) (module_fields m).

Definition module_memories (m : WasmModule) : list WasmMemory :=
  omap (fun f => match f with
    | FIELD_MEMORY x => Some x
    | FIELD_IMPORT (mkImport _ _ (IMPORT_MEMORY x)) => Some x
    | _ => None
    end) (module_fields m).

Definition module_imports (m : WasmModule) : list WasmImport :=
  omap (fun f => match f with FIELD_IMPORT x => Some x | _ => None end) (module_fields m).

Definition module_exports (m : WasmModule) : list WasmExport :=
  omap (fun f => match f with FIELD_EXPORT x => Some x | _ => None end) (module_fields m).

Definition module_func_types (m : WasmModule) : list WasmFuncType :=
  omap (fun f => match f with FIELD_FUNC_TYPE x => Some x | _ => None end) (module_fields m).

Definition module_elem_segments (m : WasmModule) : list WasmElemSegment :=
  omap (fun f => match f with FIELD_ELEM_SEGMENT x => Some x | _ => None end) (module_fields m).

Definition module_data_segments (m : WasmModule) : list WasmDataSegment :=
  omap (fun f => match f with FIELD_DATA_SEGMENT x => Some x | _ => None end) (module_fields m).

(** [module->start] points to the last start field. *)
Definition module_start (m : WasmModule) : option WasmVar :=
  last (omap (fun f => match f with FIELD_START x => Some x | _ => None end) (module_fields m)).

(** [num_func_imports] and the others: the imports counted by kind. *)
Definition num_imports_of (kind : WasmImportDesc -> bool) (m : WasmModule) : nat :=
  length (filter (fun i => kind (import_desc i) = true) (module_imports m)).

Definition num_func_imports : WasmModule -> nat :=
  num_imports_of (fun d => match d with IMPORT_FUNC _ => true | _ => false end).
Definition num_table_imports : WasmModule -> nat :=
  num_imports_of (fun d => match d with IMPORT_TABLE _ => true | _ => false end).
Definition num_memory_imports : WasmModule -> nat :=
  num_imports_of (fun d => match d with IMPORT_MEMORY _ => true | _ => false end).
Definition num_global_imports : WasmModule -> nat :=
  num_imports_of (fun d => match d with IMPORT_GLOBAL _ => true | _ => false end).

(** ** Scripts *)

(** [WasmRawModule]: a parsed module or the bytes of a binary one. *)
Inductive WasmRawModule : Type :=
  | RAW_MODULE_TEXT (text : WasmModule)
  | RAW_MODULE_BINARY (name : WasmStringSlice) (data : list Z).

Inductive WasmActionDesc : Type :=
  | ACTION_INVOKE (name : string) (args : list WasmConst)
  | ACTION_GET (name : string).

Record WasmAction : Type := mkAction {
  action_module_var : WasmVar;
  action_desc : WasmActionDesc
}.

Inductive WasmCommand : Type :=
  | COMMAND_MODULE (module : WasmModule)
  | COMMAND_ACTION (action : WasmAction)
  | COMMAND_REGISTER (module_name : string) (var : WasmVar)
  | COMMAND_ASSERT_MALFORMED (module : WasmRawModule) (text : string)
  | COMMAND_ASSERT_INVALID (module : WasmRawModule) (text : string)
  | COMMAND_ASSERT_UNLINKABLE (module : WasmRawModule) (text : string)
  | COMMAND_ASSERT_UNINSTANTIABLE (module : WasmRawModule) (text : string)
  | COMMAND_ASSERT_RETURN (action : WasmAction) (expected : list WasmConst)
  | COMMAND_ASSERT_RETURN_NAN (action : WasmAction)
  | COMMAND_ASSERT_TRAP (action : WasmAction) (text : string).

Record WasmScript : Type := mkScript {
  script_commands : list WasmCommand;
  module_bindings : WasmBindingHash
}.

(** ** Accessors of ast.h *)

Definition wasm_decl_has_func_type (d : WasmFuncDeclaration) : bool :=
  negb (Z.land (decl_flags d) WASM_FUNC_DECLARATION_FLAG_HAS_FUNC_TYPE =? 0).

(** type-vector.h *)
Fixpoint wasm_type_vectors_are_equal (t1 t2 : WasmTypeVector) : bool :=
  match t1, t2 with
  | [], [] => true
  | a :: t1', b :: t2' => if decide (a = b) then wasm_type_vectors_are_equal t1' t2' else false
  | _, _ => false
  end.

Definition wasm_signatures_are_equal (s1 s2 : WasmFuncSignature) : bool :=
  wasm_type_vectors_are_equal (param_types s1) (param_types s2) &&
  wasm_type_vectors_are_equal (result_types s1) (result_types s2).

Definition wasm_get_num_params (f : WasmFunc) : Z :=
  Z.of_nat (length (param_types (decl_sig (func_decl f)))).

Definition wasm_get_num_results (f : WasmFunc) : Z :=
  Z.of_nat (length (result_types (decl_sig (func_decl f)))).

Definition wasm_get_num_locals (f : WasmFunc) : Z := Z.of_nat (length (func_local_types f)).

Definition wasm_get_num_params_and_locals (f : WasmFunc) : Z :=
  wasm_get_num_params f + wasm_get_num_locals f.

(** [None]: the assertion on the index fails. *)
Definition wasm_get_param_type (f : WasmFunc) (index : Z) : option WasmType :=
  zget (param_types (decl_sig (func_decl f))) index.

Definition wasm_get_local_type (f : WasmFunc) (index : Z) : option WasmType :=
  zget (func_local_types f) index.

(** ** Lookups of ast.c

    [None] is a failed assertion or an access outside an array; a lookup that
    finds nothing gives [Some (-1)] or [Some None]. *)

Definition wasm_get_index_from_var (hash : WasmBindingHash) (var : WasmVar) : option Z :=
  match var with
  | VAR_NAME name => wasm_find_binding_index_by_name hash (Some name)
  | VAR_INDEX index => Some (to_int index)
  end.

Definition wasm_get_export_by_name (m : WasmModule) (name : string) : option (option WasmExport) :=
  index ← wasm_find_binding_index_by_name (export_bindings m) (Some name);
  if index =? -1 then Some None
  else e ← zget (module_exports m) index; Some (Some e).

Definition wasm_get_func_index_by_var (m : WasmModule) (var : WasmVar) : option Z :=
  wasm_get_index_from_var (func_bindings m) var.
Definition wasm_get_global_index_by_var (m : WasmModule) (var : WasmVar) : option Z :=
  wasm_get_index_from_var (global_bindings m) var.
Definition wasm_get_table_index_by_var (m : WasmModule) (var : WasmVar) : option Z :=
  wasm_get_index_from_var (table_bindings m) var.
Definition wasm_get_memory_index_by_var (m : WasmModule) (var : WasmVar) : option Z :=
  wasm_get_index_from_var (memory_bindings m) var.
Definition wasm_get_func_type_index_by_var (m : WasmModule) (var : WasmVar) : option Z :=
  wasm_get_index_from_var (func_type_bindings m) var.

Definition wasm_get_local_index_by_var (f : WasmFunc) (var : WasmVar) : option Z :=
  match var with
  | VAR_INDEX index => Some (to_int index)
  | VAR_NAME name =>
      result ← wasm_find_binding_index_by_name (func_param_bindings f) (Some name);
      if negb (result =? -1) then Some result
      else
        result ← wasm_find_binding_index_by_name (func_local_bindings f) (Some name);
        if result =? -1 then Some result
        else Some (wasm_get_num_params f + result)
  end.

Definition wasm_get_module_index_by_var (s : WasmScript) (var : WasmVar) : option Z :=
  wasm_get_index_from_var (module_bindings s) var.

(** The tail the [wasm_get_*_by_var] functions share: the element, or [NULL]
    when the index is out of range. *)
Definition get_by_index {A} (l : list A) (index : Z) : option A :=
  if (index <? 0) || (Z.of_nat (length l) <=? index) then None else zget l index.

Definition wasm_get_func_by_var (m : WasmModule) (var : WasmVar) : option (option WasmFunc) :=
  index ← wasm_get_index_from_var (func_bindings m) var;
  Some (get_by_index (module_funcs m) index).
Definition wasm_get_global_by_var (m : WasmModule) (var : WasmVar) : option (option WasmGlobal) :=
  index ← wasm_get_index_from_var (global_bindings m) var;
  Some (get_by_index (module_globals m) index).
Definition wasm_get_table_by_var (m : WasmModule) (var : WasmVar) : option (option WasmTable) :=
  index ← wasm_get_index_from_var (table_bindings m) var;
  Some (get_by_index (module_tables m) index).
Definition wasm_get_memory_by_var (m : WasmModule) (var : WasmVar) : option (option WasmMemory) :=
  index ← wasm_get_index_from_var (memory_bindings m) var;
  Some (get_by_index (module_memories m) index).
Definition wasm_get_func_type_by_var (m : WasmModule) (var : WasmVar) :
    option (option WasmFuncType) :=
  index ← wasm_get_index_from_var (func_type_bindings m) var;
  Some (get_by_index (module_func_types m) index).

(** The loop of [wasm_get_func_type_index_by_sig], from index [i]. *)
Fixpoint find_func_type_by_sig (l : list WasmFuncType) (i : Z) (sig : WasmFuncSignature) : Z :=
  match l with
  | [] => -1
  | t :: l' =>
      if wasm_signatures_are_equal (func_type_sig t) sig then i
      else find_func_type_by_sig l' (i + 1) sig
  end.

Definition wasm_get_func_type_index_by_sig (m : WasmModule) (sig : WasmFuncSignature) : Z :=
  find_func_type_by_sig (module_func_types m) 0 sig.

Definition wasm_get_func_type_index_by_decl (m : WasmModule) (d : WasmFuncDeclaration) : option Z :=
  if wasm_decl_has_func_type d then wasm_get_func_type_index_by_var m (decl_type_var d)
  else Some (wasm_get_func_type_index_by_sig m (decl_sig d)).

Definition wasm_get_module_by_var (s : WasmScript) (var : WasmVar) : option (option WasmModule) :=
  index ← wasm_get_index_from_var (module_bindings s) var;
  if (index <? 0) || (Z.of_nat (length (script_commands s)) <=? index) then Some None
  else
    c ← zget (script_commands s) index;
    match c with COMMAND_MODULE m => Some (Some m) | _ => None end.

Fixpoint wasm_get_first_module_go (l : list WasmCommand) : option WasmModule :=
  match l with
  | [] => None
  | COMMAND_MODULE m :: _ => Some m
  | _ :: l' => wasm_get_first_module_go l'
  end.

Definition wasm_get_first_module (s : WasmScript) : option WasmModule :=
  wasm_get_first_module_go (script_commands s).

(** The loop of [wasm_make_type_binding_reverse_mapping] over the entries;
    [None] is the failed assertion on the index. *)
Fixpoint reverse_mapping_loop (es : list WasmBindingHashEntry) (names : list WasmStringSlice) :
    option (list WasmStringSlice) :=
  match es with
  | [] => Some names
  | entry :: es =>
      if wasm_hash_entry_is_free entry then reverse_mapping_loop es names
      else
        names ← zset names (u32 (binding_index (entry_binding entry)))
                  (binding_name (entry_binding entry));
        reverse_mapping_loop es names
  end.

(** The name of each parameter or local, by its index; a missing name is
    [NULL]. *)
Definition wasm_make_type_binding_reverse_mapping (types : WasmTypeVector)
    (bindings : WasmBindingHash) : option (list WasmStringSlice) :=
  reverse_mapping_loop (vec_data (entries bindings)) (replicate (length types) None).
