(* ===== verification/StateOpt.v ===== *)
(** * A state monad with failure

    Code that threads a context and may abort on a failed assertion: a
    computation takes a state and gives [None] for the abort, or a value and
    the new state. *)

From S2P Require Import Prelude.

Definition SO (S A : Type) : Type := S -> option (A * S).

Declare Scope so_scope.
Delimit Scope so_scope with so.

Section so.
Context {S : Type}.

Definition so_ret {A} (a : A) : SO S A := fun s => Some (a, s).

Definition so_bind {A B} (m : SO S A) (k : A -> SO S B) : SO S B := fun s =>
  match m s with Some (a, s') => k a s' | None => None end.

Definition so_fail {A} : SO S A := fun _ => None.
Definition so_get : SO S S := fun s => Some (s, s).
Definition so_put (s : S) : SO S unit := fun _ => Some (tt, s).
Definition so_modify (f : S -> S) : SO S unit := fun s => Some (tt, f s).

(** [assert(b)]. *)
Definition so_assert (b : bool) : SO S unit := if b then so_ret tt else so_fail.

(** The value of an access the code does not check. *)
Definition so_lift {A} (o : option A) : SO S A := fun s =>
  match o with Some a => Some (a, s) | None => None end.

(** [for (i = 0; i < n; ++i) f(l[i]);] *)
Fixpoint so_for {A} (f : A -> SO S unit) (l : list A) : SO S unit :=
  match l with
  | [] => so_ret tt
  | x :: l' => so_bind (f x) (fun _ => so_for f l')
  end.

(** The same for a loop that writes [l[i] = f(l[i])]. *)
Fixpoint so_map {A B} (f : A -> SO S B) (l : list A) : SO S (list B) :=
  match l with
  | [] => so_ret []
  | x :: l' => so_bind (f x) (fun y => so_bind (so_map f l') (fun ys => so_ret (y :: ys)))
  end.

(** The same with the index, from [i]. *)
Fixpoint so_fori {A} (f : nat -> A -> SO S unit) (i : nat) (l : list A) : SO S unit :=
  match l with
  | [] => so_ret tt
  | x :: l' => so_bind (f i x) (fun _ => so_fori f (Datatypes.S i) l')
  end.
End so.

Notation "x <- m ;; k" := (so_bind m%so (fun x => k%so))
  (at level 100, m at next level, right associativity) : so_scope.
Notation "'let*' p := m ;; k" := (so_bind m%so (fun x => match x with p => k%so end))
  (at level 100, p pattern, m at next level, right associativity) : so_scope.
Notation "m ;; k" := (so_bind m%so (fun _ => k%so))
  (at level 100, right associativity) : so_scope.

Lemma so_bind_assoc {T A B D} (m : SO T A) (k : A -> SO T B) (k' : B -> SO T D) s :
  so_bind (so_bind m k) k' s = so_bind m (fun a => so_bind (k a) k') s.
Proof. unfold so_bind. by destruct (m s) as [[a s']|]. Qed.

Lemma so_bind_lift {T A B} (a : A) (k : A -> SO T B) : so_bind (so_lift (Some a)) k = k a.
Proof. done. Qed.

Lemma so_bind_ext {T A B} (m : SO T A) (k k' : A -> SO T B) s :
  (forall a s', k a s' = k' a s') -> so_bind m k s = so_bind m k' s.
Proof. intros H. unfold so_bind. destruct (m s) as [[a s']|]; [apply H|done]. Qed.
