(* ===== verification/StateErr.v ===== *)
(** * A state monad with errors and failure

    Callbacks return a [WasmResult] and leave early with [CHECK_RESULT]: a
    computation takes a state and gives [None] for undefined behaviour, or a
    new state with [Some] value for [WASM_OK] and [None] for [WASM_ERROR]. *)

From S2P Require Import Prelude StateOpt.

Definition SE (S A : Type) : Type := SO S (option A).

Declare Scope se_scope.
Delimit Scope se_scope with se.

Section se.
Context {S : Type}.

Definition se_ret {A} (a : A) : SE S A := so_ret (Some a).

(** [CHECK_RESULT(m); k] *)
Definition se_bind {A B} (m : SE S A) (k : A -> SE S B) : SE S B :=
  so_bind m (fun o => match o with Some a => k a | None => so_ret None end).

(** [return WASM_ERROR;] *)
Definition se_error {A} : SE S A := so_ret None.
(** Undefined behaviour, and [abort]. *)
Definition se_undef {A} : SE S A := so_fail.
Definition se_get : SE S S := fun s => Some (Some s, s).
Definition se_modify (f : S -> S) : SE S unit := fun s => Some (Some tt, f s).
(** [assert(b)]. *)
Definition se_assert (b : bool) : SE S unit := if b then se_ret tt else se_undef.
(** The value of an access the code does not check. *)
Definition se_lift {A} (o : option A) : SE S A :=
  match o with Some a => se_ret a | None => se_undef end.
(** [if (b) { print_error(...); return WASM_ERROR; }] *)
Definition se_error_if (b : bool) : SE S unit := if b then se_error else se_ret tt.

(** [for (i = 0; i < n; ++i) CHECK_RESULT(f(l[i]));] *)
Fixpoint se_for {A} (f : A -> SE S unit) (l : list A) : SE S unit :=
  match l with
  | [] => se_ret tt
  | x :: l' => se_bind (f x) (fun _ => se_for f l')
  end.

(** The callback's result and state. *)
Definition se_result (m : SE S unit) : S -> option (WasmResult * S) := fun s =>
  match m s with
  | Some (Some _, s') => Some (WASM_OK, s')
  | Some (None, s') => Some (WASM_ERROR, s')
  | None => None
  end.
End se.

Notation "x <- m ;; k" := (se_bind m%se (fun x => k%se))
  (at level 100, m at next level, right associativity) : se_scope.
Notation "m ;; k" := (se_bind m%se (fun _ => k%se))
  (at level 100, right associativity) : se_scope.

Section laws.
Context {S : Type}.

Lemma se_bind_assoc {A B D} (m : SE S A) (k : A -> SE S B) (k' : B -> SE S D) s :
  se_bind (se_bind m k) k' s = se_bind m (fun a => se_bind (k a) k') s.
Proof. unfold se_bind, so_bind. destruct (m s) as [[[a|] s']|]; done. Qed.

Lemma se_bind_ret {A B} (a : A) (k : A -> SE S B) : se_bind (se_ret a) k = k a.
Proof. done. Qed.

Lemma se_bind_get {B} (k : S -> SE S B) s : se_bind se_get k s = k s s.
Proof. done. Qed.

Lemma se_for_app {A} (f : A -> SE S unit) (l1 l2 : list A) s :
  se_for f (l1 ++ l2) s = se_bind (se_for f l1) (fun _ => se_for f l2) s.
Proof.
  revert s. induction l1 as [|x l1 IH]; intros s; [done|]. cbn [app se_for].
  rewrite se_bind_assoc. unfold se_bind, so_bind.
  destruct (f x s) as [[[[]|] s']|]; [|done|done]. apply IH.
Qed.
End laws.
