(* ===== verification/Visitor.v ===== *)
(** * The visitor of expressions (src/src/ast.h, ast.c)

    [WasmExprVisitor] is a table of callbacks; a member that is [NULL] is left
    out.  A callback is handed the expression in place and gives it back
    changed: it may change labels and variables, the lists inside are the
    visitor's to walk. *)

From S2P Require Import Prelude Opcode Ast StateOpt.

#[local] Open Scope so_scope.

Inductive VisitorMember : Set :=
| on_binary_expr | begin_block_expr | end_block_expr | on_br_expr | on_br_if_expr
| on_br_table_expr | on_call_expr | on_call_indirect_expr | on_compare_expr | on_const_expr
| on_convert_expr | on_current_memory_expr | on_drop_expr | on_get_global_expr
| on_get_local_expr | on_grow_memory_expr | begin_if_expr | after_if_true_expr | end_if_expr
| on_load_expr | begin_loop_expr | end_loop_expr | on_nop_expr | on_return_expr
| on_select_expr | on_set_global_expr | on_set_local_expr | on_store_expr
| on_tee_local_expr | on_unary_expr | on_unreachable_expr.

Section visitor.
Context {S : Type}.

Definition WasmExprVisitor : Type := VisitorMember -> option (WasmExpr -> SO S (WasmResult * WasmExpr)).

(** [CHECK_RESULT]: what was changed so far stays when the visit is given up. *)
Definition check_result {A} (r : WasmResult) (changed : A) (k : SO S (WasmResult * A)) : SO S (WasmResult * A) :=
  if WASM_FAILED r then so_ret (WASM_ERROR, changed) else k.

(** The loop of [wasm_visit_expr_list]. *)
Fixpoint visit_loop (visit : WasmExpr -> SO S (WasmResult * WasmExpr)) (first : list WasmExpr) :
    SO S (WasmResult * list WasmExpr) :=
  match first with
  | [] => so_ret (WASM_OK, [])
  | expr :: rest =>
      let* (r, expr) := visit expr ;;
      check_result r (expr :: rest)
        (let* (r, rest) := visit_loop visit rest ;; so_ret (r, expr :: rest))
  end.

Context (visitor : WasmExprVisitor).

Definition CALLBACK (member : VisitorMember) (expr : WasmExpr) : SO S (WasmResult * WasmExpr) :=
  match visitor member with Some f => f expr | None => so_ret (WASM_OK, expr) end.

Fixpoint visit_expr (expr : WasmExpr) : SO S (WasmResult * WasmExpr) :=
  match expr with
  | EXPR_BINARY _ => CALLBACK on_binary_expr expr
  | EXPR_BLOCK _ _ first =>
      let* (r, expr) := CALLBACK begin_block_expr expr ;;
      check_result r expr (
        let* (r, first) := visit_loop visit_expr first ;;
        let expr := with_body expr false first in
        check_result r expr (CALLBACK end_block_expr expr))
  | EXPR_BR _ => CALLBACK on_br_expr expr
  | EXPR_BR_IF _ => CALLBACK on_br_if_expr expr
  | EXPR_BR_TABLE _ _ => CALLBACK on_br_table_expr expr
  | EXPR_CALL _ => CALLBACK on_call_expr expr
  | EXPR_CALL_INDIRECT _ => CALLBACK on_call_indirect_expr expr
  | EXPR_COMPARE _ => CALLBACK on_compare_expr expr
  | EXPR_CONST _ => CALLBACK on_const_expr expr
  | EXPR_CONVERT _ => CALLBACK on_convert_expr expr
  | EXPR_CURRENT_MEMORY => CALLBACK on_current_memory_expr expr
  | EXPR_DROP => CALLBACK on_drop_expr expr
  | EXPR_GET_GLOBAL _ => CALLBACK on_get_global_expr expr
  | EXPR_GET_LOCAL _ => CALLBACK on_get_local_expr expr
  | EXPR_GROW_MEMORY => CALLBACK on_grow_memory_expr expr
  | EXPR_IF _ _ true_ false_ =>
      let* (r, expr) := CALLBACK begin_if_expr expr ;;
      check_result r expr (
        let* (r, true_) := visit_loop visit_expr true_ ;;
        let expr := with_body expr false true_ in
        check_result r expr (
          let* (r, expr) := CALLBACK after_if_true_expr expr ;;
          check_result r expr (
            let* (r, false_) := visit_loop visit_expr false_ ;;
            let expr := with_body expr true false_ in
            check_result r expr (CALLBACK end_if_expr expr))))
  | EXPR_LOAD _ _ _ => CALLBACK on_load_expr expr
  | EXPR_LOOP _ _ first =>
      let* (r, expr) := CALLBACK begin_loop_expr expr ;;
      check_result r expr (
        let* (r, first) := visit_loop visit_expr first ;;
        let expr := with_body expr false first in
        check_result r expr (CALLBACK end_loop_expr expr))
  | EXPR_NOP => CALLBACK on_nop_expr expr
  | EXPR_RETURN => CALLBACK on_return_expr expr
  | EXPR_SELECT => CALLBACK on_select_expr expr
  | EXPR_SET_GLOBAL _ => CALLBACK on_set_global_expr expr
  | EXPR_SET_LOCAL _ => CALLBACK on_set_local_expr expr
  | EXPR_STORE _ _ _ => CALLBACK on_store_expr expr
  | EXPR_TEE_LOCAL _ => CALLBACK on_tee_local_expr expr
  | EXPR_UNARY _ => CALLBACK on_unary_expr expr
  | EXPR_UNREACHABLE => CALLBACK on_unreachable_expr expr
  end.

Definition wasm_visit_expr_list (first : list WasmExpr) : SO S (WasmResult * list WasmExpr) :=
  visit_loop visit_expr first.

Definition wasm_visit_func (func : WasmFunc) : SO S (WasmResult * WasmFunc) :=
  let* (r, first_expr) := wasm_visit_expr_list (func_first_expr func) ;;
  so_ret (r, mkFunc (func_name func) (func_decl func) (func_local_types func) (func_param_bindings func)
               (func_local_bindings func) first_expr).
End visitor.
Arguments WasmExprVisitor : clear implicits.
