(* ===== verification/ResolveNames.v ===== *)
(** * Resolving names (src/src/resolve-names.c)

    The pass between the parser and everything that follows: names of
    functions, locals, labels, ... become indices, in place.  An error is
    reported and the pass goes on; what could not be resolved keeps its name. *)

From S2P Require Import Prelude Opcode Vector BindingHash Ast StateOpt Visitor.

#[local] Open Scope so_scope.

(** [labels] has the innermost label first.  Only the bindings of the current
    module and the declaration of the current function are looked at, which the
    pass does not change. *)
Record Context : Type := mkContext {
  current_module : option WasmModule;
  current_func : option WasmFunc;
  labels : list WasmLabel;
  result : WasmResult
}.

Definition RM (A : Type) : Type := SO Context A.

Definition print_error : RM unit :=
  so_modify (fun c => mkContext (current_module c) (current_func c) (labels c) WASM_ERROR).

Definition set_current_module (m : option WasmModule) : RM unit :=
  so_modify (fun c => mkContext m (current_func c) (labels c) (result c)).

Definition set_current_func (f : option WasmFunc) : RM unit :=
  so_modify (fun c => mkContext (current_module c) f (labels c) (result c)).

Definition set_labels (ls : list WasmLabel) : RM unit :=
  so_modify (fun c => mkContext (current_module c) (current_func c) ls (result c)).

Definition push_label (label : WasmLabel) : RM unit := c <- so_get ;; set_labels (label :: labels c).

Definition pop_label : RM unit :=
  c <- so_get ;; so_assert (negb (bool_decide (labels c = []))) ;; set_labels (tail (labels c)).

(** ** Duplicate bindings *)

(** The inner loop: each entry [b] after [a] in its chain.  A chain has at most
    as many entries as the table. *)
Fixpoint check_duplicates_of (fuel : nat) (bindings : WasmBindingHash) (a_name : WasmStringSlice)
    (b : option nat) : RM unit :=
  match b with
  | None => so_ret tt
  | Some b =>
      match fuel with
      | O => so_fail
      | S fuel =>
          e <- so_lift (entry_at bindings b) ;;
          (if wasm_string_slices_are_equal a_name (binding_name (entry_binding e)) then print_error else so_ret tt) ;;
          check_duplicates_of fuel bindings a_name (entry_next e)
      end
  end.

(** The loop over the entries [a] of a chain. *)
Fixpoint check_chain (fuel : nat) (bindings : WasmBindingHash) (a : option nat) : RM unit :=
  match a with
  | None => so_ret tt
  | Some a =>
      match fuel with
      | O => so_fail
      | S fuel =>
          e <- so_lift (entry_at bindings a) ;;
          check_duplicates_of fuel bindings (binding_name (entry_binding e)) (entry_next e) ;;
          check_chain fuel bindings (entry_next e)
      end
  end.

Definition check_duplicate_bindings (bindings : WasmBindingHash) : RM unit :=
  so_fori (fun i entry =>
    if wasm_hash_entry_is_free entry then so_ret tt
    else match entry_prev entry with
         | Some _ => so_ret tt
         | None => check_chain (hash_capacity bindings) bindings (Some i)
         end) 0 (vec_data (entries bindings)).

(** ** Variables *)

(** The loop of [resolve_label_var] from the innermost label, at depth [depth]. *)
Fixpoint find_label (ls : list WasmLabel) (depth : Z) (name : string) : option Z :=
  match ls with
  | [] => None
  | label :: ls =>
      if wasm_string_slices_are_equal label (Some name) then Some depth else find_label ls (depth + 1) name
  end.

Definition resolve_label_var (var : WasmVar) : RM WasmVar :=
  match var with
  | VAR_NAME name =>
      c <- so_get ;;
      match find_label (labels c) 0 name with
      | Some index => so_ret (VAR_INDEX index)
      | None => print_error ;; so_ret var
      end
  | VAR_INDEX _ => so_ret var
  end.

Definition resolve_var (bindings : WasmBindingHash) (var : WasmVar) : RM WasmVar :=
  match var with
  | VAR_NAME _ =>
      index <- so_lift (wasm_get_index_from_var bindings var) ;;
      if index =? -1 then print_error ;; so_ret var else so_ret (VAR_INDEX index)
  | VAR_INDEX _ => so_ret var
  end.

Definition resolve_module_var (bindings : WasmModule -> WasmBindingHash) (var : WasmVar) : RM WasmVar :=
  c <- so_get ;; m <- so_lift (current_module c) ;; resolve_var (bindings m) var.

Definition resolve_func_var : WasmVar -> RM WasmVar := resolve_module_var func_bindings.
Definition resolve_global_var : WasmVar -> RM WasmVar := resolve_module_var global_bindings.
Definition resolve_func_type_var : WasmVar -> RM WasmVar := resolve_module_var func_type_bindings.
Definition resolve_table_var : WasmVar -> RM WasmVar := resolve_module_var table_bindings.
Definition resolve_memory_var : WasmVar -> RM WasmVar := resolve_module_var memory_bindings.

(** [ctx->current_func] is [NULL] outside functions. *)
Definition resolve_local_var (var : WasmVar) : RM WasmVar :=
  match var with
  | VAR_NAME _ =>
      c <- so_get ;; f <- so_lift (current_func c) ;;
      index <- so_lift (wasm_get_local_index_by_var f var) ;;
      if index =? -1 then print_error ;; so_ret var else so_ret (VAR_INDEX index)
  | VAR_INDEX _ => so_ret var
  end.

(** ** The visitor *)

Definition begin_block (expr : WasmExpr) : RM (WasmResult * WasmExpr) :=
  match expr with
  | EXPR_BLOCK label _ _ | EXPR_LOOP label _ _ | EXPR_IF label _ _ _ => push_label label ;; so_ret (WASM_OK, expr)
  | _ => so_fail
  end.

Definition end_block (expr : WasmExpr) : RM (WasmResult * WasmExpr) := pop_label ;; so_ret (WASM_OK, expr).

Definition on_br (expr : WasmExpr) : RM (WasmResult * WasmExpr) :=
  match expr with
  | EXPR_BR var => var <- resolve_label_var var ;; so_ret (WASM_OK, EXPR_BR var)
  | EXPR_BR_IF var => var <- resolve_label_var var ;; so_ret (WASM_OK, EXPR_BR_IF var)
  | _ => so_fail
  end.

Definition on_br_table (expr : WasmExpr) : RM (WasmResult * WasmExpr) :=
  match expr with
  | EXPR_BR_TABLE targets default_target =>
      targets <- so_map resolve_label_var targets ;;
      default_target <- resolve_label_var default_target ;;
      so_ret (WASM_OK, EXPR_BR_TABLE targets default_target)
  | _ => so_fail
  end.

Definition on_call (expr : WasmExpr) : RM (WasmResult * WasmExpr) :=
  match expr with
  | EXPR_CALL var => var <- resolve_func_var var ;; so_ret (WASM_OK, EXPR_CALL var)
  | _ => so_fail
  end.

Definition on_call_indirect (expr : WasmExpr) : RM (WasmResult * WasmExpr) :=
  match expr with
  | EXPR_CALL_INDIRECT var => var <- resolve_func_type_var var ;; so_ret (WASM_OK, EXPR_CALL_INDIRECT var)
  | _ => so_fail
  end.

Definition on_global (expr : WasmExpr) : RM (WasmResult * WasmExpr) :=
  match expr with
  | EXPR_GET_GLOBAL var => var <- resolve_global_var var ;; so_ret (WASM_OK, EXPR_GET_GLOBAL var)
  | EXPR_SET_GLOBAL var => var <- resolve_global_var var ;; so_ret (WASM_OK, EXPR_SET_GLOBAL var)
  | _ => so_fail
  end.

Definition on_local (expr : WasmExpr) : RM (WasmResult * WasmExpr) :=
  match expr with
  | EXPR_GET_LOCAL var => var <- resolve_local_var var ;; so_ret (WASM_OK, EXPR_GET_LOCAL var)
  | EXPR_SET_LOCAL var => var <- resolve_local_var var ;; so_ret (WASM_OK, EXPR_SET_LOCAL var)
  | EXPR_TEE_LOCAL var => var <- resolve_local_var var ;; so_ret (WASM_OK, EXPR_TEE_LOCAL var)
  | _ => so_fail
  end.

(** The visitor [init_context] sets up. *)
Definition visitor : WasmExprVisitor Context := fun member =>
  match member with
  | begin_block_expr | begin_loop_expr | begin_if_expr => Some begin_block
  | end_block_expr | end_loop_expr | end_if_expr => Some end_block
  | on_br_expr | on_br_if_expr => Some on_br
  | on_br_table_expr => Some on_br_table
  | on_call_expr => Some on_call
  | on_call_indirect_expr => Some on_call_indirect
  | on_get_global_expr | on_set_global_expr => Some on_global
  | on_get_local_expr | on_set_local_expr | on_tee_local_expr => Some on_local
  | _ => None
  end.

(** ** Modules *)

Definition visit_func (func : WasmFunc) : RM WasmFunc :=
  set_current_func (Some func) ;;
  decl <- (if wasm_decl_has_func_type (func_decl func) then
             type_var <- resolve_func_type_var (decl_type_var (func_decl func)) ;;
             so_ret (mkFuncDeclaration (decl_flags (func_decl func)) type_var (decl_sig (func_decl func)))
           else so_ret (func_decl func)) ;;
  check_duplicate_bindings (func_param_bindings func) ;;
  check_duplicate_bindings (func_local_bindings func) ;;
  let* (_, func) := wasm_visit_func visitor (mkFunc (func_name func) decl (func_local_types func)
                  (func_param_bindings func) (func_local_bindings func) (func_first_expr func)) ;;
  set_current_func None ;;
  so_ret func.

Definition visit_export (export_ : WasmExport) : RM WasmExport :=
  var <- match export_kind export_ with
         | WASM_EXTERNAL_KIND_FUNC => resolve_func_var (export_var export_)
         | WASM_EXTERNAL_KIND_TABLE => resolve_table_var (export_var export_)
         | WASM_EXTERNAL_KIND_MEMORY => resolve_memory_var (export_var export_)
         | WASM_EXTERNAL_KIND_GLOBAL => resolve_global_var (export_var export_)
         end ;;
  so_ret (mkExport (export_name export_) (export_kind export_) var).

Definition visit_global (global : WasmGlobal) : RM WasmGlobal :=
  let* (_, init_expr) := wasm_visit_expr_list visitor (global_init_expr global) ;;
  so_ret (mkGlobal (global_name global) (global_type global) (global_mutable global) init_expr).

Definition visit_elem_segment (segment : WasmElemSegment) : RM WasmElemSegment :=
  table_var <- resolve_table_var (elem_table_var segment) ;;
  let* (_, offset) := wasm_visit_expr_list visitor (elem_offset segment) ;;
  vars <- so_map resolve_func_var (elem_vars segment) ;;
  so_ret (mkElemSegment table_var offset vars).

Definition visit_data_segment (segment : WasmDataSegment) : RM WasmDataSegment :=
  memory_var <- resolve_memory_var (data_memory_var segment) ;;
  let* (_, offset) := wasm_visit_expr_list visitor (data_offset segment) ;;
  so_ret (mkDataSegment memory_var offset (data_data segment)).

(** The loops of [visit_module] over [module->funcs], ..., whose elements are
    members of the fields; imports have a function or a global as well. *)
Definition visit_func_field (field : WasmModuleField) : RM WasmModuleField :=
  match field with
  | FIELD_FUNC func => func <- visit_func func ;; so_ret (FIELD_FUNC func)
  | FIELD_IMPORT (mkImport m n (IMPORT_FUNC func)) =>
      func <- visit_func func ;; so_ret (FIELD_IMPORT (mkImport m n (IMPORT_FUNC func)))
  | _ => so_ret field
  end.

Definition visit_export_field (field : WasmModuleField) : RM WasmModuleField :=
  match field with
  | FIELD_EXPORT export_ => export_ <- visit_export export_ ;; so_ret (FIELD_EXPORT export_)
  | _ => so_ret field
  end.

Definition visit_global_field (field : WasmModuleField) : RM WasmModuleField :=
  match field with
  | FIELD_GLOBAL global => global <- visit_global global ;; so_ret (FIELD_GLOBAL global)
  | FIELD_IMPORT (mkImport m n (IMPORT_GLOBAL global)) =>
      global <- visit_global global ;; so_ret (FIELD_IMPORT (mkImport m n (IMPORT_GLOBAL global)))
  | _ => so_ret field
  end.

Definition visit_elem_segment_field (field : WasmModuleField) : RM WasmModuleField :=
  match field with
  | FIELD_ELEM_SEGMENT segment => segment <- visit_elem_segment segment ;; so_ret (FIELD_ELEM_SEGMENT segment)
  | _ => so_ret field
  end.

Definition visit_data_segment_field (field : WasmModuleField) : RM WasmModuleField :=
  match field with
  | FIELD_DATA_SEGMENT segment => segment <- visit_data_segment segment ;; so_ret (FIELD_DATA_SEGMENT segment)
  | _ => so_ret field
  end.

Definition is_start (field : WasmModuleField) : bool :=
  match field with FIELD_START _ => true | _ => false end.

(** [module->start] is the last start field. *)
Fixpoint visit_start (fields : list WasmModuleField) : RM (list WasmModuleField) :=
  match fields with
  | [] => so_ret []
  | field :: fields' =>
      if existsb is_start fields' then fields' <- visit_start fields' ;; so_ret (field :: fields')
      else match field with
           | FIELD_START var => var <- resolve_func_var var ;; so_ret (FIELD_START var :: fields')
           | _ => fields' <- visit_start fields' ;; so_ret (field :: fields')
           end
  end.

Definition with_fields (module : WasmModule) (fields : list WasmModuleField) : WasmModule :=
  mkModule (module_name module) fields (func_bindings module) (global_bindings module) (export_bindings module)
    (func_type_bindings module) (table_bindings module) (memory_bindings module).

Definition visit_module (module : WasmModule) : RM WasmModule :=
  set_current_module (Some module) ;;
  check_duplicate_bindings (func_bindings module) ;;
  check_duplicate_bindings (global_bindings module) ;;
  check_duplicate_bindings (export_bindings module) ;;
  check_duplicate_bindings (func_type_bindings module) ;;
  check_duplicate_bindings (table_bindings module) ;;
  check_duplicate_bindings (memory_bindings module) ;;
  fields <- so_map visit_func_field (module_fields module) ;;
  fields <- so_map visit_export_field fields ;;
  fields <- so_map visit_global_field fields ;;
  fields <- so_map visit_elem_segment_field fields ;;
  fields <- so_map visit_data_segment_field fields ;;
  fields <- visit_start fields ;;
  set_current_module None ;;
  so_ret (with_fields module fields).

Definition visit_raw_module (raw_module : WasmRawModule) : RM WasmRawModule :=
  match raw_module with
  | RAW_MODULE_TEXT text => text <- visit_module text ;; so_ret (RAW_MODULE_TEXT text)
  | RAW_MODULE_BINARY _ _ => so_ret raw_module
  end.

Definition visit_command (command : WasmCommand) : RM WasmCommand :=
  match command with
  | COMMAND_MODULE module => module <- visit_module module ;; so_ret (COMMAND_MODULE module)
  | COMMAND_ASSERT_UNLINKABLE module text =>
      module <- visit_raw_module module ;; so_ret (COMMAND_ASSERT_UNLINKABLE module text)
  | COMMAND_ASSERT_UNINSTANTIABLE module text =>
      module <- visit_raw_module module ;; so_ret (COMMAND_ASSERT_UNINSTANTIABLE module text)
  | _ => so_ret command
  end.

Definition visit_script (script : WasmScript) : RM WasmScript :=
  commands <- so_map visit_command (script_commands script) ;;
  so_ret (mkScript commands (module_bindings script)).

Definition init_context : Context := mkContext None None [] WASM_OK.

(** [None]: a failed assertion or a null pointer. *)
Definition wasm_resolve_names_module (module : WasmModule) : option (WasmResult * WasmModule) :=
  '(module, ctx) ← visit_module module init_context; Some (result ctx, module).

Definition wasm_resolve_names_script (script : WasmScript) : option (WasmResult * WasmScript) :=
  '(script, ctx) ← visit_script script init_context; Some (result ctx, script).
