(* ===== verification/Stream.v ===== *)
(** * Output streams and writers (src/src/stream.c, writer.c)

    A stream hands data to a writer, a pair of callbacks [write_data] and
    [move_data]: the class [WasmWriter].  The classes [WriterWrites] and
    [WriterMoves] state what a stream's client relies on - that the callbacks
    overwrite, extend and move the bytes written so far - and the two writers
    of writer.c are instances: the memory writer of both, the file writer of
    the first only, since it cannot move data.

    The buffer of the memory writer is a block of [capacity] cells, a cell
    being [None] until it is written.  Log streams and hex dumps only print. *)

From S2P Require Import Prelude StateOpt.

#[local] Open Scope so_scope.

(** ** Writers *)

Class WasmWriter (W : Type) : Type := {
  write_data : Z -> list Z -> SO W WasmResult;
  move_data : Z -> Z -> Z -> SO W WasmResult
}.

Record WasmStream (W : Type) : Type := mkStream {
  stream_writer : W;
  stream_offset : Z;
  stream_result : WasmResult
}.
Arguments mkStream {W} _ _ _.
Arguments stream_writer {W} _.
Arguments stream_offset {W} _.
Arguments stream_result {W} _.

Section stream.
Context {W : Type} `{WasmWriter W}.

Abbreviation St := (SO (WasmStream W)).

Definition wasm_init_stream (writer : W) : WasmStream W := mkStream writer 0 WASM_OK.

(** A callback of the writer; its result becomes the stream's. *)
Definition call_writer (f : SO W WasmResult) : St unit := fun s =>
  match f (stream_writer s) with
  | Some (r, w) => Some (tt, mkStream w (stream_offset s) r)
  | None => None
  end.

Definition add_offset (n : Z) : St unit :=
  so_modify (fun s => mkStream (stream_writer s) (u64 (stream_offset s + n)) (stream_result s)).

Definition wasm_write_data_at (offset : Z) (src : list Z) : St unit :=
  s <- so_get ;;
  if WASM_FAILED (stream_result s) then so_ret tt
  else call_writer (write_data offset src).

Definition wasm_write_data (src : list Z) : St unit :=
  s <- so_get ;;
  wasm_write_data_at (stream_offset s) src ;;
  add_offset (Z.of_nat (length src)).

Definition wasm_move_data (dst_offset src_offset size : Z) : St unit :=
  s <- so_get ;;
  if WASM_FAILED (stream_result s) then so_ret tt
  else call_writer (move_data dst_offset src_offset size).

Definition wasm_write_u8 (value : Z) : St unit :=
  so_assert (value <=? 0xff) ;; wasm_write_data [value].

Definition wasm_write_u32 (value : Z) : St unit := wasm_write_data (le_bytes 4 value).

Definition wasm_write_u64 (value : Z) : St unit := wasm_write_data (le_bytes 8 value).

End stream.

(** ** The memory writer *)

Record WasmOutputBuffer : Type := mkOutputBuffer {
  buf_start : list (option Z);
  buf_size : Z
}.

Definition buf_capacity (b : WasmOutputBuffer) : Z := Z.of_nat (length (buf_start b)).

Definition INITIAL_OUTPUT_BUFFER_CAPACITY : Z := 64 * 1024.

Definition wasm_init_output_buffer (initial_capacity : Z) : option WasmOutputBuffer :=
  if initial_capacity =? 0 then None (* assert *)
  else Some (mkOutputBuffer (replicate (Z.to_nat initial_capacity) None) 0).

Definition wasm_init_mem_writer : option WasmOutputBuffer :=
  wasm_init_output_buffer INITIAL_OUTPUT_BUFFER_CAPACITY.

(** [while (new_capacity < ensure_capacity) new_capacity *= 2;]  A [size_t]
    wraps to 0 within 64 doublings, and the loop then does not end. *)
Fixpoint double_capacity (fuel : nat) (new_capacity ensure_capacity : Z) : option Z :=
  if new_capacity <? ensure_capacity then
    match fuel with
    | O => None
    | S fuel' => double_capacity fuel' (u64 (new_capacity * 2)) ensure_capacity
    end
  else Some new_capacity.

Definition ensure_output_buffer_capacity (ensure_capacity : Z) (b : WasmOutputBuffer) :
    option WasmOutputBuffer :=
  if buf_capacity b <? ensure_capacity then
    if buf_capacity b =? 0 then None (* assert *)
    else
      new_capacity ← double_capacity 64 (u64 (buf_capacity b * 2)) ensure_capacity;
      Some (mkOutputBuffer
              (buf_start b ++
               replicate (Z.to_nat new_capacity - length (buf_start b)) None)
              (buf_size b))
  else Some b.

(** [if (end > buf.size) buf.size = end;] *)
Definition raise_size (end_ : Z) (start : list (option Z)) (b : WasmOutputBuffer) : WasmOutputBuffer :=
  mkOutputBuffer start (if buf_size b <? end_ then end_ else buf_size b).

Definition write_data_to_output_buffer (offset : Z) (data : list Z) : SO WasmOutputBuffer WasmResult :=
  fun b =>
    let end_ := u64 (offset + Z.of_nat (length data)) in
    b ← ensure_output_buffer_capacity end_ b;
    start ← zblit (buf_start b) offset (map Some data);
    Some (WASM_OK, raise_size end_ start b).

Definition move_data_in_output_buffer (dst_offset src_offset size : Z) :
    SO WasmOutputBuffer WasmResult :=
  fun b =>
    let src_end := u64 (src_offset + size) in
    let dst_end := u64 (dst_offset + size) in
    let end_ := if dst_end <? src_end then src_end else dst_end in
    b ← ensure_output_buffer_capacity end_ b;
    moved ← zslice (buf_start b) src_offset size;
    start ← zblit (buf_start b) dst_offset moved;
    Some (WASM_OK, raise_size end_ start b).

#[export] Instance mem_writer : WasmWriter WasmOutputBuffer := {
  write_data := write_data_to_output_buffer;
  move_data := move_data_in_output_buffer
}.

(** The bytes of a finished buffer; [None] if one was never written. *)
Fixpoint all_written (l : list (option Z)) : option (list Z) :=
  match l with
  | [] => Some []
  | x :: l => x ← x; l ← all_written l; Some (x :: l)
  end.

Definition buf_bytes (b : WasmOutputBuffer) : option (list Z) :=
  all_written (take (Z.to_nat (buf_size b)) (buf_start b)).

(** ** The file writer

    [FILE], [fseek] and [fwrite] are libc's; [None] is a failure. *)

Record WasmFileWriter (FILE : Type) : Type := mkFileWriter { file : FILE; file_offset : Z }.
Arguments mkFileWriter {FILE} _ _.
Arguments file {FILE} _.
Arguments file_offset {FILE} _.

Section file_writer.
Context {FILE : Type} (fseek : FILE -> Z -> option FILE) (fwrite : FILE -> list Z -> option FILE).

Definition wasm_init_file_writer_existing (f : FILE) : WasmFileWriter FILE := mkFileWriter f 0.

Definition write_data_to_file (offset : Z) (data : list Z) : SO (WasmFileWriter FILE) WasmResult :=
  fun w =>
    if Z.of_nat (length data) =? 0 then Some (WASM_OK, w)
    else
      match (if negb (offset =? file_offset w)
             then (fun f => mkFileWriter f offset) <$> fseek (file w) offset else Some w) with
      | None => Some (WASM_ERROR, w)
      | Some w =>
          match fwrite (file w) data with
          | None => Some (WASM_ERROR, w)
          | Some f => Some (WASM_OK, mkFileWriter f (u64 (file_offset w + Z.of_nat (length data))))
          end
      end.

Definition move_data_in_file (dst_offset src_offset size : Z) : SO (WasmFileWriter FILE) WasmResult :=
  fun w => if size =? 0 then Some (WASM_OK, w) else Some (WASM_ERROR, w).

Definition file_writer : WasmWriter (WasmFileWriter FILE) := {|
  write_data := write_data_to_file;
  move_data := move_data_in_file
|}.
End file_writer.

(** ** What a client of a writer relies on *)

(** [data] over the bytes from [offset] on, past the end if need be. *)
Definition overwrite {A} (bytes : list A) (offset : Z) (data : list A) : list A :=
  take (Z.to_nat offset) bytes ++ data ++ drop (Z.to_nat offset + length data) bytes.

(** Outputs stay below this size ([offset]s are handled as [uint32_t]). *)
Definition OUTPUT_LIMIT : Z := 2 ^ 32.

Class WriterWrites (W : Type) `{WasmWriter W} (rep : W -> list Z -> Prop) : Prop :=
  write_data_ok w bytes offset data :
    rep w bytes -> 0 <= offset <= Z.of_nat (length bytes) ->
    offset + Z.of_nat (length data) < OUTPUT_LIMIT ->
    exists w', write_data offset data w = Some (WASM_OK, w') /\ rep w' (overwrite bytes offset data).

Class WriterMoves (W : Type) `{WasmWriter W} (rep : W -> list Z -> Prop) : Prop :=
  move_data_ok w bytes dst src size :
    rep w bytes -> 0 <= dst <= Z.of_nat (length bytes) -> 0 <= src -> 0 <= size ->
    src + size <= Z.of_nat (length bytes) -> dst + size < OUTPUT_LIMIT -> src + size < OUTPUT_LIMIT ->
    exists w', move_data dst src size w = Some (WASM_OK, w') /\
      rep w' (overwrite bytes dst (take (Z.to_nat size) (drop (Z.to_nat src) bytes))).

(** ** The memory writer keeps its promises *)

(** The buffer holds exactly [bytes]. *)
Definition mem_rep (b : WasmOutputBuffer) (bytes : list Z) : Prop :=
  buf_size b = Z.of_nat (length bytes) /\
  take (length bytes) (buf_start b) = map Some bytes /\
  0 < buf_capacity b < 2 ^ 62 /\ buf_size b <= buf_capacity b.

Lemma double_capacity_spec fuel c d : 1 <= c -> c < 2 * d -> 2 * d <= 2 ^ 62 ->
  d <= c * 2 ^ Z.of_nat fuel ->
  exists c', double_capacity fuel c d = Some c' /\ d <= c' < 2 * d.
Proof.
  revert c. induction fuel as [|fuel IH]; intros c Hc Hlt Hd Hf; cbn [double_capacity].
  - rewrite (proj2 (Z.ltb_ge _ _)) by lia. exists c. split; [done|lia].
  - destruct (Z.ltb_spec c d) as [Hcd|Hcd]; [|by exists c].
    rewrite wrap_id by (unfold in_u; zpow; lia).
    apply IH; [lia|lia|lia|]. rewrite Nat2Z.inj_succ, Z.pow_succ_r in Hf by lia. lia.
Qed.

Lemma ensure_capacity_ok b bytes n : mem_rep b bytes -> n < OUTPUT_LIMIT ->
  exists b', ensure_output_buffer_capacity n b = Some b' /\ mem_rep b' bytes /\
    n <= buf_capacity b'.
Proof.
  intros (Hs & Ht & Hc & Hle) Hn. unfold ensure_output_buffer_capacity, OUTPUT_LIMIT in *.
  destruct (Z.ltb_spec (buf_capacity b) n) as [Hlt|]; [|by exists b].
  rewrite (proj2 (Z.eqb_neq _ 0)) by lia.
  rewrite wrap_id by (unfold in_u; zpow; lia).
  destruct (double_capacity_spec 64 (buf_capacity b * 2) n) as (c' & -> & Hc'); [zpow; lia..|].
  cbn [mbind option_bind]. eexists. split; [reflexivity|].
  unfold mem_rep, buf_capacity in *. cbn [buf_start buf_size] in *.
  rewrite length_app, length_replicate. split_and!; try (zpow; lia).
  rewrite take_app_le by lia. exact Ht.
Qed.

(** A block that agrees with [bytes] and is overwritten agrees with the
    overwritten bytes. *)
Lemma blit_rep b bytes offset data start :
  mem_rep b bytes -> 0 <= offset <= Z.of_nat (length bytes) ->
  zblit (buf_start b) offset (map Some data) = Some start ->
  mem_rep (raise_size (offset + Z.of_nat (length data)) start b) (overwrite bytes offset data).
Proof.
  intros (Hs & Ht & Hc & Hle) Ho Hb. pose proof (zblit_length _ _ _ _ Hb) as Hlen.
  apply zblit_inv in Hb as (_ & Hb & ->). rewrite length_map in Hb, Hlen |- *.
  assert (length (overwrite bytes offset data) =
          Nat.max (length bytes) (Z.to_nat offset + length data)) as Hl.
  { unfold overwrite. rewrite !length_app, length_take, length_drop. lia. }
  unfold mem_rep, raise_size, buf_capacity in *. cbn [buf_start buf_size] in *.
  split_and!; [destruct (Z.ltb_spec (buf_size b) (offset + Z.of_nat (length data))); lia| |lia..
    |destruct (Z.ltb_spec (buf_size b) (offset + Z.of_nat (length data))); lia].
  rewrite <- (take_drop (length bytes) (buf_start b)), Ht.
  set (tl := drop (length bytes) (buf_start b)). set (o := Z.to_nat offset) in *.
  rewrite (take_app_le (map Some bytes)) by (rewrite length_map; lia). rewrite (drop_app (map Some bytes)), length_map.
  assert (take o (map Some bytes) ++ map Some data ++ drop (o + length data) (map Some bytes) ++
            drop (o + length data - length bytes) tl =
          map Some (overwrite bytes offset data) ++ drop (o + length data - length bytes) tl) as ->.
  { unfold overwrite. fold o. rewrite !map_app, firstn_map, skipn_map, <- !app_assoc. done. }
  apply take_app_length'. by rewrite length_map.
Qed.

Lemma take_mem_rep b bytes : mem_rep b bytes ->
  buf_start b = map Some bytes ++ drop (length bytes) (buf_start b).
Proof. intros (_ & <- & _). symmetry. apply take_drop. Qed.

#[export] Instance mem_writer_writes : WriterWrites WasmOutputBuffer mem_rep.
Proof.
  intros b bytes offset data Hb Ho Hlim.
  assert (u64 (offset + Z.of_nat (length data)) = offset + Z.of_nat (length data)) as Ew.
  { apply wrap_id. unfold in_u, OUTPUT_LIMIT in *. zpow. lia. }
  cbn [write_data mem_writer]. unfold write_data_to_output_buffer. rewrite Ew.
  destruct (ensure_capacity_ok b bytes _ Hb Hlim) as (b' & -> & Hb' & Hcap).
  cbn [mbind option_bind]. unfold buf_capacity in Hcap.
  destruct (zblit (buf_start b') offset (map Some data)) as [start|] eqn:E.
  - eexists. split; [reflexivity|]. by apply blit_rep.
  - rewrite zblit_Some in E by (rewrite ?length_map; lia). done.
Qed.

#[export] Instance mem_writer_moves : WriterMoves WasmOutputBuffer mem_rep.
Proof.
  intros b bytes dst src size Hb Hd Hs Hsz Hsrc Hlim Hlim'.
  assert (forall x, 0 <= x < OUTPUT_LIMIT -> u64 x = x) as Ew.
  { intros x Hx. apply wrap_id. unfold in_u, OUTPUT_LIMIT in *. zpow. lia. }
  cbn [move_data mem_writer]. unfold move_data_in_output_buffer.
  rewrite (Ew (src + size)), (Ew (dst + size)) by lia.
  set (e := if dst + size <? src + size then src + size else dst + size).
  assert (e = Z.max (src + size) (dst + size)) as Ee by (unfold e; zbool; lia).
  destruct (ensure_capacity_ok b bytes e Hb ltac:(lia)) as (b' & -> & Hb' & Hcap).
  cbn [mbind option_bind]. pose proof Hb' as (Hsize & _ & _ & Hle). unfold buf_capacity in *.
  rewrite zslice_Some by lia. cbn [mbind option_bind].
  set (data := take (Z.to_nat size) (drop (Z.to_nat src) bytes)).
  assert (take (Z.to_nat size) (drop (Z.to_nat src) (buf_start b')) = map Some data) as ->.
  { rewrite (take_mem_rep b' bytes Hb').
    rewrite drop_app_le by (rewrite length_map; lia).
    rewrite take_app_le by (rewrite length_drop, length_map; lia).
    by rewrite skipn_map, firstn_map. }
  assert (Z.of_nat (length data) = size) as Hl by (unfold data; rewrite length_take, length_drop; lia).
  destruct (zblit (buf_start b') dst (map Some data)) as [start|] eqn:E.
  - cbn [mbind option_bind]. eexists. split; [reflexivity|].
    pose proof (blit_rep b' bytes dst data start Hb' Hd E) as Hr. rewrite Hl in Hr.
    replace (raise_size e start b') with (raise_size (dst + size) start b'); [done|].
    unfold raise_size. f_equal. zbool; lia.
  - rewrite zblit_Some in E by (rewrite ?length_map; lia). done.
Qed.

Lemma mem_rep_init : exists b, wasm_init_mem_writer = Some b /\ mem_rep b [].
Proof.
  eexists. split; [reflexivity|]. unfold mem_rep, buf_capacity. cbn [buf_start buf_size length].
  rewrite length_replicate. unfold INITIAL_OUTPUT_BUFFER_CAPACITY. zpow.
  split_and!; [done|by rewrite take_0|lia..].
Qed.

Lemma mem_rep_bytes b bytes : mem_rep b bytes -> buf_bytes b = Some bytes.
Proof.
  intros (Hs & Ht & _). unfold buf_bytes. rewrite Hs, Nat2Z.id, Ht. clear.
  induction bytes as [|x bytes IH]; [done|]. cbn [map all_written mbind option_bind]. by rewrite IH.
Qed.

(** ** The file writer *)

Section file_facts.
Context {FILE : Type} (fseek : FILE -> Z -> option FILE) (fwrite : FILE -> list Z -> option FILE).
(** [file_holds f bytes pos]: a file with these contents, at this position;
    documented behaviour of libc when the device does not fail. *)
Context (file_holds : FILE -> list Z -> Z -> Prop).
Hypothesis fseek_ok : forall f bytes pos offset,
  file_holds f bytes pos -> 0 <= offset <= Z.of_nat (length bytes) ->
  exists f', fseek f offset = Some f' /\ file_holds f' bytes offset.
Hypothesis fwrite_ok : forall f bytes pos data, file_holds f bytes pos -> data <> [] ->
  exists f', fwrite f data = Some f' /\
    file_holds f' (overwrite bytes pos data) (pos + Z.of_nat (length data)).

Definition file_rep (w : WasmFileWriter FILE) (bytes : list Z) : Prop :=
  file_holds (file w) bytes (file_offset w).

Lemma file_writer_writes :
  @WriterWrites (WasmFileWriter FILE) (file_writer fseek fwrite) file_rep.
Proof.
  intros w bytes offset data Hw Ho Hlim. cbn [write_data file_writer]. unfold write_data_to_file.
  destruct (Z.eqb_spec (Z.of_nat (length data)) 0) as [E|Hne].
  { exists w. split; [done|]. destruct data; [|cbn in E; lia]. unfold overwrite. cbn [app length].
    by rewrite Nat.add_0_r, take_drop. }
  assert (exists w', (if negb (offset =? file_offset w)
             then (fun f => mkFileWriter f offset) <$> fseek (file w) offset else Some w) = Some w' /\
            file_rep w' bytes /\ file_offset w' = offset) as (w' & -> & Hw' & <-).
  { destruct (Z.eqb_spec offset (file_offset w)) as [->|]; cbn [negb]; [by exists w|].
    destruct (fseek_ok _ _ _ offset Hw Ho) as (f' & -> & Hf'). by exists (mkFileWriter f' offset). }
  destruct (fwrite_ok _ _ _ data Hw') as (f' & -> & Hf'); [by intros ->|].
  eexists. split; [reflexivity|]. unfold file_rep. cbn [file file_offset].
  rewrite wrap_id by (unfold in_u, OUTPUT_LIMIT in *; zpow; lia). done.
Qed.
End file_facts.

(** Bytes written at the end. *)
Lemma overwrite_end {A} (bytes bs : list A) : overwrite bytes (Z.of_nat (length bytes)) bs = bytes ++ bs.
Proof.
  unfold overwrite. rewrite Nat2Z.id, take_ge, drop_ge by lia. by rewrite app_nil_r.
Qed.

(** Bytes replaced in place by as many. *)
Lemma overwrite_middle {A} (pre old new body : list A) : length old = length new ->
  overwrite (pre ++ old ++ body) (Z.of_nat (length pre)) new = pre ++ new ++ body.
Proof.
  intros Hl. unfold overwrite. rewrite Nat2Z.id, take_app_length. do 2 f_equal.
  rewrite app_assoc, drop_app_length' by (rewrite length_app; lia). done.
Qed.
