(* ===== verification/Validator.v ===== *)
(** * The validator (src/src/validator.c)

    The type checker of the text tools.  A [Context] is threaded through all
    checks; [print_error] records that the module is invalid and the check
    goes on, so the verdict is the [result] left at the end.  Type checking
    an expression works on one type stack, on which the innermost label marks
    the first entry that belongs to the current block. *)

From S2P Require Import Prelude Opcode Vector BindingHash Ast StateOpt.

#[local] Open Scope so_scope.

Inductive LabelType : Type :=
  | LABEL_TYPE_FUNC | LABEL_TYPE_BLOCK | LABEL_TYPE_LOOP | LABEL_TYPE_IF.

#[global] Instance LabelType_eq_dec : EqDecision LabelType.
Proof. solve_decision. Defined.

Record LabelNode : Type := mkLabel {
  label_type : LabelType;
  label_sig : WasmTypeVector;
  label_type_stack_limit : nat
}.

(** [type_stack] lists [data[0] .. data[size - 1]], the top last;
    [top_label] is the list of label nodes linked by [next]; [errors] are the
    formats passed to the error handler. *)
Record Context : Type := mkContext {
  ctx_script : WasmScript;
  current_module : WasmModule;
  current_func : option WasmFunc;
  current_table_index : Z;
  current_memory_index : Z;
  current_global_index : Z;
  num_imported_globals : Z;
  type_stack : list WasmType;
  top_label : list LabelNode;
  max_depth : Z;
  ctx_result : WasmResult;
  errors : list string
}.

Definition V : Type -> Type := SO Context.

Definition set_type_stack (s : list WasmType) (c : Context) : Context :=
  mkContext (ctx_script c) (current_module c) (current_func c) (current_table_index c)
    (current_memory_index c) (current_global_index c) (num_imported_globals c)
    s (top_label c) (max_depth c) (ctx_result c) (errors c).

Definition set_labels (l : list LabelNode) (d : Z) (c : Context) : Context :=
  mkContext (ctx_script c) (current_module c) (current_func c) (current_table_index c)
    (current_memory_index c) (current_global_index c) (num_imported_globals c)
    (type_stack c) l d (ctx_result c) (errors c).

Definition set_error (fmt : string) (c : Context) : Context :=
  mkContext (ctx_script c) (current_module c) (current_func c) (current_table_index c)
    (current_memory_index c) (current_global_index c) (num_imported_globals c)
    (type_stack c) (top_label c) (max_depth c) WASM_ERROR (errors c ++ [fmt]).

Definition set_current_func (f : option WasmFunc) (c : Context) : Context :=
  mkContext (ctx_script c) (current_module c) f (current_table_index c)
    (current_memory_index c) (current_global_index c) (num_imported_globals c)
    (type_stack c) (top_label c) (max_depth c) (ctx_result c) (errors c).

(** The module and the counters [check_module] sets up. *)
Definition set_module (m : WasmModule) (t me g ig : Z) (c : Context) : Context :=
  mkContext (ctx_script c) m (current_func c) t me g ig
    (type_stack c) (top_label c) (max_depth c) (ctx_result c) (errors c).

Definition print_error (fmt : string) : V unit := so_modify (set_error fmt).

Definition is_power_of_two (x : Z) : bool :=
  negb (x =? 0) && (Z.land x (u32 (x - 1)) =? 0).

Definition get_opcode_natural_alignment (opcode : WasmOpcode) : V Z :=
  let memory_size := wasm_get_opcode_memory_size opcode in
  so_assert (negb (memory_size =? 0)) ;; so_ret memory_size.

(** ** Variables

    [Some index] is [WASM_OK] with [*out_index]. *)

Definition check_var (max_index : Z) (var : WasmVar) : V (option Z) :=
  match var with
  | VAR_NAME _ => so_fail
  | VAR_INDEX index =>
      if (0 <=? index) && (index <? max_index) then so_ret (Some index)
      else print_error "%s variable out of range (max %d)" ;; so_ret None
  end.

(** The shape the five [check_*_var] functions share: check the index against
    the vector [l], then fetch the element. *)
Definition check_element_var {A} (l : list A) (var : WasmVar) : V (option (Z * A)) :=
  r <- check_var (Z.of_nat (length l)) var ;;
  match r with
  | None => so_ret None
  | Some index => x <- so_lift (zget l index) ;; so_ret (Some (index, x))
  end.

Definition check_func_var (var : WasmVar) : V (option WasmFunc) :=
  c <- so_get ;;
  r <- check_element_var (module_funcs (current_module c)) var ;; so_ret (snd <$> r).

Definition check_global_var (var : WasmVar) : V (option (WasmGlobal * Z)) :=
  c <- so_get ;;
  r <- check_element_var (module_globals (current_module c)) var ;;
  so_ret ((fun p => (snd p, fst p)) <$> r).

Definition check_func_type_var (var : WasmVar) : V (option WasmFuncType) :=
  c <- so_get ;;
  r <- check_element_var (module_func_types (current_module c)) var ;; so_ret (snd <$> r).

Definition check_table_var (var : WasmVar) : V (option WasmTable) :=
  c <- so_get ;;
  r <- check_element_var (module_tables (current_module c)) var ;; so_ret (snd <$> r).

Definition check_memory_var (var : WasmVar) : V (option WasmMemory) :=
  c <- so_get ;;
  r <- check_element_var (module_memories (current_module c)) var ;; so_ret (snd <$> r).

Definition get_current_func : V WasmFunc := c <- so_get ;; so_lift (current_func c).

Definition check_local_var (var : WasmVar) : V (option WasmType) :=
  func <- get_current_func ;;
  let max_index := wasm_get_num_params_and_locals func in
  index <- so_lift (wasm_get_local_index_by_var func var) ;;
  if (0 <=? index) && (index <? max_index) then
    let num_params := wasm_get_num_params func in
    (if index <? num_params then t <- so_lift (wasm_get_param_type func index) ;; so_ret (Some t)
     else t <- so_lift (zget (func_local_types func) (index - num_params)) ;; so_ret (Some t))
  else
    (match var with
     | VAR_NAME _ => print_error "undefined local variable"
     | VAR_INDEX _ => print_error "local variable out of range (max %d)"
     end ;; so_ret None).

Definition check_align (alignment natural_alignment : Z) : V unit :=
  if negb (alignment =? WASM_USE_NATURAL_ALIGNMENT) then
    (if negb (is_power_of_two alignment) then print_error "alignment must be power-of-two"
     else so_ret tt) ;;
    (if natural_alignment <? alignment
     then print_error "alignment must not be larger than natural alignment (%u)"
     else so_ret tt)
  else so_ret tt.

Definition UINT32_MAX : Z := 0xffffffff.

Definition check_offset (offset : Z) : V unit :=
  if UINT32_MAX <? offset then print_error "offset must be less than or equal to 0xffffffff"
  else so_ret tt.

(** ** Labels *)

(** [while (node && i != var->index) { node = node->next; i++; }] *)
Fixpoint find_label_go (node : list LabelNode) (i index : Z) : list LabelNode :=
  match node with
  | [] => []
  | _ :: next => if negb (i =? index) then find_label_go next (i + 1) index else node
  end.

Definition find_label_by_var (top : list LabelNode) (var : WasmVar) : V (option LabelNode) :=
  match var with
  | VAR_NAME _ => so_fail
  | VAR_INDEX index => so_ret (head (find_label_go top 0 index))
  end.

Definition check_label_var (top : list LabelNode) (var : WasmVar) : V (option LabelNode) :=
  node <- find_label_by_var top var ;;
  match node with
  | Some n => so_ret (Some n)
  | None => print_error "label variable out of range (max %d)" ;; so_ret None
  end.

Definition push_label (ty : LabelType) (sig : WasmTypeVector) : V unit :=
  so_modify (fun c =>
    set_labels (mkLabel ty sig (length (type_stack c)) :: top_label c) (max_depth c + 1) c).

Definition get_top_label : V LabelNode := c <- so_get ;; so_lift (head (top_label c)).

Definition pop_label : V unit :=
  get_top_label ;; so_modify (fun c => set_labels (tail (top_label c)) (max_depth c - 1) c).

(** ** The type stack *)

Definition type_stack_limit : V nat := l <- get_top_label ;; so_ret (label_type_stack_limit l).

(** [size - limit], a [size_t] subtraction that must not wrap. *)
Definition type_stack_avail : V nat :=
  limit <- type_stack_limit ;; c <- so_get ;;
  so_assert (limit <=? length (type_stack c))%nat ;;
  so_ret (length (type_stack c) - limit)%nat.

Definition check_type_stack_limit (expected : nat) : V WasmResult :=
  avail <- type_stack_avail ;;
  if (avail <? expected)%nat
  then print_error "type stack size too small at %s. got %zd, expected at least %zd" ;;
       so_ret WASM_ERROR
  else so_ret WASM_OK.

Definition check_type_stack_limit_exact (expected : nat) : V WasmResult :=
  avail <- type_stack_avail ;;
  if negb (expected =? avail)%nat
  then print_error "type stack at end of %s is %zd. expected %zd" ;; so_ret WASM_ERROR
  else so_ret WASM_OK.

(** [type_stack.size = n], which may only shrink the stack. *)
Definition set_type_stack_size (n : nat) : V unit :=
  c <- so_get ;;
  so_assert (n <=? length (type_stack c))%nat ;;
  so_put (set_type_stack (take n (type_stack c)) c).

Definition reset_type_stack_to_limit : V unit := limit <- type_stack_limit ;; set_type_stack_size limit.

Definition push_type (type : WasmType) : V unit :=
  if decide (type = WASM_TYPE_VOID) then so_ret tt
  else so_modify (fun c => set_type_stack (type_stack c ++ [type]) c).

Definition push_types (types : WasmTypeVector) : V unit := so_for push_type types.

(** [type_stack.data[i]]. *)
Definition type_stack_data (i : nat) : V WasmType := c <- so_get ;; so_lift (type_stack c !! i).

Definition peek_type (depth : nat) (arity : Z) : V WasmType :=
  if 0 <? arity then
    avail <- type_stack_avail ;; c <- so_get ;;
    if (depth <? avail)%nat then type_stack_data (length (type_stack c) - depth - 1)
    else so_ret WASM_TYPE_I32
  else so_ret WASM_TYPE_VOID.

Definition top_type : V WasmType := peek_type 0 1.

Definition pop_type : V WasmType :=
  result <- top_type ;; limit <- type_stack_limit ;; c <- so_get ;;
  (if (limit <? length (type_stack c))%nat
   then set_type_stack_size (length (type_stack c) - 1) else so_ret tt) ;;
  so_ret result.

Definition check_type (actual expected : WasmType) : V unit :=
  if decide (actual = expected) then so_ret tt
  else print_error "type mismatch at %s. got %s, expected %s".

Definition check_type_index (actual expected : WasmType) : V unit :=
  if decide (actual = expected) then so_ret tt
  else print_error "type mismatch for %s %d of %s. got %s, expected %s".

(** The loop over two vectors of the same size. *)
Fixpoint check_type_indices (actual expected : list WasmType) : V unit :=
  match actual, expected with
  | a :: actual', e :: expected' => check_type_index a e ;; check_type_indices actual' expected'
  | _, _ => so_ret tt
  end.

Definition check_types (actual expected : WasmTypeVector) : V unit :=
  if (length actual =? length expected)%nat then check_type_indices actual expected
  else print_error "expected %zd %ss, got %zd".

Definition check_const_types (actual : WasmTypeVector) (expected : list WasmConst) : V unit :=
  if (length actual =? length expected)%nat
  then check_type_indices actual (map const_type expected)
  else print_error "expected %zd results, got %zd".

Definition check_const_type (actual : WasmType) (expected : list WasmConst) : V unit :=
  so_assert (negb (bool_decide (actual = WASM_TYPE_ANY))) ;;
  check_const_types (if decide (actual = WASM_TYPE_VOID) then [] else [actual]) expected.

Definition pop_and_check_1_type (expected : WasmType) : V unit :=
  r <- check_type_stack_limit 1 ;;
  if WASM_SUCCEEDED r then actual <- pop_type ;; check_type actual expected else so_ret tt.

Definition pop_and_check_2_types (expected1 expected2 : WasmType) : V unit :=
  r <- check_type_stack_limit 2 ;;
  if WASM_SUCCEEDED r then
    actual2 <- pop_type ;; actual1 <- pop_type ;;
    check_type actual1 expected1 ;; check_type actual2 expected2
  else so_ret tt.

Definition check_opcode1 (opcode : WasmOpcode) : V unit :=
  pop_and_check_1_type (wasm_get_opcode_param_type_1 opcode) ;;
  push_type (wasm_get_opcode_result_type opcode).

Definition check_opcode2 (opcode : WasmOpcode) : V unit :=
  pop_and_check_2_types (wasm_get_opcode_param_type_1 opcode) (wasm_get_opcode_param_type_2 opcode) ;;
  push_type (wasm_get_opcode_result_type opcode).

(** [type_stack.data[size - n + i]] against [expected.data[i]]. *)
Definition check_top_types (check : WasmType -> WasmType -> V unit) (expected : WasmTypeVector) :
    V unit :=
  so_fori (fun i e =>
    c <- so_get ;;
    actual <- type_stack_data (length (type_stack c) - length expected + i) ;;
    check actual e) 0 expected.

Definition check_n_types (expected : WasmTypeVector) : V unit :=
  r <- check_type_stack_limit (length expected) ;;
  if WASM_SUCCEEDED r then check_top_types check_type expected else so_ret tt.

Definition check_assert_return_nan_type (actual : WasmType) : V unit :=
  if negb (bool_decide (actual = WASM_TYPE_F32)) && negb (bool_decide (actual = WASM_TYPE_F64))
  then print_error "type mismatch at %s. got %s, expected f32 or f64"
  else so_ret tt.

(** [Some sig] is [WASM_OK] with [*out_sig]. *)
Definition check_br (var : WasmVar) : V (option WasmBlockSignature) :=
  c <- so_get ;;
  node <- check_label_var (top_label c) var ;;
  match node with
  | Some n =>
      (if decide (label_type n = LABEL_TYPE_LOOP) then so_ret tt else check_n_types (label_sig n)) ;;
      so_ret (Some (label_sig n))
  | None => so_ret None
  end.

Definition check_call (sig : WasmFuncSignature) : V unit :=
  let expected_args := length (param_types sig) in
  limit <- type_stack_limit ;; avail <- type_stack_avail ;;
  (if (expected_args <=? avail)%nat then
     check_top_types check_type_index (param_types sig) ;;
     c <- so_get ;; set_type_stack_size (length (type_stack c) - expected_args)
   else
     print_error "type stack size too small at %s. got %zd, expected at least %zd" ;;
     set_type_stack_size limit) ;;
  so_for push_type (result_types sig).

Definition check_has_memory (opcode : WasmOpcode) : V unit :=
  c <- so_get ;;
  match module_memories (current_module c) with
  | [] => print_error "%s requires an imported or defined memory."
  | _ => so_ret tt
  end.

(** ** Expressions *)

(** The loop of [check_block] over the expressions; the result is
    [check_result]. *)
Definition check_block_loop (check_expr : WasmExpr -> V unit) : list WasmExpr -> V bool :=
  fix loop (es : list WasmExpr) : V bool :=
    match es with
    | [] => so_ret true
    | e :: es' =>
        check_expr e ;; t <- top_type ;;
        if decide (t = WASM_TYPE_ANY) then so_ret false else loop es'
    end.

Definition check_block (check_expr : WasmExpr -> V unit) (first : list WasmExpr) : V unit :=
  check_result <- check_block_loop check_expr first ;;
  (if (check_result : bool) then
     l <- get_top_label ;;
     check_n_types (label_sig l) ;;
     check_type_stack_limit_exact (length (label_sig l)) ;; so_ret tt
   else so_ret tt) ;;
  l <- get_top_label ;; set_type_stack_size (label_type_stack_limit l).

Definition check_br_table_targets (targets : list WasmVar) : V unit :=
  so_for (fun t => check_br t ;; so_ret tt) targets.

(** The cases that end a straight-line sequence. *)
Definition set_unreachable : V unit := reset_type_stack_to_limit ;; push_type WASM_TYPE_ANY.

Fixpoint check_expr (expr : WasmExpr) : V unit :=
  match expr with
  | EXPR_BINARY opcode => check_opcode2 opcode
  | EXPR_BLOCK _ sig first =>
      push_label LABEL_TYPE_BLOCK sig ;; check_block check_expr first ;; pop_label ;; push_types sig
  | EXPR_BR var => check_br var ;; set_unreachable
  | EXPR_BR_IF var =>
      pop_and_check_1_type WASM_TYPE_I32 ;; check_br var ;; so_ret tt
  | EXPR_BR_TABLE targets default_target =>
      pop_and_check_1_type WASM_TYPE_I32 ;;
      check_br_table_targets targets ;; check_br default_target ;; set_unreachable
  | EXPR_CALL var =>
      callee <- check_func_var var ;;
      match callee with Some f => check_call (decl_sig (func_decl f)) | None => so_ret tt end
  | EXPR_CALL_INDIRECT var =>
      c <- so_get ;;
      (match module_tables (current_module c) with
       | [] => print_error "found call_indirect operator, but no table"
       | _ => so_ret tt
       end) ;;
      func_type <- check_func_type_var var ;;
      match func_type with
      | Some ft =>
          type <- pop_type ;; check_type type WASM_TYPE_I32 ;; check_call (func_type_sig ft)
      | None => so_ret tt
      end
  | EXPR_COMPARE opcode => check_opcode2 opcode
  | EXPR_CONST const_ => push_type (const_type const_)
  | EXPR_CONVERT opcode => check_opcode1 opcode
  | EXPR_DROP =>
      r <- check_type_stack_limit 1 ;;
      if WASM_SUCCEEDED r then pop_type ;; so_ret tt else so_ret tt
  | EXPR_GET_GLOBAL var =>
      r <- check_global_var var ;;
      match r with Some (g, _) => push_type (global_type g) | None => so_ret tt end
  | EXPR_GET_LOCAL var =>
      r <- check_local_var var ;;
      match r with Some t => push_type t | None => so_ret tt end
  | EXPR_GROW_MEMORY =>
      check_has_memory WASM_OPCODE_GROW_MEMORY ;; check_opcode1 WASM_OPCODE_GROW_MEMORY
  | EXPR_IF _ sig true_ false_ =>
      pop_and_check_1_type WASM_TYPE_I32 ;; push_label LABEL_TYPE_IF sig ;;
      check_block check_expr true_ ;; check_block check_expr false_ ;; pop_label ;; push_types sig
  | EXPR_LOAD opcode align offset =>
      check_has_memory opcode ;; natural <- get_opcode_natural_alignment opcode ;;
      check_align align natural ;; check_offset offset ;; check_opcode1 opcode
  | EXPR_LOOP _ sig first =>
      push_label LABEL_TYPE_LOOP sig ;; check_block check_expr first ;; pop_label ;; push_types sig
  | EXPR_CURRENT_MEMORY =>
      check_has_memory WASM_OPCODE_CURRENT_MEMORY ;; push_type WASM_TYPE_I32
  | EXPR_NOP => so_ret tt
  | EXPR_RETURN =>
      f <- get_current_func ;; check_n_types (result_types (decl_sig (func_decl f))) ;;
      set_unreachable
  | EXPR_SELECT =>
      pop_and_check_1_type WASM_TYPE_I32 ;;
      r <- check_type_stack_limit 2 ;;
      if WASM_SUCCEEDED r then
        type1 <- pop_type ;; type2 <- pop_type ;; check_type type2 type1 ;; push_type type1
      else so_ret tt
  | EXPR_SET_GLOBAL var =>
      r <- check_global_var var ;;
      pop_and_check_1_type (match r with Some (g, _) => global_type g | None => WASM_TYPE_I32 end)
  | EXPR_SET_LOCAL var =>
      r <- check_local_var var ;; pop_and_check_1_type (default WASM_TYPE_I32 r)
  | EXPR_STORE opcode align offset =>
      check_has_memory opcode ;; natural <- get_opcode_natural_alignment opcode ;;
      check_align align natural ;; check_offset offset ;; check_opcode2 opcode
  | EXPR_TEE_LOCAL var =>
      r <- check_local_var var ;;
      (* the code tests the [WasmResult] itself: the type is compared only
         when the stack is too small *)
      res <- check_type_stack_limit 1 ;;
      match res with
      | WASM_ERROR => t <- top_type ;; check_type t (default WASM_TYPE_I32 r)
      | WASM_OK => so_ret tt
      end
  | EXPR_UNARY opcode => check_opcode1 opcode
  | EXPR_UNREACHABLE => set_unreachable
  end.

(** ** Functions and modules *)

Definition check_func_signature_matches_func_type (sig : WasmFuncSignature)
    (func_type : WasmFuncType) : V unit :=
  check_types (result_types sig) (result_types (func_type_sig func_type)) ;;
  check_types (param_types sig) (param_types (func_type_sig func_type)).

Definition check_func (func : WasmFunc) : V unit :=
  so_modify (set_current_func (Some func)) ;;
  if 1 <? wasm_get_num_results func
  then print_error "multiple result values not currently supported."
  else
    (if wasm_decl_has_func_type (func_decl func) then
       func_type <- check_func_type_var (decl_type_var (func_decl func)) ;;
       match func_type with
       | Some ft => check_func_signature_matches_func_type (decl_sig (func_decl func)) ft
       | None => so_ret tt
       end
     else so_ret tt) ;;
    push_label LABEL_TYPE_FUNC (result_types (decl_sig (func_decl func))) ;;
    check_block check_expr (func_first_expr func) ;;
    pop_label ;;
    so_modify (set_current_func None).

Definition print_const_expr_error : V unit :=
  print_error "invalid %s, must be a constant expression; either *.const or get_global.".

Definition check_const_init_expr (expr : list WasmExpr) (expected_type : WasmType) : V unit :=
  match expr with
  | [] => check_type WASM_TYPE_VOID expected_type
  | _ :: _ :: _ => print_const_expr_error
  | [EXPR_CONST const_] => check_type (const_type const_) expected_type
  | [EXPR_GET_GLOBAL var] =>
      r <- check_global_var var ;;
      match r with
      | None => so_ret tt
      | Some (ref_global, ref_global_index) =>
          c <- so_get ;;
          (if current_global_index c <=? ref_global_index
           then print_error "initializer expression can only reference a previously defined global"
           else if num_imported_globals c <=? ref_global_index
           then print_error "initializer expression can only reference an imported global"
           else so_ret tt) ;;
          (if global_mutable ref_global
           then print_error "initializer expression cannot reference a mutable global"
           else so_ret tt) ;;
          check_type (global_type ref_global) expected_type
      end
  | [_] => print_const_expr_error
  end.

Definition check_global (global : WasmGlobal) : V unit :=
  check_const_init_expr (global_init_expr global) (global_type global).

Definition check_limits (limits : WasmLimits) (absolute_max : Z) : V unit :=
  (if absolute_max <? lim_initial limits
   then print_error "initial %s (%lu) must be <= (%lu)" else so_ret tt) ;;
  if lim_has_max limits then
    (if absolute_max <? lim_max limits
     then print_error "max %s (%lu) must be <= (%lu)" else so_ret tt) ;;
    (if lim_max limits <? lim_initial limits
     then print_error "max %s (%lu) must be >= initial %s (%lu)" else so_ret tt)
  else so_ret tt.

Definition check_table (table : WasmTable) : V unit :=
  c <- so_get ;;
  (if current_table_index c =? 1 then print_error "only one table allowed" else so_ret tt) ;;
  check_limits (table_elem_limits table) UINT32_MAX.

Definition check_elem_segments (module : WasmModule) : V unit :=
  so_for (fun field =>
    match field with
    | FIELD_ELEM_SEGMENT elem_segment =>
        table <- check_table_var (elem_table_var elem_segment) ;;
        match table with
        | None => so_ret tt
        | Some _ =>
            so_for (fun v => check_func_var v ;; so_ret tt) (elem_vars elem_segment) ;;
            check_const_init_expr (elem_offset elem_segment) WASM_TYPE_I32
        end
    | _ => so_ret tt
    end) (module_fields module).

Definition check_memory (memory : WasmMemory) : V unit :=
  c <- so_get ;;
  (if current_memory_index c =? 1 then print_error "only one memory block allowed"
   else so_ret tt) ;;
  check_limits (memory_page_limits memory) WASM_MAX_PAGES.

Definition check_data_segments (module : WasmModule) : V unit :=
  so_for (fun field =>
    match field with
    | FIELD_DATA_SEGMENT data_segment =>
        memory <- check_memory_var (data_memory_var data_segment) ;;
        match memory with
        | None => so_ret tt
        | Some _ => check_const_init_expr (data_offset data_segment) WASM_TYPE_I32
        end
    | _ => so_ret tt
    end) (module_fields module).

(** [ctx->current_table_index++] and the like. *)
Definition incr_table_index : V unit := so_modify (fun c =>
  set_module (current_module c) (current_table_index c + 1) (current_memory_index c)
    (current_global_index c) (num_imported_globals c) c).
Definition incr_memory_index : V unit := so_modify (fun c =>
  set_module (current_module c) (current_table_index c) (current_memory_index c + 1)
    (current_global_index c) (num_imported_globals c) c).
Definition incr_global_index : V unit := so_modify (fun c =>
  set_module (current_module c) (current_table_index c) (current_memory_index c)
    (current_global_index c + 1) (num_imported_globals c) c).
Definition incr_num_imported_globals : V unit := so_modify (fun c =>
  set_module (current_module c) (current_table_index c) (current_memory_index c)
    (current_global_index c) (num_imported_globals c + 1) c).

Definition check_import (import : WasmImport) : V unit :=
  match import_desc import with
  | IMPORT_FUNC func =>
      if wasm_decl_has_func_type (func_decl func)
      then check_func_type_var (decl_type_var (func_decl func)) ;; so_ret tt
      else so_ret tt
  | IMPORT_TABLE table => check_table table ;; incr_table_index
  | IMPORT_MEMORY memory => check_memory memory ;; incr_memory_index
  | IMPORT_GLOBAL global =>
      (if global_mutable global then print_error "mutable globals cannot be imported"
       else so_ret tt) ;;
      incr_num_imported_globals ;; incr_global_index
  end.

Definition check_export (export_ : WasmExport) : V unit :=
  match export_kind export_ with
  | WASM_EXTERNAL_KIND_FUNC => check_func_var (export_var export_) ;; so_ret tt
  | WASM_EXTERNAL_KIND_TABLE => check_table_var (export_var export_) ;; so_ret tt
  | WASM_EXTERNAL_KIND_MEMORY => check_memory_var (export_var export_) ;; so_ret tt
  | WASM_EXTERNAL_KIND_GLOBAL =>
      global <- check_global_var (export_var export_) ;;
      match global with
      | Some (g, _) =>
          if global_mutable g then print_error "mutable globals cannot be exported" else so_ret tt
      | None => so_ret tt
      end
  end.

(** The loop of [check_module] over the fields. *)
Fixpoint check_fields (seen_start : bool) (fields : list WasmModuleField) : V unit :=
  match fields with
  | [] => so_ret tt
  | field :: fields' =>
      match field with
      | FIELD_FUNC func => check_func func ;; check_fields seen_start fields'
      | FIELD_GLOBAL global =>
          check_global global ;; incr_global_index ;; check_fields seen_start fields'
      | FIELD_IMPORT import => check_import import ;; check_fields seen_start fields'
      | FIELD_EXPORT export_ => check_export export_ ;; check_fields seen_start fields'
      | FIELD_TABLE table =>
          check_table table ;; incr_table_index ;; check_fields seen_start fields'
      | FIELD_ELEM_SEGMENT _ => check_fields seen_start fields'
      | FIELD_MEMORY memory =>
          check_memory memory ;; incr_memory_index ;; check_fields seen_start fields'
      | FIELD_DATA_SEGMENT _ => check_fields seen_start fields'
      | FIELD_FUNC_TYPE _ => check_fields seen_start fields'
      | FIELD_START start =>
          (if seen_start then print_error "only one start function allowed" else so_ret tt) ;;
          start_func <- check_func_var start ;;
          (match start_func with
           | Some f =>
               (if negb (wasm_get_num_params f =? 0)
                then print_error "start function must be nullary" else so_ret tt) ;;
               (if negb (wasm_get_num_results f =? 0)
                then print_error "start function must not return anything" else so_ret tt)
           | None => so_ret tt
           end) ;;
          check_fields true fields'
      end
  end.

Definition check_module (module : WasmModule) : V unit :=
  so_modify (set_module module 0 0 0 0) ;;
  check_fields false (module_fields module) ;;
  check_elem_segments module ;;
  check_data_segments module.

(** ** Scripts *)

(** [ActionResult]; the error kind carries nothing. *)
Inductive ActionResult : Type :=
  | ACTION_RESULT_KIND_ERROR
  | ACTION_RESULT_KIND_TYPES (types : WasmTypeVector)
  | ACTION_RESULT_KIND_TYPE (type : WasmType).

(** The loop over the arguments of an invocation. *)
Definition check_invoke_args (func : WasmFunc) (args : list WasmConst) : V unit :=
  so_fori (fun i const_ =>
    t <- so_lift (wasm_get_param_type func (Z.of_nat i)) ;;
    check_type_index (const_type const_) t) 0 args.

Definition check_invoke (module_var : WasmVar) (name : string) (args : list WasmConst) :
    V (option WasmTypeVector) :=
  c <- so_get ;;
  module <- so_lift (wasm_get_module_by_var (ctx_script c) module_var) ;;
  match module with
  | None => print_error "unknown module" ;; so_ret None
  | Some m =>
      export <- so_lift (wasm_get_export_by_name m name) ;;
      match export with
      | None => print_error "unknown function export" ;; so_ret None
      | Some e =>
          func <- so_lift (wasm_get_func_by_var m (export_var e)) ;;
          match func with
          | None => so_ret None
          | Some f =>
              let actual_args := Z.of_nat (length args) in
              let expected_args := wasm_get_num_params f in
              if negb (expected_args =? actual_args)
              then print_error "too %s parameters to function. got %zd, expected %zd" ;; so_ret None
              else check_invoke_args f args ;; so_ret (Some (result_types (decl_sig (func_decl f))))
          end
      end
  end.

(** [Some type] is [WASM_OK] with [*out_type]. *)
Definition check_get (module_var : WasmVar) (name : string) : V (option WasmType) :=
  c <- so_get ;;
  module <- so_lift (wasm_get_module_by_var (ctx_script c) module_var) ;;
  match module with
  | None => print_error "unknown module" ;; so_ret None
  | Some m =>
      export <- so_lift (wasm_get_export_by_name m name) ;;
      match export with
      | None => print_error "unknown global export" ;; so_ret None
      | Some e =>
          global <- so_lift (wasm_get_global_by_var m (export_var e)) ;;
          so_ret (global_type <$> global)
      end
  end.

Definition check_action (action : WasmAction) : V ActionResult :=
  match action_desc action with
  | ACTION_INVOKE name args =>
      types <- check_invoke (action_module_var action) name args ;;
      so_ret (match types with
              | Some t => ACTION_RESULT_KIND_TYPES t
              | None => ACTION_RESULT_KIND_ERROR
              end)
  | ACTION_GET name =>
      type <- check_get (action_module_var action) name ;;
      so_ret (match type with
              | Some t => ACTION_RESULT_KIND_TYPE t
              | None => ACTION_RESULT_KIND_ERROR
              end)
  end.

(** A [TYPES] result of another size than one becomes the type [ANY], which
    is not checked. *)
Definition check_assert_return_nan (result : ActionResult) : V unit :=
  type <- match result with
          | ACTION_RESULT_KIND_TYPES [t] => so_ret (Some t)
          | ACTION_RESULT_KIND_TYPES _ => print_error "expected 1 result, got %zd" ;; so_ret None
          | ACTION_RESULT_KIND_TYPE t => so_ret (Some t)
          | ACTION_RESULT_KIND_ERROR => so_ret None
          end ;;
  match type with
  | Some t => if decide (t = WASM_TYPE_ANY) then so_ret tt else check_assert_return_nan_type t
  | None => so_ret tt
  end.

Definition check_command (command : WasmCommand) : V unit :=
  match command with
  | COMMAND_MODULE module => check_module module
  | COMMAND_ACTION action => check_action action ;; so_ret tt
  | COMMAND_REGISTER _ _ | COMMAND_ASSERT_MALFORMED _ _ | COMMAND_ASSERT_INVALID _ _
  | COMMAND_ASSERT_UNLINKABLE _ _ | COMMAND_ASSERT_UNINSTANTIABLE _ _ => so_ret tt
  | COMMAND_ASSERT_RETURN action expected =>
      result <- check_action action ;;
      match result with
      | ACTION_RESULT_KIND_TYPES types => check_const_types types expected
      | ACTION_RESULT_KIND_TYPE type => check_const_type type expected
      | ACTION_RESULT_KIND_ERROR => so_ret tt
      end
  | COMMAND_ASSERT_RETURN_NAN action =>
      result <- check_action action ;; check_assert_return_nan result
  | COMMAND_ASSERT_TRAP action _ => check_action action ;; so_ret tt
  end.

(** The zeroed context; the module fields are [NULL] until [check_module]
    sets them, so they start as an empty module that no check reads. *)
Definition null_module : WasmModule :=
  mkModule None [] empty_hash empty_hash empty_hash empty_hash empty_hash empty_hash.

Definition init_context (script : WasmScript) : Context :=
  mkContext script null_module None 0 0 0 0 [] [] 0 WASM_OK [].

(** [None]: an assertion fails. *)
Definition wasm_validate_script (script : WasmScript) : option WasmResult :=
  match so_for check_command (script_commands script) (init_context script) with
  | Some (_, c) => Some (ctx_result c)
  | None => None
  end.
