(* ===== verification/ValidatorFacts.v ===== *)
(** * Correctness of the validator

    Three descriptions of typing and the theorems that relate them: the error
    accumulating checker of Validator.v, a partial function [infer] that gives
    the stack after an instruction or nothing when it is ill typed, and a
    declarative typing relation [has_type] on whole operand stacks. *)

From stdpp Require Import sets.
From S2P Require Import Prelude Opcode Vector BindingHash Ast StateOpt Validator.

(** ** Declarative typing

    [has_type q C e S S']: in typing context [C], the expression [e] takes
    the operand stack [S] of the current block (top last) to [S'].  A stack
    [[ANY]] marks code that does not fall through; what follows it in its block
    is not typed.  With [q] unset these are the typing rules of the language;
    with [q] set the rules the checker has, which depart from them in six places,
    each marked by [q]: [tee_local] takes an operand of any type, [call_indirect]
    without parameters an empty stack, the index of a local counts modulo 2^32,
    the targets of a [br_table] may differ in their types, an immutable global
    can be set, and a block can have several results. *)

Record TypeContext : Type := mkTypeContext {
  tc_module : WasmModule;
  tc_func : WasmFunc;
  tc_labels : list (LabelType * WasmTypeVector)
}.

Definition with_label (C : TypeContext) (ty : LabelType) (sig : WasmTypeVector) : TypeContext :=
  mkTypeContext (tc_module C) (tc_func C) ((ty, sig) :: tc_labels C).

(** What a push of [types] adds: nothing for [VOID]. *)
Definition pushed (types : list WasmType) : list WasmType :=
  filter (fun t => t <> WASM_TYPE_VOID) types.

(** The element a resolved variable denotes. *)
Definition var_in {A} (l : list A) (var : WasmVar) : option A :=
  match var with VAR_INDEX index => zget l index | VAR_NAME _ => None end.

(** A branch to a loop carries no value. *)
Definition label_args (C : TypeContext) (var : WasmVar) : option WasmTypeVector :=
  '(ty, sig) ← var_in (tc_labels C) var;
  Some (if decide (ty = LABEL_TYPE_LOOP) then [] else sig).

(** The type of a local: parameters first; with [q] the index is cut to an
    [int]. *)
Definition local_type (q : bool) (f : WasmFunc) (var : WasmVar) : option WasmType :=
  match var with
  | VAR_INDEX index =>
      zget (param_types (decl_sig (func_decl f)) ++ func_local_types f) (if q then to_int index else index)
  | VAR_NAME _ => None
  end.

Definition has_memory (C : TypeContext) : Prop := module_memories (tc_module C) <> [].

(** The immediate of a memory access: natural alignment or a power of two not
    above it, and an offset of 32 bits. *)
Definition memarg_ok (opcode : WasmOpcode) (align offset : Z) : Prop :=
  (align = WASM_USE_NATURAL_ALIGNMENT \/
   is_power_of_two align = true /\ align <= wasm_get_opcode_memory_size opcode) /\
  offset <= UINT32_MAX.

Definition op_result (op : WasmOpcode) : list WasmType := pushed [wasm_get_opcode_result_type op].

Inductive has_type (q : bool) : TypeContext -> WasmExpr -> list WasmType -> list WasmType -> Prop :=
  | T_binary C op S :
      has_type q C (EXPR_BINARY op)
        (S ++ [wasm_get_opcode_param_type_1 op; wasm_get_opcode_param_type_2 op]) (S ++ op_result op)
  | T_compare C op S :
      has_type q C (EXPR_COMPARE op)
        (S ++ [wasm_get_opcode_param_type_1 op; wasm_get_opcode_param_type_2 op]) (S ++ op_result op)
  | T_unary C op S :
      has_type q C (EXPR_UNARY op) (S ++ [wasm_get_opcode_param_type_1 op]) (S ++ op_result op)
  | T_convert C op S :
      has_type q C (EXPR_CONVERT op) (S ++ [wasm_get_opcode_param_type_1 op]) (S ++ op_result op)
  | T_const C k S : has_type q C (EXPR_CONST k) S (S ++ pushed [const_type k])
  | T_nop C S : has_type q C EXPR_NOP S S
  | T_drop C t S : has_type q C EXPR_DROP (S ++ [t]) S
  | T_select C t S :
      has_type q C EXPR_SELECT (S ++ [t; t; WASM_TYPE_I32]) (S ++ pushed [t])
  | T_unreachable C S : has_type q C EXPR_UNREACHABLE S [WASM_TYPE_ANY]
  | T_block C l sig es S :
      (q = false -> (length sig <= 1)%nat) ->
      block_has_type q (with_label C LABEL_TYPE_BLOCK sig) es [] sig ->
      has_type q C (EXPR_BLOCK l sig es) S (S ++ pushed sig)
  | T_loop C l sig es S :
      (q = false -> (length sig <= 1)%nat) ->
      block_has_type q (with_label C LABEL_TYPE_LOOP sig) es [] sig ->
      has_type q C (EXPR_LOOP l sig es) S (S ++ pushed sig)
  | T_if C l sig es fs S :
      (q = false -> (length sig <= 1)%nat) ->
      block_has_type q (with_label C LABEL_TYPE_IF sig) es [] sig ->
      block_has_type q (with_label C LABEL_TYPE_IF sig) fs [] sig ->
      has_type q C (EXPR_IF l sig es fs) (S ++ [WASM_TYPE_I32]) (S ++ pushed sig)
  | T_br C var args S :
      label_args C var = Some args ->
      has_type q C (EXPR_BR var) (S ++ args) [WASM_TYPE_ANY]
  | T_br_if C var args S :
      label_args C var = Some args ->
      has_type q C (EXPR_BR_IF var) (S ++ args ++ [WASM_TYPE_I32]) (S ++ args)
  | T_br_table C targets default S :
      Forall (fun v => exists args, label_args C v = Some args /\ args `suffix_of` S)
        (targets ++ [default]) ->
      (q = false -> Forall (fun v => label_args C v = label_args C default) targets) ->
      has_type q C (EXPR_BR_TABLE targets default) (S ++ [WASM_TYPE_I32]) [WASM_TYPE_ANY]
  | T_return C S :
      has_type q C EXPR_RETURN (S ++ result_types (decl_sig (func_decl (tc_func C))))
        [WASM_TYPE_ANY]
  | T_call C var f S :
      var_in (module_funcs (tc_module C)) var = Some f ->
      has_type q C (EXPR_CALL var) (S ++ param_types (decl_sig (func_decl f)))
        (S ++ pushed (result_types (decl_sig (func_decl f))))
  | T_call_indirect C var ft S :
      module_tables (tc_module C) <> [] ->
      var_in (module_func_types (tc_module C)) var = Some ft ->
      has_type q C (EXPR_CALL_INDIRECT var)
        (S ++ param_types (func_type_sig ft) ++ [WASM_TYPE_I32])
        (S ++ pushed (result_types (func_type_sig ft)))
  | T_get_local C var t S :
      local_type q (tc_func C) var = Some t ->
      has_type q C (EXPR_GET_LOCAL var) S (S ++ pushed [t])
  | T_set_local C var t S :
      local_type q (tc_func C) var = Some t ->
      has_type q C (EXPR_SET_LOCAL var) (S ++ [t]) S
  | T_tee_local C var t S :
      local_type q (tc_func C) var = Some t ->
      has_type q C (EXPR_TEE_LOCAL var) (S ++ [t]) (S ++ [t])
  | T_get_global C var g S :
      var_in (module_globals (tc_module C)) var = Some g ->
      has_type q C (EXPR_GET_GLOBAL var) S (S ++ pushed [global_type g])
  | T_set_global C var g S :
      var_in (module_globals (tc_module C)) var = Some g ->
      (q = false -> global_mutable g = true) ->
      has_type q C (EXPR_SET_GLOBAL var) (S ++ [global_type g]) S
  | T_load C op align offset S :
      has_memory C -> memarg_ok op align offset ->
      has_type q C (EXPR_LOAD op align offset) (S ++ [wasm_get_opcode_param_type_1 op])
        (S ++ op_result op)
  | T_store C op align offset S :
      has_memory C -> memarg_ok op align offset ->
      has_type q C (EXPR_STORE op align offset)
        (S ++ [wasm_get_opcode_param_type_1 op; wasm_get_opcode_param_type_2 op]) (S ++ op_result op)
  | T_current_memory C S :
      has_memory C -> has_type q C EXPR_CURRENT_MEMORY S (S ++ [WASM_TYPE_I32])
  | T_grow_memory C S :
      has_memory C -> has_type q C EXPR_GROW_MEMORY (S ++ [WASM_TYPE_I32]) (S ++ [WASM_TYPE_I32])
  (* departures of the checker *)
  | T_tee_local_any C var t t' S :
      q = true -> local_type q (tc_func C) var = Some t ->
      has_type q C (EXPR_TEE_LOCAL var) (S ++ [t']) (S ++ [t'])
  | T_call_indirect_empty C var ft :
      q = true -> module_tables (tc_module C) <> [] ->
      var_in (module_func_types (tc_module C)) var = Some ft -> param_types (func_type_sig ft) = [] ->
      has_type q C (EXPR_CALL_INDIRECT var) [] (pushed (result_types (func_type_sig ft)))
(** The body of a block from stack [S] to exactly the results [rs]; what
    follows an expression that does not fall through is not checked. *)
with block_has_type (q : bool) : TypeContext -> list WasmExpr -> list WasmType -> list WasmType -> Prop :=
  | B_nil C rs : block_has_type q C [] rs rs
  | B_cons C e es S S' rs :
      has_type q C e S S' -> last S' <> Some WASM_TYPE_ANY ->
      block_has_type q C es S' rs -> block_has_type q C (e :: es) S rs
  | B_stop C e es S S' rs :
      has_type q C e S S' -> last S' = Some WASM_TYPE_ANY -> block_has_type q C (e :: es) S rs.

(** ** The partial function *)

(** The stack below a suffix [ts]. *)
Definition pop_suffix (ts S : list WasmType) : option (list WasmType) :=
  let n := (length S - length ts)%nat in
  if decide (drop n S = ts) then Some (take n S) else None.

Definition pop_any (S : list WasmType) : option (WasmType * list WasmType) :=
  t ← last S; Some (t, take (length S - 1) S).

Definition guard_b (b : bool) : option unit := if b then Some tt else None.

Definition infer_op1 (op : WasmOpcode) (S : list WasmType) : option (list WasmType) :=
  S ← pop_suffix [wasm_get_opcode_param_type_1 op] S; Some (S ++ op_result op).

Definition infer_op2 (op : WasmOpcode) (S : list WasmType) : option (list WasmType) :=
  S ← pop_suffix [wasm_get_opcode_param_type_1 op; wasm_get_opcode_param_type_2 op] S;
  Some (S ++ op_result op).

Definition infer_br (C : TypeContext) (var : WasmVar) (S : list WasmType) : option unit :=
  args ← label_args C var; _ ← pop_suffix args S; Some tt.

Definition infer_call (sig : WasmFuncSignature) (S : list WasmType) : option (list WasmType) :=
  S ← pop_suffix (param_types sig) S; Some (S ++ pushed (result_types sig)).

Definition infer_memarg (opcode : WasmOpcode) (align offset : Z) : option unit :=
  _ ← guard_b ((align =? WASM_USE_NATURAL_ALIGNMENT) ||
                (is_power_of_two align && (align <=? wasm_get_opcode_memory_size opcode)));
  guard_b (offset <=? UINT32_MAX).

Definition infer_has_memory (C : TypeContext) : option unit :=
  match module_memories (tc_module C) with [] => None | _ => Some tt end.

(** [None]: ill typed; [Some None]: the end is not reached. *)
Definition infer_seq (f : WasmExpr -> list WasmType -> option (list WasmType)) :
    list WasmExpr -> list WasmType -> option (option (list WasmType)) :=
  fix go (es : list WasmExpr) (S : list WasmType) :=
    match es with
    | [] => Some (Some S)
    | e :: es' =>
        S' ← f e S;
        if decide (last S' = Some WASM_TYPE_ANY) then Some None else go es' S'
    end.

Definition infer_block (f : WasmExpr -> list WasmType -> option (list WasmType))
    (es : list WasmExpr) (sig : WasmTypeVector) : option unit :=
  r ← infer_seq f es [];
  match r with
  | None => Some tt
  | Some S' => guard_b (bool_decide (S' = sig))
  end.

Fixpoint infer (C : TypeContext) (e : WasmExpr) (S : list WasmType) {struct e} :
    option (list WasmType) :=
  match e with
  | EXPR_BINARY op | EXPR_COMPARE op => infer_op2 op S
  | EXPR_UNARY op | EXPR_CONVERT op => infer_op1 op S
  | EXPR_CONST k => Some (S ++ pushed [const_type k])
  | EXPR_NOP => Some S
  | EXPR_DROP => '(_, S') ← pop_any S; Some S'
  | EXPR_SELECT =>
      S ← pop_suffix [WASM_TYPE_I32] S; '(t1, S1) ← pop_any S; '(t2, S2) ← pop_any S1;
      if decide (t2 = t1) then Some (S2 ++ pushed [t1]) else None
  | EXPR_UNREACHABLE => Some [WASM_TYPE_ANY]
  | EXPR_BLOCK _ sig es =>
      _ ← infer_block (infer (with_label C LABEL_TYPE_BLOCK sig)) es sig; Some (S ++ pushed sig)
  | EXPR_LOOP _ sig es =>
      _ ← infer_block (infer (with_label C LABEL_TYPE_LOOP sig)) es sig; Some (S ++ pushed sig)
  | EXPR_IF _ sig es fs =>
      S ← pop_suffix [WASM_TYPE_I32] S;
      _ ← infer_block (infer (with_label C LABEL_TYPE_IF sig)) es sig;
      _ ← infer_block (infer (with_label C LABEL_TYPE_IF sig)) fs sig;
      Some (S ++ pushed sig)
  | EXPR_BR var => _ ← infer_br C var S; Some [WASM_TYPE_ANY]
  | EXPR_BR_IF var =>
      S ← pop_suffix [WASM_TYPE_I32] S; _ ← infer_br C var S; Some S
  | EXPR_BR_TABLE targets default =>
      S ← pop_suffix [WASM_TYPE_I32] S;
      _ ← mapM (fun v => infer_br C v S) targets;
      _ ← infer_br C default S; Some [WASM_TYPE_ANY]
  | EXPR_RETURN =>
      _ ← pop_suffix (result_types (decl_sig (func_decl (tc_func C)))) S; Some [WASM_TYPE_ANY]
  | EXPR_CALL var =>
      f ← var_in (module_funcs (tc_module C)) var; infer_call (decl_sig (func_decl f)) S
  | EXPR_CALL_INDIRECT var =>
      _ ← guard_b (bool_decide (0 < length (module_tables (tc_module C)))%nat);
      ft ← var_in (module_func_types (tc_module C)) var;
      S ← match S with [] => Some [] | _ => pop_suffix [WASM_TYPE_I32] S end;
      infer_call (func_type_sig ft) S
  | EXPR_GET_LOCAL var => t ← local_type true (tc_func C) var; Some (S ++ pushed [t])
  | EXPR_SET_LOCAL var => t ← local_type true (tc_func C) var; pop_suffix [t] S
  | EXPR_TEE_LOCAL var =>
      _ ← local_type true (tc_func C) var; _ ← pop_any S; Some S
  | EXPR_GET_GLOBAL var =>
      g ← var_in (module_globals (tc_module C)) var; Some (S ++ pushed [global_type g])
  | EXPR_SET_GLOBAL var =>
      g ← var_in (module_globals (tc_module C)) var; pop_suffix [global_type g] S
  | EXPR_LOAD op align offset =>
      _ ← infer_has_memory C; _ ← infer_memarg op align offset; infer_op1 op S
  | EXPR_STORE op align offset =>
      _ ← infer_has_memory C; _ ← infer_memarg op align offset; infer_op2 op S
  | EXPR_CURRENT_MEMORY => _ ← infer_has_memory C; Some (S ++ [WASM_TYPE_I32])
  | EXPR_GROW_MEMORY => _ ← infer_has_memory C; infer_op1 WASM_OPCODE_GROW_MEMORY S
  end.

(** ** [infer] decides the typing relation *)

Lemma pop_suffix_Some ts S S0 : pop_suffix ts S = Some S0 <-> S = S0 ++ ts.
Proof.
  unfold pop_suffix. split.
  - case_decide as E; [|done]. intros [= <-]. rewrite <- E at 2. by rewrite take_drop.
  - intros ->. rewrite length_app, Nat.add_sub, drop_app_length, take_app_length.
    by rewrite decide_True.
Qed.

Lemma pop_suffix_app ts S : pop_suffix ts (S ++ ts) = Some S.
Proof. by apply pop_suffix_Some. Qed.

Lemma pop_any_Some S t S0 : pop_any S = Some (t, S0) <-> S = S0 ++ [t].
Proof.
  unfold pop_any. destruct S as [|x S' _] using rev_ind; cbn [mbind option_bind last].
  - split; [done|]. by destruct S0.
  - rewrite last_snoc. cbn [mbind option_bind].
    rewrite length_app, Nat.add_sub, take_app_length. split.
    + intros [= <- <-]. done.
    + intros [-> [= ->]]%app_inj_tail. done.
Qed.

Lemma pop_any_snoc S t : pop_any (S ++ [t]) = Some (t, S).
Proof. by apply pop_any_Some. Qed.

Lemma guard_b_Some b u : guard_b b = Some u <-> b = true.
Proof. destruct b, u; cbn; naive_solver. Qed.

Lemma infer_br_Some C var S u :
  infer_br C var S = Some u <-> exists args, label_args C var = Some args /\ args `suffix_of` S.
Proof.
  unfold infer_br. destruct u, (label_args C var) as [args|]; cbn [mbind option_bind];
    [|naive_solver]. split.
  - destruct (pop_suffix args S) as [S0|] eqn:E; [|done]. apply pop_suffix_Some in E.
    intros _. exists args. split; [done|]. by exists S0.
  - intros (? & [= <-] & S0 & ->). by rewrite pop_suffix_app.
Qed.

Lemma infer_memarg_Some op align offset u :
  infer_memarg op align offset = Some u <-> memarg_ok op align offset.
Proof.
  unfold infer_memarg, memarg_ok, guard_b. destruct u.
  destruct (Z.eqb_spec align WASM_USE_NATURAL_ALIGNMENT), (is_power_of_two align),
    (Z.leb_spec align (wasm_get_opcode_memory_size op)), (Z.leb_spec offset UINT32_MAX);
    cbn; naive_solver lia.
Qed.

Lemma infer_has_memory_Some C u : infer_has_memory C = Some u <-> has_memory C.
Proof. unfold infer_has_memory, has_memory. destruct u, (module_memories (tc_module C)); naive_solver. Qed.

Lemma tables_guard_Some C u :
  guard_b (bool_decide (0 < length (module_tables (tc_module C)))%nat) = Some u <->
  module_tables (tc_module C) <> [].
Proof.
  rewrite guard_b_Some, bool_decide_eq_true.
  destruct (module_tables (tc_module C)); cbn [length]; naive_solver lia.
Qed.

Scheme has_type_mut := Minimality for has_type Sort Prop
  with block_has_type_mut := Minimality for block_has_type Sort Prop.

(** Split a successful chain of partial steps. *)
Ltac infer_inv :=
  repeat match goal with
  | H : (?o ≫= _) = Some _ |- _ =>
      let E := fresh "E" in destruct o eqn:E; [|discriminate H]; cbn [mbind option_bind] in H
  | H : Some _ = Some _ |- _ => injection H as H; subst
  | H : pop_suffix _ _ = Some _ |- _ => apply pop_suffix_Some in H; subst
  | H : pop_any _ = Some _ |- _ => apply pop_any_Some in H; subst
  | H : infer_br _ _ _ = Some _ |- _ => apply infer_br_Some in H as (? & ? & ? & ->)
  | H : infer_memarg _ _ _ = Some _ |- _ => apply infer_memarg_Some in H
  | H : infer_has_memory _ = Some _ |- _ => apply infer_has_memory_Some in H
  | p : _ * _ |- _ => destruct p
  end.

Lemma infer_seq_sound C es S r rs :
  Forall (fun e => forall C S S', infer C e S = Some S' -> has_type true C e S S') es ->
  infer_seq (infer C) es S = Some r -> r = None \/ r = Some rs -> block_has_type true C es S rs.
Proof.
  intros Hes. revert S. induction Hes as [|e es He _ IH]; intros S; cbn [infer_seq].
  - intros [= <-] [?|[= ->]]; [done|constructor].
  - intros H Hr. destruct (infer C e S) as [S'|] eqn:E; [|done]. cbn [mbind option_bind] in H.
    apply He in E. case_decide as Hl; [by eapply B_stop|]. eapply B_cons; eauto.
Qed.

Lemma infer_block_sound C es sig u :
  Forall (fun e => forall C S S', infer C e S = Some S' -> has_type true C e S S') es ->
  infer_block (infer C) es sig = Some u -> block_has_type true C es [] sig.
Proof.
  intros Hes. unfold infer_block. destruct (infer_seq _ es []) as [r|] eqn:E; [|done].
  cbn [mbind option_bind]. intros H. eapply infer_seq_sound; [done..|].
  destruct r as [S'|]; [right|by left]. apply guard_b_Some, bool_decide_eq_true in H. congruence.
Qed.

Lemma infer_sound : forall e C S S', infer C e S = Some S' -> has_type true C e S S'.
Proof.
  apply (WasmExpr_nested_ind (fun e => forall C S S', infer C e S = Some S' -> has_type true C e S S'));
    [intros l s es IH|intros l s es IH|intros l s es fs IH1 IH2|intros e; destruct e; try done];
    intros C S S' H; cbn [infer] in H; unfold infer_op1, infer_op2, infer_call in H.
  - infer_inv. constructor; [done|by eapply infer_block_sound].
  - infer_inv. constructor; [done|by eapply infer_block_sound].
  - infer_inv. constructor; [done|by eapply infer_block_sound..].
  - infer_inv. apply T_binary.
  - infer_inv. by constructor.
  - infer_inv. rewrite <- app_assoc. by constructor.
  - infer_inv. apply T_br_table; [|done]. apply Forall_app. split; [|apply Forall_singleton; eexists; split; [done|by eexists]].
    apply mapM_Some in E0. apply Forall_forall. intros v Hv.
    apply list_elem_of_lookup in Hv as [i Hi]. destruct (Forall2_lookup_l _ _ _ _ _ E0 Hi) as (u1 & _ & Hu).
    by apply infer_br_Some in Hu.
  - infer_inv. by constructor.
  - infer_inv. apply tables_guard_Some in E. destruct S as [|t0 S2] eqn:ES.
    + injection E1 as E1. symmetry in E1. apply app_eq_nil in E1 as [-> ?]. by constructor.
    + apply pop_suffix_Some in E1. rewrite E1, <- app_assoc. by constructor.
  - infer_inv. apply T_compare.
  - infer_inv. constructor.
  - infer_inv. constructor.
  - infer_inv. by constructor.
  - infer_inv. constructor.
  - infer_inv. by constructor.
  - infer_inv. by constructor.
  - infer_inv. by apply (T_grow_memory true).
  - infer_inv. by constructor.
  - infer_inv. constructor.
  - infer_inv. constructor.
  - infer_inv. case_decide; [|done]. infer_inv. rewrite <- !app_assoc. constructor.
  - infer_inv. by constructor.
  - infer_inv. by constructor.
  - infer_inv. by constructor.
  - infer_inv. by eapply T_tee_local_any.
  - infer_inv. constructor.
  - infer_inv. constructor.
Qed.

Lemma infer_block_complete C es sig :
  (exists r, infer_seq (infer C) es [] = Some r /\ (r = None \/ r = Some sig)) ->
  infer_block (infer C) es sig = Some tt.
Proof.
  intros (r & E & Hr). unfold infer_block. rewrite E. cbn [mbind option_bind].
  destruct Hr as [->| ->]; [done|]. by rewrite bool_decide_eq_true_2.
Qed.

Lemma infer_complete C e S S' : has_type true C e S S' -> infer C e S = Some S'.
Proof.
  revert C e S S'. apply (has_type_mut true (fun C e S S' => infer C e S = Some S')
    (fun C es S rs => exists r, infer_seq (infer C) es S = Some r /\ (r = None \/ r = Some rs)));
    intros; cbn [infer infer_seq]; unfold infer_op1, infer_op2, infer_call;
    repeat match goal with
    | H : has_memory _ |- _ => apply (infer_has_memory_Some _ tt) in H as ->
    | H : memarg_ok _ _ _ |- _ => apply (infer_memarg_Some _ _ _ tt) in H as ->
    | H : var_in _ _ = Some _ |- _ => rewrite H; clear H
    | H : local_type _ _ _ = Some _ |- _ => rewrite H; clear H
    | H : module_tables _ <> [] |- _ => apply (tables_guard_Some _ tt) in H as ->
    end; cbn [mbind option_bind]; rewrite ?pop_suffix_app, ?pop_any_snoc; cbn [mbind option_bind];
    try done.
  - replace (S ++ [t; t; WASM_TYPE_I32]) with (((S ++ [t]) ++ [t]) ++ [WASM_TYPE_I32])
      by (by rewrite <- !app_assoc).
    rewrite pop_suffix_app. cbn [mbind option_bind]. rewrite pop_any_snoc. cbn [mbind option_bind].
    rewrite pop_any_snoc. cbn [mbind option_bind]. by rewrite decide_True.
  - by rewrite infer_block_complete.
  - by rewrite infer_block_complete.
  - by rewrite !infer_block_complete.
  - rewrite (proj2 (infer_br_Some C var (S ++ args) tt)); [done|]. eexists. split; [done|by eexists].
  - rewrite app_assoc, pop_suffix_app. cbn [mbind option_bind].
    rewrite (proj2 (infer_br_Some C var (S ++ args) tt)); [done|]. eexists. split; [done|by eexists].
  - apply Forall_app in H as [Ht Hd]. rewrite Forall_singleton in Hd.
    apply (infer_br_Some _ _ _ tt) in Hd as ->.
    assert (is_Some (mapM (fun v => infer_br C v S) targets)) as [us ->]; [|done].
    apply mapM_is_Some. eapply Forall_impl; [exact Ht|]. cbn. intros v Hv.
    apply (infer_br_Some _ _ _ tt) in Hv as ->. done.
  - rewrite app_assoc. destruct ((S ++ param_types (func_type_sig ft)) ++ [WASM_TYPE_I32]) eqn:E.
    + by apply app_eq_nil in E as [_ ?].
    + rewrite <- E, pop_suffix_app. cbn [mbind option_bind]. by rewrite pop_suffix_app.
  - rewrite H2. done.
  - eauto.
  - rewrite H0. cbn [mbind option_bind]. rewrite decide_False by done. done.
  - rewrite H0. cbn [mbind option_bind]. rewrite decide_True by done. eauto.
Qed.

(** ** The checker implements [infer] *)

(** The context [c] after [es] more errors, with [S] on the type stack above
    that of [c]. *)
Definition upd (c : Context) (S : list WasmType) (es : list string) : Context :=
  mkContext (ctx_script c) (current_module c) (current_func c) (current_table_index c)
    (current_memory_index c) (current_global_index c) (num_imported_globals c)
    (type_stack c ++ S) (top_label c) (max_depth c)
    (match es with [] => ctx_result c | _ => WASM_ERROR end) (errors c ++ es).

(** The innermost label starts where the type stack of [c] ends. *)
Definition at_limit (c : Context) : Prop :=
  exists l ls, top_label c = l :: ls /\ label_type_stack_limit l = length (type_stack c).

(** [m], run on top of [c] with operand stack [S], does not abort, leaves
    [S'] and reports the errors [e]. *)
Definition run {A} (c : Context) (m : V A) (S : list WasmType) (a : A) (S' : list WasmType)
    (e : list string) : Prop :=
  forall es, m (upd c S es) = Some (a, upd c S' (es ++ e)).

(** [m] does not abort; it gives the value and stack of [o] without an error,
    or reports one if [o] is empty. *)
Definition spec {A} (c : Context) (m : V A) (S : list WasmType) (o : option (A * list WasmType)) : Prop :=
  exists a S' e, run c m S a S' e /\
    match o with
    | Some (a0, S0) => e = [] /\ a = a0 /\ S' = S0
    | None => e <> []
    end.

Lemma upd_error c S es fmt : set_error fmt (upd c S es) = upd c S (es ++ [fmt]).
Proof. unfold set_error, upd. cbn. rewrite app_assoc. by destruct es. Qed.

Section rules.
Context {c : Context}.

Lemma run_ret {A} (a : A) S : run c (so_ret a) S a S [].
Proof. intros es. by rewrite app_nil_r. Qed.

Lemma run_bind {A B} (m : V A) (k : A -> V B) S a S1 e1 b S2 e2 :
  run c m S a S1 e1 -> run c (k a) S1 b S2 e2 -> run c (so_bind m k) S b S2 (e1 ++ e2).
Proof. intros Hm Hk es. unfold so_bind. by rewrite Hm, Hk, app_assoc. Qed.

(** When the first part reports nothing. *)
Lemma run_bind0 {A B} (m : V A) (k : A -> V B) S a S1 b S2 e :
  run c m S a S1 [] -> run c (k a) S1 b S2 e -> run c (so_bind m k) S b S2 e.
Proof. apply run_bind. Qed.

Lemma run_print fmt S : run c (print_error fmt) S tt S [fmt].
Proof. intros es. unfold print_error, so_modify. by rewrite upd_error. Qed.

Lemma run_lift {A} (x : option A) a S : x = Some a -> run c (so_lift x) S a S [].
Proof. intros -> es. by rewrite app_nil_r. Qed.

(** Reading the context: what follows may use the stack and the fixed parts. *)
Lemma run_get {A} (k : Context -> V A) S a S' e :
  (forall es, run c (k (upd c S es)) S a S' e) -> run c (so_bind so_get k) S a S' e.
Proof. intros H es. apply (H es es). Qed.

Lemma spec_run {A} (m : V A) S a S' : run c m S a S' [] -> spec c m S (Some (a, S')).
Proof. intros H. by exists a, S', []. Qed.

Lemma spec_fail {A} (m : V A) S a S' e : run c m S a S' e -> e <> [] -> spec c m S None.
Proof. intros H He. by exists a, S', e. Qed.

Lemma spec_ext {A} (m : V A) S o o' : spec c m S o -> o = o' -> spec c m S o'.
Proof. by intros H <-. Qed.

(** The continuation succeeds or fails whatever the first part left, and its
    verdict counts when the first part succeeded. *)
Lemma spec_bind {A B} (m : V A) (k : A -> V B) S o f o' :
  spec c m S o -> (forall a S', spec c (k a) S' (f a S')) ->
  o' = ('(a, S') ← o; f a S') -> spec c (so_bind m k) S o'.
Proof.
  intros (a & S1 & e1 & R1 & H1) Hk ->.
  destruct (Hk a S1) as (b & S2 & e2 & R2 & H2).
  exists b, S2, (e1 ++ e2). split; [by eapply run_bind|].
  destruct o as [[a0 S0]|]; cbn [mbind option_bind].
  - destruct H1 as (-> & <- & <-). done.
  - by destruct e1.
Qed.

Lemma spec_bind0 {A B} (m : V A) (k : A -> V B) S a S1 o :
  run c m S a S1 [] -> spec c (k a) S1 o -> spec c (so_bind m k) S o.
Proof.
  intros Hm (b & S2 & e & R & H). exists b, S2, e. split; [by eapply run_bind0|done].
Qed.

(** A failure is one whatever follows. *)
Lemma spec_bind_fail {A B} (m : V A) (k : A -> V B) S a S1 e o :
  run c m S a S1 e -> e <> [] -> spec c (k a) S1 o -> spec c (so_bind m k) S None.
Proof.
  intros Hm He (b & S2 & e2 & R & _). exists b, S2, (e ++ e2).
  split; [by eapply run_bind|by destruct e].
Qed.

Lemma spec_get {A} (k : Context -> V A) S o :
  (exists k', forall es, k (upd c S es) = k' /\ spec c k' S o) -> spec c (so_bind so_get k) S o.
Proof.
  intros (k' & H). destruct (H []) as [_ (a & S' & e & R & Ho)]. exists a, S', e. split; [|done].
  apply run_get. intros es. destruct (H es) as [-> _]. done.
Qed.

Lemma spec_ret {A} (a : A) S : spec c (so_ret a) S (Some (a, S)).
Proof. apply spec_run, run_ret. Qed.

Lemma spec_print fmt S : spec c (print_error fmt) S None.
Proof. eapply spec_fail; [apply run_print|done]. Qed.

(** A test that may report an error. *)
Lemma spec_test (b : bool) fmt S :
  spec c (if b then print_error fmt else so_ret tt) S (if b then None else Some (tt, S)).
Proof. destruct b; [apply spec_print|apply spec_ret]. Qed.
End rules.

Section stack.
Context {c : Context} (Hc : at_limit c).

Lemma run_limit S : run c type_stack_limit S (length (type_stack c)) S [].
Proof.
  destruct Hc as (l & ls & Hl & Hlim). intros es. rewrite app_nil_r.
  unfold type_stack_limit, get_top_label, so_bind, so_get, so_lift.
  cbn. rewrite Hl. cbn. by rewrite Hlim.
Qed.

Lemma run_avail S : run c type_stack_avail S (length S) S [].
Proof.
  eapply run_bind0; [apply run_limit|]. apply run_get. intros es. cbn [type_stack upd].
  rewrite length_app. rewrite (proj2 (Nat.leb_le _ _)) by lia.
  eapply run_bind0; [apply run_ret|].
  replace (_ - _)%nat with (length S) by lia. apply run_ret.
Qed.

Lemma run_set_size S n k :
  n = (length (type_stack c) + k)%nat -> (k <= length S)%nat ->
  run c (set_type_stack_size n) S tt (take k S) [].
Proof.
  intros -> Hn es. unfold set_type_stack_size, so_bind, so_get, so_assert. cbn [type_stack upd].
  rewrite length_app, (proj2 (Nat.leb_le _ _)) by lia. unfold so_ret, so_put. cbn [type_stack upd].
  rewrite take_app_add, app_nil_r. done.
Qed.

Lemma run_reset S : run c reset_type_stack_to_limit S tt [] [].
Proof.
  eapply run_bind0; [apply run_limit|]. apply (run_set_size S _ 0); lia.
Qed.

Lemma run_push S t : run c (push_type t) S tt (S ++ pushed [t]) [].
Proof.
  unfold push_type, pushed. rewrite filter_cons, filter_nil. case_decide as E.
  - rewrite decide_False by naive_solver. rewrite app_nil_r. apply run_ret.
  - rewrite decide_True by done. intros es. unfold so_modify, set_type_stack, upd. cbn.
    by rewrite app_assoc, app_nil_r.
Qed.

Lemma run_push_types S ts : run c (push_types ts) S tt (S ++ pushed ts) [].
Proof.
  unfold push_types. revert S. induction ts as [|t ts IH]; intros S; cbn [so_for].
  - rewrite app_nil_r. apply run_ret.
  - eapply run_bind0; [apply run_push|].
    replace (S ++ pushed (t :: ts)) with ((S ++ pushed [t]) ++ pushed ts); [apply IH|].
    rewrite <- app_assoc. f_equal. unfold pushed. by rewrite <- filter_app.
Qed.

Lemma run_set_unreachable S : run c set_unreachable S tt [WASM_TYPE_ANY] [].
Proof. eapply run_bind0; [apply run_reset|]. apply (run_push []). Qed.

Lemma run_check_limit S n :
  run c (check_type_stack_limit n) S
    (if (length S <? n)%nat then WASM_ERROR else WASM_OK) S
    (if (length S <? n)%nat then ["type stack size too small at %s. got %zd, expected at least %zd"%string]
     else []).
Proof.
  eapply run_bind0; [apply run_avail|]. destruct (length S <? n)%nat; [|apply run_ret].
  rewrite <- (app_nil_r [_]). eapply run_bind; [apply run_print|apply run_ret].
Qed.

Lemma run_data S i t : S !! i = Some t -> run c (type_stack_data (length (type_stack c) + i)) S t S [].
Proof.
  intros Hi. apply run_get. intros es. apply run_lift. cbn [type_stack upd].
  by rewrite lookup_app_r, Nat.add_sub_swap, Nat.sub_diag by lia.
Qed.

Lemma run_top_nil : run c top_type [] WASM_TYPE_I32 [] [].
Proof.
  unfold top_type, peek_type. cbn [Z.ltb]. eapply run_bind0; [apply run_avail|].
  apply run_get. intros es. apply run_ret.
Qed.

Lemma run_top_snoc S t : run c top_type (S ++ [t]) t (S ++ [t]) [].
Proof.
  unfold top_type, peek_type. cbn [Z.ltb]. eapply run_bind0; [apply run_avail|].
  apply run_get. intros es. rewrite length_app. cbn [length].
  rewrite (proj2 (Nat.ltb_lt _ _)) by lia. cbn [type_stack upd]. rewrite !length_app. cbn [length].
  replace (_ - 0 - 1)%nat with (length (type_stack c) + length S)%nat by lia.
  apply run_data. by rewrite lookup_app_r, Nat.sub_diag.
Qed.

Lemma run_pop_nil : run c pop_type [] WASM_TYPE_I32 [] [].
Proof.
  eapply run_bind0; [apply run_top_nil|]. eapply run_bind0; [apply run_limit|].
  apply run_get. intros es. cbn [type_stack upd]. rewrite app_nil_r, Nat.ltb_irrefl.
  eapply run_bind0; apply run_ret.
Qed.

Lemma run_pop_snoc S t : run c pop_type (S ++ [t]) t S [].
Proof.
  eapply run_bind0; [apply run_top_snoc|]. eapply run_bind0; [apply run_limit|].
  apply run_get. intros es. cbn [type_stack upd]. rewrite !length_app. cbn [length].
  rewrite (proj2 (Nat.ltb_lt _ _)) by lia. eapply run_bind0; [|apply run_ret].
  pose proof (run_set_size (S ++ [t]) (length (type_stack c) + (length S + 1) - 1) (length S)) as R.
  rewrite take_app_length, length_app in R. cbn [length] in R. apply R; lia.
Qed.

Lemma spec_check_type a t S :
  spec c (check_type a t) S (if decide (a = t) then Some (tt, S) else None).
Proof. unfold check_type. case_decide; [apply spec_ret|apply spec_print]. Qed.

Lemma pop_suffix_short ts S : (length S < length ts)%nat -> pop_suffix ts S = None.
Proof.
  intros Hl. destruct (pop_suffix ts S) as [S0|] eqn:E; [|done].
  apply pop_suffix_Some in E as ->. rewrite length_app in Hl. lia.
Qed.

Lemma pop_suffix_cons_snoc ts t S a :
  pop_suffix (ts ++ [t]) (S ++ [a]) = if decide (a = t) then pop_suffix ts S else None.
Proof.
  destruct (pop_suffix (ts ++ [t]) (S ++ [a])) as [S0|] eqn:E.
  - apply pop_suffix_Some in E. rewrite app_assoc in E. apply app_inj_tail in E as [-> ->].
    by rewrite decide_True, pop_suffix_app.
  - case_decide as Ea; [subst|done]. destruct (pop_suffix ts S) as [S0|] eqn:E2; [|done].
    apply pop_suffix_Some in E2 as ->. rewrite <- app_assoc, pop_suffix_app in E. done.
Qed.

Lemma pop_suffix_nil S : pop_suffix [] S = Some S.
Proof. apply pop_suffix_Some. by rewrite app_nil_r. Qed.

(** A missing operand is reported and nothing is popped. *)
Lemma spec_check_limit_fail {A} S n (k : WasmResult -> V A) o :
  (length S < n)%nat -> spec c (k WASM_ERROR) S o ->
  spec c (so_bind (check_type_stack_limit n) k) S None.
Proof.
  intros Hn Hk. pose proof (run_check_limit S n) as R.
  rewrite (proj2 (Nat.ltb_lt _ _)) in R by done. eapply spec_bind_fail; [exact R|done|exact Hk].
Qed.

Lemma spec_check_limit_ok {A} S n (k : WasmResult -> V A) o :
  (n <= length S)%nat -> spec c (k WASM_OK) S o -> spec c (so_bind (check_type_stack_limit n) k) S o.
Proof.
  intros Hn Hk. pose proof (run_check_limit S n) as R.
  rewrite (proj2 (Nat.ltb_ge _ _)) in R by done. eapply spec_bind0; [exact R|exact Hk].
Qed.

Definition unit_at (o : option (list WasmType)) : option (unit * list WasmType) := (fun S => (tt, S)) <$> o.

Lemma spec_pop1 t S : spec c (pop_and_check_1_type t) S (unit_at (pop_suffix [t] S)).
Proof.
  unfold pop_and_check_1_type. destruct S as [|a S _] using rev_ind.
  - rewrite pop_suffix_short by (cbn; lia).
    eapply spec_check_limit_fail; [cbn; lia|apply spec_ret].
  - eapply spec_check_limit_ok; [rewrite length_app; cbn [length]; lia|]. cbn [WASM_SUCCEEDED].
    eapply spec_bind0; [apply run_pop_snoc|]. eapply spec_ext; [apply spec_check_type|].
    pose proof (pop_suffix_cons_snoc [] t S a) as E. cbn [app] in E. rewrite E, pop_suffix_nil.
    by case_decide.
Qed.

Lemma spec_pop2 t1 t2 S : spec c (pop_and_check_2_types t1 t2) S (unit_at (pop_suffix [t1; t2] S)).
Proof.
  unfold pop_and_check_2_types. destruct (decide (length S < 2)%nat) as [Hl|Hl].
  { rewrite pop_suffix_short by done. eapply spec_check_limit_fail; [done|apply spec_ret]. }
  eapply spec_check_limit_ok; [lia|]. cbn [WASM_SUCCEEDED].
  destruct S as [|a2 S _] using rev_ind; [cbn in Hl; lia|].
  destruct S as [|a1 S _] using rev_ind; [cbn in Hl; lia|].
  eapply spec_bind0; [apply run_pop_snoc|]. eapply spec_bind0; [apply run_pop_snoc|].
  eapply spec_bind; [apply spec_check_type|intros ? S'; apply spec_check_type|].
  pose proof (pop_suffix_cons_snoc [t1] t2 (S ++ [a1]) a2) as E.
  pose proof (pop_suffix_cons_snoc [] t1 S a1) as E1. cbn [app] in E, E1.
  rewrite E, E1, pop_suffix_nil. by do 2 case_decide.
Qed.
End stack.

(** ** Checks that leave the stack alone *)

(** [m] does not change the stack, and reports an error unless [P]. *)
Definition checks {A} (c : Context) (m : V A) (S : list WasmType) (P : Prop) : Prop :=
  exists a e, run c m S a S e /\ (e = [] <-> P).

Section checks.
Context {c : Context}.

Lemma checks_ret {A} (a : A) S : checks c (so_ret a) S True.
Proof. exists a, []. split; [apply run_ret|done]. Qed.

Lemma checks_print fmt S : checks c (print_error fmt) S False.
Proof. exists tt, [fmt]. split; [apply run_print|done]. Qed.

Lemma checks_iff {A} (m : V A) S P Q : checks c m S P -> (P <-> Q) -> checks c m S Q.
Proof. intros (a & e & R & H) HPQ. exists a, e. split; [done|]. by rewrite H. Qed.

Lemma checks_bind {A B} (m : V A) (k : A -> V B) S P Q :
  checks c m S P -> (forall a, checks c (k a) S Q) -> checks c (so_bind m k) S (P /\ Q).
Proof.
  intros (a & e & R & H) Hk. destruct (Hk a) as (b & e2 & R2 & H2).
  exists b, (e ++ e2). split; [by eapply run_bind|]. rewrite <- H, <- H2. apply app_nil.
Qed.

Lemma checks_then {A} (m : V A) S P : checks c m S P -> checks c (so_bind m (fun _ => so_ret tt)) S P.
Proof.
  intros H. eapply checks_iff; [eapply checks_bind; [exact H|intros; apply checks_ret]|tauto].
Qed.

Lemma checks_if_print (b : bool) fmt S :
  checks c (if b then print_error fmt else so_ret tt) S (b = false).
Proof.
  destruct b; (eapply checks_iff; [apply checks_print || apply checks_ret|]); naive_solver.
Qed.

Lemma checks_if {A} (b : bool) (m m' : V A) S P P' :
  (b = true -> checks c m S P) -> (b = false -> checks c m' S P') ->
  checks c (if b then m else m') S (if b then P else P').
Proof. destruct b; auto. Qed.

Lemma checks_decide (P : Prop) `{Decision P} fmt S :
  checks c (if decide P then so_ret tt else print_error fmt) S P.
Proof. case_decide; (eapply checks_iff; [apply checks_print || apply checks_ret|]); tauto. Qed.

Lemma checks_for {A} (f : A -> V unit) l S (P : A -> Prop) :
  (forall x, x ∈ l -> checks c (f x) S (P x)) -> checks c (so_for f l) S (Forall P l).
Proof.
  induction l as [|x l IH]; intros Hf; cbn [so_for].
  - eapply checks_iff; [apply checks_ret|]. by rewrite Forall_nil.
  - eapply checks_iff; [|symmetry; apply Forall_cons].
    eapply checks_bind; [apply Hf; set_solver|intros _; apply IH; set_solver].
Qed.

Lemma checks_get {A} (k : Context -> V A) S P :
  (exists k', (forall es, k (upd c S es) = k') /\ checks c k' S P) -> checks c (so_bind so_get k) S P.
Proof.
  intros (k' & Hk & a & e & R & H). exists a, e. split; [|done].
  apply run_get. intros es. by rewrite Hk.
Qed.

(** In front of another computation a check decides between it and failure. *)
Lemma spec_bind_checks {A B} (m : V A) (k : A -> V B) S P o o' :
  checks c m S P -> (forall a, spec c (k a) S o) -> (P -> o' = o) -> (~ P -> o' = None) ->
  spec c (so_bind m k) S o'.
Proof.
  intros (a & e & R & H) Hk HP HnP. destruct e as [|s e].
  - rewrite HP by (by apply H). by eapply spec_bind0.
  - rewrite HnP by (by rewrite <- H). by eapply spec_bind_fail.
Qed.

(** The same against the partial function: [x] is empty when the check fails. *)
Lemma spec_bind_guard {A B} (m : V A) (k : A -> V B) S (x : option unit) o :
  checks c m S (x = Some tt) -> (forall a, spec c (k a) S o) ->
  spec c (so_bind m k) S (_ ← x; o).
Proof.
  intros Hm Hk. eapply spec_bind_checks; [exact Hm|exact Hk|..].
  - by intros ->.
  - destruct x as [[]|]; [|done]. by intros [].
Qed.

Lemma run_print_ret {A} fmt (a : A) S :
  run c (so_bind (print_error fmt) (fun _ => so_ret a)) S a S [fmt].
Proof. rewrite <- (app_nil_r [fmt]). eapply run_bind; [apply run_print|apply run_ret]. Qed.

(** A variable looked up in a vector of the module. *)
Lemma run_element_var {A} (l : list A) index S :
  exists e, run c (check_element_var l (VAR_INDEX index)) S
              ((fun x => (index, x)) <$> zget l index) S e /\
    (e = [] <-> is_Some (zget l index)).
Proof.
  unfold check_element_var, check_var.
  destruct (decide (0 <= index < Z.of_nat (length l))) as [Hi|Hi].
  - destruct (zget_is_Some l index Hi) as [x Hx]. exists []. rewrite Hx.
    split; [|split; [by eexists|done]].
    rewrite (proj2 (Z.leb_le _ _)), (proj2 (Z.ltb_lt _ _)) by lia.
    eapply run_bind0; [apply run_ret|]. eapply run_bind0; [by apply run_lift|]. apply run_ret.
  - assert (zget l index = None) as ->
      by (destruct (zget l index) as [x|] eqn:E; [apply zget_lt in E; lia|done]).
    exists (["%s variable out of range (max %d)"%string] ++ []). split; [|split; [done|by intros [? ?]]].
    + replace ((0 <=? index) && (index <? Z.of_nat (length l))) with false
        by (symmetry; apply andb_false_iff; rewrite Z.leb_gt, Z.ltb_ge; lia).
      eapply run_bind; [apply run_print_ret|apply run_ret].
Qed.
End checks.

(** [get_vec] is the vector of the current module a [check_*_var] consults,
    [proj] the part of the result it returns. *)
Lemma run_var {A B} (c : Context) (get_vec : WasmModule -> list A) (proj : Z * A -> B) index S :
  exists e, run c (so_bind so_get (fun c =>
      so_bind (check_element_var (get_vec (current_module c)) (VAR_INDEX index))
        (fun r => so_ret (proj <$> r)))) S
      ((fun x => proj (index, x)) <$> zget (get_vec (current_module c)) index) S e /\
    (e = [] <-> is_Some (zget (get_vec (current_module c)) index)).
Proof.
  destruct (run_element_var (c := c) (get_vec (current_module c)) index S) as (e & R & H).
  exists e. split; [|done]. apply run_get. intros es. cbn [current_module upd].
  rewrite <- (app_nil_r e). eapply run_bind; [exact R|].
  destruct (zget _ index); apply run_ret.
Qed.

(** A lookup in front of the rest: the rest runs on the element, and whatever
    it does for [None] does not matter. *)
Lemma spec_bind_var {A B C} (c : Context) (get_vec : WasmModule -> list A) (proj : Z * A -> B)
    (m : V (option B)) (k : option B -> V C) index S (o : A -> option (C * list WasmType)) o1 :
  m = so_bind so_get (fun c =>
      so_bind (check_element_var (get_vec (current_module c)) (VAR_INDEX index))
        (fun r => so_ret (proj <$> r))) ->
  (forall x, zget (get_vec (current_module c)) index = Some x ->
     spec c (k (Some (proj (index, x)))) S (o x)) ->
  spec c (k None) S o1 ->
  spec c (so_bind m k) S (x ← zget (get_vec (current_module c)) index; o x).
Proof.
  intros -> Hk H1. destruct (run_var c get_vec proj index S) as (e & R & H).
  destruct (zget _ index) as [x|] eqn:E; cbn [fmap option_fmap option_map mbind option_bind] in *.
  - rewrite (proj2 H) in R by (by eexists). eapply spec_bind0; [exact R|by apply Hk].
  - eapply spec_bind_fail; [exact R| |exact H1]. intros ->. by destruct (proj1 H eq_refl).
Qed.

Lemma checks_var {A B} (c : Context) (get_vec : WasmModule -> list A) (proj : Z * A -> B)
    (m : V (option B)) index S :
  m = so_bind so_get (fun c =>
      so_bind (check_element_var (get_vec (current_module c)) (VAR_INDEX index))
        (fun r => so_ret (proj <$> r))) ->
  checks c m S (is_Some (var_in (get_vec (current_module c)) (VAR_INDEX index))).
Proof.
  intros ->. destruct (run_var c get_vec proj index S) as (e & R & H). eexists _, e. by split.
Qed.

(** ** The checks of [check_expr] *)

Definition typing_context (c : Context) (f : WasmFunc) : TypeContext :=
  mkTypeContext (current_module c) f
    (map (fun l => (label_type l, label_sig l)) (top_label c)).

Lemma infer_br_iff C var S args :
  label_args C var = Some args -> infer_br C var S = Some tt <-> args `suffix_of` S.
Proof. intros E. rewrite infer_br_Some, E. naive_solver. Qed.

Section check_parts.
Context {c : Context} (Hc : at_limit c).

Lemma checks_top_types check S0 ts S :
  (forall a e S, checks c (check a e) S (a = e)) -> length ts = length S ->
  checks c (check_top_types check ts) (S0 ++ S) (S = ts).
Proof.
  intros Hcheck Hlen. unfold check_top_types. rewrite Hlen.
  assert (forall l1 l2 ts2, S = l1 ++ l2 -> length ts2 = length l2 ->
    checks c (so_fori (fun i e => so_bind so_get (fun c0 =>
      so_bind (type_stack_data (length (type_stack c0) - length S + i)) (fun actual => check actual e)))
      (length l1) ts2) (S0 ++ S) (l2 = ts2)) as H.
  { intros l1 l2 ts2. revert l1 l2. induction ts2 as [|t ts2 IH]; intros l1 [|a l2] HS Hl; try done;
      cbn [so_fori].
    - eapply checks_iff; [apply checks_ret|done].
    - eapply checks_iff; [eapply checks_bind|].
      + apply checks_get. eexists. split.
        { intros es. cbn [type_stack upd]. rewrite !length_app. reflexivity. }
        assert (run c (type_stack_data (length (type_stack c) + (length S0 + length S) - length S + length l1))
                  (S0 ++ S) a (S0 ++ S) []) as R.
        { replace (_ - _ + _)%nat with (length (type_stack c) + (length S0 + length l1))%nat by lia.
          apply run_data. rewrite HS, app_assoc, lookup_app_r by (rewrite length_app; lia).
          by rewrite length_app, Nat.sub_diag. }
        destruct (Hcheck a t (S0 ++ S)) as (u & e & R2 & He). exists u, e.
        split; [by eapply run_bind0|exact He].
      + intros _. replace (Datatypes.S (length l1)) with (length (l1 ++ [a]))
          by (rewrite length_app; cbn; lia).
        apply IH with (l2 := l2); [by rewrite <- app_assoc|]. cbn in Hl. lia.
      + split; [intros [-> ->]; done|]. by intros [= -> ->]. }
  apply (H [] S ts); done.
Qed.

Lemma checks_check_type a t S : checks c (check_type a t) S (a = t).
Proof. apply checks_decide. Qed.

Lemma checks_check_type_index a t S : checks c (check_type_index a t) S (a = t).
Proof. apply checks_decide. Qed.

(** A stack of enough entries, cut before the last [n]. *)
Lemma stack_split (S : list WasmType) n :
  (n <= length S)%nat -> exists S0 S1, S = S0 ++ S1 /\ length S1 = n.
Proof.
  intros Hn. exists (take (length S - n) S), (drop (length S - n) S).
  split; [by rewrite take_drop|]. rewrite length_drop. lia.
Qed.

Lemma suffix_of_app_eq (S0 S1 ts : list WasmType) :
  length ts = length S1 -> ts `suffix_of` S0 ++ S1 <-> S1 = ts.
Proof.
  intros Hl. split; [|intros ->; by exists S0]. intros [k E].
  by apply app_inj_2 in E as [_ ?].
Qed.

Lemma checks_n_types ts S : checks c (check_n_types ts) S (ts `suffix_of` S).
Proof.
  unfold check_n_types. pose proof (run_check_limit Hc S (length ts)) as R.
  destruct (Nat.ltb_spec (length S) (length ts)) as [Hlt|Hge].
  - eexists tt, (_ ++ []). split; [eapply run_bind; [exact R|apply run_ret]|].
    split; [done|]. intros Hs%suffix_length. lia.
  - destruct (stack_split S (length ts) Hge) as (S0 & S1 & -> & Hl).
    destruct (checks_top_types check_type S0 ts S1 checks_check_type) as (u & e & R2 & He); [done|].
    exists u, e. split; [eapply run_bind0; [exact R|exact R2]|].
    by rewrite suffix_of_app_eq by done.
Qed.

Lemma checks_n_types_guard ts S :
  checks c (check_n_types ts) S ((_ ← pop_suffix ts S; Some tt) = Some tt).
Proof.
  eapply checks_iff; [apply checks_n_types|]. split.
  - intros [S0 ->]. by rewrite pop_suffix_app.
  - destruct (pop_suffix ts S) as [S0|] eqn:E; [|done]. apply pop_suffix_Some in E as ->. by exists S0.
Qed.

Lemma find_label_go_head l i index :
  i <= index -> head (find_label_go l i index) = l !! Z.to_nat (index - i).
Proof.
  revert i. induction l as [|x l IH]; intros i Hi; [done|]. cbn [find_label_go].
  destruct (Z.eqb_spec i index) as [->|Hne]; cbn [negb].
  - by rewrite Z.sub_diag.
  - rewrite IH by lia. replace (Z.to_nat (index - i)) with (S (Z.to_nat (index - (i + 1)))) by lia. done.
Qed.

Lemma find_label_go_neg l i index : index < i -> find_label_go l i index = [].
Proof.
  revert i. induction l as [|x l IH]; intros i Hi; [done|]. cbn [find_label_go].
  rewrite (proj2 (Z.eqb_neq _ _)) by lia. cbn [negb]. apply IH. lia.
Qed.

Lemma find_label_zget l index : head (find_label_go l 0 index) = zget l index.
Proof.
  unfold zget. destruct (Z.ltb_spec index 0).
  - by rewrite find_label_go_neg by lia.
  - rewrite find_label_go_head by lia. by rewrite Z.sub_0_r.
Qed.

Lemma zget_map {A B} (g : A -> B) l i : zget (map g l) i = g <$> zget l i.
Proof. unfold zget. destruct (i <? 0); [done|]. apply list_lookup_fmap. Qed.

Lemma checks_br f index S :
  checks c (check_br (VAR_INDEX index)) S (infer_br (typing_context c f) (VAR_INDEX index) S = Some tt).
Proof.
  unfold check_br, check_label_var, find_label_by_var. apply checks_get.
  eexists. split; [intros es; cbn [top_label upd]; reflexivity|]. rewrite find_label_zget.
  pose proof (zget_map (fun l => (label_type l, label_sig l)) (top_label c) index) as E.
  destruct (zget (top_label c) index) as [n|] eqn:En; cbn [fmap option_fmap option_map] in E.
  - destruct (checks_n_types (if decide (label_type n = LABEL_TYPE_LOOP) then [] else label_sig n) S)
      as (u & e & R & He).
    exists (Some (label_sig n)), e. split.
    + eapply run_bind0; [eapply run_bind0; [apply run_ret|]; apply run_ret|]. cbn beta iota.
      case_decide; [|rewrite <- (app_nil_r e); eapply run_bind; [destruct u; exact R|apply run_ret]].
      assert (e = []) as -> by (apply He, suffix_nil). eapply run_bind0; apply run_ret.
    + rewrite He. symmetry. apply infer_br_iff. unfold label_args, var_in. cbn [tc_labels typing_context].
      by rewrite E.
  - eexists None, (["label variable out of range (max %d)"%string] ++ []). split.
    + eapply run_bind; [eapply run_bind0; [apply run_ret|]; apply run_print_ret|apply run_ret].
    + unfold infer_br, label_args, var_in. cbn [tc_labels typing_context]. by rewrite E.
Qed.

Lemma spec_op1 op S : spec c (check_opcode1 op) S (unit_at (infer_op1 op S)).
Proof.
  eapply spec_bind; [apply spec_pop1, Hc|intros ? S'; apply spec_run, run_push|].
  unfold infer_op1. by destruct (pop_suffix _ S).
Qed.

Lemma spec_op2 op S : spec c (check_opcode2 op) S (unit_at (infer_op2 op S)).
Proof.
  eapply spec_bind; [apply spec_pop2, Hc|intros ? S'; apply spec_run, run_push|].
  unfold infer_op2. by destruct (pop_suffix _ S).
Qed.

Lemma spec_call sig S : spec c (check_call sig) S (unit_at (infer_call sig S)).
Proof.
  unfold check_call. eapply spec_bind0; [apply run_limit, Hc|].
  eapply spec_bind0; [apply run_avail, Hc|].
  destruct (Nat.leb_spec (length (param_types sig)) (length S)) as [Hge|Hlt].
  - destruct (stack_split S (length (param_types sig)) Hge) as (S0 & S1 & -> & Hl).
    destruct (checks_top_types check_type_index S0 (param_types sig) S1 checks_check_type_index)
      as (u & e & R & He); [done|].
    assert (run c (so_bind so_get (fun c0 =>
        set_type_stack_size (length (type_stack c0) - length (param_types sig)))) (S0 ++ S1) tt S0 []) as R2.
    { apply run_get. intros es. cbn [type_stack upd].
      pose proof (run_set_size (c := c) (S0 ++ S1)
        (length (type_stack c ++ S0 ++ S1) - length (param_types sig)) (length S0)) as R2.
      rewrite take_app_length in R2. apply R2; rewrite !length_app; lia. }
    pose proof (run_bind _ _ _ _ _ _ _ _ _ R R2) as R3. rewrite app_nil_r in R3.
    unfold infer_call. destruct e as [|s e].
    + assert (S1 = param_types sig) as -> by (by apply He). rewrite pop_suffix_app.
      eapply spec_bind0; [exact R3|]. apply spec_run, run_push_types.
    + destruct (pop_suffix (param_types sig) (S0 ++ S1)) as [S2|] eqn:E.
      * apply pop_suffix_Some in E. exfalso.
        assert (s :: e = []); [|done]. apply He, (suffix_of_app_eq S0 S1); [done|]. by exists S2.
      * eapply spec_bind_fail; [exact R3|done|]. apply spec_run, run_push_types.
  - unfold infer_call. rewrite pop_suffix_short by done.
    eapply spec_bind_fail; [eapply run_bind; [apply run_print|apply (run_set_size S _ 0); lia]|done|apply spec_run, run_push_types].
Qed.

(** Immediates. *)
Lemma checks_has_memory f op S :
  checks c (check_has_memory op) S (infer_has_memory (typing_context c f) = Some tt).
Proof.
  unfold check_has_memory, infer_has_memory. apply checks_get.
  eexists. split; [intros es; cbn [current_module upd]; reflexivity|]. cbn [tc_module typing_context]. destruct (module_memories (current_module c)).
  - eapply checks_iff; [apply checks_print|naive_solver].
  - eapply checks_iff; [apply checks_ret|done].
Qed.

Lemma checks_memarg op align offset S :
  wasm_get_opcode_memory_size op <> 0 ->
  checks c (so_bind (get_opcode_natural_alignment op) (fun natural =>
     so_bind (check_align align natural) (fun _ => check_offset offset))) S
    (infer_memarg op align offset = Some tt).
Proof.
  intros Hop. unfold get_opcode_natural_alignment.
  set (n := wasm_get_opcode_memory_size op) in *.
  assert (run c (so_bind (so_assert (negb (n =? 0))) (fun _ => so_ret n)) S n S []) as R.
  { rewrite (proj2 (Z.eqb_neq _ _)) by done. eapply run_bind0; apply run_ret. }
  assert (checks c (so_bind (check_align align n) (fun _ => check_offset offset)) S
            (infer_memarg op align offset = Some tt)) as (u & e & R2 & He).
  { eapply checks_iff; [eapply checks_bind|].
    - unfold check_align. apply checks_if; intros _;
        [eapply checks_bind; [apply checks_if_print|intros _; apply checks_if_print]|apply checks_ret].
    - intros _. apply checks_if_print.
    - unfold infer_memarg, guard_b, UINT32_MAX. fold n.
      destruct (Z.eqb_spec align WASM_USE_NATURAL_ALIGNMENT), (is_power_of_two align),
        (Z.ltb_spec n align), (Z.leb_spec align n), (Z.ltb_spec 0xffffffff offset),
        (Z.leb_spec offset 0xffffffff); cbn; naive_solver lia. }
  exists u, e. split; [by eapply run_bind0|done].
Qed.
End check_parts.

(** ** Locals, blocks and expressions *)

Lemma zget_app {A} (l1 l2 : list A) i :
  zget (l1 ++ l2) i = if i <? Z.of_nat (length l1) then zget l1 i
                      else zget l2 (i - Z.of_nat (length l1)).
Proof.
  unfold zget. destruct (Z.ltb_spec i (Z.of_nat (length l1))).
  - destruct (Z.ltb_spec i 0); [done|]. by rewrite lookup_app_l by lia.
  - rewrite (proj2 (Z.ltb_ge i 0)), (proj2 (Z.ltb_ge (i - _) 0)) by lia.
    rewrite lookup_app_r by lia. f_equal. lia.
Qed.

Lemma zget_None {A} (l : list A) i : ~ 0 <= i < Z.of_nat (length l) -> zget l i = None.
Proof. intros Hi. destruct (zget l i) as [x|] eqn:E; [apply zget_lt in E; lia|done]. Qed.

Lemma run_local_var c f index S :
  current_func c = Some f ->
  exists e, run c (check_local_var (VAR_INDEX index)) S (local_type true f (VAR_INDEX index)) S e /\
    (e = [] <-> is_Some (local_type true f (VAR_INDEX index))).
Proof.
  intros Hf. unfold check_local_var, get_current_func. cbn [local_type wasm_get_local_index_by_var].
  set (i := to_int index).
  set (ps := param_types (decl_sig (func_decl f))).
  assert (wasm_get_num_params_and_locals f = Z.of_nat (length (ps ++ func_local_types f))) as Hn.
  { unfold wasm_get_num_params_and_locals, wasm_get_num_params, wasm_get_num_locals.
    rewrite length_app. fold ps. lia. }
  destruct (decide (0 <= i < Z.of_nat (length (ps ++ func_local_types f)))) as [Hi|Hi].
  - destruct (zget_is_Some _ _ Hi) as [t Ht]. rewrite Ht. exists []. split; [|split; [by eexists|done]].
    eapply run_bind0; [apply run_get; intros es; apply run_lift; exact Hf|].
    cbn beta. eapply run_bind0; [by apply run_lift|]. cbn beta. fold i.
    rewrite Hn, (proj2 (Z.leb_le _ _)), (proj2 (Z.ltb_lt _ _)) by lia. cbn [andb].
    unfold wasm_get_param_type, wasm_get_num_params. fold ps. rewrite zget_app in Ht.
    destruct (i <? Z.of_nat (length ps)); (eapply run_bind0; [by apply run_lift|apply run_ret]).
  - rewrite zget_None by done. exists (["local variable out of range (max %d)"%string]).
    split; [|split; [done|by intros [? ?]]].
    eapply run_bind0; [apply run_get; intros es; apply run_lift; exact Hf|].
    cbn beta. eapply run_bind0; [by apply run_lift|]. cbn beta. fold i. rewrite Hn.
    replace ((0 <=? i) && (i <? Z.of_nat (length (ps ++ func_local_types f)))) with false
      by (symmetry; apply andb_false_iff; rewrite Z.leb_gt, Z.ltb_ge; lia).
    apply run_print_ret.
Qed.

(** The context inside a block entered with stack [S]. *)
Definition block_context (c : Context) (S : list WasmType) (ty : LabelType) (sig : WasmTypeVector) :
    Context :=
  set_labels (mkLabel ty sig (length (type_stack c ++ S)) :: top_label c) (max_depth c + 1)
    (set_type_stack (type_stack c ++ S) c).

Lemma block_context_at_limit c S ty sig : at_limit (block_context c S ty sig).
Proof. by do 2 eexists. Qed.

Lemma block_context_typing c S ty sig f :
  typing_context (block_context c S ty sig) f = with_label (typing_context c f) ty sig.
Proof. done. Qed.

Lemma push_label_upd c S ty sig es :
  push_label ty sig (upd c S es) = Some (tt, upd (block_context c S ty sig) [] es).
Proof.
  unfold push_label, so_modify, set_labels, upd, block_context, set_type_stack. cbn.
  by rewrite app_nil_r.
Qed.

Lemma pop_label_upd c S ty sig es :
  pop_label (upd (block_context c S ty sig) [] es) = Some (tt, upd c S es).
Proof.
  unfold pop_label, get_top_label, so_bind, so_get, so_lift, so_modify, set_labels, upd, block_context,
    set_type_stack. cbn. by rewrite app_nil_r, Z.add_simpl_r.
Qed.

(** A labelled body and the push of its results. *)
Lemma spec_labelled {B} c ty sig (body : V B) S (x : option unit) :
  at_limit c -> checks (block_context c S ty sig) body [] (x = Some tt) ->
  spec c (so_bind (push_label ty sig) (fun _ => so_bind (so_bind body (fun _ => pop_label))
    (fun _ => push_types sig))) S (unit_at (_ ← x; Some (S ++ pushed sig))).
Proof.
  intros Hc (u & e & R & He).
  assert (run c (so_bind (push_label ty sig) (fun _ => so_bind (so_bind body (fun _ => pop_label))
    (fun _ => push_types sig))) S tt (S ++ pushed sig) e) as R2.
  { intros es. unfold so_bind. rewrite push_label_upd, R, pop_label_upd.
    by rewrite (run_push_types S sig), app_nil_r. }
  destruct x as [[]|]; cbn.
  - rewrite (proj2 He) in R2 by done. by apply spec_run.
  - eapply spec_fail; [exact R2|]. by intros E%He.
Qed.

Lemma spec_eq {A} c (m m' : V A) S o : (forall s, m s = m' s) -> spec c m' S o -> spec c m S o.
Proof. intros E (a & S' & e & R & H). exists a, S', e. split; [|done]. intros es. by rewrite E. Qed.

Section block.
Context {c : Context} (Hc : at_limit c).

Lemma run_top S :
  run c top_type S (default WASM_TYPE_I32 (last S)) S [].
Proof.
  destruct S as [|t S' _] using rev_ind; [apply run_top_nil, Hc|].
  rewrite last_snoc. apply run_top_snoc, Hc.
Qed.

Lemma checks_exact S n : checks c (check_type_stack_limit_exact n) S (length S = n).
Proof.
  unfold check_type_stack_limit_exact. pose proof (run_avail Hc S) as R.
  destruct (Nat.eqb_spec n (length S)) as [->|Hne].
  - exists WASM_OK, []. split; [|done]. eapply run_bind0; [exact R|].
    rewrite Nat.eqb_refl. apply run_ret.
  - eexists WASM_ERROR, _. split; [eapply run_bind0; [exact R|]|].
    + rewrite (proj2 (Nat.eqb_neq _ _)) by done. apply run_print_ret.
    + split; [done|]. by intros <-.
Qed.

Lemma run_block_loop C es : forall S,
  Forall (fun e => forall S, spec c (check_expr e) S (unit_at (infer C e S))) es ->
  exists b S' e, run c (check_block_loop check_expr es) S b S' e /\
    (e = [] -> infer_seq (infer C) es S = Some (if b then Some S' else None)) /\
    (e <> [] -> infer_seq (infer C) es S = None).
Proof.
  induction es as [|x es IH]; intros S Hes; cbn [check_block_loop infer_seq].
  - exists true, S, []. split; [apply run_ret|]. by split.
  - apply Forall_cons in Hes as [Hx Hes].
    destruct (Hx S) as (u & S1 & e1 & R1 & H1).
    assert (infer C x S = if decide (e1 = []) then Some S1 else None) as Ei.
    { destruct (infer C x S) as [S0|]; cbn in H1.
      - destruct H1 as (-> & _ & ->). by rewrite decide_True.
      - by rewrite decide_False. }
    destruct (decide (default WASM_TYPE_I32 (last S1) = WASM_TYPE_ANY)) as [Ht|Ht].
    + exists false, S1, e1. split.
      * rewrite <- (app_nil_r e1). eapply run_bind; [exact R1|].
        eapply run_bind0; [apply run_top|]. rewrite Ht. cbn. apply run_ret.
      * rewrite Ei. split; intros He.
        -- rewrite decide_True by done. cbn [mbind option_bind].
           rewrite decide_True; [done|]. destruct (last S1); cbn in Ht; congruence.
        -- by rewrite decide_False.
    + destruct (IH S1 Hes) as (b & S2 & e2 & R2 & H2 & H2'). exists b, S2, (e1 ++ e2). split.
      * eapply run_bind; [exact R1|]. eapply run_bind0; [apply run_top|].
        rewrite decide_False by done. exact R2.
      * rewrite Ei. split; intros He.
        -- apply app_nil in He as [-> ->]. rewrite decide_True by done. cbn [mbind option_bind].
           rewrite decide_False; [by apply H2|]. intros E. by rewrite E in Ht.
        -- case_decide as E1; [|done]. subst e1. cbn [mbind option_bind].
           rewrite decide_False; [by apply H2'|]. intros E. by rewrite E in Ht.
Qed.

Lemma checks_block C ty sig es ls :
  top_label c = mkLabel ty sig (length (type_stack c)) :: ls ->
  Forall (fun e => forall S, spec c (check_expr e) S (unit_at (infer C e S))) es ->
  checks c (check_block check_expr es) [] (infer_block (infer C) es sig = Some tt).
Proof.
  intros Hl Hes. destruct (run_block_loop C es [] Hes) as (b & S' & e1 & R1 & H1 & H1').
  assert (forall S, run c get_top_label S (mkLabel ty sig (length (type_stack c))) S []) as Rtop.
  { intros S. apply run_get. intros es'. apply run_lift. cbn. by rewrite Hl. }
  assert (forall S, run c (so_bind get_top_label (fun l => set_type_stack_size (label_type_stack_limit l)))
            S tt [] []) as Rend.
  { intros S. eapply run_bind0; [apply Rtop|]. cbn [label_type_stack_limit].
    apply (run_set_size S _ 0); lia. }
  assert (checks c (if (b : bool) then so_bind get_top_label (fun l =>
      so_bind (check_n_types (label_sig l)) (fun _ =>
      so_bind (check_type_stack_limit_exact (length (label_sig l))) (fun _ => so_ret tt)))
    else so_ret tt) S' (if b then S' = sig else True)) as (u & e2 & R2 & He2).
  { destruct b; [|apply checks_ret].
    destruct (checks_bind (check_n_types sig) (fun _ => so_bind (check_type_stack_limit_exact (length sig))
      (fun _ => so_ret tt)) S' _ _ (checks_n_types Hc sig S')
      (fun _ => checks_then _ _ _ (checks_exact S' (length sig)))) as (u & e & R & He).
    exists u, e. split; [eapply run_bind0; [apply Rtop|exact R]|].
    rewrite He. split; [|intros ->; done].
    intros [[k Hk] Hlen]. rewrite Hk, length_app in Hlen.
    assert (k = []) as -> by (apply length_zero_iff_nil; lia). done. }
  exists tt, (e1 ++ e2 ++ []). split.
  - eapply run_bind; [exact R1|]. eapply run_bind; [exact R2|]. apply Rend.
  - rewrite app_nil_r. unfold infer_block. rewrite app_nil, He2.
    destruct e1 as [|s e1].
    + rewrite H1 by done. cbn [mbind option_bind]. destruct b; [|naive_solver].
      rewrite guard_b_Some, bool_decide_eq_true. naive_solver.
    + rewrite H1' by done. naive_solver.
Qed.
End block.

(** Names have been resolved to indices, and the loads and stores have a
    memory size: what the assertions of the checker rely on. *)
Definition var_resolved (v : WasmVar) : bool :=
  match v with VAR_INDEX _ => true | VAR_NAME _ => false end.

Fixpoint expr_ok (e : WasmExpr) : bool :=
  match e with
  | EXPR_BLOCK _ _ es | EXPR_LOOP _ _ es => forallb expr_ok es
  | EXPR_IF _ _ es fs => forallb expr_ok es && forallb expr_ok fs
  | EXPR_BR v | EXPR_BR_IF v | EXPR_CALL v | EXPR_CALL_INDIRECT v | EXPR_GET_GLOBAL v
  | EXPR_GET_LOCAL v | EXPR_SET_GLOBAL v | EXPR_SET_LOCAL v | EXPR_TEE_LOCAL v => var_resolved v
  | EXPR_BR_TABLE vs v => forallb var_resolved vs && var_resolved v
  | EXPR_LOAD op _ _ | EXPR_STORE op _ _ => negb (wasm_get_opcode_memory_size op =? 0)
  | _ => true
  end.

Lemma pop_any_case S : S = [] /\ pop_any S = None \/ exists S0 t, S = S0 ++ [t] /\ pop_any S = Some (t, S0).
Proof.
  destruct S as [|t S _] using rev_ind; [by left|]. right. exists S, t.
  by rewrite pop_any_snoc.
Qed.

Lemma forallb_Forall_impl {A} (g : A -> bool) (Q : A -> Prop) l :
  forallb g l = true -> Forall (fun x => g x = true -> Q x) l -> Forall Q l.
Proof.
  intros Hg H. induction H as [|x l Hx _ IH]; [done|]. cbn [forallb] in Hg.
  apply andb_true_iff in Hg as [? ?]. constructor; auto.
Qed.

Section exprs.
Context {c : Context} {f : WasmFunc} (Hc : at_limit c) (Hf : current_func c = Some f).

Lemma spec_drop S :
  spec c (check_expr EXPR_DROP) S (unit_at (infer (typing_context c f) EXPR_DROP S)).
Proof.
  cbn [check_expr infer]. destruct (pop_any_case S) as [[-> ->]|(S0 & t & -> & ->)].
  - eapply spec_check_limit_fail; [exact Hc|cbn; lia|apply spec_ret].
  - eapply spec_check_limit_ok; [exact Hc|rewrite length_app; cbn; lia|].
    eapply spec_bind0; [apply run_pop_snoc, Hc|apply spec_ret].
Qed.

Lemma spec_select S :
  spec c (check_expr EXPR_SELECT) S (unit_at (infer (typing_context c f) EXPR_SELECT S)).
Proof.
  cbn [check_expr infer].
  assert (forall S, spec c (so_bind (check_type_stack_limit 2) (fun r =>
      if WASM_SUCCEEDED r then so_bind pop_type (fun type1 => so_bind pop_type (fun type2 =>
        so_bind (check_type type2 type1) (fun _ => push_type type1)))
      else so_ret tt)) S
    (unit_at ('(t1, S1) ← pop_any S; '(t2, S2) ← pop_any S1;
              if decide (t2 = t1) then Some (S2 ++ pushed [t1]) else None))) as H2.
  { intros S'. destruct (decide (length S' < 2)%nat) as [Hlt|Hge].
    - eapply spec_ext; [eapply spec_check_limit_fail; [exact Hc|done|apply spec_ret]|].
      destruct (pop_any_case S') as [[-> ->]|(S0 & t & -> & ->)]; [done|]. cbn.
      rewrite length_app in Hlt. cbn in Hlt. destruct S0; [done|cbn in Hlt; lia].
    - eapply spec_check_limit_ok; [exact Hc|lia|]. cbn [WASM_SUCCEEDED].
      destruct (pop_any_case S') as [[-> _]|(S1 & t1 & -> & ->)]; [cbn in Hge; lia|].
      destruct (pop_any_case S1) as [[-> _]|(S2 & t2 & -> & E2)]; [cbn in Hge; lia|].
      cbn [mbind option_bind]. rewrite E2. cbn [mbind option_bind].
      eapply spec_bind0; [apply run_pop_snoc, Hc|]. eapply spec_bind0; [apply run_pop_snoc, Hc|].
      eapply spec_bind; [apply spec_check_type|intros ? S'; apply spec_run, run_push|].
      by case_decide. }
  eapply spec_bind; [apply spec_pop1, Hc|intros ? S'; apply H2|].
  by destruct (pop_suffix _ S).
Qed.

(** A variable of the function in front of the rest. *)
Lemma spec_bind_local {B} index S (k : option WasmType -> V B) (o : WasmType -> option (B * list WasmType)) o1 :
  (forall t, local_type true f (VAR_INDEX index) = Some t -> spec c (k (Some t)) S (o t)) ->
  (exists o1, spec c (k None) S o1) -> o1 = (t ← local_type true f (VAR_INDEX index); o t) ->
  spec c (so_bind (check_local_var (VAR_INDEX index)) k) S o1.
Proof.
  intros Hk [o2 Hn] ->. destruct (run_local_var c f index S Hf) as (e & R & He).
  destruct (local_type true f (VAR_INDEX index)) as [t|]; cbn [mbind option_bind].
  - rewrite (proj2 He) in R by (by eexists). eapply spec_bind0; [exact R|by apply Hk].
  - eapply spec_bind_fail; [exact R| |exact Hn]. intros E%He. by destruct E.
Qed.

Lemma spec_tee_local index S :
  spec c (check_expr (EXPR_TEE_LOCAL (VAR_INDEX index))) S
    (unit_at (infer (typing_context c f) (EXPR_TEE_LOCAL (VAR_INDEX index)) S)).
Proof.
  cbn [check_expr infer tc_func typing_context].
  assert (forall t, exists o, spec c (so_bind (check_type_stack_limit 1) (fun res =>
      match res with
      | WASM_ERROR => so_bind top_type (fun t' => check_type t' t)
      | WASM_OK => so_ret tt
      end)) S o /\ o = unit_at (_ ← pop_any S; Some S)) as Hk.
  { intros t. eexists. split; [|reflexivity].
    destruct (pop_any_case S) as [[-> ->]|(S0 & t0 & -> & ->)].
    - eapply spec_check_limit_fail; [exact Hc|cbn; lia|].
      eapply spec_bind0; [apply run_top_nil, Hc|apply spec_check_type].
    - eapply spec_check_limit_ok; [exact Hc|rewrite length_app; cbn; lia|apply spec_ret]. }
  eapply spec_bind_local.
  - intros t _. destruct (Hk t) as (o & H & E). rewrite E in H. exact H.
  - destruct (Hk WASM_TYPE_I32) as (o & H & _). eexists. exact H.
  - destruct (local_type true f _); [|done]. cbn. by destruct (pop_any S).
Qed.

Lemma spec_call_indirect index S :
  spec c (check_expr (EXPR_CALL_INDIRECT (VAR_INDEX index))) S
    (unit_at (infer (typing_context c f) (EXPR_CALL_INDIRECT (VAR_INDEX index)) S)).
Proof.
  cbn [check_expr infer tc_module typing_context var_in].
  apply spec_get. eexists. intros es. split; [cbn [current_module upd]; reflexivity|].
  eapply spec_ext.
  - eapply (spec_bind_guard _ _ _
      (guard_b (bool_decide (0 < length (module_tables (current_module c)))%nat))).
    + destruct (module_tables (current_module c)); cbn [length];
        (eapply checks_iff; [apply checks_print || apply checks_ret|]);
        rewrite guard_b_Some, bool_decide_eq_true; naive_solver lia.
    + intros _. eapply (spec_bind_var c module_func_types snd);
        [reflexivity| |apply spec_ret].
      intros ft _. cbn [snd].
      assert (spec c (so_bind pop_type (fun type => so_bind (check_type type WASM_TYPE_I32) (fun _ =>
          check_call (func_type_sig ft)))) S
        (unit_at (S' ← match S with [] => Some [] | _ => pop_suffix [WASM_TYPE_I32] S end;
                  infer_call (func_type_sig ft) S'))) as H; [|exact H].
      destruct S as [|t S _] using rev_ind.
      * eapply spec_bind0; [apply run_pop_nil, Hc|].
        eapply spec_bind; [apply spec_check_type|intros ? S'; apply spec_call, Hc|].
        by rewrite decide_True.
      * eapply spec_bind0; [apply run_pop_snoc, Hc|].
        eapply spec_bind; [apply spec_check_type|intros ? S'; apply spec_call, Hc|].
        pose proof (pop_suffix_cons_snoc [] WASM_TYPE_I32 S t) as E. cbn [app] in E.
        rewrite pop_suffix_nil in E.
        destruct (S ++ [t]) eqn:ES; [by apply app_eq_nil in ES as [_ ?]|]. rewrite E.
        by case_decide.
  - destruct (guard_b _); [|done]. cbn. by destruct (zget _ index).
Qed.
End exprs.

Lemma checks_br_targets c f targets S :
  at_limit c -> forallb var_resolved targets = true ->
  checks c (check_br_table_targets targets) S
    ((_ ← mapM (fun v => infer_br (typing_context c f) v S) targets; Some tt) = Some tt).
Proof.
  intros Hc Hr. eapply checks_iff.
  - apply checks_for with (P := fun v => infer_br (typing_context c f) v S = Some tt).
    intros v Hv. destruct v as [index|name].
    + apply checks_then, checks_br, Hc.
    + rewrite List.forallb_forall in Hr. apply list_elem_of_In, Hr in Hv. done.
  - split.
    + intros H. assert (is_Some (mapM (fun v => infer_br (typing_context c f) v S) targets)) as [us ->]; [|done].
      apply mapM_is_Some. eapply Forall_impl; [exact H|].
      intros v E. cbn in *. by rewrite E.
    + intros H. assert (is_Some (mapM (fun v => infer_br (typing_context c f) v S) targets)) as Hs
        by (destruct (mapM _ targets); [by eexists|done]).
      apply mapM_is_Some in Hs. eapply Forall_impl; [exact Hs|].
      by intros v [[] E].
Qed.

(** Bodies satisfy the hypothesis of [checks_block] in their own context. *)
Definition spec_of (e : WasmExpr) : Prop := forall c f S,
  at_limit c -> current_func c = Some f ->
  spec c (check_expr e) S (unit_at (infer (typing_context c f) e S)).

Lemma checks_body c f S ty sig es :
  current_func c = Some f -> Forall spec_of es ->
  checks (block_context c S ty sig) (check_block check_expr es) []
    (infer_block (infer (with_label (typing_context c f) ty sig)) es sig = Some tt).
Proof.
  intros Hf Hes. rewrite <- block_context_typing with (S := S).
  eapply checks_block; [apply block_context_at_limit|done|].
  eapply Forall_impl; [exact Hes|]. intros e He S'. apply He; [apply block_context_at_limit|done].
Qed.

Lemma spec_block_expr c f S ty sig es :
  at_limit c -> current_func c = Some f -> Forall spec_of es ->
  spec c (so_bind (push_label ty sig) (fun _ => so_bind (check_block check_expr es) (fun _ =>
     so_bind pop_label (fun _ => push_types sig)))) S
    (unit_at (_ ← infer_block (infer (with_label (typing_context c f) ty sig)) es sig;
              Some (S ++ pushed sig))).
Proof.
  intros Hc Hf Hes. eapply spec_eq;
    [|apply (spec_labelled c ty sig (check_block check_expr es) S); [exact Hc|by apply checks_body]].
  intros s. unfold so_bind. destruct (push_label ty sig s) as [[u s']|]; [|done].
  by destruct (check_block check_expr es s') as [[? ?]|].
Qed.

Lemma spec_if c f S l sig es fs :
  at_limit c -> current_func c = Some f -> Forall spec_of es -> Forall spec_of fs ->
  spec c (check_expr (EXPR_IF l sig es fs)) S
    (unit_at (infer (typing_context c f) (EXPR_IF l sig es fs) S)).
Proof.
  intros Hc Hf Hes Hfs. cbn [check_expr infer].
  eapply spec_bind; [apply spec_pop1, Hc| |].
  - intros u S'. eapply spec_eq;
      [|apply (spec_labelled c LABEL_TYPE_IF sig
          (so_bind (check_block check_expr es) (fun _ => check_block check_expr fs)) S'
          (_ ← infer_block (infer (with_label (typing_context c f) LABEL_TYPE_IF sig)) es sig;
           infer_block (infer (with_label (typing_context c f) LABEL_TYPE_IF sig)) fs sig)); [exact Hc|]].
    + intros s. unfold so_bind. destruct (push_label _ sig s) as [[? s1]|]; [|done].
      destruct (check_block check_expr es s1) as [[? s2]|]; [|done].
      by destruct (check_block check_expr fs s2) as [[? ?]|].
    + destruct (checks_body c f S' LABEL_TYPE_IF sig es Hf Hes) as (u1 & e1 & R1 & H1).
      destruct (checks_body c f S' LABEL_TYPE_IF sig fs Hf Hfs) as (u2 & e2 & R2 & H2).
      exists u2, (e1 ++ e2). split; [by eapply run_bind|]. rewrite app_nil, H1, H2.
      destruct (infer_block _ es sig) as [[]|]; naive_solver.
  - destruct (pop_suffix _ S); [|done]. cbn [mbind option_bind unit_at fmap option_fmap option_map].
    by destruct (infer_block _ es sig).
Qed.

Lemma spec_has_memory_then {B} c f op S (k : unit -> V B) o :
  (forall u, spec c (k u) S o) ->
  spec c (so_bind (check_has_memory op) k) S (_ ← infer_has_memory (typing_context c f); o).
Proof. intros Hk. apply spec_bind_guard; [apply checks_has_memory|exact Hk]. Qed.

(** A load or store: the four checks, then the operator's own. *)
Lemma spec_access c f op align offset S (m : V unit) o :
  wasm_get_opcode_memory_size op <> 0 -> spec c m S (unit_at o) ->
  spec c (so_bind (check_has_memory op) (fun _ => so_bind (get_opcode_natural_alignment op) (fun natural =>
    so_bind (check_align align natural) (fun _ => so_bind (check_offset offset) (fun _ => m))))) S
    (unit_at (_ ← infer_has_memory (typing_context c f); _ ← infer_memarg op align offset; o)).
Proof.
  intros Hop Hm. eapply spec_ext; [apply spec_has_memory_then with (f := f); intros _|].
  - eapply spec_eq; [|apply (spec_bind_guard (so_bind (get_opcode_natural_alignment op) (fun natural =>
        so_bind (check_align align natural) (fun _ => check_offset offset))) (fun _ => m) S
        (infer_memarg op align offset)); [by apply checks_memarg|intros _; exact Hm]].
    intros s. unfold so_bind. destruct (get_opcode_natural_alignment op s) as [[n s1]|]; [|done].
    by destruct (check_align align n s1) as [[? s2]|].
  - destruct (infer_has_memory _); [|done]. by destruct (infer_memarg _ _ _).
Qed.

(** The rules of [spec] for [unit_at], one per form of step of [infer]. *)
Lemma spec_guard {A} c (m : V A) (k : A -> V unit) S (x : option unit) o :
  checks c m S (x = Some tt) -> (forall a, spec c (k a) S (unit_at o)) ->
  spec c (so_bind m k) S (unit_at (_ ← x; o)).
Proof.
  intros Hm Hk. eapply spec_ext; [by apply spec_bind_guard|]. by destruct x.
Qed.

Lemma spec_seq c (m : V unit) (k : unit -> V unit) S x g :
  spec c m S (unit_at x) -> (forall u S', spec c (k u) S' (unit_at (g S'))) ->
  spec c (so_bind m k) S (unit_at (S' ← x; g S')).
Proof.
  intros Hm Hk. eapply spec_bind; [exact Hm|intros u S'; apply Hk|]. by destruct x.
Qed.

Lemma spec_var {A B} (c : Context) (get_vec : WasmModule -> list A) (proj : Z * A -> B)
    (k : option B -> V unit) index S (o : A -> option (list WasmType)) o1 :
  (forall x, spec c (k (Some (proj (index, x)))) S (unit_at (o x))) -> spec c (k None) S o1 ->
  spec c (so_bind (so_bind so_get (fun c =>
      so_bind (check_element_var (get_vec (current_module c)) (VAR_INDEX index))
        (fun r => so_ret (proj <$> r)))) k) S
    (unit_at (x ← zget (get_vec (current_module c)) index; o x)).
Proof.
  intros Hk H1. eapply spec_ext; [eapply spec_bind_var; [done|intros x _; apply Hk|exact H1]|].
  by destruct (zget _ index).
Qed.

Lemma spec_local {c f} (Hf : current_func c = Some f) index S (k : option WasmType -> V unit) g o1 :
  (forall t, spec c (k (Some t)) S (unit_at (g t))) -> spec c (k None) S o1 ->
  spec c (so_bind (check_local_var (VAR_INDEX index)) k) S
    (unit_at (t ← local_type true f (VAR_INDEX index); g t)).
Proof.
  intros Hk Hn. eapply (spec_bind_local Hf index S k (fun t => unit_at (g t))); [auto|eauto|].
  by destruct (local_type true f _).
Qed.

Lemma spec_push c S t : spec c (push_type t) S (unit_at (Some (S ++ pushed [t]))).
Proof. apply spec_run, run_push. Qed.

Lemma spec_unreachable c S : at_limit c -> spec c set_unreachable S (unit_at (Some [WASM_TYPE_ANY])).
Proof. intros Hc. by apply spec_run, run_set_unreachable. Qed.

(** The checker implements [infer] on every expression. *)
Lemma check_expr_spec : forall e, expr_ok e = true -> spec_of e.
Proof.
  apply (WasmExpr_nested_ind (fun e => expr_ok e = true -> spec_of e)).
  - intros l s es IH Hok c f S Hc Hf. apply spec_block_expr; [done..|].
    by apply (forallb_Forall_impl _ _ _ Hok) in IH.
  - intros l s es IH Hok c f S Hc Hf. apply spec_block_expr; [done..|].
    by apply (forallb_Forall_impl _ _ _ Hok) in IH.
  - intros l s es fs IH1 IH2 [H1 H2]%andb_true_iff c f S Hc Hf. apply spec_if; [done..| |].
    + by apply (forallb_Forall_impl _ _ _ H1) in IH1.
    + by apply (forallb_Forall_impl _ _ _ H2) in IH2.
  - intros e. destruct e; try done; intros Hok c f S Hc Hf; cbn [expr_ok] in Hok;
      try (apply andb_true_iff in Hok as [Hoks Hok]);
      try (apply negb_true_iff, Z.eqb_neq in Hok);
      try (match type of Hok with var_resolved ?v = true => destruct v as [index|]; [|done] end);
      cbn [check_expr infer tc_module tc_func typing_context var_in].
    + apply spec_op2, Hc.
    + apply spec_guard; [apply checks_br, Hc|intros _; apply spec_unreachable, Hc].
    + apply spec_seq; [apply spec_pop1, Hc|intros ? S'].
      apply spec_guard; [apply checks_br, Hc|intros _; apply spec_ret].
    + apply spec_seq; [apply spec_pop1, Hc|intros ? S'].
      eapply spec_ext; [eapply spec_guard; [apply (checks_br_targets c f); [exact Hc|exact Hoks]|intros _]|].
      * apply spec_guard; [apply (checks_br Hc f)|intros _; apply spec_unreachable, Hc].
      * by destruct (mapM _ targets).
    + eapply (spec_var c module_funcs snd); [intros x; apply spec_call, Hc|apply spec_ret].
    + by apply (spec_call_indirect (f := f)).
    + apply spec_op2, Hc.
    + apply spec_push.
    + apply spec_op1, Hc.
    + apply spec_guard; [apply checks_has_memory|intros _; apply spec_push].
    + by apply (spec_drop (f := f)).
    + eapply (spec_var c module_globals (fun p => (snd p, fst p)));
        [intros x; apply spec_push|apply spec_ret].
    + eapply spec_local; [exact Hf|intros t; apply spec_push|apply spec_ret].
    + apply spec_guard; [apply checks_has_memory|intros _; apply spec_op1, Hc].
    + apply spec_access; [done|apply spec_op1, Hc].
    + apply spec_ret.
    + eapply spec_bind0; [apply run_get; intros es; apply run_lift; exact Hf|].
      eapply spec_ext; [eapply spec_guard; [apply checks_n_types_guard, Hc|intros _; apply spec_unreachable, Hc]|].
      by destruct (pop_suffix _ S).
    + by apply (spec_select (f := f)).
    + eapply (spec_var c module_globals (fun p => (snd p, fst p))
        (fun r => pop_and_check_1_type (match r with Some (g, _) => global_type g | None => WASM_TYPE_I32 end)));
        [intros x; apply spec_pop1, Hc|apply spec_pop1, Hc].
    + eapply (spec_local Hf index S (fun r => pop_and_check_1_type (default WASM_TYPE_I32 r)));
        [intros t; apply spec_pop1, Hc|apply spec_pop1, Hc].
    + apply spec_access; [done|apply spec_op2, Hc].
    + by apply spec_tee_local.
    + apply spec_op1, Hc.
    + apply spec_unreachable, Hc.
Qed.
