(* ===== verification/ValidatorModule.v ===== *)
(** * Correctness of the validator on functions, modules and scripts

    The declarative validity of a module, stated field by field without the
    running counters of the code, and the theorems that the validator reports
    an error exactly when a module is not valid. *)

From stdpp Require Import sets.
From S2P Require Import Prelude Opcode Vector BindingHash Ast StateOpt Validator ValidatorFacts.

(** ** Validity *)

Definition func_valid (q : bool) (m : WasmModule) (f : WasmFunc) : Prop :=
  let sig := decl_sig (func_decl f) in
  (length (result_types sig) <= 1)%nat /\
  (wasm_decl_has_func_type (func_decl f) = true ->
   exists ft, var_in (module_func_types m) (decl_type_var (func_decl f)) = Some ft /\
     result_types sig = result_types (func_type_sig ft) /\
     param_types sig = param_types (func_type_sig ft)) /\
  block_has_type q (mkTypeContext m f [(LABEL_TYPE_FUNC, result_types sig)]) (func_first_expr f) []
    (result_types sig).

(** A constant expression of type [t] where [ng] globals, [ni] of them
    imported, come before. *)
Definition const_expr_valid (m : WasmModule) (ng ni : nat) (e : list WasmExpr) (t : WasmType) : Prop :=
  match e with
  | [] => t = WASM_TYPE_VOID
  | [EXPR_CONST k] => const_type k = t
  | [EXPR_GET_GLOBAL (VAR_INDEX i)] =>
      exists g, zget (module_globals m) i = Some g /\ i < Z.of_nat ng /\ i < Z.of_nat ni /\
        global_mutable g = false /\ global_type g = t
  | _ => False
  end.

Definition limits_valid (l : WasmLimits) (absolute_max : Z) : Prop :=
  lim_initial l <= absolute_max /\
  (lim_has_max l = true -> lim_initial l <= lim_max l <= absolute_max).

Definition is_imported_global (x : WasmModuleField) : bool :=
  match x with FIELD_IMPORT (mkImport _ _ (IMPORT_GLOBAL _)) => true | _ => false end.
Definition is_global (x : WasmModuleField) : bool :=
  match x with FIELD_GLOBAL _ => true | _ => is_imported_global x end.
Definition is_table (x : WasmModuleField) : bool :=
  match x with FIELD_TABLE _ | FIELD_IMPORT (mkImport _ _ (IMPORT_TABLE _)) => true | _ => false end.
Definition is_memory (x : WasmModuleField) : bool :=
  match x with FIELD_MEMORY _ | FIELD_IMPORT (mkImport _ _ (IMPORT_MEMORY _)) => true | _ => false end.
Definition is_start (x : WasmModuleField) : bool :=
  match x with FIELD_START _ => true | _ => false end.

Definition count (p : WasmModuleField -> bool) (l : list WasmModuleField) : nat :=
  length (filter (fun x => p x = true) l).

(** A field of [m] that comes after the fields [prev]; [q] as in [has_type],
    and with it a function type can have several results. *)
Definition field_valid (q : bool) (m : WasmModule) (prev : list WasmModuleField) (x : WasmModuleField) :
    Prop :=
  match x with
  | FIELD_FUNC f => func_valid q m f
  | FIELD_GLOBAL g =>
      const_expr_valid m (count is_global prev) (count is_imported_global prev)
        (global_init_expr g) (global_type g)
  | FIELD_IMPORT i =>
      match import_desc i with
      | IMPORT_FUNC f =>
          wasm_decl_has_func_type (func_decl f) = true ->
          is_Some (var_in (module_func_types m) (decl_type_var (func_decl f)))
      | IMPORT_TABLE t => limits_valid (table_elem_limits t) UINT32_MAX
      | IMPORT_MEMORY me => limits_valid (memory_page_limits me) WASM_MAX_PAGES
      | IMPORT_GLOBAL g => global_mutable g = false
      end
  | FIELD_EXPORT e =>
      match export_kind e with
      | WASM_EXTERNAL_KIND_FUNC => is_Some (var_in (module_funcs m) (export_var e))
      | WASM_EXTERNAL_KIND_TABLE => is_Some (var_in (module_tables m) (export_var e))
      | WASM_EXTERNAL_KIND_MEMORY => is_Some (var_in (module_memories m) (export_var e))
      | WASM_EXTERNAL_KIND_GLOBAL =>
          exists g, var_in (module_globals m) (export_var e) = Some g /\ global_mutable g = false
      end
  | FIELD_FUNC_TYPE ft => q = false -> (length (result_types (func_type_sig ft)) <= 1)%nat
  | FIELD_TABLE t => limits_valid (table_elem_limits t) UINT32_MAX
  | FIELD_MEMORY me => limits_valid (memory_page_limits me) WASM_MAX_PAGES
  | FIELD_ELEM_SEGMENT s =>
      is_Some (var_in (module_tables m) (elem_table_var s)) /\
      Forall (fun v => is_Some (var_in (module_funcs m) v)) (elem_vars s) /\
      const_expr_valid m (count is_global (module_fields m)) (count is_imported_global (module_fields m))
        (elem_offset s) WASM_TYPE_I32
  | FIELD_DATA_SEGMENT s =>
      is_Some (var_in (module_memories m) (data_memory_var s)) /\
      const_expr_valid m (count is_global (module_fields m)) (count is_imported_global (module_fields m))
        (data_offset s) WASM_TYPE_I32
  | FIELD_START v =>
      exists f, var_in (module_funcs m) v = Some f /\
        param_types (decl_sig (func_decl f)) = [] /\ result_types (decl_sig (func_decl f)) = []
  end.

Definition module_valid (q : bool) (m : WasmModule) : Prop :=
  (forall prev x rest, module_fields m = prev ++ x :: rest -> field_valid q m prev x) /\
  (count is_table (module_fields m) <= 1)%nat /\
  (count is_memory (module_fields m) <= 1)%nat /\
  (count is_start (module_fields m) <= 1)%nat.

(** ** What name resolution establishes *)

Definition const_expr_ok (e : list WasmExpr) : bool :=
  match e with [EXPR_GET_GLOBAL v] => var_resolved v | _ => true end.

Definition field_ok (x : WasmModuleField) : bool :=
  match x with
  | FIELD_FUNC f =>
      (negb (wasm_decl_has_func_type (func_decl f)) || var_resolved (decl_type_var (func_decl f))) &&
      forallb expr_ok (func_first_expr f)
  | FIELD_GLOBAL g => const_expr_ok (global_init_expr g)
  | FIELD_IMPORT (mkImport _ _ (IMPORT_FUNC f)) =>
      negb (wasm_decl_has_func_type (func_decl f)) || var_resolved (decl_type_var (func_decl f))
  | FIELD_IMPORT _ => true
  | FIELD_EXPORT e => var_resolved (export_var e)
  | FIELD_FUNC_TYPE _ | FIELD_TABLE _ | FIELD_MEMORY _ => true
  | FIELD_ELEM_SEGMENT s =>
      var_resolved (elem_table_var s) && forallb var_resolved (elem_vars s) && const_expr_ok (elem_offset s)
  | FIELD_DATA_SEGMENT s => var_resolved (data_memory_var s) && const_expr_ok (data_offset s)
  | FIELD_START v => var_resolved v
  end.

Definition module_ok (m : WasmModule) : bool := forallb field_ok (module_fields m).

(** ** The validator between two fields *)

Record counters : Type := mkCounters { n_table : nat; n_memory : nat; n_global : nat; n_imported : nat }.

(** The context of [check_module] with the given counters, before any error;
    [current_func] is left over from the last function. *)
Definition base (s : WasmScript) (m : WasmModule) (k : counters) (cf : option WasmFunc) : Context :=
  mkContext s m cf (Z.of_nat (n_table k)) (Z.of_nat (n_memory k)) (Z.of_nat (n_global k))
    (Z.of_nat (n_imported k)) [] [] 0 WASM_OK [].

(** [act] takes the counters from [k] to [k'] and reports an error unless [P]. *)
Definition mchecks {A} (s : WasmScript) (m : WasmModule) (k : counters) (act : V A) (k' : counters)
    (P : Prop) : Prop :=
  forall cf es, exists a cf' e,
    act (upd (base s m k cf) [] es) = Some (a, upd (base s m k' cf') [] (es ++ e)) /\ (e = [] <-> P).

Section module_rules.
Context {s : WasmScript} {m : WasmModule}.

Lemma mchecks_iff {A} k (act : V A) k' P Q :
  mchecks s m k act k' P -> (P <-> Q) -> mchecks s m k act k' Q.
Proof.
  intros H HPQ cf es. destruct (H cf es) as (a & cf' & e & E & He).
  exists a, cf', e. split; [done|]. by rewrite He.
Qed.

Lemma mchecks_bind {A B} k (act : V A) k1 (f : A -> V B) k2 P Q :
  mchecks s m k act k1 P -> (forall a, mchecks s m k1 (f a) k2 Q) ->
  mchecks s m k (so_bind act f) k2 (P /\ Q).
Proof.
  intros H Hf cf es. destruct (H cf es) as (a & cf1 & e1 & E1 & H1).
  destruct (Hf a cf1 (es ++ e1)) as (b & cf2 & e2 & E2 & H2).
  exists b, cf2, (e1 ++ e2). unfold so_bind. rewrite E1, E2, app_assoc. split; [done|].
  rewrite <- H1, <- H2. apply app_nil.
Qed.

Lemma mchecks_eq {A} k (act act' : V A) k' P :
  (forall st, act st = act' st) -> mchecks s m k act' k' P -> mchecks s m k act k' P.
Proof. intros E H cf es. rewrite E. apply H. Qed.

(** A check of the expression level. *)
Lemma mchecks_checks {A} k (act : V A) P :
  (forall cf, checks (base s m k cf) act [] P) -> mchecks s m k act k P.
Proof. intros H cf es. destruct (H cf) as (a & e & R & He). exists a, cf, e. by split. Qed.

Lemma mchecks_ret {A} k (a : A) : mchecks s m k (so_ret a) k True.
Proof. apply mchecks_checks. intros cf. apply checks_ret. Qed.

Lemma mchecks_modify k (g : Context -> Context) k' :
  (forall cf es, exists cf', g (upd (base s m k cf) [] es) = upd (base s m k' cf') [] es) ->
  mchecks s m k (so_modify g) k' True.
Proof.
  intros H cf es. destruct (H cf es) as [cf' E]. exists tt, cf', []. unfold so_modify.
  by rewrite E, app_nil_r.
Qed.

Lemma incr_table k :
  mchecks s m k incr_table_index (mkCounters (S (n_table k)) (n_memory k) (n_global k) (n_imported k)) True.
Proof.
  apply mchecks_modify. intros cf es. exists cf. unfold upd, base, set_module. cbn.
  by rewrite Nat2Z.inj_succ.
Qed.

Lemma incr_memory k :
  mchecks s m k incr_memory_index (mkCounters (n_table k) (S (n_memory k)) (n_global k) (n_imported k)) True.
Proof.
  apply mchecks_modify. intros cf es. exists cf. unfold upd, base, set_module. cbn.
  by rewrite Nat2Z.inj_succ.
Qed.

Lemma incr_global k :
  mchecks s m k incr_global_index (mkCounters (n_table k) (n_memory k) (S (n_global k)) (n_imported k)) True.
Proof.
  apply mchecks_modify. intros cf es. exists cf. unfold upd, base, set_module. cbn.
  by rewrite Nat2Z.inj_succ.
Qed.

Lemma incr_imported k :
  mchecks s m k incr_num_imported_globals
    (mkCounters (n_table k) (n_memory k) (n_global k) (S (n_imported k))) True.
Proof.
  apply mchecks_modify. intros cf es. exists cf. unfold upd, base, set_module. cbn.
  by rewrite Nat2Z.inj_succ.
Qed.

(** Variables of the module in front of a check of the element. *)
Lemma checks_bind_var {A B D} c (get_vec : WasmModule -> list A) (proj : Z * A -> B)
    (f : option B -> V D) index S (P : A -> Prop) :
  (forall x, zget (get_vec (current_module c)) index = Some x ->
     checks c (f (Some (proj (index, x)))) S (P x)) ->
  (exists Q, checks c (f None) S Q) ->
  checks c (so_bind (so_bind so_get (fun c =>
      so_bind (check_element_var (get_vec (current_module c)) (VAR_INDEX index))
        (fun r => so_ret (proj <$> r)))) f) S
    (exists x, zget (get_vec (current_module c)) index = Some x /\ P x).
Proof.
  intros Hf [Q HQ]. destruct (run_var c get_vec proj index S) as (e & R & H).
  destruct (zget _ index) as [x|] eqn:E; cbn [fmap option_fmap option_map] in R.
  - destruct (Hf x eq_refl) as (b & e2 & R2 & H2). exists b, e2. split.
    + rewrite (proj2 H) in R by (by eexists). by eapply run_bind0.
    + rewrite H2. naive_solver.
  - destruct HQ as (b & e2 & R2 & _). exists b, (e ++ e2). split; [by eapply run_bind|].
    split; [|naive_solver]. intros [-> _]%app_nil. by destruct (proj1 H eq_refl).
Qed.

Lemma checks_func_var c v S :
  var_resolved v = true ->
  checks c (check_func_var v) S (is_Some (var_in (module_funcs (current_module c)) v)).
Proof. destruct v; [|done]. intros _. by apply (checks_var c module_funcs snd). Qed.
Lemma checks_table_var c v S :
  var_resolved v = true ->
  checks c (check_table_var v) S (is_Some (var_in (module_tables (current_module c)) v)).
Proof. destruct v; [|done]. intros _. by apply (checks_var c module_tables snd). Qed.
Lemma checks_memory_var c v S :
  var_resolved v = true ->
  checks c (check_memory_var v) S (is_Some (var_in (module_memories (current_module c)) v)).
Proof. destruct v; [|done]. intros _. by apply (checks_var c module_memories snd). Qed.
Lemma checks_func_type_var c v S :
  var_resolved v = true ->
  checks c (check_func_type_var v) S (is_Some (var_in (module_func_types (current_module c)) v)).
Proof. destruct v; [|done]. intros _. by apply (checks_var c module_func_types snd). Qed.

Lemma checks_limits c l mx S : checks c (check_limits l mx) S (limits_valid l mx).
Proof.
  unfold check_limits. eapply checks_iff.
  - eapply checks_bind; [apply checks_if_print|intros _].
    apply checks_if; intros _; [eapply checks_bind; [apply checks_if_print|intros _; apply checks_if_print]|].
    apply checks_ret.
  - unfold limits_valid. rewrite Z.ltb_ge. destruct (lim_has_max l); rewrite ?Z.ltb_ge; naive_solver lia.
Qed.

Lemma checks_const_init_expr k cf e t :
  const_expr_ok e = true ->
  checks (base s m k cf) (check_const_init_expr e t) [] (const_expr_valid m (n_global k) (n_imported k) e t).
Proof.
  intros Hok. destruct e as [|x [|y e]].
  - cbn. eapply checks_iff; [apply checks_check_type|naive_solver].
  - destruct x; try apply checks_print; [apply checks_check_type|].
    cbn [const_expr_ok] in Hok. destruct var as [i|]; [|done].
    cbn [check_const_init_expr const_expr_valid].
    apply (checks_bind_var (base s m k cf) module_globals (fun p => (snd p, fst p)));
      [|eexists; apply checks_ret].
    intros g _. cbn [fst snd]. apply checks_get. eexists. split; [intros es; cbn [current_global_index
      num_imported_globals upd base]; reflexivity|].
    eapply checks_iff.
    + eapply checks_bind; [apply checks_if with (P := False); intros Hb; [apply checks_print|apply checks_if_print]|intros _].
      eapply checks_bind; [apply checks_if_print|intros _; apply checks_check_type].
    + destruct (Z.leb_spec (Z.of_nat (n_global k)) i), (Z.leb_spec (Z.of_nat (n_imported k)) i);
        naive_solver lia.
  - destruct x; repeat match goal with v : WasmVar |- _ => destruct v end; apply checks_print.
Qed.
End module_rules.

(** ** Functions *)

Lemma check_types_iff c (a e : WasmTypeVector) S : checks c (check_types a e) S (a = e).
Proof.
  unfold check_types. destruct (Nat.eqb_spec (length a) (length e)) as [Hl|Hl].
  - revert e Hl. induction a as [|x a IH]; intros [|y e] Hl; try done; cbn [check_type_indices].
    + eapply checks_iff; [apply checks_ret|done].
    + eapply checks_iff; [eapply checks_bind; [apply checks_decide|intros _; apply (IH e)]|naive_solver].
      cbn in Hl. lia.
  - eapply checks_iff; [apply checks_print|]. naive_solver.
Qed.

Lemma block_iff C es sig :
  infer_block (infer C) es sig = Some tt <-> block_has_type true C es [] sig.
Proof.
  split.
  - intros H. eapply infer_block_sound; [|exact H]. apply Forall_forall. intros. by apply infer_sound.
  - intros H. apply infer_block_complete. revert H. generalize (@nil WasmType).
    induction es as [|e es IH]; intros S H;
      inversion H as [|C0 e0 es0 S0 S' rs0 He Hl Hb|C0 e0 es0 S0 S' rs0 He Hl]; subst; cbn [infer_seq].
    + eauto.
    + rewrite (infer_complete _ _ _ _ He). cbn [mbind option_bind].
      rewrite decide_False by done. by apply IH.
    + rewrite (infer_complete _ _ _ _ He). cbn [mbind option_bind]. rewrite decide_True by done. eauto.
Qed.

Section functions.
Context {s : WasmScript} {m : WasmModule}.

(** The part of [check_func] that runs with [current_func] set. *)
Lemma run_func_body k f cf0 :
  forallb expr_ok (func_first_expr f) = true ->
  let sig := decl_sig (func_decl f) in
  exists e, (forall es,
    so_bind (push_label LABEL_TYPE_FUNC (result_types sig)) (fun _ =>
      so_bind (check_block check_expr (func_first_expr f)) (fun _ =>
      so_bind pop_label (fun _ => so_modify (set_current_func None))))
      (upd (set_current_func (Some f) (base s m k cf0)) [] es)
    = Some (tt, upd (base s m k None) [] (es ++ e))) /\
    (e = [] <-> block_has_type true (mkTypeContext m f [(LABEL_TYPE_FUNC, result_types sig)])
                  (func_first_expr f) [] (result_types sig)).
Proof.
  intros Hok sig. set (c := set_current_func (Some f) (base s m k cf0)).
  assert (Forall spec_of (func_first_expr f)) as Hes.
  { apply (forallb_Forall_impl _ _ _ Hok). apply Forall_forall. intros e _. apply check_expr_spec. }
  destruct (checks_body c f [] LABEL_TYPE_FUNC (result_types sig) (func_first_expr f) eq_refl Hes)
    as (u & e & R & He).
  exists e. split.
  - intros es. unfold so_bind. rewrite push_label_upd, R, pop_label_upd. unfold so_modify, c. done.
  - rewrite He. apply block_iff.
Qed.

Lemma mchecks_func k f :
  field_ok (FIELD_FUNC f) = true -> mchecks s m k (check_func f) k (func_valid true m f).
Proof.
  intros Hok cf es. cbn [field_ok] in Hok. apply andb_true_iff in Hok as [Hty Hbody].
  unfold check_func, func_valid. set (sig := decl_sig (func_decl f)).
  unfold so_bind at 1, so_modify at 1.
  assert (set_current_func (Some f) (upd (base s m k cf) [] es) = upd (base s m k (Some f)) [] es) as -> by done.
  unfold wasm_get_num_results. fold sig.
  destruct (Z.ltb_spec 1 (Z.of_nat (length (result_types sig)))) as [Hgt|Hle].
  { exists tt, (Some f), ["multiple result values not currently supported."%string].
    unfold print_error, so_modify. rewrite upd_error. split; [done|]. split; [done|lia]. }
  set (c := base s m k (Some f)).
  assert (exists u e1, run c (if wasm_decl_has_func_type (func_decl f) then
        so_bind (check_func_type_var (decl_type_var (func_decl f))) (fun func_type =>
        match func_type with
        | Some ft => check_func_signature_matches_func_type sig ft
        | None => so_ret tt
        end) else so_ret tt) [] u [] e1 /\
      (e1 = [] <-> (wasm_decl_has_func_type (func_decl f) = true ->
         exists ft, var_in (module_func_types m) (decl_type_var (func_decl f)) = Some ft /\
           result_types sig = result_types (func_type_sig ft) /\
           param_types sig = param_types (func_type_sig ft)))) as (u & e1 & R1 & H1).
  { destruct (wasm_decl_has_func_type (func_decl f)) eqn:Ed.
    - cbn [negb orb] in Hty. destruct (decl_type_var (func_decl f)) as [i|]; [|done].
      destruct (checks_bind_var c module_func_types snd (fun func_type =>
        match func_type with
        | Some ft => check_func_signature_matches_func_type sig ft
        | None => so_ret tt
        end) i [] (fun ft => result_types sig = result_types (func_type_sig ft) /\
           param_types sig = param_types (func_type_sig ft))) as (u & e & R & He).
      + intros ft _. eapply checks_bind; [apply check_types_iff|intros _; apply check_types_iff].
      + eexists. apply checks_ret.
      + exists u, e. split; [exact R|]. rewrite He. naive_solver.
    - exists tt, []. split; [apply run_ret|done]. }
  destruct (run_func_body k f (Some f) Hbody) as (e2 & R2 & H2).
  exists tt, None, (e1 ++ e2). split.
  - unfold so_bind at 1. rewrite R1. cbn beta iota.
    pose proof (R2 (es ++ e1)) as R2'. unfold set_current_func, base in R2'. cbn in R2'.
    rewrite app_assoc. exact R2'.
  - rewrite app_nil, H1, H2. unfold sig in *. split; [intros [? ?]; split; [lia|done]|tauto].
Qed.
End functions.

(** ** Fields *)

Lemma count_snoc p l x : count p (l ++ [x]) = (count p l + if p x then 1 else 0)%nat.
Proof.
  unfold count. rewrite filter_app, length_app. f_equal. rewrite filter_cons, filter_nil.
  destruct (p x); [by rewrite decide_True|by rewrite decide_False].
Qed.

(** The counters after the fields [prev]. *)
Definition counters_of (prev : list WasmModuleField) : counters :=
  mkCounters (count is_table prev) (count is_memory prev) (count is_global prev)
    (count is_imported_global prev).

(** Segments are checked after all other fields. *)
Definition is_segment (x : WasmModuleField) : bool :=
  match x with FIELD_ELEM_SEGMENT _ | FIELD_DATA_SEGMENT _ => true | _ => false end.

(** What the loop of [check_module] checks at field [x]. *)
Definition step_valid (m : WasmModule) (prev : list WasmModuleField) (x : WasmModuleField) : Prop :=
  (is_segment x = false -> field_valid true m prev x) /\
  (is_table x = true -> count is_table prev <> 1%nat) /\
  (is_memory x = true -> count is_memory prev <> 1%nat) /\
  (is_start x = true -> count is_start prev = 0%nat).

Fixpoint steps_valid (m : WasmModule) (prev fields : list WasmModuleField) : Prop :=
  match fields with
  | [] => True
  | x :: fields' => step_valid m prev x /\ steps_valid m (prev ++ [x]) fields'
  end.

Lemma so_bind_assoc3 {T A B D E} (a : SO T A) (b : SO T B) (f : B -> SO T D) (k : SO T E) st :
  so_bind a (fun _ => so_bind b (fun r => so_bind (f r) (fun _ => k))) st =
  so_bind (so_bind a (fun _ => so_bind b f)) (fun _ => k) st.
Proof. unfold so_bind. destruct (a st) as [[? s1]|]; [|done]. by destruct (b s1) as [[? s2]|]. Qed.

Section fields.
Context {s : WasmScript} {m : WasmModule}.

Lemma counters_snoc prev x :
  counters_of (prev ++ [x]) = mkCounters (count is_table prev + if is_table x then 1 else 0)
    (count is_memory prev + if is_memory x then 1 else 0)
    (count is_global prev + if is_global x then 1 else 0)
    (count is_imported_global prev + if is_imported_global x then 1 else 0).
Proof. unfold counters_of. by rewrite !count_snoc. Qed.

(** The context's table index is 1 exactly when one table came before. *)
Lemma mchecks_table k t :
  mchecks s m k (check_table t) k (n_table k <> 1%nat /\ limits_valid (table_elem_limits t) UINT32_MAX).
Proof.
  apply mchecks_checks. intros cf. unfold check_table. apply checks_get. eexists.
  split; [intros es; cbn [current_table_index upd base]; reflexivity|].
  eapply checks_iff; [eapply checks_bind; [apply checks_if_print|intros _; apply checks_limits]|].
  rewrite Z.eqb_neq. naive_solver lia.
Qed.

Lemma mchecks_memory k t :
  mchecks s m k (check_memory t) k (n_memory k <> 1%nat /\ limits_valid (memory_page_limits t) WASM_MAX_PAGES).
Proof.
  apply mchecks_checks. intros cf. unfold check_memory. apply checks_get. eexists.
  split; [intros es; cbn [current_memory_index upd base]; reflexivity|].
  eapply checks_iff; [eapply checks_bind; [apply checks_if_print|intros _; apply checks_limits]|].
  rewrite Z.eqb_neq. naive_solver lia.
Qed.

Lemma mchecks_k {A} k (act : V A) k1 k1' P :
  mchecks s m k act k1 P -> k1 = k1' -> mchecks s m k act k1' P.
Proof. by intros H <-. Qed.

(** A step whose counters are [counters_of] and whose condition is
    [step_valid]. *)
Lemma mchecks_step {A} prev x (act : V A) k' P :
  mchecks s m (counters_of prev) act k' P -> k' = counters_of (prev ++ [x]) ->
  (P <-> step_valid m prev x) -> mchecks s m (counters_of prev) act (counters_of (prev ++ [x])) (step_valid m prev x).
Proof. intros H <- HP. by eapply mchecks_iff. Qed.

Ltac counters := rewrite counters_snoc; unfold counters_of; cbn; f_equal; lia.

Lemma mchecks_import prev i :
  field_ok (FIELD_IMPORT i) = true ->
  mchecks s m (counters_of prev) (check_import i) (counters_of (prev ++ [FIELD_IMPORT i]))
    (step_valid m prev (FIELD_IMPORT i)).
Proof.
  intros Hok. destruct i as [mn fn [f|t|me|g]]; unfold check_import; cbn [import_desc].
  - cbn [field_ok] in Hok. eapply mchecks_step.
    + apply mchecks_checks. intros cf.
      apply checks_if with (P := is_Some (var_in (module_func_types m) (decl_type_var (func_decl f))))
        (P' := True); intros Hd; [|apply checks_ret].
      apply checks_then, checks_func_type_var. by rewrite Hd in Hok.
    + counters.
    + unfold step_valid. cbn. destruct (wasm_decl_has_func_type (func_decl f)); naive_solver.
  - eapply mchecks_step; [eapply mchecks_bind; [apply mchecks_table|intros _; apply incr_table]|counters|].
    unfold step_valid. cbn. naive_solver.
  - eapply mchecks_step; [eapply mchecks_bind; [apply mchecks_memory|intros _; apply incr_memory]|counters|].
    unfold step_valid. cbn. naive_solver.
  - eapply mchecks_step.
    + eapply mchecks_bind; [apply mchecks_checks; intros cf; apply checks_if_print|intros _].
      eapply mchecks_bind; [apply incr_imported|intros _; apply incr_global].
    + counters.
    + unfold step_valid. cbn. naive_solver.
Qed.

Lemma mchecks_export prev e :
  field_ok (FIELD_EXPORT e) = true ->
  mchecks s m (counters_of prev) (check_export e) (counters_of (prev ++ [FIELD_EXPORT e]))
    (step_valid m prev (FIELD_EXPORT e)).
Proof.
  intros Hok. cbn [field_ok] in Hok. unfold check_export.
  assert (forall P, P <-> field_valid true m prev (FIELD_EXPORT e) -> P <-> step_valid m prev (FIELD_EXPORT e))
    as Hs by (unfold step_valid; cbn; naive_solver).
  eapply mchecks_step; [apply mchecks_checks; intros cf| |apply Hs; reflexivity]; [|counters].
  unfold field_valid. destruct (export_kind e).
  - by apply checks_then, checks_func_var.
  - by apply checks_then, checks_table_var.
  - by apply checks_then, checks_memory_var.
  - destruct (export_var e) as [i|]; [|done]. cbn [var_in].
    apply (checks_bind_var (base s m (counters_of prev) cf) module_globals (fun p => (snd p, fst p)));
      [|eexists; apply checks_ret].
    intros g _. cbn [fst snd]. apply checks_if_print.
Qed.

Lemma mchecks_start prev v (seen : bool) :
  var_resolved v = true -> seen = negb (count is_start prev =? 0)%nat ->
  mchecks s m (counters_of prev)
    (so_bind (if seen then print_error "only one start function allowed" else so_ret tt) (fun _ =>
     so_bind (check_func_var v) (fun start_func =>
      match start_func with
      | Some f =>
          so_bind (if negb (wasm_get_num_params f =? 0)
           then print_error "start function must be nullary" else so_ret tt) (fun _ =>
          (if negb (wasm_get_num_results f =? 0)
           then print_error "start function must not return anything" else so_ret tt))
      | None => so_ret tt
      end)))
    (counters_of (prev ++ [FIELD_START v])) (step_valid m prev (FIELD_START v)).
Proof.
  intros Hv ->. destruct v as [i|]; [|done].
  apply mchecks_step with (k' := counters_of prev)
    (P := negb (count is_start prev =? 0)%nat = false /\
          exists f, zget (module_funcs m) i = Some f /\
            negb (wasm_get_num_params f =? 0) = false /\ negb (wasm_get_num_results f =? 0) = false).
  - apply mchecks_checks. intros cf.
    eapply checks_bind; [apply checks_if_print|intros _].
    apply (checks_bind_var (base s m (counters_of prev) cf) module_funcs snd); [|eexists; apply checks_ret].
    intros f _. eapply checks_bind; [apply checks_if_print|intros _; apply checks_if_print].
  - counters.
  - unfold step_valid. cbn [is_segment is_table is_memory is_start field_valid var_in current_module base snd].
    unfold wasm_get_num_params, wasm_get_num_results.
    assert (forall (l : list WasmType), negb (Z.of_nat (length l) =? 0) = false <-> l = []) as Hl
      by (intros [|? ?]; cbn; split; intros; try done; lia).
    setoid_rewrite Hl. rewrite negb_false_iff, Nat.eqb_eq. naive_solver.
Qed.

Lemma mchecks_fields fields : forall prev seen,
  forallb field_ok fields = true -> seen = negb (count is_start prev =? 0)%nat ->
  mchecks s m (counters_of prev) (check_fields seen fields) (counters_of (prev ++ fields))
    (steps_valid m prev fields).
Proof.
  induction fields as [|x fields IH]; intros prev seen Hok Hseen; cbn [check_fields steps_valid].
  { rewrite app_nil_r. apply mchecks_ret. }
  cbn [forallb] in Hok. apply andb_true_iff in Hok as [Hx Hok].
  replace (prev ++ x :: fields) with ((prev ++ [x]) ++ fields) by (by rewrite <- app_assoc).
  assert (forall seen', seen' = negb (count is_start (prev ++ [x]) =? 0)%nat ->
    mchecks s m (counters_of (prev ++ [x])) (check_fields seen' fields)
      (counters_of ((prev ++ [x]) ++ fields)) (steps_valid m (prev ++ [x]) fields)) as IHx
    by (intros; by apply IH).
  assert (is_start x = false -> seen = negb (count is_start (prev ++ [x]) =? 0)%nat) as Hkeep
    by (intros E; rewrite count_snoc, E, Nat.add_0_r; done).
  assert (forall k', k' = counters_of (prev ++ [x]) -> step_valid m prev x <-> True ->
    is_start x = false -> counters_of prev = k' ->
    mchecks s m (counters_of prev) (check_fields seen fields)
      (counters_of ((prev ++ [x]) ++ fields)) (step_valid m prev x /\ steps_valid m (prev ++ [x]) fields)) as Hskip.
  { intros k' -> Hstep Hst Ek. rewrite Ek. eapply mchecks_iff; [by apply IHx, Hkeep|]. tauto. }
  destruct x as [f|g|i|e|ft|t|es|me|ds|v].
  - eapply mchecks_bind; [|intros _; by apply IHx, Hkeep].
    eapply mchecks_step; [by apply mchecks_func|counters|]. unfold step_valid. cbn. naive_solver.
  - eapply mchecks_iff; [eapply mchecks_bind; [|intros _; eapply mchecks_bind; [apply incr_global|intros _]]|].
    + apply mchecks_checks. intros cf. by apply checks_const_init_expr.
    + eapply mchecks_k; [|reflexivity].
      replace (mkCounters _ _ _ _) with (counters_of (prev ++ [FIELD_GLOBAL g])) by counters.
      by apply IHx, Hkeep.
    + unfold step_valid. cbn. naive_solver.
  - eapply mchecks_bind; [by apply mchecks_import|intros _; by apply IHx, Hkeep].
  - eapply mchecks_bind; [by apply mchecks_export|intros _; by apply IHx, Hkeep].
  - eapply Hskip; [reflexivity|unfold step_valid; cbn; naive_solver|done|counters].
  - eapply mchecks_iff; [eapply mchecks_bind; [apply mchecks_table|intros _; eapply mchecks_bind; [apply incr_table|intros _]]|].
    + replace (mkCounters _ _ _ _) with (counters_of (prev ++ [FIELD_TABLE t])) by counters.
      by apply IHx, Hkeep.
    + unfold step_valid. cbn. naive_solver.
  - eapply Hskip; [reflexivity|unfold step_valid; cbn; naive_solver|done|counters].
  - eapply mchecks_iff; [eapply mchecks_bind; [apply mchecks_memory|intros _; eapply mchecks_bind; [apply incr_memory|intros _]]|].
    + replace (mkCounters _ _ _ _) with (counters_of (prev ++ [FIELD_MEMORY me])) by counters.
      by apply IHx, Hkeep.
    + unfold step_valid. cbn. naive_solver.
  - eapply Hskip; [reflexivity|unfold step_valid; cbn; naive_solver|done|counters].
  - eapply mchecks_eq; [intros st; apply so_bind_assoc3|].
    eapply mchecks_bind; [by apply mchecks_start|intros _]. apply IHx.
    rewrite count_snoc. cbn. by rewrite Nat.add_1_r.
Qed.
End fields.

(** ** Modules *)

Lemma steps_valid_iff m fields : forall prev,
  steps_valid m prev fields <->
  forall p x r, fields = p ++ x :: r -> step_valid m (prev ++ p) x.
Proof.
  induction fields as [|y fields IH]; intros prev; cbn [steps_valid].
  - split; [|done]. intros _ [|? ?] x r; done.
  - rewrite IH. split.
    + intros [Hy Hf] [|z p] x r [= -> ->]; [by rewrite app_nil_r|].
      specialize (Hf p x r eq_refl). by rewrite <- app_assoc in Hf.
    + intros H. split.
      * specialize (H [] y fields eq_refl). by rewrite app_nil_r in H.
      * intros p x r ->. rewrite <- app_assoc. by apply (H (y :: p) x r).
Qed.

(** At most one: whatever [Q] says of a count, as long as it tells 0 from 1. *)
Lemma count_le_1 (Q : nat -> Prop) p (l : list WasmModuleField) :
  Q 0%nat -> ~ Q 1%nat ->
  (count p l <= 1)%nat <-> forall l1 x l2, l = l1 ++ x :: l2 -> p x = true -> Q (count p l1).
Proof.
  intros HQ0 HQ1. induction l as [|y l IH] using rev_ind.
  - split; [|cbn; lia]. by intros _ [|? ?].
  - rewrite count_snoc. split.
    + intros Hc l1 x l2 E Hx.
      destruct l2 as [|z l2 _] using rev_ind.
      * apply app_inj_tail in E as [-> ->]. rewrite Hx in Hc.
        by replace (count p l1) with 0%nat by lia.
      * rewrite app_comm_cons, app_assoc in E. apply app_inj_tail in E as [-> ->].
        apply (proj1 IH) with (x := x) (l2 := l2); [lia|done|done].
    + intros H. assert (count p l <= 1)%nat as Hl.
      { apply IH. intros l1 x l2 -> Hx. apply (H l1 x (l2 ++ [y])); [|done]. by rewrite <- app_assoc. }
      destruct (p y) eqn:Ey; [|lia]. specialize (H l y [] eq_refl Ey).
      assert (count p l <> 1%nat) by (intros E; by rewrite E in H). lia.
Qed.

Section modules.
Context {s : WasmScript} {m : WasmModule}.

Lemma mchecks_for k (f : WasmModuleField -> V unit) l (P : WasmModuleField -> Prop) :
  (forall x, x ∈ l -> mchecks s m k (f x) k (P x)) -> mchecks s m k (so_for f l) k (Forall P l).
Proof.
  induction l as [|x l IH]; intros Hf; cbn [so_for].
  - eapply mchecks_iff; [apply mchecks_ret|]. by rewrite Forall_nil.
  - eapply mchecks_iff; [|symmetry; apply Forall_cons].
    eapply mchecks_bind; [apply Hf; set_solver|intros _; apply IH; set_solver].
Qed.

(** What the two loops over the segments check. *)
Definition elem_valid (x : WasmModuleField) : Prop :=
  match x with FIELD_ELEM_SEGMENT _ => field_valid true m [] x | _ => True end.
Definition data_valid (x : WasmModuleField) : Prop :=
  match x with FIELD_DATA_SEGMENT _ => field_valid true m [] x | _ => True end.

Lemma field_ok_in x : module_ok m = true -> x ∈ module_fields m -> field_ok x = true.
Proof. unfold module_ok. rewrite List.forallb_forall. intros H Hx. by apply H, list_elem_of_In. Qed.

Lemma mchecks_elem_segments :
  module_ok m = true ->
  mchecks s m (counters_of (module_fields m)) (check_elem_segments m) (counters_of (module_fields m))
    (Forall elem_valid (module_fields m)).
Proof.
  intros Hok. unfold check_elem_segments. apply mchecks_for. intros x Hx.
  apply field_ok_in in Hx; [|done]. destruct x as [| | | | | |es| | |]; try apply mchecks_ret.
  cbn [field_ok] in Hx. apply andb_true_iff in Hx as [Hx Hoff]. apply andb_true_iff in Hx as [Htv Hvs].
  destruct (elem_table_var es) as [i|] eqn:Ev; [|done]. apply mchecks_checks. intros cf.
  eapply checks_iff.
  - apply (checks_bind_var (base s m (counters_of (module_fields m)) cf) module_tables snd)
      with (P := fun _ => Forall (fun v => is_Some (var_in (module_funcs m) v)) (elem_vars es) /\
        const_expr_valid m (count is_global (module_fields m))
          (count is_imported_global (module_fields m)) (elem_offset es) WASM_TYPE_I32);
      [|eexists; apply checks_ret].
    intros t _. eapply checks_bind; [|intros _; by apply checks_const_init_expr].
    apply checks_for. intros v Hv. apply checks_then, checks_func_var.
    rewrite List.forallb_forall in Hvs. by apply Hvs, list_elem_of_In.
  - cbn [elem_valid field_valid]. rewrite Ev. cbn [var_in current_module base]. unfold is_Some. naive_solver.
Qed.

Lemma mchecks_data_segments :
  module_ok m = true ->
  mchecks s m (counters_of (module_fields m)) (check_data_segments m) (counters_of (module_fields m))
    (Forall data_valid (module_fields m)).
Proof.
  intros Hok. unfold check_data_segments. apply mchecks_for. intros x Hx.
  apply field_ok_in in Hx; [|done]. destruct x as [| | | | | | | |ds|]; try apply mchecks_ret.
  cbn [field_ok] in Hx. apply andb_true_iff in Hx as [Htv Hoff].
  destruct (data_memory_var ds) as [i|] eqn:Ev; [|done]. apply mchecks_checks. intros cf.
  eapply checks_iff.
  - apply (checks_bind_var (base s m (counters_of (module_fields m)) cf) module_memories snd)
      with (P := fun _ => const_expr_valid m (count is_global (module_fields m))
          (count is_imported_global (module_fields m)) (data_offset ds) WASM_TYPE_I32);
      [|eexists; apply checks_ret].
    intros t _. by apply checks_const_init_expr.
  - cbn [data_valid field_valid]. rewrite Ev. cbn [var_in current_module base]. unfold is_Some. naive_solver.
Qed.

(** Field by field and then the segments, or all at once. *)
Lemma module_valid_iff :
  (steps_valid m [] (module_fields m) /\ Forall elem_valid (module_fields m) /\
   Forall data_valid (module_fields m)) <-> module_valid true m.
Proof.
  unfold module_valid. rewrite steps_valid_iff. unfold step_valid. cbn [app].
  rewrite (count_le_1 (fun n => n <> 1%nat) is_table), (count_le_1 (fun n => n <> 1%nat) is_memory),
    (count_le_1 (fun n => n = 0%nat) is_start) by lia.
  rewrite !Forall_forall. split.
  - intros (Hs & He & Hd). split; [|split; [|split]]; [|by intros; eapply Hs..].
    intros prev x rest E. assert (x ∈ module_fields m) as Hx by (rewrite E; set_solver).
    destruct (is_segment x) eqn:Eseg; [|by eapply Hs].
    destruct x; try done; [apply (He _ Hx)|apply (Hd _ Hx)].
  - intros (Hf & Ht & Hm & Hst). split; [|split].
    + intros p x r E. split_and!; intros; eauto.
    + intros x Hx. apply list_elem_of_split in Hx as (l1 & l2 & E).
      destruct x; try done. apply (Hf _ _ _ E).
    + intros x Hx. apply list_elem_of_split in Hx as (l1 & l2 & E).
      destruct x; try done. apply (Hf _ _ _ E).
Qed.

(** [check_module] on a context between two commands. *)
Lemma mchecks_module k m0 :
  module_ok m = true ->
  forall cf es, exists cf' e,
    check_module m (upd (base s m0 k cf) [] es)
      = Some (tt, upd (base s m (counters_of (module_fields m)) cf') [] (es ++ e)) /\
    (e = [] <-> module_valid true m).
Proof.
  intros Hok cf es. unfold check_module. unfold so_bind at 1, so_modify at 1.
  replace (set_module m 0 0 0 0 (upd (base s m0 k cf) [] es)) with (upd (base s m (counters_of []) cf) [] es)
    by reflexivity.
  assert (mchecks s m (counters_of []) (so_bind (check_fields false (module_fields m)) (fun _ =>
    so_bind (check_elem_segments m) (fun _ => check_data_segments m)))
    (counters_of (module_fields m)) (module_valid true m)) as H.
  { eapply mchecks_iff; [|apply module_valid_iff].
    eapply mchecks_bind; [by apply (mchecks_fields (module_fields m) [] false)|intros _].
    eapply mchecks_bind; [by apply mchecks_elem_segments|intros _; by apply mchecks_data_segments]. }
  destruct (H cf es) as ([] & cf' & e & E & He). eauto.
Qed.
End modules.

(** ** The verdict *)

(** Commands that are modules, or that the validator ignores. *)
Definition command_module (x : WasmCommand) : option (option WasmModule) :=
  match x with
  | COMMAND_MODULE m => Some (Some m)
  | COMMAND_REGISTER _ _ | COMMAND_ASSERT_MALFORMED _ _ | COMMAND_ASSERT_INVALID _ _
  | COMMAND_ASSERT_UNLINKABLE _ _ | COMMAND_ASSERT_UNINSTANTIABLE _ _ => Some None
  | _ => None
  end.

Lemma run_commands s cmds ms : forall m0 k cf es,
  mapM command_module cmds = Some ms -> Forall (fun m => module_ok m = true) (omap id ms) ->
  exists m1 k1 cf1 e,
    so_for check_command cmds (upd (base s m0 k cf) [] es)
      = Some (tt, upd (base s m1 k1 cf1) [] (es ++ e)) /\
    (e = [] <-> Forall (module_valid true) (omap id ms)).
Proof.
  revert ms. induction cmds as [|x cmds IH]; intros ms m0 k cf es Hms Hok.
  - injection Hms as <-. exists m0, k, cf, []. rewrite app_nil_r. done.
  - cbn [mapM] in Hms. destruct (command_module x) as [om|] eqn:Ex; [|done].
    cbn [mbind option_bind] in Hms. destruct (mapM command_module cmds) as [ms'|] eqn:Ecmds; [|done].
    cbn [mbind option_bind] in Hms. injection Hms as <-. cbn [so_for]. unfold so_bind at 1.
    destruct om as [m|]; cbn [omap list_omap id] in *.
    + destruct x; try done. injection Ex as <-. apply Forall_cons in Hok as [Hm Hok].
      destruct (mchecks_module (s := s) k m0 Hm cf es) as (cf1 & e1 & E1 & H1).
      cbn [check_command]. rewrite E1.
      destruct (IH ms' module (counters_of (module_fields module)) cf1 (es ++ e1) eq_refl Hok)
        as (m2 & k2 & cf2 & e2 & E2 & H2).
      exists m2, k2, cf2, (e1 ++ e2). rewrite app_assoc. split; [done|].
      rewrite app_nil, Forall_cons. by rewrite H1, H2.
    + destruct (IH ms' m0 k cf es eq_refl Hok) as (m2 & k2 & cf2 & e2 & E2 & H2).
      exists m2, k2, cf2, e2. split; [|done]. destruct x; done.
Qed.

Lemma validate_script_iff cmds h ms :
  mapM command_module cmds = Some ms -> Forall (fun m => module_ok m = true) (omap id ms) ->
  exists r, wasm_validate_script (mkScript cmds h) = Some r /\
    (r = WASM_OK <-> Forall (module_valid true) (omap id ms)).
Proof.
  intros Hms Hok. unfold wasm_validate_script.
  destruct (run_commands (mkScript cmds h) cmds ms null_module (mkCounters 0 0 0 0) None [] Hms Hok)
    as (m1 & k1 & cf1 & e & E & He).
  change (init_context (mkScript cmds h))
    with (upd (base (mkScript cmds h) null_module (mkCounters 0 0 0 0) None) [] []).
  cbn [script_commands]. rewrite E. eexists. split; [done|]. rewrite <- He.
  cbn [ctx_result upd base app]. by destruct e.
Qed.

(** ** The departures from the typing rules *)

(** An expression at which the checker's rules are the typing rules: no
    [tee_local]; [call_indirect] with parameters only; local indices of an
    [int]; [br_table] over labels of the same type; no immutable global set; at
    most one result of a block. *)
Fixpoint plain (C : TypeContext) (e : WasmExpr) : bool :=
  match e with
  | EXPR_BLOCK _ sig es =>
      (length sig <=? 1)%nat && forallb (plain (with_label C LABEL_TYPE_BLOCK sig)) es
  | EXPR_LOOP _ sig es =>
      (length sig <=? 1)%nat && forallb (plain (with_label C LABEL_TYPE_LOOP sig)) es
  | EXPR_IF _ sig es fs =>
      (length sig <=? 1)%nat && forallb (plain (with_label C LABEL_TYPE_IF sig)) es &&
      forallb (plain (with_label C LABEL_TYPE_IF sig)) fs
  | EXPR_TEE_LOCAL _ => false
  | EXPR_CALL_INDIRECT var =>
      match var_in (module_func_types (tc_module C)) var with
      | Some ft => negb (bool_decide (param_types (func_type_sig ft) = []))
      | None => true
      end
  | EXPR_GET_LOCAL (VAR_INDEX index) | EXPR_SET_LOCAL (VAR_INDEX index) => to_int index =? index
  | EXPR_SET_GLOBAL var =>
      match var_in (module_globals (tc_module C)) var with Some g => global_mutable g | None => true end
  | EXPR_BR_TABLE targets default =>
      forallb (fun v => bool_decide (label_args C v = label_args C default)) targets
  | _ => true
  end.

(** The parameters and locals of a function can be counted by an [int]. *)
Definition func_small (f : WasmFunc) : bool :=
  Z.of_nat (length (param_types (decl_sig (func_decl f)) ++ func_local_types f)) <=? 2 ^ 31.

Definition module_plain (m : WasmModule) : bool :=
  forallb (fun x => match x with
    | FIELD_FUNC f =>
        forallb (plain (mkTypeContext m f [(LABEL_TYPE_FUNC, result_types (decl_sig (func_decl f)))]))
          (func_first_expr f)
    | FIELD_FUNC_TYPE ft => (length (result_types (func_type_sig ft)) <=? 1)%nat
    | _ => true
    end) (module_fields m).

Definition module_small (m : WasmModule) : bool :=
  forallb (fun x => match x with FIELD_FUNC f => func_small f | _ => true end) (module_fields m).

Lemma local_type_small f var t :
  func_small f = true -> local_type false f var = Some t -> local_type true f var = Some t.
Proof.
  unfold func_small. intros Hs%Z.leb_le Ht. destruct var as [index|]; [|done]. cbn [local_type] in *.
  pose proof (zget_lt _ _ _ Ht). unfold to_int, to_signed, u32, wrap in *.
  rewrite Z.mod_small by lia. rewrite (proj2 (Z.ltb_lt _ _)) by lia. exact Ht.
Qed.

Ltac weaken_rules :=
  intros; try discriminate; econstructor; solve [eauto using local_type_small|discriminate].

Lemma has_type_weaken C e S S' :
  has_type false C e S S' -> func_small (tc_func C) = true -> has_type true C e S S'.
Proof.
  revert C e S S'. apply (has_type_mut false
    (fun C e S S' => func_small (tc_func C) = true -> has_type true C e S S')
    (fun C es S rs => func_small (tc_func C) = true -> block_has_type true C es S rs)); weaken_rules.
Qed.

Lemma block_has_type_weaken C es S rs :
  block_has_type false C es S rs -> func_small (tc_func C) = true -> block_has_type true C es S rs.
Proof.
  revert C es S rs. apply (block_has_type_mut false
    (fun C e S S' => func_small (tc_func C) = true -> has_type true C e S S')
    (fun C es S rs => func_small (tc_func C) = true -> block_has_type true C es S rs)); weaken_rules.
Qed.

Lemma local_type_plain f index t :
  (to_int index =? index) = true -> local_type true f (VAR_INDEX index) = Some t ->
  local_type false f (VAR_INDEX index) = Some t.
Proof. intros E%Z.eqb_eq. cbn [local_type]. by rewrite E. Qed.

Lemma plain_targets C targets default :
  forallb (fun v => bool_decide (label_args C v = label_args C default)) targets = true ->
  Forall (fun v => label_args C v = label_args C default) targets.
Proof.
  rewrite List.forallb_forall, Forall_forall. intros H v Hv%list_elem_of_In.
  apply H in Hv. by apply bool_decide_eq_true in Hv.
Qed.

Ltac strict_rules :=
  intros; cbn [plain forallb] in *;
  repeat match goal with
  | H : _ && _ = true |- _ => apply andb_true_iff in H as [? ?]
  | H : (_ <=? 1)%nat = true |- _ => apply Nat.leb_le in H
  | H : var_in _ _ = Some _, H' : match var_in _ _ with _ => _ end = true |- _ => rewrite H in H'
  | H : param_types _ = [], H' : context [bool_decide _] |- _ => rewrite (bool_decide_eq_true_2 _ H) in H'
  | H : local_type _ _ ?v = Some _ |- _ => is_var v; destruct v; [|discriminate H]
  end; try discriminate;
  first [ solve [econstructor; eauto using local_type_plain, plain_targets]
        | solve [eapply B_cons; eauto] | solve [eapply B_stop; eauto] ].

Lemma has_type_strict C e S S' : has_type true C e S S' -> plain C e = true -> has_type false C e S S'.
Proof.
  revert C e S S'. apply (has_type_mut true
    (fun C e S S' => plain C e = true -> has_type false C e S S')
    (fun C es S rs => forallb (plain C) es = true -> block_has_type false C es S rs)); strict_rules.
Qed.

Lemma block_has_type_strict C es S rs :
  block_has_type true C es S rs -> forallb (plain C) es = true -> block_has_type false C es S rs.
Proof.
  revert C es S rs. apply (block_has_type_mut true
    (fun C e S S' => plain C e = true -> has_type false C e S S')
    (fun C es S rs => forallb (plain C) es = true -> block_has_type false C es S rs)); strict_rules.
Qed.

Lemma module_valid_weaken m : module_small m = true -> module_valid false m -> module_valid true m.
Proof.
  intros Hs (Hf & Hc). split; [|done]. intros prev x rest E. specialize (Hf prev x rest E).
  destruct x as [f| | | | | | | | |]; try done. destruct Hf as (? & ? & ?). split; [done|]. split; [done|].
  apply block_has_type_weaken; [done|]. unfold module_small in Hs. rewrite List.forallb_forall in Hs.
  apply (Hs (FIELD_FUNC f)). rewrite E. apply list_elem_of_In. set_solver.
Qed.

Lemma module_valid_strict m : module_plain m = true -> module_valid true m -> module_valid false m.
Proof.
  intros Hp (Hf & Hc). split; [|done]. intros prev x rest E. pose proof (Hf prev x rest E) as Hx.
  unfold module_plain in Hp. rewrite List.forallb_forall in Hp.
  assert (In x (module_fields m)) as Hin%Hp by (rewrite E; apply list_elem_of_In; set_solver).
  destruct x as [f| | | |ft| | | | |]; try done; [|by intros _; apply Nat.leb_le].
  destruct Hx as (? & ? & ?). split; [done|]. split; [done|]. by apply block_has_type_strict.
Qed.

(** ** The theorems *)

(** C3 - The validator's verdict.  On a script whose commands are modules (or
    commands it skips) with all names resolved, [wasm_validate_script] never
    fails an assertion, and its verdict is [WASM_OK] if and only if every module
    is valid by the declarative rules with the checker's departures from the
    typing rules of the language ([has_type true] lists them).  Against the
    typing rules themselves ([has_type false]): it accepts every valid module,
    of functions with no more locals than an [int] counts; and what it accepts
    is valid, for modules that use none of the departures ([module_plain]: no
    [tee_local], no [call_indirect] without parameters, local indices of an
    [int], [br_table]s over labels of one type, no immutable global set, single
    results).  The rules leave out code that cannot be reached, and names. *)
Theorem wasm_validate_script_correct cmds h ms :
  mapM command_module cmds = Some ms -> Forall (fun m => module_ok m = true) (omap id ms) ->
  exists r, wasm_validate_script (mkScript cmds h) = Some r /\
    (r = WASM_OK <-> Forall (module_valid true) (omap id ms)) /\
    (Forall (fun m => module_small m = true /\ module_valid false m) (omap id ms) -> r = WASM_OK) /\
    (r = WASM_OK -> Forall (fun m => module_plain m = true -> module_valid false m) (omap id ms)).
Proof.
  intros Hms Hok. destruct (validate_script_iff cmds h ms Hms Hok) as (r & E & H). exists r.
  split; [exact E|]. split; [exact H|]. rewrite H. split; intros Hv; (eapply Forall_impl; [exact Hv|]).
  - intros m [Hs Hm]. by apply module_valid_weaken.
  - intros m Hm Hp. by apply module_valid_strict.
Qed.

(** C15 - Checking an expression.  On a resolved expression, below any label,
    with any operand stack and after any errors, [check_expr] does not abort,
    gives back the same labels, module and lower part of the type stack, and
    only adds errors.  It adds none if and only if the expression has a type on
    that operand stack by the rules with the checker's departures, and leaves
    the stack of that type.  By the typing rules themselves: it adds none to an
    expression they type, in a function with no more locals than an [int]
    counts, and where it adds none they give the same type, if the expression
    uses none of the departures ([plain]). *)
Theorem check_expr_correct e c f S es :
  expr_ok e = true -> at_limit c -> current_func c = Some f ->
  exists S' new, check_expr e (upd c S es) = Some (tt, upd c S' (es ++ new)) /\
    (new = [] <-> exists S'', has_type true (typing_context c f) e S S'') /\
    (new = [] -> forall S'', has_type true (typing_context c f) e S S'' <-> S'' = S') /\
    (func_small f = true -> forall S'', has_type false (typing_context c f) e S S'' -> new = [] /\ S'' = S') /\
    (plain (typing_context c f) e = true -> new = [] -> has_type false (typing_context c f) e S S').
Proof.
  intros Hok Hc Hf. destruct (check_expr_spec e Hok c f S Hc Hf) as ([] & S' & new & R & H).
  exists S', new. split; [apply R|]. set (C := typing_context c f) in *.
  assert ((new = [] <-> exists S'', has_type true C e S S'') /\
    (new = [] -> forall S'', has_type true C e S S'' <-> S'' = S')) as [H1 H2].
  { destruct (infer C e S) as [S0|] eqn:E; cbn in H.
    - destruct H as (-> & _ & ->). pose proof (infer_sound _ _ _ _ E) as Ht. split; [naive_solver|].
      intros _ S''. split; [|by intros ->]. intros H2%infer_complete. congruence.
    - split; [|by intros ->]. split; [by intros ->|]. intros [S'' H2%infer_complete]. congruence. }
  split; [exact H1|]. split; [exact H2|]. split.
  - intros Hs S'' Ht%has_type_weaken; [|done]. assert (new = []) as En by (apply H1; eauto).
    split; [done|]. by apply H2.
  - intros Hp En. apply has_type_strict; [|done]. by apply H2.
Qed.

Definition module_script (m : WasmModule) : WasmScript := mkScript [COMMAND_MODULE m] empty_hash.

(** ** Concrete modules *)

(** A module of one function without parameters. *)
Definition one_func (locals results : list WasmType) (body : list WasmExpr) (rest : list WasmModuleField) :
    WasmModule :=
  mkModule None
    (FIELD_FUNC (mkFunc None (mkFuncDeclaration 0 (VAR_INDEX 0) (mkFuncSignature [] results)) locals
       empty_hash empty_hash body) :: rest)
    empty_hash empty_hash empty_hash empty_hash empty_hash empty_hash.

(** [(local i32) (if (result i32) (get_local 0) (then (i32.const 1)) (else (br 1 (i32.const 2))))]. *)
Definition demo_body : list WasmExpr :=
  [EXPR_GET_LOCAL (VAR_INDEX 0);
   EXPR_IF None [WASM_TYPE_I32] [EXPR_CONST (mkConst WASM_TYPE_I32 1)]
     [EXPR_CONST (mkConst WASM_TYPE_I32 2); EXPR_BR (VAR_INDEX 1)]].

Definition demo_module : WasmModule := one_func [WASM_TYPE_I32] [WASM_TYPE_I32] demo_body [].

(** The same function ending in an [f32]: ill typed. *)
Definition ill_module : WasmModule :=
  one_func [] [WASM_TYPE_I32] [EXPR_CONST (mkConst WASM_TYPE_F32 0)] [].

Lemma wasm_validate_script_correct_witness :
  wasm_validate_script (mkScript [COMMAND_MODULE demo_module; COMMAND_MODULE ill_module] empty_hash) =
    Some WASM_ERROR /\ ~ Forall (module_valid true) [demo_module; ill_module] /\
  wasm_validate_script (module_script demo_module) = Some WASM_OK /\ module_valid false demo_module.
Proof.
  destruct (wasm_validate_script_correct [COMMAND_MODULE demo_module; COMMAND_MODULE ill_module] empty_hash
    [Some demo_module; Some ill_module]) as (r & E & H & _); [reflexivity|repeat constructor|].
  assert (wasm_validate_script (mkScript [COMMAND_MODULE demo_module; COMMAND_MODULE ill_module] empty_hash) =
    Some WASM_ERROR) as E1 by (vm_compute; reflexivity).
  split; [exact E1|]. split; [intros Hv; apply H in Hv; congruence|].
  destruct (wasm_validate_script_correct [COMMAND_MODULE demo_module] empty_hash [Some demo_module])
    as (r2 & E2 & _ & _ & H2); [reflexivity|repeat constructor|].
  assert (wasm_validate_script (module_script demo_module) = Some WASM_OK) as E3 by (vm_compute; reflexivity).
  split; [exact E3|]. assert (r2 = WASM_OK) as Er by (unfold module_script in E3; congruence).
  specialize (H2 Er). cbn [omap list_omap id] in H2. apply List.Forall_inv in H2. apply H2. vm_compute. reflexivity.
Defined.

(** The context at the start of the body of the demo function. *)
Definition demo_context : Context :=
  block_context (base (module_script demo_module) demo_module (mkCounters 0 0 0 0)
    (head (module_funcs demo_module))) [] LABEL_TYPE_FUNC [WASM_TYPE_I32].

Lemma check_expr_correct_witness :
  exists S' new, check_expr EXPR_DROP (upd demo_context [WASM_TYPE_F32; WASM_TYPE_I32] [])
      = Some (tt, upd demo_context S' ([] ++ new)) /\ new = [] /\ S' = [WASM_TYPE_F32].
Proof.
  destruct (check_expr_correct EXPR_DROP demo_context
    (mkFunc None (mkFuncDeclaration 0 (VAR_INDEX 0) (mkFuncSignature [] [WASM_TYPE_I32]))
      [WASM_TYPE_I32] empty_hash empty_hash demo_body) [WASM_TYPE_F32; WASM_TYPE_I32] []
    eq_refl (block_context_at_limit _ _ _ _) eq_refl) as (S' & new & H1 & _ & _ & H2 & _).
  exists S', new. split; [exact H1|].
  destruct (H2 eq_refl [WASM_TYPE_F32] (T_drop false _ WASM_TYPE_I32 [WASM_TYPE_F32])) as [-> <-].
  split; reflexivity.
Defined.

(** [(local i32) (drop (tee_local 0 (f32.const 0)))]. *)
Definition tee_module : WasmModule :=
  one_func [WASM_TYPE_I32] [] [EXPR_CONST (mkConst WASM_TYPE_F32 0); EXPR_TEE_LOCAL (VAR_INDEX 0); EXPR_DROP] [].

(** [tee_local] is not type checked: the validator accepts a function that
    stores an [f32] in an [i32] local with [tee_local], although the module is
    not valid; with [set_local] in its place it is rejected. *)
Theorem tee_local_unchecked :
  wasm_validate_script (module_script tee_module) = Some WASM_OK /\
  ~ module_valid false tee_module /\
  wasm_validate_script (module_script (one_func [WASM_TYPE_I32] []
    [EXPR_CONST (mkConst WASM_TYPE_F32 0); EXPR_SET_LOCAL (VAR_INDEX 0)] [])) = Some WASM_ERROR.
Proof.
  split; [vm_compute; reflexivity|]. split; [|vm_compute; reflexivity].
  intros [Hf _]. destruct (Hf [] _ [] eq_refl) as (_ & _ & Hb). cbn in Hb.
  inversion Hb as [|? ? ? ? S1 ? H1 ? Hb1|? ? ? ? ? ? H1 Hl]; subst; inversion H1; subst; [|discriminate Hl].
  inversion Hb1 as [|? ? ? ? S2 ? H2 ? Hb2|? ? ? ? ? ? H2 Hl]; subst; inversion H2; subst; try discriminate;
    match goal with
    | E : _ ++ [_] = _, Ht : local_type _ _ _ = Some _ |- _ =>
        vm_compute in Ht; injection Ht as <-;
        apply (app_inj_tail _ []) in E as [_ ?]; discriminate
    end.
Qed.

(** [(call_indirect 0)] of type [() -> ()] on an empty stack, with a table. *)
Definition underflow_module : WasmModule :=
  one_func [] [] [EXPR_CALL_INDIRECT (VAR_INDEX 0)]
    [FIELD_FUNC_TYPE (mkFuncType None (mkFuncSignature [] []));
     FIELD_TABLE (mkTable None (mkLimits 1 0 false))].

(** [call_indirect] does not check that its function index is on the
    stack: the validator accepts a function whose body is a [call_indirect] on
    an empty stack, although the module is not valid. *)
Theorem call_indirect_underflow :
  wasm_validate_script (module_script underflow_module) = Some WASM_OK /\
  ~ module_valid false underflow_module.
Proof.
  split; [vm_compute; reflexivity|].
  intros [Hf _]. destruct (Hf [] _ _ eq_refl) as (_ & _ & Hb). cbn in Hb.
  inversion Hb as [|? ? ? ? S1 ? H1 ? Hb1|? ? ? ? ? ? H1 Hl]; subst; inversion H1; subst; try discriminate;
    match goal with
    | E : _ ++ _ ++ [_] = [] |- _ =>
        apply app_eq_nil in E as [_ E]; apply app_eq_nil in E as [_ ?]; discriminate
    end.
Qed.

(** The index of a local is cut to 32 bits before it is compared: the
    validator takes [get_local 4294967296] for [get_local 0]. *)
Theorem local_index_truncated :
  wasm_validate_script (module_script (one_func [WASM_TYPE_I32] [WASM_TYPE_I32]
    [EXPR_GET_LOCAL (VAR_INDEX (2 ^ 32))] [])) = Some WASM_OK.
Proof. vm_compute. reflexivity. Qed.

(** [(set_global 0 (i32.const 0))], the global being immutable. *)
Definition immutable_module : WasmModule :=
  one_func [] [] [EXPR_CONST (mkConst WASM_TYPE_I32 0); EXPR_SET_GLOBAL (VAR_INDEX 0)]
    [FIELD_GLOBAL (mkGlobal None WASM_TYPE_I32 false [EXPR_CONST (mkConst WASM_TYPE_I32 0)])].

(** [set_global] does not look at the mutability of the global. *)
Theorem set_global_unchecked :
  wasm_validate_script (module_script immutable_module) = Some WASM_OK /\
  ~ module_valid false immutable_module.
Proof.
  split; [vm_compute; reflexivity|].
  intros [Hf _]. destruct (Hf [] _ _ eq_refl) as (_ & _ & Hb). cbn in Hb.
  inversion Hb as [|? ? ? ? S1 ? H1 ? Hb1|? ? ? ? ? ? H1 Hl]; subst; inversion H1; subst; [|discriminate Hl].
  inversion Hb1 as [|? ? ? ? S2 ? H2 ? Hb2|? ? ? ? ? ? H2 Hl]; subst; inversion H2; subst;
    match goal with
    | Hv : var_in _ _ = Some ?g, Hm : false = false -> global_mutable ?g = true |- _ =>
        vm_compute in Hv; injection Hv as <-; discriminate (Hm eq_refl)
    end.
Qed.

(** [(block (result i32) (br_table 0 1 (i32.const 0) (i32.const 0)))]. *)
Definition mixed_module : WasmModule :=
  one_func [] [] [EXPR_BLOCK None [WASM_TYPE_I32]
    [EXPR_CONST (mkConst WASM_TYPE_I32 0); EXPR_CONST (mkConst WASM_TYPE_I32 0);
     EXPR_BR_TABLE [VAR_INDEX 0] (VAR_INDEX 1)]; EXPR_DROP] [].

(** The targets of a [br_table] are checked one by one, and so may take
    different numbers of values. *)
Theorem br_table_mixed :
  wasm_validate_script (module_script mixed_module) = Some WASM_OK /\ module_plain mixed_module = false.
Proof. split; vm_compute; reflexivity. Qed.
