(* ===== verification/BinaryWriter.v ===== *)
(** * The binary writer (src/src/binary-writer.c)

    [write_module] and everything below it, over any writer: the LEB128 and
    type writers on the stream, the placeholders of section and body sizes that
    are fixed up afterwards, expressions, and the sections in the order the code
    writes them.  Logging ([write_header], the [desc] arguments) only prints.
    The code's indices into [funcs], [globals], ... look past the imports, which
    come first. *)

From S2P Require Import Prelude Opcode Leb128 Ast BindingHash Vector StateOpt Stream.

#[local] Open Scope so_scope.

Definition WASM_BINARY_MAGIC : Z := 0x6d736100.
Definition WASM_BINARY_VERSION : Z := 0x0d.
Definition WASM_BINARY_LIMITS_HAS_MAX_FLAG : Z := 0x1.
Definition WASM_BINARY_SECTION_NAME : string := "name".

Inductive WasmBinarySection : Set :=
| WASM_BINARY_SECTION_CUSTOM | WASM_BINARY_SECTION_TYPE | WASM_BINARY_SECTION_IMPORT
| WASM_BINARY_SECTION_FUNCTION | WASM_BINARY_SECTION_TABLE | WASM_BINARY_SECTION_MEMORY
| WASM_BINARY_SECTION_GLOBAL | WASM_BINARY_SECTION_EXPORT | WASM_BINARY_SECTION_START
| WASM_BINARY_SECTION_ELEM | WASM_BINARY_SECTION_CODE | WASM_BINARY_SECTION_DATA.

Definition section_code (s : WasmBinarySection) : Z :=
  match s with
  | WASM_BINARY_SECTION_CUSTOM => 0 | WASM_BINARY_SECTION_TYPE => 1
  | WASM_BINARY_SECTION_IMPORT => 2 | WASM_BINARY_SECTION_FUNCTION => 3
  | WASM_BINARY_SECTION_TABLE => 4 | WASM_BINARY_SECTION_MEMORY => 5
  | WASM_BINARY_SECTION_GLOBAL => 6 | WASM_BINARY_SECTION_EXPORT => 7
  | WASM_BINARY_SECTION_START => 8 | WASM_BINARY_SECTION_ELEM => 9
  | WASM_BINARY_SECTION_CODE => 10 | WASM_BINARY_SECTION_DATA => 11
  end.

Definition WASM_NUM_BINARY_SECTIONS : Z := 12.

Record WasmWriteBinaryOptions : Type := mkWriteOptions {
  canonicalize_lebs : bool;
  write_debug_names : bool;
  is_invalid : bool
}.

Definition WASM_WRITE_BINARY_OPTIONS_DEFAULT : WasmWriteBinaryOptions :=
  mkWriteOptions true false false.

(** [Context] of binary-writer.c *)
Record WriteContext (W : Type) : Type := mkWriteContext {
  wr_stream : WasmStream W;
  wr_options : WasmWriteBinaryOptions;
  last_section_offset : Z;
  last_section_leb_size_guess : Z
}.
Arguments mkWriteContext {W} _ _ _ _.
Arguments wr_stream {W} _.
Arguments wr_options {W} _.
Arguments last_section_offset {W} _.
Arguments last_section_leb_size_guess {W} _.

(** [while (x > 1) { x >>= 1; result++; }] *)
Fixpoint log2_u32_loop (fuel : nat) (x result : Z) : option Z :=
  if 1 <? x then
    match fuel with
    | O => None
    | S fuel' => log2_u32_loop fuel' (Z.shiftr x 1) (u8 (result + 1))
    end
  else Some result.

Definition log2_u32 (x : Z) : option Z := log2_u32_loop 32 x 0.

Section writer.
Context {W : Type} `{WasmWriter W}.

(** ** On a stream *)

Abbreviation St := (SO (WasmStream W)).

Definition wasm_write_u32_leb128_at (offset value : Z) : St Z :=
  data <- so_lift (Write.u32_leb128 (u32 value)) ;;
  wasm_write_data_at (u32 offset) data ;;
  so_ret (Z.of_nat (length data)).

Definition wasm_write_fixed_u32_leb128_at (offset value : Z) : St Z :=
  data <- so_lift (Write.wasm_write_fixed_u32_leb128_raw
                     (Z.of_nat Write.MAX_U32_LEB128_BYTES) (u32 value)) ;;
  wasm_write_data_at (u32 offset) data ;;
  so_ret (Z.of_nat (length data)).

Definition wasm_write_u32_leb128 (value : Z) : St unit :=
  s <- so_get ;;
  length <- wasm_write_u32_leb128_at (stream_offset s) value ;;
  add_offset length.

Definition wasm_write_fixed_u32_leb128 (value : Z) : St unit :=
  s <- so_get ;;
  length <- wasm_write_fixed_u32_leb128_at (stream_offset s) value ;;
  add_offset length.

(** [value] is the [int32_t]. *)
Definition wasm_write_i32_leb128 (value : Z) : St unit :=
  data <- so_lift (Write.i32_leb128 value) ;; wasm_write_data data.

Definition write_i64_leb128 (value : Z) : St unit :=
  data <- so_lift (Write.i64_leb128 value) ;; wasm_write_data data.

Definition wasm_write_str (s : WasmStringSlice) : St unit :=
  wasm_write_u32_leb128 (Z.of_nat (length (slice_bytes s))) ;;
  wasm_write_data (slice_bytes s).

Definition write_opcode_u8 (opcode : Z) : St unit := wasm_write_u8 opcode.

Definition wasm_write_opcode (opcode : WasmOpcode) : St unit :=
  write_opcode_u8 (opcode_code opcode).

Definition wasm_write_type (type : WasmType) : St unit :=
  wasm_write_i32_leb128 (wasm_type_code type).

Definition wasm_write_limits (limits : WasmLimits) : St unit :=
  let flags := if lim_has_max limits then WASM_BINARY_LIMITS_HAS_MAX_FLAG else 0 in
  wasm_write_u32_leb128 flags ;;
  wasm_write_u32_leb128 (lim_initial limits) ;;
  if lim_has_max limits then wasm_write_u32_leb128 (lim_max limits) else so_ret tt.

(** ** In the context *)

Abbreviation Wr := (SO (WriteContext W)).

(** [&ctx->stream] *)
Definition on_stream {A} (f : St A) : Wr A := fun c =>
  match f (wr_stream c) with
  | Some (a, s) => Some (a, mkWriteContext s (wr_options c) (last_section_offset c)
                              (last_section_leb_size_guess c))
  | None => None
  end.

Definition set_last_section (offset guess : Z) : Wr unit :=
  so_modify (fun c => mkWriteContext (wr_stream c) (wr_options c) offset guess).

Definition write_u32_leb128_space (leb_size_guess : Z) : Wr Z :=
  so_assert (leb_size_guess <=? Z.of_nat Write.MAX_U32_LEB128_BYTES) ;;
  c <- so_get ;;
  let result := u32 (stream_offset (wr_stream c)) in
  let bytes_to_write :=
    if canonicalize_lebs (wr_options c) then leb_size_guess
    else Z.of_nat Write.MAX_U32_LEB128_BYTES in
  on_stream (wasm_write_data (replicate (Z.to_nat bytes_to_write) 0)) ;;
  so_ret result.

Definition write_fixup_u32_leb128_size (offset leb_size_guess : Z) : Wr unit :=
  c <- so_get ;;
  if canonicalize_lebs (wr_options c) then
    let size := u32 (stream_offset (wr_stream c) - offset - leb_size_guess) in
    leb_size <- so_lift (Write.size_u32_leb128 size) ;;
    (if negb (leb_size =? leb_size_guess) then
       let src_offset := u32 (offset + leb_size_guess) in
       let dst_offset := u32 (offset + leb_size) in
       on_stream (wasm_move_data dst_offset src_offset size)
     else so_ret tt) ;;
    on_stream (wasm_write_u32_leb128_at offset size) ;;
    on_stream (add_offset (leb_size - leb_size_guess))
  else
    let size := u32 (stream_offset (wr_stream c) - offset -
                       Z.of_nat Write.MAX_U32_LEB128_BYTES) in
    on_stream (wasm_write_fixed_u32_leb128_at offset size) ;; so_ret tt.

Definition write_inline_signature_type (sig : WasmBlockSignature) : Wr unit :=
  match sig with
  | [] => on_stream (wasm_write_type WASM_TYPE_VOID)
  | [t] => on_stream (wasm_write_type t)
  | _ => on_stream (wasm_write_u8 0xff) (* this is currently unrepresentable *)
  end.

Definition begin_known_section (section : WasmBinarySection) (leb_size_guess : Z) : Wr unit :=
  c <- so_get ;;
  so_assert (last_section_leb_size_guess c =? 0) ;;
  on_stream (wasm_write_u8 (section_code section)) ;;
  offset <- write_u32_leb128_space leb_size_guess ;;
  set_last_section offset leb_size_guess.

Definition begin_custom_section (name : string) (leb_size_guess : Z) : Wr unit :=
  c <- so_get ;;
  so_assert (last_section_leb_size_guess c =? 0) ;;
  on_stream (wasm_write_u8 (section_code WASM_BINARY_SECTION_CUSTOM)) ;;
  offset <- write_u32_leb128_space leb_size_guess ;;
  set_last_section offset leb_size_guess ;;
  on_stream (wasm_write_str (Some name)).

Definition end_section : Wr unit :=
  c <- so_get ;;
  so_assert (negb (last_section_leb_size_guess c =? 0)) ;;
  write_fixup_u32_leb128_size (last_section_offset c) (last_section_leb_size_guess c) ;;
  c <- so_get ;;
  set_last_section (last_section_offset c) 0.

Definition get_label_var_depth (var : WasmVar) : Wr Z :=
  match var with
  | VAR_INDEX index => so_ret (u32 index)
  | VAR_NAME _ => so_fail (* assert *)
  end.

(** [assert(ctx->options->is_invalid || (index >= 0 && index < size))] *)
Definition assert_index (index : Z) (size : nat) : Wr unit :=
  c <- so_get ;;
  so_assert (is_invalid (wr_options c) || ((0 <=? index) && (index <? Z.of_nat size))).

(** An index as an operand. *)
Definition write_index (index : Z) : Wr unit := on_stream (wasm_write_u32_leb128 index).

Definition write_memory_access (opcode : WasmOpcode) (align offset : Z) : Wr unit :=
  on_stream (wasm_write_opcode opcode) ;;
  let align := wasm_get_opcode_alignment opcode align in
  log2 <- so_lift (log2_u32 align) ;;
  on_stream (wasm_write_u8 log2) ;;
  on_stream (wasm_write_u32_leb128 (u32 offset)).

Definition write_const (const_ : WasmConst) : Wr unit :=
  match const_type const_ with
  | WASM_TYPE_I32 =>
      on_stream (wasm_write_opcode WASM_OPCODE_I32_CONST) ;;
      on_stream (wasm_write_i32_leb128 (to_signed 32 (const_bits const_)))
  | WASM_TYPE_I64 =>
      on_stream (wasm_write_opcode WASM_OPCODE_I64_CONST) ;;
      on_stream (write_i64_leb128 (to_signed 64 (const_bits const_)))
  | WASM_TYPE_F32 =>
      on_stream (wasm_write_opcode WASM_OPCODE_F32_CONST) ;;
      on_stream (wasm_write_u32 (const_bits const_))
  | WASM_TYPE_F64 =>
      on_stream (wasm_write_opcode WASM_OPCODE_F64_CONST) ;;
      on_stream (wasm_write_u64 (const_bits const_))
  | _ => so_fail (* assert(0) *)
  end.

(** [func] is [NULL] in initializer expressions; looking a local up there
    dereferences it. *)
Definition local_index (func : option WasmFunc) (var : WasmVar) : Wr Z :=
  match var, func with
  | VAR_INDEX index, _ => so_ret (to_int index)
  | _, Some f => so_lift (wasm_get_local_index_by_var f var)
  | _, None => so_fail
  end.

Fixpoint write_expr (module : WasmModule) (func : option WasmFunc) (expr : WasmExpr) : Wr unit :=
  let write_expr_list := fix go (es : list WasmExpr) : Wr unit :=
    match es with
    | [] => so_ret tt
    | e :: es => write_expr module func e ;; go es
    end in
  match expr with
  | EXPR_BINARY opcode | EXPR_COMPARE opcode | EXPR_CONVERT opcode | EXPR_UNARY opcode =>
      on_stream (wasm_write_opcode opcode)
  | EXPR_BLOCK _ sig first =>
      on_stream (wasm_write_opcode WASM_OPCODE_BLOCK) ;;
      write_inline_signature_type sig ;;
      write_expr_list first ;;
      on_stream (wasm_write_opcode WASM_OPCODE_END)
  | EXPR_BR var =>
      on_stream (wasm_write_opcode WASM_OPCODE_BR) ;;
      depth <- get_label_var_depth var ;; write_index depth
  | EXPR_BR_IF var =>
      on_stream (wasm_write_opcode WASM_OPCODE_BR_IF) ;;
      depth <- get_label_var_depth var ;; write_index depth
  | EXPR_BR_TABLE targets default_target =>
      on_stream (wasm_write_opcode WASM_OPCODE_BR_TABLE) ;;
      write_index (Z.of_nat (length targets)) ;;
      so_for (fun t => depth <- get_label_var_depth t ;; write_index depth) targets ;;
      depth <- get_label_var_depth default_target ;; write_index depth
  | EXPR_CALL var =>
      index <- so_lift (wasm_get_func_index_by_var module var) ;;
      assert_index index (length (module_funcs module)) ;;
      on_stream (wasm_write_opcode WASM_OPCODE_CALL) ;;
      write_index index
  | EXPR_CALL_INDIRECT var =>
      index <- so_lift (wasm_get_func_type_index_by_var module var) ;;
      assert_index index (length (module_func_types module)) ;;
      on_stream (wasm_write_opcode WASM_OPCODE_CALL_INDIRECT) ;;
      write_index index ;;
      write_index 0
  | EXPR_CONST const_ => write_const const_
  | EXPR_CURRENT_MEMORY =>
      on_stream (wasm_write_opcode WASM_OPCODE_CURRENT_MEMORY) ;; write_index 0
  | EXPR_DROP => on_stream (wasm_write_opcode WASM_OPCODE_DROP)
  | EXPR_GET_GLOBAL var =>
      index <- so_lift (wasm_get_global_index_by_var module var) ;;
      on_stream (wasm_write_opcode WASM_OPCODE_GET_GLOBAL) ;; write_index index
  | EXPR_GET_LOCAL var =>
      index <- local_index func var ;;
      on_stream (wasm_write_opcode WASM_OPCODE_GET_LOCAL) ;; write_index index
  | EXPR_GROW_MEMORY =>
      on_stream (wasm_write_opcode WASM_OPCODE_GROW_MEMORY) ;; write_index 0
  | EXPR_IF _ sig true_ false_ =>
      on_stream (wasm_write_opcode WASM_OPCODE_IF) ;;
      write_inline_signature_type sig ;;
      write_expr_list true_ ;;
      (match false_ with
       | [] => so_ret tt
       | _ => on_stream (wasm_write_opcode WASM_OPCODE_ELSE) ;; write_expr_list false_
       end) ;;
      on_stream (wasm_write_opcode WASM_OPCODE_END)
  | EXPR_LOAD opcode align offset => write_memory_access opcode align offset
  | EXPR_LOOP _ sig first =>
      on_stream (wasm_write_opcode WASM_OPCODE_LOOP) ;;
      write_inline_signature_type sig ;;
      write_expr_list first ;;
      on_stream (wasm_write_opcode WASM_OPCODE_END)
  | EXPR_NOP => on_stream (wasm_write_opcode WASM_OPCODE_NOP)
  | EXPR_RETURN => on_stream (wasm_write_opcode WASM_OPCODE_RETURN)
  | EXPR_SELECT => on_stream (wasm_write_opcode WASM_OPCODE_SELECT)
  | EXPR_SET_GLOBAL var =>
      index <- so_lift (wasm_get_global_index_by_var module var) ;;
      on_stream (wasm_write_opcode WASM_OPCODE_SET_GLOBAL) ;; write_index index
  | EXPR_SET_LOCAL var =>
      index <- local_index func var ;;
      on_stream (wasm_write_opcode WASM_OPCODE_SET_LOCAL) ;; write_index index
  | EXPR_STORE opcode align offset => write_memory_access opcode align offset
  | EXPR_TEE_LOCAL var =>
      index <- local_index func var ;;
      on_stream (wasm_write_opcode WASM_OPCODE_TEE_LOCAL) ;; write_index index
  | EXPR_UNREACHABLE => on_stream (wasm_write_opcode WASM_OPCODE_UNREACHABLE)
  end.

Definition write_expr_list (module : WasmModule) (func : option WasmFunc) (es : list WasmExpr) : Wr unit :=
  so_for (write_expr module func) es.

Definition write_init_expr (module : WasmModule) (expr : list WasmExpr) : Wr unit :=
  write_expr_list module None expr ;;
  on_stream (wasm_write_opcode WASM_OPCODE_END).

(** The first loop of [write_func_locals]: the number of runs of equal types,
    from the second local on. *)
Fixpoint count_local_decls (current_type : WasmType) (local_decl_count : Z) (types : list WasmType) : Z :=
  match types with
  | [] => local_decl_count
  | type :: types =>
      if negb (bool_decide (current_type = type))
      then count_local_decls type (u32 (local_decl_count + 1)) types
      else count_local_decls current_type local_decl_count types
  end.

(** The second loop, over the types from the second on and a last
    [WASM_TYPE_VOID]. *)
Fixpoint write_local_decls (current_type : WasmType) (local_type_count : Z) (types : list WasmType) : Wr unit :=
  match types with
  | [] => so_ret tt
  | type :: types =>
      if bool_decide (current_type = type)
      then write_local_decls current_type (u32 (local_type_count + 1)) types
      else
        on_stream (wasm_write_u32_leb128 local_type_count) ;;
        on_stream (wasm_write_type current_type) ;;
        write_local_decls type 1 types
  end.

Definition write_func_locals (local_types : WasmTypeVector) : Wr unit :=
  match local_types with
  | [] => on_stream (wasm_write_u32_leb128 0)
  | first :: rest =>
      on_stream (wasm_write_u32_leb128 (count_local_decls first 1 rest)) ;;
      write_local_decls first 1 (rest ++ [WASM_TYPE_VOID])
  end.

Definition write_func (module : WasmModule) (func : WasmFunc) : Wr unit :=
  write_func_locals (func_local_types func) ;;
  write_expr_list module (Some func) (func_first_expr func) ;;
  on_stream (wasm_write_opcode WASM_OPCODE_END).

Definition write_table (table : WasmTable) : Wr unit :=
  on_stream (wasm_write_type WASM_TYPE_ANYFUNC) ;;
  on_stream (wasm_write_limits (table_elem_limits table)).

Definition write_memory (memory : WasmMemory) : Wr unit :=
  on_stream (wasm_write_limits (memory_page_limits memory)).

Definition write_global_header (global : WasmGlobal) : Wr unit :=
  on_stream (wasm_write_type (global_type global)) ;;
  on_stream (wasm_write_u8 (b2z (global_mutable global))).

(** ** [write_module], section by section *)

Definition leb_size_guess : Z := 1.

(** [if (l.size) { begin; num; for each; end; }] *)
Definition write_known_section {A} (section : WasmBinarySection) (l : list A) (body : A -> Wr unit) : Wr unit :=
  match l with
  | [] => so_ret tt
  | _ =>
      begin_known_section section leb_size_guess ;;
      on_stream (wasm_write_u32_leb128 (Z.of_nat (length l))) ;;
      so_for body l ;;
      end_section
  end.

Definition write_func_type (func_type : WasmFuncType) : Wr unit :=
  let sig := func_type_sig func_type in
  on_stream (wasm_write_type WASM_TYPE_FUNC) ;;
  on_stream (wasm_write_u32_leb128 (Z.of_nat (length (param_types sig)))) ;;
  so_for (fun t => on_stream (wasm_write_type t)) (param_types sig) ;;
  on_stream (wasm_write_u32_leb128 (Z.of_nat (length (result_types sig)))) ;;
  so_for (fun t => on_stream (wasm_write_type t)) (result_types sig).

Definition write_func_type_index (module : WasmModule) (decl : WasmFuncDeclaration) : Wr unit :=
  index <- so_lift (wasm_get_func_type_index_by_decl module decl) ;; write_index index.

Definition import_kind (d : WasmImportDesc) : WasmExternalKind :=
  match d with
  | IMPORT_FUNC _ => WASM_EXTERNAL_KIND_FUNC
  | IMPORT_TABLE _ => WASM_EXTERNAL_KIND_TABLE
  | IMPORT_MEMORY _ => WASM_EXTERNAL_KIND_MEMORY
  | IMPORT_GLOBAL _ => WASM_EXTERNAL_KIND_GLOBAL
  end.

Definition write_import (module : WasmModule) (import : WasmImport) : Wr unit :=
  on_stream (wasm_write_str (import_module_name import)) ;;
  on_stream (wasm_write_str (import_field_name import)) ;;
  on_stream (wasm_write_u8 (wasm_external_kind_code (import_kind (import_desc import)))) ;;
  match import_desc import with
  | IMPORT_FUNC func => write_func_type_index module (func_decl func)
  | IMPORT_TABLE table => write_table table
  | IMPORT_MEMORY memory => write_memory memory
  | IMPORT_GLOBAL global => write_global_header global
  end.

Definition write_global (module : WasmModule) (global : WasmGlobal) : Wr unit :=
  write_global_header global ;; write_init_expr module (global_init_expr global).

(** The lookup of an exported item, and how many items of its kind there are. *)
Definition export_index (module : WasmModule) (e : WasmExport) : option Z * nat :=
  match export_kind e with
  | WASM_EXTERNAL_KIND_FUNC =>
      (wasm_get_func_index_by_var module (export_var e), length (module_funcs module))
  | WASM_EXTERNAL_KIND_TABLE =>
      (wasm_get_table_index_by_var module (export_var e), length (module_tables module))
  | WASM_EXTERNAL_KIND_MEMORY =>
      (wasm_get_memory_index_by_var module (export_var e), length (module_memories module))
  | WASM_EXTERNAL_KIND_GLOBAL =>
      (wasm_get_global_index_by_var module (export_var e), length (module_globals module))
  end.

Definition write_export (module : WasmModule) (e : WasmExport) : Wr unit :=
  on_stream (wasm_write_str (export_name e)) ;;
  on_stream (wasm_write_u8 (wasm_external_kind_code (export_kind e))) ;;
  index <- so_lift (fst (export_index module e)) ;;
  assert_index index (snd (export_index module e)) ;;
  write_index index.

Definition write_start (module : WasmModule) : Wr unit :=
  match module_start module with
  | None => so_ret tt
  | Some start =>
      start_func_index <- so_lift (wasm_get_func_index_by_var module start) ;;
      if negb (start_func_index =? -1) then
        begin_known_section WASM_BINARY_SECTION_START leb_size_guess ;;
        write_index start_func_index ;;
        end_section
      else so_ret tt
  end.

Definition write_elem_segment (module : WasmModule) (segment : WasmElemSegment) : Wr unit :=
  table_index <- so_lift (wasm_get_table_index_by_var module (elem_table_var segment)) ;;
  write_index table_index ;;
  write_init_expr module (elem_offset segment) ;;
  on_stream (wasm_write_u32_leb128 (Z.of_nat (length (elem_vars segment)))) ;;
  so_for (fun var =>
    index <- so_lift (wasm_get_func_index_by_var module var) ;;
    assert_index index (length (module_funcs module)) ;;
    write_index index) (elem_vars segment).

Definition write_func_body (module : WasmModule) (func : WasmFunc) : Wr unit :=
  body_size_offset <- write_u32_leb128_space leb_size_guess ;;
  write_func module func ;;
  write_fixup_u32_leb128_size body_size_offset leb_size_guess.

Definition write_data_segment (module : WasmModule) (segment : WasmDataSegment) : Wr unit :=
  memory_index <- so_lift (wasm_get_memory_index_by_var module (data_memory_var segment)) ;;
  write_index memory_index ;;
  write_init_expr module (data_offset segment) ;;
  on_stream (wasm_write_u32_leb128 (Z.of_nat (length (data_data segment)))) ;;
  on_stream (wasm_write_data (data_data segment)).

(** The names of the parameters and locals of a function, in order. *)
Definition func_local_names (func : WasmFunc) : option (list WasmStringSlice) :=
  if wasm_get_num_params_and_locals func =? 0 then Some []
  else
    params ← wasm_make_type_binding_reverse_mapping
               (param_types (decl_sig (func_decl func))) (func_param_bindings func);
    locals ← wasm_make_type_binding_reverse_mapping (func_local_types func) (func_local_bindings func);
    Some (params ++ locals).

Definition write_func_names (func : WasmFunc) : Wr unit :=
  on_stream (wasm_write_str (func_name func)) ;;
  on_stream (wasm_write_u32_leb128 (wasm_get_num_params_and_locals func)) ;;
  names <- so_lift (func_local_names func) ;;
  so_for (fun name => on_stream (wasm_write_str name)) names.

Definition write_names (module : WasmModule) : Wr unit :=
  c <- so_get ;;
  if write_debug_names (wr_options c) then
    begin_custom_section WASM_BINARY_SECTION_NAME leb_size_guess ;;
    on_stream (wasm_write_u32_leb128 (Z.of_nat (length (module_funcs module)))) ;;
    so_for write_func_names (module_funcs module) ;;
    end_section
  else so_ret tt.

Definition write_module (module : WasmModule) : Wr unit :=
  on_stream (wasm_write_u32 WASM_BINARY_MAGIC) ;;
  on_stream (wasm_write_u32 WASM_BINARY_VERSION) ;;
  write_known_section WASM_BINARY_SECTION_TYPE (module_func_types module) write_func_type ;;
  write_known_section WASM_BINARY_SECTION_IMPORT (module_imports module) (write_import module) ;;
  so_assert (num_func_imports module <=? length (module_funcs module))%nat ;;
  let funcs := drop (num_func_imports module) (module_funcs module) in
  write_known_section WASM_BINARY_SECTION_FUNCTION funcs
    (fun func => write_func_type_index module (func_decl func)) ;;
  so_assert (num_table_imports module <=? length (module_tables module))%nat ;;
  write_known_section WASM_BINARY_SECTION_TABLE
    (drop (num_table_imports module) (module_tables module)) write_table ;;
  so_assert (num_memory_imports module <=? length (module_memories module))%nat ;;
  write_known_section WASM_BINARY_SECTION_MEMORY
    (drop (num_memory_imports module) (module_memories module)) write_memory ;;
  so_assert (num_global_imports module <=? length (module_globals module))%nat ;;
  write_known_section WASM_BINARY_SECTION_GLOBAL
    (drop (num_global_imports module) (module_globals module)) (write_global module) ;;
  write_known_section WASM_BINARY_SECTION_EXPORT (module_exports module) (write_export module) ;;
  write_start module ;;
  write_known_section WASM_BINARY_SECTION_ELEM (module_elem_segments module)
    (write_elem_segment module) ;;
  write_known_section WASM_BINARY_SECTION_CODE funcs (write_func_body module) ;;
  write_known_section WASM_BINARY_SECTION_DATA (module_data_segments module)
    (write_data_segment module) ;;
  write_names module.

(** The first module command is written, or else an empty module. *)
Definition empty_module : WasmModule :=
  mkModule None [] empty_hash empty_hash empty_hash empty_hash empty_hash empty_hash.

Definition write_commands (script : WasmScript) : Wr unit :=
  match wasm_get_first_module script with
  | Some module => write_module module
  | None => write_module empty_module
  end.

Definition init_write_context (writer : W) (options : WasmWriteBinaryOptions) : WriteContext W :=
  mkWriteContext (wasm_init_stream writer) options 0 0.

(** The result and the writer; [None] is a failed assertion. *)
Definition wasm_write_binary_module (writer : W) (module : WasmModule)
    (options : WasmWriteBinaryOptions) : option (WasmResult * W) :=
  '(_, ctx) ← write_module module (init_write_context writer options);
  Some (stream_result (wr_stream ctx), stream_writer (wr_stream ctx)).

Definition wasm_write_binary_script (writer : W) (script : WasmScript)
    (options : WasmWriteBinaryOptions) : option (WasmResult * W) :=
  '(_, ctx) ← write_commands script (init_write_context writer options);
  Some (stream_result (wr_stream ctx), stream_writer (wr_stream ctx)).

End writer.
