(* ===== verification/BinaryReader.v ===== *)
(** * The binary reader (src/src/binary-reader.c)

    [wasm_read_binary] walks the bytes of a module and calls a table of
    callbacks, one constructor of [Callback] for each member of
    [WasmBinaryReader].  The table itself, with its [user_data], is a parameter:
    a reader is any function from a callback and the user state to a result and
    a new state ([NULL] members are those that return OK).  A callback that
    takes a [WasmBinaryReaderContext] is given the current offset.

    [RAISE_ERROR] ends the run through [longjmp]: [Raised], after the
    [on_error] callback, which every client of the code sets.  [Undef] is a
    read outside the data or a loop that runs out of fuel; the theorems show
    that neither happens.  The logging reader, which prints and forwards every
    callback, is left out. *)

From S2P Require Import Prelude Opcode Leb128 BindingHash Ast BinaryWriter.

(** ** Callbacks *)

Abbreviation bytes := (list Z).

Inductive Callback : Type :=
| CB_begin_module (version : Z)
| CB_end_module
| CB_begin_section (section_type size : Z)
| CB_begin_custom_section (size : Z) (section_name : bytes)
| CB_end_custom_section
| CB_begin_signature_section (size : Z)
| CB_on_signature_count (count : Z)
| CB_on_signature (index : Z) (param_types result_types : list WasmType)
| CB_end_signature_section
| CB_begin_import_section (size : Z)
| CB_on_import_count (count : Z)
| CB_on_import (index : Z) (module_name field_name : bytes)
| CB_on_import_func (index sig_index : Z)
| CB_on_import_table (index : Z) (elem_type : WasmType) (elem_limits : WasmLimits)
| CB_on_import_memory (index : Z) (page_limits : WasmLimits)
| CB_on_import_global (index : Z) (type : WasmType) (mutable_ : bool)
| CB_end_import_section
| CB_begin_function_signatures_section (size : Z)
| CB_on_function_signatures_count (count : Z)
| CB_on_function_signature (index sig_index : Z)
| CB_end_function_signatures_section
| CB_begin_table_section (size : Z)
| CB_on_table_count (count : Z)
| CB_on_table (index : Z) (elem_type : WasmType) (elem_limits : WasmLimits)
| CB_end_table_section
| CB_begin_memory_section (size : Z)
| CB_on_memory_count (count : Z)
| CB_on_memory (index : Z) (limits : WasmLimits)
| CB_end_memory_section
| CB_begin_global_section (size : Z)
| CB_on_global_count (count : Z)
| CB_begin_global (index : Z) (type : WasmType) (mutable_ : bool)
| CB_begin_global_init_expr (index : Z)
| CB_end_global_init_expr (index : Z)
| CB_end_global (index : Z)
| CB_end_global_section
| CB_begin_export_section (size : Z)
| CB_on_export_count (count : Z)
| CB_on_export (index : Z) (kind : WasmExternalKind) (item_index : Z) (name : bytes)
| CB_end_export_section
| CB_begin_start_section (size : Z)
| CB_on_start_function (func_index : Z)
| CB_end_start_section
| CB_begin_function_bodies_section (size : Z)
| CB_on_function_bodies_count (count : Z)
| CB_begin_function_body (index : Z)
| CB_on_local_decl_count (count : Z)
| CB_on_local_decl (decl_index count : Z) (type : WasmType)
| CB_on_opcode (opcode : Z)
| CB_on_opcode_bare
| CB_on_opcode_uint32 (value : Z)
| CB_on_opcode_uint32_uint32 (value value2 : Z)
| CB_on_opcode_uint64 (value : Z)
| CB_on_opcode_f32 (value : Z)
| CB_on_opcode_f64 (value : Z)
| CB_on_opcode_block_sig (sig_types : list WasmType)
| CB_on_binary_expr (opcode : WasmOpcode)
| CB_on_block_expr (sig_types : list WasmType)
| CB_on_br_expr (depth : Z)
| CB_on_br_if_expr (depth : Z)
| CB_on_br_table_expr (target_depths : list Z) (default_target_depth : Z)
| CB_on_call_expr (func_index : Z)
| CB_on_call_indirect_expr (sig_index : Z)
| CB_on_compare_expr (opcode : WasmOpcode)
| CB_on_convert_expr (opcode : WasmOpcode)
| CB_on_drop_expr
| CB_on_else_expr
| CB_on_end_expr
| CB_on_f32_const_expr (value_bits : Z)
| CB_on_f64_const_expr (value_bits : Z)
| CB_on_get_global_expr (global_index : Z)
| CB_on_get_local_expr (local_index : Z)
| CB_on_grow_memory_expr
| CB_on_i32_const_expr (value : Z)
| CB_on_i64_const_expr (value : Z)
| CB_on_if_expr (sig_types : list WasmType)
| CB_on_load_expr (opcode : WasmOpcode) (alignment_log2 offset : Z)
| CB_on_loop_expr (sig_types : list WasmType)
| CB_on_current_memory_expr
| CB_on_nop_expr
| CB_on_return_expr
| CB_on_select_expr
| CB_on_set_global_expr (global_index : Z)
| CB_on_set_local_expr (local_index : Z)
| CB_on_store_expr (opcode : WasmOpcode) (alignment_log2 offset : Z)
| CB_on_tee_local_expr (local_index : Z)
| CB_on_unary_expr (opcode : WasmOpcode)
| CB_on_unreachable_expr
| CB_end_function_body (index : Z)
| CB_end_function_bodies_section
| CB_begin_elem_section (size : Z)
| CB_on_elem_segment_count (count : Z)
| CB_begin_elem_segment (index table_index : Z)
| CB_begin_elem_segment_init_expr (index : Z)
| CB_end_elem_segment_init_expr (index : Z)
| CB_on_elem_segment_function_index_count (index count : Z)
| CB_on_elem_segment_function_index (index func_index : Z)
| CB_end_elem_segment (index : Z)
| CB_end_elem_section
| CB_begin_data_section (size : Z)
| CB_on_data_segment_count (count : Z)
| CB_begin_data_segment (index memory_index : Z)
| CB_begin_data_segment_init_expr (index : Z)
| CB_end_data_segment_init_expr (index : Z)
| CB_on_data_segment_data (index : Z) (data : bytes)
| CB_end_data_segment (index : Z)
| CB_end_data_section
| CB_begin_names_section (size : Z)
| CB_on_function_names_count (count : Z)
| CB_on_function_name (index : Z) (name : bytes)
| CB_on_local_names_count (index count : Z)
| CB_on_local_name (func_index local_index : Z) (name : bytes)
| CB_end_names_section
| CB_on_init_expr_f32_const_expr (index value : Z)
| CB_on_init_expr_f64_const_expr (index value : Z)
| CB_on_init_expr_get_global_expr (index global_index : Z)
| CB_on_init_expr_i32_const_expr (index value : Z)
| CB_on_init_expr_i64_const_expr (index value : Z).

(** [WasmBinaryReader], with the offset of the context as first argument. *)
Record WasmBinaryReader (U : Type) : Type := mkReader {
  on_callback : Z -> Callback -> U -> WasmResult * U;
  on_error : Z -> string -> U -> U
}.
Arguments mkReader {U} _ _.
Arguments on_callback {U} _ _ _ _.
Arguments on_error {U} _ _ _ _.

(** ** The context *)

(** The counts the sections leave behind. *)
Record Counts : Type := mkCounts {
  num_signatures : Z;
  num_imports : Z;
  rd_func_imports : Z;
  rd_table_imports : Z;
  rd_memory_imports : Z;
  rd_global_imports : Z;
  num_function_signatures : Z;
  num_tables : Z;
  num_memories : Z;
  num_globals : Z;
  num_exports : Z;
  num_function_bodies : Z
}.

Definition zero_counts : Counts := mkCounts 0 0 0 0 0 0 0 0 0 0 0 0.

(** [Context], with the reader's user data; [param_types] and [target_depths]
    are scratch space for the arguments of one callback and are passed as
    lists. *)
Record ReadContext (U : Type) : Type := mkReadContext {
  rd_data : bytes;
  rd_offset : Z;
  read_end : Z;
  last_known_section_code : Z;
  rd_counts : Counts;
  user_data : U
}.
Arguments mkReadContext {U} _ _ _ _ _ _.
Arguments rd_data {U} _.
Arguments rd_offset {U} _.
Arguments read_end {U} _.
Arguments last_known_section_code {U} _.
Arguments rd_counts {U} _.
Arguments user_data {U} _.

Inductive Outcome (S A : Type) : Type :=
| Done (a : A) (s : S)
| Raised (s : S)
| Undef.
Arguments Done {S A} _ _.
Arguments Raised {S A} _.
Arguments Undef {S A}.

Definition is_valid_external_kind (kind : Z) : option WasmExternalKind :=
  if kind =? 0 then Some WASM_EXTERNAL_KIND_FUNC
  else if kind =? 1 then Some WASM_EXTERNAL_KIND_TABLE
  else if kind =? 2 then Some WASM_EXTERNAL_KIND_MEMORY
  else if kind =? 3 then Some WASM_EXTERNAL_KIND_GLOBAL
  else None.

(** The type with a code, when the code is one of the four value types. *)
Definition is_concrete_type (type : Z) : option WasmType :=
  if type =? wasm_type_code WASM_TYPE_I32 then Some WASM_TYPE_I32
  else if type =? wasm_type_code WASM_TYPE_I64 then Some WASM_TYPE_I64
  else if type =? wasm_type_code WASM_TYPE_F32 then Some WASM_TYPE_F32
  else if type =? wasm_type_code WASM_TYPE_F64 then Some WASM_TYPE_F64
  else None.

(** [is_inline_sig_type], with the types of the signature: none or one. *)
Definition is_inline_sig_type (type : Z) : option (list WasmType) :=
  if type =? wasm_type_code WASM_TYPE_VOID then Some []
  else (fun t => [t]) <$> is_concrete_type type.

(** [strncmp(s, lit, length s) == 0], for a literal without NULs. *)
Fixpoint strncmp_is_0 (s lit : bytes) : bool :=
  match s, lit with
  | [], _ => true
  | c :: _, [] => c =? 0
  | c :: s, l :: lit => (c =? l) && strncmp_is_0 s lit
  end.

(** The groups of [case] labels of [read_function_body] that share a body. *)
Inductive OpcodeGroup : Set :=
| GROUP_LOAD | GROUP_STORE | GROUP_BINARY | GROUP_COMPARE | GROUP_UNARY | GROUP_CONVERT.

Definition opcode_group (opcode : WasmOpcode) : option OpcodeGroup :=
  match opcode with
  | WASM_OPCODE_I32_LOAD8_S | WASM_OPCODE_I32_LOAD8_U | WASM_OPCODE_I32_LOAD16_S |
    WASM_OPCODE_I32_LOAD16_U | WASM_OPCODE_I64_LOAD8_S | WASM_OPCODE_I64_LOAD8_U |
    WASM_OPCODE_I64_LOAD16_S | WASM_OPCODE_I64_LOAD16_U | WASM_OPCODE_I64_LOAD32_S |
    WASM_OPCODE_I64_LOAD32_U | WASM_OPCODE_I32_LOAD | WASM_OPCODE_I64_LOAD | WASM_OPCODE_F32_LOAD |
    WASM_OPCODE_F64_LOAD => Some GROUP_LOAD
  | WASM_OPCODE_I32_STORE8 | WASM_OPCODE_I32_STORE16 | WASM_OPCODE_I64_STORE8 |
    WASM_OPCODE_I64_STORE16 | WASM_OPCODE_I64_STORE32 | WASM_OPCODE_I32_STORE |
    WASM_OPCODE_I64_STORE | WASM_OPCODE_F32_STORE | WASM_OPCODE_F64_STORE => Some GROUP_STORE
  | WASM_OPCODE_I32_ADD | WASM_OPCODE_I32_SUB | WASM_OPCODE_I32_MUL | WASM_OPCODE_I32_DIV_S |
    WASM_OPCODE_I32_DIV_U | WASM_OPCODE_I32_REM_S | WASM_OPCODE_I32_REM_U | WASM_OPCODE_I32_AND |
    WASM_OPCODE_I32_OR | WASM_OPCODE_I32_XOR | WASM_OPCODE_I32_SHL | WASM_OPCODE_I32_SHR_U |
    WASM_OPCODE_I32_SHR_S | WASM_OPCODE_I32_ROTR | WASM_OPCODE_I32_ROTL | WASM_OPCODE_I64_ADD |
    WASM_OPCODE_I64_SUB | WASM_OPCODE_I64_MUL | WASM_OPCODE_I64_DIV_S | WASM_OPCODE_I64_DIV_U |
    WASM_OPCODE_I64_REM_S | WASM_OPCODE_I64_REM_U | WASM_OPCODE_I64_AND | WASM_OPCODE_I64_OR |
    WASM_OPCODE_I64_XOR | WASM_OPCODE_I64_SHL | WASM_OPCODE_I64_SHR_U | WASM_OPCODE_I64_SHR_S |
    WASM_OPCODE_I64_ROTR | WASM_OPCODE_I64_ROTL | WASM_OPCODE_F32_ADD | WASM_OPCODE_F32_SUB |
    WASM_OPCODE_F32_MUL | WASM_OPCODE_F32_DIV | WASM_OPCODE_F32_MIN | WASM_OPCODE_F32_MAX |
    WASM_OPCODE_F32_COPYSIGN | WASM_OPCODE_F64_ADD | WASM_OPCODE_F64_SUB | WASM_OPCODE_F64_MUL |
    WASM_OPCODE_F64_DIV | WASM_OPCODE_F64_MIN | WASM_OPCODE_F64_MAX | WASM_OPCODE_F64_COPYSIGN =>
    Some GROUP_BINARY
  | WASM_OPCODE_I32_EQ | WASM_OPCODE_I32_NE | WASM_OPCODE_I32_LT_S | WASM_OPCODE_I32_LE_S |
    WASM_OPCODE_I32_LT_U | WASM_OPCODE_I32_LE_U | WASM_OPCODE_I32_GT_S | WASM_OPCODE_I32_GE_S |
    WASM_OPCODE_I32_GT_U | WASM_OPCODE_I32_GE_U | WASM_OPCODE_I64_EQ | WASM_OPCODE_I64_NE |
    WASM_OPCODE_I64_LT_S | WASM_OPCODE_I64_LE_S | WASM_OPCODE_I64_LT_U | WASM_OPCODE_I64_LE_U |
    WASM_OPCODE_I64_GT_S | WASM_OPCODE_I64_GE_S | WASM_OPCODE_I64_GT_U | WASM_OPCODE_I64_GE_U |
    WASM_OPCODE_F32_EQ | WASM_OPCODE_F32_NE | WASM_OPCODE_F32_LT | WASM_OPCODE_F32_LE |
    WASM_OPCODE_F32_GT | WASM_OPCODE_F32_GE | WASM_OPCODE_F64_EQ | WASM_OPCODE_F64_NE |
    WASM_OPCODE_F64_LT | WASM_OPCODE_F64_LE | WASM_OPCODE_F64_GT | WASM_OPCODE_F64_GE => Some
    GROUP_COMPARE
  | WASM_OPCODE_I32_CLZ | WASM_OPCODE_I32_CTZ | WASM_OPCODE_I32_POPCNT | WASM_OPCODE_I64_CLZ |
    WASM_OPCODE_I64_CTZ | WASM_OPCODE_I64_POPCNT | WASM_OPCODE_F32_ABS | WASM_OPCODE_F32_NEG |
    WASM_OPCODE_F32_CEIL | WASM_OPCODE_F32_FLOOR | WASM_OPCODE_F32_TRUNC | WASM_OPCODE_F32_NEAREST |
    WASM_OPCODE_F32_SQRT | WASM_OPCODE_F64_ABS | WASM_OPCODE_F64_NEG | WASM_OPCODE_F64_CEIL |
    WASM_OPCODE_F64_FLOOR | WASM_OPCODE_F64_TRUNC | WASM_OPCODE_F64_NEAREST | WASM_OPCODE_F64_SQRT
    => Some GROUP_UNARY
  | WASM_OPCODE_I32_TRUNC_S_F32 | WASM_OPCODE_I32_TRUNC_S_F64 | WASM_OPCODE_I32_TRUNC_U_F32 |
    WASM_OPCODE_I32_TRUNC_U_F64 | WASM_OPCODE_I32_WRAP_I64 | WASM_OPCODE_I64_TRUNC_S_F32 |
    WASM_OPCODE_I64_TRUNC_S_F64 | WASM_OPCODE_I64_TRUNC_U_F32 | WASM_OPCODE_I64_TRUNC_U_F64 |
    WASM_OPCODE_I64_EXTEND_S_I32 | WASM_OPCODE_I64_EXTEND_U_I32 | WASM_OPCODE_F32_CONVERT_S_I32 |
    WASM_OPCODE_F32_CONVERT_U_I32 | WASM_OPCODE_F32_CONVERT_S_I64 | WASM_OPCODE_F32_CONVERT_U_I64 |
    WASM_OPCODE_F32_DEMOTE_F64 | WASM_OPCODE_F32_REINTERPRET_I32 | WASM_OPCODE_F64_CONVERT_S_I32 |
    WASM_OPCODE_F64_CONVERT_U_I32 | WASM_OPCODE_F64_CONVERT_S_I64 | WASM_OPCODE_F64_CONVERT_U_I64 |
    WASM_OPCODE_F64_PROMOTE_F32 | WASM_OPCODE_F64_REINTERPRET_I64 | WASM_OPCODE_I32_REINTERPRET_F32
    | WASM_OPCODE_I64_REINTERPRET_F64 | WASM_OPCODE_I32_EQZ | WASM_OPCODE_I64_EQZ => Some
    GROUP_CONVERT
  | _ => None
  end.

Section reader.
Context {U : Type} (reader : WasmBinaryReader U) (read_debug_names : bool).

Definition R (A : Type) : Type := ReadContext U -> Outcome (ReadContext U) A.

Definition r_ret {A} (a : A) : R A := fun c => Done a c.
Definition r_bind {A B} (m : R A) (k : A -> R B) : R B := fun c =>
  match m c with
  | Done a c => k a c
  | Raised c => Raised c
  | Undef => Undef
  end.

#[local] Notation "x <- m ;; k" := (r_bind m (fun x => k))
  (at level 100, m at next level, right associativity).
#[local] Notation "' p <- m ;; k" := (r_bind m (fun p => k))
  (at level 100, p pattern, m at next level, right associativity).
#[local] Notation "m ;; k" := (r_bind m (fun _ => k)) (at level 100, right associativity).

Definition get : R (ReadContext U) := fun c => Done c c.
Definition undef {A} : R A := fun _ => Undef.

Definition set_offset (offset : Z) : R unit := fun c =>
  Done tt (mkReadContext (rd_data c) offset (read_end c) (last_known_section_code c)
             (rd_counts c) (user_data c)).
Definition set_read_end (e : Z) : R unit := fun c =>
  Done tt (mkReadContext (rd_data c) (rd_offset c) e (last_known_section_code c)
             (rd_counts c) (user_data c)).
Definition set_last_known_section_code (code : Z) : R unit := fun c =>
  Done tt (mkReadContext (rd_data c) (rd_offset c) (read_end c) code (rd_counts c) (user_data c)).
Definition set_user (u : U) (c : ReadContext U) : ReadContext U :=
  mkReadContext (rd_data c) (rd_offset c) (read_end c) (last_known_section_code c) (rd_counts c) u.
Definition modify_counts (f : Counts -> Counts) : R unit := fun c =>
  Done tt (mkReadContext (rd_data c) (rd_offset c) (read_end c) (last_known_section_code c)
             (f (rd_counts c)) (user_data c)).
Definition counts : R Counts := fun c => Done (rd_counts c) c.

Definition RAISE_ERROR {A} (message : string) : R A := fun c =>
  Raised (set_user (on_error reader (rd_offset c) message (user_data c)) c).

Definition RAISE_ERROR_UNLESS (cond : bool) (message : string) : R unit :=
  if cond then r_ret tt else RAISE_ERROR message.

(** [RAISE_ERROR_UNLESS] a test that gives a value. *)
Definition raise_unless {A} (o : option A) (message : string) : R A :=
  match o with Some a => r_ret a | None => RAISE_ERROR message end.

Definition CALLBACK (cb : Callback) : R unit := fun c =>
  let '(r, u) := on_callback reader (rd_offset c) cb (user_data c) in
  RAISE_ERROR_UNLESS (WASM_SUCCEEDED r) "callback failed" (set_user u c).

(** [for (i = 0; i < num; ++i) body], where every round reads at least one
    byte: one more round than there are bytes is enough. *)
Fixpoint for_loop (fuel : nat) (i num : Z) (body : Z -> R unit) : R unit :=
  if num <=? i then r_ret tt
  else match fuel with
       | O => undef
       | S fuel => body i ;; for_loop fuel (i + 1) num body
       end.

Definition FOR (num : Z) (body : Z -> R unit) : R unit :=
  c <- get ;; for_loop (S (length (rd_data c))) 0 num body.

(** The same, filling a scratch array. *)
Fixpoint array_loop {A} (fuel : nat) (i num : Z) (body : R A) : R (list A) :=
  if num <=? i then r_ret []
  else match fuel with
       | O => undef
       | S fuel => x <- body ;; l <- array_loop fuel (i + 1) num body ;; r_ret (x :: l)
       end.

Definition READ_ARRAY {A} (num : Z) (body : R A) : R (list A) :=
  c <- get ;; array_loop (S (length (rd_data c))) 0 num body.

(** ** Primitives *)

(** [IN_SIZE]: the bytes of the object. *)
Definition IN_SIZE (size : Z) : R bytes :=
  c <- get ;;
  if read_end c <? rd_offset c + size then RAISE_ERROR "unable to read"
  else match zslice (rd_data c) (rd_offset c) size with
       | None => undef
       | Some l => set_offset (rd_offset c + size) ;; r_ret l
       end.

Definition in_u8 : R Z := l <- IN_SIZE 1 ;; r_ret (of_le l).
Definition in_u32 : R Z := l <- IN_SIZE 4 ;; r_ret (of_le l).
Definition in_f32 : R Z := l <- IN_SIZE 4 ;; r_ret (of_le l).
Definition in_f64 : R Z := l <- IN_SIZE 8 ;; r_ret (of_le l).

(** The LEB128 decoders, on the bytes from [data + offset] to [data +
    read_end]. *)
Definition in_leb128 (decode : bytes -> option (Z * Z)) : R Z :=
  c <- get ;;
  match zslice (rd_data c) (rd_offset c) (read_end c - rd_offset c) with
  | None => undef
  | Some p =>
      '(value, bytes_read) <- raise_unless (decode p) "unable to read leb128" ;;
      set_offset (rd_offset c + bytes_read) ;; r_ret value
  end.

Definition in_u32_leb128 : R Z := in_leb128 Read.wasm_read_u32_leb128.
Definition in_i32_leb128 : R Z := in_leb128 Read.wasm_read_i32_leb128.
Definition in_i64_leb128 : R Z := in_leb128 Read.in_i64_leb128_at.

(** The code of a type. *)
Definition in_type : R Z :=
  type <- in_i32_leb128 ;;
  let type := to_signed 32 type in
  RAISE_ERROR_UNLESS (negb ((type <? -128) || (127 <? type))) "invalid type: %d" ;;
  r_ret type.

(** [in_str] and [in_bytes]: a length and that many bytes. *)
Definition in_counted (message : string) : R bytes :=
  len <- in_u32_leb128 ;;
  c <- get ;;
  if read_end c <? rd_offset c + len then RAISE_ERROR message
  else match zslice (rd_data c) (rd_offset c) len with
       | None => undef
       | Some l => set_offset (rd_offset c + len) ;; r_ret l
       end.

Definition in_str : R bytes := in_counted "unable to read string: %s".
Definition in_bytes : R bytes := in_counted "unable to read data: %s".

Definition in_concrete_type (message : string) : R WasmType :=
  type <- in_type ;; raise_unless (is_concrete_type type) message.

Definition num_total_funcs (n : Counts) : Z := u32 (rd_func_imports n + num_function_signatures n).
Definition num_total_tables (n : Counts) : Z := u32 (rd_table_imports n + num_tables n).
Definition num_total_memories (n : Counts) : Z := u32 (rd_memory_imports n + num_memories n).
Definition num_total_globals (n : Counts) : Z := u32 (rd_global_imports n + num_globals n).

(** ** Parts of sections *)

Definition read_init_expr (index : Z) : R unit :=
  opcode <- in_u8 ;;
  let expect_end :=
    opcode <- in_u8 ;;
    RAISE_ERROR_UNLESS (opcode =? opcode_code WASM_OPCODE_END)
      "expected END opcode after initializer expression" in
  if opcode =? opcode_code WASM_OPCODE_I32_CONST then
    value <- in_i32_leb128 ;; CALLBACK (CB_on_init_expr_i32_const_expr index value) ;; expect_end
  else if opcode =? opcode_code WASM_OPCODE_I64_CONST then
    value <- in_i64_leb128 ;; CALLBACK (CB_on_init_expr_i64_const_expr index value) ;; expect_end
  else if opcode =? opcode_code WASM_OPCODE_F32_CONST then
    value_bits <- in_f32 ;; CALLBACK (CB_on_init_expr_f32_const_expr index value_bits) ;; expect_end
  else if opcode =? opcode_code WASM_OPCODE_F64_CONST then
    value_bits <- in_f64 ;; CALLBACK (CB_on_init_expr_f64_const_expr index value_bits) ;; expect_end
  else if opcode =? opcode_code WASM_OPCODE_GET_GLOBAL then
    global_index <- in_u32_leb128 ;;
    CALLBACK (CB_on_init_expr_get_global_expr index global_index) ;; expect_end
  else if opcode =? opcode_code WASM_OPCODE_END then r_ret tt
  else RAISE_ERROR "unexpected opcode in initializer expression: %d (0x%x)".

Definition has_max_flag (flags : Z) : bool :=
  negb (Z.land flags WASM_BINARY_LIMITS_HAS_MAX_FLAG =? 0).

Definition read_table : R (WasmType * WasmLimits) :=
  elem_type <- in_type ;;
  RAISE_ERROR_UNLESS (elem_type =? wasm_type_code WASM_TYPE_ANYFUNC)
    "table elem type must by anyfunc" ;;
  flags <- in_u32_leb128 ;;
  initial <- in_u32_leb128 ;;
  max <- (if has_max_flag flags then
            max <- in_u32_leb128 ;;
            RAISE_ERROR_UNLESS (initial <=? max)
              "table initial elem count must be <= max elem count" ;; r_ret max
          else r_ret 0) ;;
  r_ret (WASM_TYPE_ANYFUNC, mkLimits initial max (has_max_flag flags)).

Definition read_memory : R WasmLimits :=
  flags <- in_u32_leb128 ;;
  initial <- in_u32_leb128 ;;
  RAISE_ERROR_UNLESS (initial <=? WASM_MAX_PAGES) "invalid memory initial size" ;;
  max <- (if has_max_flag flags then
            max <- in_u32_leb128 ;;
            RAISE_ERROR_UNLESS (max <=? WASM_MAX_PAGES) "invalid memory max size" ;;
            RAISE_ERROR_UNLESS (initial <=? max) "memory initial size must be <= max size" ;;
            r_ret max
          else r_ret 0) ;;
  r_ret (mkLimits initial max (has_max_flag flags)).

Definition read_global_header : R (WasmType * bool) :=
  global_type <- in_concrete_type "expected valid global type" ;;
  mutable_ <- in_u8 ;;
  RAISE_ERROR_UNLESS (mutable_ <=? 1) "global mutability must be 0 or 1" ;;
  r_ret (global_type, negb (mutable_ =? 0)).

(** ** Function bodies *)

Definition bare (cb : Callback) : R unit := CALLBACK cb ;; CALLBACK CB_on_opcode_bare.

(** An opcode with one index. *)
Definition with_u32 (cb : Z -> Callback) : R unit :=
  v <- in_u32_leb128 ;; CALLBACK (cb v) ;; CALLBACK (CB_on_opcode_uint32 v).

Definition with_block_sig (cb : list WasmType -> Callback) : R unit :=
  sig_type <- in_type ;;
  sig <- raise_unless (is_inline_sig_type sig_type) "expected valid block signature type" ;;
  CALLBACK (cb sig) ;; CALLBACK (CB_on_opcode_block_sig sig).

Definition with_memory_access (cb : Z -> Z -> Callback) : R unit :=
  alignment_log2 <- in_u32_leb128 ;;
  offset <- in_u32_leb128 ;;
  CALLBACK (cb alignment_log2 offset) ;;
  CALLBACK (CB_on_opcode_uint32_uint32 alignment_log2 offset).

(** A reserved operand, which must be 0. *)
Definition with_reserved (cb : Callback) (message : string) : R unit :=
  reserved <- in_u32_leb128 ;;
  RAISE_ERROR_UNLESS (reserved =? 0) message ;;
  CALLBACK cb ;; CALLBACK (CB_on_opcode_uint32 reserved).

(** The switch of [read_function_body]; the result is [true] for the final
    [end] ([seen_end_opcode]). *)
Definition read_opcode (end_offset opcode : Z) : R bool :=
  let no (m : R unit) : R bool := m ;; r_ret false in
  let other := RAISE_ERROR "unexpected opcode: %d (0x%x)" in
  match opcode_of_code opcode with
  | None => other
  | Some op =>
      match op with
      | WASM_OPCODE_UNREACHABLE => no (bare CB_on_unreachable_expr)
      | WASM_OPCODE_BLOCK => no (with_block_sig CB_on_block_expr)
      | WASM_OPCODE_LOOP => no (with_block_sig CB_on_loop_expr)
      | WASM_OPCODE_IF => no (with_block_sig CB_on_if_expr)
      | WASM_OPCODE_ELSE => no (bare CB_on_else_expr)
      | WASM_OPCODE_SELECT => no (bare CB_on_select_expr)
      | WASM_OPCODE_BR => no (with_u32 CB_on_br_expr)
      | WASM_OPCODE_BR_IF => no (with_u32 CB_on_br_if_expr)
      | WASM_OPCODE_BR_TABLE =>
          no (num_targets <- in_u32_leb128 ;;
              target_depths <- READ_ARRAY num_targets in_u32_leb128 ;;
              default_target_depth <- in_u32_leb128 ;;
              CALLBACK (CB_on_br_table_expr target_depths default_target_depth))
      | WASM_OPCODE_RETURN => no (bare CB_on_return_expr)
      | WASM_OPCODE_NOP => no (bare CB_on_nop_expr)
      | WASM_OPCODE_DROP => no (bare CB_on_drop_expr)
      | WASM_OPCODE_END =>
          c <- get ;;
          if rd_offset c =? end_offset then r_ret true else no (CALLBACK CB_on_end_expr)
      | WASM_OPCODE_I32_CONST =>
          no (value <- in_i32_leb128 ;;
              CALLBACK (CB_on_i32_const_expr value) ;; CALLBACK (CB_on_opcode_uint32 value))
      | WASM_OPCODE_I64_CONST =>
          no (value <- in_i64_leb128 ;;
              CALLBACK (CB_on_i64_const_expr value) ;; CALLBACK (CB_on_opcode_uint64 value))
      | WASM_OPCODE_F32_CONST =>
          no (value_bits <- in_f32 ;;
              CALLBACK (CB_on_f32_const_expr value_bits) ;; CALLBACK (CB_on_opcode_f32 value_bits))
      | WASM_OPCODE_F64_CONST =>
          no (value_bits <- in_f64 ;;
              CALLBACK (CB_on_f64_const_expr value_bits) ;; CALLBACK (CB_on_opcode_f64 value_bits))
      | WASM_OPCODE_GET_GLOBAL => no (with_u32 CB_on_get_global_expr)
      | WASM_OPCODE_GET_LOCAL => no (with_u32 CB_on_get_local_expr)
      | WASM_OPCODE_SET_GLOBAL => no (with_u32 CB_on_set_global_expr)
      | WASM_OPCODE_SET_LOCAL => no (with_u32 CB_on_set_local_expr)
      | WASM_OPCODE_CALL =>
          no (func_index <- in_u32_leb128 ;;
              n <- counts ;;
              RAISE_ERROR_UNLESS (func_index <? num_total_funcs n) "invalid call function index" ;;
              CALLBACK (CB_on_call_expr func_index) ;;
              CALLBACK (CB_on_opcode_uint32 func_index))
      | WASM_OPCODE_CALL_INDIRECT =>
          no (sig_index <- in_u32_leb128 ;;
              n <- counts ;;
              RAISE_ERROR_UNLESS (sig_index <? num_signatures n)
                "invalid call_indirect signature index" ;;
              reserved <- in_u32_leb128 ;;
              RAISE_ERROR_UNLESS (reserved =? 0) "call_indirect reserved value must be 0" ;;
              CALLBACK (CB_on_call_indirect_expr sig_index) ;;
              CALLBACK (CB_on_opcode_uint32_uint32 sig_index reserved))
      | WASM_OPCODE_TEE_LOCAL => no (with_u32 CB_on_tee_local_expr)
      | WASM_OPCODE_CURRENT_MEMORY =>
          no (with_reserved CB_on_current_memory_expr "current_memory reserved value must be 0")
      | WASM_OPCODE_GROW_MEMORY =>
          no (with_reserved CB_on_grow_memory_expr "grow_memory reserved value must be 0")
      | _ =>
          match opcode_group op with
          | Some GROUP_LOAD => no (with_memory_access (CB_on_load_expr op))
          | Some GROUP_STORE => no (with_memory_access (CB_on_store_expr op))
          | Some GROUP_BINARY => no (bare (CB_on_binary_expr op))
          | Some GROUP_COMPARE => no (bare (CB_on_compare_expr op))
          | Some GROUP_UNARY => no (bare (CB_on_unary_expr op))
          | Some GROUP_CONVERT => no (bare (CB_on_convert_expr op))
          | None => other
          end
      end
  end.

(** [while (ctx->offset < end_offset)]; every round reads an opcode. *)
Fixpoint body_loop (fuel : nat) (end_offset : Z) (seen_end_opcode : bool) : R bool :=
  c <- get ;;
  if rd_offset c <? end_offset then
    match fuel with
    | O => undef
    | S fuel =>
        opcode <- in_u8 ;;
        CALLBACK (CB_on_opcode opcode) ;;
        seen <- read_opcode end_offset opcode ;;
        body_loop fuel end_offset (seen_end_opcode || seen)
    end
  else r_ret seen_end_opcode.

Definition read_function_body (end_offset : Z) : R unit :=
  c <- get ;;
  seen_end_opcode <- body_loop (S (length (rd_data c))) end_offset false ;;
  c <- get ;;
  RAISE_ERROR_UNLESS (rd_offset c =? end_offset) "function body longer than given size" ;;
  RAISE_ERROR_UNLESS seen_end_opcode "function body must end with END opcode".

(** ** Sections *)

Definition read_custom_section (section_size : Z) : R unit :=
  section_name <- in_str ;;
  CALLBACK (CB_begin_custom_section section_size section_name) ;;
  c <- get ;;
  let name_section_ok := section_code WASM_BINARY_SECTION_IMPORT <=? last_known_section_code c in
  (if read_debug_names && name_section_ok &&
      strncmp_is_0 section_name (slice_bytes (Some WASM_BINARY_SECTION_NAME)) then
     CALLBACK (CB_begin_names_section section_size) ;;
     num_functions <- in_u32_leb128 ;;
     n <- counts ;;
     RAISE_ERROR_UNLESS (num_functions <=? num_total_funcs n)
       "function name count > function signature count" ;;
     CALLBACK (CB_on_function_names_count num_functions) ;;
     FOR num_functions (fun i =>
       function_name <- in_str ;;
       CALLBACK (CB_on_function_name i function_name) ;;
       num_locals <- in_u32_leb128 ;;
       CALLBACK (CB_on_local_names_count i num_locals) ;;
       FOR num_locals (fun j =>
         local_name <- in_str ;;
         CALLBACK (CB_on_local_name i j local_name))) ;;
     CALLBACK CB_end_names_section
   else (* This is an unknown custom section, skip it. *) set_offset (read_end c)) ;;
  CALLBACK CB_end_custom_section.

Definition read_type_section (section_size : Z) : R unit :=
  CALLBACK (CB_begin_signature_section section_size) ;;
  num <- in_u32_leb128 ;;
  modify_counts (fun n => mkCounts num (num_imports n) (rd_func_imports n) (rd_table_imports n)
    (rd_memory_imports n) (rd_global_imports n) (num_function_signatures n) (num_tables n)
    (num_memories n) (num_globals n) (num_exports n) (num_function_bodies n)) ;;
  CALLBACK (CB_on_signature_count num) ;;
  FOR num (fun i =>
    form <- in_type ;;
    RAISE_ERROR_UNLESS (form =? wasm_type_code WASM_TYPE_FUNC) "unexpected type form" ;;
    num_params <- in_u32_leb128 ;;
    params <- READ_ARRAY num_params (in_concrete_type "expected valid param type") ;;
    num_results <- in_u32_leb128 ;;
    RAISE_ERROR_UNLESS (num_results <=? 1) "result count must be 0 or 1" ;;
    results <- (if negb (num_results =? 0) then
                  t <- in_concrete_type "expected valid result type" ;; r_ret [t]
                else r_ret []) ;;
    CALLBACK (CB_on_signature i params results)) ;;
  CALLBACK CB_end_signature_section.

(** [num_func_imports++] and the others. *)
Definition count_import (kind : WasmExternalKind) (n : Counts) : Counts :=
  let one k := if decide (kind = k) then 1 else 0 in
  mkCounts (num_signatures n) (num_imports n)
    (u32 (rd_func_imports n + one WASM_EXTERNAL_KIND_FUNC))
    (u32 (rd_table_imports n + one WASM_EXTERNAL_KIND_TABLE))
    (u32 (rd_memory_imports n + one WASM_EXTERNAL_KIND_MEMORY))
    (u32 (rd_global_imports n + one WASM_EXTERNAL_KIND_GLOBAL))
    (num_function_signatures n) (num_tables n) (num_memories n) (num_globals n)
    (num_exports n) (num_function_bodies n).

Definition read_import (i : Z) : R unit :=
  module_name <- in_str ;;
  field_name <- in_str ;;
  CALLBACK (CB_on_import i module_name field_name) ;;
  kind <- in_u32_leb128 ;;
  kind <- raise_unless (is_valid_external_kind kind) "invalid import kind: %d" ;;
  match kind with
  | WASM_EXTERNAL_KIND_FUNC =>
      sig_index <- in_u32_leb128 ;;
      n <- counts ;;
      RAISE_ERROR_UNLESS (sig_index <? num_signatures n) "invalid import signature index" ;;
      CALLBACK (CB_on_import_func i sig_index)
  | WASM_EXTERNAL_KIND_TABLE =>
      '(elem_type, elem_limits) <- read_table ;;
      CALLBACK (CB_on_import_table i elem_type elem_limits)
  | WASM_EXTERNAL_KIND_MEMORY =>
      page_limits <- read_memory ;; CALLBACK (CB_on_import_memory i page_limits)
  | WASM_EXTERNAL_KIND_GLOBAL =>
      '(type, mutable_) <- read_global_header ;;
      CALLBACK (CB_on_import_global i type mutable_)
  end ;;
  modify_counts (count_import kind).

Definition read_import_section (section_size : Z) : R unit :=
  CALLBACK (CB_begin_import_section section_size) ;;
  num <- in_u32_leb128 ;;
  modify_counts (fun n => mkCounts (num_signatures n) num (rd_func_imports n) (rd_table_imports n)
    (rd_memory_imports n) (rd_global_imports n) (num_function_signatures n) (num_tables n)
    (num_memories n) (num_globals n) (num_exports n) (num_function_bodies n)) ;;
  CALLBACK (CB_on_import_count num) ;;
  FOR num read_import ;;
  CALLBACK CB_end_import_section.

Definition read_function_section (section_size : Z) : R unit :=
  CALLBACK (CB_begin_function_signatures_section section_size) ;;
  num <- in_u32_leb128 ;;
  modify_counts (fun n => mkCounts (num_signatures n) (num_imports n) (rd_func_imports n)
    (rd_table_imports n) (rd_memory_imports n) (rd_global_imports n) num (num_tables n)
    (num_memories n) (num_globals n) (num_exports n) (num_function_bodies n)) ;;
  CALLBACK (CB_on_function_signatures_count num) ;;
  FOR num (fun i =>
    sig_index <- in_u32_leb128 ;;
    n <- counts ;;
    RAISE_ERROR_UNLESS (sig_index <? num_signatures n) "invalid function signature index: %d" ;;
    CALLBACK (CB_on_function_signature i sig_index)) ;;
  CALLBACK CB_end_function_signatures_section.

Definition read_table_section (section_size : Z) : R unit :=
  CALLBACK (CB_begin_table_section section_size) ;;
  num <- in_u32_leb128 ;;
  modify_counts (fun n => mkCounts (num_signatures n) (num_imports n) (rd_func_imports n)
    (rd_table_imports n) (rd_memory_imports n) (rd_global_imports n) (num_function_signatures n)
    num (num_memories n) (num_globals n) (num_exports n) (num_function_bodies n)) ;;
  RAISE_ERROR_UNLESS (num <=? 1) "table count (%d) must be 0 or 1" ;;
  CALLBACK (CB_on_table_count num) ;;
  FOR num (fun i =>
    '(elem_type, elem_limits) <- read_table ;; CALLBACK (CB_on_table i elem_type elem_limits)) ;;
  CALLBACK CB_end_table_section.

Definition read_memory_section (section_size : Z) : R unit :=
  CALLBACK (CB_begin_memory_section section_size) ;;
  num <- in_u32_leb128 ;;
  modify_counts (fun n => mkCounts (num_signatures n) (num_imports n) (rd_func_imports n)
    (rd_table_imports n) (rd_memory_imports n) (rd_global_imports n) (num_function_signatures n)
    (num_tables n) num (num_globals n) (num_exports n) (num_function_bodies n)) ;;
  RAISE_ERROR_UNLESS (num <=? 1) "memory count must be 0 or 1" ;;
  CALLBACK (CB_on_memory_count num) ;;
  FOR num (fun i => page_limits <- read_memory ;; CALLBACK (CB_on_memory i page_limits)) ;;
  CALLBACK CB_end_memory_section.

Definition read_global_section (section_size : Z) : R unit :=
  CALLBACK (CB_begin_global_section section_size) ;;
  num <- in_u32_leb128 ;;
  modify_counts (fun n => mkCounts (num_signatures n) (num_imports n) (rd_func_imports n)
    (rd_table_imports n) (rd_memory_imports n) (rd_global_imports n) (num_function_signatures n)
    (num_tables n) (num_memories n) num (num_exports n) (num_function_bodies n)) ;;
  CALLBACK (CB_on_global_count num) ;;
  FOR num (fun i =>
    '(global_type, mutable_) <- read_global_header ;;
    CALLBACK (CB_begin_global i global_type mutable_) ;;
    CALLBACK (CB_begin_global_init_expr i) ;;
    read_init_expr i ;;
    CALLBACK (CB_end_global_init_expr i) ;;
    CALLBACK (CB_end_global i)) ;;
  CALLBACK CB_end_global_section.

Definition total_of_kind (kind : WasmExternalKind) (n : Counts) : Z :=
  match kind with
  | WASM_EXTERNAL_KIND_FUNC => num_total_funcs n
  | WASM_EXTERNAL_KIND_TABLE => num_total_tables n
  | WASM_EXTERNAL_KIND_MEMORY => num_total_memories n
  | WASM_EXTERNAL_KIND_GLOBAL => num_total_globals n
  end.

Definition read_export (i : Z) : R unit :=
  name <- in_str ;;
  external_kind <- in_u8 ;;
  external_kind <- raise_unless (is_valid_external_kind external_kind)
                     "invalid export external kind" ;;
  item_index <- in_u32_leb128 ;;
  n <- counts ;;
  RAISE_ERROR_UNLESS (item_index <? total_of_kind external_kind n) "invalid export index" ;;
  CALLBACK (CB_on_export i external_kind item_index name).

Definition read_export_section (section_size : Z) : R unit :=
  CALLBACK (CB_begin_export_section section_size) ;;
  num <- in_u32_leb128 ;;
  modify_counts (fun n => mkCounts (num_signatures n) (num_imports n) (rd_func_imports n)
    (rd_table_imports n) (rd_memory_imports n) (rd_global_imports n) (num_function_signatures n)
    (num_tables n) (num_memories n) (num_globals n) num (num_function_bodies n)) ;;
  CALLBACK (CB_on_export_count num) ;;
  FOR num read_export ;;
  CALLBACK CB_end_export_section.

Definition read_start_section (section_size : Z) : R unit :=
  CALLBACK (CB_begin_start_section section_size) ;;
  func_index <- in_u32_leb128 ;;
  n <- counts ;;
  RAISE_ERROR_UNLESS (func_index <? num_total_funcs n) "invalid start function index" ;;
  CALLBACK (CB_on_start_function func_index) ;;
  CALLBACK CB_end_start_section.

Definition read_elem_segment (i : Z) : R unit :=
  table_index <- in_u32_leb128 ;;
  CALLBACK (CB_begin_elem_segment i table_index) ;;
  CALLBACK (CB_begin_elem_segment_init_expr i) ;;
  read_init_expr i ;;
  CALLBACK (CB_end_elem_segment_init_expr i) ;;
  num_function_indexes <- in_u32_leb128 ;;
  CALLBACK (CB_on_elem_segment_function_index_count i num_function_indexes) ;;
  FOR num_function_indexes (fun j =>
    func_index <- in_u32_leb128 ;; CALLBACK (CB_on_elem_segment_function_index i func_index)) ;;
  CALLBACK (CB_end_elem_segment i).

Definition read_elem_section (section_size : Z) : R unit :=
  CALLBACK (CB_begin_elem_section section_size) ;;
  num_elem_segments <- in_u32_leb128 ;;
  CALLBACK (CB_on_elem_segment_count num_elem_segments) ;;
  n <- counts ;;
  RAISE_ERROR_UNLESS ((num_elem_segments =? 0) || (0 <? num_total_tables n))
    "elem section without table section" ;;
  FOR num_elem_segments read_elem_segment ;;
  CALLBACK CB_end_elem_section.

Definition read_function (i : Z) : R unit :=
  c <- get ;;
  let func_offset := u32 (rd_offset c) in
  set_offset func_offset ;;
  CALLBACK (CB_begin_function_body i) ;;
  body_size <- in_u32_leb128 ;;
  c <- get ;;
  let body_start_offset := u32 (rd_offset c) in
  let end_offset := u32 (body_start_offset + body_size) in
  num_local_decls <- in_u32_leb128 ;;
  CALLBACK (CB_on_local_decl_count num_local_decls) ;;
  FOR num_local_decls (fun k =>
    num_local_types <- in_u32_leb128 ;;
    local_type <- in_concrete_type "expected valid local type" ;;
    CALLBACK (CB_on_local_decl k num_local_types local_type)) ;;
  read_function_body end_offset ;;
  CALLBACK (CB_end_function_body i).

Definition read_code_section (section_size : Z) : R unit :=
  CALLBACK (CB_begin_function_bodies_section section_size) ;;
  num <- in_u32_leb128 ;;
  modify_counts (fun n => mkCounts (num_signatures n) (num_imports n) (rd_func_imports n)
    (rd_table_imports n) (rd_memory_imports n) (rd_global_imports n) (num_function_signatures n)
    (num_tables n) (num_memories n) (num_globals n) (num_exports n) num) ;;
  n <- counts ;;
  RAISE_ERROR_UNLESS (num_function_signatures n =? num)
    "function signature count != function body count" ;;
  CALLBACK (CB_on_function_bodies_count num) ;;
  FOR num read_function ;;
  CALLBACK CB_end_function_bodies_section.

Definition read_data_segment (i : Z) : R unit :=
  memory_index <- in_u32_leb128 ;;
  CALLBACK (CB_begin_data_segment i memory_index) ;;
  CALLBACK (CB_begin_data_segment_init_expr i) ;;
  read_init_expr i ;;
  CALLBACK (CB_end_data_segment_init_expr i) ;;
  data <- in_bytes ;;
  CALLBACK (CB_on_data_segment_data i data) ;;
  CALLBACK (CB_end_data_segment i).

Definition read_data_section (section_size : Z) : R unit :=
  CALLBACK (CB_begin_data_section section_size) ;;
  num_data_segments <- in_u32_leb128 ;;
  CALLBACK (CB_on_data_segment_count num_data_segments) ;;
  n <- counts ;;
  RAISE_ERROR_UNLESS ((num_data_segments =? 0) || (0 <? num_total_memories n))
    "data section without memory section" ;;
  FOR num_data_segments read_data_segment ;;
  CALLBACK CB_end_data_section.

(** The section with a code. *)
Definition section_of_code (code : Z) : option WasmBinarySection :=
  List.find (fun s => section_code s =? code)
    [ WASM_BINARY_SECTION_CUSTOM; WASM_BINARY_SECTION_TYPE; WASM_BINARY_SECTION_IMPORT;
      WASM_BINARY_SECTION_FUNCTION; WASM_BINARY_SECTION_TABLE; WASM_BINARY_SECTION_MEMORY;
      WASM_BINARY_SECTION_GLOBAL; WASM_BINARY_SECTION_EXPORT; WASM_BINARY_SECTION_START;
      WASM_BINARY_SECTION_ELEM; WASM_BINARY_SECTION_CODE; WASM_BINARY_SECTION_DATA ].

Definition read_section (section : WasmBinarySection) (section_size : Z) : R unit :=
  match section with
  | WASM_BINARY_SECTION_CUSTOM => read_custom_section section_size
  | WASM_BINARY_SECTION_TYPE => read_type_section section_size
  | WASM_BINARY_SECTION_IMPORT => read_import_section section_size
  | WASM_BINARY_SECTION_FUNCTION => read_function_section section_size
  | WASM_BINARY_SECTION_TABLE => read_table_section section_size
  | WASM_BINARY_SECTION_MEMORY => read_memory_section section_size
  | WASM_BINARY_SECTION_GLOBAL => read_global_section section_size
  | WASM_BINARY_SECTION_EXPORT => read_export_section section_size
  | WASM_BINARY_SECTION_START => read_start_section section_size
  | WASM_BINARY_SECTION_ELEM => read_elem_section section_size
  | WASM_BINARY_SECTION_CODE => read_code_section section_size
  | WASM_BINARY_SECTION_DATA => read_data_section section_size
  end.

Definition data_size (c : ReadContext U) : Z := Z.of_nat (length (rd_data c)).

(** One round of [read_sections]. *)
Definition read_one_section : R unit :=
  c <- get ;;
  set_read_end (data_size c) ;;
  code <- in_u32_leb128 ;;
  section_size <- in_u32_leb128 ;;
  c <- get ;;
  set_read_end (rd_offset c + section_size) ;;
  RAISE_ERROR_UNLESS (rd_offset c + section_size <=? data_size c)
    "invalid section size: extends past end" ;;
  RAISE_ERROR_UNLESS
    (negb (negb (last_known_section_code c =? WASM_NUM_BINARY_SECTIONS) &&
           negb (code =? section_code WASM_BINARY_SECTION_CUSTOM) &&
           (code <=? last_known_section_code c)))
    "section %s out of order" ;;
  CALLBACK (CB_begin_section code section_size) ;;
  section <- raise_unless (section_of_code code) "invalid section code: %u; max is %u" ;;
  read_section section section_size ;;
  c <- get ;;
  RAISE_ERROR_UNLESS (rd_offset c =? read_end c) "unfinished section (expected end: 0x%)" ;;
  if negb (code =? section_code WASM_BINARY_SECTION_CUSTOM)
  then set_last_known_section_code code else r_ret tt.

Fixpoint sections_loop (fuel : nat) : R unit :=
  c <- get ;;
  if rd_offset c <? data_size c then
    match fuel with
    | O => undef
    | S fuel => read_one_section ;; sections_loop fuel
    end
  else r_ret tt.

Definition read_sections : R unit :=
  c <- get ;; sections_loop (S (length (rd_data c))).

Definition read_module : R unit :=
  magic <- in_u32 ;;
  RAISE_ERROR_UNLESS (magic =? WASM_BINARY_MAGIC) "bad magic value" ;;
  version <- in_u32 ;;
  RAISE_ERROR_UNLESS (version =? WASM_BINARY_VERSION)
    "bad wasm file version: %#x (expected %#x)" ;;
  CALLBACK (CB_begin_module version) ;;
  read_sections ;;
  CALLBACK CB_end_module.

(** The result and the user data; [None] is undefined behaviour. *)
Definition wasm_read_binary (data : bytes) (u : U) : option (WasmResult * U) :=
  let size := Z.of_nat (length data) in
  match read_module (mkReadContext data 0 size WASM_NUM_BINARY_SECTIONS zero_counts u) with
  | Done _ c => Some (WASM_OK, user_data c)
  | Raised c => Some (WASM_ERROR, user_data c)
  | Undef => None
  end.
End reader.
