(* ===== verification/BinaryReaderInterpreter.v ===== *)
(** * From the binary format to the interpreter (src/src/binary-reader-interpreter.c)

    The callbacks with which [wasm_read_binary_interpreter] loads a module into
    the interpreter's environment: it resolves imports, allocates tables,
    memories and globals, and translates function bodies to the instruction
    stream in one pass, checking types as it goes and patching the operands of
    forward branches and calls once their targets are known.

    A pointer to an element of one of the environment's vectors is its index.
    The type stack and the label stack have their top first.  [print_error]
    prints and is left out. *)

From S2P Require Import Prelude Opcode Vector BindingHash StateOpt StateErr Stream BinaryReader Numeric Interp.

#[local] Open Scope se_scope.

(** ** The environment (interpreter.h) *)

Record WasmInterpreterExport : Type := mkExport {
  export_name : WasmStringSlice;
  export_kind : WasmExternalKind;
  export_index : Z
}.

Inductive ImportUnion : Type :=
| IMPORT_FUNC (sig_index : Z)
| IMPORT_LIMITS (limits : WasmLimits)
| IMPORT_GLOBAL (type : WasmType) (mutable_ : bool).

Record WasmInterpreterImport : Type := mkImport {
  import_module_name : WasmStringSlice;
  import_field_name : WasmStringSlice;
  import_kind : WasmExternalKind;
  import_union : ImportUnion
}.

Definition zero_import : WasmInterpreterImport :=
  mkImport None None WASM_EXTERNAL_KIND_FUNC (IMPORT_FUNC 0).

Definition HostCallback : Type := FuncSignature -> list TypedValue -> WasmResult * list TypedValue.

(** The functions of the embedder, with their user data: what they store in
    the object they are given, and their result.  [None] is a [callback], or a
    block of memory, that was left [NULL]. *)
Record HostImportDelegate : Type := mkDelegate {
  import_func : WasmInterpreterImport -> FuncSignature -> WasmResult * option HostCallback;
  import_table : WasmInterpreterImport -> Table -> WasmResult * Table;
  import_memory : WasmInterpreterImport -> WasmResult * option Memory;
  import_global : WasmInterpreterImport -> Global -> WasmResult * Global
}.

Inductive ModuleUnion : Type :=
| DefinedModule (imports : list WasmInterpreterImport)
                (start_func_index istream_start istream_end : Z)
| HostModule (import_delegate : HostImportDelegate).

Record WasmInterpreterModule : Type := mkModule {
  module_name : WasmStringSlice;
  module_exports : list WasmInterpreterExport;
  module_export_bindings : WasmBindingHash;
  module_memory_index : Z;
  module_table_index : Z;
  module_union : ModuleUnion
}.

Record WasmInterpreterEnvironment : Type := mkEnvironment {
  env_modules : list WasmInterpreterModule;
  env_sigs : list FuncSignature;
  env_funcs : list Func;
  env_memories : list Memory;
  env_tables : list Table;
  env_globals : list Global;
  env_istream : WasmOutputBuffer;
  env_module_bindings : WasmBindingHash;
  env_registered_module_bindings : WasmBindingHash
}.

Definition with_modules (e : WasmInterpreterEnvironment) (l : list WasmInterpreterModule) :=
  mkEnvironment l (env_sigs e) (env_funcs e) (env_memories e) (env_tables e) (env_globals e)
    (env_istream e) (env_module_bindings e) (env_registered_module_bindings e).
Definition with_sigs (e : WasmInterpreterEnvironment) (l : list FuncSignature) :=
  mkEnvironment (env_modules e) l (env_funcs e) (env_memories e) (env_tables e) (env_globals e)
    (env_istream e) (env_module_bindings e) (env_registered_module_bindings e).
Definition with_funcs (e : WasmInterpreterEnvironment) (l : list Func) :=
  mkEnvironment (env_modules e) (env_sigs e) l (env_memories e) (env_tables e) (env_globals e)
    (env_istream e) (env_module_bindings e) (env_registered_module_bindings e).
Definition with_env_memories (e : WasmInterpreterEnvironment) (l : list Memory) :=
  mkEnvironment (env_modules e) (env_sigs e) (env_funcs e) l (env_tables e) (env_globals e)
    (env_istream e) (env_module_bindings e) (env_registered_module_bindings e).
Definition with_tables (e : WasmInterpreterEnvironment) (l : list Table) :=
  mkEnvironment (env_modules e) (env_sigs e) (env_funcs e) (env_memories e) l (env_globals e)
    (env_istream e) (env_module_bindings e) (env_registered_module_bindings e).
Definition with_env_globals (e : WasmInterpreterEnvironment) (l : list Global) :=
  mkEnvironment (env_modules e) (env_sigs e) (env_funcs e) (env_memories e) (env_tables e) l
    (env_istream e) (env_module_bindings e) (env_registered_module_bindings e).
Definition with_istream (e : WasmInterpreterEnvironment) (b : WasmOutputBuffer) :=
  mkEnvironment (env_modules e) (env_sigs e) (env_funcs e) (env_memories e) (env_tables e)
    (env_globals e) b (env_module_bindings e) (env_registered_module_bindings e).
Definition with_bindings (e : WasmInterpreterEnvironment) (h rh : WasmBindingHash) :=
  mkEnvironment (env_modules e) (env_sigs e) (env_funcs e) (env_memories e) (env_tables e)
    (env_globals e) (env_istream e) h rh.

(** The environment as the instruction loop sees it. *)
Definition machine_env (e : WasmInterpreterEnvironment) : option Env :=
  code ← buf_bytes (env_istream e);
  Some (mkEnv (env_sigs e) (env_funcs e) (env_memories e) (env_tables e) (env_globals e) code).

(** As much of it as comparing signatures takes. *)
Definition signatures_env (e : WasmInterpreterEnvironment) : Env := mkEnv (env_sigs e) [] [] [] [] [].

(** ** The context *)

Definition WASM_INVALID_OFFSET : Z := 2 ^ 32 - 1.

Inductive LabelType : Set :=
| LABEL_TYPE_FUNC | LABEL_TYPE_BLOCK | LABEL_TYPE_LOOP | LABEL_TYPE_IF | LABEL_TYPE_ELSE.

#[global] Instance InterpLabelType_eq_dec : EqDecision LabelType.
Proof. solve_decision. Defined.

Record Label : Type := mkLabel {
  label_type : LabelType;
  label_sig : list WasmType;
  type_stack_limit_of : Z;
  label_offset : Z;
  fixup_offset : Z
}.

(** The part of [Context] that belongs to the function being read ... *)
Record CodeContext : Type := mkCode {
  current_func : option Z;
  type_stack : list WasmType;
  label_stack : list Label;
  func_fixups : list (list Z);
  depth_fixups : list (list Z);
  istream_writer : WasmOutputBuffer;
  istream_offset : Z
}.

(** ... and the rest of it.  [ctx_module] and [host_import_module] point into
    [env->modules]; [depth] is never read. *)
Record Context : Type := mkContext {
  ctx_env : WasmInterpreterEnvironment;
  ctx_module : Z;
  ctx_code : CodeContext;
  sig_index_mapping : list Z;
  func_index_mapping : list Z;
  global_index_mapping : list Z;
  num_func_imports : Z;
  num_global_imports : Z;
  init_expr_value : TypedValue;
  table_offset : Z;
  is_host_import : bool;
  host_import_module : option Z;
  import_index : Z
}.

Definition set_ctx_env (e : WasmInterpreterEnvironment) (c : Context) : Context :=
  mkContext e (ctx_module c) (ctx_code c) (sig_index_mapping c) (func_index_mapping c)
    (global_index_mapping c) (num_func_imports c) (num_global_imports c) (init_expr_value c)
    (table_offset c) (is_host_import c) (host_import_module c) (import_index c).
Definition set_code (k : CodeContext) (c : Context) : Context :=
  mkContext (ctx_env c) (ctx_module c) k (sig_index_mapping c) (func_index_mapping c)
    (global_index_mapping c) (num_func_imports c) (num_global_imports c) (init_expr_value c)
    (table_offset c) (is_host_import c) (host_import_module c) (import_index c).
Definition set_mappings (sig func global : list Z) (c : Context) : Context :=
  mkContext (ctx_env c) (ctx_module c) (ctx_code c) sig func global (num_func_imports c)
    (num_global_imports c) (init_expr_value c) (table_offset c) (is_host_import c)
    (host_import_module c) (import_index c).
Definition set_num_imports (funcs globals : Z) (c : Context) : Context :=
  mkContext (ctx_env c) (ctx_module c) (ctx_code c) (sig_index_mapping c) (func_index_mapping c)
    (global_index_mapping c) funcs globals (init_expr_value c) (table_offset c) (is_host_import c)
    (host_import_module c) (import_index c).
Definition set_init_expr_value (v : TypedValue) (c : Context) : Context :=
  mkContext (ctx_env c) (ctx_module c) (ctx_code c) (sig_index_mapping c) (func_index_mapping c)
    (global_index_mapping c) (num_func_imports c) (num_global_imports c) v (table_offset c)
    (is_host_import c) (host_import_module c) (import_index c).
Definition set_table_offset (o : Z) (c : Context) : Context :=
  mkContext (ctx_env c) (ctx_module c) (ctx_code c) (sig_index_mapping c) (func_index_mapping c)
    (global_index_mapping c) (num_func_imports c) (num_global_imports c) (init_expr_value c) o
    (is_host_import c) (host_import_module c) (import_index c).
Definition set_import (is_host : bool) (m : option Z) (index : Z) (c : Context) : Context :=
  mkContext (ctx_env c) (ctx_module c) (ctx_code c) (sig_index_mapping c) (func_index_mapping c)
    (global_index_mapping c) (num_func_imports c) (num_global_imports c) (init_expr_value c)
    (table_offset c) is_host m index.

Definition set_current_func (f : option Z) (k : CodeContext) : CodeContext :=
  mkCode f (type_stack k) (label_stack k) (func_fixups k) (depth_fixups k) (istream_writer k)
    (istream_offset k).
Definition set_type_stack (s : list WasmType) (k : CodeContext) : CodeContext :=
  mkCode (current_func k) s (label_stack k) (func_fixups k) (depth_fixups k) (istream_writer k)
    (istream_offset k).
Definition set_label_stack (ls : list Label) (k : CodeContext) : CodeContext :=
  mkCode (current_func k) (type_stack k) ls (func_fixups k) (depth_fixups k) (istream_writer k)
    (istream_offset k).
Definition set_fixups (fs ds : list (list Z)) (k : CodeContext) : CodeContext :=
  mkCode (current_func k) (type_stack k) (label_stack k) fs ds (istream_writer k) (istream_offset k).
Definition set_istream (w : WasmOutputBuffer) (offset : Z) (k : CodeContext) : CodeContext :=
  mkCode (current_func k) (type_stack k) (label_stack k) (func_fixups k) (depth_fixups k) w offset.

Section reader.
(** Memory fresh from the allocator, in a binding hash. *)
Context (uninit_entry : nat -> WasmBindingHashEntry).

Definition IM (A : Type) : Type := SE Context A.

Definition get_env : IM WasmInterpreterEnvironment := c <- se_get ;; se_ret (ctx_env c).
Definition set_env (e : WasmInterpreterEnvironment) : IM unit := se_modify (set_ctx_env e).
Definition get_code : IM CodeContext := c <- se_get ;; se_ret (ctx_code c).
Definition modify_code (f : CodeContext -> CodeContext) : IM unit :=
  se_modify (fun c => set_code (f (ctx_code c)) c).

Definition size_of {A} (l : list A) : Z := Z.of_nat (length l).

Definition type_stack_size : IM Z := k <- get_code ;; se_ret (size_of (type_stack k)).

(** ** Labels *)

Definition get_label (depth : Z) : IM Label :=
  k <- get_code ;;
  let size := size_of (label_stack k) in
  se_assert (depth <? size) ;;
  se_lift (zget (label_stack k) (size - 1 - depth)).

Definition top_label : IM Label :=
  k <- get_code ;; get_label (u32 (size_of (label_stack k) - 1)).

(** Assignments to members of [*top_label(ctx)]. *)
Definition set_top_label (l : Label) : IM unit :=
  modify_code (fun k => set_label_stack (l :: tail (label_stack k)) k).

(** ** Index spaces *)

Definition translate_sig_index_to_env (sig_index : Z) : IM Z :=
  c <- se_get ;; se_lift (zget (sig_index_mapping c) sig_index).

Definition get_signature_by_env_index (sig_index : Z) : IM FuncSignature :=
  e <- get_env ;; se_lift (zget (env_sigs e) sig_index).

Definition get_signature_by_module_index (sig_index : Z) : IM FuncSignature :=
  i <- translate_sig_index_to_env sig_index ;; get_signature_by_env_index i.

Definition translate_func_index_to_env (func_index : Z) : IM Z :=
  c <- se_get ;; se_lift (zget (func_index_mapping c) func_index).

Definition translate_defined_func_index_to_env (func_index : Z) : IM Z :=
  c <- se_get ;;
  se_lift (zget (func_index_mapping c) (u32 (func_index + num_func_imports c))).

Definition translate_module_func_index_to_defined (func_index : Z) : IM Z :=
  c <- se_get ;;
  se_assert (num_func_imports c <=? func_index) ;;
  se_ret (func_index - num_func_imports c).

Definition get_func_by_env_index (func_index : Z) : IM Func :=
  e <- get_env ;; se_lift (zget (env_funcs e) func_index).

Definition get_func_by_module_index (func_index : Z) : IM Func :=
  i <- translate_func_index_to_env func_index ;; get_func_by_env_index i.

Definition translate_global_index_to_env (global_index : Z) : IM Z :=
  c <- se_get ;; se_lift (zget (global_index_mapping c) global_index).

Definition translate_defined_global_index_to_env (global_index : Z) : IM Z :=
  c <- se_get ;;
  se_lift (zget (global_index_mapping c) (u32 (global_index + num_global_imports c))).

Definition get_global_by_env_index (global_index : Z) : IM Global :=
  e <- get_env ;; se_lift (zget (env_globals e) global_index).

Definition get_global_by_module_index (global_index : Z) : IM Global :=
  i <- translate_global_index_to_env global_index ;; get_global_by_env_index i.

Definition get_global_type_by_module_index (global_index : Z) : IM WasmType :=
  g <- get_global_by_module_index global_index ;; se_ret (tv_type (gl_typed_value g)).

(** Writing through a pointer to a function or a global. *)
Definition set_func (i : Z) (f : Func) : IM unit :=
  e <- get_env ;; fs <- se_lift (zset (env_funcs e) i f) ;; set_env (with_funcs e fs).
Definition set_global (i : Z) (g : Global) : IM unit :=
  e <- get_env ;; gs <- se_lift (zset (env_globals e) i g) ;; set_env (with_env_globals e gs).
Definition get_module (i : Z) : IM WasmInterpreterModule :=
  e <- get_env ;; se_lift (zget (env_modules e) i).
Definition set_module (i : Z) (m : WasmInterpreterModule) : IM unit :=
  e <- get_env ;; ms <- se_lift (zset (env_modules e) i m) ;; set_env (with_modules e ms).

(** [ctx->module] *)
Definition this_module : IM WasmInterpreterModule := c <- se_get ;; get_module (ctx_module c).

(** [param_and_local_types] of [ctx->current_func], which must be set. *)
Definition current_func_types : IM (list WasmType) :=
  k <- get_code ;; i <- se_lift (current_func k) ;; f <- get_func_by_env_index i ;;
  match func_body f with
  | DefinedFunc _ _ _ types => se_ret types
  | HostFunc _ _ _ => se_undef
  end.

Definition get_local_type_by_index (local_index : Z) : IM WasmType :=
  types <- current_func_types ;; se_lift (zget types local_index).

Definition translate_local_index (local_index : Z) : IM Z :=
  size <- type_stack_size ;;
  se_assert (local_index <? size) ;;
  se_ret (u32 (size - local_index)).

(** ** Emitting code *)

Definition get_istream_offset : IM Z := k <- get_code ;; se_ret (istream_offset k).

Definition emit_data_at (offset : Z) (data : list Z) : IM unit :=
  k <- get_code ;;
  match write_data offset data (istream_writer k) with
  | Some (WASM_OK, w) => modify_code (set_istream w (istream_offset k))
  | Some (WASM_ERROR, w) => modify_code (set_istream w (istream_offset k)) ;; se_error
  | None => se_undef
  end.

Definition emit_data (data : list Z) : IM unit :=
  k <- get_code ;;
  emit_data_at (istream_offset k) data ;;
  modify_code (fun k => set_istream (istream_writer k) (u32 (istream_offset k + size_of data)) k).

Definition emit_opcode (opcode : InterpOpcode) : IM unit := emit_data [interp_opcode_code opcode].
Definition emit_i8 (value : Z) : IM unit := emit_data [wrap 8 value].
Definition emit_i32 (value : Z) : IM unit := emit_data (le_bytes 4 value).
Definition emit_i64 (value : Z) : IM unit := emit_data (le_bytes 8 value).
Definition emit_i32_at (offset value : Z) : IM unit := emit_data_at offset (le_bytes 4 value).

(** [keep] is a byte. *)
Definition emit_drop_keep (drop keep : Z) : IM unit :=
  let keep := wrap 8 keep in
  se_assert (negb (drop =? UINT32_MAX)) ;;
  se_assert (keep <=? 1) ;;
  if 0 <? drop then
    if (drop =? 1) && (keep =? 0) then emit_opcode (WasmOp WASM_OPCODE_DROP)
    else emit_opcode WASM_OPCODE_DROP_KEEP ;; emit_i32 drop ;; emit_i8 keep
  else se_ret tt.

(** Which [Uint32VectorVector] of the context. *)
Inductive FixupsVector : Set := FUNC_FIXUPS | DEPTH_FIXUPS.

Definition get_fixups (v : FixupsVector) (k : CodeContext) : list (list Z) :=
  match v with FUNC_FIXUPS => func_fixups k | DEPTH_FIXUPS => depth_fixups k end.
Definition put_fixups (v : FixupsVector) (l : list (list Z)) (k : CodeContext) : CodeContext :=
  match v with
  | FUNC_FIXUPS => set_fixups l (depth_fixups k) k
  | DEPTH_FIXUPS => set_fixups (func_fixups k) l k
  end.

Definition append_fixup (fixups_vector : FixupsVector) (index : Z) : IM unit :=
  k <- get_code ;;
  let l := get_fixups fixups_vector k in
  let l := if size_of l <=? index then resize (Z.to_nat (u32 (index + 1))) [] l else l in
  fixups <- se_lift (zget l index) ;;
  l <- se_lift (zset l index (fixups ++ [istream_offset k])) ;;
  modify_code (put_fixups fixups_vector l).

Definition emit_br_offset (depth offset : Z) : IM unit :=
  (if offset =? WASM_INVALID_OFFSET then append_fixup DEPTH_FIXUPS depth else se_ret tt) ;;
  emit_i32 offset.

Definition get_label_br_arity (label : Label) : Z :=
  if decide (label_type label = LABEL_TYPE_LOOP) then 0 else u32 (size_of (label_sig label)).

(** How many values a branch to [label] drops. *)
Definition br_drop_count (label : Label) : IM Z :=
  let arity := get_label_br_arity label in
  size <- type_stack_size ;;
  se_assert (u32 (type_stack_limit_of label + arity) <=? size) ;;
  se_ret (u32 (size - type_stack_limit_of label - arity)).

Definition emit_br (depth : Z) : IM unit :=
  label <- get_label depth ;;
  drop_count <- br_drop_count label ;;
  emit_drop_keep drop_count (get_label_br_arity label) ;;
  emit_opcode (WasmOp WASM_OPCODE_BR) ;;
  emit_br_offset depth (label_offset label).

Definition emit_br_table_offset (depth : Z) : IM unit :=
  label <- get_label depth ;;
  drop_count <- br_drop_count label ;;
  emit_br_offset depth (label_offset label) ;;
  emit_i32 drop_count ;;
  emit_i8 (get_label_br_arity label).

Definition fixup_top_label (offset : Z) : IM unit :=
  k <- get_code ;;
  let top := u32 (size_of (label_stack k) - 1) in
  if size_of (depth_fixups k) <=? top then se_ret tt (* nothing to fixup *)
  else
    fixups <- se_lift (zget (depth_fixups k) top) ;;
    se_for (fun at_ => emit_i32_at at_ offset) fixups ;;
    ds <- se_lift (zset (depth_fixups k) top []) ;;
    modify_code (put_fixups DEPTH_FIXUPS ds).

Definition emit_func_offset (offset func_index : Z) : IM unit :=
  (if offset =? WASM_INVALID_OFFSET then
     i <- translate_module_func_index_to_defined func_index ;; append_fixup FUNC_FIXUPS i
   else se_ret tt) ;;
  emit_i32 offset.

(** ** Module fields *)

Definition modify_env (f : WasmInterpreterEnvironment -> WasmInterpreterEnvironment) : IM unit :=
  e <- get_env ;; set_env (f e).

Definition zero_sig : FuncSignature := mkSig [] [].
Definition zero_func : Func := mkFunc 0 (DefinedFunc 0 0 0 []).
(** Zeroed memory: 0 is the code of [WASM_TYPE_ANY]. *)
Definition zero_global : Global := mkGlobal (mkTypedValue WASM_TYPE_ANY 0) false 0.

(** [for (i = 0; i < count; ++i) mapping[first + i] = base + i;] *)
Fixpoint fill_mapping (count : nat) (mapping : list Z) (first base : Z) : option (list Z) :=
  match count with
  | O => Some mapping
  | S n =>
      mapping ← zset mapping (u32 first) (u32 base);
      fill_mapping n mapping (first + 1) (base + 1)
  end.

Definition on_signature_count (count : Z) : IM unit :=
  c <- se_get ;; e <- get_env ;;
  m <- se_lift (fill_mapping (Z.to_nat count) (resize (Z.to_nat count) 0 (sig_index_mapping c)) 0
                  (size_of (env_sigs e))) ;;
  se_modify (set_mappings m (func_index_mapping c) (global_index_mapping c)) ;;
  set_env (with_sigs e (env_sigs e ++ replicate (Z.to_nat count) zero_sig)).

Definition on_signature (index : Z) (param_types result_types : list WasmType) : IM unit :=
  i <- translate_sig_index_to_env index ;;
  e <- get_env ;;
  sigs <- se_lift (zset (env_sigs e) i (mkSig param_types result_types)) ;;
  set_env (with_sigs e sigs).

(** [ctx->module->defined] *)
Definition defined_module : IM (WasmInterpreterModule * (list WasmInterpreterImport * Z * Z * Z)) :=
  m <- this_module ;;
  match module_union m with
  | DefinedModule imports start istream_start istream_end =>
      se_ret (m, (imports, start, istream_start, istream_end))
  | HostModule _ => se_undef
  end.

Definition set_union (m : WasmInterpreterModule) (u : ModuleUnion) : WasmInterpreterModule :=
  mkModule (module_name m) (module_exports m) (module_export_bindings m) (module_memory_index m)
    (module_table_index m) u.

Definition set_this_module (m : WasmInterpreterModule) : IM unit :=
  c <- se_get ;; set_module (ctx_module c) m.

Definition set_imports (imports : list WasmInterpreterImport) : IM unit :=
  d <- defined_module ;;
  let '(m, (_, start, istream_start, istream_end)) := d in
  set_this_module (set_union m (DefinedModule imports start istream_start istream_end)).

Definition get_import (index : Z) : IM WasmInterpreterImport :=
  d <- defined_module ;;
  let '(_, (imports, _, _, _)) := d in se_lift (zget imports index).

Definition put_import (index : Z) (import : WasmInterpreterImport) : IM unit :=
  d <- defined_module ;;
  let '(_, (imports, _, _, _)) := d in
  imports <- se_lift (zset imports index import) ;; set_imports imports.

Definition on_import_count (count : Z) : IM unit :=
  set_imports (replicate (Z.to_nat count) zero_import).

(** [None] is no such export. *)
Definition wasm_get_interpreter_export_by_name (module : WasmInterpreterModule) (name : WasmStringSlice) :
    option (option WasmInterpreterExport) :=
  field_index ← wasm_find_binding_index_by_name (module_export_bindings module) name;
  if field_index <? 0 then Some None
  else export ← zget (module_exports module) field_index; Some (Some export).

Definition on_import (index : Z) (module_name field_name : bytes) : IM unit :=
  import <- get_import index ;;
  module_name <- se_lift (wasm_dup_string_slice module_name) ;;
  field_name <- se_lift (wasm_dup_string_slice field_name) ;;
  put_import index (mkImport module_name field_name (import_kind import) (import_union import)) ;;
  e <- get_env ;;
  module_index <- se_lift (wasm_find_binding_index_by_name (env_registered_module_bindings e) module_name) ;;
  se_error_if (module_index <? 0) ;;
  module <- get_module module_index ;;
  c <- se_get ;;
  match module_union module with
  | HostModule _ => se_modify (set_import true (Some module_index) (import_index c))
  | DefinedModule _ _ _ _ =>
      export <- se_lift (wasm_get_interpreter_export_by_name module field_name) ;;
      match export with
      | None => se_error
      | Some export =>
          put_import index (mkImport module_name field_name (export_kind export) (import_union import)) ;;
          se_modify (set_import false (host_import_module c) (export_index export))
      end
  end.

Definition check_import_kind (import : WasmInterpreterImport) (expected_kind : WasmExternalKind) : IM unit :=
  se_error_if (negb (bool_decide (import_kind import = expected_kind))).

Definition check_import_limits (declared_limits actual_limits : WasmLimits) : IM unit :=
  se_error_if (lim_initial actual_limits <? lim_initial declared_limits) ;;
  if lim_has_max declared_limits then
    se_error_if (negb (lim_has_max actual_limits)) ;;
    se_error_if (lim_max declared_limits <? lim_max actual_limits)
  else se_ret tt.

(** [module] is an index. *)
Definition append_export (module : Z) (kind : WasmExternalKind) (item_index : Z) (name : WasmStringSlice) :
    IM unit :=
  m <- get_module module ;;
  let exports := module_exports m ++ [mkExport name kind item_index] in
  h <- se_lift (insert_binding_index uninit_entry (module_export_bindings m) name (size_of exports - 1)) ;;
  set_module module (mkModule (module_name m) exports h (module_memory_index m) (module_table_index m)
    (module_union m)).

(** [host_import_module] and its [import_delegate]. *)
Definition host_delegate : IM (Z * HostImportDelegate) :=
  c <- se_get ;;
  i <- se_lift (host_import_module c) ;;
  m <- get_module i ;;
  match module_union m with
  | HostModule d => se_ret (i, d)
  | DefinedModule _ _ _ _ => se_undef
  end.

(** [CHECK_RESULT] of a delegate. *)
Definition check_delegate {A} (r : WasmResult * A) : IM A :=
  if WASM_SUCCEEDED (fst r) then se_ret (snd r) else se_error.

(** The name of a host function, as the interpreter keeps it. *)
Definition slice_string (s : WasmStringSlice) : string := default ""%string s.

Definition with_import_union (i : WasmInterpreterImport) (u : ImportUnion) : WasmInterpreterImport :=
  mkImport (import_module_name i) (import_field_name i) (import_kind i) u.

Definition add_func_index (func_index : Z) : IM unit :=
  c <- se_get ;;
  se_modify (set_mappings (sig_index_mapping c) (func_index_mapping c ++ [func_index])
               (global_index_mapping c)) ;;
  se_modify (set_num_imports (u32 (num_func_imports c + 1)) (num_global_imports c)).

Definition on_import_func (index sig_index : Z) : IM unit :=
  import <- get_import index ;;
  e <- get_env ;;
  se_assert (sig_index <? size_of (env_sigs e)) ;;
  import_sig <- translate_sig_index_to_env sig_index ;;
  let import := with_import_union import (IMPORT_FUNC import_sig) in
  put_import index import ;;
  c <- se_get ;;
  func_index <-
    (if is_host_import c then
       d <- host_delegate ;;
       sig <- get_signature_by_env_index import_sig ;;
       callback <- check_delegate (import_func (snd d) import sig) ;;
       callback <- se_lift callback ;;
       modify_env (fun e => with_funcs e (env_funcs e ++
         [mkFunc import_sig (HostFunc (slice_string (import_module_name import))
                                      (slice_string (import_field_name import)) callback)])) ;;
       e <- get_env ;;
       let func_index := size_of (env_funcs e) - 1 in
       append_export (fst d) WASM_EXTERNAL_KIND_FUNC func_index (import_field_name import) ;;
       se_ret func_index
     else
       check_import_kind import WASM_EXTERNAL_KIND_FUNC ;;
       func <- get_func_by_env_index (import_index c) ;;
       same <- se_lift (wasm_func_signatures_are_equal (signatures_env e) import_sig (func_sig_index func)) ;;
       se_error_if (negb same) ;;
       se_ret (import_index c)) ;;
  add_func_index func_index.

Definition init_table_func_indexes (limits : WasmLimits) : list Z :=
  replicate (Z.to_nat (lim_initial limits)) WASM_INVALID_INDEX.

Definition set_indexes (m : WasmInterpreterModule) (memory_index table_index : Z) : WasmInterpreterModule :=
  mkModule (module_name m) (module_exports m) (module_export_bindings m) memory_index table_index
    (module_union m).
Definition set_table_index (i : Z) : IM unit :=
  m <- this_module ;; set_this_module (set_indexes m (module_memory_index m) i).
Definition set_memory_index (i : Z) : IM unit :=
  m <- this_module ;; set_this_module (set_indexes m i (module_table_index m)).

(** "only one table allowed", "only one memory allowed" *)
Definition check_no_table : IM unit :=
  m <- this_module ;; se_error_if (negb (module_table_index m =? WASM_INVALID_INDEX)).
Definition check_no_memory : IM unit :=
  m <- this_module ;; se_error_if (negb (module_memory_index m =? WASM_INVALID_INDEX)).

(** A failing delegate leaves the object it was given in the environment, where
    the reset that follows removes it. *)
Definition on_import_table (index : Z) (elem_limits : WasmLimits) : IM unit :=
  check_no_table ;;
  import <- get_import index ;;
  c <- se_get ;;
  if is_host_import c then
    d <- host_delegate ;;
    table <- check_delegate (import_table (snd d) import
               (mkTable elem_limits (init_table_func_indexes elem_limits))) ;;
    modify_env (fun e => with_tables e (env_tables e ++ [table])) ;;
    check_import_limits elem_limits (tbl_limits table) ;;
    e <- get_env ;;
    let table_index := size_of (env_tables e) - 1 in
    set_table_index table_index ;;
    append_export (fst d) WASM_EXTERNAL_KIND_TABLE table_index (import_field_name import)
  else
    check_import_kind import WASM_EXTERNAL_KIND_TABLE ;;
    e <- get_env ;;
    table <- se_lift (zget (env_tables e) (import_index c)) ;;
    check_import_limits elem_limits (tbl_limits table) ;;
    put_import index (with_import_union import (IMPORT_LIMITS elem_limits)) ;;
    set_table_index (import_index c).

Definition on_import_memory (index : Z) (page_limits : WasmLimits) : IM unit :=
  check_no_memory ;;
  import <- get_import index ;;
  c <- se_get ;;
  if is_host_import c then
    d <- host_delegate ;;
    memory <- check_delegate (import_memory (snd d) import) ;;
    memory <- se_lift memory ;;
    modify_env (fun e => with_env_memories e (env_memories e ++ [memory])) ;;
    check_import_limits page_limits (mem_page_limits memory) ;;
    e <- get_env ;;
    let memory_index := size_of (env_memories e) - 1 in
    set_memory_index memory_index ;;
    append_export (fst d) WASM_EXTERNAL_KIND_MEMORY memory_index (import_field_name import)
  else
    check_import_kind import WASM_EXTERNAL_KIND_MEMORY ;;
    e <- get_env ;;
    memory <- se_lift (zget (env_memories e) (import_index c)) ;;
    check_import_limits page_limits (mem_page_limits memory) ;;
    put_import index (with_import_union import (IMPORT_LIMITS page_limits)) ;;
    set_memory_index (import_index c).

Definition add_global_index (global_index : Z) : IM unit :=
  c <- se_get ;;
  se_modify (set_mappings (sig_index_mapping c) (func_index_mapping c)
               (global_index_mapping c ++ [global_index])) ;;
  se_modify (set_num_imports (num_func_imports c) (u32 (num_global_imports c + 1))).

Definition on_import_global (index : Z) (type : WasmType) (mutable_ : bool) : IM unit :=
  import <- get_import index ;;
  c <- se_get ;;
  global_index <-
    (if is_host_import c then
       d <- host_delegate ;;
       global <- check_delegate (import_global (snd d) import (mkGlobal (mkTypedValue type 0) mutable_ 0)) ;;
       modify_env (fun e => with_env_globals e (env_globals e ++ [global])) ;;
       e <- get_env ;;
       let global_index := size_of (env_globals e) - 1 in
       append_export (fst d) WASM_EXTERNAL_KIND_GLOBAL global_index (import_field_name import) ;;
       se_ret global_index
     else
       check_import_kind import WASM_EXTERNAL_KIND_GLOBAL ;;
       put_import index (with_import_union import (IMPORT_GLOBAL type mutable_)) ;;
       se_ret (import_index c)) ;;
  add_global_index global_index.

Definition on_function_signatures_count (count : Z) : IM unit :=
  c <- se_get ;; e <- get_env ;;
  let mapping := func_index_mapping c ++ replicate (Z.to_nat count) 0 in
  m <- se_lift (fill_mapping (Z.to_nat count) mapping (num_func_imports c) (size_of (env_funcs e))) ;;
  se_modify (set_mappings (sig_index_mapping c) m (global_index_mapping c)) ;;
  set_env (with_funcs e (env_funcs e ++ replicate (Z.to_nat count) zero_func)) ;;
  modify_code (fun k => put_fixups FUNC_FIXUPS (resize (Z.to_nat count) [] (func_fixups k)) k).

Definition on_function_signature (index sig_index : Z) : IM unit :=
  i <- translate_defined_func_index_to_env index ;;
  func <- get_func_by_env_index i ;;
  match func_body func with
  | DefinedFunc _ n m types =>
      env_sig_index <- translate_sig_index_to_env sig_index ;;
      set_func i (mkFunc env_sig_index (DefinedFunc WASM_INVALID_OFFSET n m types))
  | HostFunc _ _ _ => se_undef
  end.

Definition on_table (elem_limits : WasmLimits) : IM unit :=
  check_no_table ;;
  modify_env (fun e => with_tables e (env_tables e ++
    [mkTable elem_limits (init_table_func_indexes elem_limits)])) ;;
  e <- get_env ;; set_table_index (size_of (env_tables e) - 1).

(** [byte_size] has 32 bits. *)
Definition on_memory (page_limits : WasmLimits) : IM unit :=
  check_no_memory ;;
  let byte_size := u32 (u64 (lim_initial page_limits * WASM_PAGE_SIZE)) in
  modify_env (fun e => with_env_memories e (env_memories e ++
    [mkMemory (replicate (Z.to_nat byte_size) 0) page_limits byte_size])) ;;
  e <- get_env ;; set_memory_index (size_of (env_memories e) - 1).

Definition on_global_count (count : Z) : IM unit :=
  c <- se_get ;; e <- get_env ;;
  let mapping := global_index_mapping c ++ replicate (Z.to_nat count) 0 in
  m <- se_lift (fill_mapping (Z.to_nat count) mapping (num_global_imports c) (size_of (env_globals e))) ;;
  se_modify (set_mappings (sig_index_mapping c) (func_index_mapping c) m) ;;
  set_env (with_env_globals e (env_globals e ++ replicate (Z.to_nat count) zero_global)).

Definition begin_global (index : Z) (type : WasmType) (mutable_ : bool) : IM unit :=
  i <- translate_defined_global_index_to_env index ;;
  global <- get_global_by_env_index i ;;
  set_global i (mkGlobal (mkTypedValue type (tv_value (gl_typed_value global))) mutable_
    (gl_import_index global)).

Definition end_global_init_expr (index : Z) : IM unit :=
  i <- translate_defined_global_index_to_env index ;;
  global <- get_global_by_env_index i ;;
  c <- se_get ;;
  set_global i (mkGlobal (init_expr_value c) (gl_mutable global) (gl_import_index global)).

(** Assigning the 32-bit members leaves the upper half of the union. *)
Definition set_init_expr (type : WasmType) (t : ValType) (value : Z) : IM unit :=
  c <- se_get ;;
  se_modify (set_init_expr_value
    (mkTypedValue type (set_field t (tv_value (init_expr_value c)) value))).

Definition on_init_expr_f32_const_expr (value_bits : Z) : IM unit :=
  set_init_expr WASM_TYPE_F32 F32 value_bits.
Definition on_init_expr_f64_const_expr (value_bits : Z) : IM unit :=
  set_init_expr WASM_TYPE_F64 F64 value_bits.
Definition on_init_expr_get_global_expr (global_index : Z) : IM unit :=
  ref_global <- get_global_by_module_index global_index ;;
  se_modify (set_init_expr_value (gl_typed_value ref_global)).
Definition on_init_expr_i32_const_expr (value : Z) : IM unit := set_init_expr WASM_TYPE_I32 I32 value.
Definition on_init_expr_i64_const_expr (value : Z) : IM unit := set_init_expr WASM_TYPE_I64 I64 value.

Definition on_export (kind : WasmExternalKind) (item_index : Z) (name : bytes) : IM unit :=
  item_index <-
    match kind with
    | WASM_EXTERNAL_KIND_FUNC => translate_func_index_to_env item_index
    | WASM_EXTERNAL_KIND_TABLE => m <- this_module ;; se_ret (module_table_index m)
    | WASM_EXTERNAL_KIND_MEMORY => m <- this_module ;; se_ret (module_memory_index m)
    | WASM_EXTERNAL_KIND_GLOBAL => translate_global_index_to_env item_index
    end ;;
  name <- se_lift (wasm_dup_string_slice name) ;;
  c <- se_get ;;
  append_export (ctx_module c) kind item_index name.

Definition on_start_function (func_index : Z) : IM unit :=
  i <- translate_func_index_to_env func_index ;;
  d <- defined_module ;;
  let '(m, (imports, _, istream_start, istream_end)) := d in
  set_this_module (set_union m (DefinedModule imports i istream_start istream_end)).

(** [init_expr_value.value.i32], after the assertion on its type. *)
Definition init_expr_i32 : IM Z :=
  c <- se_get ;;
  se_assert (bool_decide (tv_type (init_expr_value c) = WASM_TYPE_I32)) ;;
  se_ret (get_field I32 (tv_value (init_expr_value c))).

Definition end_elem_segment_init_expr : IM unit :=
  offset <- init_expr_i32 ;; se_modify (set_table_offset offset).

Definition on_elem_segment_function_index (func_index : Z) : IM unit :=
  m <- this_module ;;
  let i := module_table_index m in
  se_assert (negb (i =? WASM_INVALID_INDEX)) ;;
  e <- get_env ;;
  table <- se_lift (zget (env_tables e) i) ;;
  c <- se_get ;;
  se_error_if (size_of (tbl_func_indexes table) <=? table_offset c) ;;
  env_func_index <- translate_func_index_to_env func_index ;;
  indexes <- se_lift (zset (tbl_func_indexes table) (table_offset c) env_func_index) ;;
  ts <- se_lift (zset (env_tables e) i (mkTable (tbl_limits table) indexes)) ;;
  set_env (with_tables e ts) ;;
  se_modify (set_table_offset (u32 (table_offset c + 1))).

(** Copying no bytes does nothing, wherever they would go. *)
Definition on_data_segment_data (src_data : bytes) : IM unit :=
  m <- this_module ;;
  let i := module_memory_index m in
  se_assert (negb (i =? WASM_INVALID_INDEX)) ;;
  e <- get_env ;;
  memory <- se_lift (zget (env_memories e) i) ;;
  address <- init_expr_i32 ;;
  let size := size_of src_data in
  let end_address := u64 (address + size) in
  se_error_if ((0 <? size) && (mem_byte_size memory <? end_address)) ;;
  if size =? 0 then se_ret tt
  else
    data <- se_lift (zblit (mem_data memory) address src_data) ;;
    ms <- se_lift (zset (env_memories e) i
            (mkMemory data (mem_page_limits memory) (mem_byte_size memory))) ;;
    set_env (with_env_memories e ms).

(** ** The type stack *)

Definition translate_depth (depth : Z) : IM Z :=
  k <- get_code ;;
  se_assert (depth <? size_of (label_stack k)) ;;
  se_ret (size_of (label_stack k) - 1 - depth).

Definition push_label (type : LabelType) (sig : list WasmType) (offset fixup_offset : Z) : IM unit :=
  modify_code (fun k => set_label_stack
    (mkLabel type sig (u32 (size_of (type_stack k))) offset fixup_offset :: label_stack k) k).

(** The vectors of [depth_fixups] past the labels that are left are freed. *)
Definition pop_label : IM unit :=
  top_label ;;
  modify_code (fun k =>
    let ls := tail (label_stack k) in
    put_fixups DEPTH_FIXUPS (take (length ls) (depth_fixups k)) (set_label_stack ls k)).

Definition top_type : IM WasmType :=
  label <- top_label ;;
  k <- get_code ;;
  se_assert (type_stack_limit_of label <? size_of (type_stack k)) ;;
  se_lift (head (type_stack k)).

Definition top_type_is_any : IM bool :=
  types <- current_func_types ;;
  k <- get_code ;;
  if size_of types <? size_of (type_stack k)
  then top_type <- se_lift (head (type_stack k)) ;; se_ret (bool_decide (top_type = WASM_TYPE_ANY))
  else se_ret false.

(** [RETURN_IF_TOP_TYPE_IS_ANY], [RETURN_OK_IF_TOP_TYPE_IS_ANY] *)
Definition unless_top_type_is_any (m : IM unit) : IM unit :=
  any <- top_type_is_any ;; if any then se_ret tt else m.

Definition type_stack_limit : IM Z := label <- top_label ;; se_ret (type_stack_limit_of label).

(** The types available above the limit. *)
Definition avail : IM Z :=
  limit <- type_stack_limit ;; size <- type_stack_size ;; se_ret (u64 (size - limit)).

Definition check_type_stack_limit (expected : Z) : IM unit :=
  unless_top_type_is_any (a <- avail ;; se_error_if (a <? expected)).

Definition check_type_stack_limit_exact (expected : Z) : IM unit :=
  unless_top_type_is_any (a <- avail ;; se_error_if (negb (a =? expected))).

(** A stack smaller than the limit would grow over freed entries. *)
Definition set_type_stack_size (size : Z) : IM unit :=
  k <- get_code ;;
  se_assert (size <=? size_of (type_stack k)) ;;
  modify_code (set_type_stack (drop (length (type_stack k) - Z.to_nat size) (type_stack k))).

Definition reset_type_stack_to_limit : IM unit :=
  limit <- type_stack_limit ;; set_type_stack_size limit.

Definition check_type (expected actual : WasmType) : IM unit :=
  unless_top_type_is_any (se_error_if (negb (bool_decide (expected = actual)))).

(** [type_stack.data[size - n + i]] is entry [n - 1 - i] from the top. *)
Definition check_n_types (expected : list WasmType) : IM unit :=
  unless_top_type_is_any (
    check_type_stack_limit (size_of expected) ;;
    k <- get_code ;;
    se_for (fun i =>
      actual <- se_lift (type_stack k !! (length expected - 1 - i)%nat) ;;
      expected <- se_lift (expected !! (length expected - i - 1)%nat) ;;
      check_type expected actual) (seq 0 (length expected))).

Definition pop_type : IM WasmType :=
  type <- top_type ;;
  (if bool_decide (type = WASM_TYPE_ANY) then se_ret tt
   else modify_code (fun k => set_type_stack (tail (type_stack k)) k)) ;;
  se_ret type.

(** [wasm_append_type_value(&type_stack)] *)
Definition append_type (type : WasmType) : IM unit :=
  modify_code (fun k => set_type_stack (type :: type_stack k) k).

Definition push_type (type : WasmType) : IM unit :=
  unless_top_type_is_any
    (if bool_decide (type = WASM_TYPE_VOID) then se_ret tt else append_type type).

Definition push_types (types : list WasmType) : IM unit :=
  unless_top_type_is_any (se_for push_type types).

Definition pop_and_check_1_type (expected : WasmType) : IM unit :=
  unless_top_type_is_any (
    check_type_stack_limit 1 ;;
    actual <- pop_type ;; check_type expected actual).

Definition pop_and_check_2_types (expected1 expected2 : WasmType) : IM unit :=
  unless_top_type_is_any (
    check_type_stack_limit 2 ;;
    actual2 <- pop_type ;;
    actual1 <- pop_type ;;
    check_type expected1 actual1 ;;
    check_type expected2 actual2).

Definition check_opcode1 (opcode : WasmOpcode) : IM unit :=
  unless_top_type_is_any (
    pop_and_check_1_type (wasm_get_opcode_param_type_1 opcode) ;;
    push_type (wasm_get_opcode_result_type opcode)).

Definition check_opcode2 (opcode : WasmOpcode) : IM unit :=
  unless_top_type_is_any (
    pop_and_check_2_types (wasm_get_opcode_param_type_1 opcode) (wasm_get_opcode_param_type_2 opcode) ;;
    push_type (wasm_get_opcode_result_type opcode)).

Definition drop_types_for_return (arity : Z) : IM unit :=
  unless_top_type_is_any (
    size <- type_stack_size ;;
    if arity <=? size then emit_drop_keep (u32 (size - arity)) arity
    else se_assert (size =? 0)).

(** ** Function bodies *)

Definition append_local_type (type : WasmType) : IM unit :=
  k <- get_code ;; i <- se_lift (current_func k) ;; func <- get_func_by_env_index i ;;
  match func_body func with
  | DefinedFunc o n m types => set_func i (mkFunc (func_sig_index func) (DefinedFunc o n m (types ++ [type])))
  | HostFunc _ _ _ => se_undef
  end.

Definition begin_function_body (index : Z) : IM unit :=
  i <- translate_defined_func_index_to_env index ;;
  func <- get_func_by_env_index i ;;
  sig <- get_signature_by_env_index (func_sig_index func) ;;
  offset <- get_istream_offset ;;
  match func_body func with
  | DefinedFunc _ _ _ types =>
      set_func i (mkFunc (func_sig_index func) (DefinedFunc offset 0 0 types)) ;;
      modify_code (fun k => mkCode (Some i) [] [] (func_fixups k) [] (istream_writer k) (istream_offset k)) ;;
      k <- get_code ;;
      fixups <- se_lift (zget (func_fixups k) index) ;;
      se_for (fun at_ => emit_i32_at at_ offset) fixups ;;
      se_for (fun type => append_local_type type ;; append_type type) (param_types sig) ;;
      push_label LABEL_TYPE_FUNC (result_types sig) WASM_INVALID_OFFSET WASM_INVALID_OFFSET
  | HostFunc _ _ _ => se_undef
  end.

Definition end_function_body : IM unit :=
  label <- top_label ;;
  if bool_decide (label_type label = LABEL_TYPE_FUNC) then
    check_n_types (label_sig label) ;;
    check_type_stack_limit_exact (size_of (label_sig label)) ;;
    offset <- get_istream_offset ;;
    fixup_top_label offset ;;
    any <- top_type_is_any ;;
    (if any then reset_type_stack_to_limit ;; push_types (label_sig label) else se_ret tt) ;;
    drop_types_for_return (size_of (label_sig label)) ;;
    emit_opcode (WasmOp WASM_OPCODE_RETURN) ;;
    pop_label ;;
    modify_code (fun k => set_type_stack [] (set_current_func None k))
  else se_error.

(** The declaration counts of the current function. *)
Definition set_local_counts (decl_count count : Z -> Z) : IM (Z * Z) :=
  k <- get_code ;; i <- se_lift (current_func k) ;; func <- get_func_by_env_index i ;;
  match func_body func with
  | DefinedFunc o n m types =>
      set_func i (mkFunc (func_sig_index func) (DefinedFunc o (decl_count n) (count m) types)) ;;
      se_ret (decl_count n, count m)
  | HostFunc _ _ _ => se_undef
  end.

Definition on_local_decl_count (count : Z) : IM unit :=
  set_local_counts (fun _ => count) (fun n => n) ;; se_ret tt.

Definition on_local_decl (decl_index count : Z) (type : WasmType) : IM unit :=
  counts <- set_local_counts (fun n => n) (fun n => u32 (n + count)) ;;
  let '(local_decl_count, local_count) := counts in
  se_for (fun _ => append_local_type type ;; push_type type) (replicate (Z.to_nat count) tt) ;;
  if decl_index =? u32 (local_decl_count - 1) then
    emit_opcode WASM_OPCODE_ALLOCA ;;
    emit_i32 local_count ;;
    label <- top_label ;;
    se_assert (bool_decide (label_type label = LABEL_TYPE_FUNC)) ;;
    set_top_label (mkLabel (label_type label) (label_sig label)
      (u32 (type_stack_limit_of label + local_count)) (label_offset label) (fixup_offset label))
  else se_ret tt.

Definition on_unary_expr (opcode : WasmOpcode) : IM unit :=
  check_opcode1 opcode ;; emit_opcode (WasmOp opcode).

Definition on_binary_expr (opcode : WasmOpcode) : IM unit :=
  check_opcode2 opcode ;; emit_opcode (WasmOp opcode).

Definition on_block_expr (sig : list WasmType) : IM unit :=
  push_label LABEL_TYPE_BLOCK sig WASM_INVALID_OFFSET WASM_INVALID_OFFSET.

Definition on_loop_expr (sig : list WasmType) : IM unit :=
  offset <- get_istream_offset ;; push_label LABEL_TYPE_LOOP sig offset WASM_INVALID_OFFSET.

Definition on_if_expr (sig : list WasmType) : IM unit :=
  check_type_stack_limit 1 ;;
  pop_and_check_1_type WASM_TYPE_I32 ;;
  emit_opcode WASM_OPCODE_BR_UNLESS ;;
  fixup_offset <- get_istream_offset ;;
  emit_i32 WASM_INVALID_OFFSET ;;
  push_label LABEL_TYPE_IF sig WASM_INVALID_OFFSET fixup_offset.

Definition on_else_expr : IM unit :=
  label <- top_label ;;
  if bool_decide (label_type label = LABEL_TYPE_IF) then
    check_n_types (label_sig label) ;;
    emit_opcode (WasmOp WASM_OPCODE_BR) ;;
    new_fixup_offset <- get_istream_offset ;;
    set_top_label (mkLabel LABEL_TYPE_ELSE (label_sig label) (type_stack_limit_of label)
      (label_offset label) new_fixup_offset) ;;
    emit_i32 WASM_INVALID_OFFSET ;;
    offset <- get_istream_offset ;;
    emit_i32_at (fixup_offset label) offset ;;
    set_type_stack_size (type_stack_limit_of label)
  else se_error.

Definition on_end_expr : IM unit :=
  label <- top_label ;;
  offset <- get_istream_offset ;;
  match label_type label with
  | LABEL_TYPE_IF | LABEL_TYPE_ELSE => emit_i32_at (fixup_offset label) offset
  | LABEL_TYPE_BLOCK | LABEL_TYPE_LOOP => se_ret tt
  | LABEL_TYPE_FUNC => se_error
  end ;;
  check_n_types (label_sig label) ;;
  check_type_stack_limit_exact (size_of (label_sig label)) ;;
  fixup_top_label offset ;;
  reset_type_stack_to_limit ;;
  push_types (label_sig label) ;;
  pop_label.

(** [reset_type_stack_to_limit(ctx); push_type(ctx, WASM_TYPE_ANY);] *)
Definition make_unreachable : IM unit :=
  reset_type_stack_to_limit ;; push_type WASM_TYPE_ANY.

Definition CHECK_DEPTH (depth : Z) : IM unit :=
  k <- get_code ;; se_error_if (size_of (label_stack k) <=? depth).

Definition CHECK_LOCAL (local_index : Z) : IM unit :=
  types <- current_func_types ;; se_error_if (size_of types <=? local_index).

Definition CHECK_GLOBAL (global_index : Z) : IM unit :=
  c <- se_get ;; se_error_if (size_of (global_index_mapping c) <=? global_index).

Definition on_br_expr (depth : Z) : IM unit :=
  CHECK_DEPTH depth ;;
  depth <- translate_depth depth ;;
  label <- get_label depth ;;
  (if bool_decide (label_type label = LABEL_TYPE_LOOP) then se_ret tt
   else check_n_types (label_sig label)) ;;
  emit_br depth ;;
  make_unreachable.

Definition on_br_if_expr (depth : Z) : IM unit :=
  CHECK_DEPTH depth ;;
  depth <- translate_depth depth ;;
  pop_and_check_1_type WASM_TYPE_I32 ;;
  emit_opcode WASM_OPCODE_BR_UNLESS ;;
  fixup_br_offset <- get_istream_offset ;;
  emit_i32 WASM_INVALID_OFFSET ;;
  emit_br depth ;;
  offset <- get_istream_offset ;;
  emit_i32_at fixup_br_offset offset.

Definition on_br_table_expr (target_depths : list Z) (default_target_depth : Z) : IM unit :=
  let num_targets := size_of target_depths in
  pop_and_check_1_type WASM_TYPE_I32 ;;
  emit_opcode (WasmOp WASM_OPCODE_BR_TABLE) ;;
  emit_i32 num_targets ;;
  fixup_table_offset <- get_istream_offset ;;
  emit_i32 WASM_INVALID_OFFSET ;;
  emit_opcode WASM_OPCODE_DATA ;;
  emit_i32 (u32 ((num_targets + 1) * WASM_TABLE_ENTRY_SIZE)) ;;
  offset <- get_istream_offset ;;
  emit_i32_at fixup_table_offset offset ;;
  se_for (fun depth =>
    depth <- translate_depth depth ;;
    label <- get_label depth ;;
    check_n_types (label_sig label) ;;
    emit_br_table_offset depth) (target_depths ++ [default_target_depth]) ;;
  make_unreachable.

(** [for (i = n; i > 0; --i) CHECK_RESULT(check_type(ctx, types[i - 1], pop_type(ctx)));] *)
Definition pop_params (types : list WasmType) : IM unit :=
  se_for (fun type => arg <- pop_type ;; check_type type arg) (rev types).

Definition on_call_expr (func_index : Z) : IM unit :=
  env_func_index <- translate_func_index_to_env func_index ;;
  func <- get_func_by_env_index env_func_index ;;
  sig <- get_signature_by_env_index (func_sig_index func) ;;
  check_type_stack_limit (size_of (param_types sig)) ;;
  pop_params (param_types sig) ;;
  match func_body func with
  | HostFunc _ _ _ => emit_opcode WASM_OPCODE_CALL_HOST ;; emit_i32 env_func_index
  | DefinedFunc offset _ _ _ =>
      emit_opcode (WasmOp WASM_OPCODE_CALL) ;; emit_func_offset offset func_index
  end ;;
  push_types (result_types sig).

Definition on_call_indirect_expr (sig_index : Z) : IM unit :=
  env_sig_index <- translate_sig_index_to_env sig_index ;;
  sig <- get_signature_by_env_index env_sig_index ;;
  pop_and_check_1_type WASM_TYPE_I32 ;;
  check_type_stack_limit (size_of (param_types sig)) ;;
  pop_params (param_types sig) ;;
  emit_opcode (WasmOp WASM_OPCODE_CALL_INDIRECT) ;;
  m <- this_module ;;
  emit_i32 (module_table_index m) ;;
  emit_i32 env_sig_index ;;
  push_types (result_types sig).

Definition on_drop_expr : IM unit :=
  check_type_stack_limit 1 ;; emit_opcode (WasmOp WASM_OPCODE_DROP) ;; pop_type ;; se_ret tt.

(** The constants: opcode, operand, type. *)
Definition on_i32_const_expr (value : Z) : IM unit :=
  emit_opcode (WasmOp WASM_OPCODE_I32_CONST) ;; emit_i32 value ;; push_type WASM_TYPE_I32.
Definition on_i64_const_expr (value : Z) : IM unit :=
  emit_opcode (WasmOp WASM_OPCODE_I64_CONST) ;; emit_i64 value ;; push_type WASM_TYPE_I64.
Definition on_f32_const_expr (value_bits : Z) : IM unit :=
  emit_opcode (WasmOp WASM_OPCODE_F32_CONST) ;; emit_i32 value_bits ;; push_type WASM_TYPE_F32.
Definition on_f64_const_expr (value_bits : Z) : IM unit :=
  emit_opcode (WasmOp WASM_OPCODE_F64_CONST) ;; emit_i64 value_bits ;; push_type WASM_TYPE_F64.

Definition on_get_global_expr (global_index : Z) : IM unit :=
  CHECK_GLOBAL global_index ;;
  type <- get_global_type_by_module_index global_index ;;
  emit_opcode (WasmOp WASM_OPCODE_GET_GLOBAL) ;;
  i <- translate_global_index_to_env global_index ;; emit_i32 i ;;
  push_type type.

Definition on_set_global_expr (global_index : Z) : IM unit :=
  CHECK_GLOBAL global_index ;;
  global <- get_global_by_module_index global_index ;;
  se_error_if (negb (gl_mutable global)) ;;
  pop_and_check_1_type (tv_type (gl_typed_value global)) ;;
  emit_opcode (WasmOp WASM_OPCODE_SET_GLOBAL) ;;
  i <- translate_global_index_to_env global_index ;; emit_i32 i.

Definition on_get_local_expr (local_index : Z) : IM unit :=
  CHECK_LOCAL local_index ;;
  type <- get_local_type_by_index local_index ;;
  emit_opcode (WasmOp WASM_OPCODE_GET_LOCAL) ;;
  i <- translate_local_index local_index ;; emit_i32 i ;;
  push_type type.

Definition on_set_local_expr (local_index : Z) : IM unit :=
  CHECK_LOCAL local_index ;;
  type <- get_local_type_by_index local_index ;;
  pop_and_check_1_type type ;;
  emit_opcode (WasmOp WASM_OPCODE_SET_LOCAL) ;;
  i <- translate_local_index local_index ;; emit_i32 i.

Definition on_tee_local_expr (local_index : Z) : IM unit :=
  CHECK_LOCAL local_index ;;
  type <- get_local_type_by_index local_index ;;
  check_type_stack_limit 1 ;;
  value <- top_type ;;
  check_type type value ;;
  emit_opcode (WasmOp WASM_OPCODE_TEE_LOCAL) ;;
  i <- translate_local_index local_index ;; emit_i32 i.

Definition on_grow_memory_expr : IM unit :=
  pop_and_check_1_type WASM_TYPE_I32 ;;
  emit_opcode (WasmOp WASM_OPCODE_GROW_MEMORY) ;;
  m <- this_module ;; emit_i32 (module_memory_index m) ;;
  push_type WASM_TYPE_I32.

Definition on_load_expr (opcode : WasmOpcode) (alignment_log2 offset : Z) : IM unit :=
  check_opcode1 opcode ;;
  emit_opcode (WasmOp opcode) ;;
  m <- this_module ;; emit_i32 (module_memory_index m) ;;
  emit_i32 offset.

Definition on_store_expr (opcode : WasmOpcode) (alignment_log2 offset : Z) : IM unit :=
  check_opcode2 opcode ;;
  emit_opcode (WasmOp opcode) ;;
  m <- this_module ;; emit_i32 (module_memory_index m) ;;
  emit_i32 offset.

Definition on_current_memory_expr : IM unit :=
  emit_opcode (WasmOp WASM_OPCODE_CURRENT_MEMORY) ;;
  m <- this_module ;; emit_i32 (module_memory_index m) ;;
  push_type WASM_TYPE_I32.

Definition on_nop_expr : IM unit := se_ret tt.

Definition on_return_expr : IM unit :=
  k <- get_code ;; i <- se_lift (current_func k) ;; func <- get_func_by_env_index i ;;
  sig <- get_signature_by_env_index (func_sig_index func) ;;
  check_n_types (result_types sig) ;;
  drop_types_for_return (size_of (result_types sig)) ;;
  emit_opcode (WasmOp WASM_OPCODE_RETURN) ;;
  make_unreachable.

Definition on_select_expr : IM unit :=
  pop_and_check_1_type WASM_TYPE_I32 ;;
  check_type_stack_limit 2 ;;
  right <- pop_type ;;
  left <- pop_type ;;
  check_type left right ;;
  emit_opcode (WasmOp WASM_OPCODE_SELECT) ;;
  push_type left.

Definition on_unreachable_expr : IM unit :=
  emit_opcode (WasmOp WASM_OPCODE_UNREACHABLE) ;; make_unreachable.

(** ** The reader *)

(** [s_binary_reader]; a member that is left out is [NULL] and succeeds. *)
Definition s_binary_reader (cb : Callback) : IM unit :=
  match cb with
  | CB_on_signature_count count => on_signature_count count
  | CB_on_signature index param_types result_types => on_signature index param_types result_types
  | CB_on_import_count count => on_import_count count
  | CB_on_import index module_name field_name => on_import index module_name field_name
  | CB_on_import_func index sig_index => on_import_func index sig_index
  | CB_on_import_table index _ elem_limits => on_import_table index elem_limits
  | CB_on_import_memory index page_limits => on_import_memory index page_limits
  | CB_on_import_global index type mutable_ => on_import_global index type mutable_
  | CB_on_function_signatures_count count => on_function_signatures_count count
  | CB_on_function_signature index sig_index => on_function_signature index sig_index
  | CB_on_table _ _ elem_limits => on_table elem_limits
  | CB_on_memory _ page_limits => on_memory page_limits
  | CB_on_global_count count => on_global_count count
  | CB_begin_global index type mutable_ => begin_global index type mutable_
  | CB_end_global_init_expr index => end_global_init_expr index
  | CB_on_export _ kind item_index name => on_export kind item_index name
  | CB_on_start_function func_index => on_start_function func_index
  | CB_begin_function_body index => begin_function_body index
  | CB_on_local_decl_count count => on_local_decl_count count
  | CB_on_local_decl decl_index count type => on_local_decl decl_index count type
  | CB_on_binary_expr opcode => on_binary_expr opcode
  | CB_on_block_expr sig => on_block_expr sig
  | CB_on_br_expr depth => on_br_expr depth
  | CB_on_br_if_expr depth => on_br_if_expr depth
  | CB_on_br_table_expr target_depths default_target_depth =>
      on_br_table_expr target_depths default_target_depth
  | CB_on_call_expr func_index => on_call_expr func_index
  | CB_on_call_indirect_expr sig_index => on_call_indirect_expr sig_index
  | CB_on_compare_expr opcode => on_binary_expr opcode
  | CB_on_convert_expr opcode => on_unary_expr opcode
  | CB_on_current_memory_expr => on_current_memory_expr
  | CB_on_drop_expr => on_drop_expr
  | CB_on_else_expr => on_else_expr
  | CB_on_end_expr => on_end_expr
  | CB_on_f32_const_expr value_bits => on_f32_const_expr value_bits
  | CB_on_f64_const_expr value_bits => on_f64_const_expr value_bits
  | CB_on_get_global_expr global_index => on_get_global_expr global_index
  | CB_on_get_local_expr local_index => on_get_local_expr local_index
  | CB_on_grow_memory_expr => on_grow_memory_expr
  | CB_on_i32_const_expr value => on_i32_const_expr value
  | CB_on_i64_const_expr value => on_i64_const_expr value
  | CB_on_if_expr sig => on_if_expr sig
  | CB_on_load_expr opcode alignment_log2 offset => on_load_expr opcode alignment_log2 offset
  | CB_on_loop_expr sig => on_loop_expr sig
  | CB_on_nop_expr => on_nop_expr
  | CB_on_return_expr => on_return_expr
  | CB_on_select_expr => on_select_expr
  | CB_on_set_global_expr global_index => on_set_global_expr global_index
  | CB_on_set_local_expr local_index => on_set_local_expr local_index
  | CB_on_store_expr opcode alignment_log2 offset => on_store_expr opcode alignment_log2 offset
  | CB_on_tee_local_expr local_index => on_tee_local_expr local_index
  | CB_on_unary_expr opcode => on_unary_expr opcode
  | CB_on_unreachable_expr => on_unreachable_expr
  | CB_end_function_body _ => end_function_body
  | CB_end_elem_segment_init_expr _ => end_elem_segment_init_expr
  | CB_on_elem_segment_function_index _ func_index => on_elem_segment_function_index func_index
  | CB_on_data_segment_data _ data => on_data_segment_data data
  | CB_on_init_expr_f32_const_expr _ value => on_init_expr_f32_const_expr value
  | CB_on_init_expr_f64_const_expr _ value => on_init_expr_f64_const_expr value
  | CB_on_init_expr_get_global_expr _ global_index => on_init_expr_get_global_expr global_index
  | CB_on_init_expr_i32_const_expr _ value => on_init_expr_i32_const_expr value
  | CB_on_init_expr_i64_const_expr _ value => on_init_expr_i64_const_expr value
  | _ => se_ret tt
  end.

(** The table as callbacks of the reader; after undefined behaviour ([None])
    nothing is known. *)
Definition interpreter_handler (cb : Callback) (u : option Context) : WasmResult * option Context :=
  match u with
  | None => (WASM_ERROR, None)
  | Some c =>
      match se_result (s_binary_reader cb) c with
      | Some (r, c) => (r, Some c)
      | None => (WASM_ERROR, None)
      end
  end.

(** [on_error] prints. *)
Definition interpreter_reader : WasmBinaryReader (option Context) :=
  mkReader (fun _ => interpreter_handler) (fun _ _ u => u).

(** ** Environments (interpreter.c) *)

Definition INITIAL_ISTREAM_CAPACITY : Z := 64 * 1024.

Definition wasm_init_interpreter_environment : option WasmInterpreterEnvironment :=
  istream ← wasm_init_output_buffer INITIAL_ISTREAM_CAPACITY;
  Some (mkEnvironment [] [] [] [] [] [] istream empty_hash empty_hash).

Record WasmInterpreterEnvironmentMark : Type := mkMark {
  modules_size : nat; sigs_size : nat; funcs_size : nat; memories_size : nat; tables_size : nat;
  globals_size : nat; istream_size : Z
}.

Definition wasm_mark_interpreter_environment (e : WasmInterpreterEnvironment) :
    WasmInterpreterEnvironmentMark :=
  mkMark (length (env_modules e)) (length (env_sigs e)) (length (env_funcs e))
    (length (env_memories e)) (length (env_tables e)) (length (env_globals e))
    (buf_size (env_istream e)).

(** The names of the modules past the mark leave [module_bindings]. *)
Fixpoint remove_module_names (modules : list WasmInterpreterModule) (h : WasmBindingHash) :
    option WasmBindingHash :=
  match modules with
  | [] => Some h
  | m :: modules =>
      h ← match module_name m with
          | Some name => if String.eqb name "" then Some h else wasm_remove_binding h (Some name)
          | None => Some h
          end;
      remove_module_names modules h
  end.

(** Entry [i] and those after it: the entries of modules past the mark leave
    [registered_module_bindings]. *)
Fixpoint remove_registered (n i : nat) (modules_size : Z) (h : WasmBindingHash) : option WasmBindingHash :=
  match n with
  | O => Some h
  | S n =>
      entry ← vec_data (entries h) !! i;
      h ← (if negb (wasm_hash_entry_is_free entry) &&
              (modules_size <=? to_signed 32 (binding_index (entry_binding entry)))
           then wasm_remove_binding h (binding_name (entry_binding entry)) else Some h);
      remove_registered n (S i) modules_size h
  end.

(** [DESTROY_PAST_MARK] *)
Definition past_mark {A} (mark : nat) (l : list A) : option (list A) :=
  if (mark <=? length l)%nat then Some (take mark l) else None.

Definition wasm_reset_interpreter_environment_to_mark (e : WasmInterpreterEnvironment)
    (mark : WasmInterpreterEnvironmentMark) : option WasmInterpreterEnvironment :=
  module_bindings ← remove_module_names (drop (modules_size mark) (env_modules e)) (env_module_bindings e);
  registered ← remove_registered (hash_capacity (env_registered_module_bindings e)) 0
                 (Z.of_nat (modules_size mark)) (env_registered_module_bindings e);
  modules ← past_mark (modules_size mark) (env_modules e);
  sigs ← past_mark (sigs_size mark) (env_sigs e);
  funcs ← past_mark (funcs_size mark) (env_funcs e);
  memories ← past_mark (memories_size mark) (env_memories e);
  tables ← past_mark (tables_size mark) (env_tables e);
  Some (mkEnvironment modules sigs funcs memories tables
          (take (globals_size mark) (env_globals e))
          (mkOutputBuffer (buf_start (env_istream e)) (istream_size mark))
          module_bindings registered).

(** The module's index. *)
Definition wasm_append_host_module (e : WasmInterpreterEnvironment) (name : bytes)
    (delegate : HostImportDelegate) : option (WasmInterpreterEnvironment * Z) :=
  module_name ← wasm_dup_string_slice name;
  let index := Z.of_nat (length (env_modules e)) in
  h ← insert_binding_index uninit_entry (env_registered_module_bindings e) module_name index;
  Some (with_bindings (with_modules e (env_modules e ++
          [mkModule module_name [] empty_hash WASM_INVALID_INDEX WASM_INVALID_INDEX (HostModule delegate)]))
          (env_module_bindings e) h, index).

(** ** Loading a module *)

Definition empty_buffer : WasmOutputBuffer := mkOutputBuffer [] 0.

(** The context before the first callback: the writer owns the code. *)
Definition init_context (env : WasmInterpreterEnvironment) : Context :=
  let size := buf_size (env_istream env) in
  let module := mkModule None [] empty_hash WASM_INVALID_INDEX WASM_INVALID_INDEX
                  (DefinedModule [] WASM_INVALID_INDEX size 0) in
  mkContext (with_istream (with_modules env (env_modules env ++ [module])) empty_buffer)
    (Z.of_nat (length (env_modules env)))
    (mkCode None [] [] [] [] (env_istream env) (u32 size)) [] [] [] 0 0
    (mkTypedValue WASM_TYPE_ANY 0) 0 false None 0.

(** [istream_end], in the module's record. *)
Definition set_istream_end (i istream_end : Z) (e : WasmInterpreterEnvironment) :
    option WasmInterpreterEnvironment :=
  m ← zget (env_modules e) i;
  match module_union m with
  | DefinedModule imports start istream_start _ =>
      ms ← zset (env_modules e) i (set_union m (DefinedModule imports start istream_start istream_end));
      Some (with_modules e ms)
  | HostModule _ => None
  end.

(** The result, the environment and the index of the module, [None] for
    [NULL]. *)
Definition wasm_read_binary_interpreter (env : WasmInterpreterEnvironment) (data : bytes)
    (read_debug_names : bool) : option (WasmResult * WasmInterpreterEnvironment * option Z) :=
  let mark := wasm_mark_interpreter_environment env in
  '(result, u) ← wasm_read_binary interpreter_reader read_debug_names data (Some (init_context env));
  c ← u;
  let istream := istream_writer (ctx_code c) in
  if WASM_SUCCEEDED result then
    let size := istream_offset (ctx_code c) in
    env ← set_istream_end (ctx_module c) size
            (with_istream (ctx_env c) (mkOutputBuffer (buf_start istream) size));
    Some (WASM_OK, env, Some (ctx_module c))
  else
    env ← wasm_reset_interpreter_environment_to_mark (with_istream (ctx_env c) istream) mark;
    Some (WASM_ERROR, env, None).
End reader.
