(* ===== verification/ReaderFacts.v ===== *)
(** * The binary reader never gets stuck

    Whatever the bytes and whatever the callbacks do, a read ends, with OK or
    through an error, and never looks outside the data.  Every loop of the
    reader reads at least one byte a round; [total] carries that through the
    code, piece by piece. *)

From S2P Require Import Prelude Opcode Leb128 Ast BinaryWriter BinaryReader.

(** ** What the LEB128 decoders consume *)

Lemma last_at_length p i : Read.last_at p i = true -> (i < length p)%nat.
Proof. unfold Read.last_at. intros [H%Z.ltb_lt _]%andb_true_iff. lia. Qed.

Definition consumes (decode : bytes -> option (Z * Z)) : Prop :=
  forall p v n, decode p = Some (v, n) -> 0 <= v /\ 1 <= n <= Z.of_nat (length p).

Lemma LEB128_go_nonneg w p i : 0 <= w -> 0 <= Read.LEB128_go w p i.
Proof.
  intros. assert (forall j s, 0 <= Read.BYTE_AT w p j s) as HB.
  { intros. unfold Read.BYTE_AT. apply wrap_in_u. lia. }
  induction i; cbn [Read.LEB128_go]; [done|]. apply Z.lor_nonneg. auto.
Qed.

Lemma SIGN_EXTEND_nonneg w v s : 0 <= w -> 0 <= Read.SIGN_EXTEND w v s.
Proof. intros. unfold Read.SIGN_EXTEND. apply wrap_in_u. lia. Qed.

Lemma Some_pair_inv {A B} (a v : A) (b n : B) : Some (a, b) = Some (v, n) -> a = v /\ b = n.
Proof. by intros [= -> ->]. Qed.

Ltac leb_consumes :=
  intros p v n; repeat match goal with
  | |- context [Read.last_at p ?i] =>
      let E := fresh in destruct (Read.last_at p i) eqn:E; [apply last_at_length in E|]
  | |- context [if ?b then None else _] => destruct b
  end; try discriminate; intros [<- <-]%Some_pair_inv; split;
  first [apply LEB128_go_nonneg; lia | apply SIGN_EXTEND_nonneg; lia | lia].

Lemma consumes_u32 : consumes Read.wasm_read_u32_leb128.
Proof. unfold consumes, Read.wasm_read_u32_leb128. leb_consumes. Qed.

Lemma consumes_i32 : consumes Read.wasm_read_i32_leb128.
Proof. unfold consumes, Read.wasm_read_i32_leb128. leb_consumes. Qed.

Lemma consumes_i64 : consumes Read.in_i64_leb128_at.
Proof. unfold consumes, Read.in_i64_leb128_at. leb_consumes. Qed.

(** ** Totality *)

Section total.
Context {U : Type} (reader : WasmBinaryReader U) (debug : bool).

Abbreviation R := (R (U := U)).

(** The context is inside its data; offsets fit in 32 bits. *)
Definition inside (c : ReadContext U) : Prop :=
  0 <= rd_offset c /\ rd_offset c <= read_end c /\ read_end c <= Z.of_nat (length (rd_data c)) /\
  Z.of_nat (length (rd_data c)) < 2 ^ 32.

(** [total strict m]: from such a context, [m] ends in one, without moving
    back - or, if [strict], having read something - or raises an error.  The
    post-condition says what else is known of the result. *)
Definition total {A} (strict : bool) (m : R A) (post : A -> Prop) : Prop := forall c, inside c ->
  match m c with
  | Done a c' => inside c' /\ rd_data c' = rd_data c /\ read_end c' = read_end c /\
      rd_offset c + b2z strict <= rd_offset c' /\ post a
  | Raised _ => True
  | Undef => False
  end.

Abbreviation any := (fun _ => True).

Lemma total_weaken {A} (s s' : bool) (m : R A) post post' : (s' = true -> s = true) ->
  (forall a, post a -> post' a) -> total s m post -> total s' m post'.
Proof.
  intros Hs Hp H c Hc. specialize (H c Hc). destruct (m c); [|done..].
  destruct H as (? & ? & ? & ? & ?). split_and!; [done..| |by apply Hp].
  destruct s, s'; cbn in *; first [lia | by discriminate Hs].
Qed.

Lemma total_loose {A} s (m : R A) post : total s m post -> total false m any.
Proof. by apply total_weaken. Qed.

Lemma total_ret {A} (a : A) (post : A -> Prop) : post a -> total false (r_ret a) post.
Proof. intros Ha c Hc. cbn. split_and!; auto. lia. Qed.

Lemma total_bind {A B} s1 s2 (m : R A) (k : A -> R B) post1 post2 :
  total s1 m post1 -> (forall a, post1 a -> total s2 (k a) post2) ->
  total (s1 || s2) (r_bind m k) post2.
Proof.
  intros Hm Hk c Hc. unfold r_bind. specialize (Hm c Hc). destruct (m c) as [a c'| |]; [|done..].
  destruct Hm as (Hc' & Ed & Ee & Ho & Ha). specialize (Hk a Ha c' Hc'). destruct (k a c'); [|done..].
  destruct Hk as (? & ? & ? & ? & ?). split_and!; [done|congruence|congruence| |done].
  destruct s1, s2; cbn in *; lia.
Qed.

(** The two ways a sequence reads something. *)
Lemma total_bind_l {A B} s (m : R A) (k : A -> R B) post1 post2 :
  total s m post1 -> (forall a, post1 a -> total false (k a) post2) -> total s (r_bind m k) post2.
Proof. intros Hm Hk. rewrite <- (orb_false_r s). by apply (total_bind _ _ _ _ post1). Qed.

Lemma total_bind_r {A B} s (m : R A) (k : A -> R B) post1 post2 :
  total false m post1 -> (forall a, post1 a -> total s (k a) post2) -> total s (r_bind m k) post2.
Proof. intros Hm Hk. apply (total_bind false s _ _ post1); done. Qed.

Lemma total_RAISE_ERROR {A} s message (post : A -> Prop) : total s (RAISE_ERROR reader message) post.
Proof. done. Qed.

Lemma total_RAISE_ERROR_UNLESS b message : total false (RAISE_ERROR_UNLESS reader b message) any.
Proof. destruct b; [by apply total_ret|done]. Qed.

Lemma total_raise_unless {A} (o : option A) message :
  total false (raise_unless reader o message) any.
Proof. destruct o; [by apply total_ret|done]. Qed.

Lemma total_CALLBACK cb : total false (CALLBACK reader cb) any.
Proof.
  intros c Hc. unfold CALLBACK. destruct (on_callback reader _ cb _) as [[] u]; cbn; [|done].
  split_and!; auto. cbn. lia.
Qed.

Lemma total_modify_counts f : total false (modify_counts f) any.
Proof. intros c Hc. cbn. split_and!; auto. lia. Qed.

Lemma total_counts : total false counts any.
Proof. intros c Hc. cbn. split_and!; auto. lia. Qed.

Lemma total_for_loop fuel i num body c : inside c ->
  (forall i, total true (body i) any) ->
  Z.of_nat (length (rd_data c)) - rd_offset c < Z.of_nat fuel ->
  match for_loop fuel i num body c with
  | Done _ c' => inside c' /\ rd_data c' = rd_data c /\ read_end c' = read_end c /\
      rd_offset c <= rd_offset c'
  | Raised _ => True
  | Undef => False
  end.
Proof.
  intros Hc Hbody. revert i c Hc. induction fuel as [|fuel IH]; intros i c Hc Hf; cbn [for_loop];
    (destruct (num <=? i); [cbn; split_and!; auto; lia|]).
  - destruct Hc as (? & ? & ? & ?). lia.
  - unfold r_bind. specialize (Hbody i c Hc). destruct (body i c) as [[] c'| |]; [|done..].
    destruct Hbody as (Hc' & Ed & Ee & Ho & _). cbn in Ho.
    specialize (IH (i + 1) c' Hc'). rewrite Ed in IH. specialize (IH ltac:(lia)).
    destruct (for_loop fuel (i + 1) num body c'); [|done..].
    destruct IH as (? & ? & ? & ?). split_and!; [done|congruence|congruence|lia].
Qed.

Lemma total_FOR num body : (forall i, total true (body i) any) -> total false (FOR num body) any.
Proof.
  intros Hbody c Hc. unfold FOR, r_bind, get.
  pose proof (total_for_loop (S (length (rd_data c))) 0 num body c Hc Hbody) as H.
  destruct (for_loop _ 0 num body c); [|done|].
  - destruct H as (? & ? & ? & ?); [destruct Hc; lia|]. split_and!; auto. cbn. lia.
  - apply H. destruct Hc. lia.
Qed.

Lemma total_array_loop {A} fuel i num (body : R A) c : inside c -> total true body any ->
  Z.of_nat (length (rd_data c)) - rd_offset c < Z.of_nat fuel ->
  match array_loop fuel i num body c with
  | Done _ c' => inside c' /\ rd_data c' = rd_data c /\ read_end c' = read_end c /\
      rd_offset c <= rd_offset c'
  | Raised _ => True
  | Undef => False
  end.
Proof.
  intros Hc Hbody. revert i c Hc. induction fuel as [|fuel IH]; intros i c Hc Hf; cbn [array_loop];
    (destruct (num <=? i); [cbn; split_and!; auto; lia|]).
  - destruct Hc as (? & ? & ? & ?). lia.
  - unfold r_bind. pose proof (Hbody c Hc) as Hb. destruct (body c) as [a c'| |]; [|done..].
    destruct Hb as (Hc' & Ed & Ee & Ho & _). cbn in Ho.
    specialize (IH (i + 1) c' Hc'). rewrite Ed in IH. specialize (IH ltac:(lia)).
    destruct (array_loop fuel (i + 1) num body c'); [|done..].
    destruct IH as (? & ? & ? & ?). cbn. split_and!; [done|congruence|congruence|lia].
Qed.

Lemma total_READ_ARRAY {A} num (body : R A) : total true body any -> total false (READ_ARRAY num body) any.
Proof.
  intros Hbody c Hc. unfold READ_ARRAY, r_bind, get.
  pose proof (total_array_loop (S (length (rd_data c))) 0 num body c Hc Hbody) as H.
  destruct (array_loop _ 0 num body c); [|done|].
  - destruct H as (? & ? & ? & ?); [destruct Hc; lia|]. split_and!; auto. cbn. lia.
  - apply H. destruct Hc. lia.
Qed.

(** ** Primitives *)

Lemma total_IN_SIZE size : 0 < size -> total true (IN_SIZE reader size) any.
Proof.
  intros Hs c (? & ? & ? & ?). unfold IN_SIZE, r_bind, get.
  destruct (Z.ltb_spec (read_end c) (rd_offset c + size)); [done|].
  rewrite zslice_Some by lia. cbn. unfold inside. cbn. split_and!; auto; lia.
Qed.

Lemma total_in_leb128 decode : consumes decode ->
  total true (in_leb128 reader decode) (fun v => 0 <= v).
Proof.
  intros Hd c (? & ? & ? & ?). unfold in_leb128, r_bind, get.
  rewrite zslice_Some by lia.
  set (p := take _ _). assert (Z.of_nat (length p) = read_end c - rd_offset c) as Hl.
  { unfold p. rewrite length_take, length_drop. lia. }
  destruct (decode p) as [[v n]|] eqn:E; [|done].
  destruct (Hd p v n E). cbn. unfold inside. cbn. split_and!; auto; lia.
Qed.

Lemma total_in_counted message : total true (in_counted reader message) any.
Proof.
  unfold in_counted. eapply total_bind_l; [apply total_in_leb128, consumes_u32|].
  cbn beta. intros len Hlen c (? & ? & ? & ?). unfold r_bind, get.
  destruct (Z.ltb_spec (read_end c) (rd_offset c + len)); [done|].
  rewrite zslice_Some by lia. cbn. unfold inside. cbn. split_and!; auto; lia.
Qed.
Lemma total_leb decode : consumes decode -> total true (in_leb128 reader decode) any.
Proof. intros H. eapply total_weaken; [| |by apply total_in_leb128]; done. Qed.

Lemma total_u32 : total true (in_u32_leb128 reader) any.
Proof. apply total_leb, consumes_u32. Qed.
Lemma total_i32 : total true (in_i32_leb128 reader) any.
Proof. apply total_leb, consumes_i32. Qed.
Lemma total_i64 : total true (in_i64_leb128 reader) any.
Proof. apply total_leb, consumes_i64. Qed.

(** ** Everything else

    [total_auto] follows the structure of the code: a sequence reads something
    if one of its primitives does. *)

Create HintDb total discriminated.
#[local] Hint Resolve total_RAISE_ERROR total_RAISE_ERROR_UNLESS total_raise_unless total_CALLBACK
  total_modify_counts total_counts total_u32 total_i32 total_i64 total_in_counted : total.
#[local] Hint Extern 1 (total _ (r_ret _) _) => by apply total_ret : total.
#[local] Hint Extern 1 (total _ (IN_SIZE _ _) _) => apply total_IN_SIZE; lia : total.

Ltac total_prim := solve [auto with total nocore | eapply total_loose; auto with total nocore].

Ltac total_step :=
  lazymatch goal with
  | |- forall _, _ => intros
  | |- total _ (FOR _ _) _ => apply total_FOR
  | |- total _ (READ_ARRAY _ _) _ => apply total_READ_ARRAY
  | |- total true (r_bind _ _) _ =>
      first [apply (total_bind_l true _ _ any any); [solve [auto with total nocore]|]
            |apply (total_bind_r true _ _ any any)]
  | |- total false (r_bind _ _) _ => apply (total_bind_l false _ _ any any)
  | |- total _ (if ?b then _ else _) _ => destruct b
  | |- total _ (match ?x with _ => _ end) _ => destruct x
  | |- _ => total_prim
  end.

Ltac total_auto := repeat (cbv beta zeta; total_step).

Lemma total_in_u8 : total true (in_u8 reader) any.
Proof. unfold in_u8. total_auto. Qed.
Lemma total_in_f32 : total true (in_f32 reader) any.
Proof. unfold in_f32. total_auto. Qed.
Lemma total_in_f64 : total true (in_f64 reader) any.
Proof. unfold in_f64. total_auto. Qed.
Lemma total_in_u32 : total true (in_u32 reader) any.
Proof. unfold in_u32. total_auto. Qed.
Lemma total_in_type : total true (in_type reader) any.
Proof. unfold in_type. total_auto. Qed.
#[local] Hint Resolve total_in_u8 total_in_f32 total_in_f64 total_in_u32 total_in_type : total.

Lemma total_in_concrete_type message : total true (in_concrete_type reader message) any.
Proof. unfold in_concrete_type. total_auto. Qed.
Lemma total_in_str : total true (in_str reader) any.
Proof. apply total_in_counted. Qed.
Lemma total_in_bytes : total true (in_bytes reader) any.
Proof. apply total_in_counted. Qed.
#[local] Hint Resolve total_in_concrete_type total_in_str total_in_bytes : total.

Lemma total_read_init_expr i : total true (read_init_expr reader i) any.
Proof. unfold read_init_expr. total_auto. Qed.
Lemma total_read_table : total true (read_table reader) any.
Proof. unfold read_table. total_auto. Qed.
Lemma total_read_memory : total true (read_memory reader) any.
Proof. unfold read_memory. total_auto. Qed.
Lemma total_read_global_header : total true (read_global_header reader) any.
Proof. unfold read_global_header. total_auto. Qed.
#[local] Hint Resolve total_read_init_expr total_read_table total_read_memory
  total_read_global_header : total.

Lemma total_read_opcode end_offset opcode : total false (read_opcode reader end_offset opcode) any.
Proof.
  unfold read_opcode. destruct (opcode_of_code opcode) as [op|]; [|total_prim].
  destruct (opcode_group op) as [[]|]; destruct op;
    unfold bare, with_u32, with_block_sig, with_memory_access, with_reserved; total_auto.
Qed.

#[local] Hint Resolve total_read_opcode : total.

Lemma total_body_loop fuel end_offset seen c : inside c ->
  Z.of_nat (length (rd_data c)) - rd_offset c < Z.of_nat fuel ->
  match body_loop reader fuel end_offset seen c with
  | Done _ c' => inside c' /\ rd_data c' = rd_data c /\ read_end c' = read_end c /\
      rd_offset c <= rd_offset c'
  | Raised _ => True
  | Undef => False
  end.
Proof.
  revert seen c. induction fuel as [|fuel IH]; intros seen c Hc Hf; cbn [body_loop]; unfold r_bind at 1, get.
  - destruct (rd_offset c <? end_offset); [destruct Hc as (? & ? & ? & ?); lia|].
    cbn. split_and!; auto. lia.
  - destruct (rd_offset c <? end_offset); [|cbn; split_and!; auto; lia].
    assert (total true (r_bind (in_u8 reader) (fun opcode => r_bind (CALLBACK reader (CB_on_opcode opcode))
              (fun _ => read_opcode reader end_offset opcode))) any) as Hround by total_auto.
    specialize (Hround c Hc). unfold r_bind in Hround |- *.
    destruct (in_u8 reader c) as [opcode c1| |]; [|done..].
    destruct (CALLBACK reader (CB_on_opcode opcode) c1) as [[] c2| |]; [|done..].
    destruct (read_opcode reader end_offset opcode c2) as [b c3| |]; [|done..].
    destruct Hround as (Hc3 & Ed & Ee & Ho & _). cbn in Ho.
    specialize (IH (seen || b) c3 Hc3). rewrite Ed in IH. specialize (IH ltac:(lia)).
    destruct (body_loop reader fuel end_offset (seen || b) c3); [|done..].
    destruct IH as (? & ? & ? & ?). split_and!; [done|congruence|congruence|lia].
Qed.

Lemma total_get_then {A} s (k : ReadContext U -> R A) post :
  (forall c, inside c ->
     match k c c with
     | Done a c' => inside c' /\ rd_data c' = rd_data c /\ read_end c' = read_end c /\
         rd_offset c + b2z s <= rd_offset c' /\ post a
     | Raised _ => True
     | Undef => False
     end) -> total s (r_bind get k) post.
Proof. intros H c Hc. by apply H. Qed.

Lemma total_get : total false get any.
Proof. intros c Hc. cbn. split_and!; auto. lia. Qed.
#[local] Hint Resolve total_get : total.

Lemma total_read_function_body end_offset : total false (read_function_body reader end_offset) any.
Proof.
  assert (total false (r_bind get (fun c => body_loop reader (S (length (rd_data c))) end_offset false)) any) as Hl.
  { apply total_get_then. intros c Hc.
    pose proof (total_body_loop (S (length (rd_data c))) end_offset false c Hc) as H.
    destruct (body_loop _ _ _ _ c); [|done|].
    - destruct H as (? & ? & ? & ?); [destruct Hc; lia|]. split_and!; auto. cbn. lia.
    - apply H. destruct Hc. lia. }
  intros c Hc. specialize (Hl c Hc). unfold read_function_body. unfold r_bind, get in Hl |- *.
  destruct (body_loop _ _ _ _ c) as [b c'| |]; [|done..]. destruct Hl as (Hc' & Ed & Ee & Ho & _).
  assert (total false (r_bind (RAISE_ERROR_UNLESS reader (rd_offset c' =? end_offset)
      "function body longer than given size") (fun _ => RAISE_ERROR_UNLESS reader b
      "function body must end with END opcode")) any) as Ht by total_auto.
  specialize (Ht c' Hc'). unfold r_bind in Ht. destruct (RAISE_ERROR_UNLESS _ _ _ c') as [? c2| |]; [|done..].
  destruct (RAISE_ERROR_UNLESS _ b _ c2); [|done..]. destruct Ht as (? & ? & ? & ? & ?). cbn in *.
  split_and!; [done|congruence|congruence|lia|done].
Qed.
#[local] Hint Resolve total_read_function_body : total.

(** The 32-bit copy of the offset that [read_code_section] takes is exact. *)
Lemma total_read_function i : total true (read_function reader i) any.
Proof.
  unfold read_function. apply total_get_then. intros c Hc.
  assert (u32 (rd_offset c) = rd_offset c) as ->.
  { apply wrap_id. destruct Hc as (? & ? & ? & ?). unfold in_u. lia. }
  unfold r_bind at 1, set_offset.
  change (mkReadContext (rd_data c) (rd_offset c) (read_end c) (last_known_section_code c) (rd_counts c) (user_data c))
    with (mkReadContext (rd_data c) (rd_offset c) (read_end c) (last_known_section_code c) (rd_counts c) (user_data c)).
  match goal with |- context [?f (mkReadContext _ _ _ _ _ _)] =>
    assert (total true f any) as Ht by total_auto; exact (Ht _ Hc) end.
Qed.
#[local] Hint Resolve total_read_function : total.

(** A custom section that is skipped ends where it should. *)
Lemma total_read_custom_section size : total true (read_custom_section reader debug size) any.
Proof.
  unfold read_custom_section.
  apply (total_bind_l true _ _ any any); [apply total_in_str|intros name _].
  apply (total_bind_l false _ _ any any); [apply total_CALLBACK|intros _ _].
  apply total_get_then. intros c Hc. cbv zeta. destruct (_ && _).
  - match goal with |- context [?f c] => assert (total false f any) as Ht by total_auto; exact (Ht c Hc) end.
  - unfold r_bind, set_offset. destruct Hc as (? & ? & ? & ?).
    assert (inside (mkReadContext (rd_data c) (read_end c) (read_end c) (last_known_section_code c)
              (rd_counts c) (user_data c))) as Hc' by (unfold inside; cbn; lia).
    pose proof (total_CALLBACK CB_end_custom_section _ Hc') as Ht.
    destruct (CALLBACK reader CB_end_custom_section _); [|done..].
    destruct Ht as (? & ? & ? & ? & ?). cbn in *. split_and!; [done..|lia|done].
Qed.

Lemma total_read_section section size :
  total false (read_section reader debug section size) any.
Proof.
  destruct section; unfold read_section; [eapply total_loose, total_read_custom_section|..];
    unfold read_type_section, read_import_section,
    read_function_section, read_table_section, read_memory_section, read_global_section,
    read_export_section, read_start_section, read_elem_section, read_code_section, read_data_section,
    read_import, read_export, read_elem_segment, read_data_segment; total_auto.
Qed.

(** ** The loop over the sections, which moves [read_end] *)

Definition moves (strict : bool) (c c' : ReadContext U) : Prop :=
  inside c' /\ rd_data c' = rd_data c /\ rd_offset c + b2z strict <= rd_offset c'.

Definition ends {A} (strict : bool) (m : R A) : Prop := forall c, inside c ->
  match m c with Done _ c' => moves strict c c' | Raised _ => True | Undef => False end.

Lemma total_ends {A} s (m : R A) post : total s m post -> ends s m.
Proof.
  intros H c Hc. specialize (H c Hc). destruct (m c); [|done..].
  by destruct H as (? & ? & ? & ? & ?).
Qed.

Lemma ends_bind {A B} s (m : R A) (k : A -> R B) :
  ends s m -> (forall a, ends false (k a)) -> ends s (r_bind m k).
Proof.
  intros Hm Hk c Hc. unfold r_bind. specialize (Hm c Hc). destruct (m c) as [a c'| |]; [|done..].
  destruct Hm as (Hc' & Ed & Ho). specialize (Hk a c' Hc'). destruct (k a c'); [|done..].
  destruct Hk as (? & ? & ?). cbn in *. split_and!; [done|congruence|lia].
Qed.

Lemma ends_get_then {A} s (k : ReadContext U -> R A) :
  (forall c, inside c ->
     match k c c with Done _ c' => moves s c c' | Raised _ => True | Undef => False end) ->
  ends s (r_bind get k).
Proof. intros H c Hc. by apply H. Qed.

(** What follows the header of a section. *)
Lemma ends_after_header code size :
  ends false (r_bind (CALLBACK reader (CB_begin_section code size)) (fun _ =>
    r_bind (raise_unless reader (section_of_code code) "invalid section code: %u; max is %u") (fun section =>
    r_bind (read_section reader debug section size) (fun _ =>
    r_bind get (fun c =>
    r_bind (RAISE_ERROR_UNLESS reader (rd_offset c =? read_end c) "unfinished section (expected end: 0x%)") (fun _ =>
    if negb (code =? section_code WASM_BINARY_SECTION_CUSTOM)
    then set_last_known_section_code code else r_ret tt)))))).
Proof.
  apply ends_bind; [eapply total_ends, total_CALLBACK|intros _].
  apply ends_bind; [eapply total_ends, total_raise_unless|intros section].
  apply ends_bind; [eapply total_ends, total_read_section|intros _].
  apply ends_bind; [eapply total_ends, total_get|intros c].
  apply ends_bind; [eapply total_ends, total_RAISE_ERROR_UNLESS|intros _].
  destruct (negb _); [|by apply (total_ends false _ any), total_ret].
  intros c' Hc'. split_and!; [exact Hc'|done|cbn; lia].
Qed.

Lemma ends_read_one_section : ends true (read_one_section reader debug).
Proof.
  unfold read_one_section. apply ends_get_then. intros c (H1 & H2 & H3 & H4).
  unfold r_bind at 1, set_read_end at 1.
  set (c0 := mkReadContext (rd_data c) (rd_offset c) (data_size c) _ _ _).
  assert (inside c0) as Hc0 by (unfold inside, c0, data_size; cbn; lia).
  unfold r_bind at 1. pose proof (total_u32 c0 Hc0) as Hcode.
  destruct (in_u32_leb128 reader c0) as [code c1| |]; [|done..].
  destruct Hcode as (Hc1 & Ed1 & _ & Ho1 & _).
  unfold r_bind at 1. pose proof (total_in_leb128 _ consumes_u32 c1 Hc1) as Hsize.
  fold (in_u32_leb128 reader) in Hsize.
  destruct (in_u32_leb128 reader c1) as [size c2| |]; [|done..].
  destruct Hsize as (Hc2 & Ed2 & _ & Ho2 & Hsz). cbn in Ho1, Ho2.
  unfold r_bind at 1, get at 1. unfold r_bind at 1, set_read_end.
  set (c3 := mkReadContext (rd_data c2) (rd_offset c2) (rd_offset c2 + size) _ _ _).
  unfold r_bind at 1. destruct (Z.leb_spec (rd_offset c2 + size) (data_size c2)) as [Hle|]; [|done].
  cbn [RAISE_ERROR_UNLESS r_ret].
  unfold r_bind at 1. destruct (RAISE_ERROR_UNLESS reader _ "section %s out of order" c3) as [[] c4| |] eqn:E; [|done|].
  2:{ unfold RAISE_ERROR_UNLESS in E. by destruct (negb _). }
  assert (c4 = c3) as ->.
  { unfold RAISE_ERROR_UNLESS in E. destruct (negb _); unfold r_ret, RAISE_ERROR in E; by inversion E. }
  assert (inside c3) as Hc3.
  { destruct Hc2 as (? & ? & ? & ?). unfold inside, c3, data_size in *. cbn in *. lia. }
  pose proof (ends_after_header code size c3 Hc3) as Hrest.
  match type of Hrest with match ?x with _ => _ end =>
    match goal with |- match ?y with _ => _ end => change y with x end;
    revert Hrest; destruct x as [[] c5| |]; [intros Hrest|done..] end.
  destruct Hrest as (Hc5 & Ed5 & Ho5). cbn in Ed5, Ho5. split_and!; [done|cbn in Ed1; congruence|cbn in *; lia].
Qed.

Lemma sections_loop_ok fuel c : inside c ->
  Z.of_nat (length (rd_data c)) - rd_offset c < Z.of_nat fuel ->
  match sections_loop reader debug fuel c with
  | Done _ c' => moves false c c'
  | Raised _ => True
  | Undef => False
  end.
Proof.
  revert c. induction fuel as [|fuel IH]; intros c Hc Hf; cbn [sections_loop]; unfold r_bind at 1, get.
  - destruct Hc as (? & ? & ? & ?); lia.
  - unfold data_size. destruct (_ <? _); [|cbn; split_and!; auto; cbn; lia].
    pose proof (ends_read_one_section c Hc) as Hround. unfold r_bind.
    destruct (read_one_section reader debug c) as [[] c1| |]; [|done..].
    destruct Hround as (Hc1 & Ed & Ho). cbn in Ho.
    specialize (IH c1 Hc1). rewrite Ed in IH. specialize (IH ltac:(lia)).
    destruct (sections_loop reader debug fuel c1); [|done..].
    destruct IH as (? & ? & ?). cbn in *. split_and!; [done|congruence|cbn; lia].
Qed.

Lemma ends_read_module : ends false (read_module reader debug).
Proof.
  unfold read_module.
  apply ends_bind; [eapply total_ends, (total_loose true), total_in_u32|intros magic].
  apply ends_bind; [eapply total_ends, total_RAISE_ERROR_UNLESS|intros _].
  apply ends_bind; [eapply total_ends, (total_loose true), total_in_u32|intros version].
  apply ends_bind; [eapply total_ends, total_RAISE_ERROR_UNLESS|intros _].
  apply ends_bind; [eapply total_ends, total_CALLBACK|intros _].
  apply ends_bind; [|intros _; eapply total_ends, total_CALLBACK].
  apply ends_get_then. intros c Hc. apply sections_loop_ok; [done|]. destruct Hc. lia.
Qed.
End total.

(** C11 - Reading a binary terminates and is memory safe.  For any bytes (less
    than 4 GiB of them) and any callbacks, [wasm_read_binary] returns OK or
    ERROR: no loop - over sections, section items, opcodes, branch targets or
    names, whatever counts the file claims - outlives the bytes it reads, and
    nothing outside the data is read. *)
Theorem wasm_read_binary_total {U} (reader : WasmBinaryReader U) read_debug_names data u :
  Z.of_nat (length data) < 2 ^ 32 ->
  exists r u', wasm_read_binary reader read_debug_names data u = Some (r, u').
Proof.
  intros Hd. unfold wasm_read_binary. set (c := mkReadContext _ _ _ _ _ _).
  assert (inside c) as Hc by (unfold inside, c; cbn; lia).
  pose proof (ends_read_module reader read_debug_names c Hc) as H.
  destruct (read_module reader read_debug_names c); [by eexists _, _..|done].
Qed.

(** The callbacks, in order. *)
Definition tracing : WasmBinaryReader (list Callback) :=
  mkReader (fun _ cb trace => (WASM_OK, trace ++ [cb])) (fun _ _ trace => trace).

(** A type section that claims 2^32 - 1 types. *)
Lemma wasm_read_binary_total_witness : exists r trace,
  wasm_read_binary tracing true [0; 97; 115; 109; 13; 0; 0; 0; 1; 5; 255; 255; 255; 255; 15] [] = Some (r, trace) /\
  r = WASM_ERROR /\ last trace = Some (CB_on_signature_count (2 ^ 32 - 1)).
Proof.
  destruct (wasm_read_binary_total tracing true
    [0; 97; 115; 109; 13; 0; 0; 0; 1; 5; 255; 255; 255; 255; 15] []) as (r & trace & E);
    [vm_compute; reflexivity|].
  exists r, trace. split; [exact E|]. vm_compute in E. by injection E as <- <-.
Defined.
