(* ===== verification/BinaryFormat.v ===== *)
(** * The binary format

    The specification the binary writer and the binary reader meet: the
    abstract syntax of a binary module, in which every name is resolved to an
    index ([BModule]), its encoding ([encode]), the callbacks a reader of the
    encoding must see ([callbacks]), and the binary module a module of the
    syntax tree stands for ([resolve]).  A section or body size is written in
    as few bytes as it needs, or in five when LEBs are not canonical. *)

From S2P Require Import Prelude Opcode Leb128 Ast BindingHash Vector BinaryWriter BinaryReader.

(** ** Abstract syntax *)

Inductive BInstr : Type :=
| BI_OP (op : WasmOpcode)
| BI_BLOCK (sig : list WasmType) (body : list BInstr)
| BI_LOOP (sig : list WasmType) (body : list BInstr)
| BI_IF (sig : list WasmType) (true_ false_ : list BInstr)
| BI_INDEX (op : WasmOpcode) (index : Z)
| BI_BR_TABLE (targets : list Z) (default_target : Z)
| BI_CALL_INDIRECT (sig_index : Z)
| BI_CONST (const_ : WasmConst)
| BI_MEMORY (op : WasmOpcode) (alignment_log2 offset : Z)
| BI_RESERVED (op : WasmOpcode).

Inductive BImportDesc : Type :=
| BIMPORT_FUNC (sig_index : Z)
| BIMPORT_TABLE (limits : WasmLimits)
| BIMPORT_MEMORY (limits : WasmLimits)
| BIMPORT_GLOBAL (type : WasmType) (mutable_ : bool).

Record BImport : Type := mkBImport {
  bi_module : list Z; bi_field : list Z; bi_desc : BImportDesc
}.

Record BGlobal : Type := mkBGlobal {
  bg_type : WasmType; bg_mutable : bool; bg_init : list BInstr
}.

Record BExport : Type := mkBExport {
  be_name : list Z; be_kind : WasmExternalKind; be_index : Z
}.

Record BElemSegment : Type := mkBElemSegment {
  bes_table : Z; bes_offset : list BInstr; bes_funcs : list Z
}.

(** Locals are runs of equal types. *)
Record BFuncBody : Type := mkBFuncBody {
  bf_locals : list (Z * WasmType); bf_body : list BInstr
}.

Record BDataSegment : Type := mkBDataSegment {
  bd_memory : Z; bd_offset : list BInstr; bd_data : list Z
}.

Record BFuncNames : Type := mkBFuncNames { bn_func : list Z; bn_locals : list (list Z) }.

Record BModule : Type := mkBModule {
  bm_types : list WasmFuncSignature;
  bm_imports : list BImport;
  bm_funcs : list Z;
  bm_tables : list WasmLimits;
  bm_memories : list WasmLimits;
  bm_globals : list BGlobal;
  bm_exports : list BExport;
  bm_start : option Z;
  bm_elems : list BElemSegment;
  bm_codes : list BFuncBody;
  bm_datas : list BDataSegment;
  bm_names : option (list BFuncNames)
}.

(** ** Encoding *)

Definition enc_u32 (v : Z) : list Z := default [] (Write.u32_leb128 v).
Definition enc_s32 (v : Z) : list Z := default [] (Write.i32_leb128 v).
Definition enc_s64 (v : Z) : list Z := default [] (Write.i64_leb128 v).
Definition enc_fixed (v : Z) : list Z := default [] (Write.wasm_write_fixed_u32_leb128_raw 5 v).
Definition enc_len {A} (l : list A) : list Z := enc_u32 (Z.of_nat (length l)).

(** A size that is fixed up later. *)
Definition enc_size (canonical : bool) (v : Z) : list Z :=
  if canonical then enc_u32 v else enc_fixed v.

Definition enc_type (t : WasmType) : list Z := enc_s32 (wasm_type_code t).
Definition enc_op (op : WasmOpcode) : list Z := [opcode_code op].
Definition enc_bytes (s : list Z) : list Z := enc_len s ++ s.

Definition enc_vec {A} (enc : A -> list Z) (l : list A) : list Z := enc_len l ++ concat (map enc l).

(** Bytes preceded by their size. *)
Definition enc_sized (canonical : bool) (body : list Z) : list Z :=
  enc_size canonical (Z.of_nat (length body)) ++ body.

Definition enc_block_sig (sig : list WasmType) : list Z :=
  match sig with [] => enc_type WASM_TYPE_VOID | [t] => enc_type t | _ => [0xff] end.

Definition enc_limits (l : WasmLimits) : list Z :=
  enc_u32 (if lim_has_max l then WASM_BINARY_LIMITS_HAS_MAX_FLAG else 0) ++
  enc_u32 (lim_initial l) ++ (if lim_has_max l then enc_u32 (lim_max l) else []).

Definition enc_const (c : WasmConst) : list Z :=
  match const_type c with
  | WASM_TYPE_I32 => enc_op WASM_OPCODE_I32_CONST ++ enc_s32 (to_signed 32 (const_bits c))
  | WASM_TYPE_I64 => enc_op WASM_OPCODE_I64_CONST ++ enc_s64 (to_signed 64 (const_bits c))
  | WASM_TYPE_F32 => enc_op WASM_OPCODE_F32_CONST ++ le_bytes 4 (const_bits c)
  | _ => enc_op WASM_OPCODE_F64_CONST ++ le_bytes 8 (const_bits c)
  end.

Fixpoint enc_instr (i : BInstr) : list Z :=
  let enc_instrs := fix go (l : list BInstr) : list Z :=
    match l with [] => [] | i :: l => enc_instr i ++ go l end in
  match i with
  | BI_OP op => enc_op op
  | BI_BLOCK sig body =>
      enc_op WASM_OPCODE_BLOCK ++ enc_block_sig sig ++ enc_instrs body ++ enc_op WASM_OPCODE_END
  | BI_LOOP sig body =>
      enc_op WASM_OPCODE_LOOP ++ enc_block_sig sig ++ enc_instrs body ++ enc_op WASM_OPCODE_END
  | BI_IF sig true_ false_ =>
      enc_op WASM_OPCODE_IF ++ enc_block_sig sig ++ enc_instrs true_ ++
      match false_ with [] => [] | _ => enc_op WASM_OPCODE_ELSE ++ enc_instrs false_ end ++
      enc_op WASM_OPCODE_END
  | BI_INDEX op index => enc_op op ++ enc_u32 index
  | BI_BR_TABLE targets default_target =>
      enc_op WASM_OPCODE_BR_TABLE ++ enc_vec enc_u32 targets ++ enc_u32 default_target
  | BI_CALL_INDIRECT sig_index =>
      enc_op WASM_OPCODE_CALL_INDIRECT ++ enc_u32 sig_index ++ enc_u32 0
  | BI_CONST c => enc_const c
  | BI_MEMORY op log2 offset => enc_op op ++ [log2] ++ enc_u32 offset
  | BI_RESERVED op => enc_op op ++ enc_u32 0
  end.

Definition enc_instrs (l : list BInstr) : list Z := concat (map enc_instr l).

(** Instructions up to the end opcode. *)
Definition enc_expr (l : list BInstr) : list Z := enc_instrs l ++ enc_op WASM_OPCODE_END.

Definition enc_func_type (sig : WasmFuncSignature) : list Z :=
  enc_type WASM_TYPE_FUNC ++ enc_vec enc_type (param_types sig) ++ enc_vec enc_type (result_types sig).

Definition enc_table (l : WasmLimits) : list Z := enc_type WASM_TYPE_ANYFUNC ++ enc_limits l.

Definition enc_global_type (t : WasmType) (mutable_ : bool) : list Z := enc_type t ++ [b2z mutable_].

Definition bimport_kind (d : BImportDesc) : WasmExternalKind :=
  match d with
  | BIMPORT_FUNC _ => WASM_EXTERNAL_KIND_FUNC
  | BIMPORT_TABLE _ => WASM_EXTERNAL_KIND_TABLE
  | BIMPORT_MEMORY _ => WASM_EXTERNAL_KIND_MEMORY
  | BIMPORT_GLOBAL _ _ => WASM_EXTERNAL_KIND_GLOBAL
  end.

Definition enc_import_desc (d : BImportDesc) : list Z :=
  match d with
  | BIMPORT_FUNC sig_index => enc_u32 sig_index
  | BIMPORT_TABLE l => enc_table l
  | BIMPORT_MEMORY l => enc_limits l
  | BIMPORT_GLOBAL t mutable_ => enc_global_type t mutable_
  end.

Definition enc_import (i : BImport) : list Z :=
  enc_bytes (bi_module i) ++ enc_bytes (bi_field i) ++
  [wasm_external_kind_code (bimport_kind (bi_desc i))] ++ enc_import_desc (bi_desc i).

Definition enc_global (g : BGlobal) : list Z :=
  enc_global_type (bg_type g) (bg_mutable g) ++ enc_expr (bg_init g).

Definition enc_export (e : BExport) : list Z :=
  enc_bytes (be_name e) ++ [wasm_external_kind_code (be_kind e)] ++ enc_u32 (be_index e).

Definition enc_elem (s : BElemSegment) : list Z :=
  enc_u32 (bes_table s) ++ enc_expr (bes_offset s) ++ enc_vec enc_u32 (bes_funcs s).

Definition enc_local (r : Z * WasmType) : list Z := enc_u32 (fst r) ++ enc_type (snd r).

Definition enc_code (canonical : bool) (f : BFuncBody) : list Z :=
  enc_sized canonical (enc_vec enc_local (bf_locals f) ++ enc_expr (bf_body f)).

Definition enc_data (s : BDataSegment) : list Z :=
  enc_u32 (bd_memory s) ++ enc_expr (bd_offset s) ++ enc_bytes (bd_data s).

Definition enc_names (n : BFuncNames) : list Z :=
  enc_bytes (bn_func n) ++ enc_vec enc_bytes (bn_locals n).

(** ** Callbacks *)

Definition instr_const_callbacks (c : WasmConst) : list Callback :=
  match const_type c with
  | WASM_TYPE_I32 => [CB_on_opcode (opcode_code WASM_OPCODE_I32_CONST);
                      CB_on_i32_const_expr (const_bits c); CB_on_opcode_uint32 (const_bits c)]
  | WASM_TYPE_I64 => [CB_on_opcode (opcode_code WASM_OPCODE_I64_CONST);
                      CB_on_i64_const_expr (const_bits c); CB_on_opcode_uint64 (const_bits c)]
  | WASM_TYPE_F32 => [CB_on_opcode (opcode_code WASM_OPCODE_F32_CONST);
                      CB_on_f32_const_expr (const_bits c); CB_on_opcode_f32 (const_bits c)]
  | _ => [CB_on_opcode (opcode_code WASM_OPCODE_F64_CONST);
          CB_on_f64_const_expr (const_bits c); CB_on_opcode_f64 (const_bits c)]
  end.

(** The callback of an opcode without operands. *)
Definition bare_callback (op : WasmOpcode) : option Callback :=
  match op with
  | WASM_OPCODE_UNREACHABLE => Some CB_on_unreachable_expr
  | WASM_OPCODE_NOP => Some CB_on_nop_expr
  | WASM_OPCODE_RETURN => Some CB_on_return_expr
  | WASM_OPCODE_DROP => Some CB_on_drop_expr
  | WASM_OPCODE_SELECT => Some CB_on_select_expr
  | _ =>
      match opcode_group op with
      | Some GROUP_BINARY => Some (CB_on_binary_expr op)
      | Some GROUP_COMPARE => Some (CB_on_compare_expr op)
      | Some GROUP_UNARY => Some (CB_on_unary_expr op)
      | Some GROUP_CONVERT => Some (CB_on_convert_expr op)
      | _ => None
      end
  end.

(** The callback of an opcode with one index. *)
Definition index_callback (op : WasmOpcode) : option (Z -> Callback) :=
  match op with
  | WASM_OPCODE_BR => Some CB_on_br_expr
  | WASM_OPCODE_BR_IF => Some CB_on_br_if_expr
  | WASM_OPCODE_GET_GLOBAL => Some CB_on_get_global_expr
  | WASM_OPCODE_GET_LOCAL => Some CB_on_get_local_expr
  | WASM_OPCODE_SET_GLOBAL => Some CB_on_set_global_expr
  | WASM_OPCODE_SET_LOCAL => Some CB_on_set_local_expr
  | WASM_OPCODE_TEE_LOCAL => Some CB_on_tee_local_expr
  | WASM_OPCODE_CALL => Some CB_on_call_expr
  | _ => None
  end.

(** The callback of an opcode with a reserved operand. *)
Definition reserved_callback (op : WasmOpcode) : option Callback :=
  match op with
  | WASM_OPCODE_CURRENT_MEMORY => Some CB_on_current_memory_expr
  | WASM_OPCODE_GROW_MEMORY => Some CB_on_grow_memory_expr
  | _ => None
  end.

Definition memory_callback (op : WasmOpcode) : option (Z -> Z -> Callback) :=
  match opcode_group op with
  | Some GROUP_LOAD => Some (CB_on_load_expr op)
  | Some GROUP_STORE => Some (CB_on_store_expr op)
  | _ => None
  end.

Definition opt_list {A} (o : option A) : list A := match o with Some x => [x] | None => [] end.

Fixpoint instr_callbacks (i : BInstr) : list Callback :=
  let instrs_callbacks := fix go (l : list BInstr) : list Callback :=
    match l with [] => [] | i :: l => instr_callbacks i ++ go l end in
  let end_callbacks := [CB_on_opcode (opcode_code WASM_OPCODE_END); CB_on_end_expr] in
  match i with
  | BI_OP op => CB_on_opcode (opcode_code op) :: opt_list (bare_callback op) ++ [CB_on_opcode_bare]
  | BI_BLOCK sig body =>
      [CB_on_opcode (opcode_code WASM_OPCODE_BLOCK); CB_on_block_expr sig; CB_on_opcode_block_sig sig] ++
      instrs_callbacks body ++ end_callbacks
  | BI_LOOP sig body =>
      [CB_on_opcode (opcode_code WASM_OPCODE_LOOP); CB_on_loop_expr sig; CB_on_opcode_block_sig sig] ++
      instrs_callbacks body ++ end_callbacks
  | BI_IF sig true_ false_ =>
      [CB_on_opcode (opcode_code WASM_OPCODE_IF); CB_on_if_expr sig; CB_on_opcode_block_sig sig] ++
      instrs_callbacks true_ ++
      match false_ with
      | [] => []
      | _ => [CB_on_opcode (opcode_code WASM_OPCODE_ELSE); CB_on_else_expr; CB_on_opcode_bare] ++
             instrs_callbacks false_
      end ++ end_callbacks
  | BI_INDEX op index =>
      CB_on_opcode (opcode_code op) ::
      opt_list ((fun cb => cb index) <$> index_callback op) ++ [CB_on_opcode_uint32 index]
  | BI_BR_TABLE targets default_target =>
      [CB_on_opcode (opcode_code WASM_OPCODE_BR_TABLE); CB_on_br_table_expr targets default_target]
  | BI_CALL_INDIRECT sig_index =>
      [CB_on_opcode (opcode_code WASM_OPCODE_CALL_INDIRECT); CB_on_call_indirect_expr sig_index;
       CB_on_opcode_uint32_uint32 sig_index 0]
  | BI_CONST c => instr_const_callbacks c
  | BI_MEMORY op log2 offset =>
      CB_on_opcode (opcode_code op) ::
      opt_list ((fun cb => cb log2 offset) <$> memory_callback op) ++
      [CB_on_opcode_uint32_uint32 log2 offset]
  | BI_RESERVED op =>
      CB_on_opcode (opcode_code op) :: opt_list (reserved_callback op) ++ [CB_on_opcode_uint32 0]
  end.

Definition instrs_callbacks (l : list BInstr) : list Callback := concat (map instr_callbacks l).

(** A reader reports a maximum of 0 when there is none. *)
Definition read_limits (l : WasmLimits) : WasmLimits :=
  mkLimits (lim_initial l) (if lim_has_max l then lim_max l else 0) (lim_has_max l).

Definition init_callbacks (index : Z) (l : list BInstr) : list Callback :=
  match l with
  | [BI_CONST c] =>
      [match const_type c with
       | WASM_TYPE_I32 => CB_on_init_expr_i32_const_expr index (const_bits c)
       | WASM_TYPE_I64 => CB_on_init_expr_i64_const_expr index (const_bits c)
       | WASM_TYPE_F32 => CB_on_init_expr_f32_const_expr index (const_bits c)
       | _ => CB_on_init_expr_f64_const_expr index (const_bits c)
       end]
  | [BI_INDEX _ i] => [CB_on_init_expr_get_global_expr index i]
  | _ => []
  end.

(** The callbacks of the items of a list, with their indices. *)
Fixpoint indexed {A} (f : Z -> A -> list Callback) (i : Z) (l : list A) : list Callback :=
  match l with [] => [] | x :: l => f i x ++ indexed f (i + 1) l end.

Definition type_callbacks (i : Z) (sig : WasmFuncSignature) : list Callback :=
  [CB_on_signature i (param_types sig) (result_types sig)].

Definition import_callbacks (i : Z) (im : BImport) : list Callback :=
  [CB_on_import i (bi_module im) (bi_field im);
   match bi_desc im with
   | BIMPORT_FUNC sig_index => CB_on_import_func i sig_index
   | BIMPORT_TABLE l => CB_on_import_table i WASM_TYPE_ANYFUNC (read_limits l)
   | BIMPORT_MEMORY l => CB_on_import_memory i (read_limits l)
   | BIMPORT_GLOBAL t mutable_ => CB_on_import_global i t mutable_
   end].

Definition global_callbacks (i : Z) (g : BGlobal) : list Callback :=
  [CB_begin_global i (bg_type g) (bg_mutable g); CB_begin_global_init_expr i] ++
  init_callbacks i (bg_init g) ++ [CB_end_global_init_expr i; CB_end_global i].

Definition elem_callbacks (i : Z) (s : BElemSegment) : list Callback :=
  [CB_begin_elem_segment i (bes_table s); CB_begin_elem_segment_init_expr i] ++
  init_callbacks i (bes_offset s) ++
  [CB_end_elem_segment_init_expr i;
   CB_on_elem_segment_function_index_count i (Z.of_nat (length (bes_funcs s)))] ++
  indexed (fun _ f => [CB_on_elem_segment_function_index i f]) 0 (bes_funcs s) ++
  [CB_end_elem_segment i].

Definition code_callbacks (i : Z) (f : BFuncBody) : list Callback :=
  [CB_begin_function_body i; CB_on_local_decl_count (Z.of_nat (length (bf_locals f)))] ++
  indexed (fun k r => [CB_on_local_decl k (fst r) (snd r)]) 0 (bf_locals f) ++
  instrs_callbacks (bf_body f) ++
  [CB_on_opcode (opcode_code WASM_OPCODE_END); CB_end_function_body i].

Definition data_callbacks (i : Z) (s : BDataSegment) : list Callback :=
  [CB_begin_data_segment i (bd_memory s); CB_begin_data_segment_init_expr i] ++
  init_callbacks i (bd_offset s) ++
  [CB_end_data_segment_init_expr i; CB_on_data_segment_data i (bd_data s); CB_end_data_segment i].

Definition names_callbacks (i : Z) (n : BFuncNames) : list Callback :=
  [CB_on_function_name i (bn_func n); CB_on_local_names_count i (Z.of_nat (length (bn_locals n)))] ++
  indexed (fun j s => [CB_on_local_name i j s]) 0 (bn_locals n).

(** ** Sections *)

(** A section: its bytes without code and size, and the callbacks between the
    [begin] and the [end] of the section. *)
Record BSection : Type := mkBSection {
  sec_kind : WasmBinarySection;
  sec_body : list Z;
  sec_callbacks : list Callback
}.

(** A section of a list of items, left out when there are none. *)
Definition vec_section {A} (s : WasmBinarySection) (enc : A -> list Z) (count : Z -> Callback)
    (cbs : Z -> A -> list Callback) (l : list A) : list BSection :=
  match l with
  | [] => []
  | _ => [mkBSection s (enc_vec enc l) (count (Z.of_nat (length l)) :: indexed cbs 0 l)]
  end.

Definition name_bytes : list Z := slice_bytes (Some WASM_BINARY_SECTION_NAME).

(** The known sections of a module, in order. *)
Definition known_sections (canonical : bool) (m : BModule) : list BSection :=
  vec_section WASM_BINARY_SECTION_TYPE enc_func_type CB_on_signature_count type_callbacks (bm_types m) ++
  vec_section WASM_BINARY_SECTION_IMPORT enc_import CB_on_import_count import_callbacks (bm_imports m) ++
  vec_section WASM_BINARY_SECTION_FUNCTION enc_u32 CB_on_function_signatures_count
    (fun i sig => [CB_on_function_signature i sig]) (bm_funcs m) ++
  vec_section WASM_BINARY_SECTION_TABLE enc_table CB_on_table_count
    (fun i l => [CB_on_table i WASM_TYPE_ANYFUNC (read_limits l)]) (bm_tables m) ++
  vec_section WASM_BINARY_SECTION_MEMORY enc_limits CB_on_memory_count
    (fun i l => [CB_on_memory i (read_limits l)]) (bm_memories m) ++
  vec_section WASM_BINARY_SECTION_GLOBAL enc_global CB_on_global_count global_callbacks (bm_globals m) ++
  vec_section WASM_BINARY_SECTION_EXPORT enc_export CB_on_export_count
    (fun i e => [CB_on_export i (be_kind e) (be_index e) (be_name e)]) (bm_exports m) ++
  match bm_start m with
  | None => []
  | Some f => [mkBSection WASM_BINARY_SECTION_START (enc_u32 f) [CB_on_start_function f]]
  end ++
  vec_section WASM_BINARY_SECTION_ELEM enc_elem CB_on_elem_segment_count elem_callbacks (bm_elems m) ++
  vec_section WASM_BINARY_SECTION_CODE (enc_code canonical) CB_on_function_bodies_count code_callbacks
    (bm_codes m) ++
  vec_section WASM_BINARY_SECTION_DATA enc_data CB_on_data_segment_count data_callbacks (bm_datas m).

(** All sections; the names come last. *)
Definition sections (canonical : bool) (m : BModule) : list BSection :=
  known_sections canonical m ++
  match bm_names m with
  | None => []
  | Some names =>
      [mkBSection WASM_BINARY_SECTION_CUSTOM (enc_bytes name_bytes ++ enc_vec enc_names names)
         (CB_on_function_names_count (Z.of_nat (length names)) :: indexed names_callbacks 0 names)]
  end.

Definition enc_section (canonical : bool) (s : BSection) : list Z :=
  section_code (sec_kind s) :: enc_sized canonical (sec_body s).

Definition encode (canonical : bool) (m : BModule) : list Z :=
  le_bytes 4 WASM_BINARY_MAGIC ++ le_bytes 4 WASM_BINARY_VERSION ++
  concat (map (enc_section canonical) (sections canonical m)).

(** The callbacks around those of the items. *)
Definition section_brackets (s : WasmBinarySection) (size : Z) : list Callback * list Callback :=
  match s with
  | WASM_BINARY_SECTION_CUSTOM =>
      ([CB_begin_custom_section size name_bytes; CB_begin_names_section size],
       [CB_end_names_section; CB_end_custom_section])
  | WASM_BINARY_SECTION_TYPE => ([CB_begin_signature_section size], [CB_end_signature_section])
  | WASM_BINARY_SECTION_IMPORT => ([CB_begin_import_section size], [CB_end_import_section])
  | WASM_BINARY_SECTION_FUNCTION =>
      ([CB_begin_function_signatures_section size], [CB_end_function_signatures_section])
  | WASM_BINARY_SECTION_TABLE => ([CB_begin_table_section size], [CB_end_table_section])
  | WASM_BINARY_SECTION_MEMORY => ([CB_begin_memory_section size], [CB_end_memory_section])
  | WASM_BINARY_SECTION_GLOBAL => ([CB_begin_global_section size], [CB_end_global_section])
  | WASM_BINARY_SECTION_EXPORT => ([CB_begin_export_section size], [CB_end_export_section])
  | WASM_BINARY_SECTION_START => ([CB_begin_start_section size], [CB_end_start_section])
  | WASM_BINARY_SECTION_ELEM => ([CB_begin_elem_section size], [CB_end_elem_section])
  | WASM_BINARY_SECTION_CODE =>
      ([CB_begin_function_bodies_section size], [CB_end_function_bodies_section])
  | WASM_BINARY_SECTION_DATA => ([CB_begin_data_section size], [CB_end_data_section])
  end.

Definition section_callbacks (s : BSection) : list Callback :=
  let size := Z.of_nat (length (sec_body s)) in
  CB_begin_section (section_code (sec_kind s)) size ::
  fst (section_brackets (sec_kind s) size) ++ sec_callbacks s ++ snd (section_brackets (sec_kind s) size).

Definition callbacks (canonical : bool) (m : BModule) : list Callback :=
  CB_begin_module WASM_BINARY_VERSION ::
  concat (map section_callbacks (sections canonical m)) ++ [CB_end_module].


(** ** The binary module a syntax tree stands for

    [None] where the writer runs into a failed assertion: a label that is
    still a name, an index that is checked and out of range, a constant that
    is no number.  Indices are truncated to 32 bits, as they are written. *)

Section resolve.
Context (opts : WasmWriteBinaryOptions) (module : WasmModule).

Definition resolve_label (var : WasmVar) : option Z :=
  match var with VAR_INDEX index => Some (u32 index) | VAR_NAME _ => None end.

Definition resolve_index (index : option Z) : option Z := u32 <$> index.

(** An index the writer checks, unless the module is known to be invalid. *)
Definition resolve_checked (index : option Z) (size : nat) : option Z :=
  i ← index;
  if is_invalid opts || ((0 <=? i) && (i <? Z.of_nat size)) then Some (u32 i) else None.

Definition resolve_local (func : option WasmFunc) (var : WasmVar) : option Z :=
  match var, func with
  | VAR_INDEX index, _ => Some (u32 (to_int index))
  | VAR_NAME _, Some f => resolve_index (wasm_get_local_index_by_var f var)
  | VAR_NAME _, None => None
  end.

(** A number of one of the four types. *)
Definition const_ok (c : WasmConst) : bool :=
  match const_type c with
  | WASM_TYPE_I32 | WASM_TYPE_F32 => bool_decide (in_u 32 (const_bits c))
  | WASM_TYPE_I64 | WASM_TYPE_F64 => bool_decide (in_u 64 (const_bits c))
  | _ => false
  end.

Definition resolve_memory_access (opcode : WasmOpcode) (align offset : Z) : option BInstr :=
  log2 ← log2_u32 (wasm_get_opcode_alignment opcode align);
  Some (BI_MEMORY opcode log2 (u32 offset)).

Fixpoint resolve_expr (func : option WasmFunc) (expr : WasmExpr) : option BInstr :=
  match expr with
  | EXPR_BINARY opcode | EXPR_COMPARE opcode | EXPR_CONVERT opcode | EXPR_UNARY opcode =>
      Some (BI_OP opcode)
  | EXPR_BLOCK _ sig first => BI_BLOCK sig <$> mapM (resolve_expr func) first
  | EXPR_BR var => BI_INDEX WASM_OPCODE_BR <$> resolve_label var
  | EXPR_BR_IF var => BI_INDEX WASM_OPCODE_BR_IF <$> resolve_label var
  | EXPR_BR_TABLE targets default_target =>
      ts ← mapM resolve_label targets; BI_BR_TABLE ts <$> resolve_label default_target
  | EXPR_CALL var =>
      BI_INDEX WASM_OPCODE_CALL <$>
        resolve_checked (wasm_get_func_index_by_var module var) (length (module_funcs module))
  | EXPR_CALL_INDIRECT var =>
      BI_CALL_INDIRECT <$>
        resolve_checked (wasm_get_func_type_index_by_var module var) (length (module_func_types module))
  | EXPR_CONST c => if const_ok c then Some (BI_CONST c) else None
  | EXPR_CURRENT_MEMORY => Some (BI_RESERVED WASM_OPCODE_CURRENT_MEMORY)
  | EXPR_DROP => Some (BI_OP WASM_OPCODE_DROP)
  | EXPR_GET_GLOBAL var =>
      BI_INDEX WASM_OPCODE_GET_GLOBAL <$> resolve_index (wasm_get_global_index_by_var module var)
  | EXPR_GET_LOCAL var => BI_INDEX WASM_OPCODE_GET_LOCAL <$> resolve_local func var
  | EXPR_GROW_MEMORY => Some (BI_RESERVED WASM_OPCODE_GROW_MEMORY)
  | EXPR_IF _ sig true_ false_ =>
      ts ← mapM (resolve_expr func) true_; BI_IF sig ts <$> mapM (resolve_expr func) false_
  | EXPR_LOAD opcode align offset | EXPR_STORE opcode align offset =>
      resolve_memory_access opcode align offset
  | EXPR_LOOP _ sig first => BI_LOOP sig <$> mapM (resolve_expr func) first
  | EXPR_NOP => Some (BI_OP WASM_OPCODE_NOP)
  | EXPR_RETURN => Some (BI_OP WASM_OPCODE_RETURN)
  | EXPR_SELECT => Some (BI_OP WASM_OPCODE_SELECT)
  | EXPR_SET_GLOBAL var =>
      BI_INDEX WASM_OPCODE_SET_GLOBAL <$> resolve_index (wasm_get_global_index_by_var module var)
  | EXPR_SET_LOCAL var => BI_INDEX WASM_OPCODE_SET_LOCAL <$> resolve_local func var
  | EXPR_TEE_LOCAL var => BI_INDEX WASM_OPCODE_TEE_LOCAL <$> resolve_local func var
  | EXPR_UNREACHABLE => Some (BI_OP WASM_OPCODE_UNREACHABLE)
  end.

Definition resolve_limits (l : WasmLimits) : WasmLimits :=
  mkLimits (u32 (lim_initial l)) (u32 (lim_max l)) (lim_has_max l).

Definition resolve_decl (decl : WasmFuncDeclaration) : option Z :=
  resolve_index (wasm_get_func_type_index_by_decl module decl).

Definition resolve_import_desc (d : WasmImportDesc) : option BImportDesc :=
  match d with
  | IMPORT_FUNC func => BIMPORT_FUNC <$> resolve_decl (func_decl func)
  | IMPORT_TABLE table => Some (BIMPORT_TABLE (resolve_limits (table_elem_limits table)))
  | IMPORT_MEMORY memory => Some (BIMPORT_MEMORY (resolve_limits (memory_page_limits memory)))
  | IMPORT_GLOBAL global => Some (BIMPORT_GLOBAL (global_type global) (global_mutable global))
  end.

Definition resolve_import (i : WasmImport) : option BImport :=
  mkBImport (slice_bytes (import_module_name i)) (slice_bytes (import_field_name i)) <$>
    resolve_import_desc (import_desc i).

Definition resolve_init (expr : list WasmExpr) : option (list BInstr) := mapM (resolve_expr None) expr.

Definition resolve_global (g : WasmGlobal) : option BGlobal :=
  mkBGlobal (global_type g) (global_mutable g) <$> resolve_init (global_init_expr g).

Definition resolve_export (e : WasmExport) : option BExport :=
  mkBExport (slice_bytes (export_name e)) (export_kind e) <$>
    resolve_checked (fst (export_index module e)) (snd (export_index module e)).

(** No start section for a start function that is not found. *)
Definition resolve_start : option (option Z) :=
  match module_start module with
  | None => Some None
  | Some start =>
      i ← wasm_get_func_index_by_var module start;
      Some (if i =? -1 then None else Some (u32 i))
  end.

Definition resolve_elem (s : WasmElemSegment) : option BElemSegment :=
  table ← resolve_index (wasm_get_table_index_by_var module (elem_table_var s));
  offset ← resolve_init (elem_offset s);
  mkBElemSegment table offset <$>
    mapM (fun var => resolve_checked (wasm_get_func_index_by_var module var)
                       (length (module_funcs module))) (elem_vars s).

(** Runs of equal types; the first one has [count] elements already. *)
Fixpoint type_runs (type : WasmType) (count : Z) (types : list WasmType) : list (Z * WasmType) :=
  match types with
  | [] => [(count, type)]
  | t :: types =>
      if decide (type = t) then type_runs type (count + 1) types
      else (count, type) :: type_runs t 1 types
  end.

(** A run of [void], which ends the writer's loop, is no list of locals. *)
Definition resolve_locals (types : list WasmType) : option (list (Z * WasmType)) :=
  if bool_decide (Forall (fun t => t <> WASM_TYPE_VOID) types) && (Z.of_nat (length types) <? 2 ^ 32)
  then Some (match types with [] => [] | t :: types => type_runs t 1 types end)
  else None.

Definition resolve_code (f : WasmFunc) : option BFuncBody :=
  locals ← resolve_locals (func_local_types f);
  mkBFuncBody locals <$> mapM (resolve_expr (Some f)) (func_first_expr f).

Definition resolve_data (s : WasmDataSegment) : option BDataSegment :=
  memory ← resolve_index (wasm_get_memory_index_by_var module (data_memory_var s));
  offset ← resolve_init (data_offset s);
  Some (mkBDataSegment memory offset (data_data s)).

Definition resolve_func_names (f : WasmFunc) : option BFuncNames :=
  names ← func_local_names f;
  Some (mkBFuncNames (slice_bytes (func_name f)) (map slice_bytes names)).

Definition resolve : option BModule :=
  let funcs := drop (num_func_imports module) (module_funcs module) in
  imports ← mapM resolve_import (module_imports module);
  sigs ← mapM (fun f => resolve_decl (func_decl f)) funcs;
  globals ← mapM resolve_global (drop (num_global_imports module) (module_globals module));
  exports ← mapM resolve_export (module_exports module);
  start ← resolve_start;
  elems ← mapM resolve_elem (module_elem_segments module);
  codes ← mapM resolve_code funcs;
  datas ← mapM resolve_data (module_data_segments module);
  names ← (if write_debug_names opts then Some <$> mapM resolve_func_names (module_funcs module)
           else Some None);
  Some {|
    bm_types := map func_type_sig (module_func_types module);
    bm_imports := imports;
    bm_funcs := sigs;
    bm_tables := map (fun t => resolve_limits (table_elem_limits t))
                   (drop (num_table_imports module) (module_tables module));
    bm_memories := map (fun t => resolve_limits (memory_page_limits t))
                     (drop (num_memory_imports module) (module_memories module));
    bm_globals := globals;
    bm_exports := exports;
    bm_start := start;
    bm_elems := elems;
    bm_codes := codes;
    bm_datas := datas;
    bm_names := names
  |}.
End resolve.

(** ** The modules a reader accepts

    What the reader checks, over resolved modules.  A module with types but
    neither imports nor functions has no names section, since the reader takes
    one into account only after the import section or a later one. *)

Definition is_some {A} (o : option A) : bool := match o with Some _ => true | None => false end.

Definition value_type (t : WasmType) : bool := is_some (is_concrete_type (wasm_type_code t)).
Definition ok_u32 (v : Z) : bool := bool_decide (in_u 32 v).
Definition ok_sig (sig : list WasmType) : bool := (length sig <=? 1)%nat && forallb value_type sig.

Fixpoint ok_instr (num_sigs num_funcs : Z) (i : BInstr) : bool :=
  let ok_body := forallb (ok_instr num_sigs num_funcs) in
  match i with
  | BI_OP op => is_some (bare_callback op)
  | BI_BLOCK sig body | BI_LOOP sig body => ok_sig sig && ok_body body
  | BI_IF sig true_ false_ => ok_sig sig && ok_body true_ && ok_body false_
  | BI_INDEX op index =>
      is_some (index_callback op) && ok_u32 index &&
      (negb (bool_decide (op = WASM_OPCODE_CALL)) || (index <? num_funcs))
  | BI_BR_TABLE targets default_target => forallb ok_u32 targets && ok_u32 default_target
  | BI_CALL_INDIRECT sig_index => ok_u32 sig_index && (sig_index <? num_sigs)
  | BI_CONST c => const_ok c
  | BI_MEMORY op log2 offset =>
      is_some (memory_callback op) && (0 <=? log2) && (log2 <? 128) && ok_u32 offset
  | BI_RESERVED op => is_some (reserved_callback op)
  end.

(** An initializer is empty, a constant or a global. *)
Definition ok_init (l : list BInstr) : bool :=
  match l with
  | [] => true
  | [BI_CONST c] => const_ok c
  | [BI_INDEX op i] => bool_decide (op = WASM_OPCODE_GET_GLOBAL) && ok_u32 i
  | _ => false
  end.

Definition ok_limits (l : WasmLimits) : bool :=
  ok_u32 (lim_initial l) && ok_u32 (lim_max l) &&
  (negb (lim_has_max l) || (lim_initial l <=? lim_max l)).

Definition ok_memory (l : WasmLimits) : bool :=
  ok_limits l && (lim_initial l <=? WASM_MAX_PAGES) &&
  (negb (lim_has_max l) || (lim_max l <=? WASM_MAX_PAGES)).

Definition num_kind_imports (kind : WasmExternalKind) (l : list BImport) : Z :=
  Z.of_nat (length (filter (fun i => bimport_kind (bi_desc i) = kind) l)).

Definition num_of_kind (kind : WasmExternalKind) (m : BModule) : Z :=
  num_kind_imports kind (bm_imports m) +
  Z.of_nat match kind with
  | WASM_EXTERNAL_KIND_FUNC => length (bm_funcs m)
  | WASM_EXTERNAL_KIND_TABLE => length (bm_tables m)
  | WASM_EXTERNAL_KIND_MEMORY => length (bm_memories m)
  | WASM_EXTERNAL_KIND_GLOBAL => length (bm_globals m)
  end.

Definition ok_import (num_sigs : Z) (i : BImport) : bool :=
  match bi_desc i with
  | BIMPORT_FUNC sig_index => ok_u32 sig_index && (sig_index <? num_sigs)
  | BIMPORT_TABLE l => ok_limits l
  | BIMPORT_MEMORY l => ok_memory l
  | BIMPORT_GLOBAL t _ => value_type t
  end.

Definition ok_func_type (sig : WasmFuncSignature) : bool :=
  forallb value_type (param_types sig) && ok_sig (result_types sig).

Definition ok_elem (s : BElemSegment) : bool :=
  ok_u32 (bes_table s) && ok_init (bes_offset s) && forallb ok_u32 (bes_funcs s).

Definition ok_code (num_sigs num_funcs : Z) (f : BFuncBody) : bool :=
  forallb (fun r => ok_u32 (fst r) && value_type (snd r)) (bf_locals f) &&
  forallb (ok_instr num_sigs num_funcs) (bf_body f).

Definition ok_data (s : BDataSegment) : bool := ok_u32 (bd_memory s) && ok_init (bd_offset s).

Definition well_formed (m : BModule) : bool :=
  let num_sigs := Z.of_nat (length (bm_types m)) in
  let num_funcs := num_of_kind WASM_EXTERNAL_KIND_FUNC m in
  forallb ok_func_type (bm_types m) &&
  forallb (ok_import num_sigs) (bm_imports m) &&
  forallb (fun i => ok_u32 i && (i <? num_sigs)) (bm_funcs m) &&
  forallb ok_limits (bm_tables m) && (length (bm_tables m) <=? 1)%nat &&
  forallb ok_memory (bm_memories m) && (length (bm_memories m) <=? 1)%nat &&
  forallb (fun g => value_type (bg_type g) && ok_init (bg_init g)) (bm_globals m) &&
  forallb (fun e => ok_u32 (be_index e) && (be_index e <? num_of_kind (be_kind e) m)) (bm_exports m) &&
  match bm_start m with None => true | Some f => ok_u32 f && (f <? num_funcs) end &&
  forallb ok_elem (bm_elems m) &&
  (bool_decide (bm_elems m = []) || (0 <? num_of_kind WASM_EXTERNAL_KIND_TABLE m)) &&
  forallb (ok_code num_sigs num_funcs) (bm_codes m) && (length (bm_codes m) =? length (bm_funcs m))%nat &&
  forallb ok_data (bm_datas m) &&
  (bool_decide (bm_datas m = []) || (0 <? num_of_kind WASM_EXTERNAL_KIND_MEMORY m)) &&
  match bm_names m with
  | None => true
  | Some names =>
      (Z.of_nat (length names) <=? num_funcs) &&
      (bool_decide (bm_types m = []) || negb (bool_decide (bm_imports m = [])) ||
       negb (bool_decide (bm_funcs m = [])))
  end.
