(* ===== verification/Compile.v ===== *)
(** * What the loader's translation means

    The structured translation of function bodies that the callbacks of
    binary-reader-interpreter.c compute in one pass: code is a list of cells,
    in which the target of a forward branch is the name of its label and the
    target of a call is the function, and leaving a block puts the address of
    its end in the place of its name.  The type stack has its top first.

    [Rejected] is an error the loader reports, [Crashed] a failed assertion. *)

From S2P Require Import Prelude Opcode Ast BinaryReader BinaryFormat Numeric Interp BinaryReaderInterpreter.

(** ** Results *)

Inductive Res (A : Type) : Type :=
| Ok (a : A)
| Rejected
| Crashed.
Arguments Ok {A} _.
Arguments Rejected {A}.
Arguments Crashed {A}.

Definition res_bind {A B} (r : Res A) (k : A -> Res B) : Res B :=
  match r with Ok a => k a | Rejected => Rejected | Crashed => Crashed end.

Declare Scope res_scope.
Delimit Scope res_scope with res.
Notation "x <- m ;; k" := (res_bind m%res (fun x => k%res))
  (at level 100, m at next level, right associativity) : res_scope.
Notation "'let*' p := m ;; k" := (res_bind m%res (fun x => match x with p => k%res end))
  (at level 100, p pattern, m at next level, right associativity) : res_scope.
#[local] Open Scope res_scope.

Definition reject_if (b : bool) : Res unit := if b then Rejected else Ok tt.
Definition crash_if (b : bool) : Res unit := if b then Crashed else Ok tt.

(** ** Code with names *)

(** [Ref n] is the end of the [n]-th label from outside, [FuncRef i] the code
    of the [i]-th function of the module's code section; both take four
    bytes. *)
Inductive Cell : Type :=
| Byte (b : Z)
| Ref (label : nat)
| FuncRef (func : nat).

Definition placeholder : list Z := le_bytes 4 WASM_INVALID_OFFSET.

Definition cell_bytes (x : Cell) : list Z := match x with Byte b => [b] | _ => placeholder end.

(** The bytes while the names are not known. *)
Definition flat (cells : list Cell) : list Z := concat (map cell_bytes cells).

Definition cells_size (cells : list Cell) : Z := Z.of_nat (length (flat cells)).

Definition raw (bytes : list Z) : list Cell := map Byte bytes.

(** [addr] for the name. *)
Definition resolve_cell (name : Cell -> bool) (addr : Z) (x : Cell) : list Cell :=
  if name x then raw (le_bytes 4 addr) else [x].

Definition resolve_cells (name : Cell -> bool) (addr : Z) (cells : list Cell) : list Cell :=
  concat (map (resolve_cell name addr) cells).

Definition is_ref (n : nat) (x : Cell) : bool :=
  match x with Ref m => bool_decide (m = n) | _ => false end.
Definition is_func_ref (i : nat) (x : Cell) : bool :=
  match x with FuncRef j => bool_decide (j = i) | _ => false end.

(** ** What a body can refer to *)

(** A host function, by its index; a function whose code is in place; and one
    of the module's own whose code is still to come. *)
Inductive Callee : Type :=
| HostCallee (index : Z)
| CodeCallee (offset : Z)
| LaterCallee (func : nat).

Record Target : Type := mkTarget {
  t_locals : list WasmType;
  t_results : list WasmType;
  t_func : Z -> option (FuncSignature * Callee);
  t_sig : Z -> option (Z * FuncSignature);
  t_global : Z -> option (Z * WasmType * bool);
  t_memory : Z;
  t_table : Z
}.

(** A label: where a loop begins, the types of the block and the type stack at
    its entry. *)
Record RLabel : Type := mkRLabel {
  rl_loop : option Z;
  rl_sig : list WasmType;
  rl_entry : list WasmType
}.

(** ** Type stacks *)

Abbreviation Types := (list WasmType).

(** In code that cannot be reached the top of the stack is [WASM_TYPE_ANY]. *)
Definition dead (S : Types) : bool := bool_decide (head S = Some WASM_TYPE_ANY).

Definition unreachable_from (entry : Types) : Types :=
  if dead entry then entry else WASM_TYPE_ANY :: entry.

(** The types pushed by [entry]'s block. *)
Definition above (entry S : Types) : nat := (length S - length entry)%nat.

(** The stack must end in [types], the last one on top. *)
Definition expect (entry types S : Types) : Res unit :=
  reject_if (negb (dead S) &&
    ((above entry S <? length types)%nat || negb (bool_decide (take (length types) S = rev types)))).

Definition pops (entry types S : Types) : Res Types :=
  if dead S then Ok S else _ <- expect entry types S ;; Ok (drop (length types) S).

(** The pops the code does one by one without looking for [WASM_TYPE_ANY]. *)
Definition pops_each (entry types S : Types) : Res Types :=
  _ <- crash_if (dead S && (0 <? length types)%nat && (length S <=? length entry)%nat) ;;
  pops entry types S.

Definition pushes (types S : Types) : Types :=
  if dead S then S else rev (filter (fun t => t <> WASM_TYPE_VOID) types) ++ S.

(** ** Code *)

Section compile.
Context (T : Target).

Definition opcode_cell (op : InterpOpcode) : Cell := Byte (interp_opcode_code op).
Definition op_cell (op : WasmOpcode) : Cell := opcode_cell (WasmOp op).
Definition u32_cells (v : Z) : list Cell := raw (le_bytes 4 v).
Definition u64_cells (v : Z) : list Cell := raw (le_bytes 8 v).

Definition drop_keep (drop keep : nat) : list Cell :=
  match drop with
  | O => []
  | _ =>
      if (drop =? 1)%nat && (keep =? 0)%nat then [op_cell WASM_OPCODE_DROP]
      else opcode_cell WASM_OPCODE_DROP_KEEP :: u32_cells (Z.of_nat drop) ++ [Byte (Z.of_nat keep)]
  end.

(** The labels have the innermost first. *)
Definition label_at (L : list RLabel) (depth : Z) : option RLabel := L !! Z.to_nat depth.

Definition arity (l : RLabel) : nat := match rl_loop l with Some _ => 0 | None => length (rl_sig l) end.

(** The values a branch to the label drops. *)
Definition br_drop (l : RLabel) (S : Types) : Res nat :=
  _ <- crash_if (length S <? length (rl_entry l) + arity l)%nat ;;
  Ok (length S - length (rl_entry l) - arity l)%nat.

Definition target_cells (L : list RLabel) (depth : Z) (l : RLabel) : list Cell :=
  match rl_loop l with
  | Some start => u32_cells start
  | None => [Ref (length L - 1 - Z.to_nat depth)]
  end.

Definition br_cells (L : list RLabel) (depth : Z) (l : RLabel) (S : Types) : Res (list Cell) :=
  drop <- br_drop l S ;;
  Ok (drop_keep drop (arity l) ++ op_cell WASM_OPCODE_BR :: target_cells L depth l).

(** The type stack at the entry of the innermost block. *)
Definition entry_of (L : list RLabel) : Types := match L with l :: _ => rl_entry l | [] => [] end.

Definition value_or_crash {A} (o : option A) : Res A := match o with Some a => Ok a | None => Crashed end.
Definition value_or_reject {A} (o : option A) : Res A := match o with Some a => Ok a | None => Rejected end.

Definition comp_op (E S : Types) (op : WasmOpcode) : Res (list Cell * Types) :=
  match op with
  | WASM_OPCODE_UNREACHABLE => Ok ([op_cell op], unreachable_from E)
  | WASM_OPCODE_NOP => Ok ([], S)
  | WASM_OPCODE_RETURN =>
      _ <- expect E (t_results T) S ;;
      let arity := length (t_results T) in
      Ok ((if dead S then [] else drop_keep (length S - arity) arity) ++ [op_cell op], unreachable_from E)
  | WASM_OPCODE_DROP =>
      _ <- crash_if (dead S && (length S <=? length E)%nat) ;;
      _ <- reject_if (negb (dead S) && (above E S <? 1)%nat) ;;
      Ok ([op_cell op], if dead S then S else tail S)
  | WASM_OPCODE_SELECT =>
      S <- pops E [WASM_TYPE_I32] S ;;
      _ <- crash_if (dead S && (length S <=? length E)%nat) ;;
      _ <- reject_if (negb (dead S) &&
                      ((above E S <? 2)%nat || negb (bool_decide (S !! 0%nat = S !! 1%nat)))) ;;
      Ok ([op_cell op], if dead S then S else tail S)
  | _ =>
      S <- pops E (match opcode_group op with
                   | Some GROUP_BINARY | Some GROUP_COMPARE =>
                       [wasm_get_opcode_param_type_1 op; wasm_get_opcode_param_type_2 op]
                   | _ => [wasm_get_opcode_param_type_1 op]
                   end) S ;;
      Ok ([op_cell op], pushes [wasm_get_opcode_result_type op] S)
  end.

Definition comp_call (E S : Types) (index : Z) : Res (list Cell * Types) :=
  let* (sig, callee) := value_or_crash (t_func T index) ;;
  S <- pops_each E (param_types sig) S ;;
  Ok (match callee with
      | HostCallee i => opcode_cell WASM_OPCODE_CALL_HOST :: u32_cells i
      | CodeCallee offset => op_cell WASM_OPCODE_CALL :: u32_cells offset
      | LaterCallee i => [op_cell WASM_OPCODE_CALL; FuncRef i]
      end, pushes (result_types sig) S).

(** Where the operand of a [BR_UNLESS] at [pos] points: past [cells]. *)
Definition br_unless (pos : Z) (cells : list Cell) : list Cell :=
  opcode_cell WASM_OPCODE_BR_UNLESS :: u32_cells (pos + 5 + cells_size cells) ++ cells.

Definition comp_index (L : list RLabel) (pos : Z) (S : Types) (op : WasmOpcode) (index : Z) :
    Res (list Cell * Types) :=
  let E := entry_of L in
  let local_cells S := u32_cells (Z.of_nat (length S) - index) in
  match op with
  | WASM_OPCODE_BR =>
      l <- value_or_reject (label_at L index) ;;
      _ <- match rl_loop l with Some _ => Ok tt | None => expect E (rl_sig l) S end ;;
      cells <- br_cells L index l S ;;
      Ok (cells, unreachable_from E)
  | WASM_OPCODE_BR_IF =>
      l <- value_or_reject (label_at L index) ;;
      S <- pops E [WASM_TYPE_I32] S ;;
      cells <- br_cells L index l S ;;
      Ok (br_unless pos cells, S)
  | WASM_OPCODE_CALL => comp_call E S index
  | WASM_OPCODE_GET_GLOBAL =>
      let* (i, t, _) := value_or_reject (t_global T index) ;;
      Ok (op_cell op :: u32_cells i, pushes [t] S)
  | WASM_OPCODE_SET_GLOBAL =>
      let* (i, t, mutable_) := value_or_reject (t_global T index) ;;
      _ <- reject_if (negb mutable_) ;;
      S <- pops E [t] S ;;
      Ok (op_cell op :: u32_cells i, S)
  | WASM_OPCODE_GET_LOCAL =>
      t <- value_or_reject (zget (t_locals T) index) ;;
      Ok (op_cell op :: local_cells S, pushes [t] S)
  | WASM_OPCODE_SET_LOCAL =>
      t <- value_or_reject (zget (t_locals T) index) ;;
      S <- pops E [t] S ;;
      Ok (op_cell op :: local_cells S, S)
  | WASM_OPCODE_TEE_LOCAL =>
      t <- value_or_reject (zget (t_locals T) index) ;;
      _ <- reject_if (negb (dead S) && (above E S <? 1)%nat) ;;
      _ <- crash_if (dead S && (length S <=? length E)%nat) ;;
      _ <- expect E [t] S ;;
      Ok (op_cell op :: local_cells S, S)
  | _ => Crashed
  end.

(** An entry of the table of a [BR_TABLE]. *)
Definition table_entry (L : list RLabel) (S : Types) (depth : Z) : Res (list Cell) :=
  l <- value_or_crash (label_at L depth) ;;
  _ <- expect (entry_of L) (rl_sig l) S ;;
  drop <- br_drop l S ;;
  Ok (target_cells L depth l ++ u32_cells (Z.of_nat drop) ++ [Byte (Z.of_nat (arity l))]).

Fixpoint table_entries (L : list RLabel) (S : Types) (depths : list Z) : Res (list Cell) :=
  match depths with
  | [] => Ok []
  | depth :: depths =>
      entry <- table_entry L S depth ;;
      entries <- table_entries L S depths ;;
      Ok (entry ++ entries)
  end.

Definition comp_br_table (L : list RLabel) (pos : Z) (S : Types) (targets : list Z) (default_ : Z) :
    Res (list Cell * Types) :=
  let n := Z.of_nat (length targets) in
  S <- pops (entry_of L) [WASM_TYPE_I32] S ;;
  entries <- table_entries L S (targets ++ [default_]) ;;
  Ok (op_cell WASM_OPCODE_BR_TABLE :: u32_cells n ++ u32_cells (pos + 14) ++
      opcode_cell WASM_OPCODE_DATA :: u32_cells ((n + 1) * WASM_TABLE_ENTRY_SIZE) ++ entries,
      unreachable_from (entry_of L)).

Definition comp_call_indirect (E S : Types) (sig_index : Z) : Res (list Cell * Types) :=
  let* (i, sig) := value_or_crash (t_sig T sig_index) ;;
  S <- pops E [WASM_TYPE_I32] S ;;
  S <- pops_each E (param_types sig) S ;;
  Ok (op_cell WASM_OPCODE_CALL_INDIRECT :: u32_cells (t_table T) ++ u32_cells i,
      pushes (result_types sig) S).

Definition comp_const (S : Types) (c : WasmConst) : list Cell * Types :=
  match const_type c with
  | WASM_TYPE_I32 => (op_cell WASM_OPCODE_I32_CONST :: u32_cells (const_bits c), pushes [WASM_TYPE_I32] S)
  | WASM_TYPE_I64 => (op_cell WASM_OPCODE_I64_CONST :: u64_cells (const_bits c), pushes [WASM_TYPE_I64] S)
  | WASM_TYPE_F32 => (op_cell WASM_OPCODE_F32_CONST :: u32_cells (const_bits c), pushes [WASM_TYPE_F32] S)
  | _ => (op_cell WASM_OPCODE_F64_CONST :: u64_cells (const_bits c), pushes [WASM_TYPE_F64] S)
  end.

Definition comp_memory (E S : Types) (op : WasmOpcode) (offset : Z) : Res (list Cell * Types) :=
  S <- pops E (match opcode_group op with
               | Some GROUP_STORE => [wasm_get_opcode_param_type_1 op; wasm_get_opcode_param_type_2 op]
               | _ => [wasm_get_opcode_param_type_1 op]
               end) S ;;
  Ok (op_cell op :: u32_cells (t_memory T) ++ u32_cells offset,
      pushes [wasm_get_opcode_result_type op] S).

Definition comp_reserved (E S : Types) (op : WasmOpcode) : Res (list Cell * Types) :=
  S <- match op with WASM_OPCODE_GROW_MEMORY => pops E [WASM_TYPE_I32] S | _ => Ok S end ;;
  Ok (op_cell op :: u32_cells (t_memory T), pushes [WASM_TYPE_I32] S).

(** ** Blocks *)

(** At the end of a block its types are all there is above the entry. *)
Definition finish (entry sig S : Types) : Res Types :=
  _ <- expect entry sig S ;;
  _ <- reject_if (negb (dead S) && negb (above entry S =? length sig)%nat) ;;
  Ok (pushes sig entry).

(** The branch over the other arm, ending at [addr]. *)
Definition jump_over (addr : Z) : list Cell := op_cell WASM_OPCODE_BR :: u32_cells addr.

(** The operands of a [br_if] that is taken. *)
Definition strict_index (L : list RLabel) (S : Types) (op : WasmOpcode) (index : Z) : Res unit :=
  match op with
  | WASM_OPCODE_BR_IF =>
      l <- value_or_reject (label_at L index) ;;
      S <- pops (entry_of L) [WASM_TYPE_I32] S ;;
      match rl_loop l with Some _ => Ok tt | None => expect (entry_of L) (rl_sig l) S end
  | _ => Ok tt
  end.

(** [strict] asks for what WebAssembly does and the loader does not: the types
    of the label at a [br_if], nothing else on the stack at an [else], and no
    result from an [if] without one. *)
Fixpoint comp (strict : bool) (L : list RLabel) (pos : Z) (S : Types) (i : BInstr) :
    Res (list Cell * Types) :=
  let comps L := fix go (pos : Z) (S : Types) (l : list BInstr) : Res (list Cell * Types) :=
    match l with
    | [] => Ok ([], S)
    | i :: l =>
        let* (c1, S1) := comp strict L pos S i ;;
        let* (c2, S2) := go (pos + cells_size c1) S1 l ;;
        Ok (c1 ++ c2, S2)
    end in
  let E := entry_of L in
  match i with
  | BI_OP op => comp_op E S op
  | BI_INDEX op index =>
      _ <- (if strict then strict_index L S op index else Ok tt) ;;
      comp_index L pos S op index
  | BI_BR_TABLE targets default_target => comp_br_table L pos S targets default_target
  | BI_CALL_INDIRECT sig_index => comp_call_indirect E S sig_index
  | BI_CONST c => Ok (comp_const S c)
  | BI_MEMORY op _ offset => comp_memory E S op offset
  | BI_RESERVED op => comp_reserved E S op
  | BI_BLOCK sig body =>
      let* (c, S1) := comps (mkRLabel None sig S :: L) pos S body ;;
      S' <- finish S sig S1 ;;
      Ok (resolve_cells (is_ref (length L)) (pos + cells_size c) c, S')
  | BI_LOOP sig body =>
      let* (c, S1) := comps (mkRLabel (Some pos) sig S :: L) pos S body ;;
      S' <- finish S sig S1 ;;
      Ok (c, S')
  | BI_IF sig true_ false_ =>
      E0 <- pops E [WASM_TYPE_I32] S ;;
      let L' := mkRLabel None sig E0 :: L in
      let* (c1, S1) := comps L' (pos + 5) E0 true_ ;;
      match false_ with
      | [] =>
          S' <- finish E0 sig S1 ;;
          _ <- reject_if (strict && negb (bool_decide (sig = []))) ;;
          Ok (resolve_cells (is_ref (length L)) (pos + 5 + cells_size c1) (br_unless pos c1), S')
      | _ =>
          _ <- expect E0 sig S1 ;;
          _ <- (if strict then _ <- finish E0 sig S1 ;; Ok tt else Ok tt) ;;
          let pos2 := pos + 10 + cells_size c1 in
          let* (c2, S2) := comps L' pos2 E0 false_ ;;
          S' <- finish E0 sig S2 ;;
          let end_ := pos2 + cells_size c2 in
          Ok (resolve_cells (is_ref (length L)) end_ (br_unless pos (c1 ++ jump_over end_) ++ c2), S')
      end
  end.

Fixpoint comps (strict : bool) (L : list RLabel) (pos : Z) (S : Types) (l : list BInstr) :
    Res (list Cell * Types) :=
  match l with
  | [] => Ok ([], S)
  | i :: l =>
      let* (c1, S1) := comp strict L pos S i ;;
      let* (c2, S2) := comps strict L (pos + cells_size c1) S1 l ;;
      Ok (c1 ++ c2, S2)
  end.

(** What [strict] asks for and nothing else: the types of the label at a
    [br_if], the end of the first arm of an [if], and that an [if] without a
    second has no result.  The type stacks are those of the loader. *)
Definition is_ok {A} (r : Res A) : bool := match r with Ok _ => true | _ => false end.

Fixpoint extra (L : list RLabel) (pos : Z) (S : Types) (i : BInstr) : bool :=
  let extras L := fix go (pos : Z) (S : Types) (l : list BInstr) : bool :=
    match l with
    | [] => true
    | i :: l =>
        extra L pos S i &&
        match comp false L pos S i with Ok (c, S1) => go (pos + cells_size c) S1 l | _ => true end
    end in
  match i with
  | BI_INDEX op index => is_ok (strict_index L S op index)
  | BI_BLOCK sig body => extras (mkRLabel None sig S :: L) pos S body
  | BI_LOOP sig body => extras (mkRLabel (Some pos) sig S :: L) pos S body
  | BI_IF sig true_ false_ =>
      match pops (entry_of L) [WASM_TYPE_I32] S with
      | Ok E0 =>
          let L' := mkRLabel None sig E0 :: L in
          extras L' (pos + 5) E0 true_ &&
          match comps false L' (pos + 5) E0 true_ with
          | Ok (c1, S1) =>
              match false_ with
              | [] => bool_decide (sig = [])
              | _ => is_ok (finish E0 sig S1) && extras L' (pos + 10 + cells_size c1) E0 false_
              end
          | _ => true
          end
      | _ => true
      end
  | _ => true
  end.

Fixpoint extras (L : list RLabel) (pos : Z) (S : Types) (l : list BInstr) : bool :=
  match l with
  | [] => true
  | i :: l =>
      extra L pos S i &&
      match comp false L pos S i with Ok (c, S1) => extras L (pos + cells_size c) S1 l | _ => true end
  end.

(** ** Functions *)

(** The types of the locals a body declares. *)
Definition expand_locals (locals : list (Z * WasmType)) : list WasmType :=
  concat (map (fun r => replicate (Z.to_nat (fst r)) (snd r)) locals).

(** A body whose locals, parameters included, are [t_locals T]. *)
Definition comp_body (strict : bool) (pos : Z) (f : BFuncBody) : Res (list Cell) :=
  let n := length (expand_locals (bf_locals f)) in
  let alloca := match bf_locals f with
                | [] => []
                | _ => opcode_cell WASM_OPCODE_ALLOCA :: u32_cells (Z.of_nat n)
                end in
  let E := rev (t_locals T) in
  let* (c, S1) := comps strict [mkRLabel None (t_results T) E] (pos + cells_size alloca) E (bf_body f) ;;
  _ <- finish E (t_results T) S1 ;;
  Ok (resolve_cells (is_ref 0) (pos + cells_size alloca + cells_size c) (alloca ++ c) ++
      drop_keep (length E) (length (t_results T)) ++ [op_cell WASM_OPCODE_RETURN]).

(** The extra checks of a body whose code begins at [pos]. *)
Definition extra_body (pos : Z) (f : BFuncBody) : bool :=
  let alloca := match bf_locals f with [] => 0 | _ => 5 end in
  let E := rev (t_locals T) in
  extras [mkRLabel None (t_results T) E] (pos + alloca) E (bf_body f).
End compile.

(** ** The code section *)

Section code_section.
(** The loader's context when the code section begins. *)
Context (c : Context).

(** Function [i] of the module, with the code of the first [length offsets] of
    its own functions in place. *)
Definition body_callee (offsets : list Z) (i env_index : Z) (f : Func) : Callee :=
  if i <? num_func_imports c then
    match func_body f with
    | HostFunc _ _ _ => HostCallee env_index
    | DefinedFunc offset _ _ _ => CodeCallee offset
    end
  else
    let j := Z.to_nat (i - num_func_imports c) in
    match offsets !! j with Some offset => CodeCallee offset | None => LaterCallee j end.

Definition own_module : option WasmInterpreterModule := zget (env_modules (ctx_env c)) (ctx_module c).

Definition body_target (offsets : list Z) (locals results : list WasmType) : Target :=
  mkTarget locals results
    (fun i => ei ← zget (func_index_mapping c) i; f ← zget (env_funcs (ctx_env c)) ei;
              sig ← zget (env_sigs (ctx_env c)) (func_sig_index f);
              Some (sig, body_callee offsets i ei f))
    (fun i => ei ← zget (sig_index_mapping c) i; sig ← zget (env_sigs (ctx_env c)) ei; Some (ei, sig))
    (fun i => ei ← zget (global_index_mapping c) i; g ← zget (env_globals (ctx_env c)) ei;
              Some (ei, tv_type (gl_typed_value g), gl_mutable g))
    (from_option module_memory_index WASM_INVALID_INDEX own_module)
    (from_option module_table_index WASM_INVALID_INDEX own_module).

(** Where function [j] of the code section is in the environment, and its
    signature. *)
Definition own_func (j : nat) : option (Z * Z * FuncSignature) :=
  ei ← zget (func_index_mapping c) (num_func_imports c + Z.of_nat j);
  f ← zget (env_funcs (ctx_env c)) ei;
  sig ← zget (env_sigs (ctx_env c)) (func_sig_index f);
  Some (ei, func_sig_index f, sig).

(** The next function: its offset becomes known, its code follows. *)
Definition comp_function (strict : bool) (base : Z) (offsets : list Z) (cells : list Cell) (f : BFuncBody) :
    Res (list Z * list Cell) :=
  let* (_, _, sig) := value_or_crash (own_func (length offsets)) ;;
  let pos := base + cells_size cells in
  let offsets := offsets ++ [pos] in
  code <- comp_body (body_target offsets (param_types sig ++ expand_locals (bf_locals f)) (result_types sig))
            strict pos f ;;
  Ok (offsets, resolve_cells (is_func_ref (length offsets - 1)) pos cells ++ code).

Fixpoint comp_codes (strict : bool) (base : Z) (offsets : list Z) (cells : list Cell) (codes : list BFuncBody) :
    Res (list Z * list Cell) :=
  match codes with
  | [] => Ok (offsets, cells)
  | f :: codes =>
      let* (offsets, cells) := comp_function strict base offsets cells f ;;
      comp_codes strict base offsets cells codes
  end.

(** The extra checks of the functions of a code section. *)
Fixpoint extra_codes (base : Z) (offsets : list Z) (cells : list Cell) (codes : list BFuncBody) : bool :=
  match codes with
  | [] => true
  | f :: codes =>
      let pos := base + cells_size cells in
      match own_func (length offsets) with
      | Some (_, _, sig) =>
          extra_body (body_target (offsets ++ [pos]) (param_types sig ++ expand_locals (bf_locals f)) (result_types sig)) pos f
      | None => true
      end &&
      match comp_function false base offsets cells f with
      | Ok (offsets, cells) => extra_codes base offsets cells codes
      | _ => true
      end
  end.
End code_section.
