(* ===== verification/WriterFacts.v ===== *)
(** * The binary writer implements the binary format

    Over any writer that keeps its promises ([WriterWrites], and [WriterMoves]
    when sizes are written in as few bytes as they need), [write_module]
    writes the encoding of the binary module the syntax tree stands for.
    [emits m a bs] says that a piece [m] of the writer appends [bs] and gives
    [a]; the rules compose such statements along the code. *)

From S2P Require Import Prelude Opcode Leb128 Ast BindingHash Vector StateOpt Stream BinaryWriter BinaryReader BinaryFormat.

Section emits.
Context {W : Type} `{WasmWriter W} {rep : W -> list Z -> Prop} {writes : WriterWrites W rep}.
Context (opts : WasmWriteBinaryOptions).
Context (moves : canonicalize_lebs opts = true -> WriterMoves W rep).

Abbreviation Wr := (SO (WriteContext W)).
Abbreviation St := (SO (WasmStream W)).

Abbreviation zlen l := (Z.of_nat (length l)).

(** The stream has written [bytes], at its end, and has not failed. *)
Definition stream_at (s : WasmStream W) (bytes : list Z) : Prop :=
  rep (stream_writer s) bytes /\ stream_offset s = zlen bytes /\ stream_result s = WASM_OK.

Definition written (c : WriteContext W) (bytes : list Z) : Prop :=
  stream_at (wr_stream c) bytes /\ wr_options c = opts.

Definition emits {A} (m : Wr A) (a : A) (bs : list Z) : Prop := forall c bytes,
  written c bytes -> zlen (bytes ++ bs) < OUTPUT_LIMIT ->
  exists c', m c = Some (a, c') /\ written c' (bytes ++ bs) /\
    last_section_offset c' = last_section_offset c /\
    last_section_leb_size_guess c' = last_section_leb_size_guess c.

(** The same on the stream itself. *)
Definition puts (m : St unit) (bs : list Z) : Prop := forall s bytes,
  stream_at s bytes -> zlen (bytes ++ bs) < OUTPUT_LIMIT ->
  exists s', m s = Some (tt, s') /\ stream_at s' (bytes ++ bs).

(** ** Rules *)

Lemma puts_data bs : puts (wasm_write_data bs) bs.
Proof.
  intros s bytes (Hr & Ho & Hres) Hl. rewrite length_app in Hl.
  unfold wasm_write_data, wasm_write_data_at, so_bind, so_get. rewrite Hres. cbn [WASM_FAILED].
  unfold call_writer. rewrite Ho.
  destruct (write_data_ok (stream_writer s) bytes (zlen bytes) bs) as (w' & -> & Hw'); [done|lia|lia|].
  unfold add_offset, so_modify. cbn [stream_writer stream_offset stream_result].
  eexists. split; [reflexivity|]. rewrite overwrite_end in Hw'. split_and!; [done| |done].
  cbn [stream_offset]. rewrite length_app, wrap_id; [lia|]. unfold OUTPUT_LIMIT in *. ulia.
Qed.

Lemma puts_lift (o : option (list Z)) bs (k : list Z -> St unit) :
  o = Some bs -> puts (k bs) bs -> puts (so_bind (so_lift o) k) bs.
Proof. intros -> Hk s bytes Hs Hl. by apply Hk. Qed.

Lemma puts_seq m1 m2 bs1 bs2 : puts m1 bs1 -> puts m2 bs2 ->
  puts (so_bind m1 (fun _ => m2)) (bs1 ++ bs2).
Proof.
  intros H1 H2 s bytes Hs Hl. unfold so_bind. rewrite app_assoc in Hl |- *.
  destruct (H1 s bytes Hs) as (s1 & -> & Hs1); [rewrite length_app in Hl; lia|].
  by apply H2.
Qed.

Lemma puts_nil : puts (so_ret tt) [].
Proof. intros s bytes Hs Hl. eexists. rewrite app_nil_r. by split. Qed.

Lemma puts_u8 v : v <= 255 -> puts (wasm_write_u8 v) [v].
Proof.
  intros Hv. unfold wasm_write_u8, so_assert. rewrite (proj2 (Z.leb_le _ _)) by lia. apply puts_data.
Qed.

(** [wasm_write_u32_leb128] and the raw data of the same bytes. *)
Lemma puts_u32_leb v : puts (wasm_write_u32_leb128 v) (enc_u32 (u32 v)).
Proof.
  intros s bytes Hs Hl. pose proof (puts_data (enc_u32 (u32 v)) s bytes Hs Hl) as Hp.
  unfold enc_u32 in *. destruct (u32_leb128_encodes (u32 v)) as (l & E & Hlen & _); [by apply wrap_in_u|].
  rewrite E in *. cbn [default from_option id] in *.
  destruct Hs as (_ & Ho & _). revert Hp.
  unfold wasm_write_data, wasm_write_u32_leb128, wasm_write_u32_leb128_at, so_bind, so_get, so_lift, so_ret.
  rewrite E, (wrap_id 32 (stream_offset s)).
  - by destruct (wasm_write_data_at (stream_offset s) l s) as [[[] s']|].
  - rewrite length_app in Hl. unfold OUTPUT_LIMIT in Hl. ulia.
Qed.

Definition set_stream (c : WriteContext W) (s : WasmStream W) : WriteContext W :=
  mkWriteContext s (wr_options c) (last_section_offset c) (last_section_leb_size_guess c).

Lemma on_stream_Some {A} (m : St A) c a s : m (wr_stream c) = Some (a, s) ->
  on_stream m c = Some (a, set_stream c s).
Proof. unfold on_stream. by intros ->. Qed.

Lemma on_stream_if (b : bool) (m : St unit) c :
  (if b then on_stream m else so_ret tt) c = on_stream (if b then m else so_ret tt) c.
Proof. by destruct b, c. Qed.

Lemma emits_stream m bs : puts m bs -> emits (on_stream m) tt bs.
Proof.
  intros Hm c bytes (Hs & Ho) Hl. unfold on_stream.
  destruct (Hm _ _ Hs Hl) as (s' & -> & Hs'). by eexists.
Qed.

Lemma emits_bind {A B} (m : Wr A) (k : A -> Wr B) a b bs1 bs2 :
  emits m a bs1 -> emits (k a) b bs2 -> emits (so_bind m k) b (bs1 ++ bs2).
Proof.
  intros H1 H2 c bytes Hc Hl. unfold so_bind. rewrite app_assoc in Hl |- *.
  destruct (H1 c bytes Hc) as (c1 & -> & Hc1 & E1 & E2); [rewrite length_app in Hl; lia|].
  destruct (H2 c1 _ Hc1 Hl) as (c2 & -> & Hc2 & E3 & E4). eexists. split_and!; [done..|congruence|congruence].
Qed.

Lemma emits_ret {A} (a : A) : emits (so_ret a) a [].
Proof. intros c bytes Hc Hl. eexists. rewrite app_nil_r. by split_and!. Qed.

Lemma emits_silent {A B} (m : Wr A) (k : A -> Wr B) a b bs :
  emits m a [] -> emits (k a) b bs -> emits (so_bind m k) b bs.
Proof. intros H1 H2. by apply (emits_bind m k a b [] bs). Qed.

Lemma emits_end {A} (m : Wr A) a bs bs' : emits m a bs -> bs' = bs ++ [] -> emits m a bs'.
Proof. intros Hm ->. by rewrite app_nil_r. Qed.

Lemma emits_lift {A} (o : option A) a : o = Some a -> emits (so_lift o) a [].
Proof. intros ->. apply emits_ret. Qed.

Lemma emits_u32 v : emits (on_stream (wasm_write_u32_leb128 v)) tt (enc_u32 (u32 v)).
Proof. apply emits_stream, puts_u32_leb. Qed.

Lemma emits_index v : emits (write_index v) tt (enc_u32 (u32 v)).
Proof. apply emits_u32. Qed.

Lemma emits_u8 v : v <= 255 -> emits (on_stream (wasm_write_u8 v)) tt [v].
Proof. intros. by apply emits_stream, puts_u8. Qed.

Lemma emits_data bs : emits (on_stream (wasm_write_data bs)) tt bs.
Proof. apply emits_stream, puts_data. Qed.

Lemma emits_opcode op : emits (on_stream (wasm_write_opcode op)) tt (enc_op op).
Proof.
  apply emits_u8. pose proof (opcode_code_range op) as Hr. unfold WASM_NUM_OPCODES in Hr. lia.
Qed.

Lemma emits_i32 v : in_s 32 v -> emits (on_stream (wasm_write_i32_leb128 v)) tt (enc_s32 v).
Proof.
  intros Hv. apply emits_stream. unfold enc_s32. destruct (i32_leb128_encodes v Hv) as (l & E & _).
  rewrite E. by eapply puts_lift; [|apply puts_data].
Qed.

Lemma emits_i64 v : in_s 64 v -> emits (on_stream (write_i64_leb128 v)) tt (enc_s64 v).
Proof.
  intros Hv. apply emits_stream. unfold enc_s64. destruct (i64_leb128_encodes v Hv) as (l & E & _).
  rewrite E. by eapply puts_lift; [|apply puts_data].
Qed.

Lemma emits_type t : emits (on_stream (wasm_write_type t)) tt (enc_type t).
Proof. apply emits_i32. destruct t; unfold in_s; cbn; zpow; lia. Qed.

(** Lengths are exact, since what follows has as many bytes. *)
Lemma enc_u32_small n (bs : list Z) : Z.of_nat n <= zlen bs -> zlen bs < OUTPUT_LIMIT ->
  u32 (Z.of_nat n) = Z.of_nat n.
Proof. intros. apply wrap_id. unfold OUTPUT_LIMIT in *. ulia. Qed.

(** A length written before as many bytes. *)
Lemma emits_len {A B} (l : list A) (m : Wr B) b bs :
  (length l <= length bs)%nat -> emits m b bs ->
  emits (so_bind (on_stream (wasm_write_u32_leb128 (zlen l))) (fun _ => m)) b (enc_len l ++ bs).
Proof.
  intros Hl Hm c bytes Hc Hlim.
  pose proof (emits_bind _ (fun _ => m) tt b _ bs (emits_u32 (zlen l)) Hm) as He.
  rewrite (enc_u32_small (length l) bs) in He; [by apply He|lia|].
  rewrite !length_app in Hlim. lia.
Qed.

Lemma emits_for {A B} (f : A -> Wr unit) (enc : B -> list Z) l l' :
  Forall2 (fun x y => emits (f x) tt (enc y)) l l' -> emits (so_for f l) tt (concat (map enc l')).
Proof.
  induction 1 as [|x y l l' Hx _ IH]; cbn [so_for map concat]; [apply emits_ret|].
  by apply (emits_bind _ _ tt).
Qed.

Lemma length_concat_nonempty {A} (enc : A -> list Z) l :
  Forall (fun y => enc y <> []) l -> (length l <= length (concat (map enc l)))%nat.
Proof.
  induction 1 as [|y l Hy _ IH]; cbn [map concat length]; [lia|]. rewrite length_app.
  destruct (enc y); [done|]. cbn [length]. lia.
Qed.

(** A list of items after its length. *)
Lemma emits_vec {A B} (f : A -> Wr unit) (enc : B -> list Z) l l' :
  Forall2 (fun x y => emits (f x) tt (enc y) /\ enc y <> []) l l' ->
  emits (so_bind (on_stream (wasm_write_u32_leb128 (zlen l))) (fun _ => so_for f l)) tt (enc_vec enc l').
Proof.
  intros Hl. unfold enc_vec, enc_len.
  rewrite <- (Forall2_length _ _ _ Hl). change (enc_u32 (zlen l)) with (enc_len l). apply emits_len.
  - rewrite (Forall2_length _ _ _ Hl). apply length_concat_nonempty.
    eapply Forall2_Forall_r; [exact Hl|]. apply Forall_true. by intros x y [_ ?].
  - apply emits_for. eapply Forall2_impl; [exact Hl|]. by intros x y [? _].
Qed.

Lemma emits_vec_then {A B C} (f : A -> Wr unit) (enc : B -> list Z) l l' (k : Wr C) a bs :
  Forall2 (fun x y => emits (f x) tt (enc y) /\ enc y <> []) l l' -> emits k a bs ->
  emits (so_bind (on_stream (wasm_write_u32_leb128 (zlen l))) (fun _ => so_bind (so_for f l) (fun _ => k))) a
    (enc_vec enc l' ++ bs).
Proof.
  intros Hl Hk c bytes Hc Hlim. rewrite <- so_bind_assoc.
  exact (emits_bind _ (fun _ => k) tt a _ bs (emits_vec f enc l l' Hl) Hk c bytes Hc Hlim).
Qed.

(** ** Sizes *)

Definition canonical : bool := canonicalize_lebs opts.
Definition placeholder : list Z := replicate (if canonical then 1 else 5) 0.

Lemma length_placeholder_le body : zlen body < OUTPUT_LIMIT ->
  (length (placeholder ++ body) <= length (enc_sized canonical body))%nat.
Proof.
  intros Hb. unfold placeholder, enc_sized, enc_size. rewrite !length_app, length_replicate.
  destruct canonical; [|change (length (enc_fixed (zlen body))) with 5%nat; lia]. unfold enc_u32.
  destruct (u32_leb128_encodes (zlen body)) as (l & -> & Hl & _); [unfold OUTPUT_LIMIT in *; ulia|].
  cbn. lia.
Qed.

(** Data written inside what is there already. *)
Lemma write_data_at_ok s bytes off data : rep (stream_writer s) bytes -> stream_result s = WASM_OK ->
  0 <= off <= zlen bytes -> off + zlen data < OUTPUT_LIMIT ->
  exists w, wasm_write_data_at off data s = Some (tt, mkStream w (stream_offset s) WASM_OK) /\
    rep w (overwrite bytes off data).
Proof.
  intros Hr Hres Hoff Hlim. unfold wasm_write_data_at, so_bind, so_get. rewrite Hres.
  cbn [WASM_FAILED]. unfold call_writer.
  destruct (write_data_ok (stream_writer s) bytes off data) as (w' & -> & Hw'); [done..|]. by exists w'.
Qed.

Lemma leb_at_ok s bytes off v l : rep (stream_writer s) bytes -> stream_result s = WASM_OK ->
  0 <= off <= zlen bytes -> off + zlen l < OUTPUT_LIMIT -> in_u 32 v -> Write.u32_leb128 v = Some l ->
  exists w, wasm_write_u32_leb128_at off v s = Some (zlen l, mkStream w (stream_offset s) WASM_OK) /\
    rep w (overwrite bytes off l).
Proof.
  intros Hr Hres Hoff Hlim Hv El.
  destruct (write_data_at_ok s bytes off l) as (w & Ew & Hw); [done..|]. exists w. split; [|done].
  unfold wasm_write_u32_leb128_at, so_bind, so_lift. rewrite (wrap_id 32 v), El, wrap_id, Ew by
    (done || unfold OUTPUT_LIMIT in *; ulia). done.
Qed.

Lemma fixed_at_ok s bytes off v : rep (stream_writer s) bytes -> stream_result s = WASM_OK ->
  0 <= off <= zlen bytes -> off + 5 < OUTPUT_LIMIT -> in_u 32 v ->
  exists w, wasm_write_fixed_u32_leb128_at off v s = Some (5, mkStream w (stream_offset s) WASM_OK) /\
    rep w (overwrite bytes off (enc_fixed v)).
Proof.
  intros Hr Hres Hoff Hlim Hv.
  destruct (write_data_at_ok s bytes off (enc_fixed v)) as (w & Ew & Hw); [done..|]. exists w. split; [|done].
  unfold wasm_write_fixed_u32_leb128_at, so_bind, so_lift. rewrite (wrap_id 32 v) by done.
  change (Write.wasm_write_fixed_u32_leb128_raw (Z.of_nat Write.MAX_U32_LEB128_BYTES) v)
    with (Some (enc_fixed v)). cbv beta iota. rewrite wrap_id, Ew by (unfold OUTPUT_LIMIT in *; ulia). done.
Qed.

Lemma space_ok c bytes : written c bytes -> zlen (bytes ++ placeholder) < OUTPUT_LIMIT ->
  exists c', write_u32_leb128_space leb_size_guess c = Some (zlen bytes, c') /\
    written c' (bytes ++ placeholder) /\ last_section_offset c' = last_section_offset c /\
    last_section_leb_size_guess c' = last_section_leb_size_guess c.
Proof.
  intros Hc Hl. destruct (emits_data placeholder c bytes Hc Hl) as (c' & E & Hc').
  exists c'. split; [|done]. pose proof Hc as ((_ & Ho & _) & Hopts).
  unfold write_u32_leb128_space, so_assert, so_bind, so_get, leb_size_guess.
  change (1 <=? Z.of_nat Write.MAX_U32_LEB128_BYTES) with true. cbn [so_ret].
  unfold placeholder, canonical in *. rewrite Hopts. rewrite length_app, length_replicate in Hl.
  replace (Z.to_nat (if canonicalize_lebs opts then 1 else Z.of_nat Write.MAX_U32_LEB128_BYTES))
    with (if canonicalize_lebs opts then 1%nat else 5%nat) by by destruct (canonicalize_lebs opts).
  rewrite E, Ho, wrap_id; [done|]. unfold OUTPUT_LIMIT in *. ulia.
Qed.

Lemma overwrite_shift {A} (pre body : list A) x k : (1 <= k)%nat -> (k <= S (length body))%nat ->
  exists old, length old = k /\
    overwrite (pre ++ [x] ++ body) (zlen pre + Z.of_nat k) body = pre ++ old ++ body.
Proof.
  intros Hk Hkb. exists (take k (x :: body)). split; [rewrite length_take; cbn [length]; lia|].
  unfold overwrite. replace (Z.to_nat (zlen pre + Z.of_nat k)) with (length pre + k)%nat by lia.
  change ([x] ++ body) with (x :: body). rewrite drop_ge by (rewrite length_app; cbn [length]; lia).
  rewrite app_nil_r, take_app, take_ge, <- app_assoc by lia. do 3 f_equal. lia.
Qed.

(** Making room for a size of [k] bytes, if one is not enough. *)
Lemma move_ok s pre body k :
  stream_at s (pre ++ [0] ++ body) -> canonical = true -> (1 <= k)%nat ->
  (k = 1%nat \/ (k <= length body)%nat) -> zlen pre + Z.of_nat k + zlen body < OUTPUT_LIMIT ->
  exists s' old, (if negb (Z.of_nat k =? leb_size_guess)
       then wasm_move_data (u32 (zlen pre + Z.of_nat k)) (u32 (zlen pre + leb_size_guess)) (zlen body)
       else so_ret tt) s = Some (tt, s') /\
    stream_offset s' = stream_offset s /\ stream_result s' = WASM_OK /\ length old = k /\
    rep (stream_writer s') (pre ++ old ++ body).
Proof.
  intros (Hr & Ho & Hres) Hcan Hk Hkb Hlim. unfold leb_size_guess.
  destruct (Z.eqb_spec (Z.of_nat k) 1) as [E|Hne]; cbn [negb].
  { exists s, [0]. by split_and!; [| | |cbn; lia|]. }
  unfold OUTPUT_LIMIT in Hlim. rewrite !wrap_id by ulia.
  unfold wasm_move_data, so_bind, so_get. rewrite Hres. cbn [WASM_FAILED]. unfold call_writer.
  pose proof (moves Hcan) as Hm.
  destruct (move_data_ok (stream_writer s) (pre ++ [0] ++ body) (zlen pre + Z.of_nat k) (zlen pre + 1) (zlen body))
    as (w' & -> & Hw'); [done|rewrite ?length_app; cbn [length]; unfold OUTPUT_LIMIT; lia..|].
  rewrite Nat2Z.id in Hw'. replace (Z.to_nat (zlen pre + 1)) with (length (pre ++ [0])) in Hw'
    by (rewrite length_app; cbn [length]; lia).
  rewrite app_assoc, drop_app_length, take_ge, <- app_assoc in Hw' by lia.
  destruct (overwrite_shift pre body 0 k) as (old & Hold & Ew); [lia..|]. rewrite Ew in Hw'.
  by exists (mkStream w' (stream_offset s) WASM_OK), old.
Qed.

Lemma leb_length_le v l : Write.u32_leb128 v = Some l -> 0 <= v -> (length l <= 5)%nat ->
  length l = 1%nat \/ Z.of_nat (length l) <= v.
Proof.
  intros El Hv Hl. destruct (uleb_loop_lower 5 v l Hv El) as [Hone|Hlow]; [by left|].
  destruct (decide (length l = 1)%nat) as [|Hne]; [by left|right].
  destruct (decide (length l = 0)%nat); [lia|].
  pose proof (Z.pow_le_mono_r 2 7 (7 * (zlen l - 1)) ltac:(lia) ltac:(lia)) as Hp.
  change (2 ^ 7) with 128 in Hp. lia.
Qed.

Lemma fixup_canonical c pre body : canonical = true -> written c (pre ++ [0] ++ body) ->
  zlen pre + zlen (enc_u32 (zlen body)) + zlen body < OUTPUT_LIMIT ->
  exists c', write_fixup_u32_leb128_size (zlen pre) leb_size_guess c = Some (tt, c') /\
    written c' (pre ++ enc_u32 (zlen body) ++ body) /\ last_section_offset c' = last_section_offset c /\
    last_section_leb_size_guess c' = last_section_leb_size_guess c.
Proof.
  intros Hcan [Hs Hopts] Hl. pose proof Hs as (_ & Ho & _). rewrite !length_app in Ho. cbn [length] in Ho.
  unfold write_fixup_u32_leb128_size, so_bind, so_get. rewrite Hopts. fold canonical. rewrite Hcan.
  destruct (u32_leb128_read (zlen body)) as (l & El & Hlen & _); [unfold OUTPUT_LIMIT in *; ulia|].
  assert (enc_u32 (zlen body) = l) as Eenc by (unfold enc_u32; by rewrite El).
  rewrite Eenc in Hl |- *.
  assert (u32 (stream_offset (wr_stream c) - zlen pre - leb_size_guess) = zlen body) as ->.
  { rewrite Ho. unfold leb_size_guess, OUTPUT_LIMIT in *. rewrite wrap_id; ulia. }
  unfold so_lift at 1. rewrite (size_u32_leb128_length _ _ El).
  destruct (move_ok (wr_stream c) pre body (length l) Hs Hcan) as (s1 & old & Em & Eo & Er & Hold & Hr);
    [lia|destruct (leb_length_le _ _ El ltac:(lia) ltac:(lia)); [by left|right; lia]|lia|].
  rewrite on_stream_if, (on_stream_Some _ _ _ _ Em). cbn match beta.
  destruct (leb_at_ok s1 (pre ++ old ++ body) (zlen pre) (zlen body) l) as (w & Ew & Hw);
    [done..|rewrite !length_app; lia|lia|unfold OUTPUT_LIMIT in *; ulia|done|].
  rewrite (on_stream_Some _ (set_stream c s1) _ _ Ew). unfold on_stream. eexists. split; [reflexivity|].
  rewrite overwrite_middle in Hw by done. split_and!; [|done..]. split; [|done].
  split_and!; [done| |done]. cbn. rewrite Eo, Ho, !length_app. unfold leb_size_guess, OUTPUT_LIMIT in *.
  rewrite wrap_id; ulia.
Qed.

Lemma fixup_fixed c pre body : canonical = false -> written c (pre ++ replicate 5 0 ++ body) ->
  zlen pre + 5 + zlen body < OUTPUT_LIMIT ->
  exists c', write_fixup_u32_leb128_size (zlen pre) leb_size_guess c = Some (tt, c') /\
    written c' (pre ++ enc_fixed (zlen body) ++ body) /\ last_section_offset c' = last_section_offset c /\
    last_section_leb_size_guess c' = last_section_leb_size_guess c.
Proof.
  intros Hcan [(Hr & Ho & Hres) Hopts] Hl. pose proof Ho as Ho'. rewrite !length_app, length_replicate in Ho'.
  unfold write_fixup_u32_leb128_size, so_bind, so_get. rewrite Hopts. fold canonical. rewrite Hcan.
  assert (u32 (stream_offset (wr_stream c) - zlen pre - Z.of_nat Write.MAX_U32_LEB128_BYTES) = zlen body) as ->.
  { rewrite Ho'. unfold Write.MAX_U32_LEB128_BYTES, OUTPUT_LIMIT in *. rewrite wrap_id; ulia. }
  destruct (fixed_at_ok (wr_stream c) (pre ++ replicate 5 0 ++ body) (zlen pre) (zlen body)) as (w & Ew & Hw);
    [done..|rewrite !length_app; lia|lia|unfold OUTPUT_LIMIT in *; ulia|].
  rewrite (on_stream_Some _ _ _ _ Ew). eexists. split; [reflexivity|].
  rewrite overwrite_middle in Hw by done. split_and!; [|done..]. split; [|done].
  split_and!; [done| |done]. cbn [wr_stream set_stream stream_offset]. rewrite Ho. rewrite !length_app.
  by change (length (enc_fixed (zlen body))) with 5%nat.
Qed.

Lemma fixup_ok c pre body : written c (pre ++ placeholder ++ body) ->
  zlen (pre ++ enc_sized canonical body) < OUTPUT_LIMIT ->
  exists c', write_fixup_u32_leb128_size (zlen pre) leb_size_guess c = Some (tt, c') /\
    written c' (pre ++ enc_sized canonical body) /\ last_section_offset c' = last_section_offset c /\
    last_section_leb_size_guess c' = last_section_leb_size_guess c.
Proof.
  unfold placeholder, enc_sized, enc_size. intros Hc Hl. rewrite !length_app in Hl.
  destruct canonical eqn:Hcan.
  - apply fixup_canonical; [done..|lia].
  - change (length (enc_fixed (zlen body))) with 5%nat in Hl. apply fixup_fixed; [done..|lia].
Qed.

(** Something whose size is written before it. *)
Lemma emits_sized (m : Wr unit) body : emits m tt body ->
  emits (so_bind (write_u32_leb128_space leb_size_guess) (fun offset =>
         so_bind m (fun _ => write_fixup_u32_leb128_size offset leb_size_guess))) tt
    (enc_sized canonical body).
Proof.
  intros Hm c bytes Hc Hl. assert (zlen (bytes ++ placeholder ++ body) < OUTPUT_LIMIT) as Hl'.
  { rewrite length_app in Hl |- *. assert (zlen body < OUTPUT_LIMIT) as Hb.
    { unfold enc_sized in Hl. rewrite length_app in Hl. lia. }
    pose proof (length_placeholder_le body Hb). lia. }
  unfold so_bind at 1. destruct (space_ok c bytes Hc) as (c1 & -> & Hc1 & E1 & E2).
  { rewrite length_app. rewrite !length_app in Hl'. lia. }
  rewrite app_assoc in Hl'. unfold so_bind at 1. destruct (Hm c1 _ Hc1 Hl') as (c2 & -> & Hc2 & E3 & E4).
  rewrite <- app_assoc in Hc2. destruct (fixup_ok c2 bytes body Hc2 Hl) as (c3 & -> & Hc3 & E5 & E6).
  exists c3. split_and!; [done..|congruence|congruence].
Qed.

(** ** Sections *)

(** A piece of the writer between sections. *)
Definition adds (m : Wr unit) (bs : list Z) : Prop := forall c bytes,
  written c bytes -> last_section_leb_size_guess c = 0 -> zlen (bytes ++ bs) < OUTPUT_LIMIT ->
  exists c', m c = Some (tt, c') /\ written c' (bytes ++ bs) /\ last_section_leb_size_guess c' = 0.

Lemma adds_emits m bs : emits m tt bs -> adds m bs.
Proof.
  intros Hm c bytes Hc Hg Hl. destruct (Hm c bytes Hc Hl) as (c' & E & Hc' & _ & Eg).
  exists c'. split_and!; [done..|congruence].
Qed.

Lemma adds_bind m k bs1 bs2 : adds m bs1 -> adds k bs2 -> adds (so_bind m (fun _ => k)) (bs1 ++ bs2).
Proof.
  intros H1 H2 c bytes Hc Hg Hl. unfold so_bind. rewrite app_assoc in Hl |- *.
  destruct (H1 c bytes Hc Hg) as (c1 & -> & Hc1 & Hg1); [rewrite length_app in Hl; lia|].
  by apply H2.
Qed.

(** An assertion that holds. *)
Lemma adds_assert (b : bool) k bs : b = true -> adds k bs -> adds (so_bind (so_assert b) (fun _ => k)) bs.
Proof. intros ->. done. Qed.

Lemma section_code_le s : section_code s <= 255.
Proof. by destruct s. Qed.

(** From [begin_known_section] to [end_section]. *)
Lemma adds_section s (body : Wr unit) bs cbs : emits body tt bs ->
  adds (so_bind (begin_known_section s leb_size_guess) (fun _ => so_bind body (fun _ => end_section)))
    (enc_section canonical (mkBSection s bs cbs)).
Proof.
  intros Hm c bytes Hc Hg Hl.
  change (enc_section canonical (mkBSection s bs cbs))
    with ([section_code s] ++ enc_sized canonical bs) in *.
  rewrite app_assoc in Hl |- *.
  assert (zlen ((bytes ++ [section_code s]) ++ placeholder ++ bs) < OUTPUT_LIMIT) as Hl'.
  { rewrite length_app in Hl |- *. assert (zlen bs < OUTPUT_LIMIT) as Hb.
    { unfold enc_sized in Hl. rewrite !length_app in Hl. lia. }
    pose proof (length_placeholder_le bs Hb). lia. }
  unfold begin_known_section, so_bind, so_get. rewrite Hg. cbn [Z.eqb so_assert so_ret].
  pose proof Hl' as Hl''. rewrite !length_app in Hl''.
  destruct (emits_u8 _ (section_code_le s) c bytes Hc) as (c1 & -> & Hc1 & _).
  { rewrite !length_app. lia. }
  destruct (space_ok c1 _ Hc1) as (c2 & -> & Hc2 & _). { rewrite !length_app. lia. }
  unfold set_last_section, so_modify.
  rewrite app_assoc in Hl'. set (c2' := mkWriteContext _ _ _ _).
  destruct (Hm c2' _ Hc2 Hl') as (c3 & -> & Hc3 & Eo & Eg). rewrite <- app_assoc in Hc3.
  unfold end_section, so_bind, so_get. rewrite Eo, Eg. cbn [c2' last_section_leb_size_guess last_section_offset].
  unfold so_assert. change (negb (leb_size_guess =? 0)) with true. cbn [so_ret].
  destruct (fixup_ok c3 _ bs Hc3 Hl) as (c4 & -> & Hc4 & _). eexists. by split_and!.
Qed.

Lemma adds_ext m m' bs : (forall c, m' c = m c) -> adds m bs -> adds m' bs.
Proof. intros E Hm c bytes Hc Hg Hl. rewrite E. by apply Hm. Qed.

(** The section of a list of items. *)
Lemma adds_known_section {A B} s (l : list A) (f : A -> Wr unit) (enc : B -> list Z) l' count cbs :
  Forall2 (fun x y => emits (f x) tt (enc y) /\ enc y <> []) l l' ->
  adds (write_known_section s l f) (concat (map (enc_section canonical) (vec_section s enc count cbs l'))).
Proof.
  intros Hl. destruct Hl as [|x y l l' Hx Hl]; [apply adds_emits, emits_ret|].
  cbn [write_known_section vec_section map concat]. rewrite app_nil_r.
  eapply adds_ext; [|apply adds_section, (emits_vec f enc (x :: l)); by constructor].
  intros c. unfold so_bind at 1. symmetry. unfold so_bind at 1.
  destruct (begin_known_section s leb_size_guess c) as [[[] c1]|]; [|done]. by rewrite <- so_bind_assoc.
Qed.

(** ** No item is empty *)

Lemma app_ne_l {A} (x y : list A) : x <> [] -> x ++ y <> [].
Proof. by destruct x. Qed.
Lemma app_ne_r {A} (x y : list A) : y <> [] -> x ++ y <> [].
Proof. by destruct x. Qed.
Lemma enc_u32_ne v : in_u 32 v -> enc_u32 v <> [].
Proof.
  intros Hv. unfold enc_u32. destruct (u32_leb128_read v Hv) as (l & -> & Hl & _).
  destruct l; [cbn in Hl; lia|done].
Qed.
Lemma enc_bytes_ne s : enc_bytes s <> [].
Proof. destruct s; [done|]. by apply app_ne_r. Qed.
Lemma enc_expr_ne l : enc_expr l <> [].
Proof. by apply app_ne_r. Qed.
Lemma enc_type_ne t : enc_type t <> [].
Proof. by destruct t. Qed.

Lemma enc_limits_ne l : enc_limits l <> [].
Proof. apply app_ne_l. by destruct (lim_has_max l). Qed.

Lemma u32_in x : in_u 32 (u32 x).
Proof. apply wrap_in_u. lia. Qed.

Lemma emits_u32_wrapped v : emits (write_index (u32 v)) tt (enc_u32 (u32 v)).
Proof. rewrite <- (wrap_id 32 (u32 v)) at 2 by apply u32_in. apply emits_u32. Qed.

(** ** Instructions *)

Lemma emits_fmap {A B C} (f : A -> B) (o : option A) b (m : Wr C) c (enc : B -> list Z) :
  f <$> o = Some b -> (forall a, o = Some a -> emits m c (enc (f a))) -> emits m c (enc b).
Proof. intros (a & -> & ->)%fmap_Some Hm. by apply Hm. Qed.

Lemma emits_label var i : resolve_label var = Some i -> emits (get_label_var_depth var) i [].
Proof. destruct var; intros [= <-]. apply emits_ret. Qed.

Lemma emits_write_label var i : resolve_label var = Some i ->
  emits (so_bind (get_label_var_depth var) write_index) tt (enc_u32 i).
Proof.
  intros Hi. eapply emits_silent; [by apply emits_label|].
  destruct var; [cbn in Hi|done]. injection Hi as <-. apply emits_u32_wrapped.
Qed.

(** An index looked up and written. *)
Lemma emits_lookup (o : option Z) i : resolve_index o = Some i ->
  emits (so_bind (so_lift o) write_index) tt (enc_u32 i).
Proof.
  unfold resolve_index. destruct o as [v|]; [|done]. intros [= <-].
  eapply emits_silent; [by apply emits_lift|apply emits_index].
Qed.

Lemma emits_assert_index v size : is_invalid opts || ((0 <=? v) && (v <? Z.of_nat size)) = true ->
  emits (assert_index v size) tt [].
Proof.
  intros E c bytes [Hs Ho] Hl. exists c. rewrite app_nil_r. split_and!; [|by split|done..].
  unfold assert_index, so_bind, so_get, so_assert. by rewrite Ho, E.
Qed.

Lemma resolve_checked_inv o size i : resolve_checked opts o size = Some i ->
  exists v, o = Some v /\ i = u32 v /\ emits (assert_index v size) tt [].
Proof.
  unfold resolve_checked. destruct o as [v|]; [|done]. cbn [mbind option_bind].
  destruct (_ || _) eqn:E; [|done]. intros [= <-]. exists v. split_and!; [done..|].
  by apply emits_assert_index.
Qed.

Lemma emits_local func var i : resolve_local func var = Some i ->
  exists v, i = u32 v /\ emits (local_index func var) v [].
Proof.
  destruct var as [index|name]; cbn [resolve_local local_index]; [intros [= <-]|].
  { eexists. split; [done|]. apply emits_ret. }
  destruct func as [f|]; [|done]. unfold resolve_index. destruct (wasm_get_local_index_by_var _ _) as [v|]; [|done].
  intros [= <-]. exists v. split; [done|]. apply emits_ret.
Qed.

Lemma emits_block_sig sig : emits (write_inline_signature_type sig) tt (enc_block_sig sig).
Proof. destruct sig as [|t []]; [apply emits_type..|]. by apply emits_u8. Qed.

Lemma in_s_signed w bits : 0 < w -> in_u w bits -> in_s w (to_signed w bits).
Proof. apply to_signed_in_s. Qed.

Lemma emits_const c : const_ok c = true -> emits (write_const c) tt (enc_const c).
Proof.
  unfold const_ok, write_const, enc_const. destruct (const_type c); try done; intros Hb%bool_decide_eq_true;
    apply (emits_bind _ _ tt); try apply emits_opcode.
  - apply emits_i32, to_signed_in_s; [lia|done].
  - apply emits_i64, to_signed_in_s; [lia|done].
  - apply emits_data.
  - apply emits_data.
Qed.

Lemma log2_loop_range fuel x r v : in_u 8 r -> log2_u32_loop fuel x r = Some v -> in_u 8 v.
Proof.
  revert x r. induction fuel as [|fuel IH]; intros x r Hr; cbn [log2_u32_loop];
    (destruct (1 <? x); [|by intros [= <-]]); [done|].
  apply IH. by apply wrap_in_u.
Qed.

Lemma emits_memory_access op align offset i : resolve_memory_access op align offset = Some i ->
  emits (write_memory_access op align offset) tt (enc_instr i).
Proof.
  unfold resolve_memory_access. destruct (log2_u32 _) as [log2|] eqn:E; [|done].
  cbn [mbind option_bind]. intros [= <-]. cbn [enc_instr]. unfold write_memory_access.
  apply (emits_bind _ _ tt); [apply emits_opcode|]. eapply emits_silent; [by apply emits_lift|].
  apply (emits_bind _ _ tt tt [log2]).
  - apply emits_u8. unfold log2_u32 in E. apply log2_loop_range in E; unfold in_u in *; zpow; lia.
  - apply emits_u32_wrapped.
Qed.

(** An opcode, then its operand. *)
Lemma emits_op_then op (m : Wr unit) bs : emits m tt bs ->
  emits (so_bind (on_stream (wasm_write_opcode op)) (fun _ => m)) tt (enc_op op ++ bs).
Proof. intros Hm. by apply (emits_bind _ _ tt); [apply emits_opcode|]. Qed.

Lemma emits_op_reserved op :
  emits (so_bind (on_stream (wasm_write_opcode op)) (fun _ => write_index 0)) tt (enc_instr (BI_RESERVED op)).
Proof. apply emits_op_then, (emits_u32 0). Qed.

(** The writer's own loops over lists of expressions are [so_for]. *)
Lemma write_expr_list_for module func es :
  (fix go (es : list WasmExpr) : Wr unit :=
     match es with [] => so_ret tt | e :: es => so_bind (write_expr module func e) (fun _ => go es) end) es =
  so_for (write_expr module func) es.
Proof. induction es as [|e es IH]; [done|]. cbn [so_for]. by rewrite <- IH. Qed.

Lemma enc_instrs_fix l :
  (fix go (l : list BInstr) : list Z := match l with [] => [] | i :: l => enc_instr i ++ go l end) l =
  enc_instrs l.
Proof. unfold enc_instrs. induction l as [|i l IH]; [done|]. cbn [map concat]. by rewrite IH. Qed.

Definition expr_ok (module : WasmModule) (func : option WasmFunc) (e : WasmExpr) : Prop := forall i,
  resolve_expr opts module func e = Some i -> emits (write_expr module func e) tt (enc_instr i).

Lemma emits_exprs module func es bis : Forall (expr_ok module func) es ->
  mapM (resolve_expr opts module func) es = Some bis ->
  emits (so_for (write_expr module func) es) tt (enc_instrs bis).
Proof.
  intros Hes His%mapM_Some. apply emits_for.
  induction His; inversion Hes; constructor; auto.
Qed.

(** A block: opcode, signature, body, [end]. *)
Lemma emits_block module func op sig es bis : Forall (expr_ok module func) es ->
  mapM (resolve_expr opts module func) es = Some bis ->
  emits (so_bind (on_stream (wasm_write_opcode op)) (fun _ =>
         so_bind (write_inline_signature_type sig) (fun _ =>
         so_bind (so_for (write_expr module func) es) (fun _ =>
         on_stream (wasm_write_opcode WASM_OPCODE_END))))) tt
    (enc_op op ++ enc_block_sig sig ++ enc_instrs bis ++ enc_op WASM_OPCODE_END).
Proof.
  intros Hes His. apply emits_op_then. apply (emits_bind _ _ tt); [apply emits_block_sig|].
  apply (emits_bind _ _ tt); [by apply emits_exprs|apply emits_opcode].
Qed.

Lemma emits_br_table targets default_target ts d :
  mapM resolve_label targets = Some ts -> resolve_label default_target = Some d ->
  emits (so_bind (on_stream (wasm_write_opcode WASM_OPCODE_BR_TABLE)) (fun _ =>
         so_bind (write_index (zlen targets)) (fun _ =>
         so_bind (so_for (fun t => so_bind (get_label_var_depth t) write_index) targets) (fun _ =>
         so_bind (get_label_var_depth default_target) write_index)))) tt
    (enc_instr (BI_BR_TABLE ts d)).
Proof.
  intros Hts%mapM_Some Hd. cbn [enc_instr]. apply emits_op_then.
  apply emits_vec_then; [|by apply emits_write_label]. eapply Forall2_impl; [exact Hts|]. intros t i Hi. split; [by apply emits_write_label|].
  destruct t; [cbn in Hi|done]. injection Hi as <-. apply enc_u32_ne, u32_in.
Qed.

Lemma emits_op_lookup op (o : option Z) i : BI_INDEX op <$> resolve_index o = Some i ->
  emits (so_bind (so_lift o) (fun index =>
         so_bind (on_stream (wasm_write_opcode op)) (fun _ => write_index index))) tt (enc_instr i).
Proof.
  destruct o as [v|]; [|done]. intros [= <-]. eapply emits_silent; [by apply emits_lift|].
  apply emits_op_then, emits_index.
Qed.

Lemma emits_op_local op func var i : BI_INDEX op <$> resolve_local func var = Some i ->
  emits (so_bind (local_index func var) (fun index =>
         so_bind (on_stream (wasm_write_opcode op)) (fun _ => write_index index))) tt (enc_instr i).
Proof.
  intros Hi. eapply (emits_fmap _ _ _ _ _ enc_instr); [exact Hi|]. intros a Ha.
  destruct (emits_local _ _ _ Ha) as (v & -> & Hv). eapply emits_silent; [exact Hv|].
  apply emits_op_then, emits_index.
Qed.

Lemma emits_op_label op var i : BI_INDEX op <$> resolve_label var = Some i ->
  emits (so_bind (on_stream (wasm_write_opcode op)) (fun _ =>
         so_bind (get_label_var_depth var) write_index)) tt (enc_instr i).
Proof.
  intros Hi. eapply (emits_fmap _ _ _ _ _ enc_instr); [exact Hi|]. intros a Ha.
  apply emits_op_then. by apply emits_write_label.
Qed.

Lemma write_expr_emits module func e : expr_ok module func e.
Proof.
  revert e. apply WasmExpr_nested_ind; [intros l s es IH|intros l s es IH|intros l s es fs IHe IHf|intros e].
  - intros i Hi. cbn [resolve_expr] in Hi. apply fmap_Some in Hi as (bis & His & ->).
    cbn [write_expr enc_instr]. rewrite write_expr_list_for, enc_instrs_fix. by apply emits_block.
  - intros i Hi. cbn [resolve_expr] in Hi. apply fmap_Some in Hi as (bis & His & ->).
    cbn [write_expr enc_instr]. rewrite write_expr_list_for, enc_instrs_fix. by apply emits_block.
  - intros i Hi. cbn [resolve_expr] in Hi. apply bind_Some in Hi as (ts & Hts & Hi).
    apply fmap_Some in Hi as (fs' & Hfs & ->). cbn [write_expr enc_instr].
    rewrite write_expr_list_for, enc_instrs_fix. apply emits_op_then.
    apply (emits_bind _ _ tt); [apply emits_block_sig|]. apply (emits_bind _ _ tt); [by apply emits_exprs|].
    apply (emits_bind _ _ tt); [|apply emits_opcode].
    destruct fs as [|f fs]; [injection Hfs as <-; apply emits_ret|].
    rewrite write_expr_list_for. pose proof Hfs as Hlen. apply mapM_Some in Hlen. inversion Hlen; subst.
    rewrite enc_instrs_fix. apply emits_op_then. by apply (emits_exprs module func (f :: fs) (y :: l')).
  - destruct e; try done; intros i Hi; cbn [resolve_expr] in Hi; cbn [write_expr];
      try (injection Hi as <-; first [apply emits_opcode | apply emits_op_reserved]);
      try (by apply emits_op_label); try (by apply emits_op_lookup); try (by apply emits_op_local);
      try (by apply emits_memory_access).
    + apply bind_Some in Hi as (ts & Hts & (d & Hd & ->)%fmap_Some). by apply emits_br_table.
    + apply fmap_Some in Hi as (a & (v & Ev & -> & Ha)%resolve_checked_inv & ->).
      eapply emits_silent; [by apply emits_lift|]. eapply emits_silent; [exact Ha|].
      apply emits_op_then, emits_index.
    + apply fmap_Some in Hi as (a & (v & Ev & -> & Ha)%resolve_checked_inv & ->).
      eapply emits_silent; [by apply emits_lift|]. eapply emits_silent; [exact Ha|].
      apply emits_op_then. apply (emits_bind _ _ tt); [apply emits_index|apply (emits_u32 0)].
    + destruct (const_ok const_) eqn:E; [|done]. injection Hi as <-. by apply emits_const.
Qed.

Lemma emits_expr_list module func es bis : mapM (resolve_expr opts module func) es = Some bis ->
  emits (write_expr_list module func es) tt (enc_instrs bis).
Proof. apply emits_exprs, Forall_true, write_expr_emits. Qed.

Lemma emits_init_expr module es bis : resolve_init opts module es = Some bis ->
  emits (write_init_expr module es) tt (enc_expr bis).
Proof.
  intros His. apply (emits_bind _ _ tt); [by apply emits_expr_list|apply emits_opcode].
Qed.

(** ** Items of sections *)

Lemma puts_str str : puts (wasm_write_str str) (enc_bytes (slice_bytes str)).
Proof.
  intros s bytes Hs Hl. unfold wasm_write_str, enc_bytes, enc_len in *.
  assert (u32 (zlen (slice_bytes str)) = zlen (slice_bytes str)) as E.
  { apply wrap_id. rewrite !length_app in Hl. unfold OUTPUT_LIMIT in Hl. ulia. }
  pose proof (puts_seq _ _ _ _ (puts_u32_leb (zlen (slice_bytes str))) (puts_data (slice_bytes str))) as Hp.
  rewrite E in Hp. by apply Hp.
Qed.

Lemma emits_str str : emits (on_stream (wasm_write_str str)) tt (enc_bytes (slice_bytes str)).
Proof. apply emits_stream, puts_str. Qed.

Lemma emits_types ts : Forall2 (fun x y => emits (on_stream (wasm_write_type x)) tt (enc_type y) /\ enc_type y <> []) ts ts.
Proof. induction ts; constructor; [|done]. split; [apply emits_type|apply enc_type_ne]. Qed.

Lemma emits_func_type t : emits (write_func_type t) tt (enc_func_type (func_type_sig t)).
Proof.
  apply (emits_bind _ _ tt); [apply emits_type|].
  apply emits_vec_then; [apply emits_types|]. apply emits_vec, emits_types.
Qed.

Lemma puts_limits l : puts (wasm_write_limits l) (enc_limits (resolve_limits l)).
Proof.
  unfold wasm_write_limits, enc_limits, resolve_limits. cbn [lim_has_max lim_initial lim_max].
  destruct (lim_has_max l).
  - apply puts_seq; [apply (puts_u32_leb WASM_BINARY_LIMITS_HAS_MAX_FLAG)|].
    apply puts_seq; apply puts_u32_leb.
  - apply puts_seq; [apply (puts_u32_leb 0)|]. apply puts_seq; [apply puts_u32_leb|apply puts_nil].
Qed.

Lemma emits_limits l : emits (on_stream (wasm_write_limits l)) tt (enc_limits (resolve_limits l)).
Proof. apply emits_stream, puts_limits. Qed.

Lemma emits_table t : emits (write_table t) tt (enc_table (resolve_limits (table_elem_limits t))).
Proof. apply (emits_bind _ _ tt); [apply emits_type|apply emits_limits]. Qed.

Lemma emits_global_header g : emits (write_global_header g) tt (enc_global_type (global_type g) (global_mutable g)).
Proof. apply (emits_bind _ _ tt); [apply emits_type|]. apply emits_u8. by destruct (global_mutable g). Qed.

Lemma kind_code_le k : wasm_external_kind_code k <= 255.
Proof. by destruct k. Qed.

Lemma emits_decl module d i : resolve_decl module d = Some i -> emits (write_func_type_index module d) tt (enc_u32 i).
Proof. apply emits_lookup. Qed.

Section module.
Context (module : WasmModule).

Lemma emits_import i bi : resolve_import module i = Some bi -> emits (write_import module i) tt (enc_import bi).
Proof.
  intros (d & Hd & ->)%fmap_Some. unfold write_import, enc_import. cbn [bi_module bi_field bi_desc].
  apply (emits_bind _ _ tt); [apply emits_str|]. apply (emits_bind _ _ tt); [apply emits_str|].
  assert (import_kind (import_desc i) = bimport_kind d) as ->.
  { destruct (import_desc i); cbn [resolve_import_desc] in Hd;
      [apply fmap_Some in Hd as (? & _ & ->)|injection Hd as <-..]; done. }
  apply (emits_bind _ _ tt tt [_]); [apply emits_u8, kind_code_le|].
  destruct (import_desc i); cbn [resolve_import_desc] in Hd;
    [apply fmap_Some in Hd as (? & Hd & ->)|injection Hd as <-..]; cbn [enc_import_desc].
  - by apply emits_decl.
  - apply emits_table.
  - apply emits_limits.
  - apply emits_global_header.
Qed.

Lemma emits_global g bg : resolve_global opts module g = Some bg -> emits (write_global module g) tt (enc_global bg).
Proof.
  intros (bis & His & ->)%fmap_Some. apply (emits_bind _ _ tt); [apply emits_global_header|by apply emits_init_expr].
Qed.

Lemma emits_export e be : resolve_export opts module e = Some be -> emits (write_export module e) tt (enc_export be).
Proof.
  intros (i & (v & Ev & -> & Ha)%resolve_checked_inv & ->)%fmap_Some.
  unfold write_export, enc_export. cbn [be_name be_kind be_index].
  apply (emits_bind _ _ tt); [apply emits_str|].
  apply (emits_bind _ _ tt tt [_]); [apply emits_u8, kind_code_le|].
  eapply emits_silent; [by apply emits_lift|]. eapply emits_silent; [exact Ha|apply emits_index].
Qed.

Lemma emits_elem s bs : resolve_elem opts module s = Some bs -> emits (write_elem_segment module s) tt (enc_elem bs).
Proof.
  intros (t & Ht & (o & Ho & (fs & Hfs%mapM_Some & ->)%fmap_Some)%bind_Some)%bind_Some.
  unfold write_elem_segment, enc_elem. cbn [bes_table bes_offset bes_funcs].
  unfold resolve_index in Ht. apply fmap_Some in Ht as (v & Ev & ->).
  eapply emits_silent; [by apply emits_lift|]. apply (emits_bind _ _ tt); [apply emits_index|].
  apply (emits_bind _ _ tt); [by apply emits_init_expr|].
  apply emits_vec. eapply Forall2_impl; [exact Hfs|].
  intros x y (w & Ew & -> & Ha)%resolve_checked_inv. split; [|apply enc_u32_ne, u32_in].
  eapply emits_silent; [by apply emits_lift|]. eapply emits_silent; [exact Ha|apply emits_index].
Qed.

Lemma emits_data_segment s bs : resolve_data opts module s = Some bs ->
  emits (write_data_segment module s) tt (enc_data bs).
Proof.
  intros (t & Ht & (o & Ho & [= <-])%bind_Some)%bind_Some.
  unfold write_data_segment, enc_data. cbn [bd_memory bd_offset bd_data].
  unfold resolve_index in Ht. apply fmap_Some in Ht as (v & Ev & ->).
  eapply emits_silent; [by apply emits_lift|]. apply (emits_bind _ _ tt); [apply emits_index|].
  apply (emits_bind _ _ tt); [by apply emits_init_expr|].
  exact (emits_len (data_data s) _ tt _ (le_n _) (emits_data _)).
Qed.

(** ** Function bodies and names *)

Lemma count_local_decls_runs t k n types : 1 <= k -> k + zlen types < 2 ^ 32 ->
  count_local_decls t k types = k - 1 + zlen (type_runs t n types).
Proof.
  revert t k n. induction types as [|t' types IH]; intros t k n Hk Hlim; cbn [count_local_decls type_runs length] in *;
    [lia|].
  destruct (decide (t = t')) as [->|Hne].
  - rewrite bool_decide_true by done. cbn [negb]. apply IH; lia.
  - rewrite bool_decide_false by done. cbn [negb length]. rewrite wrap_id by ulia.
    rewrite (IH t' (k + 1) 1) by lia. lia.
Qed.

Lemma emits_local_decls t n types : Forall (fun t => t <> WASM_TYPE_VOID) (t :: types) ->
  0 <= n -> n + zlen types < 2 ^ 32 ->
  emits (write_local_decls t n (types ++ [WASM_TYPE_VOID])) tt (concat (map enc_local (type_runs t n types))).
Proof.
  assert (forall t n (k : Wr unit) bs, 0 <= n < 2 ^ 32 -> emits k tt bs ->
    emits (so_bind (on_stream (wasm_write_u32_leb128 n)) (fun _ =>
           so_bind (on_stream (wasm_write_type t)) (fun _ => k))) tt (enc_local (n, t) ++ bs)) as Hrun.
  { intros t' n' k bs Hn Hk. unfold enc_local. cbn [fst snd]. rewrite <- app_assoc.
    apply (emits_bind _ _ tt); [|by apply (emits_bind _ _ tt); [apply emits_type|]].
    rewrite <- (wrap_id 32 n') at 2 by ulia. apply emits_u32. }
  revert t n. induction types as [|t' types IH]; intros t n Hv Hn Hlim; inversion_clear Hv as [|? ? Ht Hts];
    cbn [type_runs app write_local_decls length] in *.
  - rewrite bool_decide_false by done. apply Hrun; [lia|apply emits_ret].
  - destruct (decide (t = t')) as [->|Hne].
    + rewrite bool_decide_true by done. rewrite wrap_id by ulia. apply IH; [done|lia..].
    + rewrite bool_decide_false by done. apply Hrun; [lia|]. apply IH; [done|lia..].
Qed.

Lemma emits_func_locals types runs : resolve_locals types = Some runs ->
  emits (write_func_locals types) tt (enc_vec enc_local runs).
Proof.
  unfold resolve_locals. destruct (_ && _) eqn:E; [|done].
  apply andb_true_iff in E as [Hv%bool_decide_eq_true Hl%Z.ltb_lt]. intros [= <-].
  destruct types as [|t types]; cbn [write_func_locals]; [apply (emits_u32 0)|]. cbn [length] in Hl.
  rewrite (count_local_decls_runs t 1 1) by lia. replace (1 - 1 + zlen (type_runs t 1 types)) with
    (zlen (type_runs t 1 types)) by lia.
  apply emits_len; [|apply emits_local_decls; [done|lia..]].
  apply length_concat_nonempty, Forall_true. intros [n t']. apply app_ne_r, enc_type_ne.
Qed.

Lemma emits_func_body f bf : resolve_code opts module f = Some bf ->
  emits (write_func_body module f) tt (enc_code canonical bf).
Proof.
  intros (locals & Hl & (bis & His & ->)%fmap_Some)%bind_Some.
  unfold enc_code. cbn [bf_locals bf_body]. apply emits_sized.
  apply (emits_bind _ _ tt); [by apply emits_func_locals|].
  apply (emits_bind _ _ tt); [by apply emits_expr_list|apply emits_opcode].
Qed.

Lemma reverse_mapping_length es names names' : reverse_mapping_loop es names = Some names' ->
  length names' = length names.
Proof.
  revert names. induction es as [|e es IH]; intros names; cbn [reverse_mapping_loop]; [by intros [= ->]|].
  destruct (wasm_hash_entry_is_free e); [apply IH|].
  intros (l & Hl%zset_length & Hr%IH)%bind_Some. congruence.
Qed.

Lemma func_local_names_length f names : func_local_names f = Some names ->
  zlen names = wasm_get_num_params_and_locals f.
Proof.
  unfold func_local_names. destruct (Z.eqb_spec (wasm_get_num_params_and_locals f) 0) as [->|_]; [by intros [= <-]|].
  intros (ps & Hps%reverse_mapping_length & (ls & Hls%reverse_mapping_length & [= <-])%bind_Some)%bind_Some.
  rewrite length_replicate in Hps, Hls. rewrite length_app, Hps, Hls.
  unfold wasm_get_num_params_and_locals, wasm_get_num_params, wasm_get_num_locals. lia.
Qed.

Lemma emits_func_names f bn : resolve_func_names f = Some bn -> emits (write_func_names f) tt (enc_names bn).
Proof.
  intros (names & Hn & [= <-])%bind_Some. unfold write_func_names, enc_names. cbn [bn_func bn_locals].
  apply (emits_bind _ _ tt); [apply emits_str|]. rewrite <- (func_local_names_length f names Hn).
  rewrite <- (length_map slice_bytes names). apply emits_len.
  - apply length_concat_nonempty, Forall_true, enc_bytes_ne.
  - eapply emits_silent; [by apply emits_lift|]. apply emits_for.
    clear Hn. induction names; constructor; [apply emits_str|done].
Qed.

(** ** The module *)

(** A section left out, or written. *)
Lemma adds_start start cbs : resolve_start module = Some start ->
  adds (write_start module) (concat (map (enc_section canonical)
    match start with
    | None => []
    | Some f => [mkBSection WASM_BINARY_SECTION_START (enc_u32 f) (cbs f)]
    end)).
Proof.
  unfold resolve_start, write_start. destruct (module_start module) as [var|];
    [|intros [= <-]; apply adds_emits, emits_ret].
  intros (i & Hi & [= <-])%bind_Some. rewrite Hi.
  apply (adds_ext (if negb (i =? -1) then so_bind (begin_known_section WASM_BINARY_SECTION_START leb_size_guess)
    (fun _ => so_bind (write_index i) (fun _ => end_section)) else so_ret tt)); [done|].
  destruct (Z.eqb_spec i (-1)) as [->|]; cbn [negb map concat]; [apply adds_emits, emits_ret|].
  rewrite app_nil_r. apply adds_section, emits_index.
Qed.

Lemma adds_names names cbs :
  (if write_debug_names opts then Some <$> mapM resolve_func_names (module_funcs module) else Some None) = Some names ->
  adds (write_names module) (concat (map (enc_section canonical)
    match names with
    | None => []
    | Some ns => [mkBSection WASM_BINARY_SECTION_CUSTOM (enc_bytes name_bytes ++ enc_vec enc_names ns) (cbs ns)]
    end)).
Proof.
  intros Hn c bytes Hc. unfold write_names, so_bind at 1, so_get. pose proof Hc as [_ Ho]. rewrite Ho.
  revert c bytes Hc Ho. destruct (write_debug_names opts).
  2: { injection Hn as <-. intros c bytes Hc _. by apply (adds_emits _ [] (emits_ret tt)). }
  apply fmap_Some in Hn as (ns & Hns%mapM_Some & ->). intros c bytes Hc _. cbn [map concat]. rewrite app_nil_r.
  revert c bytes Hc. eapply adds_ext; [|eapply (adds_section WASM_BINARY_SECTION_CUSTOM
    (so_bind (on_stream (wasm_write_str (Some WASM_BINARY_SECTION_NAME))) (fun _ =>
     so_bind (on_stream (wasm_write_u32_leb128 (zlen (module_funcs module)))) (fun _ =>
     so_for write_func_names (module_funcs module)))))].
  - intros c. unfold begin_custom_section, begin_known_section, so_bind, so_get.
    destruct (so_assert _ c) as [[[] c1]|]; [|done].
    destruct (on_stream _ c1) as [[[] c2]|]; [|done].
    destruct (write_u32_leb128_space _ c2) as [[? c3]|]; [|done].
    destruct (set_last_section _ _ c3) as [[[] c4]|]; [|done].
    destruct (on_stream _ c4) as [[[] c5]|]; [|done].
    destruct (on_stream _ c5) as [[[] c6]|]; [|done]. done.
  - apply (emits_bind _ _ tt); [apply emits_str|]. apply emits_vec.
    eapply Forall2_impl; [exact Hns|]. intros f n Hf. split; [by apply emits_func_names|apply app_ne_l, enc_bytes_ne].
Qed.

(** The imports of a kind are among the items of that kind. *)
Lemma num_imports_le {A} (kind : WasmImportDesc -> bool) (f : WasmModuleField -> option A) :
  (forall a b d, kind d = true -> is_Some (f (FIELD_IMPORT (mkImport a b d)))) ->
  (num_imports_of kind module <= length (omap f (module_fields module)))%nat.
Proof.
  intros Hf. unfold num_imports_of, module_imports. induction (module_fields module) as [|x l IH]; [done|].
  cbn [omap list_omap]. destruct x as [| |[a b d]| | | | | | |]; try (destruct (f _); cbn [length]; lia).
  destruct (kind d) eqn:E.
  - destruct (Hf a b d E) as [y ->]. rewrite filter_cons_True by done. cbn [length]. lia.
  - rewrite filter_cons_False by (cbn; by rewrite E). destruct (f _); cbn [length]; lia.
Qed.

Lemma Forall2_with_ne {A B} (P : A -> B -> Prop) (f : A -> Wr unit) (enc : B -> list Z) l l' :
  Forall2 P l l' -> (forall x y, P x y -> emits (f x) tt (enc y)) -> (forall x y, P x y -> enc y <> []) ->
  Forall2 (fun x y => emits (f x) tt (enc y) /\ enc y <> []) l l'.
Proof. intros Hl Hf Hne. eapply Forall2_impl; [exact Hl|]. eauto. Qed.

Lemma Forall2_map_r_eq {A B} (g : A -> B) l : Forall2 (fun x y => y = g x) l (map g l).
Proof. induction l; by constructor. Qed.

Lemma write_module_adds bm : resolve opts module = Some bm -> adds (write_module module) (encode canonical bm).
Proof.
  intros (imports & Himports%mapM_Some & (sigs & Hsigs%mapM_Some & (globals & Hglobals%mapM_Some &
    (exports & Hexports%mapM_Some & (start & Hstart & (elems & Helems%mapM_Some & (codes & Hcodes%mapM_Some &
    (datas & Hdatas%mapM_Some & (names & Hnames & [= <-])%bind_Some)%bind_Some)%bind_Some)%bind_Some)%bind_Some
    )%bind_Some)%bind_Some)%bind_Some)%bind_Some.
  unfold write_module, encode, sections, known_sections. cbn [bm_types bm_imports bm_funcs bm_tables bm_memories bm_globals
    bm_exports bm_start bm_elems bm_codes bm_datas bm_names].
  rewrite !map_app, !concat_app, <- !app_assoc.
  apply adds_bind; [apply adds_emits, emits_data|]. apply adds_bind; [apply adds_emits, emits_data|].
  apply adds_bind.
  { apply adds_known_section. eapply Forall2_with_ne; [apply Forall2_map_r_eq| |]; intros x y ->; [apply emits_func_type|done]. }
  apply adds_bind.
  { apply adds_known_section. eapply Forall2_with_ne; [exact Himports|apply emits_import|].
    intros. apply app_ne_l, enc_bytes_ne. }
  apply adds_assert.
  { apply Nat.leb_le, num_imports_le. by intros a b []. }
  apply adds_bind.
  { apply adds_known_section. eapply Forall2_with_ne; [exact Hsigs|intros x y; apply emits_decl|].
    intros x y (v & _ & ->)%fmap_Some. apply enc_u32_ne, u32_in. }
  apply adds_assert.
  { apply Nat.leb_le, num_imports_le. by intros a b []. }
  apply adds_bind.
  { apply adds_known_section. eapply Forall2_with_ne; [apply Forall2_map_r_eq| |]; intros x y ->; [apply emits_table|done]. }
  apply adds_assert.
  { apply Nat.leb_le, num_imports_le. by intros a b []. }
  apply adds_bind.
  { apply adds_known_section. eapply Forall2_with_ne; [apply Forall2_map_r_eq| |]; intros x y ->;
      [apply emits_limits|apply enc_limits_ne]. }
  apply adds_assert.
  { apply Nat.leb_le, num_imports_le. by intros a b []. }
  apply adds_bind.
  { apply adds_known_section. eapply Forall2_with_ne; [exact Hglobals|apply emits_global|].
    intros. apply app_ne_r, enc_expr_ne. }
  apply adds_bind.
  { apply adds_known_section. eapply Forall2_with_ne; [exact Hexports|apply emits_export|].
    intros. apply app_ne_l, enc_bytes_ne. }
  apply adds_bind; [by apply (adds_start start (fun f => [CB_on_start_function f]))|].
  apply adds_bind.
  { apply adds_known_section. eapply Forall2_with_ne; [exact Helems|apply emits_elem|].
    intros. apply app_ne_r, app_ne_l, enc_expr_ne. }
  apply adds_bind.
  { apply adds_known_section. eapply Forall2_with_ne; [exact Hcodes|apply emits_func_body|].
    intros. apply app_ne_r, app_ne_r, enc_expr_ne. }
  apply adds_bind.
  { apply adds_known_section. eapply Forall2_with_ne; [exact Hdatas|apply emits_data_segment|].
    intros. apply app_ne_r, app_ne_l, enc_expr_ne. }
  by apply (adds_names names (fun names => CB_on_function_names_count (zlen names) :: indexed names_callbacks 0 names)).
Qed.

Lemma write_binary_module_ok w bm : rep w [] -> resolve opts module = Some bm ->
  zlen (encode canonical bm) < OUTPUT_LIMIT ->
  exists w', wasm_write_binary_module w module opts = Some (WASM_OK, w') /\ rep w' (encode canonical bm).
Proof.
  intros Hw Hbm Hl. unfold wasm_write_binary_module.
  destruct (write_module_adds bm Hbm (init_write_context w opts) []) as (c & -> & ((Hr & _ & Hres) & _) & _);
    [done..|]. cbn [mbind option_bind]. rewrite Hres. by eexists.
Qed.
End module.
End emits.

(** C10 - The binary writer implements the binary format.  For every module
    that stands for a binary module - its labels and checked indices resolve -
    and every writer that keeps its promises, [wasm_write_binary_module]
    runs into no assertion, reports OK, and leaves exactly the encoding of
    that binary module: sections in order, empty ones left out, every section
    and body preceded by its size (fixed up after the fact, by moving the bytes
    when sizes are as short as possible), locals in runs of equal types.
    [wasm_write_binary_script] does the same for the first module of a script.
    The one bound is that the output stays below 4 GiB. *)
Theorem wasm_write_binary_module_correct {W : Type} `{WasmWriter W} (rep : W -> list Z -> Prop)
    `{!WriterWrites W rep} (opts : WasmWriteBinaryOptions) (module : WasmModule) (bm : BModule) (w : W) :
  (canonicalize_lebs opts = true -> WriterMoves W rep) ->
  resolve opts module = Some bm ->
  Z.of_nat (length (encode (canonicalize_lebs opts) bm)) < OUTPUT_LIMIT ->
  rep w [] ->
  exists w', rep w' (encode (canonicalize_lebs opts) bm) /\
    wasm_write_binary_module w module opts = Some (WASM_OK, w') /\
    forall script, default empty_module (wasm_get_first_module script) = module ->
      wasm_write_binary_script w script opts = Some (WASM_OK, w').
Proof.
  intros Hm Hbm Hl Hw. destruct (write_binary_module_ok opts Hm module w bm Hw Hbm Hl) as (w' & E & Hw').
  exists w'. split_and!; [done..|]. intros script <-. unfold wasm_write_binary_script, write_commands.
  unfold wasm_write_binary_module in E. by destruct (wasm_get_first_module script).
Qed.

(** A function that negates its argument when it is not 0, exported as [f]. *)
Definition sample_sig : WasmFuncSignature := mkFuncSignature [WASM_TYPE_I32] [WASM_TYPE_I32].

Definition sample_func : WasmFunc :=
  mkFunc (Some "$f"%string) (mkFuncDeclaration 0 (VAR_INDEX 0) sample_sig)
    [WASM_TYPE_I64; WASM_TYPE_I64; WASM_TYPE_F32] empty_hash empty_hash
    [EXPR_GET_LOCAL (VAR_INDEX 0);
     EXPR_IF None [WASM_TYPE_I32]
       [EXPR_CONST (mkConst WASM_TYPE_I32 0); EXPR_GET_LOCAL (VAR_INDEX 0); EXPR_BINARY WASM_OPCODE_I32_SUB]
       [EXPR_CONST (mkConst WASM_TYPE_I32 0)]].

Definition sample_module : WasmModule :=
  mkModule None
    [FIELD_FUNC_TYPE (mkFuncType None sample_sig); FIELD_FUNC sample_func;
     FIELD_EXPORT (mkExport (Some "f"%string) WASM_EXTERNAL_KIND_FUNC (VAR_INDEX 0))]
    empty_hash empty_hash empty_hash empty_hash empty_hash empty_hash.

Lemma wasm_write_binary_module_correct_witness : exists w w',
  wasm_init_mem_writer = Some w /\
  wasm_write_binary_module w sample_module WASM_WRITE_BINARY_OPTIONS_DEFAULT = Some (WASM_OK, w') /\
  buf_bytes w' = Some
    [0; 97; 115; 109; 13; 0; 0; 0; 1; 6; 1; 96; 1; 127; 1; 127; 3; 2; 1; 0; 7; 5; 1; 1; 102; 0; 0;
     10; 21; 1; 19; 2; 2; 126; 1; 125; 32; 0; 4; 127; 65; 0; 32; 0; 107; 5; 65; 0; 11; 11].
Proof.
  destruct mem_rep_init as (w & E & Hw).
  destruct (wasm_write_binary_module_correct mem_rep WASM_WRITE_BINARY_OPTIONS_DEFAULT sample_module
    (default (mkBModule [] [] [] [] [] [] [] None [] [] [] None)
       (resolve WASM_WRITE_BINARY_OPTIONS_DEFAULT sample_module)) w) as (w' & Hw' & Ew & _).
  - intros _. apply mem_writer_moves.
  - vm_compute. reflexivity.
  - vm_compute. reflexivity.
  - exact Hw.
  - exists w, w'. split_and!; [exact E|exact Ew|]. rewrite (mem_rep_bytes _ _ Hw'). vm_compute. reflexivity.
Defined.
