(* ===== verification/RoundTrip.v ===== *)
(** * What is written is read back

    Reading the encoding of a well-formed binary module calls exactly its
    callbacks, in order, and succeeds.  [reads] says that a piece of the reader
    consumes some bytes and makes some callbacks; the rules compose such
    statements along the code.  With the writer's theorem this gives the round
    trip from a module of the syntax tree to the callbacks of a reader. *)

From S2P Require Import Prelude Opcode Leb128 Ast BindingHash Vector StateOpt Stream BinaryWriter BinaryReader BinaryFormat WriterFacts.

Abbreviation zlen l := (Z.of_nat (length l)).

(** The callbacks made in order on the user data, while they succeed. *)
Fixpoint deliver {U} (h : Callback -> U -> WasmResult * U) (cbs : list Callback) (u : U) : option U :=
  match cbs with
  | [] => Some u
  | cb :: cbs => match h cb u with (WASM_OK, u') => deliver h cbs u' | (WASM_ERROR, _) => None end
  end.

Lemma deliver_app {U} (h : Callback -> U -> WasmResult * U) l1 l2 u u'' : deliver h (l1 ++ l2) u = Some u'' ->
  exists u', deliver h l1 u = Some u' /\ deliver h l2 u' = Some u''.
Proof.
  revert u. induction l1 as [|cb l1 IH]; intros u; cbn [app deliver]; [eauto|].
  destruct (h cb u) as [[] u1]; [apply IH|done].
Qed.

(** Induction through the bodies of blocks. *)
Section binstr_ind.
Context (Q : BInstr -> Prop).
Hypothesis Hblock : forall sig body, Forall Q body -> Q (BI_BLOCK sig body).
Hypothesis Hloop : forall sig body, Forall Q body -> Q (BI_LOOP sig body).
Hypothesis Hif : forall sig ts fs, Forall Q ts -> Forall Q fs -> Q (BI_IF sig ts fs).
Hypothesis Hflat : forall i,
  match i with BI_BLOCK _ _ | BI_LOOP _ _ | BI_IF _ _ _ => True | _ => Q i end.

Fixpoint BInstr_nested_ind (i : BInstr) : Q i :=
  let list_ind := fix go (l : list BInstr) : Forall Q l :=
    match l with
    | [] => Forall_nil_2 Q
    | x :: l' => Forall_cons_2 Q x l' (BInstr_nested_ind x) (go l')
    end in
  match i as i0 return
    match i0 with BI_BLOCK _ _ | BI_LOOP _ _ | BI_IF _ _ _ => True | _ => Q i0 end -> Q i0
  with
  | BI_BLOCK sig body => fun _ => Hblock sig body (list_ind body)
  | BI_LOOP sig body => fun _ => Hloop sig body (list_ind body)
  | BI_IF sig ts fs => fun _ => Hif sig ts fs (list_ind ts) (list_ind fs)
  | _ => fun H => H
  end (Hflat i).
End binstr_ind.

Section reads.
Context {U : Type} (h : Callback -> U -> WasmResult * U) (err : Z -> string -> U -> U).

Definition reader : WasmBinaryReader U := mkReader (fun _ => h) err.

Abbreviation R := (BinaryReader.R (U := U)).

(** [reads last n m bs n' evs a]: after sections up to [last] and with the
    counts [n], [m] consumes [bs], makes the callbacks [evs], leaves the
    counts [n'] and gives [a]. *)
Definition reads {A} (last : Z) (n : Counts) (m : R A) (bs : bytes) (n' : Counts)
    (evs : list Callback) (a : A) : Prop :=
  forall data pre post o e u u', data = pre ++ bs ++ post -> o = zlen pre ->
  o + zlen bs <= e -> e <= zlen data -> zlen data < 2 ^ 32 -> deliver h evs u = Some u' ->
  m (mkReadContext data o e last n u) = Done a (mkReadContext data (o + zlen bs) e last n' u').

(** ** Rules *)

Section rules.
Context (last : Z).

Abbreviation reads := (reads last).

Lemma reads_bind {A B} (m : R A) (k : A -> R B) a b n1 n2 n3 bs1 bs2 evs1 evs2 :
  reads n1 m bs1 n2 evs1 a -> reads n2 (k a) bs2 n3 evs2 b ->
  reads n1 (r_bind m k) (bs1 ++ bs2) n3 (evs1 ++ evs2) b.
Proof.
  intros Hm Hk data pre post o e u u'' Hdata Ho He Hed Hd (u' & Hu1 & Hu2)%deliver_app.
  rewrite length_app in He |- *. unfold r_bind.
  rewrite (Hm data pre (bs2 ++ post) o e u u'); [|by rewrite Hdata, <- app_assoc|done|lia|done..].
  rewrite (Hk data (pre ++ bs1) post (o + zlen bs1) e u' u'');
    [|by rewrite Hdata, <- !app_assoc|rewrite length_app; lia|lia|done..].
  do 2 f_equal. lia.
Qed.

(** A step that consumes nothing and makes no callback. *)
Lemma reads_silent {A B} (m : R A) (k : A -> R B) a b n1 n2 n3 bs evs :
  reads n1 m [] n2 [] a -> reads n2 (k a) bs n3 evs b -> reads n1 (r_bind m k) bs n3 evs b.
Proof. apply (reads_bind m k a b n1 n2 n3 [] bs [] evs). Qed.

(** A step that makes no callback. *)
Lemma reads_step {A B} (m : R A) (k : A -> R B) a b n1 n3 bs1 bs2 evs :
  reads n1 m bs1 n1 [] a -> reads n1 (k a) bs2 n3 evs b -> reads n1 (r_bind m k) (bs1 ++ bs2) n3 evs b.
Proof. apply (reads_bind m k a b n1 n1 n3 bs1 bs2 [] evs). Qed.

Lemma reads_ret {A} (a : A) n : reads n (r_ret a) [] n [] a.
Proof. intros data pre post o e u u' _ _ _ _ _ [= <-]. cbn. by rewrite Z.add_0_r. Qed.

Lemma CALLBACK_ok cb data o e l n u u' : deliver h [cb] u = Some u' ->
  CALLBACK reader cb (mkReadContext data o e l n u) = Done tt (mkReadContext data o e l n u').
Proof.
  intros Hu. cbn in Hu. unfold CALLBACK. cbn. destruct (h cb u) as [[] u1]; [|done]. by injection Hu as ->.
Qed.

Lemma reads_CALLBACK cb n : reads n (CALLBACK reader cb) [] n [cb] tt.
Proof.
  intros data pre post o e u u' _ _ _ _ _ Hu. rewrite (CALLBACK_ok _ _ _ _ _ _ _ _ Hu).
  cbn. by rewrite Z.add_0_r.
Qed.

Lemma reads_callback {B} cb (k : R B) b n n' bs evs : reads n k bs n' evs b ->
  reads n (r_bind (CALLBACK reader cb) (fun _ => k)) bs n' (cb :: evs) b.
Proof. intros Hk. by apply (reads_bind _ _ tt b n n n' [] bs [cb] evs); [apply reads_CALLBACK|]. Qed.

Lemma reads_unless {B} (b : bool) message (k : R B) n n' bs evs x : b = true -> reads n k bs n' evs x ->
  reads n (r_bind (RAISE_ERROR_UNLESS reader b message) (fun _ => k)) bs n' evs x.
Proof. intros -> Hk. by eapply reads_silent; [apply reads_ret|]. Qed.

Lemma reads_raise_unless {A B} (o : option A) a message (k : A -> R B) n n' bs evs x : o = Some a ->
  reads n (k a) bs n' evs x -> reads n (r_bind (raise_unless reader o message) k) bs n' evs x.
Proof. intros -> Hk. by eapply reads_silent; [apply reads_ret|]. Qed.

Lemma reads_counts {B} (k : Counts -> R B) n n' bs evs x : reads n (k n) bs n' evs x ->
  reads n (r_bind counts k) bs n' evs x.
Proof.
  intros Hk. eapply reads_silent; [|exact Hk].
  intros data pre post o e u u' _ _ _ _ _ [= <-]. cbn. by rewrite Z.add_0_r.
Qed.

Lemma reads_modify_counts f n : reads n (modify_counts f) [] (f n) [] tt.
Proof. intros data pre post o e u u' _ _ _ _ _ [= <-]. cbn. by rewrite Z.add_0_r. Qed.

Lemma reads_modify {B} f (k : R B) n n' bs evs x : reads (f n) k bs n' evs x ->
  reads n (r_bind (modify_counts f) (fun _ => k)) bs n' evs x.
Proof. intros Hk. by eapply reads_silent; [apply reads_modify_counts|]. Qed.

Lemma reads_end {A} (m : R A) n bs n' evs a bs' evs' :
  reads n m bs n' evs a -> bs' = bs -> evs' = evs -> reads n m bs' n' evs' a.
Proof. by intros ? -> ->. Qed.

(** A piece at the end of a sequence. *)
Lemma reads_last {A} (m : R A) n bs n' evs a :
  reads n m (bs ++ []) n' evs a -> reads n m bs n' evs a.
Proof. by rewrite app_nil_r. Qed.

(** ** Primitives *)

Lemma zslice_middle {A} (pre bs post : list A) :
  zslice (pre ++ bs ++ post) (zlen pre) (zlen bs) = Some bs.
Proof.
  rewrite zslice_Some by (rewrite ?length_app; lia). rewrite !Nat2Z.id, drop_app_length, take_app_length. done.
Qed.

Lemma reads_IN_SIZE size bs n : zlen bs = size -> reads n (IN_SIZE reader size) bs n [] bs.
Proof.
  intros <- data pre post o e u u' -> -> He Hed Hd [= <-]. unfold IN_SIZE, r_bind, get. cbn.
  rewrite (proj2 (Z.ltb_ge _ _)) by lia. by rewrite zslice_middle.
Qed.

Lemma reads_u8 b n : reads n (in_u8 reader) [b] n [] b.
Proof.
  apply reads_last. unfold in_u8. eapply reads_step; [by apply reads_IN_SIZE|].
  replace (of_le [b]) with b by (cbn; lia). apply reads_ret.
Qed.

Lemma reads_le k v n (m : R Z) : m = r_bind (IN_SIZE reader (Z.of_nat k)) (fun l => r_ret (of_le l)) ->
  in_u (8 * Z.of_nat k) v -> reads n m (le_bytes k v) n [] v.
Proof.
  intros -> Hv. apply reads_last.
  eapply reads_step; [apply reads_IN_SIZE; by rewrite length_le_bytes|].
  rewrite of_le_bytes_in_u by done. apply reads_ret.
Qed.

(** A LEB128 number: the decoder reads it whatever follows. *)
Lemma reads_leb decode bs v n : (forall rest, decode (bs ++ rest) = Some (v, zlen bs)) ->
  reads n (in_leb128 reader decode) bs n [] v.
Proof.
  intros Hdec data pre post o e u u' -> -> He Hed Hd [= <-]. unfold in_leb128, r_bind, get.
  cbn [rd_data rd_offset read_end].
  assert (exists rest, zslice (pre ++ bs ++ post) (zlen pre) (e - zlen pre) = Some (bs ++ rest)) as [rest ->].
  { rewrite !length_app in Hed. rewrite zslice_Some by (rewrite ?length_app; lia).
    rewrite Nat2Z.id, drop_app_length. exists (take (Z.to_nat (e - zlen pre) - length bs) post).
    rewrite take_app, take_ge by lia. done. }
  rewrite Hdec. cbn. done.
Qed.

Lemma reads_u32_leb v n : in_u 32 v -> reads n (in_u32_leb128 reader) (enc_u32 v) n [] v.
Proof.
  intros Hv. unfold enc_u32. destruct (u32_leb128_read v Hv) as (l & -> & _ & Hr). by apply reads_leb.
Qed.

Lemma reads_size canonical v n : in_u 32 v -> reads n (in_u32_leb128 reader) (enc_size canonical v) n [] v.
Proof.
  intros Hv. unfold enc_size. destruct canonical; [by apply reads_u32_leb|].
  destruct (fixed_u32_read v Hv) as (l & E & Hl & Hr). unfold enc_fixed. rewrite E. cbn.
  apply reads_leb. by rewrite Hl.
Qed.

(** The length of a list that fits in the data. *)
Lemma reads_len_gen {A B} (l : list A) (k : Z -> R B) b n n' bs evs :
  (length l <= length bs)%nat -> (in_u 32 (zlen l) -> reads n (k (zlen l)) bs n' evs b) ->
  reads n (r_bind (in_u32_leb128 reader) k) (enc_len l ++ bs) n' evs b.
Proof.
  intros Hl Hk data pre post o e u u' Hdata Ho He Hed Hd Hu. assert (in_u 32 (zlen l)) as Hu32.
  { rewrite Hdata, !length_app in Hd. ulia. }
  exact (reads_step (in_u32_leb128 reader) k _ b n n' _ bs evs (reads_u32_leb _ n Hu32) (Hk Hu32)
    data pre post o e u u' Hdata Ho He Hed Hd Hu).
Qed.

Lemma reads_i32_leb v n : in_s 32 v -> reads n (in_i32_leb128 reader) (enc_s32 v) n [] (u32 v).
Proof.
  intros Hv. unfold enc_s32. destruct (i32_leb128_read v Hv) as (l & -> & _ & Hr). by apply reads_leb.
Qed.

Lemma reads_i64_leb v n : in_s 64 v -> reads n (in_i64_leb128 reader) (enc_s64 v) n [] (u64 v).
Proof.
  intros Hv. unfold enc_s64. destruct (i64_leb128_read v Hv) as (l & -> & _ & Hr). by apply reads_leb.
Qed.

Lemma reads_type t n : reads n (in_type reader) (enc_type t) n [] (wasm_type_code t).
Proof.
  unfold in_type. assert (in_s 32 (wasm_type_code t)) as Ht by (destruct t; unfold in_s; cbn; zpow; lia).
  apply reads_last. eapply reads_step; [by apply reads_i32_leb|]. cbv beta zeta.
  rewrite to_signed_wrap by (lia || done). apply reads_unless; [by destruct t|apply reads_ret].
Qed.

Lemma is_concrete_type_code t : value_type t = true -> is_concrete_type (wasm_type_code t) = Some t.
Proof. by destruct t. Qed.

Lemma reads_concrete_type message t n : value_type t = true ->
  reads n (in_concrete_type reader message) (enc_type t) n [] t.
Proof.
  intros Ht. unfold in_concrete_type. apply reads_last.
  eapply reads_step; [apply reads_type|]. rewrite is_concrete_type_code by done. apply reads_ret.
Qed.

(** A length and that many bytes. *)
Lemma reads_counted message s n : reads n (in_counted reader message) (enc_bytes s) n [] s.
Proof.
  unfold in_counted, enc_bytes. apply reads_len_gen; [done|intros _].
  intros data pre post o e u u' -> -> He Hed Hd [= <-]. unfold r_bind, get. cbn [rd_data rd_offset read_end].
  rewrite (proj2 (Z.ltb_ge _ _)) by lia. by rewrite zslice_middle.
Qed.

Lemma reads_str s n : reads n (in_str reader) (enc_bytes s) n [] s.
Proof. apply reads_counted. Qed.

(** ** Loops *)

(** The rounds of a loop from index [i] on, one for each item of [l]. *)
Fixpoint rounds {A} (n : Counts) (body : Z -> R unit) (enc : A -> bytes) (evs : Z -> A -> list Callback)
    (i : Z) (l : list A) (n' : Counts) : Prop :=
  match l with
  | [] => n' = n
  | x :: l => exists n1, reads n (body i) (enc x) n1 (evs i x) tt /\ rounds n1 body enc evs (i + 1) l n'
  end.

Lemma reads_for_loop {A} (body : Z -> R unit) (enc : A -> bytes) evs fuel i l n n' :
  (length l <= fuel)%nat -> rounds n body enc evs i l n' ->
  reads n (for_loop fuel i (i + zlen l) body) (concat (map enc l)) n' (indexed evs i l) tt.
Proof.
  revert fuel i n. induction l as [|x l IH]; intros fuel i n Hf Hr; cbn [map concat indexed length].
  - cbn in Hr. subst n'. destruct fuel; cbn [for_loop]; rewrite (proj2 (Z.leb_le _ _)) by lia; apply reads_ret.
  - destruct Hr as (n1 & Hx & Hl). destruct fuel as [|fuel]; [cbn in Hf; lia|]. cbn [for_loop].
    rewrite (proj2 (Z.leb_gt _ _)) by lia. eapply reads_bind; [exact Hx|].
    replace (i + Z.of_nat (S (length l))) with (i + 1 + zlen l) by lia.
    apply IH; [cbn [length] in Hf; lia|done].
Qed.

Lemma reads_FOR {A} (body : Z -> R unit) (enc : A -> bytes) evs l n n' :
  Forall (fun x => enc x <> []) l -> rounds n body enc evs 0 l n' ->
  reads n (FOR (zlen l) body) (concat (map enc l)) n' (indexed evs 0 l) tt.
Proof.
  intros Hne Hr data pre post o e u u' Hdata Ho He Hed Hd Hu. unfold FOR, r_bind, get. cbn [rd_data].
  apply (reads_for_loop body enc evs (S (length data)) 0 l n n') with (pre := pre) (post := post); try done.
  pose proof (length_concat_nonempty enc l Hne). rewrite Hdata, !length_app. lia.
Qed.

(** The rounds when no count changes. *)
Lemma rounds_same {A} n (body : Z -> R unit) (enc : A -> bytes) evs i l :
  Forall (fun x => forall i, reads n (body i) (enc x) n (evs i x) tt) l -> rounds n body enc evs i l n.
Proof. intros Hl. revert i. induction Hl as [|x l Hx _ IH]; intros i; cbn [rounds]; eauto. Qed.

(** A loop and what follows it. *)
Lemma reads_FOR_then {A} (body : Z -> R unit) (enc : A -> bytes) evs l n n' n'' k cbs :
  Forall (fun x => enc x <> []) l -> rounds n body enc evs 0 l n' -> reads n' k [] n'' cbs tt ->
  reads n (r_bind (FOR (zlen l) body) (fun _ => k)) (concat (map enc l)) n'' (indexed evs 0 l ++ cbs) tt.
Proof.
  intros Hne Hr Hk. apply reads_last. eapply reads_bind; [by apply reads_FOR|exact Hk].
Qed.

(** A length with its list, when what is read from it follows. *)
Lemma reads_vec {A B} (enc : A -> bytes) (l : list A) (k : Z -> R B) n n' evs b :
  Forall (fun x => enc x <> []) l -> reads n (k (zlen l)) (concat (map enc l)) n' evs b ->
  reads n (r_bind (in_u32_leb128 reader) k) (enc_vec enc l) n' evs b.
Proof.
  intros Hne Hk. apply reads_len_gen; [by apply length_concat_nonempty|done].
Qed.

Lemma reads_array_loop {A} (body : R A) (enc : A -> bytes) fuel i l n : (length l <= fuel)%nat ->
  Forall (fun x => reads n body (enc x) n [] x) l ->
  reads n (array_loop fuel i (i + zlen l) body) (concat (map enc l)) n [] l.
Proof.
  intros Hf Hl. revert fuel i Hf. induction Hl as [|x l Hx _ IH]; intros fuel i Hf; cbn [map concat length].
  - destruct fuel; cbn [array_loop]; rewrite (proj2 (Z.leb_le _ _)) by lia; apply reads_ret.
  - destruct fuel as [|fuel]; [cbn in Hf; lia|]. cbn [array_loop].
    rewrite (proj2 (Z.leb_gt _ _)) by lia. eapply reads_step; [exact Hx|].
    apply reads_last. eapply reads_step; [|apply reads_ret].
    replace (i + Z.of_nat (S (length l))) with (i + 1 + zlen l) by lia.
    apply IH. cbn [length] in Hf. lia.
Qed.

Lemma reads_READ_ARRAY {A B} (body : R A) (enc : A -> bytes) l (k : list A -> R B) n n' bs evs b :
  Forall (fun x => enc x <> []) l -> Forall (fun x => reads n body (enc x) n [] x) l ->
  reads n (k l) bs n' evs b ->
  reads n (r_bind (in_u32_leb128 reader) (fun num => r_bind (READ_ARRAY num body) k)) (enc_vec enc l ++ bs) n' evs b.
Proof.
  intros Hne Hl Hk. unfold enc_vec. rewrite <- app_assoc. apply reads_len_gen.
  - pose proof (length_concat_nonempty enc l Hne). rewrite length_app. lia.
  - intros _. eapply reads_step; [|exact Hk].
    intros data pre post o e u u' Hdata Ho He Hed Hd Hu. unfold READ_ARRAY, r_bind, get. cbn [rd_data].
    apply (reads_array_loop body enc (S (length data)) 0 l n) with (pre := pre) (post := post); try done.
    pose proof (length_concat_nonempty enc l Hne). rewrite Hdata, !length_app. lia.
Qed.

(** ** Parts of sections *)

Lemma ok_u32_in v : ok_u32 v = true -> in_u 32 v.
Proof. apply bool_decide_eq_true. Qed.

Lemma reads_end_opcode n message : reads n (r_bind (in_u8 reader) (fun opcode =>
    RAISE_ERROR_UNLESS reader (opcode =? opcode_code WASM_OPCODE_END) message))
  (enc_op WASM_OPCODE_END) n [] tt.
Proof. apply reads_last. eapply reads_step; [apply reads_u8|]. apply reads_ret. Qed.

Lemma reads_i32 v n : in_u 32 v -> reads n (in_i32_leb128 reader) (enc_s32 (to_signed 32 v)) n [] v.
Proof.
  intros Hv. rewrite <- (wrap_to_signed 32 v) at 2 by (lia || done).
  by apply reads_i32_leb, to_signed_in_s.
Qed.

Lemma reads_i64 v n : in_u 64 v -> reads n (in_i64_leb128 reader) (enc_s64 (to_signed 64 v)) n [] v.
Proof.
  intros Hv. rewrite <- (wrap_to_signed 64 v) at 2 by (lia || done).
  by apply reads_i64_leb, to_signed_in_s.
Qed.

Lemma reads_f32 v n : in_u 32 v -> reads n (in_f32 reader) (le_bytes 4 v) n [] v.
Proof. by apply (reads_le 4). Qed.

Lemma reads_f64 v n : in_u 64 v -> reads n (in_f64 reader) (le_bytes 8 v) n [] v.
Proof. by apply (reads_le 8). Qed.

(** An opcode byte. *)
Lemma reads_op {B} op (k : Z -> R B) n n' bs evs b : reads n (k (opcode_code op)) bs n' evs b ->
  reads n (r_bind (in_u8 reader) k) (enc_op op ++ bs) n' evs b.
Proof. intros Hk. eapply reads_step; [apply reads_u8|exact Hk]. Qed.

Lemma reads_init_expr i l n : ok_init l = true ->
  reads n (read_init_expr reader i) (enc_expr l) n (init_callbacks i l) tt.
Proof.
  assert (forall (m : R Z) (cb : Z -> Callback) v bs,
    reads n m bs n [] v ->
    reads n (r_bind m (fun v => r_bind (CALLBACK reader (cb v)) (fun _ =>
      r_bind (in_u8 reader) (fun opcode => RAISE_ERROR_UNLESS reader (opcode =? opcode_code WASM_OPCODE_END)
        "expected END opcode after initializer expression"))))
      (bs ++ enc_op WASM_OPCODE_END) n [cb v] tt) as Hone.
  { intros m cb v bs Hm. eapply reads_step; [exact Hm|]. apply reads_callback, reads_end_opcode. }
  unfold read_init_expr, enc_expr, enc_instrs. intros Hl. destruct l as [|x [|]]; [|destruct x; try done..].
  - apply (reads_op WASM_OPCODE_END _ n n []). apply reads_ret.
  - apply andb_true_iff in Hl as [->%bool_decide_eq_true Hu%ok_u32_in]. cbn [map concat enc_instr init_callbacks].
    rewrite app_nil_r, <- app_assoc. apply reads_op. apply Hone. by apply reads_u32_leb.
  - cbn [ok_init map concat enc_instr init_callbacks] in *. unfold const_ok, enc_const in *.
    rewrite app_nil_r. destruct (const_type const_); try done; apply bool_decide_eq_true in Hl;
      rewrite <- app_assoc; apply reads_op; apply Hone; auto using reads_i32, reads_i64, reads_f32, reads_f64.
Qed.

(** The flags of limits. *)
Lemma reads_limits_flag n (b : bool) : reads n (in_u32_leb128 reader)
  (enc_u32 (if b then WASM_BINARY_LIMITS_HAS_MAX_FLAG else 0)) n []
  (if b then WASM_BINARY_LIMITS_HAS_MAX_FLAG else 0).
Proof. apply reads_u32_leb. by destruct b. Qed.

Lemma ok_limits_inv l : ok_limits l = true -> in_u 32 (lim_initial l) /\ in_u 32 (lim_max l) /\
  (lim_has_max l = true -> lim_initial l <= lim_max l).
Proof.
  unfold ok_limits. intros [[H1%ok_u32_in H2%ok_u32_in]%andb_true_iff H3]%andb_true_iff. split_and!; [done..|].
  intros Hm. rewrite Hm in H3. cbn in H3. lia.
Qed.

Lemma reads_table l n : ok_limits l = true ->
  reads n (read_table reader) (enc_table l) n [] (WASM_TYPE_ANYFUNC, read_limits l).
Proof.
  intros (H1 & H2 & H3)%ok_limits_inv. unfold read_table, enc_table, enc_limits, read_limits.
  eapply reads_step; [apply reads_type|]. apply reads_unless; [done|].
  eapply reads_step; [apply reads_limits_flag|]. eapply reads_step; [by apply reads_u32_leb|].
  destruct (lim_has_max l); cbn [has_max_flag].
  - change (has_max_flag WASM_BINARY_LIMITS_HAS_MAX_FLAG) with true. apply reads_last.
    eapply reads_step; [|apply reads_ret]. apply reads_last. eapply reads_step; [by apply reads_u32_leb|].
    apply reads_unless; [apply Z.leb_le; auto|apply reads_ret].
  - change (has_max_flag 0) with false. eapply reads_silent; apply reads_ret.
Qed.

Lemma reads_memory l n : ok_memory l = true -> reads n (read_memory reader) (enc_limits l) n [] (read_limits l).
Proof.
  unfold ok_memory. intros [[(H1 & H2 & H3)%ok_limits_inv H4]%andb_true_iff H5]%andb_true_iff.
  unfold read_memory, enc_limits, read_limits.
  eapply reads_step; [apply reads_limits_flag|]. eapply reads_step; [by apply reads_u32_leb|].
  apply reads_unless; [done|]. destruct (lim_has_max l); cbn [negb orb] in *.
  - change (has_max_flag WASM_BINARY_LIMITS_HAS_MAX_FLAG) with true. apply reads_last.
    eapply reads_step; [|apply reads_ret]. apply reads_last. eapply reads_step; [by apply reads_u32_leb|].
    apply reads_unless; [done|]. apply reads_unless; [apply Z.leb_le; auto|apply reads_ret].
  - change (has_max_flag 0) with false. eapply reads_silent; apply reads_ret.
Qed.

Lemma reads_global_header t m n : value_type t = true ->
  reads n (read_global_header reader) (enc_global_type t m) n [] (t, m).
Proof.
  intros Ht. unfold read_global_header, enc_global_type. eapply reads_step; [by apply reads_concrete_type|].
  apply reads_last. eapply reads_step; [apply reads_u8|]. apply reads_unless; [by destruct m|].
  destruct m; apply reads_ret.
Qed.

(** ** Function bodies *)

(** [loops n bs evs]: inside a body that does not end there, the loop of
    [read_function_body] goes through [bs], an opcode a round. *)
Definition loops (n : Counts) (bs : bytes) (evs : list Callback) : Prop :=
  forall fuel end_ seen data pre post o e u u', data = pre ++ bs ++ post -> o = zlen pre ->
  o + zlen bs < end_ -> end_ <= e -> e <= zlen data -> zlen data < 2 ^ 32 -> (length bs <= fuel)%nat ->
  deliver h evs u = Some u' ->
  exists fuel', (fuel - length bs <= fuel')%nat /\
    body_loop reader fuel end_ seen (mkReadContext data o e last n u) =
    body_loop reader fuel' end_ seen (mkReadContext data (o + zlen bs) e last n u').

Lemma loops_nil n : loops n [] [].
Proof.
  intros fuel end_ seen data pre post o e u u' _ _ _ _ _ _ _ [= <-]. exists fuel. split; [cbn; lia|].
  cbn [length]. by rewrite Z.add_0_r.
Qed.

Lemma loops_app n bs1 bs2 evs1 evs2 : loops n bs1 evs1 -> loops n bs2 evs2 -> loops n (bs1 ++ bs2) (evs1 ++ evs2).
Proof.
  intros H1 H2 fuel end_ seen data pre post o e u u'' Hdata Ho Hend He Hed Hd Hf (u' & Hu1 & Hu2)%deliver_app.
  rewrite length_app in Hend, Hf. rewrite length_app.
  destruct (H1 fuel end_ seen data pre (bs2 ++ post) o e u u') as (f1 & Hf1 & ->);
    [by rewrite Hdata, <- app_assoc|done|lia|done..|lia|done|].
  destruct (H2 f1 end_ seen data (pre ++ bs1) post (o + zlen bs1) e u' u'') as (f2 & Hf2 & ->);
    [by rewrite Hdata, <- !app_assoc|rewrite length_app; lia|lia|done..|lia|done|].
  exists f2. split; [lia|]. by replace (o + Z.of_nat (length bs1 + length bs2)) with (o + zlen bs1 + zlen bs2) by lia.
Qed.

(** One round. *)
Lemma loops_op n op bs evs : (forall end_, reads n (read_opcode reader end_ (opcode_code op)) bs n evs false) ->
  loops n (enc_op op ++ bs) (CB_on_opcode (opcode_code op) :: evs).
Proof.
  intros Hop fuel end_ seen data pre post o e u u' Hdata Ho Hend He Hed Hd Hf Hu.
  rewrite length_app in Hend, Hf |- *. cbn [enc_op length] in *.
  destruct fuel as [|fuel]; [lia|]. exists fuel. split; [lia|]. cbn [body_loop]. unfold r_bind at 1, get. cbn [rd_offset].
  rewrite (proj2 (Z.ltb_lt _ _)) by lia.
  assert (reads n (r_bind (in_u8 reader) (fun opcode => r_bind (CALLBACK reader (CB_on_opcode opcode)) (fun _ =>
    read_opcode reader end_ opcode))) (enc_op op ++ bs) n (CB_on_opcode (opcode_code op) :: evs) false) as Hround.
  { apply reads_op, reads_callback, Hop. }
  specialize (Hround data pre post o e u u' Hdata Ho). rewrite length_app in Hround. cbn [enc_op length] in Hround.
  specialize (Hround ltac:(lia) Hed Hd Hu). unfold r_bind in Hround |- *.
  destruct (in_u8 reader _) as [opcode c1| |]; [|done..].
  destruct (CALLBACK reader _ c1) as [[] c2| |]; [|done..].
  rewrite Hround. by rewrite orb_false_r.
Qed.

(** The [end] of a block. *)
Lemma loops_end n : loops n (enc_op WASM_OPCODE_END) [CB_on_opcode (opcode_code WASM_OPCODE_END); CB_on_end_expr].
Proof.
  intros fuel end_ seen data pre post o e u u' Hdata Ho Hend He Hed Hd Hf Hu. cbn [enc_op length] in *.
  destruct fuel as [|fuel]; [lia|]. exists fuel. split; [lia|]. cbn [body_loop]. unfold r_bind at 1, get. cbn [rd_offset].
  rewrite (proj2 (Z.ltb_lt _ _)) by lia.
  unfold r_bind.
  rewrite (reads_u8 (opcode_code WASM_OPCODE_END) n data pre post o e u u Hdata Ho) by (cbn [length]; lia || done).
  apply (deliver_app _ [_] [_]) in Hu as (u1 & Hu1 & Hu2).
  rewrite (reads_CALLBACK (CB_on_opcode (opcode_code WASM_OPCODE_END)) n data
    (pre ++ enc_op WASM_OPCODE_END) post _ e u u1); [|by rewrite Hdata, <- app_assoc|rewrite length_app; cbn; lia|cbn; lia|done..].
  unfold read_opcode. rewrite opcode_of_code_code. unfold r_bind, get. cbn [rd_offset length].
  rewrite (proj2 (Z.eqb_neq _ _)) by lia.
  rewrite (reads_CALLBACK CB_on_end_expr n data (pre ++ enc_op WASM_OPCODE_END) post _ e u1 u');
    [|by rewrite Hdata, <- app_assoc|rewrite length_app; cbn; lia|cbn; lia|done..].
  cbn. by rewrite !Z.add_0_r, orb_false_r.
Qed.

(** ** Instructions *)

Lemma reads_no m n bs evs : reads n m bs n evs tt ->
  reads n (r_bind m (fun _ => r_ret false)) bs n evs false.
Proof.
  intros Hm. apply reads_last. rewrite <- (app_nil_r evs). by eapply reads_bind; [exact Hm|apply reads_ret].
Qed.

Lemma reads_two_callbacks cb1 cb2 n :
  reads n (r_bind (CALLBACK reader cb1) (fun _ => CALLBACK reader cb2)) [] n [cb1; cb2] tt.
Proof. apply reads_callback, reads_CALLBACK. Qed.

Lemma reads_bare cb n : reads n (bare reader cb) [] n [cb; CB_on_opcode_bare] tt.
Proof. apply reads_two_callbacks. Qed.

(** A number, then two callbacks. *)
Lemma reads_operand {A} (m : R A) (cb1 cb2 : A -> Callback) bs v n : reads n m bs n [] v ->
  reads n (r_bind m (fun v => r_bind (CALLBACK reader (cb1 v)) (fun _ => CALLBACK reader (cb2 v)))) bs n
    [cb1 v; cb2 v] tt.
Proof. intros Hm. apply reads_last. eapply reads_step; [exact Hm|]. apply reads_two_callbacks. Qed.

Lemma reads_with_u32 cb v n : in_u 32 v -> reads n (with_u32 reader cb) (enc_u32 v) n [cb v; CB_on_opcode_uint32 v] tt.
Proof. intros Hv. apply (reads_operand _ cb CB_on_opcode_uint32). by apply reads_u32_leb. Qed.

Lemma is_inline_sig_type_code sig : ok_sig sig = true -> exists t,
  enc_block_sig sig = enc_type t /\ is_inline_sig_type (wasm_type_code t) = Some sig.
Proof.
  unfold ok_sig. destruct sig as [|t []]; [by exists WASM_TYPE_VOID| |done].
  intros Ht. exists t. split; [done|]. by destruct t.
Qed.

Lemma reads_with_block_sig cb sig n : ok_sig sig = true ->
  reads n (with_block_sig reader cb) (enc_block_sig sig) n [cb sig; CB_on_opcode_block_sig sig] tt.
Proof.
  intros (t & -> & Ht)%is_inline_sig_type_code. apply reads_last. eapply reads_step; [apply reads_type|].
  eapply reads_raise_unless; [exact Ht|]. apply reads_two_callbacks.
Qed.

(** An alignment is written as one byte and read as a number. *)
Lemma enc_u32_byte v : 0 <= v < 128 -> enc_u32 v = [v].
Proof.
  intros Hv. unfold enc_u32, Write.u32_leb128. cbn [Write.LEB128_LOOP_UNTIL Write.MAX_U32_LEB128_BYTES].
  rewrite low7, shiftr7, Z.mod_small, Z.div_small by lia. done.
Qed.

Lemma reads_u32_byte v n : 0 <= v < 128 -> reads n (in_u32_leb128 reader) [v] n [] v.
Proof. intros Hv. rewrite <- enc_u32_byte by done. apply reads_u32_leb. ulia. Qed.

Lemma reads_with_memory_access cb log2 offset n : 0 <= log2 < 128 -> in_u 32 offset ->
  reads n (with_memory_access reader cb) ([log2] ++ enc_u32 offset) n
    [cb log2 offset; CB_on_opcode_uint32_uint32 log2 offset] tt.
Proof.
  intros Hl Ho. unfold with_memory_access. eapply reads_step; [by apply reads_u32_byte|].
  apply (reads_operand _ (cb log2) (CB_on_opcode_uint32_uint32 log2)). by apply reads_u32_leb.
Qed.

Lemma reads_with_reserved cb message n :
  reads n (with_reserved reader cb message) (enc_u32 0) n [cb; CB_on_opcode_uint32 0] tt.
Proof.
  unfold with_reserved. apply reads_last. eapply reads_step; [by apply reads_u32_leb|].
  apply reads_unless; [done|]. apply reads_two_callbacks.
Qed.

Ltac at_opcode := unfold read_opcode; rewrite opcode_of_code_code; cbv beta zeta iota; apply reads_no.

Lemma loops_op_end n op evs : (forall end_, reads n (read_opcode reader end_ (opcode_code op)) [] n evs false) ->
  loops n (enc_op op) (CB_on_opcode (opcode_code op) :: evs).
Proof. intros Hop. rewrite <- (app_nil_r (enc_op op)). by apply loops_op. Qed.

Lemma loops_bare n op cb : bare_callback op = Some cb ->
  loops n (enc_op op) [CB_on_opcode (opcode_code op); cb; CB_on_opcode_bare].
Proof.
  intros Hcb. apply loops_op_end. intros end_. unfold read_opcode. rewrite opcode_of_code_code. cbv beta zeta.
  destruct op; cbn [bare_callback opcode_group] in Hcb; try discriminate Hcb; injection Hcb as <-;
    cbn [opcode_group]; apply reads_no, reads_bare.
Qed.

Lemma loops_else n : loops n (enc_op WASM_OPCODE_ELSE)
  [CB_on_opcode (opcode_code WASM_OPCODE_ELSE); CB_on_else_expr; CB_on_opcode_bare].
Proof. apply loops_op_end. intros end_. at_opcode. apply reads_bare. Qed.

Lemma loops_index n op cb v : index_callback op = Some cb -> in_u 32 v ->
  (op = WASM_OPCODE_CALL -> v < num_total_funcs n) ->
  loops n (enc_op op ++ enc_u32 v) [CB_on_opcode (opcode_code op); cb v; CB_on_opcode_uint32 v].
Proof.
  intros Hcb Hv Hcall. apply loops_op. intros end_.
  destruct op; try discriminate Hcb; injection Hcb as <-; at_opcode; try by apply reads_with_u32.
  apply reads_last. eapply reads_step; [by apply reads_u32_leb|]. apply reads_counts.
  apply reads_unless; [apply Z.ltb_lt; auto|]. apply reads_two_callbacks.
Qed.

Lemma loops_memory n op cb log2 offset : memory_callback op = Some cb -> 0 <= log2 < 128 -> in_u 32 offset ->
  loops n (enc_op op ++ [log2] ++ enc_u32 offset)
    [CB_on_opcode (opcode_code op); cb log2 offset; CB_on_opcode_uint32_uint32 log2 offset].
Proof.
  intros Hcb Hl Ho. apply loops_op. intros end_. unfold read_opcode. rewrite opcode_of_code_code. cbv beta zeta.
  unfold memory_callback in Hcb.
  destruct op; cbn [opcode_group] in Hcb |- *; try discriminate Hcb; injection Hcb as <-;
    apply reads_no; by apply reads_with_memory_access.
Qed.

Lemma loops_reserved n op cb : reserved_callback op = Some cb ->
  loops n (enc_op op ++ enc_u32 0) [CB_on_opcode (opcode_code op); cb; CB_on_opcode_uint32 0].
Proof.
  intros Hcb. apply loops_op. intros end_.
  destruct op; try discriminate Hcb; injection Hcb as <-; at_opcode; apply reads_with_reserved.
Qed.

Lemma loops_const n c : const_ok c = true -> loops n (enc_const c) (instr_const_callbacks c).
Proof.
  unfold const_ok, enc_const, instr_const_callbacks. destruct (const_type c); try done;
    intros Hb%bool_decide_eq_true; apply loops_op; intros end_; at_opcode.
  - apply (reads_operand _ CB_on_i32_const_expr CB_on_opcode_uint32). by apply reads_i32.
  - apply (reads_operand _ CB_on_i64_const_expr CB_on_opcode_uint64). by apply reads_i64.
  - apply (reads_operand _ CB_on_f32_const_expr CB_on_opcode_f32). by apply reads_f32.
  - apply (reads_operand _ CB_on_f64_const_expr CB_on_opcode_f64). by apply reads_f64.
Qed.

Lemma forallb_Forall {A} (f : A -> bool) l : forallb f l = true -> Forall (fun x => f x = true) l.
Proof. intros Hf. apply Forall_forall. intros x Hx. rewrite List.forallb_forall in Hf. by apply Hf, list_elem_of_In. Qed.

Lemma loops_br_table n ts d : forallb ok_u32 ts = true -> ok_u32 d = true ->
  loops n (enc_instr (BI_BR_TABLE ts d)) (instr_callbacks (BI_BR_TABLE ts d)).
Proof.
  intros Hts%forallb_Forall Hd%ok_u32_in. apply loops_op. intros end_. at_opcode.
  apply (reads_READ_ARRAY _ enc_u32).
  - eapply Forall_impl; [exact Hts|]. intros x Hx. by apply enc_u32_ne, ok_u32_in.
  - eapply Forall_impl; [exact Hts|]. intros x Hx. by apply reads_u32_leb, ok_u32_in.
  - apply reads_last. eapply reads_step; [by apply reads_u32_leb|apply reads_CALLBACK].
Qed.

Lemma loops_call_indirect n sig : ok_u32 sig = true -> sig < num_signatures n ->
  loops n (enc_instr (BI_CALL_INDIRECT sig)) (instr_callbacks (BI_CALL_INDIRECT sig)).
Proof.
  intros Hu%ok_u32_in Hs. apply loops_op. intros end_. at_opcode.
  eapply reads_step; [by apply reads_u32_leb|]. apply reads_counts. apply reads_unless; [by apply Z.ltb_lt|].
  apply reads_last. eapply reads_step; [by apply reads_u32_leb|]. apply reads_unless; [done|].
  apply reads_two_callbacks.
Qed.

Lemma loops_list n l : Forall (fun i => loops n (enc_instr i) (instr_callbacks i)) l ->
  loops n (enc_instrs l) (instrs_callbacks l).
Proof.
  unfold enc_instrs, instrs_callbacks. induction 1; cbn [map concat]; [apply loops_nil|by apply loops_app].
Qed.

Lemma instrs_callbacks_fix l :
  (fix go (l : list BInstr) : list Callback := match l with [] => [] | i :: l => instr_callbacks i ++ go l end) l =
  instrs_callbacks l.
Proof. unfold instrs_callbacks. induction l as [|i l IH]; [done|]. cbn [map concat]. by rewrite IH. Qed.

(** The opcode of a block with its signature. *)
Lemma loops_block_op n op cb sig : ok_sig sig = true ->
  (op, cb) ∈ [(WASM_OPCODE_BLOCK, CB_on_block_expr); (WASM_OPCODE_LOOP, CB_on_loop_expr);
              (WASM_OPCODE_IF, CB_on_if_expr)] ->
  loops n (enc_op op ++ enc_block_sig sig) [CB_on_opcode (opcode_code op); cb sig; CB_on_opcode_block_sig sig].
Proof.
  intros Hs Hop. apply loops_op. intros end_.
  rewrite !elem_of_cons in Hop. destruct Hop as [E|[E|[E|E%not_elem_of_nil]]]; [injection E as -> ->..|done];
    at_opcode; by apply reads_with_block_sig.
Qed.

Lemma is_some_inv {A} (o : option A) : is_some o = true -> exists x, o = Some x.
Proof. destruct o; [eauto|done]. Qed.

Section instr.
Context (n : Counts) (num_sigs num_funcs : Z).
Hypothesis Hsigs : num_signatures n = num_sigs.
Hypothesis Hfuncs : num_total_funcs n = num_funcs.

Abbreviation instr_loops := (fun i => ok_instr num_sigs num_funcs i = true -> loops n (enc_instr i) (instr_callbacks i)).

Lemma loops_body l : Forall instr_loops l -> forallb (ok_instr num_sigs num_funcs) l = true ->
  loops n (enc_instrs l) (instrs_callbacks l).
Proof.
  intros Hl Hok%forallb_Forall. apply loops_list. induction Hl; inversion Hok; constructor; auto.
Qed.

Lemma loops_block op cb sig l : (op, cb) ∈ [(WASM_OPCODE_BLOCK, CB_on_block_expr);
    (WASM_OPCODE_LOOP, CB_on_loop_expr); (WASM_OPCODE_IF, CB_on_if_expr)] ->
  ok_sig sig = true -> Forall instr_loops l -> forallb (ok_instr num_sigs num_funcs) l = true ->
  loops n (enc_op op ++ enc_block_sig sig ++ enc_instrs l ++ enc_op WASM_OPCODE_END)
    ([CB_on_opcode (opcode_code op); cb sig; CB_on_opcode_block_sig sig] ++ instrs_callbacks l ++
     [CB_on_opcode (opcode_code WASM_OPCODE_END); CB_on_end_expr]).
Proof.
  intros Hop Hs Hl Hok. rewrite app_assoc. apply loops_app; [by apply loops_block_op|].
  apply loops_app; [by apply loops_body|apply loops_end].
Qed.

Lemma loops_instr i : instr_loops i.
Proof.
  apply BInstr_nested_ind; clear i.
  - intros sig l Hl [Hs Hok]%andb_true_iff. cbn [enc_instr instr_callbacks].
    rewrite enc_instrs_fix, instrs_callbacks_fix. apply loops_block; [by repeat constructor|done..].
  - intros sig l Hl [Hs Hok]%andb_true_iff. cbn [enc_instr instr_callbacks].
    rewrite enc_instrs_fix, instrs_callbacks_fix. apply loops_block; [by repeat constructor|done..].
  - intros sig ts fs Hts Hfs [[Hs Hokt]%andb_true_iff Hokf]%andb_true_iff. cbn [enc_instr instr_callbacks].
    rewrite !enc_instrs_fix, !instrs_callbacks_fix.
    destruct fs as [|f fs].
    { apply loops_block; [by repeat constructor|done..]. }
    rewrite app_assoc. apply loops_app; [apply loops_block_op; [done|by repeat constructor]|].
    apply loops_app; [by apply loops_body|]. apply loops_app; [|apply loops_end].
    apply loops_app; [apply loops_else|].
    by apply loops_body.
  - intros i. destruct i; try done; intros Hok; cbn [ok_instr] in Hok.
    + apply is_some_inv in Hok as [cb Hcb]. cbn [enc_instr instr_callbacks]. rewrite Hcb. by apply loops_bare.
    + apply andb_true_iff in Hok as [[[cb Hcb]%is_some_inv Hu%ok_u32_in]%andb_true_iff Hc].
      cbn [enc_instr instr_callbacks]. rewrite Hcb. apply loops_index; [done..|].
      intros ->. rewrite bool_decide_true in Hc by done. cbn [negb orb] in Hc. lia.
    + apply andb_true_iff in Hok as [? ?]. by apply loops_br_table.
    + apply andb_true_iff in Hok as [? ?]. apply loops_call_indirect; [done|lia].
    + by apply loops_const.
    + apply andb_true_iff in Hok as [[[[cb Hcb]%is_some_inv H1]%andb_true_iff H2]%andb_true_iff Hu%ok_u32_in].
      cbn [enc_instr instr_callbacks]. rewrite Hcb. apply loops_memory; [done|lia|done].
    + apply is_some_inv in Hok as [cb Hcb]. cbn [enc_instr instr_callbacks]. rewrite Hcb. by apply loops_reserved.
Qed.

(** The whole body, up to the final [end]. *)
Lemma function_body_ok l data pre post o e u u' end_ :
  forallb (ok_instr num_sigs num_funcs) l = true ->
  data = pre ++ enc_expr l ++ post -> o = zlen pre -> end_ = o + zlen (enc_expr l) ->
  end_ <= e -> e <= zlen data -> zlen data < 2 ^ 32 ->
  deliver h (instrs_callbacks l ++ [CB_on_opcode (opcode_code WASM_OPCODE_END)]) u = Some u' ->
  read_function_body reader end_ (mkReadContext data o e last n u) =
  Done tt (mkReadContext data end_ e last n u').
Proof.
  intros Hok Hdata Ho Hend He Hed Hd (u1 & Hu1 & Hu2)%deliver_app. unfold enc_expr in *.
  rewrite length_app in Hend. cbn [enc_op length] in Hend.
  assert (loops n (enc_instrs l) (instrs_callbacks l)) as Hl.
  { apply loops_body; [|done]. apply Forall_true. intros i. apply loops_instr. }
  unfold read_function_body, r_bind at 1, get. cbn [rd_data].
  assert (length (enc_instrs l) <= length data)%nat by (rewrite Hdata, !length_app; lia).
  destruct (Hl (S (length data)) end_ false data pre (enc_op WASM_OPCODE_END ++ post) o e u u1) as (fuel & Hf & E);
    [by rewrite Hdata, <- app_assoc|done|lia..|done|]. unfold r_bind at 1. rewrite E.
  destruct fuel as [|fuel]; [lia|]. cbn [body_loop]. unfold r_bind at 1, get. cbn [rd_offset].
  rewrite (proj2 (Z.ltb_lt _ _)) by lia. unfold r_bind at 1.
  rewrite (reads_u8 (opcode_code WASM_OPCODE_END) n data (pre ++ enc_instrs l) post _ e u1 u1);
    [|by rewrite Hdata, <- !app_assoc|rewrite length_app; lia|cbn [length]; lia|done..].
  unfold r_bind at 1.
  rewrite (reads_CALLBACK (CB_on_opcode (opcode_code WASM_OPCODE_END)) n data (pre ++ enc_instrs l ++ enc_op WASM_OPCODE_END)
    post _ e u1 u'); [|by rewrite Hdata, <- !app_assoc|rewrite !length_app; cbn [enc_op length]; lia|cbn [length]; lia|done..].
  unfold r_bind at 1, read_opcode. rewrite opcode_of_code_code. unfold r_bind at 1, get. cbn [rd_offset length].
  rewrite (proj2 (Z.eqb_eq _ _)) by lia. cbn [r_ret].
  destruct fuel as [|fuel]; cbn [body_loop]; unfold r_bind at 1, get; cbn [rd_offset];
    rewrite (proj2 (Z.ltb_ge _ _)) by lia; unfold r_ret, r_bind, RAISE_ERROR_UNLESS; cbn [rd_offset];
    rewrite (proj2 (Z.eqb_eq _ _)) by lia; cbn; repeat f_equal; lia.
Qed.
End instr.

(** ** Items of sections *)

Lemma Forall_ne {A} (enc : A -> bytes) (l : list A) : (forall x, enc x <> []) -> Forall (fun x => enc x <> []) l.
Proof. intros Hne. by apply Forall_true. Qed.

Lemma ok_sig_types sig : ok_sig sig = true -> sig = [] \/ exists t, sig = [t] /\ value_type t = true.
Proof.
  unfold ok_sig. destruct sig as [|t []]; [by left| |done]. cbn. rewrite andb_true_r. eauto.
Qed.

Lemma reads_type_item i sig n : ok_func_type sig = true ->
  reads n (r_bind (in_type reader) (fun form =>
    r_bind (RAISE_ERROR_UNLESS reader (form =? wasm_type_code WASM_TYPE_FUNC) "unexpected type form") (fun _ =>
    r_bind (in_u32_leb128 reader) (fun num_params =>
    r_bind (READ_ARRAY num_params (in_concrete_type reader "expected valid param type")) (fun params =>
    r_bind (in_u32_leb128 reader) (fun num_results =>
    r_bind (RAISE_ERROR_UNLESS reader (num_results <=? 1) "result count must be 0 or 1") (fun _ =>
    r_bind (if negb (num_results =? 0) then
              r_bind (in_concrete_type reader "expected valid result type") (fun t => r_ret [t])
            else r_ret []) (fun results => CALLBACK reader (CB_on_signature i params results)))))))))
    (enc_func_type sig) n (type_callbacks i sig) tt.
Proof.
  unfold ok_func_type, enc_func_type, type_callbacks. intros [Hp%forallb_Forall Hr%ok_sig_types]%andb_true_iff.
  eapply reads_step; [apply reads_type|]. apply reads_unless; [done|].
  apply (reads_READ_ARRAY _ enc_type); [by apply Forall_ne, enc_type_ne| |].
  { eapply Forall_impl; [exact Hp|]. intros t Ht. by apply reads_concrete_type. }
  apply (reads_vec enc_type); [by apply Forall_ne, enc_type_ne|].
  destruct Hr as [->|(t & -> & Ht)]; cbn [length map concat Z.of_nat].
  - apply reads_unless; [done|]. eapply reads_silent; [apply reads_ret|apply reads_CALLBACK].
  - apply reads_unless; [done|]. eapply reads_step; [|apply reads_CALLBACK].
    apply reads_last. eapply reads_step; [by apply reads_concrete_type|apply reads_ret].
Qed.

Lemma reads_import i im n : ok_import (num_signatures n) im = true ->
  reads n (read_import reader i) (enc_import im) (count_import (bimport_kind (bi_desc im)) n) (import_callbacks i im) tt.
Proof.
  unfold ok_import, read_import, enc_import, import_callbacks. intros Hok.
  eapply reads_step; [apply reads_str|]. eapply reads_step; [apply reads_str|]. apply reads_callback.
  eapply reads_step; [apply reads_u32_byte; by destruct (bi_desc im)|].
  apply (reads_raise_unless _ (bimport_kind (bi_desc im))); [by destruct (bi_desc im)|].
  apply reads_last. apply (reads_bind _ _ tt tt n n _ _ [] [_] []); [|apply reads_modify_counts].
  destruct (bi_desc im); cbn [enc_import_desc bimport_kind].
  - apply andb_true_iff in Hok as [Hu%ok_u32_in Hs]. apply reads_last.
    eapply reads_step; [by apply reads_u32_leb|]. apply reads_counts. apply reads_unless; [done|apply reads_CALLBACK].
  - apply reads_last. eapply reads_step; [by apply reads_table|apply reads_CALLBACK].
  - apply reads_last. eapply reads_step; [by apply reads_memory|apply reads_CALLBACK].
  - apply reads_last. eapply reads_step; [by apply reads_global_header|apply reads_CALLBACK].
Qed.

Fixpoint count_imports (l : list BImport) (n : Counts) : Counts :=
  match l with
  | [] => n
  | im :: l => count_imports l (count_import (bimport_kind (bi_desc im)) n)
  end.

Lemma rounds_import i l n : forallb (ok_import (num_signatures n)) l = true ->
  rounds n (read_import reader) enc_import import_callbacks i l (count_imports l n).
Proof.
  revert i n. induction l as [|im l IH]; intros i n Hok; [done|].
  apply andb_true_iff in Hok as [Him Hl]. eexists. split; [by apply reads_import|]. by apply IH.
Qed.

Lemma reads_func_item i sig n : ok_u32 sig && (sig <? num_signatures n) = true ->
  reads n (r_bind (in_u32_leb128 reader) (fun sig_index => r_bind counts (fun n =>
    r_bind (RAISE_ERROR_UNLESS reader (sig_index <? num_signatures n) "invalid function signature index: %d") (fun _ =>
    CALLBACK reader (CB_on_function_signature i sig_index)))))
    (enc_u32 sig) n [CB_on_function_signature i sig] tt.
Proof.
  intros [Hu%ok_u32_in Hs]%andb_true_iff. apply reads_last. eapply reads_step; [by apply reads_u32_leb|].
  apply reads_counts. apply reads_unless; [done|apply reads_CALLBACK].
Qed.

Lemma reads_global_item i g n : value_type (bg_type g) && ok_init (bg_init g) = true ->
  reads n (r_bind (read_global_header reader) (fun '(global_type, mutable_) =>
    r_bind (CALLBACK reader (CB_begin_global i global_type mutable_)) (fun _ =>
    r_bind (CALLBACK reader (CB_begin_global_init_expr i)) (fun _ =>
    r_bind (read_init_expr reader i) (fun _ =>
    r_bind (CALLBACK reader (CB_end_global_init_expr i)) (fun _ =>
    CALLBACK reader (CB_end_global i)))))))
    (enc_global g) n (global_callbacks i g) tt.
Proof.
  intros [Ht Hi]%andb_true_iff. eapply reads_step; [by apply reads_global_header|]. cbv beta iota.
  apply reads_callback, reads_callback. apply reads_last.
  eapply reads_bind; [by apply reads_init_expr|]. apply reads_two_callbacks.
Qed.

Lemma reads_export_item i e n : ok_u32 (be_index e) && (be_index e <? total_of_kind (be_kind e) n) = true ->
  reads n (read_export reader i) (enc_export e) n [CB_on_export i (be_kind e) (be_index e) (be_name e)] tt.
Proof.
  intros [Hu%ok_u32_in Hk]%andb_true_iff. unfold read_export, enc_export.
  eapply reads_step; [apply reads_str|]. eapply reads_step; [apply reads_u8|].
  apply (reads_raise_unless _ (be_kind e)); [by destruct (be_kind e)|]. apply reads_last.
  eapply reads_step; [by apply reads_u32_leb|]. apply reads_counts.
  apply reads_unless; [done|apply reads_CALLBACK].
Qed.

Lemma reads_elem_item i s n : ok_elem s = true ->
  reads n (read_elem_segment reader i) (enc_elem s) n (elem_callbacks i s) tt.
Proof.
  intros [[Ht%ok_u32_in Hi]%andb_true_iff Hf%forallb_Forall]%andb_true_iff.
  unfold read_elem_segment, enc_elem, elem_callbacks.
  eapply reads_step; [by apply reads_u32_leb|]. apply reads_callback, reads_callback.
  eapply reads_bind; [by apply reads_init_expr|]. apply reads_callback.
  apply (reads_vec enc_u32); [eapply Forall_impl; [exact Hf|]; intros x Hx; by apply enc_u32_ne, ok_u32_in|].
  apply reads_callback. apply reads_FOR_then with (n' := n).
  - eapply Forall_impl; [exact Hf|]. intros x Hx. by apply enc_u32_ne, ok_u32_in.
  - apply rounds_same. eapply Forall_impl; [exact Hf|]. intros x Hx j. apply reads_last.
    eapply reads_step; [by apply reads_u32_leb, ok_u32_in|apply reads_CALLBACK].
  - apply reads_CALLBACK.
Qed.

Lemma reads_data_item i s n : ok_data s = true ->
  reads n (read_data_segment reader i) (enc_data s) n (data_callbacks i s) tt.
Proof.
  intros [Hm%ok_u32_in Hi]%andb_true_iff. unfold read_data_segment, enc_data, data_callbacks.
  eapply reads_step; [by apply reads_u32_leb|]. apply reads_callback, reads_callback.
  eapply reads_bind; [by apply reads_init_expr|]. apply reads_callback.
  apply reads_last. eapply reads_step; [apply reads_counted|]. apply reads_two_callbacks.
Qed.

Lemma reads_names_item i f n :
  reads n (r_bind (in_str reader) (fun function_name =>
    r_bind (CALLBACK reader (CB_on_function_name i function_name)) (fun _ =>
    r_bind (in_u32_leb128 reader) (fun num_locals =>
    r_bind (CALLBACK reader (CB_on_local_names_count i num_locals)) (fun _ =>
    FOR num_locals (fun j => r_bind (in_str reader) (fun local_name =>
      CALLBACK reader (CB_on_local_name i j local_name))))))))
    (enc_names f) n (names_callbacks i f) tt.
Proof.
  unfold enc_names, names_callbacks. eapply reads_step; [apply reads_str|]. apply reads_callback.
  apply (reads_vec enc_bytes); [by apply Forall_ne, enc_bytes_ne|]. apply reads_callback.
  apply reads_FOR; [by apply Forall_ne, enc_bytes_ne|]. apply rounds_same, Forall_true. intros s j.
  apply reads_last. eapply reads_step; [apply reads_str|apply reads_CALLBACK].
Qed.

(** The locals of a body. *)
Definition read_locals : R unit :=
  r_bind (in_u32_leb128 reader) (fun num_local_decls =>
  r_bind (CALLBACK reader (CB_on_local_decl_count num_local_decls)) (fun _ =>
  FOR num_local_decls (fun k =>
    r_bind (in_u32_leb128 reader) (fun num_local_types =>
    r_bind (in_concrete_type reader "expected valid local type") (fun local_type =>
    CALLBACK reader (CB_on_local_decl k num_local_types local_type)))))).

Definition locals_callbacks (l : list (Z * WasmType)) : list Callback :=
  CB_on_local_decl_count (zlen l) :: indexed (fun k r => [CB_on_local_decl k (fst r) (snd r)]) 0 l.

Lemma reads_locals l n : forallb (fun r => ok_u32 (fst r) && value_type (snd r)) l = true ->
  reads n read_locals (enc_vec enc_local l) n (locals_callbacks l) tt.
Proof.
  intros Hl%forallb_Forall. assert (Forall (fun r => enc_local r <> []) l) as Hne.
  { apply Forall_ne. intros r. apply app_ne_r, enc_type_ne. }
  apply (reads_vec enc_local); [done|]. apply reads_callback. apply reads_FOR; [done|].
  apply rounds_same. eapply Forall_impl; [exact Hl|]. intros [k t] [Hk%ok_u32_in Ht]%andb_true_iff i.
  eapply reads_step; [by apply reads_u32_leb|]. apply reads_last.
  eapply reads_step; [by apply reads_concrete_type|apply reads_CALLBACK].
Qed.

(** What follows the size of a body. *)
Lemma body_after_size num_sigs num_funcs n i f data pre post o e u u' end_ :
  num_signatures n = num_sigs -> num_total_funcs n = num_funcs -> ok_code num_sigs num_funcs f = true ->
  let bs := enc_vec enc_local (bf_locals f) ++ enc_expr (bf_body f) in
  data = pre ++ bs ++ post -> o = zlen pre -> end_ = o + zlen bs -> end_ <= e -> e <= zlen data ->
  zlen data < 2 ^ 32 ->
  deliver h (locals_callbacks (bf_locals f) ++ (instrs_callbacks (bf_body f) ++
    [CB_on_opcode (opcode_code WASM_OPCODE_END)]) ++ [CB_end_function_body i]) u = Some u' ->
  r_bind read_locals (fun _ => r_bind (read_function_body reader end_) (fun _ =>
    CALLBACK reader (CB_end_function_body i))) (mkReadContext data o e last n u) =
  Done tt (mkReadContext data end_ e last n u').
Proof.
  intros Hns Hnf [Hl Hb]%andb_true_iff bs Hdata Ho Hend He Hed Hd
    (u1 & Hu1 & (u2 & Hu2 & Hu3)%deliver_app)%deliver_app.
  unfold bs in Hend. rewrite length_app in Hend. unfold r_bind.
  rewrite (reads_locals _ n Hl data pre (enc_expr (bf_body f) ++ post) o e u u1);
    [|by rewrite Hdata; unfold bs; rewrite <- app_assoc|done|lia|done..].
  rewrite (function_body_ok n num_sigs num_funcs Hns Hnf (bf_body f) data (pre ++ enc_vec enc_local (bf_locals f)) post
    (o + zlen (enc_vec enc_local (bf_locals f))) e u1 u2 end_);
    [|done|by rewrite Hdata; unfold bs; rewrite <- !app_assoc|rewrite length_app; lia|lia|done..].
  rewrite (reads_CALLBACK (CB_end_function_body i) n data (pre ++ bs) post end_ e u2 u');
    [|by rewrite Hdata, <- !app_assoc|rewrite length_app; unfold bs; rewrite length_app; lia|cbn; lia|done..].
  cbn. by rewrite Z.add_0_r.
Qed.

Lemma reads_code_item canonical num_sigs num_funcs i f n :
  num_signatures n = num_sigs -> num_total_funcs n = num_funcs -> ok_code num_sigs num_funcs f = true ->
  reads n (read_function reader i) (enc_code canonical f) n (code_callbacks i f) tt.
Proof.
  intros Hns Hnf Hok data pre post o e u u' Hdata Ho He Hed Hd Hu. unfold enc_code, enc_sized in *.
  set (bs := enc_vec enc_local (bf_locals f) ++ enc_expr (bf_body f)) in *. rewrite length_app in He.
  assert (zlen pre + zlen (enc_size canonical (zlen bs)) + zlen bs <= zlen data) as Hlen
    by (rewrite Hdata, !length_app; lia).
  assert (code_callbacks i f = CB_begin_function_body i :: locals_callbacks (bf_locals f) ++
    (instrs_callbacks (bf_body f) ++ [CB_on_opcode (opcode_code WASM_OPCODE_END)]) ++ [CB_end_function_body i]) as Ecb.
  { unfold code_callbacks, locals_callbacks. cbn [app]. do 2 f_equal. by rewrite <- app_assoc. }
  rewrite Ecb in Hu. apply (deliver_app h [_]) in Hu as (u1 & Hu1 & Hu2).
  unfold read_function. unfold r_bind at 1, get at 1. unfold r_bind at 1, set_offset. cbn [rd_offset rd_data read_end
    last_known_section_code rd_counts user_data]. rewrite (wrap_id 32 o) by ulia.
  unfold r_bind at 1. rewrite (reads_CALLBACK (CB_begin_function_body i) n data pre (drop (length pre) data) o e u u1);
    [|by rewrite Hdata, drop_app_length|done|cbn; lia|done..].
  cbn [length]. rewrite Z.add_0_r. unfold r_bind at 1.
  rewrite (reads_size canonical (zlen bs) n ltac:(ulia) data pre (bs ++ post) o e u1 u1);
    [|by rewrite Hdata, <- app_assoc|done|lia|done..].
  unfold r_bind at 1, get. cbn [rd_offset].
  rewrite (wrap_id 32 (o + _)) by ulia. rewrite wrap_id by ulia.
  pose proof (body_after_size num_sigs num_funcs n i f data (pre ++ enc_size canonical (zlen bs)) post
    (o + zlen (enc_size canonical (zlen bs))) e u1 u' (o + zlen (enc_size canonical (zlen bs)) + zlen bs) Hns Hnf Hok)
    as Hbody. cbv zeta in Hbody. fold bs in Hbody.
  rewrite length_app, Nat2Z.inj_add, Z.add_assoc. rewrite <- Hbody; clear Hbody;
    [|by rewrite Hdata, <- !app_assoc|rewrite length_app; lia|done|lia|done..].
  set (c := mkReadContext _ _ _ _ _ _). unfold read_locals, r_bind.
  destruct (in_u32_leb128 reader c) as [num c1| |]; [|done..].
  destruct (CALLBACK reader (CB_on_local_decl_count num) c1) as [[] c2| |]; done.
Qed.

(** ** Sections

    Each reads its items between its brackets, and leaves its counts. *)

Definition section_evs (s : WasmBinarySection) (size : Z) (cbs : list Callback) : list Callback :=
  fst (section_brackets s size) ++ cbs ++ snd (section_brackets s size).

Lemma Forall_rounds {A} (P : A -> bool) n (body : Z -> R unit) (enc : A -> bytes) evs l :
  forallb P l = true -> (forall i x, P x = true -> reads n (body i) (enc x) n (evs i x) tt) ->
  rounds n body enc evs 0 l n.
Proof.
  intros Hl%forallb_Forall Hb. apply rounds_same. eapply Forall_impl; [exact Hl|]. auto.
Qed.

(** The loop of a section and its end. *)
Lemma reads_items {A} (P : A -> bool) n (body : Z -> R unit) (enc : A -> bytes) evs l cb :
  forallb P l = true -> (forall x, P x = true -> enc x <> []) ->
  (forall i x, P x = true -> reads n (body i) (enc x) n (evs i x) tt) ->
  reads n (r_bind (FOR (zlen l) body) (fun _ => CALLBACK reader cb)) (concat (map enc l)) n
    (indexed evs 0 l ++ [cb]) tt.
Proof.
  intros Hl Hne Hb. eapply reads_FOR_then; [|by eapply Forall_rounds|apply reads_CALLBACK].
  apply forallb_Forall in Hl. eapply Forall_impl; [exact Hl|auto].
Qed.

Lemma Forall_P_ne {A} (P : A -> bool) (enc : A -> bytes) l :
  forallb P l = true -> (forall x, P x = true -> enc x <> []) -> Forall (fun x => enc x <> []) l.
Proof. intros Hl%forallb_Forall Hne. eapply Forall_impl; [exact Hl|auto]. Qed.

Lemma func_type_ne x : enc_func_type x <> [].
Proof. done. Qed.
Lemma enc_import_ne x : enc_import x <> [].
Proof. apply app_ne_l, enc_bytes_ne. Qed.
Lemma enc_global_ne x : enc_global x <> [].
Proof. apply app_ne_r, enc_expr_ne. Qed.
Lemma enc_export_ne x : enc_export x <> [].
Proof. apply app_ne_l, enc_bytes_ne. Qed.
Lemma enc_elem_ne x : enc_elem x <> [].
Proof. apply app_ne_r, app_ne_l, enc_expr_ne. Qed.
Lemma enc_code_ne canonical x : enc_code canonical x <> [].
Proof. apply app_ne_r, app_ne_r, enc_expr_ne. Qed.
Lemma enc_data_ne x : enc_data x <> [].
Proof. apply app_ne_r, app_ne_l, enc_expr_ne. Qed.
Lemma enc_names_ne x : enc_names x <> [].
Proof. apply app_ne_l, enc_bytes_ne. Qed.

Lemma empty_or {A} (l : list A) b : bool_decide (l = []) || b = true -> (zlen l =? 0) || b = true.
Proof.
  destruct l; [done|]. rewrite bool_decide_false by done. cbn [orb]. intros ->. apply orb_true_r.
Qed.

Section section_bodies.
Context (size : Z).

Lemma reads_type_section l n : forallb ok_func_type l = true ->
  reads n (read_type_section reader size) (enc_vec enc_func_type l)
    (mkCounts (zlen l) (num_imports n) (rd_func_imports n) (rd_table_imports n) (rd_memory_imports n)
       (rd_global_imports n) (num_function_signatures n) (num_tables n) (num_memories n) (num_globals n)
       (num_exports n) (num_function_bodies n))
    (section_evs WASM_BINARY_SECTION_TYPE size
       (CB_on_signature_count (zlen l) :: indexed type_callbacks 0 l)) tt.
Proof.
  intros Hl. apply reads_callback. apply (reads_vec enc_func_type); [by apply Forall_ne, func_type_ne|].
  apply reads_modify, reads_callback. apply (reads_items ok_func_type); [done|done|].
  intros. by apply reads_type_item.
Qed.

Lemma reads_import_section l n : forallb (ok_import (num_signatures n)) l = true ->
  reads n (read_import_section reader size) (enc_vec enc_import l)
    (count_imports l (mkCounts (num_signatures n) (zlen l) (rd_func_imports n) (rd_table_imports n)
       (rd_memory_imports n) (rd_global_imports n) (num_function_signatures n) (num_tables n) (num_memories n)
       (num_globals n) (num_exports n) (num_function_bodies n)))
    (section_evs WASM_BINARY_SECTION_IMPORT size
       (CB_on_import_count (zlen l) :: indexed import_callbacks 0 l)) tt.
Proof.
  intros Hl. apply reads_callback. apply (reads_vec enc_import); [by apply Forall_ne, enc_import_ne|].
  apply reads_modify, reads_callback.
  eapply reads_FOR_then; [by apply Forall_ne, enc_import_ne|by apply rounds_import|apply reads_CALLBACK].
Qed.

Lemma reads_function_section l n : forallb (fun i => ok_u32 i && (i <? num_signatures n)) l = true ->
  reads n (read_function_section reader size) (enc_vec enc_u32 l)
    (mkCounts (num_signatures n) (num_imports n) (rd_func_imports n) (rd_table_imports n) (rd_memory_imports n)
       (rd_global_imports n) (zlen l) (num_tables n) (num_memories n) (num_globals n)
       (num_exports n) (num_function_bodies n))
    (section_evs WASM_BINARY_SECTION_FUNCTION size (CB_on_function_signatures_count (zlen l) ::
       indexed (fun i sig => [CB_on_function_signature i sig]) 0 l)) tt.
Proof.
  intros Hl. assert (forall x, ok_u32 x && (x <? num_signatures n) = true -> enc_u32 x <> []) as Hne.
  { intros x [Hx%ok_u32_in _]%andb_true_iff. by apply enc_u32_ne. }
  apply reads_callback. apply (reads_vec enc_u32); [by eapply Forall_P_ne|].
  apply reads_modify, reads_callback. eapply reads_items; [exact Hl|exact Hne|].
  intros. by apply reads_func_item.
Qed.

Lemma reads_table_section l n : forallb ok_limits l = true -> (length l <=? 1)%nat = true ->
  reads n (read_table_section reader size) (enc_vec enc_table l)
    (mkCounts (num_signatures n) (num_imports n) (rd_func_imports n) (rd_table_imports n) (rd_memory_imports n)
       (rd_global_imports n) (num_function_signatures n) (zlen l) (num_memories n) (num_globals n)
       (num_exports n) (num_function_bodies n))
    (section_evs WASM_BINARY_SECTION_TABLE size (CB_on_table_count (zlen l) ::
       indexed (fun i l => [CB_on_table i WASM_TYPE_ANYFUNC (read_limits l)]) 0 l)) tt.
Proof.
  intros Hl Hone%Nat.leb_le. apply reads_callback. apply (reads_vec enc_table); [by apply Forall_ne|].
  apply reads_modify. apply reads_unless; [apply Z.leb_le; lia|]. apply reads_callback.
  apply (reads_items ok_limits); [done|done|]. intros i x Hx. apply reads_last.
  eapply reads_step; [by apply reads_table|apply reads_CALLBACK].
Qed.

Lemma reads_memory_section l n : forallb ok_memory l = true -> (length l <=? 1)%nat = true ->
  reads n (read_memory_section reader size) (enc_vec enc_limits l)
    (mkCounts (num_signatures n) (num_imports n) (rd_func_imports n) (rd_table_imports n) (rd_memory_imports n)
       (rd_global_imports n) (num_function_signatures n) (num_tables n) (zlen l) (num_globals n)
       (num_exports n) (num_function_bodies n))
    (section_evs WASM_BINARY_SECTION_MEMORY size (CB_on_memory_count (zlen l) ::
       indexed (fun i l => [CB_on_memory i (read_limits l)]) 0 l)) tt.
Proof.
  intros Hl Hone%Nat.leb_le. apply reads_callback.
  apply (reads_vec enc_limits); [by apply Forall_ne, enc_limits_ne|].
  apply reads_modify. apply reads_unless; [apply Z.leb_le; lia|]. apply reads_callback.
  apply (reads_items ok_memory); [done|intros; apply enc_limits_ne|]. intros i x Hx. apply reads_last.
  eapply reads_step; [by apply reads_memory|apply reads_CALLBACK].
Qed.

Lemma reads_global_section l n : forallb (fun g => value_type (bg_type g) && ok_init (bg_init g)) l = true ->
  reads n (read_global_section reader size) (enc_vec enc_global l)
    (mkCounts (num_signatures n) (num_imports n) (rd_func_imports n) (rd_table_imports n) (rd_memory_imports n)
       (rd_global_imports n) (num_function_signatures n) (num_tables n) (num_memories n) (zlen l)
       (num_exports n) (num_function_bodies n))
    (section_evs WASM_BINARY_SECTION_GLOBAL size
       (CB_on_global_count (zlen l) :: indexed global_callbacks 0 l)) tt.
Proof.
  intros Hl. apply reads_callback. apply (reads_vec enc_global); [by apply Forall_ne, enc_global_ne|].
  apply reads_modify, reads_callback. eapply reads_items; [exact Hl|intros; apply enc_global_ne|].
  intros. by apply reads_global_item.
Qed.

Lemma reads_export_section l n :
  forallb (fun e => ok_u32 (be_index e) && (be_index e <? total_of_kind (be_kind e) n)) l = true ->
  reads n (read_export_section reader size) (enc_vec enc_export l)
    (mkCounts (num_signatures n) (num_imports n) (rd_func_imports n) (rd_table_imports n) (rd_memory_imports n)
       (rd_global_imports n) (num_function_signatures n) (num_tables n) (num_memories n) (num_globals n)
       (zlen l) (num_function_bodies n))
    (section_evs WASM_BINARY_SECTION_EXPORT size (CB_on_export_count (zlen l) ::
       indexed (fun i e => [CB_on_export i (be_kind e) (be_index e) (be_name e)]) 0 l)) tt.
Proof.
  intros Hl. apply reads_callback. apply (reads_vec enc_export); [by apply Forall_ne, enc_export_ne|].
  apply reads_modify, reads_callback. eapply reads_items; [exact Hl|intros; apply enc_export_ne|].
  intros i e He. cbn beta in He. apply reads_export_item. by destruct (be_kind e).
Qed.

Lemma reads_start_section f n : ok_u32 f && (f <? num_total_funcs n) = true ->
  reads n (read_start_section reader size) (enc_u32 f) n
    (section_evs WASM_BINARY_SECTION_START size [CB_on_start_function f]) tt.
Proof.
  intros [Hu%ok_u32_in Hf]%andb_true_iff. apply reads_callback. apply reads_last.
  eapply reads_step; [by apply reads_u32_leb|]. apply reads_counts. apply reads_unless; [done|].
  apply reads_two_callbacks.
Qed.

Lemma reads_elem_section l n : forallb ok_elem l = true ->
  bool_decide (l = []) || (0 <? num_total_tables n) = true ->
  reads n (read_elem_section reader size) (enc_vec enc_elem l) n
    (section_evs WASM_BINARY_SECTION_ELEM size
       (CB_on_elem_segment_count (zlen l) :: indexed elem_callbacks 0 l)) tt.
Proof.
  intros Hl Ht. apply reads_callback. apply (reads_vec enc_elem); [by apply Forall_ne, enc_elem_ne|].
  apply reads_callback, reads_counts. apply reads_unless; [by apply empty_or|].
  apply (reads_items ok_elem); [done|intros; apply enc_elem_ne|]. intros. by apply reads_elem_item.
Qed.

Lemma reads_code_section canonical l n : forallb (ok_code (num_signatures n) (num_total_funcs n)) l = true ->
  num_function_signatures n = zlen l ->
  reads n (read_code_section reader size) (enc_vec (enc_code canonical) l)
    (mkCounts (num_signatures n) (num_imports n) (rd_func_imports n) (rd_table_imports n) (rd_memory_imports n)
       (rd_global_imports n) (num_function_signatures n) (num_tables n) (num_memories n) (num_globals n)
       (num_exports n) (zlen l))
    (section_evs WASM_BINARY_SECTION_CODE size
       (CB_on_function_bodies_count (zlen l) :: indexed code_callbacks 0 l)) tt.
Proof.
  intros Hl Hn. apply reads_callback. apply (reads_vec (enc_code canonical)); [by apply Forall_ne, enc_code_ne|].
  apply reads_modify, reads_counts. apply reads_unless; [by apply Z.eqb_eq|]. apply reads_callback.
  eapply reads_items; [exact Hl|intros; apply enc_code_ne|]. intros i f Hf.
  by eapply reads_code_item; [| |exact Hf].
Qed.

Lemma reads_data_section l n : forallb ok_data l = true ->
  bool_decide (l = []) || (0 <? num_total_memories n) = true ->
  reads n (read_data_section reader size) (enc_vec enc_data l) n
    (section_evs WASM_BINARY_SECTION_DATA size
       (CB_on_data_segment_count (zlen l) :: indexed data_callbacks 0 l)) tt.
Proof.
  intros Hl Ht. apply reads_callback. apply (reads_vec enc_data); [by apply Forall_ne, enc_data_ne|].
  apply reads_callback, reads_counts. apply reads_unless; [by apply empty_or|].
  apply (reads_items ok_data); [done|intros; apply enc_data_ne|]. intros. by apply reads_data_item.
Qed.

Lemma reads_names_body names n : zlen names <= num_total_funcs n ->
  reads n (r_bind (r_bind (CALLBACK reader (CB_begin_names_section size)) (fun _ =>
      r_bind (in_u32_leb128 reader) (fun num_functions =>
      r_bind counts (fun n =>
      r_bind (RAISE_ERROR_UNLESS reader (num_functions <=? num_total_funcs n)
                "function name count > function signature count") (fun _ =>
      r_bind (CALLBACK reader (CB_on_function_names_count num_functions)) (fun _ =>
      r_bind (FOR num_functions (fun i =>
        r_bind (in_str reader) (fun function_name =>
        r_bind (CALLBACK reader (CB_on_function_name i function_name)) (fun _ =>
        r_bind (in_u32_leb128 reader) (fun num_locals =>
        r_bind (CALLBACK reader (CB_on_local_names_count i num_locals)) (fun _ =>
        FOR num_locals (fun j => r_bind (in_str reader) (fun local_name =>
          CALLBACK reader (CB_on_local_name i j local_name))))))))) (fun _ =>
      CALLBACK reader CB_end_names_section))))))) (fun _ => CALLBACK reader CB_end_custom_section))
    (enc_vec enc_names names) n
    (CB_begin_names_section size :: CB_on_function_names_count (zlen names) ::
       indexed names_callbacks 0 names ++ [CB_end_names_section; CB_end_custom_section]) tt.
Proof.
  intros Hn. apply reads_last.
  replace (CB_begin_names_section size :: _) with ((CB_begin_names_section size ::
    CB_on_function_names_count (zlen names) :: indexed names_callbacks 0 names ++ [CB_end_names_section]) ++
    [CB_end_custom_section]) by (cbn [app]; by rewrite <- app_assoc).
  eapply reads_bind; [|apply reads_CALLBACK]. apply reads_callback.
  apply (reads_vec enc_names); [by apply Forall_ne, enc_names_ne|]. apply reads_counts.
  apply reads_unless; [by apply Z.leb_le|]. apply reads_callback.
  apply (reads_items (fun _ => true)); [by apply List.forallb_forall|intros; apply enc_names_ne|].
  intros. apply reads_names_item.
Qed.

(** The names, where they are not ignored. *)
Lemma reads_name_section names n : section_code WASM_BINARY_SECTION_IMPORT <= last ->
  zlen names <= num_total_funcs n ->
  reads n (read_custom_section reader true size) (enc_bytes name_bytes ++ enc_vec enc_names names) n
    (section_evs WASM_BINARY_SECTION_CUSTOM size
       (CB_on_function_names_count (zlen names) :: indexed names_callbacks 0 names)) tt.
Proof.
  intros Hlast Hn. unfold read_custom_section, section_evs. eapply reads_step; [apply reads_str|].
  apply reads_callback. cbn [app fst snd section_brackets].
  intros data pre post o e u u' Hdata Ho He Hed Hd Hu. unfold r_bind at 1, get at 1.
  cbn [last_known_section_code]. rewrite (proj2 (Z.leb_le _ _)) by done.
  change (strncmp_is_0 name_bytes (slice_bytes (Some WASM_BINARY_SECTION_NAME))) with true. cbn [andb].
  apply (reads_names_body names n Hn data pre post o e u u' Hdata Ho He Hed Hd Hu).
Qed.
End section_bodies.
End rules.

(** ** The loop over the sections *)

Section sections.
Context (canonical debug : bool).

(** [secs last last' n n' l]: the loop goes through the sections [l]. *)
Definition secs (last last' : Z) (n n' : Counts) (l : list BSection) : Prop :=
  forall fuel data pre post o e u u', let bs := concat (map (enc_section canonical) l) in
  data = pre ++ bs ++ post -> o = zlen pre -> zlen data < 2 ^ 32 -> (length bs <= fuel)%nat ->
  deliver h (concat (map section_callbacks l)) u = Some u' ->
  exists fuel' e', (fuel - length bs <= fuel')%nat /\
    sections_loop reader debug fuel (mkReadContext data o e last n u) =
    sections_loop reader debug fuel' (mkReadContext data (o + zlen bs) e' last' n' u').

Lemma secs_nil last n : secs last last n n [].
Proof.
  intros fuel data pre post o e u u' bs Hdata Ho Hd Hf [= <-]. exists fuel, e. split; [lia|].
  unfold bs. cbn. by rewrite Z.add_0_r.
Qed.

Lemma secs_app last1 last2 last3 n1 n2 n3 l1 l2 :
  secs last1 last2 n1 n2 l1 -> secs last2 last3 n2 n3 l2 -> secs last1 last3 n1 n3 (l1 ++ l2).
Proof.
  intros H1 H2 fuel data pre post o e u u'' bs. subst bs. rewrite !map_app, !concat_app. cbv zeta.
  set (b1 := concat (map (enc_section canonical) l1)). set (b2 := concat (map (enc_section canonical) l2)).
  intros Hdata Ho Hd Hf (u' & Hu1 & Hu2)%deliver_app. rewrite length_app in Hf |- *.
  destruct (H1 fuel data pre (b2 ++ post) o e u u') as (f1 & e1 & Hf1 & ->);
    [by rewrite Hdata, <- app_assoc|done|done|fold b1; lia|done|]. fold b1 in Hf1 |- *.
  destruct (H2 f1 data (pre ++ b1) post (o + zlen b1) e1 u' u'') as (f2 & e2 & Hf2 & ->);
    [by rewrite Hdata, <- !app_assoc|rewrite length_app; lia|done|fold b2; lia|done|]. fold b2 in Hf2 |- *.
  exists f2, e2. split; [lia|]. by replace (o + Z.of_nat (length b1 + length b2)) with (o + zlen b1 + zlen b2) by lia.
Qed.

Definition next_last (last : Z) (s : WasmBinarySection) : Z :=
  if section_code s =? section_code WASM_BINARY_SECTION_CUSTOM then last else section_code s.

Lemma section_of_code_code s : section_of_code (section_code s) = Some s.
Proof. by destruct s. Qed.

(** After the header of a section. *)
Lemma section_rest last n n' s size body cbs data pre post o e u u' : size = zlen body ->
  reads last n (read_section reader debug s size) body n' (section_evs s size cbs) tt ->
  data = pre ++ body ++ post -> o = zlen pre -> e = o + size -> e <= zlen data -> zlen data < 2 ^ 32 ->
  deliver h (CB_begin_section (section_code s) size :: section_evs s size cbs) u = Some u' ->
  r_bind (CALLBACK reader (CB_begin_section (section_code s) size)) (fun _ =>
  r_bind (raise_unless reader (section_of_code (section_code s)) "invalid section code: %u; max is %u") (fun section =>
  r_bind (read_section reader debug section size) (fun _ =>
  r_bind get (fun c =>
  r_bind (RAISE_ERROR_UNLESS reader (rd_offset c =? read_end c) "unfinished section (expected end: 0x%)") (fun _ =>
  if negb (section_code s =? section_code WASM_BINARY_SECTION_CUSTOM)
  then set_last_known_section_code (section_code s) else r_ret tt)))))
    (mkReadContext data o e last n u) =
  Done tt (mkReadContext data e e (next_last last s) n' u').
Proof.
  intros Hsize Hbody Hdata Ho He Hed Hd Hu.
  apply (deliver_app h [_]) in Hu as (u1 & Hu1 & Hu2). unfold r_bind at 1.
  rewrite (reads_CALLBACK last (CB_begin_section (section_code s) size) n data pre (body ++ post) o e u u1);
    [|done|done|cbn; lia|done..].
  cbn [length]. rewrite Z.add_0_r, section_of_code_code. unfold r_bind at 1, raise_unless, r_ret at 1.
  unfold r_bind at 1. rewrite (Hbody data pre post o e u1 u') by (done || lia).
  unfold r_bind, get, RAISE_ERROR_UNLESS. cbn [rd_offset read_end].
  rewrite (proj2 (Z.eqb_eq _ _)) by lia. unfold r_ret at 1. unfold next_last. rewrite <- Hsize, <- He.
  by destruct (section_code s =? _).
Qed.

Lemma secs_one last n n' s body cbs :
  last = WASM_NUM_BINARY_SECTIONS \/ section_code s = 0 \/ last < section_code s ->
  reads last n (read_section reader debug s (zlen body)) body n' (section_evs s (zlen body) cbs) tt ->
  secs last (next_last last s) n n' [mkBSection s body cbs].
Proof.
  intros Horder Hbody fuel data pre post o e u u' bs. subst bs. cbn [map concat]. rewrite !app_nil_r.
  change (enc_section canonical (mkBSection s body cbs))
    with ([section_code s] ++ enc_size canonical (zlen body) ++ body).
  set (sz := enc_size canonical (zlen body)). intros Hdata Ho Hd Hf Hu.
  assert (zlen data = zlen pre + 1 + zlen sz + zlen body + zlen post) as Hlen.
  { rewrite Hdata, !length_app. cbn [length]. lia. }
  rewrite !length_app in Hf |- *. cbn [length] in Hf |- *.
  destruct fuel as [|fuel]; [lia|]. cbn [sections_loop]. unfold r_bind at 1, get at 1.
  unfold data_size. cbn [rd_offset rd_data]. rewrite (proj2 (Z.ltb_lt _ _)) by lia.
  exists fuel, (o + 1 + zlen sz + zlen body). split; [lia|]. unfold r_bind at 1.
  assert (read_one_section reader debug (mkReadContext data o e last n u) =
    Done tt (mkReadContext data (o + 1 + zlen sz + zlen body) (o + 1 + zlen sz + zlen body) (next_last last s) n' u')) as ->;
    [|by replace (o + Z.of_nat (1 + (length sz + length body))) with (o + 1 + zlen sz + zlen body) by lia].
  unfold read_one_section. unfold r_bind at 1, get at 1. unfold r_bind at 1, set_read_end at 1, data_size.
  cbn [rd_data rd_offset last_known_section_code rd_counts user_data].
  assert (0 <= section_code s < 128) as Hcode by by destruct s.
  unfold r_bind at 1.
  rewrite (reads_u32_byte last (section_code s) n Hcode data pre (sz ++ body ++ post) o (zlen data) u u);
    [|by rewrite Hdata, <- !app_assoc|done|cbn [length]; lia|lia|done..].
  unfold r_bind at 1.
  rewrite (reads_size last canonical (zlen body) n ltac:(ulia) data (pre ++ [section_code s]) (body ++ post)
    (o + zlen [section_code s]) (zlen data) u u);
    [|by rewrite Hdata, <- !app_assoc|rewrite length_app; cbn [length]; lia|fold sz; cbn [length]; lia|lia|done..].
  fold sz. cbn [length]. change (Z.of_nat 1) with 1.
  unfold r_bind at 1, get at 1. unfold r_bind at 1, set_read_end, data_size.
  cbn [rd_data rd_offset last_known_section_code rd_counts user_data].
  unfold r_bind at 1, RAISE_ERROR_UNLESS at 1. rewrite (proj2 (Z.leb_le _ _)) by lia. unfold r_ret at 1.
  unfold r_bind at 1, RAISE_ERROR_UNLESS at 1.
  replace (negb (_ && _)) with true.
  2: { symmetry. apply negb_true_iff. destruct Horder as [->|[->|Hlt]]; [done|by rewrite andb_false_r|].
       by rewrite (proj2 (Z.leb_gt _ _)), andb_false_r by lia. }
  unfold r_ret at 1.
  apply (section_rest last n n' s (zlen body) body cbs data (pre ++ [section_code s] ++ sz) post);
    [done|done|by rewrite Hdata, <- !app_assoc|rewrite !length_app; cbn [length]; lia|lia|lia|done|].
  exact Hu.
Qed.

(** The last section read comes before section [k]. *)
Definition before (k last : Z) : Prop := last = WASM_NUM_BINARY_SECTIONS \/ last < k.

(** What reading a section, or nothing, does to the last section. *)
Definition advances (here : bool) (k last last' : Z) : Prop :=
  before (k + 1) last' /\ (2 <= k -> 2 <= last -> 2 <= last') /\ last' = if here then k else last.

Definition nonempty {A} (l : list A) : bool := match l with [] => false | _ => true end.

(** The section of a list of items, if there are any. *)
Lemma secs_vec {A} last n n' s (enc : A -> bytes) count cbs (l : list A) :
  before (section_code s) last -> 0 < section_code s ->
  (l = [] -> n' = n) ->
  (forall size, reads last n (read_section reader debug s size) (enc_vec enc l) n'
     (section_evs s size (count (zlen l) :: indexed cbs 0 l)) tt) ->
  exists last', secs last last' n n' (vec_section s enc count cbs l) /\
    advances (nonempty l) (section_code s) last last'.
Proof.
  intros Hb Hs Hnil Hbody. destruct l as [|x l].
  - rewrite Hnil by done. exists last. split; [apply secs_nil|]. split_and!; [|done..].
    destruct Hb; [by left|right; lia].
  - exists (section_code s). split; [|split_and!; [right; lia|done..]].
    assert (section_code s = next_last last s) as ->.
    { unfold next_last. by rewrite (proj2 (Z.eqb_neq _ _)) by (cbn; lia). }
    apply secs_one; [unfold before in Hb; tauto|apply Hbody].
Qed.
End sections.

(** ** The module *)

Lemma num_kind_cons kind im l : num_kind_imports kind (im :: l) =
  (if decide (bimport_kind (bi_desc im) = kind) then 1 else 0) + num_kind_imports kind l.
Proof. unfold num_kind_imports. rewrite filter_cons. destruct (decide _); cbn [length]; lia. Qed.

Lemma num_kind_le kind l : 0 <= num_kind_imports kind l <= zlen l.
Proof. unfold num_kind_imports. pose proof (length_filter (fun i => bimport_kind (bi_desc i) = kind) l). lia. Qed.

Lemma count_imports_ok l T I a b c d : 0 <= a -> 0 <= b -> 0 <= c -> 0 <= d ->
  a + b + c + d + zlen l < 2 ^ 32 ->
  count_imports l (mkCounts T I a b c d 0 0 0 0 0 0) =
  mkCounts T I (a + num_kind_imports WASM_EXTERNAL_KIND_FUNC l) (b + num_kind_imports WASM_EXTERNAL_KIND_TABLE l)
    (c + num_kind_imports WASM_EXTERNAL_KIND_MEMORY l) (d + num_kind_imports WASM_EXTERNAL_KIND_GLOBAL l) 0 0 0 0 0 0.
Proof.
  revert a b c d. induction l as [|im l IH]; intros a b c d Ha Hb Hc Hd Hlim.
  - cbn [count_imports]. unfold num_kind_imports. cbn. by rewrite !Z.add_0_r.
  - cbn [length] in Hlim.
    cbn [count_imports]. unfold count_import.
    cbn [num_signatures num_imports rd_func_imports rd_table_imports rd_memory_imports rd_global_imports
      num_function_signatures num_tables num_memories num_globals num_exports num_function_bodies].
    rewrite !num_kind_cons.
    destruct (bimport_kind (bi_desc im));
      repeat first [rewrite decide_True by done | rewrite decide_False by done];
      rewrite !wrap_id by (unfold in_u; lia); rewrite IH by lia; f_equal; lia.
Qed.

Lemma forallb_eq {A} (f g : A -> bool) l : (forall x, f x = g x) -> forallb f l = forallb g l.
Proof. intros E. induction l as [|x l IH]; [done|]. cbn [forallb]. by rewrite E, IH. Qed.

(** Every item takes a byte. *)
Lemma length_vec_section canonical {A} s (enc : A -> bytes) count cbs (l : list A) :
  Forall (fun x => enc x <> []) l ->
  (length l <= length (concat (map (enc_section canonical) (vec_section s enc count cbs l))))%nat.
Proof.
  intros Hne. destruct l as [|x l]; [cbn; lia|]. cbn [vec_section map concat].
  pose proof (length_concat_nonempty enc (x :: l) Hne) as Hl. rewrite length_app.
  change (enc_section canonical (mkBSection ?a ?b ?c)) with ([section_code a] ++ enc_size canonical (zlen b) ++ b).
  rewrite !length_app. unfold enc_vec. rewrite length_app. lia.
Qed.

Lemma encode_counts canonical m : well_formed m = true ->
  zlen (bm_imports m) + zlen (bm_funcs m) + zlen (bm_tables m) + zlen (bm_memories m) + zlen (bm_globals m)
  <= zlen (encode canonical m).
Proof.
  unfold well_formed. rewrite !andb_true_iff. intros Hwf.
  assert (forallb (fun i => ok_u32 i && (i <? zlen (bm_types m))) (bm_funcs m) = true) as Hf by tauto. clear Hwf.
  unfold encode, sections, known_sections. rewrite !map_app, !concat_app, !length_app.
  pose proof (length_vec_section canonical WASM_BINARY_SECTION_IMPORT enc_import CB_on_import_count import_callbacks
    (bm_imports m) (Forall_ne _ _ enc_import_ne)).
  pose proof (length_vec_section canonical WASM_BINARY_SECTION_TABLE enc_table CB_on_table_count
    (fun i l => [CB_on_table i WASM_TYPE_ANYFUNC (read_limits l)]) (bm_tables m) (Forall_ne enc_table _ ltac:(done))).
  pose proof (length_vec_section canonical WASM_BINARY_SECTION_MEMORY enc_limits CB_on_memory_count
    (fun i l => [CB_on_memory i (read_limits l)]) (bm_memories m) (Forall_ne _ _ enc_limits_ne)).
  pose proof (length_vec_section canonical WASM_BINARY_SECTION_GLOBAL enc_global CB_on_global_count global_callbacks
    (bm_globals m) (Forall_ne _ _ enc_global_ne)).
  pose proof (length_vec_section canonical WASM_BINARY_SECTION_FUNCTION enc_u32 CB_on_function_signatures_count
    (fun i sig => [CB_on_function_signature i sig]) (bm_funcs m)) as Hfl.
  assert (length (bm_funcs m) <= _)%nat by (apply Hfl; eapply Forall_P_ne; [exact Hf|];
    intros x [Hx%ok_u32_in _]%andb_true_iff; by apply enc_u32_ne). clear Hfl. lia.
Qed.

Section module.
Context (canonical debug : bool) (m : BModule).
Hypothesis Hwf : well_formed m = true.
Hypothesis Hsize : zlen (encode canonical m) < 2 ^ 32.

Abbreviation T := (zlen (bm_types m)).
Abbreviation imps k := (num_kind_imports k (bm_imports m)).

(** The counts once the sections up to some point have been read. *)
Definition stage (types imports funcs tables memories globals exports codes : Z) : Counts :=
  mkCounts types imports (imps WASM_EXTERNAL_KIND_FUNC) (imps WASM_EXTERNAL_KIND_TABLE)
    (imps WASM_EXTERNAL_KIND_MEMORY) (imps WASM_EXTERNAL_KIND_GLOBAL) funcs tables memories globals exports codes.

Lemma wf_counts k : 0 <= num_of_kind k m < 2 ^ 32.
Proof.
  pose proof (encode_counts canonical m Hwf). pose proof (num_kind_le k (bm_imports m)).
  unfold num_of_kind. destruct k; lia.
Qed.

Lemma stage_totals k exports codes : total_of_kind k (stage T (zlen (bm_imports m)) (zlen (bm_funcs m))
    (zlen (bm_tables m)) (zlen (bm_memories m)) (zlen (bm_globals m)) exports codes) = num_of_kind k m.
Proof. destruct k; apply wrap_id; apply wf_counts. Qed.

Lemma stage_imports : count_imports (bm_imports m) (mkCounts T (zlen (bm_imports m)) 0 0 0 0 0 0 0 0 0 0) =
  stage T (zlen (bm_imports m)) 0 0 0 0 0 0.
Proof.
  pose proof (encode_counts canonical m Hwf). rewrite count_imports_ok by lia. unfold stage. f_equal; lia.
Qed.

(** A start section, if there is one. *)
Lemma secs_start last n : before 8 last ->
  match bm_start m with None => true | Some f => ok_u32 f && (f <? num_total_funcs n) end = true ->
  exists last', secs canonical debug last last' n n
    match bm_start m with
    | None => []
    | Some f => [mkBSection WASM_BINARY_SECTION_START (enc_u32 f) [CB_on_start_function f]]
    end /\ advances (is_some (bm_start m)) 8 last last'.
Proof.
  intros Hb Hf. destruct (bm_start m) as [f|].
  - exists 8. split; [|split_and!; [right; lia|done..]].
    apply (secs_one canonical debug last n n WASM_BINARY_SECTION_START); [unfold before in Hb; cbn; tauto|].
    by apply reads_start_section.
  - exists last. split; [apply secs_nil|]. split_and!; [|done..]. destruct Hb; [by left|right; lia].
Qed.

(** All sections up to the data section. *)
Lemma secs_known : exists last,
  secs canonical debug WASM_NUM_BINARY_SECTIONS last zero_counts
    (stage T (zlen (bm_imports m)) (zlen (bm_funcs m)) (zlen (bm_tables m)) (zlen (bm_memories m))
       (zlen (bm_globals m)) (zlen (bm_exports m)) (zlen (bm_codes m)))
    (known_sections canonical m) /\
  (bool_decide (bm_types m = []) || negb (bool_decide (bm_imports m = [])) ||
       negb (bool_decide (bm_funcs m = [])) = true -> 2 <= last).
Proof.
  pose proof Hwf as Hw. unfold well_formed in Hw. rewrite !andb_true_iff in Hw.
  destruct Hw as ((((((((((((((((Htypes & Himports) & Hfuncs) & Htables) & Htables1) & Hmems) & Hmems1) & Hglobals) &
    Hexports) & Hstart) & Helems) & Helems1) & Hcodes) & Hcodes1) & Hdatas) & Hdatas1) & _).
  destruct (secs_vec canonical debug WASM_NUM_BINARY_SECTIONS zero_counts (mkCounts T 0 0 0 0 0 0 0 0 0 0 0)
    WASM_BINARY_SECTION_TYPE enc_func_type CB_on_signature_count type_callbacks (bm_types m)) as (l1 & S1 & B1 & M1 & E1);
    [by left|done|by intros ->|intros size; by apply (reads_type_section _ size)|].
  destruct (secs_vec canonical debug l1 (mkCounts T 0 0 0 0 0 0 0 0 0 0 0) (stage T (zlen (bm_imports m)) 0 0 0 0 0 0)
    WASM_BINARY_SECTION_IMPORT enc_import CB_on_import_count import_callbacks (bm_imports m)) as (l2 & S2 & B2 & M2 & E2);
    [done|done|by intros Enil; unfold stage; rewrite Enil| |].
  { intros size. rewrite <- stage_imports.
    by apply (reads_import_section _ size (bm_imports m) (mkCounts T 0 0 0 0 0 0 0 0 0 0 0)). }
  destruct (secs_vec canonical debug l2 (stage T (zlen (bm_imports m)) 0 0 0 0 0 0)
    (stage T (zlen (bm_imports m)) (zlen (bm_funcs m)) 0 0 0 0 0)
    WASM_BINARY_SECTION_FUNCTION enc_u32 CB_on_function_signatures_count
    (fun i sig => [CB_on_function_signature i sig]) (bm_funcs m)) as (l3 & S3 & B3 & M3 & E3);
    [done|done|by intros ->|intros size; by apply (reads_function_section _ size (bm_funcs m) (stage _ _ _ _ _ _ _ _))|].
  destruct (secs_vec canonical debug l3 (stage T (zlen (bm_imports m)) (zlen (bm_funcs m)) 0 0 0 0 0)
    (stage T (zlen (bm_imports m)) (zlen (bm_funcs m)) (zlen (bm_tables m)) 0 0 0 0)
    WASM_BINARY_SECTION_TABLE enc_table CB_on_table_count
    (fun i l => [CB_on_table i WASM_TYPE_ANYFUNC (read_limits l)]) (bm_tables m)) as (l4 & S4 & B4 & M4 & E4);
    [done|done|by intros ->|intros size; by apply (reads_table_section _ size (bm_tables m) (stage _ _ _ _ _ _ _ _))|].
  destruct (secs_vec canonical debug l4 (stage T (zlen (bm_imports m)) (zlen (bm_funcs m)) (zlen (bm_tables m)) 0 0 0 0)
    (stage T (zlen (bm_imports m)) (zlen (bm_funcs m)) (zlen (bm_tables m)) (zlen (bm_memories m)) 0 0 0)
    WASM_BINARY_SECTION_MEMORY enc_limits CB_on_memory_count
    (fun i l => [CB_on_memory i (read_limits l)]) (bm_memories m)) as (l5 & S5 & B5 & M5 & E5);
    [done|done|by intros ->|intros size; by apply (reads_memory_section _ size (bm_memories m) (stage _ _ _ _ _ _ _ _))|].
  set (st := stage T (zlen (bm_imports m)) (zlen (bm_funcs m)) (zlen (bm_tables m)) (zlen (bm_memories m))) in *.
  destruct (secs_vec canonical debug l5 (st 0 0 0) (st (zlen (bm_globals m)) 0 0)
    WASM_BINARY_SECTION_GLOBAL enc_global CB_on_global_count global_callbacks (bm_globals m)) as (l6 & S6 & B6 & M6 & E6);
    [done|done|by intros ->|intros size; by apply (reads_global_section _ size (bm_globals m) (st _ _ _))|].
  destruct (secs_vec canonical debug l6 (st (zlen (bm_globals m)) 0 0) (st (zlen (bm_globals m)) (zlen (bm_exports m)) 0)
    WASM_BINARY_SECTION_EXPORT enc_export CB_on_export_count
    (fun i e => [CB_on_export i (be_kind e) (be_index e) (be_name e)]) (bm_exports m)) as (l7 & S7 & B7 & M7 & E7);
    [done|done|by intros ->| |].
  { intros size. apply (reads_export_section _ size (bm_exports m) (st _ _ _)).
    rewrite <- Hexports. apply forallb_eq. intros e. unfold st. by rewrite stage_totals. }
  destruct (secs_start l7 (st (zlen (bm_globals m)) (zlen (bm_exports m)) 0)) as (l8 & S8 & B8 & M8 & E8); [done| |].
  { rewrite <- Hstart. destruct (bm_start m) as [f|]; [|done]. do 2 f_equal.
    exact (stage_totals WASM_EXTERNAL_KIND_FUNC _ _). }
  destruct (secs_vec canonical debug l8 (st (zlen (bm_globals m)) (zlen (bm_exports m)) 0)
    (st (zlen (bm_globals m)) (zlen (bm_exports m)) 0)
    WASM_BINARY_SECTION_ELEM enc_elem CB_on_elem_segment_count elem_callbacks (bm_elems m)) as (l9 & S9 & B9 & M9 & E9);
    [done|done|done| |].
  { intros size. apply (reads_elem_section _ size (bm_elems m)); [done|]. rewrite <- Helems1. do 2 f_equal.
    exact (stage_totals WASM_EXTERNAL_KIND_TABLE _ _). }
  destruct (secs_vec canonical debug l9 (st (zlen (bm_globals m)) (zlen (bm_exports m)) 0)
    (st (zlen (bm_globals m)) (zlen (bm_exports m)) (zlen (bm_codes m)))
    WASM_BINARY_SECTION_CODE (enc_code canonical) CB_on_function_bodies_count code_callbacks (bm_codes m))
    as (l10 & S10 & B10 & M10 & E10); [done|done|by intros ->| |].
  { intros size. apply (reads_code_section _ size canonical (bm_codes m) (st _ _ _)).
    - rewrite <- Hcodes. f_equal. unfold st. by rewrite (stage_totals WASM_EXTERNAL_KIND_FUNC).
    - apply Nat.eqb_eq in Hcodes1. cbn. by rewrite Hcodes1. }
  destruct (secs_vec canonical debug l10 (st (zlen (bm_globals m)) (zlen (bm_exports m)) (zlen (bm_codes m)))
    (st (zlen (bm_globals m)) (zlen (bm_exports m)) (zlen (bm_codes m)))
    WASM_BINARY_SECTION_DATA enc_data CB_on_data_segment_count data_callbacks (bm_datas m))
    as (l11 & S11 & B11 & M11 & E11); [done|done|done| |].
  { intros size. apply (reads_data_section _ size (bm_datas m)); [done|]. rewrite <- Hdatas1. do 2 f_equal.
    exact (stage_totals WASM_EXTERNAL_KIND_MEMORY _ _). }
  exists l11. split.
  - unfold known_sections. repeat (eapply secs_app; [eassumption|]). exact S11.
  - intros Hn. cbn [section_code] in *.
    assert (2 <= l3); [|apply M11; [lia|]; apply M10; [lia|]; apply M9; [lia|]; apply M8; [lia|]; apply M7; [lia|];
      apply M6; [lia|]; apply M5; [lia|]; apply M4; [lia|done]].
    rewrite E3. destruct (bm_funcs m); cbn [nonempty]; [|lia].
    rewrite E2. destruct (bm_imports m); cbn [nonempty]; [|lia].
    rewrite E1. destruct (bm_types m); cbn [nonempty]; [unfold WASM_NUM_BINARY_SECTIONS; lia|done].
Qed.
End module.

(** Reading the encoding of a well-formed module. *)
Lemma wasm_read_binary_encode canonical debug m u u' : well_formed m = true ->
  (bm_names m = None \/ debug = true) -> zlen (encode canonical m) < 2 ^ 32 ->
  deliver h (callbacks canonical m) u = Some u' ->
  wasm_read_binary reader debug (encode canonical m) u = Some (WASM_OK, u').
Proof.
  intros Hwf Hdebug Hsize Hu.
  destruct (secs_known canonical debug m Hwf Hsize) as (last & Hsecs & Hlast).
  assert (exists last' n', secs canonical debug WASM_NUM_BINARY_SECTIONS last' zero_counts n' (sections canonical m))
    as (last' & n' & Hall).
  { exists last. eexists. eapply secs_app; [exact Hsecs|].
    destruct (bm_names m) as [names|] eqn:En; [|apply secs_nil].
    destruct Hdebug as [?| ->]; [done|].
    pose proof Hwf as Hw. unfold well_formed in Hw. rewrite En, !andb_true_iff in Hw. destruct Hw as (_ & Hn1 & Hn2).
    change last with (next_last last WASM_BINARY_SECTION_CUSTOM) at 2.
    apply secs_one; [by right; left|]. apply reads_name_section; [by apply Hlast|].
    rewrite (stage_totals canonical m Hwf Hsize WASM_EXTERNAL_KIND_FUNC). lia. }
  apply (deliver_app h [_]) in Hu as (u1 & Hu1 & (u2 & Hu2 & Hu3)%deliver_app).
  unfold encode in *. set (bs := concat _) in *. set (data := _ ++ _ ++ bs) in *.
  assert (zlen data = 8 + zlen bs) as Hlen by (unfold data; rewrite !length_app; cbn [length le_bytes]; lia).
  assert (forall v n, in_u 32 v -> reads WASM_NUM_BINARY_SECTIONS n (in_u32 reader) (le_bytes 4 v) n [] v) as Hu32
    by (intros; by apply (reads_le WASM_NUM_BINARY_SECTIONS 4)).
  unfold wasm_read_binary, read_module. unfold r_bind at 1.
  rewrite (Hu32 WASM_BINARY_MAGIC zero_counts ltac:(done) data [] (le_bytes 4 WASM_BINARY_VERSION ++ bs) 0 _ u u)
    by (done || rewrite ?length_le_bytes; lia).
  unfold r_bind at 1, RAISE_ERROR_UNLESS at 1. rewrite Z.eqb_refl. unfold r_ret at 1.
  unfold r_bind at 1. rewrite length_le_bytes.
  rewrite (Hu32 WASM_BINARY_VERSION zero_counts ltac:(done) data (le_bytes 4 WASM_BINARY_MAGIC) bs _ _ u u)
    by (done || rewrite ?length_le_bytes; lia).
  unfold r_bind at 1, RAISE_ERROR_UNLESS at 1. rewrite Z.eqb_refl. unfold r_ret at 1.
  unfold r_bind at 1. rewrite length_le_bytes. change (0 + Z.of_nat 4 + Z.of_nat 4) with 8.
  set (pre := le_bytes 4 WASM_BINARY_MAGIC ++ le_bytes 4 WASM_BINARY_VERSION).
  assert (data = pre ++ bs) as Hdata by (unfold data, pre; by rewrite <- app_assoc).
  rewrite (reads_CALLBACK WASM_NUM_BINARY_SECTIONS (CB_begin_module WASM_BINARY_VERSION) zero_counts data pre bs 8 _ u u1)
    by (done || cbn; lia).
  cbn [length]. rewrite Z.add_0_r. unfold r_bind at 1, read_sections, r_bind at 1, get. cbn [rd_data].
  destruct (Hall (S (length data)) data pre [] 8 (zlen data) u1 u2) as (fuel & e & Hf & ->);
    [by rewrite app_nil_r|done|done|fold bs; lia|done|]. fold bs.
  destruct fuel as [|fuel]; cbn [sections_loop]; unfold r_bind at 1, get, data_size; cbn [rd_offset rd_data];
    rewrite (proj2 (Z.ltb_ge _ _)) by lia; unfold r_ret;
    by rewrite (CALLBACK_ok _ _ _ _ _ _ _ u' Hu3).
Qed.
End reads.

(** C5 - Binary round trip.  Take any module of the syntax tree that stands for
    a well-formed binary module, and any reader whose callbacks look at their
    arguments but not at offsets.  Writing the module to memory succeeds, and
    reading the bytes back succeeds and makes exactly the callbacks the binary
    module calls for - every signature, import, limit, initializer, instruction
    with its operands, local, segment and name, in order, between the [begin]
    and [end] of its section - whichever way sizes are written.  A names section
    is seen by a reader of debug names. *)
Theorem binary_roundtrip {U : Type} (h : Callback -> U -> WasmResult * U) (err : Z -> string -> U -> U)
    (opts : WasmWriteBinaryOptions) (module : WasmModule) (bm : BModule) (read_debug_names : bool) (u u' : U) :
  resolve opts module = Some bm ->
  well_formed bm = true ->
  (bm_names bm = None \/ read_debug_names = true) ->
  Z.of_nat (length (encode (canonicalize_lebs opts) bm)) < 2 ^ 32 ->
  deliver h (callbacks (canonicalize_lebs opts) bm) u = Some u' ->
  exists w w' data, wasm_init_mem_writer = Some w /\
    wasm_write_binary_module w module opts = Some (WASM_OK, w') /\ buf_bytes w' = Some data /\
    wasm_read_binary (mkReader (fun _ => h) err) read_debug_names data u = Some (WASM_OK, u').
Proof.
  intros Hbm Hwf Hnames Hl Hu. destruct mem_rep_init as (w & Ew & Hw).
  destruct (write_binary_module_ok opts (fun _ => mem_writer_moves) module w bm Hw Hbm Hl) as (w' & E & Hw').
  exists w, w', (encode (canonicalize_lebs opts) bm). split_and!; [done|done|by apply mem_rep_bytes|].
  exact (wasm_read_binary_encode h err (canonicalize_lebs opts) read_debug_names bm u u' Hwf Hnames Hl Hu).
Qed.

(** Sizes in five bytes, with debug names; the callbacks are collected. *)
Definition collect (cb : Callback) (trace : list Callback) : WasmResult * list Callback :=
  (WASM_OK, trace ++ [cb]).

Lemma binary_roundtrip_witness : exists w w' data trace, wasm_init_mem_writer = Some w /\
  wasm_write_binary_module w sample_module (mkWriteOptions false true false) = Some (WASM_OK, w') /\
  buf_bytes w' = Some data /\
  wasm_read_binary (mkReader (fun _ => collect) (fun _ _ trace => trace)) true data [] = Some (WASM_OK, trace) /\
  last trace = Some CB_end_module /\ CB_on_binary_expr WASM_OPCODE_I32_SUB ∈ trace /\
  CB_on_function_name 0 [36; 102] ∈ trace.
Proof.
  set (opts := mkWriteOptions false true false).
  set (bm := default (mkBModule [] [] [] [] [] [] [] None [] [] [] None) (resolve opts sample_module)).
  set (trace := default [] (deliver collect (callbacks false bm) [])).
  destruct (binary_roundtrip collect (fun _ _ trace => trace) opts sample_module bm true [] trace)
    as (w & w' & data & E1 & E2 & E3 & E4); [vm_compute; reflexivity|vm_compute; reflexivity|by right|
    vm_compute; reflexivity|vm_compute; reflexivity|].
  exists w, w', data, trace. split_and!; [exact E1|exact E2|exact E3|exact E4|vm_compute; reflexivity| |].
  - apply list_elem_of_In. vm_compute. tauto.
  - apply list_elem_of_In. vm_compute. tauto.
Defined.

(** A custom section is taken for the names section whenever its name is
    a prefix of "name": the names are compared by [strncmp] over the length of
    the section's name.  So a section named "", "n", "na" or "nam" is parsed as
    a list of function names, and a module that ends in such a section with
    other contents is rejected, although custom sections may hold anything. *)
Theorem custom_section_name_prefix (k : nat) :
  (k < 4)%nat ->
  let section contents := enc_section true
    (mkBSection WASM_BINARY_SECTION_CUSTOM (enc_bytes (take k name_bytes) ++ contents) []) in
  let header := le_bytes 4 WASM_BINARY_MAGIC ++ le_bytes 4 WASM_BINARY_VERSION in
  let read data := wasm_read_binary (mkReader (fun _ => collect) (fun _ _ trace => trace)) true data [] in
  (exists trace, read (header ++ section [0]) = Some (WASM_OK, trace) /\
     CB_begin_names_section (Z.of_nat k + 2) ∈ trace) /\
  (exists trace, read (header ++ section [1]) = Some (WASM_ERROR, trace)).
Proof.
  intros Hk. do 4 (destruct k as [|k]; [split; [eexists; split; [vm_compute; reflexivity|
    apply list_elem_of_In; vm_compute; tauto]|eexists; vm_compute; reflexivity]|]). lia.
Qed.

Lemma custom_section_name_prefix_witness : exists trace,
  wasm_read_binary (mkReader (fun _ => collect) (fun _ _ trace => trace)) true
    [0; 97; 115; 109; 13; 0; 0; 0; 0; 3; 1; 110; 1] [] = Some (WASM_ERROR, trace).
Proof. exact (proj2 (custom_section_name_prefix 1 ltac:(lia))). Defined.
