(* ===== verification/LoaderFaults.v ===== *)
(** * What the loader lets through, and what it asserts on

    Modules on which binary-reader-interpreter.c departs from WebAssembly: some
    that are not valid are loaded, and do undefined things when they run; some
    valid ones are refused; some fail an assertion in the loader. *)

From S2P Require Import Prelude Opcode BindingHash Stream Ast BinaryReader BinaryFormat Float Numeric Interp InterpFacts BinaryReaderInterpreter.

(** What becomes of a module's bytes in a new environment. *)
Inductive Fate : Type :=
| Loads (env : WasmInterpreterEnvironment)
| Refused
| Asserts.

Definition fate (m : BModule) : Fate :=
  match wasm_init_interpreter_environment with
  | Some env =>
      match wasm_read_binary_interpreter junk_entry env (encode true m) false with
      | Some (WASM_OK, env, _) => Loads env
      | Some (WASM_ERROR, _, _) => Refused
      | None => Asserts
      end
  | None => Asserts
  end.

(** [n] instructions from the beginning of the code, in a thread whose value
    stack is empty. *)
Definition runs (n : nat) (m : BModule) : option (WasmInterpreterResult * list Z) :=
  match fate m with
  | Loads env =>
      env ← machine_env env;
      '(r, _, t) ← @wasm_run_interpreter default_nan_bits plain_alloc env
                     (wasm_init_interpreter_thread (mkThreadOptions 8 8 0)) n 0;
      Some (r, take (Z.to_nat (value_stack_top (thread_stacks t))) (value_stack (thread_stacks t)))
  | _ => None
  end.

Definition loads (m : BModule) : bool := match fate m with Loads _ => true | _ => false end.

Definition i32_const (v : Z) : BInstr := BI_CONST (mkConst WASM_TYPE_I32 v).

(** One function, and what else the module has. *)
Definition with_function (results : list WasmType) (body : list BInstr) (memories : list WasmLimits)
    (globals : list BGlobal) (tables : list WasmLimits) (elems : list BElemSegment) : BModule :=
  mkBModule [mkFuncSignature [] results] [] [0] tables memories globals [] None elems
    [mkBFuncBody [] body] [] None.

Definition function (results : list WasmType) (body : list BInstr) : BModule :=
  with_function results body [] [] [] [].

(** [(drop (if i32 (i32.const 0) (then (i32.const 1))))] *)
Definition if_without_else : BModule :=
  function [] [i32_const 0; BI_IF [WASM_TYPE_I32] [i32_const 1] []; BI_OP WASM_OPCODE_DROP].

(** A value too many before the [else]: the sum takes it. *)
Definition if_with_excess : BModule :=
  function [WASM_TYPE_I32]
    [i32_const 1; BI_IF [WASM_TYPE_I32] [i32_const 7; i32_const 8] [i32_const 9]].

(** [(block i64 (br_if 0 (i32.const 5) (i32.const 1)) ...)] *)
Definition br_if_type : BModule :=
  function [WASM_TYPE_I64]
    [BI_BLOCK [WASM_TYPE_I64] [i32_const 5; i32_const 1; BI_INDEX WASM_OPCODE_BR_IF 0; BI_OP WASM_OPCODE_DROP;
       BI_CONST (mkConst WASM_TYPE_I64 0)]].

(** [(block i32 (br_if 0 (i32.const 1)) (i32.const 0))] *)
Definition br_if_empty : BModule :=
  function [WASM_TYPE_I32]
    [BI_BLOCK [WASM_TYPE_I32] [i32_const 1; BI_INDEX WASM_OPCODE_BR_IF 0; i32_const 0]].

(** [(drop (i32.load (i32.const 0)))] in a module without a memory. *)
Definition load_without_memory : BModule :=
  function [] [i32_const 0; BI_MEMORY WASM_OPCODE_I32_LOAD 0 0; BI_OP WASM_OPCODE_DROP].

Definition call_without_table : BModule := function [] [i32_const 0; BI_CALL_INDIRECT 0].

Definition whole_memory : BModule := with_function [] [] [mkLimits 65536 0 false] [] [] [].

(** [(unreachable) (block (drop))] *)
Definition drop_in_dead_block : BModule :=
  function [] [BI_OP WASM_OPCODE_UNREACHABLE; BI_BLOCK [] [BI_OP WASM_OPCODE_DROP]].

Definition br_table_depth : BModule := function [] [i32_const 0; BI_BR_TABLE [] 7].

(** [(loop i32 (br_table 0 (i32.const 0)))]: a branch to a loop takes no
    value. *)
Definition br_table_loop : BModule :=
  function [WASM_TYPE_I32] [BI_LOOP [WASM_TYPE_I32] [i32_const 0; BI_BR_TABLE [] 0]].

(** [(global i32 (i64.const 1))] and a function of type [i64] that returns it. *)
Definition global_type : BModule :=
  with_function [WASM_TYPE_I64] [BI_INDEX WASM_OPCODE_GET_GLOBAL 0] []
    [mkBGlobal WASM_TYPE_I32 false [BI_CONST (mkConst WASM_TYPE_I64 1)]] [] [].

(** [(global i32 (get_global 1))], a global that is not initialised yet,
    returned as an [f64] after two values that nothing takes. *)
Definition global_later : BModule :=
  with_function [WASM_TYPE_F64] [i32_const 3; i32_const 4; BI_INDEX WASM_OPCODE_GET_GLOBAL 0] []
    [mkBGlobal WASM_TYPE_I32 false [BI_INDEX WASM_OPCODE_GET_GLOBAL 1];
     mkBGlobal WASM_TYPE_I32 false [i32_const 6]] [] [].

Definition elem_index : BModule :=
  with_function [] [] [] [] [mkLimits 1 0 false] [mkBElemSegment 0 [i32_const 0] [9]].

(** What the loader gets wrong.  It loads an [if] with a result and no
    [else], and the code then pops an empty stack; two values before an [else],
    so that the function returns with two results; a [br_if] that passes an
    [i32] for an [i64]; memory instructions without a memory and
    [call_indirect] without a table; a memory of 65536 pages, whose size in
    bytes is then zero; a global whose initializer has another type, or is a
    global that comes later, whose type is that of nothing and turns the checks
    of its readers off.  It refuses a valid [br_table] to a loop with a result.
    It fails an assertion on a [drop] in a block in unreachable code, which is
    valid, and on a [br_if] that lacks the values of its label, a [br_table]
    deeper than the labels and an element segment with a function that does not
    exist, which should be errors. *)
Theorem loader_faults :
  (loads if_without_else = true /\ runs 4 if_without_else = None) /\
  runs 6 if_with_excess = Some (WASM_INTERPRETER_RETURNED, [7; 8]) /\
  runs 5 br_if_type = Some (WASM_INTERPRETER_RETURNED, [5]) /\
  forallb loads [load_without_memory; call_without_table; global_type; global_later] = true /\
  match fate whole_memory with Loads env => map mem_byte_size (env_memories env) = [0] | _ => False end /\
  fate br_table_loop = Refused /\
  Forall (fun m => fate m = Asserts) [drop_in_dead_block; br_if_empty; br_table_depth; elem_index].
Proof.
  repeat match goal with |- _ /\ _ => split end; [vm_compute; reflexivity..|].
  repeat (apply List.Forall_cons; [vm_compute; reflexivity|]). apply List.Forall_nil.
Qed.
