(* ===== verification/CompileFacts.v ===== *)
(** * The loader emits the structured translation

    Each callback of a function body does to the loader's context what [comp]
    does to cells and type stacks: the instruction stream holds the cells with
    placeholders for the names, and the fixup lists hold where the names are. *)

From S2P Require Import Prelude Opcode BindingHash Vector StateOpt StateErr Stream Ast BinaryReader BinaryFormat Numeric Interp BinaryReaderInterpreter Compile.

(** ** Cells *)

Definition cell_size (x : Cell) : Z := match x with Byte _ => 1 | _ => 4 end.

Lemma length_cell_bytes x : Z.of_nat (length (cell_bytes x)) = cell_size x.
Proof. by destruct x. Qed.

Lemma flat_app c1 c2 : flat (c1 ++ c2) = flat c1 ++ flat c2.
Proof. unfold flat. by rewrite map_app, concat_app. Qed.

Lemma flat_raw bs : flat (raw bs) = bs.
Proof. unfold flat, raw. induction bs as [|b bs IH]; [done|]. cbn [map concat cell_bytes app]. by rewrite IH. Qed.

Lemma cells_size_app c1 c2 : cells_size (c1 ++ c2) = cells_size c1 + cells_size c2.
Proof. unfold cells_size. rewrite flat_app, length_app. lia. Qed.

Lemma cells_size_cons x c : cells_size (x :: c) = cell_size x + cells_size c.
Proof. change (x :: c) with ([x] ++ c). rewrite cells_size_app. f_equal. unfold cells_size, flat.
  cbn [map concat]. by rewrite app_nil_r, length_cell_bytes. Qed.

Lemma cells_size_raw bs : cells_size (raw bs) = Z.of_nat (length bs).
Proof. unfold cells_size. by rewrite flat_raw. Qed.

Lemma cells_size_nonneg c : 0 <= cells_size c.
Proof. unfold cells_size. lia. Qed.

Lemma raw_app b1 b2 : raw (b1 ++ b2) = raw b1 ++ raw b2.
Proof. apply map_app. Qed.

(** Where a name occurs in cells that start at [pos]. *)
Fixpoint positions (name : Cell -> bool) (pos : Z) (cells : list Cell) : list Z :=
  match cells with
  | [] => []
  | x :: cells => (if name x then [pos] else []) ++ positions name (pos + cell_size x) cells
  end.

Lemma positions_cells_app name pos c1 c2 :
  positions name pos (c1 ++ c2) = positions name pos c1 ++ positions name (pos + cells_size c1) c2.
Proof.
  revert pos. induction c1 as [|x c1 IH]; intros pos; cbn [app positions].
  - unfold cells_size, flat. cbn [map concat length]. by rewrite Z.add_0_r.
  - by rewrite IH, cells_size_cons, Z.add_assoc, app_assoc.
Qed.

(** A name is not a byte. *)
Definition proper (name : Cell -> bool) : Prop := forall b, name (Byte b) = false.

Lemma proper_ref n : proper (is_ref n).
Proof. done. Qed.
Lemma proper_func_ref n : proper (is_func_ref n).
Proof. done. Qed.

Lemma positions_raw name pos bs : proper name -> positions name pos (raw bs) = [].
Proof. intros H. revert pos. induction bs as [|b bs IH]; intros pos; [done|]. cbn [raw map positions].
  rewrite H. apply IH. Qed.

Lemma resolve_app name a c1 c2 :
  resolve_cells name a (c1 ++ c2) = resolve_cells name a c1 ++ resolve_cells name a c2.
Proof. unfold resolve_cells. by rewrite map_app, concat_app. Qed.

Lemma resolve_cons name a x c : resolve_cells name a (x :: c) = resolve_cell name a x ++ resolve_cells name a c.
Proof. done. Qed.

Lemma resolve_raw name a bs : proper name -> resolve_cells name a (raw bs) = raw bs.
Proof.
  intros H. induction bs as [|b bs IH]; [done|]. cbn [raw map]. rewrite resolve_cons.
  unfold resolve_cell. rewrite H. cbn [app]. f_equal. exact IH.
Qed.

Lemma resolve_none name a pos c : positions name pos c = [] -> resolve_cells name a c = c.
Proof.
  revert pos. induction c as [|x c IH]; intros pos; [done|]. cbn [positions]. rewrite resolve_cons.
  unfold resolve_cell. destruct (name x); [done|]. intros H. cbn [app]. f_equal. by eapply IH.
Qed.

Lemma cells_size_resolve_cell name a x : proper name ->
  cells_size (resolve_cell name a x) = cell_size x.
Proof.
  intros H. unfold resolve_cell. destruct (name x) eqn:E.
  - rewrite cells_size_raw, length_le_bytes. destruct x; [by rewrite H in E|done|done].
  - rewrite cells_size_cons. unfold cells_size. cbn. lia.
Qed.

Lemma cells_size_resolve name a c : proper name -> cells_size (resolve_cells name a c) = cells_size c.
Proof.
  intros H. induction c as [|x c IH]; [done|]. rewrite resolve_cons, cells_size_app, cells_size_cons, IH.
  by rewrite cells_size_resolve_cell.
Qed.

(** Resolving one name leaves the positions of the others. *)
Lemma positions_resolve name name' a pos c : proper name -> proper name' ->
  (forall x, name x = true -> name' x = false) ->
  positions name' pos (resolve_cells name a c) = positions name' pos c.
Proof.
  intros H H' Hd. revert pos. induction c as [|x c IH]; intros pos; [done|].
  rewrite resolve_cons, positions_cells_app, IH, cells_size_resolve_cell by done. cbn [positions]. f_equal.
  unfold resolve_cell. destruct (name x) eqn:E; [|by cbn; rewrite app_nil_r].
  rewrite positions_raw by done. by rewrite Hd.
Qed.

Lemma positions_resolved name a pos c : proper name -> positions name pos (resolve_cells name a c) = [].
Proof.
  intros H. revert pos. induction c as [|x c IH]; intros pos; [done|].
  rewrite resolve_cons, positions_cells_app, IH, app_nil_r. unfold resolve_cell.
  destruct (name x) eqn:E; [by apply positions_raw|]. cbn. by rewrite E.
Qed.

Lemma is_ref_other n m x : n <> m -> is_ref n x = true -> is_ref m x = false.
Proof. intros Hne. destruct x; [done| |done]. cbn. rewrite bool_decide_eq_true, bool_decide_eq_false. lia. Qed.
Lemma is_ref_func n m x : is_ref n x = true -> is_func_ref m x = false.
Proof. by destruct x. Qed.
Lemma is_func_ref_ref n m x : is_func_ref n x = true -> is_ref m x = false.
Proof. by destruct x. Qed.
Lemma is_func_ref_other n m x : n <> m -> is_func_ref n x = true -> is_func_ref m x = false.
Proof. intros Hne. destruct x; [done|done|]. cbn. rewrite bool_decide_eq_true, bool_decide_eq_false. lia. Qed.

Lemma cells_size_nil : cells_size [] = 0.
Proof. done. Qed.

Lemma cells_size_u32 v : cells_size (u32_cells v) = 4.
Proof. unfold u32_cells. by rewrite cells_size_raw, length_le_bytes. Qed.

Lemma cells_size_u64 v : cells_size (u64_cells v) = 8.
Proof. unfold u64_cells. by rewrite cells_size_raw, length_le_bytes. Qed.

Lemma cell_size_opcode op : cell_size (opcode_cell op) = 1.
Proof. done. Qed.

Lemma cell_size_op op : cell_size (op_cell op) = 1.
Proof. done. Qed.

Lemma cell_size_byte b : cell_size (Byte b) = 1.
Proof. done. Qed.

Lemma cell_size_ref n : cell_size (Ref n) = 4.
Proof. done. Qed.

Lemma cell_size_func_ref n : cell_size (FuncRef n) = 4.
Proof. done. Qed.

Lemma drop_keep_size drop keep : cells_size (drop_keep drop keep) <= 6.
Proof.
  unfold drop_keep. destruct drop; [done|]. destruct (_ && _); [done|].
  rewrite cells_size_cons, cells_size_app, cells_size_u32. done.
Qed.

#[export] Hint Rewrite cells_size_nil cells_size_u32 cells_size_u64 cell_size_opcode cell_size_op
  cell_size_byte cell_size_ref cell_size_func_ref : cells.
#[export] Hint Rewrite flat_app flat_raw cells_size_app cells_size_cons cells_size_raw raw_app
  length_le_bytes : cells.
#[export] Hint Resolve proper_ref proper_func_ref is_ref_other is_ref_func is_func_ref_ref
  is_func_ref_other cells_size_nonneg : cells.

(** ** The loader against the translation *)

(** The part of the context that a function body does not change, as the
    translation sees it; [later] are the functions that have no code yet. *)
Definition is_value (t : WasmType) : Prop := t <> WASM_TYPE_ANY /\ t <> WASM_TYPE_VOID.
Definition all_values (types : list WasmType) : Prop := Forall is_value types.

Record sig_fine (sig : FuncSignature) : Prop := {
  sig_params : all_values (param_types sig);
  sig_results : all_values (result_types sig);
  sig_one : (length (result_types sig) <= 1)%nat
}.

Definition callee_fine (c : Context) (later : nat -> Prop) (i env_index : Z) (callee : Callee) (f : Func) : Prop :=
  match callee, func_body f with
  | HostCallee j, HostFunc _ _ _ => j = env_index
  | CodeCallee o, DefinedFunc o' _ _ _ => o = o' /\ o <> WASM_INVALID_OFFSET
  | LaterCallee j, DefinedFunc o _ _ _ =>
      o = WASM_INVALID_OFFSET /\ i = num_func_imports c + Z.of_nat j /\ 0 <= num_func_imports c /\ later j /\
      Z.of_nat j < 2 ^ 32 - 2
  | _, _ => False
  end.

Record statics (c : Context) (cur : Z) (T : Target) (later : nat -> Prop) : Prop := {
  st_func : exists si o n m params,
    zget (env_funcs (ctx_env c)) cur = Some (mkFunc si (DefinedFunc o n m (t_locals T))) /\
    zget (env_sigs (ctx_env c)) si = Some (mkSig params (t_results T));
  st_locals : all_values (t_locals T);
  st_results : all_values (t_results T) /\ (length (t_results T) <= 1)%nat;
  st_callee i :
    match t_func T i with
    | Some (sig, callee) =>
        sig_fine sig /\
        exists ei f, zget (func_index_mapping c) i = Some ei /\ zget (env_funcs (ctx_env c)) ei = Some f /\
          zget (env_sigs (ctx_env c)) (func_sig_index f) = Some sig /\ callee_fine c later i ei callee f
    | None => zget (func_index_mapping c) i = None
    end;
  st_sig i :
    match t_sig T i with
    | Some (ei, sig) => sig_fine sig /\ zget (sig_index_mapping c) i = Some ei /\
                        zget (env_sigs (ctx_env c)) ei = Some sig
    | None => zget (sig_index_mapping c) i = None
    end;
  st_global i :
    match t_global T i with
    | Some (ei, t, mutable_) =>
        t <> WASM_TYPE_ANY /\ i < size_of (global_index_mapping c) /\
        exists g, zget (global_index_mapping c) i = Some ei /\ zget (env_globals (ctx_env c)) ei = Some g /\
          tv_type (gl_typed_value g) = t /\ gl_mutable g = mutable_
    | None => 0 <= i -> size_of (global_index_mapping c) <= i
    end;
  st_module : exists m, zget (env_modules (ctx_env c)) (ctx_module c) = Some m /\
    module_memory_index m = t_memory T /\ module_table_index m = t_table T
}.

(** A label of the context and a label of the translation. *)
Definition label_rel (l : Label) (r : RLabel) : Prop :=
  label_sig l = rl_sig r /\ type_stack_limit_of l = Z.of_nat (length (rl_entry r)) /\
  (length (rl_sig r) <= 1)%nat /\ all_values (rl_sig r) /\
  match rl_loop r with
  | Some start => label_type l = LABEL_TYPE_LOOP /\ label_offset l = start /\ start <> WASM_INVALID_OFFSET
  | None => label_type l <> LABEL_TYPE_LOOP /\ label_offset l = WASM_INVALID_OFFSET
  end.

(** Type stacks grow from the locals up, block by block, and hold
    [WASM_TYPE_ANY] at most on top of code that cannot be reached. *)
Definition clean (S : Types) : Prop := dead S = true \/ all_values S.

Fixpoint chain (locals : Types) (S : Types) (L : list RLabel) : Prop :=
  clean S /\
  match L with
  | [] => rev locals `suffix_of` S
  | l :: L => rl_entry l `suffix_of` S /\ chain locals (rl_entry l) L
  end.

Lemma dead_false S : clean S -> dead S = false -> all_values S.
Proof. by intros [->|]. Qed.

Lemma all_values_dead S : all_values S -> dead S = false.
Proof. intros H. unfold dead. apply bool_decide_eq_false. destruct S as [|t S]; [done|].
  inversion_clear H as [|? ? []]. cbn. congruence. Qed.

Lemma chain_clean locals S L : chain locals S L -> clean S.
Proof. destruct L; by intros [? _]. Qed.

Lemma chain_entry locals S r L : chain locals S (r :: L) -> rl_entry r `suffix_of` S.
Proof. by intros (_ & ? & _). Qed.

Lemma chain_locals locals S L : chain locals S L -> rev locals `suffix_of` S.
Proof.
  revert S. induction L as [|r L IH]; intros S; [by intros [_ ?]|]. intros (_ & H1 & H2).
  etransitivity; [by apply IH|done].
Qed.

Lemma chain_lookup locals S L n r : chain locals S L -> L !! n = Some r -> rl_entry r `suffix_of` S.
Proof.
  revert S n. induction L as [|r' L IH]; intros S n; [done|]. intros (_ & H1 & H2). destruct n as [|n]; cbn.
  - by intros [= ->].
  - intros Hn. etransitivity; [by eapply IH|done].
Qed.

(** The top block's values may change, as long as its entry stays. *)
Lemma chain_change locals S S' r L : chain locals S (r :: L) -> clean S' -> rl_entry r `suffix_of` S' ->
  chain locals S' (r :: L).
Proof. intros (_ & _ & ?) ? ?. done. Qed.

Lemma chain_drop locals S r L n : chain locals S (r :: L) -> dead S = false ->
  (n <= above (rl_entry r) S)%nat -> chain locals (drop n S) (r :: L).
Proof.
  intros H Hd Hn. apply (chain_change _ S); [done| |].
  - right. eapply Forall_drop, dead_false; [by eapply chain_clean|done].
  - destruct (chain_entry _ _ _ _ H) as [p ->]. unfold above in Hn. rewrite length_app in Hn.
    rewrite drop_app_le by lia. by exists (drop n p).
Qed.

Lemma chain_push locals S r L ts : chain locals S (r :: L) -> dead S = false -> all_values ts ->
  chain locals (ts ++ S) (r :: L).
Proof.
  intros H Hd Hts. apply (chain_change _ S); [done| |].
  - right. apply Forall_app. split; [done|]. eapply dead_false; [by eapply chain_clean|done].
  - etransitivity; [by eapply chain_entry|]. by exists ts.
Qed.

Lemma chain_unreachable locals S r L : chain locals S (r :: L) ->
  chain locals (unreachable_from (rl_entry r)) (r :: L).
Proof.
  intros H. apply (chain_change _ S); [done| |]; unfold unreachable_from;
    destruct (dead (rl_entry r)) eqn:E.
  - by left.
  - by left.
  - done.
  - by exists [WASM_TYPE_ANY].
Qed.

Lemma pops_length E ts S S' : pops E ts S = Ok S' -> (length S' <= length S)%nat.
Proof.
  unfold pops. destruct (dead S); [by intros [= ->]|]. destruct (expect E ts S); [|done..].
  intros [= <-]. rewrite length_drop. lia.
Qed.

Lemma expect_above E ts S : expect E ts S = Ok tt -> dead S = true \/ (length ts <= length S - length E)%nat.
Proof.
  unfold expect, above. destruct (dead S); [by left|]. cbn [negb andb]. right.
  destruct (Nat.ltb_spec (length S - length E) (length ts)); [done|lia].
Qed.

Lemma pushes_length ts S : (length (pushes ts S) <= length S + length ts)%nat.
Proof.
  unfold pushes. destruct (dead S); [lia|]. rewrite length_app, length_rev.
  pose proof (length_filter (fun t => t <> WASM_TYPE_VOID) ts). lia.
Qed.

Section sim.
Context (uninit_entry : nat -> WasmBindingHashEntry) (c0 : Context) (cur : Z) (T : Target)
  (later : nat -> Prop) (Hst : statics c0 cur T later) (old : list Z).

Abbreviation base := (Z.of_nat (length old)).
Abbreviation at_ k := (set_code k c0).

(** The code is [cells], the type stack [S] and the labels [ls] stand for [L]. *)
Record rel (cells : list Cell) (S : Types) (ls : list Label) (L : list RLabel) (k : CodeContext) : Prop := {
  rel_func : current_func k = Some cur;
  rel_types : type_stack k = S;
  rel_labels : label_stack k = ls;
  rel_label : Forall2 label_rel ls L;
  rel_chain : chain (t_locals T) S L;
  rel_offset : istream_offset k = base + cells_size cells;
  rel_code : mem_rep (istream_writer k) (old ++ flat cells);
  rel_depths : (length (depth_fixups k) <= length ls)%nat;
  rel_refs n : default [] (depth_fixups k !! n) = positions (is_ref n) base cells;
  rel_funcs n : later n -> func_fixups k !! n = Some (positions (is_func_ref n) base cells)
}.

(** Outputs, label stacks and type stacks have room. *)
Definition size_ok (cells : list Cell) (S : Types) (L : list RLabel) (more : Z) : Prop :=
  base + cells_size cells + Z.of_nat (length S) + Z.of_nat (length L) + more < 2 ^ 32 - 1.

(** [m] from [k] does what [r] says, with [Q] of the results. *)
Definition sim {A B} (m : IM A) (k : CodeContext) (r : Res B) (Q : B -> A -> CodeContext -> Prop) : Prop :=
  match r with
  | Ok b => exists a k', m (at_ k) = Some (Some a, at_ k') /\ Q b a k'
  | Rejected => exists c', m (at_ k) = Some (None, c')
  | Crashed => m (at_ k) = None
  end.

Lemma sim_bind {A B A' B'} (m : IM A) (f : A -> IM A') k (r : Res B) (g : B -> Res B') Q Q' :
  sim m k r Q -> (forall a b k', Q b a k' -> sim (f a) k' (g b) Q') -> sim (se_bind m f) k (res_bind r g) Q'.
Proof.
  unfold sim, se_bind, so_bind. destruct r as [b| |]; cbn [res_bind].
  - intros (a & k' & -> & HQ) Hf. apply (Hf _ _ _ HQ).
  - intros (c' & ->) _. by exists c'.
  - by intros ->.
Qed.

(** A step the translation does not have. *)
Lemma sim_step {A A' B'} (m : IM A) (f : A -> IM A') k k' a (r : Res B') Q' :
  m (at_ k) = Some (Some a, at_ k') -> sim (f a) k' r Q' -> sim (se_bind m f) k r Q'.
Proof. intros E H. unfold sim, se_bind, so_bind in *. rewrite E. exact H. Qed.

Lemma sim_ok {A B} (m : IM A) k k' a b (Q : B -> A -> CodeContext -> Prop) :
  m (at_ k) = Some (Some a, at_ k') -> Q b a k' -> sim m k (Ok b) Q.
Proof. intros E H. unfold sim. eauto. Qed.

Lemma sim_ret {A B} (a : A) k b (Q : B -> A -> CodeContext -> Prop) : Q b a k -> sim (se_ret a) k (Ok b) Q.
Proof. by apply sim_ok. Qed.

Lemma sim_weaken {A B} (m : IM A) k (r : Res B) (Q Q' : B -> A -> CodeContext -> Prop) :
  sim m k r Q -> (forall b a k', Q b a k' -> Q' b a k') -> sim m k r Q'.
Proof. unfold sim. destruct r; [|done|done]. intros (a' & k' & E & H) HQ. eauto. Qed.

Lemma sim_map {A B B'} (m : IM A) k (r : Res B) (f : B -> B') (Q : B -> A -> CodeContext -> Prop) Q' :
  sim m k r Q -> (forall b a k', Q b a k' -> Q' (f b) a k') -> sim m k (res_bind r (fun b => Ok (f b))) Q'.
Proof. unfold sim. destruct r; [|done|done]. intros (a' & k' & E & H) HQ. cbn. eauto. Qed.

Lemma sim_eq {A B} (m m' : IM A) k (r : Res B) (Q : B -> A -> CodeContext -> Prop) :
  m (at_ k) = m' (at_ k) -> sim m' k r Q -> sim m k r Q.
Proof. unfold sim. by intros ->. Qed.

Lemma sim_error {A B} (m : IM A) k c' (Q : B -> A -> CodeContext -> Prop) :
  m (at_ k) = Some (None, c') -> sim m k Rejected Q.
Proof. intros E. by exists c'. Qed.

Lemma sim_step_error {A A' B'} (m : IM A) (f : A -> IM A') k c' (Q' : B' -> A' -> CodeContext -> Prop) :
  m (at_ k) = Some (None, c') -> sim (se_bind m f) k Rejected Q'.
Proof. intros E. exists c'. unfold se_bind, so_bind. by rewrite E. Qed.

Lemma sim_step_crash {A A' B'} (m : IM A) (f : A -> IM A') k (Q' : B' -> A' -> CodeContext -> Prop) :
  m (at_ k) = None -> sim (se_bind m f) k Crashed Q'.
Proof. intros E. unfold sim, se_bind, so_bind. by rewrite E. Qed.

(** A step that may be refused. *)
Lemma sim_reject {A' B'} (b : bool) (f : unit -> IM A') k (r : Res B') Q' :
  (b = false -> sim (f tt) k r Q') ->
  sim (se_bind (se_error_if b) f) k (res_bind (reject_if b) (fun _ => r)) Q'.
Proof. destruct b; intros H; [unfold sim, se_bind, so_bind; cbn; eauto|by apply H]. Qed.

Lemma sim_assert {A' B'} (b : bool) (f : unit -> IM A') k (r : Res B') Q' :
  (b = true -> sim (f tt) k r Q') ->
  sim (se_bind (se_assert b) f) k (res_bind (crash_if (negb b)) (fun _ => r)) Q'.
Proof. destruct b; intros H; [by apply H|done]. Qed.

Lemma set_code_twice k k' : set_code k (set_code k' c0) = at_ k.
Proof. done. Qed.

(** *** Reading the context *)

Lemma run_get_code k : get_code (at_ k) = Some (Some k, at_ k).
Proof. done. Qed.

Lemma run_modify_code f k : modify_code f (at_ k) = Some (Some tt, at_ (f k)).
Proof. done. Qed.

Lemma length_labels cells S ls L k : rel cells S ls L k -> length ls = length L.
Proof. intros H. eapply Forall2_length, rel_label, H. Qed.

Lemma u32_small x : 0 <= x < 2 ^ 32 - 1 -> u32 x = x.
Proof. intros ?. apply wrap_id. unfold in_u. lia. Qed.

Lemma zget_nat {A} (l : list A) (n : nat) : zget l (Z.of_nat n) = l !! n.
Proof. unfold zget. destruct (Z.ltb_spec (Z.of_nat n) 0); [lia|]. by rewrite Nat2Z.id. Qed.

Lemma rel_no_refs cells S ls L k n : rel cells S ls L k -> (length ls <= n)%nat ->
  positions (is_ref n) base cells = [].
Proof.
  intros H Hn. rewrite <- (rel_refs _ _ _ _ _ H). rewrite lookup_ge_None_2; [done|].
  pose proof (rel_depths _ _ _ _ _ H). lia.
Qed.

(** *** Emitting *)

(** The context after [new] cells, with what the fixup lists must be. *)
Lemma rel_extend cells new S ls L k w ds fs :
  rel cells S ls L k -> mem_rep w (old ++ flat (cells ++ new)) ->
  (length ds <= length ls)%nat ->
  (forall n, default [] (ds !! n) =
     default [] (depth_fixups k !! n) ++ positions (is_ref n) (base + cells_size cells) new) ->
  (forall n, later n -> exists l, func_fixups k !! n = Some l /\
     fs !! n = Some (l ++ positions (is_func_ref n) (base + cells_size cells) new)) ->
  rel (cells ++ new) S ls L
    (mkCode (current_func k) (type_stack k) (label_stack k) fs ds w (base + cells_size (cells ++ new))).
Proof.
  intros [] Hw Hd Hds Hfs. constructor; cbn [current_func type_stack label_stack depth_fixups func_fixups
    istream_writer istream_offset]; try done.
  - intros n. by rewrite Hds, rel_refs0, positions_cells_app.
  - intros n Hn. destruct (Hfs n Hn) as (l & E & ->). rewrite rel_funcs0 in E by done. injection E as <-.
    by rewrite positions_cells_app.
Qed.

Lemma run_emit_data_at k w offset bytes data :
  mem_rep w bytes -> istream_writer k = w -> 0 <= offset <= Z.of_nat (length bytes) ->
  offset + Z.of_nat (length data) < OUTPUT_LIMIT ->
  exists w', emit_data_at offset data (at_ k) = Some (Some tt, at_ (set_istream w' (istream_offset k) k)) /\
    mem_rep w' (overwrite bytes offset data).
Proof.
  intros Hw <- Ho Hl. destruct (write_data_ok (istream_writer k) bytes offset data Hw Ho Hl) as (w' & E & Hw').
  exists w'. split; [|done]. unfold emit_data_at, se_bind at 1, so_bind at 1. rewrite run_get_code.
  rewrite E. reflexivity.
Qed.

Lemma run_emit_data cells S ls L k bs :
  rel cells S ls L k -> size_ok cells S L (Z.of_nat (length bs)) ->
  exists k', emit_data bs (at_ k) = Some (Some tt, at_ k') /\ rel (cells ++ raw bs) S ls L k'.
Proof.
  intros H Hs. unfold size_ok in Hs.
  pose proof (rel_offset _ _ _ _ _ H) as Ho. pose proof (cells_size_nonneg cells) as Hp.
  assert (Z.of_nat (length (old ++ flat cells)) = base + cells_size cells) as Hlen
    by (rewrite length_app; unfold cells_size; lia).
  destruct (run_emit_data_at k (istream_writer k) (istream_offset k) (old ++ flat cells) bs)
    as (w & E & Hw); [apply H|done|lia|unfold OUTPUT_LIMIT; lia|].
  eexists. split.
  - unfold emit_data, se_bind at 1, so_bind at 1. rewrite run_get_code. unfold se_bind, so_bind.
    rewrite E. rewrite run_modify_code. reflexivity.
  - rewrite Ho, <- Hlen, overwrite_end, <- app_assoc in Hw.
    rewrite <- (flat_raw bs), <- flat_app in Hw.
    pose proof (rel_extend cells (raw bs) S ls L k w (depth_fixups k) (func_fixups k) H Hw (rel_depths _ _ _ _ _ H)) as Hr.
    replace (set_istream _ _ _) with (mkCode (current_func k) (type_stack k) (label_stack k) (func_fixups k)
      (depth_fixups k) w (base + cells_size (cells ++ raw bs))).
    + apply Hr.
      * intros n. by rewrite positions_raw, app_nil_r.
      * intros n Hn. rewrite (rel_funcs _ _ _ _ _ H n Hn). eexists. split; [done|].
        by rewrite positions_raw, app_nil_r.
    + unfold set_istream. cbn. f_equal. rewrite Ho, cells_size_app, cells_size_raw. unfold size_of.
      rewrite u32_small; lia.
Qed.

Lemma run_append_fixup v n k : Z.of_nat n < 2 ^ 32 - 2 ->
  exists l', append_fixup v (Z.of_nat n) (at_ k) = Some (Some tt, at_ (put_fixups v l' k)) /\
    (forall m, default [] (l' !! m) = default [] (get_fixups v k !! m) ++
       (if decide (m = n) then [istream_offset k] else [])) /\
    (length l' <= Nat.max (length (get_fixups v k)) (n + 1))%nat /\
    (length (get_fixups v k) <= length l')%nat.
Proof.
  intros Hn. set (l := get_fixups v k).
  set (l1 := if size_of l <=? Z.of_nat n then resize (Z.to_nat (u32 (Z.of_nat n + 1))) [] l else l).
  assert (length l1 = Nat.max (length l) (n + 1)) as Hl1.
  { unfold l1, size_of. destruct (Z.leb_spec (Z.of_nat (length l)) (Z.of_nat n)); [|lia].
    rewrite length_resize, u32_small; lia. }
  assert (forall m, default [] (l1 !! m) = default [] (l !! m)) as Hm.
  { intros m. unfold l1, size_of. destruct (Z.leb_spec (Z.of_nat (length l)) (Z.of_nat n)); [|done].
    rewrite u32_small by lia. replace (Z.to_nat (Z.of_nat n + 1)) with (n + 1)%nat by lia.
    rewrite resize_ge by lia. rewrite lookup_app. destruct (l !! m) eqn:E; [done|].
    destruct (replicate (n + 1 - length l) [] !! (m - length l)%nat) eqn:E'; [|done].
    apply lookup_replicate in E' as [-> _]. done. }
  destruct (lookup_lt_is_Some_2 l1 n) as [x Hx]; [lia|].
  exists (<[n := x ++ [istream_offset k]]> l1). split_and!.
  - unfold append_fixup, se_bind at 1, so_bind at 1. rewrite run_get_code. fold l. fold l1.
    rewrite zget_nat, Hx. cbn [se_lift]. rewrite se_bind_ret. rewrite zset_Some by lia. rewrite Nat2Z.id. done.
  - intros m. rewrite <- Hm. destruct (decide (m = n)) as [->|Hne].
    + rewrite list_lookup_insert_eq by lia. by rewrite Hx.
    + rewrite list_lookup_insert_ne by done. by rewrite app_nil_r.
  - rewrite length_insert. lia.
  - rewrite length_insert. lia.
Qed.

(** A placeholder for a name whose position has been put into [l']. *)
Lemma run_emit_name cells S ls L k v l' x :
  rel cells S ls L k -> size_ok cells S L 4 -> cell_bytes x = placeholder ->
  (length (match v with DEPTH_FIXUPS => l' | FUNC_FIXUPS => depth_fixups k end) <= length ls)%nat ->
  (forall n, default [] (get_fixups DEPTH_FIXUPS (put_fixups v l' k) !! n) =
     default [] (depth_fixups k !! n) ++ (if is_ref n x then [istream_offset k] else [])) ->
  (forall n, later n -> exists l, func_fixups k !! n = Some l /\
     get_fixups FUNC_FIXUPS (put_fixups v l' k) !! n =
       Some (l ++ if is_func_ref n x then [istream_offset k] else [])) ->
  exists k', emit_i32 WASM_INVALID_OFFSET (at_ (put_fixups v l' k)) = Some (Some tt, at_ k') /\
    rel (cells ++ [x]) S ls L k'.
Proof.
  intros H Hs Hx Hlen Hds Hfs. unfold size_ok in Hs.
  pose proof (rel_offset _ _ _ _ _ H) as Ho. pose proof (cells_size_nonneg cells) as Hp.
  assert (Z.of_nat (length (old ++ flat cells)) = base + cells_size cells) as Hsz
    by (rewrite length_app; unfold cells_size; lia).
  set (k1 := put_fixups v l' k).
  assert (istream_writer k1 = istream_writer k /\ istream_offset k1 = istream_offset k) as [Ew Eo] by (by destruct v).
  destruct (run_emit_data_at k1 (istream_writer k) (istream_offset k) (old ++ flat cells) placeholder)
    as (w & E & Hw); [apply H|done|lia|unfold OUTPUT_LIMIT; change (length placeholder) with 4%nat; lia|].
  eexists. split.
  - unfold emit_i32, emit_data, se_bind at 1, so_bind at 1. rewrite run_get_code. unfold se_bind, so_bind.
    fold k1. rewrite Eo. unfold placeholder in E. rewrite E. rewrite run_modify_code. reflexivity.
  - rewrite Ho, <- Hsz, overwrite_end, <- app_assoc in Hw.
    assert (placeholder = flat [x]) as Ex by (unfold flat; cbn; by rewrite app_nil_r, Hx).
    rewrite Ex, <- flat_app in Hw.
    pose proof (rel_extend cells [x] S ls L k w (get_fixups DEPTH_FIXUPS k1) (get_fixups FUNC_FIXUPS k1) H Hw) as Hr.
    assert (cell_size x = 4) as Hx4.
    { rewrite <- length_cell_bytes, Hx. done. }
    replace (set_istream _ _ _) with (mkCode (current_func k) (type_stack k) (label_stack k)
      (get_fixups FUNC_FIXUPS k1) (get_fixups DEPTH_FIXUPS k1) w (base + cells_size (cells ++ [x]))).
    + apply Hr.
      * unfold k1. destruct v; exact Hlen.
      * intros n. unfold k1. rewrite Hds. cbn [positions]. by rewrite app_nil_r, Ho.
      * intros n Hn. destruct (Hfs n Hn) as (l & E1 & E2). exists l. split; [done|]. unfold k1. rewrite E2.
        cbn [positions]. by rewrite app_nil_r, Ho.
    + assert (u32 (istream_offset (set_istream w (istream_offset k1) k1) + size_of (le_bytes 4 WASM_INVALID_OFFSET)) = base + cells_size (cells ++ [x]))
        as ->.
      { change (size_of (le_bytes 4 WASM_INVALID_OFFSET)) with 4.
        cbn [istream_offset set_istream].
        rewrite Eo, Ho, cells_size_app, cells_size_cons, Hx4. change (cells_size []) with 0. rewrite u32_small; lia. }
      unfold k1. by destruct v.
Qed.

Lemma run_emit_ref cells S ls L k n :
  rel cells S ls L k -> size_ok cells S L 4 -> (n < length ls)%nat ->
  exists k', emit_br_offset (Z.of_nat n) WASM_INVALID_OFFSET (at_ k) = Some (Some tt, at_ k') /\
    rel (cells ++ [Ref n]) S ls L k'.
Proof.
  intros H Hs Hn. pose proof (length_labels _ _ _ _ _ H) as Hl.
  destruct (run_append_fixup DEPTH_FIXUPS n k) as (l' & E & Hl' & Hlen & _); [unfold size_ok in Hs;
    pose proof (cells_size_nonneg cells); lia|].
  unfold emit_br_offset. rewrite Z.eqb_refl. unfold se_bind at 1, so_bind at 1. rewrite E.
  apply (run_emit_name cells S ls L); try done.
  - pose proof (rel_depths _ _ _ _ _ H). cbn [get_fixups] in Hlen. lia.
  - intros m. cbn [get_fixups put_fixups set_fixups depth_fixups]. rewrite Hl'. cbn [get_fixups is_ref]. f_equal.
    by destruct (decide (m = n)) as [->|]; [rewrite bool_decide_true|rewrite bool_decide_false by congruence].
  - intros m Hm. rewrite (rel_funcs _ _ _ _ _ H m Hm). eexists. split; [done|].
    cbn. rewrite app_nil_r. apply (rel_funcs _ _ _ _ _ H m Hm).
Qed.

Lemma run_emit_func_ref cells S ls L k n :
  rel cells S ls L k -> size_ok cells S L 4 -> later n -> Z.of_nat n < 2 ^ 32 - 2 ->
  exists k1 k', append_fixup FUNC_FIXUPS (Z.of_nat n) (at_ k) = Some (Some tt, at_ k1) /\
    emit_i32 WASM_INVALID_OFFSET (at_ k1) = Some (Some tt, at_ k') /\
    rel (cells ++ [FuncRef n]) S ls L k'.
Proof.
  intros H Hs Hn Hsmall.
  destruct (run_append_fixup FUNC_FIXUPS n k) as (l' & E & Hl' & _ & Hlen); [done|].
  destruct (run_emit_name cells S ls L k FUNC_FIXUPS l' (FuncRef n) H Hs) as (k' & E' & H'); try done.
  - apply H.
  - intros m. cbn. by rewrite app_nil_r.
  - intros m Hm. pose proof (rel_funcs _ _ _ _ _ H m Hm) as Em. rewrite Em. eexists. split; [done|].
    cbn [get_fixups put_fixups set_fixups func_fixups is_func_ref].
    pose proof (Hl' m) as Hl'm. cbn [get_fixups] in Hl'm, Hlen. rewrite Em in Hl'm. cbn [default] in Hl'm.
    destruct (lookup_lt_is_Some_2 l' m) as [x Hx]; [apply lookup_lt_Some in Em; lia|].
    rewrite Hx in Hl'm |- *. cbn in Hl'm. rewrite Hl'm. do 2 f_equal.
    by destruct (decide (m = n)) as [->|]; [rewrite bool_decide_true|rewrite bool_decide_false by congruence].
  - exists (put_fixups FUNC_FIXUPS l' k), k'. done.
Qed.

(** *** Patching *)

(** Code of the same size with the same names. *)
Lemma rel_recode cells cells' S ls L k w ds fs :
  rel cells S ls L k -> mem_rep w (old ++ flat cells') -> cells_size cells' = cells_size cells ->
  (length ds <= length ls)%nat ->
  (forall n, default [] (ds !! n) = positions (is_ref n) base cells') ->
  (forall n, later n -> fs !! n = Some (positions (is_func_ref n) base cells')) ->
  rel cells' S ls L
    (mkCode (current_func k) (type_stack k) (label_stack k) fs ds w (istream_offset k)).
Proof. intros [] Hw Hs Hl Hd Hf. constructor; try done. cbn. lia. Qed.

Lemma run_patch pre b4 post S ls L k v :
  rel (pre ++ raw b4 ++ post) S ls L k -> length b4 = 4%nat -> size_ok (pre ++ raw b4 ++ post) S L 0 ->
  exists k', emit_i32_at (base + cells_size pre) v (at_ k) = Some (Some tt, at_ k') /\
    rel (pre ++ raw (le_bytes 4 v) ++ post) S ls L k'.
Proof.
  intros H H4 Hs. unfold size_ok in Hs. rewrite !cells_size_app, cells_size_raw in Hs.
  pose proof (cells_size_nonneg pre). pose proof (cells_size_nonneg post).
  destruct (run_emit_data_at k (istream_writer k) (base + cells_size pre)
    (old ++ flat (pre ++ raw b4 ++ post)) (le_bytes 4 v)) as (w & E & Hw); [apply H|done| |
    unfold OUTPUT_LIMIT; rewrite length_le_bytes; lia|].
  { rewrite length_app, flat_app, length_app. unfold cells_size. lia. }
  exists (set_istream w (istream_offset k) k). split; [exact E|].
  rewrite !flat_app, flat_raw in Hw.
  assert (base + cells_size pre = Z.of_nat (length (old ++ flat pre))) as Ep
    by (rewrite length_app; unfold cells_size; lia).
  rewrite Ep, app_assoc, overwrite_middle, <- app_assoc in Hw by (by rewrite length_le_bytes, H4).
  assert (forall name, proper name ->
    positions name base (pre ++ raw (le_bytes 4 v) ++ post) = positions name base (pre ++ raw b4 ++ post)) as Hpos.
  { intros name Hn. rewrite !positions_cells_app, !positions_raw, !cells_size_raw, length_le_bytes, H4 by done. done. }
  apply (rel_recode _ _ _ _ _ k w (depth_fixups k) (func_fixups k) H).
  - by rewrite !flat_app, flat_raw.
  - by rewrite !cells_size_app, !cells_size_raw, length_le_bytes, H4.
  - apply H.
  - intros n. rewrite Hpos by done. apply H.
  - intros n Hn. rewrite Hpos by done. by apply H.
Qed.

(** All occurrences of a name. *)
Lemma run_fixups name v bytes cells k : proper name ->
  mem_rep (istream_writer k) (bytes ++ flat cells) ->
  Z.of_nat (length bytes) + cells_size cells < OUTPUT_LIMIT ->
  exists w, se_for (fun p => emit_i32_at p v) (positions name (Z.of_nat (length bytes)) cells) (at_ k) =
      Some (Some tt, at_ (set_istream w (istream_offset k) k)) /\
    mem_rep w (bytes ++ flat (resolve_cells name v cells)).
Proof.
  intros Hn. revert bytes k. induction cells as [|x cells IH]; intros bytes k Hw Hs.
  { exists (istream_writer k). split; [by destruct k|done]. }
  rewrite cells_size_cons in Hs. pose proof (cells_size_nonneg cells).
  assert (flat (x :: cells) = cell_bytes x ++ flat cells) as Ef by done.
  rewrite Ef in Hw. cbn [positions]. rewrite resolve_cons, flat_app. unfold resolve_cell.
  pose proof (length_cell_bytes x) as Hx.
  destruct (name x) eqn:Ex; cbn [app].
  - assert (cell_size x = 4) as Hx4 by (destruct x; [by rewrite Hn in Ex|done|done]).
    destruct (run_emit_data_at k (istream_writer k) (Z.of_nat (length bytes))
      (bytes ++ cell_bytes x ++ flat cells) (le_bytes 4 v)) as (w & E & Hw'); [done|done| |
      rewrite length_le_bytes; lia|]; [rewrite !length_app; lia|].
    rewrite overwrite_middle in Hw' by (rewrite length_le_bytes; lia).
    rewrite app_assoc in Hw'.
    destruct (IH (bytes ++ le_bytes 4 v) (set_istream w (istream_offset k) k)) as (w' & E' & Hw''); [done| |].
    { rewrite length_app, length_le_bytes. lia. }
    exists w'. rewrite flat_raw, app_assoc. split; [|done].
    cbn [se_for]. unfold se_bind at 1, so_bind at 1. unfold emit_i32_at at 1. rewrite E.
    transitivity (Some (Some tt, at_ (set_istream w' (istream_offset (set_istream w (istream_offset k) k))
      (set_istream w (istream_offset k) k)))); [|done].
    rewrite <- E'. do 2 f_equal. rewrite length_app, length_le_bytes. lia.
  - rewrite app_assoc in Hw.
    destruct (IH (bytes ++ cell_bytes x) k) as (w' & E' & Hw''); [done|rewrite length_app; lia|].
    exists w'. split.
    + rewrite <- E'. do 2 f_equal. rewrite length_app. lia.
    + replace (flat [x]) with (cell_bytes x) by (unfold flat; cbn; by rewrite app_nil_r). by rewrite app_assoc.
Qed.

Lemma run_fixup_top cells S l ls L k v :
  rel cells S (l :: ls) L k -> size_ok cells S L 0 ->
  exists k', fixup_top_label v (at_ k) = Some (Some tt, at_ k') /\
    rel (resolve_cells (is_ref (length ls)) v cells) S (l :: ls) L k'.
Proof.
  intros H Hs. pose proof (length_labels _ _ _ _ _ H) as Hl. unfold size_ok in Hs. cbn [length] in Hl.
  pose proof (cells_size_nonneg cells). set (n := length ls) in *.
  assert (forall ds w, (length ds <= length (l :: ls))%nat ->
    (forall m, default [] (ds !! m) = if decide (m = n) then [] else default [] (depth_fixups k !! m)) ->
    mem_rep w (old ++ flat (resolve_cells (is_ref n) v cells)) ->
    rel (resolve_cells (is_ref n) v cells) S (l :: ls) L
      (mkCode (current_func k) (type_stack k) (label_stack k) (func_fixups k) ds w (istream_offset k))) as Hrel.
  { intros ds w Hds Hm Hw. apply (rel_recode _ _ _ _ _ k w ds (func_fixups k) H); [done| |done| |].
    - by apply cells_size_resolve.
    - intros m. rewrite Hm. destruct (decide (m = n)) as [->|Hne].
      + by rewrite positions_resolved.
      + rewrite positions_resolve; [apply H|done|done|]. intros x. apply is_ref_other. congruence.
    - intros m Hm'. rewrite positions_resolve by eauto with cells. by apply H. }
  assert (u32 (size_of (label_stack k) - 1) = Z.of_nat n) as Etop.
  { rewrite (rel_labels _ _ _ _ _ H). unfold size_of. cbn [length]. fold n. rewrite u32_small; lia. }
  pose proof (rel_refs _ _ _ _ _ H n) as Hn. pose proof (rel_depths _ _ _ _ _ H) as Hd. cbn [length] in Hd.
  unfold fixup_top_label, se_bind at 1, so_bind at 1. rewrite run_get_code, Etop. unfold size_of.
  destruct (Z.leb_spec (Z.of_nat (length (depth_fixups k))) (Z.of_nat n)).
  - exists k. split; [done|]. rewrite lookup_ge_None_2 in Hn by lia. cbn in Hn.
    rewrite (resolve_none _ _ base) by done. done.
  - destruct (lookup_lt_is_Some_2 (depth_fixups k) n) as [x Hx]; [lia|]. rewrite Hx in Hn. cbn in Hn. subst x.
    destruct (run_fixups (is_ref n) v old cells k) as (w & E & Hw); [done|apply H|unfold OUTPUT_LIMIT; lia|].
    eexists. split.
    + rewrite zget_nat, Hx. cbn [se_lift]. rewrite se_bind_ret. unfold se_bind at 1, so_bind at 1. rewrite E.
      rewrite zset_Some by lia. rewrite Nat2Z.id. cbn [se_lift]. rewrite se_bind_ret. reflexivity.
    + apply Hrel; [|intros m|done].
      * rewrite length_insert. cbn [length]. lia.
      * destruct (decide (m = n)) as [->|]; [by rewrite list_lookup_insert_eq by lia|].
        by rewrite list_lookup_insert_ne.
Qed.

(** *** The type stack *)

Section types.
Context (cells : list Cell) (S : Types) (l : Label) (ls : list Label) (r : RLabel) (L : list RLabel)
  (k : CodeContext) (H : rel cells S (l :: ls) (r :: L) k) (Hs : size_ok cells S (r :: L) 0).

Lemma rel_set_types S' : chain (t_locals T) S' (r :: L) ->
  rel cells S' (l :: ls) (r :: L) (set_type_stack S' k).
Proof. intros Hc. destruct H. by constructor. Qed.

Lemma rel_same_types : set_type_stack S k = k.
Proof. destruct H, k. cbn in *. by subst. Qed.

Lemma run_get_label n l' : (l :: ls) !! n = Some l' ->
  get_label (Z.of_nat (length ls) - Z.of_nat n) (at_ k) = Some (Some l', at_ k).
Proof.
  intros Hn. pose proof (lookup_lt_Some _ _ _ Hn) as Hlt. cbn [length] in Hlt.
  unfold get_label, se_bind at 1, so_bind at 1. rewrite run_get_code, (rel_labels _ _ _ _ _ H).
  unfold size_of. cbn [length]. rewrite (proj2 (Z.ltb_lt _ _)) by lia. cbn [se_assert]. rewrite se_bind_ret.
  replace (Z.of_nat (Datatypes.S (length ls)) - 1 - (Z.of_nat (length ls) - Z.of_nat n)) with (Z.of_nat n) by lia.
  by rewrite zget_nat, Hn.
Qed.

Lemma run_top_label : top_label (at_ k) = Some (Some l, at_ k).
Proof.
  unfold top_label, se_bind at 1, so_bind at 1. rewrite run_get_code, (rel_labels _ _ _ _ _ H).
  pose proof (length_labels _ _ _ _ _ H) as Hl. cbn [length] in Hl. unfold size_ok in Hs. cbn [length] in Hs.
  pose proof (cells_size_nonneg cells). unfold size_of. cbn [length].
  rewrite u32_small by lia. rewrite <- (run_get_label 0 l) by done. f_equal. lia.
Qed.

Lemma run_current_func : get_func_by_env_index cur (at_ k) = Some (zget (env_funcs (ctx_env c0)) cur, at_ k).
Proof. destruct (st_func _ _ _ _ Hst) as (si & o & n & m & ps & E & _).
  unfold get_func_by_env_index, se_bind, so_bind, get_env. cbn. by rewrite E. Qed.

Lemma run_current_types : current_func_types (at_ k) = Some (Some (t_locals T), at_ k).
Proof.
  unfold current_func_types, se_bind at 1, so_bind at 1. rewrite run_get_code, (rel_func _ _ _ _ _ H).
  cbn [se_lift]. rewrite se_bind_ret. unfold se_bind, so_bind. rewrite run_current_func.
  destruct (st_func _ _ _ _ Hst) as (si & o & n & m & ps & E & _). by rewrite E.
Qed.

Lemma run_any : top_type_is_any (at_ k) = Some (Some (dead S), at_ k).
Proof.
  unfold top_type_is_any, se_bind at 1, so_bind at 1. rewrite run_current_types.
  unfold se_bind at 1, so_bind at 1. rewrite run_get_code, (rel_types _ _ _ _ _ H). unfold size_of.
  destruct (chain_locals _ _ _ (rel_chain _ _ _ _ _ H)) as [p Hp].
  assert (dead (rev (t_locals T)) = false) as Hd.
  { apply all_values_dead, Forall_rev, (st_locals _ _ _ _ Hst). }
  destruct (Z.ltb_spec (Z.of_nat (length (t_locals T))) (Z.of_nat (length S))) as [Hlt|Hge].
  - unfold dead. destruct S as [|t S']; [cbn in Hlt; lia|]. cbn. do 3 f_equal.
    destruct (decide (t = WASM_TYPE_ANY)); [by rewrite !bool_decide_true by congruence|
      by rewrite !bool_decide_false by congruence].
  - destruct p as [|t p]; [|rewrite Hp in Hge; cbn in Hge; rewrite length_app, length_rev in Hge; lia].
    rewrite Hp. cbn [app]. by rewrite Hd.
Qed.

Lemma run_unless_dead m : dead S = true -> unless_top_type_is_any m (at_ k) = Some (Some tt, at_ k).
Proof. intros Hd. unfold unless_top_type_is_any, se_bind, so_bind. by rewrite run_any, Hd. Qed.

Lemma run_unless_alive m : dead S = false -> unless_top_type_is_any m (at_ k) = m (at_ k).
Proof. intros Hd. unfold unless_top_type_is_any, se_bind, so_bind. by rewrite run_any, Hd. Qed.

Lemma entry_length : (length (rl_entry r) <= length S)%nat.
Proof. apply suffix_length, (chain_entry (t_locals T) S r L), H. Qed.

Lemma label_of : label_rel l r.
Proof. pose proof (rel_label _ _ _ _ _ H) as Hl. by inversion Hl. Qed.

Lemma loader_avail : avail (at_ k) = Some (Some (Z.of_nat (above (rl_entry r) S)), at_ k).
Proof.
  unfold avail, type_stack_limit, se_bind at 1, so_bind at 1. unfold se_bind at 1, so_bind at 1.
  rewrite run_top_label. cbn [se_ret so_ret]. unfold type_stack_size, se_bind, so_bind.
  rewrite run_get_code. cbn [se_ret so_ret]. destruct label_of as (_ & -> & _).
  rewrite (rel_types _ _ _ _ _ H). pose proof entry_length. unfold above, size_of.
  unfold size_ok in Hs. pose proof (cells_size_nonneg cells).
  rewrite wrap_id by (unfold in_u; zpow; lia). unfold se_ret, so_ret. do 3 f_equal. lia.
Qed.

Lemma loader_check_limit n : check_type_stack_limit (Z.of_nat n) (at_ k) =
  Some (if negb (dead S) && (above (rl_entry r) S <? n)%nat then None else Some tt, at_ k).
Proof.
  unfold check_type_stack_limit. destruct (dead S) eqn:Hd; cbn [negb andb].
  - by apply run_unless_dead.
  - rewrite run_unless_alive by done. unfold se_bind, so_bind. rewrite loader_avail.
    destruct (Nat.ltb_spec (above (rl_entry r) S) n);
      destruct (Z.ltb_spec (Z.of_nat (above (rl_entry r) S)) (Z.of_nat n)); try lia; done.
Qed.

Lemma run_check_limit_exact n : check_type_stack_limit_exact (Z.of_nat n) (at_ k) =
  Some (if negb (dead S) && negb (above (rl_entry r) S =? n)%nat then None else Some tt, at_ k).
Proof.
  unfold check_type_stack_limit_exact. destruct (dead S) eqn:Hd; cbn [negb andb].
  - by apply run_unless_dead.
  - rewrite run_unless_alive by done. unfold se_bind, so_bind. rewrite loader_avail.
    destruct (Nat.eqb_spec (above (rl_entry r) S) n);
      destruct (Z.eqb_spec (Z.of_nat (above (rl_entry r) S)) (Z.of_nat n)); try lia; done.
Qed.

Lemma run_check_type t a : check_type t a (at_ k) =
  Some (if negb (dead S) && negb (bool_decide (t = a)) then None else Some tt, at_ k).
Proof.
  unfold check_type. destruct (dead S) eqn:Hd; cbn [negb andb].
  - by apply run_unless_dead.
  - rewrite run_unless_alive by done. by destruct (bool_decide (t = a)).
Qed.

Lemma sim_expect types : (length types <= 1)%nat ->
  sim (check_n_types types) k (expect (rl_entry r) types S) (fun _ _ k' => k' = k).
Proof.
  intros Hl. unfold check_n_types, expect. destruct (dead S) eqn:Hd.
  { apply (sim_ok _ k k tt); [by apply run_unless_dead|done]. }
  cbn [negb andb]. pose proof (loader_check_limit (length types)) as Hlim. rewrite Hd in Hlim. cbn [negb andb] in Hlim.
  apply (sim_eq _ _ _ _ _ (run_unless_alive _ Hd)).
  destruct (Nat.ltb_spec (above (rl_entry r) S) (length types)) as [|Hge]; cbn [orb reject_if].
  { by eapply sim_step_error. }
  eapply sim_step; [exact Hlim|]. eapply sim_step; [apply run_get_code|].
  rewrite (rel_types _ _ _ _ _ H). pose proof entry_length. unfold above in Hge.
  destruct types as [|t [|]]; [by apply (sim_ok _ k k tt)| |cbn in Hl; lia].
  assert (exists a S', S = a :: S') as (a & S' & ES) by (destruct S; [cbn in Hge; lia|eauto]).
  pose proof (run_check_type t a) as Hc. rewrite Hd in Hc. cbn [negb andb] in Hc. rewrite ES. cbn.
  apply (sim_eq _ (check_type t a)).
  { unfold se_bind, so_bind. cbn. by destruct (check_type t a (at_ k)) as [[[[]|] ?]|]. }
  destruct (decide (t = a)) as [->|Hne].
  - rewrite bool_decide_true in Hc |- * by done. by apply (sim_ok _ k k tt).
  - rewrite bool_decide_false in Hc |- * by congruence. by eapply sim_error.
Qed.

Lemma run_top_type : (length (rl_entry r) < length S)%nat -> top_type (at_ k) = Some (head S, at_ k).
Proof.
  intros Hlt. unfold top_type, se_bind at 1, so_bind at 1. rewrite run_top_label.
  unfold se_bind at 1, so_bind at 1. rewrite run_get_code, (rel_types _ _ _ _ _ H).
  destruct label_of as (_ & -> & _). unfold size_of. rewrite (proj2 (Z.ltb_lt _ _)) by lia.
  cbn [se_assert]. rewrite se_bind_ret. destruct (head S) eqn:E; [done|].
  apply head_None in E. rewrite E in Hlt. cbn in Hlt. lia.
Qed.

Lemma run_top_type_crash : (length S <= length (rl_entry r))%nat -> top_type (at_ k) = None.
Proof.
  intros Hle. unfold top_type, se_bind at 1, so_bind at 1. rewrite run_top_label.
  unfold se_bind at 1, so_bind at 1. rewrite run_get_code, (rel_types _ _ _ _ _ H).
  destruct label_of as (_ & -> & _). unfold size_of. by rewrite (proj2 (Z.ltb_ge _ _)) by lia.
Qed.

Lemma run_pop_crash : (length S <= length (rl_entry r))%nat -> pop_type (at_ k) = None.
Proof. intros Hle. unfold pop_type, se_bind at 1, so_bind at 1. by rewrite run_top_type_crash. Qed.

Lemma run_pop_dead : dead S = true -> (length (rl_entry r) < length S)%nat ->
  pop_type (at_ k) = Some (Some WASM_TYPE_ANY, at_ k).
Proof.
  intros Hd Hlt. unfold pop_type, se_bind at 1, so_bind at 1. rewrite run_top_type by done.
  unfold dead in Hd. apply bool_decide_eq_true in Hd as ->. done.
Qed.

Lemma run_pop_alive t S' : S = t :: S' -> dead S = false -> (length (rl_entry r) < length S)%nat ->
  pop_type (at_ k) = Some (Some t, at_ (set_type_stack S' k)) /\
  rel cells S' (l :: ls) (r :: L) (set_type_stack S' k) /\ dead S' = false.
Proof.
  intros ES Hd Hlt. split_and!.
  - unfold pop_type, se_bind at 1, so_bind at 1. rewrite run_top_type by done. rewrite ES in Hd |- *. cbn [head].
    unfold dead in Hd. apply bool_decide_eq_false in Hd. rewrite bool_decide_false by (cbn in Hd; congruence).
    unfold se_bind, so_bind. rewrite run_modify_code, (rel_types _ _ _ _ _ H), ES. done.
  - apply rel_set_types. pose proof (chain_drop (t_locals T) S r L 1 (rel_chain _ _ _ _ _ H) Hd) as Hc.
    rewrite ES in Hc at 2. apply Hc. unfold above. lia.
  - apply all_values_dead. assert (all_values S) as Hn by (apply dead_false; [eapply chain_clean, H|done]).
    rewrite ES in Hn. by inversion Hn.
Qed.
End types.

(** Results of pops. *)
Abbreviation popped cells ls L := (fun S' _ k' => rel cells S' ls L k').

Lemma size_ok_shorter cells S S' L m : size_ok cells S L m -> (length S' <= length S)%nat -> size_ok cells S' L m.
Proof. unfold size_ok. lia. Qed.

Lemma alive_cons cells S ls r L k : rel cells S ls (r :: L) k ->
  (length (rl_entry r) < length S)%nat -> exists t S', S = t :: S'.
Proof. intros _ Hl. destruct S; [cbn in Hl; lia|eauto]. Qed.

(** Popping the values one by one, the last first. *)
Lemma sim_pop_list ts cells S l ls r L k :
  rel cells S (l :: ls) (r :: L) k -> size_ok cells S (r :: L) 0 -> dead S = false ->
  (length ts <= above (rl_entry r) S)%nat ->
  sim (se_for (fun type => arg <- pop_type ;; check_type type arg)%se ts) k
    (if bool_decide (take (length ts) S = ts) then Ok (drop (length ts) S) else Rejected)
    (fun S' _ k' => rel cells S' (l :: ls) (r :: L) k').
Proof.
  revert S k. induction ts as [|t ts IH]; intros S k H Hs Hd Hlen.
  { rewrite bool_decide_true by done. by apply (sim_ok _ k k tt). }
  cbn [length] in Hlen. unfold above in Hlen.
  destruct (alive_cons _ _ _ _ _ _ H) as (a & S' & ES); [lia|].
  destruct (run_pop_alive _ _ _ _ _ _ _ H Hs a S' ES Hd) as (Ep & H' & Hd'); [lia|].
  assert (size_ok cells S' (r :: L) 0) as Hs' by (eapply size_ok_shorter; [done|rewrite ES; cbn; lia]).
  cbn [se_for]. eapply sim_eq; [apply se_bind_assoc|]. eapply sim_step; [exact Ep|].
  pose proof (run_check_type _ _ _ _ _ _ _ H' Hs' t a) as Hc. rewrite Hd' in Hc. cbn [negb andb] in Hc.
  rewrite ES. cbn [length take drop].
  destruct (decide (t = a)) as [->|Hne].
  - rewrite bool_decide_true in Hc by done. eapply sim_step; [exact Hc|].
    rewrite (bool_decide_ext (a :: take (length ts) S' = a :: ts) (take (length ts) S' = ts))
      by (split; congruence).
    apply IH; [done..|]. rewrite ES in Hlen. cbn in Hlen. unfold above. lia.
  - rewrite bool_decide_false in Hc by done. rewrite bool_decide_false by congruence.
    by eapply sim_step_error.
Qed.

Section pops.
Context (cells : list Cell) (S : Types) (l : Label) (ls : list Label) (r : RLabel) (L : list RLabel)
  (k : CodeContext) (H : rel cells S (l :: ls) (r :: L) k) (Hs : size_ok cells S (r :: L) 0).

Lemma sim_pop1 t : sim (pop_and_check_1_type t) k (pops (rl_entry r) [t] S) (popped cells (l :: ls) (r :: L)).
Proof.
  unfold pop_and_check_1_type, pops, expect. destruct (dead S) eqn:Hd.
  { apply (sim_ok _ k k tt); [by eapply run_unless_dead|done]. }
  apply (sim_eq _ _ _ _ _ (run_unless_alive _ _ _ _ _ _ _ H Hs _ Hd)).
  pose proof (loader_check_limit _ _ _ _ _ _ _ H Hs 1) as Hlim. rewrite Hd in Hlim. cbn [negb andb length] in Hlim |- *.
  destruct (Nat.ltb_spec (above (rl_entry r) S) 1) as [|Hge]; cbn [orb reject_if res_bind];
    [by eapply sim_step_error|]. eapply sim_step; [exact Hlim|].
  pose proof (sim_pop_list [t] _ _ _ _ _ _ _ H Hs Hd Hge) as Hp. cbn [se_for rev app length] in Hp |- *.
  destruct (bool_decide (take 1 S = [t])); cbn [negb reject_if res_bind];
    (eapply sim_eq; [|exact Hp]); unfold se_bind, so_bind;
    (destruct (pop_type (at_ k)) as [[[a|] s]|]; [|done|done]);
    by destruct (check_type t a s) as [[[[]|] s']|].
Qed.

Lemma sim_pops_each ts : sim (check_type_stack_limit (size_of ts) ;; pop_params ts)%se k
  (pops_each (rl_entry r) ts S) (popped cells (l :: ls) (r :: L)).
Proof.
  unfold pop_params, pops_each, pops, expect, size_of.
  pose proof (loader_check_limit _ _ _ _ _ _ _ H Hs (length ts)) as Hlim. destruct (dead S) eqn:Hd; cbn [negb andb] in *.
  - eapply sim_step; [exact Hlim|]. destruct (Nat.leb_spec (length S) (length (rl_entry r))) as [Hle|Hgt].
    + destruct ts as [|t ts _] using rev_ind; [by apply (sim_ok _ k k tt)|].
      rewrite rev_app_distr, length_app. cbn [rev app length se_for].
      rewrite (proj2 (Nat.ltb_lt _ _)) by lia. cbn [andb crash_if res_bind].
      eapply sim_eq; [apply se_bind_assoc|]. apply sim_step_crash. by eapply run_pop_crash.
    + rewrite andb_false_r. cbn [crash_if res_bind]. apply (sim_ok _ k k tt); [|done].
      induction (rev ts) as [|t ts' IH]; [done|]. cbn [se_for]. rewrite se_bind_assoc.
      unfold se_bind at 1, so_bind at 1. erewrite run_pop_dead by done.
      unfold se_bind at 1, so_bind at 1. erewrite run_check_type by done. rewrite Hd. exact IH.
  - cbn [crash_if res_bind].
    destruct (Nat.ltb_spec (above (rl_entry r) S) (length ts)) as [|Hge]; cbn [orb reject_if res_bind].
    { by eapply sim_step_error. }
    eapply sim_step; [exact Hlim|].
    pose proof (sim_pop_list (rev ts) _ _ _ _ _ _ _ H Hs Hd) as Hp. rewrite length_rev in Hp.
    specialize (Hp Hge). by destruct (bool_decide (take (length ts) S = rev ts)).
Qed.
End pops.

(** ** Callbacks *)

(** Code after [cells]. *)
Definition gives (cells : list Cell) (ls : list Label) (L : list RLabel) {A} (p : list Cell * Types) (_ : A)
    (k : CodeContext) : Prop := rel (cells ++ fst p) (snd p) ls L k.

(** A step that cannot fail. *)
Lemma sim_does {A' B'} (m : IM unit) (f : unit -> IM A') k c S ls L (r : Res B') Q :
  (exists k', m (at_ k) = Some (Some tt, at_ k') /\ rel c S ls L k') ->
  (forall k', rel c S ls L k' -> sim (f tt) k' r Q) -> sim (se_bind m f) k r Q.
Proof. intros (k' & E & H) Hf. eapply sim_step; [exact E|by apply Hf]. Qed.

Lemma sim_done (m : IM unit) k c c' S S' cells ls L :
  (exists k', m (at_ k) = Some (Some tt, at_ k') /\ rel c S ls L k') -> c = cells ++ c' -> S = S' ->
  sim m k (Ok (c', S')) (gives cells ls L).
Proof. intros (k' & E & H) -> ->. by eapply sim_ok. Qed.

(** A run of a computation that follows the stack. *)
Lemma sim_run {A A' B B'} (m : IM A) (f : A -> IM A') k (r : Res B) (g : B -> Res B') Q Q' :
  sim m k r Q -> (forall a b k', Q b a k' -> sim (f a) k' (g b) Q') -> sim (se_bind m f) k (res_bind r g) Q'.
Proof. apply sim_bind. Qed.

Ltac size_nonneg c :=
  lazymatch goal with Hc : 0 <= cells_size c |- _ => fail | _ => pose proof (cells_size_nonneg c) end.
Ltac size := unfold size_ok in *; autorewrite with cells in *; cbn [length app] in *;
  repeat match goal with
  | |- context [cells_size ?c] => size_nonneg c
  | _ : context [cells_size ?c] |- _ => size_nonneg c
  end; lia.

Section callbacks.
Context (cells : list Cell) (S : Types) (l : Label) (ls : list Label) (r : RLabel) (L : list RLabel)
  (k : CodeContext) (H : rel cells S (l :: ls) (r :: L) k).

Abbreviation goes m cells' S' := (exists k', m (at_ k) = Some (Some tt, at_ k') /\ rel cells' S' (l :: ls) (r :: L) k').

Lemma run_opcode op : size_ok cells S (r :: L) 1 -> goes (emit_opcode op) (cells ++ [opcode_cell op]) S.
Proof. intros Hs. by apply (run_emit_data _ _ _ _ _ [interp_opcode_code op]). Qed.

Lemma run_i32 v : size_ok cells S (r :: L) 4 -> goes (emit_i32 v) (cells ++ u32_cells v) S.
Proof. intros Hs. apply run_emit_data; [done|by rewrite length_le_bytes]. Qed.

Lemma run_i64 v : size_ok cells S (r :: L) 8 -> goes (emit_i64 v) (cells ++ u64_cells v) S.
Proof. intros Hs. apply run_emit_data; [done|by rewrite length_le_bytes]. Qed.

Lemma run_i8 v : size_ok cells S (r :: L) 1 -> 0 <= v < 256 -> goes (emit_i8 v) (cells ++ [Byte v]) S.
Proof.
  intros Hs Hv. unfold emit_i8. rewrite wrap_id by (unfold in_u; zpow; lia).
  by apply (run_emit_data _ _ _ _ _ [v]).
Qed.

Lemma run_push_type t : size_ok cells S (r :: L) 0 -> t <> WASM_TYPE_ANY ->
  goes (push_type t) cells (pushes [t] S).
Proof.
  intros Hs Ht. unfold push_type, pushes. destruct (dead S) eqn:Hd.
  { exists k. split; [by eapply run_unless_dead|done]. }
  erewrite run_unless_alive by done. destruct (decide (t = WASM_TYPE_VOID)) as [->|Hv].
  - rewrite bool_decide_true by done. rewrite filter_cons_False by auto. by exists k.
  - rewrite bool_decide_false by done. rewrite filter_cons_True by done. cbn [filter list_filter rev app].
    exists (set_type_stack (t :: S) k). split.
    + unfold append_type. by rewrite run_modify_code, (rel_types _ _ _ _ _ H).
    + eapply rel_set_types; [done|]. apply (chain_push _ _ _ _ [t]); [apply H|done|by repeat constructor].
Qed.

Lemma loader_push_types ts : size_ok cells S (r :: L) 0 -> all_values ts -> (length ts <= 1)%nat ->
  goes (push_types ts) cells (pushes ts S).
Proof.
  intros Hs Ha Hl. unfold push_types. destruct (dead S) eqn:Hd.
  { exists k. unfold pushes. rewrite Hd. split; [by eapply run_unless_dead|done]. }
  erewrite run_unless_alive by done. destruct ts as [|t [|]]; [|inversion_clear Ha as [|? ? []]|cbn in Hl; lia].
  - exists k. unfold pushes. rewrite Hd. done.
  - destruct (run_push_type t Hs) as (k' & E & H'); [done|]. exists k'. split; [|done].
    cbn [se_for]. unfold se_bind at 1, so_bind at 1. by rewrite E.
Qed.

Lemma loader_reset : size_ok cells S (r :: L) 0 ->
  goes reset_type_stack_to_limit cells (rl_entry r).
Proof.
  intros Hs. pose proof (chain_entry _ _ _ _ (rel_chain _ _ _ _ _ H)) as [p Hp].
  exists (set_type_stack (rl_entry r) k). split.
  - unfold reset_type_stack_to_limit, type_stack_limit, se_bind at 1, so_bind at 1.
    unfold se_bind at 1, so_bind at 1. erewrite run_top_label by done. cbn [se_ret so_ret].
    unfold set_type_stack_size, se_bind at 1, so_bind at 1. rewrite run_get_code, (rel_types _ _ _ _ _ H).
    assert (label_rel l r) as (_ & -> & _) by (by eapply label_of).
    unfold size_of. rewrite Hp at 1. rewrite length_app. rewrite (proj2 (Z.leb_le _ _)) by lia.
    cbn [se_assert]. rewrite se_bind_ret. rewrite run_modify_code. do 4 f_equal. rewrite Nat2Z.id, Hp at 1.
    rewrite length_app. rewrite Hp at 1. by rewrite drop_app_length' by lia.
  - eapply rel_set_types; [done|]. apply (chain_change _ S); [apply H| |done].
    destruct (rel_chain _ _ _ _ _ H) as (_ & _ & Hc). by eapply chain_clean.
Qed.
End callbacks.

Lemma run_drop_keep cells' S l ls r L drop keep k' : rel cells' S (l :: ls) (r :: L) k' -> size_ok cells' S (r :: L) 6 ->
  (keep <= 1)%nat -> Z.of_nat drop < 2 ^ 32 - 1 ->
  exists k2, emit_drop_keep (Z.of_nat drop) (Z.of_nat keep) (at_ k') = Some (Some tt, at_ k2) /\
    rel (cells' ++ drop_keep drop keep) S (l :: ls) (r :: L) k2.
Proof.
  intros H' Hs' Hk Hd. unfold emit_drop_keep, drop_keep. rewrite wrap_id by (unfold in_u; zpow; lia).
  unfold UINT32_MAX. rewrite (proj2 (Z.eqb_neq _ _)) by lia. rewrite (proj2 (Z.leb_le _ 1)) by lia.
  cbn [negb se_assert]. rewrite !se_bind_ret. destruct drop as [|drop].
  { exists k'. by rewrite app_nil_r. }
  rewrite (proj2 (Z.ltb_lt 0 _)) by lia.
  assert ((Z.of_nat (Datatypes.S drop) =? 1) = (Datatypes.S drop =? 1)%nat) as -> by
    (destruct drop; [done|rewrite (proj2 (Z.eqb_neq _ _)); [done|lia]]).
  assert ((Z.of_nat keep =? 0) = (keep =? 0)%nat) as -> by (by destruct keep).
  destruct ((Datatypes.S drop =? 1)%nat && (keep =? 0)%nat).
  { eapply run_opcode; [done|size]. }
  destruct (run_opcode _ _ _ _ _ _ _ H' WASM_OPCODE_DROP_KEEP) as (k1 & E1 & H1); [size|].
  destruct (run_i32 _ _ _ _ _ _ _ H1 (Z.of_nat (Datatypes.S drop))) as (k2 & E2 & H2); [size|].
  destruct (run_i8 _ _ _ _ _ _ _ H2 (Z.of_nat keep)) as (k3 & E3 & H3); [size|lia|].
  exists k3. split; [|by rewrite <- !app_assoc in H3].
  unfold se_bind at 1, so_bind at 1. rewrite E1. unfold se_bind, so_bind. by rewrite E2.
Qed.

Section callbacks2.
Context (cells : list Cell) (S : Types) (l : Label) (ls : list Label) (r : RLabel) (L : list RLabel)
  (k : CodeContext) (H : rel cells S (l :: ls) (r :: L) k) (Hs : size_ok cells S (r :: L) 32).

Abbreviation goes m cells' S' := (exists k', m (at_ k) = Some (Some tt, at_ k') /\ rel cells' S' (l :: ls) (r :: L) k').

Lemma run_unreachable : goes make_unreachable cells (unreachable_from (rl_entry r)).
Proof.
  destruct (loader_reset _ _ _ _ _ _ _ H) as (k' & E & H'); [size|].
  unfold make_unreachable, unreachable_from, se_bind, so_bind. rewrite E. unfold push_type.
  pose proof (entry_length _ _ _ _ _ _ _ H) as He.
  destruct (dead (rl_entry r)) eqn:Hd.
  - exists k'. split; [|done]. eapply run_unless_dead; [done|size|done].
  - erewrite run_unless_alive; [|done|size|done]. rewrite bool_decide_false by done.
    exists (set_type_stack (WASM_TYPE_ANY :: rl_entry r) k'). split.
    + unfold append_type. by rewrite run_modify_code, (rel_types _ _ _ _ _ H').
    + eapply rel_set_types; [done|]. pose proof (chain_unreachable _ _ _ _ (rel_chain _ _ _ _ _ H)) as Hc.
      unfold unreachable_from in Hc. by rewrite Hd in Hc.
Qed.

(** Popping two operands, the second first, and then looking at them. *)
Lemma sim_pop2 t1 t2 :
  sim (pop_and_check_2_types t1 t2) k (pops (rl_entry r) [t1; t2] S)
    (fun S' _ k' => rel cells S' (l :: ls) (r :: L) k').
Proof.
  assert (size_ok cells S (r :: L) 0) as Hs0 by size.
  unfold pop_and_check_2_types, pops, expect. destruct (dead S) eqn:Hd.
  { apply (sim_ok _ k k tt); [by eapply run_unless_dead|done]. }
  apply (sim_eq _ _ _ _ _ (run_unless_alive _ _ _ _ _ _ _ H Hs0 _ Hd)).
  pose proof (loader_check_limit _ _ _ _ _ _ _ H Hs0 2) as Hlim. rewrite Hd in Hlim. cbn [negb andb length] in Hlim |- *.
  destruct (Nat.ltb_spec (above (rl_entry r) S) 2) as [|Hge]; cbn [orb reject_if res_bind];
    [by eapply sim_step_error|]. eapply sim_step; [exact Hlim|]. unfold above in Hge.
  assert (exists a b S', S = a :: b :: S') as (a & b & S' & ES)
    by (destruct S as [|a [|b S']]; cbn in Hge; [lia|lia|eauto]).
  destruct (run_pop_alive _ _ _ _ _ _ _ H Hs0 a (b :: S') ES Hd) as (E1 & H1 & Hd1); [lia|].
  assert (size_ok cells (b :: S') (r :: L) 0) as Hs1 by (eapply size_ok_shorter; [done|rewrite ES; cbn; lia]).
  destruct (run_pop_alive _ _ _ _ _ _ _ H1 Hs1 b S' eq_refl Hd1) as (E2 & H2 & Hd2); [rewrite ES in Hge; cbn in Hge |- *; lia|].
  assert (size_ok cells S' (r :: L) 0) as Hs2 by (eapply size_ok_shorter; [done|cbn; lia]).
  eapply sim_step; [exact E1|]. eapply sim_step; [exact E2|].
  pose proof (run_check_type _ _ _ _ _ _ _ H2 Hs2 t1 b) as C1.
  pose proof (run_check_type _ _ _ _ _ _ _ H2 Hs2 t2 a) as C2.
  rewrite Hd2 in C1, C2. cbn [negb andb] in C1, C2. rewrite ES. cbn [take drop rev app].
  destruct (decide (t1 = b)) as [->|Hne].
  - rewrite (bool_decide_true (b = b)) in C1 by done. eapply sim_step; [exact C1|].
    destruct (decide (t2 = a)) as [->|Hne].
    + rewrite bool_decide_true in C2 |- * by done. eapply sim_ok; [exact C2|exact H2].
    + rewrite bool_decide_false in C2 |- * by congruence. eapply sim_error. exact C2.
  - rewrite bool_decide_false in C1 by done. rewrite bool_decide_false by congruence. by eapply sim_step_error.
Qed.

Lemma sim_check (pop : IM unit) ts t : t <> WASM_TYPE_ANY ->
  sim pop k (pops (rl_entry r) ts S) (fun S' _ k' => rel cells S' (l :: ls) (r :: L) k') ->
  sim (unless_top_type_is_any (pop ;; push_type t)%se) k
    (S <- pops (rl_entry r) ts S ;; Ok (pushes [t] S))%res (fun S' _ k' => rel cells S' (l :: ls) (r :: L) k').
Proof.
  assert (size_ok cells S (r :: L) 0) as Hs0 by size. intros Ht Hp.
  destruct (dead S) eqn:Hd.
  { unfold pops, pushes. rewrite Hd. cbn [res_bind]. rewrite Hd.
    apply (sim_ok _ k k tt); [by eapply run_unless_dead|done]. }
  apply (sim_eq _ _ _ _ _ (run_unless_alive _ _ _ _ _ _ _ H Hs0 _ Hd)).
  pose proof (pops_length (rl_entry r) ts S) as Hlen.
  destruct (pops _ _ S) as [S'| |]; cbn [res_bind].
  - specialize (Hlen _ eq_refl). destruct Hp as (a & k' & E & H'). eapply sim_step; [exact E|].
    destruct (run_push_type _ _ _ _ _ _ _ H' t) as (k2 & E2 & H2);
      [size|done|]. by eapply sim_ok.
  - destruct Hp as (c' & E). by eapply sim_step_error.
  - by eapply sim_step_crash.
Qed.

Lemma run_module (k' : CodeContext) : exists m, this_module (at_ k') = Some (Some m, at_ k') /\
  module_memory_index m = t_memory T /\ module_table_index m = t_table T.
Proof.
  destruct (st_module _ _ _ _ Hst) as (m & E & ? & ?). exists m. split; [|done].
  unfold this_module, get_module, get_env, se_bind, so_bind. cbn. by rewrite E.
Qed.
End callbacks2.

(** The steps of a callback that emits code. *)
Ltac emit_goal :=
  lazymatch goal with
  | |- exists k', emit_opcode _ _ = _ /\ _ => eapply run_opcode
  | |- exists k', emit_i32 _ _ = _ /\ _ => eapply run_i32
  | |- exists k', emit_i64 _ _ = _ /\ _ => eapply run_i64
  end; [eassumption|size].
Ltac emits := eapply sim_does;
  [emit_goal|let k' := fresh "k'" in let H' := fresh "H'" in intros k' H'; cbn beta].
Ltac emitted := eapply sim_done; [emit_goal|by rewrite <- ?app_assoc|done].
(** The last step, which only changes the type stack. *)
Ltac typed_as lemma := eapply sim_done; [eapply lemma; [eassumption|..]|by rewrite <- ?app_assoc|done].
Ltac reads_module := let m := fresh "m" in let Em := fresh "Em" in
  match goal with |- sim _ ?k _ _ => destruct (run_module k) as (m & Em & ? & ?) end;
  eapply sim_step; [exact Em|cbn beta].

Section instrs.
Context (cells : list Cell) (S : Types) (l : Label) (ls : list Label) (r : RLabel) (L : list RLabel)
  (k : CodeContext) (H : rel cells S (l :: ls) (r :: L) k) (Hs : size_ok cells S (r :: L) 64).

Abbreviation E := (rl_entry r).
Abbreviation yields m c := (sim m k c (gives cells (l :: ls) (r :: L))).

Lemma sim_checked (pop tail : IM unit) ts t c : t <> WASM_TYPE_ANY ->
  sim pop k (pops E ts S) (fun S' _ k' => rel cells S' (l :: ls) (r :: L) k') ->
  (forall S' k', rel cells S' (l :: ls) (r :: L) k' -> size_ok cells S' (r :: L) 63 ->
     sim tail k' (Ok (c, S')) (gives cells (l :: ls) (r :: L))) ->
  yields (unless_top_type_is_any (pop ;; push_type t)%se ;; tail)%se
    (S <- pops E ts S ;; Ok (c, pushes [t] S))%res.
Proof.
  intros Ht Hp Htail. pose proof (sim_check _ _ _ _ _ _ _ H) as Hc.
  specialize (Hc ltac:(size) pop ts t Ht Hp).
  pose proof (pops_length E ts S) as Hlen. destruct (pops E ts S) as [S'| |]; cbn [res_bind] in Hc |- *.
  - specialize (Hlen _ eq_refl). destruct Hc as (a & k' & E1 & H'). eapply sim_step; [exact E1|].
    apply Htail; [done|]. pose proof (pushes_length [t] S') as Hpl. cbn [length] in Hpl. size.
  - destruct Hc as (c' & E1). by eapply sim_step_error.
  - by eapply sim_step_crash.
Qed.

Lemma group_result op g : opcode_group op = Some g -> wasm_get_opcode_result_type op <> WASM_TYPE_ANY.
Proof. by destruct op. Qed.

Lemma sim_unary op g : opcode_group op = Some g ->
  yields (on_unary_expr op) (S <- pops E [wasm_get_opcode_param_type_1 op] S ;;
    Ok ([op_cell op], pushes [wasm_get_opcode_result_type op] S))%res.
Proof.
  intros Hg. apply sim_checked; [by eapply group_result|apply sim_pop1; [done|size]|].
  intros S' k' H' Hs'. emitted.
Qed.

Lemma sim_binary op g : opcode_group op = Some g ->
  yields (on_binary_expr op)
    (S <- pops E [wasm_get_opcode_param_type_1 op; wasm_get_opcode_param_type_2 op] S ;;
     Ok ([op_cell op], pushes [wasm_get_opcode_result_type op] S))%res.
Proof.
  intros Hg. apply sim_checked; [by eapply group_result|apply sim_pop2; [done|size]|].
  intros S' k' H' Hs'. emitted.
Qed.

Lemma sim_memory op cb a o : memory_callback op = Some cb ->
  yields (s_binary_reader uninit_entry (cb a o)) (comp_memory T E S op o).
Proof.
  unfold memory_callback, comp_memory. destruct (opcode_group op) as [g|] eqn:Hg; [|done].
  assert (forall S' k', rel cells S' (l :: ls) (r :: L) k' -> size_ok cells S' (r :: L) 63 ->
    sim (emit_opcode (WasmOp op) ;; m <- this_module ;; emit_i32 (module_memory_index m) ;; emit_i32 o)%se k'
      (Ok (op_cell op :: u32_cells (t_memory T) ++ u32_cells o, S')) (gives cells (l :: ls) (r :: L))) as Htail.
  { intros S' k' H' Hs'. emits. reads_module. replace (module_memory_index m) with (t_memory T) by congruence.
    emits. emitted. }
  destruct g; try done; intros [= <-]; (apply sim_checked; [by eapply group_result| |exact Htail]).
  - apply sim_pop1; [done|size].
  - apply sim_pop2; [done|size].
Qed.

Lemma sim_const c : const_type c ∈ [WASM_TYPE_I32; WASM_TYPE_I64; WASM_TYPE_F32; WASM_TYPE_F64] ->
  yields (se_for (s_binary_reader uninit_entry) (instr_const_callbacks c)) (Ok (comp_const S c)).
Proof.
  assert (forall m : IM unit, yields m (Ok (comp_const S c)) ->
    yields (se_ret tt ;; m ;; se_ret tt ;; se_ret tt)%se (Ok (comp_const S c))) as Hm.
  { intros m (a & k' & E1 & H'). rewrite se_bind_ret. eapply sim_step; [exact E1|]. by eapply sim_ok. }
  unfold instr_const_callbacks, comp_const in *. intros Ht.
  repeat (apply elem_of_cons in Ht as [Ht|Ht]); [rewrite Ht in Hm |- *; apply Hm..|by apply elem_of_nil in Ht];
  cbn [s_binary_reader]; unfold on_i32_const_expr, on_i64_const_expr, on_f32_const_expr, on_f64_const_expr;
  emits; emits; typed_as run_push_type; first [size|done].
Qed.

Lemma sim_reserved op cb : reserved_callback op = Some cb ->
  yields (s_binary_reader uninit_entry cb) (comp_reserved T E S op).
Proof.
  unfold reserved_callback, comp_reserved. intros Hcb.
  assert (forall S' k', rel cells S' (l :: ls) (r :: L) k' -> size_ok cells S' (r :: L) 64 ->
    sim (emit_opcode (WasmOp op) ;; m <- this_module ;; emit_i32 (module_memory_index m) ;;
         push_type WASM_TYPE_I32)%se k'
      (Ok (op_cell op :: u32_cells (t_memory T), pushes [WASM_TYPE_I32] S')) (gives cells (l :: ls) (r :: L))) as Htail.
  { intros S' k' H' Hs'. emits. reads_module. replace (module_memory_index m) with (t_memory T) by congruence.
    emits. typed_as run_push_type; [size|done]. }
  destruct op; try done; injection Hcb as <-; cbn [res_bind].
  - by apply Htail.
  - cbn [s_binary_reader]. unfold on_grow_memory_expr.
    pose proof (pops_length E [WASM_TYPE_I32] S) as Hlen.
    pose proof (sim_pop1 _ _ _ _ _ _ _ H ltac:(size) WASM_TYPE_I32) as Hp.
    destruct (pops E [WASM_TYPE_I32] S) as [S'| |]; cbn [res_bind].
    + specialize (Hlen _ eq_refl). destruct Hp as (a & k' & E1 & H'). eapply sim_step; [exact E1|].
      apply Htail; [done|size].
    + destruct Hp as (c' & E1). by eapply sim_step_error.
    + by eapply sim_step_crash.
Qed.

(** A pop with its continuation. *)
Lemma sim_after {A B} (pop : IM A) (f : A -> IM unit) p (g : Types -> Res B) Q :
  (forall S', p = Ok S' -> (length S' <= length S)%nat) ->
  sim pop k p (fun S' _ k' => rel cells S' (l :: ls) (r :: L) k') ->
  (forall a S' k', rel cells S' (l :: ls) (r :: L) k' -> size_ok cells S' (r :: L) 64 ->
     sim (f a) k' (g S') Q) ->
  sim (se_bind pop f) k (res_bind p g) Q.
Proof.
  intros Hlen Hp Hf. destruct p as [S'| |]; cbn [res_bind].
  - specialize (Hlen _ eq_refl). destruct Hp as (a & k' & E1 & H'). eapply sim_step; [exact E1|].
    apply Hf; [done|size].
  - destruct Hp as (c' & E1). by eapply sim_step_error.
  - by eapply sim_step_crash.
Qed.

Lemma sim_popped {A B} (pop : IM A) (f : A -> IM unit) ts (g : Types -> Res B) Q :
  sim pop k (pops E ts S) (fun S' _ k' => rel cells S' (l :: ls) (r :: L) k') ->
  (forall a S' k', rel cells S' (l :: ls) (r :: L) k' -> size_ok cells S' (r :: L) 64 ->
     sim (f a) k' (g S') Q) ->
  sim (se_bind pop f) k (res_bind (pops E ts S) g) Q.
Proof. apply sim_after. intros S'. apply pops_length. Qed.

(** *** Globals *)

Lemma run_check_global i k' : CHECK_GLOBAL i (at_ k') =
  Some (if size_of (global_index_mapping c0) <=? i then None else Some tt, at_ k').
Proof. unfold CHECK_GLOBAL, se_bind, so_bind. cbn. by destruct (_ <=? _). Qed.

Lemma global_at i : 0 <= i ->
  match t_global T i with
  | Some (ei, t, mutable_) => t <> WASM_TYPE_ANY /\
      (forall k', CHECK_GLOBAL i (at_ k') = Some (Some tt, at_ k')) /\
      (forall k', translate_global_index_to_env i (at_ k') = Some (Some ei, at_ k')) /\
      exists g, (forall k', get_global_by_module_index i (at_ k') = Some (Some g, at_ k')) /\
        tv_type (gl_typed_value g) = t /\ gl_mutable g = mutable_
  | None => forall k', CHECK_GLOBAL i (at_ k') = Some (None, at_ k')
  end.
Proof.
  intros Hi. pose proof (st_global _ _ _ _ Hst i) as Hg. destruct (t_global T i) as [[[ei t] mut]|].
  - destruct Hg as (Ht & Hlt & g & E1 & E2 & Et & Em).
    assert (forall k', translate_global_index_to_env i (at_ k') = Some (Some ei, at_ k')) as Htr.
    { intros k'. unfold translate_global_index_to_env, se_bind, so_bind. cbn. by rewrite E1. }
    split_and!; [done| |done|].
    + intros k'. rewrite run_check_global. by rewrite (proj2 (Z.leb_gt _ _)) by lia.
    + exists g. split; [|done]. intros k'. unfold get_global_by_module_index, se_bind at 1, so_bind at 1. rewrite Htr.
      unfold get_global_by_env_index, get_env, se_bind, so_bind. cbn. by rewrite E2.
  - intros k'. rewrite run_check_global. by rewrite (proj2 (Z.leb_le _ _)) by lia.
Qed.

Lemma sim_get_global i : 0 <= i ->
  yields (on_get_global_expr i) (comp_index T (r :: L) (base + cells_size cells) S WASM_OPCODE_GET_GLOBAL i).
Proof.
  intros Hi. unfold on_get_global_expr, comp_index. pose proof (global_at i Hi) as Hg.
  destruct (t_global T i) as [[[ei t] mut]|]; cbn [value_or_reject res_bind]; [|by eapply sim_step_error].
  destruct Hg as (Ht & Hc & Htr & g & Eg & <- & _).
  eapply sim_step; [apply Hc|]. eapply sim_step.
  { unfold get_global_type_by_module_index, se_bind, so_bind. by rewrite Eg. }
  emits. eapply sim_step; [apply Htr|]. emits. typed_as run_push_type; [size|done].
Qed.

Lemma sim_set_global i : 0 <= i ->
  yields (on_set_global_expr i) (comp_index T (r :: L) (base + cells_size cells) S WASM_OPCODE_SET_GLOBAL i).
Proof.
  intros Hi. unfold on_set_global_expr, comp_index. pose proof (global_at i Hi) as Hg.
  destruct (t_global T i) as [[[ei t] mut]|]; cbn [value_or_reject res_bind]; [|by eapply sim_step_error].
  destruct Hg as (Ht & Hc & Htr & g & Eg & <- & <-).
  eapply sim_step; [apply Hc|]. eapply sim_step; [apply Eg|]. apply sim_reject. intros _.
  apply sim_popped; [apply sim_pop1; [done|size]|]. intros a S' k' H' Hs'.
  emits. eapply sim_step; [apply Htr|]. emitted.
Qed.

(** *** Locals *)

Lemma local_at i cells' S' k' : 0 <= i -> rel cells' S' (l :: ls) (r :: L) k' -> size_ok cells' S' (r :: L) 0 ->
  match zget (t_locals T) i with
  | Some t => t <> WASM_TYPE_ANY /\
      CHECK_LOCAL i (at_ k') = Some (Some tt, at_ k') /\
      get_local_type_by_index i (at_ k') = Some (Some t, at_ k') /\
      translate_local_index i (at_ k') = Some (Some (Z.of_nat (length S') - i), at_ k')
  | None => CHECK_LOCAL i (at_ k') = Some (None, at_ k')
  end.
Proof.
  intros Hi H' Hs'. pose proof (run_current_types _ _ _ _ _ _ _ H') as Et.
  unfold CHECK_LOCAL, get_local_type_by_index, translate_local_index, type_stack_size, size_of.
  unfold zget. rewrite (proj2 (Z.ltb_ge i 0)) by lia.
  destruct (t_locals T !! Z.to_nat i) as [t|] eqn:El.
  - pose proof (lookup_lt_Some _ _ _ El) as Hlt. pose proof (st_locals _ _ _ _ Hst) as Ha.
    split_and!.
    + by eapply Forall_lookup_1 in Ha as [].
    + unfold se_bind, so_bind. rewrite Et. by rewrite (proj2 (Z.leb_gt _ _)) by lia.
    + unfold se_bind, so_bind. rewrite Et. by rewrite El.
    + unfold se_bind at 1, so_bind at 1. unfold se_bind at 1, so_bind at 1. rewrite run_get_code, (rel_types _ _ _ _ _ H').
      cbn [se_ret so_ret].
      pose proof (suffix_length _ _ (chain_locals _ _ _ (rel_chain _ _ _ _ _ H'))) as Hl. rewrite length_rev in Hl.
      rewrite (proj2 (Z.ltb_lt i _)) by lia. cbn [se_assert]. rewrite se_bind_ret.
      unfold size_ok in Hs'. pose proof (cells_size_nonneg cells'). rewrite u32_small by lia. done.
  - apply lookup_ge_None in El. unfold se_bind, so_bind. rewrite Et.
    by rewrite (proj2 (Z.leb_le _ _)) by lia.
Qed.

(** After opcodes the stack is as it was. *)
Lemma run_local i t cells' S' k' : 0 <= i -> zget (t_locals T) i = Some t ->
  rel cells' S' (l :: ls) (r :: L) k' -> size_ok cells' S' (r :: L) 0 ->
  translate_local_index i (at_ k') = Some (Some (Z.of_nat (length S') - i), at_ k').
Proof. intros Hi Et H' Hs'. pose proof (local_at i _ _ _ Hi H' Hs') as Hl. rewrite Et in Hl. apply Hl. Qed.

Lemma sim_get_local i : 0 <= i ->
  yields (on_get_local_expr i) (comp_index T (r :: L) (base + cells_size cells) S WASM_OPCODE_GET_LOCAL i).
Proof.
  intros Hi. unfold on_get_local_expr, comp_index. pose proof (local_at i _ _ _ Hi H ltac:(size)) as Hl.
  destruct (zget (t_locals T) i) as [t|] eqn:Et; cbn [value_or_reject res_bind]; [|by eapply sim_step_error].
  destruct Hl as (Ht & E1 & E2 & _). eapply sim_step; [exact E1|]. eapply sim_step; [exact E2|].
  emits. eapply sim_step; [eapply run_local; [done|exact Et|eassumption|size]|]. emits.
  typed_as run_push_type; [size|done].
Qed.

Lemma sim_set_local i : 0 <= i ->
  yields (on_set_local_expr i) (comp_index T (r :: L) (base + cells_size cells) S WASM_OPCODE_SET_LOCAL i).
Proof.
  intros Hi. unfold on_set_local_expr, comp_index. pose proof (local_at i _ _ _ Hi H ltac:(size)) as Hl.
  destruct (zget (t_locals T) i) as [t|] eqn:Et; cbn [value_or_reject res_bind]; [|by eapply sim_step_error].
  destruct Hl as (Ht & E1 & E2 & _). eapply sim_step; [exact E1|]. eapply sim_step; [exact E2|].
  apply sim_popped; [apply sim_pop1; [done|size]|]. intros a S' k' H' Hs'.
  emits. eapply sim_step; [eapply run_local; [done|exact Et|eassumption|size]|]. emitted.
Qed.

(** Looking at the top value. *)
Lemma sim_check_top {A} t (f : unit -> IM unit) (c : A) Q :
  (dead S = true \/ (length E < length S)%nat) ->
  (expect E [t] S = Ok tt -> sim (f tt) k (Ok c) Q) ->
  (dead S = true -> (length S <= length E)%nat -> False) ->
  sim (value <- top_type ;; check_type t value ;; f tt)%se k
    (_ <- expect E [t] S ;; Ok c)%res Q.
Proof.
  intros Hd Hf Hc.
  assert (length E < length S)%nat as Hlt.
  { destruct Hd as [Hd|]; [|done]. destruct (le_lt_dec (length S) (length E)); [|done]. by destruct Hc. }
  destruct (alive_cons _ _ _ _ _ _ H Hlt) as (a & S' & ES).
  eapply sim_step. { rewrite (run_top_type _ _ _ _ _ _ _ H ltac:(size) Hlt), ES. reflexivity. }
  pose proof (run_check_type _ _ _ _ _ _ _ H ltac:(size) t a) as Hck. unfold expect in Hf |- *. unfold above in *.
  destruct (dead S) eqn:Hdd; cbn [negb andb] in *.
  - eapply sim_step; [exact Hck|]. apply Hf. done.
  - assert ((length S - length E <? length [t])%nat = false) as El by (apply Nat.ltb_ge; cbn; lia).
    rewrite El in Hf |- *. rewrite ES in Hf |- *. cbn [orb length take rev app] in Hf |- *.
    destruct (decide (t = a)) as [->|Hne].
    + rewrite bool_decide_true in Hck by done. rewrite bool_decide_true in Hf |- * by done.
      eapply sim_step; [exact Hck|]. by apply Hf.
    + rewrite bool_decide_false in Hck by done. rewrite bool_decide_false by (cbn; congruence).
      by eapply sim_step_error.
Qed.

Lemma sim_tee_local i : 0 <= i ->
  yields (on_tee_local_expr i) (comp_index T (r :: L) (base + cells_size cells) S WASM_OPCODE_TEE_LOCAL i).
Proof.
  intros Hi. unfold on_tee_local_expr, comp_index. pose proof (local_at i _ _ _ Hi H ltac:(size)) as Hl.
  destruct (zget (t_locals T) i) as [t|] eqn:Et; cbn [value_or_reject res_bind]; [|by eapply sim_step_error].
  destruct Hl as (Ht & E1 & E2 & _). eapply sim_step; [exact E1|]. eapply sim_step; [exact E2|].
  pose proof (loader_check_limit _ _ _ _ _ _ _ H ltac:(size) 1) as Hlim. unfold above in *. cbn [entry_of].
  destruct (negb (dead S) && (length S - length E <? 1)%nat) eqn:Eb; cbn [reject_if res_bind];
    [by eapply sim_step_error|]. eapply sim_step; [exact Hlim|].
  destruct (dead S && (length S <=? length E)%nat) eqn:Ec; cbn [crash_if res_bind].
  { apply andb_true_iff in Ec as [_ Ec%Nat.leb_le]. apply sim_step_crash. by apply (run_top_type_crash _ _ _ _ _ _ _ H ltac:(size)). }
  assert (length E < length S)%nat as Hlt.
  { destruct (dead S); cbn [negb andb] in Eb, Ec; [by apply Nat.leb_gt in Ec|apply Nat.ltb_ge in Eb; lia]. }
  apply (sim_check_top t (fun _ => emit_opcode (WasmOp WASM_OPCODE_TEE_LOCAL) ;; i <- translate_local_index i ;; emit_i32 i)%se).
  - by right.
  - intros _. emits. eapply sim_step; [eapply run_local; [done|exact Et|eassumption|size]|]. emitted.
  - lia.
Qed.

(** *** Drop, select, return *)

Lemma sim_expected {B} types (f : unit -> IM unit) (g : unit -> Res B) Q : (length types <= 1)%nat ->
  (expect E types S = Ok tt -> sim (f tt) k (g tt) Q) ->
  sim (se_bind (check_n_types types) f) k (res_bind (expect E types S) g) Q.
Proof.
  intros Hl Hf. pose proof (sim_expect _ _ _ _ _ _ _ H ltac:(size) types Hl) as He.
  destruct (expect E types S) as [[]| |]; cbn [res_bind].
  - destruct He as ([] & k' & E1 & ->). eapply sim_step; [exact E1|]. by apply Hf.
  - destruct He as (c' & E1). by eapply sim_step_error.
  - by eapply sim_step_crash.
Qed.


Lemma sim_drop : yields on_drop_expr (comp_op T E S WASM_OPCODE_DROP).
Proof.
  unfold on_drop_expr, comp_op.
  pose proof (loader_check_limit _ _ _ _ _ _ _ H ltac:(size) 1) as Hlim. unfold above in *.
  destruct (dead S) eqn:Hd; cbn [negb andb reject_if] in *.
  - eapply sim_step; [exact Hlim|].
    destruct (Nat.leb_spec (length S) (length E)); cbn [crash_if res_bind].
    + emits. apply sim_step_crash. eapply run_pop_crash; [exact H'|size|done].
    + emits. eapply sim_step; [eapply run_pop_dead; [exact H'|size|done..]|]. eapply sim_ok; [done|exact H'].
  - destruct (Nat.ltb_spec (length S - length E) 1) as [|Hge]; cbn [crash_if reject_if res_bind];
      [by eapply sim_step_error|]. eapply sim_step; [exact Hlim|].
    emits. destruct (alive_cons _ _ _ _ _ _ H) as (a & S' & ES); [lia|].
    destruct (run_pop_alive _ _ _ _ _ _ _ H' ltac:(size) a S' ES Hd) as (E2 & H2 & _); [lia|].
    eapply sim_step; [exact E2|]. rewrite ES. by eapply sim_ok.
Qed.

(** The two operands of a [select], already without the condition. *)
Lemma sim_select_rest :
  yields (check_type_stack_limit 2 ;; right <- pop_type ;; left <- pop_type ;;
    check_type left right ;; emit_opcode (WasmOp WASM_OPCODE_SELECT) ;; push_type left)%se
  (_ <- crash_if (dead S && (length S <=? length E)%nat) ;;
   _ <- reject_if (negb (dead S) && ((above E S <? 2)%nat || negb (bool_decide (S !! 0%nat = S !! 1%nat)))) ;;
   Ok ([op_cell WASM_OPCODE_SELECT], if dead S then S else tail S))%res.
Proof.
  pose proof (loader_check_limit _ _ _ _ _ _ _ H ltac:(size) 2) as Hlim. unfold above in *.
  assert (size_ok cells S (r :: L) 0) as Hs0 by size.
  destruct (dead S) eqn:Hd; cbn [negb andb reject_if] in *.
  - eapply sim_step; [exact Hlim|].
    destruct (Nat.leb_spec (length S) (length E)); cbn [crash_if res_bind].
    + apply sim_step_crash. by eapply run_pop_crash.
    + eapply sim_step; [by eapply run_pop_dead|]. eapply sim_step; [by eapply run_pop_dead|].
      eapply sim_step. { rewrite (run_check_type _ _ _ _ _ _ _ H Hs0), Hd. reflexivity. }
      emits. eapply sim_ok; [|exact H']. unfold push_type. eapply run_unless_dead; [exact H'|size|done].
  - cbn [crash_if res_bind].
    destruct (Nat.ltb_spec (length S - length E) 2) as [|Hge]; cbn [orb reject_if res_bind];
      [by eapply sim_step_error|]. eapply sim_step; [exact Hlim|].
    assert (exists a b S', S = a :: b :: S') as (a & b & S' & ES)
      by (destruct S as [|a [|b S']]; cbn in Hge; [lia|lia|eauto]).
    destruct (run_pop_alive _ _ _ _ _ _ _ H Hs0 a (b :: S') ES Hd) as (E1 & H1 & Hd1); [lia|].
    assert (size_ok cells (b :: S') (r :: L) 63) as Hs1 by (rewrite ES in Hs; size).
    destruct (run_pop_alive _ _ _ _ _ _ _ H1 ltac:(size) b S' eq_refl Hd1) as (E2 & H2 & Hd2);
      [rewrite ES in Hge; cbn in Hge |- *; lia|].
    assert (size_ok cells S' (r :: L) 62) as Hs2 by size.
    eapply sim_step; [exact E1|]. eapply sim_step; [exact E2|].
    pose proof (run_check_type _ _ _ _ _ _ _ H2 ltac:(size) b a) as C. rewrite Hd2 in C. cbn [negb andb] in C.
    rewrite ES. cbn [lookup list_lookup tail]. destruct (decide (b = a)) as [->|Hne].
    + rewrite bool_decide_true in C |- * by done. eapply sim_step; [exact C|]. cbn [negb reject_if res_bind].
      assert (is_value a) as [Ha Hv].
      { assert (all_values S) as Hn by (apply dead_false; [eapply chain_clean, H|done]).
        rewrite ES in Hn. by inversion Hn. }
      emits. eapply sim_done; [eapply run_push_type; [exact H'|size|done]|done|].
      unfold pushes. rewrite Hd2, filter_cons_True by done. done.
    + rewrite bool_decide_false in C by done. rewrite bool_decide_false by congruence. by eapply sim_step_error.
Qed.

Lemma sim_return : yields on_return_expr (comp_op T E S WASM_OPCODE_RETURN).
Proof.
  unfold on_return_expr, comp_op. eapply sim_step; [apply run_get_code|]. rewrite (rel_func _ _ _ _ _ H).
  cbn [se_lift]. rewrite se_bind_ret.
  destruct (st_func _ _ _ _ Hst) as (si & o & n & m & ps & Ef & Es).
  destruct (st_results _ _ _ _ Hst) as (Hr & Hr1).
  eapply sim_step; [rewrite run_current_func, Ef; reflexivity|].
  eapply (sim_step _ _ _ k (mkSig ps (t_results T))).
  { unfold get_signature_by_env_index, se_bind, so_bind, get_env. cbn. by rewrite Es. }
  cbn [result_types]. apply sim_expected; [done|]. intros Hb%expect_above. unfold drop_types_for_return.
  destruct (dead S) eqn:Hd.
  - eapply sim_step; [by eapply run_unless_dead; [exact H|size|]|]. emits. typed_as run_unreachable. size.
  - pose proof (entry_length _ _ _ _ _ _ _ H) as He.
    assert (length (t_results T) <= length S)%nat as Hle.
    { destruct Hb as [Hb|Hb]; [by rewrite Hb in Hd|lia]. }
    eapply sim_does.
    { erewrite run_unless_alive by first [exact H|size|done].
      unfold se_bind at 1, so_bind at 1, type_stack_size. unfold se_bind at 1, so_bind at 1.
      rewrite run_get_code, (rel_types _ _ _ _ _ H). cbn [se_ret so_ret]. unfold size_of.
      rewrite (proj2 (Z.leb_le _ _)) by lia. rewrite u32_small by size.
      replace (Z.of_nat (length S) - Z.of_nat (length (t_results T)))
        with (Z.of_nat (length S - length (t_results T))) by lia.
      eapply run_drop_keep; [exact H|size|done|size]. }
    intros k' H'. cbn beta. pose proof (drop_keep_size (length S - length (t_results T)) (length (t_results T))).
    emits. typed_as run_unreachable. size.
Qed.
End instrs.

Section instrs2.
Context (cells : list Cell) (S : Types) (l : Label) (ls : list Label) (r : RLabel) (L : list RLabel)
  (k : CodeContext) (H : rel cells S (l :: ls) (r :: L) k) (Hs : size_ok cells S (r :: L) 64).

Abbreviation E := (rl_entry r).
Abbreviation yields m c := (sim m k c (gives cells (l :: ls) (r :: L))).

Lemma sim_select : yields on_select_expr (comp_op T E S WASM_OPCODE_SELECT).
Proof.
  unfold on_select_expr, comp_op. eapply sim_popped; [exact Hs|apply sim_pop1; [done|size]|].
  intros a S' k' H' Hs'. by apply sim_select_rest.
Qed.

(** The opcodes without operands. *)
Lemma sim_op op cb : bare_callback op = Some cb ->
  yields (s_binary_reader uninit_entry cb) (comp_op T E S op).
Proof.
  intros Hcb. destruct op; try discriminate Hcb; injection Hcb as <-;
  first
    [exact (sim_return _ _ _ _ _ _ _ H Hs)|exact (sim_drop _ _ _ _ _ _ _ H Hs)|exact sim_select
    |match goal with |- sim (s_binary_reader _ ?cb) _ (comp_op _ _ _ ?op) _ =>
       let g := eval vm_compute in (opcode_group op) in
       lazymatch g with
       | Some ?g =>
         lazymatch cb with
         | CB_on_binary_expr _ => exact (sim_binary _ _ _ _ _ _ _ H Hs op g eq_refl)
         | CB_on_compare_expr _ => exact (sim_binary _ _ _ _ _ _ _ H Hs op g eq_refl)
         | _ => exact (sim_unary _ _ _ _ _ _ _ H Hs op g eq_refl)
         end
       end
     end|idtac].
  - cbn [s_binary_reader comp_op]. unfold on_unreachable_expr. emits. typed_as run_unreachable. size.
  - cbn [s_binary_reader comp_op]. eapply sim_ok; [done|]. unfold gives. cbn [fst snd]. by rewrite app_nil_r.
Qed.

(** *** Calls *)

Lemma pops_each_length e ts S0 S' : pops_each e ts S0 = Ok S' -> (length S' <= length S0)%nat.
Proof. unfold pops_each. destruct (crash_if _); [|done..]. apply pops_length. Qed.

Lemma sim_popped_each {B} ts (f : IM unit) (g : Types -> Res B) Q cells' S1 k1 :
  rel cells' S1 (l :: ls) (r :: L) k1 -> size_ok cells' S1 (r :: L) 64 ->
  (forall S' k', rel cells' S' (l :: ls) (r :: L) k' -> size_ok cells' S' (r :: L) 64 ->
     sim f k' (g S') Q) ->
  sim (check_type_stack_limit (size_of ts) ;; pop_params ts ;; f)%se k1 (res_bind (pops_each E ts S1) g) Q.
Proof.
  intros H1 Hs1 Hf.
  apply (sim_eq _ ((check_type_stack_limit (size_of ts) ;; pop_params ts) ;; f)%se).
  { by rewrite se_bind_assoc. }
  pose proof (sim_pops_each _ _ _ _ _ _ _ H1 ltac:(size) ts) as Hp.
  pose proof (pops_each_length E ts S1) as Hlen.
  destruct (pops_each E ts S1) as [S'| |]; cbn [res_bind].
  - specialize (Hlen _ eq_refl). destruct Hp as (a & k' & E1 & H'). eapply sim_step; [exact E1|].
    apply Hf; [done|size].
  - destruct Hp as (c' & E1). by eapply sim_step_error.
  - by eapply sim_step_crash.
Qed.

Lemma sim_call i : yields (on_call_expr i) (comp_call T E S i).
Proof.
  unfold on_call_expr, comp_call. pose proof (st_callee _ _ _ _ Hst i) as Hc.
  destruct (t_func T i) as [[sig callee]|]; cbn [value_or_crash res_bind].
  - destruct Hc as ([Hps Hrs Hr1] & ei & f & E1 & E2 & E3 & Hcal).
    eapply (sim_step _ _ _ k ei). { unfold translate_func_index_to_env, se_bind, so_bind. cbn. by rewrite E1. }
    eapply (sim_step _ _ _ k f). { unfold get_func_by_env_index, get_env, se_bind, so_bind. cbn. by rewrite E2. }
    eapply (sim_step _ _ _ k sig). { unfold get_signature_by_env_index, get_env, se_bind, so_bind. cbn. by rewrite E3. }
    eapply sim_popped_each; [exact H|exact Hs|]. intros S' k' H' Hs'.
    unfold callee_fine in Hcal. destruct callee as [j|o|j], (func_body f) as [o' n m types|mn fn cb]; try done.
    + subst j. eapply sim_eq; [apply se_bind_assoc|]. emits. emits. typed_as loader_push_types; [size|done|done].
    + destruct Hcal as [-> Ho]. eapply sim_eq; [apply se_bind_assoc|]. emits. unfold emit_func_offset.
      rewrite (proj2 (Z.eqb_neq _ _)) by done. eapply sim_eq; [apply se_bind_assoc|]. rewrite se_bind_ret.
      emits. typed_as loader_push_types; [size|done|done].
    + destruct Hcal as (-> & -> & Hn & Hj & Hsmall). eapply sim_eq; [apply se_bind_assoc|]. emits.
      unfold emit_func_offset. rewrite Z.eqb_refl. eapply sim_eq; [apply se_bind_assoc|].
      eapply sim_eq; [apply se_bind_assoc|].
      eapply (sim_step _ _ _ k'0 (Z.of_nat j)).
      { assert (num_func_imports c0 <=? num_func_imports c0 + Z.of_nat j = true) as El by (apply Z.leb_le; lia).
        unfold translate_module_func_index_to_defined, se_bind at 1, so_bind at 1.
        change (se_get (at_ k'0)) with (Some (Some (at_ k'0), at_ k'0)). cbn beta iota.
        change (num_func_imports (at_ k'0)) with (num_func_imports c0). rewrite El. cbn [se_assert].
        rewrite se_bind_ret. unfold se_ret, so_ret. do 3 f_equal. lia. }
      destruct (run_emit_func_ref _ _ _ _ _ j H'0) as (k1 & k2 & Ea & Eb & H2); [size|done|done|].
      eapply sim_step; [exact Ea|]. eapply sim_step; [exact Eb|].
      typed_as loader_push_types; [size|done|done].
  - apply sim_step_crash. unfold translate_func_index_to_env, se_bind, so_bind. cbn. by rewrite Hc.
Qed.

Lemma sim_call_indirect i : yields (on_call_indirect_expr i) (comp_call_indirect T E S i).
Proof.
  unfold on_call_indirect_expr, comp_call_indirect. pose proof (st_sig _ _ _ _ Hst i) as Hc.
  destruct (t_sig T i) as [[ei sig]|]; cbn [value_or_crash res_bind].
  - destruct Hc as ([Hps Hrs Hr1] & E1 & E2).
    eapply (sim_step _ _ _ k ei). { unfold translate_sig_index_to_env, se_bind, so_bind. cbn. by rewrite E1. }
    eapply (sim_step _ _ _ k sig). { unfold get_signature_by_env_index, get_env, se_bind, so_bind. cbn. by rewrite E2. }
    eapply sim_popped; [exact Hs|apply sim_pop1; [done|size]|]. intros a S' k' H' Hs'.
    eapply sim_popped_each; [exact H'|exact Hs'|]. intros S2 k2 H2 Hs2.
    emits. reads_module. replace (module_table_index m) with (t_table T) by congruence.
    emits. emits. typed_as loader_push_types; [size|done|done].
  - apply sim_step_crash. unfold translate_sig_index_to_env, se_bind, so_bind. cbn. by rewrite Hc.
Qed.

(** *** Branches *)

(** The label at a depth, here and in the translation. *)
Lemma label_at_depth depth : 0 <= depth ->
  match label_at (r :: L) depth with
  | Some r' => exists l', depth < Z.of_nat (length (l :: ls)) /\ (l :: ls) !! Z.to_nat depth = Some l' /\
      label_rel l' r' /\ (length (rl_entry r') <= length S)%nat
  | None => Z.of_nat (length (l :: ls)) <= depth
  end.
Proof.
  intros Hd. unfold label_at. pose proof (rel_label _ _ _ _ _ H) as Hl.
  destruct ((r :: L) !! Z.to_nat depth) as [r'|] eqn:Er.
  - destruct (Forall2_lookup_r _ _ _ _ _ Hl Er) as (l' & El & Hr). exists l'. apply lookup_lt_Some in El as Hlt.
    split_and!; [lia|done|done|]. by eapply suffix_length, chain_lookup; [apply H|].
  - apply lookup_ge_None in Er. apply Forall2_length in Hl. lia.
Qed.

Lemma run_check_depth depth cells' S' k' : rel cells' S' (l :: ls) (r :: L) k' ->
  CHECK_DEPTH depth (at_ k') =
  Some (if Z.of_nat (length (l :: ls)) <=? depth then None else Some tt, at_ k').
Proof.
  intros H'. unfold CHECK_DEPTH, se_bind at 1, so_bind at 1. rewrite run_get_code, (rel_labels _ _ _ _ _ H').
  unfold size_of. by destruct (_ <=? _).
Qed.

Lemma run_translate depth cells' S' k' : rel cells' S' (l :: ls) (r :: L) k' -> 0 <= depth ->
  depth < Z.of_nat (length (l :: ls)) ->
  translate_depth depth (at_ k') = Some (Some (Z.of_nat (length ls) - depth), at_ k').
Proof.
  intros H' Hd Hlt. unfold translate_depth, se_bind at 1, so_bind at 1.
  rewrite run_get_code, (rel_labels _ _ _ _ _ H'). unfold size_of.
  rewrite (proj2 (Z.ltb_lt _ _)) by lia. cbn [se_assert]. rewrite se_bind_ret. cbn [length].
  unfold se_ret, so_ret. do 3 f_equal. lia.
Qed.

Lemma run_label depth l' cells' S' k' : rel cells' S' (l :: ls) (r :: L) k' -> 0 <= depth ->
  (l :: ls) !! Z.to_nat depth = Some l' ->
  get_label (Z.of_nat (length ls) - depth) (at_ k') = Some (Some l', at_ k').
Proof.
  intros H' Hd El. pose proof (run_get_label _ _ _ _ _ _ _ H' (Z.to_nat depth) l' El) as E1.
  by rewrite Z2Nat.id in E1.
Qed.

Lemma label_arity l' r' : label_rel l' r' -> get_label_br_arity l' = Z.of_nat (arity r').
Proof.
  unfold get_label_br_arity, arity, size_of. intros (-> & _ & H1 & _ & Hl). rewrite u32_small by lia.
  destruct (rl_loop r') as [start|].
  - destruct Hl as (-> & _). by rewrite decide_True.
  - destruct Hl as [Hl _]. by rewrite decide_False.
Qed.

Lemma arity_small l' r' : label_rel l' r' -> (arity r' <= 1)%nat.
Proof. intros (_ & _ & H1 & _). unfold arity. destruct (rl_loop r'); lia. Qed.

Lemma run_drop_count l' r' cells' k' : rel cells' S (l :: ls) (r :: L) k' -> label_rel l' r' ->
  (length (rl_entry r') <= length S)%nat ->
  br_drop_count l' (at_ k') =
  match br_drop r' S with Ok n => Some (Some (Z.of_nat n), at_ k') | _ => None end.
Proof.
  intros H' Hl He. pose proof (arity_small _ _ Hl) as Ha. pose proof (label_arity _ _ Hl) as Har.
  unfold br_drop_count, br_drop, type_stack_size. rewrite Har. unfold se_bind at 1, so_bind at 1.
  unfold se_bind at 1, so_bind at 1. rewrite run_get_code, (rel_types _ _ _ _ _ H'). cbn [se_ret so_ret].
  unfold size_of. destruct Hl as (_ & -> & _). rewrite u32_small by size.
  destruct (Nat.ltb_spec (length S) (length (rl_entry r') + arity r')) as [|Hge]; cbn [crash_if res_bind].
  - by rewrite (proj2 (Z.leb_gt _ _)) by lia.
  - rewrite (proj2 (Z.leb_le _ _)) by lia. cbn [se_assert]. rewrite se_bind_ret. rewrite u32_small by size.
    unfold se_ret, so_ret. do 3 f_equal. lia.
Qed.

(** The operand of a branch. *)
Lemma run_target depth l' r' cells' k' : rel cells' S (l :: ls) (r :: L) k' -> size_ok cells' S (r :: L) 4 ->
  0 <= depth -> (l :: ls) !! Z.to_nat depth = Some l' -> label_rel l' r' ->
  exists k2, emit_br_offset (Z.of_nat (length ls) - depth) (label_offset l') (at_ k') = Some (Some tt, at_ k2) /\
    rel (cells' ++ target_cells (r :: L) depth r') S (l :: ls) (r :: L) k2.
Proof.
  intros H' Hs' Hd El (_ & _ & _ & _ & Hl). unfold target_cells. apply lookup_lt_Some in El as Hlt.
  pose proof (length_labels _ _ _ _ _ H') as Hll. cbn [length] in Hll, Hlt.
  destruct (rl_loop r') as [start|].
  - destruct Hl as (_ & -> & Hst'). unfold emit_br_offset. rewrite (proj2 (Z.eqb_neq _ _)) by done.
    rewrite se_bind_ret. by eapply run_i32.
  - destruct Hl as (_ & ->). cbn [length].
    replace (Z.of_nat (length ls) - depth) with (Z.of_nat (Datatypes.S (length L) - 1 - Z.to_nat depth)) by lia.
    eapply run_emit_ref; [done|done|cbn [length]; lia].
Qed.

Lemma target_size depth r' : cells_size (target_cells (r :: L) depth r') = 4.
Proof. unfold target_cells. destruct (rl_loop r'); [apply cells_size_u32|done]. Qed.

Lemma sim_emit_br depth l' r' cells' k' : rel cells' S (l :: ls) (r :: L) k' -> size_ok cells' S (r :: L) 16 ->
  0 <= depth -> (l :: ls) !! Z.to_nat depth = Some l' -> label_rel l' r' ->
  (length (rl_entry r') <= length S)%nat ->
  sim (emit_br (Z.of_nat (length ls) - depth)) k' (br_cells (r :: L) depth r' S)
    (fun c _ k2 => rel (cells' ++ c) S (l :: ls) (r :: L) k2 /\ cells_size c <= 11).
Proof.
  intros H' Hs' Hd El Hl He. unfold emit_br, br_cells. eapply sim_step; [by eapply run_label|].
  pose proof (run_drop_count l' r' cells' k' H' Hl He) as Ed. unfold br_drop in *.
  destruct (Nat.ltb_spec (length S) (length (rl_entry r') + arity r')) as [|Hge]; cbn [crash_if res_bind] in *.
  { by apply sim_step_crash. }
  eapply sim_step; [exact Ed|]. rewrite (label_arity _ _ Hl).
  pose proof (arity_small _ _ Hl). pose proof (drop_keep_size (length S - length (rl_entry r') - arity r') (arity r')).
  eapply sim_does; [eapply run_drop_keep; [exact H'|size|done|size]|]. intros k1 Hx. cbn beta.
  emits. destruct (run_target depth l' r' _ _ H'0) as (k2 & E2 & H2); [size|done..|].
  eapply sim_ok; [exact E2|]. split; [by rewrite <- !app_assoc in H2|].
  rewrite cells_size_app, cells_size_cons, target_size, cell_size_op. lia.
Qed.

Lemma sim_br i : 0 <= i ->
  yields (on_br_expr i) (comp_index T (r :: L) (base + cells_size cells) S WASM_OPCODE_BR i).
Proof.
  intros Hi. unfold on_br_expr, comp_index. pose proof (label_at_depth i Hi) as Hl.
  pose proof (run_check_depth i _ _ _ H) as Ec.
  destruct (label_at (r :: L) i) as [r'|]; cbn [value_or_reject res_bind].
  - destruct Hl as (l' & Hlt & El & Hr & He). rewrite (proj2 (Z.leb_gt _ _)) in Ec by lia.
    eapply sim_step; [exact Ec|]. eapply sim_step; [by eapply run_translate|].
    eapply sim_step; [by eapply run_label|]. cbn [entry_of].
    assert (forall k', rel cells S (l :: ls) (r :: L) k' ->
      sim (emit_br (Z.of_nat (length ls) - i) ;; make_unreachable)%se k'
      (cells <- br_cells (r :: L) i r' S ;; Ok (cells, unreachable_from E))%res
      (gives cells (l :: ls) (r :: L))) as Htail.
    { intros k' H'. eapply sim_bind; [apply (sim_emit_br i l' r'); [exact H'|size|done..]|].
      intros a c k2 (H2 & Hc). typed_as run_unreachable. size. }
    destruct Hr as (Hsig & Hlim & H1 & Hv & Hr). destruct (rl_loop r') as [start|].
    + destruct Hr as (-> & _). rewrite bool_decide_true by done. rewrite se_bind_ret. by apply Htail.
    + destruct Hr as (Hr & _). rewrite bool_decide_false by done. rewrite Hsig.
      eapply sim_expected; [exact H|size|done|]. intros _. by apply Htail.
  - rewrite (proj2 (Z.leb_le _ _)) in Ec by lia. by eapply sim_step_error.
Qed.

Lemma run_offset cells' S' k' : rel cells' S' (l :: ls) (r :: L) k' ->
  get_istream_offset (at_ k') = Some (Some (base + cells_size cells'), at_ k').
Proof.
  intros H'. unfold get_istream_offset, se_bind at 1, so_bind at 1. rewrite run_get_code.
  by rewrite (rel_offset _ _ _ _ _ H').
Qed.

(** Filling in an operand that was left for later. *)
Lemma run_fill pre post v S' k' :
  rel (pre ++ u32_cells WASM_INVALID_OFFSET ++ post) S' (l :: ls) (r :: L) k' ->
  size_ok (pre ++ u32_cells WASM_INVALID_OFFSET ++ post) S' (r :: L) 0 ->
  exists k2, emit_i32_at (base + cells_size pre) v (at_ k') = Some (Some tt, at_ k2) /\
    rel (pre ++ u32_cells v ++ post) S' (l :: ls) (r :: L) k2.
Proof. intros H' Hs'. by apply (run_patch pre placeholder post). Qed.

Lemma sim_br_if_rest i r' : 0 <= i -> label_at (r :: L) i = Some r' ->
  yields (emit_opcode WASM_OPCODE_BR_UNLESS ;; fixup_br_offset <- get_istream_offset ;;
    emit_i32 WASM_INVALID_OFFSET ;; emit_br (Z.of_nat (length ls) - i) ;;
    offset <- get_istream_offset ;; emit_i32_at fixup_br_offset offset)%se
    (c <- br_cells (r :: L) i r' S ;; Ok (br_unless (base + cells_size cells) c, S))%res.
Proof.
  intros Hi Er. pose proof (label_at_depth i Hi) as Hl. rewrite Er in Hl. destruct Hl as (l' & Hlt & El & Hr & He).
  emits. eapply sim_step; [by eapply run_offset|]. emits.
  eapply sim_bind; [apply (sim_emit_br i l' r'); [eassumption|size|done..]|].
  intros a c k2 (H2 & Hc). eapply sim_step; [by eapply run_offset|].
  rewrite <- !(app_assoc (cells ++ [opcode_cell WASM_OPCODE_BR_UNLESS])) in H2.
  edestruct run_fill as (k3 & E3 & H3); [exact H2|size|].
  eapply sim_ok; [exact E3|]. unfold gives, br_unless. cbn [fst snd]. rewrite <- app_assoc in H3.
  replace (base + cells_size cells + 5 + cells_size c) with
    (base + cells_size ((((cells ++ [opcode_cell WASM_OPCODE_BR_UNLESS]) ++ u32_cells WASM_INVALID_OFFSET) ++ c)));
    [exact H3|]. autorewrite with cells. lia.
Qed.

End instrs2.

Section instrs3.
Context (cells : list Cell) (S : Types) (l : Label) (ls : list Label) (r : RLabel) (L : list RLabel)
  (k : CodeContext) (H : rel cells S (l :: ls) (r :: L) k) (Hs : size_ok cells S (r :: L) 64).

Abbreviation E := (rl_entry r).
Abbreviation yields m c := (sim m k c (gives cells (l :: ls) (r :: L))).

Lemma sim_br_if i : 0 <= i ->
  yields (on_br_if_expr i) (comp_index T (r :: L) (base + cells_size cells) S WASM_OPCODE_BR_IF i).
Proof.
  intros Hi. unfold on_br_if_expr, comp_index. pose proof (label_at_depth _ _ _ _ _ _ _ H i Hi) as Hl.
  pose proof (run_check_depth l ls r L i _ _ _ H) as Ec.
  destruct (label_at (r :: L) i) as [r'|] eqn:Er; cbn [value_or_reject res_bind].
  - destruct Hl as (l' & Hlt & El & Hr & He). rewrite (proj2 (Z.leb_gt _ _)) in Ec by lia.
    eapply sim_step; [exact Ec|]. eapply sim_step; [by eapply run_translate|]. cbn [entry_of].
    eapply sim_popped; [exact Hs|apply sim_pop1; [done|size]|]. intros a S' k' H' Hs'. cbn beta.
    by apply (sim_br_if_rest cells S' l ls r L).
  - rewrite (proj2 (Z.leb_le _ _)) in Ec by lia. by eapply sim_step_error.
Qed.

(** An entry of a table is nine bytes. *)
Lemma table_entry_size i c : table_entry (r :: L) S i = Ok c -> cells_size c = 9.
Proof.
  unfold table_entry. destruct (label_at _ i) as [r'|]; [cbn [value_or_crash res_bind]|done].
  destruct (expect _ _ S); [cbn [res_bind]|done..]. destruct (br_drop r' S); [|done..].
  intros [= <-]. rewrite cells_size_app, target_size. by autorewrite with cells.
Qed.

Lemma sim_table_entry i : 0 <= i ->
  sim (depth <- translate_depth i ;; label <- get_label depth ;; check_n_types (label_sig label) ;;
       emit_br_table_offset depth)%se k
    (table_entry (r :: L) S i) (fun c _ k' => rel (cells ++ c) S (l :: ls) (r :: L) k').
Proof.
  intros Hi. pose proof (label_at_depth _ _ _ _ _ _ _ H i Hi) as Hl. unfold table_entry.
  destruct (label_at (r :: L) i) as [r'|] eqn:Er; cbn [value_or_crash res_bind].
  - destruct Hl as (l' & Hlt & El & Hr & He).
    eapply sim_step; [by eapply run_translate|]. eapply sim_step; [by eapply run_label|].
    pose proof Hr as (-> & _ & H1 & _). cbn [entry_of].
    eapply sim_expected; [exact H|size|done|]. intros _. unfold emit_br_table_offset.
    eapply sim_step; [by eapply run_label|].
    pose proof (run_drop_count cells S l ls r L Hs l' r' cells k H Hr He) as Ed.
    unfold br_drop in *. destruct (Nat.ltb_spec (length S) (length (rl_entry r') + arity r')) as [|Hge];
      cbn [crash_if res_bind] in *; [by apply sim_step_crash|].
    eapply sim_step; [exact Ed|]. rewrite (label_arity _ _ Hr). pose proof (arity_small _ _ Hr).
    eapply sim_does; [eapply run_target; [exact H|size|done..]|]. intros k1 Hx. cbn beta.
    pose proof (target_size r L i r'). emits.
    destruct (run_i8 _ _ _ _ _ _ _ H' (Z.of_nat (arity r'))) as (k2 & E2 & Hy); [size|lia|].
    eapply sim_ok; [exact E2|]. by rewrite <- !app_assoc in Hy.
  - apply sim_step_crash. unfold translate_depth, se_bind at 1, so_bind at 1.
    rewrite run_get_code, (rel_labels _ _ _ _ _ H). unfold size_of. by rewrite (proj2 (Z.ltb_ge _ _)) by lia.
Qed.

End instrs3.

Lemma sim_table_entries ds cells S l ls r L k : Forall (fun i => 0 <= i) ds ->
  rel cells S (l :: ls) (r :: L) k -> size_ok cells S (r :: L) (64 + 9 * Z.of_nat (length ds)) ->
  sim (se_for (fun depth => depth <- translate_depth depth ;; label <- get_label depth ;;
         check_n_types (label_sig label) ;; emit_br_table_offset depth)%se ds) k
    (table_entries (r :: L) S ds) (fun c _ k' => rel (cells ++ c) S (l :: ls) (r :: L) k' /\
       cells_size c = 9 * Z.of_nat (length ds)).
Proof.
  intros His. revert cells k. induction His as [|i ds Hi His IH]; intros cells k H Hs; cbn [se_for table_entries].
  { eapply sim_ok; [done|]. by rewrite app_nil_r. }
  cbn [length] in Hs. pose proof (sim_table_entry cells S l ls r L k H ltac:(size) i Hi) as He.
  pose proof (table_entry_size S r L i) as Hsz.
  destruct (table_entry _ S i) as [c| |]; cbn [res_bind].
  - specialize (Hsz _ eq_refl). destruct He as (a & k' & E1 & H'). eapply sim_step; [exact E1|].
    eapply sim_map; [apply IH; [exact H'|size]|]. intros c' a' k2 (H2 & Hc). cbn [length].
    rewrite cells_size_app, Hsz, Hc. split; [by rewrite app_assoc|lia].
  - destruct He as (c' & E1). by eapply sim_step_error.
  - by eapply sim_step_crash.
Qed.

Lemma sim_br_table targets default_ cells S l ls r L k : Forall (fun i => 0 <= i) (targets ++ [default_]) ->
  rel cells S (l :: ls) (r :: L) k -> size_ok cells S (r :: L) (128 + 9 * Z.of_nat (length targets)) ->
  sim (on_br_table_expr targets default_) k
    (comp_br_table (r :: L) (base + cells_size cells) S targets default_) (gives cells (l :: ls) (r :: L)).
Proof.
  intros Hi H Hs. unfold on_br_table_expr, comp_br_table. cbn [entry_of].
  pose proof (pops_length (rl_entry r) [WASM_TYPE_I32] S) as Hlen.
  pose proof (sim_pop1 _ _ _ _ _ _ _ H ltac:(size) WASM_TYPE_I32) as Hp.
  destruct (pops (rl_entry r) [WASM_TYPE_I32] S) as [S'| |]; cbn [res_bind];
    [|destruct Hp as (c' & E1); by eapply sim_step_error|by eapply sim_step_crash].
  specialize (Hlen _ eq_refl). destruct Hp as (a & k' & E1 & H'). eapply sim_step; [exact E1|].
  emits. emits. eapply sim_step; [by eapply run_offset|]. emits. emits. emits.
  eapply sim_step; [by eapply run_offset|].
  rewrite u32_small in H'4 |- * by (unfold size_of, WASM_TABLE_ENTRY_SIZE; size).
  rewrite <- !(app_assoc ((cells ++ _) ++ u32_cells (size_of targets))) in H'4.
  eapply sim_does; [eapply run_fill; [exact H'4|size]|]. clear H' H'0 H'1 H'2 H'3 H'4. intros k5 H5. cbn beta.
  eapply sim_bind; [eapply sim_table_entries; [exact Hi|exact H5|]|].
  { rewrite length_app. size. }
  intros b c k6 (H6 & Hc). rewrite length_app in Hc. cbn [length] in Hc.
  eapply sim_done; [eapply run_unreachable; [exact H6|size]| |done].
  rewrite <- !app_assoc. unfold size_of. do 4 f_equal. f_equal. autorewrite with cells. lia.
Qed.
End sim.
