(* ===== verification/CompileBody.v ===== *)
(** * The loader on function bodies

    The callbacks of a whole body, block by block, do what [comp_body] says:
    the code of its instructions, with every branch going to the end of its
    block or the start of its loop. *)

From S2P Require Import Prelude Opcode BindingHash Vector StateOpt StateErr Stream Ast BinaryReader BinaryFormat Numeric Interp BinaryReaderInterpreter Compile CompileFacts RoundTrip.

(** ** The translation's own properties *)

Lemma res_bind_Ok {A B} (m : Res A) (f : A -> Res B) b :
  res_bind m f = Ok b -> exists a, m = Ok a /\ f a = Ok b.
Proof. destruct m; [eauto|done|done]. Qed.

Lemma res_bind_assoc {A B D} (m : Res A) (f : A -> Res B) (g : B -> Res D) :
  res_bind (res_bind m f) g = res_bind m (fun a => res_bind (f a) g).
Proof. by destruct m. Qed.

Lemma reject_Ok b : reject_if b = Ok tt -> b = false.
Proof. by destruct b. Qed.

Lemma crash_Ok b : crash_if b = Ok tt -> b = false.
Proof. by destruct b. Qed.

(** Taking apart a translation that succeeds. *)
Ltac res_step :=
  match goal with
  | H : res_bind _ _ = Ok _ |- _ =>
      let a := fresh "a" in let E := fresh "E" in apply res_bind_Ok in H as (a & E & H)
  | a : unit |- _ => destruct a
  | p : (_ * _)%type |- _ => destruct p
  | H : Ok _ = Ok _ |- _ => injection H; clear H; intros; subst
  | H : reject_if _ = Ok tt |- _ => apply reject_Ok in H
  | H : crash_if _ = Ok tt |- _ => apply crash_Ok in H
  | H : value_or_crash ?o = Ok _ |- _ => let E := fresh "E" in destruct o eqn:E; [|discriminate H]; cbn [value_or_crash] in H
  | H : value_or_reject ?o = Ok _ |- _ => let E := fresh "E" in destruct o eqn:E; [|discriminate H]; cbn [value_or_reject] in H
  end.

Section pure.
Context (T : Target) (strict : bool).

Lemma comps_fix L pos S l :
  (fix go (pos : Z) (S : Types) (l : list BInstr) : Res (list Cell * Types) :=
    match l with
    | [] => Ok ([], S)
    | i :: l =>
        res_bind (comp T strict L pos S i) (fun x => match x with (c1, S1) =>
          res_bind (go (pos + cells_size c1) S1 l) (fun x => match x with (c2, S2) => Ok (c1 ++ c2, S2) end) end)
    end) pos S l = comps T strict L pos S l.
Proof.
  revert pos S. induction l as [|i l IH]; intros pos S; [done|]. cbn [comps].
  destruct (comp T strict L pos S i) as [[c1 S1]| |]; [|done|done]. cbn [res_bind]. by rewrite IH.
Qed.

Lemma comp_block L pos S sig body : comp T strict L pos S (BI_BLOCK sig body) =
  (let* (c, S1) := comps T strict (mkRLabel None sig S :: L) pos S body ;;
   S' <- finish S sig S1 ;;
   Ok (resolve_cells (is_ref (length L)) (pos + cells_size c) c, S'))%res.
Proof. cbn [comp]. by rewrite comps_fix. Qed.

Lemma comp_loop L pos S sig body : comp T strict L pos S (BI_LOOP sig body) =
  (let* (c, S1) := comps T strict (mkRLabel (Some pos) sig S :: L) pos S body ;;
   S' <- finish S sig S1 ;; Ok (c, S'))%res.
Proof. cbn [comp]. by rewrite comps_fix. Qed.

Lemma comp_if L pos S sig true_ false_ : comp T strict L pos S (BI_IF sig true_ false_) =
  (E0 <- pops (entry_of L) [WASM_TYPE_I32] S ;;
   let L' := mkRLabel None sig E0 :: L in
   let* (c1, S1) := comps T strict L' (pos + 5) E0 true_ ;;
   match false_ with
   | [] =>
       S' <- finish E0 sig S1 ;;
       _ <- reject_if (strict && negb (bool_decide (sig = []))) ;;
       Ok (resolve_cells (is_ref (length L)) (pos + 5 + cells_size c1) (br_unless pos c1), S')
   | _ =>
       _ <- expect E0 sig S1 ;;
       _ <- (if strict then _ <- finish E0 sig S1 ;; Ok tt else Ok tt) ;;
       let pos2 := pos + 10 + cells_size c1 in
       let* (c2, S2) := comps T strict L' pos2 E0 false_ ;;
       S' <- finish E0 sig S2 ;;
       let end_ := pos2 + cells_size c2 in
       Ok (resolve_cells (is_ref (length L)) end_ (br_unless pos (c1 ++ jump_over end_) ++ c2), S')
   end)%res.
Proof.
  cbn [comp]. destruct (pops _ _ S) as [E0| |]; [|done|done]. cbn [res_bind].
  rewrite comps_fix. destruct (comps _ _ _ _ _ _) as [[c1 S1]| |]; [|done|done]. cbn [res_bind].
  rewrite comps_fix. by destruct false_.
Qed.

Lemma comps_app L pos S l1 l2 : comps T strict L pos S (l1 ++ l2) =
  (let* (c1, S1) := comps T strict L pos S l1 ;;
   let* (c2, S2) := comps T strict L (pos + cells_size c1) S1 l2 ;; Ok (c1 ++ c2, S2))%res.
Proof.
  revert pos S. induction l1 as [|i l1 IH]; intros pos S.
  { cbn [app comps res_bind]. rewrite cells_size_nil, Z.add_0_r.
    destruct (comps _ _ _ _ _ l2) as [[]| |]; done. }
  cbn [app comps]. destruct (comp _ _ _ _ _ i) as [[c S1]| |]; [|done|done]. cbn [res_bind]. rewrite IH.
  destruct (comps _ _ _ _ _ l1) as [[c1 S2]| |]; [|done|done]. cbn [res_bind].
  rewrite cells_size_app, Z.add_assoc.
  destruct (comps _ _ _ _ _ l2) as [[c2 S3]| |]; [|done|done]. cbn [res_bind]. by rewrite app_assoc.
Qed.
End pure.

(** ** Names and sizes *)

(** The names that occur in code: labels that are not loops, functions whose
    code is still to come. *)
Section scope.
Context (later : nat -> Prop).

Definition in_scope (L : list RLabel) (x : Cell) : Prop :=
  match x with
  | Ref n => exists m r, L !! m = Some r /\ (n + m + 1)%nat = length L /\ rl_loop r = None
  | FuncRef n => later n
  | Byte _ => True
  end.

Definition scoped (L : list RLabel) (c : list Cell) : Prop := Forall (in_scope L) c.

Lemma scoped_nothing L : scoped L [].
Proof. constructor. Qed.

Lemma scoped_app L c1 c2 : scoped L (c1 ++ c2) <-> scoped L c1 /\ scoped L c2.
Proof. apply Forall_app. Qed.

Lemma scoped_byte L b c : scoped L c -> scoped L (Byte b :: c).
Proof. by constructor. Qed.

Lemma scoped_raw L bs : scoped L (raw bs).
Proof. unfold raw. apply Forall_map, Forall_true. done. Qed.

Lemma scoped_resolve r L a c : scoped (r :: L) c -> scoped L (resolve_cells (is_ref (length L)) a c).
Proof.
  induction 1 as [|x c Hx Hc IH]; [constructor|]. rewrite resolve_cons. apply Forall_app. split; [|done].
  unfold resolve_cell. destruct (is_ref _ x) eqn:Ex; [apply scoped_raw|]. constructor; [|constructor].
  destruct x as [b|n|n]; [done| |exact Hx]. destruct Hx as (m & r' & Hm & Hn & Hl). cbn [length] in Hn.
  cbn in Ex. apply bool_decide_eq_false in Ex. destruct m as [|m]; [lia|]. exists m, r'. cbn in Hm.
  split_and!; [done|lia|done].
Qed.

(** No name of a loop. *)
Lemma scoped_loop r L c : rl_loop r <> None -> scoped (r :: L) c ->
  scoped L c /\ forall pos, positions (is_ref (length L)) pos c = [].
Proof.
  intros Hr. induction 1 as [|x c Hx Hc [IH1 IH2]]; [by split; [apply scoped_nothing|]|].
  assert (in_scope L x /\ is_ref (length L) x = false) as [H1 H2].
  { destruct x as [b|n|n]; [done| |by split]. destruct Hx as (m & r' & Hm & Hn & Hl). cbn [length] in Hn.
    destruct m as [|m]; [injection Hm as ->; done|]. cbn in Hm. apply lookup_lt_Some in Hm as Hlt. split.
    - exists m, r'. split_and!; [done|lia|done].
    - apply bool_decide_eq_false. lia. }
  split; [by constructor|]. intros pos. cbn [positions]. by rewrite H2, IH2.
Qed.

(** No name at all once the outermost label is left. *)
Lemma scoped_nil c pos n : scoped [] c -> positions (is_ref n) pos c = [].
Proof.
  intros H. revert pos. induction H as [|x c Hx Hc IH]; intros pos; [done|]. cbn [positions]. rewrite IH.
  destruct x as [b|m|m]; [done| |done]. by destruct Hx as (? & ? & ? & _).
Qed.
End scope.

(** The room the code and the types of an instruction take, at most. *)
Fixpoint weight (i : BInstr) : Z :=
  let weights := fix go (l : list BInstr) : Z := match l with [] => 0 | i :: l => weight i + go l end in
  match i with
  | BI_BLOCK _ body | BI_LOOP _ body => 80 + weights body
  | BI_IF _ true_ false_ => 160 + weights true_ + weights false_
  | BI_BR_TABLE targets _ => 160 + 9 * Z.of_nat (length targets)
  | _ => 80
  end.

Definition weights (l : list BInstr) : Z := foldr (fun i n => weight i + n) 0 l.

Lemma weights_fix l :
  (fix go (l : list BInstr) : Z := match l with [] => 0 | i :: l => weight i + go l end) l = weights l.
Proof. induction l as [|i l IH]; [done|]. cbn [weights foldr]. by rewrite IH. Qed.

Lemma weight_block sig body : weight (BI_BLOCK sig body) = 80 + weights body.
Proof. cbn [weight]. by rewrite weights_fix. Qed.
Lemma weight_loop sig body : weight (BI_LOOP sig body) = 80 + weights body.
Proof. cbn [weight]. by rewrite weights_fix. Qed.
Lemma weight_if sig ts fs : weight (BI_IF sig ts fs) = 160 + weights ts + weights fs.
Proof. cbn [weight]. by rewrite !weights_fix. Qed.

Lemma weights_pos l : Forall (fun i => 80 <= weight i) l -> 0 <= weights l.
Proof. induction 1; cbn [weights foldr]; [lia|]. unfold weights in *. lia. Qed.

Lemma weight_pos i : 80 <= weight i.
Proof.
  apply (BInstr_nested_ind (fun i => 80 <= weight i)); clear i.
  - intros sig body H%weights_pos. rewrite weight_block. lia.
  - intros sig body H%weights_pos. rewrite weight_loop. lia.
  - intros sig ts fs H1%weights_pos H2%weights_pos. rewrite weight_if. lia.
  - intros []; try done; cbn [weight]; lia.
Qed.

Lemma weights_nonneg l : 0 <= weights l.
Proof. apply weights_pos, Forall_true. apply weight_pos. Qed.

Lemma scoped_drop_keep later L drop keep : scoped later L (drop_keep drop keep).
Proof.
  unfold drop_keep. destruct drop; [constructor|]. destruct (_ && _); repeat constructor.
Qed.

Lemma scoped_target later L depth r : label_at L depth = Some r -> scoped later L (target_cells L depth r).
Proof.
  unfold label_at, target_cells. intros Hr. apply lookup_lt_Some in Hr as Hlt.
  destruct (rl_loop r) eqn:El; [apply scoped_raw|]. constructor; [|constructor].
  exists (Z.to_nat depth), r. split_and!; [done|lia|done].
Qed.

(** Code whose names are in scope. *)
Ltac scoped := repeat first
  [apply scoped_drop_keep | apply scoped_target; assumption | apply scoped_raw | apply scoped_nothing
  |apply scoped_byte | apply scoped_app; split | eassumption].

Section bounds.
Context (T : Target) (strict : bool).
Hypothesis Hfunc : forall i sig callee, t_func T i = Some (sig, callee) -> (length (result_types sig) <= 1)%nat.
Hypothesis Hsig : forall i ei sig, t_sig T i = Some (ei, sig) -> (length (result_types sig) <= 1)%nat.
Context (later : nat -> Prop).
Hypothesis Hlater : forall i sig j, t_func T i = Some (sig, LaterCallee j) -> later j.
Abbreviation scoped := (scoped later).

(** What the translation of one instruction gives, within [w]. *)
Definition within (L : list RLabel) (S : Types) (w : Z) (r : Res (list Cell * Types)) : Prop :=
  forall c S', r = Ok (c, S') ->
    scoped L c /\ cells_size c + 1 <= w /\ (length S' <= Nat.max (length S) (length (entry_of L)) + 1)%nat.

Lemma unreachable_length E : (length (unreachable_from E) <= length E + 1)%nat.
Proof. unfold unreachable_from. destruct (dead E); cbn; lia. Qed.

Lemma br_cells_within L depth r S c : label_at L depth = Some r -> br_cells L depth r S = Ok c ->
  scoped L c /\ cells_size c <= 11.
Proof.
  unfold br_cells, br_drop. intros Hr H. repeat res_step. subst.
  pose proof (drop_keep_size (length S - length (rl_entry r) - arity r) (arity r)).
  split; [by scoped|]. autorewrite with cells. unfold target_cells. destruct (rl_loop r); autorewrite with cells; lia.
Qed.

Lemma within_op L S op : within L S 80 (comp_op T (entry_of L) S op).
Proof.
  assert (forall ts t, within L S 80 (S <- pops (entry_of L) ts S ;; Ok ([op_cell op], pushes [t] S))%res) as Hg.
  { intros ts t c S' H. repeat res_step. subst. apply pops_length in E. pose proof (pushes_length [t] a) as Hp.
    cbn [length] in Hp. split_and!; [by scoped|autorewrite with cells; lia|lia]. }
  pose proof (unreachable_length (entry_of L)).
  pose proof (drop_keep_size (length S - length (t_results T)) (length (t_results T))).
  destruct op; try apply Hg; intros c S' H1; unfold comp_op in H1; repeat res_step;
    repeat match goal with |- context [dead ?s] => destruct (dead s) end;
    repeat match goal with H : pops _ _ _ = Ok _ |- _ => apply pops_length in H end;
    (split_and!; [by scoped|autorewrite with cells; lia|rewrite ?length_tl; lia]).
Qed.

Lemma within_call L S i : within L S 80 (comp_call T (entry_of L) S i).
Proof.
  intros c S' H. unfold comp_call in H. repeat res_step.
  match goal with H : t_func _ _ = Some _ |- _ => pose proof (Hfunc _ _ _ H); pose proof (Hlater i f) end.
  match goal with H : pops_each _ _ _ = Ok ?a |- context [pushes ?t ?a] =>
    pose proof (pushes_length t a); apply pops_each_length in H end.
  match goal with callee : Callee |- _ => destruct callee end;
    (split_and!; [first [by scoped|apply scoped_byte; repeat constructor; cbn; eauto]|autorewrite with cells; lia|lia]).
Qed.

Lemma within_index L pos S op i : within L S 80 (comp_index T L pos S op i).
Proof.
  pose proof (unreachable_length (entry_of L)).
  destruct op; try (intros c S' H1; discriminate H1); unfold comp_index; try apply within_call; intros c S' H1;
    repeat res_step;
    repeat match goal with
    | H : pops _ _ _ = Ok _ |- _ => apply pops_length in H
    | |- context [pushes ?t ?s] =>
        lazymatch goal with Hp : (length (pushes t s) <= _)%nat |- _ => fail
        | _ => pose proof (pushes_length t s); cbn [length] in * end
    | H : br_cells _ _ _ _ = Ok _ |- _ => apply br_cells_within in H as [? ?]; [|assumption]
    end;
    unfold br_unless; (split_and!; [first [assumption|by scoped]|autorewrite with cells; lia|lia]).
Qed.

Lemma table_entries_within L S ds c : table_entries L S ds = Ok c ->
  scoped L c /\ cells_size c = 9 * Z.of_nat (length ds).
Proof.
  revert c. induction ds as [|d ds IH]; intros c H; cbn [table_entries] in H; repeat res_step; [by split; [scoped|]|].
  apply IH in H as [H1 H2] || match goal with H : table_entries _ _ _ = Ok _ |- _ => apply IH in H as [H1 H2] end.
  match goal with H : table_entry _ _ _ = Ok _ |- _ => unfold table_entry in H end. repeat res_step.
  split.
  - apply Forall_app. split; [by scoped|done].
  - autorewrite with cells. rewrite H2. unfold target_cells. cbn [length].
    destruct (rl_loop _); autorewrite with cells; lia.
Qed.

Lemma within_br_table L pos S targets default_ :
  within L S (160 + 9 * Z.of_nat (length targets)) (comp_br_table L pos S targets default_).
Proof.
  intros c S' H. unfold comp_br_table in H. repeat res_step. pose proof (unreachable_length (entry_of L)).
  match goal with H : table_entries _ _ _ = Ok _ |- _ => apply table_entries_within in H as [H1 H2] end.
  rewrite length_app in H2. cbn [length] in H2.
  split_and!; [|autorewrite with cells; lia|lia].
  by scoped.
Qed.

Ltac pushed :=
  repeat match goal with
  | H : pops _ _ _ = Ok _ |- _ => apply pops_length in H
  | H : pops_each _ _ _ = Ok _ |- _ => apply pops_each_length in H
  | |- context [pushes ?t ?s] =>
      lazymatch goal with Hp : (length (pushes t s) <= _)%nat |- _ => fail
      | _ => pose proof (pushes_length t s); cbn [length] in * end
  end.

Lemma within_call_indirect L S i : within L S 80 (comp_call_indirect T (entry_of L) S i).
Proof.
  intros c S' H. unfold comp_call_indirect in H. repeat res_step.
  match goal with H : t_sig _ _ = Some _ |- _ => apply Hsig in H end.
  pushed. split_and!; [by scoped|autorewrite with cells; lia|lia].
Qed.

Lemma within_const L S k : within L S 80 (Ok (comp_const S k)).
Proof.
  intros c S' [= H]. unfold comp_const in H.
  destruct (const_type k); injection H as <- <-; pushed; (split_and!; [by scoped|autorewrite with cells; lia|lia]).
Qed.

Lemma within_memory L S op o : within L S 80 (comp_memory T (entry_of L) S op o).
Proof.
  intros c S' H. unfold comp_memory in H. repeat res_step. pushed.
  split_and!; [by scoped|autorewrite with cells; lia|lia].
Qed.

Lemma within_reserved L S op : within L S 80 (comp_reserved T (entry_of L) S op).
Proof.
  intros c S' H. unfold comp_reserved in H. repeat res_step.
  assert (length a <= length S)%nat by (destruct op; repeat res_step; by eauto using pops_length).
  pushed. split_and!; [by scoped|autorewrite with cells; lia|lia].
Qed.

(** A list of instructions, one type each. *)
Definition all_within (L : list RLabel) (S : Types) (l : list BInstr) (r : Res (list Cell * Types)) : Prop :=
  forall c S', r = Ok (c, S') ->
    scoped L c /\ cells_size c + Z.of_nat (length l) <= weights l /\
    (length S' <= Nat.max (length S) (length (entry_of L)) + length l)%nat.

Lemma within_comps L pos S l :
  Forall (fun i => forall L pos S, within L S (weight i) (comp T strict L pos S i)) l ->
  all_within L S l (comps T strict L pos S l).
Proof.
  intros Hl. revert pos S. induction Hl as [|i l Hi Hl IH]; intros pos S c S' H; cbn [comps] in H; repeat res_step.
  { split_and!; [by scoped|by rewrite cells_size_nil|cbn; lia]. }
  match goal with H : comp _ _ _ _ _ _ = Ok _ |- _ => apply Hi in H as (? & ? & ?) end.
  match goal with H : comps _ _ _ _ _ _ = Ok _ |- _ => apply IH in H as (? & ? & ?) end.
  cbn [weights foldr length]. autorewrite with cells. unfold weights in *. split_and!; [by apply Forall_app|lia|lia].
Qed.

Lemma finish_length e sig S S' : finish e sig S = Ok S' -> (length S' <= length e + length sig)%nat.
Proof. unfold finish. intros H. repeat res_step. apply pushes_length. Qed.

Lemma ok_sig_length sig : ok_sig sig = true -> (length sig <= 1)%nat.
Proof. by intros [?%Nat.leb_le _]%andb_true_iff. Qed.

Lemma within_body ns nf l L pos S :
  Forall (fun i => ok_instr ns nf i = true -> forall L pos S, within L S (weight i) (comp T strict L pos S i)) l ->
  forallb (ok_instr ns nf) l = true -> all_within L S l (comps T strict L pos S l).
Proof.
  intros Hl Hok%forallb_Forall. apply within_comps. eapply Forall_impl; [apply Forall_and; split; [exact Hl|exact Hok]|].
  intros i [Hi Hoi]. auto.
Qed.

Lemma comp_within ns nf i : ok_instr ns nf i = true -> forall L pos S, within L S (weight i) (comp T strict L pos S i).
Proof.
  apply (BInstr_nested_ind (fun i => ok_instr ns nf i = true ->
    forall L pos S, within L S (weight i) (comp T strict L pos S i))); clear i.
  - intros sig body Hb [Hs%ok_sig_length Hok]%andb_true_iff L pos S c S' H.
    rewrite comp_block in H. repeat res_step. rewrite weight_block.
    match goal with H : finish _ _ _ = Ok _ |- _ => apply finish_length in H end.
    match goal with H : comps _ _ _ _ _ _ = Ok _ |- _ => apply (within_body ns nf body) in H as (? & ? & ?); [|done|done] end.
    split_and!; [eapply scoped_resolve; eassumption|rewrite cells_size_resolve by done; lia|lia].
  - intros sig body Hb [Hs%ok_sig_length Hok]%andb_true_iff L pos S c S' H.
    rewrite comp_loop in H. repeat res_step. rewrite weight_loop.
    match goal with H : finish _ _ _ = Ok _ |- _ => apply finish_length in H end.
    match goal with H : comps _ _ _ _ _ _ = Ok _ |- _ => apply (within_body ns nf body) in H as (? & ? & ?); [|done|done] end.
    split_and!; [eapply scoped_loop; [|eassumption]; done|lia|lia].
  - intros sig ts fs Hts Hfs [[Hs%ok_sig_length Hokt]%andb_true_iff Hokf]%andb_true_iff L pos S c S' H.
    rewrite comp_if in H. repeat res_step. cbv zeta in H. repeat res_step. rewrite weight_if. unfold br_unless, jump_over in *.
    match goal with H : pops _ _ _ = Ok _ |- _ => apply pops_length in H end.
    match goal with H : comps _ _ _ _ _ ts = Ok _ |- _ => apply (within_body ns nf ts) in H as (? & ? & ?); [|done|done] end.
    destruct fs as [|f fs]; [|remember (f :: fs) as fs'; clear Heqfs'].
    + repeat res_step. match goal with H : finish _ _ _ = Ok _ |- _ => apply finish_length in H end.
      cbn [weights foldr].
      split_and!; [eapply scoped_resolve|rewrite cells_size_resolve by done|lia]; [|autorewrite with cells; lia].
      by scoped.
    + repeat res_step. match goal with H : finish _ _ _ = Ok S' |- _ => apply finish_length in H end.
      match goal with H : comps _ _ _ _ _ fs' = Ok _ |- _ => apply (within_body ns nf fs') in H as (? & ? & ?); [|done|done] end.
      split_and!; [eapply scoped_resolve|rewrite cells_size_resolve by done|lia]; [|autorewrite with cells; lia].
      by scoped.
  - intros i. destruct i; try done; intros _ L pos S; cbn [weight comp].
    + apply within_op.
    + intros c S' Hc. apply res_bind_Ok in Hc as (u & _ & Hc). exact (within_index _ _ _ _ _ _ _ Hc).
    + apply within_br_table.
    + apply within_call_indirect.
    + apply within_const.
    + apply within_memory.
    + apply within_reserved.
Qed.
End bounds.

(** ** Blocks *)

Section blocks.
Context (uninit_entry : nat -> WasmBindingHashEntry) (c0 : Context) (cur : Z) (T : Target)
  (later : nat -> Prop) (Hst : statics c0 cur T later) (old : list Z).

Abbreviation base := (Z.of_nat (length old)).
Abbreviation at_ k := (set_code k c0).
Abbreviation Rel := (rel cur T later old).
Abbreviation Size := (size_ok old).
Abbreviation Sim := (sim c0).

Ltac size_nonneg c :=
  lazymatch goal with Hc : 0 <= cells_size c |- _ => fail | _ => pose proof (cells_size_nonneg c) end.
Ltac size := unfold size_ok in *; autorewrite with cells in *; cbn [length app] in *;
  repeat match goal with
  | |- context [cells_size ?c] => size_nonneg c
  | _ : context [cells_size ?c] |- _ => size_nonneg c
  end; lia.
Ltac emit_goal :=
  lazymatch goal with
  | |- exists k', emit_opcode _ _ = _ /\ _ => eapply run_opcode
  | |- exists k', emit_i32 _ _ = _ /\ _ => eapply run_i32
  | |- exists k', emit_i64 _ _ = _ /\ _ => eapply run_i64
  end; [eassumption|size].
Ltac emits := eapply sim_does;
  [emit_goal|let k' := fresh "k'" in let H' := fresh "H'" in intros k' H'; cbn beta].

Lemma chain_pushes locals S r L ts : chain locals S (r :: L) -> all_values ts ->
  chain locals (pushes ts S) (r :: L).
Proof.
  intros Hc Hts. unfold pushes. destruct (dead S) eqn:Hd; [done|].
  apply chain_push; [done|done|]. apply Forall_rev, list.Forall_forall.
  intros t [_ Ht]%list_elem_of_filter. by eapply list.Forall_forall in Hts.
Qed.

Lemma run_push_label cells S l ls r L k ty loop sig off fix_ :
  Rel cells S (l :: ls) (r :: L) k -> Size cells S (r :: L) 0 -> (length sig <= 1)%nat -> all_values sig ->
  match loop with
  | Some start => ty = LABEL_TYPE_LOOP /\ off = start /\ start <> WASM_INVALID_OFFSET
  | None => ty <> LABEL_TYPE_LOOP /\ off = WASM_INVALID_OFFSET
  end ->
  exists k', push_label ty sig off fix_ (at_ k) = Some (Some tt, at_ k') /\
    Rel cells S (mkLabel ty sig (Z.of_nat (length S)) off fix_ :: l :: ls) (mkRLabel loop sig S :: r :: L) k'.
Proof.
  intros H Hs Hl Hv Hty.
  exists (set_label_stack (mkLabel ty sig (Z.of_nat (length S)) off fix_ :: label_stack k) k). split.
  - unfold push_label. rewrite run_modify_code, (rel_types _ _ _ _ _ _ _ _ _ H). unfold size_of.
    by rewrite u32_small by size.
  - pose proof (rel_chain _ _ _ _ _ _ _ _ _ H) as Hc. destruct H as [? Ht Hls Hlb ? ? ? Hd Hr Hf].
    constructor; cbn [current_func type_stack label_stack istream_offset istream_writer depth_fixups
      func_fixups set_label_stack]; try done.
    + by rewrite Hls.
    + constructor; [|done]. by split_and!; cbn; [| |done|done|destruct loop].
    + split_and!; [by eapply chain_clean|done|done].
    + cbn [length] in *. lia.
Qed.

Lemma run_pop_label cells S l' l ls r' r L k :
  Rel cells S (l' :: l :: ls) (r' :: r :: L) k -> Size cells S (r' :: r :: L) 0 ->
  (forall pos, positions (is_ref (length (l :: ls))) pos cells = []) -> chain (t_locals T) S (r :: L) ->
  exists k', pop_label (at_ k) = Some (Some tt, at_ k') /\ Rel cells S (l :: ls) (r :: L) k'.
Proof.
  intros H Hs Hno Hc. eexists. split.
  - unfold pop_label, se_bind at 1, so_bind at 1. erewrite run_top_label by done. rewrite run_modify_code. reflexivity.
  - destruct H as [? Ht Hls Hlb ? ? ? Hd Hr Hf]. rewrite Hls. cbn [tail].
    constructor; cbn [current_func type_stack label_stack istream_offset istream_writer depth_fixups
      func_fixups set_label_stack put_fixups set_fixups]; try done.
    + by inversion Hlb.
    + rewrite length_take. lia.
    + intros n. destruct (decide (n < length (l :: ls))%nat).
      * rewrite lookup_take_lt by done. apply Hr.
      * rewrite lookup_take_ge by lia. cbn [default].
        destruct (decide (n = length (l :: ls))) as [->|]; [by rewrite Hno|].
        rewrite <- Hr. rewrite lookup_ge_None_2; [done|]. cbn [length] in *. lia.
Qed.

(** What every [end] does once the operands of an [if] are filled in. *)
Definition end_tail (label : Label) (offset : Z) : IM unit :=
  (check_n_types (label_sig label) ;; check_type_stack_limit_exact (size_of (label_sig label)) ;;
   fixup_top_label offset ;; reset_type_stack_to_limit ;; push_types (label_sig label) ;; pop_label)%se.

Lemma sim_end_tail full S l' l ls r' r L k v :
  Rel full S (l' :: l :: ls) (r' :: r :: L) k -> Size full S (r' :: r :: L) 64 ->
  Sim (end_tail l' v) k (finish (rl_entry r') (rl_sig r') S)
    (fun S' _ k' => Rel (resolve_cells (is_ref (length (r :: L))) v full) S' (l :: ls) (r :: L) k').
Proof.
  intros H Hs. assert (label_rel l' r') as (Hsig & _ & H1 & Hv & _) by (by eapply label_of).
  pose proof (length_labels _ _ _ _ _ _ _ _ _ H) as Hll. cbn [length] in Hll.
  unfold end_tail, finish. rewrite Hsig. eapply sim_expected; [exact Hst|exact H|size|done|]. intros _.
  pose proof (run_check_limit_exact _ _ _ _ Hst _ _ _ _ _ _ _ _ H ltac:(size) (length (rl_sig r'))) as Hx.
  destruct (negb (dead S) && negb (above (rl_entry r') S =? length (rl_sig r'))%nat); cbn [reject_if res_bind];
    [by eapply sim_step_error|]. eapply sim_step; [exact Hx|].
  eapply sim_does; [eapply run_fixup_top; [exact H|size]|]. intros k1 Ha. cbn beta.
  assert (length (l :: ls) = length (r :: L)) as Hle by (cbn [length]; lia). rewrite Hle in Ha.
  pose proof (entry_length _ _ _ _ _ _ _ _ _ _ _ H) as He.
  assert (cells_size (resolve_cells (is_ref (length (r :: L))) v full) = cells_size full) as Hsz
    by (by apply cells_size_resolve).
  eapply sim_does; [eapply loader_reset; [exact Ha|size]|]. intros k2 Hb. cbn beta.
  eapply sim_does; [eapply loader_push_types; [exact Hst|exact Hb|size|done|done]|]. intros k3 Hc. cbn beta.
  pose proof (pushes_length (rl_sig r') (rl_entry r')).
  destruct (run_pop_label _ _ _ _ _ _ _ _ _ Hc) as (k4 & E4 & H4); [size| | |].
  - intros pos. rewrite Hle. by apply positions_resolved.
  - apply chain_pushes; [|done]. apply (rel_chain _ _ _ _ _ _ _ _ _ H).
  - by eapply sim_ok.
Qed.

(** A name that is not in the code before. *)
Lemma resolve_after cells c S l ls r L k v : Rel cells S (l :: ls) (r :: L) k ->
  resolve_cells (is_ref (length (r :: L))) v (cells ++ c) =
  cells ++ resolve_cells (is_ref (length (r :: L))) v c.
Proof.
  intros H. pose proof (length_labels _ _ _ _ _ _ _ _ _ H) as Hll. rewrite resolve_app. f_equal.
  apply (resolve_none _ _ base). eapply rel_no_refs; [exact H|lia].
Qed.

(** *** A list of instructions *)

Abbreviation run_cbs cbs := (se_for (s_binary_reader uninit_entry) cbs).

Definition simulates (cbs : list Callback) (w : Z)
    (f : list RLabel -> Z -> Types -> Res (list Cell * Types)) : Prop :=
  forall cells S l ls r L k, Rel cells S (l :: ls) (r :: L) k -> Size cells S (r :: L) w ->
    Sim (run_cbs cbs) k (f (r :: L) (base + cells_size cells) S) (gives cur T later old cells (l :: ls) (r :: L)).

Lemma sim_cbs_app {B} cbs1 cbs2 k (r : Res B) Q :
  Sim (run_cbs cbs1 ;; run_cbs cbs2)%se k r Q -> Sim (run_cbs (cbs1 ++ cbs2)) k r Q.
Proof. apply sim_eq. apply se_for_app. Qed.

(** Callbacks the loader does not have. *)
Lemma sim_cb1 {B} cb k (r : Res B) Q : Sim (s_binary_reader uninit_entry cb) k r Q -> Sim (run_cbs [cb]) k r Q.
Proof.
  apply sim_eq. cbn [se_for]. unfold se_bind, so_bind.
  destruct (s_binary_reader _ _ _) as [[[[]|] s]|]; done.
Qed.

Lemma sim_cbs_cons {B} cb cbs k (r : Res B) Q :
  Sim (s_binary_reader uninit_entry cb ;; run_cbs cbs)%se k r Q -> Sim (run_cbs (cb :: cbs)) k r Q.
Proof. done. Qed.

Lemma sim_tail {B} (m : IM unit) cbs k (r : Res B) Q :
  (forall s, run_cbs cbs s = Some (Some tt, s)) -> Sim m k r Q -> Sim (m ;; run_cbs cbs)%se k r Q.
Proof.
  intros Hc. apply sim_eq. unfold se_bind, so_bind. destruct (m _) as [[[[]|] s]|]; [apply Hc|done|done].
Qed.

Lemma gives_app cells c1 c2 S2 ls L k (a : unit) :
  gives cur T later old (cells ++ c1) ls L (c2, S2) a k -> gives cur T later old cells ls L (c1 ++ c2, S2) a k.
Proof. unfold gives. cbn [fst snd]. by rewrite app_assoc. Qed.

(** The callback of an instruction between the ones that only trace. *)
Lemma sim_one {B} cb0 cb cbs k (r : Res B) Q :
  s_binary_reader uninit_entry cb0 = se_ret tt -> (forall s, run_cbs cbs s = Some (Some tt, s)) ->
  Sim (s_binary_reader uninit_entry cb) k r Q -> Sim (run_cbs (cb0 :: cb :: cbs)) k r Q.
Proof.
  intros H0 Hc H. apply sim_cbs_cons. rewrite H0, se_bind_ret. apply sim_cbs_cons. by apply sim_tail.
Qed.

(** Instructions without blocks. *)
Lemma simulates_flat ns nf i : ok_instr ns nf i = true ->
  match i with BI_BLOCK _ _ | BI_LOOP _ _ | BI_IF _ _ _ => True
  | _ => simulates (instr_callbacks i) (weight i) (fun L pos S => comp T false L pos S i)
  end.
Proof.
  intros Hok. destruct i as [op| | | |op index|targets d|si|c|op a o|op]; try done;
    intros cells S l ls r L k H Hs; cbn [weight instr_callbacks comp ok_instr entry_of] in *.
  - apply is_some_inv in Hok as [cb Hcb]. rewrite Hcb. apply sim_one; [done|done|].
    eapply sim_op; [exact Hst|exact H|size|done].
  - apply andb_true_iff in Hok as [[[cb Hcb]%is_some_inv Hu%ok_u32_in]%andb_true_iff _]. rewrite Hcb.
    apply sim_one; [done|done|]. assert (0 <= index) as Hi by (destruct Hu; lia).
    destruct op; try discriminate Hcb; injection Hcb as <-; cbn [s_binary_reader].
    + eapply sim_br; [exact Hst|exact H|size|done].
    + eapply sim_br_if; [exact Hst|exact H|size|done].
    + eapply sim_call; [exact Hst|exact H|size].
    + eapply sim_get_local; [exact Hst|exact H|size|done].
    + eapply sim_set_local; [exact Hst|exact H|size|done].
    + eapply sim_tee_local; [exact Hst|exact H|size|done].
    + eapply sim_get_global; [exact Hst|exact H|size|done].
    + eapply sim_set_global; [exact Hst|exact H|size|done].
  - apply andb_true_iff in Hok as [Ht%forallb_Forall Hd%ok_u32_in]. apply sim_one; [done|done|].
    eapply sim_br_table; [exact Hst| |exact H|size]. apply Forall_app. split.
    + eapply Forall_impl; [exact Ht|]. intros d' Hd'%ok_u32_in. destruct Hd'. lia.
    + repeat constructor. destruct Hd. lia.
  - apply sim_one; [done|done|]. eapply sim_call_indirect; [exact Hst|exact H|size].
  - eapply sim_const; [exact Hst|exact H|size|]. unfold const_ok in Hok. destruct (const_type c); try done; rewrite !elem_of_cons; auto 10.
  - apply andb_true_iff in Hok as [[[[cb Hcb]%is_some_inv _]%andb_true_iff _]%andb_true_iff _]. rewrite Hcb.
    apply sim_one; [done|done|]. eapply sim_memory; [exact Hst|exact H|size|done].
  - apply is_some_inv in Hok as [cb Hcb]. rewrite Hcb. apply sim_one; [done|done|].
    eapply sim_reserved; [exact Hst|exact H|size|done].
Qed.

Lemma func_results i sig callee : t_func T i = Some (sig, callee) -> (length (result_types sig) <= 1)%nat.
Proof. intros E. pose proof (st_callee _ _ _ _ Hst i) as Hc. rewrite E in Hc. apply Hc. Qed.

Lemma sig_results i ei sig : t_sig T i = Some (ei, sig) -> (length (result_types sig) <= 1)%nat.
Proof. intros E. pose proof (st_sig _ _ _ _ Hst i) as Hc. rewrite E in Hc. apply Hc. Qed.

Lemma func_later i sig j : t_func T i = Some (sig, LaterCallee j) -> later j.
Proof.
  intros E. pose proof (st_callee _ _ _ _ Hst i) as Hc. rewrite E in Hc. destruct Hc as (_ & ei & f & _ & _ & _ & Hf).
  unfold callee_fine in Hf. destruct (func_body f); [|done]. by destruct Hf as (_ & _ & _ & ? & _).
Qed.

Lemma sim_more {B} (m : IM unit) k (r : Res B) (f : B -> list Cell * Types) cells c1 ls L :
  Sim m k r (fun b a k' => gives cur T later old (cells ++ c1) ls L (f b) a k') ->
  Sim m k (res_bind r (fun b => match f b with (c2, S2) => Ok (c1 ++ c2, S2) end)) (gives cur T later old cells ls L).
Proof.
  unfold sim. destruct r as [b| |]; [|done|done]. cbn [res_bind]. intros (a & k' & E & H). destruct (f b) as [c2 S2].
  exists a, k'. split; [done|]. by apply gives_app.
Qed.

Lemma simulates_list ns nf l :
  Forall (fun i => ok_instr ns nf i = true ->
    simulates (instr_callbacks i) (weight i) (fun L pos S => comp T false L pos S i)) l ->
  forallb (ok_instr ns nf) l = true ->
  simulates (instrs_callbacks l) (weights l) (fun L pos S => comps T false L pos S l).
Proof.
  induction 1 as [|i l Hi Hl IH]; intros Hok cells S l0 ls r L k H Hs.
  { cbn [comps]. eapply sim_ok; [done|]. unfold gives. cbn [fst snd]. by rewrite app_nil_r. }
  cbn [forallb] in Hok. apply andb_true_iff in Hok as [Hok1 Hok2].
  change (instrs_callbacks (i :: l)) with (instr_callbacks i ++ instrs_callbacks l). apply sim_cbs_app. cbn [comps].
  cbn [weights foldr] in Hs. fold (weights l) in Hs.
  pose proof (comp_within T false func_results sig_results later func_later ns nf i Hok1 (r :: L) (base + cells_size cells) S) as Hw.
  pose proof (weights_nonneg l). pose proof (weight_pos i).
  pose proof (entry_length _ _ _ _ _ _ _ _ _ _ _ H) as He.
  specialize (Hi Hok1 cells S l0 ls r L k H ltac:(size)).
  destruct (comp T false (r :: L) (base + cells_size cells) S i) as [[c1 S1]| |]; cbn [res_bind].
  - destruct (Hw c1 S1 eq_refl) as (_ & Hw1 & Hw2). cbn [entry_of] in Hw2.
    destruct Hi as (a & k' & E & H'). eapply sim_step; [exact E|].
    apply (sim_more _ _ _ id). replace (base + cells_size cells + cells_size c1) with (base + cells_size (cells ++ c1)) by size.
    apply IH; [done|exact H'|size].
  - destruct Hi as (c' & E). by eapply sim_step_error.
  - by eapply sim_step_crash.
Qed.

(** The rest of an arm and its [end]; [filled v] is the code before the arm
    once the operand that was left out is [v]. *)
Lemma sim_arm_end ns nf body l' l ls r' r L cells S k (filled : Z -> list Cell) :
  Forall (fun i => ok_instr ns nf i = true ->
    simulates (instr_callbacks i) (weight i) (fun L pos S => comp T false L pos S i)) body ->
  forallb (ok_instr ns nf) body = true ->
  Rel cells S (l' :: l :: ls) (r' :: r :: L) k -> Size cells S (r' :: r :: L) (weights body + 64) ->
  (forall v, cells_size (filled v) = cells_size cells) ->
  (forall c S1 k1 v, Rel (cells ++ c) S1 (l' :: l :: ls) (r' :: r :: L) k1 ->
    Size (cells ++ c) S1 (r' :: r :: L) 0 ->
    exists k2, match label_type l' with
      | LABEL_TYPE_IF | LABEL_TYPE_ELSE => emit_i32_at (fixup_offset l') v
      | LABEL_TYPE_BLOCK | LABEL_TYPE_LOOP => se_ret tt
      | LABEL_TYPE_FUNC => se_error
      end (at_ k1) = Some (Some tt, at_ k2) /\ Rel (filled v ++ c) S1 (l' :: l :: ls) (r' :: r :: L) k2) ->
  Sim (run_cbs (instrs_callbacks body ++ [CB_on_opcode (opcode_code WASM_OPCODE_END); CB_on_end_expr])) k
    (let* (c, S1) := comps T false (r' :: r :: L) (base + cells_size cells) S body ;;
     S' <- finish (rl_entry r') (rl_sig r') S1 ;; Ok (c, S'))%res
    (fun p _ k' =>
       let v := base + cells_size cells + cells_size (fst p) in
       Rel (resolve_cells (is_ref (length (r :: L))) v (filled v ++ fst p)) (snd p) (l :: ls) (r :: L) k').
Proof.
  intros Hi Hok H Hs Hsz Hfill. apply sim_cbs_app.
  pose proof (weights_nonneg body). pose proof (entry_length _ _ _ _ _ _ _ _ _ _ _ H) as He.
  pose proof (simulates_list ns nf body Hi Hok cells S _ _ _ _ k H ltac:(size)) as Hb.
  cbv beta in Hb.
  pose proof (within_body T false later ns nf body (r' :: r :: L) (base + cells_size cells) S) as Hw.
  destruct (comps T false _ _ _ body) as [[c S1]| |]; cbn [res_bind];
    [|destruct Hb as (c' & E); by eapply sim_step_error|by eapply sim_step_crash].
  destruct (Hw ltac:(apply Forall_true; intros i Hoi; by apply (comp_within T false func_results sig_results later func_later ns nf))
    Hok c S1 eq_refl) as (_ & Hw1 & Hw2).
  cbn [entry_of] in Hw2. destruct Hb as (a & k1 & E & H1). unfold gives in H1. cbn [fst snd] in H1.
  eapply sim_step; [exact E|]. apply sim_one; [done|done|]. cbn [s_binary_reader].
  unfold on_end_expr. eapply sim_step; [eapply run_top_label; [exact H1|size]|]. cbn beta.
  eapply sim_step; [eapply run_offset; exact H1|]. cbn beta.
  destruct (Hfill c S1 k1 (base + cells_size (cells ++ c)) H1 ltac:(size)) as (k2 & E2 & H2).
  eapply sim_step; [exact E2|]. cbn beta.
  pose proof (sim_end_tail _ _ _ _ _ _ _ _ _ (base + cells_size (cells ++ c)) H2) as Ht.
  assert (Size (filled (base + cells_size (cells ++ c)) ++ c) S1 (r' :: r :: L) 64) as Hs2
    by (unfold size_ok in *; rewrite cells_size_app, Hsz; size).
  specialize (Ht Hs2). fold (end_tail l' (base + cells_size (cells ++ c))).
  rewrite cells_size_app, Z.add_assoc in Ht |- *.
  destruct (finish (rl_entry r') (rl_sig r') S1) as [S'| |]; cbn [res_bind]; [|done|done].
  destruct Ht as (a' & k3 & E3 & H3). by eapply sim_ok.
Qed.

Abbreviation sims ns nf := (fun i => ok_instr ns nf i = true ->
  simulates (instr_callbacks i) (weight i) (fun L pos S => comp T false L pos S i)).

(** The callbacks that open a block. *)
Lemma sim_open {B} cb0 cb cb' cbs k k' (r : Res B) Q :
  s_binary_reader uninit_entry cb0 = se_ret tt -> s_binary_reader uninit_entry cb' = se_ret tt ->
  s_binary_reader uninit_entry cb (at_ k) = Some (Some tt, at_ k') ->
  Sim (run_cbs cbs) k' r Q -> Sim (run_cbs ([cb0; cb; cb'] ++ cbs)) k r Q.
Proof.
  intros H0 H1 E H. cbn [app]. apply sim_cbs_cons. rewrite H0, se_bind_ret. apply sim_cbs_cons.
  eapply sim_step; [exact E|]. apply sim_cbs_cons. by rewrite H1, se_bind_ret.
Qed.

Lemma ok_sig_values sig : ok_sig sig = true -> (length sig <= 1)%nat /\ all_values sig.
Proof.
  intros [?%Nat.leb_le H%forallb_Forall]%andb_true_iff. split; [done|].
  eapply Forall_impl; [exact H|]. intros t Ht. by destruct t.
Qed.

Lemma simulates_block ns nf sig body : Forall (sims ns nf) body ->
  sims ns nf (BI_BLOCK sig body).
Proof.
  intros Hb [[H1 Hv]%ok_sig_values Hok]%andb_true_iff cells S l ls r L k H Hs.
  rewrite comp_block. rewrite weight_block in Hs. cbn [instr_callbacks]. rewrite instrs_callbacks_fix.
  pose proof (weights_nonneg body).
  destruct (run_push_label cells S l ls r L k LABEL_TYPE_BLOCK None sig WASM_INVALID_OFFSET WASM_INVALID_OFFSET H)
    as (k1 & E1 & Hr1); [size|done|done|done|].
  eapply sim_open; [done|done|exact E1|].
  pose proof (sim_arm_end ns nf body _ l ls _ r L cells S k1 (fun _ => cells) Hb Hok Hr1) as Ha.
  cbn [rl_entry rl_sig label_type] in Ha.
  specialize (Ha ltac:(size) ltac:(done) ltac:(eauto)).
  set (cs := comps _ _ _ _ _ _) in *. destruct cs as [[c S1]| |]; cbn [res_bind] in *; [|done|done].
  destruct (finish S sig S1) as [S'| |]; cbn [res_bind] in *; [|done|done].
  destruct Ha as (a & k2 & E2 & H2). eapply sim_ok; [exact E2|]. unfold gives. cbn [fst snd] in *.
  by erewrite resolve_after in H2.
Qed.

Lemma simulates_loop ns nf sig body : Forall (sims ns nf) body ->
  sims ns nf (BI_LOOP sig body).
Proof.
  intros Hb [[H1 Hv]%ok_sig_values Hok]%andb_true_iff cells S l ls r L k H Hs.
  rewrite comp_loop. rewrite weight_loop in Hs. cbn [instr_callbacks]. rewrite instrs_callbacks_fix.
  pose proof (weights_nonneg body).
  destruct (run_push_label cells S l ls r L k LABEL_TYPE_LOOP (Some (base + cells_size cells)) sig
    (base + cells_size cells) WASM_INVALID_OFFSET H) as (k1 & E1 & Hr1); [size|done|done| |].
  { split_and!; [done|done|]. unfold WASM_INVALID_OFFSET. size. }
  eapply sim_open; [done|done| |].
  { cbn [s_binary_reader]. unfold on_loop_expr, se_bind at 1, so_bind at 1. erewrite run_offset by exact H. exact E1. }
  pose proof (sim_arm_end ns nf body _ l ls _ r L cells S k1 (fun _ => cells) Hb Hok Hr1) as Ha.
  cbn [rl_entry rl_sig label_type] in Ha.
  specialize (Ha ltac:(size) ltac:(done) ltac:(eauto)).
  pose proof (within_body T false later ns nf body (mkRLabel (Some (base + cells_size cells)) sig S :: r :: L)
    (base + cells_size cells) S) as Hw.
  specialize (Hw ltac:(apply Forall_true; intros i Hoi; by apply (comp_within T false func_results sig_results later func_later ns nf)) Hok).
  set (cs := comps _ _ _ _ _ _) in *. destruct cs as [[c S1]| |]; cbn [res_bind] in *; [|done|done].
  destruct (finish S sig S1) as [S'| |]; cbn [res_bind] in *; [|done|done].
  destruct Ha as (a & k2 & E2 & H2). eapply sim_ok; [exact E2|]. unfold gives. cbn [fst snd] in *.
  erewrite resolve_after in H2 by exact H. destruct (Hw c S1 eq_refl) as (Hsc & _).
  apply scoped_loop in Hsc as [_ Hno]; [|done]. by rewrite (resolve_none _ _ 0) in H2.
Qed.

(** *** If and else *)

Lemma sim_if_open sig cells S l ls r L k : (length sig <= 1)%nat -> all_values sig ->
  Rel cells S (l :: ls) (r :: L) k -> Size cells S (r :: L) 64 ->
  Sim (on_if_expr sig) k (pops (rl_entry r) [WASM_TYPE_I32] S) (fun E0 _ k' => (length E0 <= length S)%nat /\
    let pre := cells ++ [opcode_cell WASM_OPCODE_BR_UNLESS] in
    Rel (pre ++ u32_cells WASM_INVALID_OFFSET) E0
      (mkLabel LABEL_TYPE_IF sig (Z.of_nat (length E0)) WASM_INVALID_OFFSET (base + cells_size pre) :: l :: ls)
      (mkRLabel None sig E0 :: r :: L) k').
Proof.
  intros H1 Hv H Hs. unfold on_if_expr.
  pose proof (loader_check_limit _ _ _ _ Hst _ _ _ _ _ _ _ _ H ltac:(size) 1) as Hlim.
  assert (negb (dead S) && (above (rl_entry r) S <? 1)%nat = true -> pops (rl_entry r) [WASM_TYPE_I32] S = Rejected) as Hrej.
  { unfold pops, expect. destruct (dead S); [done|]. cbn [negb andb length]. by intros ->. }
  destruct (negb (dead S) && (above (rl_entry r) S <? 1)%nat) eqn:Eb.
  { rewrite Hrej by done. by eapply sim_step_error. }
  eapply sim_step; [exact Hlim|].
  pose proof (sim_pop1 _ _ _ _ Hst _ _ _ _ _ _ _ _ H ltac:(size) WASM_TYPE_I32) as Hp.
  pose proof (pops_length (rl_entry r) [WASM_TYPE_I32] S) as Hlen.
  destruct (pops (rl_entry r) [WASM_TYPE_I32] S) as [E0| |];
    [|destruct Hp as (c' & E1); by eapply sim_step_error|by eapply sim_step_crash].
  specialize (Hlen _ eq_refl). destruct Hp as (a & k0 & E1 & H0). eapply sim_step; [exact E1|].
  emits. eapply sim_step; [eapply run_offset; exact H'|]. cbn beta. emits.
  destruct (run_push_label _ _ _ _ _ _ _ LABEL_TYPE_IF None sig WASM_INVALID_OFFSET
    (base + cells_size (cells ++ [opcode_cell WASM_OPCODE_BR_UNLESS])) H'0) as (k1 & E2 & H2); [size|done|done|done|].
  by eapply sim_ok.
Qed.

Lemma run_top_type_size cells S l ls r L k : Rel cells S (l :: ls) (r :: L) k -> Size cells S (r :: L) 0 ->
  exists k', set_type_stack_size (type_stack_limit_of l) (at_ k) = Some (Some tt, at_ k') /\
    Rel cells (rl_entry r) (l :: ls) (r :: L) k'.
Proof.
  intros H Hs. destruct (loader_reset c0 _ _ _ _ _ _ _ _ _ _ _ H Hs) as (k' & E & H'). exists k'. split; [|done].
  rewrite <- E. unfold reset_type_stack_to_limit, type_stack_limit, se_bind at 1, so_bind at 1.
  unfold se_bind at 1, so_bind at 1. by erewrite run_top_label by done.
Qed.

Lemma run_set_top cells S l l2 ls r L k : Rel cells S (l :: ls) (r :: L) k -> label_rel l2 r ->
  exists k', set_top_label l2 (at_ k) = Some (Some tt, at_ k') /\ Rel cells S (l2 :: ls) (r :: L) k'.
Proof.
  intros H Hl. eexists. split; [apply run_modify_code|]. destruct H as [? ? Hls Hlb ? ? ? ? ? ?].
  constructor; cbn [current_func type_stack label_stack istream_offset istream_writer depth_fixups
    func_fixups set_label_stack]; try done.
  - by rewrite Hls.
  - inversion Hlb. by constructor.
Qed.

Lemma sim_else sig pre c1 S l ls E0 r L k :
  let lim := Z.of_nat (length E0) in
  Rel (pre ++ u32_cells WASM_INVALID_OFFSET ++ c1) S
    (mkLabel LABEL_TYPE_IF sig lim WASM_INVALID_OFFSET (base + cells_size pre) :: l :: ls)
    (mkRLabel None sig E0 :: r :: L) k ->
  Size (pre ++ u32_cells WASM_INVALID_OFFSET ++ c1) S (mkRLabel None sig E0 :: r :: L) 64 ->
  Sim on_else_expr k (expect E0 sig S) (fun _ _ k' =>
    let pre2 := pre ++ u32_cells (base + cells_size pre + 9 + cells_size c1) ++ c1 ++ [op_cell WASM_OPCODE_BR] in
    Rel (pre2 ++ u32_cells WASM_INVALID_OFFSET) E0
      (mkLabel LABEL_TYPE_ELSE sig lim WASM_INVALID_OFFSET (base + cells_size pre2) :: l :: ls)
      (mkRLabel None sig E0 :: r :: L) k').
Proof.
  intros lim H Hs. unfold on_else_expr.
  assert (label_rel (mkLabel LABEL_TYPE_IF sig lim WASM_INVALID_OFFSET (base + cells_size pre)) (mkRLabel None sig E0))
    as Hl by (by eapply label_of).
  eapply sim_step; [eapply run_top_label; [exact H|size]|]. cbn [label_type label_sig fixup_offset type_stack_limit_of label_offset].
  rewrite bool_decide_true by done.
  assert (expect E0 sig S = (_ <- expect E0 sig S ;; Ok tt)%res) as -> by (by destruct (expect E0 sig S) as [[]| |]).
  apply (sim_expected _ _ _ _ Hst _ _ _ _ _ _ _ _ H ltac:(size)); [apply Hl|]. intros _.
  emits. eapply sim_step; [eapply run_offset; exact H'|]. cbn beta.
  eapply sim_does.
  { eapply (run_set_top _ _ _ (mkLabel LABEL_TYPE_ELSE sig lim WASM_INVALID_OFFSET _)); [exact H'|].
    destruct Hl as (? & ? & ? & ? & ? & ?). by split_and!. }
  intros k1 Ha. cbn beta. emits. eapply sim_step; [eapply run_offset; exact H'0|]. cbn beta.
  assert (forall x, ((pre ++ u32_cells x ++ c1) ++ [op_cell WASM_OPCODE_BR]) ++ u32_cells WASM_INVALID_OFFSET =
    pre ++ u32_cells x ++ c1 ++ [op_cell WASM_OPCODE_BR] ++ u32_cells WASM_INVALID_OFFSET) as Hassoc
    by (intros x; by rewrite <- !app_assoc).
  rewrite Hassoc in H'0.
  eapply sim_does; [eapply run_fill; [exact H'0|size]|]. intros k2 Hb. cbn beta.
  destruct (run_top_type_size _ _ _ _ _ _ _ Hb) as (k3 & E3 & H3); [size|].
  eapply sim_ok; [exact E3|]. cbn zeta.
  assert (base + cells_size (((pre ++ u32_cells WASM_INVALID_OFFSET ++ c1) ++
    [opcode_cell (WasmOp WASM_OPCODE_BR)]) ++ u32_cells WASM_INVALID_OFFSET) =
    base + cells_size pre + 9 + cells_size c1) as Ha1 by size.
  assert (forall x, base + cells_size (pre ++ u32_cells x ++ c1 ++ [op_cell WASM_OPCODE_BR]) =
    base + cells_size ((pre ++ u32_cells WASM_INVALID_OFFSET ++ c1) ++ [opcode_cell (WasmOp WASM_OPCODE_BR)])) as Ha2
    by (intros x; size).
  rewrite Ha1 in H3. rewrite Ha2. rewrite <- !app_assoc in H3. rewrite <- !app_assoc. exact H3.
Qed.

(** An opening callback that can fail, and what follows it. *)
Lemma sim_open_bind {B B'} cb0 cb cb' cbs k (p : Res B) (g : B -> Res B') Q0 Q :
  s_binary_reader uninit_entry cb0 = se_ret tt -> s_binary_reader uninit_entry cb' = se_ret tt ->
  Sim (s_binary_reader uninit_entry cb) k p Q0 ->
  (forall b a k', p = Ok b -> Q0 b a k' -> Sim (run_cbs cbs) k' (g b) Q) ->
  Sim (run_cbs ([cb0; cb; cb'] ++ cbs)) k (res_bind p g) Q.
Proof.
  intros H0 H1 Hp Hg. cbn [app]. apply sim_cbs_cons. rewrite H0, se_bind_ret. apply sim_cbs_cons.
  destruct p as [b| |]; cbn [res_bind].
  - destruct Hp as (a & k' & E & HQ). eapply sim_step; [exact E|]. apply sim_cbs_cons. rewrite H1, se_bind_ret.
    by eapply Hg.
  - destruct Hp as (c' & E). by eapply sim_step_error.
  - by eapply sim_step_crash.
Qed.

(** A list in front of other callbacks. *)
Lemma sim_list_bind {B} ns nf body cbs cells S l ls r L k (g : list Cell * Types -> Res B) Q :
  Forall (sims ns nf) body -> forallb (ok_instr ns nf) body = true ->
  Rel cells S (l :: ls) (r :: L) k -> Size cells S (r :: L) (weights body) ->
  (forall c S1 k1, Rel (cells ++ c) S1 (l :: ls) (r :: L) k1 ->
     cells_size c <= weights body ->
     cells_size c + Z.of_nat (length S1) <= weights body + Z.of_nat (length S) ->
     Sim (run_cbs cbs) k1 (g (c, S1)) Q) ->
  Sim (run_cbs (instrs_callbacks body ++ cbs)) k
    (res_bind (comps T false (r :: L) (base + cells_size cells) S body) g) Q.
Proof.
  intros Hb Hok H Hs Hg. apply sim_cbs_app.
  pose proof (entry_length _ _ _ _ _ _ _ _ _ _ _ H) as He.
  pose proof (simulates_list ns nf body Hb Hok cells S _ _ _ _ k H Hs) as Hl. cbv beta in Hl.
  pose proof (within_body T false later ns nf body (r :: L) (base + cells_size cells) S) as Hw.
  destruct (comps T false _ _ _ body) as [[c S1]| |]; cbn [res_bind];
    [|destruct Hl as (c' & E); by eapply sim_step_error|by eapply sim_step_crash].
  destruct (Hw ltac:(apply Forall_true; intros i Hoi; by apply (comp_within T false func_results sig_results later func_later ns nf))
    Hok c S1 eq_refl) as (_ & Hw1 & Hw2).
  cbn [entry_of] in Hw2. destruct Hl as (a & k1 & E & H1'). eapply sim_step; [exact E|].
  apply Hg; [exact H1'|lia|lia].
Qed.

Lemma simulates_if ns nf sig ts fs : Forall (sims ns nf) ts -> Forall (sims ns nf) fs ->
  sims ns nf (BI_IF sig ts fs).
Proof.
  intros Hts Hfs [[[H1 Hv]%ok_sig_values Hokt]%andb_true_iff Hokf]%andb_true_iff cells S l ls r L k H Hs.
  rewrite comp_if. rewrite weight_if in Hs. cbn [instr_callbacks entry_of]. rewrite !instrs_callbacks_fix.
  pose proof (weights_nonneg ts). pose proof (weights_nonneg fs).
  eapply sim_open_bind; [done|done|by apply (sim_if_open sig cells S l ls r L k H1 Hv H ltac:(size))|].
  intros E0 _ k1 _ [Hlen Hr1]. cbn zeta in Hr1 |- *.
  set (pre := cells ++ [opcode_cell WASM_OPCODE_BR_UNLESS]) in *.
  assert (cells_size pre = cells_size cells + 1) as Hpre by (unfold pre; size).
  replace (base + cells_size cells + 5) with (base + cells_size (pre ++ u32_cells WASM_INVALID_OFFSET)) by size.
  destruct fs as [|f fs].
  - cbn [app].
    pose proof (sim_arm_end ns nf ts _ l ls _ r L _ E0 k1 (fun v => pre ++ u32_cells v) Hts Hokt Hr1 ltac:(size)) as Ha.
    cbn [rl_entry rl_sig label_type fixup_offset] in Ha. specialize (Ha ltac:(intros; size)).
    match type of Ha with ?P -> _ => assert P as Hfill end.
    { intros c S1 k2 v Hr2 Hs2. rewrite <- app_assoc in Hr2, Hs2 |- *. by apply run_fill. }
    specialize (Ha Hfill). set (cs := comps _ _ _ _ _ _) in *.
    destruct cs as [[c S1]| |]; cbn [res_bind] in *; [|done|done].
    destruct (finish E0 sig S1) as [S'| |]; cbn [res_bind] in *; [|done|done]. cbn [andb reject_if res_bind].
    destruct Ha as (a & k2 & E2 & Hr2). eapply sim_ok; [exact E2|]. unfold gives. cbn [fst snd] in *.
    assert (base + cells_size (pre ++ u32_cells WASM_INVALID_OFFSET) = base + cells_size cells + 5) as Hp5 by size.
    rewrite Hp5 in Hr2 |- *. unfold pre in Hr2. rewrite <- !app_assoc in Hr2.
    erewrite resolve_after in Hr2 by exact H. exact Hr2.
  - set (fs' := f :: fs) in *. rewrite <- !app_assoc.
    eapply (sim_list_bind ns nf ts); [done|done|exact Hr1|size|]. intros c1 S1 k2 Hr2 Hc1 Hsz.
    rewrite <- app_assoc in Hr2.
    eapply sim_open_bind; [done|done|cbn [s_binary_reader]; eapply sim_else; [exact Hr2|size]|].
    intros [] _ k3 _ Hr3. cbn zeta in Hr3. cbn [res_bind].
    set (pre2 := pre ++ _ ++ c1 ++ _) in *.
    assert (cells_size pre2 = cells_size cells + cells_size c1 + 6) as Hpre2 by (unfold pre2; size).
    replace (base + cells_size cells + 10 + cells_size c1) with (base + cells_size (pre2 ++ u32_cells WASM_INVALID_OFFSET)) by size.
    pose proof (sim_arm_end ns nf fs' _ l ls _ r L _ E0 k3 (fun v => pre2 ++ u32_cells v) Hfs Hokf Hr3) as Ha.
    cbn [rl_entry rl_sig label_type fixup_offset] in Ha. specialize (Ha ltac:(size) ltac:(intros; size)).
    match type of Ha with ?P -> _ => assert P as Hfill end.
    { intros c S2 k4 v Hr4 Hs4. rewrite <- app_assoc in Hr4, Hs4 |- *. by apply run_fill. }
    specialize (Ha Hfill). set (cs := comps _ _ _ _ _ _) in *.
    destruct cs as [[c2 S2]| |]; cbn [res_bind] in *; [|done|done].
    destruct (finish E0 sig S2) as [S'| |]; cbn [res_bind] in *; [|done|done].
    destruct Ha as (a & k4 & E4 & H4). eapply sim_ok; [exact E4|]. unfold gives. cbn [fst snd] in *.
    set (end_ := base + cells_size (pre2 ++ u32_cells WASM_INVALID_OFFSET) + cells_size c2) in *.
    assert (base + cells_size cells + 5 + cells_size (c1 ++ op_cell WASM_OPCODE_BR :: u32_cells end_) =
      base + cells_size pre + 9 + cells_size c1) as Hp9 by size.
    unfold br_unless, jump_over. rewrite Hp9. unfold pre2 in H4. set (addr := base + cells_size pre + 9 + cells_size c1) in *.
    unfold pre in H4. rewrite <- !app_assoc in H4. erewrite resolve_after in H4 by exact H.
    cbn [app] in H4 |- *. rewrite <- !app_assoc. exact H4.
Qed.

Lemma simulates_instr ns nf i : sims ns nf i.
Proof.
  refine (BInstr_nested_ind (sims ns nf) _ _ _ _ i); clear i.
  - intros sig body. exact (simulates_block ns nf sig body).
  - intros sig body. exact (simulates_loop ns nf sig body).
  - intros sig ts fs. exact (simulates_if ns nf sig ts fs).
  - intros i. destruct i; try done; intros Hok; exact (simulates_flat ns nf _ Hok).
Qed.

(** *** The end of a function *)

(** After its last instruction the function's results are what is left, and
    the code returns them. *)
Definition comp_end (pos : Z) (c : list Cell) (S : Types) : Res (list Cell) :=
  (_ <- finish (rev (t_locals T)) (t_results T) S ;;
   Ok (resolve_cells (is_ref 0) (pos + cells_size c) c ++
       drop_keep (length (t_locals T)) (length (t_results T)) ++ [op_cell WASM_OPCODE_RETURN]))%res.

Lemma entry_not_dead : dead (rev (t_locals T)) = false.
Proof. apply all_values_dead, Forall_rev, (st_locals _ _ _ _ Hst). Qed.

Lemma pushes_values ts S : all_values ts -> dead S = false -> pushes ts S = rev ts ++ S.
Proof.
  intros Hts Hd. unfold pushes. rewrite Hd. do 2 f_equal. induction Hts as [|t ts [Ha Hv] Hts IH]; [done|].
  by rewrite filter_cons_True, IH.
Qed.

(** The stack a function returns from. *)
Lemma return_stack full S l k : let r := mkRLabel None (t_results T) (rev (t_locals T)) in
  Rel full S [l] [r] k -> Size full S [r] 8 ->
  dead S = true \/ above (rev (t_locals T)) S = length (t_results T) ->
  exists k2 S2, (any <- top_type_is_any ;;
      if any then reset_type_stack_to_limit ;; push_types (t_results T) else se_ret tt)%se (at_ k) =
      Some (Some tt, at_ k2) /\
    Rel full S2 [l] [r] k2 /\ dead S2 = false /\
    (length S2 = length (rev (t_locals T)) + length (t_results T))%nat.
Proof.
  intros r H Hs Hab. destruct (st_results _ _ _ _ Hst) as [Hrv Hr1].
  pose proof (entry_length _ _ _ _ _ _ _ _ _ _ _ H) as He. cbn [rl_entry r] in He.
  unfold se_bind at 1, so_bind at 1. erewrite run_any by first [exact Hst|exact H|size].
  destruct (dead S) eqn:Hd.
  - destruct (loader_reset c0 _ _ _ _ _ _ _ _ _ _ _ H) as (k1 & E1 & H1); [size|]. cbn [rl_entry r] in H1.
    unfold se_bind at 1, so_bind at 1. rewrite E1.
    destruct (loader_push_types _ _ _ _ Hst _ _ _ _ _ _ _ _ H1 (t_results T)) as (k2 & E2 & H2); [size|done|done|].
    exists k2, (pushes (t_results T) (rev (t_locals T))). split_and!; [done|done| |];
      rewrite pushes_values by (done || apply entry_not_dead).
    + apply all_values_dead, Forall_app. split; [by apply Forall_rev|]. apply Forall_rev, (st_locals _ _ _ _ Hst).
    + rewrite length_app, !length_rev. lia.
  - destruct Hab as [|Hab]; [done|]. exists k, S. split_and!; [done|done|done|]. unfold above in Hab. lia.
Qed.

(** The code and the fixups of functions when nothing else is left. *)
Record left_off (cells : list Cell) (k : CodeContext) : Prop := {
  left_offset : istream_offset k = base + cells_size cells;
  left_code : mem_rep (istream_writer k) (old ++ flat cells);
  left_funcs n : later n -> func_fixups k !! n = Some (positions (is_func_ref n) base cells)
}.

Lemma sim_end_function cells c S l k :
  label_type l = LABEL_TYPE_FUNC ->
  Rel (cells ++ c) S [l] [mkRLabel None (t_results T) (rev (t_locals T))] k ->
  Size (cells ++ c) S [mkRLabel None (t_results T) (rev (t_locals T))] 64 ->
  (forall pos, positions (is_ref 0) pos cells = []) ->
  Sim end_function_body k (comp_end (base + cells_size cells) c S)
    (fun c' _ k' => left_off (cells ++ c') k').
Proof.
  intros Hty H Hs Hno. destruct (st_results _ _ _ _ Hst) as [Hrv Hr1].
  assert (label_rel l (mkRLabel None (t_results T) (rev (t_locals T)))) as (Hsig & _) by (by eapply label_of).
  cbn [rl_sig] in Hsig. unfold end_function_body, comp_end, finish.
  eapply sim_step; [eapply run_top_label; [exact H|size]|]. cbn beta. rewrite bool_decide_true by done. rewrite Hsig.
  rewrite res_bind_assoc.
  apply (sim_expected _ _ _ _ Hst _ _ _ _ _ _ _ _ H ltac:(size)); [done|]. intros _.
  pose proof (run_check_limit_exact _ _ _ _ Hst _ _ _ _ _ _ _ _ H ltac:(size) (length (t_results T))) as Hx.
  cbn [rl_entry] in Hx |- *.
  destruct (negb (dead S) && negb (above (rev (t_locals T)) S =? length (t_results T))%nat) eqn:Ex; cbn [reject_if res_bind];
    [by eapply sim_step_error|]. eapply sim_step; [exact Hx|].
  eapply sim_step; [eapply run_offset; exact H|]. cbn beta.
  eapply sim_does; [eapply run_fixup_top; [exact H|size]|]. intros k1 Ha. cbn beta. cbn [length] in Ha.
  rewrite <- (Z.add_assoc base), <- cells_size_app. set (v := base + cells_size (cells ++ c)) in *.
  set (full := resolve_cells (is_ref 0) v (cells ++ c)) in *.
  assert (cells_size full = cells_size cells + cells_size c) as Hf
    by (unfold full; rewrite cells_size_resolve by done; apply cells_size_app).
  destruct (return_stack full S l k1) as (k2 & S2 & E2 & H2 & Hd2 & Hl2); [exact Ha|size| |].
  { apply andb_false_iff in Ex as [Ex|Ex]; apply negb_false_iff in Ex; [by left|right].
    by apply Nat.eqb_eq in Ex. }
  eapply sim_eq; [symmetry; apply se_bind_assoc|]. eapply sim_step; [exact E2|]. cbn beta. rewrite length_rev in Hl2.
  cbn zeta in H2.
  assert (Size full S2 [mkRLabel None (t_results T) (rev (t_locals T))] 32) as Hs2.
  { pose proof (entry_length _ _ _ _ _ _ _ _ _ _ _ H) as He. cbn [rl_entry] in He. rewrite length_rev in He. size. }
  eapply sim_does.
  { unfold drop_types_for_return.
    rewrite (run_unless_alive _ _ _ _ Hst _ _ _ _ _ _ _ _ H2 ltac:(size) _ Hd2).
    unfold se_bind at 1, so_bind at 1, type_stack_size. unfold se_bind at 1, so_bind at 1.
    rewrite run_get_code, (rel_types _ _ _ _ _ _ _ _ _ H2). cbn [se_ret so_ret]. unfold size_of.
    rewrite (proj2 (Z.leb_le _ _)) by lia. rewrite u32_small by size.
    replace (Z.of_nat (length S2) - Z.of_nat (length (t_results T))) with (Z.of_nat (length (t_locals T))) by lia.
    eapply run_drop_keep; [exact H2|size|done|size]. }
  intros k3 H3. cbn beta. pose proof (drop_keep_size (length (t_locals T)) (length (t_results T))). emits.
  eapply sim_step.
  { unfold pop_label, se_bind at 1, so_bind at 1. erewrite run_top_label by first [exact H'|size].
    rewrite run_modify_code. reflexivity. }
  cbn beta. eapply sim_ok; [apply run_modify_code|].
  assert (cells ++ resolve_cells (is_ref 0) v c ++ drop_keep (length (t_locals T)) (length (t_results T)) ++
    [op_cell WASM_OPCODE_RETURN] = (full ++ drop_keep (length (t_locals T)) (length (t_results T))) ++
    [opcode_cell (WasmOp WASM_OPCODE_RETURN)]) as ->.
  { unfold full. rewrite resolve_app, (resolve_none _ _ 0 cells) by done. by rewrite <- !app_assoc. }
  destruct H'. by constructor.
Qed.

(** The instructions of a function and its end. *)
Lemma sim_instrs_end ns nf body index cells l k :
  let E := rev (t_locals T) in
  let r := mkRLabel None (t_results T) E in
  forallb (ok_instr ns nf) body = true -> label_type l = LABEL_TYPE_FUNC ->
  Rel cells E [l] [r] k -> Size cells E [r] (weights body + 128) ->
  (forall pos, positions (is_ref 0) pos cells = []) ->
  Sim (run_cbs (instrs_callbacks body ++ [CB_on_opcode (opcode_code WASM_OPCODE_END); CB_end_function_body index])) k
    (let* (c, S1) := comps T false [r] (base + cells_size cells) E body ;; comp_end (base + cells_size cells) c S1)%res
    (fun c' _ k' => left_off (cells ++ c') k').
Proof.
  intros E r Hok Hl H Hs Hno. pose proof (weights_nonneg body).
  eapply sim_list_bind; [apply Forall_true, simulates_instr|exact Hok|exact H|size|].
  intros c S1 k1 H1 Hc Hsz. apply sim_one; [done|done|]. apply (sim_end_function cells c S1 l); [done|exact H1|size|done].
Qed.
End blocks.

(** ** A body as a whole *)

Lemma comp_body_parts T strict pos f : comp_body T strict pos f =
  (let n := length (expand_locals (bf_locals f)) in
   let alloca := match bf_locals f with
                 | [] => []
                 | _ => opcode_cell WASM_OPCODE_ALLOCA :: u32_cells (Z.of_nat n)
                 end in
   let E := rev (t_locals T) in
   let* (c, S1) := comps T strict [mkRLabel None (t_results T) E] (pos + cells_size alloca) E (bf_body f) ;;
   c' <- comp_end T (pos + cells_size alloca) c S1 ;; Ok (alloca ++ c'))%res.
Proof.
  unfold comp_body, comp_end. cbn zeta. set (alloca := match bf_locals f with [] => [] | _ => _ end).
  destruct (comps _ _ _ _ _ _) as [[c S1]| |]; [|done|done]. cbn [res_bind].
  destruct (finish _ _ S1); [|done|done]. cbn [res_bind]. rewrite resolve_app, length_rev.
  assert (resolve_cells (is_ref 0) (pos + cells_size alloca + cells_size c) alloca = alloca) as ->.
  { apply (resolve_none _ _ 0). unfold alloca. by destruct (bf_locals f). }
  by rewrite <- app_assoc.
Qed.

Lemma comp_body_within T strict ns nf (later : nat -> Prop) pos f code :
  (forall i sig callee, t_func T i = Some (sig, callee) -> (length (result_types sig) <= 1)%nat) ->
  (forall i ei sig, t_sig T i = Some (ei, sig) -> (length (result_types sig) <= 1)%nat) ->
  (forall i sig j, t_func T i = Some (sig, LaterCallee j) -> later j) ->
  forallb (ok_instr ns nf) (bf_body f) = true -> comp_body T strict pos f = Ok code ->
  scoped later [] code /\ cells_size code <= weights (bf_body f) + 32.
Proof.
  intros Hf Hs Hl Hok H. rewrite comp_body_parts in H. cbn zeta in H.
  set (alloca := match bf_locals f with [] => [] | _ => _ end) in *. unfold comp_end in H. repeat res_step.
  match goal with H : comps _ _ _ _ _ _ = Ok _ |- _ =>
    apply (within_body T strict later ns nf) in H as (H1 & H2 & _); [|apply Forall_true; intros i Hoi; by apply (comp_within T strict Hf Hs later Hl ns nf)|done]
  end.
  assert (scoped later [] alloca /\ cells_size alloca <= 5) as [Ha1 Ha2].
  { unfold alloca. destruct (bf_locals f); [by split; [apply scoped_nothing|]|].
    split; [by scoped|]. autorewrite with cells. lia. }
  pose proof (drop_keep_size (length (t_locals T)) (length (t_results T))). split.
  - scoped. eapply (scoped_resolve later _ []). exact H1.
  - autorewrite with cells. rewrite cells_size_resolve by done. lia.
Qed.
