(* ===== verification/CompileCode.v ===== *)
(** * The loader on the code section

    Function after function the loader appends code and fills in the calls of
    functions that come later; at the end every branch and every call has its
    address. *)

From S2P Require Import Prelude Opcode BindingHash Vector StateOpt StateErr Stream Ast BinaryReader BinaryFormat Numeric Interp BinaryReaderInterpreter Compile CompileFacts RoundTrip CompileBody.

(** ** Contexts the code section can begin in *)

Section ready.
Context (c : Context).

Definition is_valueb (t : WasmType) : bool := negb (bool_decide (t = WASM_TYPE_ANY)) && negb (bool_decide (t = WASM_TYPE_VOID)).

Definition fine_sig (sig : FuncSignature) : bool :=
  forallb is_valueb (param_types sig) && forallb is_valueb (result_types sig) &&
  (length (result_types sig) <=? 1)%nat.

Definition has_fine_sig (f : Func) : bool :=
  match zget (env_sigs (ctx_env c)) (func_sig_index f) with Some sig => fine_sig sig | None => false end.

Definition own_indexes : list Z := drop (Z.to_nat (num_func_imports c)) (func_index_mapping c).

(** A function that is imported has its code. *)
Definition fine_import (ei : Z) : bool :=
  negb (bool_decide (ei ∈ own_indexes)) &&
  match zget (env_funcs (ctx_env c)) ei with
  | Some f => has_fine_sig f &&
      match func_body f with DefinedFunc o _ _ _ => negb (o =? WASM_INVALID_OFFSET) | HostFunc _ _ _ => true end
  | None => false
  end.

(** One of the module's own is still empty. *)
Definition fine_own (ei : Z) : bool :=
  match zget (env_funcs (ctx_env c)) ei with
  | Some f => has_fine_sig f &&
      match func_body f with
      | DefinedFunc o n m types => (o =? WASM_INVALID_OFFSET) && bool_decide (types = [])
      | HostFunc _ _ _ => false
      end
  | None => false
  end.

Definition fine_sig_index (ei : Z) : bool :=
  match zget (env_sigs (ctx_env c)) ei with Some sig => fine_sig sig | None => false end.

Definition fine_global (ei : Z) : bool :=
  match zget (env_globals (ctx_env c)) ei with
  | Some g => negb (bool_decide (tv_type (gl_typed_value g) = WASM_TYPE_ANY))
  | None => false
  end.

(** What the sections before the code leave, for [n] functions. *)
Definition ready (n : nat) : bool :=
  (0 <=? num_func_imports c) &&
  (size_of (func_index_mapping c) =? num_func_imports c + Z.of_nat n) &&
  (num_func_imports c + Z.of_nat n <? 2 ^ 32 - 2) &&
  forallb fine_import (take (Z.to_nat (num_func_imports c)) (func_index_mapping c)) &&
  forallb fine_own own_indexes && bool_decide (NoDup own_indexes) &&
  forallb fine_sig_index (sig_index_mapping c) && forallb fine_global (global_index_mapping c) &&
  match own_module c with Some _ => true | None => false end.
End ready.

(** ** One function *)

Lemma is_valueb_spec t : is_valueb t = true -> is_value t.
Proof.
  unfold is_valueb. intros [H1 H2]%andb_true_iff. apply negb_true_iff in H1, H2.
  by apply bool_decide_eq_false in H1, H2.
Qed.

Lemma fine_sig_spec sig : fine_sig sig = true -> sig_fine sig.
Proof.
  unfold fine_sig. intros [[H1%forallb_Forall H2%forallb_Forall]%andb_true_iff H3%Nat.leb_le]%andb_true_iff.
  split; [eapply Forall_impl; [exact H1|apply is_valueb_spec]|eapply Forall_impl; [exact H2|apply is_valueb_spec]|done].
Qed.

(** One step of a run. *)
Lemma run_loader_step {S A B} (m : SE S A) (f : A -> SE S B) s a s' x :
  m s = Some (Some a, s') -> f a s' = x -> se_bind m f s = x.
Proof. intros E H. unfold se_bind, so_bind. by rewrite E. Qed.

Section code.
Context (uninit_entry : nat -> WasmBindingHashEntry) (c : Context) (n : nat) (Hready : ready c n = true)
  (old : list Z).

Abbreviation base := (Z.of_nat (length old)).
Abbreviation run_cbs cbs := (se_for (s_binary_reader uninit_entry) cbs).

(** The context with the functions [fs] and the code context [k]. *)
Definition ctx (fs : list Func) (k : CodeContext) : Context :=
  set_code k (set_ctx_env (with_funcs (ctx_env c) fs) c).

Abbreviation funcs0 := (env_funcs (ctx_env c)).
Abbreviation own_index j := (zget (func_index_mapping c) (num_func_imports c + Z.of_nat j)).

Record ready_facts : Prop := {
  rf_imports : 0 <= num_func_imports c;
  rf_count : size_of (func_index_mapping c) = num_func_imports c + Z.of_nat n;
  rf_small : num_func_imports c + Z.of_nat n < 2 ^ 32 - 2;
  rf_import i ei : i < num_func_imports c -> zget (func_index_mapping c) i = Some ei ->
    exists f sig, zget funcs0 ei = Some f /\ zget (env_sigs (ctx_env c)) (func_sig_index f) = Some sig /\
      sig_fine sig /\ (forall j, own_index j <> Some ei) /\
      match func_body f with DefinedFunc o _ _ _ => o <> WASM_INVALID_OFFSET | HostFunc _ _ _ => True end;
  rf_own j : (j < n)%nat -> exists ei si a b sig, own_index j = Some ei /\
    zget funcs0 ei = Some (mkFunc si (DefinedFunc WASM_INVALID_OFFSET a b [])) /\
    zget (env_sigs (ctx_env c)) si = Some sig /\ sig_fine sig;
  rf_inj j j' ei : own_index j = Some ei -> own_index j' = Some ei -> j = j';
  rf_sig i ei : zget (sig_index_mapping c) i = Some ei ->
    exists sig, zget (env_sigs (ctx_env c)) ei = Some sig /\ sig_fine sig;
  rf_global i ei : zget (global_index_mapping c) i = Some ei ->
    exists g, zget (env_globals (ctx_env c)) ei = Some g /\ tv_type (gl_typed_value g) <> WASM_TYPE_ANY;
  rf_module : exists m, own_module c = Some m
}.

Lemma zget_lookup {A} (l : list A) i x : zget l i = Some x -> 0 <= i /\ l !! Z.to_nat i = Some x.
Proof. unfold zget. destruct (Z.ltb_spec i 0); [done|]. by split. Qed.

Lemma zget_elem {A} (l : list A) i x : zget l i = Some x -> x ∈ l.
Proof. intros [_ H]%zget_lookup. by eapply list_elem_of_lookup_2. Qed.

Lemma own_lookup j : 0 <= num_func_imports c -> own_index j = own_indexes c !! j.
Proof.
  intros Hi. unfold own_indexes, zget. rewrite lookup_drop. destruct (Z.ltb_spec (num_func_imports c + Z.of_nat j) 0); [lia|].
  f_equal. lia.
Qed.

Lemma fine_func f : has_fine_sig c f = true ->
  exists sig, zget (env_sigs (ctx_env c)) (func_sig_index f) = Some sig /\ sig_fine sig.
Proof. unfold has_fine_sig. destruct (zget _ _) as [sig|]; [|done]. intros H%fine_sig_spec. eauto. Qed.

Lemma ready_ok : ready_facts.
Proof.
  pose proof Hready as H. unfold ready in H.
  apply andb_true_iff in H as [H Hmod]. apply andb_true_iff in H as [H Hglob%forallb_Forall].
  apply andb_true_iff in H as [H Hsig%forallb_Forall]. apply andb_true_iff in H as [H Hnd%bool_decide_eq_true].
  apply andb_true_iff in H as [H Hown%forallb_Forall]. apply andb_true_iff in H as [H Himp%forallb_Forall].
  apply andb_true_iff in H as [H H3%Z.ltb_lt]. apply andb_true_iff in H as [H1%Z.leb_le H2%Z.eqb_eq].
  assert (forall j ei, own_index j = Some ei -> ei ∈ own_indexes c) as Helem.
  { intros j ei E. rewrite own_lookup in E by done. by eapply list_elem_of_lookup_2. }
  split; [done|done|done| | | | | |].
  - intros i ei Hi E. apply zget_lookup in E as [Hi0 E].
    assert (take (Z.to_nat (num_func_imports c)) (func_index_mapping c) !! Z.to_nat i = Some ei) as E'
      by (rewrite lookup_take_lt by lia; done).
    pose proof (Forall_lookup_1 _ _ _ _ Himp E') as Hf. unfold fine_import in Hf.
    apply andb_true_iff in Hf as [Hne%negb_true_iff%bool_decide_eq_false Hf].
    destruct (zget funcs0 ei) as [f|]; [|done]. apply andb_true_iff in Hf as [(sig & Es & Hs)%fine_func Hb].
    exists f, sig. split_and!; [done|done|done| |].
    + intros j Ej. by apply Helem in Ej.
    + destruct (func_body f); [|done]. by apply negb_true_iff, Z.eqb_neq in Hb.
  - intros j Hj. destruct (lookup_lt_is_Some_2 (own_indexes c) j) as [ei E].
    { unfold own_indexes. rewrite length_drop. unfold size_of in H2. lia. }
    pose proof (Forall_lookup_1 _ _ _ _ Hown E) as Hf. unfold fine_own in Hf.
    destruct (zget funcs0 ei) as [[si body]|] eqn:Ef; [|done]. apply andb_true_iff in Hf as [(sig & Es & Hs)%fine_func Hb].
    cbn [func_body func_sig_index] in *. destruct body as [o a b types|]; [|done].
    apply andb_true_iff in Hb as [->%Z.eqb_eq ->%bool_decide_eq_true].
    exists ei, si, a, b, sig. rewrite own_lookup by done. done.
  - intros j j' ei E E'. rewrite own_lookup in E, E' by done. by eapply NoDup_lookup.
  - intros i ei E%zget_elem. rewrite list.Forall_forall in Hsig. apply Hsig in E. unfold fine_sig_index in E.
    destruct (zget _ _) as [sig|]; [|done]. apply fine_sig_spec in E. eauto.
  - intros i ei E%zget_elem. rewrite list.Forall_forall in Hglob. apply Hglob in E. unfold fine_global in E.
    destruct (zget _ _) as [g|]; [|done]. apply negb_true_iff, bool_decide_eq_false in E. eauto.
  - destruct (own_module c); [eauto|done].
Qed.

(** ** Progress *)

(** After [length offsets] functions: where they are, what the others still
    are, the code, and the places of the calls to come. *)
Record progress (offsets : list Z) (cells : list Cell) (fs : list Func) (k : CodeContext) : Prop := {
  pg_count : (length offsets <= n)%nat;
  pg_done j o ei : offsets !! j = Some o -> own_index j = Some ei ->
    o <> WASM_INVALID_OFFSET /\ exists si a b types f0, zget fs ei = Some (mkFunc si (DefinedFunc o a b types)) /\
      zget funcs0 ei = Some f0 /\ func_sig_index f0 = si;
  pg_rest ei : (forall j, (j < length offsets)%nat -> own_index j <> Some ei) -> zget fs ei = zget funcs0 ei;
  pg_offset : istream_offset k = base + cells_size cells;
  pg_code : mem_rep (istream_writer k) (old ++ flat cells);
  pg_fixups j : (length offsets <= j < n)%nat -> func_fixups k !! j = Some (positions (is_func_ref j) base cells);
  pg_scope : scoped (fun j => (length offsets <= j < n)%nat) [] cells
}.

Lemma own_small j ei : own_index j = Some ei -> (j < n)%nat.
Proof.
  destruct ready_ok as [R1 R2 _ _ _ _ _ _ _]. intros [_ E%lookup_lt_Some]%zget_lookup. unfold size_of in R2. lia.
Qed.

(** The function at an index and its code while function [length offsets] is
    at [o]. *)
Lemma progress_callee offsets cells fs k cur si o a b locals sig fs' k' results i :
  progress offsets cells fs k ->
  own_index (length offsets) = Some cur -> o <> WASM_INVALID_OFFSET ->
  zget (env_sigs (ctx_env c)) si = Some sig -> sig_fine sig ->
  (exists f0, zget funcs0 cur = Some f0 /\ func_sig_index f0 = si) ->
  (forall ei, zget fs' ei = if decide (ei = cur) then Some (mkFunc si (DefinedFunc o a b locals)) else zget fs ei) ->
  match t_func (body_target c (offsets ++ [o]) locals results) i with
  | Some (sig, callee) =>
      sig_fine sig /\
      exists ei f, zget (func_index_mapping (ctx fs' k')) i = Some ei /\
        zget (env_funcs (ctx_env (ctx fs' k'))) ei = Some f /\
        zget (env_sigs (ctx_env (ctx fs' k'))) (func_sig_index f) = Some sig /\
        callee_fine (ctx fs' k') (fun j => (length offsets < j < n)%nat) i ei callee f
  | None => zget (func_index_mapping (ctx fs' k')) i = None
  end.
Proof.
  intros H Hcur Ho Hsi Hsig (f0 & Hf0 & Hsi0) Hfs. destruct ready_ok as [R1 R2 R3 R4 R5 Rinj R6 R7 R8].
  change (func_index_mapping (ctx fs' k')) with (func_index_mapping c).
  change (env_sigs (ctx_env (ctx fs' k'))) with (env_sigs (ctx_env c)).
  change (env_funcs (ctx_env (ctx fs' k'))) with fs'.
  cbn [t_func body_target]. destruct (zget (func_index_mapping c) i) as [ei|] eqn:E; cbn [mbind option_bind]; [|done].
  assert (length offsets < n)%nat as Hlt by (by eapply own_small).
  unfold body_callee. destruct (Z.ltb_spec i (num_func_imports c)) as [Hi|Hi].
  - destruct (R4 i ei Hi E) as (f & sg & Ef & Es & Hf & Hno & Hb). rewrite Ef. cbn [mbind option_bind]. rewrite Es.
    cbn [mbind option_bind]. split; [done|]. exists ei, f. split_and!; [done| |done|].
    + rewrite Hfs, decide_False; [|intros ->; by apply (Hno (length offsets))].
      rewrite (pg_rest _ _ _ _ H); [done|]. intros j _. apply Hno.
    + unfold callee_fine. by destruct (func_body f).
  - apply zget_lookup in E as Hr. destruct Hr as [_ Hr%lookup_lt_Some]. unfold size_of in R2.
    set (j := Z.to_nat (i - num_func_imports c)).
    assert (i = num_func_imports c + Z.of_nat j) as Hij by lia. assert (j < n)%nat as Hj by lia.
    destruct (R5 j Hj) as (ei' & sj & a' & b' & sg & Ej & Ef & Es & Hf). rewrite <- Hij, E in Ej. injection Ej as <-.
    rewrite Ef. cbn [mbind option_bind func_sig_index]. rewrite Es. cbn [mbind option_bind]. split; [done|].
    assert (own_index j = Some ei) as Hown by (by rewrite <- Hij).
    assert (j <> length offsets -> ei <> cur) as Hne by (intros Hjl ->; by apply Hjl, (Rinj j (length offsets) cur)).
    destruct (decide (j < length offsets)%nat) as [Hlt2|].
    { destruct (lookup_lt_is_Some_2 offsets j Hlt2) as [oj Hoj].
      rewrite lookup_app_l by done. rewrite Hoj. destruct (pg_done _ _ _ _ H j oj ei Hoj Hown) as (Hv & s' & a2 & b2 & ts & g0 & Efs & Eg0 & Hs').
      rewrite Ef in Eg0. injection Eg0 as <-. cbn in Hs'. subst s'.
      exists ei, (mkFunc sj (DefinedFunc oj a2 b2 ts)). split_and!; [done| |done|done].
      rewrite Hfs, decide_False; [done|]. apply Hne. lia. }
    destruct (decide (j = length offsets)) as [Hjl|].
    { rewrite lookup_app_r by lia. rewrite Hjl, Nat.sub_diag. cbn [lookup list_lookup].
      rewrite Hjl in Hown. assert (ei = cur) as -> by congruence. rewrite Hf0 in Ef. injection Ef as ->. cbn in Hsi0. subst sj.
      exists cur, (mkFunc si (DefinedFunc o a b locals)). split_and!; [done| |done|done]. by rewrite Hfs, decide_True. }
    rewrite lookup_ge_None_2 by (rewrite length_app; cbn [length]; lia).
    exists ei, (mkFunc sj (DefinedFunc WASM_INVALID_OFFSET a' b' [])). split_and!; [done| |done|].
    + rewrite Hfs, decide_False by (apply Hne; lia). rewrite (pg_rest _ _ _ _ H); [done|].
      intros j' Hj' E'. assert (j' = j) by (by eapply Rinj). lia.
    + cbn [callee_fine func_body]. split_and!; [done|done|done|lia|lia|lia].
Qed.

(** What the callbacks of a body see is what the translation is given. *)
Lemma progress_statics offsets cells fs k cur si o a b locals sig :
  progress offsets cells fs k ->
  own_index (length offsets) = Some cur -> o <> WASM_INVALID_OFFSET ->
  zget (env_sigs (ctx_env c)) si = Some sig -> sig_fine sig -> all_values locals ->
  (exists f0, zget funcs0 cur = Some f0 /\ func_sig_index f0 = si) ->
  forall fs' k', (forall ei, zget fs' ei = if decide (ei = cur) then Some (mkFunc si (DefinedFunc o a b locals)) else zget fs ei) ->
  statics (ctx fs' k') cur (body_target c (offsets ++ [o]) locals (result_types sig))
    (fun j => (length offsets < j < n)%nat).
Proof.
  intros H Hcur Ho Hsi Hsig Hloc (f0 & Hf0 & Hsi0) fs' k' Hfs. destruct ready_ok as [R1 R2 R3 R4 R5 Rinj R6 R7 R8].
  constructor.
  - exists si, o, a, b, (param_types sig). cbn. rewrite Hfs, decide_True by done. split; [done|].
    rewrite Hsi. by destruct sig.
  - done.
  - cbn. split; apply Hsig.
  - intros i. eapply progress_callee; eauto.
  - intros i. cbn [t_sig body_target]. change (sig_index_mapping (ctx fs' k')) with (sig_index_mapping c).
    change (env_sigs (ctx_env (ctx fs' k'))) with (env_sigs (ctx_env c)).
    destruct (zget (sig_index_mapping c) i) as [ei|] eqn:E; [|done]. destruct (R6 _ _ E) as (sg & Es & Hf).
    cbn [mbind option_bind]. rewrite Es. by cbn.
  - intros i. cbn [t_global body_target]. change (global_index_mapping (ctx fs' k')) with (global_index_mapping c).
    change (env_globals (ctx_env (ctx fs' k'))) with (env_globals (ctx_env c)).
    destruct (zget (global_index_mapping c) i) as [ei|] eqn:E; cbn [mbind option_bind].
    + destruct (R7 _ _ E) as (g & Eg & Hg). rewrite Eg. cbn. split_and!; [done| |by exists g].
      apply zget_lookup in E as [? Hl%lookup_lt_Some]. unfold size_of. lia.
    + intros Hi. unfold zget in E. destruct (Z.ltb_spec i 0); [lia|]. apply lookup_ge_None in E. unfold size_of. lia.
  - destruct R8 as (m & Em). exists m. split; [exact Em|]. cbn. by rewrite Em.
Qed.

(** ** The beginning of a function *)

Section function.
Context (fs : list Func) (j : nat) (ei si pos : Z) (sig : FuncSignature)
  (Hei : 0 <= ei < Z.of_nat (length fs)).

(** The context in which the function has [types] so far. *)
Definition lctx (a b : Z) (types : list WasmType) (k : CodeContext) : Context :=
  ctx (<[Z.to_nat ei := mkFunc si (DefinedFunc pos a b types)]> fs) k.

Lemma run_lget a b types k :
  get_func_by_env_index ei (lctx a b types k) = Some (Some (mkFunc si (DefinedFunc pos a b types)), lctx a b types k).
Proof.
  unfold get_func_by_env_index, get_env, se_bind, so_bind. cbn. unfold zget.
  rewrite (proj2 (Z.ltb_ge ei 0)) by lia. by rewrite list_lookup_insert_eq by lia.
Qed.

Lemma run_lset a b types a' b' types' k :
  set_func ei (mkFunc si (DefinedFunc pos a' b' types')) (lctx a b types k) = Some (Some tt, lctx a' b' types' k).
Proof.
  unfold set_func, get_env, se_bind, so_bind. cbn. rewrite zset_Some by (rewrite length_insert; lia). cbn.
  unfold lctx. by rewrite list_insert_insert_eq.
Qed.

Lemma run_append_local t a b types k : current_func k = Some ei ->
  append_local_type t (lctx a b types k) = Some (Some tt, lctx a b (types ++ [t]) k).
Proof.
  intros Hk. unfold append_local_type, se_bind at 1, so_bind at 1.
  change (get_code (lctx a b types k)) with (Some (Some k, lctx a b types k)). cbn beta iota. rewrite Hk.
  cbn [se_lift]. rewrite se_bind_ret. unfold se_bind at 1, so_bind at 1. rewrite run_lget. cbn beta iota.
  cbn [func_body func_sig_index]. apply run_lset.
Qed.

Definition with_types (types : list WasmType) (k : CodeContext) : CodeContext := set_type_stack (rev types) k.

Lemma run_params params a b types k : current_func k = Some ei ->
  se_for (fun type => append_local_type type ;; append_type type)%se params (lctx a b types (with_types types k)) =
  Some (Some tt, lctx a b (types ++ params) (with_types (types ++ params) k)).
Proof.
  intros Hk. revert types. induction params as [|t params IH]; intros types; [by rewrite app_nil_r|].
  cbn [se_for]. rewrite se_bind_assoc. unfold se_bind at 1, so_bind at 1. rewrite run_append_local by done.
  unfold se_bind at 1, so_bind at 1. unfold append_type.
  change (modify_code ?f (lctx a b ?x ?y)) with (Some (Some tt, lctx a b x (f y))). cbn beta iota.
  replace (set_type_stack _ _) with (with_types (types ++ [t]) k).
  - rewrite IH. by rewrite <- app_assoc.
  - unfold with_types. by rewrite rev_app_distr.
Qed.

(** A declaration's types, one by one. *)
Lemma run_locals m t a b types k : current_func k = Some ei -> is_value t ->
  se_for (fun _ => append_local_type t ;; push_type t)%se (replicate m tt) (lctx a b types (with_types types k)) =
  Some (Some tt, lctx a b (types ++ replicate m t) (with_types (types ++ replicate m t) k)).
Proof.
  intros Hk [Ha Hv]. revert types. induction m as [|m IH]; intros types; [by rewrite app_nil_r|].
  cbn [replicate se_for]. rewrite se_bind_assoc. unfold se_bind at 1, so_bind at 1. rewrite run_append_local by done.
  unfold se_bind at 1, so_bind at 1.
  assert (push_type t (lctx a b (types ++ [t]) (with_types types k)) =
    Some (Some tt, lctx a b (types ++ [t]) (with_types (types ++ [t]) k))) as ->.
  { assert (top_type_is_any (lctx a b (types ++ [t]) (with_types types k)) =
      Some (Some false, lctx a b (types ++ [t]) (with_types types k))) as Hany.
    { unfold top_type_is_any, current_func_types. rewrite se_bind_assoc. unfold se_bind at 1, so_bind at 1.
      change (get_code (lctx a b ?x ?y)) with (Some (Some y, lctx a b x y)). cbn beta iota. rewrite se_bind_assoc.
      change (current_func (with_types types k)) with (current_func k). rewrite Hk. cbn [se_lift]. rewrite se_bind_ret.
      rewrite se_bind_assoc. unfold se_bind at 1, so_bind at 1. rewrite run_lget. cbn beta iota. cbn [func_body].
      rewrite se_bind_ret. unfold se_bind at 1, so_bind at 1.
      change (get_code (lctx a b ?x ?y)) with (Some (Some y, lctx a b x y)). cbn beta iota.
      unfold size_of. cbn [with_types type_stack set_type_stack]. rewrite length_rev, length_app.
      by rewrite (proj2 (Z.ltb_ge _ _)) by lia. }
    unfold push_type, unless_top_type_is_any, se_bind, so_bind. rewrite Hany.
    rewrite bool_decide_false by done. unfold append_type.
    change (modify_code ?f (lctx a b ?x ?y)) with (Some (Some tt, lctx a b x (f y))).
    do 3 f_equal. unfold with_types. by rewrite rev_app_distr. }
  rewrite IH. by rewrite <- app_assoc.
Qed.
End function.

Lemma scoped_func_resolve (P Q : nat -> Prop) L j a cells : (forall m, P m -> m <> j -> Q m) ->
  scoped P L cells -> scoped Q L (resolve_cells (is_func_ref j) a cells).
Proof.
  intros HPQ. induction 1 as [|x cells Hx Hc IH]; [constructor|]. rewrite resolve_cons. apply scoped_app. split; [|done].
  unfold resolve_cell. destruct (is_func_ref j x) eqn:Ex; [apply scoped_raw|]. constructor; [|constructor].
  destruct x as [b|m|m]; [done|done|]. cbn in Ex. apply bool_decide_eq_false in Ex. by apply HPQ.
Qed.

Lemma run_begin offsets cells fs k ei si a b sig T :
  progress offsets cells fs k -> own_index (length offsets) = Some ei ->
  zget fs ei = Some (mkFunc si (DefinedFunc WASM_INVALID_OFFSET a b [])) ->
  zget (env_sigs (ctx_env c)) si = Some sig -> sig_fine sig -> t_locals T = param_types sig ->
  base + cells_size cells + Z.of_nat (length (param_types sig)) + 1 < 2 ^ 32 - 1 ->
  let pos := base + cells_size cells in
  let m := Z.of_nat (length (param_types sig)) in
  exists k', begin_function_body (Z.of_nat (length offsets)) (ctx fs k) =
      Some (Some tt, lctx fs ei si pos 0 0 (param_types sig) k') /\
    rel ei T (fun j => (length offsets < j < n)%nat) old
      (resolve_cells (is_func_ref (length offsets)) pos cells) (rev (param_types sig))
      [mkLabel LABEL_TYPE_FUNC (result_types sig) m WASM_INVALID_OFFSET WASM_INVALID_OFFSET]
      [mkRLabel None (result_types sig) (rev (param_types sig))] k'.
Proof.
  intros H Hown Hf Hs Hfine HT Hroom pos m. destruct ready_ok as [R1 R2 R3 _ _ _ _ _ _].
  pose proof (own_small _ _ Hown) as Hj. pose proof (cells_size_nonneg cells).
  assert (0 <= ei < Z.of_nat (length fs)) as Hei.
  { apply zget_lookup in Hf as [? ?%lookup_lt_Some]. lia. }
  set (k1 := mkCode (Some ei) [] [] (func_fixups k) [] (istream_writer k) (istream_offset k)).
  destruct (run_fixups (lctx fs ei si pos 0 0 [] k1) (is_func_ref (length offsets)) pos old cells k1)
    as (w & E & Hw); [done|apply H|unfold OUTPUT_LIMIT; lia|].
  set (k2 := set_istream w (istream_offset k1) k1) in *.
  exists (set_label_stack [mkLabel LABEL_TYPE_FUNC (result_types sig) m WASM_INVALID_OFFSET WASM_INVALID_OFFSET]
    (with_types (param_types sig) k2)). split.
  - unfold begin_function_body. eapply run_loader_step.
    { unfold translate_defined_func_index_to_env, se_bind, so_bind. cbn [se_get].
      change (func_index_mapping (ctx fs k)) with (func_index_mapping c).
      change (num_func_imports (ctx fs k)) with (num_func_imports c).
      rewrite u32_small by lia. rewrite Z.add_comm, Hown. reflexivity. }
    cbn beta. eapply run_loader_step.
    { unfold get_func_by_env_index, get_env, se_bind, so_bind. cbn. rewrite Hf. reflexivity. }
    cbn beta. cbn [func_sig_index func_body]. eapply run_loader_step.
    { unfold get_signature_by_env_index, get_env, se_bind, so_bind. cbn. rewrite Hs. reflexivity. }
    cbn beta. eapply (run_loader_step _ _ _ (istream_offset k) (ctx fs k)); [reflexivity|]. cbn beta.
    rewrite (pg_offset _ _ _ _ H). fold pos. eapply (run_loader_step _ _ _ tt (lctx fs ei si pos 0 0 [] k)).
    { unfold set_func, get_env, se_bind, so_bind. cbn. by rewrite zset_Some by done. }
    cbn beta. eapply (run_loader_step _ _ _ tt (lctx fs ei si pos 0 0 [] k1)); [reflexivity|]. cbn beta.
    eapply (run_loader_step _ _ _ k1 (lctx fs ei si pos 0 0 [] k1)); [reflexivity|]. cbn beta.
    cbn [func_fixups]. rewrite zget_nat, (pg_fixups _ _ _ _ H) by lia. cbn [se_lift]. rewrite se_bind_ret.
    eapply run_loader_step; [exact E|]. cbn beta.
    eapply run_loader_step; [exact (run_params fs ei si pos Hei (param_types sig) 0 0 [] k2 eq_refl)|].
    cbn [app]. unfold push_label.
    change (modify_code ?f (lctx ?u ?v ?w ?x 0 0 ?y ?z)) with (Some (Some tt, lctx u v w x 0 0 y (f z))).
    do 3 f_equal. unfold size_of, with_types. cbn [type_stack set_type_stack label_stack]. rewrite length_rev.
    by rewrite u32_small by lia.
  - constructor; cbn [current_func type_stack label_stack istream_offset istream_writer depth_fixups
      func_fixups set_label_stack with_types set_type_stack k2 k1 set_istream]; try done.
    + constructor; [|constructor]. split_and!; cbn; [done|by rewrite length_rev|apply Hfine|apply Hfine|done].
    + split; [right; apply Forall_rev, Hfine|]. split; [done|]. rewrite HT. split; [|done].
      right. apply Forall_rev, Hfine.
    + rewrite (pg_offset _ _ _ _ H). by rewrite cells_size_resolve.
    + cbn. lia.
    + intros q. rewrite lookup_nil. cbn [default]. symmetry. eapply scoped_nil, scoped_func_resolve; [|apply H].
      intros q' Hq' _. exact Hq'.
    + intros q Hq. rewrite (pg_fixups _ _ _ _ H) by lia. f_equal.
      rewrite positions_resolve; [done|done|done|]. intros x. apply is_func_ref_other. lia.
Qed.

(** ** Local variables *)

Section locals.
Context (fs : list Func) (ei si pos : Z) (Hei : 0 <= ei < Z.of_nat (length fs))
  (params results : list WasmType) (Hparams : all_values params) (Hresults : all_values results)
  (Hone : (length results <= 1)%nat) (later : nat -> Prop) (cells : list Cell) (T : Target)
  (HT : t_locals T = params).

Abbreviation lctx := (lctx fs ei si pos).
Abbreviation func_label limit :=
  (mkLabel LABEL_TYPE_FUNC results limit WASM_INVALID_OFFSET WASM_INVALID_OFFSET).
Abbreviation entry types := (mkRLabel None results (rev types)).

Lemma run_counts f g a b types k : current_func k = Some ei ->
  set_local_counts f g (lctx a b types k) = Some (Some (f a, g b), lctx (f a) (g b) types k).
Proof.
  intros Hk. unfold set_local_counts. eapply (run_loader_step _ _ _ k (lctx a b types k)); [reflexivity|]. cbn beta. rewrite Hk.
  cbn [se_lift]. rewrite se_bind_ret. eapply run_loader_step; [by apply run_lget|]. cbn beta. cbn [func_body func_sig_index].
  eapply run_loader_step; [by apply run_lset|]. reflexivity.
Qed.

(** A declaration that is not the last. *)
Lemma run_decl d count t N b types k : current_func k = Some ei -> is_value t -> d <> u32 (N - 1) ->
  0 <= b -> 0 <= count -> b + count < 2 ^ 32 - 1 ->
  on_local_decl d count t (lctx N b types (with_types types k)) =
  Some (Some tt, lctx N (b + count) (types ++ replicate (Z.to_nat count) t)
                   (with_types (types ++ replicate (Z.to_nat count) t) k)).
Proof.
  intros Hk Ht Hd Hb Hc Hsmall. unfold on_local_decl. eapply run_loader_step; [by apply run_counts|]. cbn beta iota.
  rewrite (u32_small (b + count)) by lia. eapply run_loader_step; [by apply run_locals|]. cbn beta.
  by rewrite (proj2 (Z.eqb_neq _ _)).
Qed.

Lemma rel_stack types k : rel ei T later old cells (rev params) [func_label (Z.of_nat (length params))] [entry params] k ->
  all_values types -> params `prefix_of` types ->
  rel ei T later old cells (rev types) [func_label (Z.of_nat (length params))] [entry params] (with_types types k).
Proof.
  intros H Hv [more ->]. apply (rel_set_types _ _ _ _ _ _ _ _ _ _ _ H). split; [right; by apply Forall_rev|].
  rewrite HT. assert (rev params `suffix_of` rev (params ++ more)) as Hs by (exists (rev more); apply rev_app_distr).
  split; [exact Hs|]. split; [|done]. right. by apply Forall_rev.
Qed.

(** The label's limit goes up to where the locals end. *)
Lemma rel_entry types T' cells' k l1 r1 S1 : t_locals T' = types -> all_values types ->
  rel ei T later old cells' S1 [l1] [r1] k -> type_stack k = rev types ->
  rel ei T' later old cells' (rev types) [func_label (Z.of_nat (length types))] [entry types]
    (set_label_stack [func_label (Z.of_nat (length types))] k).
Proof.
  intros HT' Hv [] Hk. constructor; try done.
  - constructor; [|constructor]. split_and!; cbn; [done|by rewrite length_rev|done|done|done].
  - split; [right; by apply Forall_rev|]. split; [done|]. rewrite HT'. split; [|done]. right. by apply Forall_rev.
Qed.

(** The last one allocates them. *)
Lemma run_decl_last d count t N b types T' k : is_value t -> d = u32 (N - 1) ->
  rel ei T later old cells (rev params) [func_label (Z.of_nat (length params))] [entry params] k ->
  all_values types -> length types = (length params + Z.to_nat b)%nat -> params `prefix_of` types ->
  0 <= b -> 0 <= count ->
  base + cells_size cells + Z.of_nat (length params) + b + count + 16 < 2 ^ 32 - 1 ->
  let types' := types ++ replicate (Z.to_nat count) t in
  t_locals T' = types' ->
  exists k', on_local_decl d count t (lctx N b types (with_types types k)) =
      Some (Some tt, lctx N (b + count) types' k') /\
    rel ei T' later old (cells ++ opcode_cell WASM_OPCODE_ALLOCA :: u32_cells (b + count)) (rev types')
      [func_label (Z.of_nat (length types'))] [entry types'] k'.
Proof.
  intros Ht Hd H Hv Hlen Hpre Hb Hc Hroom types' HT'. pose proof (cells_size_nonneg cells).
  assert (all_values types') as Hv' by (apply Forall_app; split; [done|by apply Forall_replicate]).
  assert (params `prefix_of` types') as Hpre' by (etransitivity; [exact Hpre|by eexists]).
  assert (length types' = (length params + Z.to_nat (b + count))%nat) as Hlen'
    by (unfold types'; rewrite length_app, length_replicate; lia).
  pose proof (rel_stack types' k H Hv' Hpre') as H1.
  destruct (run_opcode (lctx N (b + count) types' k) _ _ _ _ _ _ _ _ _ _ _ H1 WASM_OPCODE_ALLOCA) as (k1 & E1 & H2).
  { unfold size_ok. rewrite length_rev, Hlen'. cbn [length]. lia. }
  destruct (run_i32 (lctx N (b + count) types' k) _ _ _ _ _ _ _ _ _ _ _ H2 (b + count)) as (k2 & E2 & H3).
  { unfold size_ok. autorewrite with cells. rewrite length_rev, Hlen'. cbn [length]. lia. }
  rewrite <- app_assoc in H3. pose proof (rel_types _ _ _ _ _ _ _ _ _ H3) as Hst3.
  exists (set_label_stack [func_label (Z.of_nat (length types'))] k2). split; [|by eapply rel_entry].
  unfold on_local_decl. eapply run_loader_step; [apply run_counts; apply H|]. cbn beta iota.
  rewrite (u32_small (b + count)) by lia. eapply run_loader_step; [apply run_locals; [done|apply H|done]|]. cbn beta.
  rewrite (proj2 (Z.eqb_eq _ _) Hd). eapply run_loader_step; [exact E1|]. cbn beta. eapply run_loader_step; [exact E2|]. cbn beta.
  eapply run_loader_step.
  { eapply (run_top_label (lctx N (b + count) types' k)); [exact H3|].
    unfold size_ok. autorewrite with cells. rewrite length_rev, Hlen'. cbn [length]. lia. }
  cbn beta. rewrite bool_decide_true by done. cbn [se_assert]. rewrite se_bind_ret. unfold set_top_label.
  rewrite run_modify_code. cbn [type_stack_limit_of label_type label_sig label_offset fixup_offset].
  rewrite (rel_labels _ _ _ _ _ _ _ _ _ H3). cbn [tail].
  rewrite u32_small by lia. rewrite Hlen'. rewrite Nat2Z.inj_add, Z2Nat.id by lia. reflexivity.
Qed.

Lemma expand_cons r l : expand_locals (r :: l) = replicate (Z.to_nat (fst r)) (snd r) ++ expand_locals l.
Proof. done. Qed.

Abbreviation decl_callbacks := (indexed (fun k r => [CB_on_local_decl k (fst r) (snd r)])).

Lemma run_decls l d b types T' k : l <> [] ->
  Forall (fun r => 0 <= fst r /\ is_value (snd r)) l -> 0 <= d -> d + Z.of_nat (length l) < 2 ^ 32 - 1 ->
  rel ei T later old cells (rev params) [func_label (Z.of_nat (length params))] [entry params] k ->
  all_values types -> length types = (length params + Z.to_nat b)%nat -> params `prefix_of` types -> 0 <= b ->
  let size := b + Z.of_nat (length (expand_locals l)) in
  base + cells_size cells + Z.of_nat (length params) + size + 16 < 2 ^ 32 - 1 ->
  let types' := types ++ expand_locals l in
  t_locals T' = types' ->
  let N := d + Z.of_nat (length l) in
  exists k', run_cbs (decl_callbacks d l) (lctx N b types (with_types types k)) = Some (Some tt, lctx N size types' k') /\
    rel ei T' later old (cells ++ opcode_cell WASM_OPCODE_ALLOCA :: u32_cells size) (rev types')
      [func_label (Z.of_nat (length types'))] [entry types'] k'.
Proof.
  intros Hne Hl. revert d b types Hne. induction Hl as [|r l [Hr Hv] Hl IH]; [done|].
  intros d b types _ Hd Hdl H Hvt Hlen Hpre Hb size Hroom types' HT' N. pose proof (cells_size_nonneg cells).
  unfold size, types', N in *. clear size types' N. rewrite expand_cons in *.
  rewrite length_app, length_replicate in *. cbn [length] in *.
  destruct l as [|r2 l].
  - cbn [expand_locals map concat app length] in *. rewrite app_nil_r in HT' |- *.
    destruct (run_decl_last d (fst r) (snd r) (d + 1) b types T' k Hv) as (k' & E & H');
      [rewrite u32_small; lia|done..|lia|done|].
    exists k'. replace (b + Z.of_nat (Z.to_nat (fst r) + 0)) with (b + fst r) by lia. split; [|exact H'].
    cbn [indexed app se_for s_binary_reader]. eapply run_loader_step; [exact E|]. reflexivity.
  - set (types1 := types ++ replicate (Z.to_nat (fst r)) (snd r)).
    destruct (IH (d + 1) (b + fst r) types1) as (k' & E & H').
    + done.
    + lia.
    + cbn [length] in *. lia.
    + exact H.
    + apply Forall_app. split; [done|by apply Forall_replicate].
    + unfold types1. rewrite length_app, length_replicate. lia.
    + etransitivity; [exact Hpre|by eexists].
    + lia.
    + lia.
    + unfold types1. by rewrite <- app_assoc.
    + exists k'.
      replace (b + Z.of_nat (Z.to_nat (fst r) + length (expand_locals (r2 :: l)))) with
        (b + fst r + Z.of_nat (length (expand_locals (r2 :: l)))) by lia.
      replace (d + Z.of_nat (S (length (r2 :: l)))) with (d + 1 + Z.of_nat (length (r2 :: l))) by lia.
      unfold types1 in *. rewrite <- app_assoc in E, H'. split; [|exact H'].
      change (decl_callbacks d (r :: r2 :: l)) with ([CB_on_local_decl d (fst r) (snd r)] ++ decl_callbacks (d + 1) (r2 :: l)).
      rewrite se_for_app. eapply run_loader_step; [|exact E]. cbn [se_for s_binary_reader].
      eapply run_loader_step; [|reflexivity]. apply run_decl; [apply H|done|cbn [length] in *; rewrite u32_small; lia|lia|lia|lia].
Qed.
End locals.

(** ** Function after function *)

(** [m] from [s] does what [r] says, with [Q] of the context it leaves. *)
Definition outcome {A} (m : IM unit) (s : Context) (r : Res A) (Q : A -> Context -> Prop) : Prop :=
  match r with
  | Ok a => exists s', m s = Some (Some tt, s') /\ Q a s'
  | Rejected => exists s', m s = Some (None, s')
  | Crashed => m s = None
  end.

Lemma outcome_sim fs k {B} (m : IM unit) k' (r : Res B) Q :
  sim (ctx fs k) m k' r Q -> outcome m (ctx fs k') r (fun b s' => exists k2, s' = ctx fs k2 /\ Q b tt k2).
Proof.
  unfold sim, outcome. change (set_code ?x (ctx fs k)) with (ctx fs x). destruct r; [|done|done].
  intros ([] & k2 & E & HQ). exists (ctx fs k2). eauto.
Qed.

(** The number of parameters of a function of the code section. *)
Definition num_params (j : nat) : Z :=
  from_option (fun '(_, _, sig) => Z.of_nat (length (param_types sig))) 0 (own_func c j).

(** The room a body takes, at most. *)
Definition func_weight (j : nat) (f : BFuncBody) : Z :=
  num_params j + Z.of_nat (length (expand_locals (bf_locals f))) + Z.of_nat (length (bf_locals f)) +
  weights (bf_body f) + 256.

Lemma own_func_ok j : (j < n)%nat -> exists ei si a b sig, own_func c j = Some (ei, si, sig) /\
  own_index j = Some ei /\ zget funcs0 ei = Some (mkFunc si (DefinedFunc WASM_INVALID_OFFSET a b [])) /\
  zget (env_sigs (ctx_env c)) si = Some sig /\ sig_fine sig.
Proof.
  intros Hj. destruct ready_ok as [_ _ _ _ R5 _ _ _ _]. destruct (R5 j Hj) as (ei & si & a & b & sig & E1 & E2 & E3 & Hf).
  exists ei, si, a, b, sig. split; [|done]. unfold own_func. rewrite E1. cbn [mbind option_bind]. rewrite E2.
  cbn [mbind option_bind func_sig_index]. rewrite E3. done.
Qed.

Lemma value_type_value t : value_type t = true -> is_value t.
Proof. by destruct t. Qed.

(** The context when the instructions of function [length offsets] begin. *)
Lemma run_head ns nf offsets cells fs k f ei si a b sig :
  let j := length offsets in
  let pos := base + cells_size cells in
  let locals := param_types sig ++ expand_locals (bf_locals f) in
  let T := body_target c (offsets ++ [pos]) locals (result_types sig) in
  let alloca := match bf_locals f with
                | [] => []
                | _ => opcode_cell WASM_OPCODE_ALLOCA :: u32_cells (Z.of_nat (length (expand_locals (bf_locals f))))
                end in
  progress offsets cells fs k -> own_index j = Some ei ->
  zget fs ei = Some (mkFunc si (DefinedFunc WASM_INVALID_OFFSET a b [])) ->
  zget (env_sigs (ctx_env c)) si = Some sig -> sig_fine sig -> ok_code ns nf f = true ->
  pos + Z.of_nat (length (param_types sig)) + Z.of_nat (length (expand_locals (bf_locals f))) +
    Z.of_nat (length (bf_locals f)) + 16 < 2 ^ 32 - 1 ->
  exists a' b' k',
    run_cbs ([CB_begin_function_body (Z.of_nat j); CB_on_local_decl_count (Z.of_nat (length (bf_locals f)))] ++
             indexed (fun k r => [CB_on_local_decl k (fst r) (snd r)]) 0 (bf_locals f)) (ctx fs k) =
      Some (Some tt, lctx fs ei si pos a' b' locals k') /\
    rel ei T (fun i => (j < i < n)%nat) old (resolve_cells (is_func_ref j) pos cells ++ alloca) (rev locals)
      [mkLabel LABEL_TYPE_FUNC (result_types sig) (Z.of_nat (length locals)) WASM_INVALID_OFFSET WASM_INVALID_OFFSET]
      [mkRLabel None (result_types sig) (rev locals)] k' /\
    all_values locals.
Proof.
  intros j pos locals T alloca H Hown Hf Hs Hfine Hok Hroom. pose proof (cells_size_nonneg cells).
  assert (0 <= ei < Z.of_nat (length fs)) as Hei.
  { apply zget_lookup in Hf as [? ?%lookup_lt_Some]. lia. }
  assert (Forall (fun r => 0 <= fst r /\ is_value (snd r)) (bf_locals f)) as Hl.
  { unfold ok_code in Hok. apply andb_true_iff in Hok as [Hl%forallb_Forall _]. eapply Forall_impl; [exact Hl|].
    intros r [Hu%ok_u32_in Ht%value_type_value]%andb_true_iff. destruct Hu. by split; [lia|]. }
  assert (all_values locals) as Hv.
  { apply Forall_app. split; [apply Hfine|]. unfold expand_locals. apply Forall_concat, Forall_map.
    eapply Forall_impl; [exact Hl|]. intros r [_ Ht]. by apply Forall_replicate. }
  destruct (run_begin offsets cells fs k ei si a b sig (body_target c [] (param_types sig) [])) as (k1 & E1 & H1);
    [done|done|done|done|done|done|lia|].
  fold pos in E1, H1.
  assert (on_local_decl_count (Z.of_nat (length (bf_locals f))) (lctx fs ei si pos 0 0 (param_types sig) k1) =
    Some (Some tt, lctx fs ei si pos (Z.of_nat (length (bf_locals f))) 0 (param_types sig) k1)) as E2.
  { unfold on_local_decl_count. eapply run_loader_step; [apply run_counts; [done|apply H1]|]. reflexivity. }
  assert (with_types (param_types sig) k1 = k1) as Hk1.
  { unfold with_types. destruct H1 as [? Ht]. destruct k1. cbn in Ht |- *. by subst. }
  destruct (decide (bf_locals f = [])) as [Hnil|Hnil].
  - exists 0, 0, (set_label_stack [mkLabel LABEL_TYPE_FUNC (result_types sig) (Z.of_nat (length locals))
      WASM_INVALID_OFFSET WASM_INVALID_OFFSET] k1).
    assert (locals = param_types sig) as Hlp by (unfold locals; rewrite Hnil; apply app_nil_r).
    unfold alloca. rewrite Hlp, Hnil, app_nil_r in *. split_and!; [| |done].
    + cbn [app indexed se_for s_binary_reader length]. eapply run_loader_step; [exact E1|]. cbn beta.
      eapply run_loader_step; [exact E2|]. cbn [length]. 
      destruct H1 as [? ? Hlb]. destruct k1. cbn in Hlb |- *. by subst.
    + rewrite app_nil_r. eapply rel_entry; [apply Hfine|apply Hfine|exact Hlp|done|exact H1|]. apply H1.
  - assert (alloca = opcode_cell WASM_OPCODE_ALLOCA :: u32_cells (0 + Z.of_nat (length (expand_locals (bf_locals f))))) as Hal
      by (unfold alloca; by destruct (bf_locals f)).
    destruct Hfine as [Hfp Hfr Hf1].
    destruct (run_decls fs ei si pos Hei (param_types sig) (result_types sig) Hfp Hfr Hf1
      (fun i => (j < i < n)%nat) (resolve_cells (is_func_ref j) pos cells)
      (body_target c [] (param_types sig) []) eq_refl (bf_locals f) 0 0 (param_types sig) T k1 Hnil Hl) as (k2 & E3 & H2);
      [lia|lia|exact H1|exact Hfp|lia|done|lia| |done|].
    { rewrite cells_size_resolve by done. lia. }
    rewrite Hk1 in E3. do 3 eexists. split_and!; [|rewrite Hal; exact H2|done].
    cbn [app se_for s_binary_reader]. eapply run_loader_step; [exact E1|]. cbn beta. eapply run_loader_step; [exact E2|]. exact E3.
Qed.

Lemma scoped_mono (P Q : nat -> Prop) L cells : (forall m, P m -> Q m) -> scoped P L cells -> scoped Q L cells.
Proof.
  intros H Hc. eapply Forall_impl; [exact Hc|]. intros [b|m|m]; [done|done|apply H].
Qed.

(** What the end of a function leaves. *)
Lemma progress_step offsets cells fs k ei si a b sig o a' b' types cells' fs' k' :
  progress offsets cells fs k -> own_index (length offsets) = Some ei ->
  zget funcs0 ei = Some (mkFunc si (DefinedFunc WASM_INVALID_OFFSET a b [])) ->
  zget (env_sigs (ctx_env c)) si = Some sig -> o <> WASM_INVALID_OFFSET ->
  (forall i, zget fs' i = if decide (i = ei) then Some (mkFunc si (DefinedFunc o a' b' types)) else zget fs i) ->
  left_off (fun i => (length offsets < i < n)%nat) old cells' k' ->
  scoped (fun i => (length offsets < i < n)%nat) [] cells' ->
  progress (offsets ++ [o]) cells' fs' k'.
Proof.
  intros H Hown Hf Hs Ho Hfs [Hl1 Hl2 Hl3] Hsc. pose proof (own_small _ _ Hown) as Hj.
  destruct ready_ok as [_ _ _ _ _ Rinj _ _ _].
  split; rewrite ?length_app; cbn [length].
  - lia.
  - intros i oi ei' Hi Hi'. destruct (decide (i < length offsets)%nat).
    + rewrite lookup_app_l in Hi by done. destruct (pg_done _ _ _ _ H _ _ _ Hi Hi') as (H1 & s' & a2 & b2 & t2 & f0 & H2 & H3 & H4).
      split; [done|]. exists s', a2, b2, t2, f0. split_and!; [|done|done].
      rewrite Hfs, decide_False; [done|]. intros ->. assert (i = length offsets) by (by eapply Rinj). lia.
    + assert (i = length offsets) as ->.
      { apply lookup_lt_Some in Hi as Hlt. rewrite length_app in Hlt. cbn in Hlt. lia. }
      rewrite lookup_app_r, Nat.sub_diag in Hi by lia. injection Hi as <-. assert (ei' = ei) as -> by congruence.
      split; [done|]. do 5 eexists. split_and!; [by rewrite Hfs, decide_True|done|done].
  - intros i Hi. rewrite Hfs, decide_False.
    + apply (pg_rest _ _ _ _ H). intros q Hq. apply Hi. lia.
    + intros ->. eapply (Hi (length offsets)); [lia|done].
  - done.
  - done.
  - intros i Hi. apply Hl3. lia.
  - eapply scoped_mono; [|exact Hsc]. cbn. lia.
Qed.

Lemma zget_insert (l : list Func) i j f : 0 <= i < Z.of_nat (length l) ->
  zget (<[Z.to_nat i := f]> l) j = if decide (j = i) then Some f else zget l j.
Proof.
  intros Hi. unfold zget. destruct (decide (j = i)) as [->|Hne].
  - rewrite (proj2 (Z.ltb_ge i 0)) by lia. by rewrite list_lookup_insert_eq by lia.
  - destruct (Z.ltb_spec j 0); [done|]. rewrite list_lookup_insert_ne by lia. done.
Qed.

Lemma load_function ns nf offsets cells fs k f :
  progress offsets cells fs k -> (length offsets < n)%nat -> ok_code ns nf f = true ->
  base + cells_size cells + func_weight (length offsets) f < 2 ^ 32 - 1 ->
  outcome (run_cbs (code_callbacks (Z.of_nat (length offsets)) f)) (ctx fs k)
    (comp_function c false base offsets cells f)
    (fun p s' => exists fs' k', s' = ctx fs' k' /\ progress (fst p) (snd p) fs' k' /\
       fst p = offsets ++ [base + cells_size cells] /\
       cells_size (snd p) <= cells_size cells + func_weight (length offsets) f).
Proof.
  intros H Hj Hok Hroom. pose proof (cells_size_nonneg cells). pose proof (weights_nonneg (bf_body f)).
  destruct (own_func_ok _ Hj) as (ei & si & a & b & sig & Eown & Hown & Hf & Hs & Hfine).
  assert (zget fs ei = Some (mkFunc si (DefinedFunc WASM_INVALID_OFFSET a b []))) as Hf'.
  { rewrite (pg_rest _ _ _ _ H); [done|]. intros i Hi Ei. destruct ready_ok as [_ _ _ _ _ Rinj _ _ _].
    assert (i = length offsets) by (by eapply Rinj). lia. }
  assert (0 <= ei < Z.of_nat (length fs)) as Hei.
  { apply zget_lookup in Hf' as [? ?%lookup_lt_Some]. lia. }
  unfold func_weight, num_params in *. rewrite Eown in *. cbn [from_option] in *.
  unfold comp_function. rewrite Eown. cbn [value_or_crash res_bind]. cbn zeta.
  set (pos := base + cells_size cells) in *. rewrite length_app. cbn [length]. rewrite Nat.add_sub.
  destruct (run_head ns nf offsets cells fs k f ei si a b sig H Hown Hf' Hs Hfine Hok ltac:(fold pos; lia))
    as (a' & b' & k1 & E1 & Hrel & Hv). fold pos in E1, Hrel.
  set (locals := param_types sig ++ expand_locals (bf_locals f)) in *.
  set (T := body_target c (offsets ++ [pos]) locals (result_types sig)) in *.
  set (fs' := <[Z.to_nat ei := mkFunc si (DefinedFunc pos a' b' locals)]> fs).
  assert (pos <> WASM_INVALID_OFFSET) as Hpos by (unfold WASM_INVALID_OFFSET; lia).
  assert (forall i, zget fs' i = if decide (i = ei) then Some (mkFunc si (DefinedFunc pos a' b' locals)) else zget fs i)
    as Hfs' by (intros i; by apply zget_insert).
  pose proof (progress_statics offsets cells fs k ei si pos a' b' locals sig H Hown Hpos Hs Hfine Hv
    ltac:(by eexists) fs' k1 Hfs') as Hst. fold T in Hst.
  apply andb_true_iff in Hok as [_ Hbody].
  set (alloca := match bf_locals f with [] => [] | _ => _ end) in *.
  set (cells1 := resolve_cells (is_func_ref (length offsets)) pos cells) in *.
  assert (cells_size cells1 = cells_size cells) as Hsz1 by (by apply cells_size_resolve).
  assert (cells_size alloca <= 5) as Hal.
  { unfold alloca. destruct (bf_locals f); [done|]. by autorewrite with cells. }
  pose proof (cells_size_nonneg alloca).
  assert (scoped (fun i => (length offsets < i < n)%nat) [] cells1) as Hsc1.
  { eapply scoped_func_resolve; [|apply H]. cbn. lia. }
  pose proof (sim_instrs_end uninit_entry (ctx fs' k1) ei T (fun i => (length offsets < i < n)%nat) Hst old
    ns nf (bf_body f) (Z.of_nat (length offsets)) (cells1 ++ alloca)
    (mkLabel LABEL_TYPE_FUNC (result_types sig) (Z.of_nat (length locals)) WASM_INVALID_OFFSET WASM_INVALID_OFFSET)
    k1 Hbody eq_refl Hrel) as Hsim.
  cbn zeta in Hsim.
  assert (base + cells_size (cells1 ++ alloca) = pos + cells_size alloca) as Hpa by (rewrite cells_size_app; lia).
  rewrite Hpa in Hsim. set (R := res_bind (comps _ _ _ _ _ _) _) in Hsim.
  assert (comp_body T false pos f = (c' <- R ;; Ok (alloca ++ c'))%res) as HR.
  { rewrite comp_body_parts. cbn zeta. fold alloca. unfold R.
    destruct (comps _ _ _ _ _ _) as [[c1 S1]| |]; done. }
  assert (code_callbacks (Z.of_nat (length offsets)) f =
    ([CB_begin_function_body (Z.of_nat (length offsets)); CB_on_local_decl_count (Z.of_nat (length (bf_locals f)))] ++
     indexed (fun k r => [CB_on_local_decl k (fst r) (snd r)]) 0 (bf_locals f)) ++
    (instrs_callbacks (bf_body f) ++ [CB_on_opcode (opcode_code WASM_OPCODE_END); CB_end_function_body (Z.of_nat (length offsets))]))
    as Ecb by (unfold code_callbacks; by rewrite <- !app_assoc).
  rewrite Ecb. clear Ecb.
  assert (forall x, run_cbs (instrs_callbacks (bf_body f) ++ [CB_on_opcode (opcode_code WASM_OPCODE_END);
      CB_end_function_body (Z.of_nat (length offsets))]) (ctx fs' k1) = x ->
    forall hd, run_cbs hd (ctx fs k) = Some (Some tt, ctx fs' k1) -> run_cbs (hd ++ (instrs_callbacks (bf_body f) ++
      [CB_on_opcode (opcode_code WASM_OPCODE_END); CB_end_function_body (Z.of_nat (length offsets))])) (ctx fs k) = x) as Hrun.
  { intros x Hx hd Hhd. rewrite se_for_app. by eapply run_loader_step. }
  specialize (Hsim ltac:(unfold size_ok; rewrite length_rev; change (t_locals T) with locals; unfold locals; rewrite length_app, cells_size_app; cbn [length]; lia)).
  specialize (Hsim ltac:(intros p; eapply scoped_nil, scoped_app; split; [exact Hsc1|];
    unfold alloca; destruct (bf_locals f); [apply scoped_nothing|by scoped])).
  pose proof (comp_body_within T false ns nf (fun i => (length offsets < i < n)%nat) pos f) as Hw.
  rewrite HR in Hw |- *. clear HR. destruct R as [c'| |]; cbn [res_bind outcome] in *.
  - destruct Hsim as ([] & k2 & E2 & Hleft). exists (ctx fs' k2). split; [by apply (Hrun _ E2)|].
    destruct (Hw (alloca ++ c') ltac:(eapply func_results; exact Hst) ltac:(eapply sig_results; exact Hst)
      ltac:(eapply func_later; exact Hst) Hbody eq_refl)
      as [Hsc Hsz].
    exists fs', k2. cbn [fst snd]. split_and!; [done| |done|rewrite !cells_size_app in *; lia].
    rewrite <- app_assoc in Hleft. eapply progress_step; try done. apply scoped_app. by split.
  - destruct Hsim as (s' & E2). exists s'. by apply (Hrun _ E2).
  - by apply (Hrun _ Hsim).
Qed.

Fixpoint codes_weight (j : nat) (codes : list BFuncBody) : Z :=
  match codes with
  | [] => 0
  | f :: codes => func_weight j f + codes_weight (S j) codes
  end.

Lemma codes_weight_nonneg j codes : 0 <= codes_weight j codes.
Proof.
  revert j. induction codes as [|f codes IH]; intros j; [done|]. cbn [codes_weight]. specialize (IH (S j)).
  pose proof (weights_nonneg (bf_body f)). unfold func_weight, num_params.
  destruct (own_func c j) as [[[? ?] ?]|]; cbn [from_option]; lia.
Qed.

Lemma load_codes ns nf codes offsets cells fs k :
  progress offsets cells fs k -> (length offsets + length codes <= n)%nat ->
  forallb (ok_code ns nf) codes = true ->
  base + cells_size cells + codes_weight (length offsets) codes < 2 ^ 32 - 1 ->
  outcome (run_cbs (indexed code_callbacks (Z.of_nat (length offsets)) codes)) (ctx fs k)
    (comp_codes c false base offsets cells codes)
    (fun p s' => exists fs' k', s' = ctx fs' k' /\ progress (fst p) (snd p) fs' k' /\
       length (fst p) = (length offsets + length codes)%nat /\
       cells_size (snd p) <= cells_size cells + codes_weight (length offsets) codes).
Proof.
  revert offsets cells fs k. induction codes as [|f codes IH]; intros offsets cells fs k H Hn Hok Hroom.
  { cbn. eexists. split; [done|]. exists fs, k. split_and!; [done|done|lia|lia]. }
  cbn [forallb codes_weight length] in *. apply andb_true_iff in Hok as [Hok1 Hok2].
  pose proof (codes_weight_nonneg (S (length offsets)) codes).
  pose proof (load_function ns nf offsets cells fs k f H ltac:(lia) Hok1 ltac:(lia)) as Hf.
  cbn [indexed comp_codes]. unfold outcome in *. rewrite se_for_app.
  destruct (comp_function _ _ _ _ _ _) as [[offsets' cells']| |]; cbn [res_bind].
  - destruct Hf as (s' & E & fs' & k' & -> & H' & Ho & Hsz). cbn [fst snd] in *.
    assert (length offsets' = S (length offsets)) as Hl by (rewrite Ho, length_app; cbn; lia).
    specialize (IH offsets' cells' fs' k' H' ltac:(lia) Hok2 ltac:(rewrite Hl; lia)).
    replace (Z.of_nat (length offsets) + 1) with (Z.of_nat (length offsets')) by lia.
    destruct (comp_codes _ _ _ _ _ _) as [p| |].
    + destruct IH as (s' & E' & fs2 & k2 & -> & H2 & Hl2 & Hs2). exists (ctx fs2 k2). split; [by eapply run_loader_step|].
      exists fs2, k2. rewrite Hl in Hs2. split_and!; [done|done|lia|lia].
    + destruct IH as (s' & E'). exists s'. by eapply run_loader_step.
    + by eapply run_loader_step.
  - destruct Hf as (s' & E). exists s'. unfold se_bind, so_bind. by rewrite E.
  - unfold se_bind, so_bind. by rewrite Hf.
Qed.

Lemma progress_start : mem_rep (istream_writer (ctx_code c)) old ->
  istream_offset (ctx_code c) = base -> func_fixups (ctx_code c) = replicate n [] ->
  progress [] [] funcs0 (ctx_code c).
Proof.
  intros Hm Ho Hf. split; cbn [length]; try done.
  - lia.
  - rewrite cells_size_nil. lia.
  - by rewrite app_nil_r.
  - intros j Hj. rewrite Hf. rewrite lookup_replicate_2 by lia. done.
  - apply scoped_nothing.
Qed.

(** With no function to come, the cells are bytes. *)
Lemma scoped_bytes (P : nat -> Prop) cells : scoped P [] cells -> (forall m, ~ P m) -> exists bytes, cells = raw bytes.
Proof.
  intros H HP. induction H as [|x cells Hx Hc [bytes ->]]; [by exists []|].
  destruct x as [b|m|m]; [by exists (b :: bytes)| |by destruct (HP m)].
  by destruct Hx as (? & ? & ? & _).
Qed.
End code.

(** ** The code section *)

Lemma ctx_same c : ctx c (env_funcs (ctx_env c)) (ctx_code c) = c.
Proof. unfold ctx. destruct c as [[] ? ? ? ? ? ? ? ? ? ? ? ?]. done. Qed.

(** C4 - The loader translates a code section in one pass, with type checks as
    it goes, placeholders for branches forward and for calls of functions that
    come later, and patches once it knows where they go.  From any context
    that the sections before leave, it does what the structured translation
    says: it appends exactly the bytes of the translated functions, every
    branch and call with its address, and puts each function's offset in the
    environment; it reports an error where the translation is rejected, and
    fails an assertion where the translation does. *)
Theorem code_section_translated (uninit_entry : nat -> WasmBindingHashEntry) (c : Context) (old : list Z)
    (num_sigs num_funcs : Z) (codes : list BFuncBody) :
  ready c (length codes) = true ->
  mem_rep (istream_writer (ctx_code c)) old ->
  istream_offset (ctx_code c) = Z.of_nat (length old) ->
  func_fixups (ctx_code c) = replicate (length codes) [] ->
  forallb (ok_code num_sigs num_funcs) codes = true ->
  Z.of_nat (length old) + codes_weight c 0 codes < 2 ^ 32 - 1 ->
  let load := se_for (s_binary_reader uninit_entry) (indexed code_callbacks 0 codes) in
  match comp_codes c false (Z.of_nat (length old)) [] [] codes with
  | Ok (offsets, cells) => exists c' bytes,
      load c = Some (Some tt, c') /\ cells = raw bytes /\
      mem_rep (istream_writer (ctx_code c')) (old ++ bytes) /\
      istream_offset (ctx_code c') = Z.of_nat (length (old ++ bytes)) /\
      forall j ei o, offsets !! j = Some o -> zget (func_index_mapping c) (num_func_imports c + Z.of_nat j) = Some ei ->
        exists sig_index a b types,
          zget (env_funcs (ctx_env c')) ei = Some (mkFunc sig_index (DefinedFunc o a b types))
  | Rejected => exists c', load c = Some (None, c')
  | Crashed => load c = None
  end.
Proof.
  intros Hready Hm Ho Hf Hok Hroom load.
  pose proof (progress_start c (length codes) old Hm Ho Hf) as H.
  pose proof (load_codes uninit_entry c (length codes) Hready old num_sigs num_funcs codes [] [] _ _ H) as Hl.
  rewrite ctx_same in Hl. cbn [length] in Hl. change (Z.of_nat 0) with 0 in Hl. fold load in Hl.
  specialize (Hl ltac:(lia) Hok ltac:(rewrite cells_size_nil; lia)).
  destruct (comp_codes _ _ _ _ _ _) as [[offsets cells]| |]; [|exact Hl..].
  destruct Hl as (s' & E & fs' & k' & -> & H' & Hlen & _). cbn [fst snd] in *.
  destruct (scoped_bytes _ _ (pg_scope _ _ _ _ _ _ _ H')) as [bytes ->]; [lia|].
  exists (ctx c fs' k'), bytes. split_and!; [exact E|done| | |].
  - pose proof (pg_code _ _ _ _ _ _ _ H') as Hc. by rewrite flat_raw in Hc.
  - pose proof (pg_offset _ _ _ _ _ _ _ H') as Hp. rewrite cells_size_raw in Hp. rewrite length_app, Nat2Z.inj_add. exact Hp.
  - intros j ei o Hj Hei. destruct (pg_done _ _ _ _ _ _ _ H' j o ei Hj Hei) as (_ & si & a & b & ts & _ & E' & _). eauto.
Qed.

(** Two functions: the first calls the second, with blocks, a loop and a
    branch table. *)
Definition demo_codes : list BFuncBody :=
  [mkBFuncBody [(1, WASM_TYPE_I64)]
     [BI_BLOCK [WASM_TYPE_I32]
        [BI_INDEX WASM_OPCODE_GET_LOCAL 0;
         BI_IF [WASM_TYPE_I32]
           [BI_CONST (mkConst WASM_TYPE_I32 7)]
           [BI_CONST (mkConst WASM_TYPE_I32 3); BI_INDEX WASM_OPCODE_CALL 1; BI_INDEX WASM_OPCODE_BR 1]]];
   mkBFuncBody []
     [BI_BLOCK [] [BI_LOOP [] [BI_INDEX WASM_OPCODE_GET_LOCAL 0; BI_BR_TABLE [1; 1] 1]];
      BI_INDEX WASM_OPCODE_GET_LOCAL 0; BI_INDEX WASM_OPCODE_GET_LOCAL 0; BI_OP WASM_OPCODE_I32_MUL]].

Definition demo_context : Context :=
  match wasm_init_interpreter_environment with
  | Some env =>
      match se_for (s_binary_reader junk_entry)
        [CB_on_signature_count 1; CB_on_signature 0 [WASM_TYPE_I32] [WASM_TYPE_I32];
         CB_on_function_signatures_count 2; CB_on_function_signature 0 0; CB_on_function_signature 1 0]
        (init_context env) with
      | Some (_, c) => c
      | None => init_context env
      end
  | None => init_context (mkEnvironment [] [] [] [] [] [] empty_buffer empty_hash empty_hash)
  end.


Definition demo_code : list Z :=
  match comp_codes demo_context false 0 [] [] demo_codes with Ok (_, cells) => flat cells | _ => [] end.

Lemma demo_ready : ready demo_context (length demo_codes) = true.
Proof. vm_compute. reflexivity. Qed.

Lemma demo_comp : comp_codes demo_context false (Z.of_nat (length (@nil Z))) [] [] demo_codes = Ok ([0; 47], raw demo_code).
Proof. vm_compute. reflexivity. Qed.

Lemma code_section_translated_witness :
  exists c', se_for (s_binary_reader junk_entry) (indexed code_callbacks 0 demo_codes) demo_context =
      Some (Some tt, c') /\
    mem_rep (istream_writer (ctx_code c')) demo_code /\ length demo_code = 111%nat.
Proof.
  pose proof (code_section_translated junk_entry demo_context [] 1 2 demo_codes demo_ready) as H.
  assert (mem_rep (istream_writer (ctx_code demo_context)) []) as Hm.
  { split_and!; vm_compute; done. }
  specialize (H Hm ltac:(vm_compute; reflexivity) ltac:(vm_compute; reflexivity) ltac:(vm_compute; reflexivity)
    ltac:(vm_compute; reflexivity)). cbn zeta in H. rewrite demo_comp in H.
  destruct H as (c' & bytes & E & Hb & Hc & _). exists c'. split; [exact E|].
  rewrite <- (flat_raw demo_code), Hb, flat_raw. split; [exact Hc|].
  rewrite <- (flat_raw bytes), <- Hb, flat_raw. vm_compute. reflexivity.
Defined.
