(* ===== verification/Structured.v ===== *)
(** * What function bodies mean

    An evaluator of structured code, independent of the loader and of the
    machine: values carry their types, a body has its own operand stack, a
    branch is an outcome that the blocks around it consume.  It is what
    WebAssembly says a function does, for the version of the format the program
    reads, in which a branch to a loop passes no values.

    The evaluator takes fuel, one unit for each level of nesting, iteration and
    call; [NoFuel] is not an answer.  [Stuck] is an operand that is missing or
    of the wrong type, and an index that names nothing: code that passes the
    type checks does not get there (Soundness.v).  [Outside] is what the
    evaluator leaves out: a call of a function the module does not define, a
    memory or a table it does not have, and what the C code of the interpreter
    gives no meaning to, a cast out of range and more pages than 32 bits
    count. *)

From S2P Require Import Prelude Opcode Ast BinaryReader BinaryFormat Float Numeric Interp InterpFacts InterpOps InterpControl.

(** ** Values and stores *)

Record Val : Set := mkVal { val_type : ValType; val_bits : Z }.

(** Memories and globals by their indices in the environment. *)
Record Store : Set := mkStore { s_memories : list Memory; s_globals : list Val }.

Definition set_memory_at (i : Z) (m : Memory) (σ : Store) : Store :=
  mkStore (<[Z.to_nat i := m]> (s_memories σ)) (s_globals σ).

Definition set_global_at (i : Z) (v : Val) (σ : Store) : Store :=
  mkStore (s_memories σ) (<[Z.to_nat i := v]> (s_globals σ)).

(** The operand of type [t] on top of the stack. *)
Definition pop_val (t : ValType) (vs : list Val) : option (Z * list Val) :=
  match vs with
  | v :: vs => if decide (val_type v = t) then Some (val_bits v, vs) else None
  | [] => None
  end.

Definition of_wasm_type (t : WasmType) : ValType :=
  match t with WASM_TYPE_I64 => I64 | WASM_TYPE_F32 => F32 | WASM_TYPE_F64 => F64 | _ => I32 end.

Definition zero_val (t : WasmType) : Val := mkVal (of_wasm_type t) 0.

(** ** Numeric operators *)

Section numeric.
Context `{NanBits}.

Definition value_of (t : ValType) (v : Z) : OpResult := Value (wrap (VALUE_TYPE t) v).

Definition wrap_result (t : ValType) (r : OpResult) : OpResult :=
  match r with Value v => value_of t v | _ => r end.

Definition float_un (t : ValType) (f : spec_float -> spec_float) : IntOp :=
  IUn t t (fun a => value_of t (UNOP_FLOAT_op t f a)).
Definition float_bin (t : ValType) (f : spec_float -> spec_float -> spec_float) : IntOp :=
  IBin t t (fun a b => value_of t (BINOP_FLOAT_op t f a b)).
Definition float_rel (t : ValType) (f : spec_float -> spec_float -> Z) : IntOp :=
  IBin I32 t (fun a b => value_of I32 (f (BITCAST_TO t a) (BITCAST_TO t b))).
Definition convert (rt t : ValType) (f : Z -> Z) : IntOp := IUn rt t (fun a => value_of rt (f a)).
Definition truncate (rt t : ValType) (f : Z -> OpResult) : IntOp := IUn rt t (fun a => wrap_result rt (f a)).
Definition copysign (t : ValType) (a b : Z) : OpResult :=
  value_of t (Z.lor (Z.land a (wrap (VALUE_TYPE t) (Z.lnot (SIGN_MASK t)))) (Z.land b (SIGN_MASK t))).

(** The operators on floats and the conversions, as Numeric.v has them. *)
Definition float_op (op : WasmOpcode) : option IntOp :=
  match op with
  | WASM_OPCODE_F32_ADD => Some (float_bin F32 (f_add F32))
  | WASM_OPCODE_F32_SUB => Some (float_bin F32 (f_sub F32))
  | WASM_OPCODE_F32_MUL => Some (float_bin F32 (f_mul F32))
  | WASM_OPCODE_F32_DIV => Some (IBin F32 F32 (fun a b => value_of F32 (BINOP_FLOAT_DIV_op F32 a b)))
  | WASM_OPCODE_F32_MIN => Some (IBin F32 F32 (fun a b => value_of F32 (MINMAX_FLOAT_op F32 MIN a b)))
  | WASM_OPCODE_F32_MAX => Some (IBin F32 F32 (fun a b => value_of F32 (MINMAX_FLOAT_op F32 MAX a b)))
  | WASM_OPCODE_F32_ABS => Some (IUn F32 F32 (fun a => value_of F32 (Z.land a (u32 (Z.lnot (SIGN_MASK F32))))))
  | WASM_OPCODE_F32_NEG => Some (IUn F32 F32 (fun a => value_of F32 (Z.lxor a (SIGN_MASK F32))))
  | WASM_OPCODE_F32_COPYSIGN => Some (IBin F32 F32 (copysign F32))
  | WASM_OPCODE_F32_CEIL => Some (float_un F32 (SFrint fmt32 Rceil))
  | WASM_OPCODE_F32_FLOOR => Some (float_un F32 (SFrint fmt32 Rfloor))
  | WASM_OPCODE_F32_TRUNC => Some (float_un F32 (SFrint fmt32 Rtrunc))
  | WASM_OPCODE_F32_NEAREST => Some (float_un F32 (SFrint fmt32 Rnearest))
  | WASM_OPCODE_F32_SQRT => Some (float_un F32 (SFsqrt (ff_prec fmt32) (ff_emax fmt32)))
  | WASM_OPCODE_F32_EQ => Some (float_rel F32 f_eq)
  | WASM_OPCODE_F32_NE => Some (float_rel F32 f_ne)
  | WASM_OPCODE_F32_LT => Some (float_rel F32 f_lt)
  | WASM_OPCODE_F32_LE => Some (float_rel F32 f_le)
  | WASM_OPCODE_F32_GT => Some (float_rel F32 f_gt)
  | WASM_OPCODE_F32_GE => Some (float_rel F32 f_ge)
  | WASM_OPCODE_F64_ADD => Some (float_bin F64 (f_add F64))
  | WASM_OPCODE_F64_SUB => Some (float_bin F64 (f_sub F64))
  | WASM_OPCODE_F64_MUL => Some (float_bin F64 (f_mul F64))
  | WASM_OPCODE_F64_DIV => Some (IBin F64 F64 (fun a b => value_of F64 (BINOP_FLOAT_DIV_op F64 a b)))
  | WASM_OPCODE_F64_MIN => Some (IBin F64 F64 (fun a b => value_of F64 (MINMAX_FLOAT_op F64 MIN a b)))
  | WASM_OPCODE_F64_MAX => Some (IBin F64 F64 (fun a b => value_of F64 (MINMAX_FLOAT_op F64 MAX a b)))
  | WASM_OPCODE_F64_ABS => Some (IUn F64 F64 (fun a => value_of F64 (Z.land a (u64 (Z.lnot (SIGN_MASK F64))))))
  | WASM_OPCODE_F64_NEG => Some (IUn F64 F64 (fun a => value_of F64 (Z.lxor a (SIGN_MASK F64))))
  | WASM_OPCODE_F64_COPYSIGN => Some (IBin F64 F64 (copysign F64))
  | WASM_OPCODE_F64_CEIL => Some (float_un F64 (SFrint fmt64 Rceil))
  | WASM_OPCODE_F64_FLOOR => Some (float_un F64 (SFrint fmt64 Rfloor))
  | WASM_OPCODE_F64_TRUNC => Some (float_un F64 (SFrint fmt64 Rtrunc))
  | WASM_OPCODE_F64_NEAREST => Some (float_un F64 (SFrint fmt64 Rnearest))
  | WASM_OPCODE_F64_SQRT => Some (float_un F64 (SFsqrt (ff_prec fmt64) (ff_emax fmt64)))
  | WASM_OPCODE_F64_EQ => Some (float_rel F64 f_eq)
  | WASM_OPCODE_F64_NE => Some (float_rel F64 f_ne)
  | WASM_OPCODE_F64_LT => Some (float_rel F64 f_lt)
  | WASM_OPCODE_F64_LE => Some (float_rel F64 f_le)
  | WASM_OPCODE_F64_GT => Some (float_rel F64 f_gt)
  | WASM_OPCODE_F64_GE => Some (float_rel F64 f_ge)
  | WASM_OPCODE_I32_TRUNC_S_F32 => Some (truncate I32 F32 i32_trunc_s_f32)
  | WASM_OPCODE_I32_TRUNC_S_F64 => Some (truncate I32 F64 i32_trunc_s_f64)
  | WASM_OPCODE_I32_TRUNC_U_F32 => Some (truncate I32 F32 i32_trunc_u_f32)
  | WASM_OPCODE_I32_TRUNC_U_F64 => Some (truncate I32 F64 i32_trunc_u_f64)
  | WASM_OPCODE_I64_TRUNC_S_F32 => Some (truncate I64 F32 i64_trunc_s_f32)
  | WASM_OPCODE_I64_TRUNC_S_F64 => Some (truncate I64 F64 i64_trunc_s_f64)
  | WASM_OPCODE_I64_TRUNC_U_F32 => Some (truncate I64 F32 i64_trunc_u_f32)
  | WASM_OPCODE_I64_TRUNC_U_F64 => Some (truncate I64 F64 i64_trunc_u_f64)
  | WASM_OPCODE_F32_CONVERT_S_I32 => Some (convert F32 I32 (fun v => convert_op F32 (to_signed 32 v)))
  | WASM_OPCODE_F32_CONVERT_U_I32 => Some (convert F32 I32 (convert_op F32))
  | WASM_OPCODE_F32_CONVERT_S_I64 => Some (convert F32 I64 (fun v => convert_op F32 (to_signed 64 v)))
  | WASM_OPCODE_F32_CONVERT_U_I64 => Some (convert F32 I64 (convert_op F32))
  | WASM_OPCODE_F64_CONVERT_S_I32 => Some (convert F64 I32 (fun v => convert_op F64 (to_signed 32 v)))
  | WASM_OPCODE_F64_CONVERT_U_I32 => Some (convert F64 I32 (convert_op F64))
  | WASM_OPCODE_F64_CONVERT_S_I64 => Some (convert F64 I64 (fun v => convert_op F64 (to_signed 64 v)))
  | WASM_OPCODE_F64_CONVERT_U_I64 => Some (convert F64 I64 (convert_op F64))
  | WASM_OPCODE_F32_DEMOTE_F64 => Some (convert F32 F64 f32_demote_f64)
  | WASM_OPCODE_F64_PROMOTE_F32 => Some (convert F64 F32 f64_promote_f32)
  | WASM_OPCODE_F32_REINTERPRET_I32 => Some (convert F32 I32 (fun v => v))
  | WASM_OPCODE_F64_REINTERPRET_I64 => Some (convert F64 I64 (fun v => v))
  | WASM_OPCODE_I32_REINTERPRET_F32 => Some (convert I32 F32 (fun v => v))
  | WASM_OPCODE_I64_REINTERPRET_F64 => Some (convert I64 F64 (fun v => v))
  | _ => None
  end.

Definition num_op (op : WasmOpcode) : option IntOp :=
  match spec_int_op op with Some o => Some o | None => float_op op end.
End numeric.

(** ** Modules *)

(** What a body can name.  Functions of the module are numbered as in its code
    section; a table's elements are indices of the environment, and
    [in_element] says which functions of the module they are. *)
Record Instance : Type := mkInstance {
  in_body : nat -> option (FuncSignature * BFuncBody);
  in_func : Z -> option nat;
  in_sig : Z -> option FuncSignature;
  in_global : Z -> option Z;
  in_memory : Z;
  in_table : option (list Z);
  in_element : Z -> option nat;
  in_element_sig : Z -> option FuncSignature
}.

(** The outcome of code: the next instruction is reached, a branch to the
    [d]-th block around with the values its label takes, a return, a trap.
    Values have the top of the stack first. *)
Inductive Exec : Type :=
| Normal (σ : Store) (ls vs : list Val)
| Branch (d : nat) (σ : Store) (ls vs : list Val)
| Returned (σ : Store) (vs : list Val)
| Trapped (r : WasmInterpreterResult) (σ : Store)
| Stuck
| Outside
| NoFuel.

Definition answered (r : Exec) : Prop :=
  match r with Stuck | Outside | NoFuel => False | _ => True end.

Section exec.
Context `{NanBits} `{MemAllocator} (I : Instance).

(** A state while a body is running: the store and the locals. *)
Abbreviation Step := (Store -> list Val -> list Val -> Exec).

(** ** Instructions without blocks *)

Definition exec_num (o : IntOp) : Step := fun σ ls vs =>
  let finish rt r vs :=
    match r with
    | Value v => Normal σ ls (mkVal rt v :: vs)
    | Traps r => Trapped r σ
    | Undefined => Outside
    end in
  match o with
  | IUn rt t f =>
      match pop_val t vs with Some (a, vs) => finish rt (f a) vs | None => Stuck end
  | IBin rt t f =>
      match pop_val t vs with
      | Some (b, vs) =>
          match pop_val t vs with Some (a, vs) => finish rt (f a b) vs | None => Stuck end
      | None => Stuck
      end
  end.

(** A branch to a label of arity [a], or a return of [a] values. *)
Definition take_values (a : nat) (vs : list Val) : option (list Val) :=
  if (a <=? length vs)%nat then Some (take a vs) else None.

Definition exec_branch (A : list nat) (d : Z) : Step := fun σ ls vs =>
  match A !! Z.to_nat d with
  | Some a => match take_values a vs with Some kept => Branch (Z.to_nat d) σ ls kept | None => Stuck end
  | None => Stuck
  end.

Definition exec_op (results : nat) (op : WasmOpcode) : Step := fun σ ls vs =>
  match op with
  | WASM_OPCODE_UNREACHABLE => Trapped WASM_INTERPRETER_TRAP_UNREACHABLE σ
  | WASM_OPCODE_NOP => Normal σ ls vs
  | WASM_OPCODE_RETURN =>
      match take_values results vs with Some vs => Returned σ vs | None => Stuck end
  | WASM_OPCODE_DROP => match vs with _ :: vs => Normal σ ls vs | [] => Stuck end
  | WASM_OPCODE_SELECT =>
      match pop_val I32 vs with
      | Some (c, false_ :: true_ :: vs) => Normal σ ls ((if c =? 0 then false_ else true_) :: vs)
      | _ => Stuck
      end
  | _ => match num_op op with Some o => exec_num o σ ls vs | None => Stuck end
  end.

Definition const_val (c : WasmConst) : Val :=
  let t := of_wasm_type (const_type c) in mkVal t (wrap (VALUE_TYPE t) (const_bits c)).

(** Base plus offset, without wrap-around; the access must fit. *)
Definition exec_load (t : ValType) (n : nat) (sign : bool) (offset : Z) : Step := fun σ ls vs =>
  match zget (s_memories σ) (in_memory I), pop_val I32 vs with
  | None, _ => Outside
  | Some m, Some (base, vs) =>
      let ea := base + offset in
      if ea + Z.of_nat n <=? mem_byte_size m then
        match zslice (mem_data m) ea (Z.of_nat n) with
        | Some bytes => Normal σ ls (mkVal t (spec_load_value t n sign bytes) :: vs)
        | None => Stuck
        end
      else Trapped WASM_INTERPRETER_TRAP_MEMORY_ACCESS_OUT_OF_BOUNDS σ
  | Some _, None => Stuck
  end.

Definition exec_store (t : ValType) (n : nat) (offset : Z) : Step := fun σ ls vs =>
  match zget (s_memories σ) (in_memory I), pop_val t vs with
  | None, _ => Outside
  | Some m, Some (v, vs) =>
      match pop_val I32 vs with
      | Some (base, vs) =>
          let ea := base + offset in
          if ea + Z.of_nat n <=? mem_byte_size m then
            match zblit (mem_data m) ea (le_bytes n v) with
            | Some data =>
                Normal (set_memory_at (in_memory I) (mkMemory data (mem_page_limits m) (mem_byte_size m)) σ) ls vs
            | None => Stuck
            end
          else Trapped WASM_INTERPRETER_TRAP_MEMORY_ACCESS_OUT_OF_BOUNDS σ
      | None => Stuck
      end
  | Some _, None => Stuck
  end.

Definition exec_memory (op : WasmOpcode) (offset : Z) : Step := fun σ ls vs =>
  match spec_load op with
  | Some (t, n, sign) => exec_load t n sign offset σ ls vs
  | None =>
      match spec_store op with
      | Some (t, n) => exec_store t n offset σ ls vs
      | None => Stuck
      end
  end.

(** Where more pages than 32 bits count are asked for the interpreter goes
    wrong. *)
Definition exec_reserved (op : WasmOpcode) : Step := fun σ ls vs =>
  match zget (s_memories σ) (in_memory I) with
  | Some m =>
      let old := lim_initial (mem_page_limits m) in
      match op with
      | WASM_OPCODE_CURRENT_MEMORY => Normal σ ls (mkVal I32 old :: vs)
      | WASM_OPCODE_GROW_MEMORY =>
          match pop_val I32 vs with
          | Some (pages, vs) =>
              if old + pages <? 2 ^ 32 then
                if may_grow m pages
                then Normal (set_memory_at (in_memory I) (grown m pages) σ) ls (mkVal I32 old :: vs)
                else Normal σ ls (mkVal I32 (2 ^ 32 - 1) :: vs)
              else Outside
          | None => Stuck
          end
      | _ => Stuck
      end
  | None => Outside
  end.

(** ** Blocks and calls *)

(** What a block does with the outcome of its body: [vs] is what was under
    it. *)
Definition leave_block (vs : list Val) (r : Exec) : Exec :=
  match r with
  | Normal σ ls vs' | Branch O σ ls vs' => Normal σ ls (vs' ++ vs)
  | Branch (S d) σ ls vs' => Branch d σ ls vs'
  | _ => r
  end.

(** The results of a body of a function of [results] values. *)
Definition leave_body (results : nat) (r : Exec) : Exec :=
  match r with
  | Normal σ _ vs => if (length vs =? results)%nat then Returned σ vs else Stuck
  | Branch O σ _ vs => Returned σ vs
  | Branch (S _) _ _ _ => Stuck
  | _ => r
  end.

(** The call's outcome in the caller. *)
Definition resume (ls vs : list Val) (r : Exec) : Exec :=
  match r with
  | Returned σ results => Normal σ ls (results ++ vs)
  | Trapped _ _ | Outside | NoFuel => r
  | _ => Stuck
  end.

Definition body_locals (f : BFuncBody) : list WasmType :=
  concat (map (fun r => replicate (Z.to_nat (fst r)) (snd r)) (bf_locals f)).

Section loops.
Context (run : list nat -> nat -> Store -> list Val -> list Val -> BInstr -> Exec).

(** A list of instructions: labels of the arities [A], in a function of
    [results] values. *)
Fixpoint exec_list (A : list nat) (results : nat) (σ : Store) (ls vs : list Val) (l : list BInstr) : Exec :=
  match l with
  | [] => Normal σ ls vs
  | i :: l =>
      match run A results σ ls vs i with
      | Normal σ ls vs => exec_list A results σ ls vs l
      | r => r
      end
  end.

(** The body of function [j] on its arguments. *)
Definition exec_body (sig : FuncSignature) (f : BFuncBody) (σ : Store) (args : list Val) : Exec :=
  let results := length (result_types sig) in
  leave_body results
    (exec_list [results] results σ (rev args ++ map zero_val (body_locals f)) [] (bf_body f)).

Definition exec_call (j : nat) : Step := fun σ ls vs =>
  match in_body I j with
  | Some (sig, f) =>
      let n := length (param_types sig) in
      match take_values n vs with
      | Some args => resume ls (drop n vs) (exec_body sig f σ args)
      | None => Stuck
      end
  | None => Stuck
  end.

(** The element, then its signature, are checked in the order of the code. *)
Definition exec_call_indirect (sig_index : Z) : Step := fun σ ls vs =>
  match in_table I, in_sig I sig_index, pop_val I32 vs with
  | None, _, _ => Outside
  | Some elements, Some sig, Some (i, vs) =>
      match zget elements i with
      | None => Trapped WASM_INTERPRETER_TRAP_UNDEFINED_TABLE_INDEX σ
      | Some element =>
          if decide (element = WASM_INVALID_INDEX) then Trapped WASM_INTERPRETER_TRAP_UNINITIALIZED_TABLE_ELEMENT σ
          else match in_element_sig I element with
               | Some sig' =>
                   if decide (sig' = sig) then
                     match in_element I element with Some j => exec_call j σ ls vs | None => Outside end
                   else Trapped WASM_INTERPRETER_TRAP_INDIRECT_CALL_SIGNATURE_MISMATCH σ
               | None => Stuck
               end
      end
  | _, _, _ => Stuck
  end.
End loops.

Definition exec_index (run : list nat -> nat -> Store -> list Val -> list Val -> BInstr -> Exec)
    (A : list nat) (op : WasmOpcode) (index : Z) : Step := fun σ ls vs =>
  match op with
  | WASM_OPCODE_BR => exec_branch A index σ ls vs
  | WASM_OPCODE_BR_IF =>
      match pop_val I32 vs with
      | Some (c, vs) => if c =? 0 then Normal σ ls vs else exec_branch A index σ ls vs
      | None => Stuck
      end
  | WASM_OPCODE_CALL => match in_func I index with Some j => exec_call run j σ ls vs | None => Outside end
  | WASM_OPCODE_GET_GLOBAL =>
      match in_global I index with
      | Some g => match zget (s_globals σ) g with Some v => Normal σ ls (v :: vs) | None => Stuck end
      | None => Stuck
      end
  | WASM_OPCODE_SET_GLOBAL =>
      match in_global I index, vs with
      | Some g, v :: vs =>
          if Z.of_nat (length (s_globals σ)) <=? g then Stuck else Normal (set_global_at g v σ) ls vs
      | _, _ => Stuck
      end
  | WASM_OPCODE_GET_LOCAL =>
      match zget ls index with Some v => Normal σ ls (v :: vs) | None => Stuck end
  | WASM_OPCODE_SET_LOCAL =>
      match vs with
      | v :: vs => match zset ls index v with Some ls => Normal σ ls vs | None => Stuck end
      | [] => Stuck
      end
  | WASM_OPCODE_TEE_LOCAL =>
      match vs with
      | v :: _ => match zset ls index v with Some ls => Normal σ ls vs | None => Stuck end
      | [] => Stuck
      end
  | _ => Stuck
  end.

(** A key beyond the targets selects the default. *)
Definition exec_br_table (A : list nat) (targets : list Z) (default_ : Z) : Step := fun σ ls vs =>
  match pop_val I32 vs with
  | Some (key, vs) =>
      exec_branch A (match zget targets key with Some d => d | None => default_ end) σ ls vs
  | None => Stuck
  end.

Fixpoint exec (fuel : nat) (A : list nat) (results : nat) (σ : Store) (ls vs : list Val) (i : BInstr) : Exec :=
  match fuel with
  | O => NoFuel
  | S n =>
      let body arity l := exec_list (exec n) (arity :: A) results σ ls [] l in
      match i with
      | BI_OP op => exec_op results op σ ls vs
      | BI_BLOCK sig l => leave_block vs (body (length sig) l)
      | BI_LOOP sig l =>
          match body O l with
          | Branch O σ ls _ => exec n A results σ ls vs i
          | r => leave_block vs r
          end
      | BI_IF sig true_ false_ =>
          match pop_val I32 vs with
          | Some (c, vs) => leave_block vs (body (length sig) (if c =? 0 then false_ else true_))
          | None => Stuck
          end
      | BI_INDEX op index => exec_index (exec n) A op index σ ls vs
      | BI_BR_TABLE targets default_ => exec_br_table A targets default_ σ ls vs
      | BI_CALL_INDIRECT sig_index => exec_call_indirect (exec n) sig_index σ ls vs
      | BI_CONST c => Normal σ ls (const_val c :: vs)
      | BI_MEMORY op _ offset => exec_memory op offset σ ls vs
      | BI_RESERVED op => exec_reserved op σ ls vs
      end
  end.

(** Function [j] on [args], last first: [Returned], [Trapped], or no answer. *)
Definition call (fuel j : nat) (σ : Store) (args : list Val) : Exec :=
  match in_body I j with
  | Some (sig, f) => exec_body (exec fuel) sig f σ args
  | None => Stuck
  end.
End exec.

(** ** Nesting *)

(** How deep blocks are nested in an instruction. *)
Fixpoint depth (i : BInstr) : nat :=
  match i with
  | BI_BLOCK _ l | BI_LOOP _ l => S (list_max (map depth l))
  | BI_IF _ ts fs => S (Nat.max (list_max (map depth ts)) (list_max (map depth fs)))
  | _ => 0
  end.

Definition depths (l : list BInstr) : nat := list_max (map depth l).

Lemma depths_cons i l : depths (i :: l) = Nat.max (depth i) (depths l).
Proof. done. Qed.
