(* ===== verification/MachineRun.v ===== *)
(** * The machine against the evaluator

    When a machine state stands for a store, the operands and locals of the
    running functions and their return addresses, and what each instruction of
    the interpreter does to it. *)

From S2P Require Import Prelude Opcode Ast BinaryFormat Float Numeric Interp InterpFacts InterpOps InterpControl Structured.
#[local] Open Scope interp_scope.

(** ** Values and slots *)

(** The field of the slot that the value's type selects; the rest of the slot
    is whatever an earlier value left there. *)
Definition holds (slot : Z) (v : Val) : Prop := get_field (val_type v) slot = val_bits v.

Lemma holds_field t old b : holds (set_field t old b) (mkVal t (wrap (VALUE_TYPE t) b)).
Proof. apply get_set_field. Qed.

Lemma holds_bits slot v : holds slot v -> in_u (VALUE_TYPE (val_type v)) (val_bits v).
Proof. intros <-. apply get_field_u. Qed.

Lemma holds_zero t : holds 0 (zero_val t).
Proof. by destruct t. Qed.

Lemma le_bytes_wrap n v : le_bytes n (wrap (8 * Z.of_nat n) v) = le_bytes n v.
Proof.
  pose proof (le_bytes_of_le (le_bytes n v) (le_bytes_ok n v)) as E.
  by rewrite length_le_bytes, of_le_bytes in E.
Qed.

(** ** Runs *)

Definition exhausted (r : WasmInterpreterResult) : bool :=
  match r with
  | WASM_INTERPRETER_TRAP_VALUE_STACK_EXHAUSTED | WASM_INTERPRETER_TRAP_CALL_STACK_EXHAUSTED => true
  | _ => false
  end.

Section runs.
Context `{NanBits} `{MemAllocator} (top : Z).

(** Some number of instructions leads to a state in [P], or leaves the loop as
    [R] says, or with one of the stacks full. *)
Definition runs (st : State) (P : State -> Prop) (R : WasmInterpreterResult -> State -> Prop) : Prop :=
  exists n, match run_loop n top st with
  | Done _ st' => P st'
  | Exit r st' => exhausted r = true \/ R r st'
  | Undef => False
  end.

Lemma runs_here st (P : State -> Prop) R : P st -> runs st P R.
Proof. intros HP. by exists 0%nat. Qed.

Lemma runs_bind st (P Q : State -> Prop) R :
  runs st P R -> (forall st', P st' -> runs st' Q R) -> runs st Q R.
Proof.
  intros [n Hn] Hk. destruct (run_loop n top st) as [[] st'|r st'|] eqn:E; [| |done].
  - destruct (Hk st' Hn) as [m Hm]. exists (n + m)%nat. by rewrite run_loop_add, (bind_Done _ _ _ _ _ E).
  - exists n. by rewrite E.
Qed.

Lemma runs_weaken st (P Q : State -> Prop) (R R' : WasmInterpreterResult -> State -> Prop) :
  runs st P R -> (forall st', P st' -> Q st') -> (forall r st', R r st' -> R' r st') -> runs st Q R'.
Proof.
  intros [n Hn] HP HR. exists n. destruct (run_loop n top st) as [[] st'|r st'|]; [by apply HP| |done].
  destruct Hn as [|Hr]; [by left|right; by apply HR].
Qed.

Lemma run_loop_1 st : run_loop 1 top st = step top st.
Proof. cbn. unfold bind. by destruct (step top st) as [[] ?|? ?|]. Qed.

Lemma runs_single st (P : State -> Prop) R :
  match step top st with Done _ st' => P st' | Exit r st' => exhausted r = true \/ R r st' | Undef => False end ->
  runs st P R.
Proof. intros Hs. exists 1%nat. by rewrite run_loop_1. Qed.

Lemma runs_step st st' (P : State -> Prop) R : step top st = Done tt st' -> runs st' P R -> runs st P R.
Proof.
  intros E Hr. apply (runs_bind _ (fun s => s = st')); [apply runs_single; by rewrite E|by intros ? ->].
Qed.

Lemma runs_exit st r st' (P : State -> Prop) (R : WasmInterpreterResult -> State -> Prop) :
  step top st = Exit r st' -> exhausted r = true \/ R r st' -> runs st P R.
Proof. intros E Hr. apply runs_single. by rewrite E. Qed.

(** The same with at least one instruction before [P]. *)
Definition runs1 (st : State) (P : State -> Prop) (R : WasmInterpreterResult -> State -> Prop) : Prop :=
  match step top st with
  | Done _ st' => runs st' P R
  | Exit r st' => exhausted r = true \/ R r st'
  | Undef => False
  end.

Lemma runs1_runs st P R : runs1 st P R -> runs st P R.
Proof.
  unfold runs1. intros Hr. destruct (step top st) as [[] st'|r st'|] eqn:E; [by eapply runs_step|by eapply runs_exit|done].
Qed.

Lemma runs1_step st st' (P : State -> Prop) R : step top st = Done tt st' -> runs st' P R -> runs1 st P R.
Proof. unfold runs1. by intros ->. Qed.

Lemma runs1_exit st r st' (P : State -> Prop) (R : WasmInterpreterResult -> State -> Prop) :
  step top st = Exit r st' -> exhausted r = true \/ R r st' -> runs1 st P R.
Proof. unfold runs1. by intros ->. Qed.

Lemma runs1_bind st (P Q : State -> Prop) R :
  runs1 st P R -> (forall st', P st' -> runs st' Q R) -> runs1 st Q R.
Proof. unfold runs1. destruct (step top st) as [[] st'|r st'|]; [|done..]. apply runs_bind. Qed.

Lemma runs_bind1 st (P Q : State -> Prop) R :
  runs st P R -> (forall st', P st' -> runs1 st' Q R) -> runs1 st Q R.
Proof.
  intros [n Hn] Hk. revert st Hn. induction n as [|n IH]; intros st Hn; [by apply Hk|].
  cbn in Hn. unfold bind in Hn. unfold runs1. destruct (step top st) as [[] st'|r st'|]; [|done..].
  by apply runs1_runs, IH.
Qed.

Lemma runs1_weaken st (P Q : State -> Prop) (R R' : WasmInterpreterResult -> State -> Prop) :
  runs1 st P R -> (forall st', P st' -> Q st') -> (forall r st', R r st' -> R' r st') -> runs1 st Q R'.
Proof.
  unfold runs1. intros Hr HP HR. destruct (step top st) as [[] st'|r st'|]; [by eapply runs_weaken| |done].
  destruct Hr; [by left|right; by apply HR].
Qed.

(** [k] instructions, and no other end before them than a full stack. *)
Definition takes (k : nat) (st : State) : Prop :=
  exists n, (k <= n)%nat /\ match run_loop n top st with
  | Done _ _ => True
  | Exit r _ => exhausted r = true
  | Undef => False
  end.

Lemma takes_0 st : takes 0 st.
Proof. by exists 0%nat. Qed.

Lemma takes_after st (P : State -> Prop) R k : runs st P R -> (forall r st', ~ R r st') ->
  (forall st', P st' -> takes k st') -> takes k st.
Proof.
  intros [n Hn] HR Hk. destruct (run_loop n top st) as [[] st'|r st'|] eqn:E; [| |done].
  - destruct (Hk st' Hn) as (m & Hm & Hr). exists (n + m)%nat. split; [lia|].
    by rewrite run_loop_add, (bind_Done _ _ _ _ _ E).
  - destruct Hn as [Hx|Hx]; [|by destruct (HR _ _ Hx)]. exists (n + k)%nat. split; [lia|].
    rewrite run_loop_add. unfold bind. by rewrite E.
Qed.

Lemma takes_after1 st (P : State -> Prop) R k : runs1 st P R -> (forall r st', ~ R r st') ->
  (forall st', P st' -> takes k st') -> takes (S k) st.
Proof.
  intros Hr HR Hk. unfold runs1 in Hr. destruct (step top st) as [[] st'|r st'|] eqn:E; [| |done].
  - destruct (takes_after st' P R k Hr HR Hk) as (n & Hn & Hx). exists (S n). split; [lia|].
    cbn. unfold bind. by rewrite E.
  - destruct Hr as [Hx|Hx]; [|by destruct (HR _ _ Hx)]. exists (S k). split; [done|]. cbn. unfold bind. by rewrite E.
Qed.
End runs.

(** ** States *)

(** What no instruction changes is that of [e0]. *)
Record env_rel (e0 : Env) (σ : Store) (e : Env) : Prop := {
  er_sigs : sigs e = sigs e0;
  er_funcs : funcs e = funcs e0;
  er_tables : tables e = tables e0;
  er_istream : istream e = istream e0;
  er_memories : memories e = s_memories σ;
  er_ok : Forall mem_ok (s_memories σ);
  er_globals : Forall2 (fun g v => holds (tv_value (gl_typed_value g)) v) (globals e) (s_globals σ)
}.

(** The value stack is [low] and above it the values [fr], given top first; the
    call stack is [cs]; the next instruction is at [pc]. *)
Record machine (e0 : Env) (σ : Store) (low : list Z) (fr : list Val) (cs : list Z) (pc : Z) (st : State) : Prop := {
  ms_pc : st_pc st = pc;
  ms_wf : stack_wf st;
  ms_stack : exists slots, stack_of st = low ++ slots /\ Forall2 holds slots (rev fr);
  ms_small : Z.of_nat (length (st_vs st)) < 2 ^ 32 - 1;
  ms_calls : 0 <= call_stack_top (st_thread st) <= Z.of_nat (length (call_stack (st_thread st))) /\
             take (Z.to_nat (call_stack_top (st_thread st))) (call_stack (st_thread st)) = cs;
  ms_env : env_rel e0 σ (st_env st)
}.

Section machine.
Context (e0 : Env).
Abbreviation machine := (machine e0).

Lemma machine_pc σ low fr cs pc st pc' : machine σ low fr cs pc st ->
  machine σ low fr cs pc' (move st (st_top st) pc').
Proof. intros [H1 H2 H3 H4 H5 H6]. by constructor. Qed.

Lemma machine_same σ low fr fr' cs pc st slots st' pc' : machine σ low fr cs pc st -> same_rest st st' ->
  stack_wf st' -> stack_of st' = low ++ slots -> Forall2 holds slots (rev fr') -> st_pc st' = pc' ->
  machine σ low fr' cs pc' st'.
Proof.
  intros [H1 H2 H3 H4 H5 H6] (Ee & Ec & Et & El) Hw Hs Hf Hp. constructor; [done|done|by exists slots| | |].
  - by rewrite El.
  - by rewrite Ec, Et.
  - by rewrite Ee.
Qed.

Lemma machine_top σ low fr cs pc st : machine σ low fr cs pc st ->
  st_top st = Z.of_nat (length low + length fr).
Proof.
  intros [_ Hw (slots & Hs & Hf%Forall2_length) _ _ _]. rewrite length_rev in Hf.
  rewrite <- (stack_of_length st Hw), Hs, length_app. lia.
Qed.

Lemma machine_small σ low fr cs pc st : machine σ low fr cs pc st ->
  Z.of_nat (length low + length fr) < 2 ^ 32 - 1.
Proof.
  intros H. rewrite <- (machine_top _ _ _ _ _ _ H). destruct H as [_ Hw _ Hsm _ _]. unfold stack_wf in Hw. lia.
Qed.

(** The slots of the values on top, deepest first. *)
Lemma machine_split σ low args fr cs pc st : machine σ low (args ++ fr) cs pc st ->
  exists base slots, stack_of st = low ++ base ++ slots /\ Forall2 holds base (rev fr) /\
    Forall2 holds slots (rev args).
Proof.
  intros [_ _ (slots & Hs & Hf) _ _ _]. rewrite rev_app_distr in Hf.
  apply Forall2_app_inv_r in Hf as (base & slots' & Hb & Ha & ->). eauto.
Qed.

Lemma machine_drop σ low args fr cs pc st pc' : machine σ low (args ++ fr) cs pc st ->
  machine σ low fr cs pc' (move st (st_top st - Z.of_nat (length args)) pc').
Proof.
  intros H. destruct (machine_split _ _ _ _ _ _ _ H) as (base & slots & Hs & Hb & Ha%Forall2_length).
  rewrite length_rev in Ha. rewrite app_assoc in Hs. pose proof (stack_of_length st (ms_wf _ _ _ _ _ _ _ H)) as Hl.
  rewrite Hs, length_app in Hl.
  destruct (stack_of_move st (st_top st - Z.of_nat (length args)) pc' _ _ (ms_wf _ _ _ _ _ _ _ H) Hs ltac:(lia))
    as [Hs' Hw'].
  by eapply machine_same.
Qed.

(** The operand on top. *)
Lemma machine_head σ low v fr cs pc st : machine σ low (v :: fr) cs pc st ->
  exists slot, holds slot v /\ zget (st_vs st) (st_top st - 1) = Some slot.
Proof.
  intros H. pose proof (machine_split σ low [v] fr cs pc st H) as (base & slots & Hs & Hb & Hv).
  cbn [rev app] in Hv. apply Forall2_cons_inv_r in Hv as (slot & ? & Hv & ->%Forall2_nil_inv_r & ->).
  exists slot. split; [done|]. rewrite app_assoc in Hs.
  destruct (stack_of_zget st _ slot [] (ms_wf _ _ _ _ _ _ _ H) Hs) as [Hz Ht]. cbn [length] in Ht.
  by replace (st_top st - 1) with (Z.of_nat (length (low ++ base))) by lia.
Qed.

Lemma machine_pair σ low b a fr cs pc st : machine σ low (b :: a :: fr) cs pc st ->
  exists sa sb, holds sa a /\ holds sb b /\ zslice (st_vs st) (st_top st - 2) 2 = Some [sa; sb].
Proof.
  intros H. pose proof (machine_split σ low [b; a] fr cs pc st H) as (base & slots & Hs & Hb & Hv).
  cbn [rev app] in Hv. apply Forall2_cons_inv_r in Hv as (sa & ? & Ha & Hv & ->).
  apply Forall2_cons_inv_r in Hv as (sb & ? & Hsb & ->%Forall2_nil_inv_r & ->).
  exists sa, sb. split_and!; [done..|]. pose proof (ms_wf _ _ _ _ _ _ _ H) as Hw.
  pose proof (stack_of_length st Hw) as Hl. rewrite app_assoc in Hs. unfold stack_wf in Hw.
  rewrite Hs, length_app in Hl. cbn [length] in Hl. rewrite zslice_Some by lia. f_equal.
  unfold stack_of in Hs. replace (Z.to_nat (st_top st)) with (length (low ++ base) + 2)%nat in Hs by lia.
  replace (Z.to_nat (st_top st - 2)) with (length (low ++ base)) by lia.
  apply (f_equal (drop (length (low ++ base)))) in Hs. rewrite drop_app_length in Hs.
  rewrite skipn_firstn_comm in Hs. rewrite <- Hs. f_equal. lia.
Qed.

(** One result in the place of the operands. *)
Lemma machine_result σ low args fr cs pc st s v len : machine σ low (args ++ fr) cs pc st ->
  (0 < length args)%nat -> holds s v ->
  machine σ low (v :: fr) cs (pc + len) (result_state st (Z.of_nat (length args)) s len).
Proof.
  intros H Hn Hv. pose proof (ms_wf _ _ _ _ _ _ _ H) as Hw. pose proof (stack_of_length st Hw) as Hl.
  destruct (machine_split _ _ _ _ _ _ _ H) as (base & slots & Hs & Hb & Ha%Forall2_length).
  rewrite length_rev in Ha. rewrite app_assoc in Hs. rewrite Hs, length_app in Hl. unfold stack_wf in Hw.
  destruct (stack_of_put st _ _ s (st_pc st + len) Hw Hs ltac:(lia)) as (Hs' & Hw' & Hr).
  replace (Z.of_nat (length (low ++ base))) with (st_top st - Z.of_nat (length args)) in * by lia.
  fold (result_state st (Z.of_nat (length args)) s len) in *. rewrite <- app_assoc in Hs'.
  eapply machine_same; [exact H|exact Hr|exact Hw'|exact Hs'| |].
  - cbn [rev]. apply Forall2_app; [done|]. by repeat constructor.
  - cbn. by rewrite (ms_pc _ _ _ _ _ _ _ H).
Qed.

(** A push; the slot above the stack. *)
Lemma machine_push σ low fr cs pc st s v pc' : machine σ low fr cs pc st -> holds s v ->
  st_top st < Z.of_nat (length (st_vs st)) ->
  machine σ low (v :: fr) cs pc' (move (put st (st_top st) s) (st_top st + 1) pc').
Proof.
  intros H Hv Hlt. pose proof (ms_wf _ _ _ _ _ _ _ H) as Hw. pose proof (stack_of_length st Hw) as Hl.
  destruct (ms_stack _ _ _ _ _ _ _ H) as (slots & Hs & Hf). rewrite Hs in Hl.
  destruct (stack_of_put st (low ++ slots) [] s pc' Hw ltac:(by rewrite app_nil_r) ltac:(lia)) as (Hs' & Hw' & Hr).
  rewrite Hl in Hs', Hw', Hr. rewrite <- app_assoc in Hs'.
  eapply machine_same; [exact H|exact Hr|exact Hw'|exact Hs'| |done].
  cbn [rev]. apply Forall2_app; [done|]. by repeat constructor.
Qed.
End machine.

(** ** Numeric instructions *)

Section numeric.
Context `{NanBits} `{MemAllocator}.

(** As [computes], for operators whose C code may be undefined. *)
Definition performs (m : M unit) (o : IntOp) : Prop :=
  forall st slots, zslice (st_vs st) (st_top st - int_op_arity o) (int_op_arity o) = Some slots ->
  match int_op_apply o slots with
  | Value v => exists s, get_field (int_op_result o) s = v /\
                 m st = Done tt (result_state st (int_op_arity o) s 0)
  | Traps r => m st = Exit r (move st (st_top st - int_op_arity o) (st_pc st))
  | Undefined => True
  end.

Lemma computes_performs m o : computes m o -> performs m o.
Proof. intros Hc st slots Hs. specialize (Hc st slots Hs). by destruct (int_op_apply o slots). Qed.

Lemma performs_bin rt t (k : Z -> Z -> Z) (m : M unit) :
  (forall st, m st = (rhs <- POP_TYPE t;; lhs <- POP_TYPE t;; PUSH_TYPE rt (k lhs rhs)) st) ->
  performs m (IBin rt t (fun a b => value_of rt (k a b))).
Proof. intros Em. apply computes_performs. by apply (computes_bin rt t (fun a b => Value (k a b))). Qed.

Lemma performs_un rt t (f : Z -> Z) : performs (UNOP rt t f) (IUn rt t (fun a => value_of rt (f a))).
Proof.
  intros st slots (a & -> & Ha)%zslice_1. cbn [int_op_apply int_op_arity int_op_result].
  exists (set_field rt a (f (get_field t a))). split; [apply get_set_field|].
  unfold UNOP. rewrite (bind_Done _ _ _ _ _ (run_POP_TYPE t _ _ Ha)). by apply run_push_result.
Qed.

Lemma performs_trap rt t (f : Z -> OpResult) :
  performs (UNOP_TRAP rt t f) (IUn rt t (fun a => wrap_result rt (f a))).
Proof.
  intros st slots (a & -> & Ha)%zslice_1. cbn [int_op_apply int_op_arity int_op_result].
  unfold UNOP_TRAP. rewrite (bind_Done _ _ _ _ _ (run_POP_TYPE t _ _ Ha)).
  destruct (f (get_field t a)) as [v|r|]; cbn [wrap_result value_of PUSH_RESULT]; [|done..].
  exists (set_field rt a v). split; [apply get_set_field|]. by apply run_push_result.
Qed.

Lemma performs_update t (f : Z -> Z) : performs (UPDATE_TOP t f) (IUn t t (fun a => value_of t (f a))).
Proof.
  intros st slots (a & -> & Ha)%zslice_1. cbn [int_op_apply int_op_arity int_op_result].
  exists (set_field t a (f (get_field t a))). split; [apply get_set_field|].
  cbn [int_op_arity] in Ha. unfold UPDATE_TOP, TOP, PICK. pose proof (zget_lt _ _ _ Ha) as Hlt.
  erewrite bind_Done.
  2: { unfold bind at 1, get_thread, bind, get, ret. by apply (some_or_undef_Some _ a). }
  rewrite run_SET_PICK by lia. unfold result_state, move, put. cbn. unfold with_value_stack, st_top. cbn.
  f_equal. f_equal; [|lia]. f_equal; lia.
Qed.

Lemma dispatch_num_op top op o : num_op op = Some o -> performs (dispatch top (WasmOp op)) o.
Proof.
  unfold num_op. destruct (spec_int_op op) as [o'|] eqn:E.
  { intros [= ->]. by apply computes_performs, dispatch_int_op. }
  clear E. destruct op; cbn [float_op]; intros [= <-];
    cbv [dispatch switch step_control step_load step_store step_memory step_i32 step_i64
         step_f32 step_f64 step_convert step_reinterpret app];
    first [ apply performs_un | apply performs_trap | apply performs_update
          | by apply performs_bin ].
Qed.
End numeric.

(** ** Code *)

Section instructions.
Context `{NanBits} `{MemAllocator} (top : Z) (e0 : Env) (Hbytes : bytes_ok (istream e0))
  (Hsize : Z.of_nat (length (istream e0)) < 2 ^ 32).
Abbreviation machine := (machine e0).
Abbreviation runs := (runs top).
Abbreviation runs1 := (runs1 top).

Definition code_at (pos : Z) (bs : list Z) : Prop :=
  0 <= pos /\ pos + Z.of_nat (length bs) <= Z.of_nat (length (istream e0)) /\
  exists rest, drop (Z.to_nat pos) (istream e0) = bs ++ rest.

Lemma code_at_app pos a b : code_at pos (a ++ b) -> code_at pos a /\ code_at (pos + Z.of_nat (length a)) b.
Proof.
  intros (Hp & Hl & rest & E). rewrite length_app in Hl. split; (split; [lia|]); (split; [lia|]).
  - exists (b ++ rest). by rewrite E, <- app_assoc.
  - exists rest. replace (Z.to_nat (pos + Z.of_nat (length a))) with (Z.to_nat pos + length a)%nat by lia.
    rewrite <- drop_drop, E, <- app_assoc. apply drop_app_length.
Qed.

Lemma code_at_cons pos x bs : code_at pos (x :: bs) -> code_at pos [x] /\ code_at (pos + 1) bs.
Proof. intros Hc. by apply (code_at_app pos [x] bs) in Hc. Qed.

Lemma code_at_byte pos x : code_at pos [x] -> zget (istream e0) pos = Some x.
Proof.
  intros (Hp & _ & rest & E). apply zget_Some. split; [done|].
  rewrite <- (Nat.add_0_r (Z.to_nat pos)), <- lookup_drop, E. done.
Qed.

Lemma code_at_slice pos bs : code_at pos bs -> zslice (istream e0) pos (Z.of_nat (length bs)) = Some bs.
Proof. intros (Hp & Hl & rest & E). rewrite zslice_Some by lia. by rewrite E, Nat2Z.id, take_app_length. Qed.

Lemma code_at_le pos n v : code_at pos (le_bytes n v) ->
  zslice (istream e0) pos (Z.of_nat n) = Some (le_bytes n v).
Proof.
  intros Hc. pose proof (code_at_slice _ _ Hc) as Hs. by rewrite length_le_bytes in Hs.
Qed.

Context (σ : Store) (low : list Z) (fr : list Val) (cs : list Z) (pc : Z) (st : State).
Context (Hst : machine σ low fr cs pc st).

Lemma machine_istream : istream (st_env st) = istream e0.
Proof. apply (er_istream _ _ _ (ms_env _ _ _ _ _ _ _ Hst)). Qed.

Lemma machine_fetches op : code_at pc [interp_opcode_code op] -> fetches st op.
Proof. intros Hc. unfold fetches. rewrite machine_istream, (ms_pc _ _ _ _ _ _ _ Hst). by apply code_at_byte. Qed.

Lemma machine_u32_wrap pos v : code_at pos (le_bytes 4 v) -> read_u32_at (st_env st) pos = Some (wrap 32 v).
Proof.
  intros Hc. apply code_at_le in Hc. unfold read_u32_at. rewrite machine_istream.
  change 4 with (Z.of_nat 4). rewrite Hc. cbn [fmap option_fmap option_map]. by rewrite of_le_bytes.
Qed.

Lemma machine_u32 pos v : code_at pos (le_bytes 4 v) -> in_u 32 v -> read_u32_at (st_env st) pos = Some v.
Proof. intros Hc Hv. rewrite (machine_u32_wrap pos v Hc). by rewrite wrap_id. Qed.

Lemma machine_u64 pos v : code_at pos (le_bytes 8 v) -> read_u64_at (st_env st) pos = Some (wrap 64 v).
Proof.
  intros Hc. apply code_at_le in Hc. unfold read_u64_at. rewrite machine_istream.
  change 8 with (Z.of_nat 8). rewrite Hc. cbn [fmap option_fmap option_map]. by rewrite of_le_bytes.
Qed.

(** An instruction with its opcode and a 32-bit operand. *)
Lemma code_at_op op bs : code_at pc (interp_opcode_code op :: bs) -> fetches st op /\ code_at (pc + 1) bs.
Proof. intros [H1 H2]%code_at_cons. split; [by apply machine_fetches|done]. Qed.

(** *** Operators *)

Lemma run_num op o vs rest (ls : list Val) : fr = vs ++ rest ->
  code_at pc [interp_opcode_code (WasmOp op)] -> num_op op = Some o -> answered (exec_num o σ ls vs) ->
  runs st (fun st' => exists v vs', exec_num o σ ls vs = Normal σ ls (v :: vs') /\
             (length vs' + Z.to_nat (int_op_arity o) = length vs)%nat /\
             machine σ low (v :: vs' ++ rest) cs (pc + 1) st')
    (fun r st' => exec_num o σ ls vs = Trapped r σ /\ env_rel e0 σ (st_env st')).
Proof.
  intros Hfr Hc Ho Hns. pose proof (machine_fetches _ Hc) as Hf. pose proof Hst as Hm. rewrite Hfr in Hm. apply runs_single. rewrite (run_step top st _ Hf).
  pose proof (dispatch_num_op top op o Ho (move st (st_top st) (st_pc st + 1))) as Hd.
  pose proof (machine_pc _ _ _ _ _ _ _ (pc + 1) Hm) as Hst1.
  assert (st_pc st = pc) as Epc by apply (ms_pc _ _ _ _ _ _ _ Hst). rewrite Epc in Hd |- *.
  set (st1 := move st (st_top st) (pc + 1)) in *.
  destruct o as [rt t f|rt t f]; cbn [int_op_arity int_op_apply int_op_result exec_num] in *.
  - destruct vs as [|[t' a] vs]; [done|]. cbn [pop_val val_type val_bits] in *.
    destruct (decide (t' = t)) as [->|]; [|done].
    destruct (machine_head _ _ _ _ _ _ _ _ Hst1) as (slot & Ha & Hz). cbn [holds val_type val_bits] in Ha.
    assert (zslice (st_vs st1) (st_top st1 - 1) 1 = Some [slot]) as Hs.
    { pose proof (zget_lt _ _ _ Hz). apply zget_Some in Hz as [? Hz]. rewrite zslice_Some by lia. f_equal.
      rewrite (drop_S _ _ _ Hz). done. }
    specialize (Hd _ Hs). cbn beta iota in Hd. unfold holds in Ha. cbn [val_type val_bits] in Ha. rewrite Ha in Hd.
    destruct (f a) as [v|r|]; [| |done].
    + destruct Hd as (s & Hv & ->). exists (mkVal rt v), vs. split_and!; [done|cbn; lia|].
      pose proof (machine_result e0 σ low [mkVal t a] (vs ++ rest) cs (pc + 1) st1 s (mkVal rt v) 0 Hst1
        ltac:(cbn; lia) Hv) as Hr. by rewrite Z.add_0_r in Hr.
    + rewrite Hd. right. split; [done|]. apply (ms_env _ _ _ _ _ _ _ Hst1).
  - destruct vs as [|[tb b] [|[ta a] vs]]; cbn [pop_val val_type val_bits] in *; [done| |].
    { by destruct (decide (tb = t)). }
    destruct (decide (tb = t)) as [->|]; [|done]. cbn [pop_val val_type val_bits] in *.
    destruct (decide (ta = t)) as [->|]; [|done].
    destruct (machine_pair _ _ _ _ _ _ _ _ _ Hst1) as (sa & sb & Ha & Hb & Hs).
    specialize (Hd _ Hs). cbn beta iota in Hd. unfold holds in Ha, Hb. cbn [val_type val_bits] in Ha, Hb.
    rewrite Ha, Hb in Hd. destruct (f a b) as [v|r|]; [| |done].
    + destruct Hd as (s & Hv & ->). exists (mkVal rt v), vs. split_and!; [done|cbn; lia|].
      pose proof (machine_result e0 σ low [mkVal t b; mkVal t a] (vs ++ rest) cs (pc + 1) st1 s (mkVal rt v) 0 Hst1
        ltac:(cbn; lia) Hv) as Hr. by rewrite Z.add_0_r in Hr.
    + rewrite Hd. right. split; [done|]. apply (ms_env _ _ _ _ _ _ _ Hst1).
Qed.

(** *** Pushing *)

Lemma push_type_cases t v σ' fr' pc' st' : machine σ' low fr' cs pc' st' ->
  match PUSH_TYPE t v st' with
  | Done _ st'' => machine σ' low (mkVal t (wrap (VALUE_TYPE t) v) :: fr') cs pc' st''
  | Exit r _ => exhausted r = true
  | Undef => False
  end.
Proof.
  intros Hm. pose proof (ms_wf _ _ _ _ _ _ _ Hm) as Hw. unfold stack_wf in Hw.
  destruct (Z.lt_ge_cases (st_top st') (Z.of_nat (length (st_vs st')))) as [Hlt|Hge].
  - destruct (zget_is_Some (st_vs st') (st_top st') ltac:(lia)) as [old Ho].
    rewrite (run_PUSH_TYPE t st' v old Ho). rewrite (ms_pc _ _ _ _ _ _ _ Hm).
    apply (machine_push _ _ _ _ _ _ _ _ _ _ Hm (holds_field t old v) Hlt).
  - by rewrite run_PUSH_TYPE_full.
Qed.

Lemma push_cases v s σ' fr' pc' st' : machine σ' low fr' cs pc' st' -> holds s v ->
  match PUSH s st' with
  | Done _ st'' => machine σ' low (v :: fr') cs pc' st''
  | Exit r _ => exhausted r = true
  | Undef => False
  end.
Proof.
  intros Hm Hv. pose proof (ms_wf _ _ _ _ _ _ _ Hm) as Hw. unfold stack_wf in Hw.
  destruct (Z.lt_ge_cases (st_top st') (Z.of_nat (length (st_vs st')))) as [Hlt|Hge].
  - rewrite run_PUSH by lia. rewrite (ms_pc _ _ _ _ _ _ _ Hm). by apply machine_push with (1 := Hm).
  - unfold PUSH, CHECK_STACK, bind, get_thread, get, ret, bind, TRAP_IF.
    unfold st_vs, st_top in *. by rewrite (proj2 (Z.leb_le _ _)) by lia.
Qed.

Lemma check_stack_cases st' : match CHECK_STACK st' with
  | Done _ st'' => st'' = st'
  | Exit r _ => exhausted r = true
  | Undef => False
  end.
Proof.
  unfold CHECK_STACK, bind, get_thread, get, ret, bind, TRAP_IF.
  by destruct (Z.of_nat (length (value_stack (st_thread st'))) <=? value_stack_top (st_thread st')).
Qed.

Lemma run_read_u64 st' v : read_u64_at (st_env st') (st_pc st') = Some v ->
  read_u64 st' = Done v (move st' (st_top st') (st_pc st' + 8)).
Proof. intros E. unfold read_u64, bind, get. rewrite E. by destruct st' as [? [] ?]. Qed.

(** A step that is a push, after which [P] holds. *)
Lemma runs_pushing (m : M unit) st1 (P : State -> Prop) R :
  step top st = m st1 ->
  match m st1 with Done _ st' => P st' | Exit r _ => exhausted r = true | Undef => False end ->
  runs st P R.
Proof.
  intros E Hm. apply runs_single. rewrite E. destruct (m st1) as [[] ?|? ?|]; [done|by left|done].
Qed.

Lemma runs1_pushing (m : M unit) st1 (P : State -> Prop) R :
  step top st = m st1 ->
  match m st1 with Done _ st' => P st' | Exit r _ => exhausted r = true | Undef => False end ->
  runs1 st P R.
Proof.
  intros E Hm. unfold MachineRun.runs1. rewrite E. destruct (m st1) as [[] ?|? ?|]; [by apply runs_here|by left|done].
Qed.

Lemma run_const op t v : (op = WASM_OPCODE_I32_CONST /\ t = I32 \/ op = WASM_OPCODE_F32_CONST /\ t = F32) ->
  code_at pc (opcode_code op :: le_bytes 4 v) ->
  forall R, runs st (machine σ low (mkVal t (wrap (VALUE_TYPE t) v) :: fr) cs (pc + 5)) R.
Proof.
  intros Hop [Hf Hc]%(code_at_op (WasmOp op)) R.
  apply (runs_pushing (CHECK_STACK;; v <- read_u32;; PUSH_TYPE t v) (move st (st_top st) (pc + 1))).
  { rewrite (run_step top st _ Hf), (ms_pc _ _ _ _ _ _ _ Hst). by destruct Hop as [[-> ->] | [-> ->]]. }
  pose proof (machine_pc _ _ _ _ _ _ _ (pc + 1) Hst) as H1. set (st1 := move st (st_top st) (pc + 1)) in *.
  unfold bind. pose proof (check_stack_cases st1) as Hcs. destruct (CHECK_STACK st1) as [[] st2|? ?|]; [|done..].
  subst st2. rewrite (run_read_u32 st1 (wrap 32 v)) by (by apply (machine_u32_wrap _ v Hc)).
  pose proof (machine_pc _ _ _ _ _ _ _ (pc + 5) H1) as H2.
  pose proof (push_type_cases t (wrap 32 v) _ _ _ _ H2) as Hp.
  replace (st_pc st1 + 4) with (pc + 5) by (cbn; lia).
  replace (wrap (VALUE_TYPE t) v) with (wrap (VALUE_TYPE t) (wrap 32 v)); [done|].
  destruct Hop as [[_ ->] | [_ ->]]; cbn [VALUE_TYPE]; apply wrap_id, wrap_in_u; lia.
Qed.

Lemma run_const64 op t v : (op = WASM_OPCODE_I64_CONST /\ t = I64 \/ op = WASM_OPCODE_F64_CONST /\ t = F64) ->
  code_at pc (opcode_code op :: le_bytes 8 v) ->
  forall R, runs st (machine σ low (mkVal t (wrap (VALUE_TYPE t) v) :: fr) cs (pc + 9)) R.
Proof.
  intros Hop [Hf Hc]%(code_at_op (WasmOp op)) R.
  apply (runs_pushing (CHECK_STACK;; v <- read_u64;; PUSH_TYPE t v) (move st (st_top st) (pc + 1))).
  { rewrite (run_step top st _ Hf), (ms_pc _ _ _ _ _ _ _ Hst). by destruct Hop as [[-> ->] | [-> ->]]. }
  pose proof (machine_pc _ _ _ _ _ _ _ (pc + 1) Hst) as H1. set (st1 := move st (st_top st) (pc + 1)) in *.
  unfold bind. pose proof (check_stack_cases st1) as Hcs. destruct (CHECK_STACK st1) as [[] st2|? ?|]; [|done..].
  subst st2. rewrite (run_read_u64 st1 (wrap 64 v)) by (by apply (machine_u64 _ v Hc)).
  pose proof (machine_pc _ _ _ _ _ _ _ (pc + 9) H1) as H2.
  pose proof (push_type_cases t (wrap 64 v) _ _ _ _ H2) as Hp.
  replace (st_pc st1 + 8) with (pc + 9) by (cbn; lia).
  replace (wrap (VALUE_TYPE t) v) with (wrap (VALUE_TYPE t) (wrap 64 v)); [done|].
  destruct Hop as [[_ ->] | [_ ->]]; cbn [VALUE_TYPE]; apply wrap_id, wrap_in_u; lia.
Qed.

Lemma run_get_global i v : code_at pc (opcode_code WASM_OPCODE_GET_GLOBAL :: le_bytes 4 i) ->
  in_u 32 i -> zget (s_globals σ) i = Some v ->
  forall R, runs st (machine σ low (v :: fr) cs (pc + 5)) R.
Proof.
  intros [Hf Hc]%(code_at_op (WasmOp _)) Hi Hv R.
  pose proof (machine_pc _ _ _ _ _ _ _ (pc + 5) Hst) as H2. set (st2 := move st (st_top st) (pc + 5)) in *.
  assert (exists g, zget (globals (st_env st)) i = Some g /\ holds (tv_value (gl_typed_value g)) v) as (g & Hg & Hh).
  { apply zget_Some in Hv as [Hi0 Hv].
    destruct (Forall2_lookup_r _ _ _ _ _ (er_globals _ _ _ (ms_env _ _ _ _ _ _ _ Hst)) Hv) as (g & Hg & Hh).
    exists g. split; [by apply zget_Some|done]. }
  apply (runs_pushing (PUSH (tv_value (gl_typed_value g))) st2); [|by apply push_cases].
  rewrite (run_step top st _ Hf), (ms_pc _ _ _ _ _ _ _ Hst).
  change (dispatch top (WasmOp WASM_OPCODE_GET_GLOBAL)) with op_get_global. unfold op_get_global.
  erewrite bind_Done; [|apply (run_read_u32 _ i); by apply machine_u32].
  erewrite (bind_Done get_env) by done. erewrite (bind_Done (some_or_undef _)) by (by apply some_or_undef_Some).
  f_equal. unfold st2, move. cbn. f_equal. lia.
Qed.

Lemma run_get_local d v below : code_at pc (opcode_code WASM_OPCODE_GET_LOCAL :: le_bytes 4 (Z.of_nat (S d))) ->
  drop d fr = v :: below ->
  forall R, runs st (machine σ low (v :: fr) cs (pc + 5)) R.
Proof.
  intros [Hf Hc]%(code_at_op (WasmOp _)) Hv R.
  pose proof (machine_pc _ _ _ _ _ _ _ (pc + 5) Hst) as H2. set (st2 := move st (st_top st) (pc + 5)) in *.
  pose proof (machine_small _ _ _ _ _ _ _ Hst) as Hsm.
  assert (length fr = d + S (length below))%nat as Hlen.
  { apply (f_equal length) in Hv. rewrite length_drop in Hv. cbn [length] in Hv. lia. }
  assert (exists slot, holds slot v /\ zget (st_vs st) (st_top st - Z.of_nat (S d)) = Some slot) as (slot & Hh & Hz).
  { pose proof Hst as Hm. rewrite <- (take_drop d fr), Hv in Hm.
    pose proof (machine_drop _ _ _ _ _ _ _ _ pc Hm) as Hd. rewrite length_take in Hd.
    replace (d `min` length fr)%nat with d in Hd by lia.
    destruct (machine_head _ _ _ _ _ _ _ _ Hd) as (slot & Hh & Hz). exists slot. split; [done|].
    rewrite <- Hz. unfold st_vs, st_top. cbn. f_equal. lia. }
  apply (runs_pushing (PUSH slot) st2); [|by apply push_cases].
  rewrite (run_step top st _ Hf), (ms_pc _ _ _ _ _ _ _ Hst).
  change (dispatch top (WasmOp WASM_OPCODE_GET_LOCAL)) with op_get_local. unfold op_get_local.
  erewrite bind_Done; [|apply (run_read_u32 _ (Z.of_nat (S d))); apply machine_u32; [done|unfold in_u; lia]].
  erewrite (bind_Done (PICK _)).
  2: { unfold PICK, bind, get_thread, get, ret, bind. apply some_or_undef_Some.
       unfold st_vs, st_top in Hz. cbn. exact Hz. }
  f_equal. unfold st2, move. cbn. f_equal. lia.
Qed.

(** *** Locals *)

Lemma rev_lookup {A} (l : list A) i : (i < length l)%nat -> rev l !! i = l !! (length l - S i)%nat.
Proof. intros Hi. rewrite rev_alt. by apply reverse_lookup. Qed.

Lemma machine_put σ' fr' pc' st' d s v : machine σ' low fr' cs pc' st' -> (d < length fr')%nat -> holds s v ->
  machine σ' low (<[d := v]> fr') cs pc' (put st' (st_top st' - Z.of_nat (S d)) s).
Proof.
  intros Hm Hd Hv. pose proof (ms_wf _ _ _ _ _ _ _ Hm) as Hw. pose proof (machine_top _ _ _ _ _ _ _ Hm) as Ht.
  destruct (ms_stack _ _ _ _ _ _ _ Hm) as (slots & Hs & Hf).
  assert (length slots = length fr') as Hlen by (apply Forall2_length in Hf; by rewrite length_rev in Hf).
  eapply machine_same with (slots := <[(length fr' - S d)%nat := s]> slots); [exact Hm| | | | |].
  - unfold same_rest, put, st_vs. cbn. by rewrite length_insert.
  - unfold stack_wf, put, st_vs, st_top in *. cbn. by rewrite length_insert.
  - unfold stack_of, put, st_vs, st_top in *. cbn. rewrite Ht in *.
    rewrite take_insert_lt by lia. rewrite Hs, insert_app_r_alt by lia. f_equal. f_equal. lia.
  - apply Forall2_lookup. intros i. apply Forall2_lookup with (i := i) in Hf as Hi.
    destruct (decide (i = length fr' - S d)%nat) as [->|Hne].
    + rewrite list_lookup_insert_eq by lia. rewrite rev_lookup by (rewrite length_insert; lia).
      rewrite length_insert. replace (length fr' - S (length fr' - S d))%nat with d by lia.
      rewrite list_lookup_insert_eq by lia. by constructor.
    + rewrite list_lookup_insert_ne by done. destruct (decide (i < length fr')%nat).
      * rewrite rev_lookup by (rewrite length_insert; lia). rewrite length_insert.
        rewrite list_lookup_insert_ne by lia. rewrite rev_lookup in Hi by lia. exact Hi.
      * rewrite !lookup_ge_None_2 by (rewrite ?length_rev, ?length_insert; lia). constructor.
  - apply (ms_pc _ _ _ _ _ _ _ Hm).
Qed.

Lemma run_set_local d v fr' : fr = v :: fr' -> (d < length fr')%nat ->
  code_at pc (opcode_code WASM_OPCODE_SET_LOCAL :: le_bytes 4 (Z.of_nat (S d))) ->
  forall R, runs st (machine σ low (<[d := v]> fr') cs (pc + 5)) R.
Proof.
  intros Hfr Hd [Hf Hc]%(code_at_op (WasmOp _)) R. pose proof Hst as Hm. rewrite Hfr in Hm.
  pose proof (machine_small _ _ _ _ _ _ _ Hm) as Hsm. cbn [length] in Hsm.
  destruct (machine_head _ _ _ _ _ _ _ _ Hm) as (slot & Hh & Hz).
  pose proof (machine_drop _ _ _ [v] _ _ _ _ (pc + 5) Hm) as H2. cbn [length] in H2.
  change (Z.of_nat 1) with 1 in H2. set (st2 := move st (st_top st - 1) (pc + 5)) in *.
  pose proof (machine_put _ _ _ _ _ _ _ H2 Hd Hh) as H3. pose proof (machine_top _ _ _ _ _ _ _ H2) as Ht2.
  pose proof (ms_wf _ _ _ _ _ _ _ H2) as Hw2. unfold stack_wf in Hw2.
  apply (runs_step _ _ (put st2 (st_top st2 - Z.of_nat (S d)) slot)); [|by apply runs_here].
  rewrite (run_step top st _ Hf), (ms_pc _ _ _ _ _ _ _ Hst).
  change (dispatch top (WasmOp WASM_OPCODE_SET_LOCAL)) with op_set_local. unfold op_set_local.
  erewrite bind_Done; [|by apply run_POP].
  erewrite bind_Done; [|apply (run_read_u32 _ (Z.of_nat (S d))); apply machine_u32; [exact Hc|unfold in_u; lia]].
  match goal with |- SET_PICK _ _ ?s = _ => replace s with st2 by (unfold st2, move; cbn; f_equal; lia) end.
  apply run_SET_PICK. lia.
Qed.

Lemma run_tee_local d v fr' : fr = v :: fr' -> (d < length fr')%nat ->
  code_at pc (opcode_code WASM_OPCODE_TEE_LOCAL :: le_bytes 4 (Z.of_nat (S (S d)))) ->
  forall R, runs st (machine σ low (v :: <[d := v]> fr') cs (pc + 5)) R.
Proof.
  intros Hfr Hd [Hf Hc]%(code_at_op (WasmOp _)) R. pose proof Hst as Hm. rewrite Hfr in Hm.
  pose proof (machine_small _ _ _ _ _ _ _ Hm) as Hsm. cbn [length] in Hsm.
  destruct (machine_head _ _ _ _ _ _ _ _ Hm) as (slot & Hh & Hz).
  pose proof (machine_pc _ _ _ _ _ _ _ (pc + 5) Hm) as H2. set (st2 := move st (st_top st) (pc + 5)) in *.
  pose proof (machine_put _ _ _ _ (S d) _ _ H2 ltac:(cbn; lia) Hh) as H3. pose proof (machine_top _ _ _ _ _ _ _ H2) as Ht2.
  pose proof (ms_wf _ _ _ _ _ _ _ H2) as Hw2. unfold stack_wf in Hw2. cbn [length] in Ht2.
  apply (runs_step _ _ (put st2 (st_top st2 - Z.of_nat (S (S d))) slot)); [|by apply runs_here].
  rewrite (run_step top st _ Hf), (ms_pc _ _ _ _ _ _ _ Hst).
  change (dispatch top (WasmOp WASM_OPCODE_TEE_LOCAL)) with op_tee_local. unfold op_tee_local.
  erewrite bind_Done; [|apply (run_read_u32 _ (Z.of_nat (S (S d)))); apply machine_u32; [exact Hc|unfold in_u; lia]].
  erewrite (bind_Done TOP).
  2: { unfold TOP, PICK, bind, get_thread, get, ret, bind. apply some_or_undef_Some.
       unfold st_vs, st_top in Hz. cbn. exact Hz. }
  match goal with |- SET_PICK _ _ ?s = _ => replace s with st2 by (unfold st2, move; cbn; f_equal; lia) end.
  apply run_SET_PICK. lia.
Qed.

Lemma env_rel_globals i v slot g gs : zget (globals (st_env st)) i = Some g -> holds slot v ->
  zset (globals (st_env st)) i (mkGlobal (mkTypedValue (tv_type (gl_typed_value g)) slot)
    (gl_mutable g) (gl_import_index g)) = Some gs ->
  env_rel e0 (set_global_at i v σ) (with_globals (st_env st) gs).
Proof.
  intros Hg Hh [Hi ->]%zset_inv. destruct (ms_env _ _ _ _ _ _ _ Hst) as [E1 E2 E3 E4 E5 E6 E7].
  constructor; try done. cbn [globals with_globals s_globals set_global_at].
  by apply Forall2_insert.
Qed.

(** The same machine in another environment. *)
Lemma machine_env σ' fr' pc' st' e' : machine σ low fr' cs pc' st' -> env_rel e0 σ' e' ->
  machine σ' low fr' cs pc' (mkState e' (st_thread st') (st_pc st')).
Proof. intros [H1 H2 H3 H4 H5 H6] He. by constructor. Qed.

Lemma run_set_global i v fr' : fr = v :: fr' ->
  code_at pc (opcode_code WASM_OPCODE_SET_GLOBAL :: le_bytes 4 i) -> in_u 32 i ->
  0 <= i < Z.of_nat (length (s_globals σ)) ->
  forall R, runs st (machine (set_global_at i v σ) low fr' cs (pc + 5)) R.
Proof.
  intros Hfr [Hf Hc]%(code_at_op (WasmOp _)) Hi Hlt R. pose proof Hst as Hm. rewrite Hfr in Hm.
  destruct (machine_head _ _ _ _ _ _ _ _ Hm) as (slot & Hh & Hz).
  pose proof (machine_drop _ _ _ [v] _ _ _ _ (pc + 5) Hm) as H2. cbn [length] in H2.
  change (Z.of_nat 1) with 1 in H2. set (st2 := move st (st_top st - 1) (pc + 5)) in *.
  pose proof (Forall2_length _ _ _ (er_globals _ _ _ (ms_env _ _ _ _ _ _ _ Hst))) as Hlen.
  destruct (zget_is_Some (globals (st_env st)) i ltac:(lia)) as [g Hg].
  set (g' := mkGlobal (mkTypedValue (tv_type (gl_typed_value g)) slot) (gl_mutable g) (gl_import_index g)).
  pose proof (zset_Some (globals (st_env st)) i g' ltac:(lia)) as Hset.
  pose proof (env_rel_globals i v slot g _ Hg Hh Hset) as He.
  apply (runs_step _ _ (mkState (with_globals (st_env st) (<[Z.to_nat i:=g']> (globals (st_env st)))) (st_thread st2) (st_pc st2)));
    [|by apply runs_here, machine_env].
  rewrite (run_step top st _ Hf), (ms_pc _ _ _ _ _ _ _ Hst).
  change (dispatch top (WasmOp WASM_OPCODE_SET_GLOBAL)) with op_set_global. unfold op_set_global.
  erewrite bind_Done; [|apply (run_read_u32 _ i); by apply machine_u32].
  erewrite (bind_Done get_env) by done. erewrite (bind_Done (some_or_undef _)) by (by apply some_or_undef_Some).
  erewrite (bind_Done POP); [|by apply run_POP].
  erewrite (bind_Done (some_or_undef _)) by (by apply some_or_undef_Some).
  unfold set_env, st2, move. cbn. do 2 f_equal. lia.
Qed.

(** *** Control *)

Lemma run_drop v fr' : fr = v :: fr' -> code_at pc [opcode_code WASM_OPCODE_DROP] ->
  forall R, runs st (machine σ low fr' cs (pc + 1)) R.
Proof.
  intros Hfr Hf%(machine_fetches (WasmOp _)) R. pose proof Hst as Hm. rewrite Hfr in Hm.
  destruct (machine_head _ _ _ _ _ _ _ _ Hm) as (slot & Hh & Hz).
  pose proof (machine_drop _ _ _ [v] _ _ _ _ (pc + 1) Hm) as H2. cbn [length] in H2.
  eapply runs_step; [|by apply runs_here, H2].
  rewrite (run_step top st _ Hf), (ms_pc _ _ _ _ _ _ _ Hst).
  change (dispatch top (WasmOp WASM_OPCODE_DROP)) with (v <- POP;; ret tt).
  by rewrite (bind_Done _ _ _ _ _ (run_POP (move st (st_top st) (pc + 1)) slot Hz)).
Qed.

Lemma run_select c a b fr' : fr = mkVal I32 c :: b :: a :: fr' -> code_at pc [opcode_code WASM_OPCODE_SELECT] ->
  forall R, runs st (machine σ low ((if c =? 0 then b else a) :: fr') cs (pc + 1)) R.
Proof.
  intros Hfr Hf%(machine_fetches (WasmOp _)) R. pose proof Hst as Hm. rewrite Hfr in Hm.
  pose proof (machine_pc _ _ _ _ _ _ _ (pc + 1) Hm) as H1. set (st1 := move st (st_top st) (pc + 1)) in *.
  destruct (machine_head _ _ _ _ _ _ _ _ H1) as (sc & Hc & Hz1).
  pose proof (machine_drop _ _ _ [mkVal I32 c] _ _ _ _ (pc + 1) H1) as H2. cbn [length] in H2.
  set (st2 := move st1 _ _) in *. destruct (machine_head _ _ _ _ _ _ _ _ H2) as (sb & Hb & Hz2).
  pose proof (machine_drop _ _ _ [b] _ _ _ _ (pc + 1) H2) as H3. cbn [length] in H3.
  set (st3 := move st2 _ _) in *. destruct (machine_head _ _ _ _ _ _ _ _ H3) as (sa & Ha & Hz3).
  pose proof (machine_drop _ _ _ [a] _ _ _ _ (pc + 1) H3) as H4. cbn [length] in H4.
  set (st4 := move st3 _ _) in *.
  apply (runs_pushing (PUSH (if negb (c =? 0) then sa else sb)) st4).
  2: { apply push_cases with (1 := H4). by destruct (c =? 0). }
  rewrite (run_step top st _ Hf), (ms_pc _ _ _ _ _ _ _ Hst). fold st1.
  change (dispatch top (WasmOp WASM_OPCODE_SELECT)) with op_select. unfold op_select.
  rewrite (bind_Done _ _ _ _ _ (run_POP_TYPE I32 _ _ Hz1)). fold st2.
  unfold holds in Hc. cbn [val_type val_bits] in Hc. rewrite Hc.
  rewrite (bind_Done _ _ _ _ _ (run_POP _ _ Hz2)). fold st3.
  by rewrite (bind_Done _ _ _ _ _ (run_POP _ _ Hz3)).
Qed.

Lemma run_goto target : code_at pc (opcode_code WASM_OPCODE_BR :: le_bytes 4 target) -> in_u 32 target ->
  forall R, runs1 st (machine σ low fr cs target) R.
Proof.
  intros [Hf Hc]%(code_at_op (WasmOp _)) Hi R.
  eapply runs1_step; [|apply runs_here, (machine_pc _ _ _ _ _ _ _ target Hst)].
  rewrite (run_step top st _ Hf), (ms_pc _ _ _ _ _ _ _ Hst).
  change (dispatch top (WasmOp WASM_OPCODE_BR)) with op_br. unfold op_br.
  by erewrite bind_Done by (apply (run_read_u32 _ target); by apply machine_u32).
Qed.

Lemma run_br_unless c fr' target : fr = mkVal I32 c :: fr' ->
  code_at pc (interp_opcode_code WASM_OPCODE_BR_UNLESS :: le_bytes 4 target) -> in_u 32 target ->
  forall R, runs st (machine σ low fr' cs (if c =? 0 then target else pc + 5)) R.
Proof.
  intros Hfr [Hf Hc]%code_at_op Hi R. pose proof Hst as Hm. rewrite Hfr in Hm.
  destruct (machine_head _ _ _ _ _ _ _ _ Hm) as (slot & Hh & Hz).
  pose proof (machine_drop _ _ _ [mkVal I32 c] _ _ _ _ (if c =? 0 then target else pc + 5) Hm) as H2. cbn [length] in H2.
  eapply runs_step; [|by apply runs_here, H2].
  rewrite (run_step top st _ Hf), (ms_pc _ _ _ _ _ _ _ Hst).
  change (dispatch top WASM_OPCODE_BR_UNLESS) with op_br_unless. unfold op_br_unless.
  erewrite bind_Done by (apply (run_read_u32 _ target); by apply machine_u32).
  erewrite bind_Done by (by apply (run_POP_TYPE I32 _ slot)).
  unfold holds in Hh. cbn [val_type val_bits] in Hh. rewrite Hh.
  destruct (c =? 0); [done|]. unfold ret, move. cbn. do 2 f_equal. lia.
Qed.

(** [dropped] goes from below [kept]. *)
Lemma machine_drop_keep σ' kept dropped rest pc' st' : machine σ' low (kept ++ dropped ++ rest) cs pc' st' ->
  (length kept <= 1)%nat ->
  exists st'', DROP_KEEP (Z.of_nat (length dropped)) (Z.of_nat (length kept)) st' = Done tt st'' /\
    machine σ' low (kept ++ rest) cs pc' st''.
Proof.
  intros Hm Hk. pose proof (machine_small _ _ _ _ _ _ _ Hm) as Hsm. rewrite !length_app in Hsm.
  destruct (machine_split _ _ _ _ _ _ _ _ Hm) as (b1 & sk & Hs & Hb & Hks).
  rewrite rev_app_distr in Hb. apply Forall2_app_inv_r in Hb as (sr & sd & Hr & Hd & ->).
  apply Forall2_length in Hks as Lk. apply Forall2_length in Hd as Ld. rewrite length_rev in Lk, Ld.
  assert (stack_of st' = (low ++ sr) ++ sd ++ sk) as Hs' by (by rewrite Hs, <- !app_assoc).
  destruct (run_DROP_KEEP st' (low ++ sr) sd sk (ms_wf _ _ _ _ _ _ _ Hm) Hs' ltac:(lia) ltac:(lia))
    as (st'' & E & Hs2 & Hw2 & Hr2 & Hp2).
  exists st''. rewrite Ld, Lk in E. split; [done|]. rewrite <- app_assoc in Hs2.
  eapply machine_same; [exact Hm|exact Hr2|exact Hw2|exact Hs2| |].
  - rewrite rev_app_distr. by apply Forall2_app.
  - rewrite Hp2. apply (ms_pc _ _ _ _ _ _ _ Hm).
Qed.

Lemma step_drop_keep kept dropped rest : fr = kept ++ dropped ++ rest -> (length kept <= 1)%nat ->
  code_at pc (interp_opcode_code WASM_OPCODE_DROP_KEEP ::
              le_bytes 4 (Z.of_nat (length dropped)) ++ [Z.of_nat (length kept)]) ->
  forall R, runs st (machine σ low (kept ++ rest) cs (pc + 6)) R.
Proof.
  intros Hfr Hk [Hf Hc]%code_at_op R. apply code_at_app in Hc as [Hc1 Hc2]. rewrite length_le_bytes in Hc2.
  pose proof Hst as Hm. rewrite Hfr in Hm. pose proof (machine_small _ _ _ _ _ _ _ Hm) as Hsm. rewrite !length_app in Hsm.
  pose proof (machine_pc _ _ _ _ _ _ _ (pc + 6) Hm) as H2. set (st2 := move st (st_top st) (pc + 6)) in *.
  destruct (machine_drop_keep _ _ _ _ _ _ H2 Hk) as (st3 & E & H3).
  eapply runs_step; [|by apply runs_here, H3].
  rewrite (run_step top st _ Hf), (ms_pc _ _ _ _ _ _ _ Hst).
  change (dispatch top WASM_OPCODE_DROP_KEEP) with op_drop_keep. unfold op_drop_keep.
  erewrite bind_Done.
  2: { apply (run_read_u32 _ (Z.of_nat (length dropped))). apply machine_u32; [exact Hc1|unfold in_u; lia]. }
  erewrite bind_Done.
  2: { apply (run_read_u8 _ (Z.of_nat (length kept))). unfold read_u8_at. cbn. rewrite machine_istream.
       apply code_at_byte. exact Hc2. }
  rewrite <- E. f_equal. unfold st2, move. cbn. f_equal. lia.
Qed.

Lemma run_br_table key num table_offset target kept dropped rest : fr = mkVal I32 key :: kept ++ dropped ++ rest ->
  (length kept <= 1)%nat ->
  code_at pc (opcode_code WASM_OPCODE_BR_TABLE :: le_bytes 4 num ++ le_bytes 4 table_offset) ->
  in_u 32 num -> in_u 32 table_offset -> num * WASM_TABLE_ENTRY_SIZE < 2 ^ 32 ->
  code_at (table_offset + Z.min key num * WASM_TABLE_ENTRY_SIZE)
    (le_bytes 4 target ++ le_bytes 4 (Z.of_nat (length dropped)) ++ [Z.of_nat (length kept)]) ->
  in_u 32 target ->
  forall R, runs1 st (machine σ low (kept ++ rest) cs target) R.
Proof.
  intros Hfr Hk [Hf Hc]%(code_at_op (WasmOp _)) Hnum Hoff Hn Hent Ht R. apply code_at_app in Hc as [Hc1 Hc2].
  rewrite length_le_bytes in Hc2. apply code_at_app in Hent as [He1 [He2 He3]%code_at_app].
  rewrite !length_le_bytes in *. change (Z.of_nat 4) with 4 in *. unfold WASM_TABLE_ENTRY_SIZE in *.
  pose proof Hst as Hm. rewrite Hfr in Hm. pose proof (machine_small _ _ _ _ _ _ _ Hm) as Hsm.
  cbn [length] in Hsm. rewrite !length_app in Hsm.
  destruct (machine_head _ _ _ _ _ _ _ _ Hm) as (slot & Hh & Hz).
  pose proof (holds_bits _ _ Hh) as Hkey. cbn [val_type val_bits VALUE_TYPE] in Hkey. unfold in_u in *.
  pose proof (machine_drop _ _ _ [mkVal I32 key] _ _ _ _ target Hm) as H2. cbn [length] in H2.
  change (Z.of_nat 1) with 1 in H2. set (st2 := move st (st_top st - 1) target) in *.
  destruct (machine_drop_keep _ _ _ _ _ _ (machine_pc _ _ _ _ _ _ _ (pc + 9) H2) Hk) as (st3 & E & H3).
  apply (runs1_step _ _ (move st3 (st_top st3) target)); [|by eapply runs_here, machine_pc].
  rewrite (run_step top st _ Hf), (ms_pc _ _ _ _ _ _ _ Hst).
  change (dispatch top (WasmOp WASM_OPCODE_BR_TABLE)) with op_br_table. unfold op_br_table, WASM_TABLE_ENTRY_SIZE.
  erewrite bind_Done by (apply (run_read_u32 _ num); apply machine_u32; [exact Hc1|done]).
  erewrite bind_Done.
  2: { apply (run_read_u32 _ table_offset). apply machine_u32; [exact Hc2|done]. }
  erewrite bind_Done by (by apply (run_POP_TYPE I32 _ slot)).
  unfold holds in Hh. cbn [val_type val_bits] in Hh. rewrite Hh. cbv zeta.
  assert (u32 ((if num <=? key then num else key) * 9) = Z.min key num * 9) as ->.
  { rewrite wrap_id; [|unfold in_u]; destruct (Z.leb_spec num key); lia. }
  erewrite (bind_Done get_env) by done.
  erewrite (bind_Done (some_or_undef _)).
  2: { apply some_or_undef_Some. unfold read_table_entry_at, WASM_TABLE_ENTRY_OFFSET_OFFSET,
         WASM_TABLE_ENTRY_DROP_OFFSET, WASM_TABLE_ENTRY_KEEP_OFFSET. cbn [st_env move]. rewrite Z.add_0_r.
       rewrite (machine_u32 _ _ He1) by done. rewrite (machine_u32 _ _ He2) by (unfold in_u; lia).
       unfold read_u8_at. rewrite machine_istream.
       replace (table_offset + Z.min key num * 9 + 8) with (table_offset + Z.min key num * 9 + 4 + 4)
         by lia. by rewrite (code_at_byte _ _ He3). }
  cbn beta iota. match goal with |- bind _ _ ?s = _ => assert (s = move st2 (st_top st2) (pc + 9)) as -> end.
  { unfold st2, move. cbn. f_equal. lia. }
  rewrite (bind_Done _ _ _ _ _ E). unfold GOTO, set_pc, move. by destruct st3 as [? [] ?].
Qed.

Lemma step_unreachable : code_at pc [opcode_code WASM_OPCODE_UNREACHABLE] ->
  forall P, runs st P (fun r st' => r = WASM_INTERPRETER_TRAP_UNREACHABLE /\ env_rel e0 σ (st_env st')).
Proof.
  intros Hf%(machine_fetches (WasmOp _)) P. eapply runs_exit.
  - rewrite (run_step top st _ Hf). reflexivity.
  - right. split; [done|]. apply (ms_env _ _ _ _ _ _ _ Hst).
Qed.

(** *** Memory *)

Section memory.
Context (idx : Z) (m : Memory) (Hidx : in_u 32 idx) (Hmem : zget (s_memories σ) idx = Some m).

Lemma machine_mem_ok : mem_ok m.
Proof. apply (Forall_zget _ _ _ _ (er_ok _ _ _ (ms_env _ _ _ _ _ _ _ Hst)) Hmem). Qed.

Lemma machine_memory : zget (memories (st_env st)) idx = Some m.
Proof. by rewrite (er_memories _ _ _ (ms_env _ _ _ _ _ _ _ Hst)). Qed.

Lemma machine_operands imm op : code_at pc (opcode_code op :: le_bytes 4 idx ++ le_bytes 4 imm) -> in_u 32 imm ->
  fetches st (WasmOp op) /\ mem_operands st idx imm m.
Proof.
  intros [Hf Hc]%(code_at_op (WasmOp _)) Hi. apply code_at_app in Hc as [Hc1 Hc2]. rewrite length_le_bytes in Hc2.
  split; [done|]. assert (st_pc st = pc) as Epc by apply (ms_pc _ _ _ _ _ _ _ Hst).
  constructor; rewrite ?Epc.
  - by apply machine_u32.
  - apply machine_memory.
  - apply machine_mem_ok.
  - apply machine_u32; [|done]. by replace (pc + 5) with (pc + 1 + Z.of_nat 4) by lia.
  - by rewrite machine_istream.
Qed.

Lemma base_in_u base fr' : fr = mkVal I32 base :: fr' -> in_u 32 base.
Proof.
  intros Hfr. pose proof Hst as Hm. rewrite Hfr in Hm.
  destruct (machine_head _ _ _ _ _ _ _ _ Hm) as (slot & Hh & _). apply (holds_bits _ _ Hh).
Qed.

Lemma env_rel_memory m' : mem_ok m' -> env_rel e0 (set_memory_at idx m' σ) (st_env (set_mem st idx m')).
Proof.
  intros Hok. destruct (ms_env _ _ _ _ _ _ _ Hst) as [E1 E2 E3 E4 E5 E6 E7]. constructor; try done.
  - cbn. by rewrite E5.
  - cbn [s_memories set_memory_at]. by apply Forall_insert.
Qed.

Lemma run_load op t n sign imm base fr' : spec_load op = Some (t, n, sign) -> fr = mkVal I32 base :: fr' ->
  code_at pc (opcode_code op :: le_bytes 4 idx ++ le_bytes 4 imm) -> in_u 32 imm ->
  runs st
    (fun st' => base + imm + Z.of_nat n <= mem_byte_size m /\
       exists bytes, zslice (mem_data m) (base + imm) (Z.of_nat n) = Some bytes /\
         machine σ low (mkVal t (spec_load_value t n sign bytes) :: fr') cs (pc + 9) st')
    (fun r st' => mem_byte_size m < base + imm + Z.of_nat n /\
       r = WASM_INTERPRETER_TRAP_MEMORY_ACCESS_OUT_OF_BOUNDS /\ env_rel e0 σ (st_env st')).
Proof.
  intros Hop Hfr Hc Hi. pose proof (base_in_u _ _ Hfr) as Hb. destruct (machine_operands imm op Hc Hi) as [Hf Hmo].
  pose proof Hst as Hm. rewrite Hfr in Hm. destruct (machine_head _ _ _ _ _ _ _ _ Hm) as (slot & Hh & Hz).
  unfold holds in Hh. cbn [val_type val_bits] in Hh.
  destruct (dispatch_load top op t n sign Hop) as (mt & Ed & En & Hv).
  apply runs_single. rewrite (run_step top st _ Hf), Ed, (run_LOAD t mt st idx imm m slot Hmo Hz), Hh, En.
  pose proof machine_mem_ok as [Hlen _ _ Hbs _]. unfold in_u in Hb, Hi.
  destruct (Z.leb_spec (base + imm + Z.of_nat n) (mem_byte_size m)) as [Hle|Hgt].
  - destruct (zslice (mem_data m) (base + imm) (Z.of_nat n)) as [bytes|] eqn:Eb; [|by rewrite zslice_Some in Eb by lia].
    split; [done|]. exists bytes. split; [done|].
    pose proof (Forall_zslice _ _ _ _ _ Hbs Eb) as Hbb. pose proof (zslice_length _ _ _ _ Eb) as Hbl.
    destruct (Hv bytes Hbb ltac:(lia)) as [Ev Hu].
    apply (machine_result e0 σ low [mkVal I32 base] fr' cs pc st _ _ 9 Hm); [cbn; lia|].
    unfold holds. cbn [val_type val_bits]. rewrite get_set_field, Ev. by apply wrap_id.
  - right. split; [done|]. split; [done|]. apply (ms_env _ _ _ _ _ _ _ Hst).
Qed.

Lemma run_store op t n imm v base fr' : spec_store op = Some (t, n) ->
  fr = mkVal t v :: mkVal I32 base :: fr' ->
  code_at pc (opcode_code op :: le_bytes 4 idx ++ le_bytes 4 imm) -> in_u 32 imm ->
  runs st
    (fun st' => base + imm + Z.of_nat n <= mem_byte_size m /\
       exists data, zblit (mem_data m) (base + imm) (le_bytes n v) = Some data /\
         machine (set_memory_at idx (mkMemory data (mem_page_limits m) (mem_byte_size m)) σ) low fr' cs (pc + 9) st')
    (fun r st' => mem_byte_size m < base + imm + Z.of_nat n /\
       r = WASM_INTERPRETER_TRAP_MEMORY_ACCESS_OUT_OF_BOUNDS /\ env_rel e0 σ (st_env st')).
Proof.
  intros Hop Hfr Hc Hi. destruct (machine_operands imm op Hc Hi) as [Hf Hmo].
  pose proof Hst as Hm. rewrite Hfr in Hm. destruct (machine_pair _ _ _ _ _ _ _ _ _ Hm) as (sb & sv & Hb & Hv & Hs).
  pose proof (holds_bits _ _ Hb) as Hbu. cbn [val_type val_bits VALUE_TYPE] in Hbu.
  unfold holds in Hb, Hv. cbn [val_type val_bits] in Hb, Hv.
  destruct (dispatch_store top op t n Hop) as (mt & Ed & En & Hn).
  apply runs_single. rewrite (run_step top st _ Hf), Ed, (run_STORE t mt st idx imm m sb sv Hmo Hs), Hb, En.
  assert (stored_bytes t mt sv = le_bytes n v) as ->.
  { unfold stored_bytes. rewrite Hv, En. unfold mem_bits. rewrite En. by rewrite le_bytes_wrap. }
  pose proof machine_mem_ok as [Hlen Hp Hu Hbs Hmx]. unfold in_u in Hbu, Hi.
  destruct (Z.leb_spec (base + imm + Z.of_nat n) (mem_byte_size m)) as [Hle|Hgt].
  - destruct (zblit (mem_data m) (base + imm) (le_bytes n v)) as [data|] eqn:Eb.
    2: { rewrite zblit_Some in Eb by (rewrite ?length_le_bytes; lia). done. }
    split; [done|]. exists data. split; [done|].
    pose proof (machine_drop e0 σ low [mkVal t v; mkVal I32 base] fr' cs pc st (pc + 9) Hm) as Hd.
    rewrite <- (ms_pc _ _ _ _ _ _ _ Hst) in Hd |- * .
    apply (machine_env _ _ _ _ _ Hd). apply env_rel_memory. constructor; try done.
    + cbn. by rewrite (zblit_length _ _ _ _ Eb).
    + exact (Forall_zblit _ _ _ _ _ Hbs (le_bytes_ok _ _) Eb).
  - right. split; [done|]. split; [done|]. apply (ms_env _ _ _ _ _ _ _ Hst).
Qed.

Lemma mem_pages_in_u : in_u 32 (lim_initial (mem_page_limits m)).
Proof. destruct machine_mem_ok as [_ Hp Hu _ _]. unfold in_u, WASM_PAGE_SIZE in *. lia. Qed.

Lemma run_current_memory : code_at pc (opcode_code WASM_OPCODE_CURRENT_MEMORY :: le_bytes 4 idx) ->
  forall R, runs st (machine σ low (mkVal I32 (lim_initial (mem_page_limits m)) :: fr) cs (pc + 5)) R.
Proof.
  intros [Hf Hc]%(code_at_op (WasmOp _)) R. pose proof mem_pages_in_u as Hu.
  pose proof (machine_pc _ _ _ _ _ _ _ (pc + 5) Hst) as H2. set (st2 := move st (st_top st) (pc + 5)) in *.
  apply (runs_pushing (PUSH_TYPE I32 (lim_initial (mem_page_limits m))) st2).
  2: { pose proof (push_type_cases I32 (lim_initial (mem_page_limits m)) _ _ _ _ H2) as Hp.
       cbn [VALUE_TYPE] in Hp. by rewrite wrap_id in Hp. }
  rewrite (run_step top st _ Hf), (ms_pc _ _ _ _ _ _ _ Hst).
  change (dispatch top (WasmOp WASM_OPCODE_CURRENT_MEMORY)) with op_current_memory. unfold op_current_memory, GET_MEMORY.
  erewrite bind_Done.
  2: { erewrite bind_Done by (apply (run_read_u32 _ idx); by apply machine_u32).
       erewrite (bind_Done get_env) by done.
       erewrite (bind_Done (some_or_undef _)) by (apply some_or_undef_Some, machine_memory). reflexivity. }
  cbn [snd]. f_equal. unfold st2, move. cbn. f_equal. lia.
Qed.

Lemma run_grow op pages fr' : op = WASM_OPCODE_GROW_MEMORY -> fr = mkVal I32 pages :: fr' ->
  code_at pc (opcode_code op :: le_bytes 4 idx) ->
  lim_initial (mem_page_limits m) + pages < 2 ^ 32 ->
  forall R, runs st
    (if may_grow m pages
     then machine (set_memory_at idx (grown m pages) σ) low (mkVal I32 (lim_initial (mem_page_limits m)) :: fr') cs (pc + 5)
     else machine σ low (mkVal I32 (2 ^ 32 - 1) :: fr') cs (pc + 5)) R.
Proof.
  intros -> Hfr [Hf Hc]%(code_at_op (WasmOp _)) Hlt R. pose proof Hst as Hm. rewrite Hfr in Hm.
  destruct (machine_head _ _ _ _ _ _ _ _ Hm) as (slot & Hh & Hz). pose proof (base_in_u _ _ Hfr) as Hpu.
  unfold holds in Hh. cbn [val_type val_bits] in Hh. unfold in_u in Hpu.
  pose proof (run_grow_memory top st idx m slot Hf) as Hg. cbn zeta in Hg. rewrite Hh in Hg.
  rewrite (ms_pc _ _ _ _ _ _ _ Hst) in Hg.
  specialize (Hg (machine_u32 _ _ Hc Hidx) machine_memory machine_mem_ok Hz Hlt).
  eapply runs_step; [exact Hg|]. apply runs_here. destruct (may_grow m pages) eqn:Emg.
  - pose proof (grown_ok m pages machine_mem_ok ltac:(lia) Emg Hlt) as Hok.
    pose proof (machine_result e0 σ low [mkVal I32 pages] fr' cs pc st (set_field I32 slot (lim_initial (mem_page_limits m)))
      (mkVal I32 (lim_initial (mem_page_limits m))) 5 Hm ltac:(cbn; lia)) as Hr.
    assert (holds (set_field I32 slot (lim_initial (mem_page_limits m))) (mkVal I32 (lim_initial (mem_page_limits m)))) as Hho.
    { unfold holds. cbn [val_type val_bits]. rewrite get_set_field. apply wrap_id, mem_pages_in_u. }
    exact (machine_env _ _ _ _ _ (Hr Hho) (env_rel_memory _ Hok)).
  - apply (machine_result e0 σ low [mkVal I32 pages] fr' cs pc st (set_field I32 slot (-1)) (mkVal I32 (2 ^ 32 - 1)) 5 Hm); [cbn; lia|].
    unfold holds. cbn [val_type val_bits]. by rewrite get_set_field.
Qed.
End memory.

(** *** Calls *)

Lemma machine_push_call σ' fr' pc' st' ret pc'' : machine σ' low fr' cs pc' st' -> call_room st' ->
  machine σ' low fr' (cs ++ [ret]) pc'' (push_call_state st' ret pc'').
Proof.
  intros [H1 H2 H3 H4 [H5 H6] H7] Hr. unfold call_room in Hr. constructor; try done.
  unfold push_call_state. cbn [st_thread with_call_stack call_stack call_stack_top]. rewrite length_insert. split; [lia|].
  replace (Z.to_nat (call_stack_top (st_thread st') + 1)) with (S (Z.to_nat (call_stack_top (st_thread st')))) by lia.
  by rewrite take_insert_snoc, H6 by lia.
Qed.

(** Entering the code at [offset]. *)
Lemma push_call_cases σ' fr' ret st' offset : machine σ' low fr' cs ret st' -> in_u 32 ret ->
  match (PUSH_CALL;; GOTO offset) st' with
  | Done _ st'' => machine σ' low fr' (cs ++ [ret]) offset st''
  | Exit r _ => exhausted r = true
  | Undef => False
  end.
Proof.
  intros Hm Hret. pose proof (ms_calls _ _ _ _ _ _ _ Hm) as [Hc _].
  destruct (Z.lt_ge_cases (call_stack_top (st_thread st')) (Z.of_nat (length (call_stack (st_thread st'))))) as [Hlt|Hge].
  - assert (call_room st') as Hr by (unfold call_room; lia).
    rewrite (bind_Done _ _ _ _ _ (run_PUSH_CALL st' Hr)). cbn.
    rewrite (ms_pc _ _ _ _ _ _ _ Hm), wrap_id by done.
    apply (machine_push_call _ _ _ _ ret offset Hm Hr).
  - by rewrite (bind_Exit _ _ _ _ _ (run_PUSH_CALL_full st' Hge)).
Qed.

Lemma run_call offset : code_at pc (opcode_code WASM_OPCODE_CALL :: le_bytes 4 offset) -> in_u 32 offset ->
  pc + 5 < 2 ^ 32 ->
  forall R, runs1 st (machine σ low fr (cs ++ [pc + 5]) offset) R.
Proof.
  intros Hc0 Ho Hp R. pose proof Hc0 as [Hp0 _]. apply (code_at_op (WasmOp _)) in Hc0 as [Hf Hc].
  pose proof (machine_pc _ _ _ _ _ _ _ (pc + 5) Hst) as H2. set (st2 := move st (st_top st) (pc + 5)) in *.
  apply (runs1_pushing (PUSH_CALL;; GOTO offset) st2).
  2: { apply push_call_cases; [done|unfold in_u; lia]. }
  rewrite (run_step top st _ Hf), (ms_pc _ _ _ _ _ _ _ Hst).
  change (dispatch top (WasmOp WASM_OPCODE_CALL)) with op_call. unfold op_call.
  erewrite bind_Done by (apply (run_read_u32 _ offset); by apply machine_u32).
  f_equal. unfold st2, move. cbn. f_equal. lia.
Qed.

Lemma run_return cs0 back : cs = cs0 ++ [back] -> top <= Z.of_nat (length cs0) ->
  code_at pc [opcode_code WASM_OPCODE_RETURN] ->
  forall R, runs st (machine σ low fr cs0 back) R.
Proof.
  intros Hcs Htop Hf%(machine_fetches (WasmOp _)) R. pose proof (ms_calls _ _ _ _ _ _ _ Hst) as [Hc Ht].
  rewrite Hcs in Ht. pose proof (f_equal length Ht) as Hl. rewrite length_take, length_app in Hl. cbn [length] in Hl.
  assert (zget (call_stack (st_thread st)) (call_stack_top (st_thread st) - 1) = Some back) as Hz.
  { apply zget_Some. split; [lia|]. rewrite <- (lookup_take_lt _ (Z.to_nat (call_stack_top (st_thread st)))) by lia.
    rewrite Ht, lookup_app_r by lia. by replace (_ - length cs0)%nat with 0%nat by lia. }
  eapply runs_step.
  - rewrite (run_step top st _ Hf). change (dispatch top (WasmOp WASM_OPCODE_RETURN)) with (op_return top).
    unfold op_return, bind at 1, get_thread, bind at 1, get, ret at 1. cbn [st_thread move with_value_stack call_stack_top].
    rewrite (proj2 (Z.eqb_neq _ _)) by lia.
    erewrite bind_Done.
    2: { unfold POP_CALL, bind, get_thread, get, ret, bind. cbn [st_thread move with_value_stack call_stack call_stack_top].
         rewrite Hz. reflexivity. }
    reflexivity.
  - apply runs_here. destruct Hst as [H1 H2 H3 H4 H5 H6]. constructor; try done.
    cbn. split; [lia|]. replace (Z.to_nat (call_stack_top (st_thread st) - 1)) with (length cs0) by lia.
    apply (f_equal (take (length cs0))) in Ht. rewrite take_take, take_app_length in Ht.
    by replace (length cs0 `min` Z.to_nat (call_stack_top (st_thread st)))%nat with (length cs0) in Ht by lia.
Qed.

(** The return of the outermost call. *)
Lemma run_return_top : Z.of_nat (length cs) = top -> code_at pc [opcode_code WASM_OPCODE_RETURN] ->
  forall P, runs st P (fun r st' => r = WASM_INTERPRETER_RETURNED /\ machine σ low fr cs (pc + 1) st').
Proof.
  intros Htop Hf%(machine_fetches (WasmOp _)) P. pose proof (ms_calls _ _ _ _ _ _ _ Hst) as [Hc Ht].
  apply (f_equal length) in Ht. rewrite length_take in Ht.
  eapply runs_exit.
  - rewrite (run_step top st _ Hf). change (dispatch top (WasmOp WASM_OPCODE_RETURN)) with (op_return top).
    unfold op_return, bind at 1, get_thread, bind at 1, get, ret at 1. cbn [st_thread move with_value_stack call_stack_top].
    rewrite (proj2 (Z.eqb_eq _ _)) by lia. reflexivity.
  - right. split; [done|]. rewrite (ms_pc _ _ _ _ _ _ _ Hst). by apply machine_pc with (1 := Hst).
Qed.

Lemma run_alloca zs : Forall (holds 0) zs ->
  code_at pc (interp_opcode_code WASM_OPCODE_ALLOCA :: le_bytes 4 (Z.of_nat (length zs))) ->
  in_u 32 (Z.of_nat (length zs)) ->
  forall R, runs st (machine σ low (zs ++ fr) cs (pc + 5)) R.
Proof.
  intros Hzs [Hf Hc]%code_at_op Hn R. pose proof (ms_wf _ _ _ _ _ _ _ Hst) as Hw. unfold stack_wf in Hw.
  set (n := Z.of_nat (length zs)) in *. set (t := with_value_stack (st_thread st) (st_vs st) (st_top st + n)).
  set (st2 := mkState (st_env st) t (pc + 5)).
  apply (runs_pushing (CHECK_STACK;; vs <- some_or_undef (zblit (st_vs st) (st_top st) (replicate (Z.to_nat n) 0));;
                    set_thread (with_value_stack (st_thread st) vs (st_top st + n))) st2).
  { rewrite (run_step top st _ Hf), (ms_pc _ _ _ _ _ _ _ Hst).
    change (dispatch top WASM_OPCODE_ALLOCA) with op_alloca. unfold op_alloca.
    erewrite (bind_Done get_thread) by done.
    erewrite bind_Done by (apply (run_read_u32 _ n); by apply machine_u32).
    erewrite (bind_Done (set_thread _)) by done.
    cbn [st_env st_thread st_pc move]. replace (pc + 1 + 4) with (pc + 5) by lia. reflexivity. }
  unfold CHECK_STACK, bind, get_thread, get, ret, bind, TRAP_IF. cbn [st_thread st2 t value_stack value_stack_top with_value_stack].
  destruct (Z.leb_spec (Z.of_nat (length (st_vs st))) (st_top st + n)) as [|Hlt]; [done|].
  unfold n in *. cbn beta iota. unfold ret.
  rewrite zblit_Some by (rewrite ?length_replicate; lia). cbn [some_or_undef]. unfold ret.
  rewrite Nat2Z.id, length_replicate.
  destruct (ms_stack _ _ _ _ _ _ _ Hst) as (slots & Hs & Hh). unfold stack_of in Hs.
  eapply machine_same with (slots := slots ++ replicate (length zs) 0); [exact Hst| | | | |done].
  - unfold same_rest, st_vs. cbn. split_and!; try done.
    rewrite !length_app, length_take, length_drop, length_replicate. unfold st_vs in *. lia.
  - unfold stack_wf, st_vs, st_top in *. cbn. rewrite !length_app, length_take, length_drop, length_replicate. lia.
  - unfold stack_of. cbn. fold (st_top st) in Hs |- *. rewrite Hs.
    apply (f_equal length) in Hs. rewrite length_take in Hs. rewrite app_assoc, (app_assoc low).
    apply take_app_length'. rewrite length_app, length_replicate. lia.
  - rewrite rev_app_distr. apply Forall2_app; [done|]. apply Forall2_lookup. intros i.
    destruct (decide (i < length zs)%nat).
    + rewrite lookup_replicate_2 by done. rewrite rev_lookup by done.
      destruct (lookup_lt_is_Some_2 zs (length zs - S i) ltac:(lia)) as [z Hz]. rewrite Hz. constructor.
      by apply (Forall_lookup_1 _ _ _ _ Hzs Hz).
    + rewrite !lookup_ge_None_2 by (rewrite ?length_rev, ?length_replicate; lia). constructor.
Qed.

(** The element [i] of table [ti], as a function of signature [si]. *)
Lemma run_call_indirect ti table si sig i fr' : fr = mkVal I32 i :: fr' ->
  code_at pc (opcode_code WASM_OPCODE_CALL_INDIRECT :: le_bytes 4 ti ++ le_bytes 4 si) ->
  in_u 32 ti -> in_u 32 si -> pc + 9 < 2 ^ 32 ->
  zget (tables e0) ti = Some table -> table_ok e0 table -> zget (sigs e0) si = Some sig ->
  forall P R,
  match zget (tbl_func_indexes table) i with
  | None => forall st', env_rel e0 σ (st_env st') -> R WASM_INTERPRETER_TRAP_UNDEFINED_TABLE_INDEX st'
  | Some element =>
      if decide (element = WASM_INVALID_INDEX)
      then forall st', env_rel e0 σ (st_env st') -> R WASM_INTERPRETER_TRAP_UNINITIALIZED_TABLE_ELEMENT st'
      else exists f fsig, zget (funcs e0) element = Some f /\ zget (sigs e0) (func_sig_index f) = Some fsig /\
        if decide (fsig = sig)
        then exists offset a b types, func_body f = DefinedFunc offset a b types /\
             forall st', machine σ low fr' (cs ++ [pc + 9]) offset st' -> P st'
        else forall st', env_rel e0 σ (st_env st') -> R WASM_INTERPRETER_TRAP_INDIRECT_CALL_SIGNATURE_MISMATCH st'
  end -> runs1 st P R.
Proof.
  intros Hfr Hc0 Hti Hsi Hp Htab Hok Hsig P R Hcase. pose proof Hc0 as [Hp0 _].
  apply (code_at_op (WasmOp _)) in Hc0 as [Hf Hc]. apply code_at_app in Hc as [Hc1 Hc2]. rewrite length_le_bytes in Hc2.
  pose proof Hst as Hm. rewrite Hfr in Hm. destruct (machine_head _ _ _ _ _ _ _ _ Hm) as (slot & Hh & Hz).
  unfold holds in Hh. cbn [val_type val_bits] in Hh.
  pose proof (ms_env _ _ _ _ _ _ _ Hst) as [Es Ef Et _ _ _ _]. pose proof (ms_calls _ _ _ _ _ _ _ Hst) as [Hcc _].
  pose proof (ms_pc _ _ _ _ _ _ _ Hst) as Epc.
  assert (table_ok (st_env st) table) as Hok' by (unfold table_ok; by rewrite Ef, Es).
  assert (read_u32_at (st_env st) (st_pc st + 1) = Some ti) as Hr1 by (rewrite Epc; by apply machine_u32).
  assert (read_u32_at (st_env st) (st_pc st + 5) = Some si) as Hr2.
  { rewrite Epc. replace (pc + 5) with (pc + 1 + Z.of_nat 4) by lia. by apply machine_u32. }
  rewrite <- Et in Htab. rewrite <- Es in Hsig.
  pose proof (call_indirect_step top st ti table si sig slot Hf Hr1 Htab Hok' Hr2 Hsig Hz ltac:(lia)) as Hstep.
  cbn zeta in Hstep. rewrite Hh, Epc in Hstep.
  pose proof (machine_drop _ _ _ [mkVal I32 i] _ _ _ _ (pc + 9) Hm) as Hd. cbn [length] in Hd.
  change (Z.of_nat 1) with 1 in Hd. set (popped := move st (st_top st - 1) (pc + 9)) in *.
  pose proof (ms_env _ _ _ _ _ _ _ Hd) as Hed.
  destruct (zget (tbl_func_indexes table) i) as [element|].
  2: { eapply runs1_exit; [exact Hstep|]. right. by apply Hcase. }
  destruct (decide (element = WASM_INVALID_INDEX)) as [|Hne].
  { eapply runs1_exit; [exact Hstep|]. right. by apply Hcase. }
  destruct Hcase as (f & fsig & Hfi & Hfs & Hcase). destruct Hstep as (f' & fsig' & Hfi' & Hfs' & Hstep).
  rewrite Ef, Hfi in Hfi'. injection Hfi' as <-. rewrite Es, Hfs in Hfs'. injection Hfs' as <-.
  destruct (decide (fsig = sig)) as [|Hns].
  2: { eapply runs1_exit; [exact Hstep|]. right. by apply Hcase. }
  destruct Hcase as (offset & a & b & types & Hb & HP). rewrite Hb in Hstep.
  destruct (Z.leb_spec (Z.of_nat (length (call_stack (st_thread st)))) (call_stack_top (st_thread st))) as [Hle|Hgt].
  { eapply runs1_exit; [exact Hstep|]. by left. }
  eapply runs1_step; [exact Hstep|]. apply runs_here, HP. rewrite wrap_id by (unfold in_u; lia).
  apply (machine_push_call _ _ _ _ (pc + 9) offset Hd). unfold call_room. cbn. lia.
Qed.
End instructions.
