(* ===== verification/CompileRun.v ===== *)
(** * The translation simulates the evaluator

    Code that [comp] produces, once its names are addresses, does on the
    machine what [exec] says its source does: for every outcome of [exec] that is
    an answer, the machine gets where the outcome says with the
    values it says - unless one of its stacks is exhausted on the way, which
    [exec] does not know of. *)

From S2P Require Import Prelude Opcode Ast BinaryReader BinaryFormat Float Numeric Interp InterpFacts InterpOps InterpControl BinaryReaderInterpreter Compile CompileFacts CompileBody Structured MachineRun.

(** ** Linking *)

(** The bytes of cells whose names have the addresses [ref] and [fn]. *)
Definition link_cell (ref fn : nat -> Z) (x : Cell) : list Z :=
  match x with
  | Byte b => [b]
  | Ref n => le_bytes 4 (ref n)
  | FuncRef j => le_bytes 4 (fn j)
  end.

Definition link (ref fn : nat -> Z) (cells : list Cell) : list Z := concat (map (link_cell ref fn) cells).

Definition set_ref (ref : nat -> Z) (n : nat) (addr : Z) : nat -> Z :=
  fun m => if decide (m = n) then addr else ref m.

Section link.
Context (ref fn : nat -> Z).

Lemma link_app c1 c2 : link ref fn (c1 ++ c2) = link ref fn c1 ++ link ref fn c2.
Proof. unfold link. by rewrite map_app, concat_app. Qed.

Lemma link_cons x c : link ref fn (x :: c) = link_cell ref fn x ++ link ref fn c.
Proof. done. Qed.

Lemma link_raw bs : link ref fn (raw bs) = bs.
Proof. unfold link, raw. induction bs as [|b bs IH]; [done|]. cbn. by rewrite IH. Qed.

Lemma length_link c : Z.of_nat (length (link ref fn c)) = cells_size c.
Proof.
  induction c as [|x c IH]; [done|]. rewrite link_cons, length_app, cells_size_cons, Nat2Z.inj_add, IH.
  f_equal. by destruct x.
Qed.

Lemma link_resolve n addr c :
  link ref fn (resolve_cells (is_ref n) addr c) = link (set_ref ref n addr) fn c.
Proof.
  induction c as [|x c IH]; [done|]. rewrite resolve_cons, link_app, IH.
  change (link (set_ref ref n addr) fn (x :: c)) with (link_cell (set_ref ref n addr) fn x ++ link (set_ref ref n addr) fn c).
  f_equal.
  unfold resolve_cell. destruct x as [b|m|j]; cbn [is_ref link_cell]; [done| |done].
  unfold set_ref. destruct (decide (m = n)) as [->|Hne].
  - rewrite bool_decide_true by done. apply link_raw.
  - rewrite bool_decide_false by done. apply app_nil_r.
Qed.
End link.

(** ** Type stacks of code that is reached *)

Lemma pops_live E ts S S1 : all_values S -> pops E ts S = Ok S1 ->
  S1 = drop (length ts) S /\ (length ts <= length S)%nat.
Proof.
  intros Hv. unfold pops, expect. rewrite (all_values_dead S Hv). cbn [negb andb].
  destruct (Nat.ltb_spec (above E S) (length ts)) as [|Hge]; [done|]. cbn [orb].
  destruct (negb _); cbn [reject_if res_bind]; [done|]. intros [= <-]. unfold above in Hge. split; [done|lia].
Qed.

Lemma all_values_drop n S : all_values S -> all_values (drop n S).
Proof. apply Forall_drop. Qed.

Lemma pushes_live ts S : all_values S -> all_values ts -> pushes ts S = rev ts ++ S.
Proof.
  intros Hs Ht. unfold pushes. rewrite (all_values_dead S Hs). do 2 f_equal.
  induction Ht as [|t ts [_ Hv] _ IH]; [done|]. by rewrite filter_cons_True, IH by done.
Qed.

Lemma all_values_pushes ts S : all_values S -> all_values ts -> all_values (pushes ts S).
Proof. intros Hs Ht. rewrite pushes_live by done. apply Forall_app_2; [by apply Forall_rev|done]. Qed.

Lemma length_pushes ts S : all_values S -> all_values ts -> length (pushes ts S) = (length ts + length S)%nat.
Proof. intros Hs Ht. by rewrite pushes_live, length_app, length_rev by done. Qed.

Lemma pop_push_live E ts t S S1 : all_values S -> pops E ts S = Ok S1 -> is_value t ->
  all_values (pushes [t] S1) /\ (length (pushes [t] S1) + length ts = 1 + length S)%nat.
Proof.
  intros Hv Hp Ht. destruct (pops_live _ _ _ _ Hv Hp) as [-> Hl].
  assert (all_values [t]) by (by apply List.Forall_cons). pose proof (all_values_drop (length ts) _ Hv).
  split; [by apply all_values_pushes|]. rewrite length_pushes by done. rewrite length_drop. cbn [length]. lia.
Qed.

Lemma Ok_pair {A B} (a c : A) (b d : B) : Ok (a, b) = Ok (c, d) -> c = a /\ d = b.
Proof. by intros [= -> ->]. Qed.

Lemma finish_pushes E sig S S' : finish E sig S = Ok S' ->
  S' = pushes sig E /\ (all_values S -> above E S = length sig /\ (length E + length sig <= length S \/ length sig = 0))%nat.
Proof.
  unfold finish, expect. destruct (dead S) eqn:Hd; cbn [negb andb orb].
  - cbn [reject_if res_bind]. intros [= <-]. split; [done|]. intros Hv. by rewrite (all_values_dead S Hv) in Hd.
  - destruct (Nat.ltb_spec (above E S) (length sig)) as [|Hge]; [done|]. cbn [orb].
    destruct (negb (bool_decide _)); cbn [reject_if res_bind]; [done|].
    destruct (Nat.eqb_spec (above E S) (length sig)) as [He|]; cbn [negb reject_if res_bind]; [|done].
    intros [= <-]. split; [done|]. intros _. split; [done|]. unfold above in *. lia.
Qed.

(** ** What a body names, on both sides *)

Section simulation.
Context `{NanBits} `{MemAllocator} (top : Z) (D : nat) (e0 : Env) (Hbytes : bytes_ok (istream e0))
  (Hsize : Z.of_nat (length (istream e0)) < 2 ^ 32) (I : Instance) (fn : nat -> Z).
Abbreviation machine := (machine e0).
Abbreviation code_at := (code_at e0).
Abbreviation runs := (runs top).
Abbreviation runs1 := (runs1 top).

(** [T] is what the translation of a body of [I] looks at. *)
Record target_rel (T : Target) : Prop := {
  tr_locals : all_values (t_locals T);
  tr_results : all_values (t_results T) /\ (length (t_results T) <= 1)%nat;
  tr_func i sig callee : t_func T i = Some (sig, callee) -> all_values (result_types sig) /\
    forall j, in_func I i = Some j -> (callee = CodeCallee (fn j) \/ callee = LaterCallee j) /\
      exists f, in_body I j = Some (sig, f);
  tr_sig i ei sig : t_sig T i = Some (ei, sig) -> all_values (result_types sig) /\
    in_sig I i = Some sig /\ zget (sigs e0) ei = Some sig /\ in_u 32 ei;
  tr_global i g t m : t_global T i = Some (g, t, m) -> is_value t /\ in_global I i = Some g /\ in_u 32 g;
  tr_memory : in_memory I = t_memory T /\ in_u 32 (t_memory T);
  tr_table elements : in_table I = Some elements -> in_u 32 (t_table T) /\
    exists table, zget (tables e0) (t_table T) = Some table /\ tbl_func_indexes table = elements /\ table_ok e0 table
}.

(** The functions of the module. *)
Record functions_rel : Prop := {
  fr_offset j sig f : in_body I j = Some (sig, f) -> in_u 32 (fn j);
  fr_element i sig : in_element_sig I i = Some sig ->
    exists f, zget (funcs e0) i = Some f /\ zget (sigs e0) (func_sig_index f) = Some sig;
  fr_own i j : in_element I i = Some j -> exists f a b types body,
    zget (funcs e0) i = Some f /\ func_body f = DefinedFunc (fn j) a b types /\
    forall sig, in_element_sig I i = Some sig -> in_body I j = Some (sig, body)
}.
Context (Hfuncs : functions_rel).

(** ** Outcomes *)

Definition target_addr (ref : nat -> Z) (L : list RLabel) (d : nat) (l : RLabel) : Z :=
  match rl_loop l with Some start => start | None => ref (length L - 1 - d)%nat end.

Definition fails (r : Exec) (x : WasmInterpreterResult) (st' : State) : Prop :=
  exists σ, r = Trapped x σ /\ env_rel e0 σ (st_env st').

(** The instructions of an unfinished call, when the fuel is [n]: it takes one
    for each [1 + D] of fuel, where the blocks of a body nest [D] deep. *)
Definition call_bound (n k : nat) : Prop := (D + k * S D < n)%nat.

(** Calls with fuel [n] come back with what [exec] says. *)
Definition calls_ok (n : nat) : Prop := forall low fr cs back st j sig f σ args,
  in_body I j = Some (sig, f) -> length args = length (param_types sig) -> top <= Z.of_nat (length cs) ->
  machine σ low (args ++ fr) (cs ++ [back]) (fn j) st ->
  let r := exec_body (exec I n) sig f σ args in
  (answered r ->
   runs st (fun st' => exists σ' res, r = Returned σ' res /\ length res = length (result_types sig) /\
                      machine σ' low (res ++ fr) cs back st') (fails r)) /\
  (r = NoFuel -> forall k, call_bound n k -> takes top k st).

Section body.
Context (T : Target) (HT : target_rel T) (low : list Z) (cs : list Z).
Abbreviation nlocals := (length (t_locals T)).

(** Of the operands [under] a block, those under the label [l]. *)
Definition below (l : RLabel) (under : list Val) : list Val :=
  drop (length under - (length (rl_entry l) - nlocals)) under.

Definition reaches (ref : nat -> Z) (L : list RLabel) (under : list Val) (next : Z) (S' : Types) (r : Exec)
    (st' : State) : Prop :=
  match r with
  | Normal σ ls vs =>
      all_values S' /\ length ls = nlocals /\ length S' = (length vs + length under + nlocals)%nat /\
      machine σ low (vs ++ under ++ rev ls) cs next st'
  | Branch d σ ls vs =>
      exists l, L !! d = Some l /\ length ls = nlocals /\ length vs = arity l /\
        machine σ low (vs ++ below l under ++ rev ls) cs (target_addr ref L d l) st'
  | Returned σ vs =>
      length vs = length (t_results T) /\
      exists pc, code_at pc [opcode_code WASM_OPCODE_RETURN] /\ machine σ low vs cs pc st'
  | _ => False
  end.

(** If [r] is an answer the machine gets to it, to a branch with at least one
    instruction; if the fuel is used up, the machine takes any number of
    instructions that [B] allows. *)
Definition follows (B : nat -> Prop) (ref : nat -> Z) (L : list RLabel) (under : list Val) (next : Z) (S' : Types)
    (r : Exec) (st : State) : Prop :=
  match r with
  | NoFuel => forall k, B k -> takes top k st
  | Branch _ _ _ _ => runs1 st (reaches ref L under next S' r) (fails r)
  | _ => answered r -> runs st (reaches ref L under next S' r) (fails r)
  end.

(** The labels around, with their arities. *)
Record labels_ok (ref : nat -> Z) (L : list RLabel) (A : list nat) (under : list Val) : Prop := {
  lo_arities : A = map arity L;
  lo_label d l : L !! d = Some l ->
    all_values (rl_entry l) /\ (nlocals <= length (rl_entry l) <= length under + nlocals)%nat /\
    (arity l <= 1)%nat /\ in_u 32 (target_addr ref L d l)
}.

Section follows.
Context {B : nat -> Prop}.

Lemma follows_normal ref L under next S' σ ls vs st : all_values S' -> length ls = nlocals ->
  length S' = (length vs + length under + nlocals)%nat ->
  runs st (machine σ low (vs ++ under ++ rev ls) cs next) (fun _ _ => False) ->
  follows B ref L under next S' (Normal σ ls vs) st.
Proof. intros Hv Hl Hs Hr _. by eapply runs_weaken; [exact Hr| |]; cbn. Qed.

(** Neither a branch nor without fuel. *)
Definition settled (r : Exec) : bool := match r with Branch _ _ _ _ | NoFuel => false | _ => true end.

Lemma follows_settled ref L under next S' r st : settled r = true ->
  (answered r -> runs st (reaches ref L under next S' r) (fails r)) -> follows B ref L under next S' r st.
Proof. by destruct r. Qed.

Lemma follows_runs ref L under next S' r st : follows B ref L under next S' r st -> answered r ->
  runs st (reaches ref L under next S' r) (fails r).
Proof. destruct r; try done; cbn [follows]; auto using runs1_runs. Qed.

Lemma follows_bound B' ref L under next S' r st : follows B' ref L under next S' r st -> (forall k, B k -> B' k) ->
  follows B ref L under next S' r st.
Proof. destruct r; try done. cbn [follows]. auto. Qed.

Lemma follows_after ref L under next S' r st P : runs st P (fails r) ->
  (forall st', P st' -> follows B ref L under next S' r st') -> follows B ref L under next S' r st.
Proof.
  intros Hr Hk. destruct r; cbn [follows] in *.
  1, 3, 4: intros Hns; eapply runs_bind; [exact Hr|]; intros st' Hp; by apply Hk.
  - eapply runs_bind1; [exact Hr|exact Hk].
  - by intros [].
  - by intros [].
  - intros k HB. eapply takes_after; [exact Hr|by intros x st' (? & ? & _)|]. intros st' Hp. by apply Hk.
Qed.

Lemma follows_after1 B' ref L under next S' r st P : runs1 st P (fails r) -> (forall k, B (S k) -> B' k) ->
  (forall st', P st' -> follows B' ref L under next S' r st') -> follows B ref L under next S' r st.
Proof.
  intros Hr HB Hk. destruct r; cbn [follows] in *.
  1, 3, 4: intros Hns; eapply runs_bind; [by apply runs1_runs|]; intros st' Hp; by apply Hk.
  - eapply runs1_bind; [exact Hr|]. intros st' Hp. by apply runs1_runs, Hk.
  - by intros [].
  - by intros [].
  - intros [|k] Hb; [apply takes_0|]. eapply takes_after1; [exact Hr|by intros x st' (? & ? & _)|].
    intros st' Hp. by apply Hk, HB.
Qed.

End follows.

(** The evaluator has no answer. *)
Ltac none := by intros [].

Lemma drop_add_eq {A} n k (l1 l2 : list A) : n = (length l1 + k)%nat -> drop n (l1 ++ l2) = drop k l2.
Proof. intros ->. by rewrite <- drop_drop, drop_app_length. Qed.

(** Leaving a block entered with [vs] above [under]: its end is [next]. *)
Lemma reaches_leave ref ref' L l S1 S' under vs sig next r st :
  rl_entry l = S' -> rl_sig l = sig -> all_values (rl_entry l) -> all_values sig ->
  length S' = (length vs + length under + nlocals)%nat ->
  finish S' sig S1 = Ok (pushes sig S') ->
  (forall d l', L !! d = Some l' -> (nlocals <= length (rl_entry l') <= length under + nlocals)%nat) ->
  (rl_loop l = None /\ ref' (length L) = next \/ (forall σ ls vs, r <> Branch O σ ls vs)) ->
  (forall n, (n < length L)%nat -> ref' n = ref n) ->
  reaches ref' (l :: L) (vs ++ under) next S1 r st ->
  reaches ref L under next (pushes sig S') (leave_block vs r) st.
Proof.
  intros He Hs Hev Hsv Hlen Hfin HL Hend Href Hr. subst S'.
  assert (length (pushes sig (rl_entry l)) = length sig + length (rl_entry l))%nat as Hpl by (by apply length_pushes).
  destruct r as [σ ls vs'|d σ ls vs'|σ vs'|x σ| | |]; cbn [leave_block reaches] in *; try done.
  - destruct Hr as (H1 & H2 & H3 & H4). destruct (finish_pushes _ _ _ _ Hfin) as [_ Hf].
    destruct (Hf H1) as [Hab _]. unfold above in Hab. rewrite length_app in H3.
    split_and!; [by apply all_values_pushes|done| |by rewrite <- !app_assoc in H4 |- *].
    rewrite Hpl, length_app. lia.
  - destruct Hr as (l' & Hl' & H2 & H3 & H4). destruct d as [|d]; cbn [leave_block reaches].
    + injection Hl' as <-. destruct Hend as [[Hloop Hnext]|Hno]; [|by destruct (Hno σ ls vs')].
      split_and!; [by apply all_values_pushes|done| |].
      * rewrite Hpl, length_app, H3. unfold arity. rewrite Hloop, Hs. lia.
      * unfold below in H4. rewrite length_app, Hlen in H4.
        replace (length vs + length under - _)%nat with 0%nat in H4 by lia. rewrite drop_0 in H4.
        unfold target_addr in H4. rewrite Hloop in H4. cbn [length] in H4.
        replace (S (length L) - 1 - 0)%nat with (length L) in H4 by lia. rewrite Hnext in H4.
        by rewrite <- !app_assoc in H4 |- *.
    + cbn in Hl'. exists l'. split_and!; [done..|]. destruct (HL _ _ Hl') as [Hn1 Hn2].
      pose proof (lookup_lt_Some _ _ _ Hl') as Hdl. unfold below in *.
      rewrite (drop_add_eq _ (length under - (length (rl_entry l') - nlocals))) in H4 by (rewrite length_app; lia).
      replace (target_addr ref L d l') with (target_addr ref' (l :: L) (S d) l'); [done|].
      unfold target_addr. destruct (rl_loop l'); [done|]. cbn [length]. rewrite Href by lia. f_equal. lia.
Qed.

(** ** Instructions *)

(** Before an instruction: the operands [vs] of the innermost block. *)
Record here (ref : nat -> Z) (L : list RLabel) (A : list nat) (under : list Val) (S : Types) (σ : Store)
    (ls vs : list Val) (pos : Z) (st : State) : Prop := {
  h_labels : labels_ok ref L A under;
  h_values : all_values S;
  h_length : length S = (length vs + length under + nlocals)%nat;
  h_locals : length ls = nlocals;
  h_machine : machine σ low (vs ++ under ++ rev ls) cs pos st
}.

Lemma code_link_app ref pos c1 c2 : code_at pos (link ref fn (c1 ++ c2)) ->
  code_at pos (link ref fn c1) /\ code_at (pos + cells_size c1) (link ref fn c2).
Proof. rewrite link_app. intros Hc%code_at_app. by rewrite length_link in Hc. Qed.

Lemma code_link_cons ref pos x c : code_at pos (link ref fn (x :: c)) ->
  code_at pos (link_cell ref fn x) /\ code_at (pos + cell_size x) (link ref fn c).
Proof.
  intros Hc. apply (code_link_app ref pos [x] c) in Hc. rewrite cells_size_cons in Hc.
  change (cells_size []) with 0 in Hc. rewrite Z.add_0_r in Hc. cbn [link map concat] in Hc. by rewrite app_nil_r in Hc.
Qed.

Lemma code_link_end ref pos c : code_at pos (link ref fn c) -> 0 <= pos /\ pos + cells_size c < 2 ^ 32.
Proof. intros (Hp & Hl & _). rewrite length_link in Hl. lia. Qed.

Lemma follow_drop_keep ref σ kept dropped rest pos st R : machine σ low (kept ++ dropped ++ rest) cs pos st ->
  (length kept <= 1)%nat -> code_at pos (link ref fn (drop_keep (length dropped) (length kept))) ->
  runs st (machine σ low (kept ++ rest) cs (pos + cells_size (drop_keep (length dropped) (length kept)))) R.
Proof.
  intros Hm Hk Hc. destruct dropped as [|v dropped].
  { apply runs_here. cbn [drop_keep length]. change (cells_size []) with 0. by rewrite Z.add_0_r. }
  destruct (decide (dropped = [] /\ kept = [])) as [[-> ->]|Hne].
  { cbn [drop_keep length Nat.eqb andb] in *. change (cells_size [op_cell WASM_OPCODE_DROP]) with 1.
    by eapply run_drop. }
  assert (drop_keep (length (v :: dropped)) (length kept) =
    opcode_cell WASM_OPCODE_DROP_KEEP :: u32_cells (Z.of_nat (length (v :: dropped))) ++ [Byte (Z.of_nat (length kept))])
    as E.
  { cbn [drop_keep length]. destruct dropped, kept; try done. by destruct Hne. }
  rewrite E in *. unfold u32_cells, opcode_cell in *.
  assert (cells_size (Byte (interp_opcode_code WASM_OPCODE_DROP_KEEP) :: raw (le_bytes 4 (Z.of_nat (length (v :: dropped)))) ++
    [Byte (Z.of_nat (length kept))]) = 6) as ->.
  { rewrite cells_size_cons, cells_size_app, cells_size_raw, length_le_bytes. done. }
  rewrite link_cons, link_app, link_raw in Hc. by eapply step_drop_keep.
Qed.

Lemma link_target ref L d l : link ref fn (target_cells L d l) = le_bytes 4 (target_addr ref L (Z.to_nat d) l).
Proof.
  unfold target_cells, target_addr. destruct (rl_loop l); [apply link_raw|]. cbn [link map concat link_cell].
  apply app_nil_r.
Qed.

Lemma arity_at ref L A under d l : labels_ok ref L A under -> L !! d = Some l -> A !! d = Some (arity l).
Proof. intros HL Hl. rewrite (lo_arities _ _ _ _ HL). by rewrite list_lookup_fmap, Hl. Qed.

Lemma take_values_Some a vs kept : take_values a vs = Some kept ->
  kept = take a vs /\ (a <= length vs)%nat /\ length kept = a.
Proof.
  unfold take_values. destruct (Nat.leb_spec a (length vs)); [|done]. intros [= <-].
  split; [done|]. split; [done|]. rewrite length_take. lia.
Qed.

(** The values a branch to [l] drops are those [br_drop] counts. *)
Lemma branch_split ref L A under S σ ls vs pos st d l drop kept :
  here ref L A under S σ ls vs pos st -> L !! d = Some l -> br_drop l S = Ok drop ->
  take_values (arity l) vs = Some kept ->
  exists dropped, vs ++ under ++ rev ls = kept ++ dropped ++ below l under ++ rev ls /\ length dropped = drop /\
    length kept = arity l.
Proof.
  intros Hh Hl Hd (-> & Ha & Hk)%take_values_Some. destruct (lo_label _ _ _ _ (h_labels _ _ _ _ _ _ _ _ _ _ Hh) d l Hl)
    as (_ & Hn & _). pose proof (h_length _ _ _ _ _ _ _ _ _ _ Hh) as Hlen. unfold br_drop in Hd.
  destruct (Nat.ltb_spec (length S) (length (rl_entry l) + arity l)) as [|Hge]; [done|].
  cbn [crash_if res_bind] in Hd. injection Hd as <-. unfold below.
  set (k := (length under - (length (rl_entry l) - nlocals))%nat).
  exists (List.skipn (arity l) vs ++ take k under). split_and!; [|rewrite length_app, length_take, length_drop; lia|done].
  rewrite <- (take_drop (arity l) vs) at 1. rewrite <- (take_drop k under) at 1. by rewrite <- !app_assoc.
Qed.

Ltac here_facts Hh :=
  pose proof (h_values _ _ _ _ _ _ _ _ _ _ Hh) as Hv; pose proof (h_length _ _ _ _ _ _ _ _ _ _ Hh) as Hl;
  pose proof (h_machine _ _ _ _ _ _ _ _ _ _ Hh) as Hm; pose proof (h_locals _ _ _ _ _ _ _ _ _ _ Hh) as Hls;
  pose proof (all_values_dead _ Hv) as Hd.

Section instructions.
Context {B : nat -> Prop}.

Lemma follow_branch ref L A under S σ ls vs pos st d l c next S' :
  here ref L A under S σ ls vs pos st -> label_at L d = Some l -> br_cells L d l S = Ok c ->
  code_at pos (link ref fn c) ->
  follows B ref L under next S' (exec_branch A d σ ls vs) st.
Proof.
  intros Hh Hl Hb Hc. unfold label_at in Hl. unfold br_cells in Hb.
  pose proof (h_labels _ _ _ _ _ _ _ _ _ _ Hh) as HL. destruct (lo_label _ _ _ _ HL _ _ Hl) as (_ & _ & Ha & Hu).
  unfold exec_branch in *. rewrite (arity_at _ _ _ _ _ _ HL Hl) in *.
  destruct (take_values (arity l) vs) as [kept|] eqn:Et; [|none].
  destruct (br_drop l S) as [n| |] eqn:Ed; cbn [res_bind] in Hb; [|done|done]. injection Hb as <-.
  destruct (branch_split _ _ _ _ _ _ _ _ _ _ _ _ _ _ Hh Hl Ed Et) as (dropped & E & <- & Hk). rewrite <- Hk in Hc.
  apply code_link_app in Hc as [Hc1 Hc2]. pose proof (h_machine _ _ _ _ _ _ _ _ _ _ Hh) as Hm. rewrite E in Hm.
  cbn [follows]. eapply runs_bind1; [eapply follow_drop_keep; [exact Hm|lia|exact Hc1]|]. cbn beta. intros st1 H1.
  unfold op_cell, opcode_cell in Hc2. rewrite link_cons, link_target in Hc2.
  eapply runs1_weaken; [apply (run_goto top e0 _ _ _ _ _ _ H1 _ Hc2 Hu (fun _ _ => False))| |done].
  cbn [reaches]. intros st2 H2. exists l. split_and!; [done|apply (h_locals _ _ _ _ _ _ _ _ _ _ Hh)|done|done].
Qed.

(** *** Operators *)

Definition plain_op (op : WasmOpcode) : bool :=
  match op with
  | WASM_OPCODE_UNREACHABLE | WASM_OPCODE_NOP | WASM_OPCODE_RETURN | WASM_OPCODE_DROP | WASM_OPCODE_SELECT => false
  | _ => true
  end.

Definition op_params (op : WasmOpcode) : list WasmType :=
  match opcode_group op with
  | Some GROUP_BINARY | Some GROUP_COMPARE => [wasm_get_opcode_param_type_1 op; wasm_get_opcode_param_type_2 op]
  | _ => [wasm_get_opcode_param_type_1 op]
  end.

Lemma comp_op_plain E S op : plain_op op = true ->
  comp_op T E S op =
  (S <- pops E (op_params op) S ;; Ok ([op_cell op], pushes [wasm_get_opcode_result_type op] S))%res.
Proof. by destruct op. Qed.

Lemma exec_op_plain n op σ ls vs : plain_op op = true ->
  exec_op n op σ ls vs = match num_op op with Some o => exec_num o σ ls vs | None => Stuck end.
Proof. by destruct op. Qed.

Lemma num_op_types op o : num_op op = Some o ->
  length (op_params op) = Z.to_nat (int_op_arity o) /\ is_value (wasm_get_opcode_result_type op).
Proof. destruct op; intros [= <-]; (split; [reflexivity|]); split; done. Qed.

Lemma exec_num_settled o σ ls vs : settled (exec_num o σ ls vs) = true.
Proof.
  destruct o; cbn [exec_num]; repeat match goal with
  | |- context [pop_val ?t ?l] => destruct (pop_val t l) as [[? ?]|]
  end; try done; by destruct (f _) || destruct (f _ _).
Qed.

Lemma follow_num ref L A under S σ ls vs pos st op c S' :
  here ref L A under S σ ls vs pos st -> plain_op op = true -> comp_op T (entry_of L) S op = Ok (c, S') ->
  code_at pos (link ref fn c) ->
  follows B ref L under (pos + cells_size c) S' (exec_op (length (t_results T)) op σ ls vs) st.
Proof.
  intros Hh Hp Hc Hcode. rewrite comp_op_plain in Hc by done. rewrite exec_op_plain in * by done.
  destruct (num_op op) as [o|] eqn:Eo; [|none]. destruct (num_op_types op o Eo) as [Hn Hv].
  destruct (pops _ _ S) as [S1| |] eqn:Ep; cbn [res_bind] in Hc; [|done|done]. apply Ok_pair in Hc as [-> ->].
  destruct (pop_push_live _ _ _ _ _ (h_values _ _ _ _ _ _ _ _ _ _ Hh) Ep Hv) as [Hv' Hl'].
  pose proof (h_length _ _ _ _ _ _ _ _ _ _ Hh) as Hl.
  apply follows_settled; [apply exec_num_settled|]. intros Hns. eapply runs_weaken.
  - apply (run_num top e0 _ _ _ _ _ _ (h_machine _ _ _ _ _ _ _ _ _ _ Hh) op o vs (under ++ rev ls) ls eq_refl);
      [by rewrite <- (app_nil_r [_])|done|done].
  - intros st' (v & vs' & -> & Hlen & Hm). cbn [reaches]. change (cells_size [op_cell op]) with 1.
    split_and!; [done|apply (h_locals _ _ _ _ _ _ _ _ _ _ Hh)| |done]. cbn [length]. lia.
  - intros r st' [-> He]. by exists σ.
Qed.

Lemma comp_return ref L A under S σ ls vs pos st c S' :
  here ref L A under S σ ls vs pos st -> comp_op T (entry_of L) S WASM_OPCODE_RETURN = Ok (c, S') ->
  code_at pos (link ref fn c) ->
  follows B ref L under (pos + cells_size c) S' (exec_op (length (t_results T)) WASM_OPCODE_RETURN σ ls vs) st.
Proof.
  intros Hh Hc Hcode. cbn [comp_op exec_op] in *.
  destruct (expect _ _ S) as [[]| |]; cbn [res_bind] in Hc; [|done|done]. apply Ok_pair in Hc as [-> ->].
  rewrite (all_values_dead _ (h_values _ _ _ _ _ _ _ _ _ _ Hh)) in Hcode.
  destruct (take_values _ vs) as [kept|] eqn:Et; [|none]. intros _. apply take_values_Some in Et as (-> & Ha & Hk).
  set (a := length (t_results T)) in *. pose proof (h_length _ _ _ _ _ _ _ _ _ _ Hh) as Hl.
  pose proof (h_machine _ _ _ _ _ _ _ _ _ _ Hh) as Hm. pose proof (h_locals _ _ _ _ _ _ _ _ _ _ Hh) as Hls.
  assert (vs ++ under ++ rev ls = take a vs ++ (drop a vs ++ under ++ rev ls) ++ []) as E
    by (rewrite app_nil_r; rewrite <- (take_drop a vs) at 1; by rewrite <- app_assoc).
  rewrite E in Hm.
  assert (length S - a = length (drop a vs ++ under ++ rev ls))%nat as Hd
    by (rewrite !length_app, length_drop, length_rev; lia).
  rewrite Hd in Hcode. apply code_link_app in Hcode as [Hc1 Hc2]. destruct (tr_results T HT) as [_ Ho].
  pose proof (follow_drop_keep ref σ (take a vs) (drop a vs ++ under ++ rev ls) [] pos st (fun _ _ => False) Hm) as Hr.
  rewrite Hk in Hr. eapply runs_weaken; [apply Hr; [exact Ho|exact Hc1]| |done].
  cbn beta. intros st' Hm'. rewrite app_nil_r in Hm'. cbn [reaches]. split; [done|]. eexists. split; [|exact Hm'].
  exact Hc2.
Qed.

(** Each of the others. *)
Definition op_ok (op : WasmOpcode) : Prop := forall ref L A under S σ ls vs pos st c S',
  here ref L A under S σ ls vs pos st -> comp_op T (entry_of L) S op = Ok (c, S') ->
  code_at pos (link ref fn c) ->
  follows B ref L under (pos + cells_size c) S' (exec_op (length (t_results T)) op σ ls vs) st.

Lemma unreachable_ok : op_ok WASM_OPCODE_UNREACHABLE.
Proof.
  intros ref L A under S σ ls vs pos st c S' Hh Hc Hcode _. here_facts Hh. cbn [comp_op exec_op] in *.
  apply Ok_pair in Hc as [-> ->]. eapply runs_weaken; [eapply step_unreachable; [exact Hm|exact Hcode]|done|].
  intros r st' [-> He]. by exists σ.
Qed.

Lemma nop_ok : op_ok WASM_OPCODE_NOP.
Proof.
  intros ref L A under S σ ls vs pos st c S' Hh Hc Hcode. here_facts Hh. cbn [comp_op exec_op] in *.
  apply Ok_pair in Hc as [-> ->]. apply follows_normal; [done|done|done|]. apply runs_here. change (cells_size []) with 0. by rewrite Z.add_0_r.
Qed.

Lemma drop_ok : op_ok WASM_OPCODE_DROP.
Proof.
  intros ref L A under S σ ls vs pos st c S' Hh Hc Hcode. here_facts Hh. cbn [comp_op exec_op] in *.
  destruct vs as [|v vs]; [none|]. rewrite Hd in Hc. cbn [andb negb crash_if res_bind] in Hc.
  destruct (above (entry_of L) S <? 1)%nat; cbn [reject_if res_bind] in Hc; [done|]. apply Ok_pair in Hc as [-> ->].
  destruct S as [|t S]; [done|]. inversion_clear Hv. cbn [tail length] in *.
  apply follows_normal; [done|done|lia|]. eapply run_drop; [exact Hm|done|exact Hcode].
Qed.

Lemma select_ok : op_ok WASM_OPCODE_SELECT.
Proof.
  intros ref L A under S σ ls vs pos st c S' Hh Hc Hcode. here_facts Hh. cbn [comp_op exec_op] in *.
  destruct (pops _ _ S) as [S1| |] eqn:Ep; cbn [res_bind] in Hc; [|done|done].
  destruct (pops_live _ _ _ _ Hv Ep) as [-> _]. pose proof (all_values_drop 1 _ Hv) as Hv1.
  cbn [length] in Hc. rewrite (all_values_dead _ Hv1) in Hc. cbn [andb negb crash_if res_bind] in Hc.
  destruct (_ || _); cbn [reject_if res_bind] in Hc; [done|]. apply Ok_pair in Hc as [-> ->].
  destruct vs as [|[t x] vs]; [none|]. cbn [pop_val val_type val_bits].
  destruct (decide (t = I32)) as [->|]; [|none]. destruct vs as [|b [|a vs]]; [none..|].
  assert (length (tail (drop 1 S)) = (length vs + 1 + length under + nlocals)%nat) as Hl'.
  { cbn [length] in Hl. destruct S as [|? [|? S]]; cbn [drop tail length] in *; lia. }
  apply follows_normal; [|done|cbn [length]; lia|].
  - destruct S as [|? [|? S]]; [constructor..|]. by inversion_clear Hv1.
  - eapply run_select; [exact Hm|done|exact Hcode].
Qed.

Lemma follow_op op : op_ok op.
Proof.
  intros ref L A under S σ ls vs pos st c S' Hh Hc Hcode. destruct (plain_op op) eqn:Hp; [by eapply follow_num|].
  destruct op; try discriminate Hp;
    first [by eapply unreachable_ok|by eapply nop_ok|by eapply comp_return|by eapply drop_ok|by eapply select_ok].
Qed.

(** *** Constants and memory *)

Lemma follow_const ref L A under S σ ls vs pos st k c S' :
  here ref L A under S σ ls vs pos st -> const_ok k = true -> comp_const S k = (c, S') ->
  code_at pos (link ref fn c) ->
  follows B ref L under (pos + cells_size c) S' (Normal σ ls (const_val k :: vs)) st.
Proof.
  intros Hh Hk Hc Hcode. here_facts Hh.
  assert (forall t, is_value t -> all_values (pushes [t] S) /\ length (pushes [t] S) = Datatypes.S (length S)) as Hp.
  { intros t Ht. assert (all_values [t]) by (by apply List.Forall_cons).
    split; [by apply all_values_pushes|by rewrite length_pushes]. }
  assert (exists t, is_value t /\ S' = pushes [t] S) as (t & Ht & ->).
  { unfold comp_const in Hc. destruct (const_type k); apply pair_equal_spec in Hc as [<- <-]; eexists; (split; [|reflexivity]); done. }
  destruct (Hp t Ht) as [Hv' Hl']. apply follows_normal; [done|done|cbn [length]; lia|]. clear Hp Hv' Hl' Ht.
  unfold const_val. destruct k as [kt bits]. cbn [const_type const_bits] in *. unfold comp_const in Hc.
  destruct kt; try discriminate Hk; cbn [const_type const_bits of_wasm_type] in *; apply pair_equal_spec in Hc as [<- _];
    unfold op_cell, opcode_cell, u32_cells, u64_cells in *; rewrite link_cons, link_raw in Hcode;
    rewrite cells_size_cons, cells_size_raw, length_le_bytes;
    first [ eapply run_const; [exact Hm|by (left + right)|exact Hcode]
          | eapply run_const64; [exact Hm|by (left + right)|exact Hcode] ].
Qed.

Lemma pushes_void S : pushes [WASM_TYPE_VOID] S = S.
Proof. unfold pushes. by destruct (dead S). Qed.

Definition memory_params (op : WasmOpcode) : list WasmType :=
  match opcode_group op with
  | Some GROUP_STORE => [wasm_get_opcode_param_type_1 op; wasm_get_opcode_param_type_2 op]
  | _ => [wasm_get_opcode_param_type_1 op]
  end.

Lemma load_types op x : spec_load op = Some x ->
  length (memory_params op) = 1%nat /\ is_value (wasm_get_opcode_result_type op).
Proof. destruct op; intros [= <-]; (split; [reflexivity|]); split; done. Qed.

Lemma store_types op x : spec_store op = Some x ->
  length (memory_params op) = 2%nat /\ wasm_get_opcode_result_type op = WASM_TYPE_VOID.
Proof. destruct op; intros [= <-]; split; reflexivity. Qed.

Lemma pop_val_Some t vs b vs' : pop_val t vs = Some (b, vs') -> vs = mkVal t b :: vs'.
Proof.
  destruct vs as [|[t' b'] vs]; [done|]. cbn [pop_val val_type val_bits].
  destruct (decide (t' = t)) as [->|]; [|done]. by intros [= -> ->].
Qed.

Lemma follow_memory ref L A under S σ ls vs pos st op offset c S' :
  here ref L A under S σ ls vs pos st -> in_u 32 offset -> comp_memory T (entry_of L) S op offset = Ok (c, S') ->
  code_at pos (link ref fn c) ->
  follows B ref L under (pos + cells_size c) S' (exec_memory I op offset σ ls vs) st.
Proof.
  intros Hh Ho Hc Hcode. here_facts Hh. unfold comp_memory in Hc. fold (memory_params op) in Hc.
  destruct (pops _ _ S) as [S1| |] eqn:Ep; cbn [res_bind] in Hc; [|done|done]. apply Ok_pair in Hc as [-> ->].
  destruct (tr_memory T HT) as [Emem Hidx]. unfold op_cell, opcode_cell, u32_cells in *.
  rewrite link_cons, link_app, !link_raw in Hcode. cbn [link_cell app interp_opcode_code] in Hcode.
  rewrite cells_size_cons, cells_size_app, !cells_size_raw, !length_le_bytes. change (cell_size _ + _) with 9.
  unfold exec_memory. destruct (spec_load op) as [[[t n] sign]|] eqn:El.
  - destruct (load_types op _ El) as [Hn Hr]. unfold exec_load. rewrite Emem.
    destruct (zget (s_memories σ) (t_memory T)) as [m|] eqn:Em; [|none].
    destruct (pop_val I32 vs) as [[base vs']|] eqn:Ev; [|none]. apply pop_val_Some in Ev as ->.
    destruct (pop_push_live _ _ _ _ _ Hv Ep Hr) as [Hv' Hl'].
    apply follows_settled; [by repeat case_match|]. intros Hns. eapply runs_weaken; [eapply (run_load top e0 Hbytes _ _ _ _ _ _ Hm _ m Hidx Em op t n sign offset base); done| |].
    + intros st' (Hle & bytes & Eb & Hm'). rewrite (proj2 (Z.leb_le _ _) Hle), Eb in *. cbn [reaches].
      split_and!; [done|done| |done]. cbn [length] in *. lia.
    + intros r st' (Hgt & -> & He). rewrite (proj2 (Z.leb_gt _ _) Hgt). by exists σ.
  - destruct (spec_store op) as [[t n]|] eqn:Es; [|none].
    destruct (store_types op _ Es) as [Hn Hr]. rewrite Hr, pushes_void in *.
    destruct (pops_live _ _ _ _ Hv Ep) as [-> Hl']. rewrite Hn in *. unfold exec_store.
    rewrite Emem. destruct (zget (s_memories σ) (t_memory T)) as [m|] eqn:Em; [|none].
    destruct (pop_val t vs) as [[v vs1]|] eqn:Ev; [|none]. apply pop_val_Some in Ev as ->.
    destruct (pop_val I32 vs1) as [[base vs']|] eqn:Ev; [|none]. apply pop_val_Some in Ev as ->.
    apply follows_settled; [by repeat case_match|]. intros Hns. eapply runs_weaken; [eapply (run_store top e0 Hbytes _ _ _ _ _ _ Hm _ m Hidx Em op t n offset v base); done| |].
    + intros st' (Hle & data & Eb & Hm'). rewrite (proj2 (Z.leb_le _ _) Hle), Eb in *. cbn [reaches].
      split_and!; [by apply all_values_drop|done| |done]. rewrite length_drop. cbn [length] in *. lia.
    + intros r st' (Hgt & -> & He). rewrite (proj2 (Z.leb_gt _ _) Hgt). by exists σ.
Qed.

Lemma follow_reserved ref L A under S σ ls vs pos st op c S' :
  here ref L A under S σ ls vs pos st -> comp_reserved T (entry_of L) S op = Ok (c, S') ->
  code_at pos (link ref fn c) ->
  follows B ref L under (pos + cells_size c) S' (exec_reserved I op σ ls vs) st.
Proof.
  intros Hh Hc Hcode. here_facts Hh. unfold comp_reserved in Hc. destruct (tr_memory T HT) as [Emem Hidx].
  unfold exec_reserved. rewrite Emem. destruct (zget (s_memories σ) (t_memory T)) as [m|] eqn:Em; [|none].
  destruct (match op with WASM_OPCODE_GROW_MEMORY => pops (entry_of L) [WASM_TYPE_I32] S | _ => Ok S end)
    as [S1| |] eqn:Ep; cbn [res_bind] in Hc; [|done|done]. apply Ok_pair in Hc as [-> ->].
  unfold op_cell, opcode_cell, u32_cells in *. rewrite link_cons, link_raw in Hcode. cbn [link_cell app interp_opcode_code] in Hcode.
  rewrite cells_size_cons, cells_size_raw, length_le_bytes. change (cell_size _ + _) with 5.
  assert (is_value WASM_TYPE_I32) as Hi by done. assert (all_values [WASM_TYPE_I32]) by (by apply List.Forall_cons).
  destruct op; try none.
  - injection Ep as <-. apply follows_normal; [by apply all_values_pushes|done| |].
    { rewrite length_pushes by done. cbn [length]. lia. }
    by eapply run_current_memory.
  - destruct (pop_push_live _ _ _ _ _ Hv Ep Hi) as [Hv' Hl']. cbn [length] in Hl'.
    destruct (pop_val I32 vs) as [[pages vs']|] eqn:Ev; [|none]. apply pop_val_Some in Ev as ->.
    destruct (Z.ltb_spec (lim_initial (mem_page_limits m) + pages) (2 ^ 32)) as [Hlt|]; [|none].
    pose proof (run_grow top e0 _ _ _ _ _ _ Hm _ m Hidx Em _ pages _ eq_refl eq_refl Hcode Hlt (fun _ _ => False)) as Hr.
    cbn [length] in *. destruct (may_grow m pages); (apply follows_normal; [done|done|cbn [length]; lia|exact Hr]).
Qed.

(** *** Locals *)

Lemma rev_insert {A} (l : list A) i x : (i < length l)%nat ->
  rev (<[i := x]> l) = <[(length l - 1 - i)%nat := x]> (rev l).
Proof.
  intros Hi. apply list_eq. intros k. destruct (decide (k < length l)%nat) as [Hk|Hk].
  - rewrite rev_lookup by (by rewrite length_insert). rewrite length_insert.
    destruct (decide (k = length l - 1 - i)%nat) as [->|Hne].
    + rewrite (list_lookup_insert_eq (rev l)) by (rewrite length_rev; lia).
      replace (length l - Datatypes.S (length l - 1 - i))%nat with i by lia. by apply list_lookup_insert_eq.
    + rewrite (list_lookup_insert_ne (rev l)) by done. rewrite list_lookup_insert_ne by lia. by rewrite rev_lookup.
  - rewrite !lookup_ge_None_2; [done| |]; rewrite ?length_insert, ?length_rev, ?length_insert; lia.
Qed.

Section local_index.
Context (S : Types) (ls vs under : list Val) (Hl : length S = (length vs + length under + length ls)%nat).

(** The depth of local [i] below the top of the frame. *)
Definition local_depth (i : nat) : nat := (length vs + length under + (length ls - 1 - i))%nat.

Lemma local_depth_ok i : 0 <= i < Z.of_nat (length ls) ->
  Z.of_nat (length S) - i = Z.of_nat (Datatypes.S (local_depth (Z.to_nat i))).
Proof. intros Hi. unfold local_depth. lia. Qed.

Lemma local_lookup i v : ls !! i = Some v ->
  exists rest, drop (local_depth i) (vs ++ under ++ rev ls) = v :: rest.
Proof.
  clear S Hl. intros Hi. pose proof (lookup_lt_Some _ _ _ Hi) as Hlt. unfold local_depth.
  rewrite app_assoc, (drop_add_eq _ (length ls - 1 - i)) by (rewrite length_app; lia).
  eexists. apply drop_S. rewrite rev_lookup by lia. rewrite <- Hi. f_equal. lia.
Qed.

Lemma local_insert i v : (i < length ls)%nat ->
  <[local_depth i := v]> (vs ++ under ++ rev ls) = vs ++ under ++ rev (<[i := v]> ls).
Proof.
  clear S Hl. intros Hi. rewrite rev_insert by done. unfold local_depth.
  rewrite insert_app_r_alt by lia. f_equal. rewrite insert_app_r_alt by lia. f_equal. f_equal. lia.
Qed.

Lemma local_depth_lt i : (i < length ls)%nat -> (local_depth i < length (vs ++ under ++ rev ls))%nat.
Proof. clear S Hl. intros Hi. rewrite !length_app, length_rev. unfold local_depth. lia. Qed.
End local_index.

Lemma follow_get_local ref L A under S σ ls vs pos st index t :
  here ref L A under S σ ls vs pos st -> zget (t_locals T) index = Some t ->
  let c := op_cell WASM_OPCODE_GET_LOCAL :: u32_cells (Z.of_nat (length S) - index) in
  code_at pos (link ref fn c) ->
  follows B ref L under (pos + cells_size c) (pushes [t] S)
    (match zget ls index with Some v => Normal σ ls (v :: vs) | None => Stuck end) st.
Proof.
  intros Hh Ht c Hcode. here_facts Hh. destruct (zget ls index) as [v|] eqn:Ev; [|none].
  apply zget_Some in Ht as [Hi0 Ht]. apply zget_Some in Ev as [_ Ev]. pose proof (lookup_lt_Some _ _ _ Ev) as Hlt.
  pose proof (Forall_lookup_1 _ _ _ _ (tr_locals T HT) Ht) as Hvt.
  assert (all_values [t]) as Hat by (by apply List.Forall_cons). rewrite <- Hls in Hl.
  unfold c, op_cell, opcode_cell, u32_cells in *. rewrite (local_depth_ok S ls vs under Hl) in * by lia.
  rewrite link_cons, link_raw in Hcode. rewrite cells_size_cons, cells_size_raw, length_le_bytes. change (cell_size _ + _) with 5.
  destruct (local_lookup ls vs under _ _ Ev) as [rest Hr].
  apply follows_normal; [by apply all_values_pushes|done|rewrite length_pushes by done; cbn [length]; lia|].
  eapply run_get_local; [exact Hm|exact Hcode|exact Hr].
Qed.

Lemma follow_set_local ref L A under S S1 σ ls vs pos st index :
  here ref L A under S σ ls vs pos st -> all_values S1 -> Datatypes.S (length S1) = length S ->
  let c := op_cell WASM_OPCODE_SET_LOCAL :: u32_cells (Z.of_nat (length S1) - index) in
  code_at pos (link ref fn c) ->
  follows B ref L under (pos + cells_size c) S1
    (match vs with
     | v :: vs => match zset ls index v with Some ls => Normal σ ls vs | None => Stuck end
     | [] => Stuck
     end) st.
Proof.
  intros Hh Hv1 Hl1 c Hcode. here_facts Hh. destruct vs as [|v vs]; [none|].
  destruct (zset ls index v) as [ls'|] eqn:Ev; [|none]. apply zset_inv in Ev as [Hi ->].
  rewrite <- Hls in Hl. cbn [length] in Hl.
  assert (length S1 = (length vs + length under + length ls)%nat) as Hl' by lia.
  unfold c, op_cell, opcode_cell, u32_cells in *. rewrite (local_depth_ok S1 ls vs under Hl') in * by lia.
  rewrite link_cons, link_raw in Hcode. rewrite cells_size_cons, cells_size_raw, length_le_bytes. change (cell_size _ + _) with 5.
  apply follows_normal; [done|by rewrite length_insert|lia|]. rewrite <- local_insert by lia.
  eapply run_set_local; [exact Hm|done|apply local_depth_lt; lia|exact Hcode].
Qed.

Lemma follow_tee_local ref L A under S σ ls vs pos st index :
  here ref L A under S σ ls vs pos st ->
  let c := op_cell WASM_OPCODE_TEE_LOCAL :: u32_cells (Z.of_nat (length S) - index) in
  code_at pos (link ref fn c) ->
  follows B ref L under (pos + cells_size c) S
    (match vs with
     | v :: _ => match zset ls index v with Some ls => Normal σ ls vs | None => Stuck end
     | [] => Stuck
     end) st.
Proof.
  intros Hh c Hcode. here_facts Hh. destruct vs as [|v vs]; [none|].
  destruct (zset ls index v) as [ls'|] eqn:Ev; [|none]. apply zset_inv in Ev as [Hi ->].
  rewrite <- Hls in Hl. unfold c, op_cell, opcode_cell, u32_cells in *.
  rewrite (local_depth_ok S ls (v :: vs) under Hl) in * by lia.
  rewrite link_cons, link_raw in Hcode. rewrite cells_size_cons, cells_size_raw, length_le_bytes. change (cell_size _ + _) with 5.
  apply follows_normal; [done|by rewrite length_insert|by rewrite Hls in Hl|]. cbn [app]. rewrite <- local_insert by lia.
  eapply run_tee_local; [exact Hm|done|apply local_depth_lt; lia|exact Hcode].
Qed.

(** *** Globals *)

Lemma follow_get_global ref L A under S σ ls vs pos st index g t m :
  here ref L A under S σ ls vs pos st -> t_global T index = Some (g, t, m) ->
  let c := op_cell WASM_OPCODE_GET_GLOBAL :: u32_cells g in
  code_at pos (link ref fn c) ->
  follows B ref L under (pos + cells_size c) (pushes [t] S)
    (match in_global I index with
     | Some g => match zget (s_globals σ) g with Some v => Normal σ ls (v :: vs) | None => Stuck end
     | None => Stuck
     end) st.
Proof.
  intros Hh Hg c Hcode. here_facts Hh. destruct (tr_global T HT _ _ _ _ Hg) as (Ht & -> & Hu).
  destruct (zget (s_globals σ) g) as [v|] eqn:Ev; [|none].
  assert (all_values [t]) as Hat by (by apply List.Forall_cons).
  unfold c, op_cell, opcode_cell, u32_cells in *.
  rewrite link_cons, link_raw in Hcode. rewrite cells_size_cons, cells_size_raw, length_le_bytes. change (cell_size _ + _) with 5.
  apply follows_normal; [by apply all_values_pushes|done|rewrite length_pushes by done; cbn [length]; lia|].
  eapply run_get_global; [exact Hm|exact Hcode|done|done].
Qed.

Lemma follow_set_global ref L A under S S1 σ ls vs pos st index g t m :
  here ref L A under S σ ls vs pos st -> t_global T index = Some (g, t, m) ->
  all_values S1 -> Datatypes.S (length S1) = length S ->
  let c := op_cell WASM_OPCODE_SET_GLOBAL :: u32_cells g in
  code_at pos (link ref fn c) ->
  follows B ref L under (pos + cells_size c) S1
    (match in_global I index, vs with
     | Some g, v :: vs =>
         if Z.of_nat (length (s_globals σ)) <=? g then Stuck else Normal (set_global_at g v σ) ls vs
     | _, _ => Stuck
     end) st.
Proof.
  intros Hh Hg Hv1 Hl1 c Hcode. here_facts Hh. destruct (tr_global T HT _ _ _ _ Hg) as (Ht & -> & Hu).
  destruct vs as [|v vs]; [none|].
  destruct (Z.leb_spec (Z.of_nat (length (s_globals σ))) g) as [|Hlt]; [none|].
  unfold c, op_cell, opcode_cell, u32_cells in *.
  rewrite link_cons, link_raw in Hcode. rewrite cells_size_cons, cells_size_raw, length_le_bytes. change (cell_size _ + _) with 5.
  apply follows_normal; [done|done|cbn [length] in *; lia|].
  eapply run_set_global; [exact Hm|done|exact Hcode|done|unfold in_u in Hu; lia].
Qed.

(** *** Branches *)

Lemma here_after ref L A under S S1 σ ls vs vs1 pos pos1 st st1 : here ref L A under S σ ls vs pos st ->
  all_values S1 -> (length S1 + length vs = length S + length vs1)%nat ->
  machine σ low (vs1 ++ under ++ rev ls) cs pos1 st1 -> here ref L A under S1 σ ls vs1 pos1 st1.
Proof. intros [H1 H2 H3 H4 H5] Hv Hl Hm. constructor; try done. lia. Qed.

(** The test before [cells]. *)
Lemma follow_br_unless ref ref2 L A under S S1 σ ls vs c pos st cells :
  here ref L A under S σ ls (mkVal I32 c :: vs) pos st -> pops (entry_of L) [WASM_TYPE_I32] S = Ok S1 ->
  code_at pos (link ref2 fn (br_unless pos cells)) ->
  code_at (pos + 5) (link ref2 fn cells) /\
  forall R, runs st (here ref L A under S1 σ ls vs (if c =? 0 then pos + 5 + cells_size cells else pos + 5)) R.
Proof.
  intros Hh Hp Hc. here_facts Hh. unfold br_unless, opcode_cell, u32_cells in Hc.
  pose proof (code_link_end _ _ _ Hc) as Hend. rewrite cells_size_cons, cells_size_app, cells_size_raw, length_le_bytes in Hend.
  cbn [cell_size] in Hend. pose proof (cells_size_nonneg cells).
  rewrite app_comm_cons in Hc.
  apply code_link_app in Hc as [Hc1 Hc2]. rewrite link_cons, link_raw in Hc1.
  rewrite cells_size_cons, cells_size_raw, length_le_bytes in Hc2. split; [exact Hc2|]. intros R.
  destruct (pops_live _ _ _ _ Hv Hp) as [-> Hl1]. cbn [length] in Hl1, Hl.
  eapply runs_weaken.
  - eapply (run_br_unless top e0 _ _ _ _ _ _ Hm c _ (pos + 5 + cells_size cells)); [done|exact Hc1|unfold in_u; lia].
  - cbn beta. intros st' Hm'. eapply here_after; [exact Hh|by apply all_values_drop| |exact Hm'].
    rewrite length_drop. cbn [length] in *. lia.
  - done.
Qed.

Lemma follow_br_if ref L A under S σ ls vs pos st index c S' l :
  here ref L A under S σ ls vs pos st -> label_at L index = Some l ->
  (S1 <- pops (entry_of L) [WASM_TYPE_I32] S ;; cells <- br_cells L index l S1 ;; Ok (br_unless pos cells, S1))%res = Ok (c, S') ->
  code_at pos (link ref fn c) ->
  follows B ref L under (pos + cells_size c) S'
    (match pop_val I32 vs with
     | Some (c, vs) => if c =? 0 then Normal σ ls vs else exec_branch A index σ ls vs
     | None => Stuck
     end) st.
Proof.
  intros Hh Hlab Hc Hcode. destruct (pops _ _ S) as [S1| |] eqn:Ep; cbn [res_bind] in Hc; [|done|done].
  destruct (br_cells L index l S1) as [cells| |] eqn:Eb; cbn [res_bind] in Hc; [|done|done]. apply Ok_pair in Hc as [-> ->].
  destruct (pop_val I32 vs) as [[k vs']|] eqn:Ev; [|none]. apply pop_val_Some in Ev as ->.
  destruct (follow_br_unless _ _ _ _ _ _ _ _ _ _ _ _ _ _ Hh Ep Hcode) as [Hc2 Hr].
  assert (cells_size (br_unless pos cells) = 5 + cells_size cells) as ->.
  { unfold br_unless, opcode_cell, u32_cells. rewrite cells_size_cons, cells_size_app, cells_size_raw, length_le_bytes.
    cbn [cell_size]. lia. }
  destruct (k =? 0) eqn:Ek.
  - intros _. eapply runs_weaken; [apply (Hr (fun _ _ => False))| |done]. intros st' Hh'. here_facts Hh'.
    cbn [reaches]. split_and!; [done|done|done|]. by rewrite Z.add_assoc.
  - eapply follows_after; [apply Hr|]. cbn beta. intros st' Hh'.
    by apply (follow_branch _ _ _ _ _ _ _ _ _ _ _ _ _ _ _ Hh' Hlab Eb Hc2).
Qed.

(** Entry [k] of a branch table. *)
Lemma table_entries_lookup L S ds entries k d : table_entries L S ds = Ok entries -> ds !! k = Some d ->
  exists pre post l n, label_at L d = Some l /\ br_drop l S = Ok n /\
    cells_size pre = Z.of_nat k * WASM_TABLE_ENTRY_SIZE /\
    entries = pre ++ (target_cells L d l ++ u32_cells (Z.of_nat n) ++ [Byte (Z.of_nat (arity l))]) ++ post.
Proof.
  revert entries k. induction ds as [|d0 ds IH]; intros entries k Ht Hk; [done|]. cbn [table_entries] in Ht.
  unfold table_entry in Ht. destruct (label_at L d0) as [l|] eqn:El; cbn [value_or_crash res_bind] in Ht; [|done].
  destruct (expect _ _ S) as [[]| |]; cbn [res_bind] in Ht; [|done|done].
  destruct (br_drop l S) as [n| |] eqn:Ed; cbn [res_bind] in Ht; [|done|done].
  destruct (table_entries L S ds) as [es| |] eqn:Et; cbn [res_bind] in Ht; [|done|done].
  assert (entries = (target_cells L d0 l ++ u32_cells (Z.of_nat n) ++ [Byte (Z.of_nat (arity l))]) ++ es) as ->
    by congruence.
  destruct k as [|k].
  - injection Hk as <-. by exists [], es, l, n.
  - destruct (IH es k eq_refl Hk) as (pre & post & l' & n' & H1 & H2 & H3 & ->).
    exists ((target_cells L d0 l ++ u32_cells (Z.of_nat n) ++ [Byte (Z.of_nat (arity l))]) ++ pre), post, l', n'.
    split; [done|]. split; [done|]. split; [|by rewrite <- !app_assoc].
    rewrite !cells_size_app, H3. unfold u32_cells. rewrite cells_size_raw, length_le_bytes.
    assert (cells_size (target_cells L d0 l) = 4) as ->.
    { unfold target_cells. destruct (rl_loop l); [|done]. unfold u32_cells. by rewrite cells_size_raw, length_le_bytes. }
    change (cells_size [Byte _]) with 1. unfold WASM_TABLE_ENTRY_SIZE. lia.
Qed.

Lemma follow_br_table ref L A under S σ ls vs pos st targets default_ c S' :
  here ref L A under S σ ls vs pos st -> comp_br_table L pos S targets default_ = Ok (c, S') ->
  code_at pos (link ref fn c) ->
  follows B ref L under (pos + cells_size c) S' (exec_br_table A targets default_ σ ls vs) st.
Proof.
  intros Hh Hc Hcode. unfold comp_br_table in Hc.
  destruct (pops _ _ S) as [S1| |] eqn:Ep; cbn [res_bind] in Hc; [|done|done].
  destruct (table_entries _ _ _) as [es| |] eqn:Et; cbn [res_bind] in Hc; [|done|done]. apply Ok_pair in Hc as [-> ->].
  unfold exec_br_table. destruct (pop_val I32 vs) as [[key vs']|] eqn:Ev; [|none]. apply pop_val_Some in Ev as ->.
  here_facts Hh. pose proof (code_link_end _ _ _ Hcode) as Hend.
  pose proof (proj2 (table_entries_within (fun _ => True) _ _ _ _ Et)) as Hsize_es. rewrite length_app in Hsize_es. cbn [length] in Hsize_es.
  set (n := Z.of_nat (length targets)) in *.
  assert (op_cell WASM_OPCODE_BR_TABLE :: u32_cells n ++ u32_cells (pos + 14) ++
    opcode_cell WASM_OPCODE_DATA :: u32_cells ((n + 1) * WASM_TABLE_ENTRY_SIZE) ++ es =
    (op_cell WASM_OPCODE_BR_TABLE :: u32_cells n ++ u32_cells (pos + 14)) ++
    (opcode_cell WASM_OPCODE_DATA :: u32_cells ((n + 1) * WASM_TABLE_ENTRY_SIZE)) ++ es) as E
    by (by cbn [app]; rewrite <- !app_assoc).
  rewrite E in *. clear E. autorewrite with cells in Hend. rewrite Hsize_es in Hend.
  apply code_link_app in Hcode as [Hc1 Hc2]. apply code_link_app in Hc2 as [_ Hc2].
  autorewrite with cells in Hc2. replace (pos + (1 + (4 + 4)) + (1 + 4)) with (pos + 14) in Hc2 by lia.
  set (k := Z.min key n). pose proof (machine_head _ _ _ _ _ _ _ _ Hm) as (slot & Hhold & _).
  pose proof (holds_bits _ _ Hhold) as Hkey. cbn [val_type val_bits VALUE_TYPE] in Hkey. unfold in_u in Hkey.
  set (d := match zget targets key with Some d => d | None => default_ end) in *.
  assert ((targets ++ [default_]) !! Z.to_nat k = Some d) as Hd'.
  { unfold d, k. destruct (zget targets key) as [d'|] eqn:Ez.
    - apply zget_Some in Ez as [_ Ez]. pose proof (lookup_lt_Some _ _ _ Ez).
      rewrite Z.min_l by lia. by rewrite lookup_app_l.
    - unfold zget in Ez. destruct (Z.ltb_spec key 0); [lia|]. apply lookup_ge_None in Ez.
      rewrite Z.min_r by lia. rewrite lookup_app_r by lia. unfold n. rewrite Nat2Z.id, Nat.sub_diag. done. }
  destruct (table_entries_lookup _ _ _ _ _ _ Et Hd') as (pre & post & l & m & Hlab & Hdrop & Hpre & ->).
  destruct (pops_live _ _ _ _ Hv Ep) as [-> Hl1]. cbn [length] in *.
  assert (here ref L A under (drop 1 S) σ ls vs' pos (move st (st_top st - 1) pos)) as Hh1.
  { eapply here_after; [exact Hh|by apply all_values_drop|rewrite length_drop; cbn [length]; lia|].
    apply (machine_drop _ _ _ [mkVal I32 key] _ _ _ _ pos Hm). }
  unfold exec_branch in *. rewrite (arity_at _ _ _ _ _ _ (h_labels _ _ _ _ _ _ _ _ _ _ Hh) Hlab) in *.
  destruct (take_values (arity l) vs') as [kept|] eqn:Etk; [|none].
  destruct (branch_split _ _ _ _ _ _ _ _ _ _ _ _ _ _ Hh1 Hlab Hdrop Etk) as (dropped & Efr & <- & Hk).
  destruct (lo_label _ _ _ _ (h_labels _ _ _ _ _ _ _ _ _ _ Hh) _ _ Hlab) as (_ & _ & Ha & Hu).
  apply code_link_app in Hc2 as [_ Hc2]. rewrite Hpre in Hc2. apply code_link_app in Hc2 as [Hc2 _].
  rewrite !link_app, link_target in Hc2. unfold u32_cells in Hc2. rewrite link_raw, <- Hk in Hc2.
  cbn [follows]. eapply runs1_weaken.
  - eapply (run_br_table top e0 _ _ _ _ _ _ Hm key n (pos + 14) _ kept dropped (below l under ++ rev ls)).
    + cbn [app]. by rewrite Efr.
    + lia.
    + unfold op_cell, opcode_cell, u32_cells in Hc1. by rewrite link_cons, link_app, !link_raw in Hc1.
    + unfold in_u. lia.
    + unfold in_u. lia.
    + unfold WASM_TABLE_ENTRY_SIZE. lia.
    + rewrite Z2Nat.id in Hc2 by lia. exact Hc2.
    + exact Hu.
  - cbn [reaches]. intros st2 H2. exists l. split_and!; [done|done|done|exact H2].
  - intros r st' H'. exact H'.
Qed.

(** *** Calls *)

Lemma follow_exec_call n L ref under next S σ ls vs j sig f st : calls_ok n -> top <= Z.of_nat (length cs) ->
  in_body I j = Some (sig, f) -> all_values (result_types sig) -> all_values S ->
  length S = (length vs + length under + nlocals)%nat -> length ls = nlocals ->
  (length (param_types sig) <= length S)%nat ->
  machine σ low (vs ++ under ++ rev ls) (cs ++ [next]) (fn j) st ->
  follows (call_bound n) ref L under next (pushes (result_types sig) (drop (length (param_types sig)) S))
    (exec_call I (exec I n) j σ ls vs) st.
Proof.
  intros Hcalls Htop Hj Hres Hv Hl Hls Hps Hm. unfold exec_call. rewrite Hj.
  set (np := length (param_types sig)) in *.
  destruct (take_values np vs) as [args|] eqn:Et; [|none].
  apply take_values_Some in Et as (-> & Hnp & Hargs).
  rewrite <- (take_drop np vs) in Hm at 1. rewrite <- app_assoc in Hm.
  pose proof (Hcalls low _ cs next st j sig f σ (take np vs) Hj Hargs Htop Hm) as [Hr Hk]. cbn zeta in Hr, Hk.
  set (r := exec_body (exec I n) sig f σ (take np vs)) in *.
  assert (r = NoFuel \/ r <> NoFuel) as [E|Hnf] by (destruct r; (by left) || by right).
  { rewrite E. cbn [resume follows]. by apply Hk. }
  apply follows_settled; [by destruct r|]. intros Hns. eapply runs_weaken; [apply Hr| |].
  - by destruct r.
  - cbn beta. intros st' (σ' & res & E & Hlen & Hm'). rewrite E. cbn [resume reaches].
    pose proof (all_values_drop np _ Hv). split_and!; [by apply all_values_pushes|done| |by rewrite <- app_assoc].
    rewrite length_pushes, length_app, !length_drop by done. unfold np in *. lia.
  - intros x st' (σ' & E & He). rewrite E. by exists σ'.
Qed.

Lemma pops_each_live E ts S S1 : all_values S -> pops_each E ts S = Ok S1 -> pops E ts S = Ok S1.
Proof. intros Hv. unfold pops_each. by rewrite (all_values_dead S Hv). Qed.

Lemma follow_call n ref L A under S σ ls vs pos st index c S' : calls_ok n -> (forall k, B (Datatypes.S k) -> call_bound n k) -> top <= Z.of_nat (length cs) ->
  here ref L A under S σ ls vs pos st -> comp_call T (entry_of L) S index = Ok (c, S') ->
  code_at pos (link ref fn c) ->
  follows B ref L under (pos + cells_size c) S'
    (match in_func I index with Some j => exec_call I (exec I n) j σ ls vs | None => Outside end) st.
Proof.
  intros Hcalls HB Htop Hh Hc Hcode. here_facts Hh. unfold comp_call in Hc.
  destruct (t_func T index) as [[sig callee]|] eqn:Ef; cbn [value_or_crash res_bind] in Hc; [|done].
  destruct (pops_each _ _ S) as [S1| |] eqn:Ep; cbn [res_bind] in Hc; [|done|done]. apply Ok_pair in Hc as [-> ->].
  destruct (tr_func T HT _ _ _ Ef) as [Hres Hj]. destruct (in_func I index) as [j|]; [|none].
  destruct (Hj j eq_refl) as (Hcallee & f & Hbody). apply pops_each_live in Ep; [|done].
  destruct (pops_live _ _ _ _ Hv Ep) as [-> Hps].
  match type of Hcode with code_at _ (link _ _ ?cells) => assert (link ref fn cells =
    opcode_code WASM_OPCODE_CALL :: le_bytes 4 (fn j) /\ cells_size cells = 5) as [E ->] end.
  { destruct Hcallee as [-> | ->]; unfold op_cell, opcode_cell, u32_cells.
    - rewrite link_cons, link_raw. by rewrite cells_size_cons, cells_size_raw, length_le_bytes.
    - unfold link. cbn [map concat link_cell app]. by rewrite app_nil_r. }
  pose proof (code_link_end _ _ _ Hcode) as Hend.
  assert (Z.of_nat (length (link ref fn (match callee with
      | HostCallee i => opcode_cell WASM_OPCODE_CALL_HOST :: u32_cells i
      | CodeCallee offset => op_cell WASM_OPCODE_CALL :: u32_cells offset
      | LaterCallee i => [op_cell WASM_OPCODE_CALL; FuncRef i] end))) = 5) as Hlen5.
  { rewrite E. cbn [length]. by rewrite length_le_bytes. }
  rewrite length_link in Hlen5. rewrite Hlen5 in Hend. rewrite E in Hcode.
  eapply (follows_after1 (call_bound n)); [|exact HB|].
  - apply (run_call top e0 _ _ _ _ _ _ Hm (fn j) Hcode (fr_offset Hfuncs _ _ _ Hbody)). lia.
  - cbn beta. intros st' Hm'. by eapply follow_exec_call.
Qed.

Lemma follow_call_indirect n ref L A under S σ ls vs pos st sig_index c S' : calls_ok n -> (forall k, B (Datatypes.S k) -> call_bound n k) -> top <= Z.of_nat (length cs) ->
  here ref L A under S σ ls vs pos st -> comp_call_indirect T (entry_of L) S sig_index = Ok (c, S') ->
  code_at pos (link ref fn c) ->
  follows B ref L under (pos + cells_size c) S' (exec_call_indirect I (exec I n) sig_index σ ls vs) st.
Proof.
  intros Hcalls HB Htop Hh Hc Hcode. here_facts Hh. unfold comp_call_indirect in Hc.
  destruct (t_sig T sig_index) as [[si sig]|] eqn:Es; cbn [value_or_crash res_bind] in Hc; [|done].
  destruct (pops _ _ S) as [S1| |] eqn:Ep; cbn [res_bind] in Hc; [|done|done].
  destruct (pops_each _ _ S1) as [S2| |] eqn:Ep2; cbn [res_bind] in Hc; [|done|done]. apply Ok_pair in Hc as [-> ->].
  destruct (tr_sig T HT _ _ _ Es) as (Hres & Hin & Hsig & Hsi).
  unfold exec_call_indirect. rewrite Hin. destruct (in_table I) as [elements|] eqn:Etab; [|none].
  destruct (tr_table T HT _ Etab) as (Hti & table & Htab & Hels & Htok).
  destruct (pop_val I32 vs) as [[i vs']|] eqn:Ev; [|none]. apply pop_val_Some in Ev as ->.
  destruct (pops_live _ _ _ _ Hv Ep) as [-> Hl1]. cbn [length] in *. pose proof (all_values_drop 1 _ Hv) as Hv1.
  apply pops_each_live in Ep2; [|done]. destruct (pops_live _ _ _ _ Hv1 Ep2) as [-> Hps].
  pose proof (code_link_end _ _ _ Hcode) as Hend. unfold op_cell, opcode_cell, u32_cells in *.
  rewrite cells_size_cons, cells_size_app, !cells_size_raw, !length_le_bytes in *. cbn [cell_size] in *.
  rewrite link_cons, link_app, !link_raw in Hcode.
  change (1 + (Z.of_nat 4 + Z.of_nat 4)) with 9 in *.
  assert (forall x r, r = Trapped x σ -> forall st', env_rel e0 σ (st_env st') -> fails r x st') as Hfail
    by (intros x r -> st' He; by exists σ).
  match goal with |- follows _ _ _ _ _ _ ?r _ =>
    assert (r = Stuck \/ r = Outside \/ (r <> Stuck /\ r <> Outside)) as [Er|[Er|[Hno1 Hno2]]]
      by (case r; intros; auto; right; right; done) end; [rewrite Er; none|rewrite Er; none|].
  eapply (follows_after1 (call_bound n)); [|exact HB|intros st' Hr'; exact Hr'].
  eapply (run_call_indirect top e0 _ _ _ _ _ _ Hm (t_table T) table si sig i (vs' ++ under ++ rev ls) eq_refl Hcode);
    [done|done|lia|done|done|done|]. rewrite Hels. revert Hno1 Hno2.
  destruct (zget elements i) as [element|]; [|intros ? ?; by apply Hfail].
  destruct (decide (element = WASM_INVALID_INDEX)); [intros ? ?; by apply Hfail|].
  destruct (in_element_sig I element) as [sig'|] eqn:Ees; [|by intros []].
  destruct (fr_element Hfuncs _ _ Ees) as (f & Hf & Hfs). intros ? Hno.
  exists f, sig'. split; [done|]. split; [done|]. revert Hno.
  destruct (decide (sig' = sig)) as [->|]; [|intros ?; by apply Hfail].
  destruct (in_element I element) as [j|] eqn:Eel; [|by intros []].
  intros ?. destruct (fr_own Hfuncs _ _ Eel) as (f' & a & b & types & body & Hf' & Hfb & Hbody).
  assert (f' = f) as -> by congruence. exists (fn j), a, b, types. split; [done|]. intros st' Hm'.
  eapply (follow_exec_call n L ref under _ (drop 1 S) σ ls vs' j sig body); try done.
  - by apply Hbody.
  - rewrite length_drop. lia.
Qed.

(** *** Instructions with an index *)

Lemma follow_br ref L A under S σ ls vs pos st index c S' :
  here ref L A under S σ ls vs pos st -> comp_index T L pos S WASM_OPCODE_BR index = Ok (c, S') ->
  code_at pos (link ref fn c) ->
  follows B ref L under (pos + cells_size c) S' (exec_branch A index σ ls vs) st.
Proof.
  intros Hh Hc Hcode. cbn [comp_index] in Hc.
  destruct (label_at L index) as [l|] eqn:El; cbn [value_or_reject res_bind] in Hc; [|done].
  apply res_bind_Ok in Hc as (_ & _ & Hc).
  destruct (br_cells L index l S) as [cells| |] eqn:Eb; cbn [res_bind] in Hc; [|done|done]. apply Ok_pair in Hc as [-> ->].
  by eapply follow_branch.
Qed.

(** One operand less, when it is not below the block. *)
Lemma popped S E t S1 : all_values S -> pops E [t] S = Ok S1 ->
  all_values S1 /\ Datatypes.S (length S1) = length S.
Proof.
  intros Hv Hp. destruct (pops_live _ _ _ _ Hv Hp) as [-> Hl]. split; [by apply all_values_drop|].
  rewrite length_drop. cbn [length] in *. lia.
Qed.

Lemma follow_index n ref L A under S σ ls vs pos st op index c S' : calls_ok n -> (forall k, B (Datatypes.S k) -> call_bound n k) -> top <= Z.of_nat (length cs) ->
  here ref L A under S σ ls vs pos st -> comp_index T L pos S op index = Ok (c, S') ->
  code_at pos (link ref fn c) ->
  follows B ref L under (pos + cells_size c) S' (exec_index I (exec I n) A op index σ ls vs) st.
Proof.
  intros Hcalls HB Htop Hh Hc Hcode. pose proof (h_values _ _ _ _ _ _ _ _ _ _ Hh) as Hv.
  destruct op; try done; cbn [exec_index].
  - by eapply follow_br.
  - cbn [comp_index] in Hc. destruct (label_at L index) as [l|] eqn:El; cbn [value_or_reject res_bind] in Hc; [|done].
    by eapply follow_br_if.
  - by eapply follow_call.
  - cbn [comp_index] in Hc. destruct (zget (t_locals T) index) as [t|] eqn:El; cbn [value_or_reject res_bind] in Hc; [|done].
    apply Ok_pair in Hc as [-> ->]. by eapply follow_get_local.
  - cbn [comp_index] in Hc. destruct (zget (t_locals T) index) as [t|] eqn:El; cbn [value_or_reject res_bind] in Hc; [|done].
    destruct (pops _ _ S) as [S1| |] eqn:Ep; cbn [res_bind] in Hc; [|done|done]. apply Ok_pair in Hc as [-> ->].
    destruct (popped _ _ _ _ Hv Ep). by eapply follow_set_local.
  - cbn [comp_index] in Hc. destruct (zget (t_locals T) index) as [t|] eqn:El; cbn [value_or_reject res_bind] in Hc; [|done].
    apply res_bind_Ok in Hc as (_ & _ & Hc). apply res_bind_Ok in Hc as (_ & _ & Hc).
    apply res_bind_Ok in Hc as (_ & _ & Hc). apply Ok_pair in Hc as [-> ->].
    by eapply follow_tee_local.
  - cbn [comp_index] in Hc. destruct (t_global T index) as [[[g t] m]|] eqn:El; cbn [value_or_reject res_bind] in Hc; [|done].
    apply Ok_pair in Hc as [-> ->]. by eapply follow_get_global.
  - cbn [comp_index] in Hc. destruct (t_global T index) as [[[g t] m]|] eqn:El; cbn [value_or_reject res_bind] in Hc; [|done].
    apply res_bind_Ok in Hc as (_ & _ & Hc). destruct (pops _ _ S) as [S1| |] eqn:Ep; cbn [res_bind] in Hc; [|done|done]. apply Ok_pair in Hc as [-> ->].
    destruct (popped _ _ _ _ Hv Ep). by eapply follow_set_global.
Qed.

(** *** Blocks *)

(** One after the other. *)
Lemma follows_seq ref L A under mid next S1 S' r (k : Store -> list Val -> list Val -> Exec) st :
  labels_ok ref L A under -> follows B ref L under mid S1 r st ->
  (forall σ ls vs st', here ref L A under S1 σ ls vs mid st' -> follows B ref L under next S' (k σ ls vs) st') ->
  follows B ref L under next S' (match r with Normal σ ls vs => k σ ls vs | Branch d σ ls vs => Branch d σ ls vs
     | Returned σ vs => Returned σ vs | Trapped x σ => Trapped x σ | Stuck => Stuck | Outside => Outside | NoFuel => NoFuel end) st.
Proof.
  intros HL Hr Hk. destruct r as [σ ls vs|d σ ls vs|σ vs|x σ| | |]; try exact Hr.
  eapply follows_after.
  - eapply runs_weaken; [by apply (follows_runs _ _ _ _ _ _ _ Hr)|intros st' H'; exact H'|]. by intros x st' (? & ? & _).
  - intros st' (Hv & Hls & Hl & Hm). by apply Hk.
Qed.

Lemma follows_goto ref L A under mid next S' r st : labels_ok ref L A under -> follows B ref L under mid S' r st ->
  code_at mid (opcode_code WASM_OPCODE_BR :: le_bytes 4 next) -> in_u 32 next ->
  follows B ref L under next S' r st.
Proof.
  intros HL Hr Hc Hu.
  assert (r = match r with Normal σ ls vs => Normal σ ls vs | Branch d σ ls vs => Branch d σ ls vs
     | Returned σ vs => Returned σ vs | Trapped x σ => Trapped x σ | Stuck => Stuck | Outside => Outside | NoFuel => NoFuel end) as -> by (by destruct r).
  eapply follows_seq; [exact HL|exact Hr|]. intros σ ls vs st' Hh. here_facts Hh.
  apply follows_normal; [done|done|done|]. by apply runs1_runs; eapply run_goto.
Qed.

(** Entering a block. *)
Lemma enter ref ref' L A under l σ ls vs pos st : here ref L A under (rl_entry l) σ ls vs pos st ->
  (arity l <= 1)%nat -> in_u 32 (target_addr ref' (l :: L) 0 l) ->
  (forall m, (m < length L)%nat -> ref' m = ref m) ->
  here ref' (l :: L) (arity l :: A) (vs ++ under) (rl_entry l) σ ls [] pos st.
Proof.
  intros Hh Ha Hu Href. here_facts Hh. destruct (h_labels _ _ _ _ _ _ _ _ _ _ Hh) as [H1 H2].
  constructor; [|done|cbn [length]; rewrite length_app; lia|done|by rewrite <- app_assoc]. constructor; [by rewrite H1|].
  intros [|d] l' Hl'.
  - injection Hl' as <-. rewrite length_app. split_and!; [done|lia|lia|done|done].
  - cbn in Hl'. destruct (H2 d l' Hl') as (H3 & H4 & H5 & H6). pose proof (lookup_lt_Some _ _ _ Hl') as Hlt.
    rewrite length_app. split_and!; [done|lia|lia|done|].
    replace (target_addr ref' (l :: L) (Datatypes.S d) l') with (target_addr ref L d l'); [done|].
    unfold target_addr. destruct (rl_loop l'); [done|]. cbn [length]. rewrite Href by lia. f_equal. lia.
Qed.

(** Leaving it. *)
Lemma leave ref ref' L A under l S1 S' σ0 ls0 vs pos0 st0 next r st : here ref L A under (rl_entry l) σ0 ls0 vs pos0 st0 ->
  all_values (rl_sig l) -> finish (rl_entry l) (rl_sig l) S1 = Ok S' ->
  (rl_loop l = None /\ ref' (length L) = next \/ (forall σ ls vs, r <> Branch O σ ls vs)) ->
  (forall n, (n < length L)%nat -> ref' n = ref n) ->
  follows B ref' (l :: L) (vs ++ under) next S1 r st ->
  follows B ref L under next S' (leave_block vs r) st.
Proof.
  intros Hh Hs Hfin Hend Href Hr. here_facts Hh. destruct (finish_pushes _ _ _ _ Hfin) as [-> _].
  assert (forall st', reaches ref' (l :: L) (vs ++ under) next S1 r st' ->
    reaches ref L under next (pushes (rl_sig l) (rl_entry l)) (leave_block vs r) st') as Hk.
  { intros st' H'. eapply reaches_leave; [reflexivity|reflexivity|done|done|done|exact Hfin| |exact Hend|exact Href|exact H'].
    intros d l' Hl'. apply (lo_label _ _ _ _ (h_labels _ _ _ _ _ _ _ _ _ _ Hh) d l' Hl'). }
  assert (forall x st', fails r x st' -> fails (leave_block vs r) x st') as Hf by (intros x st' (σ & -> & He); by exists σ).
  destruct r as [σ ls vs'|[|d] σ ls vs'|σ vs'|x σ| | |]; try done.
  - intros _. eapply runs_weaken; [by apply Hr|exact Hk|exact Hf].
  - intros _. eapply runs_weaken; [apply runs1_runs, Hr|exact Hk|exact Hf].
  - eapply runs1_weaken; [exact Hr|exact Hk|exact Hf].
Qed.

Lemma set_ref_eq ref n addr : set_ref ref n addr n = addr.
Proof. unfold set_ref. by rewrite decide_True. Qed.

Lemma set_ref_lt ref n addr m : (m < n)%nat -> set_ref ref n addr m = ref m.
Proof. intros Hm. unfold set_ref. rewrite decide_False by lia. done. Qed.

End instructions.

(** *** All instructions *)

Section instr.
Context (ns nf : Z) (Htop : top <= Z.of_nat (length cs)).

(** An instruction with [depth i] blocks in one another takes that much fuel
    without a step of the machine, a round of a loop or a call of a body of depth
    [D] comes with one. *)
Definition instr_bound (d n k : nat) : Prop := (d + k * S D < n)%nat.

Definition follow_instr (n : nat) (i : BInstr) : Prop := forall ref L A under S σ ls vs pos st c S',
  here ref L A under S σ ls vs pos st -> ok_instr ns nf i = true -> comp T true L pos S i = Ok (c, S') ->
  code_at pos (link ref fn c) ->
  follows (instr_bound (depth i) n) ref L under (pos + cells_size c) S' (exec I n A (length (t_results T)) σ ls vs i) st.

Lemma follow_list n : (forall i, follow_instr n i) -> forall l ref L A under S σ ls vs pos st c S',
  here ref L A under S σ ls vs pos st -> forallb (ok_instr ns nf) l = true -> comps T true L pos S l = Ok (c, S') ->
  code_at pos (link ref fn c) ->
  follows (instr_bound (depths l) n) ref L under (pos + cells_size c) S' (exec_list (exec I n) A (length (t_results T)) σ ls vs l) st.
Proof.
  intros Hn l. induction l as [|i l IH]; intros ref L A under S σ ls vs pos st c S' Hh Hok Hc Hcode.
  - cbn [comps] in Hc. apply Ok_pair in Hc as [-> ->]. cbn [exec_list]. rewrite cells_size_nil, Z.add_0_r.
    here_facts Hh. apply follows_normal; [done|done|done|by apply runs_here].
  - cbn [comps] in Hc. apply res_bind_Ok in Hc as ([c1 S1] & E1 & Hc). apply res_bind_Ok in Hc as ([c2 S2] & E2 & Hc).
    apply Ok_pair in Hc as [-> ->]. cbn [forallb] in Hok. apply andb_true_iff in Hok as [Hok1 Hok2].
    apply code_link_app in Hcode as [Hc1 Hc2]. rewrite cells_size_app, Z.add_assoc. cbn [exec_list].
    eapply (follows_seq ref L A under (pos + cells_size c1) _ S1 _ (exec I n A (length (t_results T)) σ ls vs i)
      (fun σ ls vs => exec_list (exec I n) A (length (t_results T)) σ ls vs l));
      [apply (h_labels _ _ _ _ _ _ _ _ _ _ Hh)|eapply follows_bound; [by eapply Hn|]|].
    + intros k. unfold instr_bound. rewrite depths_cons. lia.
    + intros σ1 ls1 vs1 st1 Hh1. eapply follows_bound; [by eapply IH|].
      intros k. unfold instr_bound. rewrite depths_cons. lia.
Qed.

(** A body at whose end control gets to [addr], where its block ends. *)
Lemma follow_arm n ref L A under lab S1 S2 σ ls vs pos st addr body c : (forall i, follow_instr n i) ->
  here ref L A under (rl_entry lab) σ ls vs pos st -> forallb (ok_instr ns nf) body = true -> ok_sig (rl_sig lab) = true ->
  rl_loop lab = None -> comps T true (lab :: L) pos (rl_entry lab) body = Ok (c, S1) ->
  finish (rl_entry lab) (rl_sig lab) S1 = Ok S2 -> in_u 32 addr ->
  let ref' := set_ref ref (length L) addr in
  code_at pos (link ref' fn c) ->
  pos + cells_size c = addr \/ code_at (pos + cells_size c) (opcode_code WASM_OPCODE_BR :: le_bytes 4 addr) ->
  follows (instr_bound (depths body) n) ref L under addr S2
    (leave_block vs (exec_list (exec I n) (arity lab :: A) (length (t_results T)) σ ls [] body)) st.
Proof.
  intros Hn Hh Hbody Hsig Hloop E1 E2 Hu ref' Hcode Hnext. destruct (ok_sig_values _ Hsig) as [Hs1 Hs2].
  assert (here ref' (lab :: L) (arity lab :: A) (vs ++ under) (rl_entry lab) σ ls [] pos st) as Hh1.
  { apply (enter ref ref' L A under lab); [exact Hh|by unfold arity; rewrite Hloop| |apply set_ref_lt].
    unfold target_addr. rewrite Hloop. cbn [length]. replace (Datatypes.S (length L) - 1 - 0)%nat with (length L) by lia.
    unfold ref'. by rewrite set_ref_eq. }
  eapply (leave ref ref' L A under lab);
    [exact Hh|done|exact E2|left; split; [done|apply set_ref_eq]|apply set_ref_lt|].
  pose proof (follow_list n Hn body _ _ _ _ _ _ _ _ _ _ _ _ Hh1 Hbody E1 Hcode) as Hr.
  destruct Hnext as [Hnext|Hnext]; [by rewrite Hnext in Hr|].
  eapply follows_goto; [apply (h_labels _ _ _ _ _ _ _ _ _ _ Hh1)|exact Hr|exact Hnext|exact Hu].
Qed.

Lemma instr_bound_in d d' n k : (d < d')%nat -> instr_bound d' (1 + n) k -> instr_bound d n k.
Proof. unfold instr_bound. lia. Qed.

Lemma follow_block n sig body : (forall i, follow_instr n i) -> follow_instr (1 + n) (BI_BLOCK sig body).
Proof.
  intros Hn ref L A under S σ ls vs pos st c S' Hh Hok Hc Hcode. cbn [ok_instr] in Hok. apply andb_true_iff in Hok as [Hsig Hbody].
  rewrite comp_block in Hc.
  apply res_bind_Ok in Hc as ([c1 S1] & E1 & Hc). apply res_bind_Ok in Hc as (S2 & E2 & Hc). apply Ok_pair in Hc as [-> ->].
  rewrite cells_size_resolve by done. rewrite link_resolve in Hcode.
  pose proof (code_link_end _ _ _ Hcode) as Hend. pose proof (cells_size_nonneg c1). cbn [exec Nat.add].
  eapply (follows_bound (instr_bound (depths body) n)); [|intros k; apply instr_bound_in; cbn [depth]; unfold depths; lia].
  eapply (follow_arm n ref L A under (mkRLabel None sig S)); try done; [unfold in_u; lia|by left].
Qed.

Lemma br_unless_size pos cells : cells_size (br_unless pos cells) = 5 + cells_size cells.
Proof. unfold br_unless. autorewrite with cells. lia. Qed.

Lemma if_split {B} n ref L A under S E0 σ ls vs pos st addr cells S' k (arm : bool -> list BInstr) (sig : list WasmType) :
  here ref L A under S σ ls vs pos st -> pops (entry_of L) [WASM_TYPE_I32] S = Ok E0 ->
  code_at pos (link (set_ref ref (length L) addr) fn (br_unless pos cells)) ->
  (forall c vs st', let z := c =? 0 in
   here ref L A under E0 σ ls vs (if z then pos + 5 + cells_size cells else pos + 5) st' ->
   code_at (pos + 5) (link (set_ref ref (length L) addr) fn cells) ->
   follows B ref L under addr S'
     (leave_block vs (exec_list (exec I n) (length sig :: A) k σ ls [] (arm z))) st') ->
  follows B ref L under addr S'
    (match pop_val I32 vs with
     | Some (c, vs) => leave_block vs (exec_list (exec I n) (length sig :: A) k σ ls [] (arm (c =? 0)))
     | None => Stuck
     end) st.
Proof.
  intros Hh Ep Hc Harm. destruct (pop_val I32 vs) as [[b vs']|] eqn:Ev; [|none]. apply pop_val_Some in Ev as ->.
  destruct (follow_br_unless _ _ _ _ _ _ _ _ _ _ _ _ _ _ Hh Ep Hc) as [Hc1 Hr].
  eapply follows_after; [apply Hr|]. intros st' Hh'. by apply (Harm b vs' st' Hh').
Qed.

Lemma follow_if n sig ts fs : (forall i, follow_instr n i) -> follow_instr (1 + n) (BI_IF sig ts fs).
Proof.
  intros Hn ref L A under S σ ls vs pos st c S' Hh Hok Hc Hcode. cbn [ok_instr] in Hok.
  apply andb_true_iff in Hok as [[Hsig Hts]%andb_true_iff Hfs].
  rewrite comp_if in Hc. apply res_bind_Ok in Hc as (E0 & Ep & Hc). apply res_bind_Ok in Hc as ([c1 S1] & E1 & Hc).
  set (lab := mkRLabel None sig E0) in *. pose proof (cells_size_nonneg c1). cbn [exec Nat.add]. destruct fs as [|f fs].
  - apply res_bind_Ok in Hc as (S2 & E2 & Hc). apply res_bind_Ok in Hc as ([] & E3%reject_Ok & Hc). apply Ok_pair in Hc as [-> ->].
    cbn [andb negb] in E3. apply negb_false_iff, bool_decide_eq_true in E3.
    rewrite cells_size_resolve by done. rewrite link_resolve in Hcode.
    pose proof (code_link_end _ _ _ Hcode) as Hend. rewrite br_unless_size in *.
    replace (pos + (5 + cells_size c1)) with (pos + 5 + cells_size c1) by lia.
    apply (if_split n ref L A under S E0 σ ls vs pos st _ c1 S2 _ (fun z => if z then [] else ts) sig Hh Ep Hcode).
    intros b vs' st' z Hh' Hc1. destruct z.
    + cbn [exec_list leave_block app]. here_facts Hh'. rewrite (proj1 (finish_pushes _ _ _ _ E2)), E3.
      change (pushes [] E0) with (if dead E0 then E0 else E0). rewrite Hd.
      apply follows_normal; [done|done|done|by apply runs_here].
    + eapply follows_bound; [eapply (follow_arm n ref L A under lab); try done; [unfold in_u; lia|by left]|].
      intros k. apply instr_bound_in; cbn [depth]; unfold depths; lia.
  - set (fs' := f :: fs) in *. apply res_bind_Ok in Hc as ([] & _ & Hc). apply res_bind_Ok in Hc as (u & E2 & Hc).
    apply res_bind_Ok in E2 as (S2 & E2 & _). apply res_bind_Ok in Hc as ([c2 S3] & E3 & Hc).
    apply res_bind_Ok in Hc as (S4 & E4 & Hc). apply Ok_pair in Hc as [-> ->].
    assert (S2 = S4) as -> by (by rewrite (proj1 (finish_pushes _ _ _ _ E2)), (proj1 (finish_pushes _ _ _ _ E4))).
    set (addr := pos + 10 + cells_size c1 + cells_size c2) in *. pose proof (cells_size_nonneg c2).
    rewrite cells_size_resolve by done. rewrite link_resolve in Hcode. pose proof (code_link_end _ _ _ Hcode) as Hend.
    assert (forall x, cells_size (c1 ++ jump_over x) = cells_size c1 + 5) as Hj
      by (intros x; rewrite cells_size_app; unfold jump_over; by autorewrite with cells).
    rewrite cells_size_app, br_unless_size, Hj in *. replace (pos + (5 + (cells_size c1 + 5) + cells_size c2)) with addr in * by lia.
    apply code_link_app in Hcode as [Hc1 Hc2]. rewrite br_unless_size, Hj in Hc2.
    apply (if_split n ref L A under S E0 σ ls vs pos st _ _ S4 _ (fun z => if z then fs' else ts) sig Hh Ep Hc1).
    intros b vs' st' z Hh' Hc3. rewrite Hj in Hh'. apply code_link_app in Hc3 as [Hc3 Hc4]. destruct z.
    + replace (pos + 5 + (cells_size c1 + 5)) with (pos + 10 + cells_size c1) in Hh' by lia.
      replace (pos + (5 + (cells_size c1 + 5))) with (pos + 10 + cells_size c1) in Hc2 by lia.
      eapply follows_bound; [eapply (follow_arm n ref L A under lab); try done; [unfold in_u; lia|by left]|].
      intros k. apply instr_bound_in; cbn [depth]; unfold depths; lia.
    + eapply (follows_bound (instr_bound (depths ts) n)); [|intros k; apply instr_bound_in; cbn [depth]; unfold depths; lia].
      eapply (follow_arm n ref L A under lab); try done; [unfold in_u; lia|]. right.
      unfold jump_over, op_cell, opcode_cell, u32_cells in Hc4. by rewrite link_cons, link_raw in Hc4.
Qed.

Lemma follow_loop n sig body : (forall i, follow_instr n i) -> follow_instr (1 + n) (BI_LOOP sig body).
Proof.
  intros Hn ref L A under S σ ls vs pos st c S' Hh Hok Hc0 Hcode. pose proof Hok as Hok0. cbn [ok_instr] in Hok.
  apply andb_true_iff in Hok as [Hsig Hbody].
  destruct (ok_sig_values _ Hsig) as [Hs1 Hs2]. pose proof Hc0 as Hc. rewrite comp_loop in Hc.
  apply res_bind_Ok in Hc as ([c1 S1] & E1 & Hc). apply res_bind_Ok in Hc as (S2 & E2 & Hc). apply Ok_pair in Hc as [-> ->].
  pose proof (code_link_end _ _ _ Hcode) as Hend. pose proof (cells_size_nonneg c1).
  set (lab := mkRLabel (Some pos) sig S) in *. cbn [exec Nat.add].
  assert (here ref (lab :: L) (0%nat :: A) (vs ++ under) S σ ls [] pos st) as Hh1.
  { apply (enter ref ref L A under lab); [exact Hh|cbn; lia| |done]. unfold target_addr. cbn [rl_loop lab]. unfold in_u. lia. }
  pose proof (follow_list n Hn body _ _ _ _ _ _ _ _ _ _ _ _ Hh1 Hbody E1 Hcode) as Hr.
  set (r := exec_list _ _ _ _ _ _ _) in *.
  assert ((exists σ' ls' vs', r = Branch 0 σ' ls' vs') \/ (forall σ ls vs, r <> Branch 0 σ ls vs)) as [(σ' & ls' & vs' & E)|Hno].
  { destruct r as [| [|d] σ' ls' vs'| | | | |]; try by right. by left; exists σ', ls', vs'. }
  - rewrite E in *. cbn [follows] in Hr.
    eapply (follows_after1 (instr_bound (depth (BI_LOOP sig body)) n));
      [eapply runs1_weaken; [exact Hr|intros st' H'; exact H'|by intros x st' (? & ? & _)]| |].
    { intros k. unfold instr_bound. lia. }
    intros st' (l' & Hl' & Hls' & Hvs' & Hm'). injection Hl' as <-. cbn in Hvs'. destruct vs'; [|done].
    unfold target_addr in Hm'. cbn [rl_loop lab app] in Hm'. here_facts Hh. unfold below in Hm'. cbn [rl_entry lab] in Hm'.
    rewrite length_app in Hm'. replace (length vs + length under - _)%nat with 0%nat in Hm' by lia.
    rewrite drop_0, <- app_assoc in Hm'.
    refine (Hn (BI_LOOP sig body) ref L A under S σ' ls' vs pos st' c1 S2 _ Hok0 Hc0 Hcode).
    constructor; [apply (h_labels _ _ _ _ _ _ _ _ _ _ Hh)|done|done|done|done].
  - match goal with |- follows _ _ _ _ _ _ ?e _ => assert (e = leave_block vs r) as -> end.
    { clearbody r. destruct r as [| [|d] σ' ls' vs'| | | | |]; try done. by destruct (Hno σ' ls' vs'). }
    eapply (follows_bound (instr_bound (depths body) n)); [|intros k; apply instr_bound_in; cbn [depth]; unfold depths; lia].
    by eapply (leave ref ref L A under lab); [exact Hh|done|exact E2|by right|done|].
Qed.

Lemma follow_fuel n : calls_ok n -> (forall i, follow_instr n i) -> forall i, follow_instr (1 + n) i.
Proof.
  intros Hcalls Hn i. destruct i as [op|sig body|sig body|sig ts fs|op index|targets default_|sig_index|k|op log2 offset|op];
    [|by apply follow_block|by apply follow_loop|by apply follow_if|..];
    intros ref L A under S σ ls vs pos st c S' Hh Hok Hc Hcode; cbn [exec Nat.add comp ok_instr] in *.
  - by eapply follow_op.
  - apply res_bind_Ok in Hc as (u & _ & Hc). eapply (follow_index n); try done. intros k. unfold instr_bound, call_bound. lia.
  - by eapply follow_br_table.
  - eapply (follow_call_indirect n); try done. intros k. unfold instr_bound, call_bound. lia.
  - injection Hc as Hc. by eapply follow_const.
  - apply andb_true_iff in Hok as [_ Ho]. apply bool_decide_eq_true in Ho. by eapply follow_memory.
  - by eapply follow_reserved.
Qed.

(** *** A body as a whole *)

(** The callee's frame: its arguments are the first locals, the others are
    zero. *)
Lemma follow_enter_body f σ args pos st : length args = (nlocals - length (expand_locals (bf_locals f)))%nat ->
  (length (expand_locals (bf_locals f)) <= nlocals)%nat -> Z.of_nat nlocals < 2 ^ 32 ->
  let alloca := match bf_locals f with
                | [] => []
                | _ => opcode_cell WASM_OPCODE_ALLOCA :: u32_cells (Z.of_nat (length (expand_locals (bf_locals f))))
                end in
  machine σ low args cs pos st ->
  forall ref, code_at pos (link ref fn alloca) ->
  forall R, runs st (machine σ low (rev (rev args ++ map zero_val (body_locals f))) cs (pos + cells_size alloca)) R.
Proof.
  intros Hargs Hle Hn alloca Hm ref Hc R. rewrite rev_app_distr, rev_involutive.
  change (body_locals f) with (expand_locals (bf_locals f)) in *. unfold alloca in *. destruct (bf_locals f) as [|r l] eqn:El.
  - apply runs_here. by rewrite cells_size_nil, Z.add_0_r.
  - unfold opcode_cell, u32_cells in *. rewrite link_cons, link_raw in Hc. autorewrite with cells.
    set (zs := rev (map zero_val (expand_locals (r :: l)))).
    assert (length zs = length (expand_locals (r :: l))) as Hz by (unfold zs; by rewrite length_rev, length_map).
    rewrite <- Hz in *. eapply (run_alloca top e0 _ _ _ _ _ _ Hm zs); [|exact Hc|unfold in_u; lia].
    unfold zs. apply Forall_rev, Forall_forall. intros v Hv. apply list_elem_of_In, in_map_iff in Hv as (t & <- & _).
    apply holds_zero.
Qed.

(** Falling off the end of a body, or branching there. *)
Lemma follow_end_body σ ls vs pos st ref : length ls = nlocals -> length vs = length (t_results T) ->
  machine σ low (vs ++ rev ls) cs pos st ->
  code_at pos (link ref fn (drop_keep nlocals (length (t_results T)) ++ [op_cell WASM_OPCODE_RETURN])) ->
  forall R, runs st (fun st' => exists pc, code_at pc [opcode_code WASM_OPCODE_RETURN] /\ machine σ low vs cs pc st') R.
Proof.
  intros Hls Hvs Hm Hc R. apply code_link_app in Hc as [Hc1 Hc2]. destruct (tr_results T HT) as [_ Hres].
  rewrite <- Hvs, <- Hls, <- (length_rev ls) in Hc1. rewrite <- Hvs, <- Hls, <- (length_rev ls) in Hc2.
  rewrite <- (app_nil_r (rev ls)) in Hm.
  eapply runs_weaken; [apply (follow_drop_keep ref σ vs (rev ls) [] pos st (fun _ _ => False) Hm); [lia|exact Hc1]| |done].
  cbn beta. intros st' Hm'. rewrite app_nil_r in Hm'. eexists. split; [exact Hc2|exact Hm'].
Qed.

Definition body_label : RLabel := mkRLabel None (t_results T) (rev (t_locals T)).

Lemma here_body σ ls pos st addr : length ls = nlocals -> in_u 32 addr -> machine σ low (rev ls) cs pos st ->
  here (set_ref (fun _ => 0) 0 addr) [body_label] [length (t_results T)] [] (rev (t_locals T)) σ ls [] pos st.
Proof.
  intros Hls Hu Hm. destruct (tr_results T HT) as [_ Hres].
  assert (all_values (rev (t_locals T))) as Hrl by (apply Forall_rev, (tr_locals T HT)).
  constructor; [|done|by rewrite length_rev|done|done]. constructor; [done|]. intros [|d] l Hl; [|done].
  injection Hl as <-. cbn [rl_entry body_label length]. rewrite length_rev. split_and!; [done|lia|lia|done|].
  unfold target_addr. cbn. by rewrite set_ref_eq.
Qed.

(** The answer [r] of a body, when the machine is at a return with its
    results. *)
Definition returning (r : Exec) (st' : State) : Prop := exists σ' res pc,
  r = Returned σ' res /\ length res = length (t_results T) /\
  code_at pc [opcode_code WASM_OPCODE_RETURN] /\ machine σ' low res cs pc st'.

Lemma reaches_end ref ref2 next S' r st : ref 0%nat = next ->
  code_at next (link ref2 fn (drop_keep nlocals (length (t_results T)) ++ [op_cell WASM_OPCODE_RETURN])) ->
  reaches ref [body_label] [] next S' r st -> let r' := leave_body (length (t_results T)) r in answered r' ->
  runs st (returning r') (fails r').
Proof.
  intros Href Hc Hr r' Hns.
  assert (forall σ' ls vs, length ls = nlocals -> length vs = length (t_results T) -> r' = Returned σ' vs ->
    machine σ' low (vs ++ rev ls) cs next st -> runs st (returning r') (fails r')) as Hout.
  { intros σ' ls vs Hl1 Hl2 E Hm. eapply runs_weaken; [eapply (follow_end_body _ _ _ _ _ _ Hl1 Hl2 Hm Hc (fun _ _ => False))| |done].
    cbn beta. intros st' (pc & Hpc & Hm'). by exists σ', vs, pc. }
  unfold r' in *. clear r'.
  destruct r as [σ' ls vs|d σ' ls vs|σ' vs|x σ'| | |]; cbn [leave_body reaches] in *; try done.
  - destruct Hr as (_ & Hl1 & _ & Hm). destruct (Nat.eqb_spec (length vs) (length (t_results T))) as [Hk|]; [|done].
    by eapply Hout.
  - destruct Hr as (l & Hl & Hl1 & Hl2 & Hm). destruct d as [|d]; [|done]. injection Hl as <-.
    unfold target_addr in Hm. cbn [rl_loop body_label length] in Hm. unfold below in Hm. rewrite drop_nil in Hm.
    change (ref (1 - 1 - 0)%nat) with (ref 0%nat) in Hm. rewrite Href in Hm. by eapply Hout.
  - destruct Hr as [Hl1 (pc & Hpc & Hm)]. apply runs_here. by exists σ', vs, pc.
Qed.

Lemma follow_function n params f σ args pos code st : (forall i, follow_instr n i) ->
  t_locals T = params ++ expand_locals (bf_locals f) -> length args = length params -> Z.of_nat nlocals < 2 ^ 32 ->
  forallb (ok_instr ns nf) (bf_body f) = true -> (depths (bf_body f) <= D)%nat -> comp_body T true pos f = Ok code ->
  code_at pos (link (fun _ => 0) fn code) -> machine σ low args cs pos st ->
  let k := length (t_results T) in
  let r := leave_body k (exec_list (exec I n) [k] k σ (rev args ++ map zero_val (body_locals f)) [] (bf_body f)) in
  (answered r -> runs st (returning r) (fails r)) /\ (r = NoFuel -> forall k, call_bound n k -> takes top k st).
Proof.
  intros Hn Hloc Hargs Hnl Hok Hdepth Hc Hcode Hm k r. unfold comp_body in Hc.
  apply res_bind_Ok in Hc as ([c S1] & E1 & Hc). apply res_bind_Ok in Hc as (S2 & E2 & Hc).
  injection Hc as <-. set (alloca := match bf_locals f with [] => [] | _ => _ end) in *.
  set (pos1 := pos + cells_size alloca) in *. set (addr := pos1 + cells_size c) in *.
  pose proof (code_link_end _ _ _ Hcode) as Hend. pose proof (cells_size_nonneg alloca). pose proof (cells_size_nonneg c).
  rewrite link_app, link_resolve in Hcode.
  apply code_at_app in Hcode as [Hc1 Hc3]. apply code_link_app in Hc1 as [Hc1 Hc2].
  rewrite length_link, cells_size_app, Z.add_assoc, length_rev in Hc3. fold pos1 in Hc2, Hc3. fold addr in Hc3.
  rewrite cells_size_app, cells_size_resolve, cells_size_app in Hend by done.
  pose proof (cells_size_nonneg (drop_keep (length (rev (t_locals T))) (length (t_results T)) ++ [op_cell WASM_OPCODE_RETURN])).
  assert (length (expand_locals (bf_locals f)) <= nlocals)%nat as Hle by (rewrite Hloc, length_app; lia).
  assert (length args = nlocals - length (expand_locals (bf_locals f)))%nat as Ha by (rewrite Hloc, length_app; lia).
  assert (length (rev args ++ map zero_val (body_locals f)) = nlocals) as Hls.
  { change (body_locals f) with (expand_locals (bf_locals f)). rewrite length_app, length_rev, length_map. lia. }
  pose proof (follow_enter_body f σ args pos st Ha Hle Hnl Hm _ Hc1) as Henter. cbn zeta in Henter. fold alloca pos1 in Henter.
  assert (forall st1, machine σ low (rev (rev args ++ map zero_val (body_locals f))) cs pos1 st1 ->
    follows (instr_bound (depths (bf_body f)) n) (set_ref (fun _ => 0) 0 addr) [body_label] [] addr S1
      (exec_list (exec I n) [k] k σ (rev args ++ map zero_val (body_locals f)) [] (bf_body f)) st1) as Hf.
  { intros st1 Hm1. pose proof (here_body _ _ pos1 st1 addr Hls ltac:(unfold in_u; lia) Hm1) as Hh.
    eapply (follow_list n Hn (bf_body f)); [exact Hh|exact Hok|exact E1|exact Hc2]. }
  set (e := exec_list _ _ _ _ _ _ _) in *. split; intros Hns.
  - eapply runs_bind; [apply Henter|]. cbn beta. intros st1 Hm1.
    eapply runs_bind; [eapply runs_weaken; [apply (follows_runs _ _ _ _ _ _ _ (Hf st1 Hm1))|intros st' H'; exact H'|]|].
    + unfold r in Hns. by destruct e.
    + intros x st' (σ' & E & He). exists σ'. unfold r. by rewrite E.
    + cbn beta. intros st2 Hr. by eapply reaches_end; [|exact Hc3|exact Hr|].
  - assert (e = NoFuel) as En.
    { unfold r in Hns. destruct e as [? ? vs| [|d] | | | | |]; cbn [leave_body] in Hns; try done. by destruct (_ =? _)%nat in Hns. }
    rewrite En in Hf. intros m Hm'. eapply takes_after; [apply (Henter (fun _ _ => False))|auto|].
    intros st1 Hm1. apply (Hf st1 Hm1). unfold call_bound, instr_bound in *. lia.
Qed.
End instr.

End body.
(** ** Functions *)

(** Each function's translation is in the instructions at its address. *)
Definition linked (ns nf : Z) : Prop := forall j sig f, in_body I j = Some (sig, f) ->
  exists T code, target_rel T /\ t_locals T = param_types sig ++ expand_locals (bf_locals f) /\
    t_results T = result_types sig /\ Z.of_nat (length (t_locals T)) < 2 ^ 32 /\
    forallb (ok_instr ns nf) (bf_body f) = true /\ (depths (bf_body f) <= D)%nat /\ comp_body T true (fn j) f = Ok code /\
    code_at (fn j) (link (fun _ => 0) fn code).
Context (ns nf : Z) (Hlinked : linked ns nf).

(** What is below a frame can count as part of the stack below. *)
Lemma machine_rebase σ low args fr cs pc st : machine σ low (args ++ fr) cs pc st ->
  exists slots, Forall2 holds slots (rev fr) /\ machine σ (low ++ slots) args cs pc st.
Proof.
  intros [H1 H2 (slots & Hs & Hh) H4 H5 H6]. rewrite rev_app_distr in Hh.
  apply Forall2_app_inv_r in Hh as (s1 & s2 & Hh1 & Hh2 & ->). exists s1. split; [done|].
  constructor; try done. exists s2. by rewrite <- app_assoc.
Qed.

Lemma machine_unbase σ low slots args fr cs pc st : Forall2 holds slots (rev fr) ->
  machine σ (low ++ slots) args cs pc st -> machine σ low (args ++ fr) cs pc st.
Proof.
  intros Hfr [H1 H2 (s & Hs & Hh) H4 H5 H6]. constructor; try done. exists (slots ++ s).
  rewrite app_assoc, rev_app_distr. split; [done|by apply Forall2_app].
Qed.

Definition instrs_ok (n : nat) : Prop := forall T low cs i, target_rel T -> top <= Z.of_nat (length cs) ->
  follow_instr T low cs ns nf n i.

Lemma run_function n j sig f σ args low cs st : instrs_ok n -> top <= Z.of_nat (length cs) ->
  in_body I j = Some (sig, f) -> length args = length (param_types sig) -> machine σ low args cs (fn j) st ->
  let r := exec_body (exec I n) sig f σ args in
  (answered r ->
   runs st (fun st' => exists σ' res pc, r = Returned σ' res /\ length res = length (result_types sig) /\
                      code_at pc [opcode_code WASM_OPCODE_RETURN] /\ machine σ' low res cs pc st') (fails r)) /\
  (r = NoFuel -> forall k, call_bound n k -> takes top k st).
Proof.
  intros Hn Htop Hj Hargs Hm. destruct (Hlinked j sig f Hj) as (T & code & HT & Hloc & Hres & Hsmall & Hok & Hdepth & Hc & Hcode).
  pose proof (follow_function T HT low cs ns nf n (param_types sig) f σ args (fn j) code st
    (fun i => Hn T low cs i HT Htop) Hloc Hargs Hsmall Hok Hdepth Hc Hcode Hm) as Hr.
  cbn zeta in Hr. unfold returning in Hr. rewrite Hres in Hr. exact Hr.
Qed.

Lemma calls_follow n : instrs_ok n -> calls_ok n.
Proof.
  intros Hn low fr cs back st j sig f σ args Hj Hargs Htop Hm r.
  destruct (machine_rebase _ _ _ _ _ _ _ Hm) as (slots & Hfr & Hm1).
  assert (top <= Z.of_nat (length (cs ++ [back]))) as Htop1 by (rewrite length_app; lia).
  destruct (run_function n j sig f σ args _ _ st Hn Htop1 Hj Hargs Hm1) as [Hr Hk]. split; [|exact Hk]. intros Hns.
  eapply runs_bind; [by apply Hr|]. cbn beta. intros st' (σ' & res & pc & E & Hlen & Hpc & Hm').
  eapply runs_weaken; [eapply (run_return top e0 _ _ _ _ _ _ Hm' cs back eq_refl Htop Hpc (fun _ _ => False))| |done].
  cbn beta. intros st2 Hm2. exists σ', res. split; [exact E|]. split; [exact Hlen|]. by eapply machine_unbase.
Qed.

Lemma instrs_follow n : instrs_ok n.
Proof.
  induction n as [|n IH]; intros T low cs i HT Htop.
  - intros ref L A under S σ ls vs pos st c S' _ _ _ _ k Hk. unfold instr_bound in Hk. lia.
  - apply (follow_fuel T HT low cs ns nf Htop n); [by apply calls_follow|]. intros i'. by apply IH.
Qed.

(** The outermost call: where [call_stack_top] is [top], a return leaves the
    loop. *)
Definition answers (r : Exec) (low cs : list Z) (x : WasmInterpreterResult) (st' : State) : Prop :=
  match r with
  | Returned σ res => x = WASM_INTERPRETER_RETURNED /\ exists pc, machine σ low res cs pc st'
  | Trapped y σ => x = y /\ env_rel e0 σ (st_env st')
  | _ => False
  end.

Lemma run_outermost n j sig f σ args low cs st : Z.of_nat (length cs) = top ->
  in_body I j = Some (sig, f) -> length args = length (param_types sig) -> machine σ low args cs (fn j) st ->
  let r := call I n j σ args in answered r ->
  runs st (fun _ => False) (answers r low cs).
Proof.
  intros Htop Hj Hargs Hm r Hns.
  assert (r = exec_body (exec I n) sig f σ args) as E0 by (unfold r, call; by rewrite Hj).
  rewrite E0 in *. clear E0 r.
  eapply runs_bind.
  - eapply runs_weaken; [apply (run_function n j sig f σ args low cs st (instrs_follow n) ltac:(lia) Hj Hargs Hm), Hns| |].
    + intros st' H'. exact H'.
    + intros x st' (σ' & E & He). by rewrite E.
  - cbn beta. intros st' (σ' & res & pc & E & Hlen & Hpc & Hm'). rewrite E.
    eapply runs_weaken; [eapply (run_return_top top e0 _ _ _ _ _ _ Hm' Htop Hpc (fun _ => False))|done|].
    intros x st2 [-> Hm2]. split; [done|]. by eexists.
Qed.
(** A call that is not over takes as many instructions as its fuel stands
    for. *)
Lemma run_unfinished n j sig f σ args low cs st : Z.of_nat (length cs) = top ->
  in_body I j = Some (sig, f) -> length args = length (param_types sig) -> machine σ low args cs (fn j) st ->
  call I n j σ args = NoFuel -> forall k, call_bound n k -> takes top k st.
Proof.
  intros Htop Hj Hargs Hm E. unfold call in E. rewrite Hj in E.
  by apply (run_function n j sig f σ args low cs st (instrs_follow n) ltac:(lia) Hj Hargs Hm).
Qed.
End simulation.
