(* ===== verification/Soundness.v ===== *)
(** * Code that passes the type checks does not get stuck

    Types for the evaluator's values and stores, and the proof that code the
    structured translation accepts, with the checks the loader lacks ([strict]), only
    ever finds operands that are there and of the types it asks for: [exec]
    keeps values, locals and the store typed and is never [Stuck]. *)

From S2P Require Import Prelude Opcode Ast BinaryReader BinaryFormat Float Numeric Interp InterpFacts InterpOps InterpControl BinaryReaderInterpreter Compile CompileFacts RoundTrip CompileBody Structured MachineRun CompileRun.

(** ** Typed values *)

Record typed (t : WasmType) (v : Val) : Prop := {
  ty_type : val_type v = of_wasm_type t;
  ty_bits : in_u (VALUE_TYPE (val_type v)) (val_bits v)
}.

Abbreviation all_typed := (Forall2 typed).

(** The memories are well formed, and the globals have the types [Γ]. *)
Record store_ok (Γ : list WasmType) (σ : Store) : Prop := {
  so_memories : Forall mem_ok (s_memories σ);
  so_globals : all_typed Γ (s_globals σ)
}.

Lemma typed_bits t b : in_u (VALUE_TYPE (of_wasm_type t)) b -> typed t (mkVal (of_wasm_type t) b).
Proof. by split. Qed.

Lemma typed_wrap t b : typed t (mkVal (of_wasm_type t) (wrap (VALUE_TYPE (of_wasm_type t)) b)).
Proof. apply typed_bits, wrap_in_u. by destruct (of_wasm_type t). Qed.

Lemma typed_zero t : typed t (zero_val t).
Proof. apply typed_bits. unfold in_u. by destruct (of_wasm_type t). Qed.

Lemma pop_typed t v vs : typed t v -> pop_val (of_wasm_type t) (v :: vs) = Some (val_bits v, vs).
Proof. intros [Ht _]. cbn [pop_val]. by rewrite decide_True. Qed.

(** Operands [ts], the last one on top, of code that is reached. *)
Lemma pops_typed E ts Sv S1 vs : all_values (Sv ++ E) -> pops E ts (Sv ++ E) = Ok S1 -> all_typed Sv vs ->
  exists vts vs' Sv', vs = vts ++ vs' /\ Sv = rev ts ++ Sv' /\ S1 = Sv' ++ E /\ all_values (Sv' ++ E) /\
    all_typed (rev ts) vts /\ all_typed Sv' vs'.
Proof.
  intros Hv Hp Hvs. destruct (pops_live _ _ _ _ Hv Hp) as [-> _]. unfold pops, expect, above in Hp.
  rewrite (all_values_dead _ Hv), length_app, Nat.add_sub in Hp. cbn [negb andb] in Hp.
  destruct (Nat.ltb_spec (length Sv) (length ts)) as [|Hge]; [done|]. cbn [orb] in Hp.
  case_bool_decide as Htk; [|done]. rewrite take_app_le in Htk by lia.
  assert (Sv = rev ts ++ drop (length ts) Sv) as E1 by (by rewrite <- Htk, take_drop).
  rewrite drop_app_le by lia.
  pose proof (all_values_drop (length ts) _ Hv) as Hd. rewrite drop_app_le in Hd by lia.
  pose proof Hvs as Hvs2. rewrite E1 in Hvs2. apply Forall2_app_inv_l in Hvs2 as (vts & vs' & H1 & H2 & ->).
  by exists vts, vs', (drop (length ts) Sv).
Qed.

Lemma expect_typed E ts Sv vs : all_values (Sv ++ E) -> expect E ts (Sv ++ E) = Ok tt -> all_typed Sv vs ->
  exists vts vs', vs = vts ++ vs' /\ length vts = length ts /\ all_typed (rev ts) vts.
Proof.
  intros Hv He Hvs. assert (pops E ts (Sv ++ E) = Ok (drop (length ts) (Sv ++ E))) as Hp
    by (unfold pops; by rewrite (all_values_dead _ Hv), He).
  destruct (pops_typed _ _ _ _ _ Hv Hp Hvs) as (vts & vs' & Sv' & -> & _ & _ & _ & Hvts & _).
  exists vts, vs'. split_and!; [done| |done]. apply Forall2_length in Hvts. by rewrite length_rev in Hvts.
Qed.

Lemma finish_typed E sig Sv S' vs : all_values (Sv ++ E) -> finish E sig (Sv ++ E) = Ok S' -> all_typed Sv vs ->
  all_typed (rev sig) vs.
Proof.
  intros Hv Hf Hvs. destruct (finish_pushes _ _ _ _ Hf) as [_ Hlen]. destruct (Hlen Hv) as [Hab _].
  unfold above in Hab. rewrite length_app, Nat.add_sub in Hab. unfold finish in Hf.
  apply res_bind_Ok in Hf as ([] & He & _). destruct (expect_typed _ _ _ _ Hv He Hvs) as (vts & vs' & -> & Hl & Hvts).
  apply Forall2_length in Hvs. rewrite length_app in Hvs. destruct vs'; [by rewrite app_nil_r|cbn in Hvs; lia].
Qed.

Lemma take_typed n vts vs : length vts = n -> take_values n (vts ++ vs) = Some vts.
Proof.
  intros <-. unfold take_values. rewrite (proj2 (Nat.leb_le _ _)) by (rewrite length_app; lia). by rewrite take_app_length.
Qed.

(** ** Operators *)

Section soundness.
Context `{NanBits} `{MemAllocator}.

(** The operands' types and the result's, as the opcode table has them. *)
Definition op_types (op : WasmOpcode) (o : IntOp) : Prop :=
  match o with
  | IUn rt t _ => exists p, rev (op_params op) = [p] /\ of_wasm_type p = t /\
      of_wasm_type (wasm_get_opcode_result_type op) = rt /\ is_value (wasm_get_opcode_result_type op)
  | IBin rt t _ => exists p q, rev (op_params op) = [q; p] /\ of_wasm_type p = t /\ of_wasm_type q = t /\
      of_wasm_type (wasm_get_opcode_result_type op) = rt /\ is_value (wasm_get_opcode_result_type op)
  end.

Lemma num_op_table op o : num_op op = Some o -> op_types op o.
Proof. destruct op; intros [= <-]; repeat eexists; try reflexivity; done. Qed.

Lemma bare_ops op : is_some (bare_callback op) = true -> plain_op op = true -> exists o, num_op op = Some o.
Proof. destruct op; try discriminate; intros _ _; by eexists. Qed.

(** A state with operands on the stack, to ask the machine what it computes. *)
Definition operand_state (slots : list Z) : State :=
  mkState (mkEnv [] [] [] [] [] []) (mkStacks slots (Z.of_nat (length slots)) [] 0) 0.

Lemma get_field_id t a : in_u (VALUE_TYPE t) a -> get_field t a = a.
Proof. intros Ha. by apply wrap_id. Qed.

Lemma num_op_range op o : num_op op = Some o ->
  match o with
  | IUn rt t f => forall a v, in_u (VALUE_TYPE t) a -> f a = Value v -> in_u (VALUE_TYPE rt) v
  | IBin rt t f => forall a b v, in_u (VALUE_TYPE t) a -> in_u (VALUE_TYPE t) b -> f a b = Value v ->
      in_u (VALUE_TYPE rt) v
  end.
Proof.
  intros Ho. pose proof (dispatch_num_op 0 op o Ho) as Hd. destruct o as [rt t f|rt t f].
  - intros a v Ha Ev. specialize (Hd (operand_state [a]) [a] eq_refl). cbn [int_op_apply] in Hd.
    rewrite get_field_id, Ev in Hd by done. destruct Hd as (s & <- & _). apply get_field_u.
  - intros a b v Ha Hb Ev. specialize (Hd (operand_state [a; b]) [a; b] eq_refl). cbn [int_op_apply] in Hd.
    rewrite !get_field_id, Ev in Hd by done. destruct Hd as (s & <- & _). apply get_field_u.
Qed.

(** ** Instances *)

Context (I : Instance) (Γ : list WasmType).

(** What a translation looks at has the types it says. *)
Record target_typed (T : Target) : Prop := {
  tt_locals : all_values (t_locals T);
  tt_results : all_values (t_results T);
  tt_func i sig callee : t_func T i = Some (sig, callee) -> all_values (result_types sig) /\
    forall j, in_func I i = Some j -> exists f, in_body I j = Some (sig, f);
  tt_sig i ei sig : t_sig T i = Some (ei, sig) -> all_values (result_types sig) /\ in_sig I i = Some sig;
  tt_global i g t m : t_global T i = Some (g, t, m) -> is_value t /\ in_global I i = Some g /\ zget Γ g = Some t
}.

(** So have the module's functions and the elements of its table. *)
Record instance_typed (num_sigs num_funcs : Z) : Prop := {
  it_body j sig f : in_body I j = Some (sig, f) -> exists T pos code, target_typed T /\
    t_locals T = param_types sig ++ expand_locals (bf_locals f) /\ t_results T = result_types sig /\
    forallb (ok_instr num_sigs num_funcs) (bf_body f) = true /\ comp_body T true pos f = Ok code;
  it_table elements : in_table I = Some elements ->
    Forall (fun el => el = WASM_INVALID_INDEX \/ exists sig, in_element_sig I el = Some sig) elements;
  it_element el j sig : in_element I el = Some j -> in_element_sig I el = Some sig ->
    exists f, in_body I j = Some (sig, f)
}.

(** A call's outcome, when the function has the signature [sig]. *)
Definition returns_typed (sig : FuncSignature) (r : Exec) : Prop :=
  match r with
  | Returned σ vs => all_typed (rev (result_types sig)) vs /\ store_ok Γ σ
  | Trapped _ σ => store_ok Γ σ
  | Outside | NoFuel => True
  | _ => False
  end.

Definition calls_typed (n : nat) : Prop := forall j sig f σ args,
  in_body I j = Some (sig, f) -> all_typed (rev (param_types sig)) args -> store_ok Γ σ ->
  returns_typed sig (exec_body (exec I n) sig f σ args).

(** ** Instructions *)

Section body.
Context (T : Target) (HT : target_typed T).

Definition label_types (l : RLabel) : list WasmType :=
  match rl_loop l with Some _ => [] | None => rl_sig l end.

Lemma arity_types l : arity l = length (label_types l).
Proof. unfold arity, label_types. by destruct (rl_loop l). Qed.

(** The operands of the innermost block, the locals, the store. *)
Record typed_at (L : list RLabel) (A : list nat) (S : Types) (σ : Store) (ls vs : list Val) : Prop := {
  ta_labels : A = map arity L;
  ta_values : all_values S;
  ta_operands : exists Sv, S = Sv ++ entry_of L /\ all_typed Sv vs;
  ta_locals : all_typed (t_locals T) ls;
  ta_store : store_ok Γ σ
}.

(** The outcome [r] of code that leaves the type stack [S']. *)
Definition good (L : list RLabel) (S' : Types) (r : Exec) : Prop :=
  match r with
  | Normal σ ls vs => typed_at L (map arity L) S' σ ls vs
  | Branch d σ ls vs => exists l, L !! d = Some l /\ all_typed (rev (label_types l)) vs /\
      all_typed (t_locals T) ls /\ store_ok Γ σ
  | Returned σ vs => all_typed (rev (t_results T)) vs /\ store_ok Γ σ
  | Trapped _ σ => store_ok Γ σ
  | Stuck => False
  | Outside | NoFuel => True
  end.

Lemma good_normal L A S' Sv σ ls vs S σ0 ls0 vs0 : typed_at L A S σ0 ls0 vs0 -> S' = Sv ++ entry_of L -> all_values S' ->
  all_typed Sv vs -> all_typed (t_locals T) ls -> store_ok Γ σ -> good L S' (Normal σ ls vs).
Proof. intros Hh E Hv Hvs Hls Hσ. split; try done. by exists Sv. Qed.

(** The operands [ts] of an instruction. *)
Lemma at_pops L A S σ ls vs ts S1 : typed_at L A S σ ls vs -> pops (entry_of L) ts S = Ok S1 ->
  exists vts vs', vs = vts ++ vs' /\ all_typed (rev ts) vts /\ typed_at L A S1 σ ls vs'.
Proof.
  intros [H1 H2 (Sv & -> & H3) H4 H5] Hp. destruct (pops_typed _ _ _ _ _ H2 Hp H3) as (vts & vs' & Sv' & -> & -> & -> & Hv & Ht & Ht').
  exists vts, vs'. split_and!; [done..|]. split; try done. by exists Sv'.
Qed.

Lemma at_push L A S σ ls vs t v : typed_at L A S σ ls vs -> is_value t -> typed t v ->
  good L (pushes [t] S) (Normal σ ls (v :: vs)).
Proof.
  intros [H1 H2 (Sv & -> & H3) H4 H5] Ht Hv. assert (all_values [t]) as Hts by (by apply List.Forall_cons).
  split; try done; [by apply all_values_pushes|]. exists (t :: Sv). rewrite pushes_live by done. split; [done|by constructor].
Qed.

Lemma at_same L A S σ ls vs : typed_at L A S σ ls vs -> good L S (Normal σ ls vs).
Proof. intros [H1 H2 H3 H4 H5]. by split. Qed.

Lemma good_num L A S σ ls vs op S' c k : typed_at L A S σ ls vs -> plain_op op = true -> is_some (bare_callback op) = true ->
  comp_op T (entry_of L) S op = Ok (c, S') -> good L S' (exec_op k op σ ls vs).
Proof.
  intros Hh Hp Hb Hc. destruct (bare_ops op Hb Hp) as [o Ho]. rewrite exec_op_plain, Ho by done.
  rewrite comp_op_plain in Hc by done. destruct (pops _ _ S) as [S1| |] eqn:Ep; cbn [res_bind] in Hc; [|done|done].
  apply Ok_pair in Hc as [_ ->]. destruct (at_pops _ _ _ _ _ _ _ _ Hh Ep) as (vts & vs' & -> & Hts & Hh1).
  pose proof (num_op_table op o Ho) as Htab. pose proof (num_op_range op o Ho) as Hr. destruct o as [rt t f|rt t f].
  - destruct Htab as (p & E & <- & <- & Hval). rewrite E in Hts. inversion_clear Hts as [|? v ? ? Hv Hnil]. inversion_clear Hnil.
    cbn [exec_num app]. rewrite pop_typed by done. pose proof (ty_bits _ _ Hv) as Hbits. rewrite (ty_type _ _ Hv) in Hbits.
    destruct (f (val_bits v)) as [w|r|] eqn:Ef; [|apply Hh1|done].
    apply (at_push _ _ _ _ _ _ _ _ Hh1 Hval), typed_bits. by eapply Hr.
  - destruct Htab as (p & q & E & <- & Eq & <- & Hval). rewrite E in Hts.
    inversion_clear Hts as [|? w ? ? Hw Hts1]. inversion_clear Hts1 as [|? v ? ? Hv Hnil]. inversion_clear Hnil.
    cbn [exec_num app]. rewrite <- Eq, pop_typed by done. rewrite Eq, pop_typed by done.
    pose proof (ty_bits _ _ Hv) as Hbv. rewrite (ty_type _ _ Hv) in Hbv.
    pose proof (ty_bits _ _ Hw) as Hbw. rewrite (ty_type _ _ Hw), Eq in Hbw.
    destruct (f (val_bits v) (val_bits w)) as [x|r|] eqn:Ef; [|apply Hh1|done].
    apply (at_push _ _ _ _ _ _ _ _ Hh1 Hval), typed_bits. by eapply (Hr (val_bits v) (val_bits w)).
Qed.

Lemma at_take L A S σ ls vs ts : typed_at L A S σ ls vs -> expect (entry_of L) ts S = Ok tt ->
  exists kept, take_values (length ts) vs = Some kept /\ all_typed (rev ts) kept.
Proof.
  intros [_ H2 (Sv & -> & H3) _ _] He. destruct (expect_typed _ _ _ _ H2 He H3) as (vts & vs' & -> & Hl & Ht).
  exists vts. split; [by apply take_typed|done].
Qed.

(** One operand of any type. *)
Lemma at_one L A S σ ls vs : typed_at L A S σ ls vs -> (1 <= above (entry_of L) S)%nat ->
  exists t v S1 vs', S = t :: S1 /\ vs = v :: vs' /\ is_value t /\ typed t v /\ typed_at L A S1 σ ls vs'.
Proof.
  intros [H1 H2 (Sv & -> & H3) H4 H5] Ha. unfold above in Ha. rewrite length_app, Nat.add_sub in Ha.
  inversion H3 as [|t v Sv' vs' Hv Hvs' E1 E2]; subst; [cbn in Ha; lia|]. inversion_clear H2 as [|? ? Ht Hrest].
  exists t, v, (Sv' ++ entry_of L), vs'. split_and!; [done..|]. split; try done. by exists Sv'.
Qed.

Lemma good_op L A S σ ls vs op S' c : typed_at L A S σ ls vs -> is_some (bare_callback op) = true ->
  comp_op T (entry_of L) S op = Ok (c, S') -> good L S' (exec_op (length (t_results T)) op σ ls vs).
Proof.
  intros Hh Hb Hc. destruct (plain_op op) eqn:Hp; [by eapply good_num|].
  pose proof (all_values_dead _ (ta_values _ _ _ _ _ _ Hh)) as Hd.
  destruct op; try discriminate Hp; cbn [comp_op exec_op] in *.
  - apply Hh.
  - apply Ok_pair in Hc as [_ ->]. by eapply at_same.
  - apply res_bind_Ok in Hc as ([] & He & _). destruct (at_take _ _ _ _ _ _ _ Hh He) as (kept & -> & Hk).
    split; [done|apply Hh].
  - rewrite Hd in Hc. cbn [negb andb crash_if res_bind] in Hc.
    destruct (Nat.ltb_spec (above (entry_of L) S) 1); cbn [reject_if res_bind] in Hc; [done|].
    apply Ok_pair in Hc as [_ ->]. destruct (at_one _ _ _ _ _ _ Hh ltac:(lia)) as (t & v & S1 & vs' & -> & -> & _ & _ & Hh1).
    by eapply at_same.
  - apply res_bind_Ok in Hc as (S1 & Ep & Hc). destruct (at_pops _ _ _ _ _ _ _ _ Hh Ep) as (vts & vs' & -> & Hts & Hh1).
    inversion_clear Hts as [|? k ? ? Hk Hnil]. inversion_clear Hnil.
    rewrite (all_values_dead _ (ta_values _ _ _ _ _ _ Hh1)) in Hc. cbn [negb andb crash_if res_bind] in Hc.
    destruct (Nat.ltb_spec (above (entry_of L) S1) 2); cbn [orb reject_if res_bind] in Hc; [done|].
    case_bool_decide as Heq; cbn [negb res_bind] in Hc; [|done]. apply Ok_pair in Hc as [_ ->].
    destruct (at_one _ _ _ _ _ _ Hh1 ltac:(lia)) as (t & v & S2 & vs2 & -> & -> & Hval & Hv & Hh2).
    assert (1 <= above (entry_of L) S2)%nat as Ha2 by (unfold above in *; cbn [length] in *; lia).
    destruct (at_one _ _ _ _ _ _ Hh2 Ha2) as (t' & w & S3 & vs3 & -> & -> & _ & Hw & Hh3).
    injection Heq as <-. cbn [app tail]. change I32 with (of_wasm_type WASM_TYPE_I32). rewrite pop_typed by done.
    destruct Hh2 as [G1 G2 (Sv & E & G3) G4 G5]. split; try done. exists Sv. split; [done|].
    destruct Sv as [|t' Sv]; [inversion G3|]. injection E as <- E. inversion_clear G3. constructor; [|done].
    by destruct (val_bits k =? 0).
Qed.

(** ** Constants and memory *)

Lemma good_const L A S σ ls vs k S' c : typed_at L A S σ ls vs -> const_ok k = true -> comp_const S k = (c, S') ->
  good L S' (Normal σ ls (const_val k :: vs)).
Proof.
  intros Hh Hk Hc. unfold const_val. assert (S' = pushes [const_type k] S /\ is_value (const_type k)) as [-> Hval].
  { unfold comp_const, const_ok in *. destruct (const_type k); try discriminate Hk; injection Hc as _ <-; (split; [done|by split]). }
  eapply at_push; [exact Hh|done|apply typed_wrap].
Qed.

Lemma load_table op t n sign : spec_load op = Some (t, n, sign) -> memory_params op = [WASM_TYPE_I32] /\
  of_wasm_type (wasm_get_opcode_result_type op) = t /\ is_value (wasm_get_opcode_result_type op).
Proof. destruct op; intros [= <- <- <-]; (split; [reflexivity|]); (split; [reflexivity|by split]). Qed.

Lemma store_table op t n : spec_store op = Some (t, n) -> exists p, memory_params op = [WASM_TYPE_I32; p] /\
  of_wasm_type p = t /\ wasm_get_opcode_result_type op = WASM_TYPE_VOID.
Proof. destruct op; intros [= <- <-]; by eexists. Qed.

Lemma memory_ops op : is_some (memory_callback op) = true ->
  (exists x, spec_load op = Some x) \/ spec_load op = None /\ exists x, spec_store op = Some x.
Proof. destruct op; try discriminate; intros _; (left; by eexists) || (right; split; [done|by eexists]). Qed.

Lemma store_ok_memory σ i m m' : store_ok Γ σ -> zget (s_memories σ) i = Some m -> mem_ok m' -> store_ok Γ (set_memory_at i m' σ).
Proof.
  intros [H1 H2] _ Hm. split; [|done]. cbn [s_memories set_memory_at]. by apply Forall_insert.
Qed.

Lemma store_get σ i m : store_ok Γ σ -> zget (s_memories σ) i = Some m -> mem_ok m.
Proof. intros [H1 _] [_ Hm]%zget_Some. by eapply Forall_lookup_1. Qed.

Lemma good_load L A S σ ls vs op t n sign offset S1 : typed_at L A S σ ls vs -> 0 <= offset ->
  spec_load op = Some (t, n, sign) -> pops (entry_of L) (memory_params op) S = Ok S1 ->
  good L (pushes [wasm_get_opcode_result_type op] S1) (exec_load I t n sign offset σ ls vs).
Proof.
  intros Hh Ho Hl Ep. destruct (load_table _ _ _ _ Hl) as (Hps & <- & Hval). rewrite Hps in Ep.
  destruct (at_pops _ _ _ _ _ _ _ _ Hh Ep) as (vts & vs' & -> & Hts & Hh1).
  inversion_clear Hts as [|? k ? ? Hk Hnil]. inversion_clear Hnil. unfold exec_load.
  destruct (zget (s_memories σ) (in_memory I)) as [m|] eqn:Em; [|done]. pose proof (store_get _ _ _ (ta_store _ _ _ _ _ _ Hh) Em) as Hm.
  cbn [app]. change I32 with (of_wasm_type WASM_TYPE_I32). rewrite pop_typed by done. cbv zeta.
  destruct (Z.leb_spec (val_bits k + offset + Z.of_nat n) (mem_byte_size m)) as [Hle|]; [|apply Hh].
  pose proof (ty_bits _ _ Hk) as Hbits. unfold in_u in Hbits. pose proof (mem_length _ Hm) as Hlen.
  rewrite zslice_Some by lia. eapply at_push; [exact Hh1|exact Hval|]. apply typed_bits.
  destruct (dispatch_load 0 op _ _ _ Hl) as (mt & _ & _ & Hrange). apply Hrange.
  - apply Forall_take, Forall_drop, Hm.
  - rewrite length_take, length_drop. lia.
Qed.

Lemma good_store L A S σ ls vs op t n offset S1 : typed_at L A S σ ls vs -> 0 <= offset ->
  spec_store op = Some (t, n) -> pops (entry_of L) (memory_params op) S = Ok S1 ->
  good L (pushes [wasm_get_opcode_result_type op] S1) (exec_store I t n offset σ ls vs).
Proof.
  intros Hh Ho Hl Ep. destruct (store_table _ _ _ Hl) as (p & Hps & <- & ->). rewrite Hps in Ep. rewrite pushes_void.
  destruct (at_pops _ _ _ _ _ _ _ _ Hh Ep) as (vts & vs' & -> & Hts & Hh1).
  inversion_clear Hts as [|? v ? ? Hv Hts1]. inversion_clear Hts1 as [|? k ? ? Hk Hnil]. inversion_clear Hnil. unfold exec_store.
  destruct (zget (s_memories σ) (in_memory I)) as [m|] eqn:Em; [|done]. pose proof (store_get _ _ _ (ta_store _ _ _ _ _ _ Hh) Em) as Hm.
  cbn [app]. rewrite pop_typed by done. change I32 with (of_wasm_type WASM_TYPE_I32). rewrite pop_typed by done. cbv zeta.
  destruct (Z.leb_spec (val_bits k + offset + Z.of_nat n) (mem_byte_size m)) as [Hle|]; [|apply Hh].
  pose proof (ty_bits _ _ Hk) as Hbits. unfold in_u in Hbits. pose proof (mem_length _ Hm) as Hlen.
  destruct (zblit (mem_data m) (val_bits k + offset) (le_bytes n (val_bits v))) as [data|] eqn:Eb.
  2: { by rewrite zblit_Some in Eb by (rewrite ?length_le_bytes; lia). }
  destruct Hh1 as [H1 H2 H3 H4 H5]. split; try done. eapply store_ok_memory; [exact H5|exact Em|].
  destruct Hm as [M1 M2 M3 M4 M5]. split; cbn [mem_data mem_page_limits mem_byte_size]; try done.
  - by rewrite (zblit_length _ _ _ _ Eb).
  - eapply Forall_zblit; [exact M4|apply le_bytes_ok|exact Eb].
Qed.

Lemma good_memory L A S σ ls vs op offset S' c : typed_at L A S σ ls vs -> is_some (memory_callback op) = true ->
  0 <= offset -> comp_memory T (entry_of L) S op offset = Ok (c, S') -> good L S' (exec_memory I op offset σ ls vs).
Proof.
  intros Hh Hcb Ho Hc. unfold comp_memory in Hc. fold (memory_params op) in Hc.
  apply res_bind_Ok in Hc as (S1 & Ep & Hc). apply Ok_pair in Hc as [_ ->]. unfold exec_memory.
  destruct (memory_ops op Hcb) as [[[[t n] sign] El]|[El [[t n] Es]]]; rewrite El; [by eapply good_load|].
  rewrite Es. by eapply good_store.
Qed.

Lemma good_reserved L A S σ ls vs op S' c : typed_at L A S σ ls vs -> is_some (reserved_callback op) = true ->
  comp_reserved T (entry_of L) S op = Ok (c, S') -> good L S' (exec_reserved I op σ ls vs).
Proof.
  intros Hh Hcb Hc. unfold comp_reserved in Hc. apply res_bind_Ok in Hc as (S1 & Ep & Hc). apply Ok_pair in Hc as [_ ->].
  unfold exec_reserved. destruct (zget (s_memories σ) (in_memory I)) as [m|] eqn:Em; [|done].
  pose proof (store_get _ _ _ (ta_store _ _ _ _ _ _ Hh) Em) as Hm.
  assert (in_u 32 (lim_initial (mem_page_limits m))) as Hpages.
  { destruct Hm as [M1 M2 M3 M4 M5]. unfold in_u, WASM_PAGE_SIZE in *. lia. }
  destruct op; try discriminate Hcb; cbn zeta.
  - injection Ep as <-. by eapply at_push, (typed_bits WASM_TYPE_I32).
  - destruct (at_pops _ _ _ _ _ _ _ _ Hh Ep) as (vts & vs' & -> & Hts & Hh1).
    inversion_clear Hts as [|? k ? ? Hk Hnil]. inversion_clear Hnil. cbn [app].
    change I32 with (of_wasm_type WASM_TYPE_I32). rewrite pop_typed by done.
    pose proof (ty_bits _ _ Hk) as Hbits. rewrite (ty_type _ _ Hk) in Hbits. unfold in_u in Hbits.
    destruct (Z.ltb_spec (lim_initial (mem_page_limits m) + val_bits k) (2 ^ 32)) as [Hlt|]; [|done].
    destruct (may_grow m (val_bits k)) eqn:Eg.
    + eapply at_push; [|done|by apply (typed_bits WASM_TYPE_I32)]. destruct Hh1 as [G1 G2 G3 G4 G5]. split; try done.
      eapply store_ok_memory; [exact G5|exact Em|]. apply grown_ok; [done|apply Hbits|done|done].
    + eapply at_push; [exact Hh1|done|apply (typed_bits WASM_TYPE_I32)]. unfold in_u. cbn. lia.
Qed.

(** ** Locals and globals *)

Lemma typed_lookup ts vs i t : all_typed ts vs -> zget ts i = Some t -> exists v, zget vs i = Some v /\ typed t v.
Proof.
  intros Hts [Hi Ht]%zget_Some. destruct (Forall2_lookup_l _ _ _ _ _ Hts Ht) as (v & Hv & Htv). exists v.
  split; [|done]. by apply zget_Some.
Qed.

Lemma typed_update ts vs i t v : all_typed ts vs -> zget ts i = Some t -> typed t v ->
  all_typed ts (<[Z.to_nat i := v]> vs).
Proof.
  intros Hts [Hi Ht]%zget_Some Hv. rewrite <- (list_insert_id ts (Z.to_nat i) t Ht). by apply Forall2_insert.
Qed.

Lemma typed_set ts vs i t v : all_typed ts vs -> zget ts i = Some t -> typed t v ->
  exists vs', zset vs i v = Some vs' /\ all_typed ts vs'.
Proof.
  intros Hts Ht Hv. pose proof (zget_lt _ _ _ Ht) as Hlt. rewrite (Forall2_length _ _ _ Hts) in Hlt.
  exists (<[Z.to_nat i := v]> vs). split; [by apply zset_Some|by eapply typed_update].
Qed.

(** The single operand of type [t]. *)
Lemma at_pop L A S σ ls vs t S1 : typed_at L A S σ ls vs -> pops (entry_of L) [t] S = Ok S1 ->
  exists v vs', vs = v :: vs' /\ typed t v /\ typed_at L A S1 σ ls vs'.
Proof.
  intros Hh Ep. destruct (at_pops _ _ _ _ _ _ _ _ Hh Ep) as (vts & vs' & -> & Hts & Hh1).
  inversion_clear Hts as [|? v ? ? Hv Hnil]. inversion_clear Hnil. by exists v, vs'.
Qed.

Lemma good_get_local L A S σ ls vs index t : typed_at L A S σ ls vs -> zget (t_locals T) index = Some t ->
  good L (pushes [t] S) (match zget ls index with Some v => Normal σ ls (v :: vs) | None => Stuck end).
Proof.
  intros Hh Ht. destruct (typed_lookup _ _ _ _ (ta_locals _ _ _ _ _ _ Hh) Ht) as (v & -> & Hv).
  eapply at_push; [exact Hh| |exact Hv]. apply zget_Some in Ht as [_ Ht]. apply (Forall_lookup_1 _ _ _ _ (tt_locals T HT) Ht).
Qed.

Lemma at_set_local L A S σ ls vs index t v : typed_at L A S σ ls vs -> zget (t_locals T) index = Some t -> typed t v ->
  exists ls', zset ls index v = Some ls' /\ typed_at L A S σ ls' vs.
Proof.
  intros [G1 G2 G3 G4 G5] Ht Hv. destruct (typed_set _ _ _ _ _ G4 Ht Hv) as (ls' & E & G4'). exists ls'. by split.
Qed.

Lemma good_global L A S σ ls vs index g t m v : typed_at L A S σ ls vs -> t_global T index = Some (g, t, m) -> typed t v ->
  g < Z.of_nat (length (s_globals σ)) /\ typed_at L A S (set_global_at g v σ) ls vs.
Proof.
  intros [G1 G2 G3 G4 [G5 G6]] Hg Hv. destruct (tt_global T HT _ _ _ _ Hg) as (_ & _ & Hz).
  pose proof (zget_lt _ _ _ Hz) as Hlt. rewrite (Forall2_length _ _ _ G6) in Hlt. split; [lia|].
  split; try done. split; [done|]. by eapply typed_update.
Qed.

(** ** Branches *)

Lemma good_branch L A S σ ls vs d l S' : typed_at L A S σ ls vs -> label_at L d = Some l ->
  match rl_loop l with Some _ => Ok tt | None => expect (entry_of L) (rl_sig l) S end = Ok tt ->
  good L S' (exec_branch A d σ ls vs).
Proof.
  intros Hh Hl He. unfold label_at in Hl. unfold exec_branch. rewrite (ta_labels _ _ _ _ _ _ Hh), list_lookup_fmap, Hl.
  cbn [fmap option_fmap option_map]. rewrite arity_types.
  assert (exists kept, take_values (length (label_types l)) vs = Some kept /\ all_typed (rev (label_types l)) kept)
    as (kept & -> & Hk).
  { unfold label_types. destruct (rl_loop l); [|by eapply at_take]. exists []. by split. }
  exists l. split_and!; [done|done|apply Hh|apply Hh].
Qed.

Lemma good_br_table L A S pos σ ls vs targets default_ c S' : typed_at L A S σ ls vs ->
  comp_br_table L pos S targets default_ = Ok (c, S') -> good L S' (exec_br_table A targets default_ σ ls vs).
Proof.
  intros Hh Hc. unfold comp_br_table in Hc. apply res_bind_Ok in Hc as (S1 & Ep & Hc).
  apply res_bind_Ok in Hc as (es & Et & _). unfold exec_br_table.
  destruct (at_pop _ _ _ _ _ _ _ _ Hh Ep) as (k & vs' & -> & Hk & Hh1). change I32 with (of_wasm_type WASM_TYPE_I32).
  rewrite pop_typed by done. set (d := match zget targets _ with Some d => d | None => default_ end).
  assert (d ∈ targets ++ [default_]) as Hd.
  { unfold d. destruct (zget targets (val_bits k)) as [x|] eqn:Ez; apply elem_of_app; [left|right; by apply list_elem_of_singleton].
    apply zget_Some in Ez as [_ Ez]. by eapply list_elem_of_lookup_2. }
  clearbody d. clear Hk Hh. revert es Et. induction (targets ++ [default_]) as [|x ds IH]; intros es Et; [by apply elem_of_nil in Hd|].
  cbn [table_entries] in Et. apply res_bind_Ok in Et as (e & E1 & Et). apply res_bind_Ok in Et as (es' & E2 & _).
  apply elem_of_cons in Hd as [->|Hd]; [|by eapply IH]. unfold table_entry in E1.
  destruct (label_at L x) as [l|] eqn:El; [|done]. cbn [value_or_crash res_bind] in E1.
  apply res_bind_Ok in E1 as ([] & He & _). eapply good_branch; [exact Hh1|exact El|]. by destruct (rl_loop l).
Qed.

(** ** Calls *)

Lemma good_exec_call n L A S S1 σ ls vs j sig f : calls_typed n -> typed_at L A S σ ls vs ->
  pops (entry_of L) (param_types sig) S = Ok S1 -> in_body I j = Some (sig, f) -> all_values (result_types sig) ->
  good L (pushes (result_types sig) S1) (exec_call I (exec I n) j σ ls vs).
Proof.
  intros Hcalls Hh Ep Hj Hres. destruct (at_pops _ _ _ _ _ _ _ _ Hh Ep) as (args & vs' & -> & Hargs & Hh1).
  pose proof (Forall2_length _ _ _ Hargs) as Hl. rewrite length_rev in Hl. unfold exec_call. rewrite Hj, take_typed by done.
  rewrite drop_app_length' by done. pose proof (Hcalls j sig f σ args Hj Hargs (ta_store _ _ _ _ _ _ Hh)) as Hr.
  destruct (exec_body (exec I n) sig f σ args) as [| |σ' res|x σ'| | |]; cbn [resume returns_typed] in *; try done.
  destruct Hr as [Hr Hσ]. destruct Hh1 as [G1 G2 (Sv & -> & G3) G4 G5]. split; try done.
  - by apply all_values_pushes.
  - exists (rev (result_types sig) ++ Sv). rewrite pushes_live by done. rewrite <- app_assoc. split; [done|by apply Forall2_app].
Qed.

Lemma good_call n L A S σ ls vs index c S' : calls_typed n -> typed_at L A S σ ls vs ->
  comp_call T (entry_of L) S index = Ok (c, S') ->
  good L S' (match in_func I index with Some j => exec_call I (exec I n) j σ ls vs | None => Outside end).
Proof.
  intros Hcalls Hh Hc. unfold comp_call in Hc.
  destruct (t_func T index) as [[sig callee]|] eqn:Ef; cbn [value_or_crash res_bind] in Hc; [|done].
  apply res_bind_Ok in Hc as (S1 & Ep & Hc). apply Ok_pair in Hc as [_ ->]. destruct (tt_func T HT _ _ _ Ef) as [Hres Hj].
  destruct (in_func I index) as [j|]; [|done]. destruct (Hj j eq_refl) as [f Hb].
  apply pops_each_live in Ep; [|apply Hh]. by eapply good_exec_call.
Qed.

Lemma good_call_indirect ns nf n L A S σ ls vs sig_index c S' : instance_typed ns nf -> calls_typed n ->
  typed_at L A S σ ls vs -> comp_call_indirect T (entry_of L) S sig_index = Ok (c, S') ->
  good L S' (exec_call_indirect I (exec I n) sig_index σ ls vs).
Proof.
  intros HI Hcalls Hh Hc. unfold comp_call_indirect in Hc.
  destruct (t_sig T sig_index) as [[si sig]|] eqn:Es; cbn [value_or_crash res_bind] in Hc; [|done].
  apply res_bind_Ok in Hc as (S1 & Ep & Hc). apply res_bind_Ok in Hc as (S2 & Ep2 & Hc). apply Ok_pair in Hc as [_ ->].
  destruct (tt_sig T HT _ _ _ Es) as [Hres Hsig]. unfold exec_call_indirect.
  destruct (in_table I) as [elements|] eqn:Et; [|done]. rewrite Hsig.
  destruct (at_pop _ _ _ _ _ _ _ _ Hh Ep) as (k & vs' & -> & Hk & Hh1). change I32 with (of_wasm_type WASM_TYPE_I32).
  rewrite pop_typed by done. destruct (zget elements (val_bits k)) as [el|] eqn:Eel; [|apply Hh].
  destruct (decide (el = WASM_INVALID_INDEX)); [apply Hh|].
  pose proof (it_table _ _ HI _ Et) as Hels. apply zget_Some in Eel as [_ Eel].
  pose proof (Forall_lookup_1 _ _ _ _ Hels Eel) as [?|[sig' Es']]; [done|]. rewrite Es'.
  destruct (decide (sig' = sig)) as [->|]; [|apply Hh]. destruct (in_element I el) as [j|] eqn:Ej; [|done].
  destruct (it_element _ _ HI _ _ _ Ej Es') as [f Hb]. apply pops_each_live in Ep2; [|apply Hh1]. by eapply good_exec_call.
Qed.

Lemma good_index n L A S pos σ ls vs op index c S' : calls_typed n -> typed_at L A S σ ls vs ->
  strict_index L S op index = Ok tt -> comp_index T L pos S op index = Ok (c, S') ->
  good L S' (exec_index I (exec I n) A op index σ ls vs).
Proof.
  intros Hcalls Hh Hs Hc. destruct op; try done; cbn [exec_index comp_index strict_index] in *.
  - destruct (label_at L index) as [l|] eqn:El; [|done]. cbn [value_or_reject res_bind] in Hc.
    apply res_bind_Ok in Hc as ([] & He & _). by eapply good_branch.
  - destruct (label_at L index) as [l|] eqn:El; [|done]. cbn [value_or_reject res_bind] in *.
    apply res_bind_Ok in Hc as (S1 & Ep & Hc). rewrite Ep in Hs. cbn [res_bind] in Hs.
    apply res_bind_Ok in Hc as (cells & _ & Hc). apply Ok_pair in Hc as [_ ->].
    destruct (at_pop _ _ _ _ _ _ _ _ Hh Ep) as (k & vs' & -> & Hk & Hh1). change I32 with (of_wasm_type WASM_TYPE_I32).
    rewrite pop_typed by done. destruct (val_bits k =? 0); [by eapply at_same|by eapply good_branch].
  - by eapply good_call.
  - destruct (zget (t_locals T) index) as [t|] eqn:El; [|done]. cbn [value_or_reject res_bind] in Hc.
    apply Ok_pair in Hc as [_ ->]. by eapply good_get_local.
  - destruct (zget (t_locals T) index) as [t|] eqn:El; [|done]. cbn [value_or_reject res_bind] in Hc.
    apply res_bind_Ok in Hc as (S1 & Ep & Hc). apply Ok_pair in Hc as [_ ->].
    destruct (at_pop _ _ _ _ _ _ _ _ Hh Ep) as (v & vs' & -> & Hv & Hh1).
    destruct (at_set_local _ _ _ _ _ _ _ _ _ Hh1 El Hv) as (ls' & -> & Hh2). by eapply at_same.
  - destruct (zget (t_locals T) index) as [t|] eqn:El; [|done]. cbn [value_or_reject res_bind] in Hc.
    apply res_bind_Ok in Hc as (_ & _ & Hc). apply res_bind_Ok in Hc as (_ & _ & Hc).
    apply res_bind_Ok in Hc as ([] & He & Hc). apply Ok_pair in Hc as [_ ->].
    assert (pops (entry_of L) [t] S = Ok (drop 1 S)) as Ep
      by (unfold pops; by rewrite (all_values_dead _ (ta_values _ _ _ _ _ _ Hh)), He).
    destruct (at_pop _ _ _ _ _ _ _ _ Hh Ep) as (v & vs' & -> & Hv & _).
    destruct (at_set_local _ _ _ _ _ _ _ _ _ Hh El Hv) as (ls' & -> & Hh2). by eapply at_same.
  - destruct (t_global T index) as [[[g t] m]|] eqn:Eg; [|done]. cbn [value_or_reject res_bind] in Hc.
    apply Ok_pair in Hc as [_ ->]. destruct (tt_global T HT _ _ _ _ Eg) as (Ht & -> & Hz).
    destruct (typed_lookup _ _ _ _ (so_globals _ _ (ta_store _ _ _ _ _ _ Hh)) Hz) as (v & -> & Hv). by eapply at_push.
  - destruct (t_global T index) as [[[g t] m]|] eqn:Eg; [|done]. cbn [value_or_reject res_bind] in Hc.
    apply res_bind_Ok in Hc as (_ & _ & Hc). apply res_bind_Ok in Hc as (S1 & Ep & Hc). apply Ok_pair in Hc as [_ ->].
    destruct (at_pop _ _ _ _ _ _ _ _ Hh Ep) as (v & vs' & -> & Hv & Hh1).
    destruct (good_global _ _ _ _ _ _ _ _ _ _ _ Hh1 Eg Hv) as [Hlt Hh2].
    destruct (tt_global T HT _ _ _ _ Eg) as (_ & -> & _).
    destruct (Z.leb_spec (Z.of_nat (length (s_globals σ))) g); [lia|]. by eapply at_same.
Qed.

(** ** Blocks *)

Section instr.
Context (ns nf : Z).
Abbreviation results := (length (t_results T)).

Definition typed_instr (n : nat) (i : BInstr) : Prop := forall L A S pos σ ls vs c S', typed_at L A S σ ls vs ->
  ok_instr ns nf i = true -> comp T true L pos S i = Ok (c, S') -> good L S' (exec I n A results σ ls vs i).

Lemma good_list n : (forall i, typed_instr n i) -> forall l L A S pos σ ls vs c S', typed_at L A S σ ls vs ->
  forallb (ok_instr ns nf) l = true -> comps T true L pos S l = Ok (c, S') ->
  good L S' (exec_list (exec I n) A results σ ls vs l).
Proof.
  intros Hn l. induction l as [|i l IH]; intros L A S pos σ ls vs c S' Hh Hok Hc; cbn [comps exec_list] in *.
  - apply Ok_pair in Hc as [_ ->]. by eapply at_same.
  - apply res_bind_Ok in Hc as ([c1 S1] & E1 & Hc). apply res_bind_Ok in Hc as ([c2 S2] & E2 & Hc).
    apply Ok_pair in Hc as [_ ->]. cbn [forallb] in Hok. apply andb_true_iff in Hok as [Hok1 Hok2].
    pose proof (Hn i L A S pos σ ls vs c1 S1 Hh Hok1 E1) as Hg.
    destruct (exec I n A results σ ls vs i) as [σ' ls' vs'| | | | | |]; [|exact Hg..].
    eapply IH; [|exact Hok2|exact E2]. destruct Hg as [G1 G2 G3 G4 G5]. split; try done. apply Hh.
Qed.

Lemma enter_block L A l σ ls vs : typed_at L A (rl_entry l) σ ls vs ->
  typed_at (l :: L) (arity l :: A) (rl_entry l) σ ls [].
Proof. intros [G1 G2 G3 G4 G5]. split; try done; [by rewrite G1|]. by exists []. Qed.

Lemma block_left L A l σ ls vs vs' σ0 ls0 : typed_at L A (rl_entry l) σ0 ls0 vs -> all_values (rl_sig l) ->
  all_typed (rev (rl_sig l)) vs' -> all_typed (t_locals T) ls -> store_ok Γ σ ->
  good L (pushes (rl_sig l) (rl_entry l)) (Normal σ ls (vs' ++ vs)).
Proof.
  intros [G1 G2 (Sv & E & G3) G4 G5] Hs Hvs' Hls Hσ. split; try done; [by apply all_values_pushes|].
  exists (rev (rl_sig l) ++ Sv). rewrite pushes_live by done. rewrite E, <- app_assoc. split; [done|by apply Forall2_app].
Qed.

Lemma leave_typed L A l S1 S' σ ls vs r : typed_at L A (rl_entry l) σ ls vs -> all_values (rl_sig l) ->
  finish (rl_entry l) (rl_sig l) S1 = Ok S' ->
  rl_loop l = None \/ (forall σ ls vs, r <> Branch O σ ls vs) ->
  good (l :: L) S1 r -> good L S' (leave_block vs r).
Proof.
  intros Hh Hs Hf Hend Hg. rewrite (proj1 (finish_pushes _ _ _ _ Hf)).
  destruct r as [σ' ls' vs'|d σ' ls' vs'|σ' vs'|x σ'| | |]; try exact Hg.
  - destruct Hg as [G1 G2 (Sv & -> & G3) G4 G5]. cbn [leave_block]. eapply block_left; try done. by eapply finish_typed.
  - destruct Hg as (l' & Hl & Hvs & Hls & Hσ). destruct d as [|d].
    + injection Hl as <-. destruct Hend as [Hloop|Hno]; [|by destruct (Hno σ' ls' vs')].
      unfold label_types in Hvs. rewrite Hloop in Hvs. by eapply block_left.
    + by exists l'.
Qed.

Lemma typed_block n sig body : (forall i, typed_instr n i) -> typed_instr (1 + n) (BI_BLOCK sig body).
Proof.
  intros Hn L A S pos σ ls vs c S' Hh Hok Hc. cbn [ok_instr] in Hok. apply andb_true_iff in Hok as [Hsig Hbody].
  destruct (ok_sig_values _ Hsig) as [_ Hs]. rewrite comp_block in Hc.
  apply res_bind_Ok in Hc as ([c1 S1] & E1 & Hc). apply res_bind_Ok in Hc as (S2 & E2 & Hc). apply Ok_pair in Hc as [_ ->].
  cbn [exec Nat.add]. apply (leave_typed _ _ (mkRLabel None sig S) _ _ _ _ _ _ Hh Hs E2); [by left|].
  eapply good_list; [exact Hn|exact (enter_block _ _ (mkRLabel None sig S) _ _ _ Hh)|exact Hbody|exact E1].
Qed.

Lemma typed_loop n sig body : (forall i, typed_instr n i) -> typed_instr (1 + n) (BI_LOOP sig body).
Proof.
  intros Hn L A S pos σ ls vs c S' Hh Hok Hc0. pose proof Hok as Hok0. cbn [ok_instr] in Hok.
  apply andb_true_iff in Hok as [Hsig Hbody]. pose proof Hc0 as Hc.
  destruct (ok_sig_values _ Hsig) as [_ Hs]. rewrite comp_loop in Hc.
  apply res_bind_Ok in Hc as ([c1 S1] & E1 & Hc). apply res_bind_Ok in Hc as (S2 & E2 & Hc). apply Ok_pair in Hc as [-> ->].
  cbn [exec Nat.add]. set (l := mkRLabel (Some pos) sig S) in *.
  pose proof (good_list n Hn body _ _ _ _ _ _ _ _ _ (enter_block _ _ l _ _ _ Hh) Hbody E1) as Hg.
  change (arity l) with 0%nat in Hg.
  assert (forall r, good (l :: L) S1 r -> (forall σ ls vs, r <> Branch O σ ls vs) -> good L S2 (leave_block vs r)) as Hleave
    by (intros r Hr Hno; exact (leave_typed L A l S1 S2 σ ls vs r Hh Hs E2 (or_intror Hno) Hr)).
  destruct (exec_list _ _ _ _ _ _ _) as [σ' ls' vs'|d σ' ls' vs'|σ' vs'|x σ'| | |]; try (by apply Hleave).
  destruct d as [|d]; [|by apply Hleave]. destruct Hg as (l' & Hl & _ & Hls & Hσ). injection Hl as <-.
  eapply Hn; [|exact Hok0|exact Hc0]. destruct Hh as [G1 G2 G3 G4 G5]. by split.
Qed.

Lemma typed_if n sig ts fs : (forall i, typed_instr n i) -> typed_instr (1 + n) (BI_IF sig ts fs).
Proof.
  intros Hn L A S pos σ ls vs c S' Hh Hok Hc. cbn [ok_instr] in Hok.
  apply andb_true_iff in Hok as [[Hsig Hts]%andb_true_iff Hfs]. destruct (ok_sig_values _ Hsig) as [_ Hs].
  rewrite comp_if in Hc. apply res_bind_Ok in Hc as (E0 & Ep & Hc). apply res_bind_Ok in Hc as ([c1 S1] & E1 & Hc).
  destruct (at_pop _ _ _ _ _ _ _ _ Hh Ep) as (k & vs' & -> & Hk & Hh1). cbn [exec Nat.add].
  change I32 with (of_wasm_type WASM_TYPE_I32). rewrite pop_typed by done. set (l := mkRLabel None sig E0) in *.
  assert (forall S1 S2 r, finish E0 sig S1 = Ok S2 -> good (l :: L) S1 r -> good L S2 (leave_block vs' r)) as Hleave
    by (intros S1' S2 r Hf Hr; exact (leave_typed L A l S1' S2 σ ls vs' r Hh1 Hs Hf (or_introl eq_refl) Hr)).
  pose proof (enter_block _ _ l _ _ _ Hh1) as Hin. pose proof (good_list n Hn ts _ _ _ _ _ _ _ _ _ Hin Hts E1) as Hg.
  change (arity l) with (length sig) in *. destruct fs as [|f fs].
  - apply res_bind_Ok in Hc as (S2 & E2 & Hc). apply res_bind_Ok in Hc as ([] & E3%reject_Ok & Hc). apply Ok_pair in Hc as [_ ->].
    cbn [andb negb] in E3. apply negb_false_iff, bool_decide_eq_true in E3.
    destruct (val_bits k =? 0); [|by eapply Hleave]. cbn [exec_list leave_block app].
    rewrite (proj1 (finish_pushes _ _ _ _ E2)), E3, pushes_live by (try constructor; apply Hh1). by eapply at_same.
  - apply res_bind_Ok in Hc as ([] & _ & Hc). apply res_bind_Ok in Hc as (u & E2 & Hc).
    apply res_bind_Ok in E2 as (S2 & E2 & _). apply res_bind_Ok in Hc as ([c2 S3] & E3 & Hc).
    apply res_bind_Ok in Hc as (S4 & E4 & Hc). apply Ok_pair in Hc as [_ ->].
    pose proof (good_list n Hn _ _ _ _ _ _ _ _ _ _ Hin Hfs E3) as Hg2.
    assert (S2 = S4) as -> by (by rewrite (proj1 (finish_pushes _ _ _ _ E2)), (proj1 (finish_pushes _ _ _ _ E4))).
    destruct (val_bits k =? 0); [exact (Hleave _ _ _ E4 Hg2)|exact (Hleave _ _ _ E2 Hg)].
Qed.

Lemma typed_fuel n : instance_typed ns nf -> calls_typed n -> (forall i, typed_instr n i) -> forall i, typed_instr (1 + n) i.
Proof.
  intros HI Hcalls Hn i. destruct i as [op|sig body|sig body|sig ts fs|op index|targets default_|sig_index|k|op log2 offset|op];
    [|by apply typed_block|by apply typed_loop|by apply typed_if|..];
    intros L A S pos σ ls vs c S' Hh Hok Hc; cbn [exec Nat.add comp ok_instr] in *.
  - by eapply good_op.
  - apply res_bind_Ok in Hc as ([] & Hs & Hc). by eapply good_index.
  - by eapply good_br_table.
  - by eapply good_call_indirect.
  - injection Hc as Hc. by eapply good_const.
  - apply andb_true_iff in Hok as [[[Hcb _]%andb_true_iff _]%andb_true_iff Ho]. apply bool_decide_eq_true in Ho.
    eapply good_memory; [exact Hh|exact Hcb| |exact Hc]. apply Ho.
  - by eapply good_reserved.
Qed.
End instr.

End body.

(** ** Functions *)

Context (ns nf : Z) (HI : instance_typed ns nf).

Definition instrs_typed (n : nat) : Prop := forall T i, target_typed T -> typed_instr T ns nf n i.

Lemma zero_locals ts : all_typed ts (map zero_val ts).
Proof. induction ts as [|t ts IH]; constructor; [apply typed_zero|exact IH]. Qed.

Lemma body_typed n : instrs_typed n -> calls_typed n.
Proof.
  intros Hn j sig f σ args Hj Hargs Hσ. destruct (it_body _ _ HI _ _ _ Hj) as (T & pos & code & HT & Hloc & Hres & Hok & Hc).
  unfold comp_body in Hc. apply res_bind_Ok in Hc as ([c S1] & E1 & Hc). apply res_bind_Ok in Hc as (S2 & E2 & _).
  unfold exec_body. rewrite <- Hres. set (l := mkRLabel None (t_results T) (rev (t_locals T))) in *.
  assert (typed_at T [l] [length (t_results T)] (rev (t_locals T)) σ (rev args ++ map zero_val (body_locals f)) []) as Hh.
  { split; [done|apply Forall_rev, (tt_locals T HT)|by exists []| |done]. rewrite Hloc. apply Forall2_app; [|apply zero_locals].
    rewrite <- (rev_involutive (param_types sig)), !rev_alt. apply Forall2_reverse. by rewrite <- rev_alt. }
  pose proof (good_list T ns nf n (fun i => Hn T i HT) (bf_body f) _ _ _ _ _ _ _ _ _ Hh Hok E1) as Hg.
  destruct (exec_list _ _ _ _ _ _ _) as [σ' ls vs|d σ' ls vs|σ' vs|x σ'| | |]; cbn [leave_body returns_typed good] in *; try done.
  - destruct Hg as [G1 G2 (Sv & -> & G3) G4 G5]. pose proof (finish_typed _ _ _ _ _ G2 E2 G3) as Hvs.
    pose proof (Forall2_length _ _ _ Hvs) as Hl. rewrite length_rev in Hl. rewrite <- Hl, Nat.eqb_refl.
    cbn [returns_typed]. by rewrite <- Hres.
  - destruct Hg as (l' & Hl & Hvs & Hls & Hσ'). destruct d as [|d]; [|done]. injection Hl as <-.
    cbn [returns_typed]. rewrite <- Hres. by split.
  - by rewrite <- Hres.
Qed.

Lemma all_instrs_typed n : instrs_typed n.
Proof.
  induction n as [|n IH]; intros T i HT; [done|].
  apply (typed_fuel T HT ns nf n HI (body_typed n IH)). intros i'. by apply IH.
Qed.

(** A call with arguments of the parameters' types. *)
Lemma call_typed n j sig f σ args : in_body I j = Some (sig, f) -> all_typed (rev (param_types sig)) args -> store_ok Γ σ ->
  returns_typed sig (call I n j σ args).
Proof. intros Hj Hargs Hσ. unfold call. rewrite Hj. exact (body_typed n (all_instrs_typed n) j sig f σ args Hj Hargs Hσ). Qed.

End soundness.

(** ** Traps *)

Definition is_trap (x : WasmInterpreterResult) : bool :=
  match x with WASM_INTERPRETER_OK | WASM_INTERPRETER_RETURNED => false | _ => true end.

Section traps.
Context `{NanBits} `{MemAllocator} (I : Instance).

Definition traps_only (r : Exec) : Prop := match r with Trapped x _ => is_trap x = true | _ => True end.
Definition op_traps (r : OpResult) : Prop := match r with Traps x => is_trap x = true | _ => True end.

Ltac traps := repeat case_match; subst; try done.

Lemma trunc_traps ft g lo hi w b : op_traps (trunc_op ft g lo hi w b).
Proof. unfold trunc_op, op_traps. traps; simplify_eq; done. Qed.

Lemma wrap_traps t r : op_traps r -> op_traps (wrap_result t r).
Proof. by destruct r. Qed.

Lemma num_op_traps op : match num_op op with
  | Some (IUn _ _ f) => forall a, op_traps (f a)
  | Some (IBin _ _ f) => forall a b, op_traps (f a b)
  | None => True
  end.
Proof.
  destruct op; cbn; try exact I; intros; try exact I; try (apply wrap_traps, trunc_traps).
  all: unfold NumericFacts.Spec.idiv_s, NumericFacts.Spec.idiv_u, NumericFacts.Spec.irem_s, NumericFacts.Spec.irem_u, op_traps.
  all: repeat case_match; simplify_eq; done.
Qed.

Lemma exec_num_traps op o σ ls vs : num_op op = Some o -> traps_only (exec_num o σ ls vs).
Proof.
  intros Ho. pose proof (num_op_traps op) as Ht. rewrite Ho in Ht. destruct o as [rt t f|rt t f]; cbn [exec_num].
  - destruct (pop_val t vs) as [[a vs']|]; [|done]. specialize (Ht a). by destruct (f a).
  - destruct (pop_val t vs) as [[b vs']|]; [|done]. destruct (pop_val t vs') as [[a vs'']|]; [|done].
    specialize (Ht a b). by destruct (f a b).
Qed.

Lemma exec_op_traps k op σ ls vs : traps_only (exec_op k op σ ls vs).
Proof.
  destruct op; cbn [exec_op];
    first [ match goal with |- traps_only (match num_op ?o with _ => _ end) =>
              pose proof (exec_num_traps o) as Ht; by destruct (num_op o); [apply Ht|] end
          | traps ].
Qed.

Lemma exec_branch_traps A d σ ls vs : traps_only (exec_branch A d σ ls vs).
Proof. unfold exec_branch. traps. Qed.

Lemma leave_block_traps vs r : traps_only r -> traps_only (leave_block vs r).
Proof. by destruct r as [|[|]| | | | |]. Qed.

Section run.
Context (run : list nat -> nat -> Store -> list Val -> list Val -> BInstr -> Exec)
  (Hrun : forall A k σ ls vs i, traps_only (run A k σ ls vs i)).

Lemma exec_list_traps A k l : forall σ ls vs, traps_only (exec_list run A k σ ls vs l).
Proof.
  induction l as [|i l IH]; intros σ ls vs; [done|]. cbn [exec_list]. specialize (Hrun A k σ ls vs i).
  by destruct (run A k σ ls vs i).
Qed.

Lemma exec_body_traps sig f σ args : traps_only (exec_body run sig f σ args).
Proof.
  unfold exec_body. pose proof (exec_list_traps [length (result_types sig)] (length (result_types sig)) (bf_body f) σ
    (rev args ++ map zero_val (body_locals f)) []) as Ht.
  destruct (exec_list _ _ _ _ _ _ _) as [? ? vs|[|]| | | | |]; try done; cbn [leave_body]; traps.
Qed.

Lemma exec_call_traps j σ ls vs : traps_only (exec_call I run j σ ls vs).
Proof.
  unfold exec_call. destruct (in_body I j) as [[sig f]|]; [|done]. destruct (take_values _ vs) as [args|]; [|done].
  pose proof (exec_body_traps sig f σ args). by destruct (exec_body run sig f σ args).
Qed.

Lemma exec_call_indirect_traps i σ ls vs : traps_only (exec_call_indirect I run i σ ls vs).
Proof. unfold exec_call_indirect. traps; apply exec_call_traps. Qed.

Lemma exec_index_traps A op i σ ls vs : traps_only (exec_index I run A op i σ ls vs).
Proof.
  destruct op; cbn [exec_index]; try done; traps; try apply exec_branch_traps; apply exec_call_traps.
Qed.
End run.

Lemma exec_traps n : forall A k σ ls vs i, traps_only (exec I n A k σ ls vs i).
Proof.
  induction n as [|n IH]; intros A k σ ls vs i; [done|]. pose proof (exec_list_traps (exec I n) IH) as Hl.
  destruct i as [op|sig l|sig l|sig ts fs|op index|targets d|si|c|op al off|op]; cbn [exec].
  - apply exec_op_traps.
  - apply leave_block_traps, Hl.
  - specialize (Hl (0%nat :: A) k l σ ls []). destruct (exec_list _ _ _ _ _ _ _) as [|[|]| | | | |]; try done; apply IH.
  - destruct (pop_val I32 vs) as [[c vs']|]; [|done]. apply leave_block_traps, Hl.
  - by apply exec_index_traps.
  - unfold exec_br_table. destruct (pop_val I32 vs) as [[c vs']|]; [|done]. apply exec_branch_traps.
  - by apply exec_call_indirect_traps.
  - done.
  - unfold exec_memory, exec_load, exec_store. traps.
  - unfold exec_reserved. traps.
Qed.

Lemma call_traps n j σ args : traps_only (call I n j σ args).
Proof. unfold call. destruct (in_body I j) as [[sig f]|]; [|done]. apply exec_body_traps, exec_traps. Qed.
End traps.
