(* ===== verification/CompileCorrect.v ===== *)
(** * Loaded code computes what its source means

    The loader's translation, the machine and the evaluator put together: where
    the loader takes a code section, and its bodies also pass three checks the
    loader lacks ([extra_codes]), a function called at the offset the loader gave
    it answers on the machine what the evaluator says, and never goes wrong. *)

From S2P Require Import Prelude Opcode BindingHash Vector StateOpt StateErr Stream Ast BinaryReader BinaryFormat Float Numeric Interp InterpFacts InterpOps InterpControl BinaryReaderInterpreter Compile CompileFacts RoundTrip CompileBody CompileCode Structured MachineRun CompileRun Soundness.

(** ** What the loader does not check *)

Section relax.
Context (T : Target).

Definition relaxes (i : BInstr) : Prop := forall L pos S r, comp T true L pos S i = Ok r -> comp T false L pos S i = Ok r.

Lemma relax_list l : Forall relaxes l -> forall L pos S r, comps T true L pos S l = Ok r -> comps T false L pos S l = Ok r.
Proof.
  induction 1 as [|i l Hi _ IH]; intros L pos S r Hr; [done|]. cbn [comps] in *.
  apply res_bind_Ok in Hr as ([c1 S1] & E1 & Hr). apply res_bind_Ok in Hr as ([c2 S2] & E2 & Hr).
  rewrite (Hi _ _ _ _ E1). cbn [res_bind]. rewrite (IH _ _ _ _ E2). exact Hr.
Qed.

Lemma comp_relaxes i : relaxes i.
Proof.
  refine (BInstr_nested_ind relaxes _ _ _ _ i); clear i;
    [intros sig body IH L pos S r Hr|intros sig body IH L pos S r Hr|intros sig ts fs IHt IHf L pos S r Hr|].
  4: { intros []; try exact I; intros L pos S r Hr; first [done|by apply res_bind_Ok in Hr as (u & _ & Hr)]. }
  - rewrite comp_block in *. apply res_bind_Ok in Hr as ([c1 S1] & E1 & Hr).
    by rewrite (relax_list _ IH _ _ _ _ E1).
  - rewrite comp_loop in *. apply res_bind_Ok in Hr as ([c1 S1] & E1 & Hr).
    by rewrite (relax_list _ IH _ _ _ _ E1).
  - rewrite comp_if in *. apply res_bind_Ok in Hr as (E0 & E & Hr). apply res_bind_Ok in Hr as ([c1 S1] & E1 & Hr).
    rewrite E. cbn [res_bind]. rewrite (relax_list _ IHt _ _ _ _ E1). cbn [res_bind]. destruct fs as [|f fs].
    + apply res_bind_Ok in Hr as (S2 & E2 & Hr). apply res_bind_Ok in Hr as (u & _ & Hr). rewrite E2. exact Hr.
    + apply res_bind_Ok in Hr as (u & E2 & Hr). apply res_bind_Ok in Hr as (u' & _ & Hr).
      apply res_bind_Ok in Hr as ([c2 S2] & E3 & Hr). rewrite E2. cbn [res_bind].
      rewrite (relax_list _ IHf _ _ _ _ E3). exact Hr.
Qed.

Lemma comp_body_relaxes pos f code : comp_body T true pos f = Ok code -> comp_body T false pos f = Ok code.
Proof.
  unfold comp_body. intros Hr. apply res_bind_Ok in Hr as ([c1 S1] & E1 & Hr).
  rewrite (relax_list (bf_body f) (Forall_true _ _ comp_relaxes) _ _ _ _ E1). exact Hr.
Qed.

(** What the loader takes and the extra checks pass, all checks together do. *)
Lemma extras_fix L pos S l :
  (fix go (pos : Z) (S : Types) (l : list BInstr) : bool :=
    match l with
    | [] => true
    | i :: l =>
        extra T L pos S i &&
        match comp T false L pos S i with Ok (c, S1) => go (pos + cells_size c) S1 l | _ => true end
    end) pos S l = extras T L pos S l.
Proof.
  revert pos S. induction l as [|i l IH]; intros pos S; [done|]. cbn [extras].
  destruct (comp T false L pos S i) as [[c1 S1]| |]; [|done|done]. by rewrite IH.
Qed.

Definition restricts (i : BInstr) : Prop := forall L pos S r,
  comp T false L pos S i = Ok r -> extra T L pos S i = true -> comp T true L pos S i = Ok r.

Lemma restrict_list l : Forall restricts l -> forall L pos S r,
  comps T false L pos S l = Ok r -> extras T L pos S l = true -> comps T true L pos S l = Ok r.
Proof.
  induction 1 as [|i l Hi _ IH]; intros L pos S r Hr Hx; [done|]. cbn [comps extras] in *.
  apply andb_true_iff in Hx as [Hx Hxs].
  apply res_bind_Ok in Hr as ([c1 S1] & E1 & Hr). apply res_bind_Ok in Hr as ([c2 S2] & E2 & Hr).
  rewrite E1 in Hxs. rewrite (Hi _ _ _ _ E1 Hx). cbn [res_bind]. rewrite (IH _ _ _ _ E2 Hxs). exact Hr.
Qed.

Lemma is_ok_Ok {A} (r : Res A) : is_ok r = true -> exists a, r = Ok a.
Proof. destruct r; try done. eauto. Qed.

Lemma comp_restricts i : restricts i.
Proof.
  refine (BInstr_nested_ind restricts _ _ _ _ i); clear i;
    [intros sig body IH L pos S r Hr Hx|intros sig body IH L pos S r Hr Hx|intros sig ts fs IHt IHf L pos S r Hr Hx|].
  4: { intros []; try exact I; intros L pos S r Hr Hx; try done. cbn [comp extra] in *.
       apply is_ok_Ok in Hx as [[] ->]. exact Hr. }
  all: cbn [extra] in Hx; rewrite ?extras_fix in Hx.
  - rewrite comp_block in *. apply res_bind_Ok in Hr as ([c1 S1] & E1 & Hr).
    by rewrite (restrict_list _ IH _ _ _ _ E1 Hx).
  - rewrite comp_loop in *. apply res_bind_Ok in Hr as ([c1 S1] & E1 & Hr).
    by rewrite (restrict_list _ IH _ _ _ _ E1 Hx).
  - rewrite comp_if in *. apply res_bind_Ok in Hr as (E0 & E & Hr). rewrite E in *. cbn [res_bind].
    apply andb_true_iff in Hx as [Hxt Hx]. rewrite ?extras_fix in Hxt.
    apply res_bind_Ok in Hr as ([c1 S1] & E1 & Hr). rewrite E1 in Hx. rewrite ?extras_fix in Hx.
    rewrite (restrict_list _ IHt _ _ _ _ E1 Hxt). cbn [res_bind]. destruct fs as [|f fs].
    + apply res_bind_Ok in Hr as (S2 & E2 & Hr). rewrite E2, Hx. exact Hr.
    + apply andb_true_iff in Hx as [Hx Hxf]. apply is_ok_Ok in Hx as [S2' Hx].
      apply res_bind_Ok in Hr as ([] & E2 & Hr). apply res_bind_Ok in Hr as (u & _ & Hr).
      apply res_bind_Ok in Hr as ([c2 S2] & E3 & Hr). rewrite E2, Hx. cbn [res_bind].
      rewrite (restrict_list _ IHf _ _ _ _ E3 Hxf). exact Hr.
Qed.

Lemma comp_body_restricts pos f code :
  comp_body T false pos f = Ok code -> extra_body T pos f = true -> comp_body T true pos f = Ok code.
Proof.
  unfold comp_body, extra_body. intros Hr Hx. apply res_bind_Ok in Hr as ([c1 S1] & E1 & Hr).
  rewrite (restrict_list (bf_body f) (Forall_true _ _ comp_restricts) _ _ _ _ E1); [exact Hr|].
  replace (cells_size _) with (match bf_locals f with [] => 0 | _ => 5 end); [exact Hx|].
  destruct (bf_locals f); [done|]. unfold opcode_cell, u32_cells. by autorewrite with cells.
Qed.
End relax.

Section section.
Context (c : Context) (old : list Z).
Abbreviation base := (Z.of_nat (length old)).

Lemma comp_codes_relax codes b offsets cells r :
  comp_codes c true b offsets cells codes = Ok r -> comp_codes c false b offsets cells codes = Ok r.
Proof.
  revert offsets cells. induction codes as [|f codes IH]; intros offsets cells Hr; [exact Hr|]. cbn [comp_codes] in *.
  apply res_bind_Ok in Hr as ([offsets1 cells1] & E1 & Hr). unfold comp_function in *.
  apply res_bind_Ok in E1 as ([[ei si] sig] & E0 & E1). apply res_bind_Ok in E1 as (code & Ec & E1).
  rewrite E0. cbn [res_bind]. rewrite (comp_body_relaxes _ _ _ _ Ec). cbn [res_bind].
  injection E1 as <- <-. by apply IH.
Qed.

Lemma comp_codes_restrict codes b offsets cells r :
  comp_codes c false b offsets cells codes = Ok r -> extra_codes c b offsets cells codes = true ->
  comp_codes c true b offsets cells codes = Ok r.
Proof.
  revert offsets cells. induction codes as [|f codes IH]; intros offsets cells Hr Hx; [exact Hr|].
  cbn [comp_codes extra_codes] in *. apply andb_true_iff in Hx as [Hx Hxs].
  apply res_bind_Ok in Hr as ([offsets1 cells1] & E1 & Hr). rewrite E1 in Hxs. unfold comp_function in *.
  apply res_bind_Ok in E1 as ([[ei si] sig] & E0 & E1). apply res_bind_Ok in E1 as (code & Ec & E1).
  rewrite E0. cbn [res_bind]. destruct (own_func c (length offsets)) as [[[ei' si'] sig']|]; [|done].
  injection E0 as -> -> ->. rewrite (comp_body_restricts _ _ _ _ Ec Hx). cbn [res_bind].
  injection E1 as <- <-. by apply IH.
Qed.

(** ** The functions' code in the section's *)

Lemma link_resolve_func ref fn j addr cells : fn j = addr ->
  link ref fn (resolve_cells (is_func_ref j) addr cells) = link ref fn cells.
Proof.
  intros <-. induction cells as [|x cells IH]; [done|]. rewrite resolve_cons, link_app, IH, link_cons. f_equal.
  unfold resolve_cell. destruct x as [b|m|m]; cbn [is_func_ref]; [apply app_nil_r..|].
  case_bool_decide as Hm; [subst m; apply link_raw|apply app_nil_r].
Qed.

(** What [comp_function] makes of function [j], the offsets up to its own being
    known. *)
Definition translated (offsets : list Z) (j : nat) (f : BFuncBody) (pos : Z) (code : list Cell) : Prop :=
  exists ei si sig, own_func c j = Some (ei, si, sig) /\
    comp_body (body_target c (take (1 + j) offsets) (param_types sig ++ expand_locals (bf_locals f)) (result_types sig))
      true pos f = Ok code.

Lemma comp_codes_link fn codes offsets cells offsets' cells' :
  comp_codes c true base offsets cells codes = Ok (offsets', cells') ->
  (forall j o, offsets' !! j = Some o -> fn j = o) ->
  exists more rest, offsets' = offsets ++ more /\ length more = length codes /\
    link (fun _ => 0) fn cells' = link (fun _ => 0) fn cells ++ rest /\
    forall k f, codes !! k = Some f -> exists pos code pre post,
      offsets' !! (length offsets + k)%nat = Some pos /\ translated offsets' (length offsets + k) f pos code /\
      rest = pre ++ link (fun _ => 0) fn code ++ post /\
      pos = base + cells_size cells + Z.of_nat (length pre).
Proof.
  revert offsets cells. induction codes as [|f codes IH]; intros offsets cells Hr Hfn; cbn [comp_codes] in Hr.
  { apply Ok_pair in Hr as [-> ->]. exists [], []. rewrite !app_nil_r. by split_and!. }
  apply res_bind_Ok in Hr as ([offsets1 cells1] & E1 & Hr). unfold comp_function in E1.
  apply res_bind_Ok in E1 as ([[ei si] sig] & E0 & E1). apply res_bind_Ok in E1 as (code & Ec & E1).
  set (pos := base + cells_size cells) in *. injection E1 as <- <-.
  destruct (IH _ _ Hr Hfn) as (more & rest & -> & Hlen & Hlink & Hrest).
  assert (fn (length (offsets ++ [pos]) - 1)%nat = pos) as Hpos.
  { apply Hfn. rewrite length_app. cbn [length]. rewrite Nat.add_sub, <- app_assoc. by apply list_lookup_middle. }
  rewrite link_app, (link_resolve_func _ _ _ _ _ Hpos), <- app_assoc in Hlink.
  exists (pos :: more), (link (fun _ => 0) fn code ++ rest). rewrite <- app_assoc.
  split; [done|]. split; [by cbn; rewrite Hlen|]. split; [exact Hlink|]. intros [|k] f' Hk.
  - injection Hk as <-. exists pos, code, [], rest. rewrite Nat.add_0_r. cbn [app length].
    split; [by apply list_lookup_middle|]. split; [|split; [done|lia]]. exists ei, si, sig.
    destruct (own_func c (length offsets)) as [[[? ?] ?]|] eqn:Eo; [|done]. injection E0 as -> -> ->. split; [done|].
    change (offsets ++ pos :: more) with (offsets ++ [pos] ++ more). rewrite app_assoc.
    replace (1 + length offsets)%nat with (length (offsets ++ [pos])) by (rewrite length_app; cbn; lia).
    by rewrite take_app_length.
  - destruct (Hrest k f' Hk) as (pos' & code' & pre & post & H1 & H2 & -> & H4). rewrite <- app_assoc in H1, H2.
    rewrite length_app in H1, H2. cbn [length app] in H1, H2.
    replace (length offsets + 1 + k)%nat with (length offsets + S k)%nat in * by lia.
    exists pos', code', (link (fun _ => 0) fn code ++ pre), post. split; [exact H1|]. split; [exact H2|].
    split; [by rewrite <- app_assoc|]. rewrite H4, cells_size_app, cells_size_resolve by done.
    rewrite length_app, Nat2Z.inj_add, length_link. lia.
Qed.

(** ** The module as the evaluator sees it *)

Definition own_position (ei : Z) : option nat := fst <$> list_find (fun i => i = ei) (own_indexes c).

Definition module_instance (codes : list BFuncBody) (tables : list Table) : Instance :=
  mkInstance
    (fun j => '(_, _, sig) ← own_func c j; f ← codes !! j; Some (sig, f))
    (fun i => if i <? num_func_imports c then None
              else if i <? size_of (func_index_mapping c) then Some (Z.to_nat (i - num_func_imports c)) else None)
    (fun i => ei ← zget (sig_index_mapping c) i; zget (env_sigs (ctx_env c)) ei)
    (fun i => zget (global_index_mapping c) i)
    (from_option module_memory_index WASM_INVALID_INDEX (own_module c))
    (tbl_func_indexes <$> zget tables (from_option module_table_index WASM_INVALID_INDEX (own_module c)))
    own_position
    (fun ei => f ← zget (env_funcs (ctx_env c)) ei; zget (env_sigs (ctx_env c)) (func_sig_index f)).

(** Indices fit 32 bits, and globals have a type. *)
Definition addressable : bool :=
  (size_of (env_sigs (ctx_env c)) <? 2 ^ 32) && (size_of (env_globals (ctx_env c)) <? 2 ^ 32) &&
  forallb (fun g => is_valueb (tv_type (gl_typed_value g))) (env_globals (ctx_env c)) &&
  match own_module c with Some m => ok_u32 (module_memory_index m) && ok_u32 (module_table_index m) | None => false end.

Definition global_types : list WasmType := map (fun g => tv_type (gl_typed_value g)) (env_globals (ctx_env c)).

(** The environment [e] of a run is that of the loader's context [c'], with the
    instructions [code]; memories and globals are those of the run. *)
Record in_env (c' : Context) (code : list Z) (e : Env) : Prop := {
  ie_sigs : sigs e = env_sigs (ctx_env c');
  ie_funcs : funcs e = env_funcs (ctx_env c');
  ie_istream : istream e = code;
  ie_bytes : bytes_ok code;
  ie_tables : Forall (table_ok e) (tables e)
}.

Section loaded.
Context (codes : list BFuncBody) (Hready : ready c (length codes) = true) (Haddr : addressable = true)
  (num_sigs num_funcs : Z) (Hok : forallb (ok_code num_sigs num_funcs) codes = true)
  (Hroom : base + codes_weight c 0 codes < 2 ^ 32 - 1)
  (offsets : list Z) (bytes : list Z)
  (Hcomp : comp_codes c true base [] [] codes = Ok (offsets, raw bytes))
  (fs : list Func) (k : CodeContext) (Hprog : progress c (length codes) old offsets (raw bytes) fs k)
  (Hbytes : Z.of_nat (length bytes) <= codes_weight c 0 codes)
  (e : Env) (Henv : in_env (ctx c fs k) (old ++ bytes) e).

Definition fn_addr (j : nat) : Z := default 0 (offsets !! j).
Abbreviation I := (module_instance codes (tables e)).

Lemma addressable_facts : size_of (env_sigs (ctx_env c)) < 2 ^ 32 /\ size_of (env_globals (ctx_env c)) < 2 ^ 32 /\
  (forall g, g ∈ env_globals (ctx_env c) -> is_value (tv_type (gl_typed_value g))) /\
  exists m, own_module c = Some m /\ in_u 32 (module_memory_index m) /\ in_u 32 (module_table_index m).
Proof.
  pose proof Haddr as Ha. unfold addressable in Ha. destruct (own_module c) as [m|]; [|by rewrite andb_false_r in Ha].
  apply andb_true_iff in Ha as [[[H1 H2]%andb_true_iff H3]%andb_true_iff [H4 H5]%andb_true_iff].
  split_and!; [by apply Z.ltb_lt|by apply Z.ltb_lt| |].
  - intros g Hg. apply forallb_Forall in H3. rewrite Forall_forall in H3. by apply is_valueb_spec, H3.
  - exists m. unfold ok_u32 in *. split_and!; [done|by eapply bool_decide_eq_true|by eapply bool_decide_eq_true].
Qed.

Lemma offsets_length : length offsets = length codes.
Proof.
  destruct (comp_codes_link (fun j => default 0 (offsets !! j)) codes [] [] offsets (raw bytes) Hcomp)
    as (more & rest & E & Hl & _); [by intros j o ->|]. by rewrite E, <- Hl.
Qed.

Lemma istream_length : Z.of_nat (length (istream e)) < 2 ^ 32.
Proof. rewrite (ie_istream _ _ _ Henv), length_app. lia. Qed.

Lemma in_body_func j sig f : in_body I j = Some (sig, f) ->
  codes !! j = Some f /\ exists ei si, own_func c j = Some (ei, si, sig) /\ sig_fine sig.
Proof.
  cbn [in_body module_instance]. destruct (own_func c j) as [[[ei si] sig']|] eqn:Eo; cbn; [|done].
  destruct (codes !! j) as [f'|] eqn:Ef; cbn; [|done]. intros [= -> ->]. split; [done|].
  exists ei, si. split; [done|]. pose proof (lookup_lt_Some _ _ _ Ef) as Hj.
  destruct (own_func_ok c _ Hready j Hj) as (? & ? & ? & ? & ? & E & _ & _ & _ & Hs). rewrite Eo in E. by injection E as -> -> ->.
Qed.

Lemma body_at j f : codes !! j = Some f -> exists ei si sig a b, own_func c j = Some (ei, si, sig) /\ sig_fine sig /\
  zget (func_index_mapping c) (num_func_imports c + Z.of_nat j) = Some ei /\
  zget (env_funcs (ctx_env c)) ei = Some (mkFunc si (DefinedFunc WASM_INVALID_OFFSET a b [])) /\
  in_body I j = Some (sig, f).
Proof.
  intros Hj. destruct (own_func_ok c _ Hready j (lookup_lt_Some _ _ _ Hj)) as (ei & si & a & b & sig & Eo & Ei & Ef & _ & Hs).
  exists ei, si, sig, a, b. cbn [in_body module_instance]. by rewrite Eo, Hj.
Qed.

(** Loading changes no signature. *)
Lemma funcs_kept ei f0 : zget (env_funcs (ctx_env c)) ei = Some f0 ->
  exists f, zget fs ei = Some f /\ func_sig_index f = func_sig_index f0.
Proof.
  intros Hf. pose proof (ready_ok _ _ Hready) as Hr.
  destruct (decide (ei ∈ own_indexes c)) as [[j Hj]%list_elem_of_lookup|Hno].
  - assert (zget (func_index_mapping c) (num_func_imports c + Z.of_nat j) = Some ei) as Hown
      by (rewrite own_lookup by apply Hr; exact Hj).
    pose proof (own_small c _ Hready j ei Hown) as Hlt. rewrite <- offsets_length in Hlt.
    apply lookup_lt_is_Some in Hlt as [o Ho].
    destruct (pg_done _ _ _ _ _ _ _ Hprog j o ei Ho Hown) as (_ & si & a & b & ts & f0' & E1 & E2 & E3).
    eexists. split; [exact E1|]. cbn. congruence.
  - exists f0. split; [|done]. rewrite (pg_rest _ _ _ _ _ _ _ Hprog); [done|]. intros j _ Hown.
    rewrite own_lookup in Hown by apply Hr. by apply Hno, (list_elem_of_lookup_2 _ j).
Qed.

Lemma funcs_known ei f : zget fs ei = Some f ->
  exists f0, zget (env_funcs (ctx_env c)) ei = Some f0 /\ func_sig_index f0 = func_sig_index f.
Proof.
  intros Hf. destruct (zget (env_funcs (ctx_env c)) ei) as [f0|] eqn:Ef.
  - destruct (funcs_kept ei f0 Ef) as (f' & E & Es). exists f0. split; [done|]. congruence.
  - exfalso. pose proof (ready_ok _ _ Hready) as Hr. rewrite (pg_rest _ _ _ _ _ _ _ Hprog) in Hf; [congruence|].
    intros j Hj Hown. destruct (rf_own _ _ Hr j) as (ei' & si & a & b & sig & E1 & E2 & _); [|congruence].
    by eapply own_small.
Qed.

(** Where function [j] is. *)
Lemma function_at j f : codes !! j = Some f -> exists code, offsets !! j = Some (fn_addr j) /\
  translated offsets j f (fn_addr j) code /\ code_at e (fn_addr j) (link (fun _ => 0) fn_addr code).
Proof.
  intros Hj. destruct (comp_codes_link fn_addr codes [] [] offsets (raw bytes) Hcomp)
    as (more & rest & E & Hl & Hlink & Hrest); [by intros i o Ho; unfold fn_addr; rewrite Ho|].
  destruct (Hrest j f Hj) as (pos & code & pre & post & Ho & Ht & -> & Hp). cbn [length Nat.add] in Ho, Ht.
  assert (fn_addr j = pos) as -> by (unfold fn_addr; by rewrite Ho).
  exists code. split_and!; [done|done|]. rewrite link_raw in Hlink. cbn [link map concat app] in Hlink.
  rewrite cells_size_nil, Z.add_0_r in Hp. pose proof istream_length as Hlen. unfold code_at.
  rewrite (ie_istream _ _ _ Henv) in *. rewrite Hlink in *. rewrite !length_app in *. split; [lia|]. split; [lia|].
  exists post. replace (Z.to_nat pos) with (length old + length pre)%nat by lia.
  by rewrite <- drop_drop, drop_app_length, drop_app_length.
Qed.

Lemma fn_addr_u32 j f : codes !! j = Some f -> in_u 32 (fn_addr j).
Proof.
  intros Hj. destruct (function_at j f Hj) as (code & _ & _ & Hp & Hl & _). pose proof istream_length. unfold in_u. lia.
Qed.

Lemma own_position_spec ei j : own_position ei = Some j ->
  zget (func_index_mapping c) (num_func_imports c + Z.of_nat j) = Some ei.
Proof.
  unfold own_position. destruct (list_find _ _) as [[j' ei']|] eqn:E; cbn; [|done]. intros [= <-].
  apply list_find_Some in E as (E & -> & _). rewrite own_lookup by apply (ready_ok _ _ Hready). exact E.
Qed.

Lemma own_in_body j ei : zget (func_index_mapping c) (num_func_imports c + Z.of_nat j) = Some ei ->
  exists sig f f0, in_body I j = Some (sig, f) /\ codes !! j = Some f /\
    zget (env_funcs (ctx_env c)) ei = Some f0 /\ zget (env_sigs (ctx_env c)) (func_sig_index f0) = Some sig.
Proof.
  intros Hown. pose proof (own_small c _ Hready j ei Hown) as [f Hf]%lookup_lt_is_Some.
  destruct (own_func_ok c _ Hready j (lookup_lt_Some _ _ _ Hf)) as (ei' & si & a & b & sig & Eo & Ei & Ef & Es & _).
  assert (ei' = ei) as -> by congruence. exists sig, f, (mkFunc si (DefinedFunc WASM_INVALID_OFFSET a b [])).
  split_and!; [|done..]. cbn [in_body module_instance]. by rewrite Eo, Hf.
Qed.

Lemma functions_related : functions_rel e I fn_addr.
Proof.
  split.
  - intros j sig f [Hj _]%in_body_func. by eapply fn_addr_u32.
  - intros i sig Hi. cbn [in_element_sig module_instance] in Hi.
    destruct (zget (env_funcs (ctx_env c)) i) as [f0|] eqn:Ef; cbn in Hi; [|done].
    destruct (funcs_kept i f0 Ef) as (f & Ef' & Es). exists f.
    rewrite (ie_funcs _ _ _ Henv), (ie_sigs _ _ _ Henv), Es. by split.
  - intros i j Hi%own_position_spec. destruct (own_in_body j i Hi) as (sig & f & f0 & Hb & Hj & Ef0 & Es).
    destruct (function_at j f Hj) as (code & Ho & _).
    destruct (pg_done _ _ _ _ _ _ _ Hprog j _ i Ho Hi) as (_ & si & a & b & ts & f0' & E1 & E2 & E3).
    exists (mkFunc si (DefinedFunc (fn_addr j) a b ts)), a, b, ts, f. rewrite (ie_funcs _ _ _ Henv).
    split_and!; [done|done|]. intros sig' Hs. cbn [in_element_sig module_instance] in Hs.
    rewrite Ef0 in Hs. cbn in Hs. rewrite Es in Hs. by injection Hs as <-.
Qed.

Lemma locals_values f : f ∈ codes -> all_values (expand_locals (bf_locals f)).
Proof.
  intros Hf. pose proof Hok as H. rewrite forallb_forall in H. specialize (H f). rewrite <- list_elem_of_In in H.
  specialize (H Hf). unfold ok_code in H. apply andb_true_iff in H as [H _]. apply forallb_Forall in H.
  unfold expand_locals. induction H as [|r l Hr _ IH]; [constructor|]. cbn [map concat]. apply Forall_app_2; [|exact IH].
  apply andb_true_iff in Hr as [_ Hr]. apply Forall_replicate. by apply value_type_value.
Qed.

(** Function [i], as the body that follows the offsets [offs] calls it. *)
Lemma target_func offs i sig callee : offs `prefix_of` offsets ->
  t_func (body_target c offs [] []) i = Some (sig, callee) -> all_values (result_types sig) /\
    forall j, in_func I i = Some j -> (callee = CodeCallee (fn_addr j) \/ callee = LaterCallee j) /\
      exists f, in_body I j = Some (sig, f).
Proof.
  intros [rest Hoffs] Hi. cbn [t_func body_target] in Hi. pose proof (ready_ok _ _ Hready) as Hr.
  destruct (zget (func_index_mapping c) i) as [ei|] eqn:Em; cbn in Hi; [|done].
  destruct (zget (env_funcs (ctx_env c)) ei) as [f0|] eqn:Ef; cbn in Hi; [|done].
  destruct (zget (env_sigs (ctx_env c)) (func_sig_index f0)) as [sig'|] eqn:Es; cbn in Hi; [|done].
  injection Hi as -> <-. destruct (Z.ltb_spec i (num_func_imports c)) as [Hlt|Hge].
  - destruct (rf_import _ _ Hr i ei Hlt Em) as (f & sig' & E1 & E2 & Hs & _). split; [|intros j Hj].
    + assert (sig' = sig) as -> by congruence. apply Hs.
    + cbn [in_func module_instance] in Hj. by rewrite (proj2 (Z.ltb_lt _ _) Hlt) in Hj.
  - pose proof (rf_imports _ _ Hr). set (j := Z.to_nat (i - num_func_imports c)).
    assert (zget (func_index_mapping c) (num_func_imports c + Z.of_nat j) = Some ei) as Hown
      by (unfold j; rewrite Z2Nat.id by lia; by replace (num_func_imports c + (i - num_func_imports c)) with i by lia).
    destruct (own_in_body j ei Hown) as (sig' & f & f0' & Hb & Hj & Ef0 & Es0).
    assert (sig' = sig) as -> by congruence. split; [by destruct (in_body_func _ _ _ Hb) as (_ & _ & _ & _ & Hs); apply Hs|].
    intros j' Hj'. cbn [in_func module_instance] in Hj'. rewrite (proj2 (Z.ltb_ge _ _) Hge) in Hj'.
    destruct (i <? _); [|done]. injection Hj' as <-. fold j. split; [|by exists f].
    unfold body_callee. rewrite (proj2 (Z.ltb_ge _ _) Hge). fold j.
    destruct (offs !! j) as [o|] eqn:Eo; [left|by right]. f_equal. unfold fn_addr. rewrite Hoffs.
    by rewrite (lookup_app_l_Some _ _ _ _ Eo).
Qed.

Lemma body_target_related offs j sig f : offs `prefix_of` offsets -> in_body I j = Some (sig, f) ->
  target_rel e I fn_addr (body_target c offs (param_types sig ++ expand_locals (bf_locals f)) (result_types sig)).
Proof.
  intros Hoffs Hj. destruct (in_body_func _ _ _ Hj) as (Ef & ei & si & _ & Hs).
  destruct addressable_facts as (Hsigs & Hglobals & Hgt & m & Em & Hmem & Htab).
  pose proof (ready_ok _ _ Hready) as Hr.
  split; cbn [t_locals t_results t_sig t_global t_memory t_table body_target in_sig in_global in_memory in_table module_instance].
  - apply Forall_app_2; [apply Hs|]. apply locals_values. by eapply list_elem_of_lookup_2.
  - split; apply Hs.
  - intros i sig' callee Hi. by eapply target_func.
  - intros i ei' sig' Hi. destruct (zget (sig_index_mapping c) i) as [ei''|] eqn:Ei; cbn in Hi; [|done].
    destruct (zget (env_sigs (ctx_env c)) ei'') as [sig''|] eqn:Es; cbn in Hi; [|done]. injection Hi as -> ->.
    destruct (rf_sig _ _ Hr _ _ Ei) as (sig'' & E & Hs'). assert (sig'' = sig') as -> by congruence.
    split_and!; [apply Hs'|done| |]; [by rewrite (ie_sigs _ _ _ Henv)|].
    apply zget_lookup in Es as [? ?%lookup_lt_Some]. unfold in_u, size_of in *. lia.
  - intros i g t mut Hi. destruct (zget (global_index_mapping c) i) as [ei'|] eqn:Ei; cbn in Hi; [|done].
    destruct (zget (env_globals (ctx_env c)) ei') as [gl|] eqn:Eg; cbn in Hi; [|done]. injection Hi as <- <- _.
    split_and!; [by eapply Hgt, zget_elem|done|].
    apply zget_lookup in Eg as [? ?%lookup_lt_Some]. unfold in_u, size_of in *. lia.
  - split; [done|]. by rewrite Em.
  - intros elements. rewrite Em. cbn [from_option]. destruct (zget (tables e) _) as [table|] eqn:Et; cbn; [|done].
    intros [= <-]. split; [done|]. exists table. split_and!; [done|done|].
    pose proof (ie_tables _ _ _ Henv) as Ht. rewrite Forall_forall in Ht. by eapply Ht, zget_elem.
Qed.

Lemma codes_weight_at j f : codes !! j = Some f -> func_weight c j f <= codes_weight c 0 codes.
Proof.
  clear. enough (forall m, codes !! j = Some f -> func_weight c (m + j) f <= codes_weight c m codes) as H by apply (H 0%nat).
  revert j. induction codes as [|g l IH]; intros j m Hj; [done|]. cbn [codes_weight].
  pose proof (codes_weight_nonneg c (S m) l). destruct j as [|j].
  - injection Hj as ->. rewrite Nat.add_0_r. lia.
  - specialize (IH j (S m) Hj). replace (S m + j)%nat with (m + S j)%nat in IH by lia.
    assert (0 <= func_weight c m g); [|lia]. unfold func_weight, num_params. pose proof (weights_nonneg (bf_body g)).
    destruct (own_func c m) as [[[? ?] ?]|]; cbn [from_option]; lia.
Qed.

Definition max_depth : nat := list_max (map (fun f => depths (bf_body f)) codes).

Lemma code_linked : linked max_depth e I fn_addr num_sigs num_funcs.
Proof.
  intros j sig f Hj. destruct (in_body_func _ _ _ Hj) as (Ef & ei & si & Eo & Hs).
  destruct (function_at j f Ef) as (code & _ & (ei' & si' & sig' & Eo' & Hc) & Hcode).
  assert (sig' = sig) as -> by congruence.
  exists (body_target c (take (1 + j) offsets) (param_types sig ++ expand_locals (bf_locals f)) (result_types sig)), code.
  split; [apply (body_target_related _ j); [apply prefix_take|done]|]. split; [done|]. split; [done|].
  split; [|split; [|split; [|by split]]].
  - pose proof (codes_weight_at j f Ef) as Hw. unfold func_weight, num_params in Hw. rewrite Eo in Hw.
    pose proof (weights_nonneg (bf_body f)). cbn [t_locals body_target from_option] in *. rewrite length_app. lia.
  - pose proof Hok as H. rewrite forallb_forall in H. specialize (H f). rewrite <- list_elem_of_In in H.
    specialize (H ltac:(by eapply list_elem_of_lookup_2)). by apply andb_true_iff in H as [_ H].
  - pose proof (proj1 (list_max_le (map (fun f => depths (bf_body f)) codes) max_depth) (Nat.le_refl _)) as H.
    apply List.Forall_map in H. rewrite List.Forall_forall in H. apply H, list_elem_of_In. by eapply list_elem_of_lookup_2.
Qed.

(** ** The module's types *)

Lemma target_is_typed offs j sig f : offs `prefix_of` offsets -> in_body I j = Some (sig, f) ->
  target_typed I global_types
    (body_target c offs (param_types sig ++ expand_locals (bf_locals f)) (result_types sig)).
Proof.
  intros Hoffs Hj. pose proof (body_target_related offs j sig f Hoffs Hj) as HT.
  split.
  - apply HT.
  - apply HT.
  - intros i sig' callee Hi. destruct (tr_func _ _ _ _ HT _ _ _ Hi) as [Hres Hb]. split; [done|]. intros j' Hj'.
    by destruct (Hb j' Hj').
  - intros i ei sig' Hi. by destruct (tr_sig _ _ _ _ HT _ _ _ Hi) as (? & ? & _).
  - intros i g t m Hi. destruct (tr_global _ _ _ _ HT _ _ _ _ Hi) as (Ht & Hg & _). split_and!; [done|done|].
    cbn [t_global body_target] in Hi. destruct (zget (global_index_mapping c) i) as [ei|] eqn:Ei; cbn in Hi; [|done].
    destruct (zget (env_globals (ctx_env c)) ei) as [gl|] eqn:Eg; cbn in Hi; [|done]. injection Hi as <- <- _.
    apply zget_Some in Eg as [Hi Eg]. apply zget_Some. split; [done|]. unfold global_types.
    by rewrite list_lookup_fmap, Eg.
Qed.

Lemma module_typed : instance_typed I global_types num_sigs num_funcs.
Proof.
  split.
  - intros j sig f Hj. destruct (in_body_func _ _ _ Hj) as (Ef & ei & si & Eo & _).
    destruct (function_at j f Ef) as (code & _ & (ei' & si' & sig' & Eo' & Hc) & _).
    assert (sig' = sig) as -> by congruence. do 3 eexists. split; [exact (target_is_typed _ j sig f (prefix_take offsets (1 + j)) Hj)|].
    split; [done|]. split; [done|]. split; [|exact Hc].
    pose proof Hok as H. rewrite forallb_forall in H. specialize (H f). rewrite <- list_elem_of_In in H.
    specialize (H ltac:(by eapply list_elem_of_lookup_2)). by apply andb_true_iff in H as [_ H].
  - intros elements Ht. cbn [in_table module_instance] in Ht. destruct (zget (tables e) _) as [table|] eqn:Et; cbn in Ht; [|done].
    injection Ht as <-. pose proof (ie_tables _ _ _ Henv) as Htok. rewrite Forall_forall in Htok.
    eapply Forall_impl; [eapply Htok, zget_elem, Et|]. intros el [?|(f & sig & Ef & Es)]; [by left|right]. exists sig.
    rewrite (ie_funcs _ _ _ Henv) in Ef. destruct (funcs_known el f Ef) as (f0 & Ef0 & Esi).
    cbn [in_element_sig module_instance]. rewrite Ef0. cbn. rewrite Esi. by rewrite (ie_sigs _ _ _ Henv) in Es.
  - intros el j sig Hj Hs. destruct (fr_own _ _ _ functions_related _ _ Hj) as (f & a & b & ts & body & _ & _ & Hb).
    exists body. by apply Hb.
Qed.
End loaded.
End section.

(** ** Functions of a loaded module *)

Lemma runs_never `{NanBits} `{MemAllocator} top st R : runs top st (fun _ => False) R ->
  exists n x st', run_loop n top st = Exit x st' /\ (exhausted x = true \/ R x st').
Proof. intros [n Hn]. destruct (run_loop n top st) as [|x st'|] eqn:E; [done| |done]. by exists n, x, st'. Qed.

(** The loader's context [c] when the code section [codes] begins, after the
    instructions [old]; the bodies pass the loader's type checks and the three it
    lacks, and are at [offsets]. *)
Record accepts (c : Context) (old : list Z) (num_sigs num_funcs : Z) (codes : list BFuncBody) (offsets : list Z) : Prop := {
  ac_ready : ready c (length codes) = true;
  ac_addressable : addressable c = true;
  ac_code : mem_rep (istream_writer (ctx_code c)) old;
  ac_offset : istream_offset (ctx_code c) = Z.of_nat (length old);
  ac_fixups : func_fixups (ctx_code c) = replicate (length codes) [];
  ac_bodies : forallb (ok_code num_sigs num_funcs) codes = true;
  ac_room : Z.of_nat (length old) + codes_weight c 0 codes < 2 ^ 32 - 1;
  ac_checks : exists cells, comp_codes c true (Z.of_nat (length old)) [] [] codes = Ok (offsets, cells)
}.

Lemma load_accepted uninit_entry c old num_sigs num_funcs codes offsets :
  accepts c old num_sigs num_funcs codes offsets ->
  exists fs k bytes, se_for (s_binary_reader uninit_entry) (indexed code_callbacks 0 codes) c = Some (Some tt, ctx c fs k) /\
    mem_rep (istream_writer k) (old ++ bytes) /\ Z.of_nat (length bytes) <= codes_weight c 0 codes /\
    comp_codes c true (Z.of_nat (length old)) [] [] codes = Ok (offsets, raw bytes) /\
    progress c (length codes) old offsets (raw bytes) fs k.
Proof.
  intros [Hready _ Hm Ho Hf Hok Hroom [cells Hcomp]]. pose proof (comp_codes_relax _ _ _ _ _ _ Hcomp) as Hrel.
  pose proof (progress_start c (length codes) old Hm Ho Hf) as H1.
  pose proof (load_codes uninit_entry c (length codes) Hready old num_sigs num_funcs codes [] [] _ _ H1) as Hl.
  rewrite ctx_same in Hl. cbn [length] in Hl. change (Z.of_nat 0) with 0 in Hl.
  specialize (Hl ltac:(lia) Hok ltac:(rewrite cells_size_nil; lia)). rewrite Hrel in Hl.
  destruct Hl as (s' & E & fs' & k' & -> & H' & Hlen & Hsz). cbn [fst snd length] in *.
  destruct (scoped_bytes _ _ (pg_scope _ _ _ _ _ _ _ H')) as [bytes ->]; [lia|].
  rewrite cells_size_nil, cells_size_raw in Hsz. exists fs', k', bytes. split_and!; [exact E| |lia|exact Hcomp|exact H'].
  pose proof (pg_code _ _ _ _ _ _ _ H') as Hc. by rewrite flat_raw in Hc.
Qed.

(** The functions of a loaded module on the machine: their answers, and how far
    a run comes when the fuel is not enough. *)
Lemma loaded_runs `{NanBits} `{MemAllocator} (uninit_entry : nat -> WasmBindingHashEntry) (c : Context)
    (old : list Z) (num_sigs num_funcs : Z) (codes : list BFuncBody) (offsets : list Z) :
  accepts c old num_sigs num_funcs codes offsets ->
  exists c' code,
    se_for (s_binary_reader uninit_entry) (indexed code_callbacks 0 codes) c = Some (Some tt, c') /\
    mem_rep (istream_writer (ctx_code c')) code /\
    forall e, in_env c' code e ->
    forall fuel j ei si o a b types sig f σ args low cs st,
      zget (func_index_mapping c) (num_func_imports c + Z.of_nat j) = Some ei ->
      zget (funcs e) ei = Some (mkFunc si (DefinedFunc o a b types)) ->
      in_body (module_instance c codes (tables e)) j = Some (sig, f) ->
      all_typed (rev (param_types sig)) args -> store_ok (global_types c) σ -> machine e σ low args cs o st ->
      let r := call (module_instance c codes (tables e)) fuel j σ args in
      returns_typed (global_types c) sig r /\
      (answered r -> runs (Z.of_nat (length cs)) st (fun _ => False) (answers e r low cs)) /\
      (r = NoFuel -> forall k, call_bound (max_depth codes) fuel k -> takes (Z.of_nat (length cs)) k st).
Proof.
  intros Hacc. destruct (load_accepted uninit_entry _ _ _ _ _ _ Hacc) as (fs & k & bytes & E & Hc & Hsz & Hcomp & H').
  destruct Hacc as [Hready Haddr _ _ _ Hok Hroom _].
  exists (ctx c fs k), (old ++ bytes). split; [exact E|]. split; [exact Hc|].
  intros e He fuel j ei si o a b types sig f σ args low cs st Hei Hfe Hj Hargs Hσ Hst r.
  destruct (in_body_func c codes Hready e j sig f Hj) as (Ej & _).
  destruct (function_at c old codes Hroom offsets bytes Hcomp fs k H' Hsz e He j f Ej) as (code & Hoff & _).
  destruct (pg_done _ _ _ _ _ _ _ H' j _ ei Hoff Hei) as (_ & si' & a' & b' & ts' & f0 & E1 & _).
  rewrite (ie_funcs _ _ _ He) in Hfe. cbn [ctx_env ctx set_code set_ctx_env with_funcs env_funcs] in Hfe.
  assert (o = fn_addr offsets j) as -> by congruence.
  assert (bytes_ok (istream e)) as Hbytes by (rewrite (ie_istream _ _ _ He); apply (ie_bytes _ _ _ He)).
  assert (Z.of_nat (length (istream e)) < 2 ^ 32) as Hsize by (by eapply istream_length).
  split; [eapply call_typed; [by eapply module_typed|done..]|].
  apply Forall2_length in Hargs. rewrite length_rev in Hargs. split.
  - intros Ha. eapply run_outermost; [exact Hbytes|exact Hsize|by eapply functions_related|by eapply code_linked|done
      |exact Hj|done|done|done].
  - intros Hn. eapply run_unfinished; [exact Hbytes|exact Hsize|by eapply functions_related|by eapply code_linked|done
      |exact Hj|done|done|exact Hn].
Qed.

(** C1 - The whole way from a parsed body to its results.  Let the loader begin
    a code section whose bodies pass its type checks and the three it lacks
    ([accepts]).  Then loading succeeds, and for every environment with the
    loader's signatures, functions and instructions: when a function of the
    module is entered at the offset the loader put in the environment, on
    arguments of its parameters' types, with well-typed memories and globals and
    over any call stack and value stack, the machine leaves its loop after
    finitely many instructions with exactly the evaluator's answer - the
    results on the stack and the memories and globals it says, or the trap it
    says - unless one of the two stacks is full on the way.  The evaluator
    knows nothing of code, offsets, fixups, labels or stacks; the theorem says
    nothing of calls it has no end for with any fuel, or leaves to others
    ([Outside]). *)
Theorem compiled_code_correct `{NanBits} `{MemAllocator} (uninit_entry : nat -> WasmBindingHashEntry) (c : Context)
    (old : list Z) (num_sigs num_funcs : Z) (codes : list BFuncBody) (offsets : list Z) :
  accepts c old num_sigs num_funcs codes offsets ->
  exists c' code,
    se_for (s_binary_reader uninit_entry) (indexed code_callbacks 0 codes) c = Some (Some tt, c') /\
    mem_rep (istream_writer (ctx_code c')) code /\
    forall e, in_env c' code e ->
    forall fuel j ei si o a b types sig f σ args low cs st,
      zget (func_index_mapping c) (num_func_imports c + Z.of_nat j) = Some ei ->
      zget (funcs e) ei = Some (mkFunc si (DefinedFunc o a b types)) ->
      in_body (module_instance c codes (tables e)) j = Some (sig, f) ->
      all_typed (rev (param_types sig)) args -> store_ok (global_types c) σ -> machine e σ low args cs o st ->
      let r := call (module_instance c codes (tables e)) fuel j σ args in
      r <> NoFuel -> r <> Outside ->
      exists n x st', run_loop n (Z.of_nat (length cs)) st = Exit x st' /\
        (exhausted x = true \/ answers e r low cs x st').
Proof.
  intros Hacc. destruct (loaded_runs uninit_entry _ _ _ _ _ _ Hacc) as (c' & code & E & Hc & Hrun).
  exists c', code. split; [exact E|]. split; [exact Hc|].
  intros e He fuel j ei si o a b types sig f σ args low cs st Hei Hfe Hj Hargs Hσ Hst r Hnf Hout.
  destruct (Hrun e He fuel j ei si o a b types sig f σ args low cs st Hei Hfe Hj Hargs Hσ Hst) as (Hty & Ha & _).
  apply runs_never, Ha. fold r in Hty |- *. by destruct r.
Qed.

(** *** Safety *)

(** Where the loader begins a code section, after the instructions [old]. *)
Record begins (c : Context) (old : list Z) (num_sigs num_funcs : Z) (codes : list BFuncBody) : Prop := {
  be_ready : ready c (length codes) = true;
  be_addressable : addressable c = true;
  be_code : mem_rep (istream_writer (ctx_code c)) old;
  be_offset : istream_offset (ctx_code c) = Z.of_nat (length old);
  be_fixups : func_fixups (ctx_code c) = replicate (length codes) [];
  be_bodies : forallb (ok_code num_sigs num_funcs) codes = true;
  be_room : Z.of_nat (length old) + codes_weight c 0 codes < 2 ^ 32 - 1
}.

(** What the loader takes and the extra checks pass. *)
Lemma loaded_accepts uninit_entry c old num_sigs num_funcs codes c' :
  begins c old num_sigs num_funcs codes ->
  se_for (s_binary_reader uninit_entry) (indexed code_callbacks 0 codes) c = Some (Some tt, c') ->
  extra_codes c (Z.of_nat (length old)) [] [] codes = true ->
  exists offsets, accepts c old num_sigs num_funcs codes offsets.
Proof.
  intros [Hready Haddr Hm Ho Hf Hok Hroom] Hload Hx.
  pose proof (progress_start c (length codes) old Hm Ho Hf) as H1.
  pose proof (load_codes uninit_entry c (length codes) Hready old num_sigs num_funcs codes [] [] _ _ H1) as Hl.
  rewrite ctx_same in Hl. cbn [length] in Hl. change (Z.of_nat 0) with 0 in Hl.
  specialize (Hl ltac:(lia) Hok ltac:(rewrite cells_size_nil; lia)). unfold outcome in Hl. rewrite Hload in Hl.
  destruct (comp_codes c false _ [] [] codes) as [[offsets cells]| |] eqn:Ec; [|by destruct Hl|done].
  exists offsets. constructor; try done. exists cells. by apply comp_codes_restrict.
Qed.

(** The ways a call of signature [sig] leaves the loop: with results of its
    types on the stack, or with a trap; memories and globals are well typed. *)
Definition ends_well (e : Env) (Γ : list WasmType) (sig : FuncSignature) (low cs : list Z)
    (x : WasmInterpreterResult) (st : State) : Prop :=
  exists σ, store_ok Γ σ /\ env_rel e σ (st_env st) /\
    (is_trap x = true \/
     x = WASM_INTERPRETER_RETURNED /\
     exists pc results, machine e σ low results cs pc st /\ all_typed (rev (result_types sig)) results).

Lemma answers_well e Γ sig r low cs x st : returns_typed Γ sig r -> traps_only r -> answers e r low cs x st ->
  ends_well e Γ sig low cs x st.
Proof.
  destruct r as [| |σ res|y σ| | |]; try done; cbn [returns_typed traps_only answers].
  - intros [Ht Hs] _ [-> (pc & Hm)]. exists σ. split; [done|]. split; [apply (ms_env _ _ _ _ _ _ _ Hm)|]. right. eauto.
  - intros Hs Ht [-> He]. exists σ. auto.
Qed.

(** A shorter run is part of one that ends. *)
Lemma run_loop_ends `{NanBits} `{MemAllocator} n m top st x st' : run_loop m top st = Exit x st' ->
  match run_loop n top st with Done _ _ => True | Exit y s => y = x /\ s = st' | Undef => False end.
Proof.
  intros E. destruct (Nat.le_ge_cases n m) as [Hl|Hl].
  - replace m with (n + (m - n))%nat in E by lia. rewrite run_loop_add in E. unfold bind in E.
    destruct (run_loop n top st) as [|y s|]; [done| |done]. injection E as -> ->. done.
  - replace n with (m + (n - m))%nat by lia. rewrite run_loop_add. unfold bind. by rewrite E.
Qed.

Lemma mem_rep_unique b l1 l2 : mem_rep b l1 -> mem_rep b l2 -> l1 = l2.
Proof.
  intros (H1 & H2 & _) (H3 & H4 & _). assert (length l1 = length l2) as E by lia. rewrite E, H4 in H2.
  symmetry. eapply (inj (map Some)). exact H2.
Qed.

(** C2 - Loaded code is safe to run.  Let the loader take a code section without
    an error, and let its bodies also pass the three checks that it lacks
    ([extra_codes]: the types of the label at a [br_if], an exact stack at
    [else], no result of an [if] without one).  Then a function of the module,
    entered on the machine at the offset the loader put in the environment, on
    arguments of its parameters' types, with well-typed memories and globals and
    over any stacks, never goes wrong.  Every instruction finds operands that are
    there and of its types: the evaluator, whose values carry their types, is
    never stuck, and its results are of the function's types.  And the machine,
    whose slots carry none, does nothing undefined: for every number of
    instructions the run is still going on, or has ended with results of the function's types on the
    stack, with a trap, or with one of the two stacks full - never with an
    undefined read or write of the stacks, locals, globals, code or memories,
    whether the call terminates or not.  Memories and globals stay well typed.
    Calls that leave the module or the definitions ([Outside]: host functions,
    a memory or table that is not there, more than 2^32 pages, conversions that C
    leaves undefined) are excluded from the second part. *)
Theorem loaded_code_type_safe `{NanBits} `{MemAllocator} (uninit_entry : nat -> WasmBindingHashEntry) (c c' : Context)
    (old code : list Z) (num_sigs num_funcs : Z) (codes : list BFuncBody) :
  begins c old num_sigs num_funcs codes ->
  se_for (s_binary_reader uninit_entry) (indexed code_callbacks 0 codes) c = Some (Some tt, c') ->
  extra_codes c (Z.of_nat (length old)) [] [] codes = true ->
  mem_rep (istream_writer (ctx_code c')) code ->
  forall e, in_env c' code e ->
  forall j ei si o a b types sig f σ args low cs st,
    zget (func_index_mapping c) (num_func_imports c + Z.of_nat j) = Some ei ->
    zget (funcs e) ei = Some (mkFunc si (DefinedFunc o a b types)) ->
    in_body (module_instance c codes (tables e)) j = Some (sig, f) ->
    all_typed (rev (param_types sig)) args -> store_ok (global_types c) σ -> machine e σ low args cs o st ->
    (forall fuel, returns_typed (global_types c) sig (call (module_instance c codes (tables e)) fuel j σ args)) /\
    ((forall fuel, call (module_instance c codes (tables e)) fuel j σ args <> Outside) ->
     forall n, match run_loop n (Z.of_nat (length cs)) st with
     | Done _ _ => True
     | Exit x st' => exhausted x = true \/ ends_well e (global_types c) sig low cs x st'
     | Undef => False
     end).
Proof.
  intros Hb Hload Hx Hcode e He j ei si o a b types sig f σ args low cs st Hei Hfe Hj Hargs Hσ Hst.
  destruct (loaded_accepts _ _ _ _ _ _ _ Hb Hload Hx) as [offsets Hacc].
  destruct (loaded_runs uninit_entry _ _ _ _ _ _ Hacc) as (c2 & code2 & E & Hc & Hrun).
  assert (c2 = c') as -> by congruence. rewrite <- (mem_rep_unique _ _ _ Hcode Hc) in Hrun.
  split; [intros fuel; by destruct (Hrun e He fuel j ei si o a b types sig f σ args low cs st Hei Hfe Hj Hargs Hσ Hst)|].
  intros Hin n. set (D := max_depth codes) in *. set (fuel := (1 + (D + S n * S D))%nat).
  destruct (Hrun e He fuel j ei si o a b types sig f σ args low cs st Hei Hfe Hj Hargs Hσ Hst) as (Hty & Ha & Hk).
  specialize (Hin fuel). pose proof (call_traps (module_instance c codes (tables e)) fuel j σ args) as Htr.
  set (r := call _ fuel j σ args) in *.
  assert (r = NoFuel \/ answered r) as [Hr|Hr] by (clearbody r; destruct r; cbn in *; auto).
  - destruct (Hk Hr (S n) ltac:(unfold call_bound, fuel, D; lia)) as (m & Hm & Hrm).
    destruct (run_loop m _ st) as [[] st'|x st'|] eqn:Em; [| |done].
    + replace m with (n + (m - n))%nat in Em by lia. rewrite run_loop_add in Em. unfold bind in Em.
      by destruct (run_loop n _ st).
    + pose proof (run_loop_ends n _ _ _ _ _ Em) as He'. destruct (run_loop n _ st) as [|y s|]; [done| |done].
      destruct He' as [-> ->]. by left.
  - destruct (Ha Hr) as [m Hm]. destruct (run_loop m _ st) as [|x st'|] eqn:Em; [done| |done].
    pose proof (run_loop_ends n _ _ _ _ _ Em) as He'. destruct (run_loop n _ st) as [|y s|]; [done| |done].
    destruct He' as [-> ->]. destruct Hm as [Hm|Hm]; [by left|right]. by eapply answers_well.
Qed.

(** ** A module that runs *)

Section demo.
#[local] Existing Instance default_nan_bits.
#[local] Existing Instance plain_alloc.

(** The second function computes a factorial in a loop; the first calls it
    through the table. *)
Definition run_codes : list BFuncBody :=
  let get i := BI_INDEX WASM_OPCODE_GET_LOCAL i in
  let set i := BI_INDEX WASM_OPCODE_SET_LOCAL i in
  let const n := BI_CONST (mkConst WASM_TYPE_I32 n) in
  [mkBFuncBody []
     [get 0; BI_IF [WASM_TYPE_I32] [const 7] [const 3; const 0; BI_CALL_INDIRECT 0]];
   mkBFuncBody [(1, WASM_TYPE_I32)]
     [const 1; set 1;
      BI_BLOCK []
        [BI_LOOP []
           [get 0; BI_OP WASM_OPCODE_I32_EQZ; BI_INDEX WASM_OPCODE_BR_IF 1;
            get 1; get 0; BI_OP WASM_OPCODE_I32_MUL; set 1;
            get 0; const 1; BI_OP WASM_OPCODE_I32_SUB; set 0; BI_INDEX WASM_OPCODE_BR 0]];
      get 1]].

Definition run_context : Context :=
  match wasm_init_interpreter_environment with
  | Some env =>
      match se_for (s_binary_reader junk_entry)
        [CB_on_signature_count 1; CB_on_signature 0 [WASM_TYPE_I32] [WASM_TYPE_I32];
         CB_on_function_signatures_count 2; CB_on_function_signature 0 0; CB_on_function_signature 1 0;
         CB_on_table 0 WASM_TYPE_ANYFUNC (mkLimits 1 1 true); CB_on_memory 0 (mkLimits 0 0 false)]
        (init_context env) with
      | Some (_, c) => c
      | None => init_context env
      end
  | None => init_context (mkEnvironment [] [] [] [] [] [] empty_buffer empty_hash empty_hash)
  end.

Definition run_table : Table := mkTable (mkLimits 1 1 true) [1].
Definition run_instance : Instance := module_instance run_context run_codes [run_table].
Definition run_store : Store := mkStore [] [].

Definition run_code : list Z :=
  match comp_codes run_context true 0 [] [] run_codes with Ok (_, cells) => flat cells | _ => [] end.
Definition state_after {S A} (m : SE S A) (s : S) : S := match m s with Some (_, s') => s' | None => s end.
Definition loaded_context : Context :=
  state_after (se_for (s_binary_reader junk_entry) (indexed code_callbacks 0 run_codes)) run_context.
Definition run_env : Env :=
  mkEnv (env_sigs (ctx_env loaded_context)) (env_funcs (ctx_env loaded_context)) [] [run_table] [] run_code.
Definition run_state : State := mkState run_env (mkStacks (0 :: replicate 31 0) 1 (replicate 8 0) 0) 0.

Lemma run_comp : comp_codes run_context true (Z.of_nat (length (@nil Z))) [] [] run_codes = Ok ([0; 46], raw run_code).
Proof. vm_compute. reflexivity. Qed.

Lemma run_in_env : in_env loaded_context run_code run_env.
Proof.
  split; [done..| |].
  - apply Forall_forall. intros x Hx. assert (forallb (fun x => (0 <=? x) && (x <? 256)) run_code = true) as H by (vm_compute; reflexivity).
    rewrite forallb_forall in H. specialize (H x). rewrite <- list_elem_of_In in H. specialize (H Hx).
    apply andb_true_iff in H as [? ?]. unfold in_u. lia.
  - constructor; [|constructor]. constructor; [|constructor]. right. do 2 eexists. by split; vm_compute.
Qed.

Lemma run_machine : machine run_env run_store [] [mkVal I32 0] [] 0 run_state.
Proof.
  constructor; [done| | |done| |].
  - split; [done|]. cbn. lia.
  - exists [0]. split; [done|]. by repeat constructor.
  - by split.
  - split; try done.
Qed.

Lemma run_accepts : accepts run_context [] 1 2 run_codes [0; 46].
Proof.
  split; try (vm_compute; reflexivity).
  - split_and!; vm_compute; done.
  - exists (raw run_code). exact run_comp.
Qed.

Lemma run_loaded c' code :
  se_for (s_binary_reader junk_entry) (indexed code_callbacks 0 run_codes) run_context = Some (Some tt, c') ->
  mem_rep (istream_writer (ctx_code c')) code -> in_env c' code run_env.
Proof.
  intros E Hc. assert (c' = loaded_context) as -> by (unfold loaded_context, state_after; by rewrite E).
  assert (mem_rep (istream_writer (ctx_code loaded_context)) run_code) as Hc' by (split_and!; vm_compute; done).
  rewrite (mem_rep_unique _ _ _ Hc Hc'). exact run_in_env.
Qed.

Lemma run_store_ok : store_ok (global_types run_context) run_store.
Proof. split; [constructor|]. assert (global_types run_context = []) as -> by (vm_compute; reflexivity). constructor. Qed.

Lemma run_args : all_typed [WASM_TYPE_I32] [mkVal I32 0].
Proof. constructor; [|constructor]. by split. Qed.

Definition run_body : BFuncBody := mkBFuncBody [] (bf_body (default (mkBFuncBody [] []) (run_codes !! 0%nat))).
Definition run_sig : FuncSignature := mkSig [WASM_TYPE_I32] [WASM_TYPE_I32].

Lemma compiled_code_correct_witness :
  exists n x st', run_loop n 0 run_state = Exit x st' /\
    (exhausted x = true \/
     x = WASM_INTERPRETER_RETURNED /\ exists pc, machine run_env run_store [] [mkVal I32 6] [] pc st').
Proof.
  destruct (compiled_code_correct junk_entry run_context [] 1 2 run_codes [0; 46] run_accepts) as (c' & code & E & Hc & H).
  evar (a : Z). evar (b : Z).
  specialize (H run_env (run_loaded c' code E Hc) 10%nat 0%nat 0 0 0 a b [WASM_TYPE_I32] run_sig run_body run_store
    [mkVal I32 0] [] [] run_state).
  assert (call (module_instance run_context run_codes (tables run_env)) 10 0 run_store [mkVal I32 0] =
    Returned run_store [mkVal I32 6]) as Er by (vm_compute; reflexivity).
  rewrite Er in H. apply H; [vm_compute; reflexivity|vm_compute; reflexivity|vm_compute; reflexivity|exact run_args
    |exact run_store_ok|exact run_machine|discriminate|discriminate].
Defined.

Lemma run_begins : begins run_context [] 1 2 run_codes.
Proof. destruct run_accepts. by constructor. Qed.

(** The call of the module's first function, which goes through the table to the
    loop of the second, is not outside with any fuel. *)
Lemma run_inside fuel : call run_instance fuel 0 run_store [mkVal I32 0] <> Outside.
Proof.
  do 10 (destruct fuel as [|fuel]; [vm_compute; discriminate|]). vm_compute. discriminate.
Qed.

Lemma run_loaded_code : se_for (s_binary_reader junk_entry) (indexed code_callbacks 0 run_codes) run_context =
  Some (Some tt, loaded_context) /\ mem_rep (istream_writer (ctx_code loaded_context)) run_code.
Proof.
  destruct (load_accepted junk_entry run_context [] 1 2 run_codes _ run_accepts) as (fs & k & bytes & E & _).
  split; [unfold loaded_context, state_after; by rewrite E|split_and!; vm_compute; done].
Qed.

(** After any number of instructions the factorial machine has not gone wrong. *)
Lemma loaded_code_type_safe_witness :
  (forall fuel, returns_typed [] run_sig (call run_instance fuel 0%nat run_store [mkVal I32 0])) /\
  forall n, match run_loop n 0 run_state with
  | Done _ _ => True
  | Exit x st' => exhausted x = true \/ ends_well run_env [] run_sig [] [] x st'
  | Undef => False
  end.
Proof.
  destruct run_loaded_code as [E Hc]. evar (a : Z). evar (b : Z).
  destruct (loaded_code_type_safe junk_entry run_context loaded_context [] run_code 1 2 run_codes run_begins E) with
    (e := run_env) (j := 0%nat) (ei := 0) (si := 0) (o := 0) (a := a) (b := b) (types := [WASM_TYPE_I32]) (sig := run_sig)
    (f := run_body) (σ := run_store) (args := [mkVal I32 0]) (low := @nil Z) (cs := @nil Z) (st := run_state) as [Hty Hsafe];
    [vm_compute; reflexivity|exact Hc|exact run_in_env|vm_compute; reflexivity|vm_compute; reflexivity
    |vm_compute; reflexivity|exact run_args|exact run_store_ok|exact run_machine|].
  split; [exact Hty|exact (Hsafe run_inside)].
Defined.

End demo.
