(* ===== verification/BinaryReaderAst.v ===== *)
(** * The syntax tree of a binary module (src/src/binary-reader-ast.c)

    The callbacks with which [wasm_read_binary_ast] builds a module from what
    the binary reader reports.  The module under construction is a store: a
    pointer to a field is its position in the list of fields, the vectors of
    the module hold such pointers, and the address of a list of expressions
    inside a function is the function's field with the way down to the list.
    [None] is a failed assertion, a null or dangling pointer, or an access
    outside an array. *)

From stdpp Require Import functions.
From S2P Require Import Prelude Opcode Vector BindingHash Ast StateOpt BinaryReader.

#[local] Open Scope so_scope.

(** ** The store *)

Inductive LabelType : Set :=
| LABEL_TYPE_FUNC | LABEL_TYPE_BLOCK | LABEL_TYPE_LOOP | LABEL_TYPE_IF | LABEL_TYPE_ELSE.

#[global] Instance LabelType_eq_dec : EqDecision LabelType.
Proof. solve_decision. Defined.

(** [WasmExpr**]: the head of a list of expressions.  A step of the path picks
    an expression of a list and its first or, for the [else] part of an [if],
    second body. *)
Record ExprList : Type := mkExprList {
  list_func : nat;
  list_path : list (nat * bool)
}.

(** [first] is [None] when the list has been freed; [last] is the position of
    the last expression in the list, [None] for [NULL]. *)
Record LabelNode : Type := mkLabelNode {
  label_type : LabelType;
  label_first : option ExprList;
  label_last : option nat
}.

(** The vectors of a [WasmModule]. *)
Inductive ModuleVector : Set :=
| FUNC_TYPES | IMPORTS | FUNCS | TABLES | MEMORIES | GLOBALS | EXPORTS | ELEM_SEGMENTS
| DATA_SEGMENTS.

#[global] Instance ModuleVector_eq_dec : EqDecision ModuleVector.
Proof. solve_decision. Defined.

(** The members of [WasmModule] the reader touches.  [num_imports k] is
    [num_func_imports], ... *)
Record ModuleStore : Type := mkModuleStore {
  store_fields : list WasmModuleField;
  store_vectors : ModuleVector -> WasmVector (option nat);
  store_num_imports : WasmExternalKind -> Z;
  store_start : option nat;
  store_func_bindings : WasmBindingHash
}.

(** [label_stack] has the innermost label first. *)
Record Context : Type := mkContext {
  ctx_module : ModuleStore;
  current_func : option nat;
  label_stack : list LabelNode;
  max_depth : Z;
  current_init_expr : option nat
}.

Definition zero_context : Context :=
  mkContext (mkModuleStore [] (fun _ => vec_empty) (fun _ => 0) None empty_hash) None [] 0 None.

Definition set_module (m : ModuleStore) (c : Context) : Context :=
  mkContext m (current_func c) (label_stack c) (max_depth c) (current_init_expr c).
Definition set_current_func (p : option nat) (c : Context) : Context :=
  mkContext (ctx_module c) p (label_stack c) (max_depth c) (current_init_expr c).
Definition set_labels (ls : list LabelNode) (depth : Z) (c : Context) : Context :=
  mkContext (ctx_module c) (current_func c) ls depth (current_init_expr c).
Definition set_current_init_expr (p : option nat) (c : Context) : Context :=
  mkContext (ctx_module c) (current_func c) (label_stack c) (max_depth c) p.

Definition set_fields (fs : list WasmModuleField) (c : Context) : Context :=
  set_module (mkModuleStore fs (store_vectors (ctx_module c)) (store_num_imports (ctx_module c))
    (store_start (ctx_module c)) (store_func_bindings (ctx_module c))) c.
Definition set_vector (k : ModuleVector) (v : WasmVector (option nat)) (c : Context) : Context :=
  set_module (mkModuleStore (store_fields (ctx_module c)) (<[k := v]> (store_vectors (ctx_module c)))
    (store_num_imports (ctx_module c)) (store_start (ctx_module c))
    (store_func_bindings (ctx_module c))) c.
Definition set_num_imports (k : WasmExternalKind) (n : Z) (c : Context) : Context :=
  set_module (mkModuleStore (store_fields (ctx_module c)) (store_vectors (ctx_module c))
    (<[k := n]> (store_num_imports (ctx_module c))) (store_start (ctx_module c))
    (store_func_bindings (ctx_module c))) c.
Definition set_start (p : option nat) (c : Context) : Context :=
  set_module (mkModuleStore (store_fields (ctx_module c)) (store_vectors (ctx_module c))
    (store_num_imports (ctx_module c)) p (store_func_bindings (ctx_module c))) c.
Definition set_func_bindings (h : WasmBindingHash) (c : Context) : Context :=
  set_module (mkModuleStore (store_fields (ctx_module c)) (store_vectors (ctx_module c))
    (store_num_imports (ctx_module c)) (store_start (ctx_module c)) h) c.

Definition ctx_fields (c : Context) : list WasmModuleField := store_fields (ctx_module c).
Definition ctx_vector (c : Context) (k : ModuleVector) : WasmVector (option nat) :=
  store_vectors (ctx_module c) k.
Definition ctx_num_imports (c : Context) (k : WasmExternalKind) : Z :=
  store_num_imports (ctx_module c) k.

(** ** Expressions in place *)

Fixpoint get_list (l : list WasmExpr) (path : list (nat * bool)) : option (list WasmExpr) :=
  match path with
  | [] => Some l
  | (i, b) :: path => e ← l !! i; es ← body_of e b; get_list es path
  end.

Fixpoint set_list (l : list WasmExpr) (path : list (nat * bool)) (new : list WasmExpr) :
    option (list WasmExpr) :=
  match path with
  | [] => Some new
  | (i, b) :: path =>
      e ← l !! i; es ← body_of e b; es ← set_list es path new;
      Some (<[i := with_body e b es]> l)
  end.

Definition field_func (f : WasmModuleField) : option WasmFunc :=
  match f with
  | FIELD_FUNC x => Some x
  | FIELD_IMPORT (mkImport _ _ (IMPORT_FUNC x)) => Some x
  | _ => None
  end.

Definition with_func (f : WasmModuleField) (x : WasmFunc) : WasmModuleField :=
  match f with
  | FIELD_FUNC _ => FIELD_FUNC x
  | FIELD_IMPORT (mkImport m n (IMPORT_FUNC _)) => FIELD_IMPORT (mkImport m n (IMPORT_FUNC x))
  | _ => f
  end.

Definition with_first_expr (x : WasmFunc) (es : list WasmExpr) : WasmFunc :=
  mkFunc (func_name x) (func_decl x) (func_local_types x) (func_param_bindings x)
    (func_local_bindings x) es.

(** [*current_init_expr = expr]. *)
Definition with_init (f : WasmModuleField) (es : list WasmExpr) : option WasmModuleField :=
  match f with
  | FIELD_GLOBAL g => Some (FIELD_GLOBAL (mkGlobal (global_name g) (global_type g) (global_mutable g) es))
  | FIELD_ELEM_SEGMENT s => Some (FIELD_ELEM_SEGMENT (mkElemSegment (elem_table_var s) es (elem_vars s)))
  | FIELD_DATA_SEGMENT s => Some (FIELD_DATA_SEGMENT (mkDataSegment (data_memory_var s) es (data_data s)))
  | _ => None
  end.

(** ** Strings *)

Definition dup_name (name : bytes) : option WasmStringSlice :=
  match name with [] => Some None | _ => wasm_dup_string_slice name end.

Section reader.
(** Memory fresh from the allocator. *)
Context (uninit_ptr : nat -> option nat) (uninit_entry : nat -> WasmBindingHashEntry).

(** The operations of the state; [A] is returned by the callback's C helper. *)
Definition AM (A : Type) : Type := SO Context A.

Definition sizeof_ptr : Z := 8.

Definition ok : AM WasmResult := so_ret WASM_OK.

(** [wasm_reserve_*_ptrs] *)
Definition reserve (k : ModuleVector) (count : Z) : AM unit :=
  c <- so_get ;;
  v <- so_lift (wasm_ensure_capacity uninit_ptr sizeof_ptr (ctx_vector c k) count) ;;
  so_modify (set_vector k v).

(** [wasm_append_*_ptr_value] *)
Definition append_ptr (k : ModuleVector) (p : nat) : AM unit :=
  c <- so_get ;;
  v <- so_lift (wasm_append_value uninit_ptr None sizeof_ptr (ctx_vector c k) (Some p)) ;;
  so_modify (set_vector k v).

(** [vector.data[index]], which must not be null. *)
Definition ptr_at (k : ModuleVector) (index : Z) : AM nat :=
  c <- so_get ;;
  p <- so_lift (zget (vec_list (ctx_vector c k)) index) ;;
  so_lift p.

(** [wasm_append_module_field], with the field the caller fills in. *)
Definition append_field (f : WasmModuleField) : AM nat :=
  c <- so_get ;;
  so_modify (set_fields (ctx_fields c ++ [f])) ;;
  so_ret (length (ctx_fields c)).

Definition field_at (p : nat) : AM WasmModuleField :=
  c <- so_get ;; so_lift (ctx_fields c !! p).

Definition set_field (p : nat) (f : WasmModuleField) : AM unit :=
  c <- so_get ;; so_modify (set_fields (<[p := f]> (ctx_fields c))).

Definition func_at (p : nat) : AM WasmFunc := f <- field_at p ;; so_lift (field_func f).
Definition set_func (p : nat) (x : WasmFunc) : AM unit := f <- field_at p ;; set_field p (with_func f x).

Definition size_of (c : Context) (k : ModuleVector) : Z := vec_size (ctx_vector c k).

(** [assert(index < vector.size)], [... .capacity] and
    [assert(index == vector.size - 1)], which is in [size_t]. *)
Definition assert_in (k : ModuleVector) (index : Z) : AM unit :=
  c <- so_get ;; so_assert (index <? size_of c k).
Definition assert_capacity (k : ModuleVector) (index : Z) : AM unit :=
  c <- so_get ;; so_assert (index <? vec_capacity (ctx_vector c k)).
Definition assert_last (k : ModuleVector) (index : Z) : AM unit :=
  c <- so_get ;; so_assert (index =? u64 (size_of c k - 1)).

(** ** Labels *)

Definition push_label (label_type : LabelType) (first : option ExprList) : AM unit :=
  c <- so_get ;;
  so_modify (set_labels (mkLabelNode label_type first None :: label_stack c) (u32 (max_depth c + 1))).

Definition pop_label : AM WasmResult :=
  c <- so_get ;;
  match label_stack c with
  | [] => so_ret WASM_ERROR (* popping empty label stack *)
  | _ :: ls => so_modify (set_labels ls (u32 (max_depth c - 1))) ;; ok
  end.

(** [None]: accessing a stack depth that is too large. *)
Definition get_label_at (depth : nat) : AM (option LabelNode) :=
  c <- so_get ;; so_ret (label_stack c !! depth).

Definition top_label : AM (option LabelNode) := get_label_at 0.

Definition set_top_label (n : LabelNode) : AM unit :=
  c <- so_get ;; so_modify (set_labels (n :: tail (label_stack c)) (max_depth c)).

(** [*loc] and [*loc = l]. *)
Definition read_list (loc : option ExprList) : AM (list WasmExpr) :=
  loc <- so_lift loc ;; f <- func_at (list_func loc) ;;
  so_lift (get_list (func_first_expr f) (list_path loc)).

Definition write_list (loc : option ExprList) (l : list WasmExpr) : AM unit :=
  loc <- so_lift loc ;; f <- func_at (list_func loc) ;;
  es <- so_lift (set_list (func_first_expr f) (list_path loc) l) ;;
  set_func (list_func loc) (with_first_expr f es).

(** On success, the position of the expression in its list; when the label
    stack is empty the expression is freed. *)
Definition append_expr_at (expr : WasmExpr) : AM (option (ExprList * nat)) :=
  label <- top_label ;;
  match label with
  | None => so_ret None
  | Some label =>
      l <- read_list (label_first label) ;;
      i <- match l with
           | [] => so_ret 0%nat
           | _ => last <- so_lift (label_last label) ;; so_ret (S last)
           end ;;
      write_list (label_first label) (take i l ++ [expr]) ;;
      set_top_label (mkLabelNode (label_type label) (label_first label) (Some i)) ;;
      first <- so_lift (label_first label) ;;
      so_ret (Some (first, i))
  end.

Definition append_expr (expr : WasmExpr) : AM WasmResult :=
  p <- append_expr_at expr ;;
  match p with Some _ => ok | None => so_ret WASM_ERROR end.

(** [append_expr(ctx, expr); push_label(ctx, type, &expr->block.first);]: the
    result of [append_expr] is not looked at. *)
Definition append_and_push (expr : WasmExpr) (type : LabelType) : AM WasmResult :=
  p <- append_expr_at expr ;;
  push_label type ((fun p => mkExprList (list_func (fst p)) (list_path (fst p) ++ [(snd p, false)])) <$> p) ;;
  ok.

(** ** Callbacks *)

Definition on_signature (index : Z) (param_types result_types : list WasmType) : AM WasmResult :=
  field <- append_field (FIELD_FUNC_TYPE (mkFuncType None (mkFuncSignature param_types result_types))) ;;
  assert_capacity FUNC_TYPES index ;;
  append_ptr FUNC_TYPES field ;; ok.

Definition zero_decl : WasmFuncDeclaration := mkFuncDeclaration 0 (VAR_INDEX 0) (mkFuncSignature [] []).
Definition zero_func : WasmFunc := mkFunc None zero_decl [] empty_hash empty_hash [].

Definition on_import (index : Z) (module_name field_name : bytes) : AM WasmResult :=
  assert_capacity IMPORTS index ;;
  m <- so_lift (wasm_dup_string_slice module_name) ;;
  n <- so_lift (wasm_dup_string_slice field_name) ;;
  field <- append_field (FIELD_IMPORT (mkImport m n (IMPORT_FUNC zero_func))) ;;
  append_ptr IMPORTS field ;; ok.

(** The kind and the union member of an import, its entry in the vector of its
    kind and the count of imports of the kind. *)
Definition set_import (index : Z) (k : ModuleVector) (kind : WasmExternalKind) (d : WasmImportDesc) :
    AM WasmResult :=
  import <- ptr_at IMPORTS index ;;
  f <- field_at import ;;
  match f with
  | FIELD_IMPORT i =>
      set_field import (FIELD_IMPORT (mkImport (import_module_name i) (import_field_name i) d)) ;;
      append_ptr k import ;;
      c <- so_get ;;
      so_modify (set_num_imports kind (u32 (ctx_num_imports c kind + 1))) ;; ok
  | _ => so_fail
  end.

(** The declaration of a function whose type is [func_types.data[sig_index]]. *)
Definition shared_decl (sig_index : Z) : AM WasmFuncDeclaration :=
  p <- ptr_at FUNC_TYPES sig_index ;;
  f <- field_at p ;;
  match f with
  | FIELD_FUNC_TYPE t =>
      so_ret (mkFuncDeclaration
        (Z.lor WASM_FUNC_DECLARATION_FLAG_HAS_FUNC_TYPE WASM_FUNC_DECLARATION_FLAG_SHARED_SIGNATURE)
        (VAR_INDEX sig_index) (func_type_sig t))
  | _ => so_fail
  end.

Definition on_import_func (index sig_index : Z) : AM WasmResult :=
  assert_last IMPORTS index ;;
  assert_in FUNC_TYPES sig_index ;;
  decl <- shared_decl sig_index ;;
  set_import index FUNCS WASM_EXTERNAL_KIND_FUNC
    (IMPORT_FUNC (mkFunc None decl [] empty_hash empty_hash [])).

Definition on_import_table (index : Z) (elem_limits : WasmLimits) : AM WasmResult :=
  assert_last IMPORTS index ;;
  set_import index TABLES WASM_EXTERNAL_KIND_TABLE (IMPORT_TABLE (mkTable None elem_limits)).

Definition on_import_memory (index : Z) (page_limits : WasmLimits) : AM WasmResult :=
  assert_last IMPORTS index ;;
  set_import index MEMORIES WASM_EXTERNAL_KIND_MEMORY (IMPORT_MEMORY (mkMemory None page_limits)).

Definition on_import_global (index : Z) (type : WasmType) (mutable_ : bool) : AM WasmResult :=
  assert_last IMPORTS index ;;
  set_import index GLOBALS WASM_EXTERNAL_KIND_GLOBAL (IMPORT_GLOBAL (mkGlobal None type mutable_ [])).

Definition on_function_signature (index sig_index : Z) : AM WasmResult :=
  assert_capacity FUNCS index ;;
  assert_in FUNC_TYPES sig_index ;;
  decl <- shared_decl sig_index ;;
  field <- append_field (FIELD_FUNC (mkFunc None decl [] empty_hash empty_hash [])) ;;
  append_ptr FUNCS field ;; ok.

Definition on_table (index : Z) (elem_limits : WasmLimits) : AM WasmResult :=
  assert_capacity TABLES index ;;
  field <- append_field (FIELD_TABLE (mkTable None elem_limits)) ;;
  append_ptr TABLES field ;; ok.

Definition on_memory (index : Z) (page_limits : WasmLimits) : AM WasmResult :=
  assert_capacity MEMORIES index ;;
  field <- append_field (FIELD_MEMORY (mkMemory None page_limits)) ;;
  append_ptr MEMORIES field ;; ok.

Definition begin_global (index : Z) (type : WasmType) (mutable_ : bool) : AM WasmResult :=
  assert_capacity GLOBALS index ;;
  field <- append_field (FIELD_GLOBAL (mkGlobal None type mutable_ [])) ;;
  append_ptr GLOBALS field ;; ok.

Definition begin_global_init_expr (index : Z) : AM WasmResult :=
  c <- so_get ;;
  let index := u32 (ctx_num_imports c WASM_EXTERNAL_KIND_GLOBAL + index) in
  assert_last GLOBALS index ;;
  global <- ptr_at GLOBALS index ;;
  so_modify (set_current_init_expr (Some global)) ;; ok.

(** [end_global_init_expr], [end_elem_segment_init_expr] and
    [end_data_segment_init_expr]. *)
Definition end_init_expr : AM WasmResult := so_modify (set_current_init_expr None) ;; ok.

Definition export_vector (kind : WasmExternalKind) : ModuleVector :=
  match kind with
  | WASM_EXTERNAL_KIND_FUNC => FUNCS
  | WASM_EXTERNAL_KIND_TABLE => TABLES
  | WASM_EXTERNAL_KIND_MEMORY => MEMORIES
  | WASM_EXTERNAL_KIND_GLOBAL => GLOBALS
  end.

Definition on_export (index : Z) (kind : WasmExternalKind) (item_index : Z) (name : bytes) :
    AM WasmResult :=
  name <- so_lift (wasm_dup_string_slice name) ;;
  field <- append_field (FIELD_EXPORT (mkExport name kind (VAR_INDEX item_index))) ;;
  assert_in (export_vector kind) item_index ;;
  assert_capacity EXPORTS index ;;
  append_ptr EXPORTS field ;; ok.

Definition on_start_function (func_index : Z) : AM WasmResult :=
  field <- append_field (FIELD_START (VAR_INDEX func_index)) ;;
  assert_in FUNCS func_index ;;
  so_modify (set_start (Some field)) ;; ok.

Definition on_function_bodies_count (count : Z) : AM WasmResult :=
  c <- so_get ;;
  so_assert (u32 (ctx_num_imports c WASM_EXTERNAL_KIND_FUNC + count) =? size_of c FUNCS) ;; ok.

Definition begin_function_body (index : Z) : AM WasmResult :=
  assert_in FUNCS index ;;
  c <- so_get ;;
  func <- ptr_at FUNCS (u32 (index + ctx_num_imports c WASM_EXTERNAL_KIND_FUNC)) ;;
  so_modify (set_current_func (Some func)) ;;
  push_label LABEL_TYPE_FUNC (Some (mkExprList func [])) ;; ok.

Definition on_local_decl (count : Z) (type : WasmType) : AM WasmResult :=
  c <- so_get ;;
  p <- so_lift (current_func c) ;;
  f <- func_at p ;;
  set_func p (mkFunc (func_name f) (func_decl f) (func_local_types f ++ replicate (Z.to_nat count) type)
    (func_param_bindings f) (func_local_bindings f) (func_first_expr f)) ;; ok.

Definition on_call_expr (func_index : Z) : AM WasmResult :=
  assert_in FUNCS func_index ;; append_expr (EXPR_CALL (VAR_INDEX func_index)).

Definition on_call_indirect_expr (sig_index : Z) : AM WasmResult :=
  assert_in FUNC_TYPES sig_index ;; append_expr (EXPR_CALL_INDIRECT (VAR_INDEX sig_index)).

Definition on_else_expr : AM WasmResult :=
  label <- top_label ;;
  match label with
  | None => so_ret WASM_ERROR
  | Some label =>
      if decide (label_type label = LABEL_TYPE_IF) then
        parent_label <- get_label_at 1 ;;
        match parent_label with
        | None => so_ret WASM_ERROR
        | Some parent_label =>
            l <- read_list (label_first parent_label) ;;
            first <- so_lift (label_first parent_label) ;;
            last <- so_lift (label_last parent_label) ;;
            expr <- so_lift (l !! last) ;;
            so_assert match expr with EXPR_IF _ _ _ _ => true | _ => false end ;;
            set_top_label (mkLabelNode LABEL_TYPE_ELSE
              (Some (mkExprList (list_func first) (list_path first ++ [(last, true)]))) None) ;; ok
        end
      else so_ret WASM_ERROR (* else expression without matching if *)
  end.

(** [1 << alignment_log2] in [int]. *)
Definition shift_align (alignment_log2 : Z) : AM Z :=
  so_assert (alignment_log2 <? 31) ;; so_ret (Z.shiftl 1 alignment_log2).

Definition on_load_expr (opcode : WasmOpcode) (alignment_log2 offset : Z) : AM WasmResult :=
  align <- shift_align alignment_log2 ;; append_expr (EXPR_LOAD opcode align offset).

Definition on_store_expr (opcode : WasmOpcode) (alignment_log2 offset : Z) : AM WasmResult :=
  align <- shift_align alignment_log2 ;; append_expr (EXPR_STORE opcode align offset).

Definition end_function_body : AM WasmResult :=
  r <- pop_label ;;
  match r with
  | WASM_ERROR => so_ret WASM_ERROR
  | WASM_OK => so_modify (set_current_func None) ;; ok
  end.

Definition begin_elem_segment (index table_index : Z) : AM WasmResult :=
  field <- append_field (FIELD_ELEM_SEGMENT (mkElemSegment (VAR_INDEX table_index) [] [])) ;;
  c <- so_get ;;
  so_assert (index =? size_of c ELEM_SEGMENTS) ;;
  assert_capacity ELEM_SEGMENTS index ;;
  append_ptr ELEM_SEGMENTS field ;; ok.

(** [begin_elem_segment_init_expr] and [begin_data_segment_init_expr]. *)
Definition begin_segment_init_expr (k : ModuleVector) (index : Z) : AM WasmResult :=
  assert_last k index ;;
  segment <- ptr_at k index ;;
  so_modify (set_current_init_expr (Some segment)) ;; ok.

(** [wasm_reserve_vars] changes no element. *)
Definition on_elem_segment_function_index_count (index count : Z) : AM WasmResult :=
  assert_last ELEM_SEGMENTS index ;; ptr_at ELEM_SEGMENTS index ;; ok.

Definition on_elem_segment_function_index (index func_index : Z) : AM WasmResult :=
  assert_last ELEM_SEGMENTS index ;;
  p <- ptr_at ELEM_SEGMENTS index ;;
  f <- field_at p ;;
  match f with
  | FIELD_ELEM_SEGMENT s =>
      set_field p (FIELD_ELEM_SEGMENT (mkElemSegment (elem_table_var s) (elem_offset s)
        (elem_vars s ++ [VAR_INDEX func_index]))) ;; ok
  | _ => so_fail
  end.

Definition begin_data_segment (index memory_index : Z) : AM WasmResult :=
  field <- append_field (FIELD_DATA_SEGMENT (mkDataSegment (VAR_INDEX memory_index) [] [])) ;;
  c <- so_get ;;
  so_assert (index =? size_of c DATA_SEGMENTS) ;;
  assert_capacity DATA_SEGMENTS index ;;
  append_ptr DATA_SEGMENTS field ;; ok.

Definition on_data_segment_data (index : Z) (data : bytes) : AM WasmResult :=
  assert_last DATA_SEGMENTS index ;;
  p <- ptr_at DATA_SEGMENTS index ;;
  f <- field_at p ;;
  match f with
  | FIELD_DATA_SEGMENT s =>
      set_field p (FIELD_DATA_SEGMENT (mkDataSegment (data_memory_var s) (data_offset s) data)) ;; ok
  | _ => so_fail
  end.

Definition on_function_names_count (count : Z) : AM WasmResult :=
  c <- so_get ;;
  if size_of c FUNCS <? count then so_ret WASM_ERROR else ok.

Definition on_function_name (index : Z) (name : bytes) : AM WasmResult :=
  new_name <- so_lift (dup_name name) ;;
  c <- so_get ;;
  h <- so_lift (insert_binding_index uninit_entry (store_func_bindings (ctx_module c)) new_name index) ;;
  so_modify (set_func_bindings h) ;;
  p <- ptr_at FUNCS index ;;
  f <- func_at p ;;
  set_func p (mkFunc new_name (func_decl f) (func_local_types f) (func_param_bindings f)
    (func_local_bindings f) (func_first_expr f)) ;; ok.

Definition on_local_names_count (index count : Z) : AM WasmResult :=
  assert_in FUNCS index ;;
  p <- ptr_at FUNCS index ;;
  f <- func_at p ;;
  if u32 (wasm_get_num_params_and_locals f) <? count then so_ret WASM_ERROR else ok.

Definition on_local_name (func_index local_index : Z) (name : bytes) : AM WasmResult :=
  p <- ptr_at FUNCS func_index ;;
  f <- func_at p ;;
  let num_params := u32 (wasm_get_num_params f) in
  new_name <- so_lift (dup_name name) ;;
  (if local_index <? num_params then
     h <- so_lift (insert_binding_index uninit_entry (func_param_bindings f) new_name local_index) ;;
     set_func p (mkFunc (func_name f) (func_decl f) (func_local_types f) h (func_local_bindings f)
       (func_first_expr f))
   else
     h <- so_lift (insert_binding_index uninit_entry (func_local_bindings f) new_name
                     (local_index - num_params)) ;;
     set_func p (mkFunc (func_name f) (func_decl f) (func_local_types f) (func_param_bindings f) h
       (func_first_expr f))) ;; ok.

(** [*current_init_expr = expr], shared by the [on_init_expr_*] callbacks. *)
Definition set_init_expr (expr : WasmExpr) : AM WasmResult :=
  c <- so_get ;;
  p <- so_lift (current_init_expr c) ;;
  f <- field_at p ;;
  f <- so_lift (with_init f [expr]) ;;
  set_field p f ;; ok.

(** Callbacks that only reserve room, append an expression or set the
    initializer. *)
Definition on_signature_count (count : Z) : AM WasmResult := reserve FUNC_TYPES count ;; ok.
Definition on_import_count (count : Z) : AM WasmResult := reserve IMPORTS count ;; ok.
Definition on_function_signatures_count (count : Z) : AM WasmResult := reserve FUNCS count ;; ok.
Definition on_table_count (count : Z) : AM WasmResult := reserve TABLES count ;; ok.
Definition on_memory_count (count : Z) : AM WasmResult := reserve MEMORIES count ;; ok.
Definition on_global_count (count : Z) : AM WasmResult := reserve GLOBALS count ;; ok.
Definition end_global_init_expr (_ : Z) : AM WasmResult := end_init_expr.
Definition on_export_count (count : Z) : AM WasmResult := reserve EXPORTS count ;; ok.
Definition on_binary_expr (opcode : WasmOpcode) : AM WasmResult := append_expr (EXPR_BINARY opcode).
Definition on_block_expr (sig : list WasmType) : AM WasmResult :=
  append_and_push (EXPR_BLOCK None sig []) LABEL_TYPE_BLOCK.
Definition on_br_expr (depth : Z) : AM WasmResult := append_expr (EXPR_BR (VAR_INDEX depth)).
Definition on_br_if_expr (depth : Z) : AM WasmResult := append_expr (EXPR_BR_IF (VAR_INDEX depth)).
Definition on_br_table_expr (target_depths : list Z) (default_target_depth : Z) : AM WasmResult :=
  append_expr (EXPR_BR_TABLE (map VAR_INDEX target_depths) (VAR_INDEX default_target_depth)).
Definition on_compare_expr (opcode : WasmOpcode) : AM WasmResult := append_expr (EXPR_COMPARE opcode).
Definition on_convert_expr (opcode : WasmOpcode) : AM WasmResult := append_expr (EXPR_CONVERT opcode).
Definition on_current_memory_expr : AM WasmResult := append_expr EXPR_CURRENT_MEMORY.
Definition on_drop_expr : AM WasmResult := append_expr EXPR_DROP.
Definition on_end_expr : AM WasmResult := pop_label.
Definition on_f32_const_expr (value_bits : Z) : AM WasmResult :=
  append_expr (EXPR_CONST (mkConst WASM_TYPE_F32 value_bits)).
Definition on_f64_const_expr (value_bits : Z) : AM WasmResult :=
  append_expr (EXPR_CONST (mkConst WASM_TYPE_F64 value_bits)).
Definition on_get_global_expr (global_index : Z) : AM WasmResult :=
  append_expr (EXPR_GET_GLOBAL (VAR_INDEX global_index)).
Definition on_get_local_expr (local_index : Z) : AM WasmResult :=
  append_expr (EXPR_GET_LOCAL (VAR_INDEX local_index)).
Definition on_grow_memory_expr : AM WasmResult := append_expr EXPR_GROW_MEMORY.
Definition on_i32_const_expr (value : Z) : AM WasmResult :=
  append_expr (EXPR_CONST (mkConst WASM_TYPE_I32 value)).
Definition on_i64_const_expr (value : Z) : AM WasmResult :=
  append_expr (EXPR_CONST (mkConst WASM_TYPE_I64 value)).
Definition on_if_expr (sig : list WasmType) : AM WasmResult :=
  append_and_push (EXPR_IF None sig [] []) LABEL_TYPE_IF.
Definition on_loop_expr (sig : list WasmType) : AM WasmResult :=
  append_and_push (EXPR_LOOP None sig []) LABEL_TYPE_LOOP.
Definition on_nop_expr : AM WasmResult := append_expr EXPR_NOP.
Definition on_return_expr : AM WasmResult := append_expr EXPR_RETURN.
Definition on_select_expr : AM WasmResult := append_expr EXPR_SELECT.
Definition on_set_global_expr (global_index : Z) : AM WasmResult :=
  append_expr (EXPR_SET_GLOBAL (VAR_INDEX global_index)).
Definition on_set_local_expr (local_index : Z) : AM WasmResult :=
  append_expr (EXPR_SET_LOCAL (VAR_INDEX local_index)).
Definition on_tee_local_expr (local_index : Z) : AM WasmResult :=
  append_expr (EXPR_TEE_LOCAL (VAR_INDEX local_index)).
Definition on_unary_expr (opcode : WasmOpcode) : AM WasmResult := append_expr (EXPR_UNARY opcode).
Definition on_unreachable_expr : AM WasmResult := append_expr EXPR_UNREACHABLE.
Definition on_elem_segment_count (count : Z) : AM WasmResult := reserve ELEM_SEGMENTS count ;; ok.
Definition begin_elem_segment_init_expr (index : Z) : AM WasmResult :=
  begin_segment_init_expr ELEM_SEGMENTS index.
Definition end_elem_segment_init_expr (_ : Z) : AM WasmResult := end_init_expr.
Definition on_data_segment_count (count : Z) : AM WasmResult := reserve DATA_SEGMENTS count ;; ok.
Definition begin_data_segment_init_expr (index : Z) : AM WasmResult :=
  begin_segment_init_expr DATA_SEGMENTS index.
Definition end_data_segment_init_expr (_ : Z) : AM WasmResult := end_init_expr.
Definition on_init_expr_f32_const_expr (_ : Z) (value : Z) : AM WasmResult :=
  set_init_expr (EXPR_CONST (mkConst WASM_TYPE_F32 value)).
Definition on_init_expr_f64_const_expr (_ : Z) (value : Z) : AM WasmResult :=
  set_init_expr (EXPR_CONST (mkConst WASM_TYPE_F64 value)).
Definition on_init_expr_get_global_expr (_ : Z) (global_index : Z) : AM WasmResult :=
  set_init_expr (EXPR_GET_GLOBAL (VAR_INDEX global_index)).
Definition on_init_expr_i32_const_expr (_ : Z) (value : Z) : AM WasmResult :=
  set_init_expr (EXPR_CONST (mkConst WASM_TYPE_I32 value)).
Definition on_init_expr_i64_const_expr (_ : Z) (value : Z) : AM WasmResult :=
  set_init_expr (EXPR_CONST (mkConst WASM_TYPE_I64 value)).

(** [s_binary_reader]; a member that is left out is [NULL] and succeeds. *)
Definition s_binary_reader (cb : Callback) : AM WasmResult :=
  match cb with
  | CB_on_signature_count count => on_signature_count count
  | CB_on_signature index param_types result_types => on_signature index param_types result_types
  | CB_on_import_count count => on_import_count count
  | CB_on_import index module_name field_name => on_import index module_name field_name
  | CB_on_import_func index sig_index => on_import_func index sig_index
  | CB_on_import_table index _ elem_limits => on_import_table index elem_limits
  | CB_on_import_memory index page_limits => on_import_memory index page_limits
  | CB_on_import_global index type mutable_ => on_import_global index type mutable_
  | CB_on_function_signatures_count count => on_function_signatures_count count
  | CB_on_function_signature index sig_index => on_function_signature index sig_index
  | CB_on_table_count count => on_table_count count
  | CB_on_table index _ elem_limits => on_table index elem_limits
  | CB_on_memory_count count => on_memory_count count
  | CB_on_memory index page_limits => on_memory index page_limits
  | CB_on_global_count count => on_global_count count
  | CB_begin_global index type mutable_ => begin_global index type mutable_
  | CB_begin_global_init_expr index => begin_global_init_expr index
  | CB_end_global_init_expr index => end_global_init_expr index
  | CB_on_export_count count => on_export_count count
  | CB_on_export index kind item_index name => on_export index kind item_index name
  | CB_on_start_function func_index => on_start_function func_index
  | CB_on_function_bodies_count count => on_function_bodies_count count
  | CB_begin_function_body index => begin_function_body index
  | CB_on_local_decl _ count type => on_local_decl count type
  | CB_on_binary_expr opcode => on_binary_expr opcode
  | CB_on_block_expr sig => on_block_expr sig
  | CB_on_br_expr depth => on_br_expr depth
  | CB_on_br_if_expr depth => on_br_if_expr depth
  | CB_on_br_table_expr target_depths default_target_depth => on_br_table_expr target_depths default_target_depth
  | CB_on_call_expr func_index => on_call_expr func_index
  | CB_on_call_indirect_expr sig_index => on_call_indirect_expr sig_index
  | CB_on_compare_expr opcode => on_compare_expr opcode
  | CB_on_convert_expr opcode => on_convert_expr opcode
  | CB_on_current_memory_expr => on_current_memory_expr
  | CB_on_drop_expr => on_drop_expr
  | CB_on_else_expr => on_else_expr
  | CB_on_end_expr => on_end_expr
  | CB_on_f32_const_expr value_bits => on_f32_const_expr value_bits
  | CB_on_f64_const_expr value_bits => on_f64_const_expr value_bits
  | CB_on_get_global_expr global_index => on_get_global_expr global_index
  | CB_on_get_local_expr local_index => on_get_local_expr local_index
  | CB_on_grow_memory_expr => on_grow_memory_expr
  | CB_on_i32_const_expr value => on_i32_const_expr value
  | CB_on_i64_const_expr value => on_i64_const_expr value
  | CB_on_if_expr sig => on_if_expr sig
  | CB_on_load_expr opcode alignment_log2 offset => on_load_expr opcode alignment_log2 offset
  | CB_on_loop_expr sig => on_loop_expr sig
  | CB_on_nop_expr => on_nop_expr
  | CB_on_return_expr => on_return_expr
  | CB_on_select_expr => on_select_expr
  | CB_on_set_global_expr global_index => on_set_global_expr global_index
  | CB_on_set_local_expr local_index => on_set_local_expr local_index
  | CB_on_store_expr opcode alignment_log2 offset => on_store_expr opcode alignment_log2 offset
  | CB_on_tee_local_expr local_index => on_tee_local_expr local_index
  | CB_on_unary_expr opcode => on_unary_expr opcode
  | CB_on_unreachable_expr => on_unreachable_expr
  | CB_end_function_body _ => end_function_body
  | CB_on_elem_segment_count count => on_elem_segment_count count
  | CB_begin_elem_segment index table_index => begin_elem_segment index table_index
  | CB_begin_elem_segment_init_expr index => begin_elem_segment_init_expr index
  | CB_end_elem_segment_init_expr index => end_elem_segment_init_expr index
  | CB_on_elem_segment_function_index_count index count =>
      on_elem_segment_function_index_count index count
  | CB_on_elem_segment_function_index index func_index =>
      on_elem_segment_function_index index func_index
  | CB_on_data_segment_count count => on_data_segment_count count
  | CB_begin_data_segment index memory_index => begin_data_segment index memory_index
  | CB_begin_data_segment_init_expr index => begin_data_segment_init_expr index
  | CB_end_data_segment_init_expr index => end_data_segment_init_expr index
  | CB_on_data_segment_data index data => on_data_segment_data index data
  | CB_on_function_names_count count => on_function_names_count count
  | CB_on_function_name index name => on_function_name index name
  | CB_on_local_names_count index count => on_local_names_count index count
  | CB_on_local_name func_index local_index name => on_local_name func_index local_index name
  | CB_on_init_expr_f32_const_expr index value => on_init_expr_f32_const_expr index value
  | CB_on_init_expr_f64_const_expr index value => on_init_expr_f64_const_expr index value
  | CB_on_init_expr_get_global_expr index global_index => on_init_expr_get_global_expr index global_index
  | CB_on_init_expr_i32_const_expr index value => on_init_expr_i32_const_expr index value
  | CB_on_init_expr_i64_const_expr index value => on_init_expr_i64_const_expr index value
  | _ => ok
  end.

(** The table as callbacks of the reader; after undefined behaviour ([None])
    nothing is known. *)
Definition ast_handler (cb : Callback) (u : option Context) : WasmResult * option Context :=
  match u with
  | None => (WASM_ERROR, None)
  | Some c =>
      match s_binary_reader cb c with Some (r, c) => (r, Some c) | None => (WASM_ERROR, None) end
  end.

(** [on_error] prints the message. *)
Definition ast_reader : WasmBinaryReader (option Context) :=
  mkReader (fun _ => ast_handler) (fun _ _ u => u).

(** The module as the rest of the program sees it: its cached vectors are
    views of the fields. *)
Definition store_module (m : ModuleStore) : WasmModule :=
  mkModule None (store_fields m) (store_func_bindings m) empty_hash empty_hash empty_hash empty_hash
    empty_hash.

(** A list inside one that has been freed. *)
Definition inside_freed (freed : list ExprList) (loc : ExprList) : bool :=
  existsb (fun l => bool_decide (list_func l = list_func loc) &&
                    bool_decide (list_path l <> list_path loc) &&
                    bool_decide (take (length (list_path l)) (list_path loc) = list_path l)) freed.

(** [WASM_DESTROY_VECTOR_AND_ELEMENTS(label_stack)], from the outermost label:
    [wasm_destroy_label_node] frees the list of each label that is left, unless
    it is empty.  Gives the lists freed; [None] is a read of freed memory. *)
Fixpoint destroy_label_nodes (ls : list LabelNode) (freed : list ExprList) (c : Context) :
    option (list ExprList) :=
  match ls with
  | [] => Some freed
  | node :: ls =>
      loc ← label_first node;
      if inside_freed freed loc then None
      else
        '(l, _) ← read_list (Some loc) c;
        destroy_label_nodes ls (match l with [] => freed | _ => freed ++ [loc] end) c
  end.

(** The result, the module and the lists of the module that were freed with the
    label stack: a module that is returned should have none, and one that is
    thrown away by [wasm_destroy_module] has them freed once more. *)
Definition wasm_read_binary_ast (read_debug_names : bool) (data : bytes) :
    option (WasmResult * ModuleStore * list ExprList) :=
  '(result, u) ← wasm_read_binary ast_reader read_debug_names data (Some zero_context);
  c ← u;
  freed ← destroy_label_nodes (reverse (label_stack c)) [] c;
  Some (result, ctx_module c, freed).
End reader.
