(* ===== verification/AstTree.v ===== *)
(** * The tree that is read from an encoded module

    The tree that [wasm_read_binary_ast] builds from the encoding of a binary
    module: [tree_fields] says which tree that is.  [runs] follows the store of
    the reader through the callbacks; [tree_state] is its shape between two
    sections, in which every vector of the module is a view of its fields. *)

From stdpp Require Import functions.
From S2P Require Import Prelude Opcode Vector BindingHash Ast StateOpt Stream BinaryWriter BinaryReader BinaryFormat WriterFacts RoundTrip BinaryReaderAst.

Abbreviation zlen l := (Z.of_nat (length l)).

(** ** The tree of a binary module *)

Definition tree_bare (op : WasmOpcode) : WasmExpr :=
  match op with
  | WASM_OPCODE_UNREACHABLE => EXPR_UNREACHABLE
  | WASM_OPCODE_NOP => EXPR_NOP
  | WASM_OPCODE_RETURN => EXPR_RETURN
  | WASM_OPCODE_DROP => EXPR_DROP
  | WASM_OPCODE_SELECT => EXPR_SELECT
  | _ =>
      match opcode_group op with
      | Some GROUP_BINARY => EXPR_BINARY op
      | Some GROUP_COMPARE => EXPR_COMPARE op
      | Some GROUP_UNARY => EXPR_UNARY op
      | _ => EXPR_CONVERT op
      end
  end.

Definition tree_index (op : WasmOpcode) (var : WasmVar) : WasmExpr :=
  match op with
  | WASM_OPCODE_BR => EXPR_BR var
  | WASM_OPCODE_BR_IF => EXPR_BR_IF var
  | WASM_OPCODE_GET_GLOBAL => EXPR_GET_GLOBAL var
  | WASM_OPCODE_GET_LOCAL => EXPR_GET_LOCAL var
  | WASM_OPCODE_SET_GLOBAL => EXPR_SET_GLOBAL var
  | WASM_OPCODE_SET_LOCAL => EXPR_SET_LOCAL var
  | WASM_OPCODE_TEE_LOCAL => EXPR_TEE_LOCAL var
  | _ => EXPR_CALL var
  end.

Fixpoint tree_expr (i : BInstr) : WasmExpr :=
  match i with
  | BI_OP op => tree_bare op
  | BI_BLOCK sig body => EXPR_BLOCK None sig (map tree_expr body)
  | BI_LOOP sig body => EXPR_LOOP None sig (map tree_expr body)
  | BI_IF sig true_ false_ => EXPR_IF None sig (map tree_expr true_) (map tree_expr false_)
  | BI_INDEX op index => tree_index op (VAR_INDEX index)
  | BI_BR_TABLE targets default_target =>
      EXPR_BR_TABLE (map VAR_INDEX targets) (VAR_INDEX default_target)
  | BI_CALL_INDIRECT sig_index => EXPR_CALL_INDIRECT (VAR_INDEX sig_index)
  | BI_CONST c => EXPR_CONST c
  | BI_MEMORY op log2 offset =>
      match opcode_group op with
      | Some GROUP_LOAD => EXPR_LOAD op (Z.shiftl 1 log2) offset
      | _ => EXPR_STORE op (Z.shiftl 1 log2) offset
      end
  | BI_RESERVED op =>
      match op with WASM_OPCODE_CURRENT_MEMORY => EXPR_CURRENT_MEMORY | _ => EXPR_GROW_MEMORY end
  end.

Section tree.
Context (bm : BModule).

(** A declaration shares the signature of its type. *)
Definition tree_decl (sig_index : Z) : WasmFuncDeclaration :=
  mkFuncDeclaration
    (Z.lor WASM_FUNC_DECLARATION_FLAG_HAS_FUNC_TYPE WASM_FUNC_DECLARATION_FLAG_SHARED_SIGNATURE)
    (VAR_INDEX sig_index) (default (mkFuncSignature [] []) (bm_types bm !! Z.to_nat sig_index)).

Definition tree_string (b : list Z) : WasmStringSlice := Some (string_of_bytes b).

Definition tree_func (sig_index : Z) (locals : list WasmType) (body : list WasmExpr) : WasmFunc :=
  mkFunc None (tree_decl sig_index) locals empty_hash empty_hash body.

Definition tree_import_desc (d : BImportDesc) : WasmImportDesc :=
  match d with
  | BIMPORT_FUNC sig_index => IMPORT_FUNC (tree_func sig_index [] [])
  | BIMPORT_TABLE l => IMPORT_TABLE (mkTable None (read_limits l))
  | BIMPORT_MEMORY l => IMPORT_MEMORY (mkMemory None (read_limits l))
  | BIMPORT_GLOBAL t mutable_ => IMPORT_GLOBAL (mkGlobal None t mutable_ [])
  end.

Definition tree_type (sig : WasmFuncSignature) : WasmModuleField := FIELD_FUNC_TYPE (mkFuncType None sig).

Definition tree_import (i : BImport) : WasmModuleField :=
  FIELD_IMPORT (mkImport (tree_string (bi_module i)) (tree_string (bi_field i))
    (tree_import_desc (bi_desc i))).

Definition tree_table (l : WasmLimits) : WasmModuleField := FIELD_TABLE (mkTable None (read_limits l)).
Definition tree_memory (l : WasmLimits) : WasmModuleField := FIELD_MEMORY (mkMemory None (read_limits l)).

Definition tree_global (g : BGlobal) : WasmModuleField :=
  FIELD_GLOBAL (mkGlobal None (bg_type g) (bg_mutable g) (map tree_expr (bg_init g))).

Definition tree_export (e : BExport) : WasmModuleField :=
  FIELD_EXPORT (mkExport (tree_string (be_name e)) (be_kind e) (VAR_INDEX (be_index e))).

Definition tree_elem (s : BElemSegment) : WasmModuleField :=
  FIELD_ELEM_SEGMENT (mkElemSegment (VAR_INDEX (bes_table s)) (map tree_expr (bes_offset s))
    (map VAR_INDEX (bes_funcs s))).

Definition tree_data (s : BDataSegment) : WasmModuleField :=
  FIELD_DATA_SEGMENT (mkDataSegment (VAR_INDEX (bd_memory s)) (map tree_expr (bd_offset s)) (bd_data s)).

(** Runs of equal types, spelled out. *)
Definition expand_locals (runs : list (Z * WasmType)) : list WasmType :=
  concat (map (fun r => replicate (Z.to_nat (fst r)) (snd r)) runs).

Definition tree_code (sig_index : Z) (f : BFuncBody) : WasmModuleField :=
  FIELD_FUNC (tree_func sig_index (expand_locals (bf_locals f)) (map tree_expr (bf_body f))).

(** A function before its body is read. *)
Definition tree_signature (sig_index : Z) : WasmModuleField := FIELD_FUNC (tree_func sig_index [] []).

(** The first [done] functions have their body. *)
Definition tree_funcs (done : nat) : list WasmModuleField :=
  zip_with tree_code (take done (bm_funcs bm)) (take done (bm_codes bm)) ++
  map tree_signature (drop done (bm_funcs bm)).

Definition tree_before_funcs : list WasmModuleField :=
  map tree_type (bm_types bm) ++ map tree_import (bm_imports bm).

Definition tree_after_funcs : list WasmModuleField :=
  map tree_table (bm_tables bm) ++ map tree_memory (bm_memories bm) ++ map tree_global (bm_globals bm) ++
  map tree_export (bm_exports bm) ++
  match bm_start bm with Some i => [FIELD_START (VAR_INDEX i)] | None => [] end ++
  map tree_elem (bm_elems bm).

(** The fields, in the order of the sections. *)
Definition tree_fields : list WasmModuleField :=
  tree_before_funcs ++ tree_funcs (length (bm_codes bm)) ++ tree_after_funcs ++ map tree_data (bm_datas bm).

Definition tree : WasmModule :=
  mkModule None tree_fields empty_hash empty_hash empty_hash empty_hash empty_hash empty_hash.
End tree.

(** What the tree can hold: names whose copies keep all their bytes, and
    alignments that are a positive [int]. *)
Definition tree_name (b : list Z) : bool :=
  forallb (fun x => (0 <=? x) && (x <? 256)) b &&
  negb (existsb (fun x => x =? 0) (take (length b - 1) b)).

Fixpoint tree_instr (i : BInstr) : bool :=
  match i with
  | BI_BLOCK _ body | BI_LOOP _ body => forallb tree_instr body
  | BI_IF _ true_ false_ => forallb tree_instr true_ && forallb tree_instr false_
  | BI_MEMORY _ log2 _ => log2 <? 31
  | _ => true
  end.

Definition tree_module (bm : BModule) : bool :=
  forallb (fun i => tree_name (bi_module i) && tree_name (bi_field i)) (bm_imports bm) &&
  forallb (fun e => tree_name (be_name e)) (bm_exports bm) &&
  forallb (fun f => forallb tree_instr (bf_body f)) (bm_codes bm).

(** The functions of element segments exist: the writer asserts it, the reader
    of the tree does not ask. *)
Definition tree_segments (bm : BModule) : bool :=
  forallb (fun s => forallb (fun i => i <? num_of_kind WASM_EXTERNAL_KIND_FUNC bm) (bes_funcs s)) (bm_elems bm).

(** ** Positions of the fields a vector points to *)

Definition selects (k : ModuleVector) (f : WasmModuleField) : bool :=
  match k, f with
  | FUNC_TYPES, FIELD_FUNC_TYPE _ | IMPORTS, FIELD_IMPORT _
  | FUNCS, FIELD_FUNC _ | FUNCS, FIELD_IMPORT (mkImport _ _ (IMPORT_FUNC _))
  | TABLES, FIELD_TABLE _ | TABLES, FIELD_IMPORT (mkImport _ _ (IMPORT_TABLE _))
  | MEMORIES, FIELD_MEMORY _ | MEMORIES, FIELD_IMPORT (mkImport _ _ (IMPORT_MEMORY _))
  | GLOBALS, FIELD_GLOBAL _ | GLOBALS, FIELD_IMPORT (mkImport _ _ (IMPORT_GLOBAL _))
  | EXPORTS, FIELD_EXPORT _ | ELEM_SEGMENTS, FIELD_ELEM_SEGMENT _
  | DATA_SEGMENTS, FIELD_DATA_SEGMENT _ => true
  | _, _ => false
  end.

Definition is_import (kind : WasmExternalKind) (f : WasmModuleField) : bool :=
  match f with FIELD_IMPORT _ => selects (export_vector kind) f | _ => false end.

Definition is_start (f : WasmModuleField) : bool :=
  match f with FIELD_START _ => true | _ => false end.

Section positions.
Context {A : Type} (sel : A -> bool).

Fixpoint positions (n : nat) (l : list A) : list nat :=
  match l with
  | [] => []
  | x :: l => if sel x then n :: positions (S n) l else positions (S n) l
  end.

Lemma positions_app n l1 l2 : positions n (l1 ++ l2) = positions n l1 ++ positions (n + length l1) l2.
Proof.
  revert n. induction l1 as [|x l1 IH]; intros n; cbn [app positions length].
  - by rewrite Nat.add_0_r.
  - rewrite IH, Nat.add_succ_l, Nat.add_succ_r. by destruct (sel x).
Qed.

Lemma positions_snoc n l x :
  positions n (l ++ [x]) = positions n l ++ if sel x then [(n + length l)%nat] else [].
Proof. rewrite positions_app. cbn [positions]. by destruct (sel x). Qed.

Lemma length_positions n l : length (positions n l) = length (List.filter sel l).
Proof.
  revert n. induction l as [|x l IH]; intros n; cbn [positions List.filter]; [done|].
  destruct (sel x); cbn [length]; by rewrite IH.
Qed.

Lemma length_positions_le n l : (length (positions n l) <= length l)%nat.
Proof. rewrite length_positions. apply List.filter_length_le. Qed.

(** The [i]-th selected element is where the [i]-th position says. *)
Lemma positions_lookup n l i x : List.filter sel l !! i = Some x ->
  exists p, positions n l !! i = Some (n + p)%nat /\ l !! p = Some x /\ sel x = true.
Proof.
  revert n i. induction l as [|y l IH]; intros n i; cbn [positions List.filter]; [done|].
  destruct (sel y) eqn:Ey.
  - destruct i as [|i]; [intros [= ->]; exists 0%nat; by rewrite Nat.add_0_r|]. intros H.
    destruct (IH (S n) i H) as (p & ? & ? & ?). exists (S p). by rewrite Nat.add_succ_r.
  - intros H. destruct (IH (S n) i H) as (p & ? & ? & ?). exists (S p). by rewrite Nat.add_succ_r.
Qed.

(** Overwriting an element by one that is selected just the same. *)
Lemma positions_insert n l p x y : l !! p = Some x -> sel y = sel x -> positions n (<[p := y]> l) = positions n l.
Proof.
  intros Hx Hy. revert n p Hx. induction l as [|z l IH]; intros n [|p]; cbn; [done..|intros [= ->]; by rewrite Hy|].
  intros H. by rewrite IH.
Qed.

Lemma positions_all n l : forallb sel l = true -> positions n l = seq n (length l).
Proof.
  revert n. induction l as [|x l IH]; intros n; cbn [forallb positions length seq]; [done|].
  intros [-> H]%andb_true_iff. by rewrite IH.
Qed.

Lemma positions_none n l : forallb (fun x => negb (sel x)) l = true -> positions n l = [].
Proof.
  revert n. induction l as [|x l IH]; intros n; cbn [forallb positions]; [done|].
  rewrite andb_true_iff, negb_true_iff. intros [-> H]. by apply IH.
Qed.
End positions.

(** ** Lists of expressions in place *)

Lemma body_of_with_body e b es es' : body_of e b = Some es -> body_of (with_body e b es') b = Some es'.
Proof. by destruct e, b. Qed.

Lemma with_body_of e b es : body_of e b = Some es -> with_body e b es = e.
Proof. destruct e, b; try done; by intros [= ->]. Qed.

Lemma with_body_twice e b es es' : with_body (with_body e b es) b es' = with_body e b es'.
Proof. by destruct e, b. Qed.

Lemma set_list_total T path L L' : get_list T path = Some L -> exists T', set_list T path L' = Some T'.
Proof.
  revert T. induction path as [|[i b] path IH]; intros T; cbn [get_list set_list]; [eauto|].
  destruct (T !! i) as [e|]; [|done]. cbn [mbind option_bind]. destruct (body_of e b) as [es|]; [|done].
  cbn [mbind option_bind]. intros (T' & ->)%IH. cbn. eauto.
Qed.

Lemma set_list_same T path L : get_list T path = Some L -> set_list T path L = Some T.
Proof.
  revert T. induction path as [|[i b] path IH]; intros T; cbn [get_list set_list]; [by intros [= ->]|].
  destruct (T !! i) as [e|] eqn:Ei; [|done]. cbn [mbind option_bind].
  destruct (body_of e b) as [es|] eqn:Eb; [|done]. cbn [mbind option_bind]. intros H.
  rewrite (IH _ H). cbn [mbind option_bind]. by rewrite (with_body_of _ _ _ Eb), list_insert_id.
Qed.

Lemma get_list_app T path q L : get_list T path = Some L -> get_list T (path ++ q) = get_list L q.
Proof.
  revert T. induction path as [|[i b] path IH]; intros T; cbn [app get_list]; [by intros [= ->]|].
  destruct (T !! i) as [e|]; [|done]. cbn [mbind option_bind]. destruct (body_of e b) as [es|]; [|done].
  apply IH.
Qed.

(** What is put into a list is found there. *)
Lemma get_set_list T path L T' : set_list T path L = Some T' -> get_list T' path = Some L.
Proof.
  revert T T'. induction path as [|[i b] path IH]; intros T T'; cbn [get_list set_list]; [by intros [= ->]|].
  destruct (T !! i) as [e|] eqn:Ei; [|done]. cbn [mbind option_bind].
  destruct (body_of e b) as [es|] eqn:Eb; [|done]. cbn [mbind option_bind].
  destruct (set_list es path L) as [es'|] eqn:Es; [|done]. intros [= <-].
  rewrite list_lookup_insert_eq by by eapply lookup_lt_Some. cbn [mbind option_bind].
  rewrite (body_of_with_body _ _ _ _ Eb). cbn [mbind option_bind]. by eapply IH.
Qed.

(** Two writes below the same list are one. *)
Lemma set_set_list T path L1 T1 q X L2 : set_list T path L1 = Some T1 -> set_list L1 q X = Some L2 ->
  set_list T1 (path ++ q) X = set_list T path L2.
Proof.
  revert T T1. induction path as [|[i b] path IH]; intros T T1; cbn [app set_list]; [by intros [= ->] ->|].
  destruct (T !! i) as [e|] eqn:Ei; [|done]. cbn [mbind option_bind].
  destruct (body_of e b) as [es|] eqn:Eb; [|done]. cbn [mbind option_bind].
  destruct (set_list es path L1) as [es1|] eqn:Es; [|done]. intros [= <-] HL2.
  rewrite list_lookup_insert_eq by by eapply lookup_lt_Some. cbn [mbind option_bind].
  rewrite (body_of_with_body _ _ _ _ Eb). cbn [mbind option_bind]. rewrite (IH es es1 Es HL2).
  destruct (set_list es path L2) as [es2|]; [|done]. cbn [mbind option_bind].
  by rewrite with_body_twice, list_insert_insert_eq.
Qed.

(** ** Computations on the store *)

Definition does {A} (m : AM A) (c : Context) (a : A) (c' : Context) : Prop := m c = Some (a, c').

Lemma does_bind {A B} (m : AM A) (k : A -> AM B) c a c' b c'' :
  does m c a c' -> does (k a) c' b c'' -> does (so_bind m k) c b c''.
Proof. unfold does, so_bind. by intros ->. Qed.

Lemma does_ret {A} (a : A) c : does (so_ret a) c a c.
Proof. done. Qed.

Lemma does_get {B} (k : Context -> AM B) c b c' : does (k c) c b c' -> does (so_bind so_get k) c b c'.
Proof. done. Qed.

Lemma does_modify f c : does (so_modify f) c tt (f c).
Proof. done. Qed.

Lemma does_lift {A B} (o : option A) (k : A -> AM B) c a b c' :
  o = Some a -> does (k a) c b c' -> does (so_bind (so_lift o) k) c b c'.
Proof. intros ->. done. Qed.

Lemma does_lift_ret {A} (o : option A) (a : A) c : o = Some a -> does (so_lift o) c a c.
Proof. by intros ->. Qed.

Lemma does_assert {B} (b : bool) (k : unit -> AM B) c x c' :
  b = true -> does (k tt) c x c' -> does (so_bind (so_assert b) k) c x c'.
Proof. by intros ->. Qed.

Section ast.
Context (uninit_ptr : nat -> option nat) (uninit_entry : nat -> WasmBindingHashEntry).

Abbreviation h := (ast_handler uninit_ptr uninit_entry).
Abbreviation handle := (s_binary_reader uninit_ptr uninit_entry).

(** The callbacks in order, all of which succeed. *)
Definition runs (cbs : list Callback) (c c' : Context) : Prop := deliver h cbs (Some c) = Some (Some c').

Lemma runs_nil c : runs [] c c.
Proof. done. Qed.

Lemma runs_cons cb cbs c c' c'' : does (handle cb) c WASM_OK c' -> runs cbs c' c'' -> runs (cb :: cbs) c c''.
Proof.
  unfold runs, does. intros E Hr. cbn [deliver].
  by replace (h cb (Some c)) with (WASM_OK, Some c') by (unfold ast_handler; by rewrite E).
Qed.

(** A callback that is not set. *)
Lemma runs_skip cb cbs c c' : handle cb = ok -> runs cbs c c' -> runs (cb :: cbs) c c'.
Proof. intros E. apply runs_cons. by rewrite E. Qed.

Lemma runs_one cb c c' : does (handle cb) c WASM_OK c' -> runs [cb] c c'.
Proof. intros H. eapply runs_cons; [exact H|apply runs_nil]. Qed.

Lemma runs_app l1 l2 c c' c'' : runs l1 c c' -> runs l2 c' c'' -> runs (l1 ++ l2) c c''.
Proof.
  unfold runs. generalize (Some c) as u. induction l1 as [|cb l1 IH]; intros u; cbn [app deliver].
  - by intros [= ->].
  - destruct (h cb u) as [[] u']; [apply IH|done].
Qed.

(** ** The store between two sections *)

Record tree_state (fs : list WasmModuleField) (c : Context) : Prop := mkTreeState {
  ts_fields : ctx_fields c = fs;
  ts_vectors : forall k, vec_ok sizeof_ptr (ctx_vector c k) /\
    vec_list (ctx_vector c k) = Some <$> positions (selects k) 0 fs;
  ts_imports : forall kind, ctx_num_imports c kind = zlen (List.filter (is_import kind) fs);
  ts_start : store_start (ctx_module c) = last (positions is_start 0 fs);
  ts_bindings : store_func_bindings (ctx_module c) = empty_hash;
  ts_func : current_func c = None;
  ts_labels : label_stack c = [];
  ts_depth : max_depth c = 0;
  ts_init : current_init_expr c = None
}.

Lemma tree_state_zero : tree_state [] zero_context.
Proof. by split. Qed.

(** A field at the end is selected by the vectors that select it. *)
Lemma positions_field k fs f :
  positions (selects k) 0 (fs ++ [f]) =
  positions (selects k) 0 fs ++ if selects k f then [length fs] else [].
Proof. exact (positions_snoc (selects k) 0 fs f). Qed.

Lemma vec_list_size (v : WasmVector (option nat)) : vec_ok sizeof_ptr v -> vec_size v = zlen (vec_list v).
Proof. intros [Hs _]. unfold vec_list, vec_capacity in *. rewrite length_take. lia. Qed.

Lemma ts_size fs c k : tree_state fs c -> size_of c k = zlen (List.filter (selects k) fs).
Proof.
  intros Hc. destruct (ts_vectors _ _ Hc k) as [Hok Hl]. unfold size_of.
  rewrite vec_list_size, Hl, length_fmap, length_positions by done. done.
Qed.

Lemma ptr_room (n : Z) : n < 2 ^ 40 -> vec_room sizeof_ptr n.
Proof. unfold vec_room, sizeof_ptr, INITIAL_VECTOR_CAPACITY. zpow. lia. Qed.

Lemma ensure_ptrs v count : vec_ok sizeof_ptr v -> 0 <= count < 2 ^ 32 ->
  exists v', wasm_ensure_capacity uninit_ptr sizeof_ptr v count = Some v' /\ vec_ok sizeof_ptr v' /\
    vec_list v' = vec_list v /\ count <= vec_capacity v'.
Proof.
  intros Hok Hn. destruct (ensure_capacity_spec uninit_ptr sizeof_ptr ltac:(done) v count Hok)
    as (v' & E & Hok' & Hc & _ & El & _); [lia|apply ptr_room; zpow; lia|eauto].
Qed.

Lemma append_ptr_does k p c : vec_ok sizeof_ptr (ctx_vector c k) -> size_of c k + 1 < 2 ^ 40 ->
  exists v, does (append_ptr uninit_ptr k p) c tt (set_vector k v c) /\ vec_ok sizeof_ptr v /\
    vec_list v = vec_list (ctx_vector c k) ++ [Some p] /\ vec_capacity (ctx_vector c k) <= vec_capacity v.
Proof.
  intros Hok Hn. unfold append_ptr.
  destruct (append_value_spec uninit_ptr None sizeof_ptr ltac:(done) (ctx_vector c k) (Some p) Hok)
    as (v & E & Hok' & El); [by apply ptr_room|].
  exists v. split; [|split_and!; [done|done|]].
  - apply does_get. by eapply does_lift.
  - by eapply (append_value_capacity uninit_ptr None sizeof_ptr ltac:(done)); [exact Hok|apply ptr_room|exact E].
Qed.

(** What an operation keeps of a capacity. *)
Definition cap (c : Context) (k : ModuleVector) : Z := vec_capacity (ctx_vector c k).

Lemma ctx_vector_set k v c k' : ctx_vector (set_vector k v c) k' = if decide (k' = k) then v else ctx_vector c k'.
Proof.
  unfold ctx_vector, set_vector, set_module. cbn. destruct (decide (k' = k)) as [->|];
    [apply fn_lookup_insert|by apply fn_lookup_insert_ne].
Qed.

Lemma reserve_does k count fs c : tree_state fs c -> 0 <= count < 2 ^ 32 ->
  exists c', does (reserve uninit_ptr k count) c tt c' /\ tree_state fs c' /\ count <= cap c' k.
Proof.
  intros Hc Hn. destruct (ts_vectors _ _ Hc k) as [Hok Hl]. destruct (ensure_ptrs _ count Hok Hn) as (v & E & Hok' & El & Hcap).
  exists (set_vector k v c). split; [|split].
  - unfold reserve. apply does_get. by eapply does_lift.
  - destruct Hc as [H1 H2 H3 H4 H5 H6 H7 H8 H9]. split; [done| |done..].
    intros k'. rewrite ctx_vector_set. destruct (decide (k' = k)) as [->|]; [|apply H2]. split; [done|congruence].
  - unfold cap. by rewrite ctx_vector_set, decide_True.
Qed.

(** A field at the end, before its pointer is in a vector. *)
Lemma new_field_does k f fs c : tree_state fs c -> zlen fs + 1 < 2 ^ 40 ->
  (forall k', selects k' f = bool_decide (k' = k)) -> (forall kind, is_import kind f = false) -> is_start f = false ->
  exists c', does (append_ptr uninit_ptr k (length fs)) (set_fields (fs ++ [f]) c) tt c' /\
    tree_state (fs ++ [f]) c' /\ cap c k <= cap c' k.
Proof.
  intros Hc Hn Hsel Himp Hst. set (c1 := set_fields (fs ++ [f]) c).
  assert (forall k', ctx_vector c1 k' = ctx_vector c k') as Hv by done.
  destruct (append_ptr_does k (length fs) c1) as (v & E & Hok & El & Hcap).
  - rewrite Hv. apply (ts_vectors _ _ Hc).
  - change (size_of c1 k) with (size_of c k). rewrite (ts_size _ _ _ Hc).
    pose proof (List.filter_length_le (selects k) fs). lia.
  - exists (set_vector k v c1). split; [done|]. split.
    + destruct Hc as [H1 H2 H3 H4 H5 H6 H7 H8 H9]. split; [done| | | |done..].
      * intros k'. rewrite ctx_vector_set, positions_field, Hsel, Hv.
        destruct (decide (k' = k)) as [->|Hk]; [rewrite bool_decide_true by done|rewrite bool_decide_false by done].
        -- split; [done|]. rewrite El, Hv, fmap_app. f_equal. apply H2.
        -- rewrite app_nil_r. apply H2.
      * intros kind. rewrite List.filter_app. cbn [List.filter]. rewrite Himp, app_nil_r. apply H3.
      * rewrite positions_snoc, Hst, app_nil_r. done.
    + unfold cap. by rewrite ctx_vector_set, decide_True.
Qed.

(** ** Sections of the module *)

Lemma append_field_does {B} f (k : nat -> AM B) c b c' :
  does (k (length (ctx_fields c))) (set_fields (ctx_fields c ++ [f]) c) b c' ->
  does (so_bind (append_field f) k) c b c'.
Proof. done. Qed.

Lemma assert_capacity_does {B} k i (m : AM B) c b c' :
  i < cap c k -> does m c b c' -> does (so_bind (assert_capacity k i) (fun _ => m)) c b c'.
Proof.
  intros Hi Hm. eapply does_bind; [|exact Hm]. unfold assert_capacity. apply does_get.
  rewrite (proj2 (Z.ltb_lt _ _)) by exact Hi. apply does_ret.
Qed.

Lemma assert_in_does {B} k i (m : AM B) c b c' :
  i < size_of c k -> does m c b c' -> does (so_bind (assert_in k i) (fun _ => m)) c b c'.
Proof.
  intros Hi Hm. eapply does_bind; [|exact Hm]. unfold assert_in. apply does_get.
  rewrite (proj2 (Z.ltb_lt _ _)) by exact Hi. apply does_ret.
Qed.

Lemma assert_last_does {B} k i (m : AM B) c b c' :
  0 <= i < 2 ^ 40 -> size_of c k = i + 1 -> does m c b c' ->
  does (so_bind (assert_last k i) (fun _ => m)) c b c'.
Proof.
  intros Hi Hs Hm. eapply does_bind; [|exact Hm]. unfold assert_last. apply does_get.
  rewrite Hs, Z.add_simpl_r, wrap_id, Z.eqb_refl by ulia. apply does_ret.
Qed.

(** [goes k n fs cbs fs']: the callbacks lead from the fields [fs] to [fs'],
    with [n] cells reserved for the vector [k]. *)
Definition goes (k : ModuleVector) (n : Z) (fs : list WasmModuleField) (cbs : list Callback)
    (fs' : list WasmModuleField) : Prop :=
  forall c, tree_state fs c -> n <= cap c k -> exists c', runs cbs c c' /\ tree_state fs' c' /\ n <= cap c' k.

Lemma goes_nil k n fs : goes k n fs [] fs.
Proof. intros c ? ?. exists c. split; [apply runs_nil|done]. Qed.

Lemma goes_app k n fs1 l1 fs2 l2 fs3 : goes k n fs1 l1 fs2 -> goes k n fs2 l2 fs3 -> goes k n fs1 (l1 ++ l2) fs3.
Proof.
  intros H1 H2 c Hc Hn. destruct (H1 c Hc Hn) as (c1 & R1 & Hc1 & Hn1).
  destruct (H2 c1 Hc1 Hn1) as (c2 & R2 & ?). exists c2. split; [by eapply runs_app|done].
Qed.

(** The items of a section, [F j] being the fields after [j] of them. *)
Lemma goes_indexed {A} k n (F : nat -> list WasmModuleField) (cbs : Z -> A -> list Callback) l j :
  (forall i x, l !! i = Some x -> goes k n (F (j + i)%nat) (cbs (Z.of_nat (j + i)) x) (F (S (j + i)))) ->
  goes k n (F j) (indexed cbs (Z.of_nat j) l) (F (j + length l)%nat).
Proof.
  revert j. induction l as [|x l IH]; intros j H; cbn [indexed length].
  - rewrite Nat.add_0_r. apply goes_nil.
  - eapply goes_app.
    + specialize (H 0%nat x eq_refl). rewrite Nat.add_0_r in H. exact H.
    + replace (Z.of_nat j + 1) with (Z.of_nat (S j)) by lia. rewrite Nat.add_succ_r, <- Nat.add_succ_l.
      apply IH. intros i y Hi. rewrite Nat.add_succ_l, <- Nat.add_succ_r. apply H, Hi.
Qed.

(** Items that each append one field. *)
Lemma goes_fields {A} k n (mk : A -> WasmModuleField) (cbs : Z -> A -> list Callback) l base :
  (forall i x, l !! i = Some x -> zlen (base ++ map mk (take i l)) + 1 <= zlen (base ++ map mk l) ->
     goes k n (base ++ map mk (take i l)) (cbs (Z.of_nat i) x) ((base ++ map mk (take i l)) ++ [mk x])) ->
  goes k n base (indexed cbs 0 l) (base ++ map mk l).
Proof.
  intros H. pose proof (goes_indexed k n (fun j => base ++ map mk (take j l)) cbs l 0) as G. cbn in G.
  rewrite app_nil_r, firstn_all in G. apply G. intros i x Hi. rewrite (take_S_r _ _ _ Hi), map_app. cbn [map].
  rewrite app_assoc. apply H; [done|]. apply lookup_lt_Some in Hi.
  rewrite !length_app, !length_map, length_take. lia.
Qed.

(** The sections after which nothing is reserved. *)
Definition leads (fs : list WasmModuleField) (cbs : list Callback) (fs' : list WasmModuleField) : Prop :=
  forall c, tree_state fs c -> exists c', runs cbs c c' /\ tree_state fs' c'.

Lemma leads_nil fs : leads fs [] fs.
Proof. intros c ?. exists c. split; [apply runs_nil|done]. Qed.

Lemma leads_app fs1 l1 fs2 l2 fs3 : leads fs1 l1 fs2 -> leads fs2 l2 fs3 -> leads fs1 (l1 ++ l2) fs3.
Proof.
  intros H1 H2 c Hc. destruct (H1 c Hc) as (c1 & R1 & Hc1). destruct (H2 c1 Hc1) as (c2 & R2 & ?).
  exists c2. split; [by eapply runs_app|done].
Qed.

Lemma leads_skip cb fs : handle cb = ok -> leads fs [cb] fs.
Proof. intros E c Hc. exists c. split; [by apply runs_skip; [|apply runs_nil]|done]. Qed.

(** The count of a section, then its items. *)
Lemma leads_counted k n fs cb cbs fs' :
  handle cb = so_bind (reserve uninit_ptr k n) (fun _ => ok) -> 0 <= n < 2 ^ 32 ->
  goes k n fs cbs fs' -> leads fs (cb :: cbs) fs'.
Proof.
  intros E Hn G c Hc. destruct (reserve_does k n fs c Hc Hn) as (c1 & D1 & Hc1 & Hn1).
  destruct (G c1 Hc1 Hn1) as (c2 & R & Hc2 & _). exists c2. split; [|done].
  eapply runs_cons; [|exact R]. rewrite E. eapply does_bind; [exact D1|apply does_ret].
Qed.

(** A callback that appends the field [f] for the vector [k]. *)
Lemma goes_new_field k n f fs cb :
  zlen fs + 1 < 2 ^ 40 -> (forall k', selects k' f = bool_decide (k' = k)) ->
  (forall kind, is_import kind f = false) -> is_start f = false ->
  (forall c c', tree_state fs c -> n <= cap c k ->
     does (append_ptr uninit_ptr k (length fs)) (set_fields (fs ++ [f]) c) tt c' -> does (handle cb) c WASM_OK c') ->
  goes k n fs [cb] (fs ++ [f]).
Proof.
  intros Hl Hsel Himp Hst H c Hc Hn.
  destruct (new_field_does k f fs c Hc Hl Hsel Himp Hst) as (c' & D & Hc' & Hcap).
  exists c'. split; [apply runs_one; by eapply H|]. split; [done|lia].
Qed.

Lemma goes_signature n fs i sig : i < n -> zlen fs + 1 < 2 ^ 40 ->
  goes FUNC_TYPES n fs (type_callbacks i sig) (fs ++ [FIELD_FUNC_TYPE (mkFuncType None sig)]).
Proof.
  intros Hi Hl. apply goes_new_field; [done|by intros []|by intros []|done|]. intros c c' Hc Hn D.
  cbn [s_binary_reader]. unfold on_signature. apply append_field_does. rewrite (ts_fields _ _ Hc).
  apply assert_capacity_does; [change (i < cap c FUNC_TYPES); lia|]. destruct sig. eapply does_bind; [exact D|apply does_ret].
Qed.

Lemma goes_table n fs i t l : i < n -> zlen fs + 1 < 2 ^ 40 ->
  goes TABLES n fs [CB_on_table i t l] (fs ++ [FIELD_TABLE (mkTable None l)]).
Proof.
  intros Hi Hl. apply goes_new_field; [done|by intros []|by intros []|done|]. intros c c' Hc Hn D.
  cbn [s_binary_reader]. unfold on_table. apply assert_capacity_does; [lia|].
  apply append_field_does. rewrite (ts_fields _ _ Hc). eapply does_bind; [exact D|apply does_ret].
Qed.

Lemma goes_memory n fs i l : i < n -> zlen fs + 1 < 2 ^ 40 ->
  goes MEMORIES n fs [CB_on_memory i l] (fs ++ [FIELD_MEMORY (mkMemory None l)]).
Proof.
  intros Hi Hl. apply goes_new_field; [done|by intros []|by intros []|done|]. intros c c' Hc Hn D.
  cbn [s_binary_reader]. unfold on_memory. apply assert_capacity_does; [lia|].
  apply append_field_does. rewrite (ts_fields _ _ Hc). eapply does_bind; [exact D|apply does_ret].
Qed.

Lemma goes_export n fs i e name : i < n -> zlen fs + 1 < 2 ^ 40 ->
  be_index e < zlen (List.filter (selects (export_vector (be_kind e))) fs) ->
  wasm_dup_string_slice (be_name e) = Some name ->
  goes EXPORTS n fs [CB_on_export i (be_kind e) (be_index e) (be_name e)]
    (fs ++ [FIELD_EXPORT (mkExport name (be_kind e) (VAR_INDEX (be_index e)))]).
Proof.
  intros Hi Hl He Hname. apply goes_new_field; [done|by intros []|by intros []|done|]. intros c c' Hc Hn D.
  cbn [s_binary_reader]. unfold on_export. eapply does_lift; [exact Hname|].
  apply append_field_does. rewrite (ts_fields _ _ Hc).
  apply assert_in_does; [by rewrite <- (ts_size _ _ _ Hc) in He|].
  apply assert_capacity_does; [change (i < cap c EXPORTS); lia|]. eapply does_bind; [exact D|apply does_ret].
Qed.

(** ** Pointers into the fields *)

Lemma ptr_at_does {B} k i p (m : nat -> AM B) c b c' :
  vec_list (ctx_vector c k) !! i = Some (Some p) -> does (m p) c b c' ->
  does (so_bind (ptr_at k (Z.of_nat i)) m) c b c'.
Proof.
  intros Hp Hm. eapply does_bind; [|exact Hm]. unfold ptr_at. apply does_get.
  eapply does_lift; [|apply does_lift_ret; reflexivity]. apply zget_Some. rewrite Nat2Z.id. split; [lia|done].
Qed.

Lemma field_at_does {B} p f (m : WasmModuleField -> AM B) c b c' :
  ctx_fields c !! p = Some f -> does (m f) c b c' -> does (so_bind (field_at p) m) c b c'.
Proof. intros Hp Hm. eapply does_bind; [|exact Hm]. unfold field_at. apply does_get. by apply does_lift_ret. Qed.

Lemma set_field_does {B} p f (m : AM B) c b c' :
  does m (set_fields (<[p := f]> (ctx_fields c)) c) b c' -> does (so_bind (set_field p f) (fun _ => m)) c b c'.
Proof. done. Qed.

(** The pointer to the last of the fields a vector selects. *)
Lemma last_position k base f :
  selects k f = true ->
  (Some <$> positions (selects k) 0 (base ++ [f])) !! length (List.filter (selects k) base) =
  Some (Some (length base)).
Proof.
  intros Hf. rewrite positions_field, Hf, fmap_app. change (Some <$> [length base]) with [Some (length base)].
  rewrite list_lookup_middle; [done|].
  by rewrite length_fmap, length_positions.
Qed.

Lemma ts_pointer fs c k i f : tree_state fs c -> List.filter (selects k) fs !! i = Some f ->
  exists p, vec_list (ctx_vector c k) !! i = Some (Some p) /\ fs !! p = Some f.
Proof.
  intros Hc (p & Hp & Hf & _)%(positions_lookup _ 0). exists p. split; [|done].
  rewrite (proj2 (ts_vectors _ _ Hc k)), list_lookup_fmap. by rewrite Hp.
Qed.

(** Overwriting a field that the vectors select just the same. *)
Lemma tree_state_insert fs c p f f' : tree_state fs c -> fs !! p = Some f ->
  (forall k, selects k f' = selects k f) -> (forall kind, is_import kind f' = is_import kind f) ->
  is_start f' = is_start f -> tree_state (<[p := f']> fs) (set_fields (<[p := f']> fs) c).
Proof.
  intros [H1 H2 H3 H4 H5 H6 H7 H8 H9] Hp Hk Hi Hs. split; [done| | | |done..].
  - intros k. change (ctx_vector (set_fields _ c) k) with (ctx_vector c k).
    rewrite (positions_insert _ 0 fs p f f') by done. apply H2.
  - intros kind. change (ctx_num_imports (set_fields _ c) kind) with (ctx_num_imports c kind).
    rewrite H3, <- !(length_positions _ 0), (positions_insert _ 0 fs p f f') by done. done.
  - rewrite (positions_insert _ 0 fs p f f') by done. apply H4.
Qed.

Lemma insert_snoc {A} (l : list A) x y : <[length l := y]> (l ++ [x]) = l ++ [y].
Proof. by rewrite insert_app_r_alt, Nat.sub_diag. Qed.

Lemma insert_middle {A} (l1 l2 : list A) x y : <[length l1 := y]> (l1 ++ x :: l2) = l1 ++ y :: l2.
Proof. by rewrite insert_app_r_alt, Nat.sub_diag. Qed.

(** ** Initializers *)

Lemma goes_init k n base i l f0 f1 cb_begin cb_end :
  ok_init l = true -> with_init f0 [] = Some f0 -> with_init f0 (map tree_expr l) = Some f1 ->
  (forall c, tree_state (base ++ [f0]) c ->
     does (handle cb_begin) c WASM_OK (set_current_init_expr (Some (length base)) c)) ->
  handle cb_end = end_init_expr ->
  goes k n (base ++ [f0]) (cb_begin :: init_callbacks i l ++ [cb_end]) (base ++ [f1]).
Proof.
  intros Hl Hw0 Hw Hbegin Hend c Hc Hn.
  assert ((forall k, selects k f1 = selects k f0) /\ (forall kind, is_import kind f1 = is_import kind f0) /\
    is_start f1 = is_start f0) as (Hs1 & Hs2 & Hs3).
  { destruct f0; try done; injection Hw as <-; split_and!; try done; by intros []. }
  pose proof (tree_state_insert _ _ (length base) f0 f1 Hc ltac:(by rewrite list_lookup_middle) Hs1 Hs2 Hs3) as Hc'.
  rewrite insert_snoc in Hc'. exists (set_fields (base ++ [f1]) c). split; [|split; [done|exact Hn]].
  set (c1 := set_current_init_expr (Some (length base)) c).
  set (c2 := set_fields (base ++ [f1]) c1).
  assert (runs (init_callbacks i l) c1 c2) as Hinit.
  { assert (forall e, [e] = map tree_expr l -> does (set_init_expr e) c1 WASM_OK c2) as Hset.
    { intros e He. unfold set_init_expr. apply does_get. eapply does_lift; [reflexivity|].
      eapply field_at_does; [change (ctx_fields c1) with (ctx_fields c); rewrite (ts_fields _ _ Hc);
        by apply list_lookup_middle|].
      rewrite He. eapply does_lift; [exact Hw|]. apply set_field_does.
      change (ctx_fields c1) with (ctx_fields c). rewrite (ts_fields _ _ Hc), insert_snoc. apply does_ret. }
    destruct l as [|[] [|]]; try done.
    - cbn [map] in Hw. rewrite Hw0 in Hw. injection Hw as <-. unfold c2.
      rewrite <- (ts_fields _ _ Hc). by destruct c as [[] ? ? ? ?].
    - apply andb_true_iff in Hl as [->%bool_decide_eq_true_1 _]. apply runs_one. by apply Hset.
    - destruct const_ as [[] b]; try done; apply runs_one; by apply Hset. }
  eapply runs_cons; [by apply Hbegin|]. eapply runs_app; [exact Hinit|].
  apply runs_one. rewrite Hend. unfold end_init_expr. eapply does_bind; [apply does_modify|].
  assert (set_current_init_expr None c2 = set_fields (base ++ [f1]) c) as ->; [|apply does_ret].
  unfold c2, c1. pose proof (ts_init _ _ Hc) as Hi. destruct c as [[] ? ? ? ?]. cbn in Hi |- *. by rewrite Hi.
Qed.

(** ** Globals and segments *)

(** [ptr_at] of the last field, after the assertion that it is the last. *)
Lemma last_ptr_does {B} k base f (m : nat -> AM B) c b c' :
  tree_state (base ++ [f]) c -> selects k f = true -> does (m (length base)) c b c' ->
  does (so_bind (ptr_at k (zlen (List.filter (selects k) base))) m) c b c'.
Proof.
  intros Hc Hf Hm. eapply ptr_at_does; [|exact Hm].
  rewrite (proj2 (ts_vectors _ _ Hc k)). by apply last_position.
Qed.

Lemma assert_last_field {B} k base f (m : AM B) c b c' :
  tree_state (base ++ [f]) c -> selects k f = true -> zlen base < 2 ^ 40 -> does m c b c' ->
  does (so_bind (assert_last k (zlen (List.filter (selects k) base))) (fun _ => m)) c b c'.
Proof.
  intros Hc Hf Hl Hm. pose proof (List.filter_length_le (selects k) base).
  apply assert_last_does; [lia| |done]. rewrite (ts_size _ _ _ Hc), List.filter_app. cbn [List.filter].
  rewrite Hf, length_app. cbn [length]. lia.
Qed.

Lemma goes_global n base i g : i < n -> zlen base + 1 < 2 ^ 32 ->
  ok_init (bg_init g) = true ->
  zlen (List.filter (is_import WASM_EXTERNAL_KIND_GLOBAL) base) + i = zlen (List.filter (selects GLOBALS) base) ->
  goes GLOBALS n base (global_callbacks i g) (base ++ [tree_global g]).
Proof.
  intros Hi Hl Hinit Hg. unfold global_callbacks. cbn [app].
  eapply (goes_app _ _ _ [_]).
  { apply (goes_new_field GLOBALS n (FIELD_GLOBAL (mkGlobal None (bg_type g) (bg_mutable g) [])));
      [zpow; lia|by intros []|by intros []|done|]. intros c c' Hc Hn D.
    cbn [s_binary_reader]. unfold begin_global. apply assert_capacity_does; [lia|].
    apply append_field_does. rewrite (ts_fields _ _ Hc). eapply does_bind; [exact D|apply does_ret]. }
  replace (init_callbacks i (bg_init g) ++ _) with
    ((init_callbacks i (bg_init g) ++ [CB_end_global_init_expr i]) ++ [CB_end_global i]) by by rewrite <- app_assoc.
  rewrite app_comm_cons. eapply goes_app.
  { eapply goes_init; [done|reflexivity|reflexivity| |reflexivity]. intros c Hc.
    cbn [s_binary_reader]. unfold begin_global_init_expr. apply does_get. cbn zeta.
    rewrite (ts_imports _ _ Hc), List.filter_app. cbn [List.filter is_import]. rewrite app_nil_r, Hg.
    pose proof (List.filter_length_le (selects GLOBALS) base).
    rewrite wrap_id by ulia. eapply assert_last_field; [exact Hc|done|zpow; lia|].
    eapply last_ptr_does; [exact Hc|done|]. eapply does_bind; [apply does_modify|apply does_ret]. }
  intros c Hc Hn. exists c. split; [by apply runs_one|done].
Qed.

(** A segment: its field, then its offset. *)
Lemma goes_segment k n base i f0 f1 l cb cb_begin cb_end :
  zlen base + 1 < 2 ^ 40 -> i = zlen (List.filter (selects k) base) -> i < n ->
  (forall k', selects k' f0 = bool_decide (k' = k)) -> (forall kind, is_import kind f0 = false) ->
  is_start f0 = false -> ok_init l = true -> with_init f0 [] = Some f0 -> with_init f0 (map tree_expr l) = Some f1 ->
  handle cb = (field <- append_field f0 ;; c <- so_get ;; so_assert (i =? size_of c k) ;;
               assert_capacity k i ;; append_ptr uninit_ptr k field ;; ok)%so ->
  handle cb_begin = begin_segment_init_expr k i -> handle cb_end = end_init_expr ->
  goes k n base (cb :: cb_begin :: init_callbacks i l ++ [cb_end]) (base ++ [f1]).
Proof.
  intros Hl Hik Hi Hsel Himp Hst Hinit Hw0 Hw Hcb Hbegin Hend. eapply (goes_app _ _ _ [_]).
  { apply (goes_new_field k n f0); [done..|]. intros c c' Hc Hn D. rewrite Hcb.
    apply append_field_does. rewrite (ts_fields _ _ Hc). apply does_get.
    apply does_assert; [apply Z.eqb_eq; change (i = size_of c k); by rewrite (ts_size _ _ _ Hc)|].
    apply assert_capacity_does; [change (i < cap c k); lia|]. eapply does_bind; [exact D|apply does_ret]. }
  eapply goes_init; [done|done|done| |done]. intros c Hc. rewrite Hbegin, Hik. unfold begin_segment_init_expr.
  assert (selects k f0 = true) as Hk by (by rewrite Hsel, bool_decide_true).
  eapply assert_last_field; [exact Hc|done|lia|]. eapply last_ptr_does; [exact Hc|done|].
  eapply does_bind; [apply does_modify|apply does_ret].
Qed.

Definition elem_field (table : Z) (offset : list WasmExpr) (funcs : list Z) : WasmModuleField :=
  FIELD_ELEM_SEGMENT (mkElemSegment (VAR_INDEX table) offset (map VAR_INDEX funcs)).

(** One more entry of the last segment. *)
Lemma goes_elem_func n base i table offset funcs f :
  zlen base + 1 < 2 ^ 40 -> i = zlen (List.filter (selects ELEM_SEGMENTS) base) ->
  goes ELEM_SEGMENTS n (base ++ [elem_field table offset funcs]) [CB_on_elem_segment_function_index i f]
    (base ++ [elem_field table offset (funcs ++ [f])]).
Proof.
  intros Hl -> c Hc Hn. set (f1 := elem_field table offset (funcs ++ [f])).
  exists (set_fields (base ++ [f1]) c). split; [|split; [|exact Hn]].
  - apply runs_one. cbn [s_binary_reader]. unfold on_elem_segment_function_index.
    eapply assert_last_field; [exact Hc|done|lia|]. eapply last_ptr_does; [exact Hc|done|].
    eapply field_at_does; [rewrite (ts_fields _ _ Hc); by apply list_lookup_middle|]. cbn [elem_field].
    apply set_field_does. rewrite (ts_fields _ _ Hc), insert_snoc. cbn [elem_table_var elem_offset elem_vars].
    unfold f1, elem_field. rewrite map_app. apply does_ret.
  - rewrite <- (insert_snoc base (elem_field table offset funcs) f1).
    eapply tree_state_insert; [exact Hc|by apply list_lookup_middle|by intros []|done..].
Qed.

Lemma goes_elem n base i s : zlen base + 1 < 2 ^ 40 -> i = zlen (List.filter (selects ELEM_SEGMENTS) base) ->
  i < n -> ok_init (bes_offset s) = true -> goes ELEM_SEGMENTS n base (elem_callbacks i s) (base ++ [tree_elem s]).
Proof.
  intros Hl Hik Hi Hinit. unfold elem_callbacks. cbn [app].
  set (offset := map tree_expr (bes_offset s)).
  match goal with |- goes _ _ _ (?a :: ?b :: ?l ++ ?e :: ?rest) _ =>
    replace (a :: b :: l ++ e :: rest) with ((a :: b :: l ++ [e]) ++ rest) by by rewrite <- !app_comm_cons, <- app_assoc end.
  eapply goes_app.
  { apply (goes_segment ELEM_SEGMENTS n base i (elem_field (bes_table s) [] []) (elem_field (bes_table s) offset [])
      (bes_offset s)); try done; by intros []. }
  eapply (goes_app _ _ _ [_]).
  { intros c Hc Hn. exists c. split; [|split; [exact Hc|exact Hn]]. apply runs_one.
    cbn [s_binary_reader]. unfold on_elem_segment_function_index_count. rewrite Hik.
    eapply assert_last_field; [exact Hc|done|lia|]. eapply last_ptr_does; [exact Hc|done|apply does_ret]. }
  eapply (goes_app _ _ _ _ _ [_]).
  - apply (goes_indexed ELEM_SEGMENTS n (fun j => base ++ [elem_field (bes_table s) offset (take j (bes_funcs s))])
      (fun _ f => [CB_on_elem_segment_function_index i f]) (bes_funcs s) 0).
    intros j f Hj. cbn [Nat.add]. rewrite (take_S_r _ _ _ Hj). by apply goes_elem_func.
  - intros c Hc Hn. exists c. split; [by apply runs_one|]. split; [|exact Hn].
    rewrite Nat.add_0_l, firstn_all in Hc. exact Hc.
Qed.

Lemma goes_data n base i s : zlen base + 1 < 2 ^ 40 -> i = zlen (List.filter (selects DATA_SEGMENTS) base) ->
  i < n -> ok_init (bd_offset s) = true -> goes DATA_SEGMENTS n base (data_callbacks i s) (base ++ [tree_data s]).
Proof.
  intros Hl Hik Hi Hinit. unfold data_callbacks. cbn [app].
  set (f0 := FIELD_DATA_SEGMENT (mkDataSegment (VAR_INDEX (bd_memory s)) [] [])).
  set (f1 := FIELD_DATA_SEGMENT (mkDataSegment (VAR_INDEX (bd_memory s)) (map tree_expr (bd_offset s)) [])).
  match goal with |- goes _ _ _ (?a :: ?b :: ?l ++ ?e :: ?rest) _ =>
    replace (a :: b :: l ++ e :: rest) with ((a :: b :: l ++ [e]) ++ rest) by by rewrite <- !app_comm_cons, <- app_assoc end.
  eapply goes_app.
  { apply (goes_segment DATA_SEGMENTS n base i f0 f1 (bd_offset s)); try done; by intros []. }
  intros c Hc Hn. exists (set_fields (base ++ [tree_data s]) c). split; [|split; [|exact Hn]].
  - eapply runs_cons; [|by apply runs_skip; [|apply runs_nil]]. cbn [s_binary_reader]. unfold on_data_segment_data.
    rewrite Hik. eapply assert_last_field; [exact Hc|done|lia|]. eapply last_ptr_does; [exact Hc|done|].
    eapply field_at_does; [rewrite (ts_fields _ _ Hc); by apply list_lookup_middle|]. cbn [f1].
    apply set_field_does. rewrite (ts_fields _ _ Hc), insert_snoc. apply does_ret.
  - rewrite <- (insert_snoc base f1 (tree_data s)).
    eapply tree_state_insert; [exact Hc|by apply list_lookup_middle|by intros []|done..].
Qed.

(** ** The start function, function signatures and imports *)

Lemma leads_start base i : i < zlen (List.filter (selects FUNCS) base) ->
  leads base [CB_on_start_function i] (base ++ [FIELD_START (VAR_INDEX i)]).
Proof.
  intros Hi c Hc. set (f := FIELD_START (VAR_INDEX i)).
  exists (set_start (Some (length base)) (set_fields (base ++ [f]) c)). split.
  - apply runs_one. cbn [s_binary_reader]. unfold on_start_function. apply append_field_does.
    rewrite (ts_fields _ _ Hc). apply assert_in_does; [change (i < size_of c FUNCS); by rewrite (ts_size _ _ _ Hc)|].
    eapply does_bind; [apply does_modify|apply does_ret].
  - destruct Hc as [H1 H2 H3 H4 H5 H6 H7 H8 H9]. split; [done| | | |done..].
    + intros k. rewrite positions_field. destruct k; rewrite app_nil_r; apply H2.
    + intros kind. rewrite List.filter_app, app_nil_r. apply H3.
    + rewrite positions_snoc. cbn [is_start f]. by rewrite last_snoc.
Qed.

Section types.
Context (bm : BModule).

(** The function types come from the type section. *)
Definition typed (fs : list WasmModuleField) : Prop :=
  List.filter (selects FUNC_TYPES) fs = map tree_type (bm_types bm).

Lemma typed_snoc fs f : typed fs -> selects FUNC_TYPES f = false -> typed (fs ++ [f]).
Proof. unfold typed. intros <- Hf. rewrite List.filter_app. cbn [List.filter]. by rewrite Hf, app_nil_r. Qed.

(** A state that has the fields and the function types of [c0]. *)
Definition extends (c0 c : Context) : Prop :=
  ctx_vector c FUNC_TYPES = ctx_vector c0 FUNC_TYPES /\ ctx_fields c0 `prefix_of` ctx_fields c.

Lemma extends_refl c : extends c c.
Proof. done. Qed.

Lemma assert_sig_does {B} fs c0 c sig_index (m : AM B) b c' :
  tree_state fs c0 -> extends c0 c -> typed fs -> sig_index < zlen (bm_types bm) -> does m c b c' ->
  does (so_bind (assert_in FUNC_TYPES sig_index) (fun _ => m)) c b c'.
Proof.
  intros Hc [Hv _] Ht Hsig Hm. apply assert_in_does; [|done]. unfold size_of. rewrite Hv.
  change (sig_index < size_of c0 FUNC_TYPES). by rewrite (ts_size _ _ _ Hc), Ht, length_map.
Qed.

Lemma shared_decl_does {B} fs c0 c sig_index (m : WasmFuncDeclaration -> AM B) b c' :
  tree_state fs c0 -> extends c0 c -> typed fs -> 0 <= sig_index < zlen (bm_types bm) ->
  does (m (tree_decl bm sig_index)) c b c' -> does (so_bind (shared_decl sig_index) m) c b c'.
Proof.
  intros Hc [Hv Hpre] Ht Hsig Hm. eapply does_bind; [|exact Hm]. unfold shared_decl, tree_decl.
  destruct (lookup_lt_is_Some_2 (bm_types bm) (Z.to_nat sig_index)) as [sig Esig]; [lia|].
  rewrite Esig. cbn [default from_option].
  destruct (ts_pointer _ _ FUNC_TYPES (Z.to_nat sig_index) (tree_type sig) Hc) as (p & Hp & Hf).
  { rewrite Ht. change (map tree_type (bm_types bm)) with (tree_type <$> bm_types bm).
    by rewrite list_lookup_fmap, Esig. }
  rewrite <- (Z2Nat.id sig_index) at 1 by lia. eapply ptr_at_does; [by rewrite Hv|].
  eapply field_at_does; [eapply prefix_lookup_Some; [|exact Hpre]; by rewrite (ts_fields _ _ Hc)|]. apply does_ret.
Qed.

Lemma goes_function n fs i sig_index : i < n -> zlen fs + 1 < 2 ^ 40 -> typed fs ->
  0 <= sig_index < zlen (bm_types bm) ->
  goes FUNCS n fs [CB_on_function_signature i sig_index] (fs ++ [tree_signature bm sig_index]).
Proof.
  intros Hi Hl Ht Hsig. apply goes_new_field; [done|by intros []|by intros []|done|]. intros c c' Hc Hn D.
  cbn [s_binary_reader]. unfold on_function_signature. apply assert_capacity_does; [lia|].
  eapply assert_sig_does; [done|apply extends_refl|done|lia|].
  eapply shared_decl_does; [done|apply extends_refl|done|done|]. apply append_field_does. rewrite (ts_fields _ _ Hc). eapply does_bind; [exact D|apply does_ret].
Qed.

Lemma selects_import k kind m f d :
  (forall kind', is_import kind' (FIELD_IMPORT (mkImport m f d)) = bool_decide (kind' = kind)) ->
  selects k (FIELD_IMPORT (mkImport m f d)) = bool_decide (k = IMPORTS \/ k = export_vector kind).
Proof. intros Hd. specialize (Hd kind). by destruct d, kind, k. Qed.

(** An import between its two callbacks: it is in the vector of imports but in
    no other, whatever the union holds. *)
Definition half_import (base : list WasmModuleField) (m f : WasmStringSlice) (c0 c1 : Context) : Prop :=
  exists v, tree_state base c0 /\
    c1 = set_vector IMPORTS v (set_fields (base ++ [FIELD_IMPORT (mkImport m f (IMPORT_FUNC zero_func))]) c0) /\
    vec_ok sizeof_ptr v /\ vec_list v = Some <$> (positions (selects IMPORTS) 0 base ++ [length base]).

Lemma half_import_extends base m f c0 c1 : half_import base m f c0 c1 -> extends c0 c1.
Proof.
  intros (v & Hc & -> & _). split.
  - by rewrite ctx_vector_set, decide_False.
  - rewrite (ts_fields _ _ Hc). by eexists.
Qed.

(** The first callback of an import. *)
Lemma half_import_begin n base i im m f c0 : tree_state base c0 -> i < n -> n <= cap c0 IMPORTS ->
  zlen base + 1 < 2 ^ 40 ->
  wasm_dup_string_slice (bi_module im) = Some m -> wasm_dup_string_slice (bi_field im) = Some f ->
  exists c1, does (handle (CB_on_import i (bi_module im) (bi_field im))) c0 WASM_OK c1 /\
    half_import base m f c0 c1 /\ n <= cap c1 IMPORTS.
Proof.
  intros Hc Hi Hn Hl Hm Hf. set (F := FIELD_IMPORT (mkImport m f (IMPORT_FUNC zero_func))).
  destruct (append_ptr_does IMPORTS (length base) (set_fields (base ++ [F]) c0)) as (v & D & Hok & Hv & Hcap).
  { apply (ts_vectors _ _ Hc). }
  { change (size_of c0 IMPORTS + 1 < 2 ^ 40). rewrite (ts_size _ _ _ Hc).
    pose proof (List.filter_length_le (selects IMPORTS) base). lia. }
  eexists. split; [|split].
  - cbn [s_binary_reader]. unfold on_import. apply assert_capacity_does; [lia|].
    eapply does_lift; [exact Hm|]. eapply does_lift; [exact Hf|]. apply append_field_does.
    rewrite (ts_fields _ _ Hc). eapply does_bind; [exact D|apply does_ret].
  - exists v. split_and!; [done|done|done|]. rewrite Hv, fmap_app. f_equal. apply (ts_vectors _ _ Hc).
  - unfold cap. rewrite ctx_vector_set, decide_True by done.
    change (ctx_vector (set_fields (base ++ [F]) c0) IMPORTS) with (ctx_vector c0 IMPORTS) in Hcap. unfold cap in Hn. lia.
Qed.

Lemma half_import_last {B} base m f c0 c i (k : AM B) b c' : half_import base m f c0 c ->
  i = zlen (List.filter (selects IMPORTS) base) -> zlen base < 2 ^ 40 -> does k c b c' ->
  does (so_bind (assert_last IMPORTS i) (fun _ => k)) c b c'.
Proof.
  intros (v & Hc0 & -> & Hok & Hv) -> Hl Hk. pose proof (List.filter_length_le (selects IMPORTS) base).
  apply assert_last_does; [lia| |done]. unfold size_of. rewrite ctx_vector_set, decide_True by done.
  rewrite vec_list_size, Hv, length_fmap, length_app, length_positions by done. cbn [length]. lia.
Qed.

Lemma half_import_set base m f c0 c i kind d : half_import base m f c0 c ->
  i = zlen (List.filter (selects IMPORTS) base) -> zlen base + 1 < 2 ^ 32 ->
  (forall kind', is_import kind' (FIELD_IMPORT (mkImport m f d)) = bool_decide (kind' = kind)) ->
  exists c', does (set_import uninit_ptr i (export_vector kind) kind d) c WASM_OK c' /\
    tree_state (base ++ [FIELD_IMPORT (mkImport m f d)]) c' /\ cap c IMPORTS = cap c' IMPORTS.
Proof.
  intros (v & Hc0 & -> & Hok & Hv) -> Hl Hd. set (F := FIELD_IMPORT (mkImport m f d)) in *.
  set (c1 := set_vector IMPORTS v _).
  assert (ctx_fields c1 = base ++ [FIELD_IMPORT (mkImport m f (IMPORT_FUNC zero_func))]) as Hf1 by done.
  assert (export_vector kind <> IMPORTS) as Hk by by destruct kind.
  assert (forall k, selects k F = bool_decide (k = IMPORTS \/ k = export_vector kind)) as HF
    by (intros k; by apply selects_import).
  assert (forall k, k <> IMPORTS -> ctx_vector c1 k = ctx_vector c0 k) as Hv1
    by (intros k ?; unfold c1; by rewrite ctx_vector_set, decide_False).
  destruct (append_ptr_does (export_vector kind) (length base) (set_fields (base ++ [F]) c1))
    as (v2 & D & Hok2 & Hv2 & _).
  { change (vec_ok sizeof_ptr (ctx_vector c1 (export_vector kind))). rewrite Hv1 by done.
    apply (ts_vectors _ _ Hc0). }
  { unfold size_of. change (ctx_vector (set_fields (base ++ [F]) c1) (export_vector kind)) with
      (ctx_vector c1 (export_vector kind)). rewrite Hv1 by done.
    change (size_of c0 (export_vector kind) + 1 < 2 ^ 40). rewrite (ts_size _ _ _ Hc0).
    pose proof (List.filter_length_le (selects (export_vector kind)) base). zpow. lia. }
  eexists. split; [|split].
  - unfold set_import. eapply ptr_at_does.
    { unfold c1. rewrite ctx_vector_set, decide_True, Hv by done. rewrite fmap_app.
      change (Some <$> [length base]) with [Some (length base)].
      rewrite list_lookup_middle; [done|]. by rewrite length_fmap, length_positions. }
    eapply field_at_does; [rewrite Hf1; by apply list_lookup_middle|]. apply set_field_does.
    rewrite Hf1, insert_snoc. eapply does_bind; [exact D|]. apply does_get.
    eapply does_bind; [apply does_modify|apply does_ret].
  - destruct Hc0 as [H1 H2 H3 H4 H5 H6 H7 H8 H9]. split; [done| | | |done..].
    + intros k. change (ctx_vector (set_num_imports _ _ ?x) k) with (ctx_vector x k).
      rewrite ctx_vector_set, positions_field, HF. destruct (decide (k = export_vector kind)) as [->|Hne].
      * rewrite bool_decide_true by by right. split; [done|]. rewrite Hv2, fmap_app. f_equal.
        change (ctx_vector (set_fields (base ++ [F]) c1) (export_vector kind)) with (ctx_vector c1 (export_vector kind)).
        rewrite Hv1 by done. apply H2.
      * change (ctx_vector (set_fields (base ++ [F]) c1) k) with (ctx_vector c1 k).
        destruct (decide (k = IMPORTS)) as [->|Hni].
        -- rewrite bool_decide_true by by left. unfold c1. rewrite ctx_vector_set, decide_True by done. done.
        -- rewrite bool_decide_false by tauto. rewrite Hv1, app_nil_r by done. apply H2.
    + intros kind'. unfold ctx_num_imports, set_num_imports, set_module. cbn.
      change (store_num_imports (ctx_module c0)) with (ctx_num_imports c0).
      rewrite List.filter_app. cbn [List.filter]. rewrite Hd. destruct (decide (kind' = kind)) as [->|Hne].
      * rewrite fn_lookup_insert, bool_decide_true, H3, length_app by done. cbn [length].
        pose proof (List.filter_length_le (is_import kind) base). rewrite wrap_id by ulia. lia.
      * rewrite fn_lookup_insert_ne, bool_decide_false, H3, app_nil_r by done. done.
    + rewrite positions_snoc. cbn [is_start F]. rewrite app_nil_r. done.
  - unfold cap. change (ctx_vector (set_num_imports _ _ ?x) IMPORTS) with (ctx_vector x IMPORTS).
    by rewrite ctx_vector_set, decide_False.
Qed.

Lemma goes_import n base i im m f : i < n -> zlen base + 1 < 2 ^ 32 -> typed base ->
  i = zlen (List.filter (selects IMPORTS) base) -> ok_import (zlen (bm_types bm)) im = true ->
  wasm_dup_string_slice (bi_module im) = Some m -> wasm_dup_string_slice (bi_field im) = Some f ->
  goes IMPORTS n base (import_callbacks i im) (base ++ [FIELD_IMPORT (mkImport m f (tree_import_desc bm (bi_desc im)))]).
Proof.
  intros Hi Hl Ht Hik Hok Hm Hf c Hc Hn. unfold import_callbacks.
  destruct (half_import_begin n base i im m f c Hc Hi Hn) as (c1 & D1 & Hh & Hn1); [zpow; lia|done..|].
  destruct (half_import_set base m f c c1 i (bimport_kind (bi_desc im)) (tree_import_desc bm (bi_desc im)) Hh Hik Hl)
    as (c2 & D2 & Hc2 & Hcap); [intros []; by destruct (bi_desc im)|].
  exists c2. split; [|split; [done|lia]]. eapply runs_cons; [exact D1|]. apply runs_one.
  destruct (bi_desc im) as [sig| | |] eqn:Ed; cbn [s_binary_reader];
    unfold on_import_func, on_import_table, on_import_memory, on_import_global;
    (eapply half_import_last; [exact Hh|done|zpow; lia|]); try exact D2.
  unfold ok_import in Hok. rewrite Ed in Hok. apply andb_true_iff in Hok as [Hs1%bool_decide_eq_true_1 Hs2%Z.ltb_lt].
  unfold in_u in Hs1. pose proof (half_import_extends _ _ _ _ _ Hh) as He.
  eapply assert_sig_does; [exact Hc|exact He|done|done|]. eapply shared_decl_does; [exact Hc|exact He|done|lia|]. exact D2.
Qed.
End types.

(** ** Function bodies *)

Section body.
Context (c0 : Context) (p : nat) (f0 : WasmFunc) (num_sigs num_funcs : Z).
Hypothesis Hp : (p < length (ctx_fields c0))%nat.
Hypothesis Hsigs : size_of c0 FUNC_TYPES = num_sigs.
Hypothesis Hfuncs : size_of c0 FUNCS = num_funcs.

(** The function has the tree [T]; [ls] are the labels, [d] is [max_depth]. *)
Definition in_body (T : list WasmExpr) (ls : list LabelNode) (d : Z) : Context :=
  set_labels ls d (set_fields (<[p := FIELD_FUNC (with_first_expr f0 T)]> (ctx_fields c0)) c0).

(** The label of a list whose expressions are [L]. *)
Definition label_of (type : LabelType) (path : list (nat * bool)) (L : list WasmExpr) : LabelNode :=
  mkLabelNode type (Some (mkExprList p path)) match L with [] => None | _ => Some (length L - 1)%nat end.

Lemma label_of_snoc type path L e : label_of type path (L ++ [e]) = mkLabelNode type (Some (mkExprList p path)) (Some (length L)).
Proof. unfold label_of. rewrite length_app. cbn [length]. rewrite Nat.add_sub. by destruct L. Qed.

Lemma func_at_body {B} T ls d (m : WasmFunc -> AM B) b c' :
  does (m (with_first_expr f0 T)) (in_body T ls d) b c' -> does (so_bind (func_at p) m) (in_body T ls d) b c'.
Proof.
  intros Hm. eapply does_bind; [|exact Hm]. unfold func_at. eapply field_at_does.
  - cbn. by apply list_lookup_insert_eq.
  - by apply does_lift_ret.
Qed.

Lemma read_list_body {B} T ls d path L (m : list WasmExpr -> AM B) b c' : get_list T path = Some L ->
  does (m L) (in_body T ls d) b c' ->
  does (so_bind (read_list (Some (mkExprList p path))) m) (in_body T ls d) b c'.
Proof.
  intros HL Hm. eapply does_bind; [|exact Hm]. unfold read_list. eapply does_lift; [reflexivity|].
  apply func_at_body. by apply does_lift_ret.
Qed.

Lemma write_list_body {B} T T' ls d path L (m : AM B) b c' : set_list T path L = Some T' ->
  does m (in_body T' ls d) b c' ->
  does (so_bind (write_list (Some (mkExprList p path)) L) (fun _ => m)) (in_body T ls d) b c'.
Proof.
  intros HL Hm. eapply does_bind; [|exact Hm]. unfold write_list. eapply does_lift; [reflexivity|].
  apply func_at_body. eapply does_lift; [exact HL|]. unfold set_func.
  eapply field_at_does; [cbn; by apply list_lookup_insert_eq|].
  unfold does, set_field, so_bind, so_get, so_modify, in_body. cbn [with_func]. do 2 f_equal.
  unfold set_labels, set_fields, set_module. cbn. by rewrite list_insert_insert_eq.
Qed.

Lemma append_expr_body type path L T T' ls d e : get_list T path = Some L ->
  set_list T path (L ++ [e]) = Some T' ->
  does (append_expr_at e) (in_body T (label_of type path L :: ls) d) (Some (mkExprList p path, length L))
    (in_body T' (label_of type path (L ++ [e]) :: ls) d).
Proof.
  intros HL HT. unfold append_expr_at. eapply does_bind; [apply does_ret|]. cbn [lookup list_lookup nth_error].
  cbn [label_stack in_body set_labels]. change (label_first (label_of type path L)) with (Some (mkExprList p path)).
  eapply read_list_body; [exact HL|].
  eapply (does_bind _ _ _ (length L)).
  { destruct L as [|x L']; [apply does_ret|]. cbn [label_of label_last]. eapply does_lift; [reflexivity|].
    cbn [length]. rewrite Nat.sub_succ, Nat.sub_0_r. apply does_ret. }
  rewrite firstn_all. eapply write_list_body; [exact HT|]. rewrite label_of_snoc.
  eapply does_bind; [apply does_get, does_modify|]. by eapply does_lift.
Qed.

Lemma append_expr_ok type path L T T' ls d e : get_list T path = Some L ->
  set_list T path (L ++ [e]) = Some T' ->
  does (append_expr e) (in_body T (label_of type path L :: ls) d) WASM_OK
    (in_body T' (label_of type path (L ++ [e]) :: ls) d).
Proof. intros HL HT. unfold append_expr. eapply does_bind; [by apply append_expr_body|apply does_ret]. Qed.

(** One callback that appends [e]. *)
Lemma runs_append cb e type path L T T' ls d : handle cb = append_expr e -> get_list T path = Some L ->
  set_list T path (L ++ [e]) = Some T' ->
  runs [cb] (in_body T (label_of type path L :: ls) d) (in_body T' (label_of type path (L ++ [e]) :: ls) d).
Proof. intros Hcb HL HT. apply runs_one. rewrite Hcb. by apply append_expr_ok. Qed.

Lemma runs_push cb e ty type path L T T' ls d : handle cb = append_and_push e ty -> get_list T path = Some L ->
  set_list T path (L ++ [e]) = Some T' ->
  runs [cb] (in_body T (label_of type path L :: ls) d)
    (in_body T' (label_of ty (path ++ [(length L, false)]) [] :: label_of type path (L ++ [e]) :: ls) (u32 (d + 1))).
Proof.
  intros Hcb HL HT. apply runs_one. rewrite Hcb. unfold append_and_push.
  eapply does_bind; [by apply append_expr_body|]. eapply does_bind; [apply does_get, does_modify|apply does_ret].
Qed.

Lemma runs_pop cb node T ls d : handle cb = pop_label -> in_u 32 d ->
  runs [cb] (in_body T (node :: ls) (u32 (d + 1))) (in_body T ls d).
Proof.
  intros Hcb Hd. apply runs_one. rewrite Hcb. unfold pop_label. apply does_get. cbn [label_stack in_body set_labels].
  eapply does_bind; [apply does_modify|].
  assert (u32 (u32 (d + 1) - 1) = d) as E.
  { unfold wrap, in_u in *. rewrite Zminus_mod_idemp_l. replace (d + 1 - 1) with d by lia. by apply Z.mod_small. }
  cbn [max_depth in_body set_labels]. rewrite E. apply does_ret.
Qed.

Definition builds (i : BInstr) : Prop := forall T T' type path L ls d, in_u 32 d ->
  get_list T path = Some L -> set_list T path (L ++ [tree_expr i]) = Some T' ->
  runs (instr_callbacks i) (in_body T (label_of type path L :: ls) d)
    (in_body T' (label_of type path (L ++ [tree_expr i]) :: ls) d).

Lemma builds_list l T T' type path L ls d : Forall builds l -> in_u 32 d ->
  get_list T path = Some L -> set_list T path (L ++ map tree_expr l) = Some T' ->
  runs (instrs_callbacks l) (in_body T (label_of type path L :: ls) d)
    (in_body T' (label_of type path (L ++ map tree_expr l) :: ls) d).
Proof.
  intros Hl Hd. revert T L. unfold instrs_callbacks. induction Hl as [|i l Hi Hl IH]; intros T L HL HT; cbn [map concat] in *.
  - rewrite app_nil_r in *. rewrite (set_list_same _ _ _ HL) in HT. injection HT as <-. apply runs_nil.
  - destruct (set_list_total T path L (L ++ [tree_expr i]) HL) as [T1 HT1].
    eapply runs_app; [by apply Hi|].
    replace (L ++ tree_expr i :: map tree_expr l) with ((L ++ [tree_expr i]) ++ map tree_expr l) in *
      by by rewrite <- app_assoc.
    apply IH; [by eapply get_set_list|].
    rewrite <- (set_set_list T path _ T1 [] _ _ HT1 eq_refl), app_nil_r in HT. exact HT.
Qed.

(** The body of the last expression of a list. *)
Lemma builds_body l e b ty T T1 T' path L ls d : Forall builds l -> in_u 32 d -> get_list T path = Some L ->
  body_of e b = Some [] -> set_list T path (L ++ [e]) = Some T1 ->
  set_list T path (L ++ [with_body e b (map tree_expr l)]) = Some T' ->
  runs (instrs_callbacks l) (in_body T1 (label_of ty (path ++ [(length L, b)]) [] :: ls) d)
    (in_body T' (label_of ty (path ++ [(length L, b)]) (map tree_expr l) :: ls) d).
Proof.
  intros Hl Hd HL He HT1 HT'.
  apply (builds_list l _ _ _ _ [] _ _ Hl Hd).
  - rewrite (get_list_app _ _ _ _ (get_set_list _ _ _ _ HT1)). cbn [get_list].
    rewrite list_lookup_middle by done. cbn [mbind option_bind]. by rewrite He.
  - cbn [app]. rewrite <- HT'. eapply set_set_list; [exact HT1|]. cbn [set_list].
    rewrite list_lookup_middle by done. cbn [mbind option_bind]. rewrite He. cbn [mbind option_bind].
    by rewrite insert_snoc.
Qed.

(** A block with one body. *)
Lemma builds_block l e ty cb sig : Forall builds l -> body_of e false = Some [] ->
  handle cb = append_and_push e ty ->
  forall T T' type path L ls d op, in_u 32 d -> get_list T path = Some L ->
  set_list T path (L ++ [with_body e false (map tree_expr l)]) = Some T' ->
  runs ([CB_on_opcode op; cb; CB_on_opcode_block_sig sig] ++ instrs_callbacks l ++
        [CB_on_opcode (opcode_code WASM_OPCODE_END); CB_on_end_expr])
    (in_body T (label_of type path L :: ls) d)
    (in_body T' (label_of type path (L ++ [with_body e false (map tree_expr l)]) :: ls) d).
Proof.
  intros Hl He Hcb T T' type path L ls d op Hd HL HT'. cbn [app].
  destruct (set_list_total T path L (L ++ [e]) HL) as [T1 HT1].
  apply runs_skip; [done|]. eapply (runs_app [_]); [by eapply runs_push|]. apply runs_skip; [done|].
  eapply runs_app; [eapply builds_body; [done|apply wrap_in_u; done|done|done|done|exact HT']|].
  apply runs_skip; [done|]. rewrite !label_of_snoc. by apply runs_pop.
Qed.

Lemma on_else_ok ty path L sig ts T node ls d :
  get_list T path = Some (L ++ [EXPR_IF None sig ts []]) -> label_type node = LABEL_TYPE_IF ->
  runs [CB_on_else_expr] (in_body T (node :: label_of ty path (L ++ [EXPR_IF None sig ts []]) :: ls) d)
    (in_body T (label_of LABEL_TYPE_ELSE (path ++ [(length L, true)]) [] ::
       label_of ty path (L ++ [EXPR_IF None sig ts []]) :: ls) d).
Proof.
  intros HL Hn. apply runs_one. cbn [s_binary_reader]. unfold on_else_expr.
  eapply does_bind; [apply does_ret|]. cbn [lookup list_lookup nth_error label_stack in_body set_labels].
  rewrite decide_True by done. eapply does_bind; [apply does_ret|]. cbn [lookup list_lookup nth_error label_stack in_body set_labels].
  rewrite label_of_snoc. cbn [label_first label_last]. eapply read_list_body; [exact HL|].
  eapply does_lift; [reflexivity|]. eapply does_lift; [reflexivity|].
  eapply does_lift; [by apply list_lookup_middle|]. apply does_assert; [done|].
  eapply does_bind; [apply does_get, does_modify|apply does_ret].
Qed.

Lemma builds_if sig ts fs : Forall builds ts -> Forall builds fs -> builds (BI_IF sig ts fs).
Proof.
  intros Hts Hfs T T' type path L ls d Hd HL HT. cbn [instr_callbacks]. rewrite !instrs_callbacks_fix.
  set (e := EXPR_IF None sig [] []).
  destruct fs as [|f fs'] eqn:Efs.
  { apply (builds_block ts e LABEL_TYPE_IF (CB_on_if_expr sig) sig Hts); done. }
  rewrite <- Efs in *. set (e1 := EXPR_IF None sig (map tree_expr ts) []).
  destruct (set_list_total T path L (L ++ [e]) HL) as [T1 HT1].
  destruct (set_list_total T path L (L ++ [e1]) HL) as [T2 HT2].
  cbn [app]. apply runs_skip; [done|].
  eapply (runs_app [_]); [apply (runs_push (CB_on_if_expr sig) e LABEL_TYPE_IF); done|]. apply runs_skip; [done|].
  eapply runs_app; [eapply (builds_body ts e false); [done|apply wrap_in_u; done|done|done|done|exact HT2]|].
  apply runs_skip; [done|]. rewrite label_of_snoc, <- (label_of_snoc type path L e1).
  eapply (runs_app [_]); [apply on_else_ok; [by eapply get_set_list|done]|]. apply runs_skip; [done|].
  eapply runs_app; [eapply (builds_body fs e1 true); [done|apply wrap_in_u; done|done|done|done|exact HT]|].
  apply runs_skip; [done|]. rewrite !label_of_snoc. by apply runs_pop.
Qed.

(** An instruction between the report of its opcode and that of its operands. *)
Lemma builds_flat op cb cbs i : instr_callbacks i = CB_on_opcode op :: cb :: cbs ->
  Forall (fun cb' => handle cb' = ok) cbs ->
  (forall c b c', does (append_expr (tree_expr i)) c b c' -> size_of c FUNC_TYPES = num_sigs ->
     size_of c FUNCS = num_funcs -> does (handle cb) c b c') -> builds i.
Proof.
  intros E Hcbs Hcb T T' type path L ls d Hd HL HT. rewrite E. apply runs_skip; [done|].
  eapply runs_cons; [apply Hcb; [by apply append_expr_ok|done|done]|].
  clear E. induction Hcbs; [apply runs_nil|by apply runs_skip].
Qed.

Ltac flat := eapply builds_flat; [reflexivity|by repeat constructor|by intros ? ? ? Hd _ _].

Lemma builds_bare op cb : bare_callback op = Some cb -> builds (BI_OP op).
Proof.
  intros Hcb. assert (handle cb = append_expr (tree_bare op)) as E.
  { destruct op; cbn [bare_callback opcode_group] in Hcb; try discriminate Hcb; by injection Hcb as <-. }
  eapply builds_flat; [cbn [instr_callbacks]; rewrite Hcb; reflexivity|by repeat constructor|].
  intros c b c' Hd _ _. by rewrite E.
Qed.

Lemma builds_index op cb index : index_callback op = Some cb -> (op = WASM_OPCODE_CALL -> index < num_funcs) ->
  builds (BI_INDEX op index).
Proof.
  intros Hcb Hcall.
  eapply builds_flat; [cbn [instr_callbacks]; rewrite Hcb; reflexivity|by repeat constructor|].
  intros c b c' Hd _ Hf. destruct op; try discriminate Hcb; injection Hcb as <-; try exact Hd.
  cbn [s_binary_reader]. unfold on_call_expr. apply assert_in_does; [|exact Hd]. rewrite Hf. by apply Hcall.
Qed.

Lemma builds_memory op cb log2 offset : memory_callback op = Some cb -> log2 < 31 ->
  builds (BI_MEMORY op log2 offset).
Proof.
  intros Hcb Hlog. unfold memory_callback in Hcb.
  eapply builds_flat; [cbn [instr_callbacks]; unfold memory_callback; rewrite Hcb; reflexivity|by repeat constructor|].
  intros c b c' Hd _ _. cbn [tree_expr] in Hd.
  destruct (opcode_group op) as [[]|]; try discriminate Hcb; injection Hcb as <-;
    cbn [s_binary_reader]; unfold on_load_expr, on_store_expr, shift_align;
    (eapply does_bind; [apply does_assert; [by apply Z.ltb_lt|apply does_ret]|exact Hd]).
Qed.

Lemma builds_bodies l :
  Forall (fun i => ok_instr num_sigs num_funcs i = true -> tree_instr i = true -> builds i) l ->
  forallb (ok_instr num_sigs num_funcs) l = true -> forallb tree_instr l = true -> Forall builds l.
Proof.
  intros Hl Hok%forallb_Forall Ht%forallb_Forall. induction Hl; inversion Hok; inversion Ht; constructor; auto.
Qed.

Lemma builds_instr : forall i, ok_instr num_sigs num_funcs i = true -> tree_instr i = true -> builds i.
Proof.
  apply (BInstr_nested_ind (fun i => ok_instr num_sigs num_funcs i = true -> tree_instr i = true -> builds i)).
  - intros sig l Hl [_ Hok]%andb_true_iff Ht T T' type path L ls d Hd HL HT.
    cbn [instr_callbacks]. rewrite instrs_callbacks_fix.
    apply (builds_block l (EXPR_BLOCK None sig []) LABEL_TYPE_BLOCK); try done. by apply builds_bodies.
  - intros sig l Hl [_ Hok]%andb_true_iff Ht T T' type path L ls d Hd HL HT.
    cbn [instr_callbacks]. rewrite instrs_callbacks_fix.
    apply (builds_block l (EXPR_LOOP None sig []) LABEL_TYPE_LOOP); try done. by apply builds_bodies.
  - intros sig ts fs Hts Hfs [[_ Hokt]%andb_true_iff Hokf]%andb_true_iff [Htt Htf]%andb_true_iff.
    apply builds_if; by apply builds_bodies.
  - intros []; try done; intros Hok Ht; cbn [ok_instr tree_instr] in Hok, Ht.
    + apply is_some_inv in Hok as [cb Hcb]. by eapply builds_bare.
    + apply andb_true_iff in Hok as [[[cb Hcb]%is_some_inv _]%andb_true_iff Hc]. eapply builds_index; [done|].
      intros ->. rewrite bool_decide_true in Hc by done. cbn [negb orb] in Hc. lia.
    + flat.
    + apply andb_true_iff in Hok as [_ Hs%Z.ltb_lt]. eapply builds_flat; [reflexivity|by repeat constructor|].
      intros c b c' Hd Hn _. cbn [s_binary_reader]. unfold on_call_indirect_expr.
      apply assert_in_does; [by rewrite Hn|exact Hd].
    + destruct const_ as [[] b]; try discriminate Hok; flat.
    + apply andb_true_iff in Hok as [[[[cb Hcb]%is_some_inv _]%andb_true_iff _]%andb_true_iff _].
      eapply builds_memory; [exact Hcb|lia].
    + apply is_some_inv in Hok as [cb Hcb]. destruct op; try discriminate Hcb; flat.
Qed.
End body.

Definition with_locals (f : WasmFunc) (locals : list WasmType) : WasmFunc :=
  mkFunc (func_name f) (func_decl f) locals (func_param_bindings f) (func_local_bindings f) (func_first_expr f).

Lemma runs_locals c p f runs_ ls d k : (p < length (ctx_fields c))%nat -> current_func c = Some p ->
  runs (indexed (fun k r => [CB_on_local_decl k (fst r) (snd r)]) k runs_) (in_body c p f [] ls d)
    (in_body c p (with_locals f (func_local_types f ++ expand_locals runs_)) [] ls d).
Proof.
  intros Hp Hf. revert f k. induction runs_ as [|[n t] l IH]; intros f k; cbn [indexed].
  - unfold expand_locals. cbn [map concat]. rewrite app_nil_r. by destruct f.
  - eapply runs_app.
    + apply runs_one. cbn [s_binary_reader]. unfold on_local_decl. apply does_get.
      eapply does_lift; [exact Hf|]. apply func_at_body; [done|]. unfold set_func.
      eapply does_bind; [|apply does_ret].
      eapply field_at_does; [cbn; by apply list_lookup_insert_eq|]. apply does_get, does_modify.
    + cbn [with_func]. specialize (IH (with_locals f (func_local_types f ++ replicate (Z.to_nat n) t)) (k + 1)).
      cbn [func_local_types with_locals] in IH. rewrite <- app_assoc in IH.
      unfold expand_locals in *. cbn [map concat fst snd].
      match goal with |- runs _ ?a _ => match type of IH with runs _ ?b _ => assert (a = b) as -> end end; [|exact IH].
      unfold in_body, set_labels, set_fields, set_module. cbn. by rewrite list_insert_insert_eq.
Qed.

Lemma goes_code k n fs p i sig f num_sigs num_funcs (bm : BModule) :
  fs !! p = Some (tree_signature bm sig) ->
  positions (selects FUNCS) 0 fs !! (length (List.filter (is_import WASM_EXTERNAL_KIND_FUNC) fs) + i)%nat = Some p ->
  zlen fs < 2 ^ 32 -> zlen (List.filter (selects FUNC_TYPES) fs) = num_sigs ->
  zlen (List.filter (selects FUNCS) fs) = num_funcs ->
  forallb (ok_instr num_sigs num_funcs) (bf_body f) = true -> forallb tree_instr (bf_body f) = true ->
  goes k n fs (code_callbacks (Z.of_nat i) f) (<[p := tree_code bm sig f]> fs).
Proof.
  intros Hp Hpos Hl Hsigs Hfuncs Hok Htree c Hc Hn. set (f0 := tree_func bm sig [] []) in *.
  set (c1 := set_current_func (Some p) c).
  set (body := map tree_expr (bf_body f)).
  set (f1 := with_locals f0 (expand_locals (bf_locals f))).
  exists (set_fields (<[p := tree_code bm sig f]> fs) c). split; [|split; [|done]].
  2:{ eapply tree_state_insert; [exact Hc|exact Hp|by intros []|by intros []|done]. }
  assert (p < length (ctx_fields c1))%nat as Hp1
    by (change (ctx_fields c1) with (ctx_fields c); rewrite (ts_fields _ _ Hc); by eapply lookup_lt_Some).
  pose proof (lookup_lt_Some _ _ _ Hpos) as Hlt. rewrite length_positions in Hlt.
  pose proof (List.filter_length_le (selects FUNCS) fs).
  unfold code_callbacks. cbn [app].
  eapply (runs_app [_] _ _ (in_body c1 p f0 [] [label_of p LABEL_TYPE_FUNC [] []] (u32 (0 + 1)))).
  { apply runs_one. cbn [s_binary_reader]. unfold begin_function_body.
    apply assert_in_does; [rewrite (ts_size _ _ _ Hc); lia|]. apply does_get. rewrite (ts_imports _ _ Hc).
    rewrite wrap_id, Z.add_comm, <- Nat2Z.inj_add by ulia.
    eapply ptr_at_does; [rewrite (proj2 (ts_vectors _ _ Hc FUNCS)), list_lookup_fmap; by rewrite Hpos|].
    eapply does_bind; [apply does_modify|]. eapply does_bind; [apply does_get, does_modify|].
    fold c1. assert (in_body c1 p f0 [] [label_of p LABEL_TYPE_FUNC [] []] (u32 (0 + 1)) =
      set_labels [mkLabelNode LABEL_TYPE_FUNC (Some (mkExprList p [])) None] (u32 (0 + 1)) c1) as ->.
    { unfold in_body. f_equal. unfold set_fields, set_module. change (ctx_fields c1) with (ctx_fields c).
      rewrite (ts_fields _ _ Hc), list_insert_id by exact Hp. rewrite <- (ts_fields _ _ Hc).
      by destruct c as [[] ? ? ? ?]. }
    change (label_stack c1) with (label_stack c). change (max_depth c1) with (max_depth c).
    rewrite (ts_labels _ _ Hc), (ts_depth _ _ Hc). apply does_ret. }
  apply runs_skip; [done|]. eapply runs_app; [by apply runs_locals|]. fold f1.
  eapply runs_app.
  { assert (Forall (builds c1 p f1) (bf_body f)) as Hb.
    { eapply builds_bodies; [|exact Hok|exact Htree]. apply Forall_forall. intros x _.
      apply (builds_instr c1 p f1 num_sigs num_funcs); [done| |];
        change (size_of c1 ?v) with (size_of c v); by rewrite (ts_size _ _ _ Hc). }
    apply (builds_list c1 p f1 (bf_body f) [] body LABEL_TYPE_FUNC [] [] [] (u32 (0 + 1)) Hb); done. }
  apply runs_skip; [done|]. apply runs_one. cbn [s_binary_reader]. unfold end_function_body.
  eapply does_bind; [apply does_get; cbn [label_stack in_body set_labels];
    eapply does_bind; [apply does_modify|apply does_ret]|].
  eapply does_bind; [apply does_modify|].
  match goal with |- does _ ?a _ ?b => assert (a = b) as ->; [|apply does_ret] end.
  change (u32 (max_depth (in_body c1 p f1 body [label_of p LABEL_TYPE_FUNC [] ([] ++ body)] (u32 (0 + 1))) - 1)) with 0.
  unfold in_body, tree_code, tree_func, c1, body. rewrite <- (ts_fields _ _ Hc).
  pose proof (ts_func _ _ Hc). pose proof (ts_labels _ _ Hc). pose proof (ts_depth _ _ Hc).
  destruct c as [[] ? ? ? ?]. cbn in *. by subst.
Qed.

(** ** The module, section by section *)

Lemma filter_map_if {A B} (sel : B -> bool) (b : bool) (f : A -> B) l : (forall x, sel (f x) = b) ->
  List.filter sel (map f l) = if b then map f l else [].
Proof.
  intros Hf. induction l as [|x l IH]; cbn [map List.filter]; [by destruct b|].
  rewrite Hf, IH. by destruct b.
Qed.

Section module.
Context (bm : BModule).

Lemma filter_types k l : List.filter (selects k) (map tree_type l) = if bool_decide (k = FUNC_TYPES) then map tree_type l else [].
Proof. apply filter_map_if. intros x. by destruct k. Qed.
Lemma filter_tables k l : List.filter (selects k) (map tree_table l) = if bool_decide (k = TABLES) then map tree_table l else [].
Proof. apply filter_map_if. intros x. by destruct k. Qed.
Lemma filter_memories k l : List.filter (selects k) (map tree_memory l) = if bool_decide (k = MEMORIES) then map tree_memory l else [].
Proof. apply filter_map_if. intros x. by destruct k. Qed.
Lemma filter_globals k l : List.filter (selects k) (map tree_global l) = if bool_decide (k = GLOBALS) then map tree_global l else [].
Proof. apply filter_map_if. intros x. by destruct k. Qed.
Lemma filter_exports k l : List.filter (selects k) (map tree_export l) = if bool_decide (k = EXPORTS) then map tree_export l else [].
Proof. apply filter_map_if. intros x. by destruct k. Qed.
Lemma filter_elems k l : List.filter (selects k) (map tree_elem l) = if bool_decide (k = ELEM_SEGMENTS) then map tree_elem l else [].
Proof. apply filter_map_if. intros x. by destruct k. Qed.
Lemma filter_datas k l : List.filter (selects k) (map tree_data l) = if bool_decide (k = DATA_SEGMENTS) then map tree_data l else [].
Proof. apply filter_map_if. intros x. by destruct k. Qed.
Lemma filter_signatures k l : List.filter (selects k) (map (tree_signature bm) l) =
  if bool_decide (k = FUNCS) then map (tree_signature bm) l else [].
Proof. apply filter_map_if. intros x. by destruct k. Qed.

Lemma filter_imports l : List.filter (selects IMPORTS) (map (tree_import bm) l) = map (tree_import bm) l.
Proof. by apply (filter_map_if _ true). Qed.

Lemma filter_imports_none k l : k ∈ [FUNC_TYPES; EXPORTS; ELEM_SEGMENTS; DATA_SEGMENTS] ->
  List.filter (selects k) (map (tree_import bm) l) = [].
Proof.
  rewrite !elem_of_cons. intros Hk. apply (filter_map_if _ false). intros x.
  destruct Hk as [->|[->|[->|[->|?%not_elem_of_nil]]]]; done.
Qed.

Lemma is_import_desc kind i : is_import kind (tree_import bm i) = bool_decide (bimport_kind (bi_desc i) = kind).
Proof. unfold tree_import. by destruct (bi_desc i), kind. Qed.

Lemma length_filter_is_import kind l :
  zlen (List.filter (is_import kind) (map (tree_import bm) l)) = num_kind_imports kind l.
Proof.
  unfold num_kind_imports. induction l as [|i l IH]; cbn [map List.filter]; [done|].
  rewrite is_import_desc, filter_cons. destruct (decide (bimport_kind (bi_desc i) = kind)) as [E|E].
  - rewrite bool_decide_true by done. cbn [length]. lia.
  - by rewrite bool_decide_false.
Qed.

Lemma length_filter_imports kind l :
  zlen (List.filter (selects (export_vector kind)) (map (tree_import bm) l)) = num_kind_imports kind l.
Proof.
  rewrite <- length_filter_is_import. f_equal. f_equal. apply List.filter_ext_in.
  intros f (i & <- & _)%List.in_map_iff. done.
Qed.

Lemma tree_funcs_length j : length (bm_codes bm) = length (bm_funcs bm) ->
  length (tree_funcs bm j) = length (bm_funcs bm).
Proof.
  intros E. unfold tree_funcs. rewrite length_app, length_zip_with, length_map, !length_take, length_drop. lia.
Qed.

Lemma tree_funcs_is_func j f : f ∈ tree_funcs bm j -> exists x, f = FIELD_FUNC x.
Proof.
  unfold tree_funcs. rewrite elem_of_app. intros [Hf|Hf].
  - apply elem_of_lookup_zip_with in Hf as (i & x & y & -> & _). by eexists.
  - apply list_elem_of_In, List.in_map_iff in Hf as (x & <- & _). by eexists.
Qed.

Lemma filter_all {A} (sel : A -> bool) (b : bool) l : (forall x, x ∈ l -> sel x = b) ->
  List.filter sel l = if b then l else [].
Proof.
  intros H. induction l as [|x l IH]; cbn [List.filter]; [by destruct b|].
  rewrite H by by left. rewrite IH by (intros; apply H; by right). by destruct b.
Qed.

Lemma filter_funcs k j : List.filter (selects k) (tree_funcs bm j) = if bool_decide (k = FUNCS) then tree_funcs bm j else [].
Proof. apply filter_all. intros f (x & ->)%tree_funcs_is_func. by destruct k. Qed.

Lemma tree_funcs_0 : tree_funcs bm 0 = map (tree_signature bm) (bm_funcs bm).
Proof. done. Qed.

(** Reading one more body. *)
Lemma tree_funcs_S j sig f : bm_funcs bm !! j = Some sig -> bm_codes bm !! j = Some f ->
  tree_funcs bm j !! j = Some (tree_signature bm sig) /\
  <[j := tree_code bm sig f]> (tree_funcs bm j) = tree_funcs bm (S j).
Proof.
  intros Hs Hf. unfold tree_funcs.
  assert (length (zip_with (tree_code bm) (take j (bm_funcs bm)) (take j (bm_codes bm))) = j) as El.
  { apply lookup_lt_Some in Hs, Hf. rewrite length_zip_with, !length_take. lia. }
  rewrite (drop_S _ _ _ Hs), (take_S_r _ _ _ Hs), (take_S_r _ _ _ Hf). cbn [map]. split.
  - by rewrite list_lookup_middle.
  - rewrite zip_with_app by (rewrite !length_take; apply lookup_lt_Some in Hs, Hf; lia). cbn [zip_with].
    rewrite <- app_assoc. cbn [app]. rewrite <- El at 1. apply insert_middle.
Qed.

Hypothesis Hwf : well_formed bm = true.
Hypothesis Htree : tree_module bm = true.
Hypothesis Hsize : zlen (tree_fields bm) < 2 ^ 32.

(** A conjunct of [well_formed]. *)
Ltac by_wf :=
  let H := fresh in pose proof Hwf as H; unfold well_formed in H; rewrite !andb_true_iff in H; apply H.

Lemma leads_section s fs fs' : leads fs (sec_callbacks s) fs' -> leads fs (section_callbacks s) fs'.
Proof.
  intros H c Hc. destruct (H c Hc) as (c' & R & Hc'). exists c'. split; [|done].
  unfold section_callbacks. apply runs_skip; [done|].
  destruct (sec_kind s); cbn [section_brackets fst snd app]; repeat (apply runs_skip; [done|]);
    (eapply runs_app; [exact R|]); repeat (apply runs_skip; [done|]); apply runs_nil.
Qed.

Lemma leads_vec {A} s enc count (cbs : Z -> A -> list Callback) l fs fs' :
  leads fs (count (zlen l) :: indexed cbs 0 l) fs' -> (l = [] -> fs' = fs) ->
  leads fs (concat (map section_callbacks (vec_section s enc count cbs l))) fs'.
Proof.
  intros H Hnil. destruct l as [|x l]; cbn [vec_section map concat].
  - rewrite Hnil by done. apply leads_nil.
  - rewrite app_nil_r. by apply leads_section.
Qed.

(** A section of fields for the vector [k], one per item. *)
Lemma leads_fields {A} k s enc count (cbs : Z -> A -> list Callback) (mk : A -> WasmModuleField) l base :
  (forall n, handle (count n) = so_bind (reserve uninit_ptr k n) (fun _ => ok)) ->
  zlen (base ++ map mk l) < 2 ^ 32 ->
  (forall i x, l !! i = Some x -> zlen (base ++ map mk (take i l)) + 1 < 2 ^ 32 ->
     goes k (zlen l) (base ++ map mk (take i l)) (cbs (Z.of_nat i) x) ((base ++ map mk (take i l)) ++ [mk x])) ->
  leads base (concat (map section_callbacks (vec_section s enc count cbs l))) (base ++ map mk l).
Proof.
  intros Hcount Hl Hitems. apply leads_vec; [|intros ->; apply app_nil_r].
  eapply leads_counted; [apply Hcount| |].
  - rewrite length_app, length_map in Hl. lia.
  - apply goes_fields. intros i x Hi Hle. apply Hitems; [done|lia].
Qed.

Lemma index_lt {A} (l : list A) i x : l !! i = Some x -> Z.of_nat i < zlen l.
Proof. intros H%lookup_lt_Some. lia. Qed.

Lemma length_take_lookup {A} (l : list A) i x : l !! i = Some x -> length (take i l) = i.
Proof. intros H%lookup_lt_Some. rewrite length_take. lia. Qed.

Lemma tree_name_dup b : tree_name b = true -> wasm_dup_string_slice b = Some (tree_string b).
Proof. unfold tree_name, wasm_dup_string_slice. rewrite andb_true_iff, negb_true_iff. by intros [_ ->]. Qed.

(** The members of the two hypotheses on the module, by list. *)
Lemma forallb_lookup {A} (f : A -> bool) l i x : forallb f l = true -> l !! i = Some x -> f x = true.
Proof. intros H%forallb_Forall Hi. by eapply (Forall_lookup_1 _ _ _ _ H). Qed.

Lemma leads_types : leads [] (concat (map section_callbacks (vec_section WASM_BINARY_SECTION_TYPE enc_func_type
    CB_on_signature_count type_callbacks (bm_types bm)))) (map tree_type (bm_types bm)).
Proof.
  apply (leads_fields FUNC_TYPES _ _ _ _ tree_type _ []); [done| |].
  - unfold tree_fields, tree_before_funcs in Hsize. rewrite !length_app in Hsize. cbn [app]. lia.
  - intros i x Hi Hl. apply goes_signature; [by eapply index_lt|zpow; lia].
Qed.

Lemma typed_imports l : typed bm (map tree_type (bm_types bm) ++ map (tree_import bm) l).
Proof.
  unfold typed. rewrite List.filter_app, filter_types, filter_imports_none by (repeat constructor).
  by rewrite bool_decide_true, app_nil_r.
Qed.

Lemma leads_imports : leads (map tree_type (bm_types bm)) (concat (map section_callbacks
    (vec_section WASM_BINARY_SECTION_IMPORT enc_import CB_on_import_count import_callbacks (bm_imports bm))))
  (tree_before_funcs bm).
Proof.
  apply (leads_fields IMPORTS); [done| |].
  - unfold tree_fields, tree_before_funcs in Hsize. rewrite !length_app in Hsize. rewrite !length_app. lia.
  - intros i x Hi Hl. pose proof Htree as Ht. unfold tree_module in Ht. rewrite !andb_true_iff in Ht.
    pose proof (forallb_lookup _ _ _ _ (proj1 (proj1 Ht)) Hi) as [Hm Hf]%andb_true_iff.
    assert (ok_import (zlen (bm_types bm)) x = true) as Hok by (eapply forallb_lookup; [by_wf|exact Hi]).
    apply goes_import; [by eapply index_lt|done|apply typed_imports| |done|by apply tree_name_dup..].
    rewrite List.filter_app, filter_types, filter_imports, length_app, length_map. cbn [length].
    rewrite (length_take_lookup _ _ _ Hi). done.
Qed.

Lemma leads_functions : leads (tree_before_funcs bm) (concat (map section_callbacks
    (vec_section WASM_BINARY_SECTION_FUNCTION enc_u32 CB_on_function_signatures_count
      (fun i sig => [CB_on_function_signature i sig]) (bm_funcs bm)))) (tree_before_funcs bm ++ tree_funcs bm 0).
Proof.
  rewrite tree_funcs_0. apply (leads_fields FUNCS); [done| |].
  - rewrite <- tree_funcs_0. unfold tree_fields in Hsize. rewrite !length_app in Hsize. rewrite length_app.
    rewrite tree_funcs_length in Hsize |- * by (apply Nat.eqb_eq; by_wf). lia.
  - intros i x Hi Hl.
    assert (ok_u32 x && (x <? zlen (bm_types bm)) = true) as [Hu%ok_u32_in Hx]%andb_true_iff
      by (eapply (forallb_lookup (fun i => ok_u32 i && (i <? zlen (bm_types bm)))); [by_wf|exact Hi]).
    unfold in_u in Hu. apply goes_function; [by eapply index_lt|zpow; lia| |lia].
    unfold typed. rewrite List.filter_app, filter_signatures. exact (eq_trans (app_nil_r _) (typed_imports _)).
Qed.

(** The fields after each of the next sections. *)
Definition fields_f : list WasmModuleField := tree_before_funcs bm ++ tree_funcs bm 0.
Definition fields_t : list WasmModuleField := fields_f ++ map tree_table (bm_tables bm).
Definition fields_m : list WasmModuleField := fields_t ++ map tree_memory (bm_memories bm).
Definition fields_g : list WasmModuleField := fields_m ++ map tree_global (bm_globals bm).
Definition fields_e : list WasmModuleField := fields_g ++ map tree_export (bm_exports bm).
Definition fields_s : list WasmModuleField :=
  fields_e ++ match bm_start bm with Some i => [FIELD_START (VAR_INDEX i)] | None => [] end.
Definition fields_l : list WasmModuleField := fields_s ++ map tree_elem (bm_elems bm).

Lemma fields_l_eq : fields_l = tree_before_funcs bm ++ tree_funcs bm 0 ++ tree_after_funcs bm.
Proof.
  unfold fields_l, fields_s, fields_e, fields_g, fields_m, fields_t, fields_f, tree_after_funcs.
  by rewrite <- !app_assoc.
Qed.

Lemma fields_size : zlen fields_l < 2 ^ 32.
Proof.
  rewrite fields_l_eq. pose proof Hsize as Hs. unfold tree_fields in Hs. rewrite !length_app in Hs. rewrite !length_app.
  rewrite tree_funcs_length in Hs by (apply Nat.eqb_eq; by_wf).
  rewrite tree_funcs_length by (apply Nat.eqb_eq; by_wf). lia.
Qed.

Ltac small := pose proof fields_size as Hsz;
  unfold fields_l, fields_s, fields_e, fields_g, fields_m, fields_t in Hsz |- *; rewrite ?length_app in Hsz; rewrite ?length_app; lia.

(** The fields of each kind so far. *)
Lemma count_before kind : zlen (List.filter (selects (export_vector kind)) (tree_before_funcs bm)) =
  num_kind_imports kind (bm_imports bm).
Proof.
  unfold tree_before_funcs. rewrite List.filter_app, length_app, filter_types.
  rewrite bool_decide_false by by destruct kind. rewrite <- length_filter_imports. cbn [length]. lia.
Qed.

Lemma count_import_fields kind : zlen (List.filter (is_import kind) fields_f) = num_kind_imports kind (bm_imports bm).
Proof.
  unfold fields_f, tree_before_funcs. rewrite !List.filter_app, !length_app, Nat2Z.inj_add, Nat2Z.inj_add.
  rewrite (filter_map_if _ false) by done.
  rewrite (filter_all _ false (tree_funcs bm 0)) by (by intros f (x & ->)%tree_funcs_is_func).
  rewrite length_filter_is_import. cbn [length]. lia.
Qed.

Lemma count_fields kind : zlen (List.filter (selects (export_vector kind)) fields_g) = num_of_kind kind bm.
Proof.
  unfold fields_g, fields_m, fields_t, fields_f, num_of_kind. rewrite !List.filter_app, !length_app, !Nat2Z.inj_add.
  rewrite count_before, filter_funcs, filter_tables, filter_memories, filter_globals.
  destruct kind; cbn [export_vector]; repeat (first [rewrite bool_decide_true by done|rewrite bool_decide_false by done]);
    rewrite ?tree_funcs_length, ?length_map by (apply Nat.eqb_eq; by_wf); cbn [length]; lia.
Qed.

Lemma leads_tables : leads fields_f (concat (map section_callbacks (vec_section WASM_BINARY_SECTION_TABLE enc_table
    CB_on_table_count (fun i l => [CB_on_table i WASM_TYPE_ANYFUNC (read_limits l)]) (bm_tables bm)))) fields_t.
Proof.
  apply (leads_fields TABLES); [done|change (zlen fields_t < 2 ^ 32); small|].
  intros i x Hi Hl. apply goes_table; [by eapply index_lt|zpow; lia].
Qed.

Lemma leads_memories : leads fields_t (concat (map section_callbacks (vec_section WASM_BINARY_SECTION_MEMORY enc_limits
    CB_on_memory_count (fun i l => [CB_on_memory i (read_limits l)]) (bm_memories bm)))) fields_m.
Proof.
  apply (leads_fields MEMORIES); [done|change (zlen fields_m < 2 ^ 32); small|].
  intros i x Hi Hl. apply goes_memory; [by eapply index_lt|zpow; lia].
Qed.

Lemma leads_globals : leads fields_m (concat (map section_callbacks (vec_section WASM_BINARY_SECTION_GLOBAL enc_global
    CB_on_global_count global_callbacks (bm_globals bm)))) fields_g.
Proof.
  apply (leads_fields GLOBALS); [done|change (zlen fields_g < 2 ^ 32); small|].
  intros i x Hi Hl.
  assert (value_type (bg_type x) && ok_init (bg_init x) = true) as [_ Hinit]%andb_true_iff
    by (eapply (forallb_lookup (fun g => value_type (bg_type g) && ok_init (bg_init g))); [by_wf|exact Hi]).
  apply goes_global; [by eapply index_lt|done|done|].
  pose proof (count_before WASM_EXTERNAL_KIND_GLOBAL) as Hb. cbn [export_vector] in Hb.
  unfold fields_m, fields_t. rewrite !List.filter_app, !length_app, !Nat2Z.inj_add, count_import_fields.
  unfold fields_f. rewrite !List.filter_app, !length_app, !Nat2Z.inj_add, Hb.
  rewrite !(filter_map_if (is_import WASM_EXTERNAL_KIND_GLOBAL) false) by done.
  rewrite filter_funcs, filter_tables, filter_memories, filter_globals.
  rewrite !bool_decide_false, bool_decide_true, length_map, (length_take_lookup _ _ _ Hi) by done. cbn [length]. lia.
Qed.

Lemma leads_exports : leads fields_g (concat (map section_callbacks (vec_section WASM_BINARY_SECTION_EXPORT enc_export
    CB_on_export_count (fun i e => [CB_on_export i (be_kind e) (be_index e) (be_name e)]) (bm_exports bm)))) fields_e.
Proof.
  apply (leads_fields EXPORTS); [done|change (zlen fields_e < 2 ^ 32); small|].
  intros i x Hi Hl.
  assert (ok_u32 (be_index x) && (be_index x <? num_of_kind (be_kind x) bm) = true) as [_ Hx%Z.ltb_lt]%andb_true_iff
    by (eapply (forallb_lookup (fun e => ok_u32 (be_index e) && (be_index e <? num_of_kind (be_kind e) bm)));
        [by_wf|exact Hi]).
  pose proof Htree as Ht. unfold tree_module in Ht. rewrite !andb_true_iff in Ht.
  apply goes_export; [by eapply index_lt|zpow; lia| |].
  - rewrite List.filter_app, length_app, Nat2Z.inj_add, count_fields. lia.
  - apply tree_name_dup. apply (forallb_lookup _ _ _ _ (proj2 (proj1 Ht)) Hi).
Qed.

Lemma leads_start_section : leads fields_e
  (concat (map section_callbacks match bm_start bm with
     | None => []
     | Some f => [mkBSection WASM_BINARY_SECTION_START (enc_u32 f) [CB_on_start_function f]]
     end)) fields_s.
Proof.
  unfold fields_s. assert (match bm_start bm with None => true
    | Some f => ok_u32 f && (f <? num_of_kind WASM_EXTERNAL_KIND_FUNC bm) end = true) as Hs by by_wf.
  destruct (bm_start bm) as [f|]; cbn [map concat]; [|rewrite app_nil_r; apply leads_nil].
  apply andb_true_iff in Hs as [_ Hf%Z.ltb_lt]. rewrite app_nil_r. apply leads_section, leads_start.
  pose proof (count_fields WASM_EXTERNAL_KIND_FUNC) as Hn. cbn [export_vector] in Hn.
  unfold fields_e. rewrite List.filter_app, length_app, Nat2Z.inj_add, Hn. lia.
Qed.

Lemma filter_before k : k ∈ [EXPORTS; ELEM_SEGMENTS; DATA_SEGMENTS] ->
  List.filter (selects k) (tree_before_funcs bm) = [].
Proof.
  intros Hk. unfold tree_before_funcs. rewrite List.filter_app, filter_types, filter_imports_none by by right.
  rewrite !elem_of_cons in Hk. rewrite bool_decide_false; [done|].
  intros ->. destruct Hk as [?|[?|[?|?%not_elem_of_nil]]]; done.
Qed.

Lemma filter_start k :
  List.filter (selects k) match bm_start bm with Some i => [FIELD_START (VAR_INDEX i)] | None => [] end = [].
Proof. destruct (bm_start bm); by destruct k. Qed.

Lemma leads_elems : leads fields_s (concat (map section_callbacks (vec_section WASM_BINARY_SECTION_ELEM enc_elem
    CB_on_elem_segment_count elem_callbacks (bm_elems bm)))) fields_l.
Proof.
  apply (leads_fields ELEM_SEGMENTS); [done|change (zlen fields_l < 2 ^ 32); small|].
  intros i x Hi Hl.
  assert (ok_elem x = true) as Hx by (eapply forallb_lookup; [by_wf|exact Hi]).
  unfold ok_elem in Hx. rewrite !andb_true_iff in Hx.
  apply goes_elem; [zpow; lia| |by eapply index_lt|apply Hx].
  unfold fields_s, fields_e, fields_g, fields_m, fields_t, fields_f.
  rewrite !List.filter_app, filter_before, filter_start, filter_funcs, filter_tables, filter_memories, filter_globals,
    filter_exports, filter_elems by by (right; left).
  rewrite !bool_decide_false, bool_decide_true by done. cbn [app].
  rewrite length_map, (length_take_lookup _ _ _ Hi). done.
Qed.

(** The fields when [j] bodies have been read. *)
Definition fields_c (j : nat) : list WasmModuleField :=
  tree_before_funcs bm ++ tree_funcs bm j ++ tree_after_funcs bm.

Lemma filter_after k : List.filter (selects k) (tree_after_funcs bm) =
  match k with
  | TABLES => map tree_table (bm_tables bm)
  | MEMORIES => map tree_memory (bm_memories bm)
  | GLOBALS => map tree_global (bm_globals bm)
  | EXPORTS => map tree_export (bm_exports bm)
  | ELEM_SEGMENTS => map tree_elem (bm_elems bm)
  | _ => []
  end.
Proof.
  unfold tree_after_funcs.
  rewrite !List.filter_app, filter_tables, filter_memories, filter_globals, filter_exports, filter_start, filter_elems.
  destruct k; repeat (first [rewrite bool_decide_true by done|rewrite bool_decide_false by done]); cbn [app];
    by rewrite ?app_nil_r.
Qed.

Lemma is_import_after kind : List.filter (is_import kind) (tree_after_funcs bm) = [].
Proof.
  unfold tree_after_funcs. rewrite !List.filter_app, !(filter_map_if (is_import kind) false) by done.
  by destruct (bm_start bm).
Qed.

Lemma count_codes j : zlen (List.filter (selects FUNCS) (fields_c j)) = num_of_kind WASM_EXTERNAL_KIND_FUNC bm /\
  zlen (List.filter (selects FUNC_TYPES) (fields_c j)) = zlen (bm_types bm) /\
  List.filter (is_import WASM_EXTERNAL_KIND_FUNC) (fields_c j) =
    List.filter (selects FUNCS) (tree_before_funcs bm) /\
  zlen (List.filter (selects FUNCS) (tree_before_funcs bm)) = num_kind_imports WASM_EXTERNAL_KIND_FUNC (bm_imports bm) /\
  length (tree_funcs bm j) = length (bm_funcs bm).
Proof.
  pose proof (count_before WASM_EXTERNAL_KIND_FUNC) as Hb. cbn [export_vector] in Hb.
  assert (length (tree_funcs bm j) = length (bm_funcs bm)) as Hl
    by (apply tree_funcs_length, Nat.eqb_eq; by_wf).
  unfold fields_c, num_of_kind. rewrite !List.filter_app, !length_app, !Nat2Z.inj_add, Hb.
  rewrite !filter_after, !filter_funcs, is_import_after. rewrite bool_decide_true, bool_decide_false by done.
  rewrite Hl. cbn [length]. split_and!; [lia| | |done|done].
  - rewrite (typed_imports (bm_imports bm)), length_map. lia.
  - rewrite (filter_all _ false (tree_funcs bm j)) by (by intros f (x & ->)%tree_funcs_is_func).
    rewrite !app_nil_r. apply List.filter_ext_in. unfold tree_before_funcs. intros f.
    rewrite List.in_app_iff, !List.in_map_iff. by intros [(x & <- & _)|(x & <- & _)].
Qed.

Lemma goes_one_code j sig f : bm_funcs bm !! j = Some sig -> bm_codes bm !! j = Some f ->
  goes FUNCS 0 (fields_c j) (code_callbacks (Z.of_nat j) f) (fields_c (S j)).
Proof.
  intros Hs Hf. destruct (tree_funcs_S j sig f Hs Hf) as [Hj HS].
  destruct (count_codes j) as (Hn1 & Hn2 & Hn3 & Hn4 & Hn5).
  assert (ok_code (zlen (bm_types bm)) (num_of_kind WASM_EXTERNAL_KIND_FUNC bm) f = true) as [_ Hok]%andb_true_iff
    by (eapply forallb_lookup; [by_wf|exact Hf]).
  pose proof Htree as Ht. unfold tree_module in Ht. rewrite !andb_true_iff in Ht.
  pose proof (forallb_lookup _ _ _ _ (proj2 Ht) Hf) as Htf.
  assert (j < length (tree_funcs bm j))%nat as Hlt by by eapply lookup_lt_Some.
  assert (fields_c (S j) = <[(length (tree_before_funcs bm) + j)%nat := tree_code bm sig f]> (fields_c j)) as ->.
  { unfold fields_c. rewrite insert_app_r, insert_app_l by done. by rewrite HS. }
  eapply (goes_code _ _ _ _ j sig f _ _ bm); [| | |exact Hn2|exact Hn1|done|done].
  - unfold fields_c. rewrite lookup_app_r by lia. rewrite Nat.add_comm, Nat.add_sub. by rewrite lookup_app_l.
  - rewrite Hn3. unfold fields_c. rewrite !positions_app, lookup_app_r, length_positions by (rewrite length_positions; lia).
    rewrite Nat.add_comm, Nat.add_sub, Nat.add_0_l.
    rewrite lookup_app_l; rewrite (positions_all _ _ (tree_funcs bm j)).
    + rewrite lookup_seq_lt by done. by rewrite Nat.add_comm.
    + apply List.forallb_forall. intros x (y & ->)%list_elem_of_In%tree_funcs_is_func. done.
    + by rewrite length_seq.
    + apply List.forallb_forall. intros x (y & ->)%list_elem_of_In%tree_funcs_is_func. done.
  - pose proof fields_size as Hsz. rewrite fields_l_eq in Hsz. unfold fields_c. rewrite !length_app in Hsz.
    rewrite !length_app. destruct (count_codes 0) as (_ & _ & _ & _ & H0). lia.
Qed.

Lemma leads_codes canonical : leads fields_l (concat (map section_callbacks (vec_section WASM_BINARY_SECTION_CODE (enc_code canonical)
    CB_on_function_bodies_count code_callbacks (bm_codes bm)))) (fields_c (length (bm_codes bm))).
Proof.
  rewrite fields_l_eq. fold (fields_c 0).
  assert (length (bm_codes bm) = length (bm_funcs bm)) as El by (apply Nat.eqb_eq; by_wf).
  apply leads_vec; [|by intros ->]. intros c Hc.
  destruct (count_codes 0) as (Hn1 & _ & Hn3 & Hn4 & _).
  assert (goes FUNCS 0 (fields_c 0) (indexed code_callbacks 0 (bm_codes bm)) (fields_c (length (bm_codes bm)))) as G.
  { apply (goes_indexed FUNCS 0 fields_c code_callbacks (bm_codes bm) 0). intros j f Hf. cbn [Nat.add].
    destruct (lookup_lt_is_Some_2 (bm_funcs bm) j) as [sig Hs]; [rewrite <- El; by eapply lookup_lt_Some|].
    by eapply goes_one_code. }
  destruct (G c Hc ltac:(unfold cap, vec_capacity; lia)) as (c' & R & Hc' & _). exists c'. split; [|done].
  eapply runs_cons; [|exact R]. cbn [s_binary_reader]. unfold on_function_bodies_count. apply does_get.
  apply does_assert; [|apply does_ret]. apply Z.eqb_eq.
  rewrite (ts_imports _ _ Hc), Hn3, Hn4, (ts_size _ _ _ Hc), Hn1. unfold num_of_kind. rewrite <- El. apply wrap_id.
  pose proof (List.filter_length_le (selects FUNCS) (fields_c 0)) as Hle.
  pose proof fields_size as Hsz. rewrite fields_l_eq in Hsz. unfold fields_c in *. unfold num_of_kind in Hn1.
  unfold in_u. lia.
Qed.

Lemma leads_datas : leads (fields_c (length (bm_codes bm))) (concat (map section_callbacks
    (vec_section WASM_BINARY_SECTION_DATA enc_data CB_on_data_segment_count data_callbacks (bm_datas bm))))
  (tree_fields bm).
Proof.
  assert (tree_fields bm = fields_c (length (bm_codes bm)) ++ map tree_data (bm_datas bm)) as E
    by (unfold tree_fields, fields_c; by rewrite <- !app_assoc).
  rewrite E. apply (leads_fields DATA_SEGMENTS); [done|by rewrite <- E|].
  intros i x Hi Hl.
  assert (ok_data x = true) as [_ Hx]%andb_true_iff by (eapply forallb_lookup; [by_wf|exact Hi]).
  apply goes_data; [zpow; lia| |by eapply index_lt|done].
  unfold fields_c. rewrite !List.filter_app, filter_before, filter_after, filter_funcs, filter_datas
    by (do 2 right; by left).
  rewrite bool_decide_false, bool_decide_true by done. cbn [app].
  rewrite length_map, (length_take_lookup _ _ _ Hi). done.
Qed.

(** The callbacks of a module without debug names build its tree. *)
Lemma leads_module canonical : bm_names bm = None -> leads [] (callbacks canonical bm) (tree_fields bm).
Proof.
  intros Hn. unfold callbacks, sections. rewrite Hn, app_nil_r. unfold known_sections.
  rewrite !map_app, !concat_app.
  eapply (leads_app _ [_]); [by apply leads_skip|]. eapply leads_app; [|by apply leads_skip].
  eapply leads_app; [apply leads_types|]. eapply leads_app; [apply leads_imports|].
  eapply leads_app; [apply leads_functions|]. eapply leads_app; [apply leads_tables|].
  eapply leads_app; [apply leads_memories|]. eapply leads_app; [apply leads_globals|].
  eapply leads_app; [apply leads_exports|]. eapply leads_app; [apply leads_start_section|].
  eapply leads_app; [apply leads_elems|]. eapply leads_app; [apply leads_codes|]. apply leads_datas.
Qed.

Lemma read_binary_ast_encode canonical debug : bm_names bm = None -> zlen (encode canonical bm) < 2 ^ 32 ->
  exists m, wasm_read_binary_ast uninit_ptr uninit_entry debug (encode canonical bm) = Some (WASM_OK, m, []) /\
    store_module m = tree bm /\
    (forall k, vec_list (store_vectors m k) = Some <$> positions (selects k) 0 (store_fields m)) /\
    (forall kind, store_num_imports m kind = zlen (List.filter (is_import kind) (store_fields m))) /\
    store_start m = last (positions is_start 0 (store_fields m)).
Proof.
  intros Hn Hl. destruct (leads_module canonical Hn zero_context tree_state_zero) as (c & R & Hc).
  exists (ctx_module c). split.
  - unfold wasm_read_binary_ast.
    pose proof (wasm_read_binary_encode h (fun _ _ u => u) canonical debug bm (Some zero_context) (Some c)
      Hwf (or_introl Hn) Hl R) as E.
    change (RoundTrip.reader h (fun _ _ u => u)) with (ast_reader uninit_ptr uninit_entry) in E. rewrite E.
    cbn [mbind option_bind]. rewrite (ts_labels _ _ Hc). done.
  - pose proof (ts_fields _ _ Hc) as Hf. unfold ctx_fields in Hf. rewrite Hf. split_and!.
    + unfold store_module, tree. by rewrite Hf, (ts_bindings _ _ Hc).
    + intros k. apply (ts_vectors _ _ Hc).
    + intros kind. apply (ts_imports _ _ Hc).
    + apply (ts_start _ _ Hc).
Qed.
End module.
End ast.
