(* ===== verification/AstRoundTrip.v ===== *)
(** * From the syntax tree to bytes and back

    The tree that is read from the bytes the binary writer makes of a module
    ([AstTree]) stands for the same binary module, and writing it again gives
    the same bytes.  At the end, inputs on which the reader of trees goes
    wrong. *)

From stdpp Require Import functions.
From S2P Require Import Prelude Opcode Vector BindingHash Ast StateOpt Stream BinaryWriter BinaryReader BinaryFormat WriterFacts RoundTrip BinaryReaderAst AstTree.

(** ** Writing the tree again

    The tree stands for the binary module it was read from, up to the maximum of
    limits that have none, which the encoding leaves out. *)

Definition norm_import_desc (d : BImportDesc) : BImportDesc :=
  match d with
  | BIMPORT_TABLE l => BIMPORT_TABLE (read_limits l)
  | BIMPORT_MEMORY l => BIMPORT_MEMORY (read_limits l)
  | _ => d
  end.

Definition norm_import (i : BImport) : BImport := mkBImport (bi_module i) (bi_field i) (norm_import_desc (bi_desc i)).

Definition norm (bm : BModule) : BModule :=
  mkBModule (bm_types bm) (map norm_import (bm_imports bm)) (bm_funcs bm) (map read_limits (bm_tables bm))
    (map read_limits (bm_memories bm)) (bm_globals bm) (bm_exports bm) (bm_start bm) (bm_elems bm)
    (bm_codes bm) (bm_datas bm) (bm_names bm).

Lemma enc_limits_read l : enc_limits (read_limits l) = enc_limits l.
Proof. unfold enc_limits, read_limits. cbn. by destruct (lim_has_max l). Qed.

Lemma enc_import_norm i : enc_import (norm_import i) = enc_import i.
Proof.
  unfold enc_import, norm_import. cbn [bi_module bi_field bi_desc]. do 2 f_equal.
  destruct (bi_desc i); cbn [norm_import_desc bimport_kind enc_import_desc]; unfold enc_table;
    by rewrite ?enc_limits_read.
Qed.

(** Sections of the same bytes. *)
Lemma enc_vec_section {A B} canonical s (enc : B -> list Z) (enc' : A -> list Z) count (cbs : Z -> B -> list Callback)
    (cbs' : Z -> A -> list Callback) (f : A -> B) l : (forall x, enc (f x) = enc' x) ->
  map (enc_section canonical) (vec_section s enc count cbs (map f l)) =
  map (enc_section canonical) (vec_section s enc' count cbs' l).
Proof.
  intros Hf. destruct l as [|x l]; [done|]. cbn [map vec_section]. unfold enc_section. cbn [sec_kind sec_body]. do 2 f_equal.
  change (enc_sized canonical (enc_vec enc (map f (x :: l))) = enc_sized canonical (enc_vec enc' (x :: l))).
  unfold enc_vec, enc_len. rewrite length_map, map_map. do 3 f_equal. by apply map_ext.
Qed.

Lemma encode_norm canonical bm : bm_names bm = None -> encode canonical (norm bm) = encode canonical bm.
Proof.
  intros Hn. unfold encode, sections, known_sections, norm.
  cbn [bm_types bm_imports bm_funcs bm_tables bm_memories bm_globals bm_exports bm_start bm_elems bm_codes bm_datas bm_names].
  rewrite Hn, !map_app, !concat_app.
  rewrite (enc_vec_section canonical WASM_BINARY_SECTION_IMPORT enc_import enc_import CB_on_import_count import_callbacks
    import_callbacks norm_import) by apply enc_import_norm.
  rewrite (enc_vec_section canonical WASM_BINARY_SECTION_TABLE enc_table enc_table CB_on_table_count _
    (fun i l => [CB_on_table i WASM_TYPE_ANYFUNC (read_limits l)]) read_limits)
    by (intros; unfold enc_table; by rewrite enc_limits_read).
  by rewrite (enc_vec_section canonical WASM_BINARY_SECTION_MEMORY enc_limits enc_limits CB_on_memory_count _
    (fun i l => [CB_on_memory i (read_limits l)]) read_limits) by apply enc_limits_read.
Qed.

Lemma slice_bytes_tree b : forallb (fun x => (0 <=? x) && (x <? 256)) b = true -> slice_bytes (tree_string b) = b.
Proof.
  intros Hb%forallb_Forall. unfold tree_string, slice_bytes, string_of_bytes.
  rewrite String.list_ascii_of_string_of_list_ascii, map_map. rewrite <- (map_id b) at 2.
  apply map_ext_in. intros x Hx. rewrite Forall_forall in Hb. specialize (Hb x ltac:(by apply list_elem_of_In)).
  cbv beta in Hb. apply andb_true_iff in Hb. rewrite Ascii.nat_ascii_embedding by lia. unfold id. lia.
Qed.

Lemma tree_name_bytes b : tree_name b = true -> slice_bytes (tree_string b) = b.
Proof. unfold tree_name. rewrite andb_true_iff. intros [Hb _]. by apply slice_bytes_tree. Qed.

Lemma to_int_small i : 0 <= i < 2 ^ 31 -> to_int i = i.
Proof. intros Hi. unfold to_int. rewrite wrap_id by ulia. unfold to_signed. rewrite (proj2 (Z.ltb_lt _ _)); [done|zpow; lia]. Qed.

Lemma u32_to_int i : in_u 32 i -> u32 (to_int i) = i.
Proof. intros Hi. unfold to_int. by rewrite (wrap_id 32 i), wrap_to_signed by done. Qed.

Lemma log2_u32_shiftl k : 0 <= k < 31 -> log2_u32 (Z.shiftl 1 k) = Some k.
Proof.
  intros Hk. assert (forallb (fun n => bool_decide (log2_u32 (Z.shiftl 1 (Z.of_nat n)) = Some (Z.of_nat n))) (seq 0 31) = true)
    as H by (vm_compute; reflexivity).
  rewrite List.forallb_forall in H. specialize (H (Z.to_nat k)). rewrite List.in_seq, Z2Nat.id in H by lia.
  specialize (H ltac:(lia)). by apply bool_decide_eq_true_1 in H.
Qed.

Lemma natural_alignment_shiftl k : 0 <= k < 31 -> (Z.shiftl 1 k =? WASM_USE_NATURAL_ALIGNMENT) = false.
Proof.
  intros Hk. apply Z.eqb_neq. assert (Z.shiftl 1 k <= 2 ^ 30).
  { rewrite Z.shiftl_1_l. apply Z.pow_le_mono_r; lia. }
  unfold WASM_USE_NATURAL_ALIGNMENT. zpow. lia.
Qed.

Lemma mapM_map {A B C} (f : B -> option C) (g : A -> B) (h : A -> C) l :
  Forall (fun x => f (g x) = Some (h x)) l -> mapM f (map g l) = Some (map h l).
Proof. intros H. apply mapM_Some. induction H; cbn [map]; by constructor. Qed.

Lemma mapM_map_id {A B} (f : B -> option A) (g : A -> B) l :
  Forall (fun x => f (g x) = Some x) l -> mapM f (map g l) = Some l.
Proof. intros H. rewrite (mapM_map f g id) by done. by rewrite map_id. Qed.

Section again.
Context (opts : WasmWriteBinaryOptions) (bm : BModule).
Hypothesis Hwf : well_formed bm = true.
Hypothesis Htree : tree_module bm = true.
Hypothesis Hsize : zlen (tree_fields bm) < 2 ^ 31.

Abbreviation m := (tree bm).

(** Each index is in the range the reader checked. *)
Lemma resolve_checked_ok i (n : nat) : 0 <= i < Z.of_nat n -> Z.of_nat n < 2 ^ 31 ->
  resolve_checked opts (Some (to_int i)) n = Some i.
Proof.
  intros Hi Hn. unfold resolve_checked. cbn [mbind option_bind]. rewrite to_int_small by lia.
  rewrite (proj2 (Z.leb_le _ _)), (proj2 (Z.ltb_lt _ _)) by lia. rewrite orb_true_r. cbn [andb].
  f_equal. apply wrap_id. ulia.
Qed.

(** *** The views of the tree *)

Lemma omap_map {A B C} (f : B -> option C) (g : A -> B) (h : A -> C) l : (forall x, f (g x) = Some (h x)) ->
  omap f (map g l) = map h l.
Proof. intros H. induction l as [|x l IH]; cbn [map omap list_omap]; [done|]. by rewrite H, <- IH. Qed.

Lemma omap_none {B C} (f : B -> option C) l : (forall x, x ∈ l -> f x = None) -> omap f l = [].
Proof.
  intros H. induction l as [|x l IH]; cbn [omap list_omap]; [done|]. rewrite H by by left.
  apply IH. intros y Hy. apply H. by right.
Qed.

Lemma omap_map_none {A B C} (f : B -> option C) (g : A -> B) l : (forall x, f (g x) = None) -> omap f (map g l) = [].
Proof. intros H. apply omap_none. intros y (x & <- & _)%list_elem_of_In%List.in_map_iff. apply H. Qed.

Lemma omap_funcs {C} (f : WasmModuleField -> option C) j : (forall x, f (FIELD_FUNC x) = None) ->
  omap f (tree_funcs bm j) = [].
Proof. intros H. apply omap_none. intros y (x & ->)%tree_funcs_is_func. apply H. Qed.

Lemma omap_start {C} (f : WasmModuleField -> option C) : (forall x, f (FIELD_START x) = None) ->
  omap f match bm_start bm with Some i => [FIELD_START (VAR_INDEX i)] | None => [] end = [].
Proof. intros H. destruct (bm_start bm); [|done]. cbn [omap list_omap]. by rewrite H. Qed.

(** The functions that have a body. *)
Definition own_func (sig : Z) (f : BFuncBody) : WasmFunc :=
  tree_func bm sig (expand_locals (bf_locals f)) (map tree_expr (bf_body f)).
Definition own_funcs : list WasmFunc := zip_with own_func (bm_funcs bm) (bm_codes bm).

Lemma codes_length : length (bm_codes bm) = length (bm_funcs bm).
Proof. apply Nat.eqb_eq. pose proof Hwf as H. unfold well_formed in H. rewrite !andb_true_iff in H. apply H. Qed.

Lemma map_zip_with {A B C D} (g : C -> D) (f : A -> B -> C) l k : map g (zip_with f l k) = zip_with (fun x y => g (f x y)) l k.
Proof. revert k. induction l as [|x l IH]; intros [|y k]; cbn [zip_with map]; [done..|]. by rewrite IH. Qed.

Lemma tree_funcs_all : tree_funcs bm (length (bm_codes bm)) = map FIELD_FUNC own_funcs.
Proof.
  unfold tree_funcs, own_funcs. rewrite map_zip_with, drop_ge, app_nil_r by (rewrite codes_length; done).
  by rewrite !take_ge by (rewrite ?codes_length; done).
Qed.

Lemma omap_tree {C} (f : WasmModuleField -> option C) : (forall x, f (FIELD_START x) = None) ->
  omap f (tree_fields bm) =
  omap f (map tree_type (bm_types bm)) ++ omap f (map (tree_import bm) (bm_imports bm)) ++
  omap f (map FIELD_FUNC own_funcs) ++ omap f (map tree_table (bm_tables bm)) ++
  omap f (map tree_memory (bm_memories bm)) ++ omap f (map tree_global (bm_globals bm)) ++
  omap f (map tree_export (bm_exports bm)) ++ omap f (map tree_elem (bm_elems bm)) ++
  omap f (map tree_data (bm_datas bm)).
Proof.
  intros H. unfold tree_fields, tree_before_funcs, tree_after_funcs. rewrite tree_funcs_all, !omap_app, omap_start by done.
  by rewrite <- !app_assoc.
Qed.

(** The members of one kind: those that are imported, then those of the
    module. *)
Ltac view := cbn [module_fields]; rewrite omap_tree by done;
  repeat first
    [rewrite (omap_map_none _ tree_type) by done|rewrite (omap_map_none _ (tree_import bm)) by done
    |rewrite (omap_map_none _ FIELD_FUNC) by done|rewrite (omap_map_none _ tree_table) by done
    |rewrite (omap_map_none _ tree_memory) by done|rewrite (omap_map_none _ tree_global) by done
    |rewrite (omap_map_none _ tree_export) by done|rewrite (omap_map_none _ tree_elem) by done
    |rewrite (omap_map_none _ tree_data) by done];
  cbn [app]; rewrite ?app_nil_r.

Lemma view_func_types : module_func_types m = map (mkFuncType None) (bm_types bm).
Proof. unfold module_func_types, m. view. by apply omap_map. Qed.

Definition import_of (i : BImport) : WasmImport :=
  mkImport (tree_string (bi_module i)) (tree_string (bi_field i)) (tree_import_desc bm (bi_desc i)).

Lemma view_imports : module_imports m = map import_of (bm_imports bm).
Proof. unfold module_imports, m. view. by apply omap_map. Qed.

Lemma view_exports : module_exports m =
  map (fun e => mkExport (tree_string (be_name e)) (be_kind e) (VAR_INDEX (be_index e))) (bm_exports bm).
Proof. unfold module_exports, m. view. by apply omap_map. Qed.

Lemma view_elems : module_elem_segments m =
  map (fun s => mkElemSegment (VAR_INDEX (bes_table s)) (map tree_expr (bes_offset s)) (map VAR_INDEX (bes_funcs s)))
    (bm_elems bm).
Proof. unfold module_elem_segments, m. view. by apply omap_map. Qed.

Lemma view_datas : module_data_segments m =
  map (fun s => mkDataSegment (VAR_INDEX (bd_memory s)) (map tree_expr (bd_offset s)) (bd_data s)) (bm_datas bm).
Proof. unfold module_data_segments, m. view. by apply omap_map. Qed.

Lemma view_start : module_start m = VAR_INDEX <$> bm_start bm.
Proof.
  unfold module_start, m. cbn [module_fields]. unfold tree_fields, tree_before_funcs, tree_after_funcs.
  rewrite tree_funcs_all, !omap_app.
  rewrite !(omap_map_none (fun f => match f with FIELD_START x => Some x | _ => None end)) by done.
  by destruct (bm_start bm).
Qed.

(** Imports of one kind. *)
Lemma omap_imports {C} (V : WasmModuleField -> option C) kind sel :
  (forall i, V (tree_import bm i) <> None <-> bimport_kind (bi_desc i) = kind) ->
  (forall i, sel (import_desc (import_of i)) = bool_decide (bimport_kind (bi_desc i) = kind)) ->
  length (omap V (map (tree_import bm) (bm_imports bm))) = num_imports_of sel m /\
  Z.of_nat (num_imports_of sel m) = num_kind_imports kind (bm_imports bm).
Proof.
  intros HV Hsel. unfold num_imports_of, num_kind_imports. rewrite view_imports.
  induction (bm_imports bm) as [|i l [IH1 IH2]]; cbn [map omap list_omap]; [done|].
  rewrite !filter_cons. specialize (HV i). specialize (Hsel i).
  destruct (decide (bimport_kind (bi_desc i) = kind)) as [E|E].
  - rewrite bool_decide_true in Hsel by done. rewrite decide_True by done.
    destruct (V (tree_import bm i)); [|tauto]. cbn [length]. lia.
  - rewrite bool_decide_false in Hsel by done. rewrite decide_False by (by rewrite Hsel).
    destruct (V (tree_import bm i)); [naive_solver|done].
Qed.

Lemma view_funcs : drop (num_func_imports m) (module_funcs m) = own_funcs /\
  zlen (module_funcs m) = num_of_kind WASM_EXTERNAL_KIND_FUNC bm.
Proof.
  unfold module_funcs, num_func_imports, m. set (V := fun f => match f with FIELD_FUNC x => _ | _ => _ end).
  view. rewrite (omap_map V FIELD_FUNC id), map_id by done.
  destruct (omap_imports V WASM_EXTERNAL_KIND_FUNC
    (fun d => match d with IMPORT_FUNC _ => true | _ => false end)) as [H1 H2];
    [intros i; unfold V, tree_import; by destruct (bi_desc i)|intros i; unfold import_of; by destruct (bi_desc i)|].
  rewrite <- H1 at 1. rewrite drop_app_length, length_app, H1. split; [done|].
  unfold num_of_kind. rewrite <- H2. unfold own_funcs. rewrite length_zip_with, codes_length. lia.
Qed.

Lemma view_tables : drop (num_table_imports m) (module_tables m) = map (fun l => mkTable None (read_limits l)) (bm_tables bm) /\
  zlen (module_tables m) = num_of_kind WASM_EXTERNAL_KIND_TABLE bm.
Proof.
  unfold module_tables, num_table_imports, m. set (V := fun f => match f with FIELD_TABLE x => _ | _ => _ end).
  view. rewrite (omap_map V tree_table (fun l => mkTable None (read_limits l))) by done.
  destruct (omap_imports V WASM_EXTERNAL_KIND_TABLE
    (fun d => match d with IMPORT_TABLE _ => true | _ => false end)) as [H1 H2];
    [intros i; unfold V, tree_import; by destruct (bi_desc i)|intros i; unfold import_of; by destruct (bi_desc i)|].
  rewrite <- H1 at 1. rewrite drop_app_length, length_app, H1. split; [done|].
  unfold num_of_kind. rewrite <- H2, length_map. lia.
Qed.

Lemma view_memories :
  drop (num_memory_imports m) (module_memories m) = map (fun l => mkMemory None (read_limits l)) (bm_memories bm) /\
  zlen (module_memories m) = num_of_kind WASM_EXTERNAL_KIND_MEMORY bm.
Proof.
  unfold module_memories, num_memory_imports, m. set (V := fun f => match f with FIELD_MEMORY x => _ | _ => _ end).
  view. rewrite (omap_map V tree_memory (fun l => mkMemory None (read_limits l))) by done.
  destruct (omap_imports V WASM_EXTERNAL_KIND_MEMORY
    (fun d => match d with IMPORT_MEMORY _ => true | _ => false end)) as [H1 H2];
    [intros i; unfold V, tree_import; by destruct (bi_desc i)|intros i; unfold import_of; by destruct (bi_desc i)|].
  rewrite <- H1 at 1. rewrite drop_app_length, length_app, H1. split; [done|].
  unfold num_of_kind. rewrite <- H2, length_map. lia.
Qed.

Definition own_global (g : BGlobal) : WasmGlobal :=
  mkGlobal None (bg_type g) (bg_mutable g) (map tree_expr (bg_init g)).

Lemma view_globals : drop (num_global_imports m) (module_globals m) = map own_global (bm_globals bm) /\
  zlen (module_globals m) = num_of_kind WASM_EXTERNAL_KIND_GLOBAL bm.
Proof.
  unfold module_globals, num_global_imports, m. set (V := fun f => match f with FIELD_GLOBAL x => _ | _ => _ end).
  view. rewrite (omap_map V tree_global own_global) by done.
  destruct (omap_imports V WASM_EXTERNAL_KIND_GLOBAL
    (fun d => match d with IMPORT_GLOBAL _ => true | _ => false end)) as [H1 H2];
    [intros i; unfold V, tree_import; by destruct (bi_desc i)|intros i; unfold import_of; by destruct (bi_desc i)|].
  rewrite <- H1 at 1. rewrite drop_app_length, length_app, H1. split; [done|].
  unfold num_of_kind. rewrite <- H2, length_map. lia.
Qed.

(** *** The tree resolves to the module *)

Lemma num_of_kind_small kind : num_of_kind kind bm < 2 ^ 31.
Proof.
  rewrite <- (count_fields bm Hwf kind). unfold tree_fields in Hsize.
  pose proof (List.filter_length_le (selects (export_vector kind)) (fields_g bm)) as Hle.
  unfold fields_g, fields_m, fields_t, fields_f in *. unfold tree_after_funcs in Hsize. rewrite !length_app in Hle.
  rewrite !length_app in Hsize. rewrite tree_funcs_length in Hle by apply codes_length.
  rewrite tree_funcs_length in Hsize by apply codes_length. lia.
Qed.

Lemma num_types_small : zlen (bm_types bm) < 2 ^ 31.
Proof.
  unfold tree_fields, tree_before_funcs in Hsize. rewrite !length_app, length_map in Hsize. lia.
Qed.

Lemma resolve_label_ok i : ok_u32 i = true -> resolve_label (VAR_INDEX i) = Some i.
Proof. intros Hi%ok_u32_in. cbn. by rewrite wrap_id. Qed.

Lemma resolve_index_ok i : ok_u32 i = true -> resolve_index (Some (to_int i)) = Some i.
Proof. intros Hi%ok_u32_in. cbn. by rewrite u32_to_int. Qed.

Abbreviation num_funcs := (num_of_kind WASM_EXTERNAL_KIND_FUNC bm).
Abbreviation num_sigs := (zlen (bm_types bm)).

Lemma resolve_func_ok i : ok_u32 i = true -> i < num_funcs ->
  resolve_checked opts (wasm_get_func_index_by_var m (VAR_INDEX i)) (length (module_funcs m)) = Some i.
Proof.
  intros Hi%ok_u32_in Hn. unfold in_u in Hi. pose proof (num_of_kind_small WASM_EXTERNAL_KIND_FUNC).
  apply resolve_checked_ok; rewrite (proj2 view_funcs); lia.
Qed.

Lemma resolve_bare op cb f : bare_callback op = Some cb -> resolve_expr opts m f (tree_bare op) = Some (BI_OP op).
Proof. intros Hcb. destruct op; cbn [bare_callback opcode_group] in Hcb; by try discriminate Hcb. Qed.

Lemma resolve_tree_expr f : forall i, ok_instr num_sigs num_funcs i = true -> tree_instr i = true ->
  resolve_expr opts m f (tree_expr i) = Some i.
Proof.
  assert (forall l, Forall (fun i => ok_instr num_sigs num_funcs i = true -> tree_instr i = true ->
      resolve_expr opts m f (tree_expr i) = Some i) l ->
    forallb (ok_instr num_sigs num_funcs) l = true -> forallb tree_instr l = true ->
    mapM (resolve_expr opts m f) (map tree_expr l) = Some l) as Hlist.
  { intros l Hl Hok%forallb_Forall Ht%forallb_Forall. apply mapM_map_id.
    induction Hl; inversion Hok; inversion Ht; constructor; auto. }
  apply (BInstr_nested_ind (fun i => ok_instr num_sigs num_funcs i = true -> tree_instr i = true ->
    resolve_expr opts m f (tree_expr i) = Some i)).
  - intros sig l Hl [_ Hok]%andb_true_iff Ht. cbn [tree_expr resolve_expr]. by rewrite Hlist.
  - intros sig l Hl [_ Hok]%andb_true_iff Ht. cbn [tree_expr resolve_expr]. by rewrite Hlist.
  - intros sig ts fs Hts Hfs [[_ Hokt]%andb_true_iff Hokf]%andb_true_iff [Htt Htf]%andb_true_iff.
    cbn [tree_expr resolve_expr]. rewrite (Hlist ts) by done. cbn [mbind option_bind]. by rewrite Hlist.
  - intros []; try done; intros Hok Ht; cbn [ok_instr tree_instr] in Hok, Ht; cbn [tree_expr].
    + apply is_some_inv in Hok as [cb Hcb]. by eapply resolve_bare.
    + apply andb_true_iff in Hok as [[[cb Hcb]%is_some_inv Hu]%andb_true_iff Hc].
      destruct op; try discriminate Hcb; cbn [tree_index resolve_expr resolve_local];
        unfold wasm_get_global_index_by_var; cbn [wasm_get_index_from_var];
        rewrite ?resolve_label_ok, ?resolve_index_ok by done; try done.
      * rewrite resolve_func_ok; [done|done|]. rewrite bool_decide_true in Hc by done. cbn [negb orb] in Hc. lia.
      * cbn. by rewrite u32_to_int by by apply ok_u32_in.
      * cbn. by rewrite u32_to_int by by apply ok_u32_in.
      * cbn. by rewrite u32_to_int by by apply ok_u32_in.
    + apply andb_true_iff in Hok as [Hts Hd]. cbn [resolve_expr].
      rewrite mapM_map_id, resolve_label_ok; [done|done|].
      eapply Forall_impl; [apply forallb_Forall, Hts|]. intros x. apply resolve_label_ok.
    + apply andb_true_iff in Hok as [Hu%ok_u32_in Hs%Z.ltb_lt]. unfold in_u in Hu. pose proof num_types_small.
      cbn [resolve_expr]. unfold wasm_get_func_type_index_by_var. cbn [wasm_get_index_from_var].
      rewrite resolve_checked_ok; [done|rewrite view_func_types, length_map; lia..].
    + cbn [resolve_expr]. by rewrite Hok.
    + apply andb_true_iff in Hok as [[[[cb Hcb]%is_some_inv Hl1]%andb_true_iff _]%andb_true_iff Hu%ok_u32_in].
      assert (0 <= alignment_log2 < 31) as Hl by lia.
      assert (resolve_memory_access op (Z.shiftl 1 alignment_log2) offset = Some (BI_MEMORY op alignment_log2 offset)) as E.
      { unfold resolve_memory_access, wasm_get_opcode_alignment.
        rewrite natural_alignment_shiftl, log2_u32_shiftl by done. cbn. by rewrite wrap_id. }
      unfold memory_callback in Hcb. destruct (opcode_group op) as [[]|]; try discriminate Hcb; exact E.
    + apply is_some_inv in Hok as [cb Hcb]. by destruct op; try discriminate Hcb.
Qed.

Lemma resolve_tree_exprs f l : forallb (ok_instr num_sigs num_funcs) l = true -> forallb tree_instr l = true ->
  mapM (resolve_expr opts m f) (map tree_expr l) = Some l.
Proof.
  intros Hok%forallb_Forall Ht%forallb_Forall. apply mapM_map_id.
  induction l; inversion Hok; inversion Ht; constructor; auto using resolve_tree_expr.
Qed.

Lemma resolve_tree_init l : ok_init l = true -> resolve_init opts m (map tree_expr l) = Some l.
Proof.
  unfold resolve_init. destruct l as [|[] [|]]; try done; cbn [ok_init map tree_expr].
  - intros [->%bool_decide_eq_true_1 Hu]%andb_true_iff. cbn. by rewrite u32_to_int by by apply ok_u32_in.
  - intros Hc. cbn. by rewrite Hc.
Qed.

Hypothesis Hnames : bm_names bm = None.
Hypothesis Hdebug : write_debug_names opts = false.
Hypothesis Helems : tree_segments bm = true.
(** Runs of locals as the writer makes them. *)
Hypothesis Hlocals : Forall (fun f => resolve_locals (expand_locals (bf_locals f)) = Some (bf_locals f)) (bm_codes bm).

Lemma resolve_limits_read l : ok_limits l = true -> resolve_limits (read_limits l) = read_limits l.
Proof.
  unfold ok_limits. rewrite !andb_true_iff. intros [[H1%ok_u32_in H2%ok_u32_in] _].
  unfold resolve_limits, read_limits. cbn. rewrite (wrap_id 32 (lim_initial l)) by done. f_equal.
  apply wrap_id. destruct (lim_has_max l); [done|ulia].
Qed.

Lemma ok_memory_limits l : ok_memory l = true -> ok_limits l = true.
Proof. unfold ok_memory. rewrite !andb_true_iff. tauto. Qed.

Lemma resolve_tree_decl i : ok_u32 i = true -> resolve_decl m (tree_decl bm i) = Some i.
Proof. intros Hi. change (resolve_index (Some (to_int i)) = Some i). by apply resolve_index_ok. Qed.

Lemma resolve_tree_import i : ok_import num_sigs i = true -> tree_name (bi_module i) = true ->
  tree_name (bi_field i) = true -> resolve_import m (import_of i) = Some (norm_import i).
Proof.
  intros Hok Hm Hf. unfold resolve_import, import_of, norm_import. cbn [import_module_name import_field_name import_desc].
  rewrite !tree_name_bytes by done. unfold ok_import in Hok.
  destruct (bi_desc i); cbn [tree_import_desc resolve_import_desc norm_import_desc func_decl tree_func].
  - apply andb_true_iff in Hok as [Hu _]. by rewrite resolve_tree_decl.
  - cbn. by rewrite resolve_limits_read.
  - cbn. by rewrite resolve_limits_read by by apply ok_memory_limits.
  - done.
Qed.

Lemma Forall_wf {A} (P : A -> Prop) (f : A -> bool) l : forallb f l = true -> (forall x, f x = true -> P x) -> Forall P l.
Proof. intros Hf HP. eapply Forall_impl; [by apply forallb_Forall|done]. Qed.

(** Two lists zipped, one of them wanted. *)
Lemma mapM_zip_l {A B C} (f : A -> B -> C) (g : C -> option A) l k : length l = length k ->
  (forall x y, x ∈ l -> g (f x y) = Some x) -> mapM g (zip_with f l k) = Some l.
Proof.
  revert k. induction l as [|x l IH]; intros [|y k]; try done. intros [= El] H. cbn [zip_with mapM].
  rewrite H by by left. cbn [mbind option_bind]. rewrite IH; [done|done|]. intros. apply H. by right.
Qed.

Lemma mapM_zip_r {A B C} (f : A -> B -> C) (g : C -> option B) l k : length l = length k ->
  (forall x y, y ∈ k -> g (f x y) = Some y) -> mapM g (zip_with f l k) = Some k.
Proof.
  revert k. induction l as [|x l IH]; intros [|y k]; try done. intros [= El] H. cbn [zip_with mapM].
  rewrite H by by left. cbn [mbind option_bind]. rewrite IH; [done|done|]. intros. apply H. by right.
Qed.

Lemma resolve_tree_export e : ok_u32 (be_index e) && (be_index e <? num_of_kind (be_kind e) bm) = true ->
  tree_name (be_name e) = true ->
  resolve_export opts m (mkExport (tree_string (be_name e)) (be_kind e) (VAR_INDEX (be_index e))) = Some e.
Proof.
  intros [Hu%ok_u32_in Hn%Z.ltb_lt]%andb_true_iff Hname. unfold in_u in Hu. unfold resolve_export, export_index.
  cbn [export_name export_kind export_var]. rewrite tree_name_bytes by done.
  pose proof (num_of_kind_small (be_kind e)).
  assert (resolve_checked opts (Some (to_int (be_index e))) (Z.to_nat (num_of_kind (be_kind e) bm)) = Some (be_index e)) as E
    by (apply resolve_checked_ok; lia).
  assert (forall (n : nat), Z.of_nat n = num_of_kind (be_kind e) bm -> Z.to_nat (num_of_kind (be_kind e) bm) = n) as Hz
    by (intros; lia).
  destruct e as [name kind i]. cbn [be_name be_kind be_index] in *. destruct kind; cbn [fst snd];
    [rewrite (Hz _ (proj2 view_funcs)) in E|rewrite (Hz _ (proj2 view_tables)) in E|
     rewrite (Hz _ (proj2 view_memories)) in E|rewrite (Hz _ (proj2 view_globals)) in E];
    unfold wasm_get_func_index_by_var, wasm_get_table_index_by_var, wasm_get_memory_index_by_var,
      wasm_get_global_index_by_var; cbn [wasm_get_index_from_var]; by rewrite E.
Qed.

Lemma resolve_tree_start : resolve_start m = Some (bm_start bm).
Proof.
  unfold resolve_start. rewrite view_start.
  assert (match bm_start bm with None => true | Some f => ok_u32 f && (f <? num_funcs) end = true) as Hs
    by (pose proof Hwf as H; unfold well_formed in H; rewrite !andb_true_iff in H; apply H).
  destruct (bm_start bm) as [f|]; [|done]. apply andb_true_iff in Hs as [Hu%ok_u32_in Hn%Z.ltb_lt]. unfold in_u in Hu.
  pose proof (num_of_kind_small WASM_EXTERNAL_KIND_FUNC). cbn. rewrite to_int_small by lia.
  rewrite (proj2 (Z.eqb_neq _ _)) by lia. by rewrite wrap_id by (unfold in_u; lia).
Qed.

Lemma resolve_tree_elem s : ok_elem s && forallb (fun i => i <? num_funcs) (bes_funcs s) = true ->
  resolve_elem opts m (mkElemSegment (VAR_INDEX (bes_table s)) (map tree_expr (bes_offset s)) (map VAR_INDEX (bes_funcs s)))
  = Some s.
Proof.
  unfold ok_elem. rewrite !andb_true_iff. intros (((Ht & Hi) & Hf) & Hn). unfold resolve_elem.
  cbn [elem_table_var elem_offset elem_vars]. unfold wasm_get_table_index_by_var. cbn [wasm_get_index_from_var].
  rewrite resolve_index_ok by done. cbn [mbind option_bind]. rewrite resolve_tree_init by done. cbn [mbind option_bind].
  rewrite mapM_map_id; [by destruct s|].
  apply forallb_Forall in Hf, Hn. induction (bes_funcs s); inversion Hf; inversion Hn; constructor; [|by auto].
  apply resolve_func_ok; [done|lia].
Qed.

Lemma resolve_tree_data s : ok_data s = true ->
  resolve_data opts m (mkDataSegment (VAR_INDEX (bd_memory s)) (map tree_expr (bd_offset s)) (bd_data s)) = Some s.
Proof.
  unfold ok_data. rewrite andb_true_iff. intros [Ht Hi]. unfold resolve_data.
  cbn [data_memory_var data_offset data_data]. unfold wasm_get_memory_index_by_var. cbn [wasm_get_index_from_var].
  rewrite resolve_index_ok by done. cbn [mbind option_bind]. rewrite resolve_tree_init by done. by destruct s.
Qed.

Lemma resolve_tree_code sig f : ok_code num_sigs num_funcs f = true -> forallb tree_instr (bf_body f) = true ->
  resolve_locals (expand_locals (bf_locals f)) = Some (bf_locals f) ->
  resolve_code opts m (own_func sig f) = Some f.
Proof.
  intros [_ Hok]%andb_true_iff Ht Hl. unfold resolve_code, own_func. cbn [func_local_types func_first_expr tree_func].
  rewrite Hl. cbn [mbind option_bind]. rewrite resolve_tree_exprs by done. by destruct f.
Qed.

(** The views that the writer walks over, each with the counterpart of its
    elements. *)
Lemma mapM_Forall {A B} (f : B -> option A) (g : A -> B) (ok : A -> bool) l : forallb ok l = true ->
  (forall x, ok x = true -> f (g x) = Some x) -> mapM f (map g l) = Some l.
Proof. intros Hl H. apply mapM_map_id. by eapply Forall_wf. Qed.

Lemma tree_parts : Forall (fun i => tree_name (bi_module i) = true /\ tree_name (bi_field i) = true) (bm_imports bm) /\
  Forall (fun e => tree_name (be_name e) = true) (bm_exports bm) /\
  Forall (fun f => forallb tree_instr (bf_body f) = true) (bm_codes bm).
Proof.
  pose proof Htree as H. unfold tree_module in H. rewrite !andb_true_iff in H. destruct H as [[H1 H2] H3].
  split_and!; (eapply Forall_wf; [eassumption|done]) || idtac.
  eapply Forall_wf; [exact H1|]. intros x. by rewrite andb_true_iff.
Qed.

Ltac wf_part := let H := fresh in pose proof Hwf as H; unfold well_formed in H; rewrite !andb_true_iff in H; apply H.

Lemma resolve_tree_imports : mapM (resolve_import m) (module_imports m) = Some (map norm_import (bm_imports bm)).
Proof.
  rewrite view_imports. apply mapM_map. destruct tree_parts as (H & _ & _).
  assert (Forall (fun i => ok_import num_sigs i = true) (bm_imports bm)) as Hw by (eapply Forall_wf; [wf_part|done]).
  eapply Forall_impl; [exact (proj2 (Forall_and _ _) (conj H Hw))|]. intros x [[? ?] ?]. by apply resolve_tree_import.
Qed.

Lemma resolve_tree_decls : mapM (fun f => resolve_decl m (func_decl f)) own_funcs = Some (bm_funcs bm).
Proof.
  apply mapM_zip_l; [by rewrite codes_length|]. intros sig f Hsig. apply resolve_tree_decl.
  assert (Forall (fun i => ok_u32 i && (i <? num_sigs) = true) (bm_funcs bm)) as Hw by (eapply Forall_wf; [wf_part|done]).
  rewrite Forall_forall in Hw. by apply Hw, andb_true_iff in Hsig as [? _].
Qed.

Lemma resolve_tree_codes : mapM (resolve_code opts m) own_funcs = Some (bm_codes bm).
Proof.
  apply mapM_zip_r; [by rewrite codes_length|]. intros sig f Hf. destruct tree_parts as (_ & _ & Ht).
  assert (Forall (fun f => ok_code num_sigs num_funcs f = true) (bm_codes bm)) as Hw by (eapply Forall_wf; [wf_part|done]).
  pose proof Hlocals as Hl. rewrite !Forall_forall in Hw, Ht, Hl. apply resolve_tree_code; auto.
Qed.

Lemma resolve_tree_globals : mapM (resolve_global opts m) (map own_global (bm_globals bm)) = Some (bm_globals bm).
Proof.
  eapply mapM_Forall; [wf_part|]. intros g [_ Hi]%andb_true_iff. unfold resolve_global, own_global.
  cbn [global_init_expr global_type global_mutable]. rewrite resolve_tree_init by done. by destruct g.
Qed.

Lemma resolve_tree_exports : mapM (resolve_export opts m) (module_exports m) = Some (bm_exports bm).
Proof.
  rewrite view_exports. apply mapM_map_id. destruct tree_parts as (_ & Hn & _).
  assert (Forall (fun e => ok_u32 (be_index e) && (be_index e <? num_of_kind (be_kind e) bm) = true) (bm_exports bm)) as Hw
    by (eapply Forall_wf; [wf_part|done]).
  eapply Forall_impl; [exact (proj2 (Forall_and _ _) (conj Hw Hn))|]. intros x [? ?]. by apply resolve_tree_export.
Qed.

Lemma resolve_tree_elems : mapM (resolve_elem opts m) (module_elem_segments m) = Some (bm_elems bm).
Proof.
  rewrite view_elems. apply mapM_map_id. pose proof Helems as He%forallb_Forall.
  assert (Forall (fun s => ok_elem s = true) (bm_elems bm)) as Hw by (eapply Forall_wf; [wf_part|done]).
  eapply Forall_impl; [exact (proj2 (Forall_and _ _) (conj Hw He))|]. intros x [? ?]. apply resolve_tree_elem.
  by apply andb_true_iff.
Qed.

Lemma resolve_tree_datas : mapM (resolve_data opts m) (module_data_segments m) = Some (bm_datas bm).
Proof. rewrite view_datas. eapply mapM_Forall; [wf_part|]. apply resolve_tree_data. Qed.

Lemma resolve_tree : resolve opts m = Some (norm bm).
Proof.
  unfold resolve. rewrite resolve_tree_imports, (proj1 view_funcs), (proj1 view_globals). cbn [mbind option_bind].
  rewrite resolve_tree_decls, resolve_tree_globals, resolve_tree_exports. cbn [mbind option_bind].
  rewrite resolve_tree_start, resolve_tree_elems, resolve_tree_codes, resolve_tree_datas, Hdebug. cbn [mbind option_bind].
  unfold norm. rewrite Hnames, view_func_types, (proj1 view_tables), (proj1 view_memories), !map_map, map_id. do 2 f_equal.
  - apply map_ext_in. intros l Hl%list_elem_of_In. cbn [table_elem_limits]. apply resolve_limits_read.
    assert (Forall (fun l => ok_limits l = true) (bm_tables bm)) as Hw by (eapply Forall_wf; [wf_part|done]).
    rewrite Forall_forall in Hw. by apply Hw.
  - apply map_ext_in. intros l Hl%list_elem_of_In. cbn [memory_page_limits]. apply resolve_limits_read, ok_memory_limits.
    assert (Forall (fun l => ok_memory l = true) (bm_memories bm)) as Hw by (eapply Forall_wf; [wf_part|done]).
    rewrite Forall_forall in Hw. by apply Hw.
Qed.
End again.

(** The runs the writer makes of the locals spell out the locals. *)
Lemma expand_type_runs types : forall t n, expand_locals (type_runs t (Z.of_nat n) types) = replicate n t ++ types.
Proof.
  induction types as [|u types IH]; intros t n; cbn [type_runs].
  - unfold expand_locals. cbn [map concat fst snd]. by rewrite Nat2Z.id, !app_nil_r.
  - destruct (decide (t = u)) as [->|_].
    + replace (Z.of_nat n + 1) with (Z.of_nat (S n)) by lia. rewrite IH, replicate_S_end, <- app_assoc. done.
    + change (replicate (Z.to_nat (Z.of_nat n)) t ++ expand_locals (type_runs u (Z.of_nat 1) types) =
        replicate n t ++ u :: types). by rewrite IH, Nat2Z.id.
Qed.

Lemma expand_resolve_locals types runs : resolve_locals types = Some runs -> expand_locals runs = types.
Proof.
  unfold resolve_locals. destruct (_ && _); [|done]. intros [= <-]. destruct types as [|t types]; [done|].
  apply (expand_type_runs types t 1).
Qed.

Lemma resolve_codes_locals opts module fs codes : mapM (resolve_code opts module) fs = Some codes ->
  Forall (fun f => resolve_locals (expand_locals (bf_locals f)) = Some (bf_locals f)) codes.
Proof.
  intros E%mapM_Some. induction E as [|f y fs ys Ey _ IH]; constructor; [|done].
  unfold resolve_code in Ey. apply bind_Some in Ey as (runs & Er & (body & _ & ->)%fmap_Some). cbn [bf_locals].
  by rewrite (expand_resolve_locals _ _ Er).
Qed.

Lemma resolve_code_locals opts module bm : resolve opts module = Some bm ->
  Forall (fun f => resolve_locals (expand_locals (bf_locals f)) = Some (bf_locals f)) (bm_codes bm).
Proof.
  unfold resolve. intros H. repeat (apply bind_Some in H as (? & ? & H)). injection H as <-.
  by eapply resolve_codes_locals.
Qed.

Lemma resolve_no_names opts module bm : resolve opts module = Some bm -> write_debug_names opts = false ->
  bm_names bm = None.
Proof.
  unfold resolve. intros H Hd. rewrite Hd in H. repeat (apply bind_Some in H as (? & ? & H)). injection H as <-.
  cbn [bm_names]. by simplify_eq.
Qed.

(** Writing a tree that resolves to a binary module. *)
Lemma write_to_memory opts module bm : resolve opts module = Some bm ->
  zlen (encode (canonicalize_lebs opts) bm) < 2 ^ 32 ->
  exists w w', wasm_init_mem_writer = Some w /\ wasm_write_binary_module w module opts = Some (WASM_OK, w') /\
    buf_bytes w' = Some (encode (canonicalize_lebs opts) bm).
Proof.
  intros Hbm Hl. destruct mem_rep_init as (w & Ew & Hw).
  destruct (write_binary_module_ok opts (fun _ => mem_writer_moves) module w bm Hw Hbm Hl) as (w' & E & Hw').
  exists w, w'. split_and!; [done|done|by apply mem_rep_bytes].
Qed.

(** C6 - From a tree to bytes to a tree to the same bytes.  Take any module of
    the syntax tree that stands for a well-formed binary module, written without
    debug names.  [wasm_read_binary_ast] accepts the bytes and builds the tree
    that the binary module calls for: fields in the order of the sections, every
    name, signature, limit, local and instruction in its place, blocks nested as
    they were.  The store it leaves is consistent: the vectors of the module are
    the fields of their kind in order, the numbers of imports count them, the
    start is the start field, and no list of expressions was freed on the way.
    Writing that tree gives the same bytes again. *)
Theorem ast_roundtrip (uninit_ptr : nat -> option nat) (uninit_entry : nat -> WasmBindingHashEntry)
    (opts : WasmWriteBinaryOptions) (module : WasmModule) (bm : BModule) (debug : bool) :
  resolve opts module = Some bm -> write_debug_names opts = false ->
  well_formed bm = true -> tree_module bm = true -> tree_segments bm = true ->
  zlen (tree_fields bm) < 2 ^ 31 -> zlen (encode (canonicalize_lebs opts) bm) < 2 ^ 32 ->
  exists w w' data s w'', wasm_init_mem_writer = Some w /\
    wasm_write_binary_module w module opts = Some (WASM_OK, w') /\ buf_bytes w' = Some data /\
    wasm_read_binary_ast uninit_ptr uninit_entry debug data = Some (WASM_OK, s, []) /\
    store_module s = tree bm /\
    (forall k, vec_list (store_vectors s k) = Some <$> positions (selects k) 0 (store_fields s)) /\
    (forall kind, store_num_imports s kind = zlen (List.filter (is_import kind) (store_fields s))) /\
    store_start s = last (positions is_start 0 (store_fields s)) /\
    wasm_write_binary_module w (store_module s) opts = Some (WASM_OK, w'') /\ buf_bytes w'' = Some data.
Proof.
  intros Hbm Hdebug Hwf Htree Hsegs Hsize Hl. pose proof (resolve_no_names _ _ _ Hbm Hdebug) as Hn.
  destruct (write_to_memory opts module bm Hbm Hl) as (w & w' & Ew & E & Hb).
  destruct (read_binary_ast_encode uninit_ptr uninit_entry bm Hwf Htree ltac:(zpow; lia) (canonicalize_lebs opts)
    debug Hn Hl) as (s & Es & Hs & Hv & Hi & Hst).
  pose proof (resolve_tree opts bm Hwf Htree Hsize Hn Hdebug Hsegs (resolve_code_locals _ _ _ Hbm)) as Ht.
  rewrite <- encode_norm in Hl by done.
  destruct (write_to_memory opts (tree bm) (norm bm) Ht Hl) as (w1 & w'' & Ew1 & E1 & Hb1).
  rewrite encode_norm in Hb1 by done. exists w, w', (encode (canonicalize_lebs opts) bm), s, w''.
  rewrite Ew in Ew1. injection Ew1 as <-. by rewrite Hs.
Qed.

Definition no_entry : WasmBindingHashEntry := mkEntry (mkBinding None 0) None None.

Lemma ast_roundtrip_witness : exists w w' data s w'', wasm_init_mem_writer = Some w /\
    wasm_write_binary_module w sample_module (mkWriteOptions true false false) = Some (WASM_OK, w') /\
    buf_bytes w' = Some data /\
    wasm_read_binary_ast (fun _ => None) (fun _ => no_entry) true data = Some (WASM_OK, s, []) /\
    wasm_write_binary_module w (store_module s) (mkWriteOptions true false false) = Some (WASM_OK, w'') /\
    buf_bytes w'' = Some data.
Proof.
  set (opts := mkWriteOptions true false false).
  set (bm := default (mkBModule [] [] [] [] [] [] [] None [] [] [] None) (resolve opts sample_module)).
  destruct (ast_roundtrip (fun _ => None) (fun _ => no_entry) opts sample_module bm true)
    as (w & w' & data & s & w'' & E1 & E2 & E3 & E4 & _ & _ & _ & _ & E5 & E6);
    [vm_compute; reflexivity..|].
  exists w, w', data, s, w''. split_and!; assumption.
Defined.

(** ** Inputs on which the reader of trees goes wrong *)

(** A module with the type [[] -> []] and more sections, and one with a function
    of the given body besides. *)
Definition with_sections (s : list Z) : list Z := [0; 97; 115; 109; 13; 0; 0; 0; 1; 4; 1; 96; 0; 0] ++ s.
Definition with_function (body : list Z) : list Z :=
  with_sections ([3; 2; 1; 0; 10; zlen body + 2; 1; zlen body] ++ body).
(** The bodies of the functions of the module read. *)
Definition bodies (s : ModuleStore) : list (list WasmExpr) :=
  omap (fun f => match f with FIELD_FUNC x => Some (func_first_expr x) | _ => None end) (store_fields s).

(** A module that imports a function from the module of the given name. *)
Definition with_import (name : list Z) : list Z :=
  with_sections ([2; zlen name + 6; 1; zlen name] ++ name ++ [1; 102; 0; 0]).

(** Four inputs that the reader of syntax trees accepts or follows into
    undefined behaviour although it should report them; a module that differs
    in one byte is read without harm.  An [end] too many empties the label
    stack, after which a block that could not be appended is still entered, so
    the next instruction is put into freed memory.  A block without its [end]
    is accepted, and the expressions of the module that is returned have been
    freed with the label stack.  An alignment of 2^31 or more is computed by a
    shift that overflows [int].  A NUL inside the name of an import makes a
    slice that is longer than its allocation. *)
Theorem ast_reader_faults (uninit_ptr : nat -> option nat) (uninit_entry : nat -> WasmBindingHashEntry) :
  let read data := (fun '(result, s, freed) => (result, bodies s, freed)) <$>
    wasm_read_binary_ast uninit_ptr uninit_entry false data in
  (read (with_function [0; 11; 2; 64; 1; 11]) = None /\
   read (with_function [0; 2; 64; 1; 11; 11]) = Some (WASM_OK, [[EXPR_BLOCK None [] [EXPR_NOP]]], [])) /\
  read (with_function [0; 2; 64; 1; 11]) = Some (WASM_OK, [[EXPR_BLOCK None [] [EXPR_NOP]]], [mkExprList 1 []]) /\
  (read (with_function [0; 65; 0; 40; 31; 0; 26; 11]) = None /\
   read (with_function [0; 65; 0; 40; 30; 0; 26; 11]) = Some (WASM_OK, [[EXPR_CONST (mkConst WASM_TYPE_I32 0);
     EXPR_LOAD WASM_OPCODE_I32_LOAD (2 ^ 30) 0; EXPR_DROP]], [])) /\
  (read (with_import [0; 97]) = None /\ read (with_import [97; 0]) = Some (WASM_OK, [], [])).
Proof. intros read. split_and!; vm_compute; reflexivity. Qed.
