(* ===== verification/ResolveFacts.v ===== *)
(** * What the resolution of names does

    [ref_module] says what resolving a module means: every name is replaced by
    the index it is bound to, and there is no result when a name is bound twice
    or not at all.  [wasm_resolve_names_module] computes it. *)

From stdpp Require Import gmap.
From S2P Require Import Prelude Opcode Vector BindingHash Ast StateOpt Visitor ResolveNames.

(** ** The bindings of a table *)

Definition bindings_of (h : WasmBindingHash) : list (string * Z) := entry_pairs (vec_data (entries h)).

(** A table built by insertions of indices. *)
Definition hash_wf (h : WasmBindingHash) : Prop :=
  hash_binds h (bindings_of h) /\ Forall (fun p => 0 <= snd p) (bindings_of h).

Definition unique (h : WasmBindingHash) : bool := bool_decide (NoDup (bindings_of h).*1).

Definition bound (h : WasmBindingHash) (name : string) : option Z :=
  (list_to_map (bindings_of h) : gmap string Z) !! name.

Lemma hash_binds_bindings h l : hash_binds h l -> l ≡ₚ bindings_of h.
Proof.
  unfold bindings_of. intros [(-> & _ & ->)|(_ & c & B & n & (? & ? & ? & ? & ? & Hs & _) & Hocc)]; [done|].
  by rewrite (shape_entry_pairs _ _ _ _ _ _ Hs).
Qed.

Lemma hash_wf_empty : hash_wf empty_hash.
Proof. split; [by left|constructor]. Qed.

Lemma hash_wf_insert uninit h name index : hash_wf h -> 0 <= index -> Z.of_nat (length (bindings_of h)) < 2 ^ 47 ->
  exists h', insert_binding_index uninit h (Some name) index = Some h' /\ hash_wf h' /\
    bindings_of h' ≡ₚ (name, index) :: bindings_of h.
Proof.
  intros [Hb Hp] Hi Hl. destruct (hash_binds_insert uninit h _ name index Hb Hl) as (h' & E & Hb').
  pose proof (hash_binds_bindings _ _ Hb') as Ep. exists h'. split_and!; [done| |done]. split; [by rewrite <- Ep|].
  rewrite <- Ep. by constructor.
Qed.

Lemma hash_wf_find h name : hash_wf h -> unique h = true ->
  wasm_find_binding_index_by_name h (Some name) = Some (default (-1) (bound h name)).
Proof.
  intros [Hb Hp] Hu%bool_decide_eq_true_1. destruct (hash_binds_find h _ name Hb) as (r & -> & Hr). f_equal.
  unfold bound. destruct Hr as [Hr|[-> Hn]].
  - by rewrite (elem_of_list_to_map_1 _ _ _ Hu Hr).
  - by rewrite not_elem_of_list_to_map_1.
Qed.

Lemma bound_nonneg h name x : hash_wf h -> bound h name = Some x -> 0 <= x.
Proof.
  unfold bound. intros [_ Hp] Hx%elem_of_list_to_map_2. rewrite Forall_forall in Hp. by apply (Hp _ Hx).
Qed.

(** ** The reference, over a way to look up a name *)

Section ref.
Context (look : WasmBindingHash -> string -> option Z) (m : WasmModule).

Definition ref_var (h : WasmBindingHash) (var : WasmVar) : option WasmVar :=
  match var with
  | VAR_INDEX _ => Some var
  | VAR_NAME name => VAR_INDEX <$> look h name
  end.

(** The nearest enclosing block of the name, counting from 0. *)
Definition ref_label (ls : list WasmLabel) (var : WasmVar) : option WasmVar :=
  match var with
  | VAR_INDEX _ => Some var
  | VAR_NAME name => (fun p => VAR_INDEX (Z.of_nat p.1)) <$> list_find (fun l : WasmStringSlice => l = Some name) ls
  end.

(** Parameters come before locals, and hide them. *)
Definition ref_local (f : option WasmFunc) (var : WasmVar) : option WasmVar :=
  match var with
  | VAR_INDEX _ => Some var
  | VAR_NAME name =>
      f ← f;
      match look (func_param_bindings f) name with
      | Some i => Some (VAR_INDEX i)
      | None => (fun i => VAR_INDEX (wasm_get_num_params f + i)) <$> look (func_local_bindings f) name
      end
  end.

Fixpoint ref_expr (f : option WasmFunc) (e : WasmExpr) (ls : list WasmLabel) : option WasmExpr :=
  match e with
  | EXPR_BLOCK l s es => EXPR_BLOCK l s <$> mapM (fun e => ref_expr f e (l :: ls)) es
  | EXPR_LOOP l s es => EXPR_LOOP l s <$> mapM (fun e => ref_expr f e (l :: ls)) es
  | EXPR_IF l s ts fs =>
      ts ← mapM (fun e => ref_expr f e (l :: ls)) ts;
      EXPR_IF l s ts <$> mapM (fun e => ref_expr f e (l :: ls)) fs
  | EXPR_BR v => EXPR_BR <$> ref_label ls v
  | EXPR_BR_IF v => EXPR_BR_IF <$> ref_label ls v
  | EXPR_BR_TABLE ts d => ts ← mapM (ref_label ls) ts; EXPR_BR_TABLE ts <$> ref_label ls d
  | EXPR_CALL v => EXPR_CALL <$> ref_var (func_bindings m) v
  | EXPR_CALL_INDIRECT v => EXPR_CALL_INDIRECT <$> ref_var (func_type_bindings m) v
  | EXPR_GET_GLOBAL v => EXPR_GET_GLOBAL <$> ref_var (global_bindings m) v
  | EXPR_SET_GLOBAL v => EXPR_SET_GLOBAL <$> ref_var (global_bindings m) v
  | EXPR_GET_LOCAL v => EXPR_GET_LOCAL <$> ref_local f v
  | EXPR_SET_LOCAL v => EXPR_SET_LOCAL <$> ref_local f v
  | EXPR_TEE_LOCAL v => EXPR_TEE_LOCAL <$> ref_local f v
  | _ => Some e
  end.

Definition ref_exprs (f : option WasmFunc) (es : list WasmExpr) : option (list WasmExpr) :=
  mapM (fun e => ref_expr f e []) es.

Definition check (b : bool) : option () := if b then Some () else None.

Definition ref_decl (d : WasmFuncDeclaration) : option WasmFuncDeclaration :=
  if wasm_decl_has_func_type d
  then (fun v => mkFuncDeclaration (decl_flags d) v (decl_sig d)) <$> ref_var (func_type_bindings m) (decl_type_var d)
  else Some d.

Definition ref_func (f : WasmFunc) : option WasmFunc :=
  d ← ref_decl (func_decl f);
  _ ← check (unique (func_param_bindings f));
  _ ← check (unique (func_local_bindings f));
  mkFunc (func_name f) d (func_local_types f) (func_param_bindings f) (func_local_bindings f) <$>
    ref_exprs (Some f) (func_first_expr f).

Definition ref_global (g : WasmGlobal) : option WasmGlobal :=
  mkGlobal (global_name g) (global_type g) (global_mutable g) <$> ref_exprs None (global_init_expr g).

Definition kind_bindings (kind : WasmExternalKind) : WasmBindingHash :=
  match kind with
  | WASM_EXTERNAL_KIND_FUNC => func_bindings m
  | WASM_EXTERNAL_KIND_TABLE => table_bindings m
  | WASM_EXTERNAL_KIND_MEMORY => memory_bindings m
  | WASM_EXTERNAL_KIND_GLOBAL => global_bindings m
  end.

(** One pass over the fields; only the last start field counts. *)
Definition ref_field (last_start : bool) (f : WasmModuleField) : option WasmModuleField :=
  match f with
  | FIELD_FUNC x => FIELD_FUNC <$> ref_func x
  | FIELD_IMPORT (mkImport a b (IMPORT_FUNC x)) => (fun x => FIELD_IMPORT (mkImport a b (IMPORT_FUNC x))) <$> ref_func x
  | FIELD_GLOBAL x => FIELD_GLOBAL <$> ref_global x
  | FIELD_IMPORT (mkImport a b (IMPORT_GLOBAL x)) => (fun x => FIELD_IMPORT (mkImport a b (IMPORT_GLOBAL x))) <$> ref_global x
  | FIELD_EXPORT x => (fun v => FIELD_EXPORT (mkExport (export_name x) (export_kind x) v)) <$>
      ref_var (kind_bindings (export_kind x)) (export_var x)
  | FIELD_ELEM_SEGMENT x =>
      t ← ref_var (table_bindings m) (elem_table_var x);
      o ← ref_exprs None (elem_offset x);
      (fun vs => FIELD_ELEM_SEGMENT (mkElemSegment t o vs)) <$> mapM (ref_var (func_bindings m)) (elem_vars x)
  | FIELD_DATA_SEGMENT x =>
      t ← ref_var (memory_bindings m) (data_memory_var x);
      (fun o => FIELD_DATA_SEGMENT (mkDataSegment t o (data_data x))) <$> ref_exprs None (data_offset x)
  | FIELD_START v => if last_start then FIELD_START <$> ref_var (func_bindings m) v else Some f
  | _ => Some f
  end.

Fixpoint ref_fields (fs : list WasmModuleField) : option (list WasmModuleField) :=
  match fs with
  | [] => Some []
  | f :: fs => f ← ref_field (negb (existsb is_start fs)) f; fs ← ref_fields fs; Some (f :: fs)
  end.

Definition ref_module : option WasmModule :=
  _ ← check (forallb unique [func_bindings m; global_bindings m; export_bindings m; func_type_bindings m;
                             table_bindings m; memory_bindings m]);
  with_fields m <$> ref_fields (module_fields m).
End ref.

(** ** The passes against the reference *)

(** The lookup as the code does it. *)
Definition code_look (h : WasmBindingHash) (name : string) : option Z :=
  r ← wasm_find_binding_index_by_name h (Some name);
  if r =? -1 then None else Some r.

Lemma code_look_unique h name : hash_wf h -> unique h = true -> code_look h name = bound h name.
Proof.
  intros Hh Hu. unfold code_look. rewrite hash_wf_find by done. cbn [mbind option_bind].
  destruct (bound h name) as [x|] eqn:E; [|done]. cbn [default from_option id].
  apply (bound_nonneg _ _ _ Hh) in E. by rewrite (proj2 (Z.eqb_neq _ _)) by lia.
Qed.

Lemma hash_wf_look h name : hash_wf h ->
  wasm_find_binding_index_by_name h (Some name) = Some (default (-1) (code_look h name)) /\
  (forall x, code_look h name = Some x -> 0 <= x).
Proof.
  intros [Hb Hp]. unfold code_look. destruct (hash_binds_find h _ name Hb) as (r & -> & Hr). cbn [mbind option_bind].
  destruct (Z.eqb_spec r (-1)) as [->|Hne]; [done|]. split; [done|]. intros x [= ->].
  destruct Hr as [Hr|[? _]]; [|done]. rewrite Forall_forall in Hp. by apply (Hp _ Hr).
Qed.

Section resolves.
Context (m : WasmModule).

Definition state (fo : option WasmFunc) (ls : list WasmLabel) (r : WasmResult) : Context := mkContext (Some m) fo ls r.

(** [comp] computes [ref], handing it over as [i] does, and reports an error
    exactly when there is none; an error stays reported.  The labels in scope
    go from [ls] to [ls']. *)
Definition resolves2 {A B} (fo : option WasmFunc) (ls ls' : list WasmLabel) (i : B -> A) (comp : RM A) (ref : option B) : Prop :=
  forall r, exists b r', comp (state fo ls r) = Some (i b, state fo ls' r') /\
    match ref with Some b' => b = b' /\ r' = r | None => r' = WASM_ERROR end.

Definition resolves {A B} (fo : option WasmFunc) (ls : list WasmLabel) (i : B -> A) (comp : RM A) (ref : option B) : Prop :=
  resolves2 fo ls ls i comp ref.

Lemma resolves_ret {A B} fo ls (i : B -> A) b : resolves fo ls i (so_ret (i b)) (Some b).
Proof. intros r. by exists b, r. Qed.

Lemma resolves2_bind {A B A' B'} fo ls ls' ls'' (i : B -> A) (j : B' -> A') comp ref k kref :
  resolves2 fo ls ls' i comp ref -> (forall b, resolves2 fo ls' ls'' j (k (i b)) (kref b)) ->
  resolves2 fo ls ls'' j (so_bind comp k) (ref ≫= kref).
Proof.
  intros H Hk r. destruct (H r) as (b & r1 & E & Hb). destruct (Hk b r1) as (b' & r2 & E' & Hb').
  exists b', r2. unfold so_bind. rewrite E, E'. split; [done|]. destruct ref as [b0|]; cbn [mbind option_bind].
  - destruct Hb as [-> ->]. done.
  - subst r1. destruct (kref b); [naive_solver|done].
Qed.

Lemma resolves_bind {A B A' B'} fo ls (i : B -> A) (j : B' -> A') comp ref k kref :
  resolves fo ls i comp ref -> (forall b, resolves fo ls j (k (i b)) (kref b)) ->
  resolves fo ls j (so_bind comp k) (ref ≫= kref).
Proof. apply resolves2_bind. Qed.

Lemma resolves2_bind_map {A B A' B'} fo ls ls' ls'' (i : B -> A) (j : B' -> A') comp ref k (f : B -> B') :
  resolves2 fo ls ls' i comp ref -> (forall b, resolves2 fo ls' ls'' j (k (i b)) (Some (f b))) ->
  resolves2 fo ls ls'' j (so_bind comp k) (f <$> ref).
Proof.
  intros H Hk. assert (f <$> ref = ref ≫= (fun b => Some (f b))) as -> by by destruct ref.
  by eapply resolves2_bind.
Qed.

(** The same when the result is only wrapped. *)
Lemma resolves_map {A B A' B'} fo ls (i : B -> A) (j : B' -> A') comp ref k (f : B -> B') :
  resolves fo ls i comp ref -> (forall b, k (i b) = so_ret (j (f b))) ->
  resolves fo ls j (so_bind comp k) (f <$> ref).
Proof.
  intros H Hk. assert (f <$> ref = ref ≫= (fun b => Some (f b))) as -> by by destruct ref.
  eapply resolves_bind; [done|]. intros b. rewrite Hk. apply resolves_ret.
Qed.

Lemma resolves_eq {A B} fo ls (i : B -> A) comp comp' ref ref' :
  (forall s, comp s = comp' s) -> ref = ref' -> resolves fo ls i comp' ref' -> resolves fo ls i comp ref.
Proof. intros E -> H r. rewrite E. apply H. Qed.

Lemma resolves_so_map {A} fo ls (f : A -> RM A) (g : A -> option A) l :
  Forall (fun x => resolves fo ls id (f x) (g x)) l -> resolves fo ls id (so_map f l) (mapM g l).
Proof.
  induction 1 as [|x l Hx _ IH]; cbn [so_map mapM]; [apply (resolves_ret fo ls id)|].
  eapply (resolves_bind fo ls id id); [exact Hx|]. intros y.
  eapply (resolves_bind fo ls id id); [exact IH|]. intros ys. apply (resolves_ret fo ls id).
Qed.

Lemma resolves_visit_loop fo ls visit (g : WasmExpr -> option WasmExpr) l :
  Forall (fun x => resolves fo ls (pair WASM_OK) (visit x) (g x)) l ->
  resolves fo ls (pair WASM_OK) (visit_loop visit l) (mapM g l).
Proof.
  induction 1 as [|x l Hx _ IH]; cbn [visit_loop mapM]; [apply (resolves_ret fo ls (pair WASM_OK))|].
  eapply (resolves_bind fo ls (pair WASM_OK)); [exact Hx|]. intros y.
  eapply (resolves_bind fo ls (pair WASM_OK)); [exact IH|]. intros ys. apply (resolves_ret fo ls (pair WASM_OK)).
Qed.

(** A loop that only reports. *)
Definition tests (fo : option WasmFunc) (ls : list WasmLabel) (comp : RM unit) (P : Prop) : Prop :=
  forall r, exists r', comp (state fo ls r) = Some (tt, state fo ls r') /\
    ((r' = r /\ P) \/ (r' = WASM_ERROR /\ ~ P)).

Lemma tests_ret fo ls (P : Prop) : P -> tests fo ls (so_ret tt) P.
Proof. intros HP r. exists r. naive_solver. Qed.

Lemma tests_and fo ls comp comp' P Q :
  tests fo ls comp P -> tests fo ls comp' Q -> tests fo ls (so_bind comp (fun _ => comp')) (P /\ Q).
Proof.
  intros H H' r. destruct (H r) as (r1 & E & H1). destruct (H' r1) as (r2 & E' & H2). exists r2.
  unfold so_bind. rewrite E, E'. naive_solver.
Qed.

Lemma tests_iff fo ls comp P Q : (P <-> Q) -> tests fo ls comp P -> tests fo ls comp Q.
Proof. intros HPQ H r. destruct (H r) as (r' & E & Hr). exists r'. split; [done|]. naive_solver. Qed.

Lemma tests_if fo ls (b : bool) : tests fo ls (if b then print_error else so_ret tt) (b = false).
Proof. intros r. destruct b; eexists; (split; [reflexivity|]); [by right|by left]. Qed.

Lemma tests_resolves fo ls comp b : tests fo ls comp (b = true) -> resolves fo ls id comp (check b).
Proof.
  intros H r. destruct (H r) as (r' & E & Hr). exists tt, r'. split; [exact E|].
  destruct b; cbn [check]; destruct Hr as [[-> ?]|[-> Hn]]; by try destruct (Hn eq_refl).
Qed.

Lemma tests_fori {A} fo ls (f : nat -> A -> RM unit) (P : nat -> Prop) l k :
  (forall i x, l !! i = Some x -> tests fo ls (f (k + i)%nat x) (P (k + i)%nat)) ->
  tests fo ls (so_fori f k l) (forall i, (i < length l)%nat -> P (k + i)%nat).
Proof.
  revert k. induction l as [|x l IH]; intros k H; cbn [so_fori length].
  - apply tests_ret. intros. lia.
  - pose proof (H 0%nat x eq_refl) as Hx. rewrite Nat.add_0_r in Hx.
    eapply tests_iff; [|apply tests_and; [exact Hx|apply (IH (S k))]].
    + split.
      * intros [H0 HS] [|i] Hi; [by rewrite Nat.add_0_r|]. replace (k + S i)%nat with (S k + i)%nat by lia. apply HS. lia.
      * intros HP. split; [specialize (HP 0%nat); rewrite Nat.add_0_r in HP; apply HP; lia|]. intros i Hi. replace (S k + i)%nat with (k + S i)%nat by lia. apply HP. lia.
    + intros i y Hy. replace (S k + i)%nat with (k + S i)%nat by lia. by apply H.
Qed.

(** ** Duplicates *)

Section duplicates.
Context (h : WasmBindingHash) (c : nat) (fh : option nat) (X P : nat -> option nat) (B : nat -> WasmBinding)
  (fl : list nat) (ch : nat -> list nat).
Hypothesis Hs : shape h c fh X P B.
Hypothesis Hinv : inv c fh X P B fl ch.

Definition name_of (i : nat) : option string := binding_name (B i).

Definition named (l : list nat) : Prop := seg X l /\ forall i, i ∈ l -> (i < c)%nat /\ name_of i <> None.

Lemma named_tail i l : named (i :: l) -> named l /\ (i < c)%nat /\ X i = head l /\ exists s, name_of i = Some s.
Proof.
  intros [[HX Hl] Hn]. destruct (Hn i) as [Hi Hb]; [by left|]. split_and!; [|done|done|].
  - split; [done|]. intros j Hj. apply Hn. by right.
  - destruct (name_of i); [eauto|done].
Qed.

Lemma check_duplicates_of_checks fo ls s l : named l -> forall fuel, (length l <= fuel)%nat ->
  tests fo ls (check_duplicates_of fuel h (Some s) (head l)) (Some s ∉ map name_of l).
Proof.
  induction l as [|i l IH]; intros Hl fuel Hf; cbn [head].
  - destruct fuel; (apply tests_ret; intros H; by apply elem_of_nil in H).
  - destruct fuel as [|fuel]; [cbn in Hf; lia|]. cbn [check_duplicates_of].
    destruct (named_tail i l Hl) as (Hl' & Hi & HX & s' & Hs'). rewrite (shape_entry _ _ _ _ _ _ _ Hs) by done.
    rewrite so_bind_lift. cbn [entry_binding entry_next]. rewrite HX. fold (name_of i). cbn in Hf.
    eapply (tests_iff fo ls); [|apply (tests_and fo ls); [apply tests_if|apply IH; [done|lia]]].
    cbn [map]. rewrite Hs'. cbn [wasm_string_slices_are_equal]. rewrite not_elem_of_cons, String.eqb_neq. naive_solver.
Qed.

Lemma check_chain_checks fo ls l : named l -> forall fuel, (length l <= fuel)%nat ->
  tests fo ls (check_chain fuel h (head l)) (NoDup (map name_of l)).
Proof.
  induction l as [|i l IH]; intros Hl fuel Hf; cbn [head].
  - destruct fuel; (apply tests_ret; constructor).
  - destruct fuel as [|fuel]; [cbn in Hf; lia|]. cbn [check_chain].
    destruct (named_tail i l Hl) as (Hl' & Hi & HX & s & Hi'). rewrite (shape_entry _ _ _ _ _ _ _ Hs) by done.
    rewrite so_bind_lift. cbn [entry_binding entry_next map]. rewrite HX. fold (name_of i). rewrite Hi'. cbn in Hf.
    eapply (tests_iff fo ls); [|apply (tests_and fo ls);
      [apply check_duplicates_of_checks; [done|lia]|apply IH; [done|lia]]].
    by rewrite NoDup_cons.
Qed.

Lemma NoDup_map_inj {A C} (f : A -> C) l x y : NoDup (map f l) -> x ∈ l -> y ∈ l -> f x = f y -> x = y.
Proof.
  induction l as [|z l IH]; cbn [map]; [by intros _ ?%elem_of_nil|]. rewrite NoDup_cons. intros [Hz Hnd] Hx Hy E.
  apply elem_of_cons in Hx as [->|Hx]; apply elem_of_cons in Hy as [->|Hy]; [done|..|by apply IH];
    destruct Hz; apply list_elem_of_fmap; eauto.
Qed.

Lemma NoDup_omap_iff {A C} (f : A -> option C) l : NoDup l ->
  NoDup (omap f l) <-> (forall x y z, x ∈ l -> y ∈ l -> f x = Some z -> f y = Some z -> x = y).
Proof.
  induction 1 as [|x l Hx Hnd IH]; cbn [omap list_omap]; [split; [by intros _ ? ? ? ?%elem_of_nil|constructor]|].
  destruct (f x) as [z|] eqn:Ez.
  - rewrite NoDup_cons, IH, list_elem_of_omap. split.
    + intros [Hz Hl] u v w [->|Hu]%elem_of_cons [->|Hv]%elem_of_cons Eu Ev; [done|..|by eapply Hl].
      * destruct Hz. exists v. split; [done|congruence].
      * destruct Hz. exists u. split; [done|congruence].
    + intros Hl. split; [|intros u v w Hu Hv; apply Hl; by right]. intros (y & Hy & Ey).
      rewrite (Hl x y z) in Hx; [done|by left|by right|done|done].
  - rewrite IH. split.
    + intros Hl u v w [->|Hu]%elem_of_cons [->|Hv]%elem_of_cons; [congruence..|by apply Hl].
    + intros Hl u v w Hu Hv. apply Hl; by right.
Qed.

(** What the loop checks of entry [i]. *)
Definition suffix_ok (i : nat) : Prop :=
  forall s l0 l, name_of i = Some s -> ch (main c (Some s)) = l0 ++ i :: l -> NoDup (map name_of (i :: l)).

Lemma chain_named k : named (ch k).
Proof.
  split; [apply (inv_seg _ _ _ _ _ _ _ Hinv)|]. intros i Hi. by apply (inv_chain_named Hinv) in Hi.
Qed.

Lemma in_chain i s : (i < c)%nat -> name_of i = Some s -> i ∈ ch (main c (Some s)).
Proof. intros Hi E. unfold name_of in E. rewrite <- E. apply (inv_claimed Hinv); [done|by rewrite E]. Qed.

Lemma suffix_ok_unique : (forall i, (i < c)%nat -> suffix_ok i) <-> NoDup (occ c B).*1.
Proof.
  assert ((occ c B).*1 = omap name_of (seq 0 c)) as ->.
  { unfold occ, name_of. induction (seq 0 c) as [|i l IH]; [done|]. cbn [omap list_omap].
    destruct (binding_name (B i)); cbn [mbind option_bind fmap list_fmap]; by rewrite <- IH. }
  rewrite NoDup_omap_iff by apply NoDup_seq. split.
  - intros H i j s Hi%elem_of_seq Hj%elem_of_seq Ei Ej.
    assert (i ∈ ch (main c (Some s)) /\ j ∈ ch (main c (Some s))) as [Ii Ij] by (split; apply in_chain; done || lia).
    set (k := main c (Some s)) in *. destruct (inv_chain_cons Hinv k i Ii) as [l El].
    assert (k ∈ ch k) as Hk by (rewrite El; by left).
    pose proof (proj1 (inv_mem _ _ _ _ _ _ _ Hinv k k) Hk) as (Hkc & Hkn & Hmain).
    destruct (binding_name (B k)) as [s'|] eqn:Es'; [|done].
    assert (NoDup (map name_of (ch k))) as Hnd.
    { rewrite El. apply (H k Hkc s' [] l); [exact Es'|]. by rewrite Hmain, El. }
    apply (NoDup_map_inj name_of (ch k)); [done..|congruence].
  - intros H i Hi s l0 l Es Ech. pose proof (inv_chnodup _ _ _ _ _ _ _ Hinv (main c (Some s))) as Hnd.
    rewrite Ech in Hnd. apply NoDup_app in Hnd as (_ & _ & Hnd).
    apply (NoDup_fmap_2_strong name_of); [|done]. intros x y Hx Hy E.
    assert (forall z, z ∈ i :: l -> (z < c)%nat /\ name_of z <> None) as Hz.
    { intros z Hz. destruct (chain_named (main c (Some s))) as [_ Hn]. apply Hn. rewrite Ech. apply elem_of_app. by right. }
    destruct (Hz x Hx) as [? Hnx]. destruct (Hz y Hy) as [? Hny]. destruct (name_of x) as [sx|] eqn:Ex; [|done].
    apply (H x y sx); [apply elem_of_seq; lia..|done|done].
Qed.

Lemma check_duplicates_checks fo ls : tests fo ls (check_duplicate_bindings h) (NoDup (occ c B).*1).
Proof.
  unfold check_duplicate_bindings. pose proof Hs as (Hcap & _ & He).
  eapply (tests_iff fo ls); [|apply (tests_fori fo ls _ suffix_ok (vec_data (entries h)) 0)].
  - rewrite <- suffix_ok_unique. unfold hash_capacity in Hcap. rewrite Hcap. cbn [Nat.add]. done.
  - intros i x Hx. cbn [Nat.add]. assert (i < c)%nat as Hi
      by (unfold hash_capacity in Hcap; apply lookup_lt_Some in Hx; lia).
    pose proof (He i Hi) as E. unfold entry_at in E. rewrite Hx in E. injection E as ->.
    rewrite wasm_hash_entry_is_free_spec. case_bool_decide as Hn.
    + apply tests_ret. intros s l0 l Es. unfold name_of in Es. congruence.
    + cbn [entry_prev]. rewrite (inv_prev _ _ _ _ _ _ _ Hinv i Hi Hn).
      destruct (binding_name (B i)) as [s|] eqn:Es; [|done]. pose proof (in_chain i s Hi Es) as Hch.
      apply list_elem_of_split in Hch as (l0 & l & Ech). destruct (chain_named (main c (Some s))) as [Hseg Hnm].
      rewrite Ech in Hseg, Hnm. apply seg_app in Hseg as [Hseg _].
      assert (named (i :: l)) as Hl by (split; [done|]; intros j Hj; apply Hnm, elem_of_app; by right).
      eapply (tests_iff fo ls); [|apply (check_chain_checks fo ls (i :: l) Hl)].
      * split; [|intros H; by eapply H]. intros Hnd s' l0' l' Es' Ech'. unfold name_of in Es'.
        assert (s' = s) as -> by congruence. rewrite Ech in Ech'.
        pose proof (inv_chnodup _ _ _ _ _ _ _ Hinv (main c (Some s))) as Hndc. rewrite Ech in Hndc.
        assert (l' = l) as ->; [|done]. clear - Ech' Hndc. revert l0' Ech'.
        induction l0 as [|a l0 IH]; intros [|b l0'] E; cbn [app] in E; simplify_eq; [done|..].
        -- apply NoDup_cons in Hndc as [Hi _]. destruct Hi. apply elem_of_app. right. by left.
        -- apply NoDup_cons in Hndc as [Hi _]. destruct Hi. apply elem_of_app. right. by left.
        -- apply NoDup_cons in Hndc as [_ Hndc]. by eapply IH.
      * rewrite Hcap. apply entries_length; [|intros j Hj; apply Hnm, elem_of_app; by right].
        pose proof (inv_chnodup _ _ _ _ _ _ _ Hinv (main c (Some s))) as Hndc. rewrite Ech in Hndc.
        by apply NoDup_app in Hndc as (_ & _ & ?).
Qed.
End duplicates.

Lemma check_duplicate_bindings_resolves fo ls h : hash_wf h ->
  resolves fo ls id (check_duplicate_bindings h) (check (unique h)).
Proof.
  intros [Hb _]. apply tests_resolves. destruct Hb as [(Hd & _ & _)|(_ & c & B & n & (? & X & P & fl & ch & Hs & Hinv & _) & _)].
  - unfold check_duplicate_bindings, unique, bindings_of. rewrite Hd. apply tests_ret.
    apply bool_decide_eq_true. constructor.
  - eapply tests_iff; [|by eapply check_duplicates_checks]. unfold unique. rewrite bool_decide_eq_true.
    unfold bindings_of. by rewrite (shape_entry_pairs _ _ _ _ _ _ Hs).
Qed.

(** ** Variables and expressions *)

Abbreviation ref_var' := (ref_var code_look).
Abbreviation ref_local' := (ref_local code_look).
Abbreviation ref_expr' := (ref_expr code_look m).

Lemma ref_label_find ls s d : find_label ls d s = (fun p => d + Z.of_nat p.1) <$> list_find (fun l : WasmStringSlice => l = Some s) ls.
Proof.
  revert d. induction ls as [|l ls IH]; intros d; cbn [find_label list_find]; [done|].
  rewrite slices_equal_spec. case_bool_decide as E; (case_decide; [|]); try done.
  - cbn. f_equal. lia.
  - rewrite IH. destruct (list_find (fun l : WasmStringSlice => l = Some s) ls) as [[k x]|]; [|done]. cbn. f_equal. lia.
Qed.

Lemma resolve_label_resolves fo ls v : resolves fo ls id (resolve_label_var v) (ref_label ls v).
Proof.
  destruct v as [i|s]; cbn [resolve_label_var ref_label]; [apply (resolves_ret fo ls id)|]. intros r.
  unfold so_bind, so_get. cbn [labels state]. rewrite ref_label_find. cbn beta iota.
  destruct (list_find (fun l : WasmStringSlice => l = Some s) ls) as [[k x]|]; cbn; eauto.
Qed.

Lemma resolve_var_resolves fo ls h v : hash_wf h -> resolves fo ls id (resolve_var h v) (ref_var' h v).
Proof.
  intros Hh. destruct v as [i|s]; cbn [resolve_var ref_var]; [apply (resolves_ret fo ls id)|]. intros r.
  cbn [wasm_get_index_from_var]. destruct (hash_wf_look h s Hh) as [-> Hx]. rewrite so_bind_lift.
  destruct (code_look h s) as [x|]; cbn [default from_option id fmap option_fmap option_map].
  - specialize (Hx x eq_refl). rewrite (proj2 (Z.eqb_neq _ _)) by lia. by exists (VAR_INDEX x), r.
  - cbn. eauto.
Qed.

Hypothesis Hm : Forall hash_wf [func_bindings m; global_bindings m; export_bindings m; func_type_bindings m;
                                table_bindings m; memory_bindings m].

Lemma module_hashes : (hash_wf (func_bindings m) /\ hash_wf (global_bindings m) /\ hash_wf (export_bindings m)) /\
  (hash_wf (func_type_bindings m) /\ hash_wf (table_bindings m) /\ hash_wf (memory_bindings m)).
Proof. rewrite !Forall_cons in Hm. tauto. Qed.

Ltac wf_hash := apply module_hashes.

Lemma resolve_module_var_resolves fo ls bs v : hash_wf (bs m) ->
  resolves fo ls id (resolve_module_var bs v) (ref_var' (bs m) v).
Proof. intros Hh r. apply (resolve_var_resolves fo ls _ v Hh r). Qed.

Definition func_wf (f : WasmFunc) : Prop := hash_wf (func_param_bindings f) /\ hash_wf (func_local_bindings f).

Lemma local_look f s : func_wf f ->
  wasm_get_local_index_by_var f (VAR_NAME s) = Some (match ref_local' (Some f) (VAR_NAME s) with Some (VAR_INDEX i) => i | _ => -1 end) /\
  (forall v, ref_local' (Some f) (VAR_NAME s) = Some v -> exists i, v = VAR_INDEX i /\ 0 <= i).
Proof.
  intros [Hp Hl]. cbn [wasm_get_local_index_by_var ref_local mbind option_bind].
  destruct (hash_wf_look _ s Hp) as [-> Hx]. destruct (hash_wf_look _ s Hl) as [-> Hy]. cbn [mbind option_bind].
  destruct (code_look (func_param_bindings f) s) as [x|]; cbn [default from_option id].
  - specialize (Hx x eq_refl). rewrite (proj2 (Z.eqb_neq _ _)) by lia. cbn [negb]. naive_solver.
  - cbn [Z.eqb negb]. destruct (code_look (func_local_bindings f) s) as [y|]; cbn [default from_option id]; [|done].
    specialize (Hy y eq_refl). rewrite (proj2 (Z.eqb_neq _ _)) by lia. cbn. split; [done|]. intros v [= <-].
    eexists. split; [done|]. unfold wasm_get_num_params. lia.
Qed.

(** Outside functions a local has no name. *)
Definition local_ok (fo : option WasmFunc) (v : WasmVar) : Prop :=
  match v, fo with VAR_NAME _, None => False | _, _ => True end.

Lemma resolve_local_resolves fo ls v : (forall f, fo = Some f -> func_wf f) -> local_ok fo v ->
  resolves fo ls id (resolve_local_var v) (ref_local' fo v).
Proof.
  intros Hf Hv. destruct v as [i|s]; [apply (resolves_ret fo ls id)|]. destruct fo as [f|]; [|done]. intros r.
  destruct (local_look f s (Hf f eq_refl)) as [E Hi]. cbn [resolve_local_var]. unfold so_bind at 1, so_get.
  cbn [current_func state]. rewrite so_bind_lift, E, so_bind_lift.
  destruct (ref_local' (Some f) (VAR_NAME s)) as [v|].
  - destruct (Hi v eq_refl) as (i & -> & Hi'). rewrite (proj2 (Z.eqb_neq _ _)) by lia. by exists (VAR_INDEX i), r.
  - cbn. eauto.
Qed.

(** No named local outside functions, through the lists of an expression. *)
Fixpoint locals_ok (fo : option WasmFunc) (e : WasmExpr) : Prop :=
  match e with
  | EXPR_GET_LOCAL v | EXPR_SET_LOCAL v | EXPR_TEE_LOCAL v => local_ok fo v
  | EXPR_BLOCK _ _ es | EXPR_LOOP _ _ es => foldr (fun e P => locals_ok fo e /\ P) True es
  | EXPR_IF _ _ ts fs =>
      foldr (fun e P => locals_ok fo e /\ P) True ts /\ foldr (fun e P => locals_ok fo e /\ P) True fs
  | _ => True
  end.

Lemma locals_ok_list fo es : foldr (fun e P => locals_ok fo e /\ P) True es <-> Forall (locals_ok fo) es.
Proof. induction es as [|e es IH]; cbn [foldr]; [by split; [constructor|]|]. by rewrite Forall_cons, IH. Qed.

Lemma visit_ret fo ls (f : WasmVar -> WasmExpr) comp ref : resolves fo ls id comp ref ->
  resolves fo ls (pair WASM_OK) (so_bind comp (fun v => so_ret (WASM_OK, f v))) (f <$> ref).
Proof. intros H. eapply (resolves_map fo ls id (pair WASM_OK)); [exact H|done]. Qed.

Lemma begin_block_resolves fo ls label e :
  begin_block e = so_bind (push_label label) (fun _ => so_ret (WASM_OK, e)) ->
  resolves2 fo ls (label :: ls) (fun _ : () => (WASM_OK, e)) (begin_block e) (Some ()).
Proof. intros -> r. by exists (), r. Qed.

Lemma end_block_resolves fo label ls e : resolves2 fo (label :: ls) ls (pair WASM_OK) (end_block e) (Some e).
Proof. intros r. by exists e, r. Qed.

(** Entering a block. *)
Lemma enter_resolves fo ls label e k (ref : option WasmExpr) :
  begin_block e = so_bind (push_label label) (fun _ => so_ret (WASM_OK, e)) ->
  resolves2 fo (label :: ls) ls (pair WASM_OK) (k (WASM_OK, e)) ref ->
  resolves fo ls (pair WASM_OK) (so_bind (begin_block e) k) ref.
Proof.
  intros Hb H. apply (resolves2_bind fo ls (label :: ls) ls (fun _ : () => (WASM_OK, e)) (pair WASM_OK) _ (Some ()) _
    (fun _ => ref)); [by apply begin_block_resolves|done].
Qed.

Lemma CALLBACK_none {S B} (v : WasmExprVisitor S) member e (k : WasmResult * WasmExpr -> SO S B) : v member = None ->
  so_bind (CALLBACK v member e) k = k (WASM_OK, e).
Proof. unfold CALLBACK. by intros ->. Qed.

Lemma visit_resolves fo : (forall f, fo = Some f -> func_wf f) -> forall e, locals_ok fo e -> forall ls,
  resolves fo ls (pair WASM_OK) (visit_expr visitor e) (ref_expr' fo e ls).
Proof.
  intros Hfo. assert (forall ls es, Forall (fun e => locals_ok fo e -> forall ls,
      resolves fo ls (pair WASM_OK) (visit_expr visitor e) (ref_expr' fo e ls)) es ->
    foldr (fun e P => locals_ok fo e /\ P) True es ->
    resolves fo ls (pair WASM_OK) (visit_loop (visit_expr visitor) es) (mapM (fun e => ref_expr' fo e ls) es)) as Hlist.
  { intros ls es H Hok%locals_ok_list. apply resolves_visit_loop. induction H; inversion Hok; constructor; auto. }
  apply (WasmExpr_nested_ind (fun e => locals_ok fo e -> forall ls,
    resolves fo ls (pair WASM_OK) (visit_expr visitor e) (ref_expr' fo e ls))).
  - intros l s es H Hok ls. apply (enter_resolves fo ls l); [done|]. cbn [check_result WASM_FAILED].
    apply (resolves2_bind_map fo (l :: ls) (l :: ls) ls (pair WASM_OK)); [by apply Hlist|]. intros es'.
    apply (end_block_resolves fo l ls (EXPR_BLOCK l s es')).
  - intros l s es H Hok ls. apply (enter_resolves fo ls l); [done|]. cbn [check_result WASM_FAILED].
    apply (resolves2_bind_map fo (l :: ls) (l :: ls) ls (pair WASM_OK)); [by apply Hlist|]. intros es'.
    apply (end_block_resolves fo l ls (EXPR_LOOP l s es')).
  - intros l s ts fs Ht Hf [Hokt Hokf] ls. apply (enter_resolves fo ls l); [done|]. cbn [check_result WASM_FAILED].
    apply (resolves2_bind fo (l :: ls) (l :: ls) ls (pair WASM_OK)); [by apply Hlist|]. intros ts'.
    cbn [check_result WASM_FAILED with_body]. rewrite CALLBACK_none by done. cbn [check_result WASM_FAILED].
    apply (resolves2_bind_map fo (l :: ls) (l :: ls) ls (pair WASM_OK)); [by apply Hlist|]. intros fs'.
    apply (end_block_resolves fo l ls (EXPR_IF l s ts' fs')).
  - pose proof resolve_label_resolves as Hlab. pose proof resolve_module_var_resolves as Hvar.
    intros []; try done; intros Hok ls; try apply (resolves_ret fo ls (pair WASM_OK));
      try (apply visit_ret; first [apply Hlab|apply Hvar; wf_hash|by apply resolve_local_resolves]).
    apply (resolves_bind fo ls id (pair WASM_OK)); [apply resolves_so_map, Forall_true; intros; apply Hlab|]. intros ts.
    apply visit_ret, Hlab.
Qed.

Lemma visit_list_resolves fo ls es : (forall f, fo = Some f -> func_wf f) -> Forall (locals_ok fo) es ->
  resolves fo ls (pair WASM_OK) (wasm_visit_expr_list visitor es) (mapM (fun e => ref_expr' fo e ls) es).
Proof.
  intros Hfo Hes. apply resolves_visit_loop. eapply Forall_impl; [exact Hes|]. intros e He. by apply visit_resolves.
Qed.

(** ** Functions and fields *)

Lemma locals_ok_func f : forall e, locals_ok (Some f) e.
Proof.
  assert (forall es, Forall (locals_ok (Some f)) es -> foldr (fun e P => locals_ok (Some f) e /\ P) True es) as Hl
    by (intros es; by rewrite locals_ok_list).
  apply WasmExpr_nested_ind; cbn [locals_ok]; auto. intros []; try done; match goal with v : WasmVar |- _ => by destruct v end.
Qed.

(** A function is current while its parts are visited. *)
Lemma in_func_resolves {A B} f ls (i : B -> A) comp ref :
  resolves (Some f) ls i comp ref ->
  resolves None ls i (so_bind (set_current_func (Some f)) (fun _ =>
    so_bind comp (fun x => so_bind (set_current_func None) (fun _ => so_ret x)))) ref.
Proof.
  intros H r. destruct (H r) as (b & r' & E & Hr). exists b, r'. split; [|done].
  unfold so_bind, set_current_func, so_modify, state in *. cbn. by rewrite E.
Qed.

(** The part of [visit_func] with the function current. *)
Definition func_parts (func : WasmFunc) : RM WasmFunc :=
  so_bind (if wasm_decl_has_func_type (func_decl func) then
             so_bind (resolve_func_type_var (decl_type_var (func_decl func))) (fun type_var =>
             so_ret (mkFuncDeclaration (decl_flags (func_decl func)) type_var (decl_sig (func_decl func))))
           else so_ret (func_decl func)) (fun decl =>
  so_bind (check_duplicate_bindings (func_param_bindings func)) (fun _ =>
  so_bind (check_duplicate_bindings (func_local_bindings func)) (fun _ =>
  so_bind (wasm_visit_func visitor (mkFunc (func_name func) decl (func_local_types func)
             (func_param_bindings func) (func_local_bindings func) (func_first_expr func))) (fun p => so_ret p.2)))).

Lemma func_parts_resolves ls f : func_wf f -> ls = [] -> resolves (Some f) ls id (func_parts f) (ref_func code_look m f).
Proof.
  intros Hf ->. unfold func_parts, ref_func. eapply (resolves_bind (Some f) [] id id).
  { unfold ref_decl. destruct (wasm_decl_has_func_type (func_decl f)).
    - eapply (resolves_map (Some f) [] id id); [apply resolve_module_var_resolves; wf_hash|done].
    - apply (resolves_ret (Some f) [] id). }
  intros d. eapply (resolves_bind (Some f) [] id id); [apply check_duplicate_bindings_resolves, Hf|]. intros [].
  eapply (resolves_bind (Some f) [] id id); [apply check_duplicate_bindings_resolves, Hf|]. intros [].
  unfold wasm_visit_func. cbn [func_first_expr func_name func_decl func_local_types func_param_bindings func_local_bindings].
  eapply (resolves_eq (Some f) [] id); [intros st; apply so_bind_assoc|reflexivity|].
  eapply (resolves_map (Some f) [] (pair WASM_OK) id); [|done].
  apply visit_list_resolves; [by intros ? [= <-]|]. apply Forall_true, locals_ok_func.
Qed.

Lemma visit_func_resolves f : func_wf f -> resolves None [] id (visit_func f) (ref_func code_look m f).
Proof.
  intros Hf. eapply (resolves_eq None [] id); [|reflexivity|apply in_func_resolves, (func_parts_resolves [] f Hf eq_refl)].
  intros st. unfold visit_func, func_parts, so_bind, so_ret. cbn [set_current_func so_modify].
  destruct (wasm_decl_has_func_type _); [destruct (resolve_func_type_var _ _) as [[tv st2]|]; [|done]|];
    (destruct (check_duplicate_bindings _ _) as [[[] st3]|]; [|done]);
    (destruct (check_duplicate_bindings _ st3) as [[[] st4]|]; [|done]);
    by destruct (wasm_visit_func visitor _ st4) as [[[] st5]|].
Qed.

Definition exprs_ok (es : list WasmExpr) : Prop := Forall (locals_ok None) es.

Lemma visit_init_resolves {A} es (f : list WasmExpr -> A) : exprs_ok es ->
  resolves None [] id (so_bind (wasm_visit_expr_list visitor es) (fun p => let (_, es) := p in so_ret (f es)))
    (f <$> ref_exprs code_look m None es).
Proof. intros He. eapply (resolves_map None [] (pair WASM_OK) id); [by apply visit_list_resolves|done]. Qed.

Lemma visit_global_resolves g : exprs_ok (global_init_expr g) ->
  resolves None [] id (visit_global g) (ref_global code_look m g).
Proof. apply (visit_init_resolves _ (mkGlobal (global_name g) (global_type g) (global_mutable g))). Qed.

Lemma resolve_var_resolves' bs v : hash_wf (bs m) -> resolves None [] id (resolve_module_var bs v) (ref_var' (bs m) v).
Proof. apply resolve_module_var_resolves. Qed.

Lemma visit_export_resolves e : resolves None [] id (visit_export e)
  (mkExport (export_name e) (export_kind e) <$> ref_var' (kind_bindings m (export_kind e)) (export_var e)).
Proof.
  eapply (resolves_map None [] id id); [|done].
  destruct (export_kind e); apply resolve_var_resolves'; wf_hash.
Qed.

Lemma visit_elem_resolves s : exprs_ok (elem_offset s) -> resolves None [] id (visit_elem_segment s)
  (t ← ref_var' (table_bindings m) (elem_table_var s); o ← ref_exprs code_look m None (elem_offset s);
   mkElemSegment t o <$> mapM (ref_var' (func_bindings m)) (elem_vars s)).
Proof.
  intros Ho. eapply (resolves_bind None [] id id); [apply resolve_var_resolves'; wf_hash|]. intros t.
  eapply (resolves_bind None [] (pair WASM_OK) id); [by apply visit_list_resolves|]. intros o.
  eapply (resolves_map None [] id id); [|done]. apply resolves_so_map, Forall_true. intros. apply resolve_var_resolves'; wf_hash.
Qed.

Lemma visit_data_resolves s : exprs_ok (data_offset s) -> resolves None [] id (visit_data_segment s)
  (t ← ref_var' (memory_bindings m) (data_memory_var s);
   (fun o => mkDataSegment t o (data_data s)) <$> ref_exprs code_look m None (data_offset s)).
Proof.
  intros Ho. eapply (resolves_bind None [] id id); [apply resolve_var_resolves'; wf_hash|]. intros t.
  by apply (visit_init_resolves _ (fun o => mkDataSegment _ o _)).
Qed.

Lemma wrap_resolves {A} (comp : RM A) ref (f : A -> WasmModuleField) : resolves None [] id comp ref ->
  resolves None [] id (so_bind comp (fun x => so_ret (f x))) (f <$> ref).
Proof. intros H. by eapply (resolves_map None [] id id). Qed.

(** ** The loops over the fields

    Each loop of [visit_module] changes the fields of its own kind. *)

Inductive pass : Set := PASS_FUNC | PASS_EXPORT | PASS_GLOBAL | PASS_ELEM | PASS_DATA.

#[local] Instance pass_eq_dec : EqDecision pass.
Proof. solve_decision. Defined.

Definition pass_of (f : WasmModuleField) : option pass :=
  match f with
  | FIELD_FUNC _ | FIELD_IMPORT (mkImport _ _ (IMPORT_FUNC _)) => Some PASS_FUNC
  | FIELD_EXPORT _ => Some PASS_EXPORT
  | FIELD_GLOBAL _ | FIELD_IMPORT (mkImport _ _ (IMPORT_GLOBAL _)) => Some PASS_GLOBAL
  | FIELD_ELEM_SEGMENT _ => Some PASS_ELEM
  | FIELD_DATA_SEGMENT _ => Some PASS_DATA
  | _ => None
  end.

(** What the bindings of a field are assumed to be, and that its initializers
    name no local. *)
Definition field_wf (f : WasmModuleField) : Prop :=
  match f with
  | FIELD_FUNC x | FIELD_IMPORT (mkImport _ _ (IMPORT_FUNC x)) => func_wf x
  | FIELD_GLOBAL x | FIELD_IMPORT (mkImport _ _ (IMPORT_GLOBAL x)) => exprs_ok (global_init_expr x)
  | FIELD_ELEM_SEGMENT x => exprs_ok (elem_offset x)
  | FIELD_DATA_SEGMENT x => exprs_ok (data_offset x)
  | _ => True
  end.

Definition visit_pass (p : pass) : WasmModuleField -> RM WasmModuleField :=
  match p with
  | PASS_FUNC => visit_func_field
  | PASS_EXPORT => visit_export_field
  | PASS_GLOBAL => visit_global_field
  | PASS_ELEM => visit_elem_segment_field
  | PASS_DATA => visit_data_segment_field
  end.

Definition ref_pass (p : pass) (f : WasmModuleField) : option WasmModuleField :=
  if decide (pass_of f = Some p) then ref_field code_look m false f else Some f.

Lemma option_fmap_bind2 {A B C} (f : B -> C) (o : option A) (k : A -> option B) :
  f <$> (x ← o; k x) = x ← o; f <$> k x.
Proof. by destruct o. Qed.

Lemma visit_pass_resolves p f : (pass_of f = Some p -> field_wf f) ->
  resolves None [] id (visit_pass p f) (ref_pass p f).
Proof.
  unfold ref_pass. intros H. case_decide as E.
  - specialize (H E). destruct p, f as [x|x|[a b []]|x|x|x|x|x|x|x]; try discriminate E; cbn [visit_pass field_wf ref_field] in *.
    + by apply wrap_resolves, visit_func_resolves.
    + apply (wrap_resolves _ _ (fun x => FIELD_IMPORT (mkImport a b (IMPORT_FUNC x)))). by apply visit_func_resolves.
    + pose proof (wrap_resolves _ _ FIELD_EXPORT (visit_export_resolves x)) as Hx. rewrite <- option_fmap_compose in Hx.
      exact Hx.
    + by apply wrap_resolves, visit_global_resolves.
    + apply (wrap_resolves _ _ (fun x => FIELD_IMPORT (mkImport a b (IMPORT_GLOBAL x)))). by apply visit_global_resolves.
    + pose proof (wrap_resolves _ _ FIELD_ELEM_SEGMENT (visit_elem_resolves x H)) as Hx.
      rewrite option_fmap_bind2 in Hx. eapply (resolves_eq None [] id); [done| |exact Hx].
      destruct (ref_var' _ _) as [t|]; [|done]. cbn [mbind option_bind]. rewrite option_fmap_bind2.
      destruct (ref_exprs _ _ _ _) as [o|]; [|done]. cbn [mbind option_bind]. by rewrite <- option_fmap_compose.
    + pose proof (wrap_resolves _ _ FIELD_DATA_SEGMENT (visit_data_resolves x H)) as Hx.
      rewrite option_fmap_bind2 in Hx. eapply (resolves_eq None [] id); [done| |exact Hx].
      destruct (ref_var' _ _) as [t|]; [|done]. cbn [mbind option_bind]. by rewrite <- option_fmap_compose.
  - assert (visit_pass p f = so_ret f) as ->; [|apply (resolves_ret None [] id)].
    destruct p, f as [x|x|[a b []]|x|x|x|x|x|x|x]; try done; by destruct E.
Qed.

(** Fields of other kinds stay, and no field changes its kind. *)
Definition same_but (p : pass) (f f' : WasmModuleField) : Prop :=
  pass_of f' = pass_of f /\ is_start f' = is_start f /\ (pass_of f <> Some p -> f' = f).

Lemma visit_pass_same p f s f' s' : visit_pass p f s = Some (f', s') -> same_but p f f'.
Proof.
  destruct p, f as [x|x|[a b []]|x|x|x|x|x|x|x]; cbn [visit_pass visit_func_field visit_export_field visit_global_field
    visit_elem_segment_field visit_data_segment_field]; unfold so_ret, so_bind;
    repeat (match goal with |- context [match ?c with Some _ => _ | None => _ end] => destruct c as [[? ?]|]; [|done] end);
    intros [= <- <-]; done.
Qed.

Lemma so_map_Forall2 {A B} (R : A -> B -> Prop) (f : A -> RM B) l : (forall x s y s', f x s = Some (y, s') -> R x y) ->
  forall s l' s', so_map f l s = Some (l', s') -> Forall2 R l l'.
Proof.
  intros H. induction l as [|x l IH]; intros s l' s'; cbn [so_map]; unfold so_ret, so_bind.
  - intros [= <- _]. constructor.
  - destruct (f x s) as [[y s1]|] eqn:E; [|done]. destruct (so_map f l s1) as [[ys s2]|] eqn:E2; [|done].
    intros [= <- _]. constructor; eauto.
Qed.

(** What is still to be visited is well formed. *)
Definition pending (ps : list pass) (fs : list WasmModuleField) : Prop :=
  Forall (fun f => forall p, p ∈ ps -> pass_of f = Some p -> field_wf f) fs.

Lemma pending_after p ps fs fs' : p ∉ ps -> pending (p :: ps) fs -> Forall2 (same_but p) fs fs' -> pending ps fs'.
Proof.
  intros Hp H H2. induction H2 as [|f f' fs fs' (Ek & _ & Hf) _ IH]; [constructor|].
  inversion H as [|? ? Hx Hr]; subst. constructor; [|by apply IH]. intros q Hq Eq. rewrite Ek in Eq.
  rewrite Hf by (intros E; congruence). apply (Hx q); [by right|done].
Qed.

Lemma pass_resolves {A B} p ps (i : B -> A) fs k kref : p ∉ ps -> pending (p :: ps) fs ->
  (forall fs', pending ps fs' -> resolves None [] i (k fs') (kref fs')) ->
  resolves None [] i (so_bind (so_map (visit_pass p) fs) k) (mapM (ref_pass p) fs ≫= kref).
Proof.
  intros Hp H Hk r.
  assert (resolves None [] id (so_map (visit_pass p) fs) (mapM (ref_pass p) fs)) as Hpass.
  { apply resolves_so_map. eapply Forall_impl; [exact H|]. intros f Hf. apply visit_pass_resolves, Hf. by left. }
  destruct (Hpass r) as (fs' & r1 & E & Hr).
  assert (pending ps fs') as Hfs'.
  { eapply pending_after; [exact Hp|exact H|]. eapply so_map_Forall2; [apply visit_pass_same|exact E]. }
  destruct (Hk fs' Hfs' r1) as (b & r2 & E' & Hb). exists b, r2. unfold so_bind. rewrite E. unfold id. rewrite E'.
  split; [done|]. destruct (mapM (ref_pass p) fs) as [fs0|]; cbn [mbind option_bind].
  - destruct Hr as [-> ->]. done.
  - subst r1. destruct (kref fs'); [naive_solver|done].
Qed.

(** The start of the module. *)
Fixpoint ref_start (fs : list WasmModuleField) : option (list WasmModuleField) :=
  match fs with
  | [] => Some []
  | f :: fs =>
      if existsb is_start fs then cons f <$> ref_start fs
      else match f with
           | FIELD_START v => (fun v => FIELD_START v :: fs) <$> ref_var' (func_bindings m) v
           | _ => cons f <$> ref_start fs
           end
  end.

Lemma visit_start_resolves fs : resolves None [] id (visit_start fs) (ref_start fs).
Proof.
  induction fs as [|f fs IH]; cbn [visit_start ref_start]; [apply (resolves_ret None [] id)|].
  destruct (existsb is_start fs); [by eapply (resolves_map None [] id id)|].
  destruct f; try by eapply (resolves_map None [] id id).
  eapply (resolves_map None [] id id); [apply resolve_var_resolves'; wf_hash|done].
Qed.

(** ** The module *)

(** [visit_module] while the module is current. *)
Definition module_parts : RM (list WasmModuleField) :=
  so_bind (check_duplicate_bindings (func_bindings m)) (fun _ =>
  so_bind (check_duplicate_bindings (global_bindings m)) (fun _ =>
  so_bind (check_duplicate_bindings (export_bindings m)) (fun _ =>
  so_bind (check_duplicate_bindings (func_type_bindings m)) (fun _ =>
  so_bind (check_duplicate_bindings (table_bindings m)) (fun _ =>
  so_bind (check_duplicate_bindings (memory_bindings m)) (fun _ =>
  so_bind (so_map (visit_pass PASS_FUNC) (module_fields m)) (fun fields =>
  so_bind (so_map (visit_pass PASS_EXPORT) fields) (fun fields =>
  so_bind (so_map (visit_pass PASS_GLOBAL) fields) (fun fields =>
  so_bind (so_map (visit_pass PASS_ELEM) fields) (fun fields =>
  so_bind (so_map (visit_pass PASS_DATA) fields) visit_start)))))))))).

Definition module_unique : bool :=
  forallb unique [func_bindings m; global_bindings m; export_bindings m; func_type_bindings m;
                  table_bindings m; memory_bindings m].

Definition ref_passes : option (list WasmModuleField) :=
  mapM (ref_pass PASS_FUNC) (module_fields m) ≫= fun fs => mapM (ref_pass PASS_EXPORT) fs ≫= fun fs =>
  mapM (ref_pass PASS_GLOBAL) fs ≫= fun fs => mapM (ref_pass PASS_ELEM) fs ≫= fun fs =>
  mapM (ref_pass PASS_DATA) fs ≫= ref_start.

Lemma check_andb {A} b1 b2 (o : option A) : (_ ← check b1; _ ← check b2; o) = _ ← check (b1 && b2); o.
Proof. by destruct b1, b2. Qed.

Lemma module_parts_resolves : Forall field_wf (module_fields m) ->
  resolves None [] id module_parts (_ ← check module_unique; ref_passes).
Proof.
  intros Hf. assert (pending [PASS_FUNC; PASS_EXPORT; PASS_GLOBAL; PASS_ELEM; PASS_DATA] (module_fields m)) as Hp
    by (eapply Forall_impl; [exact Hf|done]).
  unfold module_unique. cbn [forallb]. rewrite andb_true_r. rewrite <- !check_andb.
  unfold module_parts. destruct module_hashes as ((? & ? & ?) & (? & ? & ?)).
  repeat (eapply (resolves_bind None [] id id); [by apply check_duplicate_bindings_resolves|]; intros []).
  unfold ref_passes.
  do 5 (eapply (pass_resolves _ _ id); [|exact Hp|clear Hp; intros ? Hp];
    [by repeat (apply not_elem_of_cons; split; [done|]); apply not_elem_of_nil|]).
  apply visit_start_resolves.
Qed.

(** The loops one after the other are one pass. *)
Lemma mapM_mapM {A B C D} (f : A -> option B) (g : B -> option C) (k : list C -> option D) l :
  (mapM f l ≫= fun l' => mapM g l' ≫= k) = mapM (fun x => f x ≫= g) l ≫= k.
Proof.
  revert k. induction l as [|x l IH]; intros k; cbn [mapM]; [done|].
  destruct (f x) as [y|]; [|done]. cbn [mbind option_bind].
  specialize (IH (fun l' => z ← g y; k (z :: l'))).
  destruct (mapM f l) as [l'|]; cbn [mbind option_bind mret option_ret] in *.
  - cbn [mapM]. destruct (g y) as [z|]; cbn [mbind option_bind] in *.
    + destruct (mapM g l'), (mapM (fun x => f x ≫= g) l); cbn [mbind option_bind mret option_ret] in *; done.
    + done.
  - destruct (g y); [|done]. cbn [mbind option_bind]. destruct (mapM (fun x => f x ≫= g) l); cbn in *; done.
Qed.

Lemma ref_field_same look b f f' : ref_field look m b f = Some f' -> pass_of f' = pass_of f /\ is_start f' = is_start f.
Proof.
  destruct f as [x|x|[a c []]|x|x|x|x|x|x|x]; cbn [ref_field]; intros H; try (by injection H as <-);
    try (by apply fmap_Some in H as (? & _ & ->)).
  - apply bind_Some in H as (? & _ & H). apply bind_Some in H as (? & _ & H). by apply fmap_Some in H as (? & _ & ->).
  - apply bind_Some in H as (? & _ & H). by apply fmap_Some in H as (? & _ & ->).
  - destruct b; [by apply fmap_Some in H as (? & _ & ->)|by injection H as <-].
Qed.

Lemma ref_pass_other p f : pass_of f <> Some p -> ref_pass p f = Some f.
Proof. intros H. unfold ref_pass. by rewrite decide_False. Qed.

Lemma ref_pass_this p f : pass_of f = Some p -> ref_pass p f = ref_field code_look m false f.
Proof. intros H. unfold ref_pass. by rewrite decide_True. Qed.

Lemma ref_passes_field f :
  ((((ref_pass PASS_FUNC f ≫= ref_pass PASS_EXPORT) ≫= ref_pass PASS_GLOBAL) ≫= ref_pass PASS_ELEM) ≫= ref_pass PASS_DATA) =
  ref_field code_look m false f.
Proof.
  destruct (ref_field code_look m false f) as [f'|] eqn:E; destruct (pass_of f) as [q|] eqn:Eq.
  1: pose proof (proj1 (ref_field_same _ _ _ _ E)) as Eq'; rewrite Eq in Eq'.
  1, 3: destruct q; repeat (rewrite ref_pass_other by congruence; cbn [mbind option_bind]);
    rewrite ref_pass_this, E by done; cbn [mbind option_bind];
    repeat (rewrite ref_pass_other by congruence; cbn [mbind option_bind]); done.
  all: repeat (rewrite ref_pass_other by congruence; cbn [mbind option_bind]);
    by destruct f as [x|x|[a b []]|x|x|x|x|x|x|x].
Qed.

Lemma ref_passes_eq : ref_passes = mapM (ref_field code_look m false) (module_fields m) ≫= ref_start.
Proof.
  unfold ref_passes. rewrite !mapM_mapM. f_equal. apply mapM_ext. apply ref_passes_field.
Qed.

Lemma existsb_start fs fs' : mapM (ref_field code_look m false) fs = Some fs' -> existsb is_start fs' = existsb is_start fs.
Proof.
  intros H%mapM_Some. induction H as [|f f' fs fs' E _ IH]; cbn [existsb]; [done|].
  apply ref_field_same in E as [_ ->]. by rewrite IH.
Qed.

Lemma ref_start_none fs : existsb is_start fs = false -> ref_start fs = Some fs.
Proof.
  induction fs as [|f fs IH]; cbn [existsb ref_start]; [done|]. intros [Hf Hfs]%orb_false_iff.
  rewrite Hfs, IH by done. by destruct f.
Qed.

Lemma ref_passes_fields fs : (mapM (ref_field code_look m false) fs ≫= ref_start) = ref_fields code_look m fs.
Proof.
  induction fs as [|f fs IH]; [done|]. cbn [mapM ref_fields]. rewrite <- IH.
  assert (ref_field code_look m (negb (existsb is_start fs)) f =
    ref_field code_look m false f ≫= fun f' => if existsb is_start fs then Some f' else
      match f' with FIELD_START v => FIELD_START <$> ref_var' (func_bindings m) v | _ => Some f' end) as ->.
  { destruct (existsb is_start fs); cbn [negb]; [by destruct (ref_field _ _ _ f)|].
    destruct (is_start f) eqn:Ef; [by destruct f|].
    assert (ref_field code_look m true f = ref_field code_look m false f) as -> by by destruct f.
    destruct (ref_field code_look m false f) as [f'|] eqn:E; [|done]. apply ref_field_same in E as [_ E].
    cbn [mbind option_bind]. rewrite Ef in E. by destruct f'. }
  destruct (ref_field code_look m false f) as [f'|] eqn:Ef; [|done]. cbn [mbind option_bind].
  destruct (mapM _ fs) as [fs'|] eqn:Es; cbn [mbind option_bind mret option_ret].
  - cbn [ref_start]. rewrite (existsb_start _ _ Es). destruct (existsb is_start fs) eqn:Ex.
    + cbn [mbind option_bind]. by destruct (ref_start fs').
    + rewrite ref_start_none by (by rewrite (existsb_start _ _ Es)).
      destruct f'; cbn [mbind option_bind fmap option_fmap option_map]; try done.
      by destruct (ref_var' _ _).
  - destruct (existsb is_start fs); [done|]. destruct f'; try done. by destruct (ref_var' _ _).
Qed.

(** From outside a module, with errors reported so far or not. *)
Definition outside (r : WasmResult) : Context := mkContext None None [] r.

Lemma visit_module_code : Forall field_wf (module_fields m) -> forall r,
  exists m' r', visit_module m (outside r) = Some (m', outside r') /\
    match ref_module code_look m with Some m1 => m' = m1 /\ r' = r | None => r' = WASM_ERROR end.
Proof.
  intros Hf r. destruct (module_parts_resolves Hf r) as (fields & r' & E & Hr).
  exists (with_fields m fields), r'. split.
  - assert (visit_module m (outside r) =
      so_bind (set_current_module (Some m)) (fun _ => so_bind module_parts (fun fields =>
        so_bind (set_current_module None) (fun _ => so_ret (with_fields m fields)))) (outside r)) as ->.
    { unfold visit_module, module_parts. apply so_bind_ext. intros ? ?.
      repeat (rewrite so_bind_assoc; apply so_bind_ext; intros ? ?). done. }
    unfold so_bind at 1 2. cbn [set_current_module so_modify].
    change (mkContext (Some m) _ _ _) with (state None [] r). by rewrite E.
  - unfold ref_module. rewrite ref_passes_eq, ref_passes_fields in Hr.
    change (forallb unique _) with module_unique. destruct module_unique; cbn [check mbind option_bind] in *; [|done].
    destruct (ref_fields code_look m (module_fields m)); cbn; [|done]. by destruct Hr as [-> ->].
Qed.
End resolves.

(** ** The lookups of the reference *)

Section ext.
Context (look look' : WasmBindingHash -> string -> option Z) (m : WasmModule).

Definition agree (h : WasmBindingHash) : Prop := forall s, look h s = look' h s.

Hypothesis Hm : Forall agree [func_bindings m; global_bindings m; func_type_bindings m; table_bindings m; memory_bindings m].
(** Tables with no name bound twice. *)
Hypothesis Hu : forall f, func_wf f -> unique (func_param_bindings f) = true -> agree (func_param_bindings f).
Hypothesis Hl : forall f, func_wf f -> unique (func_local_bindings f) = true -> agree (func_local_bindings f).

Lemma agree_module : (agree (func_bindings m) /\ agree (global_bindings m)) /\
  (agree (func_type_bindings m) /\ agree (table_bindings m) /\ agree (memory_bindings m)).
Proof. rewrite !Forall_cons in Hm. tauto. Qed.

Lemma ref_var_ext h v : agree h -> ref_var look h v = ref_var look' h v.
Proof. intros H. destruct v; cbn [ref_var]; [done|]. by rewrite H. Qed.

Lemma ref_expr_ext fo : (forall f, fo = Some f -> agree (func_param_bindings f) /\ agree (func_local_bindings f)) ->
  forall e ls, ref_expr look m fo e ls = ref_expr look' m fo e ls.
Proof.
  intros Hf. destruct agree_module as [[Hfu Hg] (Hft & _)].
  assert (forall v, ref_local look fo v = ref_local look' fo v) as Hloc.
  { intros [i|s]; [done|]. cbn [ref_local]. destruct fo as [f|]; [|done]. destruct (Hf f eq_refl) as [Hp Hlo].
    cbn [mbind option_bind]. by rewrite Hp, Hlo. }
  assert (forall es ls, Forall (fun e => forall ls, ref_expr look m fo e ls = ref_expr look' m fo e ls) es ->
    mapM (fun e => ref_expr look m fo e ls) es = mapM (fun e => ref_expr look' m fo e ls) es) as Hmap.
  { intros es ls H. induction H as [|e es He _ IH]; [done|]. cbn [mapM]. by rewrite He, IH. }
  apply (WasmExpr_nested_ind (fun e => forall ls, ref_expr look m fo e ls = ref_expr look' m fo e ls)).
  - intros l s es H ls. exact (f_equal (fmap _) (Hmap es (l :: ls) H)).
  - intros l s es H ls. exact (f_equal (fmap _) (Hmap es (l :: ls) H)).
  - intros l s ts fs Ht Hff ls. pose proof (Hmap ts (l :: ls) Ht) as Et. pose proof (Hmap fs (l :: ls) Hff) as Ef.
    cbn [ref_expr]. by rewrite Et, Ef.
  - intros []; try done; intros ls; cbn [ref_expr]; by rewrite ?Hloc, ?ref_var_ext by done.
Qed.

Lemma ref_exprs_ext fo es : (forall f, fo = Some f -> agree (func_param_bindings f) /\ agree (func_local_bindings f)) ->
  ref_exprs look m fo es = ref_exprs look' m fo es.
Proof. intros Hf. apply mapM_ext. intros e. by apply ref_expr_ext. Qed.

Lemma ref_func_ext f : func_wf f -> ref_func look m f = ref_func look' m f.
Proof.
  intros Hf. unfold ref_func, ref_decl. rewrite ref_var_ext by apply agree_module.
  destruct (if wasm_decl_has_func_type (func_decl f) then _ else _) as [d|]; [|done]. cbn [mbind option_bind].
  destruct (unique (func_param_bindings f)) eqn:Ep; [|done]. destruct (unique (func_local_bindings f)) eqn:El; [|done].
  cbn [check mbind option_bind]. rewrite ref_exprs_ext; [done|]. intros ? [= <-]. auto.
Qed.

Lemma ref_field_ext b f : field_wf f -> ref_field look m b f = ref_field look' m b f.
Proof.
  destruct agree_module as [[Hfu Hg] (Hft & Ht & Hme)].
  assert (forall es, ref_exprs look m None es = ref_exprs look' m None es) as He by (intros; by apply ref_exprs_ext).
  destruct f as [x|x|[a c []]|x|x|x|x|x|x|x]; cbn [field_wf ref_field ref_global]; intros Hf;
    unfold ref_global; rewrite ?He, ?ref_func_ext, ?ref_var_ext by done; try done.
  - rewrite ref_var_ext; [done|]. by destruct (export_kind x).
  - rewrite (mapM_ext (ref_var look (func_bindings m)) (ref_var look' (func_bindings m))); [done|].
    intros v. by apply ref_var_ext.
Qed.

Lemma ref_fields_ext fs : Forall field_wf fs -> ref_fields look m fs = ref_fields look' m fs.
Proof.
  induction 1 as [|f fs Hf _ IH]; [done|]. cbn [ref_fields]. by rewrite ref_field_ext, IH.
Qed.
End ext.

(** What the parser guarantees: tables built by insertion, and initializers that
    name no local. *)
Definition module_wf (m : WasmModule) : Prop :=
  Forall hash_wf [func_bindings m; global_bindings m; export_bindings m; func_type_bindings m;
                  table_bindings m; memory_bindings m] /\
  Forall field_wf (module_fields m).

Lemma ref_module_look m : module_wf m -> ref_module code_look m = ref_module bound m.
Proof.
  intros [Hm Hf]. unfold ref_module. destruct (forallb unique _) eqn:Eu; [|done]. cbn [check mbind option_bind]. f_equal.
  cbn [forallb] in Eu. rewrite !andb_true_iff in Eu. rewrite !Forall_cons in Hm.
  assert (forall h, hash_wf h -> unique h = true -> agree code_look bound h) as Ha
    by (intros h Hh Hu s; by apply code_look_unique).
  apply ref_fields_ext; [|intros f [? ?]; auto..|done]. rewrite !Forall_cons. split_and!; try apply Ha; tauto || constructor.
Qed.

Lemma visit_module_ref m r : module_wf m ->
  exists m' r', visit_module m (outside r) = Some (m', outside r') /\
    match ref_module bound m with Some m1 => m' = m1 /\ r' = r | None => r' = WASM_ERROR end.
Proof. intros Hm. rewrite <- ref_module_look by done. destruct Hm. by apply visit_module_code. Qed.

Lemma resolve_module_ref m : module_wf m ->
  exists r m', wasm_resolve_names_module m = Some (r, m') /\
    match ref_module bound m with Some m1 => r = WASM_OK /\ m' = m1 | None => r = WASM_ERROR end.
Proof.
  intros Hm. destruct (visit_module_ref m WASM_OK Hm) as (m' & r & E & Hr). exists r, m'. unfold wasm_resolve_names_module.
  change init_context with (outside WASM_OK). rewrite E. split; [done|]. destruct (ref_module bound m); naive_solver.
Qed.

(** ** Scripts *)

(** The module of a command whose names are resolved. *)
Definition command_module (c : WasmCommand) : option WasmModule :=
  match c with
  | COMMAND_MODULE m | COMMAND_ASSERT_UNLINKABLE (RAW_MODULE_TEXT m) _
  | COMMAND_ASSERT_UNINSTANTIABLE (RAW_MODULE_TEXT m) _ => Some m
  | _ => None
  end.

Definition ref_command (c : WasmCommand) : option WasmCommand :=
  match c with
  | COMMAND_MODULE m => COMMAND_MODULE <$> ref_module bound m
  | COMMAND_ASSERT_UNLINKABLE (RAW_MODULE_TEXT m) text =>
      (fun m => COMMAND_ASSERT_UNLINKABLE (RAW_MODULE_TEXT m) text) <$> ref_module bound m
  | COMMAND_ASSERT_UNINSTANTIABLE (RAW_MODULE_TEXT m) text =>
      (fun m => COMMAND_ASSERT_UNINSTANTIABLE (RAW_MODULE_TEXT m) text) <$> ref_module bound m
  | _ => Some c
  end.

Lemma visit_command_ref c r : (forall m, command_module c = Some m -> module_wf m) ->
  exists c' r', visit_command c (outside r) = Some (c', outside r') /\
    match ref_command c with Some c1 => c' = c1 /\ r' = r | None => r' = WASM_ERROR end.
Proof.
  intros Hc. destruct c as [m| | | | |[m|]|[m|]| | |]; try by exists c, r.
  all: try (eexists _, r; split; [reflexivity|done]).
  all: destruct (visit_module_ref m r (Hc m eq_refl)) as (m' & r' & E & Hr); eexists _, r';
    (split; [cbn [visit_command visit_raw_module]; unfold so_bind, so_ret; rewrite E; reflexivity|]);
    cbn [ref_command]; destruct (ref_module bound m); cbn; naive_solver.
Qed.

Lemma visit_commands_ref cs r : Forall (fun c => forall m, command_module c = Some m -> module_wf m) cs ->
  exists cs' r', so_map visit_command cs (outside r) = Some (cs', outside r') /\
    match mapM ref_command cs with Some cs1 => cs' = cs1 /\ r' = r | None => r' = WASM_ERROR end.
Proof.
  intros H. revert r. induction H as [|c cs Hc _ IH]; intros r; cbn [so_map mapM]; [by exists [], r|].
  destruct (visit_command_ref c r Hc) as (c' & r1 & E & Hr). destruct (IH r1) as (cs' & r2 & E' & Hr').
  exists (c' :: cs'), r2. unfold so_bind, so_ret. rewrite E, E'. split; [done|].
  destruct (ref_command c); cbn [mbind option_bind]; [destruct Hr as [-> ->]|subst r1];
    destruct (mapM ref_command cs); cbn; naive_solver.
Qed.

(** ** Modules without names for variables *)

Definition closed_var (v : WasmVar) : bool := match v with VAR_INDEX _ => true | VAR_NAME _ => false end.

Fixpoint closed_expr (e : WasmExpr) : bool :=
  match e with
  | EXPR_BLOCK _ _ es | EXPR_LOOP _ _ es => forallb closed_expr es
  | EXPR_IF _ _ ts fs => forallb closed_expr ts && forallb closed_expr fs
  | EXPR_BR v | EXPR_BR_IF v | EXPR_CALL v | EXPR_CALL_INDIRECT v | EXPR_GET_GLOBAL v | EXPR_SET_GLOBAL v
  | EXPR_GET_LOCAL v | EXPR_SET_LOCAL v | EXPR_TEE_LOCAL v => closed_var v
  | EXPR_BR_TABLE ts d => forallb closed_var ts && closed_var d
  | _ => true
  end.

Definition closed_func (f : WasmFunc) : bool :=
  (negb (wasm_decl_has_func_type (func_decl f)) || closed_var (decl_type_var (func_decl f))) &&
  forallb closed_expr (func_first_expr f).

Definition closed_field (last_start : bool) (f : WasmModuleField) : bool :=
  match f with
  | FIELD_FUNC x | FIELD_IMPORT (mkImport _ _ (IMPORT_FUNC x)) => closed_func x
  | FIELD_GLOBAL x | FIELD_IMPORT (mkImport _ _ (IMPORT_GLOBAL x)) => forallb closed_expr (global_init_expr x)
  | FIELD_EXPORT x => closed_var (export_var x)
  | FIELD_ELEM_SEGMENT x =>
      closed_var (elem_table_var x) && forallb closed_expr (elem_offset x) && forallb closed_var (elem_vars x)
  | FIELD_DATA_SEGMENT x => closed_var (data_memory_var x) && forallb closed_expr (data_offset x)
  | FIELD_START v => negb last_start || closed_var v
  | _ => true
  end.

Fixpoint closed_fields (fs : list WasmModuleField) : bool :=
  match fs with
  | [] => true
  | f :: fs => closed_field (negb (existsb is_start fs)) f && closed_fields fs
  end.

Section closed.
Context (look : WasmBindingHash -> string -> option Z) (m : WasmModule).

Lemma ref_var_closed h v v' : ref_var look h v = Some v' -> closed_var v' = true.
Proof. destruct v as [i|s]; cbn [ref_var]; [by intros [= <-]|]. by intros (i & _ & ->)%fmap_Some. Qed.

Lemma closed_ref_var h v : closed_var v = true -> ref_var look h v = Some v.
Proof. by destruct v. Qed.

Lemma ref_label_closed ls v v' : ref_label ls v = Some v' -> closed_var v' = true.
Proof. destruct v as [i|s]; cbn [ref_label]; [by intros [= <-]|]. by intros ([k x] & _ & ->)%fmap_Some. Qed.

Lemma ref_local_closed fo v v' : ref_local look fo v = Some v' -> closed_var v' = true.
Proof.
  destruct v as [i|s]; cbn [ref_local]; [by intros [= <-]|]. intros (f & _ & H)%bind_Some.
  destruct (look (func_param_bindings f) s); [by injection H as <-|by apply fmap_Some in H as (? & _ & ->)].
Qed.

Lemma mapM_forallb {A} (f : A -> option A) (P : A -> bool) l l' :
  Forall (fun x => forall y, f x = Some y -> P y = true) l -> mapM f l = Some l' -> forallb P l' = true.
Proof.
  intros H E%mapM_Some. revert H. induction E as [|x y l l' Hxy _ IH]; [done|]. intros [Hx Hl]%Forall_cons.
  cbn [forallb]. by rewrite (Hx y), IH.
Qed.

Lemma forallb_mapM {A} (f : A -> option A) (P : A -> bool) l :
  Forall (fun x => P x = true -> f x = Some x) l -> forallb P l = true -> mapM f l = Some l.
Proof.
  induction 1 as [|x l Hx _ IH]; [done|]. cbn [forallb mapM]. intros [Px Pl]%andb_true_iff. by rewrite Hx, IH.
Qed.

(** Resolved variables are indices. *)
Lemma ref_expr_closed fo : forall e ls e', ref_expr look m fo e ls = Some e' -> closed_expr e' = true.
Proof.
  assert (forall es ls es', Forall (fun e => forall ls e', ref_expr look m fo e ls = Some e' -> closed_expr e' = true) es ->
    mapM (fun e => ref_expr look m fo e ls) es = Some es' -> forallb closed_expr es' = true) as Hmap.
  { intros es ls es' H. apply mapM_forallb. eapply Forall_impl; [exact H|]. intros e He y. apply He. }
  apply (WasmExpr_nested_ind (fun e => forall ls e', ref_expr look m fo e ls = Some e' -> closed_expr e' = true)).
  - intros l s es H ls e' (es' & E & ->)%fmap_Some. by eapply Hmap.
  - intros l s es H ls e' (es' & E & ->)%fmap_Some. by eapply Hmap.
  - intros l s ts fs Ht Hf ls e' (ts' & Et & (fs' & Ef & ->)%fmap_Some)%bind_Some. cbn [closed_expr].
    by rewrite (Hmap _ _ _ Ht Et), (Hmap _ _ _ Hf Ef).
  - intros []; try done; intros ls e' H; cbn [ref_expr] in H; try (by injection H as <-);
      try (apply fmap_Some in H as (v & Hv & ->); cbn [closed_expr];
           eauto using ref_var_closed, ref_label_closed, ref_local_closed).
    apply bind_Some in H as (ts & Ets & (d & Ed & ->)%fmap_Some). cbn [closed_expr].
    rewrite (ref_label_closed _ _ _ Ed), andb_true_r. eapply mapM_forallb; [|exact Ets].
    apply Forall_true. intros. by eapply ref_label_closed.
Qed.

Lemma closed_ref_expr fo : forall e ls, closed_expr e = true -> ref_expr look m fo e ls = Some e.
Proof.
  assert (forall es ls, Forall (fun e => forall ls, closed_expr e = true -> ref_expr look m fo e ls = Some e) es ->
    forallb closed_expr es = true -> mapM (fun e => ref_expr look m fo e ls) es = Some es) as Hmap.
  { intros es ls H. apply forallb_mapM. eapply Forall_impl; [exact H|]. auto. }
  apply (WasmExpr_nested_ind (fun e => forall ls, closed_expr e = true -> ref_expr look m fo e ls = Some e)).
  - intros l s es H ls Hc. exact (f_equal (fmap _) (Hmap es (l :: ls) H Hc)).
  - intros l s es H ls Hc. exact (f_equal (fmap _) (Hmap es (l :: ls) H Hc)).
  - intros l s ts fs Ht Hf ls [Ct Cf]%andb_true_iff. cbn [ref_expr].
    pose proof (Hmap ts (l :: ls) Ht Ct) as Et. pose proof (Hmap fs (l :: ls) Hf Cf) as Ef. by rewrite Et, Ef.
  - intros []; try done; intros ls Hc; cbn [ref_expr closed_expr] in *; try (by destruct var).
    apply andb_true_iff in Hc as [Ct Cd]. rewrite (forallb_mapM (ref_label ls) closed_var); [by destruct default_target| |done].
    apply Forall_true. by intros [].
Qed.

Lemma ref_exprs_closed fo es es' : ref_exprs look m fo es = Some es' -> forallb closed_expr es' = true.
Proof. apply mapM_forallb, Forall_true. intros e e'. apply ref_expr_closed. Qed.

Lemma closed_ref_exprs fo es : forallb closed_expr es = true -> ref_exprs look m fo es = Some es.
Proof. apply forallb_mapM, Forall_true. intros e. apply closed_ref_expr. Qed.

Lemma ref_func_again f f' : ref_func look m f = Some f' ->
  closed_func f' = true /\ ref_func look m f' = Some f' /\ (func_wf f -> func_wf f').
Proof.
  unfold ref_func, ref_decl, closed_func. intros (d & Ed & H)%bind_Some. apply bind_Some in H as ([] & Ep & H).
  apply bind_Some in H as ([] & El & (es & Es & ->)%fmap_Some). cbn [func_decl func_param_bindings func_local_bindings func_first_expr].
  assert ((if wasm_decl_has_func_type d then
      (fun v => mkFuncDeclaration (decl_flags d) v (decl_sig d)) <$> ref_var look (func_type_bindings m) (decl_type_var d)
    else Some d) = Some d /\ negb (wasm_decl_has_func_type d) || closed_var (decl_type_var d) = true) as [-> ->].
  { unfold wasm_decl_has_func_type in *. destruct (negb (Z.land (decl_flags (func_decl f)) _ =? 0)) eqn:Ef.
    - apply fmap_Some in Ed as (v & Hv & ->). cbn [decl_flags decl_type_var]. rewrite Ef.
      rewrite (closed_ref_var _ _ (ref_var_closed _ _ _ Hv)), (ref_var_closed _ _ _ Hv). done.
    - injection Ed as <-. by rewrite Ef. }
  cbn [mbind option_bind]. pose proof (ref_exprs_closed _ _ _ Es) as Hc. rewrite Ep, El, Hc. cbn [mbind option_bind].
  by rewrite closed_ref_exprs.
Qed.

Lemma exprs_ok_closed es : forallb closed_expr es = true -> exprs_ok es.
Proof.
  assert (forall es, Forall (fun e => closed_expr e = true -> locals_ok None e) es -> forallb closed_expr es = true ->
    Forall (locals_ok None) es) as Hl.
  { intros l Hl. induction Hl as [|e l He _ IH]; [constructor|]. intros [Ce Cl]%andb_true_iff. constructor; auto. }
  intros He. apply Hl; [|done]. apply Forall_forall. intros e _. revert e.
  apply (WasmExpr_nested_ind (fun e => closed_expr e = true -> locals_ok None e)); cbn [closed_expr locals_ok].
  - intros l s bs H Hc. apply locals_ok_list. auto.
  - intros l s bs H Hc. apply locals_ok_list. auto.
  - intros l s ts fs Ht Hf [Ct Cf]%andb_true_iff. split; apply locals_ok_list; auto.
  - intros []; try done; intros Hc; match goal with v : WasmVar |- _ => by destruct v end.
Qed.

Lemma ref_vars_again h vs vs' : mapM (ref_var look h) vs = Some vs' ->
  forallb closed_var vs' = true /\ mapM (ref_var look h) vs' = Some vs'.
Proof.
  intros H. assert (forallb closed_var vs' = true) as Hc.
  { eapply mapM_forallb; [|exact H]. apply Forall_true. intros. by eapply ref_var_closed. }
  split; [done|]. eapply forallb_mapM; [|exact Hc]. apply Forall_true. intros. by apply closed_ref_var.
Qed.

Lemma ref_field_again b f f' : ref_field look m b f = Some f' ->
  closed_field b f' = true /\ ref_field look m b f' = Some f' /\ (field_wf f -> field_wf f').
Proof.
  assert (forall es es', ref_exprs look m None es = Some es' ->
    forallb closed_expr es' = true /\ ref_exprs look m None es' = Some es' /\ exprs_ok es') as He.
  { intros es es' E. pose proof (ref_exprs_closed _ _ _ E) as Hc. split_and!; [done|by apply closed_ref_exprs|by apply exprs_ok_closed]. }
  destruct f as [x|x|[a c []]|x|x|x|x|x|x|x]; cbn [ref_field]; intros H; try (by injection H as <-).
  - apply fmap_Some in H as (y & (Hc & E & Hw)%ref_func_again & ->). cbn [closed_field ref_field field_wf]. by rewrite E.
  - apply fmap_Some in H as (y & Hy & ->). unfold ref_global in Hy. apply fmap_Some in Hy as (es & (Hc & E & Hw)%He & ->).
    cbn [closed_field ref_field field_wf ref_global global_init_expr]. unfold ref_global. cbn [global_init_expr]. by rewrite E.
  - apply fmap_Some in H as (y & (Hc & E & Hw)%ref_func_again & ->). cbn [closed_field ref_field field_wf]. by rewrite E.
  - apply fmap_Some in H as (y & Hy & ->). unfold ref_global in Hy. apply fmap_Some in Hy as (es & (Hc & E & Hw)%He & ->).
    cbn [closed_field ref_field field_wf ref_global global_init_expr]. unfold ref_global. cbn [global_init_expr]. by rewrite E.
  - apply fmap_Some in H as (v & Hv & ->). cbn [closed_field ref_field export_var export_kind export_name].
    rewrite (ref_var_closed _ _ _ Hv), (closed_ref_var _ _ (ref_var_closed _ _ _ Hv)). done.
  - apply bind_Some in H as (t & Ht & H). apply bind_Some in H as (o & (Ho & Eo & Hw)%He & H).
    apply fmap_Some in H as (vs & (Hvs & Evs)%ref_vars_again & ->).
    cbn [closed_field ref_field field_wf elem_table_var elem_offset elem_vars].
    rewrite (ref_var_closed _ _ _ Ht), (closed_ref_var _ _ (ref_var_closed _ _ _ Ht)), Ho, Eo, Hvs. cbn [mbind option_bind].
    by rewrite Evs.
  - apply bind_Some in H as (t & Ht & H). apply fmap_Some in H as (o & (Ho & Eo & Hw)%He & ->).
    cbn [closed_field ref_field field_wf data_memory_var data_offset].
    rewrite (ref_var_closed _ _ _ Ht), (closed_ref_var _ _ (ref_var_closed _ _ _ Ht)), Ho, Eo. done.
  - destruct b; [|by injection H as <-]. apply fmap_Some in H as (v & Hv & ->). cbn [closed_field ref_field negb].
    by rewrite (ref_var_closed _ _ _ Hv), (closed_ref_var _ _ (ref_var_closed _ _ _ Hv)).
Qed.

Lemma ref_fields_again fs fs' : ref_fields look m fs = Some fs' ->
  closed_fields fs' = true /\ ref_fields look m fs' = Some fs' /\ existsb is_start fs' = existsb is_start fs /\
  (Forall field_wf fs -> Forall field_wf fs').
Proof.
  revert fs'. induction fs as [|f fs IH]; intros fs' H; cbn [ref_fields] in H; [injection H as <-; by split_and!|].
  apply bind_Some in H as (f' & Ef & H). apply bind_Some in H as (fs1 & (Hc & E & Es & Hw)%IH & [= <-]).
  cbn [closed_fields ref_fields existsb]. rewrite Es. pose proof (ref_field_same m _ _ _ _ Ef) as [_ ->].
  apply ref_field_again in Ef as (Hcf & Ef & Hwf). rewrite Hcf, Hc, Ef, E. split_and!; [done..|].
  rewrite !Forall_cons. naive_solver.
Qed.

Lemma ref_module_again m' : ref_module look m = Some m' ->
  exists fs, m' = with_fields m fs /\ closed_fields fs = true /\ ref_module look m' = Some m' /\ (module_wf m -> module_wf m').
Proof.
  unfold ref_module. intros ([] & Eu & (fs & (Hc & E & _ & Hw)%ref_fields_again & ->)%fmap_Some)%bind_Some.
  exists fs. split_and!; [done|done| |].
  - change (forallb unique _) with (module_unique m). change (forallb unique _) with (module_unique m) in Eu. rewrite Eu.
    cbn [mbind option_bind]. change (ref_fields look (with_fields m fs) _) with (ref_fields look m fs). by rewrite E.
  - intros [Hm Hf]. split; [exact Hm|]. by apply Hw.
Qed.
End closed.

(** ** A sample *)

(** Names bound to 0, 1, ... one after the other. *)
Lemma bind_all_wf names : Z.of_nat (length names) < 2 ^ 47 ->
  exists h, bind_all names = Some h /\ hash_wf h /\ length (bindings_of h) = length names.
Proof.
  unfold bind_all. induction names as [|s names IH] using rev_ind; intros Hl; [exists empty_hash; by split_and!; [|apply hash_wf_empty|]|].
  rewrite length_app in Hl. cbn [length] in Hl. destruct IH as (h & E & Hh & Hn); [lia|].
  rewrite imap_app, foldl_app, E. cbn [foldl imap fst snd mbind option_bind].
  destruct (hash_wf_insert junk_entry h s (Z.of_nat (length names + 0)) Hh) as (h' & E' & Hh' & Ep); [lia|lia|].
  exists h'. split_and!; [exact E'|done|]. rewrite Ep, length_app. cbn [length]. lia.
Qed.

Definition names_table (names : list string) : WasmBindingHash := default empty_hash (bind_all names).

Lemma names_table_wf names : Z.of_nat (length names) < 2 ^ 47 -> hash_wf (names_table names).
Proof. intros (h & E & Hh & _)%bind_all_wf. unfold names_table. by rewrite E. Qed.

(** A function whose parameter and local, and two blocks, have names. *)
Definition sample_func (callee : WasmVar) (block_target : WasmVar) (param local : WasmVar) : WasmFunc :=
  mkFunc (Some "$f"%string) (mkFuncDeclaration 0 (VAR_INDEX 0) (mkFuncSignature [WASM_TYPE_I32] []))
    [WASM_TYPE_I32] (names_table ["$x"]) (names_table ["$y"; "$x"])
    [EXPR_BLOCK (Some "$a"%string) [] [EXPR_LOOP (Some "$b"%string) []
      [EXPR_GET_LOCAL param; EXPR_SET_LOCAL local; EXPR_BR block_target]]; EXPR_CALL callee].

Definition named_module (func_names : list string) (callee block_target param local : WasmVar) : WasmModule :=
  mkModule None [FIELD_FUNC (sample_func callee block_target param local)]
    (names_table func_names) empty_hash empty_hash empty_hash empty_hash empty_hash.

Definition sample_named (func_names : list string) : WasmModule :=
  named_module func_names (VAR_NAME "$f") (VAR_NAME "$a") (VAR_NAME "$x") (VAR_NAME "$y").
Definition sample_resolved (func_names : list string) : WasmModule :=
  named_module func_names (VAR_INDEX 0) (VAR_INDEX 1) (VAR_INDEX 0) (VAR_INDEX 1).

Lemma sample_named_wf names : Z.of_nat (length names) < 2 ^ 47 -> module_wf (sample_named names).
Proof.
  intros Hn. split.
  - repeat (apply Forall_cons; split); try apply Forall_nil_2; apply names_table_wf || apply hash_wf_empty; done.
  - apply Forall_cons. split; [split; by apply names_table_wf|apply Forall_nil_2].
Qed.

(** C7 - Name resolution against a reference.  For a module whose tables of
    bindings were built by insertion and whose initializers name no local, the
    pass never fails an assertion.  It reports an error exactly when a name is
    bound twice in one scope or a variable names nothing in scope; otherwise
    the module is rewritten in place to the reference's, which looks a name up
    in the finite map of its index space, a label in the enclosing blocks from
    the inside out, and a local among the parameters first.  A script is
    resolved module by module; commands that expect an invalid or malformed
    module are left alone, and an error in one module does not stop the rest. *)
Theorem resolve_names_correct (m : WasmModule) (s : WasmScript) :
  (module_wf m ->
   exists r m', wasm_resolve_names_module m = Some (r, m') /\
     match ref_module bound m with Some m1 => r = WASM_OK /\ m' = m1 | None => r = WASM_ERROR end) /\
  (Forall (fun c => forall m, command_module c = Some m -> module_wf m) (script_commands s) ->
   exists r s', wasm_resolve_names_script s = Some (r, s') /\
     match mapM ref_command (script_commands s) with
     | Some cs => r = WASM_OK /\ s' = mkScript cs (module_bindings s)
     | None => r = WASM_ERROR
     end).
Proof.
  split; [apply resolve_module_ref|]. intros Hs. destruct (visit_commands_ref _ WASM_OK Hs) as (cs & r & E & Hr).
  exists r, (mkScript cs (module_bindings s)). unfold wasm_resolve_names_script, visit_script, so_bind, so_ret.
  change init_context with (outside WASM_OK). rewrite E. split; [done|].
  destruct (mapM ref_command _); naive_solver.
Qed.

(** A module that resolves, one with a function named twice, and one where the
    callee's name is not bound. *)
Lemma resolve_names_correct_witness :
  wasm_resolve_names_module (sample_named ["$f"]) = Some (WASM_OK, sample_resolved ["$f"]) /\
  (exists m', wasm_resolve_names_module (sample_named ["$f"; "$f"]) = Some (WASM_ERROR, m')) /\
  (exists m', wasm_resolve_names_module (sample_named ["$g"]) = Some (WASM_ERROR, m')) /\
  exists s', wasm_resolve_names_script (mkScript [COMMAND_MODULE (sample_named ["$g"]);
    COMMAND_ASSERT_INVALID (RAW_MODULE_TEXT (sample_named ["$g"])) ""; COMMAND_MODULE (sample_named ["$f"])] empty_hash) =
    Some (WASM_ERROR, s') /\ last (script_commands s') = Some (COMMAND_MODULE (sample_resolved ["$f"])).
Proof.
  set (s := mkScript _ _). split_and!.
  - destruct (proj1 (resolve_names_correct (sample_named ["$f"]) s)) as (r & m' & E & H); [by apply sample_named_wf|].
    assert (ref_module bound (sample_named ["$f"]) = Some (sample_resolved ["$f"])) as E' by (vm_compute; reflexivity).
    rewrite E' in H. destruct H as [-> ->]. exact E.
  - destruct (proj1 (resolve_names_correct (sample_named ["$f"; "$f"]) s)) as (r & m' & E & H); [by apply sample_named_wf|].
    assert (ref_module bound (sample_named ["$f"; "$f"]) = None) as E' by (vm_compute; reflexivity).
    rewrite E' in H. subst r. by exists m'.
  - destruct (proj1 (resolve_names_correct (sample_named ["$g"]) s)) as (r & m' & E & H); [by apply sample_named_wf|].
    assert (ref_module bound (sample_named ["$g"]) = None) as E' by (vm_compute; reflexivity).
    rewrite E' in H. subst r. by exists m'.
  - eexists. split; [vm_compute; reflexivity|vm_compute; reflexivity].
Defined.

(** C36 - After a successful resolution the module has no names left for
    variables (but for start fields that a later one overrides), its tables of
    bindings and its well-formedness are as before, and resolving once more
    succeeds and changes nothing. *)
Theorem resolve_names_closed (m m' : WasmModule) :
  module_wf m -> wasm_resolve_names_module m = Some (WASM_OK, m') ->
  closed_fields (module_fields m') = true /\ m' = with_fields m (module_fields m') /\ module_wf m' /\
  wasm_resolve_names_module m' = Some (WASM_OK, m').
Proof.
  intros Hm E. destruct (resolve_module_ref m Hm) as (r & m1 & E1 & H1). rewrite E in E1. injection E1 as <- <-.
  destruct (ref_module bound m) as [m2|] eqn:E2; [|done]. destruct H1 as [_ <-].
  destruct (ref_module_again _ _ _ E2) as (fs & -> & Hc & Ea & Hw). split_and!; [done|done|by apply Hw|].
  destruct (resolve_module_ref _ (Hw Hm)) as (r & m1 & E1 & H1). rewrite Ea in H1. by destruct H1 as [-> ->].
Qed.

Lemma resolve_names_closed_witness : closed_fields (module_fields (sample_resolved ["$f"])) = true /\
  wasm_resolve_names_module (sample_resolved ["$f"]) = Some (WASM_OK, sample_resolved ["$f"]).
Proof.
  destruct (resolve_names_closed (sample_named ["$f"]) (sample_resolved ["$f"])) as (H & _ & _ & E);
    [by apply sample_named_wf|vm_compute; reflexivity|split; [exact H|exact E]].
Defined.

(** Every claimed entry has a null [prev], so the test for the first entry of a
    chain in [check_duplicate_bindings] never skips one. *)
Lemma claimed_prev h l i e : hash_binds h l -> entry_at h i = Some e -> wasm_hash_entry_is_free e = false ->
  entry_prev e = None.
Proof.
  intros [(Hd & _)|(_ & c & B & n & (fh & X & P & fl & ch & Hs & Hinv & _) & _)] He Hf.
  - unfold entry_at in He. by rewrite Hd in He.
  - assert (i < c)%nat as Hi by (destruct Hs as (<- & _); by eapply lookup_lt_Some).
    rewrite (shape_entry _ _ _ _ _ _ _ Hs Hi) in He. injection He as <-.
    rewrite wasm_hash_entry_is_free_spec, bool_decide_eq_false in Hf. by apply (inv_prev _ _ _ _ _ _ _ Hinv).
Qed.

(** A local named in the initializer of a global is looked up in the current
    function, and there is none. *)
Lemma resolve_names_null_func (name : string) :
  wasm_resolve_names_module (mkModule None [FIELD_GLOBAL (mkGlobal None WASM_TYPE_I32 false [EXPR_GET_LOCAL (VAR_NAME name)])]
    empty_hash empty_hash empty_hash empty_hash empty_hash empty_hash) = None.
Proof. reflexivity. Qed.
