(* ===== verification/ApplyNames.v ===== *)
(** * Using names (src/src/apply-names.c)

    The pass before a module is printed: an index that refers to something with
    a name is replaced by the name, in place.  The first index out of range
    ends it. *)

From S2P Require Import Prelude Opcode Vector BindingHash Ast StateOpt Visitor.

#[local] Open Scope so_scope.

(** [labels] has the innermost label first.  The pass changes variables only,
    and the module and function are looked at for names, bindings and types. *)
Record Context : Type := mkContext {
  ctx_module : WasmModule;
  current_func : option WasmFunc;
  param_index_to_name : list WasmStringSlice;
  local_index_to_name : list WasmStringSlice;
  labels : list WasmLabel
}.

Definition AN (A : Type) : Type := SO Context A.

Definition set_labels (ls : list WasmLabel) : AN unit :=
  so_modify (fun c => mkContext (ctx_module c) (current_func c) (param_index_to_name c) (local_index_to_name c) ls).
Definition set_current_func (f : option WasmFunc) : AN unit :=
  so_modify (fun c => mkContext (ctx_module c) f (param_index_to_name c) (local_index_to_name c) (labels c)).
Definition set_param_index_to_name (names : list WasmStringSlice) : AN unit :=
  so_modify (fun c => mkContext (ctx_module c) (current_func c) names (local_index_to_name c) (labels c)).
Definition set_local_index_to_name (names : list WasmStringSlice) : AN unit :=
  so_modify (fun c => mkContext (ctx_module c) (current_func c) (param_index_to_name c) names (labels c)).

Definition push_label (label : WasmLabel) : AN unit := c <- so_get ;; set_labels (label :: labels c).

Definition pop_label : AN unit :=
  c <- so_get ;; so_assert (negb (bool_decide (labels c = []))) ;; set_labels (tail (labels c)).

(** The label, or [NULL]. *)
Definition find_label_by_var (var : WasmVar) : AN (option WasmLabel) :=
  c <- so_get ;;
  match var with
  | VAR_NAME name => so_ret (find (fun label => wasm_string_slices_are_equal label (Some name)) (labels c))
  | VAR_INDEX index => so_ret (zget (labels c) index)
  end.

(** [name] may be [NULL]; the comparison in the assertion reads it. *)
Definition use_name_for_var (name : option WasmStringSlice) (var : WasmVar) : AN WasmVar :=
  match var with
  | VAR_NAME n => name <- so_lift name ;; so_assert (wasm_string_slices_are_equal name (Some n))
  | VAR_INDEX _ => so_ret tt
  end ;;
  match name with
  | Some (Some start) => so_ret (VAR_NAME start)
  | _ => so_ret var
  end.

(** [get]: the element [var] stands for, or [NULL]. *)
Definition use_name_for_module_var {A} (get : WasmModule -> WasmVar -> option (option A)) (name : A -> WasmStringSlice)
    (var : WasmVar) : AN (WasmResult * WasmVar) :=
  c <- so_get ;;
  item <- so_lift (get (ctx_module c) var) ;;
  match item with
  | None => so_ret (WASM_ERROR, var)
  | Some item => var <- use_name_for_var (Some (name item)) var ;; so_ret (WASM_OK, var)
  end.

Definition use_name_for_func_type_var : WasmVar -> AN (WasmResult * WasmVar) :=
  use_name_for_module_var wasm_get_func_type_by_var func_type_name.
Definition use_name_for_func_var : WasmVar -> AN (WasmResult * WasmVar) :=
  use_name_for_module_var wasm_get_func_by_var func_name.
Definition use_name_for_global_var : WasmVar -> AN (WasmResult * WasmVar) :=
  use_name_for_module_var wasm_get_global_by_var global_name.
Definition use_name_for_table_var : WasmVar -> AN (WasmResult * WasmVar) :=
  use_name_for_module_var wasm_get_table_by_var table_name.
Definition use_name_for_memory_var : WasmVar -> AN (WasmResult * WasmVar) :=
  use_name_for_module_var wasm_get_memory_by_var memory_name.

(** [ctx->current_func] is the function visited. *)
Definition use_name_for_param_and_local_var (var : WasmVar) : AN (WasmResult * WasmVar) :=
  c <- so_get ;;
  func <- so_lift (current_func c) ;;
  local_index <- so_lift (wasm_get_local_index_by_var func var) ;;
  if (local_index <? 0) || (wasm_get_num_params_and_locals func <=? local_index) then so_ret (WASM_ERROR, var)
  else
    let num_params := wasm_get_num_params func in
    name <- (if local_index <? num_params then so_lift (zget (param_index_to_name c) local_index)
             else so_lift (zget (local_index_to_name c) (local_index - num_params))) ;;
    match var with
    | VAR_NAME n => so_assert (wasm_string_slices_are_equal name (Some n)) ;; so_ret (WASM_OK, var)
    | VAR_INDEX _ =>
        match name with
        | Some start => so_ret (WASM_OK, VAR_NAME start)
        | None => so_ret (WASM_OK, var)
        end
    end.

(** ** The visitor *)

Definition begin_block (expr : WasmExpr) : AN (WasmResult * WasmExpr) :=
  match expr with
  | EXPR_BLOCK label _ _ | EXPR_LOOP label _ _ | EXPR_IF label _ _ _ => push_label label ;; so_ret (WASM_OK, expr)
  | _ => so_fail
  end.

Definition end_block (expr : WasmExpr) : AN (WasmResult * WasmExpr) := pop_label ;; so_ret (WASM_OK, expr).

Definition use_label (var : WasmVar) : AN WasmVar := label <- find_label_by_var var ;; use_name_for_var label var.

Definition on_br (expr : WasmExpr) : AN (WasmResult * WasmExpr) :=
  match expr with
  | EXPR_BR var => var <- use_label var ;; so_ret (WASM_OK, EXPR_BR var)
  | EXPR_BR_IF var => var <- use_label var ;; so_ret (WASM_OK, EXPR_BR_IF var)
  | _ => so_fail
  end.

Definition on_br_table (expr : WasmExpr) : AN (WasmResult * WasmExpr) :=
  match expr with
  | EXPR_BR_TABLE targets default_target =>
      targets <- so_map use_label targets ;;
      default_target <- use_label default_target ;;
      so_ret (WASM_OK, EXPR_BR_TABLE targets default_target)
  | _ => so_fail
  end.

(** A variable that is changed inside an expression, or else ends the visit. *)
Definition change {A} (put : WasmVar -> A) (use : WasmVar -> AN (WasmResult * WasmVar)) (var : WasmVar) :
    AN (WasmResult * A) :=
  let* (r, var) := use var ;; so_ret (r, put var).

Definition on_call (expr : WasmExpr) : AN (WasmResult * WasmExpr) :=
  match expr with EXPR_CALL var => change EXPR_CALL use_name_for_func_var var | _ => so_fail end.

Definition on_call_indirect (expr : WasmExpr) : AN (WasmResult * WasmExpr) :=
  match expr with
  | EXPR_CALL_INDIRECT var => change EXPR_CALL_INDIRECT use_name_for_func_type_var var
  | _ => so_fail
  end.

Definition on_global (expr : WasmExpr) : AN (WasmResult * WasmExpr) :=
  match expr with
  | EXPR_GET_GLOBAL var => change EXPR_GET_GLOBAL use_name_for_global_var var
  | EXPR_SET_GLOBAL var => change EXPR_SET_GLOBAL use_name_for_global_var var
  | _ => so_fail
  end.

Definition on_local (expr : WasmExpr) : AN (WasmResult * WasmExpr) :=
  match expr with
  | EXPR_GET_LOCAL var => change EXPR_GET_LOCAL use_name_for_param_and_local_var var
  | EXPR_SET_LOCAL var => change EXPR_SET_LOCAL use_name_for_param_and_local_var var
  | EXPR_TEE_LOCAL var => change EXPR_TEE_LOCAL use_name_for_param_and_local_var var
  | _ => so_fail
  end.

(** The visitor [wasm_apply_names] sets up. *)
Definition visitor : WasmExprVisitor Context := fun member =>
  match member with
  | begin_block_expr | begin_loop_expr | begin_if_expr => Some begin_block
  | end_block_expr | end_loop_expr | end_if_expr => Some end_block
  | on_br_expr | on_br_if_expr => Some on_br
  | on_br_table_expr => Some on_br_table
  | on_call_expr => Some on_call
  | on_call_indirect_expr => Some on_call_indirect
  | on_get_global_expr | on_set_global_expr => Some on_global
  | on_get_local_expr | on_set_local_expr | on_tee_local_expr => Some on_local
  | _ => None
  end.

(** ** Modules *)

Definition visit_decl (decl : WasmFuncDeclaration) : AN (WasmResult * WasmFuncDeclaration) :=
  if wasm_decl_has_func_type decl
  then change (fun type_var => mkFuncDeclaration (decl_flags decl) type_var (decl_sig decl))
         use_name_for_func_type_var (decl_type_var decl)
  else so_ret (WASM_OK, decl).

Definition visit_func (func : WasmFunc) : AN (WasmResult * WasmFunc) :=
  set_current_func (Some func) ;;
  let* (r, decl) := visit_decl (func_decl func) ;;
  let func := mkFunc (func_name func) decl (func_local_types func) (func_param_bindings func)
                (func_local_bindings func) (func_first_expr func) in
  check_result r func (
    param_names <- so_lift (wasm_make_type_binding_reverse_mapping (param_types (decl_sig decl)) (func_param_bindings func)) ;;
    set_param_index_to_name param_names ;;
    local_names <- so_lift (wasm_make_type_binding_reverse_mapping (func_local_types func) (func_local_bindings func)) ;;
    set_local_index_to_name local_names ;;
    let* (r, func) := wasm_visit_func visitor func ;;
    check_result r func (set_current_func None ;; so_ret (WASM_OK, func))).

(** The result of [use_name_for_func_var], which is called whatever the kind
    of the export, is not looked at. *)
Definition visit_export (export_ : WasmExport) : AN (WasmResult * WasmExport) :=
  let* (_, var) := use_name_for_func_var (export_var export_) ;;
  so_ret (WASM_OK, mkExport (export_name export_) (export_kind export_) var).

(** [for (i = 0; i < n; ++i) CHECK_RESULT(f(&l[i]));] *)
Fixpoint visit_each {A} (visit : A -> AN (WasmResult * A)) (l : list A) : AN (WasmResult * list A) :=
  match l with
  | [] => so_ret (WASM_OK, [])
  | x :: l =>
      let* (r, x) := visit x ;;
      check_result r (x :: l) (let* (r, l) := visit_each visit l ;; so_ret (r, x :: l))
  end.

Definition visit_elem_segment (segment : WasmElemSegment) : AN (WasmResult * WasmElemSegment) :=
  let* (r, table_var) := use_name_for_table_var (elem_table_var segment) ;;
  let segment := mkElemSegment table_var (elem_offset segment) (elem_vars segment) in
  check_result r segment (
    let* (r, vars) := visit_each use_name_for_func_var (elem_vars segment) ;;
    so_ret (r, mkElemSegment table_var (elem_offset segment) vars)).

Definition visit_data_segment (segment : WasmDataSegment) : AN (WasmResult * WasmDataSegment) :=
  change (fun memory_var => mkDataSegment memory_var (data_offset segment) (data_data segment))
    use_name_for_memory_var (data_memory_var segment).

(** The loops of [visit_module], over the fields of each kind. *)
Definition visit_func_field (field : WasmModuleField) : AN (WasmResult * WasmModuleField) :=
  match field with
  | FIELD_FUNC func => let* (r, func) := visit_func func ;; so_ret (r, FIELD_FUNC func)
  | FIELD_IMPORT (mkImport m n (IMPORT_FUNC func)) =>
      let* (r, func) := visit_func func ;; so_ret (r, FIELD_IMPORT (mkImport m n (IMPORT_FUNC func)))
  | _ => so_ret (WASM_OK, field)
  end.

Definition visit_export_field (field : WasmModuleField) : AN (WasmResult * WasmModuleField) :=
  match field with
  | FIELD_EXPORT export_ => let* (r, export_) := visit_export export_ ;; so_ret (r, FIELD_EXPORT export_)
  | _ => so_ret (WASM_OK, field)
  end.

Definition visit_elem_segment_field (field : WasmModuleField) : AN (WasmResult * WasmModuleField) :=
  match field with
  | FIELD_ELEM_SEGMENT segment => let* (r, segment) := visit_elem_segment segment ;; so_ret (r, FIELD_ELEM_SEGMENT segment)
  | _ => so_ret (WASM_OK, field)
  end.

Definition visit_data_segment_field (field : WasmModuleField) : AN (WasmResult * WasmModuleField) :=
  match field with
  | FIELD_DATA_SEGMENT segment => let* (r, segment) := visit_data_segment segment ;; so_ret (r, FIELD_DATA_SEGMENT segment)
  | _ => so_ret (WASM_OK, field)
  end.

Definition visit_module (fields : list WasmModuleField) : AN (WasmResult * list WasmModuleField) :=
  let* (r, fields) := visit_each visit_func_field fields ;;
  check_result r fields (
    let* (r, fields) := visit_each visit_export_field fields ;;
    check_result r fields (
      let* (r, fields) := visit_each visit_elem_segment_field fields ;;
      check_result r fields (visit_each visit_data_segment_field fields))).

Definition init_context (module : WasmModule) : Context := mkContext module None [] [] [].

(** [None]: a failed assertion or a null pointer. *)
Definition wasm_apply_names (module : WasmModule) : option (WasmResult * WasmModule) :=
  '((r, fields), _) ← visit_module (module_fields module) (init_context module);
  Some (r, mkModule (module_name module) fields (func_bindings module) (global_bindings module)
             (export_bindings module) (func_type_bindings module) (table_bindings module) (memory_bindings module)).
