(* ===== verification/ApplyFacts.v ===== *)
(** * What using names does

    [ApplyNames] against [applied_module], which names variables one by one,
    and what a module means, which is what its names resolve to
    ([ResolveFacts]). *)

From stdpp Require Import gmap.
From S2P Require Import Prelude Opcode Vector BindingHash Ast StateOpt Visitor ResolveNames ResolveFacts ApplyNames.

(** ** Index spaces with names *)

Fixpoint named_from (i : Z) (names : list WasmStringSlice) : list (string * Z) :=
  match names with
  | [] => []
  | Some s :: names => (s, i) :: named_from (i + 1) names
  | None :: names => named_from (i + 1) names
  end.

Definition distinct (names : list WasmStringSlice) : Prop := NoDup (named_from 0 names).*1.

(** A table that binds the names of a space, each once. *)
Definition tabled (h : WasmBindingHash) (names : list WasmStringSlice) : Prop :=
  hash_wf h /\ bindings_of h ≡ₚ named_from 0 names /\ distinct names.

Lemma elem_named_from i names s x :
  (s, x) ∈ named_from i names <-> i <= x /\ names !! Z.to_nat (x - i) = Some (Some s).
Proof.
  revert i. induction names as [|[t|] names IH]; intros i; cbn [named_from].
  - rewrite elem_of_nil, lookup_nil. naive_solver.
  - rewrite elem_of_cons, IH. split.
    + intros [[= -> ->]|[H E]]; [rewrite Z.sub_diag; split; [lia|done]|split; [lia|]].
      replace (Z.to_nat (x - i)) with (S (Z.to_nat (x - (i + 1)))) by lia. exact E.
    + intros [H E]. destruct (decide (x = i)) as [->|Hne]; [left; rewrite Z.sub_diag in E; naive_solver|right].
      replace (Z.to_nat (x - i)) with (S (Z.to_nat (x - (i + 1)))) in E by lia. split; [lia|exact E].
  - rewrite IH. split.
    + intros [H E]. split; [lia|]. by replace (Z.to_nat (x - i)) with (S (Z.to_nat (x - (i + 1)))) by lia.
    + intros [H E]. destruct (decide (x = i)) as [->|Hne]; [by rewrite Z.sub_diag in E|].
      replace (Z.to_nat (x - i)) with (S (Z.to_nat (x - (i + 1)))) in E by lia. split; [lia|exact E].
Qed.

Lemma named_from_app i l l' : named_from i (l ++ l') = named_from i l ++ named_from (i + Z.of_nat (length l)) l'.
Proof.
  revert i. induction l as [|[s|] l IH]; intros i; cbn [app named_from length]; [by rewrite Z.add_0_r|..];
    rewrite IH; replace (i + 1 + Z.of_nat (length l)) with (i + Z.of_nat (S (length l))) by lia; done.
Qed.

Lemma named_from_keys i j names : (named_from i names).*1 = (named_from j names).*1.
Proof. revert i j. induction names as [|[s|] names IH]; intros i j; cbn; [done|f_equal|]; apply IH. Qed.

Lemma tabled_unique h names : tabled h names -> unique h = true.
Proof. intros (_ & Hp & Hd). unfold unique. apply bool_decide_eq_true_2. by rewrite Hp. Qed.

Lemma tabled_bound h names s i : tabled h names -> bound h s = Some i <-> zget names i = Some (Some s).
Proof.
  intros Ht. pose proof (tabled_unique _ _ Ht) as Hu%bool_decide_eq_true_1. destruct Ht as (_ & Hp & _). unfold bound.
  rewrite <- elem_of_list_to_map by done. rewrite Hp, elem_named_from, Z.sub_0_r, zget_Some. done.
Qed.

Lemma tabled_find h names s : tabled h names ->
  wasm_find_binding_index_by_name h (Some s) = Some (default (-1) (bound h s)).
Proof. intros Ht. apply hash_wf_find; [apply Ht|by eapply tabled_unique]. Qed.

(** The names of a table by index, whatever the order of its entries. *)
Lemma reverse_mapping_pairs es names n : length names = n ->
  Forall (fun p => 0 <= snd p < Z.of_nat n) (entry_pairs es) -> Z.of_nat n < 2 ^ 32 ->
  reverse_mapping_loop es names = Some (foldl (fun l p => <[Z.to_nat (snd p) := Some (fst p)]> l) names (entry_pairs es)).
Proof.
  intros Hn Hp Hr. revert names Hn Hp. induction es as [|e es IH]; intros names Hn Hp; [done|].
  cbn [reverse_mapping_loop]. unfold wasm_hash_entry_is_free, entry_pairs in *. cbn [omap list_omap] in *.
  destruct (binding_name (entry_binding e)) as [s|] eqn:Es; cbn in *; [|by apply IH].
  apply Forall_cons in Hp as [Hi Hp]. cbn in Hi. rewrite (wrap_id 32) by (split; lia).
  rewrite zset_Some by lia. cbn [mbind option_bind]. apply IH; [by rewrite length_insert|done].
Qed.

Definition put_names : list WasmStringSlice -> list (string * Z) -> list WasmStringSlice :=
  foldl (fun l p => <[Z.to_nat (snd p) := Some (fst p)]> l).

Lemma put_names_other l names k : Forall (fun p => 0 <= snd p) l -> Z.of_nat k ∉ l.*2 -> put_names names l !! k = names !! k.
Proof.
  unfold put_names. revert names. induction l as [|[s i] l IH]; intros names Hp Hk; [done|]. cbn in *.
  apply Forall_cons in Hp as [Hi Hp]. cbn in Hi. apply not_elem_of_cons in Hk as [Hne Hk].
  rewrite IH by done. apply list_lookup_insert_ne. lia.
Qed.

Lemma length_put_names l names : length (put_names names l) = length names.
Proof.
  unfold put_names. revert names. induction l as [|p l IH]; intros names; [done|]. cbn. by rewrite IH, length_insert.
Qed.

Lemma put_names_in l names s i : Forall (fun p => 0 <= snd p < Z.of_nat (length names)) l -> NoDup l.*2 -> (s, i) ∈ l ->
  put_names names l !! Z.to_nat i = Some (Some s).
Proof.
  revert names. induction l as [|[t j] l IH]; intros names Hp Hd Hin; [by apply elem_of_nil in Hin|].
  cbn in Hd. apply NoDup_cons in Hd as [Hj Hd]. apply Forall_cons in Hp as [Hr Hp]. cbn in Hr.
  change (put_names names ((t, j) :: l)) with (put_names (<[Z.to_nat j := Some t]> names) l).
  apply elem_of_cons in Hin as [[= <- <-]|Hin].
  - rewrite put_names_other; [apply list_lookup_insert_eq; unfold WasmStringSlice in *; lia| |by rewrite Z2Nat.id by lia].
    eapply Forall_impl; [exact Hp|]. cbn. lia.
  - apply IH; [by rewrite length_insert|done|done].
Qed.

Lemma named_from_indices i names : NoDup (named_from i names).*2 /\
  Forall (fun p => i <= snd p < i + Z.of_nat (length names)) (named_from i names).
Proof.
  revert i. induction names as [|n names IH]; intros i; [split; constructor|].
  destruct (IH (i + 1)) as [Hd Hr].
  assert (Forall (fun p : string * Z => i <= snd p < i + Z.of_nat (length (n :: names))) (named_from (i + 1) names)) as Hr'
    by (eapply Forall_impl; [exact Hr|]; cbn; lia).
  destruct n as [s|]; cbn [named_from]; [|done]. split; [|constructor; [cbn; lia|done]]. cbn. constructor; [|done].
  intros (p & E & Hp)%list_elem_of_fmap. rewrite Forall_forall in Hr. specialize (Hr p Hp). lia.
Qed.

Lemma reverse_mapping_tabled types h names : tabled h names -> length names = length types -> Z.of_nat (length types) < 2 ^ 32 ->
  wasm_make_type_binding_reverse_mapping types h = Some names.
Proof.
  intros (_ & Hp & _) Hl Ht. unfold wasm_make_type_binding_reverse_mapping. unfold bindings_of in Hp.
  destruct (named_from_indices 0 names) as [Hd Hr]. rewrite <- Hp in Hd. cbn [Z.add] in Hr.
  assert (Forall (fun p => 0 <= snd p < Z.of_nat (length types)) (entry_pairs (vec_data (entries h)))) as Hr'
    by (rewrite Hp, <- Hl; exact Hr).
  rewrite (reverse_mapping_pairs _ _ (length types)) by (done || apply length_replicate). f_equal.
  change (foldl _ _ _) with (put_names (replicate (length types) None) (entry_pairs (vec_data (entries h)))).
  apply list_eq. intros k. destruct (names !! k) as [[s|]|] eqn:Ek.
  - rewrite <- (Nat2Z.id k). apply put_names_in; [by rewrite length_replicate|done|]. rewrite Hp, elem_named_from.
    rewrite Z.sub_0_r, Nat2Z.id. split; [lia|done].
  - rewrite put_names_other.
    + apply lookup_lt_Some in Ek. rewrite lookup_replicate. split; [done|lia].
    + eapply Forall_impl; [exact Hr'|]. cbn. lia.
    + intros ([s i] & Ei & Hin)%list_elem_of_fmap. rewrite Hp, elem_named_from, Z.sub_0_r in Hin. cbn in Ei. subst i.
      rewrite Nat2Z.id in Hin. destruct Hin as [_ Hin]. by pose proof (eq_trans (eq_sym Ek) Hin).
  - apply lookup_ge_None in Ek. apply lookup_ge_None. rewrite length_put_names, length_replicate. lia.
Qed.

(** ** What [ApplyNames] does to each variable *)

(** An index into a space of [n] items. *)
Definition in_space (n : nat) (v : WasmVar) : bool :=
  match v with
  | VAR_INDEX i => (0 <=? to_int i) && (to_int i <? Z.of_nat n)
  | VAR_NAME _ => true
  end.

Definition name_index (names : list WasmStringSlice) (i : Z) (v : WasmVar) : WasmVar :=
  match zget names i with Some (Some s) => VAR_NAME s | _ => v end.

Definition name_var (names : list WasmStringSlice) (v : WasmVar) : WasmVar :=
  match v with VAR_INDEX i => name_index names (to_int i) v | VAR_NAME _ => v end.

(** A label that is out of range stays an index. *)
Definition name_label (ls : list WasmLabel) (v : WasmVar) : WasmVar :=
  match v with VAR_INDEX i => name_index ls i v | VAR_NAME _ => v end.

Definition func_names (m : WasmModule) : list WasmStringSlice := map func_name (module_funcs m).
Definition global_names (m : WasmModule) : list WasmStringSlice := map global_name (module_globals m).
Definition func_type_names (m : WasmModule) : list WasmStringSlice := map func_type_name (module_func_types m).
Definition table_names (m : WasmModule) : list WasmStringSlice := map table_name (module_tables m).
Definition memory_names (m : WasmModule) : list WasmStringSlice := map memory_name (module_memories m).

(** Parameters, then locals. *)
Definition param_names (f : WasmFunc) : list WasmStringSlice :=
  default [] (wasm_make_type_binding_reverse_mapping (param_types (decl_sig (func_decl f))) (func_param_bindings f)).
Definition local_names (f : WasmFunc) : list WasmStringSlice :=
  default [] (wasm_make_type_binding_reverse_mapping (func_local_types f) (func_local_bindings f)).

Section applied.
Context (m : WasmModule).

Fixpoint applied_expr (locals : list WasmStringSlice) (e : WasmExpr) (ls : list WasmLabel) : WasmExpr :=
  match e with
  | EXPR_BLOCK l s es => EXPR_BLOCK l s (map (fun e => applied_expr locals e (l :: ls)) es)
  | EXPR_LOOP l s es => EXPR_LOOP l s (map (fun e => applied_expr locals e (l :: ls)) es)
  | EXPR_IF l s ts fs =>
      EXPR_IF l s (map (fun e => applied_expr locals e (l :: ls)) ts) (map (fun e => applied_expr locals e (l :: ls)) fs)
  | EXPR_BR v => EXPR_BR (name_label ls v)
  | EXPR_BR_IF v => EXPR_BR_IF (name_label ls v)
  | EXPR_BR_TABLE ts d => EXPR_BR_TABLE (map (name_label ls) ts) (name_label ls d)
  | EXPR_CALL v => EXPR_CALL (name_var (func_names m) v)
  | EXPR_CALL_INDIRECT v => EXPR_CALL_INDIRECT (name_var (func_type_names m) v)
  | EXPR_GET_GLOBAL v => EXPR_GET_GLOBAL (name_var (global_names m) v)
  | EXPR_SET_GLOBAL v => EXPR_SET_GLOBAL (name_var (global_names m) v)
  | EXPR_GET_LOCAL v => EXPR_GET_LOCAL (name_var locals v)
  | EXPR_SET_LOCAL v => EXPR_SET_LOCAL (name_var locals v)
  | EXPR_TEE_LOCAL v => EXPR_TEE_LOCAL (name_var locals v)
  | _ => e
  end.

(** Whether every index the pass looks up is in its space; labels are not. *)
Fixpoint in_range_expr (num_locals : nat) (e : WasmExpr) : bool :=
  match e with
  | EXPR_BLOCK _ _ es | EXPR_LOOP _ _ es => forallb (in_range_expr num_locals) es
  | EXPR_IF _ _ ts fs => forallb (in_range_expr num_locals) ts && forallb (in_range_expr num_locals) fs
  | EXPR_CALL v => in_space (length (func_names m)) v
  | EXPR_CALL_INDIRECT v => in_space (length (func_type_names m)) v
  | EXPR_GET_GLOBAL v | EXPR_SET_GLOBAL v => in_space (length (global_names m)) v
  | EXPR_GET_LOCAL v | EXPR_SET_LOCAL v | EXPR_TEE_LOCAL v => in_space num_locals v
  | _ => true
  end.

Definition applied_decl (d : WasmFuncDeclaration) : WasmFuncDeclaration :=
  if wasm_decl_has_func_type d
  then mkFuncDeclaration (decl_flags d) (name_var (func_type_names m) (decl_type_var d)) (decl_sig d)
  else d.

Definition applied_func (f : WasmFunc) : WasmFunc :=
  mkFunc (func_name f) (applied_decl (func_decl f)) (func_local_types f) (func_param_bindings f) (func_local_bindings f)
    (map (fun e => applied_expr (param_names f ++ local_names f) e []) (func_first_expr f)).

Definition num_locals (f : WasmFunc) : nat :=
  length (param_types (decl_sig (func_decl f))) + length (func_local_types f).

Definition in_range_func (f : WasmFunc) : bool :=
  (negb (wasm_decl_has_func_type (func_decl f)) || in_space (length (func_type_names m)) (decl_type_var (func_decl f))) &&
  forallb (in_range_expr (num_locals f)) (func_first_expr f).

(** What the pass makes of a field: it looks up the variables of exports of
    every kind among the functions, and does not visit the start variable and
    the expressions that initialize globals and segments. *)
Definition applied_field (f : WasmModuleField) : WasmModuleField :=
  match f with
  | FIELD_FUNC x => FIELD_FUNC (applied_func x)
  | FIELD_IMPORT (mkImport a b (IMPORT_FUNC x)) => FIELD_IMPORT (mkImport a b (IMPORT_FUNC (applied_func x)))
  | FIELD_EXPORT x => FIELD_EXPORT (mkExport (export_name x) (export_kind x) (name_var (func_names m) (export_var x)))
  | FIELD_ELEM_SEGMENT x => FIELD_ELEM_SEGMENT (mkElemSegment (name_var (table_names m) (elem_table_var x)) (elem_offset x)
      (map (name_var (func_names m)) (elem_vars x)))
  | FIELD_DATA_SEGMENT x =>
      FIELD_DATA_SEGMENT (mkDataSegment (name_var (memory_names m) (data_memory_var x)) (data_offset x) (data_data x))
  | _ => f
  end.

Definition in_range_field (f : WasmModuleField) : bool :=
  match f with
  | FIELD_FUNC x | FIELD_IMPORT (mkImport _ _ (IMPORT_FUNC x)) => in_range_func x
  | FIELD_ELEM_SEGMENT x =>
      in_space (length (table_names m)) (elem_table_var x) && forallb (in_space (length (func_names m))) (elem_vars x)
  | FIELD_DATA_SEGMENT x => in_space (length (memory_names m)) (data_memory_var x)
  | _ => true
  end.
End applied.

Definition in_range (m : WasmModule) : bool := forallb (in_range_field m) (module_fields m).
Definition applied_module (m : WasmModule) : WasmModule := with_fields m (map (applied_field m) (module_fields m)).

(** The names an export means. *)
Definition export_names (m : WasmModule) (k : WasmExternalKind) : list WasmStringSlice :=
  match k with
  | WASM_EXTERNAL_KIND_FUNC => func_names m
  | WASM_EXTERNAL_KIND_TABLE => table_names m
  | WASM_EXTERNAL_KIND_MEMORY => memory_names m
  | WASM_EXTERNAL_KIND_GLOBAL => global_names m
  end.

(** The field with the variables that are visited named, exports each in the
    space of its kind. *)
Definition named_field (m : WasmModule) (f : WasmModuleField) : WasmModuleField :=
  match f with
  | FIELD_EXPORT x =>
      FIELD_EXPORT (mkExport (export_name x) (export_kind x) (name_var (export_names m (export_kind x)) (export_var x)))
  | _ => applied_field m f
  end.

Definition named_module (m : WasmModule) : WasmModule := with_fields m (map (named_field m) (module_fields m)).

Definition exports_func (f : WasmModuleField) : bool :=
  match f with
  | FIELD_EXPORT x => match export_kind x with WASM_EXTERNAL_KIND_FUNC => true | _ => false end
  | _ => true
  end.

Lemma applied_named m : forallb exports_func (module_fields m) = true -> applied_module m = named_module m.
Proof.
  intros He. unfold applied_module, named_module. f_equal. apply map_ext_in. intros f Hf.
  rewrite List.forallb_forall in He. specialize (He f Hf).
  destruct f as [x|x|x|[n k v]|x|x|x|x|x|x]; try done. by destruct k.
Qed.

(** ** Runs of the pass

    From a context of [P] the computation ends with [a] in one of [Q], or, when
    [ok] does not hold, with an error. *)

Definition gives {A} (P Q : ApplyNames.Context -> Prop) (comp : AN (WasmResult * A)) (ok : bool) (a : A) : Prop :=
  forall c, P c -> if ok then exists c', comp c = Some ((WASM_OK, a), c') /\ Q c'
    else exists a' c', comp c = Some ((WASM_ERROR, a'), c').

(** An error is handed on. *)
Definition strict {A B} (k : WasmResult * A -> AN (WasmResult * B)) : Prop :=
  forall a c, exists b c', k (WASM_ERROR, a) c = Some ((WASM_ERROR, b), c').

Lemma gives_ret {A} (P : ApplyNames.Context -> Prop) (a : A) : gives P P (so_ret (WASM_OK, a)) true a.
Proof. intros c Hc. by exists c. Qed.

Lemma gives_bind {A B} P Q R (comp : AN (WasmResult * A)) (k : WasmResult * A -> AN (WasmResult * B)) ok a ok' b :
  gives P Q comp ok a -> strict k -> (ok = true -> gives Q R (k (WASM_OK, a)) ok' b) -> gives P R (so_bind comp k) (ok && ok') b.
Proof.
  intros H Hs Hk c Hc. specialize (H c Hc). unfold so_bind. destruct ok; cbn [andb].
  - destruct H as (c' & -> & Hc'). by apply (Hk eq_refl).
  - destruct H as (a' & c' & ->). apply Hs.
Qed.

Lemma strict_check {A B} (f : A -> B) (k : A -> AN (WasmResult * B)) :
  strict (fun p : WasmResult * A => let (r, a) := p in check_result r (f a) (k a)).
Proof. intros a c. by exists (f a), c. Qed.

Lemma strict_ret {A B} (f : A -> B) : strict (fun p : WasmResult * A => let (r, a) := p in so_ret (r, f a)).
Proof. intros a c. by exists (f a), c. Qed.

Lemma gives_map {A B} P Q (comp : AN (WasmResult * A)) ok a (f : A -> B) :
  gives P Q comp ok a -> gives P Q (so_bind comp (fun p : WasmResult * A => let (r, a) := p in so_ret (r, f a))) ok (f a).
Proof.
  intros H. rewrite <- (andb_true_r ok). eapply gives_bind; [exact H|apply strict_ret|]. intros _. apply gives_ret.
Qed.

Lemma gives_each {A} P (visit : A -> AN (WasmResult * A)) (ok : A -> bool) (f : A -> A) l :
  Forall (fun x => gives P P (visit x) (ok x) (f x)) l -> gives P P (visit_each visit l) (forallb ok l) (map f l).
Proof.
  induction 1 as [|x l Hx _ IH]; cbn [visit_each forallb map]; [apply gives_ret|].
  eapply gives_bind; [exact Hx|apply (strict_check (fun x => x :: l))|]. intros _. cbn [check_result WASM_FAILED].
  apply (gives_map _ _ _ _ _ (cons (f x))), IH.
Qed.

Lemma gives_loop P (visit : WasmExpr -> AN (WasmResult * WasmExpr)) (ok : WasmExpr -> bool) (f : WasmExpr -> WasmExpr) l :
  Forall (fun x => gives P P (visit x) (ok x) (f x)) l -> gives P P (Visitor.visit_loop visit l) (forallb ok l) (map f l).
Proof.
  induction 1 as [|x l Hx _ IH]; cbn [Visitor.visit_loop forallb map]; [apply gives_ret|].
  eapply gives_bind; [exact Hx|apply (strict_check (fun x => x :: l))|]. intros _. cbn [check_result WASM_FAILED].
  apply (gives_map _ _ _ _ _ (cons (f x))), IH.
Qed.

(** Code that can neither fail nor report. *)
Lemma gives_step {A B} P Q R (comp : AN A) (k : A -> AN (WasmResult * B)) a ok b :
  (forall c, P c -> exists c', comp c = Some (a, c') /\ Q c') -> gives Q R (k a) ok b -> gives P R (so_bind comp k) ok b.
Proof. intros H Hk c Hc. destruct (H c Hc) as (c' & E & Hc'). unfold so_bind. rewrite E. by apply Hk. Qed.

(** ** Variables *)

Lemma get_by_index_zget {A} (l : list A) i : get_by_index l i = zget l i.
Proof.
  unfold get_by_index. destruct (Z.ltb_spec i 0); cbn [orb]; [unfold zget; by rewrite (proj2 (Z.ltb_lt i 0))|].
  destruct (Z.leb_spec (Z.of_nat (length l)) i); [|done].
  unfold zget. rewrite (proj2 (Z.ltb_ge i 0)) by lia. symmetry. apply lookup_ge_None. lia.
Qed.

Lemma zget_of_map {A B} (f : A -> B) l i : zget (map f l) i = f <$> zget l i.
Proof. unfold zget. destruct (i <? 0); [done|]. apply list_lookup_fmap. Qed.

Lemma zget_in_space {A} (l : list A) i :
  (0 <=? i) && (i <? Z.of_nat (length l)) = match zget l i with Some _ => true | None => false end.
Proof.
  destruct (zget l i) eqn:E; [apply zget_lt in E; by rewrite (proj2 (Z.leb_le _ _)), (proj2 (Z.ltb_lt _ _)) by lia|].
  apply not_true_iff_false. rewrite andb_true_iff, Z.leb_le, Z.ltb_lt. intros [H1 H2]. unfold zget in E.
  rewrite (proj2 (Z.ltb_ge i 0)) in E by lia. apply lookup_ge_None in E. lia.
Qed.

Section vars.
Context (m : WasmModule) (P : ApplyNames.Context -> Prop).
Hypothesis HP : forall c, P c -> ctx_module c = m.

Lemma use_named (name : WasmStringSlice) v c :
  (forall s, v = VAR_NAME s -> name = Some s) ->
  use_name_for_var (Some name) v c = Some (match name with Some s => VAR_NAME s | None => v end, c).
Proof.
  intros Hv. destruct v as [i|s]; [by destruct name|]. rewrite (Hv s eq_refl). unfold use_name_for_var, so_bind, so_lift.
  cbn [wasm_string_slices_are_equal]. by rewrite String.eqb_refl.
Qed.

Lemma module_var_run {A} (get : WasmModule -> WasmVar -> option (option A)) (name : A -> WasmStringSlice) v c :
  use_name_for_module_var get name v c =
    match get (ctx_module c) v with
    | None => None
    | Some None => Some ((WASM_ERROR, v), c)
    | Some (Some x) => so_bind (use_name_for_var (Some (name x)) v) (fun v => so_ret (WASM_OK, v)) c
    end.
Proof. unfold use_name_for_module_var, so_bind at 1 2, so_get, so_lift. by destruct (get _ v) as [[]|]. Qed.

Lemma use_module_var {A} (bs : WasmModule -> WasmBindingHash) (items : WasmModule -> list A) (name : A -> WasmStringSlice) v v' :
  tabled (bs m) (map name (items m)) -> ref_var bound (bs m) v = Some v' ->
  gives P P (use_name_for_module_var (fun m v => index ← wasm_get_index_from_var (bs m) v; Some (get_by_index (items m) index)) name v)
    (in_space (length (map name (items m))) v) (name_var (map name (items m)) v).
Proof.
  intros Ht Hr c Hc. rewrite module_var_run, (HP c Hc).
  destruct v as [i|s]; cbn [wasm_get_index_from_var ref_var mbind option_bind in_space name_var] in *.
  - rewrite get_by_index_zget, zget_in_space. unfold name_index. rewrite zget_of_map.
    destruct (zget (items m) (to_int i)) as [x|]; cbn [fmap option_fmap option_map].
    + unfold so_bind. rewrite use_named by done. exists c. split; [|done]. by destruct (name x).
    + by exists (VAR_INDEX i), c.
  - rewrite (tabled_find _ _ _ Ht). apply fmap_Some in Hr as (i & Hi & _). rewrite Hi. cbn [default from_option id].
    rewrite (tabled_bound _ _ _ _ Ht), zget_of_map in Hi. apply fmap_Some in Hi as (x & Hx & Hn).
    cbn [mbind option_bind]. rewrite get_by_index_zget, Hx. unfold so_bind. rewrite <- Hn, use_named by naive_solver. by exists c.
Qed.

Record module_named : Prop := mkModuleNamed {
  funcs_named : tabled (func_bindings m) (func_names m);
  globals_named : tabled (global_bindings m) (global_names m);
  func_types_named : tabled (func_type_bindings m) (func_type_names m);
  tables_named : tabled (table_bindings m) (table_names m);
  memories_named : tabled (memory_bindings m) (memory_names m)
}.
Hypothesis Hm : module_named.

Lemma use_func_var v v' : ref_var bound (func_bindings m) v = Some v' ->
  gives P P (use_name_for_func_var v) (in_space (length (func_names m)) v) (name_var (func_names m) v).
Proof. apply (use_module_var func_bindings module_funcs), Hm. Qed.
Lemma use_global_var v v' : ref_var bound (global_bindings m) v = Some v' ->
  gives P P (use_name_for_global_var v) (in_space (length (global_names m)) v) (name_var (global_names m) v).
Proof. apply (use_module_var global_bindings module_globals), Hm. Qed.
Lemma use_func_type_var v v' : ref_var bound (func_type_bindings m) v = Some v' ->
  gives P P (use_name_for_func_type_var v) (in_space (length (func_type_names m)) v) (name_var (func_type_names m) v).
Proof. apply (use_module_var func_type_bindings module_func_types), Hm. Qed.
Lemma use_table_var v v' : ref_var bound (table_bindings m) v = Some v' ->
  gives P P (use_name_for_table_var v) (in_space (length (table_names m)) v) (name_var (table_names m) v).
Proof. apply (use_module_var table_bindings module_tables), Hm. Qed.
Lemma use_memory_var v v' : ref_var bound (memory_bindings m) v = Some v' ->
  gives P P (use_name_for_memory_var v) (in_space (length (memory_names m)) v) (name_var (memory_names m) v).
Proof. apply (use_module_var memory_bindings module_memories), Hm. Qed.
End vars.

(** Parameters and locals whose names are in their tables. *)
Record func_named (f : WasmFunc) : Prop := mkFuncNamed {
  params_tabled : tabled (func_param_bindings f) (param_names f);
  locals_tabled : tabled (func_local_bindings f) (local_names f);
  params_length : length (param_names f) = length (param_types (decl_sig (func_decl f)));
  locals_length : length (local_names f) = length (func_local_types f);
  params_few : Z.of_nat (length (param_types (decl_sig (func_decl f)))) < 2 ^ 32;
  locals_few : Z.of_nat (length (func_local_types f)) < 2 ^ 32
}.

Section func.
Context (m : WasmModule) (f : WasmFunc).
Hypothesis Hm : module_named m.
Hypothesis Hf : func_named f.

Definition in_func (ls : list WasmLabel) (c : ApplyNames.Context) : Prop :=
  c = ApplyNames.mkContext m (Some f) (param_names f) (local_names f) ls.

Abbreviation names := (param_names f ++ local_names f).

Lemma in_func_module ls c : in_func ls c -> ctx_module c = m.
Proof. by intros ->. Qed.

Lemma name_of_local i : 0 <= i < wasm_get_num_params_and_locals f ->
  (if i <? wasm_get_num_params f then zget (param_names f) i else zget (local_names f) (i - wasm_get_num_params f)) = zget names i.
Proof.
  intros Hi. unfold wasm_get_num_params, wasm_get_num_params_and_locals in *. pose proof (params_length f Hf) as Hl.
  unfold zget. rewrite (proj2 (Z.ltb_ge i 0)) by lia.
  destruct (Z.ltb_spec i (Z.of_nat (length (param_types (decl_sig (func_decl f)))))).
  - rewrite lookup_app_l; [done|unfold WasmStringSlice in *; lia].
  - rewrite (proj2 (Z.ltb_ge _ 0)) by lia. rewrite lookup_app_r by (unfold WasmStringSlice in *; lia). f_equal.
    unfold WasmStringSlice in *. lia.
Qed.

Lemma length_names : Z.of_nat (length names) = wasm_get_num_params_and_locals f.
Proof.
  pose proof (params_length f Hf). pose proof (locals_length f Hf). rewrite length_app.
  unfold wasm_get_num_params_and_locals, wasm_get_num_params, wasm_get_num_locals. unfold WasmStringSlice in *. lia.
Qed.

(** A name that resolves is the name at the index it resolves to. *)
Lemma named_local s v : ref_local bound (Some f) (VAR_NAME s) = Some v ->
  exists i, v = VAR_INDEX i /\ wasm_get_local_index_by_var f (VAR_NAME s) = Some i /\
    0 <= i < wasm_get_num_params_and_locals f /\ zget names i = Some (Some s).
Proof.
  pose proof (params_tabled f Hf) as Hp. pose proof (locals_tabled f Hf) as Hl. pose proof (params_length f Hf) as Lp.
  cbn [ref_local mbind option_bind wasm_get_local_index_by_var]. rewrite (tabled_find _ _ _ Hp), (tabled_find _ _ _ Hl).
  cbn [mbind option_bind].
  assert (forall i, zget names i = Some (Some s) -> 0 <= i < wasm_get_num_params_and_locals f) as Hr
    by (intros i Hi; rewrite <- length_names; by eapply zget_lt).
  destruct (bound (func_param_bindings f) s) as [i|] eqn:Ei.
  - intros [= <-]. pose proof (bound_nonneg _ _ _ (proj1 Hp) Ei) as Hi. rewrite (tabled_bound _ _ _ _ Hp) in Ei.
    cbn [default from_option id]. rewrite (proj2 (Z.eqb_neq _ _)) by lia.
    assert (zget names i = Some (Some s)) as Hn
      by (apply zget_Some in Ei as [_ Ei]; apply zget_Some; split; [done|by apply lookup_app_l_Some]).
    exists i. split_and!; [done|done|by apply Hr..|done].
  - intros (i & Ej & ->)%fmap_Some. pose proof (bound_nonneg _ _ _ (proj1 Hl) Ej) as Hi. rewrite Ej.
    rewrite (tabled_bound _ _ _ _ Hl) in Ej. cbn [default from_option id]. rewrite (proj2 (Z.eqb_neq i _)) by lia. cbn [Z.eqb negb].
    assert (zget names (wasm_get_num_params f + i) = Some (Some s)) as Hn.
    { apply zget_Some in Ej as [_ Ej]. apply zget_Some. unfold wasm_get_num_params. split; [lia|].
      rewrite lookup_app_r by (unfold WasmStringSlice in *; lia). rewrite <- Ej. f_equal. unfold WasmStringSlice in *. lia. }
    exists (wasm_get_num_params f + i). split_and!; [done|done|by apply Hr..|done].
Qed.

Lemma local_var_run ls v i : wasm_get_local_index_by_var f v = Some i ->
  use_name_for_param_and_local_var v (ApplyNames.mkContext m (Some f) (param_names f) (local_names f) ls) =
    match zget names i with
    | None => Some ((WASM_ERROR, v), ApplyNames.mkContext m (Some f) (param_names f) (local_names f) ls)
    | Some name =>
        match v with
        | VAR_NAME n => so_bind (so_assert (wasm_string_slices_are_equal name (Some n))) (fun _ => so_ret (WASM_OK, v))
        | VAR_INDEX _ => so_ret (WASM_OK, match name with Some start => VAR_NAME start | None => v end)
        end (ApplyNames.mkContext m (Some f) (param_names f) (local_names f) ls)
    end.
Proof.
  intros Ei. unfold use_name_for_param_and_local_var, so_bind at 1 2 3, so_get, so_lift. cbn [current_func]. rewrite Ei.
  pose proof (zget_in_space names i) as Hz. rewrite length_names in Hz.
  assert ((i <? 0) || (wasm_get_num_params_and_locals f <=? i) = negb ((0 <=? i) && (i <? wasm_get_num_params_and_locals f))) as ->
    by (rewrite negb_andb, Z.leb_antisym, (Z.leb_antisym i), negb_involutive; done).
  rewrite Hz. destruct (zget names i) as [n|] eqn:En; cbn [negb]; [|done].
  pose proof (name_of_local i) as E. rewrite En in E. specialize (E ltac:(rewrite <- length_names; by eapply zget_lt)).
  cbn [param_index_to_name local_index_to_name]. unfold so_bind.
  destruct (i <? wasm_get_num_params f); rewrite E; destruct v; by destruct n.
Qed.

Lemma use_local_var ls v v' : ref_local bound (Some f) v = Some v' ->
  gives (in_func ls) (in_func ls) (use_name_for_param_and_local_var v) (in_space (num_locals f) v) (name_var names v).
Proof.
  intros Hr c ->. destruct v as [i|s].
  - rewrite (local_var_run ls (VAR_INDEX i) (to_int i)) by done. cbn [in_space name_var]. unfold name_index.
    assert (num_locals f = length names) as -> by (apply Nat2Z.inj; rewrite length_names; unfold num_locals,
      wasm_get_num_params_and_locals, wasm_get_num_params, wasm_get_num_locals; lia).
    rewrite zget_in_space. destruct (zget names (to_int i)) as [n|]; [|by repeat eexists].
    eexists. split; [|reflexivity]. by destruct n.
  - destruct (named_local s v' Hr) as (i & -> & Ei & Hi & Hn). rewrite (local_var_run _ _ _ Ei), Hn.
    eexists. split; [|reflexivity]. unfold so_bind. cbn [wasm_string_slices_are_equal]. by rewrite String.eqb_refl.
Qed.

Lemma find_list_find ls s : find (fun label => wasm_string_slices_are_equal label (Some s)) ls =
  (fun _ => Some s) <$> list_find (fun l : WasmStringSlice => l = Some s) ls.
Proof.
  induction ls as [|l ls IH]; [done|]. cbn [find list_find]. rewrite slices_equal_spec.
  case_bool_decide as E; (case_decide; [|]); try done; [by rewrite E|]. rewrite IH.
  by destruct (list_find _ ls) as [[]|].
Qed.

Lemma use_label_gives ls v v' : ref_label ls v = Some v' ->
  forall c, in_func ls c -> exists c', use_label v c = Some (name_label ls v, c') /\ in_func ls c'.
Proof.
  intros Hr c ->. eexists. split; [|reflexivity]. unfold use_label, find_label_by_var, so_bind at 1 2, so_get.
  cbn [labels]. destruct v as [i|s]; cbn [ref_label name_label] in *; unfold so_ret.
  - unfold name_index, WasmLabel in *. destruct (zget ls i) as [n|]; [rewrite use_named by done; by destruct n|done].
  - rewrite find_list_find. apply fmap_Some in Hr as ([k x] & -> & _). cbn [fmap option_fmap option_map].
    rewrite use_named by naive_solver. done.
Qed.

(** ** Expressions *)

Lemma begin_gives ls l e : ApplyNames.begin_block e = so_bind (ApplyNames.push_label l) (fun _ => so_ret (WASM_OK, e)) ->
  gives (in_func ls) (in_func (l :: ls)) (ApplyNames.begin_block e) true e.
Proof. intros -> c ->. by eexists. Qed.

Lemma enter_gives {B} ls l e (k : WasmResult * WasmExpr -> AN (WasmResult * B)) R ok b :
  ApplyNames.begin_block e = so_bind (ApplyNames.push_label l) (fun _ => so_ret (WASM_OK, e)) -> strict k ->
  gives (in_func (l :: ls)) R (k (WASM_OK, e)) ok b -> gives (in_func ls) R (so_bind (ApplyNames.begin_block e) k) ok b.
Proof.
  intros Hb Hk H. apply (gives_bind _ (in_func (l :: ls)) _ _ _ true e); [by apply begin_gives|done|done].
Qed.

Lemma gives_then {A B} P Q R (comp : AN (WasmResult * A)) (k : WasmResult * A -> AN (WasmResult * B)) ok a b :
  gives P Q comp ok a -> strict k -> gives Q R (k (WASM_OK, a)) true b -> gives P R (so_bind comp k) ok b.
Proof. intros H Hk Hb. rewrite <- (andb_true_r ok). by eapply gives_bind. Qed.

Lemma end_gives ls l e : gives (in_func (l :: ls)) (in_func ls) (ApplyNames.end_block e) true e.
Proof. intros c ->. by eexists. Qed.

Lemma use_label_expr ls v v' (put : WasmVar -> WasmExpr) : ref_label ls v = Some v' ->
  gives (in_func ls) (in_func ls) (so_bind (use_label v) (fun v => so_ret (WASM_OK, put v))) true (put (name_label ls v)).
Proof. intros Hr. eapply gives_step; [by eapply use_label_gives|apply gives_ret]. Qed.

Lemma use_labels_gives ls vs vs' : mapM (ref_label ls) vs = Some vs' ->
  forall c, in_func ls c -> exists c', so_map use_label vs c = Some (map (name_label ls) vs, c') /\ in_func ls c'.
Proof.
  intros H%mapM_Some. induction H as [|v v' vs vs' Hv _ IH]; intros c Hc; cbn [so_map map]; [by exists c|].
  destruct (use_label_gives ls v v' Hv c Hc) as (c1 & E1 & H1). destruct (IH c1 H1) as (c2 & E2 & H2).
  exists c2. unfold so_bind. by rewrite E1, E2.
Qed.

Lemma mapM_all {A B} (g : A -> option B) (Q : A -> Prop) l l' : Forall (fun x => forall y, g x = Some y -> Q x) l ->
  mapM g l = Some l' -> Forall Q l.
Proof.
  intros H E%mapM_Some. revert H. induction E as [|x y l l' Exy _ IH]; intros H; [constructor|].
  apply Forall_cons in H as [Hx Hl]. constructor; [by apply (Hx y)|by apply IH].
Qed.

Lemma change_gives {A} P (put : WasmVar -> A) use v ok v' :
  gives P P (use v) ok v' -> gives P P (change put use v) ok (put v').
Proof. apply gives_map. Qed.

Lemma visit_gives e : forall ls e', ref_expr bound m (Some f) e ls = Some e' ->
  gives (in_func ls) (in_func ls) (visit_expr ApplyNames.visitor e) (in_range_expr m (num_locals f) e) (applied_expr m names e ls).
Proof.
  assert (forall es ls es', Forall (fun e => forall ls e', ref_expr bound m (Some f) e ls = Some e' ->
      gives (in_func ls) (in_func ls) (visit_expr ApplyNames.visitor e) (in_range_expr m (num_locals f) e) (applied_expr m names e ls)) es ->
    mapM (fun e => ref_expr bound m (Some f) e ls) es = Some es' ->
    gives (in_func ls) (in_func ls) (Visitor.visit_loop (visit_expr ApplyNames.visitor) es)
      (forallb (in_range_expr m (num_locals f)) es) (map (fun e => applied_expr m names e ls) es)) as Hlist.
  { intros es ls es' H E. apply gives_loop. eapply mapM_all; [|exact E].
    eapply Forall_impl; [exact H|]. intros x Hx y. apply Hx. }
  revert e. apply (WasmExpr_nested_ind (fun e => forall ls e', ref_expr bound m (Some f) e ls = Some e' ->
    gives (in_func ls) (in_func ls) (visit_expr ApplyNames.visitor e) (in_range_expr m (num_locals f) e) (applied_expr m names e ls))).
  - intros l s es H ls e' (es' & E & _)%fmap_Some.
    apply (enter_gives ls l); [done|apply (strict_check id)|]. cbn [check_result WASM_FAILED].
    eapply gives_then; [exact (Hlist es _ es' H E)|intros a c; by repeat eexists|]. apply end_gives.
  - intros l s es H ls e' (es' & E & _)%fmap_Some.
    apply (enter_gives ls l); [done|apply (strict_check id)|]. cbn [check_result WASM_FAILED].
    eapply gives_then; [exact (Hlist es _ es' H E)|intros a c; by repeat eexists|]. apply end_gives.
  - intros l s ts fs Ht Hs ls e' (ts' & Et & (fs' & Ef & _)%fmap_Some)%bind_Some.
    apply (enter_gives ls l); [done|apply (strict_check id)|]. cbn [check_result WASM_FAILED].
    eapply gives_bind; [exact (Hlist ts _ ts' Ht Et)|intros a c; by repeat eexists|intros _]. cbn [check_result WASM_FAILED].
    rewrite CALLBACK_none by done. cbn [check_result WASM_FAILED].
    eapply gives_then; [exact (Hlist fs _ fs' Hs Ef)|intros a c; by repeat eexists|]. apply end_gives.
  - pose proof use_label_expr as Hlab. pose proof in_func_module as Hin.
    intros []; try done; intros ls e' Hr; cbn [ref_expr] in Hr; try apply gives_ret;
      try (apply fmap_Some in Hr as (v & Hv & _)); try by eapply Hlab.
    2: apply (change_gives _ EXPR_CALL); eapply use_func_var; [apply Hin|done|done].
    2: apply (change_gives _ EXPR_CALL_INDIRECT); eapply use_func_type_var; [apply Hin|done|done].
    2: apply (change_gives _ EXPR_GET_GLOBAL); eapply use_global_var; [apply Hin|done|done].
    2: apply (change_gives _ EXPR_GET_LOCAL); by eapply use_local_var.
    2: apply (change_gives _ EXPR_SET_GLOBAL); eapply use_global_var; [apply Hin|done|done].
    2: apply (change_gives _ EXPR_SET_LOCAL); by eapply use_local_var.
    2: apply (change_gives _ EXPR_TEE_LOCAL); by eapply use_local_var.
    apply bind_Some in Hr as (ts & Et & (d & Ed & _)%fmap_Some).
    eapply gives_step; [by eapply use_labels_gives|]. eapply gives_step; [by eapply use_label_gives|apply gives_ret].
Qed.
End func.

(** ** Modules *)

Section module.
Context (m : WasmModule).
Hypothesis Hm : module_named m.

Definition outside_func (c : ApplyNames.Context) : Prop := ctx_module c = m /\ labels c = [].

(** A function is current, its names are not there yet. *)
Definition entered (f : WasmFunc) (c : ApplyNames.Context) : Prop :=
  ctx_module c = m /\ ApplyNames.current_func c = Some f /\ labels c = [].

Lemma visit_decl_gives f d' : ref_decl bound m (func_decl f) = Some d' ->
  gives (entered f) (entered f) (visit_decl (func_decl f))
    (negb (wasm_decl_has_func_type (func_decl f)) || in_space (length (func_type_names m)) (decl_type_var (func_decl f)))
    (applied_decl m (func_decl f)).
Proof.
  unfold ref_decl, visit_decl, applied_decl. intros Hr. destruct (wasm_decl_has_func_type (func_decl f)); [|apply gives_ret].
  apply fmap_Some in Hr as (v & Hv & _). apply (change_gives _ (fun v => mkFuncDeclaration _ v _)).
  eapply use_func_type_var; [by intros c [? _]|done|done].
Qed.

Lemma applied_decl_sig d : decl_sig (applied_decl m d) = decl_sig d.
Proof. unfold applied_decl. by destruct (wasm_decl_has_func_type d). Qed.

Lemma visit_func_gives f f' : func_named f -> ref_func bound m f = Some f' ->
  gives outside_func outside_func (ApplyNames.visit_func f) (in_range_func m f) (applied_func m f).
Proof.
  intros Hf. unfold ref_func. intros (d & Ed & H)%bind_Some. apply bind_Some in H as ([] & _ & H).
  apply bind_Some in H as ([] & _ & (es & Es & _)%fmap_Some). unfold ApplyNames.visit_func.
  eapply (gives_step _ (entered f)); [intros c [Hc Hl]; eexists; split; [reflexivity|by split_and!]|].
  eapply gives_bind; [by eapply visit_decl_gives| |intros _].
  { apply (strict_check (fun d => mkFunc (func_name f) d (func_local_types f) (func_param_bindings f) (func_local_bindings f) (func_first_expr f))). }
  cbn [check_result WASM_FAILED func_param_bindings func_local_bindings func_local_types]. rewrite applied_decl_sig.
  assert (wasm_make_type_binding_reverse_mapping (param_types (decl_sig (func_decl f))) (func_param_bindings f) = Some (param_names f) /\
    wasm_make_type_binding_reverse_mapping (func_local_types f) (func_local_bindings f) = Some (local_names f)) as [-> ->].
  { split; eapply reverse_mapping_tabled; apply Hf. }
  rewrite !so_bind_lift.
  eapply (gives_step _ (fun c => entered f c /\ param_index_to_name c = param_names f));
    [intros c (Hc & Hcf & Hl); eexists; split; [reflexivity|by split_and!]|].
  eapply (gives_step _ (in_func m f []));
    [intros [? ? ? ? ?] ((Hc & Hcf & Hl) & Hp); cbn in *; subst; eexists; split; reflexivity|].
  apply (gives_then _ (in_func m f []) _ _ _ _ (applied_func m f)).
  - apply (gives_map _ _ _ _ (map (fun e => applied_expr m (param_names f ++ local_names f) e []) (func_first_expr f))
      (mkFunc (func_name f) (applied_decl m (func_decl f)) (func_local_types f) (func_param_bindings f) (func_local_bindings f))).
    apply gives_loop. eapply mapM_all; [|exact Es]. apply Forall_true. intros e e' He. by eapply visit_gives.
  - intros a c. by repeat eexists.
  - cbn [check_result WASM_FAILED]. eapply gives_step; [|apply gives_ret]. intros c ->. eexists. split; [reflexivity|]. by split.
Qed.

(** *** The loops over the fields *)

#[local] Existing Instance pass_eq_dec.

(** What is assumed of a field. *)
Definition field_named (f : WasmModuleField) : Prop :=
  (exists b f', ref_field bound m b f = Some f') /\
  match f with FIELD_FUNC x | FIELD_IMPORT (mkImport _ _ (IMPORT_FUNC x)) => func_named x | _ => True end.

Definition apply_pass (p : pass) : WasmModuleField -> AN (WasmResult * WasmModuleField) :=
  match p with
  | PASS_FUNC => ApplyNames.visit_func_field
  | PASS_EXPORT => ApplyNames.visit_export_field
  | PASS_GLOBAL => fun f => so_ret (WASM_OK, f)
  | PASS_ELEM => ApplyNames.visit_elem_segment_field
  | PASS_DATA => ApplyNames.visit_data_segment_field
  end.

Definition applied_pass (p : pass) (f : WasmModuleField) : WasmModuleField :=
  if decide (pass_of f = Some p) then applied_field m f else f.

Definition in_range_pass (p : pass) (f : WasmModuleField) : bool :=
  if decide (pass_of f = Some p) then in_range_field m f else true.

Lemma outside_module c : outside_func c -> ctx_module c = m.
Proof. by intros [? _]. Qed.

Lemma use_vars_gives h n use vs vs' :
  (forall v v', ref_var bound h v = Some v' -> gives outside_func outside_func (use v) (in_space (length n) v) (name_var n v)) ->
  mapM (ref_var bound h) vs = Some vs' ->
  gives outside_func outside_func (visit_each use vs) (forallb (in_space (length n)) vs) (map (name_var n) vs).
Proof. intros Hu E. apply gives_each. eapply mapM_all; [|exact E]. apply Forall_true. intros v v'. apply Hu. Qed.

Lemma visit_elem_gives s t vs : ref_var bound (table_bindings m) (elem_table_var s) = Some t ->
  mapM (ref_var bound (func_bindings m)) (elem_vars s) = Some vs ->
  gives outside_func outside_func (ApplyNames.visit_elem_segment s)
    (in_space (length (table_names m)) (elem_table_var s) && forallb (in_space (length (func_names m))) (elem_vars s))
    (mkElemSegment (name_var (table_names m) (elem_table_var s)) (elem_offset s) (map (name_var (func_names m)) (elem_vars s))).
Proof.
  intros Ht Hv. unfold ApplyNames.visit_elem_segment.
  eapply gives_bind; [eapply use_table_var; [apply outside_module|done|done]| |intros _].
  { apply (strict_check (fun v => mkElemSegment v (elem_offset s) (elem_vars s))). }
  cbn [check_result WASM_FAILED]. apply (gives_map _ _ _ _ _ (mkElemSegment _ (elem_offset s))).
  eapply use_vars_gives; [|exact Hv]. intros v v' Hr. eapply use_func_var; [apply outside_module|done|done].
Qed.

(** Whatever becomes of the variable of an export, the pass goes on. *)
Lemma visit_export_gives x :
  gives outside_func outside_func (ApplyNames.visit_export x) true
    (mkExport (export_name x) (export_kind x) (name_var (func_names m) (export_var x))).
Proof.
  intros c Hc. unfold ApplyNames.visit_export, use_name_for_func_var, so_bind at 1. exists c. split; [|done].
  rewrite module_var_run, (outside_module c Hc). unfold wasm_get_func_by_var.
  destruct (export_var x) as [i|s]; cbn [wasm_get_index_from_var mbind option_bind name_var].
  - rewrite get_by_index_zget. unfold name_index, func_names. rewrite zget_of_map.
    destruct (zget (module_funcs m) (to_int i)) as [y|]; cbn [fmap option_fmap option_map]; [|done].
    unfold so_bind. rewrite use_named by done. by destruct (func_name y).
  - pose proof (funcs_named m Hm) as Ht. rewrite (tabled_find _ _ _ Ht). cbn [mbind option_bind].
    rewrite get_by_index_zget. destruct (bound (func_bindings m) s) as [i|] eqn:Ei; cbn [default from_option id]; [|done].
    rewrite (tabled_bound _ _ _ _ Ht) in Ei. unfold func_names in Ei. rewrite zget_of_map in Ei.
    apply fmap_Some in Ei as (y & -> & Hy). unfold so_bind. rewrite <- Hy, use_named; [done|]. by intros t [= ->].
Qed.

Lemma pass_gives p f : (pass_of f = Some p -> field_named f) ->
  gives outside_func outside_func (apply_pass p f) (in_range_pass p f) (applied_pass p f).
Proof.
  unfold in_range_pass, applied_pass. intros H. case_decide as E.
  - specialize (H E) as [(b & f' & Hr) Hn].
    destruct p, f as [x|x|[a c []]|x|x|x|x|x|x|x]; try discriminate E; cbn [apply_pass ref_field in_range_field applied_field] in *.
    + apply fmap_Some in Hr as (y & Hy & _). apply (gives_map _ _ _ _ _ FIELD_FUNC). by eapply visit_func_gives.
    + apply fmap_Some in Hr as (y & Hy & _).
      apply (gives_map _ _ _ _ _ (fun x => FIELD_IMPORT (mkImport a c (IMPORT_FUNC x)))). by eapply visit_func_gives.
    + apply (gives_map _ _ _ _ _ FIELD_EXPORT). apply visit_export_gives.
    + apply gives_ret.
    + apply gives_ret.
    + apply bind_Some in Hr as (t & Ht & Hr). apply bind_Some in Hr as (o & _ & Hr). apply fmap_Some in Hr as (vs & Hv & _).
      apply (gives_map _ _ _ _ _ FIELD_ELEM_SEGMENT). by eapply visit_elem_gives.
    + apply bind_Some in Hr as (t & Ht & _). apply (gives_map _ _ _ _ _ FIELD_DATA_SEGMENT).
      apply (change_gives _ (fun v => mkDataSegment v _ _)). eapply use_memory_var; [apply outside_module|done|done].
  - assert (apply_pass p f = so_ret (WASM_OK, f)) as ->; [|apply gives_ret].
    destruct p, f as [x|x|[a b []]|x|x|x|x|x|x|x]; try done; by destruct E.
Qed.

Lemma applied_field_pass f : pass_of (applied_field m f) = pass_of f.
Proof. by destruct f as [x|x|[a b []]|x|x|x|x|x|x|x]. Qed.

Lemma applied_pass_of p f : pass_of (applied_pass p f) = pass_of f.
Proof. unfold applied_pass. case_decide; [apply applied_field_pass|done]. Qed.

Lemma applied_pass_other p f : pass_of f <> Some p -> applied_pass p f = f.
Proof. intros H. unfold applied_pass. by rewrite decide_False. Qed.

Definition waiting (ps : list pass) (fs : list WasmModuleField) : Prop :=
  Forall (fun f => forall p, p ∈ ps -> pass_of f = Some p -> field_named f) fs.

Lemma loop_gives p ps fs {B} (k : WasmResult * list WasmModuleField -> AN (WasmResult * B)) ok b : p ∉ ps -> waiting (p :: ps) fs ->
  strict k -> (waiting ps (map (applied_pass p) fs) -> gives outside_func outside_func (k (WASM_OK, map (applied_pass p) fs)) ok b) ->
  gives outside_func outside_func (so_bind (visit_each (apply_pass p) fs) k) (forallb (in_range_pass p) fs && ok) b.
Proof.
  intros Hp H Hs Hk. eapply gives_bind; [|exact Hs|intros _; apply Hk].
  - apply gives_each. eapply Forall_impl; [exact H|]. intros f Hf. apply pass_gives, Hf. by left.
  - unfold waiting in *. rewrite Forall_map. eapply Forall_impl; [exact H|]. intros f Hf q Hq. rewrite applied_pass_of. intros Eq.
    rewrite applied_pass_other by congruence. apply (Hf q); [by right|done].
Qed.

Definition applied_passes (f : WasmModuleField) : WasmModuleField :=
  applied_pass PASS_DATA (applied_pass PASS_ELEM (applied_pass PASS_EXPORT (applied_pass PASS_FUNC f))).

Definition in_range_passes (f : WasmModuleField) : bool :=
  in_range_pass PASS_FUNC f && (in_range_pass PASS_EXPORT (applied_pass PASS_FUNC f) &&
  (in_range_pass PASS_ELEM (applied_pass PASS_EXPORT (applied_pass PASS_FUNC f)) &&
   in_range_pass PASS_DATA (applied_pass PASS_ELEM (applied_pass PASS_EXPORT (applied_pass PASS_FUNC f))))).

Lemma passes_applied f : applied_passes f = applied_field m f /\ in_range_passes f = in_range_field m f.
Proof.
  unfold applied_passes, in_range_passes. destruct f as [x|x|[a b []]|x|x|x|x|x|x|x]; (split; [reflexivity|]);
    try reflexivity; apply andb_true_r.
Qed.

Lemma forallb_map_and {A B} (f : A -> bool) (g : B -> bool) (h : A -> B) l :
  forallb f l && forallb g (map h l) = forallb (fun x => f x && g (h x)) l.
Proof.
  induction l as [|x l IH]; [done|]. cbn [forallb map]. rewrite <- IH. destruct (f x), (g (h x)), (forallb f l); done.
Qed.

Lemma visit_fields_gives : Forall field_named (module_fields m) ->
  gives outside_func outside_func (ApplyNames.visit_module (module_fields m)) (in_range m) (map (applied_field m) (module_fields m)).
Proof.
  intros Hf. assert (waiting [PASS_FUNC; PASS_EXPORT; PASS_ELEM; PASS_DATA] (module_fields m)) as Hp
    by (eapply Forall_impl; [exact Hf|done]).
  assert (map applied_passes (module_fields m) = map (applied_field m) (module_fields m) /\
    forallb in_range_passes (module_fields m) = in_range m) as [<- <-].
  { unfold in_range. clear. induction (module_fields m) as [|f fs [IH1 IH2]]; [done|]. cbn [map forallb].
    destruct (passes_applied f) as [-> ->]. by rewrite IH1, IH2. }
  unfold applied_passes, in_range_passes.
  rewrite <- (forallb_map_and (in_range_pass PASS_FUNC) (fun f => in_range_pass PASS_EXPORT f &&
    (in_range_pass PASS_ELEM (applied_pass PASS_EXPORT f) && in_range_pass PASS_DATA (applied_pass PASS_ELEM (applied_pass PASS_EXPORT f))))
    (applied_pass PASS_FUNC)).
  rewrite <- (forallb_map_and (in_range_pass PASS_EXPORT) (fun f =>
    in_range_pass PASS_ELEM f && in_range_pass PASS_DATA (applied_pass PASS_ELEM f)) (applied_pass PASS_EXPORT)).
  rewrite <- (forallb_map_and (in_range_pass PASS_ELEM) (in_range_pass PASS_DATA) (applied_pass PASS_ELEM)).
  rewrite <- (map_map (fun f => applied_pass PASS_ELEM (applied_pass PASS_EXPORT (applied_pass PASS_FUNC f))) (applied_pass PASS_DATA)).
  rewrite <- (map_map (fun f => applied_pass PASS_EXPORT (applied_pass PASS_FUNC f)) (applied_pass PASS_ELEM)).
  rewrite <- (map_map (applied_pass PASS_FUNC) (applied_pass PASS_EXPORT)).
  unfold ApplyNames.visit_module.
  do 3 (eapply loop_gives; [|exact Hp|intros a c; by repeat eexists|clear Hp; intros Hp; cbn [check_result WASM_FAILED]];
    [by repeat (apply not_elem_of_cons; split; [done|]); apply not_elem_of_nil|]).
  apply gives_each. eapply Forall_impl; [exact Hp|]. intros f Hf'. apply (pass_gives PASS_DATA), Hf'. by left.
Qed.

Lemma apply_names_runs : Forall field_named (module_fields m) ->
  exists m', wasm_apply_names m = Some (if in_range m then WASM_OK else WASM_ERROR, m') /\
    (in_range m = true -> m' = applied_module m).
Proof.
  intros Hf. pose proof (visit_fields_gives Hf (ApplyNames.init_context m) (conj eq_refl eq_refl)) as H.
  unfold wasm_apply_names. destruct (in_range m).
  - destruct H as (c' & -> & _). by eexists.
  - destruct H as (a & c' & ->). by eexists.
Qed.
End module.

(** ** What a named module means

    Where names are clear the variables resolve as before: an index fits an
    [int], no block repeats the label of one around it, and an export that is
    not a function does not have the index of a function with a name. *)

Definition narrow (v : WasmVar) : bool :=
  match v with VAR_INDEX i => to_int i =? i | VAR_NAME _ => true end.

Definition fresh_label (l : WasmLabel) (ls : list WasmLabel) : bool :=
  match l with
  | Some s => negb (existsb (fun l => wasm_string_slices_are_equal l (Some s)) ls)
  | None => true
  end.

Fixpoint clear_expr (e : WasmExpr) (ls : list WasmLabel) : bool :=
  match e with
  | EXPR_BLOCK l _ es | EXPR_LOOP l _ es => fresh_label l ls && forallb (fun e => clear_expr e (l :: ls)) es
  | EXPR_IF l _ ts fs =>
      fresh_label l ls && (forallb (fun e => clear_expr e (l :: ls)) ts && forallb (fun e => clear_expr e (l :: ls)) fs)
  | EXPR_CALL v | EXPR_CALL_INDIRECT v | EXPR_GET_GLOBAL v | EXPR_SET_GLOBAL v
  | EXPR_GET_LOCAL v | EXPR_SET_LOCAL v | EXPR_TEE_LOCAL v => narrow v
  | _ => true
  end.

Definition clear_func (f : WasmFunc) : bool :=
  bool_decide (distinct (param_names f ++ local_names f)) && narrow (decl_type_var (func_decl f)) &&
  forallb (fun e => clear_expr e []) (func_first_expr f).

Definition clear_export (names : list WasmStringSlice) (x : WasmExport) : bool :=
  match export_kind x, export_var x with
  | WASM_EXTERNAL_KIND_FUNC, v => narrow v
  | _, VAR_INDEX i => match zget names (to_int i) with Some (Some _) => false | _ => true end
  | _, VAR_NAME _ => true
  end.

Definition clear_field (m : WasmModule) (f : WasmModuleField) : bool :=
  match f with
  | FIELD_FUNC x | FIELD_IMPORT (mkImport _ _ (IMPORT_FUNC x)) => clear_func x
  | FIELD_EXPORT x => clear_export (func_names m) x
  | FIELD_ELEM_SEGMENT x => narrow (elem_table_var x) && forallb narrow (elem_vars x)
  | FIELD_DATA_SEGMENT x => narrow (data_memory_var x)
  | _ => true
  end.

Definition clear_module (m : WasmModule) : bool := forallb (clear_field m) (module_fields m).

Lemma distinct_inj names i j s : distinct names -> zget names i = Some (Some s) -> zget names j = Some (Some s) -> i = j.
Proof.
  intros Hd Hi Hj. assert (forall k, zget names k = Some (Some s) -> (s, k) ∈ named_from 0 names) as Hin
    by (intros k [? Hk]%zget_Some; by rewrite elem_named_from, Z.sub_0_r).
  apply Hin in Hi, Hj. pose proof (elem_of_list_to_map_1 (M:=gmap string) _ _ _ Hd Hi) as E1.
  rewrite (elem_of_list_to_map_1 (M:=gmap string) _ _ _ Hd Hj) in E1. by injection E1.
Qed.

Lemma distinct_cons l ls : distinct ls -> fresh_label l ls = true -> distinct (l :: ls).
Proof.
  unfold distinct. intros Hd Hl. destruct l as [s|]; cbn [named_from]; [|by rewrite (named_from_keys _ 0)].
  cbn. constructor; [|by rewrite (named_from_keys _ 0)].
  intros ([t i] & E & Hin)%list_elem_of_fmap. cbn in E. subst t. apply elem_named_from in Hin as [_ Hin].
  apply list_elem_of_lookup_2 in Hin. cbn in Hl. apply negb_true_iff in Hl. apply not_true_iff_false in Hl. destruct Hl.
  apply existsb_exists. exists (Some s). split; [by apply list_elem_of_In|apply String.eqb_refl].
Qed.

Lemma name_label_same ls v : distinct ls -> ref_label ls (name_label ls v) = ref_label ls v.
Proof.
  intros Hd. destruct v as [i|s]; [|done]. cbn [name_label]. unfold name_index.
  destruct (zget ls i) as [[s|]|] eqn:E; [|done..]. cbn [ref_label].
  destruct (list_find (fun l : WasmStringSlice => l = Some s) ls) as [[k x]|] eqn:Ef.
  - apply list_find_Some in Ef as (Hk & -> & _). cbn. do 2 f_equal. apply (distinct_inj ls _ _ s Hd); [|done].
    apply zget_Some. split; [lia|]. by rewrite Nat2Z.id.
  - apply list_find_None in Ef. rewrite Forall_forall in Ef. apply zget_Some in E as [_ E].
    by apply list_elem_of_lookup_2, Ef in E.
Qed.

Lemma name_var_same h names v : tabled h names -> narrow v = true -> ref_var bound h (name_var names v) = ref_var bound h v.
Proof.
  intros Ht Hv. destruct v as [i|s]; [|done]. cbn [narrow] in Hv. apply Z.eqb_eq in Hv. cbn [name_var]. unfold name_index.
  rewrite Hv. destruct (zget names i) as [[s|]|] eqn:E; [|done..]. apply (tabled_bound _ _ _ _ Ht) in E. cbn. by rewrite E.
Qed.

Lemma name_vars_same h names vs : tabled h names -> forallb narrow vs = true ->
  mapM (ref_var bound h) (map (name_var names) vs) = mapM (ref_var bound h) vs.
Proof.
  intros Ht. induction vs as [|v vs IH]; [done|]. cbn [forallb map mapM]. intros [Hv Hvs]%andb_true_iff.
  by rewrite (name_var_same _ _ _ Ht Hv), IH.
Qed.

Lemma name_local_same f v : func_named f -> distinct (param_names f ++ local_names f) -> narrow v = true ->
  ref_local bound (Some f) (name_var (param_names f ++ local_names f) v) = ref_local bound (Some f) v.
Proof.
  intros Hf Hd Hv. destruct v as [i|s]; [|done]. cbn [narrow] in Hv. apply Z.eqb_eq in Hv. cbn [name_var]. unfold name_index.
  rewrite Hv. destruct (zget (param_names f ++ local_names f) i) as [[s|]|] eqn:E; [|done..].
  destruct (ref_local bound (Some f) (VAR_NAME s)) as [v|] eqn:Er.
  - destruct (named_local f Hf s v Er) as (j & -> & _ & _ & Ej). by rewrite (distinct_inj _ _ _ _ Hd E Ej).
  - cbn [ref_local mbind option_bind] in Er. destruct (bound (func_param_bindings f) s) as [j|] eqn:Ep; [done|].
    destruct (bound (func_local_bindings f) s) as [j|] eqn:El; [done|].
    apply zget_Some in E as [Hi E]. destruct (decide (Z.to_nat i < length (param_names f))%nat).
    + rewrite lookup_app_l in E by done.
      assert (bound (func_param_bindings f) s = Some i) as E'; [|congruence].
      apply (tabled_bound _ _ _ _ (params_tabled f Hf)), zget_Some. done.
    + rewrite lookup_app_r in E by lia.
      assert (bound (func_local_bindings f) s = Some (i - Z.of_nat (length (param_names f)))) as E'; [|congruence].
      apply (tabled_bound _ _ _ _ (locals_tabled f Hf)), zget_Some. split; [lia|]. rewrite <- E. f_equal. lia.
Qed.

(** The bindings and the types of a function are all that locals depend on. *)
Lemma ref_local_func look f f' v : func_param_bindings f' = func_param_bindings f ->
  func_local_bindings f' = func_local_bindings f -> decl_sig (func_decl f') = decl_sig (func_decl f) ->
  ref_local look (Some f') v = ref_local look (Some f) v.
Proof. intros E1 E2 E3. destruct v; [done|]. cbn [ref_local mbind option_bind]. unfold wasm_get_num_params. by rewrite E1, E2, E3. Qed.

Section meaning.
Context (m : WasmModule).
Hypothesis Hm : module_named m.

(** [f'] is [f] with other variables. *)
Lemma applied_expr_same f f' : func_param_bindings f' = func_param_bindings f ->
  func_local_bindings f' = func_local_bindings f -> decl_sig (func_decl f') = decl_sig (func_decl f) ->
  func_named f -> distinct (param_names f ++ local_names f) -> forall e ls,
  distinct ls -> clear_expr e ls = true ->
  ref_expr bound m (Some f') (applied_expr m (param_names f ++ local_names f) e ls) ls = ref_expr bound m (Some f) e ls.
Proof.
  intros E1 E2 E3 Hf Hd. set (ns := param_names f ++ local_names f).
  assert (forall es ls, Forall (fun e => forall ls, distinct ls -> clear_expr e ls = true ->
      ref_expr bound m (Some f') (applied_expr m ns e ls) ls = ref_expr bound m (Some f) e ls) es ->
    distinct ls -> forallb (fun e => clear_expr e ls) es = true ->
    mapM (fun e => ref_expr bound m (Some f') e ls) (map (fun e => applied_expr m ns e ls) es) =
    mapM (fun e => ref_expr bound m (Some f) e ls) es) as Hlist.
  { intros es ls H Hl. induction H as [|e es He _ IH]; [done|]. cbn [forallb map mapM]. intros [Ce Cs]%andb_true_iff.
    by rewrite He, IH. }
  apply (WasmExpr_nested_ind (fun e => forall ls, distinct ls -> clear_expr e ls = true ->
    ref_expr bound m (Some f') (applied_expr m ns e ls) ls = ref_expr bound m (Some f) e ls)).
  - intros l s es H ls Hl [Cl Cs]%andb_true_iff. pose proof (Hlist es (l :: ls) H (distinct_cons _ _ Hl Cl) Cs) as E.
    exact (f_equal (fmap (EXPR_BLOCK l s)) E).
  - intros l s es H ls Hl [Cl Cs]%andb_true_iff. pose proof (Hlist es (l :: ls) H (distinct_cons _ _ Hl Cl) Cs) as E.
    exact (f_equal (fmap (EXPR_LOOP l s)) E).
  - intros l s ts fs Ht Hs ls Hl [Cl [Ct Cf]%andb_true_iff]%andb_true_iff.
    pose proof (Hlist ts (l :: ls) Ht (distinct_cons _ _ Hl Cl) Ct) as Et.
    pose proof (Hlist fs (l :: ls) Hs (distinct_cons _ _ Hl Cl) Cf) as Ef.
    cbn [applied_expr ref_expr]. cbn [applied_expr ref_expr] in Et, Ef. by rewrite Et, Ef.
  - intros []; try done; intros ls Hl Hc; cbn [applied_expr ref_expr clear_expr] in *;
      try (f_equal; first [by apply name_label_same|rewrite (ref_local_func bound f f') by done; by apply name_local_same|apply name_var_same; [apply Hm|done]]).
    rewrite name_label_same by done. assert (mapM (ref_label ls) (map (name_label ls) targets) = mapM (ref_label ls) targets) as ->;
      [|done]. clear Hc. induction targets as [|v vs IH]; [done|]. cbn [map mapM]. by rewrite name_label_same, IH.
Qed.

Lemma applied_func_same f : func_named f -> clear_func f = true -> ref_func bound m (applied_func m f) = ref_func bound m f.
Proof.
  intros Hf [[Hd%bool_decide_eq_true_1 Hv]%andb_true_iff He]%andb_true_iff. unfold ref_func.
  assert (ref_decl bound m (applied_decl m (func_decl f)) = ref_decl bound m (func_decl f)) as Ed.
  { unfold ref_decl, applied_decl, wasm_decl_has_func_type.
    destruct (negb (Z.land (decl_flags (func_decl f)) _ =? 0)) eqn:E; cbn [decl_flags decl_type_var decl_sig]; rewrite E; [|done].
    by rewrite name_var_same by (done || apply Hm). }
  cbn [applied_func func_decl func_param_bindings func_local_bindings func_first_expr func_name func_local_types].
  rewrite Ed. destruct (ref_decl bound m (func_decl f)) as [d|]; [|done]. cbn [mbind option_bind].
  destruct (check (unique (func_param_bindings f))); [|done]. destruct (check (unique (func_local_bindings f))); [|done].
  cbn [mbind option_bind]. f_equal. unfold ref_exprs.
  assert (forall e, clear_expr e [] = true -> ref_expr bound m (Some (applied_func m f)) (applied_expr m (param_names f ++ local_names f) e []) [] =
    ref_expr bound m (Some f) e []) as H
    by (intros e; apply applied_expr_same; [done|done|apply applied_decl_sig|done|done|constructor]).
  clear -H He. induction (func_first_expr f) as [|e es IH]; [done|]. cbn [map mapM forallb] in *.
  apply andb_true_iff in He as [Ce Cs]. by rewrite H, IH.
Qed.

Lemma applied_field_same b f :
  match f with FIELD_FUNC x | FIELD_IMPORT (mkImport _ _ (IMPORT_FUNC x)) => func_named x | _ => True end ->
  clear_field m f = true -> ref_field bound m b (applied_field m f) = ref_field bound m b f.
Proof.
  destruct f as [x|x|[a c []]|x|x|x|x|x|x|x]; cbn [applied_field ref_field clear_field]; intros Hf Hc; try done.
  - by rewrite applied_func_same.
  - by rewrite applied_func_same.
  - cbn [export_kind export_var export_name]. unfold clear_export in Hc.
    destruct (export_kind x) eqn:Ek; cbn [kind_bindings]; [by rewrite name_var_same by (done || apply Hm)|..];
      (destruct (export_var x) as [i|s]; [|done]; cbn [name_var]; unfold name_index;
       by destruct (zget (func_names m) (to_int i)) as [[]|]).
  - apply andb_true_iff in Hc as [Ht Hv]. cbn [elem_table_var elem_offset elem_vars].
    rewrite name_var_same by (done || apply Hm). by rewrite name_vars_same by (done || apply Hm).
  - cbn [data_memory_var data_offset data_data]. by rewrite name_var_same by (done || apply Hm).
Qed.

Lemma applied_fields_same fs : Forall (fun f =>
    match f with FIELD_FUNC x | FIELD_IMPORT (mkImport _ _ (IMPORT_FUNC x)) => func_named x | _ => True end) fs ->
  forallb (clear_field m) fs = true -> ref_fields bound m (map (applied_field m) fs) = ref_fields bound m fs.
Proof.
  induction 1 as [|f fs Hf _ IH]; [done|]. cbn [forallb map ref_fields]. intros [Cf Cs]%andb_true_iff.
  assert (existsb is_start (map (applied_field m) fs) = existsb is_start fs) as ->.
  { clear. induction fs as [|f fs IH]; [done|]. cbn [map existsb]. rewrite IH. f_equal.
    by destruct f as [x|x|[a b []]|x|x|x|x|x|x|x]. }
  rewrite (applied_field_same _ f Hf Cf). destruct (ref_field bound m _ f); [|done]. cbn [mbind option_bind]. by rewrite IH.
Qed.
End meaning.

(** ** The theorem *)

Definition fields_named (m : WasmModule) : Prop := Forall (fun f =>
  match f with FIELD_FUNC x | FIELD_IMPORT (mkImport _ _ (IMPORT_FUNC x)) => func_named x | _ => True end) (module_fields m).

(** The tables of bindings are those of the names. *)
Definition names_consistent (m : WasmModule) : Prop := module_wf m /\ module_named m /\ fields_named m.

Lemma ref_fields_each m fs fs' : ref_fields bound m fs = Some fs' -> Forall (fun f => exists b f', ref_field bound m b f = Some f') fs.
Proof.
  revert fs'. induction fs as [|f fs IH]; intros fs' H; [constructor|]. cbn [ref_fields] in H.
  apply bind_Some in H as (f' & Ef & (fs1 & Es & _)%bind_Some). constructor; [eauto|by eapply IH].
Qed.

Lemma resolve_ref m m1 : module_wf m -> wasm_resolve_names_module m = Some (WASM_OK, m1) <-> ref_module bound m = Some m1.
Proof.
  intros Hm. destruct (resolve_module_ref m Hm) as (r & m' & -> & H). destruct (ref_module bound m) as [m2|].
  - destruct H as [-> ->]. naive_solver.
  - subst r. naive_solver.
Qed.

Lemma applied_module_wf m : module_wf m -> module_wf (applied_module m).
Proof.
  intros [Hh Hf]. split; [exact Hh|]. cbn [applied_module with_fields module_fields]. rewrite Forall_map.
  eapply Forall_impl; [exact Hf|]. intros f Hw. by destruct f as [x|x|[a b []]|x|x|x|x|x|x|x].
Qed.

Lemma applied_module_same m : module_named m -> fields_named m -> clear_module m = true ->
  ref_module bound (applied_module m) = ref_module bound m.
Proof.
  intros Hm Hf Hc. unfold ref_module. change (forallb unique _) with (module_unique m). change (forallb unique _) with (module_unique m).
  destruct (module_unique m); [|done]. cbn [check mbind option_bind].
  change (ref_fields bound (applied_module m) _) with (ref_fields bound m (map (applied_field m) (module_fields m))).
  by rewrite applied_fields_same.
Qed.

Lemma apply_names_ref m m1 : names_consistent m -> wasm_resolve_names_module m = Some (WASM_OK, m1) ->
  exists m', wasm_apply_names m = Some (if in_range m then WASM_OK else WASM_ERROR, m') /\
    (in_range m = true -> m' = applied_module m /\
       (clear_module m = true -> wasm_resolve_names_module m' = Some (WASM_OK, m1))).
Proof.
  intros (Hw & Hm & Hf) Hr. apply resolve_ref in Hr; [|done].
  assert (exists fs, ref_fields bound m (module_fields m) = Some fs) as [fs Hfs].
  { unfold ref_module in Hr. apply bind_Some in Hr as ([] & _ & (fs & Efs & _)%fmap_Some). eauto. }
  destruct (apply_names_runs m Hm) as (m' & E & Hm').
  { apply Forall_and. split; [by eapply ref_fields_each|exact Hf]. }
  exists m'. split; [exact E|]. intros Hi. split; [by apply Hm'|]. intros Hc. rewrite (Hm' Hi).
  apply resolve_ref; [by apply applied_module_wf|]. by rewrite applied_module_same.
Qed.

(** ** Applying names twice *)

Lemma names_applied m : func_names (applied_module m) = func_names m /\ global_names (applied_module m) = global_names m /\
  func_type_names (applied_module m) = func_type_names m /\ table_names (applied_module m) = table_names m /\
  memory_names (applied_module m) = memory_names m.
Proof.
  unfold func_names, global_names, func_type_names, table_names, memory_names, module_funcs, module_globals, module_func_types,
    module_tables, module_memories. cbn [applied_module with_fields module_fields].
  assert (forall {A} (g : A -> WasmStringSlice) (p : WasmModuleField -> option A),
    (forall f, g <$> p (applied_field m f) = g <$> p f) ->
    map g (omap p (map (applied_field m) (module_fields m))) = map g (omap p (module_fields m))) as H.
  { intros A g p H. induction (module_fields m) as [|f fs IH]; [done|]. cbn [map omap list_omap]. specialize (H f).
    destruct (p (applied_field m f)), (p f); try done; cbn [map]; rewrite IH; cbn in H; congruence. }
  split_and!; apply H; by intros [x|x|[a b []]|x|x|x|x|x|x|x].
Qed.

Lemma param_names_applied m f : param_names (applied_func m f) = param_names f /\ local_names (applied_func m f) = local_names f.
Proof. unfold param_names, local_names. cbn [applied_func func_decl]. by rewrite applied_decl_sig. Qed.

Lemma name_var_twice names v : name_var names (name_var names v) = name_var names v.
Proof. destruct v as [i|s]; [|done]. cbn. unfold name_index. destruct (zget names (to_int i)) as [[s|]|] eqn:E; cbn; unfold name_index; by rewrite ?E. Qed.

Lemma name_label_twice ls v : name_label ls (name_label ls v) = name_label ls v.
Proof. destruct v as [i|s]; [|done]. cbn. unfold name_index, WasmLabel in *. destruct (zget ls i) as [[s|]|] eqn:E; cbn; unfold name_index; by rewrite ?E. Qed.

Lemma map_twice {A} (f : A -> A) l : Forall (fun x => f (f x) = f x) l -> map f (map f l) = map f l.
Proof. induction 1 as [|x l E _ IH]; [done|]. cbn [map]. by rewrite E, IH. Qed.

Lemma applied_expr_twice m names : forall e ls, applied_expr m names (applied_expr m names e ls) ls = applied_expr m names e ls.
Proof.
  assert (forall es ls, Forall (fun e => forall ls, applied_expr m names (applied_expr m names e ls) ls = applied_expr m names e ls) es ->
    map (fun e => applied_expr m names e ls) (map (fun e => applied_expr m names e ls) es) = map (fun e => applied_expr m names e ls) es) as Hl
    by (intros es ls H; apply map_twice; eapply Forall_impl; [exact H|auto]).
  apply (WasmExpr_nested_ind (fun e => forall ls, applied_expr m names (applied_expr m names e ls) ls = applied_expr m names e ls)).
  - intros l s es H ls. exact (f_equal (EXPR_BLOCK l s) (Hl es (l :: ls) H)).
  - intros l s es H ls. exact (f_equal (EXPR_LOOP l s) (Hl es (l :: ls) H)).
  - intros l s ts fs Ht Hf ls. exact (f_equal2 (EXPR_IF l s) (Hl ts (l :: ls) Ht) (Hl fs (l :: ls) Hf)).
  - intros []; try done; intros ls; cbn [applied_expr]; rewrite ?name_var_twice, ?name_label_twice; try done.
    rewrite map_twice; [done|]. apply Forall_true. intros v. apply name_label_twice.
Qed.

Lemma applied_decl_twice m d : applied_decl m (applied_decl m d) = applied_decl m d.
Proof.
  unfold applied_decl, wasm_decl_has_func_type. destruct (negb (Z.land (decl_flags d) _ =? 0)) eqn:E; cbn [decl_flags decl_type_var decl_sig];
    rewrite E; [by rewrite name_var_twice|done].
Qed.

Lemma applied_func_twice m f : applied_func m (applied_func m f) = applied_func m f.
Proof.
  unfold applied_func at 1. destruct (param_names_applied m f) as [-> ->]. unfold applied_func.
  cbn [func_decl func_first_expr func_name func_local_types func_param_bindings func_local_bindings].
  rewrite applied_decl_twice, map_twice; [done|]. apply Forall_true. intros e. apply applied_expr_twice.
Qed.

Lemma applied_field_twice m f : applied_field m (applied_field m f) = applied_field m f.
Proof.
  destruct f as [x|x|[a b []]|x|x|x|x|x|x|x]; cbn [applied_field export_name export_kind export_var elem_table_var elem_offset elem_vars
    data_memory_var data_offset data_data]; rewrite ?applied_func_twice, ?name_var_twice; try done.
  rewrite map_twice; [done|]. apply Forall_true. intros v. apply name_var_twice.
Qed.

(** Only the names of a module matter. *)
Lemma applied_field_names m f : applied_field (applied_module m) f = applied_field m f.
Proof.
  destruct (names_applied m) as (E1 & E2 & E3 & E4 & E5).
  destruct f as [x|x|[a b []]|x|x|x|x|x|x|x]; cbn [applied_field]; unfold applied_func, applied_decl, applied_expr;
    by rewrite ?E1, ?E2, ?E3, ?E4, ?E5.
Qed.

Lemma applied_module_twice m : applied_module (applied_module m) = applied_module m.
Proof.
  unfold applied_module at 1 3. cbn [applied_module with_fields module_fields]. unfold with_fields. f_equal.
  rewrite map_map. apply map_ext. intros f. by rewrite applied_field_names, applied_field_twice.
Qed.

Lemma in_space_name n names v : in_space n v = true -> in_space n (name_var names v) = true.
Proof. destruct v as [i|s]; [|done]. cbn [name_var]. unfold name_index. by destruct (zget names (to_int i)) as [[]|]. Qed.

Lemma forallb_map_impl {A} (P : A -> bool) (f : A -> A) l : Forall (fun x => P x = true -> P (f x) = true) l ->
  forallb P l = true -> forallb P (map f l) = true.
Proof. induction 1 as [|x l H _ IH]; [done|]. cbn [forallb map]. rewrite !andb_true_iff. naive_solver. Qed.

Lemma in_range_applied_expr m names n : forall e ls, in_range_expr m n e = true -> in_range_expr m n (applied_expr m names e ls) = true.
Proof.
  assert (forall es ls, Forall (fun e => forall ls, in_range_expr m n e = true -> in_range_expr m n (applied_expr m names e ls) = true) es ->
    forallb (in_range_expr m n) es = true -> forallb (in_range_expr m n) (map (fun e => applied_expr m names e ls) es) = true) as Hl
    by (intros es ls H; apply forallb_map_impl; eapply Forall_impl; [exact H|auto]).
  apply (WasmExpr_nested_ind (fun e => forall ls, in_range_expr m n e = true -> in_range_expr m n (applied_expr m names e ls) = true)).
  - intros l s es H ls. exact (Hl es (l :: ls) H).
  - intros l s es H ls. exact (Hl es (l :: ls) H).
  - intros l s ts fs Ht Hf ls [Rt Rf]%andb_true_iff. apply andb_true_iff.
    split; [exact (Hl ts (l :: ls) Ht Rt)|exact (Hl fs (l :: ls) Hf Rf)].
  - intros []; try done; intros ls; cbn [in_range_expr applied_expr]; apply in_space_name.
Qed.

Lemma in_range_applied_func m f : in_range_func m f = true -> in_range_func m (applied_func m f) = true.
Proof.
  unfold in_range_func, num_locals. cbn [applied_func func_decl func_first_expr func_local_types]. rewrite applied_decl_sig.
  intros [Hd He]%andb_true_iff. apply andb_true_iff. split.
  - unfold applied_decl, wasm_decl_has_func_type in *. destruct (negb (Z.land (decl_flags (func_decl f)) _ =? 0)) eqn:E;
      cbn [decl_flags decl_type_var]; rewrite E; [|done]. cbn [negb orb] in *. by apply in_space_name.
  - revert He. apply forallb_map_impl, Forall_true. intros e. apply in_range_applied_expr.
Qed.

Lemma in_range_field_names m f : in_range_field (applied_module m) f = in_range_field m f.
Proof.
  destruct (names_applied m) as (E1 & E2 & E3 & E4 & E5).
  destruct f as [x|x|[a b []]|x|x|x|x|x|x|x]; cbn [in_range_field]; unfold in_range_func, in_range_expr; by rewrite ?E1, ?E2, ?E3, ?E4, ?E5.
Qed.

Lemma in_range_applied m : in_range m = true -> in_range (applied_module m) = true.
Proof.
  unfold in_range. cbn [applied_module with_fields module_fields]. intros H.
  assert (forall l, forallb (in_range_field (applied_module m)) l = forallb (in_range_field m) l) as ->
    by (induction l as [|f l IH]; [done|]; cbn [forallb]; by rewrite in_range_field_names, IH).
  revert H. apply forallb_map_impl, Forall_true.
  intros [x|x|[a b []]|x|x|x|x|x|x|x]; cbn [applied_field in_range_field elem_table_var elem_vars data_memory_var]; try done;
    try apply in_range_applied_func; [|apply in_space_name].
  intros [Ht Hv]%andb_true_iff. apply andb_true_iff. split; [by apply in_space_name|]. revert Hv.
  apply forallb_map_impl, Forall_true. intros v. apply in_space_name.
Qed.

Lemma func_named_applied m f : func_named f -> func_named (applied_func m f).
Proof.
  intros [H1 H2 H3 H4 H5 H6]. destruct (param_names_applied m f) as [E1 E2].
  split; rewrite ?E1, ?E2; cbn [applied_func func_param_bindings func_local_bindings func_local_types func_decl];
    rewrite ?applied_decl_sig; done.
Qed.

Lemma applied_consistent m : names_consistent m -> names_consistent (applied_module m).
Proof.
  intros (Hw & [H1 H2 H3 H4 H5] & Hf). destruct (names_applied m) as (E1 & E2 & E3 & E4 & E5).
  split_and!; [by apply applied_module_wf|by split; rewrite ?E1, ?E2, ?E3, ?E4, ?E5|].
  unfold fields_named. cbn [applied_module with_fields module_fields]. rewrite Forall_map. eapply Forall_impl; [exact Hf|].
  intros [x|x|[a b []]|x|x|x|x|x|x|x]; try done; apply func_named_applied.
Qed.

(** ** A sample *)

(** A table of one name. *)
Lemma one_name_tabled s : tabled (names_table [s]) [Some s].
Proof.
  destruct (names_table_wf [s]) as [Hb Hp]; [done|].
  destruct (hash_wf_insert junk_entry empty_hash s 0 hash_wf_empty) as (h' & E' & _ & Ep); [done|done|].
  split_and!; [by split| |constructor; [by apply not_elem_of_nil|constructor]].
  change (names_table [s]) with (default empty_hash (insert_binding_index junk_entry empty_hash (Some s) 0)). by rewrite E'.
Qed.

Lemma no_name_tabled l : Forall (fun n => n = None) l -> tabled empty_hash l.
Proof.
  intros H. assert (forall i, named_from i l = []) as E by (induction H as [|n l -> _ IH]; intros i; cbn; done).
  split_and!; [apply hash_wf_empty|by rewrite E|unfold distinct; rewrite E; constructor].
Qed.

(** A function with a parameter, a local and two blocks, and its export. *)
Definition user_func (callee block_target loop_target param local : WasmVar) : WasmFunc :=
  mkFunc (Some "$f"%string) (mkFuncDeclaration 0 (VAR_INDEX 0) (mkFuncSignature [WASM_TYPE_I32] []))
    [WASM_TYPE_I32] (names_table ["$x"]) (names_table ["$y"])
    [EXPR_BLOCK (Some "$a"%string) [] [EXPR_LOOP (Some "$b"%string) [] [EXPR_GET_LOCAL param; EXPR_SET_LOCAL local;
       EXPR_GET_LOCAL param; EXPR_BR_IF loop_target; EXPR_GET_LOCAL local; EXPR_BR_TABLE [loop_target; block_target] block_target]];
     EXPR_GET_LOCAL local; EXPR_CALL callee].

Definition user_module (callee block_target loop_target param local : WasmVar) : WasmModule :=
  mkModule None [FIELD_FUNC (user_func callee block_target loop_target param local);
      FIELD_EXPORT (mkExport (Some "f"%string) WASM_EXTERNAL_KIND_FUNC callee)]
    (names_table ["$f"]) empty_hash empty_hash empty_hash empty_hash empty_hash.

Definition user_indices : WasmModule := user_module (VAR_INDEX 0) (VAR_INDEX 1) (VAR_INDEX 0) (VAR_INDEX 0) (VAR_INDEX 1).
Definition user_names : WasmModule :=
  user_module (VAR_NAME "$f") (VAR_NAME "$a") (VAR_NAME "$b") (VAR_NAME "$x") (VAR_NAME "$y").

Lemma user_indices_consistent : names_consistent user_indices.
Proof.
  split_and!; [split| |].
  - repeat (apply Forall_cons; split); try apply Forall_nil_2; apply names_table_wf || apply hash_wf_empty; done.
  - repeat (apply Forall_cons; split); try apply Forall_nil_2; [split; by apply names_table_wf|done].
  - split; [apply (one_name_tabled "$f")|by apply no_name_tabled..].
  - repeat (apply Forall_cons; split); try apply Forall_nil_2; [|done].
    assert (param_names (user_func (VAR_INDEX 0) (VAR_INDEX 1) (VAR_INDEX 0) (VAR_INDEX 0) (VAR_INDEX 1)) = [Some "$x"%string]) as Ep
      by (vm_compute; reflexivity).
    assert (local_names (user_func (VAR_INDEX 0) (VAR_INDEX 1) (VAR_INDEX 0) (VAR_INDEX 0) (VAR_INDEX 1)) = [Some "$y"%string]) as El
      by (vm_compute; reflexivity).
    split; rewrite ?Ep, ?El; first [apply one_name_tabled|reflexivity].
Qed.

(** C9 - Using names.  For a module whose tables of bindings are those of its
    names and whose variables all resolve, the pass fails no assertion and
    reports an error exactly when some index it looks up is out of range.
    Otherwise it makes [applied_module]; when only functions are exported that is
    [named_module], in which each variable of a body, a function's declaration,
    an export and the references of a segment that refers to something with a
    name is that name.  (The start variable and initializers are not visited,
    and an export of another kind is looked up among the functions.)  Under the
    condition [clear_module] - no label or local hides another of its name,
    indices fit an [int], no memory, table or global is exported under the index
    of a named function - the new module resolves to exactly what the old one
    resolves to, and applying names again changes nothing. *)
Theorem apply_names_correct (m m1 : WasmModule) :
  names_consistent m -> wasm_resolve_names_module m = Some (WASM_OK, m1) ->
  exists m', wasm_apply_names m = Some (if in_range m then WASM_OK else WASM_ERROR, m') /\
    (in_range m = true -> m' = applied_module m /\
       (forallb exports_func (module_fields m) = true -> m' = named_module m) /\
       (clear_module m = true -> wasm_resolve_names_module m' = Some (WASM_OK, m1) /\
          wasm_apply_names m' = Some (WASM_OK, m'))).
Proof.
  intros Hm Hr. destruct (apply_names_ref m m1 Hm Hr) as (m' & E & H). exists m'. split; [exact E|]. intros Hi.
  destruct (H Hi) as [-> Hc]. split; [done|]. split; [apply applied_named|]. intros Hcl. split; [by apply Hc|].
  destruct (apply_names_ref _ m1 (applied_consistent m Hm) (Hc Hcl)) as (m2 & E2 & H2). rewrite in_range_applied in E2, H2 by done.
  destruct (H2 eq_refl) as [-> _]. by rewrite applied_module_twice in E2.
Qed.

(** Indices become names, and resolving gives the indices back. *)
Lemma apply_names_correct_witness : wasm_apply_names user_indices = Some (WASM_OK, user_names) /\
  wasm_resolve_names_module user_names = Some (WASM_OK, user_indices) /\ wasm_apply_names user_names = Some (WASM_OK, user_names).
Proof.
  destruct (apply_names_correct user_indices user_indices user_indices_consistent) as (m' & E & H); [vm_compute; reflexivity|].
  assert (in_range user_indices = true) as Hi by (vm_compute; reflexivity). rewrite Hi in E.
  destruct (H Hi) as [-> [_ Hc]]. assert (applied_module user_indices = user_names) as En by (vm_compute; reflexivity).
  rewrite En in *. split; [exact E|]. apply Hc. vm_compute. reflexivity.
Defined.
