(* ===== verification/GenerateNames.v ===== *)
(** * Generating names (src/src/generate-names.c)

    The pass of [--generate-names]: every global, type, function, parameter,
    local, block, table and memory without a name gets one, made of a prefix
    and its index, and all but blocks are bound to it.  The fields and the
    tables of bindings change in place. *)

From stdpp Require Import pretty.
From S2P Require Import Prelude Opcode Vector BindingHash Ast StateOpt Visitor.

#[local] Open Scope so_scope.

Definition has_name (str : WasmStringSlice) : bool :=
  match str with Some s => negb (String.eqb s "") | None => false end.

(** ["%s%u"]; the buffer has room for the digits. *)
Definition generate_name (prefix : string) (index : Z) : WasmStringSlice :=
  Some (String.append prefix (pretty (Z.to_N (u32 index)))).

Definition maybe_generate_name (prefix : string) (index : Z) (str : WasmStringSlice) : WasmStringSlice :=
  if has_name str then str else generate_name prefix index.

Section alloc.
(** What [realloc] leaves in the part of a table it adds. *)
Context (uninit : nat -> WasmBindingHashEntry).

Definition generate_and_bind_name (bindings : WasmBindingHash) (prefix : string) (index : Z) :
    option (WasmBindingHash * WasmStringSlice) :=
  let str := generate_name prefix index in
  bindings ← insert_binding_index uninit bindings str (to_int index);
  Some (bindings, str).

Definition maybe_generate_and_bind_name (bindings : WasmBindingHash) (prefix : string) (index : Z)
    (str : WasmStringSlice) : option (WasmBindingHash * WasmStringSlice) :=
  if has_name str then Some (bindings, str) else generate_and_bind_name bindings prefix index.

(** The loop from index [i] on. *)
Fixpoint generate_and_bind_local_names (index_to_name : list WasmStringSlice) (bindings : WasmBindingHash)
    (prefix : string) (i : Z) : option WasmBindingHash :=
  match index_to_name with
  | [] => Some bindings
  | old_name :: index_to_name =>
      if has_name old_name then generate_and_bind_local_names index_to_name bindings prefix (i + 1)
      else
        '(bindings, _) ← generate_and_bind_name bindings prefix i;
        generate_and_bind_local_names index_to_name bindings prefix (i + 1)
  end.

(** ** The visitor; the state is [label_count] *)

Definition GM (A : Type) : Type := SO Z A.

Definition next_label : GM Z :=
  label_count <- so_get ;; so_put (u32 (label_count + 1)) ;; so_ret label_count.

Definition begin_block (expr : WasmExpr) : GM (WasmResult * WasmExpr) :=
  label_count <- next_label ;;
  match expr with
  | EXPR_BLOCK label sig first => so_ret (WASM_OK, EXPR_BLOCK (maybe_generate_name "$B" label_count label) sig first)
  | EXPR_LOOP label sig first => so_ret (WASM_OK, EXPR_LOOP (maybe_generate_name "$L" label_count label) sig first)
  | EXPR_IF label sig true_ false_ =>
      so_ret (WASM_OK, EXPR_IF (maybe_generate_name "$L" label_count label) sig true_ false_)
  | _ => so_fail
  end.

Definition visitor : WasmExprVisitor Z := fun member =>
  match member with
  | begin_block_expr | begin_loop_expr | begin_if_expr => Some begin_block
  | _ => None
  end.

(** ** The items of a module

    Each takes the table of its index space and its index. *)

Definition Visited (A : Type) : Type := option (WasmResult * (WasmBindingHash * A)).

Definition visit_func (func_bindings : WasmBindingHash) (func_index : Z) (func : WasmFunc) : Visited WasmFunc :=
  '(func_bindings, name) ← maybe_generate_and_bind_name func_bindings "$f" func_index (func_name func);
  index_to_name ← wasm_make_type_binding_reverse_mapping (param_types (decl_sig (func_decl func))) (func_param_bindings func);
  param_bindings ← generate_and_bind_local_names index_to_name (func_param_bindings func) "$p" 0;
  index_to_name ← wasm_make_type_binding_reverse_mapping (func_local_types func) (func_local_bindings func);
  local_bindings ← generate_and_bind_local_names index_to_name (func_local_bindings func) "$l" 0;
  '((r, func), _) ← wasm_visit_func visitor
    (mkFunc name (func_decl func) (func_local_types func) param_bindings local_bindings (func_first_expr func)) 0;
  Some (r, (func_bindings, func)).

Definition visit_global (global_bindings : WasmBindingHash) (global_index : Z) (global : WasmGlobal) : Visited WasmGlobal :=
  '(global_bindings, name) ← maybe_generate_and_bind_name global_bindings "$g" global_index (global_name global);
  Some (WASM_OK, (global_bindings,
    mkGlobal name (global_type global) (global_mutable global) (global_init_expr global))).

Definition visit_func_type (func_type_bindings : WasmBindingHash) (func_type_index : Z) (func_type : WasmFuncType) :
    Visited WasmFuncType :=
  '(func_type_bindings, name) ←
    maybe_generate_and_bind_name func_type_bindings "$t" func_type_index (func_type_name func_type);
  Some (WASM_OK, (func_type_bindings, mkFuncType name (func_type_sig func_type))).

Definition visit_table (table_bindings : WasmBindingHash) (table_index : Z) (table : WasmTable) : Visited WasmTable :=
  '(table_bindings, name) ← maybe_generate_and_bind_name table_bindings "$T" table_index (table_name table);
  Some (WASM_OK, (table_bindings, mkTable name (table_elem_limits table))).

Definition visit_memory (memory_bindings : WasmBindingHash) (memory_index : Z) (memory : WasmMemory) : Visited WasmMemory :=
  '(memory_bindings, name) ← maybe_generate_and_bind_name memory_bindings "$M" memory_index (memory_name memory);
  Some (WASM_OK, (memory_bindings, mkMemory name (memory_page_limits memory))).

(** ** The loops of [visit_module]

    The items of a kind are in its fields and imports: [part] gives the item
    of a field and how to put it back. *)

Definition Part (A : Type) : Type := WasmModuleField -> option (A * (A -> WasmModuleField)).

Definition func_part : Part WasmFunc := fun field =>
  match field with
  | FIELD_FUNC x => Some (x, FIELD_FUNC)
  | FIELD_IMPORT (mkImport m n (IMPORT_FUNC x)) => Some (x, fun x => FIELD_IMPORT (mkImport m n (IMPORT_FUNC x)))
  | _ => None
  end.

Definition global_part : Part WasmGlobal := fun field =>
  match field with
  | FIELD_GLOBAL x => Some (x, FIELD_GLOBAL)
  | FIELD_IMPORT (mkImport m n (IMPORT_GLOBAL x)) => Some (x, fun x => FIELD_IMPORT (mkImport m n (IMPORT_GLOBAL x)))
  | _ => None
  end.

Definition table_part : Part WasmTable := fun field =>
  match field with
  | FIELD_TABLE x => Some (x, FIELD_TABLE)
  | FIELD_IMPORT (mkImport m n (IMPORT_TABLE x)) => Some (x, fun x => FIELD_IMPORT (mkImport m n (IMPORT_TABLE x)))
  | _ => None
  end.

Definition memory_part : Part WasmMemory := fun field =>
  match field with
  | FIELD_MEMORY x => Some (x, FIELD_MEMORY)
  | FIELD_IMPORT (mkImport m n (IMPORT_MEMORY x)) => Some (x, fun x => FIELD_IMPORT (mkImport m n (IMPORT_MEMORY x)))
  | _ => None
  end.

Definition func_type_part : Part WasmFuncType := fun field =>
  match field with FIELD_FUNC_TYPE x => Some (x, FIELD_FUNC_TYPE) | _ => None end.

Fixpoint visit_items {A} (part : Part A) (visit : WasmBindingHash -> Z -> A -> Visited A)
    (bindings : WasmBindingHash) (i : Z) (fields : list WasmModuleField) : Visited (list WasmModuleField) :=
  match fields with
  | [] => Some (WASM_OK, (bindings, []))
  | field :: rest =>
      match part field with
      | None =>
          '(r, (bindings, rest)) ← visit_items part visit bindings i rest;
          Some (r, (bindings, field :: rest))
      | Some (item, put) =>
          '(r, (bindings, item)) ← visit bindings i item;
          if WASM_FAILED r then Some (WASM_ERROR, (bindings, put item :: rest))
          else
            '(r, (bindings, rest)) ← visit_items part visit bindings (i + 1) rest;
            Some (r, (bindings, put item :: rest))
      end
  end.

(** One loop: the fields and the table of its kind. *)
Definition visit_kind {A} (part : Part A) (visit : WasmBindingHash -> Z -> A -> Visited A)
    (get : WasmModule -> WasmBindingHash) (set : WasmBindingHash -> WasmModule -> WasmModule)
    (rm : option (WasmResult * WasmModule)) : option (WasmResult * WasmModule) :=
  '(r, m) ← rm;
  if WASM_FAILED r then Some (r, m)
  else
    '(r, (bindings, fields)) ← visit_items part visit (get m) 0 (module_fields m);
    Some (r, set bindings (mkModule (module_name m) fields (func_bindings m) (global_bindings m) (export_bindings m)
      (func_type_bindings m) (table_bindings m) (memory_bindings m))).

Definition set_func_bindings (h : WasmBindingHash) (m : WasmModule) : WasmModule :=
  mkModule (module_name m) (module_fields m) h (global_bindings m) (export_bindings m) (func_type_bindings m)
    (table_bindings m) (memory_bindings m).
Definition set_global_bindings (h : WasmBindingHash) (m : WasmModule) : WasmModule :=
  mkModule (module_name m) (module_fields m) (func_bindings m) h (export_bindings m) (func_type_bindings m)
    (table_bindings m) (memory_bindings m).
Definition set_func_type_bindings (h : WasmBindingHash) (m : WasmModule) : WasmModule :=
  mkModule (module_name m) (module_fields m) (func_bindings m) (global_bindings m) (export_bindings m) h
    (table_bindings m) (memory_bindings m).
Definition set_table_bindings (h : WasmBindingHash) (m : WasmModule) : WasmModule :=
  mkModule (module_name m) (module_fields m) (func_bindings m) (global_bindings m) (export_bindings m)
    (func_type_bindings m) h (memory_bindings m).
Definition set_memory_bindings (h : WasmBindingHash) (m : WasmModule) : WasmModule :=
  mkModule (module_name m) (module_fields m) (func_bindings m) (global_bindings m) (export_bindings m)
    (func_type_bindings m) (table_bindings m) h.

Definition visit_module (module : WasmModule) : option (WasmResult * WasmModule) :=
  visit_kind memory_part visit_memory memory_bindings set_memory_bindings
  (visit_kind table_part visit_table table_bindings set_table_bindings
  (visit_kind func_part visit_func func_bindings set_func_bindings
  (visit_kind func_type_part visit_func_type func_type_bindings set_func_type_bindings
  (visit_kind global_part visit_global global_bindings set_global_bindings (Some (WASM_OK, module)))))).

(** [None]: a failed assertion, or no memory for a table. *)
Definition wasm_generate_names (module : WasmModule) : option (WasmResult * WasmModule) := visit_module module.
End alloc.
