(* ===== verification/GenerateFacts.v ===== *)
(** * What generating names does

    [GenerateNames] names everything that has no name, binds the names and
    changes nothing else.  Then names can be used ([ApplyFacts]) and resolved
    ([ResolveFacts]), and the module is back. *)

From stdpp Require Import gmap pretty.
From S2P Require Import Prelude Opcode Vector BindingHash Ast StateOpt Visitor ResolveNames ResolveFacts GenerateNames ApplyNames ApplyFacts.

(** ** Generated names *)

Definition numbered (prefix : string) (k : N) : string := String.append prefix (pretty k).

Lemma append_inj (p a b : string) : String.append p a = String.append p b -> a = b.
Proof. induction p as [|c p IH]; cbn; [done|]. intros E. apply IH. by injection E. Qed.

Lemma numbered_inj p k k' : numbered p k = numbered p k' -> k = k'.
Proof. intros E%append_inj. by apply (inj pretty) in E. Qed.

Lemma generate_name_numbered p i : 0 <= i < 2 ^ 32 -> generate_name p i = Some (numbered p (Z.to_N i)).
Proof. intros Hi. unfold generate_name. by rewrite (wrap_id 32) by (split; lia). Qed.

Fixpoint gen_names (prefix : string) (i : Z) (names : list WasmStringSlice) : list WasmStringSlice :=
  match names with
  | [] => []
  | n :: names => maybe_generate_name prefix i n :: gen_names prefix (i + 1) names
  end.

(** The names that are new, with their indices. *)
Fixpoint new_from (prefix : string) (i : Z) (names : list WasmStringSlice) : list (string * Z) :=
  match names with
  | [] => []
  | n :: names =>
      (if has_name n then [] else [(numbered prefix (Z.to_N i), i)]) ++ new_from prefix (i + 1) names
  end.

(** Names that are not empty and look like none that is generated. *)
Definition tame (prefix : string) (names : list WasmStringSlice) : Prop :=
  Forall (fun n => forall s, n = Some s -> s <> ""%string /\ forall k, s <> numbered prefix k) names.

Lemma has_name_tame n : (forall s, n = Some s -> s <> ""%string) -> has_name n = match n with Some _ => true | None => false end.
Proof. destruct n as [s|]; [|done]. intros H. specialize (H s eq_refl). cbn. by destruct (String.eqb_spec s ""). Qed.

Lemma length_gen_names p i names : length (gen_names p i names) = length names.
Proof. revert i. induction names as [|n names IH]; intros i; cbn; [done|]. by rewrite IH. Qed.

Lemma gen_names_pairs p i names : tame p names -> 0 <= i -> i + Z.of_nat (length names) < 2 ^ 32 ->
  named_from i (gen_names p i names) ≡ₚ new_from p i names ++ named_from i names.
Proof.
  intros Ht. revert i. induction Ht as [|n names Hn _ IH]; intros i Hi Hl; [done|]. cbn [length] in Hl.
  cbn [gen_names new_from]. unfold maybe_generate_name.
  rewrite has_name_tame by (intros s E; by apply Hn). destruct n as [s|]; cbn [named_from].
  - rewrite IH by lia. cbn [app]. by rewrite Permutation_middle.
  - rewrite generate_name_numbered by lia. cbn [named_from app]. by rewrite IH by lia.
Qed.

Lemma new_from_keys p i names s : 0 <= i -> s ∈ (new_from p i names).*1 -> exists k, s = numbered p (Z.to_N k) /\ i <= k.
Proof.
  revert i. induction names as [|n names IH]; intros i Hi; cbn [new_from]; [by intros ?%elem_of_nil|].
  rewrite fmap_app, elem_of_app. intros [H|(k & -> & Hk)%IH]; [|exists k; split; [done|lia]|lia].
  destruct (has_name n); [by apply elem_of_nil in H|]. apply list_elem_of_singleton in H as ->. by exists i.
Qed.

Lemma new_from_NoDup p i names : 0 <= i -> NoDup (new_from p i names).*1.
Proof.
  revert i. induction names as [|n names IH]; intros i Hi; [constructor|]. cbn [new_from].
  destruct (has_name n); [apply IH; lia|]. cbn. constructor; [|apply IH; lia].
  intros (k & E & Hk)%new_from_keys; [|lia]. apply numbered_inj in E. lia.
Qed.

Lemma gen_names_distinct p names : tame p names -> Z.of_nat (length names) < 2 ^ 32 -> distinct names ->
  distinct (gen_names p 0 names).
Proof.
  intros Ht Hl Hd. unfold distinct. rewrite gen_names_pairs by (done || lia). rewrite fmap_app. apply NoDup_app.
  split_and!; [by apply new_from_NoDup| |exact Hd]. intros s (k & -> & _)%new_from_keys; [|done].
  intros ([t j] & E & Hin)%list_elem_of_fmap. cbn in E. subst t. apply elem_named_from in Hin as [_ Hin].
  apply list_elem_of_lookup_2 in Hin. unfold tame in Ht. rewrite Forall_forall in Ht.
  by destruct (Ht _ Hin _ eq_refl) as [_ Hn], (Hn (Z.to_N k)).
Qed.

(** ** Binding them *)

Lemma to_int_id i : 0 <= i < 2 ^ 31 -> to_int i = i.
Proof.
  intros Hi. unfold to_int. rewrite (wrap_id 32) by (split; lia). unfold to_signed.
  by rewrite (proj2 (Z.ltb_lt _ _)) by lia.
Qed.

Section bind.
Context (uninit : nat -> WasmBindingHashEntry).

Lemma generate_and_bind_runs h p i : hash_wf h -> Z.of_nat (length (bindings_of h)) < 2 ^ 47 -> 0 <= i < 2 ^ 31 ->
  exists h', generate_and_bind_name uninit h p i = Some (h', Some (numbered p (Z.to_N i))) /\ hash_wf h' /\
    bindings_of h' ≡ₚ (numbered p (Z.to_N i), i) :: bindings_of h.
Proof.
  intros Hh Hl Hi. unfold generate_and_bind_name. rewrite generate_name_numbered, to_int_id by lia.
  destruct (hash_wf_insert uninit h (numbered p (Z.to_N i)) i Hh) as (h' & -> & Hh' & Ep); [lia|done|]. by exists h'.
Qed.

Lemma maybe_generate_and_bind_runs h p i n : hash_wf h -> Z.of_nat (length (bindings_of h)) < 2 ^ 47 -> 0 <= i < 2 ^ 31 ->
  exists h', maybe_generate_and_bind_name uninit h p i n = Some (h', maybe_generate_name p i n) /\ hash_wf h' /\
    bindings_of h' ≡ₚ (if has_name n then [] else [(numbered p (Z.to_N i), i)]) ++ bindings_of h.
Proof.
  intros Hh Hl Hi. unfold maybe_generate_and_bind_name, maybe_generate_name. destruct (has_name n); [by exists h|].
  rewrite generate_name_numbered by lia. by apply generate_and_bind_runs.
Qed.

Lemma generate_locals_runs p names i h : hash_wf h -> 0 <= i -> i + Z.of_nat (length names) < 2 ^ 31 ->
  Z.of_nat (length (bindings_of h)) + Z.of_nat (length names) < 2 ^ 47 ->
  exists h', generate_and_bind_local_names uninit names h p i = Some h' /\ hash_wf h' /\
    bindings_of h' ≡ₚ new_from p i names ++ bindings_of h.
Proof.
  revert i h. induction names as [|n names IH]; intros i h Hh Hi Hl Hb; cbn [generate_and_bind_local_names new_from]; [by exists h|].
  cbn [length] in Hl, Hb. destruct (has_name n); [apply IH; done || lia|].
  destruct (generate_and_bind_runs h p i Hh) as (h1 & -> & Hh1 & E1); [lia..|]. cbn [mbind option_bind].
  assert (length (bindings_of h1) = S (length (bindings_of h))) as Hl1 by (by rewrite E1).
  destruct (IH (i + 1) h1 Hh1) as (h' & E & Hh' & E'); [lia..|].
  exists h'. split_and!; [done|done|]. rewrite E', E1. cbn [app]. by rewrite Permutation_middle.
Qed.

Lemma length_named_from i names : (length (named_from i names) <= length names)%nat.
Proof. revert i. induction names as [|[s|] names IH]; intros i; cbn; [lia|..]; specialize (IH (i + 1)); lia. Qed.

Lemma tabled_size h names : tabled h names -> (length (bindings_of h) <= length names)%nat.
Proof. intros (_ & -> & _). apply length_named_from. Qed.

Lemma tabled_new p h h' names : tabled h names -> tame p names -> Z.of_nat (length names) < 2 ^ 32 -> hash_wf h' ->
  bindings_of h' ≡ₚ new_from p 0 names ++ bindings_of h -> tabled h' (gen_names p 0 names).
Proof.
  intros (_ & Ep & Hd) Ht Hl Hh' E. split_and!; [done| |by apply gen_names_distinct].
  rewrite E, Ep. symmetry. apply gen_names_pairs; done || lia.
Qed.

Lemma generate_locals_tabled p names h : tabled h names -> tame p names -> Z.of_nat (length names) < 2 ^ 31 ->
  exists h', generate_and_bind_local_names uninit names h p 0 = Some h' /\ tabled h' (gen_names p 0 names).
Proof.
  intros Ht Hp Hl. pose proof (tabled_size _ _ Ht). destruct (generate_locals_runs p names 0 h) as (h' & E & Hh' & Eb);
    [apply Ht|lia..|]. exists h'. split; [done|]. eapply tabled_new; done || lia.
Qed.
End bind.

(** ** Without names

    What the pass leaves alone: a module less its names and tables. *)

Fixpoint erase_expr (e : WasmExpr) : WasmExpr :=
  match e with
  | EXPR_BLOCK _ s es => EXPR_BLOCK None s (map erase_expr es)
  | EXPR_LOOP _ s es => EXPR_LOOP None s (map erase_expr es)
  | EXPR_IF _ s ts fs => EXPR_IF None s (map erase_expr ts) (map erase_expr fs)
  | _ => e
  end.

Definition erase_func (f : WasmFunc) : WasmFunc :=
  mkFunc None (func_decl f) (func_local_types f) empty_hash empty_hash (map erase_expr (func_first_expr f)).

Definition erase_field (f : WasmModuleField) : WasmModuleField :=
  match f with
  | FIELD_FUNC x => FIELD_FUNC (erase_func x)
  | FIELD_GLOBAL x => FIELD_GLOBAL (mkGlobal None (global_type x) (global_mutable x) (global_init_expr x))
  | FIELD_FUNC_TYPE x => FIELD_FUNC_TYPE (mkFuncType None (func_type_sig x))
  | FIELD_TABLE x => FIELD_TABLE (mkTable None (table_elem_limits x))
  | FIELD_MEMORY x => FIELD_MEMORY (mkMemory None (memory_page_limits x))
  | FIELD_IMPORT (mkImport a b d) => FIELD_IMPORT (mkImport a b
      match d with
      | IMPORT_FUNC x => IMPORT_FUNC (erase_func x)
      | IMPORT_GLOBAL x => IMPORT_GLOBAL (mkGlobal None (global_type x) (global_mutable x) (global_init_expr x))
      | IMPORT_TABLE x => IMPORT_TABLE (mkTable None (table_elem_limits x))
      | IMPORT_MEMORY x => IMPORT_MEMORY (mkMemory None (memory_page_limits x))
      end)
  | _ => f
  end.

Definition erase_module (m : WasmModule) : WasmModule :=
  mkModule (module_name m) (map erase_field (module_fields m)) empty_hash empty_hash (export_bindings m)
    empty_hash empty_hash empty_hash.

(** ** Labels *)

Fixpoint blocks (e : WasmExpr) : Z :=
  match e with
  | EXPR_BLOCK _ _ es | EXPR_LOOP _ _ es => 1 + foldr (fun e n => blocks e + n) 0 es
  | EXPR_IF _ _ ts fs => 1 + foldr (fun e n => blocks e + n) 0 ts + foldr (fun e n => blocks e + n) 0 fs
  | _ => 0
  end.

Abbreviation blocks_of := (foldr (fun e n => blocks e + n) 0).

Lemma blocks_nonneg : forall e, 0 <= blocks e.
Proof.
  assert (forall es, Forall (fun e => 0 <= blocks e) es -> 0 <= blocks_of es) as Hl
    by (induction 1; cbn [foldr]; lia).
  apply (WasmExpr_nested_ind (fun e => 0 <= blocks e)); cbn [blocks].
  - intros l s es H%Hl. lia.
  - intros l s es H%Hl. lia.
  - intros l s ts fs Ht%Hl Hf%Hl. lia.
  - by intros [].
Qed.

Lemma blocks_of_nonneg es : 0 <= blocks_of es.
Proof. induction es as [|e es IH]; cbn [foldr]; [done|]. pose proof (blocks_nonneg e). lia. Qed.

Fixpoint labelled (e : WasmExpr) : bool :=
  match e with
  | EXPR_BLOCK l _ es | EXPR_LOOP l _ es => has_name l && forallb labelled es
  | EXPR_IF l _ ts fs => has_name l && (forallb labelled ts && forallb labelled fs)
  | _ => true
  end.

Fixpoint unlabelled (e : WasmExpr) : bool :=
  match e with
  | EXPR_BLOCK l _ es | EXPR_LOOP l _ es => negb (has_name l) && forallb unlabelled es
  | EXPR_IF l _ ts fs => negb (has_name l) && (forallb unlabelled ts && forallb unlabelled fs)
  | _ => true
  end.

(** Labels made from numbers below [n]. *)
Definition below (n : Z) (ls : list WasmLabel) : Prop :=
  Forall (fun l => exists k p, 0 <= k < n /\ l = Some (numbered p (Z.to_N k)) /\ (p = "$B" \/ p = "$L")%string) ls.

Lemma below_fresh n ls p : 0 <= n -> (p = "$B" \/ p = "$L")%string -> below n ls ->
  fresh_label (Some (numbered p (Z.to_N n))) ls = true.
Proof.
  intros Hn Hp H. cbn [fresh_label]. apply negb_true_iff, not_true_iff_false. intros (l & Hl & E)%existsb_exists.
  apply list_elem_of_In in Hl. unfold below in H. rewrite Forall_forall in H. destruct (H l Hl) as (k & q & Hk & -> & Hq).
  cbn [wasm_string_slices_are_equal] in E. apply String.eqb_eq in E.
  destruct Hp as [->| ->], Hq as [->| ->]; try discriminate E; apply numbered_inj in E; lia.
Qed.

Lemma below_cons n ls p : 0 <= n -> (p = "$B" \/ p = "$L")%string -> below n ls ->
  below (n + 1) (Some (numbered p (Z.to_N n)) :: ls).
Proof.
  intros Hn Hp H. constructor; [exists n, p; split_and!; done || lia|]. eapply Forall_impl; [exact H|].
  intros l (k & q & Hk & Hl & Hq). exists k, q. split_and!; done || lia.
Qed.

Lemma below_mono n n' ls : n <= n' -> below n ls -> below n' ls.
Proof.
  intros Hn H. eapply Forall_impl; [exact H|]. intros l (k & q & Hk & Hl & Hq). exists k, q. split_and!; done || lia.
Qed.

(** A run of the visitor from [n], to an expression that differs in labels. *)
Definition labels_expr (n : Z) (e e' : WasmExpr) : Prop :=
  erase_expr e' = erase_expr e /\ labelled e' = true /\
  (unlabelled e = true -> n + blocks e < 2 ^ 32 -> forall ls0 ls, clear_expr e ls0 = true -> below n ls -> clear_expr e' ls = true).

Definition labels_exprs (n : Z) (es es' : list WasmExpr) : Prop :=
  map erase_expr es' = map erase_expr es /\ forallb labelled es' = true /\
  (forallb unlabelled es = true -> n + blocks_of es < 2 ^ 32 -> forall ls0 ls,
    forallb (fun e => clear_expr e ls0) es = true -> below n ls -> forallb (fun e => clear_expr e ls) es' = true).

(** The count after [k] blocks; it wraps around. *)
Definition count_after (n k : Z) : Z := u32 (n + k).

Lemma has_name_maybe p i n : has_name (maybe_generate_name p i n) = true \/ p = ""%string.
Proof.
  unfold maybe_generate_name. destruct (has_name n) eqn:E; [by left|]. destruct p as [|c p]; [by right|]. by left.
Qed.

Lemma count_after_after n k k' : count_after (count_after n k) k' = count_after n (k + k').
Proof. unfold count_after, wrap. rewrite Zplus_mod_idemp_l. f_equal. lia. Qed.

Lemma visit_list_labels es :
  Forall (fun e => forall n, in_u 32 n -> exists e', visit_expr GenerateNames.visitor e n = Some ((WASM_OK, e'), count_after n (blocks e)) /\
    labels_expr n e e') es ->
  forall n, in_u 32 n -> exists es', Visitor.visit_loop (visit_expr GenerateNames.visitor) es n =
      Some ((WASM_OK, es'), count_after n (blocks_of es)) /\ labels_exprs n es es'.
Proof.
  induction 1 as [|e es He _ IH]; intros n Hn; cbn [Visitor.visit_loop foldr].
  - exists []. unfold count_after. rewrite Z.add_0_r, (wrap_id 32) by done. split; [done|]. by split_and!.
  - destruct (He n Hn) as (e' & E & Er & El & Ec).
    assert (in_u 32 (count_after n (blocks e))) as Hn' by (apply wrap_in_u; lia).
    destruct (IH _ Hn') as (es' & Es & Ers & Els & Ecs). exists (e' :: es'). split.
    + unfold so_bind. rewrite E. cbn [check_result WASM_FAILED]. rewrite Es. by rewrite count_after_after.
    + unfold labels_exprs. cbn [map forallb]. split_and!; [by rewrite Er, Ers|by rewrite El, Els|].
      intros [Ue Us]%andb_true_iff Hb ls0 ls [C Cs]%andb_true_iff Hls. cbn [foldr] in Hb. pose proof (blocks_of_nonneg es). pose proof (blocks_nonneg e).
      destruct Hn as [Hn0 Hn1]. rewrite (Ec Ue) with (ls0 := ls0) by (done || lia). cbn [andb].
      assert (count_after n (blocks e) = n + blocks e) as E1 by (unfold count_after; rewrite (wrap_id 32); [done|split; lia]).
      rewrite E1 in Ecs. apply (Ecs Us ltac:(lia) ls0); [done|]. eapply below_mono; [|exact Hls]. lia.
Qed.

Lemma in_u_below n k : in_u 32 n -> 0 <= k -> n + 1 + k < 2 ^ 32 -> count_after n 1 = n + 1.
Proof. intros [Hn _] Hk Hb. unfold count_after. rewrite (wrap_id 32); [done|split; lia]. Qed.

(** The body of a block, below the label it gets. *)
Lemma block_clear p n l ls0 ls es es' : (p = "$B" \/ p = "$L")%string -> in_u 32 n -> labels_exprs (count_after n 1) es es' ->
  has_name l = false -> forallb unlabelled es = true -> n + 1 + blocks_of es < 2 ^ 32 ->
  forallb (fun e => clear_expr e (l :: ls0)) es = true -> below n ls ->
  fresh_label (maybe_generate_name p n l) ls && forallb (fun e => clear_expr e (maybe_generate_name p n l :: ls)) es' = true.
Proof.
  intros Hp Hn (_ & _ & Hc) Hl Hu Hb C Hls. unfold maybe_generate_name. rewrite Hl. pose proof (blocks_of_nonneg es).
  rewrite (in_u_below n (blocks_of es)) in Hc by done. destruct Hn as [Hn0 Hn1].
  rewrite generate_name_numbered by lia. rewrite (below_fresh n ls p) by done. apply (Hc Hu ltac:(lia) (l :: ls0)); [done|].
  by apply below_cons.
Qed.

Lemma visit_labels : forall e n, in_u 32 n ->
  exists e', visit_expr GenerateNames.visitor e n = Some ((WASM_OK, e'), count_after n (blocks e)) /\ labels_expr n e e'.
Proof.
  assert (forall n, in_u 32 n -> in_u 32 (count_after n 1)) as Hin by (intros; apply wrap_in_u; lia).
  assert (forall p n l, (p = "$B" \/ p = "$L")%string -> has_name (maybe_generate_name p n l) = true) as Hname
    by (intros p n l Hp; destruct (has_name_maybe p n l) as [|E]; [done|]; subst p; by destruct Hp).
  apply (WasmExpr_nested_ind (fun e => forall n, in_u 32 n ->
    exists e', visit_expr GenerateNames.visitor e n = Some ((WASM_OK, e'), count_after n (blocks e)) /\ labels_expr n e e')).
  - intros l s es H n Hn. destruct (visit_list_labels es H (count_after n 1) (Hin n Hn)) as (es' & E & Hes).
    exists (EXPR_BLOCK (maybe_generate_name "$B" n l) s es'). split.
    + cbn [visit_expr]. unfold CALLBACK, so_bind. cbn [GenerateNames.visitor].
      assert (GenerateNames.begin_block (EXPR_BLOCK l s es) n = Some ((WASM_OK, EXPR_BLOCK (maybe_generate_name "$B" n l) s es), count_after n 1)) as -> by reflexivity.
      cbn [check_result WASM_FAILED].
      rewrite E. cbn [check_result WASM_FAILED with_body so_ret blocks]. by rewrite count_after_after.
    + pose proof Hes as (Er & El & _). split_and!; cbn [erase_expr labelled unlabelled blocks clear_expr]; [by rewrite Er|by rewrite Hname, El by auto|].
      intros [Ul%negb_true_iff Us]%andb_true_iff Hb ls0 ls [_ C]%andb_true_iff Hls. eapply (block_clear "$B" n l ls0); try done; auto || lia.
  - intros l s es H n Hn. destruct (visit_list_labels es H (count_after n 1) (Hin n Hn)) as (es' & E & Hes).
    exists (EXPR_LOOP (maybe_generate_name "$L" n l) s es'). split.
    + cbn [visit_expr]. unfold CALLBACK, so_bind. cbn [GenerateNames.visitor].
      assert (GenerateNames.begin_block (EXPR_LOOP l s es) n = Some ((WASM_OK, EXPR_LOOP (maybe_generate_name "$L" n l) s es), count_after n 1)) as -> by reflexivity.
      cbn [check_result WASM_FAILED].
      rewrite E. cbn [check_result WASM_FAILED with_body so_ret blocks]. by rewrite count_after_after.
    + pose proof Hes as (Er & El & _). split_and!; cbn [erase_expr labelled unlabelled blocks clear_expr]; [by rewrite Er|by rewrite Hname, El by auto|].
      intros [Ul%negb_true_iff Us]%andb_true_iff Hb ls0 ls [_ C]%andb_true_iff Hls. eapply (block_clear "$L" n l ls0); try done; auto || lia.
  - intros l s ts fs Ht Hf n Hn. destruct (visit_list_labels ts Ht (count_after n 1) (Hin n Hn)) as (ts' & E & Hts).
    assert (in_u 32 (count_after (count_after n 1) (blocks_of ts))) as Hn' by (apply wrap_in_u; lia).
    destruct (visit_list_labels fs Hf _ Hn') as (fs' & E' & Hfs).
    exists (EXPR_IF (maybe_generate_name "$L" n l) s ts' fs'). split.
    + cbn [visit_expr]. unfold CALLBACK, so_bind. cbn [GenerateNames.visitor].
      assert (GenerateNames.begin_block (EXPR_IF l s ts fs) n = Some ((WASM_OK, EXPR_IF (maybe_generate_name "$L" n l) s ts fs), count_after n 1)) as -> by reflexivity.
      cbn [check_result WASM_FAILED].
      rewrite E. unfold so_ret. cbn [check_result WASM_FAILED with_body]. rewrite E'. cbn [check_result WASM_FAILED with_body so_ret blocks].
      rewrite !count_after_after. do 3 f_equal. lia.
    + pose proof Hts as (Ert & Elt & _). pose proof Hfs as (Erf & Elf & Hcf).
      split_and!; cbn [erase_expr labelled unlabelled blocks clear_expr]; [by rewrite Ert, Erf|by rewrite Hname, Elt, Elf by auto|].
      intros [Ul%negb_true_iff [Ut Uf]%andb_true_iff]%andb_true_iff Hb ls0 ls [_ [Ct Cf]%andb_true_iff]%andb_true_iff Hls.
      pose proof (blocks_of_nonneg ts). pose proof (blocks_of_nonneg fs).
      pose proof (block_clear "$L" n l ls0 ls ts ts' ltac:(auto) Hn Hts Ul Ut ltac:(lia) Ct Hls) as [F1 F2]%andb_true_iff.
      apply andb_true_iff. split; [exact F1|]. apply andb_true_iff. split; [exact F2|]. clear F1 F2. unfold maybe_generate_name in *. rewrite Ul in *. destruct Hn as [Hn0 Hn1].
      rewrite generate_name_numbered in * by lia. rewrite (in_u_below n (blocks_of ts)) in Hcf by (done || lia || split; lia).
      assert (count_after (n + 1) (blocks_of ts) = n + 1 + blocks_of ts) as E2
        by (unfold count_after; rewrite (wrap_id 32); [done|split; lia]).
      rewrite E2 in Hcf. apply (Hcf Uf ltac:(lia) (l :: ls0)); [done|]. eapply below_mono; [|by apply below_cons; auto]. lia.
  - intros []; try done; intros n Hn; (eexists; split; [by cbn [blocks]; unfold count_after; rewrite Z.add_0_r, (wrap_id 32) by done|]);
      by split_and!.
Qed.

(** ** Functions *)

Definition few_blocks (f : WasmFunc) : Prop := blocks_of (func_first_expr f) < 2 ^ 32.

(** A function with names consistent, none of which looks generated. *)
Record func_ready (f : WasmFunc) : Prop := mkFuncReady {
  ready_named : func_named f;
  ready_few : Z.of_nat (num_locals f) < 2 ^ 31;
  ready_params : tame "$p" (param_names f ++ local_names f);
  ready_locals : tame "$l" (param_names f ++ local_names f)
}.

Record generated_func (f f' : WasmFunc) : Prop := mkGeneratedFunc {
  gen_erase : erase_func f' = erase_func f;
  gen_named : func_named f';
  gen_params : param_names f' = gen_names "$p" 0 (param_names f);
  gen_locals : local_names f' = gen_names "$l" 0 (local_names f);
  gen_labelled : forallb labelled (func_first_expr f') = true;
  gen_clear : forallb unlabelled (func_first_expr f) = true -> few_blocks f ->
    forallb (fun e => clear_expr e []) (func_first_expr f) = true ->
    forallb (fun e => clear_expr e []) (func_first_expr f') = true
}.

(** One more name in the table of a space. *)
Definition bound_one (p : string) (i : Z) (n : WasmStringSlice) (h h' : WasmBindingHash) : Prop :=
  hash_wf h' /\ bindings_of h' ≡ₚ (if has_name n then [] else [(numbered p (Z.to_N i), i)]) ++ bindings_of h.

Definition roomy (h : WasmBindingHash) (i : Z) : Prop :=
  hash_wf h /\ Z.of_nat (length (bindings_of h)) < 2 ^ 47 /\ 0 <= i < 2 ^ 31.

Section items.
Context (uninit : nat -> WasmBindingHashEntry).

Lemma maybe_bind_runs h p i n : roomy h i ->
  exists h', maybe_generate_and_bind_name uninit h p i n = Some (h', maybe_generate_name p i n) /\ bound_one p i n h h'.
Proof.
  intros (Hh & Hl & Hi). destruct (maybe_generate_and_bind_runs uninit h p i n Hh Hl Hi) as (h' & E & H1 & H2).
  exists h'. split; [done|]. by split.
Qed.

Lemma generate_func_runs h i f : roomy h i -> func_ready f ->
  exists h' f', GenerateNames.visit_func uninit h i f = Some (WASM_OK, (h', f')) /\ bound_one "$f" i (func_name f) h h' /\
    func_name f' = maybe_generate_name "$f" i (func_name f) /\ generated_func f f'.
Proof.
  intros Hr [Hn Hfew [Hp _]%Forall_app [_ Hl]%Forall_app]. destruct (maybe_bind_runs h "$f" i (func_name f) Hr) as (h' & Eh & Hh').
  pose proof (params_length f Hn) as Lp. pose proof (locals_length f Hn) as Ll. unfold num_locals in Hfew.
  assert (forall types h names, tabled h names -> length names = length types -> Z.of_nat (length types) < 2 ^ 31 ->
    wasm_make_type_binding_reverse_mapping types h = Some names) as Hrev
    by (intros; eapply reverse_mapping_tabled; done || lia).
  destruct (generate_locals_tabled uninit "$p" _ _ (params_tabled f Hn) Hp) as (pb & Ep & Tp); [unfold WasmStringSlice in *; lia|].
  destruct (generate_locals_tabled uninit "$l" _ _ (locals_tabled f Hn) Hl) as (lb & El & Tl); [unfold WasmStringSlice in *; lia|].
  destruct (visit_list_labels (func_first_expr f)) with (n := 0) as (es & Ee & Er & Elab & Ec);
    [apply Forall_true, visit_labels|split; lia|].
  set (f' := mkFunc (maybe_generate_name "$f" i (func_name f)) (func_decl f) (func_local_types f) pb lb es).
  assert (param_names f' = gen_names "$p" 0 (param_names f)) as Ep'.
  { unfold param_names at 1. cbn [f' func_decl func_param_bindings].
    rewrite (Hrev _ _ _ Tp); [done|by rewrite length_gen_names|lia]. }
  assert (local_names f' = gen_names "$l" 0 (local_names f)) as El'.
  { unfold local_names at 1. cbn [f' func_local_types func_local_bindings].
    rewrite (Hrev _ _ _ Tl); [done|by rewrite length_gen_names|lia]. }
  exists h', f'. split_and!; [|done|done|].
  - unfold GenerateNames.visit_func. rewrite Eh. cbn [mbind option_bind].
    rewrite (Hrev _ _ _ (params_tabled f Hn)) by (done || lia). cbn [mbind option_bind]. rewrite Ep. cbn [mbind option_bind].
    rewrite (Hrev _ _ _ (locals_tabled f Hn)) by (done || lia). cbn [mbind option_bind]. rewrite El. cbn [mbind option_bind].
    unfold wasm_visit_func, wasm_visit_expr_list, so_bind. cbn [func_first_expr]. by rewrite Ee.
  - split; [unfold erase_func; cbn; by rewrite Er| |done|done|done|].
    + split; rewrite ?Ep', ?El'; [done|done|..]; rewrite ?length_gen_names; done || (cbn; lia).
    + intros Hu Hb C. apply (Ec Hu Hb []); [done|constructor].
Qed.
End items.

(** ** Index spaces of a module *)

Inductive space : Set := FUNC | GLOBAL | FUNC_TYPE | TABLE | MEMORY.

#[global] Instance space_eq_dec : EqDecision space.
Proof. solve_decision. Defined.

Definition space_of (f : WasmModuleField) : option (space * WasmStringSlice) :=
  match f with
  | FIELD_FUNC x | FIELD_IMPORT (mkImport _ _ (IMPORT_FUNC x)) => Some (FUNC, func_name x)
  | FIELD_GLOBAL x | FIELD_IMPORT (mkImport _ _ (IMPORT_GLOBAL x)) => Some (GLOBAL, global_name x)
  | FIELD_TABLE x | FIELD_IMPORT (mkImport _ _ (IMPORT_TABLE x)) => Some (TABLE, table_name x)
  | FIELD_MEMORY x | FIELD_IMPORT (mkImport _ _ (IMPORT_MEMORY x)) => Some (MEMORY, memory_name x)
  | FIELD_FUNC_TYPE x => Some (FUNC_TYPE, func_type_name x)
  | _ => None
  end.

Definition name_in (k : space) (f : WasmModuleField) : option WasmStringSlice :=
  match space_of f with Some (k', n) => if decide (k' = k) then Some n else None | None => None end.

Definition names_of (k : space) (fs : list WasmModuleField) : list WasmStringSlice := omap (name_in k) fs.

Lemma map_omap {A B C} (g : B -> C) (f : A -> option B) (f' : A -> option C) l :
  (forall x, g <$> f x = f' x) -> map g (omap f l) = omap f' l.
Proof.
  intros H. induction l as [|x l IH]; [done|]. cbn [omap list_omap]. rewrite <- H, <- IH. by destruct (f x).
Qed.

Lemma names_of_module m : func_names m = names_of FUNC (module_fields m) /\ global_names m = names_of GLOBAL (module_fields m) /\
  func_type_names m = names_of FUNC_TYPE (module_fields m) /\ table_names m = names_of TABLE (module_fields m) /\
  memory_names m = names_of MEMORY (module_fields m).
Proof. split_and!; apply map_omap; by intros [x|x|[a b []]|x|x|x|x|x|x|x]. Qed.

(** What becomes of a field: its name aside, and of functions their bodies. *)
Definition generated_field (f f' : WasmModuleField) : Prop :=
  erase_field f' = erase_field f /\ fst <$> space_of f' = fst <$> space_of f /\
  match f, f' with
  | FIELD_FUNC x, FIELD_FUNC x'
  | FIELD_IMPORT (mkImport _ _ (IMPORT_FUNC x)), FIELD_IMPORT (mkImport _ _ (IMPORT_FUNC x')) => generated_func x x'
  | _, _ => True
  end.

(** The loop of space [k] changes the fields of that space. *)
Definition step (k : space) (f f' : WasmModuleField) : Prop :=
  match name_in k f with Some _ => generated_field f f' | None => f' = f end.

Definition field_ready (f : WasmModuleField) : Prop :=
  match f with FIELD_FUNC x | FIELD_IMPORT (mkImport _ _ (IMPORT_FUNC x)) => func_ready x | _ => True end.

(** Only the loop over functions asks for it. *)
Definition ready_for (k : space) (f : WasmModuleField) : Prop := k = FUNC -> field_ready f.

Definition prefix_of (k : space) : string :=
  match k with FUNC => "$f" | GLOBAL => "$g" | FUNC_TYPE => "$t" | TABLE => "$T" | MEMORY => "$M" end.

(** A visit of the items of space [k]. *)
Definition item_ok {A} (k : space) (part : Part A) (visit : WasmBindingHash -> Z -> A -> Visited A) : Prop :=
  forall f, match part f, name_in k f with
  | Some (x, put), Some n => forall h i, ready_for k f -> roomy h i -> exists h' x', visit h i x = Some (WASM_OK, (h', x')) /\
      bound_one (prefix_of k) i n h h' /\ name_in k (put x') = Some (maybe_generate_name (prefix_of k) i n) /\ generated_field f (put x')
  | None, None => True
  | _, _ => False
  end.

Section loop.
Context {A : Type} (k : space) (part : Part A) (visit : WasmBindingHash -> Z -> A -> Visited A).
Hypothesis Hpart : item_ok k part visit.

Lemma visit_items_runs fs i h : Forall (ready_for k) fs -> hash_wf h -> 0 <= i -> i + Z.of_nat (length (names_of k fs)) < 2 ^ 31 ->
  Z.of_nat (length (bindings_of h)) + Z.of_nat (length (names_of k fs)) < 2 ^ 47 ->
  exists h' fs', visit_items part visit h i fs = Some (WASM_OK, (h', fs')) /\ hash_wf h' /\
    bindings_of h' ≡ₚ new_from (prefix_of k) i (names_of k fs) ++ bindings_of h /\
    names_of k fs' = gen_names (prefix_of k) i (names_of k fs) /\ Forall2 (step k) fs fs'.
Proof.
  intros Hf. revert i h. induction Hf as [|f fs Hf _ IH]; intros i h Hh Hi Hl Hb; [by exists h, []|].
  cbn [visit_items]. unfold names_of in *. cbn [omap list_omap] in *. pose proof (Hpart f) as Hitem.
  destruct (part f) as [[x put]|] eqn:Ep, (name_in k f) as [n|] eqn:En; try done; cbn [length] in *.
  - destruct (Hitem h i Hf) as (h1 & x' & -> & [Hh1 E1] & Hn & Hg); [split_and!; done || lia|]. cbn [mbind option_bind WASM_FAILED].
    assert (length (bindings_of h1) <= S (length (bindings_of h)))%nat as Hl1 by (rewrite E1; destruct (has_name n); cbn; lia).
    destruct (IH (i + 1) h1 Hh1) as (h' & fs' & -> & Hh' & Eh & Efs & H2); [lia..|]. cbn [mbind option_bind].
    exists h', (put x' :: fs'). split_and!; [done|done| | |].
    + rewrite Eh, E1. cbn [new_from]. rewrite !app_assoc. apply Permutation_app_tail, Permutation_app_comm.
    + cbn [omap list_omap]. by rewrite Hn, Efs.
    + constructor; [|done]. unfold step. by rewrite En.
  - destruct (IH i h Hh) as (h' & fs' & -> & Hh' & Eh & Efs & H2); [lia..|]. cbn [mbind option_bind].
    exists h', (f :: fs'). split_and!; [done|done|done| |].
    + cbn [omap list_omap]. by rewrite En.
    + constructor; [|done]. unfold step. by rewrite En.
Qed.
End loop.

(** ** The module *)

Abbreviation all_spaces := [MEMORY; TABLE; FUNC; FUNC_TYPE; GLOBAL].

Section module.
Context (uninit : nat -> WasmBindingHashEntry).

Definition table_of (k : space) (m : WasmModule) : WasmBindingHash :=
  match k with
  | FUNC => func_bindings m | GLOBAL => global_bindings m | FUNC_TYPE => func_type_bindings m
  | TABLE => table_bindings m | MEMORY => memory_bindings m
  end.

Definition with_table (k : space) (h : WasmBindingHash) (m : WasmModule) : WasmModule :=
  match k with
  | FUNC => set_func_bindings h m | GLOBAL => set_global_bindings h m | FUNC_TYPE => set_func_type_bindings h m
  | TABLE => set_table_bindings h m | MEMORY => set_memory_bindings h m
  end.

Definition loop_of (k : space) : option (WasmResult * WasmModule) -> option (WasmResult * WasmModule) :=
  match k with
  | FUNC => visit_kind func_part (GenerateNames.visit_func uninit) func_bindings set_func_bindings
  | GLOBAL => visit_kind global_part (GenerateNames.visit_global uninit) global_bindings set_global_bindings
  | FUNC_TYPE => visit_kind func_type_part (GenerateNames.visit_func_type uninit) func_type_bindings set_func_type_bindings
  | TABLE => visit_kind table_part (GenerateNames.visit_table uninit) table_bindings set_table_bindings
  | MEMORY => visit_kind memory_part (GenerateNames.visit_memory uninit) memory_bindings set_memory_bindings
  end.

Lemma visit_loops m : GenerateNames.visit_module uninit m =
  loop_of MEMORY (loop_of TABLE (loop_of FUNC (loop_of FUNC_TYPE (loop_of GLOBAL (Some (WASM_OK, m)))))).
Proof. done. Qed.

Lemma func_item_ok : item_ok FUNC func_part (GenerateNames.visit_func uninit).
Proof.
  intros [x|x|[a b []]|x|x|x|x|x|x|x]; try done; intros h i Hr Hroom;
    (destruct (generate_func_runs uninit h i _ Hroom (Hr eq_refl)) as (h' & x' & E & Hb & En & Hg);
     exists h', x'; split_and!; [done|done|by cbn; rewrite En|]);
    (split_and!; [|done|done]); cbn; by rewrite (gen_erase _ _ Hg).
Qed.

(** The others have nothing but a name. *)
Ltac solve_item visit :=
  intros [x|x|[a b []]|x|x|x|x|x|x|x]; try done; intros h i _ Hroom; unfold visit;
    match goal with |- context [maybe_generate_and_bind_name _ h ?p i ?n] =>
      destruct (maybe_bind_runs uninit h p i n Hroom) as (h' & -> & Hb) end;
    cbn [mbind option_bind]; eexists _, _; by split_and!.

Lemma global_item_ok : item_ok GLOBAL global_part (GenerateNames.visit_global uninit).
Proof. solve_item GenerateNames.visit_global. Qed.
Lemma func_type_item_ok : item_ok FUNC_TYPE func_type_part (GenerateNames.visit_func_type uninit).
Proof. solve_item GenerateNames.visit_func_type. Qed.
Lemma table_item_ok : item_ok TABLE table_part (GenerateNames.visit_table uninit).
Proof. solve_item GenerateNames.visit_table. Qed.
Lemma memory_item_ok : item_ok MEMORY memory_part (GenerateNames.visit_memory uninit).
Proof. solve_item GenerateNames.visit_memory. Qed.

Lemma visit_kind_runs {A} (part : Part A) visit k get set m : item_ok k part visit -> Forall (ready_for k) (module_fields m) ->
  tabled (get m) (names_of k (module_fields m)) ->
  tame (prefix_of k) (names_of k (module_fields m)) -> Z.of_nat (length (names_of k (module_fields m))) < 2 ^ 31 ->
  exists h' fs', visit_kind part visit get set (Some (WASM_OK, m)) = Some (WASM_OK, set h' (with_fields m fs')) /\
    tabled h' (gen_names (prefix_of k) 0 (names_of k (module_fields m))) /\
    names_of k fs' = gen_names (prefix_of k) 0 (names_of k (module_fields m)) /\ Forall2 (step k) (module_fields m) fs'.
Proof.
  intros Hi Hf Ht Hp Hl. pose proof (tabled_size _ _ Ht) as Hs.
  destruct (visit_items_runs k part visit Hi (module_fields m) 0 (get m)) as (h' & fs' & E & Hh' & Eb & En & H2);
    [done|apply Ht|lia..|]. exists h', fs'. split_and!; [|by eapply tabled_new; done || lia|done|done].
  unfold visit_kind. cbn [mbind option_bind WASM_FAILED]. by rewrite E.
Qed.

Lemma loop_of_runs k m : Forall (ready_for k) (module_fields m) -> tabled (table_of k m) (names_of k (module_fields m)) ->
  tame (prefix_of k) (names_of k (module_fields m)) -> Z.of_nat (length (names_of k (module_fields m))) < 2 ^ 31 ->
  exists h' fs', loop_of k (Some (WASM_OK, m)) = Some (WASM_OK, with_table k h' (with_fields m fs')) /\
    tabled h' (gen_names (prefix_of k) 0 (names_of k (module_fields m))) /\
    names_of k fs' = gen_names (prefix_of k) 0 (names_of k (module_fields m)) /\ Forall2 (step k) (module_fields m) fs'.
Proof.
  destruct k; apply visit_kind_runs; [apply func_item_ok|apply global_item_ok|apply func_type_item_ok|apply table_item_ok|apply memory_item_ok].
Qed.

(** *** One loop after the other *)

Lemma name_in_step k k' f f' : k' <> k -> step k f f' -> name_in k' f' = name_in k' f.
Proof.
  unfold step, name_in. intros Hk H. destruct (space_of f) as [[j n]|] eqn:E; [|by rewrite H, E].
  destruct (decide (j = k)) as [->|]; [|by rewrite H, E]. destruct H as (_ & H & _). rewrite E in H. cbn in H.
  apply fmap_Some in H as ([j n'] & -> & Ej). cbn in Ej. subst j. by rewrite !decide_False by done.
Qed.

Lemma names_of_step k k' fs fs' : k' <> k -> Forall2 (step k) fs fs' -> names_of k' fs' = names_of k' fs.
Proof.
  intros Hk. induction 1 as [|f f' fs fs' H _ IH]; [done|]. unfold names_of in *. cbn [omap list_omap].
  by rewrite (name_in_step _ _ _ _ Hk H), IH.
Qed.

(** A field after the loops of [done]. *)
Definition stepped (done : list space) (f f' : WasmModuleField) : Prop :=
  match space_of f with
  | Some (k, _) => if decide (k ∈ done) then generated_field f f' else f' = f
  | None => f' = f
  end.

Record progress (done : list space) (m m' : WasmModule) : Prop := mkProgress {
  progress_name : module_name m' = module_name m;
  progress_exports : export_bindings m' = export_bindings m;
  progress_fields : Forall2 (stepped done) (module_fields m) (module_fields m');
  progress_done : forall k, k ∈ done -> tabled (table_of k m') (names_of k (module_fields m')) /\
    names_of k (module_fields m') = gen_names (prefix_of k) 0 (names_of k (module_fields m));
  progress_left : forall k, k ∉ done -> table_of k m' = table_of k m /\ names_of k (module_fields m') = names_of k (module_fields m)
}.

Lemma progress_nil m : progress [] m m.
Proof.
  split; [done|done| |by intros k ?%elem_of_nil|done]. apply Forall_Forall2_diag, Forall_true.
  intros f. unfold stepped. destruct (space_of f) as [[k n]|]; [|done]. by rewrite decide_False by apply not_elem_of_nil.
Qed.

Lemma generated_space f f' j n : generated_field f f' -> space_of f = Some (j, n) -> exists n', space_of f' = Some (j, n').
Proof.
  intros (_ & H & _) E. rewrite E in H. cbn in H. apply fmap_Some in H as ([j' n'] & -> & Ej). cbn in Ej. subst j'. by exists n'.
Qed.

Lemma stepped_step done k f f1 f2 : k ∉ done -> stepped done f f1 -> step k f1 f2 -> stepped (k :: done) f f2.
Proof.
  unfold stepped, step, name_in. intros Hk. destruct (space_of f) as [[j n]|] eqn:Ef; [|intros ->; by rewrite Ef].
  destruct (decide (j ∈ done)) as [Hj|Hj].
  - intros Hg. destruct (generated_space _ _ _ _ Hg Ef) as [n' ->].
    rewrite decide_False by set_solver. rewrite decide_True by set_solver. by intros ->.
  - intros ->. rewrite Ef. destruct (decide (j = k)) as [->|Hjk].
    + by rewrite decide_True by set_solver.
    + by rewrite decide_False by set_solver.
Qed.

(** Functions are as they were before their own loop. *)
Lemma stepped_ready done f f1 : FUNC ∉ done -> stepped done f f1 -> field_ready f -> field_ready f1.
Proof.
  unfold stepped. intros Hk. destruct (space_of f) as [[j n]|] eqn:Ef; [|by intros ->].
  destruct (decide (j ∈ done)) as [Hj|Hj]; [|by intros ->]. intros Hg _.
  destruct (generated_space _ _ _ _ Hg Ef) as [n' E]. destruct f1 as [x|x|[a b []]|x|x|x|x|x|x|x]; try done;
    cbn in E; injection E as <- _; set_solver.
Qed.

Record module_ready (m : WasmModule) : Prop := mkModuleReady {
  ready_tables : forall k, tabled (table_of k m) (names_of k (module_fields m)) /\
    tame (prefix_of k) (names_of k (module_fields m)) /\ Z.of_nat (length (names_of k (module_fields m))) < 2 ^ 31;
  ready_fields : Forall field_ready (module_fields m)
}.

Lemma table_of_with k k' h fs m : table_of k' (with_table k h (with_fields m fs)) = if decide (k' = k) then h else table_of k' m.
Proof. by destruct k, k'. Qed.

Lemma loop_progress done k m m1 : module_ready m -> k ∉ done -> progress done m m1 ->
  exists m', loop_of k (Some (WASM_OK, m1)) = Some (WASM_OK, m') /\ progress (k :: done) m m'.
Proof.
  intros [Ht Hf] Hk [Hn He H2 Hd Hl]. destruct (Ht k) as (Htk & Hpk & Hsk). destruct (Hl k Hk) as [El En].
  destruct (loop_of_runs k m1) as (h' & fs' & E & T & N & H2'); [|by rewrite El, En|by rewrite En|by rewrite En|].
  { apply Forall_lookup. intros i f1 Hi Ek. subst k. destruct (Forall2_lookup_r _ _ _ _ _ H2 Hi) as (f & Hif & Hs).
    eapply stepped_ready; [done|done|]. by eapply Forall_lookup_1. }
  exists (with_table k h' (with_fields m1 fs')). split; [exact E|].
  assert (module_fields (with_table k h' (with_fields m1 fs')) = fs') as Efs by by destruct k.
  split.
  - rewrite <- Hn. by destruct k.
  - rewrite <- He. by destruct k.
  - rewrite Efs. eapply Forall2_trans; [|exact H2|exact H2']. intros f f1 f2. by apply stepped_step.
  - intros k' Hk'. rewrite Efs, table_of_with. destruct (decide (k' = k)) as [->|Hne].
    + rewrite N, En. split; [by rewrite <- En|done].
    + rewrite (names_of_step k k') with (fs := module_fields m1) by done. apply Hd. set_solver.
  - intros k' Hk'. rewrite Efs, table_of_with, decide_False by set_solver.
    rewrite (names_of_step k k') with (fs := module_fields m1) by set_solver. apply Hl. set_solver.
Qed.

Lemma generate_runs m : module_ready m ->
  exists m', wasm_generate_names uninit m = Some (WASM_OK, m') /\ progress all_spaces m m'.
Proof.
  intros Hr. unfold wasm_generate_names. rewrite visit_loops.
  destruct (loop_progress [] GLOBAL m m Hr) as (m1 & -> & H1); [set_solver|apply progress_nil|].
  destruct (loop_progress [GLOBAL] FUNC_TYPE m m1 Hr) as (m2 & -> & H2); [set_solver|done|].
  destruct (loop_progress [FUNC_TYPE; GLOBAL] FUNC m m2 Hr) as (m3 & -> & H3); [set_solver|done|].
  destruct (loop_progress [FUNC; FUNC_TYPE; GLOBAL] TABLE m m3 Hr) as (m4 & -> & H4); [set_solver|done|].
  destruct (loop_progress [TABLE; FUNC; FUNC_TYPE; GLOBAL] MEMORY m m4 Hr) as (m5 & -> & H5); [set_solver|done|]. by exists m5.
Qed.
End module.

(** A field after all loops. *)
Lemma stepped_all f f' : stepped all_spaces f f' <-> match space_of f with Some _ => generated_field f f' | None => f' = f end.
Proof. unfold stepped. destruct (space_of f) as [[k n]|]; [|done]. by rewrite decide_True by (destruct k; set_solver). Qed.

Section after.
Context (m m' : WasmModule).
Hypothesis Hr : module_ready m.
Hypothesis Hp : progress all_spaces m m'.

Lemma after_tabled k : tabled (table_of k m') (names_of k (module_fields m')) /\
  names_of k (module_fields m') = gen_names (prefix_of k) 0 (names_of k (module_fields m)).
Proof. apply (progress_done _ _ _ Hp). clear. destruct k; set_solver. Qed.

Lemma after_fields : Forall2 (fun f f' => match space_of f with Some _ => generated_field f f' | None => f' = f end)
  (module_fields m) (module_fields m').
Proof. eapply Forall2_impl; [apply (progress_fields _ _ _ Hp)|]. intros f f'. apply stepped_all. Qed.

Lemma after_erase : erase_module m' = erase_module m.
Proof.
  unfold erase_module. rewrite (progress_name _ _ _ Hp), (progress_exports _ _ _ Hp). f_equal.
  induction after_fields as [|f f' fs fs' H _ IH]; [done|]. cbn [map]. rewrite IH. f_equal.
  destruct (space_of f); [apply H|by rewrite H].
Qed.

Lemma after_named : module_named m'.
Proof.
  destruct (names_of_module m') as (E1 & E2 & E3 & E4 & E5).
  split; rewrite ?E1, ?E2, ?E3, ?E4, ?E5;
    [apply (after_tabled FUNC)|apply (after_tabled GLOBAL)|apply (after_tabled FUNC_TYPE)|apply (after_tabled TABLE)|apply (after_tabled MEMORY)].
Qed.

(** The functions of a module, before and after. *)
Lemma after_field_cases f f' : match space_of f with Some _ => generated_field f f' | None => f' = f end ->
  match f, f' with
  | FIELD_FUNC x, FIELD_FUNC x' => generated_func x x'
  | FIELD_IMPORT (mkImport a b (IMPORT_FUNC x)), FIELD_IMPORT (mkImport a' b' (IMPORT_FUNC x')) =>
      a' = a /\ b' = b /\ generated_func x x'
  | FIELD_GLOBAL x, FIELD_GLOBAL x' => global_init_expr x' = global_init_expr x
  | FIELD_IMPORT (mkImport a b (IMPORT_GLOBAL x)), FIELD_IMPORT (mkImport a' b' (IMPORT_GLOBAL x')) =>
      global_init_expr x' = global_init_expr x
  | FIELD_TABLE _, FIELD_TABLE _ | FIELD_MEMORY _, FIELD_MEMORY _ | FIELD_FUNC_TYPE _, FIELD_FUNC_TYPE _
  | FIELD_IMPORT (mkImport _ _ (IMPORT_TABLE _)), FIELD_IMPORT (mkImport _ _ (IMPORT_TABLE _))
  | FIELD_IMPORT (mkImport _ _ (IMPORT_MEMORY _)), FIELD_IMPORT (mkImport _ _ (IMPORT_MEMORY _)) => True
  | FIELD_EXPORT _, _ | FIELD_ELEM_SEGMENT _, _ | FIELD_DATA_SEGMENT _, _ | FIELD_START _, _ => f' = f
  | _, _ => False
  end.
Proof.
  destruct f as [x|x|[a b []]|x|x|x|x|x|x|x]; cbn [space_of]; try done; intros (E & _ & H);
    destruct f' as [y|y|[a' b' []]|y|y|y|y|y|y|y]; try discriminate E; try done; by injection E.
Qed.

(** What holds of related fields holds all over. *)
Lemma after_Forall (P Q : WasmModuleField -> Prop) : (forall f f', field_ready f -> P f ->
    match space_of f with Some _ => generated_field f f' | None => f' = f end -> Q f') ->
  Forall P (module_fields m) -> Forall Q (module_fields m').
Proof.
  intros H. pose proof (ready_fields m Hr) as Hf. induction after_fields as [|f f' fs fs' Hs _ IH]; [constructor|].
  intros [Px Pl]%Forall_cons. apply Forall_cons in Hf as [Fx Fl]. constructor; [by apply (H f)|by apply IH].
Qed.

Lemma func_named_wf x : func_named x -> func_wf x.
Proof. intros H. split; [apply (params_tabled x H)|apply (locals_tabled x H)]. Qed.

Lemma after_consistent : module_wf m -> names_consistent m'.
Proof.
  intros [Hh Hw]. split_and!; [split|apply after_named|].
  - pose proof (fun k => proj1 (proj1 (after_tabled k))) as Hk. rewrite !Forall_cons in Hh |- *. rewrite (progress_exports _ _ _ Hp).
    split_and!; [apply (Hk FUNC)|apply (Hk GLOBAL)|apply Hh|apply (Hk FUNC_TYPE)|apply (Hk TABLE)|apply (Hk MEMORY)|constructor].
  - eapply after_Forall; [|exact Hw]. intros f f' _ H Hs%after_field_cases.
    destruct f as [x|x|[a b []]|x|x|x|x|x|x|x], f' as [y|y|[a' b' []]|y|y|y|y|y|y|y]; try done; try discriminate Hs; cbn [field_wf] in *;
      try (by rewrite Hs); try by injection Hs as ->.
    + by apply func_named_wf, (gen_named _ _ Hs).
    + by apply func_named_wf, (gen_named _ _ (proj2 (proj2 Hs))).
  - unfold fields_named. eapply (after_Forall (fun _ => True)); [|by apply Forall_true]. intros f f' _ _ Hs%after_field_cases.
    destruct f as [x|x|[a b []]|x|x|x|x|x|x|x], f' as [y|y|[a' b' []]|y|y|y|y|y|y|y]; try done; try discriminate Hs.
    + apply (gen_named _ _ Hs).
    + apply (gen_named _ _ (proj2 (proj2 Hs))).
Qed.

Lemma after_unique : module_unique m = true -> module_unique m' = true.
Proof.
  unfold module_unique. cbn [forallb]. rewrite (progress_exports _ _ _ Hp), !andb_true_iff.
  pose proof (fun k => tabled_unique _ _ (proj1 (after_tabled k))) as Hk.
  intros (_ & _ & He & _). split_and!; try done; [apply (Hk FUNC)|apply (Hk GLOBAL)|apply (Hk FUNC_TYPE)|apply (Hk TABLE)|apply (Hk MEMORY)].
Qed.
End after.

(** ** Names and labels do not matter to indices *)

Lemma forallb_map_ext {A B} (g : B -> bool) (h : A -> B) (f : A -> bool) l :
  Forall (fun x => g (h x) = f x) l -> forallb g (map h l) = forallb f l.
Proof. induction 1 as [|x l E _ IH]; [done|]. cbn [map forallb]. by rewrite E, IH. Qed.

Lemma closed_erase : forall e, closed_expr (erase_expr e) = closed_expr e.
Proof.
  apply (WasmExpr_nested_ind (fun e => closed_expr (erase_expr e) = closed_expr e)); cbn [erase_expr closed_expr].
  - intros l s es H. by apply forallb_map_ext.
  - intros l s es H. by apply forallb_map_ext.
  - intros l s ts fs Ht Hf. f_equal; by apply forallb_map_ext.
  - by intros [].
Qed.

Lemma in_range_erase m n : forall e, in_range_expr m n (erase_expr e) = in_range_expr m n e.
Proof.
  apply (WasmExpr_nested_ind (fun e => in_range_expr m n (erase_expr e) = in_range_expr m n e)); cbn [erase_expr in_range_expr].
  - intros l s es H. by apply forallb_map_ext.
  - intros l s es H. by apply forallb_map_ext.
  - intros l s ts fs Ht Hf. f_equal; by apply forallb_map_ext.
  - by intros [].
Qed.

(** Only the sizes of the spaces matter. *)
Definition same_sizes (m m' : WasmModule) : Prop := forall k, length (names_of k (module_fields m')) = length (names_of k (module_fields m)).

Lemma in_range_expr_sizes m m' n : same_sizes m m' -> forall e, in_range_expr m' n e = in_range_expr m n e.
Proof.
  intros Hs. destruct (names_of_module m) as (E1 & E2 & E3 & E4 & E5). destruct (names_of_module m') as (E1' & E2' & E3' & E4' & E5').
  apply (WasmExpr_nested_ind (fun e => in_range_expr m' n e = in_range_expr m n e)); cbn [in_range_expr].
  - intros l s es H. rewrite <- (map_id es) at 1. by apply forallb_map_ext.
  - intros l s es H. rewrite <- (map_id es) at 1. by apply forallb_map_ext.
  - intros l s ts fs Ht Hf. rewrite <- (map_id ts) at 1. rewrite <- (map_id fs) at 1. f_equal; by apply forallb_map_ext.
  - intros []; try done; cbn [in_range_expr]; rewrite ?E1, ?E2, ?E3, ?E1', ?E2', ?E3'; by rewrite Hs.
Qed.

Lemma map_erase_forallb (P : WasmExpr -> bool) es es' : (forall e, P (erase_expr e) = P e) ->
  map erase_expr es' = map erase_expr es -> forallb P es' = forallb P es.
Proof.
  intros HP E. rewrite <- (forallb_map_ext P erase_expr P es), <- (forallb_map_ext P erase_expr P es') by by apply Forall_true.
  by rewrite E.
Qed.

Lemma erase_func_parts f f' : erase_func f' = erase_func f ->
  func_decl f' = func_decl f /\ func_local_types f' = func_local_types f /\
  map erase_expr (func_first_expr f') = map erase_expr (func_first_expr f).
Proof. unfold erase_func. by intros [=]. Qed.

Lemma generated_closed f f' : generated_func f f' -> closed_func f' = closed_func f.
Proof.
  intros (Ed & _ & Ee)%gen_erase%erase_func_parts. unfold closed_func. rewrite Ed. f_equal.
  by apply map_erase_forallb; [apply closed_erase|].
Qed.

Lemma generated_in_range m m' f f' : same_sizes m m' -> generated_func f f' -> in_range_func m' f' = in_range_func m f.
Proof.
  intros Hs (Ed & El & Ee)%gen_erase%erase_func_parts. unfold in_range_func, num_locals. rewrite Ed, El.
  destruct (names_of_module m) as (_ & _ & E3 & _). destruct (names_of_module m') as (_ & _ & E3' & _).
  rewrite E3, E3', (Hs FUNC_TYPE). f_equal. rewrite (map_erase_forallb _ _ _ (in_range_erase m' _) Ee).
  rewrite <- (map_id (func_first_expr f)) at 1. apply forallb_map_ext, Forall_true. intros e. by apply in_range_expr_sizes.
Qed.

(** ** Clear names *)

Lemma tame_keys p names s i : tame p names -> s ∈ (named_from i names).*1 -> forall k, s <> numbered p k.
Proof.
  intros Ht ([t j] & E & Hin)%list_elem_of_fmap. cbn in E. subst t. apply elem_named_from in Hin as [_ Hin].
  apply list_elem_of_lookup_2 in Hin. unfold tame in Ht. rewrite Forall_forall in Ht. by apply (Ht _ Hin).
Qed.

Lemma distinct_app l l' : distinct (l ++ l') <->
  NoDup (named_from 0 l).*1 /\ (forall s, s ∈ (named_from 0 l).*1 -> s ∉ (named_from 0 l').*1) /\ NoDup (named_from 0 l').*1.
Proof.
  unfold distinct. rewrite named_from_app, fmap_app, (named_from_keys (0 + Z.of_nat (length l)) 0). apply NoDup_app.
Qed.

Lemma gen_keys p names s : tame p names -> Z.of_nat (length names) < 2 ^ 32 ->
  s ∈ (named_from 0 (gen_names p 0 names)).*1 -> (exists k, s = numbered p k) \/ s ∈ (named_from 0 names).*1.
Proof.
  intros Ht Hl. rewrite gen_names_pairs by (done || lia). rewrite fmap_app, elem_of_app.
  intros [(k & -> & _)%new_from_keys|H]; [left; eauto|done|by right].
Qed.

(** Generated parameters and locals keep apart. *)
Lemma gen_distinct_locals ps ls : distinct (ps ++ ls) -> tame "$p" (ps ++ ls) -> tame "$l" (ps ++ ls) ->
  Z.of_nat (length ps) < 2 ^ 32 -> Z.of_nat (length ls) < 2 ^ 32 ->
  distinct (gen_names "$p" 0 ps ++ gen_names "$l" 0 ls).
Proof.
  intros (Dp & Dd & Dl)%distinct_app [Pp Pl]%Forall_app [Lp Ll]%Forall_app Sp Sl. apply distinct_app.
  split_and!; [by apply gen_names_distinct| |by apply gen_names_distinct].
  intros s [[k ->]|Hs]%gen_keys; [..|done|done].
  - intros [[k' E]|Hl]%gen_keys; [discriminate E| |done|done]. by apply (tame_keys _ _ _ _ Pl Hl k).
  - intros [[k' ->]|Hl]%gen_keys; [| |done|done]; [by apply (tame_keys _ _ _ _ Lp Hs k')|by apply (Dd s)].
Qed.

Definition unlabelled_func (f : WasmFunc) : Prop := forallb unlabelled (func_first_expr f) = true /\ few_blocks f.

Lemma generated_clear f f' : func_ready f -> unlabelled_func f -> generated_func f f' -> clear_func f = true -> clear_func f' = true.
Proof.
  intros Hr [Hu Hb] Hg [[Hd%bool_decide_eq_true_1 Hv]%andb_true_iff He]%andb_true_iff.
  pose proof (ready_few f Hr) as Hfew. unfold num_locals in Hfew. pose proof (ready_named f Hr) as Hn.
  pose proof (params_length f Hn). pose proof (locals_length f Hn). unfold clear_func.
  destruct (erase_func_parts _ _ (gen_erase _ _ Hg)) as (-> & _ & _). rewrite Hv, (gen_clear _ _ Hg) by done.
  rewrite (gen_params _ _ Hg), (gen_locals _ _ Hg), bool_decide_eq_true_2; [done|].
  apply gen_distinct_locals; try apply Hr; [done|unfold WasmStringSlice in *; lia..].
Qed.

(** ** There and back *)

Definition field_unlabelled (f : WasmModuleField) : Prop :=
  match f with FIELD_FUNC x | FIELD_IMPORT (mkImport _ _ (IMPORT_FUNC x)) => unlabelled_func x | _ => True end.

Section back.
Context (m m' : WasmModule).
Hypothesis Hr : module_ready m.
Hypothesis Hp : progress all_spaces m m'.

Lemma after_sizes : same_sizes m m'.
Proof. intros k. rewrite (proj2 (after_tabled m m' Hp k)). apply length_gen_names. Qed.

Lemma after_closed : closed_fields (module_fields m') = closed_fields (module_fields m).
Proof.
  induction (after_fields m m' Hp) as [|f f' fs fs' Hs%after_field_cases H IH]; [done|]. cbn [closed_fields]. rewrite IH.
  assert (existsb is_start fs' = existsb is_start fs) as ->.
  { clear -H. induction H as [|f f' fs fs' Hs%after_field_cases _ IH]; [done|]. cbn [existsb]. rewrite IH. f_equal.
    by destruct f as [x|x|[a b []]|x|x|x|x|x|x|x], f' as [y|y|[a' b' []]|y|y|y|y|y|y|y]. }
  f_equal. destruct f as [x|x|[a b []]|x|x|x|x|x|x|x], f' as [y|y|[a' b' []]|y|y|y|y|y|y|y]; try done; try discriminate Hs;
    cbn [closed_field]; try (by injection Hs as ->); try (by rewrite Hs); apply generated_closed, Hs.
Qed.

Lemma after_in_range : in_range m' = in_range m.
Proof.
  pose proof after_sizes as Hz.
  assert (length (func_names m') = length (func_names m) /\ length (table_names m') = length (table_names m) /\
    length (memory_names m') = length (memory_names m)) as (Ef & Et & Em).
  { destruct (names_of_module m) as (-> & _ & _ & -> & ->), (names_of_module m') as (-> & _ & _ & -> & ->). by rewrite !Hz. }
  unfold in_range. induction (after_fields m m' Hp) as [|f f' fs fs' Hs%after_field_cases _ IH]; [done|]. cbn [forallb]. rewrite IH.
  f_equal. destruct f as [x|x|[a b []]|x|x|x|x|x|x|x], f' as [y|y|[a' b' []]|y|y|y|y|y|y|y]; try done; try discriminate Hs;
    cbn [in_range_field]; try (by apply generated_in_range, Hs); injection Hs as ->; by rewrite ?Ef, ?Et, ?Em.
Qed.

Lemma after_clear : Forall field_unlabelled (module_fields m) -> forallb exports_func (module_fields m) = true ->
  clear_module m = true -> clear_module m' = true.
Proof.
  intros Hu He Hc. unfold clear_module in *. pose proof (ready_fields m Hr) as Hf. revert Hu He Hc Hf.
  induction (after_fields m m' Hp) as [|f f' fs fs' Hs%after_field_cases _ IH]; [done|]. cbn [forallb].
  intros [Ux Ul]%Forall_cons [Ex El]%andb_true_iff [Cx Cl]%andb_true_iff [Fx Fl]%Forall_cons. rewrite IH by done. rewrite andb_true_r.
  destruct f as [x|x|[a b []]|x|x|x|x|x|x|x], f' as [y|y|[a' b' []]|y|y|y|y|y|y|y]; try done; try discriminate Hs;
    cbn [clear_field field_unlabelled field_ready exports_func] in *; try (by injection Hs as ->);
    try (by eapply generated_clear; [exact Fx|exact Ux|apply Hs|exact Cx]).
  injection Hs as ->. unfold clear_export in *. by destruct (export_kind x).
Qed.
End back.

(** *** Indices resolve to themselves *)

Lemma closed_ref_func look m f : unique (func_param_bindings f) = true -> unique (func_local_bindings f) = true ->
  closed_func f = true -> ref_func look m f = Some f.
Proof.
  intros Up Ul [Hd He]%andb_true_iff. unfold ref_func. rewrite Up, Ul. cbn [check].
  assert (ref_decl look m (func_decl f) = Some (func_decl f)) as ->.
  { unfold ref_decl. destruct (wasm_decl_has_func_type (func_decl f)); [|done]. cbn [negb orb] in Hd.
    rewrite closed_ref_var by done. by destruct (func_decl f). }
  cbn [mbind option_bind]. rewrite closed_ref_exprs by done. by destruct f.
Qed.

Lemma closed_ref_vars look h vs : forallb closed_var vs = true -> mapM (ref_var look h) vs = Some vs.
Proof. apply forallb_mapM, Forall_true. intros v. apply closed_ref_var. Qed.

Lemma closed_ref_field look m b f :
  match f with FIELD_FUNC x | FIELD_IMPORT (mkImport _ _ (IMPORT_FUNC x)) => func_named x | _ => True end ->
  closed_field b f = true -> ref_field look m b f = Some f.
Proof.
  assert (forall x, func_named x -> closed_func x = true -> ref_func look m x = Some x) as Hx
    by (intros x Hn; apply closed_ref_func; eapply tabled_unique; apply Hn).
  destruct f as [x|x|[a c []]|x|x|x|x|x|x|x]; cbn [closed_field ref_field]; intros Hn Hc; try done.
  - by rewrite Hx.
  - unfold ref_global. rewrite closed_ref_exprs by done. by destruct x.
  - by rewrite Hx.
  - unfold ref_global. rewrite closed_ref_exprs by done. by destruct global.
  - rewrite closed_ref_var by done. by destruct x.
  - apply andb_true_iff in Hc as [[Ht Ho]%andb_true_iff Hv]. rewrite closed_ref_var, closed_ref_exprs by done.
    cbn [mbind option_bind]. rewrite closed_ref_vars by done. by destruct x.
  - apply andb_true_iff in Hc as [Ht Ho]. rewrite closed_ref_var, closed_ref_exprs by done. by destruct x.
  - destruct b; [|done]. cbn [negb orb] in Hc. by rewrite closed_ref_var.
Qed.

Lemma closed_ref_module m : module_unique m = true -> fields_named m -> closed_fields (module_fields m) = true ->
  ref_module bound m = Some m.
Proof.
  intros Hu Hn Hc. unfold ref_module. change (forallb unique _) with (module_unique m). rewrite Hu. cbn [check mbind option_bind].
  assert (ref_fields bound m (module_fields m) = Some (module_fields m)) as ->; [|by destruct m].
  unfold fields_named in Hn. revert Hc. induction Hn as [|f fs Hf _ IH]; [done|]. cbn [closed_fields ref_fields].
  intros [Cf Cs]%andb_true_iff. by rewrite closed_ref_field, IH.
Qed.

Lemma resolved_closed m : module_wf m -> wasm_resolve_names_module m = Some (WASM_OK, m) ->
  closed_fields (module_fields m) = true /\ module_unique m = true.
Proof.
  intros Hw E%resolve_ref; [|done]. split.
  - apply ref_module_again in E as (fs & -> & Hc & _). exact Hc.
  - unfold ref_module in E. change (forallb unique _) with (module_unique m) in E. by destruct (module_unique m).
Qed.

(** ** A sample *)

(** A function with a parameter, a local and two blocks, and its export. *)
Definition bare_module (callee outer inner param local : WasmVar) (name n_x n_y l_a l_b : WasmStringSlice)
    (funcs params locals : WasmBindingHash) : WasmModule :=
  mkModule None [FIELD_FUNC (mkFunc name (mkFuncDeclaration 0 (VAR_INDEX 0) (mkFuncSignature [WASM_TYPE_I32] []))
      [WASM_TYPE_I32] params locals
      [EXPR_BLOCK l_a [] [EXPR_LOOP l_b [] [EXPR_GET_LOCAL param; EXPR_SET_LOCAL local; EXPR_GET_LOCAL param; EXPR_BR_IF inner; EXPR_BR outer]];
       EXPR_GET_LOCAL local; EXPR_CALL callee]);
      FIELD_EXPORT (mkExport (Some "f"%string) WASM_EXTERNAL_KIND_FUNC callee)]
    funcs empty_hash empty_hash empty_hash empty_hash empty_hash.

Definition bare : WasmModule := bare_module (VAR_INDEX 0) (VAR_INDEX 1) (VAR_INDEX 0) (VAR_INDEX 0) (VAR_INDEX 1)
  None None None None None empty_hash empty_hash empty_hash.

(** With generated names, and those in use. *)
Definition bare_named : WasmModule := bare_module (VAR_INDEX 0) (VAR_INDEX 1) (VAR_INDEX 0) (VAR_INDEX 0) (VAR_INDEX 1)
  (Some "$f0"%string) (Some "$p0"%string) (Some "$l0"%string) (Some "$B0"%string) (Some "$L1"%string)
  (names_table ["$f0"]) (names_table ["$p0"]) (names_table ["$l0"]).
Definition bare_applied : WasmModule := bare_module (VAR_NAME "$f0") (VAR_NAME "$B0") (VAR_NAME "$L1") (VAR_NAME "$p0") (VAR_NAME "$l0")
  (Some "$f0"%string) (Some "$p0"%string) (Some "$l0"%string) (Some "$B0"%string) (Some "$L1"%string)
  (names_table ["$f0"]) (names_table ["$p0"]) (names_table ["$l0"]).

Lemma bare_ready : module_ready bare.
Proof.
  split.
  - intros k. assert (tame (prefix_of k) (names_of k (module_fields bare)) /\ Forall (fun n => n = None) (names_of k (module_fields bare)) /\
      table_of k bare = empty_hash) as (Ht & Hn & ->) by (destruct k; split_and!; try reflexivity; repeat constructor; discriminate).
    split_and!; [by apply no_name_tabled|done|by destruct k].
  - repeat (apply Forall_cons; split); try apply Forall_nil_2; [|done].
    cbn [field_ready bare bare_module module_fields]. set (f := mkFunc _ _ _ _ _ _).
    assert (param_names f = [None]) as Ep by (vm_compute; reflexivity). assert (local_names f = [None]) as El by (vm_compute; reflexivity).
    split; [split|..]; rewrite ?Ep, ?El; try reflexivity; try (by apply no_name_tabled; repeat constructor);
      repeat constructor; discriminate.
Qed.

Lemma bare_wf : module_wf bare.
Proof.
  split; repeat (apply Forall_cons; split); try apply Forall_nil_2; try apply hash_wf_empty; [|done].
  split; apply hash_wf_empty.
Qed.

(** C8 - Generated names, there and back.  For a module whose variables are
    indices, whose tables of bindings are those of its names, and whose names are
    distinct and look like none that is generated ([module_ready]), the pass of
    [--generate-names] succeeds.  It changes names, labels and tables of bindings
    only; an item without a name gets its prefix and its index, every block has a
    label, and the tables are again those of the names.  Then applying the names
    reports an error exactly when an index is out of range.  Resolving what it
    made gives back the module with its indices, under three more conditions:
    only functions are exported (an export of another kind takes a function's
    name, and does not resolve), no block has a label of its own, and
    [clear_module] (indices fit an [int]; no local hides another of its name). *)
Theorem generated_names_back (uninit : nat -> WasmBindingHashEntry) (m : WasmModule) :
  module_wf m -> module_ready m -> wasm_resolve_names_module m = Some (WASM_OK, m) ->
  exists m1, wasm_generate_names uninit m = Some (WASM_OK, m1) /\ erase_module m1 = erase_module m /\ names_consistent m1 /\
    (forall k, names_of k (module_fields m1) = gen_names (prefix_of k) 0 (names_of k (module_fields m))) /\
    Forall2 (fun f f1 => match f, f1 with
      | FIELD_FUNC x, FIELD_FUNC x1
      | FIELD_IMPORT (mkImport _ _ (IMPORT_FUNC x)), FIELD_IMPORT (mkImport _ _ (IMPORT_FUNC x1)) =>
          param_names x1 = gen_names "$p" 0 (param_names x) /\ local_names x1 = gen_names "$l" 0 (local_names x) /\
          forallb labelled (func_first_expr x1) = true
      | _, _ => True end) (module_fields m) (module_fields m1) /\
    exists m2, wasm_apply_names m1 = Some (if in_range m then WASM_OK else WASM_ERROR, m2) /\
      (in_range m = true -> m2 = applied_module m1 /\
       (Forall field_unlabelled (module_fields m) -> forallb exports_func (module_fields m) = true -> clear_module m = true ->
        wasm_resolve_names_module m2 = Some (WASM_OK, m1))).
Proof.
  intros Hw Hr Er. destruct (generate_runs uninit m Hr) as (m1 & E1 & Hp).
  pose proof (after_consistent m m1 Hr Hp Hw) as Hn. destruct (resolved_closed m Hw Er) as [Hc Hu].
  assert (wasm_resolve_names_module m1 = Some (WASM_OK, m1)) as Er1.
  { apply resolve_ref; [apply Hn|]. apply closed_ref_module; [by eapply after_unique|apply Hn|by rewrite (after_closed m m1 Hp)]. }
  destruct (apply_names_ref m1 m1 Hn Er1) as (m2 & E2 & H2). rewrite (after_in_range m m1 Hp) in *.
  exists m1. split_and!; [done|by apply after_erase|done|intros k; apply (after_tabled m m1 Hp k)| |].
  - eapply Forall2_impl; [apply (after_fields m m1 Hp)|]. intros f f1 Hs%after_field_cases.
    destruct f as [x|x|[a b []]|x|x|x|x|x|x|x], f1 as [y|y|[a' b' []]|y|y|y|y|y|y|y]; try done;
      split_and!; try apply (gen_params _ _ Hs); try apply Hs.
  - exists m2. split; [done|]. intros Hi. destruct (H2 Hi) as [-> Hb]. split; [done|].
    intros Hun He Hcl. apply Hb. by apply (after_clear m m1).
Qed.

Lemma generated_names_back_witness : wasm_generate_names junk_entry bare = Some (WASM_OK, bare_named) /\
  wasm_apply_names bare_named = Some (WASM_OK, bare_applied) /\ wasm_resolve_names_module bare_applied = Some (WASM_OK, bare_named).
Proof.
  destruct (generated_names_back junk_entry bare bare_wf bare_ready) as (m1 & E1 & _ & _ & _ & _ & m2 & E2 & H);
    [vm_compute; reflexivity|].
  assert (wasm_generate_names junk_entry bare = Some (WASM_OK, bare_named)) as E by (vm_compute; reflexivity).
  rewrite E in E1. injection E1 as <-. assert (in_range bare = true) as Hi by (vm_compute; reflexivity). rewrite Hi in E2.
  destruct (H Hi) as [-> Hb]. assert (applied_module bare_named = bare_applied) as Ea by (vm_compute; reflexivity).
  rewrite Ea in *. split; [exact E|split; [exact E2|]]. apply Hb; [|vm_compute; reflexivity..].
  repeat (apply Forall_cons; split); try apply Forall_nil_2; [|exact I]. split; [vm_compute; reflexivity|reflexivity].
Defined.

(** ** Where names go wrong *)

Definition code_module (params : list string) (locals : list string) (body : list WasmExpr) : WasmModule :=
  mkModule None [FIELD_FUNC (mkFunc None (mkFuncDeclaration 0 (VAR_INDEX 0) (mkFuncSignature (map (fun _ => WASM_TYPE_I32) params) []))
      (map (fun _ => WASM_TYPE_I32) locals) (names_table params) (names_table locals) body)]
    empty_hash empty_hash empty_hash empty_hash empty_hash empty_hash.

(** A named function and a memory, which is exported. *)
Definition memory_module (exported : WasmVar) : WasmModule :=
  mkModule None [FIELD_FUNC (mkFunc (Some "$f"%string) (mkFuncDeclaration 0 (VAR_INDEX 0) (mkFuncSignature [] [])) [] empty_hash empty_hash []);
      FIELD_MEMORY (mkMemory None (mkLimits 1 1 false));
      FIELD_EXPORT (mkExport (Some "memory"%string) WASM_EXTERNAL_KIND_MEMORY exported)]
    (names_table ["$f"]) empty_hash empty_hash empty_hash empty_hash empty_hash.

(** Two functions, the second of which is called [name]. *)
Definition two_funcs (name first : WasmStringSlice) (names : WasmBindingHash) : WasmModule :=
  let f n := FIELD_FUNC (mkFunc n (mkFuncDeclaration 0 (VAR_INDEX 0) (mkFuncSignature [] [])) [] empty_hash empty_hash []) in
  mkModule None [f first; f name] names empty_hash empty_hash empty_hash empty_hash empty_hash.

(** What the conditions of the theorems keep out.  An exported memory gets the
    name of the function of its index, which then does not resolve; a branch to
    a label that is not there dereferences a null pointer; a branch past a block
    of the same label, and a local that a parameter of its name hides, come back
    as other variables; and a generated name can be one the module has. *)
Lemma names_faults :
  wasm_apply_names (memory_module (VAR_INDEX 0)) = Some (WASM_OK, memory_module (VAR_NAME "$f")) /\
  (exists m, wasm_resolve_names_module (memory_module (VAR_NAME "$f")) = Some (WASM_ERROR, m)) /\
  wasm_apply_names (code_module [] [] [EXPR_BR (VAR_NAME "$nowhere")]) = None /\
  (let nested v := code_module [] [] [EXPR_BLOCK (Some "$a"%string) [] [EXPR_BLOCK (Some "$a"%string) [] [EXPR_BR v]]] in
   wasm_apply_names (nested (VAR_INDEX 1)) = Some (WASM_OK, nested (VAR_NAME "$a")) /\
   wasm_resolve_names_module (nested (VAR_NAME "$a")) = Some (WASM_OK, nested (VAR_INDEX 0))) /\
  (let hidden v := code_module ["$x"] ["$x"] [EXPR_GET_LOCAL v; EXPR_DROP] in
   wasm_apply_names (hidden (VAR_INDEX 1)) = Some (WASM_OK, hidden (VAR_NAME "$x")) /\
   wasm_resolve_names_module (hidden (VAR_NAME "$x")) = Some (WASM_OK, hidden (VAR_INDEX 0))) /\
  (exists m m', wasm_generate_names junk_entry (two_funcs (Some "$f0"%string) None (default empty_hash
       (insert_binding_index junk_entry empty_hash (Some "$f0"%string) 1))) = Some (WASM_OK, m) /\
     func_names m = [Some "$f0"; Some "$f0"]%string /\ wasm_resolve_names_module m = Some (WASM_ERROR, m')).
Proof.
  split_and!; [vm_compute; reflexivity|eexists; vm_compute; reflexivity|vm_compute; reflexivity|..].
  - vm_compute. by split.
  - vm_compute. by split.
  - eexists _, _. split; [vm_compute; reflexivity|]. split; [vm_compute; reflexivity|vm_compute; reflexivity].
Qed.
